(* ===== verification/_CoqProject ===== *)
-Q . S2P
Prelude.v
CFloat.v
CStr.v
TunerTypes.v
TunerConfig.v
TunerCost.v
TunerPlugin.v
TunerSpec.v
Bitops.v
BitopsSpec.v
NetTypes.v
NetBase.v
NetDemo.v
NetLemmas.v
NetInv.v
NetInit.v
NetSpec.v
NetSend.v
SendPlan.v
SendSpec.v
IsendSpec.v
NetRecv.v
RecvSpec.v
Resiliency.v
ResiliencySpec.v
ReplaySpec.v
NetTest.v
TestSpec.v
RegCache.v
RegSpec.v
RegHandles.v
Recovery.v
RecoverySpec.v
RecoveryOutcome.v
RecoveryThread.v
ThreadSpec.v
ThreadDemo.v
ThreadRecovery.v
NetWf.v
TestTermination.v
ConnGid.v
GidSpec.v
ConnTypes.v
ConnQp.v
ConnSetup.v
Socket.v
Connect.v
ConnClose.v
ConnLogic.v
ConnSetupSpec.v
ConnDataSpec.v
ConnAllSpec.v
SocketSpec.v
HandshakeBase.v
HandshakeSend.v
HandshakeRecv.v
HandshakeFlow.v
HandshakeSpec.v
HandshakeDemo.v
LatMon.v
LatSpec.v
HostUtils.v
HostSpec.v
Devices.v
DevicesSpec.v
DevicesFind.v
Interfaces.v
InterfacesSpec.v
SocketBlock.v
Chains.v
AddressMap.v
MapSpec.v
IntruQueue.v
MpscQueue.v
Events.v
MemStack.v
StackSpec.v
Params.v
ParamsSpec.v
HostHash.v
