(* ===== verification/Prelude.v ===== *)
(** * mrc-nccl-plugin: a verification library

    The repository builds two NCCL plugins: a tuner ([src/tuner]), which prices
    collective algorithms, and a network plugin ([src/net]), whose transport
    ([src/net/transport/net_ib]) moves messages over several RDMA devices, survives
    the failure of a device and brings a failed one back.  This library models the
    logic of both in Rocq and proves what makes it correct.  The code is C and C++;
    every definition keeps the name of the function, method or type it translates.

    ** How code is modelled

    A function of the code is a computation [comp S A] (this file): state in, and out
    comes a state with [Done a] (a normal return), [Fail r] (a returned error code) or
    [Fault] (undefined behaviour: an index out of an array, a null pointer, a
    division by zero, an integer overflow where it matters).  [let*] and [;;;]
    sequence computations, [forN] is a counted loop.  An effect made before an error
    stays.  Unsigned integers are [Z] with the wrap-around written out ([u8], [u16],
    [u32], [u64], [wrapU w]); an [int] is a [Z] whose overflow is taken not to
    happen unless a definition checks it.  A pointer into an array is the index of the
    element, [None] for NULL.  The members of a union are separate fields.

    What is outside the repository is a parameter: the RDMA provider, the file
    system, the kernel's sockets, the allocator.  A provider is a function of
    everything it was asked before ([Env], [Provider], the [ops] of [RegCache]), so a
    theorem for all providers covers every failure at every point.

    ** The parts, and how they fit together

    - This file: the monad, machine integers, arrays with checked access ([zget],
      [zset], [zupd]), result codes, the rewriting and resolution databases [nccl].
    - Tuner.  [CFloat] and [CStr]: C floating point and the C library's string
      functions.  [TunerTypes], [TunerConfig], [TunerCost], [TunerPlugin] follow
      [tuner/plugin.c] from its structures over the CSV file and the cost model to the
      three entry points; [TunerSpec] has the contract of [getCollInfo] as a relation
      ([CollInfoSpec]) and the refinement, loading a printed configuration, caps
      and monotonicity of prices.
    - Bit operations.  [Bitops] is [net/include/bitops.h]; [BitopsSpec] relates every
      function to arithmetic (division by a stored reciprocal, the 8-bit float code,
      scans, reversal, alignment, the 64-bit hash).
    - Transport, the data path.  A communicator is a [Net] ([NetTypes], from [common.h]
      and [p2p_resiliency.h]).  [NetBase], [NetInit], [NetSend], [NetRecv], [NetTest]
      follow [common.h], [common.cc] and [p2p.cc]: the request table and the weights,
      [ncclIbIsend], [ncclIbIrecv], [ncclIbIflush], [ncclIbTest].  A post or a poll is
      recorded in the [history] of the communicator.
    - Transport, failure.  [Resiliency] is [p2p_resiliency.cc]: an error moves the
      active queue pairs off the device, probes the receiver and replays what is
      missing.  [Recovery] is the handshake of [p2p_resiliency_recovery.cc] that brings
      a device back, run for every failed device by the one thread of
      [RecoveryThread], whose steps interleave with those of the communicators.
    - Transport, registration.  [RegCache] is [reg.cc]: the cache of memory regions.
    - Transport, connection set-up.  A communicator under construction is a [Conn]
      ([ConnTypes]): the [Net] with the members the data path does not read.  [ConnGid]
      (choice of addresses), [ConnQp] (one queue pair), [ConnSetup] (the queue pairs and
      devices of a communicator), [Connect] (connect and accept, resumable at each of
      their labels) and [ConnClose] (listen, close) follow [connect.cc]; [Socket] is the
      part of [socket.cc] and [linux.cc] they call.

    - Transport, around the data path.  [Devices] is the discovery of devices ([init.cc],
      [gdr.cc]); [HostUtils] the parts of [utils.cc] it calls (bus identifiers, lists of
      adapters); [Events] the thread of [common.cc] that handles the events of a device;
      [LatMon] the latency monitor ([wqe_lat_mon.cc]).
    - Sockets.  [Interfaces] is the search for network interfaces and addresses as text
      ([socket.cc], [linux.cc]), [SocketBlock] the transfers that block.
    - Containers ([utils.h], [utils.cc]).  [Chains] is the heap of linked objects;
      [AddressMap] the intrusive hash map, [IntruQueue] the intrusive queue, [MpscQueue] the
      lock-free queue of many producers, as a step relation; [MemStack] the memory stack.
    - The process.  [Params] is [param.cc]: the environment, the configuration files and the
      parameters read from them; [HostHash] the identity of the host and the text of a set of
      flags ([utils.cc]).

    The set-up ends where the data path starts: [HandshakeSpec.handshake_tables] proves
    the property [NetSpec.qps_ready] that the theorems on sends assume.

    ** What is proved

    - The data path.  [NetWf] and [NetInv]: the well-formedness of a communicator
      ([net_inv]) and its preservation by every entry point for every provider; and the
      receiving calls never leave an array, whatever they are handed.
      [SendPlan], [SendSpec], [IsendSpec]: a send is cut into chunks that tile the
      message; what is posted is what the buffers the peer announced need.  [RecvSpec]:
      what a receive announces is what a send accepts.  [TestSpec]: completions are
      counted once, on the right requests, and [test] reports the size sent.
      [TestTermination]: the polling loops end.  [NetSpec]: weights and queue-pair choice.
    - Failure.  [ResiliencySpec], [ReplaySpec]: failure of a device moves its traffic to
      working ones; a replay sends what the receiver has not got, and nothing else.
      [RecoverySpec], [RecoveryOutcome], [ThreadSpec], [ThreadRecovery]: a device is
      reported recovered only when its handshake took place; a dead peer is given up on
      after the configured attempts; a closed communicator is let go of.
    - Registration.  [RegSpec], [RegHandles]: the caches agree with the multiset of the
      handles given out, over all sequences of calls and all answers of the verbs library.
    - Set-up.  [GidSpec]: the address chosen.  [ConnLogic] has the two judgements the rest
      uses ([pres]: a computation leaves a view of the state alone; [triple]);
      [ConnSetupSpec], [ConnDataSpec], [ConnAllSpec] follow each queue pair from its
      creation to RTS; [SocketSpec] relates what a socket has sent and read to the
      messages; [HandshakeSend] and [HandshakeRecv] are the invariants of the two ends,
      one case per label, [HandshakeFlow] their stability, and [HandshakeSpec] puts two
      ends and a connection together: in every interleaving, when the accepting end is
      done, queue pair [i] of each end is connected to queue pair [i] of the other.
      [HandshakeDemo] runs a whole handshake.

    - Discovery.  [DevicesSpec], [DevicesFind]: the search finds exactly the ports wanted,
      against an independent reading of [NCCL_IB_HCA], and merged devices are what their parts add up to.
      [HostSpec]: the round trips of bus identifiers and adapter lists.
    - Events and monitor.  [Events]: each event is counted where it belongs, and a change
      of address published whole or counted as fatal.  [LatSpec]: the monitor refines a
      first-in-first-out list of stamped work requests per queue pair.
    - Sockets.  [InterfacesSpec]: a search is a filter, and the automatic choice finds an
      interface whenever there is one.  [SocketBlock]: a blocking send ends and sends all.
    - Containers.  [MapSpec]: the hash map is a finite map, through its growth;
      [IntruQueue]: queues over one heap are lists; [MpscQueue]: under every interleaving the
      elements come out once each and in order, and no wake-up is lost; [StackSpec]: the
      live objects of the memory stack are disjoint and in memory that is theirs.
    - The process.  [ParamsSpec]: parameters refine a specification of which file sets a
      variable and when a value is kept; a written configuration file is read as written.

    [NetDemo] and [ThreadDemo] have the concrete states and runs at which theorems are
    instantiated.

    ** Bounds and fuel

    Loops whose end is not structural take fuel, and a theorem says the fuel is enough:
    [testLoop] takes the number of completions still to come plus one
    ([TestTermination.test_terminates]); the drain of the probing queue the number of
    probes outstanding plus one; [replaceSearch] the number of queue pairs; the loops over
    a GID or a partition table the length the port reports; [loadConfig] and the C string
    functions are structural on the text.  A walk along a chain of objects takes as many
    steps as there are objects, plus one ([Chains.lseg_length] is why they are enough; for the
    memory stack [StackSpec.proxyList_length], [levels_length] and [freeHunks_ok]).  A
    blocking transfer takes a fuel of turns, enough when each turn moves a byte
    ([SocketBlock.SocketSend_sends_all]).  A socket call takes one turn of the
    loop of the code because the transport's sockets are asynchronous.

    ** Assumptions

    One call on a communicator runs to its end before the next (NCCL's proxy thread);
    the recovery thread interleaves between calls and at its critical sections, with
    sequentially consistent atomics.  The progress of one recovery is one step of the
    thread.  The accesses of the lock-free queue are taken to be sequentially consistent,
    though the code asks for less.  The handshake theorem takes both ends to use the same number of queue pairs
    per device, subnet-aware routing to be off and the connection not to be closed.
    Counters of the process that only grow ([ncclIbSpeedChangeCounter]) do not reach their
    limit.

    ** Not modelled

    Logging, tracing and profiling; loading of libraries and the wrappers around verbs, MRC,
    CUDA and NVML ([ibvwrap.cc], [mlx5dvwrap.cc], [cudawrap.cc], [nvmlwrap.cc], the
    [...symbols.cc]): they forward; the kernel-module probes of [gdr.cc] and [gdrwrap.cc];
    addresses to text and [ncclSocketTryRecv] of [socket.cc]; sleeps between retries;
    [debug.cc]; the memory pool and the random data of [utils.h], and its condition
    signals; the allocation macros of [alloc.h]; headers copied from NVTX and NCCL. *)

From stdpp Require Export base option list gmap strings.
From Stdlib Require Export ZArith Lia.
From Stdlib Require Import Zbitwise.

Create HintDb nccl discriminated.
Create Rewrite HintDb nccl.

Declare Scope nccl_scope.
Delimit Scope nccl_scope with nccl.

Open Scope Z_scope.

(** ** Result codes ([tuner/nccl/err.h], the first seven of NCCL's [ncclResult_t]) *)

Inductive ncclResult_t : Type :=
  | ncclSuccess
  | ncclUnhandledCudaError
  | ncclSystemError
  | ncclInternalError
  | ncclInvalidArgument
  | ncclInvalidUsage
  | ncclRemoteError.

#[export] Instance ncclResult_t_eq_dec : EqDecision ncclResult_t.
Proof. solve_decision. Defined.

(** ** Machine integers

    A value of a [w]-bit C integer type is a [Z]; [wrapU]/[wrapS] are the
    conversions to the unsigned and to the signed (two's complement) type. *)

Definition wrapU (w x : Z) : Z := x mod 2 ^ w.

Definition wrapS (w x : Z) : Z :=
  (x + 2 ^ (w - 1)) mod 2 ^ w - 2 ^ (w - 1).

Definition in_u (w x : Z) : Prop := 0 <= x < 2 ^ w.
Definition in_s (w x : Z) : Prop := - 2 ^ (w - 1) <= x < 2 ^ (w - 1).

Abbreviation u8 := (wrapU 8).
Abbreviation u16 := (wrapU 16).
Abbreviation u32 := (wrapU 32).
Abbreviation u64 := (wrapU 64).
Abbreviation i16 := (wrapS 16).
Abbreviation i32 := (wrapS 32).
Abbreviation i64 := (wrapS 64).

Lemma wrapU_range w x : 0 <= w -> in_u w (wrapU w x).
Proof. intros Hw. unfold in_u, wrapU. apply Z.mod_pos_bound. lia. Qed.

Lemma wrapU_small w x : in_u w x -> wrapU w x = x.
Proof. unfold in_u, wrapU. intros. now apply Z.mod_small. Qed.


Lemma wrapU_idem w x : 0 <= w -> wrapU w (wrapU w x) = wrapU w x.
Proof. intros. apply wrapU_small. now apply wrapU_range. Qed.

Lemma wrapS_range w x : 0 < w -> in_s w (wrapS w x).
Proof.
  intros Hw. unfold in_s, wrapS.
  assert (2 ^ w = 2 * 2 ^ (w - 1)) as E
    by (rewrite <- Z.pow_succ_r by lia; f_equal; lia).
  pose proof (Z.mod_pos_bound (x + 2 ^ (w - 1)) (2 ^ w)). lia.
Qed.

Lemma wrapS_small w x : 0 < w -> in_s w x -> wrapS w x = x.
Proof.
  unfold in_s, wrapS. intros Hw H.
  assert (2 ^ w = 2 * 2 ^ (w - 1)) as E
    by (rewrite <- Z.pow_succ_r by lia; f_equal; lia).
  rewrite Z.mod_small by lia. lia.
Qed.

(** Reading the top bits and adding within range, the two facts the
    components need most often. *)

Lemma wrapU_add_l w x y : 0 <= w -> wrapU w (wrapU w x + y) = wrapU w (x + y).
Proof. intros. unfold wrapU. rewrite Zplus_mod_idemp_l. reflexivity. Qed.

Lemma wrapU_add_r w x y : 0 <= w -> wrapU w (x + wrapU w y) = wrapU w (x + y).
Proof. intros. unfold wrapU. rewrite Zplus_mod_idemp_r. reflexivity. Qed.

Lemma wrapS_add_l w x y : 0 < w -> wrapS w (wrapS w x + y) = wrapS w (x + y).
Proof.
  intros Hw. unfold wrapS. f_equal. set (h := 2 ^ (w - 1)).
  replace ((x + h) mod 2 ^ w - h + y + h) with ((x + h) mod 2 ^ w + y) by lia. rewrite Zplus_mod_idemp_l. f_equal. lia.
Qed.

Lemma wrapU_le w x : 0 <= w -> 0 <= x -> wrapU w x <= x.
Proof. intros. unfold wrapU. apply Z.mod_le; lia. Qed.

(** ** Outcomes and the state-error monad

    [Done] is a normal return, [Fail r] a return of the error code [r] (what
    [NCCLCHECK] propagates), [Fault] a step the C standard gives no meaning to
    (a null dereference, an access outside an array).  The state survives a
    failure: C keeps the writes made before the early return. *)

Inductive outcome (A : Type) : Type :=
  | Done (a : A)
  | Fail (r : ncclResult_t)
  | Fault.
Arguments Done {A} a.
Arguments Fail {A} r.
Arguments Fault {A}.

Definition comp (S A : Type) : Type := S -> outcome A * S.

Definition ret {S A} (a : A) : comp S A := fun s => (Done a, s).
Definition fail {S A} (r : ncclResult_t) : comp S A := fun s => (Fail r, s).
Definition fault {S A} : comp S A := fun s => (Fault, s).
Definition getS {S} : comp S S := fun s => (Done s, s).
Definition gets {S A} (f : S -> A) : comp S A := fun s => (Done (f s), s).
Definition modify {S} (f : S -> S) : comp S unit := fun s => (Done tt, f s).
Definition bind {S A B} (m : comp S A) (k : A -> comp S B) : comp S B :=
  fun s => match m s with
           | (Done a, s') => k a s'
           | (Fail r, s') => (Fail r, s')
           | (Fault, s') => (Fault, s')
           end.

Definition of_option {S A} (o : option A) : comp S A :=
  match o with Some a => ret a | None => fault end.

Notation "'let*' x := m 'in' k" := (bind m (fun x => k))
  (at level 10, x name, m at level 100, k at level 200) : nccl_scope.
Notation "'let*' ' p := m 'in' k" := (bind m (fun x => match x with p => k end))
  (at level 10, p pattern, m at level 100, k at level 200) : nccl_scope.
Notation "m ;;; k" := (bind m (fun _ => k))
  (at level 100, right associativity) : nccl_scope.

Definition when {S} (b : bool) (m : comp S unit) : comp S unit :=
  if b then m else ret tt.

(** [for i = start .. start + n - 1 do body i]. *)
Fixpoint for_ {S} (n : nat) (start : Z) (body : Z -> comp S unit) : comp S unit :=
  match n with
  | O => ret tt
  | Datatypes.S n' => bind (body start) (fun _ => for_ n' (start + 1) body)
  end.

Definition forN {S} (n : Z) (body : Z -> comp S unit) : comp S unit :=
  for_ (Z.to_nat n) 0 body.

Section Outcomes.
Context {S : Type}.

(** A computation that ends normally from [s] in a state related to [s]. *)
Definition runs {A} (m : comp S A) (s : S) (a : A) (s' : S) : Prop :=
m s = (Done a, s').

Lemma bind_Done {A B} (m : comp S A) (k : A -> comp S B) s b s' :
bind m k s = (Done b, s') <-> exists a s1, m s = (Done a, s1) /\ k a s1 = (Done b, s').
Proof.
unfold bind. split.
- destruct (m s) as [[a|r|] s1] eqn:E; [|discriminate..]. eauto.
- intros (a & s1 & -> & H). exact H.
Qed.

Lemma bind_step {A B} (m : comp S A) (k : A -> comp S B) s a s1 :
m s = (Done a, s1) -> bind m k s = k a s1.
Proof. unfold bind. now intros ->. Qed.

Lemma bind_Fail {A B} (m : comp S A) (k : A -> comp S B) s r s1 :
m s = (Fail r, s1) -> bind m k s = (Fail r, s1).
Proof. unfold bind. now intros ->. Qed.

Lemma bind_assoc {A B C} (m : comp S A) (k : A -> comp S B) (h : B -> comp S C) s :
bind (bind m k) h s = bind m (fun a => bind (k a) h) s.
Proof. unfold bind. destruct (m s) as [[a|r|] s1]; reflexivity. Qed.

(** Invariant rule for [for_]. *)
Lemma for_inv (I : Z -> S -> Prop) n start body s s' :
(forall i s1 s2, start <= i < start + Z.of_nat n -> I i s1 ->
 body i s1 = (Done tt, s2) -> I (i + 1) s2) ->
I start s ->
for_ n start body s = (Done tt, s') -> I (start + Z.of_nat n) s'.
Proof.
revert start s. induction n as [|n IH]; intros start s Hb HI H.
- cbn in H. injection H as <-. replace (start + Z.of_nat 0) with start by lia. done.
- cbn [for_] in H. apply bind_Done in H as ([] & s1 & H1 & H2).
replace (start + Z.of_nat (Datatypes.S n)) with (start + 1 + Z.of_nat n) by lia.
apply (IH (start + 1) s1); [|eapply Hb; [|exact HI|exact H1]; lia|exact H2].
intros i sa sb Hi. apply Hb. lia.
Qed.

(** Total correctness of [for_]: every iteration returns normally. *)
Lemma for_total (I : Z -> S -> Prop) n start body s :
(forall i s1, start <= i < start + Z.of_nat n -> I i s1 ->
 exists s2, body i s1 = (Done tt, s2) /\ I (i + 1) s2) ->
I start s ->
exists s', for_ n start body s = (Done tt, s') /\ I (start + Z.of_nat n) s'.
Proof.
revert start s. induction n as [|n IH]; intros start s Hb HI.
- exists s. split; [reflexivity|]. replace (start + Z.of_nat 0) with start by lia. done.
- destruct (Hb start s) as (s2 & E & H2); [lia|done|].
destruct (IH (start + 1) s2) as (s3 & E3 & H3); [|done|].
{ intros i s1 Hi. apply Hb. lia. }
exists s3. cbn [for_]. rewrite (bind_step _ _ _ _ _ E). split; [done|].
replace (start + Z.of_nat (Datatypes.S n)) with (start + 1 + Z.of_nat n) by lia. done.
Qed.
End Outcomes.

(** *** Running a computation

    [nstep H] takes one step of a [let*] with a lemma [H] that gives its outcome;
    [nred] reduces the administrative steps. *)

Ltac nstep H := rewrite (bind_step _ _ _ _ _ H); cbv beta iota.

Lemma bind_ret {S A B} (a : A) (k : A -> comp S B) s : bind (ret a) k s = k a s.
Proof. reflexivity. Qed.

Lemma bind_getS {S B} (k : S -> comp S B) s : bind getS k s = k s s.
Proof. reflexivity. Qed.

Lemma bind_gets {S A B} (f : S -> A) (k : A -> comp S B) s : bind (gets f) k s = k (f s) s.
Proof. reflexivity. Qed.

Lemma bind_some {S A B} (o : option A) a (k : A -> comp S B) s :
  o = Some a -> bind (of_option o) k s = k a s.
Proof. now intros ->. Qed.

Lemma bind_fail {S A B} r (k : A -> comp S B) s : bind (fail r) k s = (Fail r, s).
Proof. reflexivity. Qed.

Ltac nred := rewrite ?bind_ret, ?bind_getS, ?bind_gets; cbv beta iota.


(** ** Field update

    A record declares its constructor once ([Eta]); [r <| p := v |>] is [r]
    with the field [p] replaced. *)

Class Eta (R : Type) := eta : R -> R.

Class Update {R A : Type} (p : R -> A) := update : A -> R -> R.

Ltac derive_update p :=
  lazymatch type of p with
  | ?R -> ?A =>
      let f := constr:(fun (new_value : A) (old_record : R) =>
        ltac:(let e := constr:(@eta R _ old_record) in
              let u := eval hnf in e in
              lazymatch eval pattern (p old_record) in u with
              | ?g _ => let t := eval cbv beta in (g new_value) in exact t
              end)) in
      exact f
  end.

#[export] Hint Extern 0 (Update ?p) => derive_update p : typeclass_instances.

Notation "r <| p := v |>" := (@update _ _ p _ v r)
  (at level 1, left associativity, p at level 99, v at level 200,
   format "r  <| p  :=  v |>") : nccl_scope.

(** ** Arrays

    A C array is a list; [zget]/[zset] index it with a C integer and are
    undefined outside the array. *)

Definition zget {A} (l : list A) (i : Z) : option A :=
  if decide (0 <= i) then l !! Z.to_nat i else None.

Definition zset {A} (l : list A) (i : Z) (v : A) : option (list A) :=
  if decide (0 <= i < Z.of_nat (length l)) then Some (<[Z.to_nat i := v]> l) else None.

Definition zupd {A} (l : list A) (i : Z) (v : A) : list A :=
  if decide (0 <= i) then <[Z.to_nat i := v]> l else l.

Section Arrays.
Context {A : Type}.
Implicit Types (l : list A) (i j : Z).

Lemma zget_Some l i x : zget l i = Some x -> 0 <= i < Z.of_nat (length l).
Proof. unfold zget. case_decide; [|done]. intros E%lookup_lt_Some. lia. Qed.

Lemma zget_is_Some l i : 0 <= i < Z.of_nat (length l) -> exists x, zget l i = Some x.
Proof.
intros Hi. unfold zget. rewrite decide_True by lia.
destruct (lookup_lt_is_Some_2 l (Z.to_nat i)) as [x Hx]; [lia|eauto].
Qed.

Lemma zget_None l i : zget l i = None <-> ~ 0 <= i < Z.of_nat (length l).
Proof.
unfold zget. case_decide; [|split; [lia|done]].
rewrite lookup_ge_None. lia.
Qed.

Lemma zset_is_Some l i v :
0 <= i < Z.of_nat (length l) -> zset l i v = Some (zupd l i v).
Proof. intros. unfold zset, zupd. now rewrite !decide_True by lia. Qed.

Lemma zset_Some l i v l' :
zset l i v = Some l' -> 0 <= i < Z.of_nat (length l) /\ l' = zupd l i v.
Proof.
unfold zset, zupd. case_decide; [|done]. intros [= <-].
rewrite decide_True by lia. done.
Qed.

Lemma length_zupd l i v : length (zupd l i v) = length l.
Proof. unfold zupd. case_decide; [apply length_insert|done]. Qed.

Lemma zget_zupd_eq l i v : 0 <= i < Z.of_nat (length l) -> zget (zupd l i v) i = Some v.
Proof.
intros. unfold zget, zupd. rewrite !decide_True by lia.
apply list_lookup_insert_eq. lia.
Qed.

Lemma zget_zupd_ne l i j v : i <> j -> zget (zupd l i v) j = zget l j.
Proof.
intros. unfold zget, zupd. repeat case_decide; try done.
apply list_lookup_insert_ne. lia.
Qed.

Lemma zget_zupd l i j v :
zget (zupd l i v) j =
if decide (i = j /\ 0 <= i < Z.of_nat (length l)) then Some v else zget l j.
Proof.
case_decide as H; [destruct H as [<- H]; now apply zget_zupd_eq|].
destruct (decide (i = j)) as [<-|]; [|now apply zget_zupd_ne].
assert (~ 0 <= i < Z.of_nat (length l)) by tauto.
rewrite (proj2 (zget_None l i)) by done.
apply zget_None. now rewrite length_zupd.
Qed.

Lemma zget_lookup l (n : nat) : zget l (Z.of_nat n) = l !! n.
Proof. unfold zget. rewrite decide_True by lia. now rewrite Nat2Z.id. Qed.

Lemma zget_cons x l j : 0 <= j -> zget (x :: l) (j + 1) = zget l j.
Proof. intros Hj. unfold zget. rewrite !decide_True by lia. by rewrite Z2Nat.inj_add, Nat.add_1_r by lia. Qed.

Lemma list_eq_zget l l' : (forall i, zget l i = zget l' i) -> l = l'.
Proof.
intros H. apply list_eq. intros n. specialize (H (Z.of_nat n)).
now rewrite !zget_lookup in H.
Qed.

Lemma zupd_same l i x : zget l i = Some x -> zupd l i x = l.
Proof.
intros E. apply list_eq_zget. intros j. rewrite zget_zupd. case_decide as Hc; [|done]. now destruct Hc as [<- _].
Qed.

Lemma zupd_zupd l i x y : zupd (zupd l i x) i y = zupd l i y.
Proof. apply list_eq_zget. intros j. rewrite !zget_zupd, length_zupd. repeat case_decide; done. Qed.
End Arrays.

#[export] Hint Rewrite @length_zupd : nccl.

Lemma zget_fmap {A B} (f : A -> B) l i : zget (f <$> l) i = f <$> zget l i.
Proof. unfold zget. case_decide; [apply list_lookup_fmap|done]. Qed.

(** ** Equality by computation *)

Definition eqb_dec {A} (eqb : A -> A -> bool) (H : forall x y, eqb x y = true <-> x = y) : EqDecision A := fun x y =>
  match eqb x y as b return eqb x y = b -> Decision (x = y) with
  | true => fun E => left (proj1 (H x y) E)
  | false => fun E => right (fun Exy => Bool.diff_false_true (eq_trans (eq_sym E) (proj2 (H x y) Exy)))
  end eq_refl.

Fixpoint list_eqb {A} (eqb : A -> A -> bool) (l l' : list A) : bool :=
  match l, l' with
  | [], [] => true
  | x :: l, y :: l' => eqb x y && list_eqb eqb l l'
  | _, _ => false
  end.

Lemma list_eqb_eq {A} (eqb : A -> A -> bool) (H : forall x y, eqb x y = true <-> x = y) l l' : list_eqb eqb l l' = true <-> l = l'.
Proof.
  revert l'. induction l as [|x l IH]; intros [|y l']; cbn; [done..|]. rewrite andb_true_iff, IH, H. naive_solver.
Qed.

(** ** Sums *)

Fixpoint zsum (l : list Z) : Z :=
  match l with [] => 0 | x :: l' => x + zsum l' end.

Lemma zsum_app l l' : zsum (l ++ l') = zsum l + zsum l'.
Proof. induction l as [|x l IH]; cbn; lia. Qed.

Lemma zsum_cons x l : zsum (x :: l) = x + zsum l.
Proof. reflexivity. Qed.

Lemma zsum_nonneg l : Forall (fun x => 0 <= x) l -> 0 <= zsum l.
Proof. induction 1; cbn; lia. Qed.

Lemma zsum_upd l i x v :
  zget l i = Some x -> zsum (zupd l i v) = zsum l - x + v.
Proof.
  intros H. pose proof (zget_Some _ _ _ H) as Hi.
  unfold zget, zupd in *. rewrite decide_True in H by lia. rewrite decide_True by lia.
  revert H. generalize (Z.to_nat i) as n. clear. intros n. revert l.
  induction n as [|n IH]; intros [|y l] H; try discriminate.
  - cbn in *. injection H as ->. lia.
  - change (y + zsum (<[n := v]> l) = y + zsum l - x + v). rewrite (IH l H). lia.
Qed.

Lemma zsum_replicate n x : zsum (replicate n x) = Z.of_nat n * x.
Proof. induction n as [|n IH]; cbn [replicate zsum]; lia. Qed.
