(* ===== verification/CFloat.v ===== *)
(** * C floating point

    [double] is IEEE binary64 and [float] binary32, with round to nearest even,
    as [Stdlib.Floats.SpecFloat] computes them: every operation below rounds
    once, so an expression of the source is the composition of the operations
    in the order the source writes them (no contraction into fused
    multiply-adds). *)

From S2P Require Import Prelude.
From Stdlib Require Export SpecFloat.

Open Scope Z_scope.

Abbreviation double := spec_float.
Abbreviation float := spec_float.

Declare Scope dbl_scope.
Delimit Scope dbl_scope with dbl.

(** ** Arithmetic and comparisons on [double] *)

Definition dadd : double -> double -> double := SFadd 53 1024.
Definition dsub : double -> double -> double := SFsub 53 1024.
Definition dmul : double -> double -> double := SFmul 53 1024.
Definition ddiv : double -> double -> double := SFdiv 53 1024.
Definition dsqrt : double -> double := SFsqrt 53 1024.

Definition dlt (x y : double) : bool := SFltb x y.
Definition dle (x y : double) : bool := SFleb x y.
Definition deq (x y : double) : bool := SFeqb x y.
Definition dgt (x y : double) : bool := SFltb y x.
Definition dge (x y : double) : bool := SFleb y x.

Infix "+" := dadd : dbl_scope.
Infix "-" := dsub : dbl_scope.
Infix "*" := dmul : dbl_scope.
Infix "/" := ddiv : dbl_scope.
Infix "<?" := dlt (at level 70) : dbl_scope.
Infix "<=?" := dle (at level 70) : dbl_scope.
Infix ">?" := dgt (at level 70) : dbl_scope.
Infix ">=?" := dge (at level 70) : dbl_scope.

(** ** Conversions *)

(** An integer converted to [double] (rounded when it has more than 53 bits). *)
Definition dbl_of_Z (n : Z) : double := binary_normalize 53 1024 n 0 false.

(** The correctly rounded value of [m * 10 ^ e]: a decimal literal. *)
Definition dec (m e : Z) : double :=
  match m with
  | Z0 => S754_zero false
  | Zpos p =>
      if 0 <=? e then dbl_of_Z (m * 10 ^ e)
      else let '(q, e', l) := SFdiv_core_binary 53 1024 m 0 (10 ^ (- e)) 0 in
           binary_round_aux 53 1024 false q e' l
  | Zneg p =>
      if 0 <=? e then dbl_of_Z (m * 10 ^ e)
      else let '(q, e', l) := SFdiv_core_binary 53 1024 (Zpos p) 0 (10 ^ (- e)) 0 in
           binary_round_aux 53 1024 true q e' l
  end.

(** [(float)x]: one rounding to 24 bits. *)
Definition flt_of_dbl (x : double) : float :=
  match x with
  | S754_finite s m e => binary_round 24 128 s m e
  | _ => x
  end.

(** A [float] promoted to [double] (exact). *)
Definition dbl_of_flt (x : float) : double :=
  match x with
  | S754_finite s m e => binary_round 53 1024 s m e
  | _ => x
  end.

(** The integral part of a finite [double] (truncation towards zero). *)
Definition trunc (x : double) : Z :=
  match x with
  | S754_finite s m e =>
      let a := if 0 <=? e then Zpos m * 2 ^ e else Zpos m / 2 ^ (- e) in
      if s then - a else a
  | _ => 0
  end.

(** [ceil]. *)
Definition dceil (x : double) : double :=
  match x with
  | S754_finite s m e =>
      if 0 <=? e then x
      else let v := if s then - Zpos m else Zpos m in
           dbl_of_Z (- ((- v) / 2 ^ (- e)))
  | _ => x
  end.

(** ** Facts *)

Definition is_nan (x : spec_float) : bool :=
  match x with S754_nan => true | _ => false end.

Lemma compare_cont_swap p q :
  PosDef.Pos.compare_cont Eq q p = CompOpp (PosDef.Pos.compare_cont Eq p q).
Proof. symmetry. apply (Pos.compare_cont_antisym p q Eq). Qed.

Lemma SFcompare_antisym x y :
  SFcompare y x = option_map CompOpp (SFcompare x y).
Proof.
  destruct x as [sx|sx| |sx mx ex], y as [sy|sy| |sy my ey]; cbn;
    try destruct sx; try destruct sy; try reflexivity;
    rewrite (Z.compare_antisym ex ey), (compare_cont_swap mx my);
    destruct (ex ?= ey); cbn; try reflexivity;
    destruct (PosDef.Pos.compare_cont Eq mx my); reflexivity.
Qed.

Lemma dlt_asym x y : dlt x y = true -> dlt y x = false.
Proof.
  unfold dlt, SFltb. rewrite (SFcompare_antisym x y).
  destruct (SFcompare x y) as [[]|]; cbn; congruence.
Qed.

Lemma dlt_irrefl x : dlt x x = false.
Proof.
  destruct (dlt x x) eqn:E; [|done]. pose proof (dlt_asym _ _ E). congruence.
Qed.

(** ** Literals

    A decimal literal in [dbl_scope] is its correctly rounded binary64 value. *)

Definition dbl_of_number (n : Number.number) : option double :=
  let lit i f e :=
    let m := Z.of_int (Decimal.app_int i f) in
    Some (let x := dec m (e - Z.of_nat (Decimal.nb_digits f)) in
          match i, m with Decimal.Neg _, Z0 => SFopp x | _, _ => x end) in
  match n with
  | Number.Decimal (Decimal.Decimal i f) => lit i f 0
  | Number.Decimal (Decimal.DecimalExp i f e) => lit i f (Z.of_int e)
  | Number.Hexadecimal _ => None
  end.

Definition number_of_dbl (x : double) : option Number.number := None.

Number Notation spec_float dbl_of_number number_of_dbl : dbl_scope.
