(* ===== verification/CStr.v ===== *)
(** * C strings and the library functions the plugins call on them

    A NUL-terminated string is the list of its characters.  [strtok], [strtol],
    [strtoull], [atoi], [strtod], [strcasecmp] and [fgets] follow the C
    standard in the "C" locale (and glibc where the standard leaves the value
    open: [atoi] is [(int)strtol]). *)

From S2P Require Import Prelude CFloat.
From Stdlib Require Export Ascii.

Open Scope Z_scope.

Abbreviation cstring := (list ascii).

Definition lit (s : string) : cstring := String.list_ascii_of_string s.

Definition code (c : ascii) : Z := Z.of_N (N_of_ascii c).
Definition chr (z : Z) : ascii := ascii_of_N (Z.to_N z).

Definition ceqb (a b : ascii) : bool := Ascii.eqb a b.

Definition NUL : ascii := chr 0.
Definition NL : ascii := chr 10.
Definition TAB : ascii := chr 9.
Definition SP : ascii := chr 32.
Definition COMMA : ascii := chr 44.
Definition HASH : ascii := chr 35.

Arguments NUL : simpl never.
Arguments NL : simpl never.
Arguments TAB : simpl never.
Arguments SP : simpl never.
Arguments COMMA : simpl never.
Arguments HASH : simpl never.
Arguments chr : simpl never.
Arguments code : simpl never.

(** ** Characters *)

Definition is_digit (c : ascii) : bool := (48 <=? code c) && (code c <=? 57).
Definition is_space (c : ascii) : bool :=
  (code c =? 32) || ((9 <=? code c) && (code c <=? 13)).
Definition is_upper (c : ascii) : bool := (65 <=? code c) && (code c <=? 90).
Definition tolower (c : ascii) : ascii := if is_upper c then chr (code c + 32) else c.

(** The value of a hexadecimal digit. *)
Definition hex_value (c : ascii) : option Z :=
  let k := code c in
  if is_digit c then Some (k - 48)
  else if (97 <=? k) && (k <=? 102) then Some (k - 87)
  else if (65 <=? k) && (k <=? 70) then Some (k - 55)
  else None.

Fixpoint list_eqb (a b : cstring) : bool :=
  match a, b with
  | [], [] => true
  | x :: a', y :: b' => ceqb x y && list_eqb a' b'
  | _, _ => false
  end.

(** [strcasecmp(a, b) == 0]. *)
Definition strcaseeq (a b : cstring) : bool :=
  list_eqb (map tolower a) (map tolower b).

(** ** Scanning *)

Fixpoint take_while (p : ascii -> bool) (s : cstring) : cstring :=
  match s with
  | c :: s' => if p c then c :: take_while p s' else []
  | [] => []
  end.

Fixpoint drop_while (p : ascii -> bool) (s : cstring) : cstring :=
  match s with
  | c :: s' => if p c then drop_while p s' else s
  | [] => []
  end.

(** The string a character buffer holds: what comes before the first NUL. *)
Definition cstr (buf : cstring) : cstring := take_while (fun c => negb (ceqb c NUL)) buf.

(** One [strtok] step with delimiter [d]: the next token and what remains. *)
Definition strtok (d : ascii) (s : cstring) : option (cstring * cstring) :=
  let s1 := drop_while (fun c => ceqb c d) s in
  match s1 with
  | [] => None
  | _ => Some (take_while (fun c => negb (ceqb c d)) s1,
               tail (drop_while (fun c => negb (ceqb c d)) s1))
  end.

(** ** Numbers *)

Fixpoint digits (s : cstring) (acc : Z) : Z * cstring :=
  match s with
  | c :: s' => if is_digit c then digits s' (acc * 10 + (code c - 48)) else (acc, s)
  | [] => (acc, [])
  end.

Definition sign (s : cstring) : bool * cstring :=
  match s with
  | c :: s' => if code c =? 45 then (true, s')
               else if code c =? 43 then (false, s') else (false, s)
  | [] => (false, s)
  end.

Definition starts_digit (s : cstring) : bool :=
  match s with c :: _ => is_digit c | [] => false end.

(** The signed decimal number at the start of [s]; [None] when there is none
    ([*endptr == nptr]). *)
Definition scan_int (s : cstring) : option (bool * Z) :=
  let '(neg, s1) := sign (drop_while is_space s) in
  if starts_digit s1 then Some (neg, fst (digits s1 0)) else None.

Definition LONG_MAX : Z := 2 ^ 63 - 1.
Definition LONG_MIN : Z := - 2 ^ 63.
Definition ULLONG_MAX : Z := 2 ^ 64 - 1.

Definition strtol (s : cstring) : option Z :=
  match scan_int s with
  | Some (neg, n) => Some (if neg then Z.max LONG_MIN (- n) else Z.min LONG_MAX n)
  | None => None
  end.

Definition strtoull (s : cstring) : Z :=
  match scan_int s with
  | Some (neg, n) => if ULLONG_MAX <? n then ULLONG_MAX
                     else if neg then u64 (- n) else n
  | None => 0
  end.

Definition atoi (s : cstring) : Z :=
  match strtol s with Some v => i32 v | None => 0 end.

(** *** [strtod] *)

Fixpoint hex_digits (s : cstring) (acc n : Z) : Z * Z * cstring :=
  match s with
  | c :: s' => match hex_value c with
               | Some v => hex_digits s' (acc * 16 + v) (n + 1)
               | None => (acc, n, s)
               end
  | [] => (acc, n, [])
  end.

Fixpoint dec_digits (s : cstring) (acc n : Z) : Z * Z * cstring :=
  match s with
  | c :: s' => if is_digit c then dec_digits s' (acc * 10 + (code c - 48)) (n + 1)
               else (acc, n, s)
  | [] => (acc, n, [])
  end.

(** The mantissa of a number, its count of digits and of fraction digits. *)
Definition mantissa (scan : cstring -> Z -> Z -> Z * Z * cstring) (s : cstring)
  : Z * Z * Z * cstring :=
  let '(m, n, s1) := scan s 0 0 in
  match s1 with
  | c :: s2 => if code c =? 46
               then let '(m', n', s3) := scan s2 m 0 in (m', n + n', n', s3)
               else (m, n, 0, s1)
  | [] => (m, n, 0, s1)
  end.

(** The exponent introduced by [e] (given in lower case), 0 when absent. *)
Definition exponent (e : Z) (s : cstring) : Z :=
  match s with
  | c :: s1 => if code (tolower c) =? e
               then let '(neg, s2) := sign s1 in
                    if starts_digit s2
                    then let n := fst (digits s2 0) in if neg then - n else n
                    else 0
               else 0
  | [] => 0
  end.

Definition has_prefix (p s : cstring) : bool :=
  list_eqb p (map tolower (take (length p) s)).

(** The value [strtod] returns, [None] when it converts nothing. *)
Definition strtod (s : cstring) : option double :=
  let '(neg, s1) := sign (drop_while is_space s) in
  let signed (x : double) := if neg then SFopp x else x in
  let decimal :=
    let '(m, n, nf, s2) := mantissa dec_digits s1 in
    if n =? 0 then None else Some (signed (dec m (exponent 101 s2 - nf))) in
  if has_prefix (lit "inf") s1 then Some (signed (S754_infinity false))
  else if has_prefix (lit "nan") s1 then Some S754_nan
  else if has_prefix (lit "0x") s1 then
    let '(m, n, nf, s2) := mantissa hex_digits (drop 2 s1) in
    if n =? 0 then decimal
    else Some (signed (binary_normalize 53 1024 m (exponent 112 s2 - 4 * nf) false))
  else decimal.

(** ** Lines *)

(** What [fgets(buf, size, file)] reads from the rest [s] of the file when it
    may store [n = size - 1] characters: the line kept and what is left. *)
Fixpoint fgets (n : nat) (s : cstring) : cstring * cstring :=
  match n, s with
  | Datatypes.S n', c :: s' =>
      if ceqb c NL then ([c], s')
      else let '(l, r) := fgets n' s' in (c :: l, r)
  | _, _ => ([], s)
  end.

(** The successive lines of [while (fgets(buf, size, file))]: [fgets] returns
    NULL only at the end of the file. *)
Fixpoint fgets_lines (fuel : nat) (n : nat) (s : cstring) : list cstring :=
  match fuel, s with
  | Datatypes.S fuel', _ :: _ =>
      let '(l, r) := fgets n s in l :: fgets_lines fuel' n r
  | _, _ => []
  end.

Definition file_lines (n : nat) (s : cstring) : list cstring := fgets_lines (length s) n s.
