(* ===== verification/TunerTypes.v ===== *)
(** * Tuner plugin: data model

    The constants and structures of [tuner/nccl/tuner.h], and the structures
    and parameter sets at the top of [tuner/plugin.c]. *)

From S2P Require Import Prelude CFloat CStr.

Open Scope Z_scope.

(** ** [tuner/nccl/tuner.h] *)

Inductive ncclFunc_t : Type :=
  | ncclFuncBroadcast
  | ncclFuncReduce
  | ncclFuncAllGather
  | ncclFuncReduceScatter
  | ncclFuncAllReduce
  | ncclFuncSendRecv
  | ncclFuncSend
  | ncclFuncRecv.

#[export] Instance ncclFunc_t_eq_dec : EqDecision ncclFunc_t.
Proof. solve_decision. Defined.

Definition ncclFunc_eqb (a b : ncclFunc_t) : bool := bool_decide (a = b).

Definition NCCL_NUM_ALGORITHMS : Z := 7.
Definition NCCL_ALGO_TREE : Z := 0.
Definition NCCL_ALGO_RING : Z := 1.
Definition NCCL_ALGO_COLLNET_DIRECT : Z := 2.
Definition NCCL_ALGO_COLLNET_CHAIN : Z := 3.
Definition NCCL_ALGO_NVLS : Z := 4.
Definition NCCL_ALGO_NVLS_TREE : Z := 5.
Definition NCCL_ALGO_PAT : Z := 6.

Definition NCCL_NUM_PROTOCOLS : Z := 3.
Definition NCCL_PROTO_LL : Z := 0.
Definition NCCL_PROTO_LL128 : Z := 1.
Definition NCCL_PROTO_SIMPLE : Z := 2.

Definition NCCL_ALGO_PROTO_IGNORE : double := (-1.0)%dbl.

Definition NCCL_HW_NVLINK : Z := 0.
Definition NCCL_HW_PCI : Z := 1.
Definition NCCL_HW_NET : Z := 2.
Definition NCCL_NUM_HW_LINKS : Z := 3.

Definition NCCL_NUM_TUNING_SCALES : Z := 3.

Record ncclNvlDomainInfo_v5_t := mkNvlDomainInfo {
  nNvlDomains : Z;
  minRanksPerNvlDomain : Z;
  maxRanksPerNvlDomain : Z;
}.

(** ** Cost-model parameters

    [table1]/[table2]/[table3] are the fixed-size C arrays of doubles. *)

Abbreviation table1 := (list double).
Abbreviation table2 := (list (list double)).
Abbreviation table3 := (list (list (list double))).

Record CostModelParams := mkCostModelParams {
  gpusPerNode : Z;
  cm_nChannels : Z;
  bwIntra : double;
  bwInter : double;
  nvlsEfficiency : double;
  graphLatencyInter : double;
  baseLatencies : table2;
  hwLatencies : table3;
  llMaxBw : table1;
  perChMaxRingLL128Bw : table1;
  perChMaxTreeBw : table1;
  perChMaxTreeLL128Bw : table1;
  perChMaxNVLSTreeBw : table1;
  ringBwCapInter : double;
  ringBwCapIntra : double;
  patBwEff : double;
  patLatPerRank : double;
  arRegLatScale : table2;
  agRegLatScale : table2;
  disableUnmodeledCells : Z;
}.

#[export] Instance eta_CostModelParams : Eta CostModelParams := fun r =>
  mkCostModelParams (gpusPerNode r) (cm_nChannels r) (bwIntra r) (bwInter r)
    (nvlsEfficiency r) (graphLatencyInter r) (baseLatencies r) (hwLatencies r)
    (llMaxBw r) (perChMaxRingLL128Bw r) (perChMaxTreeBw r) (perChMaxTreeLL128Bw r)
    (perChMaxNVLSTreeBw r) (ringBwCapInter r) (ringBwCapIntra r) (patBwEff r)
    (patLatPerRank r) (arRegLatScale r) (agRegLatScale r) (disableUnmodeledCells r).

(** [t[i]], [t[i][j]], [t[i][j][k]].  The default is never read: the indices
    the code uses are below the dimensions ([params_wf] and [tab2_in_range]). *)
Definition tab1 (t : table1) (i : Z) : double := default S754_nan (zget t i).
Definition tab2 (t : table2) (i j : Z) : double :=
  default S754_nan (r ← zget t i; zget r j).
Definition tab3 (t : table3) (i j k : Z) : double :=
  default S754_nan (r ← zget t i; r' ← zget r j; zget r' k).

Definition zeros1 : table1 := replicate 3 0.0%dbl.
Definition zeros2 : table2 := replicate 7 (replicate 3 0.0%dbl).
Definition zeros3 : table3 := replicate 3 zeros2.

(** [memset(&ctx->costModel, 0, sizeof)]. *)
Definition zeroCostModel : CostModelParams := {|
  gpusPerNode := 0; cm_nChannels := 0; bwIntra := 0.0%dbl; bwInter := 0.0%dbl;
  nvlsEfficiency := 0.0%dbl; graphLatencyInter := 0.0%dbl;
  baseLatencies := zeros2; hwLatencies := zeros3;
  llMaxBw := zeros1; perChMaxRingLL128Bw := zeros1; perChMaxTreeBw := zeros1;
  perChMaxTreeLL128Bw := zeros1; perChMaxNVLSTreeBw := zeros1;
  ringBwCapInter := 0.0%dbl; ringBwCapIntra := 0.0%dbl;
  patBwEff := 0.0%dbl; patLatPerRank := 0.0%dbl;
  arRegLatScale := zeros2; agRegLatScale := zeros2; disableUnmodeledCells := 0;
|}.

(** [COST_MODEL_DISABLED_COST], a [float] literal. *)
Definition COST_MODEL_DISABLED_COST : float := flt_of_dbl 1.0e9%dbl.

(** Profile [mnnvl]. *)
Definition gb200fParamsDefault : CostModelParams := {|
  gpusPerNode := 64;
  cm_nChannels := 32;
  bwIntra := 20.29%dbl;
  bwInter := 28.19%dbl;
  nvlsEfficiency := 0.4674%dbl;
  graphLatencyInter := 0.0%dbl;
  baseLatencies := ([ [9.025; 27.0; 20.83];
                      [16.40; 20.29; 6.237];
                      [0.0; 0.0; 0.0];
                      [0.0; 0.0; 0.0];
                      [0.0; 0.0; 70.78];
                      [0.0; 0.0; 102.0];
                      [8.0; 8.0; 8.0] ])%dbl;
  hwLatencies := ([ [ [1.402; 1.393; 5.703];
                      [0.8647; 1.546; 6.224];
                      [0.0; 0.0; 0.0];
                      [0.0; 0.0; 0.0];
                      [0.0; 0.0; 42.0];
                      [0.0; 0.0; 39.36];
                      [0.0; 0.0; 4.0] ];
                    [ [1.0; 1.9; 4.0];
                      [1.0; 2.5; 5.7];
                      [0.0; 0.0; 0.0];
                      [0.0; 0.0; 0.0];
                      [0.0; 0.0; 0.0];
                      [0.0; 0.0; 0.0];
                      [0.0; 0.0; 4.0] ];
                    [ [22.41; 20.91; 25.16];
                      [267.7; 281.0; 530.8];
                      [0.0; 0.0; 31.0];
                      [0.0; 0.0; 30.0];
                      [0.0; 0.0; 38.83];
                      [0.0; 0.0; 27.59];
                      [0.0; 0.0; 14.0] ] ])%dbl;
  llMaxBw := ([204.6; 134.1; 120.5])%dbl;
  perChMaxRingLL128Bw := ([124.9; 175.2; 16.35])%dbl;
  perChMaxTreeBw := ([222.7; 206.4; 17.59])%dbl;
  perChMaxTreeLL128Bw := ([56.54; 38.33; 64.31])%dbl;
  perChMaxNVLSTreeBw := ([55.62; 145.7; 137.3])%dbl;
  ringBwCapInter := 16.0%dbl;
  ringBwCapIntra := 17.5%dbl;
  patBwEff := 0.0%dbl;
  patLatPerRank := 0.0%dbl;
  arRegLatScale := zeros2;
  agRegLatScale := zeros2;
  disableUnmodeledCells := 0;
|}.

(** Profile [rail_nop2p]. *)
Definition railNoP2pParamsDefault : CostModelParams := {|
  gpusPerNode := 4;
  cm_nChannels := 32;
  bwIntra := 4.29211%dbl;
  bwInter := 4.29211%dbl;
  nvlsEfficiency := 0.4674%dbl;
  graphLatencyInter := 0.0%dbl;
  baseLatencies := ([ [20.6679; 26.3192; 25.6124];
                      [1.91189e-09; 2.05101e-08; 1.09204e-10];
                      [0.0; 0.0; 0.0];
                      [0.0; 0.0; 0.0];
                      [0.0; 0.0; 0.0];
                      [0.0; 0.0; 0.0];
                      [8.0; 8.0; 32.5934] ])%dbl;
  hwLatencies := ([ [ [5.0; 8.5; 14.0];
                      [2.7; 4.0; 14.0];
                      [0.0; 0.0; 0.0];
                      [0.0; 0.0; 0.0];
                      [0.0; 0.0; 25.0];
                      [0.0; 0.0; 25.0];
                      [0.0; 0.0; 4.0] ];
                    [ [1.0; 1.9; 4.0];
                      [1.0; 2.5; 5.7];
                      [0.0; 0.0; 3.7];
                      [0.0; 0.0; 2.8];
                      [0.0; 0.0; 0.0];
                      [0.0; 0.0; 0.0];
                      [0.0; 0.0; 4.0] ];
                    [ [10.1576; 10.7845; 17.4627];
                      [2.7; 4.0; 14.0];
                      [0.0; 0.0; 31.0];
                      [0.0; 0.0; 30.0];
                      [0.0; 0.0; 18.0];
                      [0.0; 0.0; 20.9];
                      [0.0; 0.0; 6.64092] ] ])%dbl;
  llMaxBw := ([282.0; 90.0; 4.99782])%dbl;
  perChMaxRingLL128Bw := ([40.0; 40.0; 5.8313])%dbl;
  perChMaxTreeBw := ([70.0; 42.8; 2.1473])%dbl;
  perChMaxTreeLL128Bw := ([55.6; 31.67; 0.890063])%dbl;
  perChMaxNVLSTreeBw := ([55.62; 145.7; 137.3])%dbl;
  ringBwCapInter := 0.0%dbl;
  ringBwCapIntra := 0.0%dbl;
  patBwEff := 0.468895%dbl;
  patLatPerRank := 1.13602%dbl;
  arRegLatScale := ([ [1.0; 1.0; 1.0];
                      [1.0; 1.0; 1.0];
                      [1.0; 1.0; 1.0];
                      [1.0; 1.0; 1.0];
                      [1.0; 1.0; 1.0];
                      [1.0; 1.0; 1.0];
                      [1.0; 1.0; 1.0] ])%dbl;
  agRegLatScale := ([ [1.0; 1.0; 1.0];
                      [1.0; 1.0; 2.0];
                      [1.0; 1.0; 1.0];
                      [1.0; 1.0; 1.0];
                      [1.0; 1.0; 1.0];
                      [1.0; 1.0; 1.0];
                      [1.0; 1.0; 1.0] ])%dbl;
  disableUnmodeledCells := 1;
|}.

Definition mnnvlParamsValidated : Z := 0.
Definition railNoP2pParamsValidated : Z := 1.

(** ** Configuration rules and the tuner context *)

Definition MAX_LINE_LENGTH : Z := 256.

Definition CONFIG_FIELDS_REQUIRED : Z := 8.
Definition CONFIG_FIELDS_WITH_PIPEOPS : Z := 9.
Definition CONFIG_FIELDS_WITH_REGBUFF : Z := 10.
Definition CONFIG_FIELDS_MAX : Z := 10.

Record TuningConfig := mkTuningConfig {
  collType : ncclFunc_t;
  minBytes : Z;
  maxBytes : Z;
  algorithm : Z;
  protocol : Z;
  cfg_nChannels : Z;
  cfg_nNodes : Z;
  cfg_nRanks : Z;
  numPipeOps : Z;
  regBuff : Z;
}.

#[export] Instance TuningConfig_eq_dec : EqDecision TuningConfig.
Proof. solve_decision. Defined.

(** [configs] holds the first [numConfigs] entries of the allocated array;
    [maxConfigs] is its capacity.  [logFunction] only prints and is left out. *)
Record TunerContext := mkTunerContext {
  configs : list TuningConfig;
  maxConfigs : Z;
  nRanks : Z;
  nNodes : Z;
  nvlDomainInfo : ncclNvlDomainInfo_v5_t;
  useCostModel : Z;
  forceCostModel : Z;
  costModel : CostModelParams;
  costModelProfile : option cstring;
}.

#[export] Instance eta_TunerContext : Eta TunerContext := fun r =>
  mkTunerContext (configs r) (maxConfigs r) (nRanks r) (nNodes r) (nvlDomainInfo r)
    (useCostModel r) (forceCostModel r) (costModel r) (costModelProfile r).

Definition numConfigs (ctx : TunerContext) : Z := Z.of_nat (length (configs ctx)).

(** ** Table dimensions *)

Definition dim1 (t : table1) : bool := Nat.eqb (length t) 3.
Definition dim2 (t : table2) : bool :=
  Nat.eqb (length t) 7 && forallb (fun r => Nat.eqb (length r) 3) t.
Definition dim3 (t : table3) : bool := Nat.eqb (length t) 3 && forallb dim2 t.

Definition params_wf (P : CostModelParams) : bool :=
  dim2 (baseLatencies P) && dim3 (hwLatencies P) && dim1 (llMaxBw P)
  && dim1 (perChMaxRingLL128Bw P) && dim1 (perChMaxTreeBw P)
  && dim1 (perChMaxTreeLL128Bw P) && dim1 (perChMaxNVLSTreeBw P)
  && dim2 (arRegLatScale P) && dim2 (agRegLatScale P).

Lemma tab2_in_range t i j :
  dim2 t = true -> 0 <= i < NCCL_NUM_ALGORITHMS -> 0 <= j < NCCL_NUM_PROTOCOLS ->
  exists r x, zget t i = Some r /\ zget r j = Some x.
Proof.
  unfold dim2, NCCL_NUM_ALGORITHMS, NCCL_NUM_PROTOCOLS.
  intros [Hl%Nat.eqb_eq Hr]%andb_prop Hi Hj.
  destruct (zget_is_Some t i) as [r E]; [lia|].
  assert (length r = 3%nat) as Lr.
  { apply Nat.eqb_eq. rewrite forallb_forall in Hr. apply Hr.
    unfold zget in E. case_decide; [|done].
    apply list_elem_of_In. eapply list_elem_of_lookup_2. exact E. }
  destruct (zget_is_Some r j) as [x Ex]; [lia|]. eauto.
Qed.

Lemma default_params_wf :
  params_wf gb200fParamsDefault = true /\ params_wf railNoP2pParamsDefault = true
  /\ params_wf zeroCostModel = true.
Proof. vm_compute. auto. Qed.
