(* ===== verification/TunerConfig.v ===== *)
(** * Tuner plugin: names and the CSV configuration file

    [parseCollType] .. [protocolToString], [countConfigLines] and [loadConfig]
    of [tuner/plugin.c].  The file is its content, [None] when [fopen] fails;
    both passes over it read the same content. *)

From S2P Require Import Prelude CFloat CStr TunerTypes.

Open Scope Z_scope.
Open Scope nccl_scope.

(** ** Names *)

Definition parseCollType (str : cstring) : ncclFunc_t :=
  if strcaseeq str (lit "broadcast") then ncclFuncBroadcast
  else if strcaseeq str (lit "reduce") then ncclFuncReduce
  else if strcaseeq str (lit "allgather") then ncclFuncAllGather
  else if strcaseeq str (lit "reducescatter") then ncclFuncReduceScatter
  else if strcaseeq str (lit "allreduce") then ncclFuncAllReduce
  else ncclFuncAllReduce.

Definition collTypeToString (c : ncclFunc_t) : cstring :=
  match c with
  | ncclFuncBroadcast => lit "broadcast"
  | ncclFuncReduce => lit "reduce"
  | ncclFuncAllGather => lit "allgather"
  | ncclFuncReduceScatter => lit "reducescatter"
  | ncclFuncAllReduce => lit "allreduce"
  | _ => lit "unknown"
  end.

Definition parseAlgorithm (str : cstring) : Z :=
  if strcaseeq str (lit "tree") then NCCL_ALGO_TREE
  else if strcaseeq str (lit "ring") then NCCL_ALGO_RING
  else if strcaseeq str (lit "collnet_direct") then NCCL_ALGO_COLLNET_DIRECT
  else if strcaseeq str (lit "collnet_chain") then NCCL_ALGO_COLLNET_CHAIN
  else if strcaseeq str (lit "nvls") then NCCL_ALGO_NVLS
  else if strcaseeq str (lit "nvls_tree") then NCCL_ALGO_NVLS_TREE
  else if strcaseeq str (lit "pat") then NCCL_ALGO_PAT
  else NCCL_ALGO_RING.

Definition algorithmToString (a : Z) : cstring :=
  if a =? NCCL_ALGO_TREE then lit "tree"
  else if a =? NCCL_ALGO_RING then lit "ring"
  else if a =? NCCL_ALGO_COLLNET_DIRECT then lit "collnet_direct"
  else if a =? NCCL_ALGO_COLLNET_CHAIN then lit "collnet_chain"
  else if a =? NCCL_ALGO_NVLS then lit "nvls"
  else if a =? NCCL_ALGO_NVLS_TREE then lit "nvls_tree"
  else if a =? NCCL_ALGO_PAT then lit "pat"
  else lit "unknown".

Definition parseProtocol (str : cstring) : Z :=
  if strcaseeq str (lit "ll") then NCCL_PROTO_LL
  else if strcaseeq str (lit "ll128") then NCCL_PROTO_LL128
  else if strcaseeq str (lit "simple") then NCCL_PROTO_SIMPLE
  else NCCL_PROTO_SIMPLE.

Definition protocolToString (p : Z) : cstring :=
  if p =? NCCL_PROTO_LL then lit "ll"
  else if p =? NCCL_PROTO_LL128 then lit "ll128"
  else if p =? NCCL_PROTO_SIMPLE then lit "simple"
  else lit "unknown".

(** ** Lines *)

(** [line[0] == '#' || line[0] == '\n'] *)
Definition line_skipped (line : cstring) : bool :=
  match line with
  | c :: _ => ceqb c HASH || ceqb c NL
  | [] => false
  end.

(** The string left in [line] after [line[strcspn(line, "\n")] = 0]. *)
Definition line_body (line : cstring) : cstring :=
  take_while (fun c => negb (ceqb c NL) && negb (ceqb c NUL)) line.

(** The lines [fgets(line, sizeof(line), file)] returns. *)
Definition config_lines (content : cstring) : list cstring :=
  file_lines (Z.to_nat (MAX_LINE_LENGTH - 1)) content.

Fixpoint count_loop (lines : list cstring) (count : Z) : Z :=
  match lines with
  | [] => count
  | line :: rest =>
      if line_skipped line then count_loop rest count
      else if 0 <? Z.of_nat (length (line_body line)) then count_loop rest (count + 1)
      else count_loop rest count
  end.

Definition countConfigLines (file : option cstring) : Z :=
  match file with
  | None => 0
  | Some content => count_loop (config_lines content) 0
  end.

(** ** Tokens *)

Definition is_blank (c : ascii) : bool := ceqb c SP || ceqb c TAB.

(** The two trimming loops: leading blanks are skipped, then trailing blanks
    are cut while [end > token], so the first character stays. *)
Definition trim (token : cstring) : cstring :=
  match drop_while is_blank token with
  | [] => []
  | c :: s => c :: rev (drop_while is_blank (rev s))
  end.

(** [while (token != NULL && tokenCount < CONFIG_FIELDS_MAX)]: [n] counts the
    tokens still allowed. *)
Fixpoint tokenize (n : nat) (s : cstring) : list cstring :=
  match n with
  | O => []
  | Datatypes.S n' =>
      match strtok COMMA s with
      | None => []
      | Some (tok, rest) => trim tok :: tokenize n' rest
      end
  end.

(** The tokens of one line, and the rule they make when there are enough. *)
Definition parseTokens (tokens : list cstring) : option TuningConfig :=
  let tokenCount := Z.of_nat (length tokens) in
  let tok i := default [] (zget tokens i) in
  if (CONFIG_FIELDS_REQUIRED <=? tokenCount) && (tokenCount <=? CONFIG_FIELDS_MAX) then
    Some {|
      collType := parseCollType (tok 0);
      minBytes := strtoull (tok 1);
      maxBytes := strtoull (tok 2);
      algorithm := parseAlgorithm (tok 3);
      protocol := parseProtocol (tok 4);
      cfg_nChannels := atoi (tok 5);
      cfg_nNodes := atoi (tok 6);
      cfg_nRanks := atoi (tok 7);
      numPipeOps := if CONFIG_FIELDS_WITH_PIPEOPS <=? tokenCount then atoi (tok 8) else -1;
      regBuff := if CONFIG_FIELDS_WITH_REGBUFF <=? tokenCount then atoi (tok 9) else -1;
    |}
  else None.

Definition parseConfigLine (line : cstring) : option TuningConfig :=
  parseTokens (tokenize (Z.to_nat CONFIG_FIELDS_MAX) (line_body line)).

(** ** [loadConfig] *)

Fixpoint load_loop (maxConfigs : Z) (lines : list cstring) (cfgs : list TuningConfig)
  : list TuningConfig :=
  match lines with
  | [] => cfgs
  | line :: rest =>
      if Z.of_nat (length cfgs) <? maxConfigs then
        if line_skipped line then load_loop maxConfigs rest cfgs
        else match parseConfigLine line with
             | Some c => load_loop maxConfigs rest (cfgs ++ [c])
             | None => load_loop maxConfigs rest cfgs
             end
      else cfgs
  end.

(** [mallocOk] tells whether the allocation of the array succeeds. *)
Definition loadConfig (mallocOk : bool) (ctx : TunerContext) (file : option cstring)
  : TunerContext * ncclResult_t :=
  match file with
  | None => (ctx, ncclSuccess)
  | Some content =>
      let configCount := countConfigLines file in
      if configCount =? 0 then (ctx, ncclSuccess)
      else if negb mallocOk then (ctx <| configs := [] |>, ncclSystemError)
      else
        (ctx <| maxConfigs := configCount |>
             <| configs := load_loop configCount (config_lines content) [] |>,
         ncclSuccess)
  end.

(** ** Specification: the rules of a file, without the capacity *)

Definition rule_of_line (line : cstring) : option TuningConfig :=
  if line_skipped line then None else parseConfigLine line.

Definition rules_of (content : cstring) : list TuningConfig :=
  omap rule_of_line (config_lines content).

(** The line that states a rule, in the format of [nccl_tuner.conf]. *)

Fixpoint show_nat (fuel : nat) (n : Z) : cstring :=
  match fuel with
  | O => []
  | Datatypes.S f =>
      if n <? 10 then [chr (48 + n)] else show_nat f (n / 10) ++ [chr (48 + n mod 10)]
  end.

Definition showZ (n : Z) : cstring :=
  if n <? 0 then chr 45 :: show_nat 20 (- n) else show_nat 20 n.

Definition joinc (fields : list cstring) : cstring :=
  match fields with
  | [] => []
  | f :: fs => f ++ concat (map (fun x => COMMA :: x) fs)
  end.

Definition render (c : TuningConfig) : cstring :=
  joinc [collTypeToString (collType c); showZ (minBytes c); showZ (maxBytes c);
         algorithmToString (algorithm c); protocolToString (protocol c);
         showZ (cfg_nChannels c); showZ (cfg_nNodes c); showZ (cfg_nRanks c);
         showZ (numPipeOps c); showZ (regBuff c)].

(** A rule the file format can state: one of the five collectives with a name,
    byte bounds of type [size_t], the other numbers of type [int]. *)
Definition rule_wf (c : TuningConfig) : Prop :=
  collType c ∈ [ncclFuncBroadcast; ncclFuncReduce; ncclFuncAllGather;
                ncclFuncReduceScatter; ncclFuncAllReduce]
  /\ in_u 64 (minBytes c) /\ in_u 64 (maxBytes c)
  /\ 0 <= algorithm c < NCCL_NUM_ALGORITHMS /\ 0 <= protocol c < NCCL_NUM_PROTOCOLS
  /\ in_s 32 (cfg_nChannels c) /\ in_s 32 (cfg_nNodes c) /\ in_s 32 (cfg_nRanks c)
  /\ in_s 32 (numPipeOps c) /\ in_s 32 (regBuff c).

(** ** Lemmas: [fgets] *)

Lemma fgets_app n s : fst (fgets n s) ++ snd (fgets n s) = s.
Proof.
  revert s. induction n as [|n IH]; intros [|c s]; cbn; try reflexivity.
  destruct (ceqb c NL) eqn:E; [reflexivity|].
  specialize (IH s). destruct (fgets n s) as [l r]. cbn in *. now rewrite IH.
Qed.

Lemma fgets_length n s : (length (fst (fgets n s)) <= n)%nat.
Proof.
  revert s. induction n as [|n IH]; intros [|c s]; cbn; try lia.
  destruct (ceqb c NL); cbn; [lia|].
  specialize (IH s). destruct (fgets n s). cbn in *. lia.
Qed.

Lemma fgets_progress n c s : (length (snd (fgets (S n) (c :: s))) <= length s)%nat.
Proof.
  cbn. destruct (ceqb c NL); cbn; [lia|].
  pose proof (fgets_app n s) as H. apply (f_equal length) in H.
  rewrite length_app in H. destruct (fgets n s). cbn in *. lia.
Qed.

Lemma fgets_lines_app fuel n s :
  (length s <= fuel)%nat -> concat (fgets_lines fuel (S n) s) = s.
Proof.
  revert s. induction fuel as [|fuel IH]; intros [|c s] Hf; try (cbn in *; lia); try reflexivity.
  cbn [fgets_lines].
  pose proof (fgets_progress n c s) as Hp. pose proof (fgets_app (S n) (c :: s)) as Ha.
  destruct (fgets (S n) (c :: s)) as [l r]. cbn [fst snd] in *.
  cbn [concat]. rewrite IH by (cbn in Hf; lia). exact Ha.
Qed.

Lemma fgets_lines_length fuel n s :
  Forall (fun l => (length l <= n)%nat) (fgets_lines fuel n s).
Proof.
  revert s. induction fuel as [|fuel IH]; intros [|c s]; cbn; try constructor.
  pose proof (fgets_length n (c :: s)). destruct (fgets n (c :: s)). constructor; auto.
Qed.

(** ** Lemmas: the capacity is never the limit *)

Definition counted (line : cstring) : bool :=
  negb (line_skipped line) && (0 <? Z.of_nat (length (line_body line))).

Lemma count_loop_filter lines n :
  count_loop lines n = n + Z.of_nat (length (List.filter counted lines)).
Proof.
  revert n. induction lines as [|l ls IH]; intros n; cbn [count_loop List.filter].
  - cbn. lia.
  - unfold counted at 1. destruct (line_skipped l); cbn [negb andb]; [apply IH|].
    destruct (0 <? _); rewrite IH; cbn [length]; lia.
Qed.

Lemma parse_counted line c : parseConfigLine line = Some c -> line_body line <> [].
Proof. unfold parseConfigLine. intros H E. rewrite E in H. discriminate H. Qed.

Lemma rule_of_line_counted line c : rule_of_line line = Some c -> counted line = true.
Proof.
  unfold rule_of_line, counted. destruct (line_skipped line); [done|].
  intros H%parse_counted. destruct (line_body line); [done|]. reflexivity.
Qed.

Lemma rules_cons l ls :
  omap rule_of_line (l :: ls) =
  match rule_of_line l with Some c => c :: omap rule_of_line ls | None => omap rule_of_line ls end.
Proof. reflexivity. Qed.

Lemma omap_counted_le lines :
  (length (omap rule_of_line lines) <= length (List.filter counted lines))%nat.
Proof.
  induction lines as [|l ls IH]; [done|]. rewrite rules_cons. cbn [List.filter].
  destruct (rule_of_line l) as [c|] eqn:E.
  - apply rule_of_line_counted in E. rewrite E. cbn [length]. lia.
  - destruct (counted l); cbn [length]; lia.
Qed.

Lemma load_loop_spec maxc lines cfgs :
  Z.of_nat (length cfgs + length (omap rule_of_line lines)) <= maxc ->
  load_loop maxc lines cfgs = cfgs ++ omap rule_of_line lines.
Proof.
  revert cfgs. induction lines as [|l ls IH]; intros cfgs H; cbn [load_loop].
  - now rewrite app_nil_r.
  - rewrite rules_cons in *.
    destruct (Z.ltb_spec (Z.of_nat (length cfgs)) maxc) as [Hlt|Hge].
    + unfold rule_of_line at 1. unfold rule_of_line at 1 in H.
      destruct (line_skipped l); [now apply IH|].
      destruct (parseConfigLine l) as [c|]; [|now apply IH].
      cbn [length] in H. rewrite IH; [now rewrite <- app_assoc|].
      rewrite length_app. cbn [length]. lia.
    + destruct (rule_of_line l); cbn [length] in H; [lia|].
      rewrite (nil_length_inv (omap rule_of_line ls)) by lia. now rewrite app_nil_r.
Qed.

(** The name of every algorithm, protocol and collective parses back to it. *)
Lemma parseAlgorithm_name a :
  0 <= a < NCCL_NUM_ALGORITHMS -> parseAlgorithm (algorithmToString a) = a.
Proof.
  unfold NCCL_NUM_ALGORITHMS. intros H.
  assert (a = 0 \/ a = 1 \/ a = 2 \/ a = 3 \/ a = 4 \/ a = 5 \/ a = 6) as Ha by lia.
  repeat destruct Ha as [-> | Ha]; try subst; reflexivity.
Qed.

Lemma parseProtocol_name p :
  0 <= p < NCCL_NUM_PROTOCOLS -> parseProtocol (protocolToString p) = p.
Proof.
  unfold NCCL_NUM_PROTOCOLS. intros H.
  assert (p = 0 \/ p = 1 \/ p = 2) as [-> | [-> | ->]] by lia; reflexivity.
Qed.

Lemma parseAlgorithm_range s : 0 <= parseAlgorithm s < NCCL_NUM_ALGORITHMS.
Proof.
  unfold parseAlgorithm. repeat (destruct (strcaseeq s _)); split; done.
Qed.

Lemma parseProtocol_range s : 0 <= parseProtocol s < NCCL_NUM_PROTOCOLS.
Proof.
  unfold parseProtocol. repeat (destruct (strcaseeq s _)); split; done.
Qed.

(** ** Lemmas: a rendered rule reads back *)

(** A character a field of a rendered rule is made of. *)
Definition field_char (c : ascii) : bool :=
  negb (ceqb c COMMA || ceqb c NL || ceqb c NUL || is_blank c || ceqb c HASH).

Definition field (f : cstring) : bool :=
  match f with [] => false | _ => forallb field_char f end.

Lemma take_while_app p a b :
  forallb p a = true -> (match b with [] => true | c :: _ => negb (p c) end) = true ->
  take_while p (a ++ b) = a /\ drop_while p (a ++ b) = b.
Proof.
  induction a as [|x a IH]; cbn [app forallb take_while drop_while]; intros Ha Hb.
  - destruct b as [|c b]; [done|]. cbn in *. destruct (p c); done.
  - apply andb_prop in Ha as [-> Ha]. destruct (IH Ha Hb) as [-> ->]. done.
Qed.

Lemma forallb_impl (p q : ascii -> bool) l :
  (forall c, p c = true -> q c = true) -> forallb p l = true -> forallb q l = true.
Proof. intros H. rewrite !forallb_forall. eauto. Qed.

Lemma field_char_spec c :
  field_char c = true ->
  ceqb c COMMA = false /\ ceqb c NL = false /\ ceqb c NUL = false /\ is_blank c = false
  /\ ceqb c HASH = false.
Proof.
  unfold field_char. intros H%negb_true_iff. rewrite !orb_false_iff in H. tauto.
Qed.

Lemma trim_field f : field f = true -> trim f = f.
Proof.
  destruct f as [|c f]; [done|]. cbn [field forallb]. intros [Hc Hf]%andb_prop.
  unfold trim. cbn [drop_while].
  destruct (field_char_spec c Hc) as (_ & _ & _ & -> & _).
  destruct (rev f) as [|x r] eqn:E.
  - cbn. rewrite <- (rev_involutive f), E. reflexivity.
  - cbn [drop_while].
    assert (field_char x = true) as Hx.
    { rewrite forallb_forall in Hf. apply Hf. rewrite in_rev, E. now left. }
    destruct (field_char_spec x Hx) as (_ & _ & _ & -> & _).
    now rewrite <- E, rev_involutive.
Qed.

Lemma strtok_field f rest :
  field f = true -> (match rest with [] => true | c :: _ => ceqb c COMMA end) = true ->
  strtok COMMA (f ++ rest) = Some (f, tail rest).
Proof.
  intros Hf Hr. unfold strtok.
  destruct f as [|c f]; [done|]. cbn [field] in Hf.
  assert (forallb (fun c => negb (ceqb c COMMA)) (c :: f) = true) as Hall.
  { eapply forallb_impl; [|exact Hf]. intros x Hx.
    now destruct (field_char_spec x Hx) as (-> & _). }
  cbn [app drop_while]. cbn [forallb] in Hall. pose proof (andb_prop _ _ Hall) as [Hc _].
  apply negb_true_iff in Hc. rewrite Hc.
  destruct (take_while_app (fun c => negb (ceqb c COMMA)) (c :: f) rest) as [Ht Hd].
  { exact Hall. }
  { destruct rest; [done|]. now rewrite Hr. }
  cbn [app] in Ht, Hd. now rewrite Ht, Hd.
Qed.

Lemma tokenize_joinc n fs :
  (length fs <= n)%nat -> forallb field fs = true -> tokenize n (joinc fs) = fs.
Proof.
  revert fs. induction n as [|n IH]; intros fs Hn Hf.
  - destruct fs; [done|cbn in Hn; lia].
  - destruct fs as [|f fs]; [done|]. cbn [forallb] in Hf. apply andb_prop in Hf as [Hf Hfs].
    cbn [tokenize joinc]. rewrite strtok_field; [|done|].
    + rewrite trim_field by done. f_equal.
      destruct fs as [|g fs]; [destruct n; reflexivity|].
      cbn [map concat app tail]. apply (IH (g :: fs)); [cbn in *; lia|done].
    + destruct fs; reflexivity.
Qed.

(** *** Numbers *)

Lemma digit_code d : 0 <= d < 10 -> code (chr (48 + d)) = 48 + d.
Proof.
  intros H.
  assert (d = 0 \/ d = 1 \/ d = 2 \/ d = 3 \/ d = 4 \/ d = 5 \/ d = 6 \/ d = 7 \/ d = 8 \/ d = 9)
    as Hd by lia.
  repeat destruct Hd as [-> | Hd]; try subst; reflexivity.
Qed.

Lemma digit_is_digit d : 0 <= d < 10 -> is_digit (chr (48 + d)) = true.
Proof. intros H. unfold is_digit. rewrite digit_code by done. lia. Qed.

Lemma digits_app s t acc :
  forallb is_digit s = true -> digits (s ++ t) acc = digits t (fst (digits s acc)).
Proof.
  revert acc. induction s as [|c s IH]; intros acc H; [done|].
  cbn [forallb] in H. apply andb_prop in H as [Hc Hs]. cbn [app digits]. rewrite Hc. auto.
Qed.

Lemma show_nat_digits f n : 0 <= n -> forallb is_digit (show_nat f n) = true.
Proof.
  revert n. induction f as [|f IH]; intros n Hn; [done|]. cbn [show_nat].
  destruct (Z.ltb_spec n 10).
  - cbn. rewrite digit_is_digit by lia. done.
  - rewrite forallb_app, IH by (apply Z.div_pos; lia). cbn.
    rewrite digit_is_digit by (apply Z.mod_pos_bound; lia). done.
Qed.

Lemma show_nat_value f n :
  0 <= n < 10 ^ Z.of_nat f -> fst (digits (show_nat f n) 0) = n.
Proof.
  revert n. induction f as [|f IH]; intros n Hn; [cbn in *; lia|]. cbn [show_nat].
  destruct (Z.ltb_spec n 10).
  - cbn [digits]. rewrite digit_is_digit, digit_code by lia. cbn. lia.
  - rewrite digits_app by (apply show_nat_digits, Z.div_pos; lia).
    rewrite IH.
    + cbn [digits]. rewrite digit_is_digit, digit_code by (apply Z.mod_pos_bound; lia).
      cbn [fst]. pose proof (Z.div_mod n 10). lia.
    + rewrite Nat2Z.inj_succ, Z.pow_succ_r in Hn by lia.
      split; [apply Z.div_pos; lia|]. apply Z.div_lt_upper_bound; lia.
Qed.

Lemma show_nat_nonempty f n : (0 < f)%nat -> exists c s, show_nat f n = c :: s.
Proof.
  destruct f as [|f]; [lia|]. intros _. cbn [show_nat]. destruct (n <? 10); [eauto|].
  destruct (show_nat f (n / 10)); cbn; eauto.
Qed.

Lemma digit_not_special c :
  is_digit c = true -> is_space c = false /\ (code c =? 45) = false /\ (code c =? 43) = false
  /\ field_char c = true.
Proof.
  intros H. split_and!; try (unfold is_digit, is_space in *; lia).
  revert H. destruct c as [[] [] [] [] [] [] [] []]; vm_compute; congruence.
Qed.

Lemma show_nat_scan f n :
  (0 < f)%nat -> 0 <= n < 10 ^ Z.of_nat f -> scan_int (show_nat f n) = Some (false, n).
Proof.
  intros Hf Hn. pose proof (show_nat_value f n Hn) as Hv.
  pose proof (show_nat_digits f n (proj1 Hn)) as Hd.
  destruct (show_nat_nonempty f n Hf) as (c & s & E). rewrite E in *.
  cbn [forallb] in Hd. apply andb_prop in Hd as [Hc _].
  destruct (digit_not_special c Hc) as (H1 & H2 & H3 & _).
  unfold scan_int. cbn [drop_while]. rewrite H1. unfold sign. rewrite H2, H3.
  cbn [starts_digit]. rewrite Hc. do 2 f_equal. exact Hv.
Qed.

Lemma showZ_scan n :
  - 10 ^ 20 < n < 10 ^ 20 -> scan_int (showZ n) = Some (n <? 0, Z.abs n).
Proof.
  intros Hn. unfold showZ. destruct (Z.ltb_spec n 0).
  - pose proof (show_nat_scan 20 (- n)) as H1.
    pose proof (show_nat_digits 20 (- n)) as Hd.
    destruct (show_nat_nonempty 20 (- n)) as (c & s & E); [lia|]. rewrite E in *.
    specialize (H1 ltac:(lia) ltac:(change (10 ^ Z.of_nat 20) with (10 ^ 20); lia)).
    specialize (Hd ltac:(lia)). cbn [forallb] in Hd. apply andb_prop in Hd as [Hc _].
    destruct (digit_not_special c Hc) as (Hs & H2 & H3 & _).
    unfold scan_int in *. cbn [drop_while] in *. rewrite Hs in H1.
    replace (is_space (chr 45)) with false by reflexivity.
    unfold sign in *. rewrite H2, H3 in H1. cbn [starts_digit] in H1. rewrite Hc in H1.
    replace (code (chr 45) =? 45) with true by reflexivity.
    cbn [starts_digit]. rewrite Hc. injection H1 as H1.
    rewrite Z.abs_neq by lia. do 2 f_equal. exact H1.
  - rewrite show_nat_scan; [do 2 f_equal; lia|lia|].
    change (10 ^ Z.of_nat 20) with (10 ^ 20). lia.
Qed.

Lemma strtoull_showZ n : in_u 64 n -> strtoull (showZ n) = n.
Proof.
  unfold in_u. intros Hn. unfold strtoull. rewrite showZ_scan by lia.
  destruct (Z.ltb_spec n 0); [lia|]. unfold ULLONG_MAX.
  destruct (Z.ltb_spec (2 ^ 64 - 1) (Z.abs n)); lia.
Qed.

Lemma atoi_showZ n : in_s 32 n -> atoi (showZ n) = n.
Proof.
  intros Hn. unfold atoi, strtol. rewrite showZ_scan by (unfold in_s in Hn; lia).
  replace (if n <? 0 then Z.max LONG_MIN (- Z.abs n) else Z.min LONG_MAX (Z.abs n)) with n.
  - now apply wrapS_small.
  - unfold in_s, LONG_MIN, LONG_MAX in *. destruct (Z.ltb_spec n 0); lia.
Qed.

Lemma showZ_field n : field (showZ n) = true.
Proof.
  unfold showZ. destruct (Z.ltb_spec n 0).
  - change (forallb field_char (show_nat 20 (- n)) = true).
    eapply forallb_impl; [|apply show_nat_digits; lia].
    intros c Hc. apply (digit_not_special c Hc).
  - destruct (show_nat_nonempty 20 n) as (c & s & E); [lia|].
    assert (forallb field_char (show_nat 20 n) = true) as H1.
    { eapply forallb_impl; [|apply show_nat_digits; lia].
      intros x Hx. apply (digit_not_special x Hx). }
    rewrite E in *. exact H1.
Qed.

Lemma names_are_fields c a p :
  c ∈ [ncclFuncBroadcast; ncclFuncReduce; ncclFuncAllGather; ncclFuncReduceScatter;
       ncclFuncAllReduce] ->
  field (collTypeToString c) = true /\ field (algorithmToString a) = true
  /\ field (protocolToString p) = true /\ parseCollType (collTypeToString c) = c.
Proof.
  intros Hc. split_and!.
  - destruct c; reflexivity.
  - unfold algorithmToString. repeat (destruct (a =? _); [reflexivity|]). reflexivity.
  - unfold protocolToString. repeat (destruct (p =? _); [reflexivity|]). reflexivity.
  - destruct c; try reflexivity; exfalso; set_solver.
Qed.

Lemma joinc_chars p fs :
  p COMMA = true -> forallb (forallb p) fs = true -> forallb p (joinc fs) = true.
Proof.
  intros Hc. destruct fs as [|f fs]; [done|]. cbn [forallb joinc].
  intros [Hf Hfs]%andb_prop. rewrite forallb_app, Hf. cbn [andb].
  induction fs as [|g fs IH]; [done|]. cbn [forallb map concat] in *.
  apply andb_prop in Hfs as [Hg Hfs]. rewrite <- app_comm_cons. cbn [forallb].
  now rewrite Hc, forallb_app, Hg, IH.
Qed.

Definition line_char (c : ascii) : bool := negb (ceqb c NL) && negb (ceqb c NUL).

Lemma parseTokens_ten a b c d e f g h i j :
  parseTokens [a; b; c; d; e; f; g; h; i; j] =
  Some (mkTuningConfig (parseCollType a) (strtoull b) (strtoull c) (parseAlgorithm d)
          (parseProtocol e) (atoi f) (atoi g) (atoi h) (atoi i) (atoi j)).
Proof. reflexivity. Qed.

(** The fields of a rendered rule. *)
Lemma render_fields r :
  rule_wf r -> exists fs, render r = joinc fs /\ length fs = 10%nat /\ forallb field fs = true
                          /\ parseTokens fs = Some r.
Proof.
  intros (Hc & Hmin & Hmax & Ha & Hp & Hch & Hnn & Hnr & Hpo & Hrb).
  destruct (names_are_fields _ (algorithm r) (protocol r) Hc) as (Fc & Fa & Fp & Pc).
  eexists. split; [reflexivity|]. split; [reflexivity|]. split.
  - cbn [forallb]. now rewrite Fc, Fa, Fp, !showZ_field.
  - rewrite parseTokens_ten, Pc, parseAlgorithm_name, parseProtocol_name, !strtoull_showZ,
      !atoi_showZ by done.
    now destruct r.
Qed.

Lemma render_line_chars r : rule_wf r -> forallb line_char (render r) = true.
Proof.
  intros Hr. destruct (render_fields r Hr) as (fs & -> & _ & Hf & _).
  apply joinc_chars; [reflexivity|]. rewrite forallb_forall in Hf |- *.
  intros f Hin. specialize (Hf f Hin). destruct f as [|c f]; [done|].
  eapply forallb_impl; [|exact Hf]. intros x Hx.
  destruct (field_char_spec x Hx) as (_ & H1 & H2 & _). unfold line_char. now rewrite H1, H2.
Qed.

(** *** Length of a rendered rule *)

Lemma show_nat_length f n : 0 <= n < 10 ^ Z.of_nat f -> (length (show_nat f n) <= f)%nat.
Proof.
  revert n. induction f as [|f IH]; intros n Hn; [done|]. cbn [show_nat].
  destruct (n <? 10); [cbn; lia|]. rewrite length_app. cbn [length].
  rewrite Nat2Z.inj_succ, Z.pow_succ_r in Hn by lia.
  assert (0 <= n / 10 < 10 ^ Z.of_nat f) as Hd
    by (split; [apply Z.div_pos; lia|apply Z.div_lt_upper_bound; lia]).
  specialize (IH _ Hd). lia.
Qed.

Lemma showZ_length n : - 10 ^ 20 < n < 10 ^ 20 -> (length (showZ n) <= 21)%nat.
Proof.
  intros Hn. unfold showZ. destruct (Z.ltb_spec n 0).
  - pose proof (show_nat_length 20 (- n)) as H1. change (10 ^ Z.of_nat 20) with (10 ^ 20) in H1.
    cbn [length]. lia.
  - pose proof (show_nat_length 20 n) as H1. change (10 ^ Z.of_nat 20) with (10 ^ 20) in H1. lia.
Qed.

Lemma length_joinc fs : (length (joinc fs) <= length fs + list_sum (map length fs))%nat.
Proof.
  destruct fs as [|f fs]; [done|]. cbn [joinc length map list_sum foldr]. rewrite length_app.
  enough (length (concat (map (λ x : cstring, COMMA :: x) fs)) =
          length fs + list_sum (map length fs))%nat by (unfold list_sum in *; cbn; lia).
  induction fs as [|g fs IH]; [done|]. cbn [map concat]. rewrite length_app, IH.
  cbn. unfold list_sum. lia.
Qed.

Lemma render_length r : rule_wf r -> (length (render r) < 254)%nat.
Proof.
  intros (Hc & Hmin & Hmax & Ha & Hp & Hch & Hnn & Hnr & Hpo & Hrb).
  unfold in_u, in_s in *. unfold render.
  eapply Nat.le_lt_trans; [apply length_joinc|].
  assert (length (collTypeToString (collType r)) <= 13)%nat by (destruct (collType r); cbn; lia).
  assert (length (algorithmToString (algorithm r)) <= 14)%nat
    by (unfold algorithmToString; repeat (destruct (algorithm r =? _); [cbn; lia|]); cbn; lia).
  assert (length (protocolToString (protocol r)) <= 7)%nat
    by (unfold protocolToString; repeat (destruct (protocol r =? _); [cbn; lia|]); cbn; lia).
  pose proof (showZ_length (minBytes r)). pose proof (showZ_length (maxBytes r)).
  pose proof (showZ_length (cfg_nChannels r)). pose proof (showZ_length (cfg_nNodes r)).
  pose proof (showZ_length (cfg_nRanks r)). pose proof (showZ_length (numPipeOps r)).
  pose proof (showZ_length (regBuff r)).
  cbn [map list_sum foldr length] in *. lia.
Qed.

(** *** Files of rendered rules *)

Definition render_file (rs : list TuningConfig) : cstring :=
  concat (map (fun r => render r ++ [NL]) rs).

Lemma fgets_line n l rest :
  forallb line_char l = true -> (length l < n)%nat ->
  fgets n (l ++ NL :: rest) = (l ++ [NL], rest).
Proof.
  revert n. induction l as [|c l IH]; intros [|n] Hl Hn; try (cbn in *; lia).
  - cbn. now rewrite (proj2 (Ascii.eqb_eq NL NL) eq_refl : ceqb NL NL = true).
  - cbn [forallb app fgets] in *. apply andb_prop in Hl as [Hc Hl].
    assert (ceqb c NL = false) as -> by (unfold line_char in Hc; now destruct (ceqb c NL)).
    rewrite IH; [done|done|]. cbn in Hn. lia.
Qed.

Lemma line_body_render r : rule_wf r -> line_body (render r ++ [NL]) = render r.
Proof.
  intros Hr. unfold line_body.
  destruct (take_while_app line_char (render r) [NL]) as [H _];
    [now apply render_line_chars|reflexivity|exact H].
Qed.

Lemma rule_of_render r : rule_wf r -> rule_of_line (render r ++ [NL]) = Some r.
Proof.
  intros Hr. unfold rule_of_line, parseConfigLine. rewrite line_body_render by done.
  destruct (render_fields r Hr) as (fs & E & Hlen & Hf & Hp). rewrite E.
  rewrite tokenize_joinc; [|rewrite Hlen; vm_compute; lia|done]. rewrite Hp.
  destruct fs as [|f fs]; [done|]. cbn [forallb] in Hf. apply andb_prop in Hf as [Hf _].
  destruct f as [|c f]; [done|]. cbn [field forallb] in Hf. apply andb_prop in Hf as [Hc _].
  destruct (field_char_spec c Hc) as (_ & H1 & _ & _ & H2).
  cbn [joinc app line_skipped]. now rewrite H1, H2.
Qed.

Lemma lines_of_rendered fuel rs :
  Forall rule_wf rs -> (length (render_file rs) <= fuel)%nat ->
  fgets_lines fuel 255 (render_file rs) = map (fun r => render r ++ [NL]) rs.
Proof.
  intros Hrs. revert fuel. induction Hrs as [|r rs Hr Hrs IH]; intros fuel Hf.
  - destruct fuel; reflexivity.
  - unfold render_file in *. cbn [map concat] in *. rewrite !length_app in Hf. cbn [length] in Hf.
    assert (exists c t, render r = c :: t) as (c & t & E).
    { destruct (render_fields r Hr) as (fs & E & Hlen & Hfs & _). rewrite E.
      destruct fs as [|[|c f] fs]; [done|done|]. cbn [joinc app]. eauto. }
    destruct fuel as [|fuel]; [lia|]. rewrite <- app_assoc. cbn [app].
    pose proof (render_length r Hr) as Hlen.
    pose proof (fgets_line 255 (render r) (concat (map (fun r => render r ++ [NL]) rs))
                  (render_line_chars r Hr)) as Hg.
    rewrite E in *. cbn [app fgets_lines] in *. rewrite Hg by lia.
    now rewrite IH by (cbn in *; lia).
Qed.

(** ** Theorems *)

(** C33. [loadConfig] loads every rule: on a context without rules it succeeds and the
    context then holds exactly the rules of the file's lines, in order: the
    array sized by the first pass ([countConfigLines]) is never too small, so
    the capacity test of the second loop never drops a rule. *)
Theorem loadConfig_loads_all_rules ctx content :
  configs ctx = [] ->
  let '(ctx', r) := loadConfig true ctx (Some content) in
  r = ncclSuccess /\ configs ctx' = rules_of content
  /\ (configs ctx' <> [] -> numConfigs ctx' <= maxConfigs ctx')
  /\ costModel ctx' = costModel ctx /\ nRanks ctx' = nRanks ctx /\ nNodes ctx' = nNodes ctx.
Proof.
  intros H0. unfold loadConfig, countConfigLines.
  pose proof (count_loop_filter (config_lines content) 0) as Hc.
  pose proof (omap_counted_le (config_lines content)) as Ho.
  destruct (Z.eqb_spec (count_loop (config_lines content) 0) 0) as [E|E]; cbn.
  - unfold rules_of. rewrite (nil_length_inv (omap rule_of_line (config_lines content))) by lia.
    rewrite H0. done.
  - unfold numConfigs. cbn. rewrite load_loop_spec by (cbn [length]; lia).
    split_and!; try done. intros _. cbn [app]. lia.
Qed.

Lemma loadConfig_loads_all_rules_witness :
  let ctx := mkTunerContext [] 0 8 8 (mkNvlDomainInfo 0 0 0) 0 0 zeroCostModel None in
  let '(ctx', r) := loadConfig true ctx (Some (lit "allgather,0,64,ring,ll,-1,-1,-1" ++ [NL])) in
  numConfigs ctx' = 1 /\
  (r = ncclSuccess /\ configs ctx' = rules_of (lit "allgather,0,64,ring,ll,-1,-1,-1" ++ [NL])
   /\ (configs ctx' <> [] -> numConfigs ctx' <= maxConfigs ctx')
   /\ costModel ctx' = costModel ctx /\ nRanks ctx' = nRanks ctx /\ nNodes ctx' = nNodes ctx).
Proof.
  split; [vm_compute; reflexivity|].
  exact (loadConfig_loads_all_rules (mkTunerContext [] 0 8 8 (mkNvlDomainInfo 0 0 0) 0 0 zeroCostModel None)
           (lit "allgather,0,64,ring,ll,-1,-1,-1" ++ [NL]) eq_refl).
Defined.

(** C18. Round trip: a configuration file written from a list of rules, one per line
    in the format of [nccl_tuner.conf], loads as that list. *)
Theorem render_file_loads rs :
  Forall rule_wf rs -> rules_of (render_file rs) = rs.
Proof.
  intros Hrs. unfold rules_of, config_lines, file_lines.
  change (Z.to_nat (MAX_LINE_LENGTH - 1)) with 255%nat.
  rewrite lines_of_rendered by done.
  induction Hrs as [|r rs Hr Hrs IH]; [done|].
  cbn [map]. rewrite rules_cons, rule_of_render by done. now rewrite IH.
Qed.

Lemma render_file_loads_witness :
  rules_of (render_file [mkTuningConfig ncclFuncAllReduce 0 (2 ^ 64 - 1) NCCL_ALGO_NVLS
                           NCCL_PROTO_SIMPLE 24 (-1) 16 1 0])
  = [mkTuningConfig ncclFuncAllReduce 0 (2 ^ 64 - 1) NCCL_ALGO_NVLS NCCL_PROTO_SIMPLE 24 (-1) 16 1 0].
Proof.
  apply render_file_loads. repeat constructor; cbn; try lia; try done.
  all: unfold in_s; lia.
Defined.
