(* ===== verification/TunerCost.v ===== *)
(** * Tuner plugin: the cost model

    [costLog2i], [perChannelBw] .. [computeReduceScatterTime] and
    [applyCostModelGeneric] of [tuner/plugin.c].  A price is the [float] the C
    function returns together with what it stores through [outAlgoBw] and
    [outBusBw]; [None] is the integer division by [nNodes = 0].  The cost table
    is the caller's contiguous array, indexed [a * NCCL_NUM_PROTOCOLS + p] as
    the cast to a pointer to rows of [NCCL_NUM_PROTOCOLS] floats does. *)

From S2P Require Import Prelude CFloat CStr TunerTypes.

Open Scope Z_scope.
Open Scope nccl_scope.

(** ** Arithmetic helpers *)

(** [while (n > 1) { n >>= 1; r++; }]: 31 halvings exhaust a positive [int]. *)
Fixpoint costLog2i_loop (fuel : nat) (n r : Z) : Z :=
  match fuel with
  | O => r
  | Datatypes.S f => if 1 <? n then costLog2i_loop f (Z.shiftr n 1) (r + 1) else r
  end.

Definition costLog2i (n : Z) : Z := costLog2i_loop 31 n 0.

Definition perChannelBw (P : CostModelParams) (algo proto scale nNodes nChannels : Z)
    (nvlsPipelineFactor : double) : double :=
  let bw := if nNodes <? 2 then bwIntra P else bwInter P in
  let bw :=
    if (algo =? NCCL_ALGO_RING) && (2 <=? nNodes) && (ringBwCapInter P >? 0.0)%dbl
       && (bw >? ringBwCapInter P)%dbl
    then ringBwCapInter P else bw in
  if (algo =? NCCL_ALGO_NVLS) || (algo =? NCCL_ALGO_NVLS_TREE) then
    if negb (proto =? NCCL_PROTO_SIMPLE) then (-1.0)%dbl
    else if nChannels <? 2 then (-1.0)%dbl
    else
      let intraBw := (bwIntra P * nvlsEfficiency P * dbl_of_Z (nChannels - 1)
                      / dbl_of_Z nChannels)%dbl in
      let intraBw := (intraBw * nvlsPipelineFactor)%dbl in
      let interBw := (bwInter P * (if ((nNodes <=? 2) && (algo =? NCCL_ALGO_NVLS_TREE))%Z
                                   then 2.0 else 1.0))%dbl in
      let nvlsCap := if (algo =? NCCL_ALGO_NVLS_TREE)
                     then tab1 (perChMaxNVLSTreeBw P) scale else 1e30%dbl in
      let bw := intraBw in
      let bw := if (interBw <? bw)%dbl then interBw else bw in
      let bw := if (nvlsCap <? bw)%dbl then nvlsCap else bw in
      bw
  else bw.

Definition applyProtocolCap (busBw : double) (algo proto : Z) (P : CostModelParams)
    (scale nNodes nChannels : Z) : double :=
  if (algo =? NCCL_ALGO_RING) && (proto =? NCCL_PROTO_LL) then
    let cand := (busBw * 0.5)%dbl in
    if (tab1 (llMaxBw P) scale <? cand)%dbl then tab1 (llMaxBw P) scale else cand
  else if (algo =? NCCL_ALGO_RING) && (proto =? NCCL_PROTO_LL128) then
    let cand := (busBw * 0.78)%dbl in
    let cap := (dbl_of_Z nChannels * tab1 (perChMaxRingLL128Bw P) scale)%dbl in
    if (cap <? cand)%dbl then cap else cand
  else if (algo =? NCCL_ALGO_TREE) then
    let cand := (busBw * 0.92)%dbl in
    let cap := (dbl_of_Z nChannels * tab1 (perChMaxTreeBw P) scale)%dbl in
    let busBw := if (cap <? cand)%dbl then cap else cand in
    if (proto =? NCCL_PROTO_LL) then
      let c2 := (busBw / 3.8)%dbl in
      if (tab1 (llMaxBw P) scale <? c2)%dbl then tab1 (llMaxBw P) scale else c2
    else if (proto =? NCCL_PROTO_LL128) then
      let factor := if (nNodes =? 1) then (7.0 / 9.0)%dbl else (120.0 / 128.0)%dbl in
      let c2 := (busBw * factor)%dbl in
      let cap2 := (dbl_of_Z nChannels * tab1 (perChMaxTreeLL128Bw P) scale)%dbl in
      if (cap2 <? c2)%dbl then cap2 else c2
    else busBw
  else busBw.

Definition busBwToAlgoBw (busBw : double) (algo : Z) (coll : ncclFunc_t) (nRanks : Z) : double :=
  if nRanks <=? 1 then busBw
  else match coll with
  | ncclFuncAllReduce =>
      if (algo =? NCCL_ALGO_RING) || (algo =? NCCL_ALGO_NVLS) || (algo =? NCCL_ALGO_NVLS_TREE) then
        (busBw * (dbl_of_Z nRanks / dbl_of_Z (2 * (nRanks - 1))))%dbl
      else if (algo =? NCCL_ALGO_TREE) then (busBw * 0.5)%dbl
      else (-1.0)%dbl
  | ncclFuncAllGather | ncclFuncReduceScatter =>
      if (algo =? NCCL_ALGO_RING) || (algo =? NCCL_ALGO_NVLS) then
        (busBw * (dbl_of_Z nRanks / dbl_of_Z (nRanks - 1)))%dbl
      else (-1.0)%dbl
  | _ => (-1.0)%dbl
  end.

Definition algoLatency (P : CostModelParams) (algo proto : Z) (coll : ncclFunc_t)
    (nRanks nNodes ppn : Z) : double :=
  let baseLat := tab2 (baseLatencies P) algo proto in
  let intraLat := tab3 (hwLatencies P) NCCL_HW_NVLINK algo proto in
  let algoForNet := if (ppn =? 1) then NCCL_ALGO_TREE else algo in
  let interLat := tab3 (hwLatencies P) NCCL_HW_NET algoForNet proto in
  let interLat := (interLat + graphLatencyInter P)%dbl in
  let interLat := if (proto =? NCCL_PROTO_SIMPLE)
                  then (interLat + graphLatencyInter P)%dbl else interLat in
  let steps :=
    match coll with
    | ncclFuncAllReduce =>
        Some (2 * (nRanks - 1), if (nNodes =? 1) then 0 else 2 * (nNodes - 1))
    | ncclFuncAllGather | ncclFuncReduceScatter =>
        Some (nRanks - 1, if (nNodes =? 1) then 0 else nNodes - 1)
    | _ => None
    end in
  match steps with
  | None => (-1.0)%dbl
  | Some (nsteps, nInter) =>
      let lat := baseLat in
      let allReduce := ncclFunc_eqb coll ncclFuncAllReduce in
      if (algo =? NCCL_ALGO_RING) then
        (lat + (dbl_of_Z (nsteps - nInter) * intraLat + dbl_of_Z nInter * interLat))%dbl
      else if (algo =? NCCL_ALGO_TREE) && allReduce then
        (lat + 2.0 * (dbl_of_Z (ppn - 1) * intraLat + dbl_of_Z (costLog2i nNodes) * interLat))%dbl
      else if (algo =? NCCL_ALGO_NVLS) then
        let lat := intraLat in
        if 1 <? nNodes then (lat + interLat)%dbl else lat
      else if (algo =? NCCL_ALGO_NVLS_TREE) && allReduce then
        (lat + (intraLat + 2.0 * dbl_of_Z (costLog2i nNodes) * interLat))%dbl
      else (-1.0)%dbl
  end.

Definition regLatScaleFor (P : CostModelParams) (coll : ncclFunc_t) (algo proto regBuff : Z)
  : double :=
  if (regBuff =? 0) then 1.0%dbl
  else match coll with
  | ncclFuncAllReduce =>
      let s := tab2 (arRegLatScale P) algo proto in if (s >? 0.0)%dbl then s else 1.0%dbl
  | ncclFuncAllGather =>
      let s := tab2 (agRegLatScale P) algo proto in if (s >? 0.0)%dbl then s else 1.0%dbl
  | _ => 1.0%dbl
  end.

(** ** Prices *)

Definition price : Type := float * option (float * float).

Definition unsupported : option price := Some (flt_of_dbl (-1.0)%dbl, None).

(** [latCount], and [lat * latCount + nBytes / (1000 * algoBw)] with the stores
    through the output pointers. *)
Definition latCountFor (ring : bool) (numPipeOps : Z) : Z :=
  let c := if ring then numPipeOps else Z.quot (numPipeOps + 3) 4 in
  if c <? 1 then 1 else c.

Definition finalTime (lat algoBw busBw : double) (latCount nBytes : Z) : option price :=
  let timeUs := (lat * dbl_of_Z latCount + dbl_of_Z nBytes / (1000.0 * algoBw))%dbl in
  Some (flt_of_dbl timeUs, Some (flt_of_dbl algoBw, flt_of_dbl busBw)).

Definition tuningScale (nNodes : Z) : Z :=
  if nNodes <=? 1 then 0 else if nNodes <=? 2 then 1 else 2.

Definition computeAllReduceTime (ctx : TunerContext) (algo proto nBytes numPipeOps regBuff : Z)
  : option price :=
  let P := costModel ctx in
  let nRanks := i32 (nRanks ctx) in
  let nNodes := i32 (nNodes ctx) in
  if nRanks <=? 1 then Some (flt_of_dbl 0.0%dbl, Some (flt_of_dbl 0.0%dbl, flt_of_dbl 0.0%dbl))
  else if nNodes =? 0 then None
  else
    let ppn := Z.quot nRanks nNodes in
    let nChannels := cm_nChannels P in
    let scale := tuningScale nNodes in
    if (algo =? NCCL_ALGO_NVLS) && (1 <? nNodes) then unsupported else
    let bw := perChannelBw P algo proto scale nNodes nChannels 2.0%dbl in
    if (bw <? 0.0)%dbl then unsupported else
    let bw :=
      if (algo =? NCCL_ALGO_RING) && (proto =? NCCL_PROTO_SIMPLE) && (nNodes =? 1)
         && (ringBwCapIntra P >? 0.0)%dbl && (bw >? ringBwCapIntra P)%dbl
      then ringBwCapIntra P else bw in
    let busBw := (dbl_of_Z nChannels * bw)%dbl in
    let busBw := applyProtocolCap busBw algo proto P scale nNodes nChannels in
    let algoBw := busBwToAlgoBw busBw algo ncclFuncAllReduce nRanks in
    if (algoBw <=? 0.0)%dbl then unsupported else
    let lat := algoLatency P algo proto ncclFuncAllReduce nRanks nNodes ppn in
    if (lat <? 0.0)%dbl then unsupported else
    let lat := (lat * regLatScaleFor P ncclFuncAllReduce algo proto regBuff)%dbl in
    finalTime lat algoBw busBw (latCountFor (algo =? NCCL_ALGO_RING) numPipeOps) nBytes.

Definition computeAllGatherOrRSTime (ctx : TunerContext) (coll : ncclFunc_t)
    (algo proto nBytes numPipeOps regBuff : Z) : option price :=
  let P := costModel ctx in
  let nRanks := i32 (nRanks ctx) in
  let nNodes := i32 (nNodes ctx) in
  if nRanks <=? 1 then Some (flt_of_dbl 0.0%dbl, Some (flt_of_dbl 0.0%dbl, flt_of_dbl 0.0%dbl))
  else if nNodes =? 0 then None
  else
    let ppn := Z.quot nRanks nNodes in
    let nChannels := cm_nChannels P in
    let scale := tuningScale nNodes in
    if (algo =? NCCL_ALGO_PAT) then
      if (patBwEff P <=? 0.0)%dbl || negb (proto =? NCCL_PROTO_SIMPLE) || negb (nNodes =? nRanks)
      then unsupported else
      let perCh := if nNodes <? 2 then bwIntra P else bwInter P in
      let busBw := (dbl_of_Z nChannels * perCh * patBwEff P)%dbl in
      let algoBw := busBw in
      if (algoBw <=? 0.0)%dbl then unsupported else
      let stepLat := (tab3 (hwLatencies P) NCCL_HW_NET NCCL_ALGO_PAT proto
                      + 2.0 * graphLatencyInter P)%dbl in
      let lat := (tab2 (baseLatencies P) NCCL_ALGO_PAT proto
                  + dbl_of_Z (costLog2i nNodes) * stepLat
                  + dbl_of_Z nRanks * patLatPerRank P)%dbl in
      let lat := (lat * regLatScaleFor P coll algo proto regBuff)%dbl in
      finalTime lat algoBw busBw (latCountFor false numPipeOps) nBytes
    else
    if (algo =? NCCL_ALGO_NVLS) && (1 <? nNodes) then unsupported else
    if (algo =? NCCL_ALGO_TREE) || (algo =? NCCL_ALGO_NVLS_TREE) then unsupported else
    let bw := perChannelBw P algo proto scale nNodes nChannels 1.0%dbl in
    if (bw <? 0.0)%dbl then unsupported else
    let busBw := (dbl_of_Z nChannels * bw)%dbl in
    let busBw := applyProtocolCap busBw algo proto P scale nNodes nChannels in
    let algoBw := busBwToAlgoBw busBw algo coll nRanks in
    if (algoBw <=? 0.0)%dbl then unsupported else
    let lat := algoLatency P algo proto coll nRanks nNodes ppn in
    if (lat <? 0.0)%dbl then unsupported else
    let lat := (lat * regLatScaleFor P coll algo proto regBuff)%dbl in
    finalTime lat algoBw busBw (latCountFor (algo =? NCCL_ALGO_RING) numPipeOps) nBytes.

Definition computeAllGatherTime (ctx : TunerContext) := computeAllGatherOrRSTime ctx ncclFuncAllGather.
Definition computeReduceScatterTime (ctx : TunerContext) :=
  computeAllGatherOrRSTime ctx ncclFuncReduceScatter.

(** The function type [ComputeFn]. *)
Abbreviation ComputeFn := (TunerContext -> Z -> Z -> Z -> Z -> Z -> option price).

(** ** Filling the cost table *)

Record PopState := mkPopState {
  table : list float;
  populated : Z;
  unpriced : list Z;
}.

#[export] Instance eta_PopState : Eta PopState := fun r =>
  mkPopState (table r) (populated r) (unpriced r).

Definition cell (a p : Z) : Z := a * NCCL_NUM_PROTOCOLS + p.

Definition ignored (x : float) : bool := deq (dbl_of_flt x) NCCL_ALGO_PROTO_IGNORE.

(** [t < 0.0f] *)
Definition negative (t : float) : bool := dlt t (flt_of_dbl 0.0%dbl).

Definition readCell (i : Z) : comp PopState float :=
  let* s := getS in of_option (zget (table s) i).

Definition writeCell (i : Z) (v : float) : comp PopState unit :=
  let* s := getS in
  let* t := of_option (zset (table s) i v) in
  modify (fun s => s <| table := t |>).

Definition priceCell (ctx : TunerContext) (computeFn : ComputeFn) (nBytes numPipeOps regBuff : Z)
    (a p : Z) : comp PopState unit :=
  let* x := readCell (cell a p) in
  if ignored x then ret tt
  else
    let* '(t, _) := of_option (computeFn ctx a p nBytes numPipeOps regBuff) in
    if negative t then modify (fun s => s <| unpriced := unpriced s ++ [cell a p] |>)
    else writeCell (cell a p) t ;;;
         modify (fun s => s <| populated := populated s + 1 |>).

Fixpoint disableCells (cells : list Z) : comp PopState unit :=
  match cells with
  | [] => ret tt
  | i :: rest =>
      let a := Z.quot i NCCL_NUM_PROTOCOLS in
      let p := Z.rem i NCCL_NUM_PROTOCOLS in
      writeCell (cell a p) COST_MODEL_DISABLED_COST ;;; disableCells rest
  end.

Definition applyCostModelGeneric (ctx : TunerContext) (computeFn : ComputeFn)
    (nBytes numPipeOps regBuff numAlgo numProto : Z) : comp PopState Z :=
  forN (Z.min numAlgo NCCL_NUM_ALGORITHMS) (fun a =>
    forN (Z.min numProto NCCL_NUM_PROTOCOLS) (fun p =>
      priceCell ctx computeFn nBytes numPipeOps regBuff a p)) ;;;
  let* s := getS in
  when ((0 <? populated s) && negb (disableUnmodeledCells (costModel ctx) =? 0))
    (disableCells (unpriced s)) ;;;
  gets populated.

Definition applyCostModelAllReduce (ctx : TunerContext) := applyCostModelGeneric ctx computeAllReduceTime.
Definition applyCostModelAllGather (ctx : TunerContext) := applyCostModelGeneric ctx computeAllGatherTime.
Definition applyCostModelReduceScatter (ctx : TunerContext) :=
  applyCostModelGeneric ctx computeReduceScatterTime.

(** ** Specification of the table filler *)

Section FillSpec.
Variables (ctx : TunerContext) (computeFn : ComputeFn) (nBytes numPipeOps regBuff : Z).
Variable (t0 : list float).

(** The price of cell [c], [None] for an unsupported one. *)
Definition cellPrice (c : Z) : option float :=
match computeFn ctx (c / NCCL_NUM_PROTOCOLS) (c mod NCCL_NUM_PROTOCOLS)
nBytes numPipeOps regBuff with
| Some (t, _) => if negative t then None else Some t
| None => None
end.

Definition valid (c : Z) : Prop := exists x, zget t0 c = Some x /\ ignored x = false.

(** What the first pass leaves in cell [c]. *)
Definition filled (c : Z) : option float :=
x ← zget t0 c;
if ignored x then Some x
else match cellPrice c with Some t => Some t | None => Some x end.

(** State after the cells below [k]. *)
Record fillInv (k : Z) (s : PopState) : Prop := {
fi_len : length (table s) = length t0;
fi_done : forall c, 0 <= c < k -> zget (table s) c = filled c;
fi_todo : forall c, k <= c -> zget (table s) c = zget t0 c;
fi_unpriced : forall c, c ∈ unpriced s <-> 0 <= c < k /\ valid c /\ cellPrice c = None;
fi_pop : 0 <= populated s;
fi_populated : 0 < populated s <-> exists c, 0 <= c < k /\ valid c /\ is_Some (cellPrice c);
fi_bound : Z.of_nat (length (unpriced s)) <= k;
}.

Hypothesis total : forall a p, 0 <= a < NCCL_NUM_ALGORITHMS -> 0 <= p < NCCL_NUM_PROTOCOLS ->
is_Some (computeFn ctx a p nBytes numPipeOps regBuff).

Lemma cell_div a p : 0 <= p < NCCL_NUM_PROTOCOLS ->
cell a p / NCCL_NUM_PROTOCOLS = a /\ cell a p mod NCCL_NUM_PROTOCOLS = p.
Proof.
unfold cell, NCCL_NUM_PROTOCOLS. intros H.
rewrite Z.add_comm, Z_div_plus_full, Z_mod_plus_full by lia.
rewrite Z.div_small, Z.mod_small by lia. lia.
Qed.

Lemma below_succ k c : 0 <= c < k + 1 -> 0 <= c < k \/ c = k.
Proof. lia. Qed.

(** A cell that changes neither the table nor the counters. *)
Lemma fill_skip k s :
fillInv k s -> 0 <= k -> ~ valid k -> filled k = zget t0 k -> fillInv (k + 1) s.
Proof.
intros [] Hk Hv Hf. split; try done; try lia.
- intros c [Hc | ->]%below_succ; [auto|]. rewrite fi_todo0 by lia. done.
- intros c Hc. apply fi_todo0. lia.
- intros c. rewrite fi_unpriced0. split; [intros (?&?&?); split_and!; [lia..|done|done]|].
intros ([H | ->]%below_succ & Hvc & Hp); [done|]. done.
- rewrite fi_populated0. split; intros (c & H & Hvc & Hp).
+ exists c. split; [lia|done].
+ apply below_succ in H as [H | ->]; [eauto|done].
Qed.

Lemma fill_unpriced k s :
fillInv k s -> 0 <= k -> valid k -> cellPrice k = None ->
fillInv (k + 1) (s <| unpriced := unpriced s ++ [k] |>).
Proof.
intros [] Hk Hv Hp. split; cbn; try done; try lia.
- intros c [Hc | ->]%below_succ; [auto|]. rewrite fi_todo0 by lia. unfold filled. rewrite Hp.
destruct Hv as (x & -> & Hx). cbn. now rewrite Hx.
- intros c Hc. apply fi_todo0. lia.
- intros c. rewrite elem_of_app, list_elem_of_singleton, fi_unpriced0.
split; [intros [(?&?&?) | ->]; split_and!; try done; lia|].
intros ([H | ->]%below_succ & Hvc & Hpc); [by left|by right].
- rewrite fi_populated0. split; intros (c & H & Hvc & Hpc).
+ exists c. split; [lia|done].
+ apply below_succ in H as [H | ->]; [eauto|]. rewrite Hp in Hpc. by destruct Hpc.
- rewrite length_app. cbn. lia.
Qed.

Lemma fill_priced k s t :
fillInv k s -> 0 <= k -> valid k -> cellPrice k = Some t ->
fillInv (k + 1) (s <| table := zupd (table s) k t |> <| populated := populated s + 1 |>).
Proof.
intros [] Hk Hv Hp. destruct Hv as (x & Hx & Hi).
pose proof (zget_Some _ _ _ Hx) as Hr.
split; cbn; try lia.
- now rewrite length_zupd.
- intros c [Hc | ->]%below_succ.
+ rewrite zget_zupd_ne by lia. auto.
+ rewrite zget_zupd_eq by lia. unfold filled. rewrite Hx. cbn. now rewrite Hi, Hp.
- intros c Hc. rewrite zget_zupd_ne by lia. apply fi_todo0. lia.
- intros c. rewrite fi_unpriced0. split; [intros (?&?&?); split_and!; [lia..|done|done]|].
intros ([H | ->]%below_succ & Hvc & Hpc); [done|congruence].
- split; [|lia]. intros _. exists k. split; [lia|]. split; [by exists x|by exists t].
Qed.

Lemma priceCell_fill a p s :
0 <= a < NCCL_NUM_ALGORITHMS -> 0 <= p < NCCL_NUM_PROTOCOLS ->
cell a p < Z.of_nat (length t0) -> fillInv (cell a p) s ->
exists s', priceCell ctx computeFn nBytes numPipeOps regBuff a p s = (Done tt, s')
 /\ fillInv (cell a p + 1) s'.
Proof.
intros Ha Hp Hlen HI.
assert (0 <= cell a p) as H0 by (unfold cell, NCCL_NUM_PROTOCOLS in *; lia).
destruct (cell_div a p Hp) as [Ed Em].
destruct (zget_is_Some t0 (cell a p)) as [x Hx]; [lia|].
destruct (total a p Ha Hp) as [[t bws] Ht].
assert (cellPrice (cell a p) = if negative t then None else Some t) as Hcp
by (unfold cellPrice; now rewrite Ed, Em, Ht).
unfold priceCell, readCell, bind, getS, of_option. rewrite (fi_todo _ _ HI) by lia.
rewrite Hx. cbn. destruct (ignored x) eqn:Hi.
{ eexists. split; [reflexivity|]. apply fill_skip; [done|done| |].
- intros (y & Hy & Hyi). congruence.
- unfold filled. rewrite Hx. cbn. now rewrite Hi. }
assert (valid (cell a p)) as Hv by (exists x; done).
rewrite Ht. cbn. destruct (negative t) eqn:Hn.
- eexists. split; [reflexivity|]. now apply fill_unpriced.
- unfold writeCell, bind, getS, of_option. rewrite zset_is_Some by (rewrite (fi_len _ _ HI); lia).
cbn. eexists. split; [reflexivity|].
exact (fill_priced _ _ _ HI H0 Hv Hcp).
Qed.

Lemma fill_start : fillInv 0 (mkPopState t0 0 []).
Proof.
split; cbn; try done; try lia.
- intros c. split; [by intros ?%not_elem_of_nil|lia].
- split; [lia|]. intros (c & H & _). lia.
Qed.

(** The disabling pass. *)
Lemma disableCells_spec cells s :
(forall c, c ∈ cells -> 0 <= c < Z.of_nat (length (table s))) ->
exists s', disableCells cells s = (Done tt, s') /\ populated s' = populated s /\
length (table s') = length (table s) /\
forall c, zget (table s') c =
if bool_decide (c ∈ cells) then Some COST_MODEL_DISABLED_COST else zget (table s) c.
Proof.
revert s. induction cells as [|i cells IH]; intros s Hc.
{ exists s. split_and!; try done. }
assert (0 <= i < Z.of_nat (length (table s))) as Hi by (apply Hc; left).
assert (cell (Z.quot i NCCL_NUM_PROTOCOLS) (Z.rem i NCCL_NUM_PROTOCOLS) = i) as Ei.
{ unfold cell. pose proof (Z.quot_rem' i NCCL_NUM_PROTOCOLS). lia. }
cbn [disableCells]. rewrite Ei.
unfold writeCell, bind, getS, of_option. rewrite zset_is_Some by done. cbn.
destruct (IH (s <| table := zupd (table s) i COST_MODEL_DISABLED_COST |>))
as (s' & E & Hpop & Hl & Hz).
{ cbn. intros c Hin. rewrite length_zupd. apply Hc. by right. }
exists s'. cbn in *. rewrite length_zupd in Hl. split_and!; try done.
intros c. rewrite Hz. destruct (decide (c = i)) as [->|Hne].
- rewrite zget_zupd_eq by done. rewrite (bool_decide_true (i ∈ i :: cells)) by left.
by case_bool_decide.
- rewrite zget_zupd_ne by done.
rewrite (bool_decide_ext (c ∈ i :: cells) (c ∈ cells)); [done|].
rewrite elem_of_cons. tauto.
Qed.

(** Value of cell [c] after the whole function, [na] being the number of rows
it visits and [disable] whether the second pass runs. *)
Definition finalCell (na : Z) (disable : bool) (c : Z) : option float :=
if decide (0 <= c < cell na 0) then
x ← zget t0 c;
if ignored x then Some x
else match cellPrice c with
 | Some t => Some t
 | None => if disable then Some COST_MODEL_DISABLED_COST else Some x
 end
else zget t0 c.

Definition anyPriced (na : Z) : Prop :=
exists c, 0 <= c < cell na 0 /\ valid c /\ is_Some (cellPrice c).

Lemma fill_loops numAlgo numProto :
0 <= numAlgo -> NCCL_NUM_PROTOCOLS <= numProto ->
cell (Z.min numAlgo NCCL_NUM_ALGORITHMS) 0 <= Z.of_nat (length t0) ->
exists s, forN (Z.min numAlgo NCCL_NUM_ALGORITHMS) (fun a =>
forN (Z.min numProto NCCL_NUM_PROTOCOLS) (fun p =>
priceCell ctx computeFn nBytes numPipeOps regBuff a p)) (mkPopState t0 0 []) = (Done tt, s)
/\ fillInv (cell (Z.min numAlgo NCCL_NUM_ALGORITHMS) 0) s.
Proof.
intros Ha Hp Hlen. set (na := Z.min numAlgo NCCL_NUM_ALGORITHMS) in *.
assert (0 <= na <= NCCL_NUM_ALGORITHMS) as Hna by (unfold na, NCCL_NUM_ALGORITHMS; lia).
unfold forN.
destruct (for_total (fun a s => fillInv (cell a 0) s) (Z.to_nat na) 0
(fun a => for_ (Z.to_nat (Z.min numProto NCCL_NUM_PROTOCOLS)) 0
 (fun p => priceCell ctx computeFn nBytes numPipeOps regBuff a p))
(mkPopState t0 0 [])) as (s & E & HI).
2: exact fill_start.
2: { exists s. split; [exact E|]. replace (0 + Z.of_nat (Z.to_nat na)) with na in HI by lia. done. }
intros a s1 Hai HI.
destruct (for_total (fun p s => fillInv (cell a p) s)
(Z.to_nat (Z.min numProto NCCL_NUM_PROTOCOLS)) 0
(fun p => priceCell ctx computeFn nBytes numPipeOps regBuff a p) s1)
as (s2 & E & HI2); [|exact HI|].
- intros p s' Hpi HI'. unfold cell, NCCL_NUM_PROTOCOLS, NCCL_NUM_ALGORITHMS in *.
replace (a * 3 + (p + 1)) with (a * 3 + p + 1) by lia.
apply priceCell_fill; try exact HI'; unfold cell, NCCL_NUM_PROTOCOLS, NCCL_NUM_ALGORITHMS; lia.
- exists s2. split; [exact E|].
unfold cell, NCCL_NUM_PROTOCOLS in *.
replace ((a + 1) * 3 + 0) with (a * 3 + (0 + Z.of_nat (Z.to_nat (Z.min numProto 3)))) by lia.
done.
Qed.

Lemma applyCostModelGeneric_run numAlgo numProto :
0 <= numAlgo -> NCCL_NUM_PROTOCOLS <= numProto ->
cell (Z.min numAlgo NCCL_NUM_ALGORITHMS) 0 <= Z.of_nat (length t0) ->
let na := Z.min numAlgo NCCL_NUM_ALGORITHMS in
exists n s, applyCostModelGeneric ctx computeFn nBytes numPipeOps regBuff numAlgo numProto
(mkPopState t0 0 []) = (Done n, s)
/\ length (table s) = length t0
/\ 0 <= n /\ (0 < n <-> anyPriced na)
/\ forall c, zget (table s) c =
 finalCell na ((0 <? n) && negb (disableUnmodeledCells (costModel ctx) =? 0)) c.
Proof.
intros Ha Hp Hlen na.
destruct (fill_loops numAlgo numProto Ha Hp Hlen) as (s & E & HI). fold na in E, HI.
destruct HI as [Hl Hd Ht Hu Hp0 Hpop Hb].
unfold applyCostModelGeneric. fold na. rewrite (bind_step _ _ _ _ _ E).
unfold bind at 1. cbn [getS].
assert (Hfin : forall c, zget (table s) c = finalCell na false c).
{ intros c. unfold finalCell. case_decide as Hc; [rewrite (Hd c Hc); reflexivity|].
destruct (decide (0 <= c)); [apply Ht; unfold cell in *; lia|].
rewrite !(proj2 (zget_None _ _)) by lia. done. }
destruct ((0 <? populated s) && negb (disableUnmodeledCells (costModel ctx) =? 0)) eqn:Eb.
- cbn [when]. destruct (disableCells_spec (unpriced s) s) as (s' & E' & Hpop' & Hl' & Hz).
{ intros c Hc. apply Hu in Hc as (Hc & (x & Hx & _) & _).
apply zget_Some in Hx. rewrite Hl. done. }
rewrite (bind_step _ _ _ _ _ E'). unfold gets. exists (populated s'), s'.
rewrite Hpop', Eb. split_and!; try done; [congruence|].
intros c. rewrite Hz. case_bool_decide as Hc.
+ apply Hu in Hc as (Hc & (x & Hx & Hi) & Hpr). unfold finalCell.
rewrite decide_True by done. rewrite Hx. cbn. now rewrite Hi, Hpr.
+ rewrite Hfin. unfold finalCell. case_decide as Hcr; [|done].
destruct (zget t0 c) as [x|] eqn:Hx; [cbn|done].
destruct (ignored x) eqn:Hi; [done|]. destruct (cellPrice c) eqn:Hpr; [done|].
exfalso. apply Hc, Hu. split; [done|]. split; [by exists x|done].
- cbn [when]. unfold bind, ret, gets. exists (populated s), s. rewrite Eb. split_and!; done.
Qed.
End FillSpec.
