(* ===== verification/TunerPlugin.v ===== *)
(** * Tuner plugin: profiles, initialisation and [getCollInfo]

    [getEnvDouble] .. [initCostModel] and the three entry points of
    [ncclTunerPlugin_v5] in [tuner/plugin.c].  The environment is a function
    from names to values, the file system a function from paths to contents,
    and the two [bool]s of [pluginInit] tell whether its allocations succeed. *)

From S2P Require Import Prelude CFloat CStr TunerTypes TunerConfig TunerCost.

Open Scope Z_scope.
Open Scope nccl_scope.

Abbreviation environment := (string -> option cstring).
Abbreviation filesystem := (cstring -> option cstring).

(** ** Environment *)

(** [!s || !*s] *)
Definition getEnvSet (env : environment) (name : string) : option cstring :=
  match env name with
  | Some (c :: s) => Some (c :: s)
  | _ => None
  end.

Definition getEnvDouble (env : environment) (name : string) (defaultValue : double) : double :=
  match getEnvSet env name with
  | None => defaultValue
  | Some s => match strtod s with None => defaultValue | Some v => v end
  end.

Definition getEnvInt (env : environment) (name : string) (defaultValue : Z) : Z :=
  match getEnvSet env name with
  | None => defaultValue
  | Some s => match strtol s with None => defaultValue | Some v => i32 v end
  end.

Definition envEquals (env : environment) (name : string) (value : string) : bool :=
  match env name with
  | None => false
  | Some s => strcaseeq s (lit value)
  end.

(** ** Profiles *)

Definition costModelProfileCanonicalName (name : cstring) : option cstring :=
  if strcaseeq name (lit "mnnvl") then Some (lit "mnnvl")
  else if strcaseeq name (lit "rail_nop2p") then Some (lit "rail_nop2p")
  else None.

Definition costModelProfileParams (name : cstring) : option CostModelParams :=
  if strcaseeq name (lit "mnnvl") then Some gb200fParamsDefault
  else if strcaseeq name (lit "rail_nop2p") then Some railNoP2pParamsDefault
  else None.

Definition costModelProfileValidated (name : cstring) : Z :=
  if strcaseeq name (lit "mnnvl") then mnnvlParamsValidated
  else if strcaseeq name (lit "rail_nop2p") then railNoP2pParamsValidated
  else 0.

(** The profile of the automatic selection. *)
Definition autoProfile (env : environment) (ctx : TunerContext) : option cstring :=
  let profile :=
    if (1 <? nNodes ctx) && envEquals env "NCCL_MNNVL_ENABLE" "0"
       && envEquals env "NCCL_P2P_DISABLE" "1"
    then lit "rail_nop2p" else lit "mnnvl" in
  if costModelProfileValidated profile =? 0 then None else Some profile.

Definition selectCostModelProfile (env : environment) (ctx : TunerContext) : option cstring :=
  match getEnvSet env "NCCL_TUNER_COST_MODEL_PROFILE" with
  | Some req =>
      if strcaseeq req (lit "auto") then autoProfile env ctx
      else match costModelProfileCanonicalName req with
           | Some canonical => Some canonical
           | None => autoProfile env ctx
           end
  | None => autoProfile env ctx
  end.

Definition initCostModel (env : environment) (ctx : TunerContext) : TunerContext :=
  let ctx := ctx <| costModelProfile := selectCostModelProfile env ctx |> in
  let ctx := ctx <| useCostModel := getEnvInt env "NCCL_TUNER_COST_MODEL" 1 |> in
  let ctx := ctx <| forceCostModel := getEnvInt env "NCCL_TUNER_FORCE_COST_MODEL" 0 |> in
  match costModelProfile ctx with
  | None =>
      let ctx := ctx <| costModel := zeroCostModel |> in
      ctx <| useCostModel := 0 |> <| forceCostModel := 0 |>
  | Some profile =>
      let P := default zeroCostModel (costModelProfileParams profile) in
      let ctx := if forceCostModel ctx =? 0 then ctx else ctx <| useCostModel := 1 |> in
      let P := P <| cm_nChannels := getEnvInt env "NCCL_TUNER_COST_MODEL_CHANNELS" (cm_nChannels P) |> in
      let P := P <| bwIntra := getEnvDouble env "NCCL_TUNER_COST_MODEL_BW_INTRA" (bwIntra P) |> in
      let P := P <| bwInter := getEnvDouble env "NCCL_TUNER_COST_MODEL_BW_INTER" (bwInter P) |> in
      let P := P <| nvlsEfficiency := getEnvDouble env "NCCL_TUNER_COST_MODEL_NVLS_EFF" (nvlsEfficiency P) |> in
      let P := P <| graphLatencyInter := getEnvDouble env "NCCL_TUNER_COST_MODEL_GRAPH_LAT" (graphLatencyInter P) |> in
      ctx <| costModel := P |>
  end.

(** ** [pluginInit] and [pluginFinalize] *)

Definition freshContext (nRanks nNodes : Z) (nvl : option ncclNvlDomainInfo_v5_t) : TunerContext := {|
  configs := []; maxConfigs := 0; nRanks := nRanks; nNodes := nNodes;
  nvlDomainInfo := default (mkNvlDomainInfo 0 0 0) nvl;
  useCostModel := 0; forceCostModel := 0;
  costModel := zeroCostModel; costModelProfile := None;
|}.

(** What [*context] is set to (nothing on an error) and the returned code. *)
Definition pluginInit (ctxMallocOk cfgMallocOk : bool) (env : environment) (fs : filesystem)
    (nRanks nNodes : Z) (nvl : option ncclNvlDomainInfo_v5_t)
  : option TunerContext * ncclResult_t :=
  if negb ctxMallocOk then (None, ncclSystemError)
  else
    let ctx := freshContext nRanks nNodes nvl in
    let ctx := initCostModel env ctx in
    let configFile := default (lit "nccl_tuner.conf") (env "NCCL_TUNER_CONFIG_FILE"%string) in
    let '(ctx, result) := loadConfig cfgMallocOk ctx (fs configFile) in
    if bool_decide (result = ncclSuccess) then (Some ctx, ncclSuccess) else (None, result).

(** Both blocks the context owns are released; [free(NULL)] is not called. *)
Definition pluginFinalize (context : option TunerContext) : list string * ncclResult_t :=
  match context with
  | Some ctx => ((if configs ctx then [] else ["configs"%string]) ++ ["context"%string], ncclSuccess)
  | None => ([], ncclSuccess)
  end.

(** ** [pluginGetCollInfo] *)

(** The caller's memory: the cost table and [*nChannels]. *)
Record CollOut := mkCollOut {
  collCostTable : list float;
  outChannels : Z;
}.

#[export] Instance eta_CollOut : Eta CollOut := fun r => mkCollOut (collCostTable r) (outChannels r).

Section GetCollInfo.
Variables (ctx : TunerContext) (coll : ncclFunc_t) (nBytes nPipeOps : Z)
(numAlgo numProto reg : Z).

Definition matches (config : TuningConfig) : bool :=
ncclFunc_eqb (collType config) coll
&& (minBytes config <=? nBytes) && (nBytes <=? maxBytes config)
&& ((cfg_nNodes config =? -1) || (cfg_nNodes config =? i32 (nNodes ctx)))
&& ((cfg_nRanks config =? -1) || (cfg_nRanks config =? i32 (nRanks ctx)))
&& ((numPipeOps config =? -1) || (numPipeOps config =? nPipeOps))
&& ((regBuff config =? -1) || (regBuff config =? reg)).

Definition readTable (i : Z) : comp CollOut float :=
let* s := getS in of_option (zget (collCostTable s) i).

Definition writeTable (i : Z) (v : float) : comp CollOut unit :=
let* s := getS in
let* t := of_option (zset (collCostTable s) i v) in
modify (fun s => s <| collCostTable := t |>).

(** The loop over the rules; [true] is the [return ncclSuccess] inside it. *)
Fixpoint csv_loop (cfgs : list TuningConfig) : comp CollOut bool :=
match cfgs with
| [] => ret false
| config :: rest =>
if matches config then
if (algorithm config <? numAlgo) && (protocol config <? numProto) then
let i := cell (algorithm config) (protocol config) in
let* x := readTable i in
if negb (ignored x) then
writeTable i (flt_of_dbl 0.0%dbl) ;;;
when (negb (cfg_nChannels config =? -1))
(modify (fun s => s <| outChannels := cfg_nChannels config |>)) ;;;
ret true
else csv_loop rest
else csv_loop rest
else csv_loop rest
end.

(** A cost-model call works on the caller's table in place. *)
Definition onTable (m : comp PopState Z) : comp CollOut Z :=
fun s =>
let '(o, s') := m (mkPopState (collCostTable s) 0 []) in
(o, s <| collCostTable := table s' |>).

Definition pluginGetCollInfo : comp CollOut ncclResult_t :=
let* applied := if forceCostModel ctx =? 0 then csv_loop (configs ctx) else ret false in
if applied : bool then ret ncclSuccess
else if useCostModel ctx =? 0 then ret ncclSuccess
else
let* _ :=
match coll with
| ncclFuncAllReduce =>
onTable (applyCostModelAllReduce ctx nBytes nPipeOps reg numAlgo numProto)
| ncclFuncAllGather =>
onTable (applyCostModelAllGather ctx nBytes nPipeOps reg numAlgo numProto)
| ncclFuncReduceScatter =>
onTable (applyCostModelReduceScatter ctx nBytes nPipeOps reg numAlgo numProto)
| _ => ret 0
end in
ret ncclSuccess.
End GetCollInfo.

(** The entry point: a NULL context is an error. *)
Definition getCollInfo (context : option TunerContext) (coll : ncclFunc_t)
    (nBytes nPipeOps numAlgo numProto reg : Z) : comp CollOut ncclResult_t :=
  match context with
  | None => ret ncclInternalError
  | Some ctx => pluginGetCollInfo ctx coll nBytes nPipeOps numAlgo numProto reg
  end.
