(* ===== verification/TunerSpec.v ===== *)
(** * Tuner plugin: specification and correctness

    The contract of [getCollInfo] as a relation on the caller's memory
    ([CollInfoSpec]: a CSV rule wins, nothing happens, or the cost model fills
    the table), the proof that [pluginGetCollInfo] implements it, and what
    follows for prices, caps, profile selection and initialisation. *)

From S2P Require Import Prelude CFloat CStr TunerTypes TunerConfig TunerCost TunerPlugin.

Open Scope Z_scope.
Open Scope nccl_scope.

(** ** The two price functions are total when there is a node *)

Ltac case_ifs := repeat (case_match; try done).

Lemma computeAllReduceTime_total ctx a p nBytes ops reg :
  i32 (nNodes ctx) <> 0 -> is_Some (computeAllReduceTime ctx a p nBytes ops reg).
Proof.
  intros Hn. unfold computeAllReduceTime. apply Z.eqb_neq in Hn. rewrite Hn.
  cbv zeta. unfold unsupported, finalTime. case_ifs; eauto.
Qed.

Lemma computeAllGatherOrRSTime_total ctx coll a p nBytes ops reg :
  i32 (nNodes ctx) <> 0 -> is_Some (computeAllGatherOrRSTime ctx coll a p nBytes ops reg).
Proof.
  intros Hn. unfold computeAllGatherOrRSTime. apply Z.eqb_neq in Hn. rewrite Hn.
  cbv zeta. unfold unsupported, finalTime. case_ifs; eauto.
Qed.

(** The price function of a collective the model covers. *)
Definition modelOf (coll : ncclFunc_t) : option ComputeFn :=
  match coll with
  | ncclFuncAllReduce => Some computeAllReduceTime
  | ncclFuncAllGather => Some computeAllGatherTime
  | ncclFuncReduceScatter => Some computeReduceScatterTime
  | _ => None
  end.

Lemma modelOf_total ctx coll f a p nBytes ops reg :
  modelOf coll = Some f -> i32 (nNodes ctx) <> 0 -> is_Some (f ctx a p nBytes ops reg).
Proof.
  intros Hf Hn. destruct coll; cbn in Hf; try discriminate; injection Hf as <-;
    first [by apply computeAllReduceTime_total | by apply computeAllGatherOrRSTime_total].
Qed.

(** ** Contract of [getCollInfo] *)

Section Contract.
Variables (ctx : TunerContext) (coll : ncclFunc_t) (nBytes nPipeOps numAlgo numProto reg : Z).

(** Rule [r] names a cell NCCL lets the tuner use. *)
Definition applicable (t : list float) (r : TuningConfig) : bool :=
matches ctx coll nBytes nPipeOps reg r
&& ((algorithm r <? numAlgo) && (protocol r <? numProto))
&& match zget t (cell (algorithm r) (protocol r)) with
 | Some x => negb (ignored x)
 | None => false
 end.

Definition csvPick (t : list float) : option TuningConfig :=
if forceCostModel ctx =? 0 then List.find (applicable t) (configs ctx) else None.

Inductive CollInfoSpec (s : CollOut) : CollOut -> Prop :=
| spec_csv r :
csvPick (collCostTable s) = Some r ->
CollInfoSpec s
(mkCollOut (zupd (collCostTable s) (cell (algorithm r) (protocol r)) (flt_of_dbl 0.0%dbl))
 (if cfg_nChannels r =? -1 then outChannels s else cfg_nChannels r))
| spec_off :
csvPick (collCostTable s) = None ->
useCostModel ctx = 0 \/ modelOf coll = None ->
CollInfoSpec s s
| spec_model f t' disable :
csvPick (collCostTable s) = None ->
useCostModel ctx <> 0 ->
modelOf coll = Some f ->
let na := Z.min numAlgo NCCL_NUM_ALGORITHMS in
let t := collCostTable s in
(disable = true <-> anyPriced ctx f nBytes nPipeOps reg t na
/\ disableUnmodeledCells (costModel ctx) <> 0) ->
length t' = length t ->
(forall c, zget t' c = finalCell ctx f nBytes nPipeOps reg t na disable c) ->
CollInfoSpec s (mkCollOut t' (outChannels s)).

(** A rule as [parseConfigLine] builds it, and a table as NCCL passes it. *)
Definition rule_in_range (r : TuningConfig) : Prop :=
0 <= algorithm r < NCCL_NUM_ALGORITHMS /\ 0 <= protocol r < NCCL_NUM_PROTOCOLS.

Definition table_shape (t : list float) : Prop :=
0 <= numAlgo /\ numProto = NCCL_NUM_PROTOCOLS /\ Z.of_nat (length t) = numAlgo * numProto.

Lemma cell_in_table t r :
table_shape t -> rule_in_range r -> algorithm r < numAlgo ->
0 <= cell (algorithm r) (protocol r) < Z.of_nat (length t).
Proof. unfold table_shape, rule_in_range, cell, NCCL_NUM_PROTOCOLS. nia. Qed.

Lemma csv_loop_spec cfgs s :
table_shape (collCostTable s) -> Forall rule_in_range cfgs ->
csv_loop ctx coll nBytes nPipeOps numAlgo numProto reg cfgs s =
match List.find (applicable (collCostTable s)) cfgs with
| Some r =>
(Done true,
 mkCollOut (zupd (collCostTable s) (cell (algorithm r) (protocol r)) (flt_of_dbl 0.0%dbl))
 (if cfg_nChannels r =? -1 then outChannels s else cfg_nChannels r))
| None => (Done false, s)
end.
Proof.
intros Ht. induction 1 as [|r cfgs Hr _ IH]; [done|].
cbn [csv_loop List.find]. unfold applicable at 1.
destruct (matches ctx coll nBytes nPipeOps reg r); [cbn|done].
destruct ((algorithm r <? numAlgo) && (protocol r <? numProto)) eqn:E; cbn; [|done].
apply andb_true_iff in E as [Ha%Z.ltb_lt _].
pose proof (cell_in_table _ _ Ht Hr Ha) as Hc.
unfold readTable, writeTable, bind, getS, of_option.
destruct (zget_is_Some _ _ Hc) as [x ->]. cbn.
destruct (ignored x); cbn; [done|].
rewrite zset_is_Some by done. cbn.
by destruct (cfg_nChannels r =? -1).
Qed.

Lemma onTable_spec f s :
modelOf coll = Some f -> i32 (nNodes ctx) <> 0 -> table_shape (collCostTable s) ->
exists n t', onTable (applyCostModelGeneric ctx f nBytes nPipeOps reg numAlgo numProto) s =
(Done n, mkCollOut t' (outChannels s)) /\
length t' = length (collCostTable s) /\
exists disable, (disable = true <->
 anyPriced ctx f nBytes nPipeOps reg (collCostTable s) (Z.min numAlgo NCCL_NUM_ALGORITHMS)
 /\ disableUnmodeledCells (costModel ctx) <> 0) /\
forall c, zget t' c = finalCell ctx f nBytes nPipeOps reg (collCostTable s)
(Z.min numAlgo NCCL_NUM_ALGORITHMS) disable c.
Proof.
intros Hf Hn (Ha & Hp & Hl).
destruct (applyCostModelGeneric_run ctx f nBytes nPipeOps reg (collCostTable s)
(fun a p _ _ => modelOf_total _ _ _ a p nBytes nPipeOps reg Hf Hn) numAlgo numProto)
as (n & s' & E & Hlen & Hn0 & Hany & Hz); try lia.
{ unfold cell, NCCL_NUM_PROTOCOLS, NCCL_NUM_ALGORITHMS in *. lia. }
unfold onTable. rewrite E. exists n, (table s'). split; [done|]. split; [done|].
eexists. split; [|exact Hz].
rewrite andb_true_iff, Z.ltb_lt, negb_true_iff, Z.eqb_neq. by rewrite Hany.
Qed.
End Contract.

Definition context_ok (ctx : TunerContext) : Prop :=
  i32 (nNodes ctx) <> 0 /\ Forall rule_in_range (configs ctx).

(** Shared by the properties below: the whole function, as one run. *)
Lemma pluginGetCollInfo_run ctx coll nBytes nPipeOps numAlgo numProto reg s :
  context_ok ctx -> table_shape numAlgo numProto (collCostTable s) ->
  exists s', pluginGetCollInfo ctx coll nBytes nPipeOps numAlgo numProto reg s
             = (Done ncclSuccess, s')
    /\ CollInfoSpec ctx coll nBytes nPipeOps numAlgo numProto reg s s'.
Proof.
  intros [Hn Hr] Ht. unfold pluginGetCollInfo.
  assert ((if forceCostModel ctx =? 0
           then csv_loop ctx coll nBytes nPipeOps numAlgo numProto reg (configs ctx)
           else ret false) s =
          match csvPick ctx coll nBytes nPipeOps numAlgo numProto reg (collCostTable s) with
          | Some r => (Done true,
              mkCollOut (zupd (collCostTable s) (cell (algorithm r) (protocol r)) (flt_of_dbl 0.0%dbl))
                        (if cfg_nChannels r =? -1 then outChannels s else cfg_nChannels r))
          | None => (Done false, s)
          end) as E.
  { unfold csvPick. case_match; [by apply csv_loop_spec|done]. }
  destruct (csvPick _ _ _ _ _ _ _ _) as [r|] eqn:Ep; rewrite (bind_step _ _ _ _ _ E).
  { eexists. split; [reflexivity|]. by apply spec_csv. }
  destruct (useCostModel ctx =? 0) eqn:Eu.
  { exists s. split; [done|]. apply spec_off; [done|]. left. lia. }
  destruct (modelOf coll) as [f|] eqn:Ef.
  - destruct (onTable_spec ctx coll nBytes nPipeOps numAlgo numProto reg f s Ef Hn Ht)
      as (n & t' & Eo & Hl & d & Hd & Hz).
    exists (mkCollOut t' (outChannels s)). split.
    + destruct coll; cbn in Ef; try discriminate; injection Ef as <-;
        by rewrite (bind_step _ _ _ _ _ Eo).
    + eapply spec_model; try done. lia.
  - exists s. split; [|apply spec_off; auto].
    destruct coll; cbn in Ef; try discriminate; done.
Qed.

(** ** What every outcome of the contract guarantees *)

Lemma spec_ignored ctx coll nBytes ops numAlgo numProto reg s s' c x :
  CollInfoSpec ctx coll nBytes ops numAlgo numProto reg s s' ->
  zget (collCostTable s) c = Some x -> ignored x = true -> zget (collCostTable s') c = Some x.
Proof.
  intros H Hx Hi. destruct H as [r Hp | | f t' d Hp Hu Hf na t Hd Hl Hz]; [|done|]; cbn.
  - unfold csvPick in Hp. case_match; [|done].
    apply List.find_some in Hp as [_ Hp]. unfold applicable in Hp.
    apply andb_true_iff in Hp as [_ Hp].
    destruct (zget (collCostTable s) (cell (algorithm r) (protocol r))) as [y|] eqn:Ey; [|done].
    pose proof (zget_Some _ _ _ Ey).
    rewrite zget_zupd_ne; [done|].
    intros <-. rewrite Hx in Ey. injection Ey as ->. by rewrite Hi in Hp.
  - rewrite Hz. unfold finalCell. fold t in Hx. rewrite Hx. case_decide; cbn; [by rewrite Hi|done].
Qed.

Lemma spec_length ctx coll nBytes ops numAlgo numProto reg s s' :
  CollInfoSpec ctx coll nBytes ops numAlgo numProto reg s s' ->
  length (collCostTable s') = length (collCostTable s).
Proof. intros []; cbn; [by rewrite length_zupd|done|done]. Qed.

(** The whole table is left alone unless a rule applied or a cell was priced. *)
Lemma finalCell_unpriced ctx f nBytes ops reg t na c :
  ~ anyPriced ctx f nBytes ops reg t na ->
  finalCell ctx f nBytes ops reg t na false c = zget t c.
Proof.
  intros Hn. unfold finalCell. case_decide as Hc; [|done].
  destruct (zget t c) as [x|] eqn:Hx; [cbn|done].
  destruct (ignored x) eqn:Hi; [done|].
  destruct (cellPrice ctx f nBytes ops reg c) as [p|] eqn:Hp; [|done].
  destruct Hn. exists c. split; [done|]. split; [by exists x|by exists p].
Qed.

(** ** [costLog2i] *)

Lemma costLog2i_loop_spec fuel n r :
  0 < n < 2 ^ (Z.of_nat fuel + 1) -> costLog2i_loop fuel n r = r + Z.log2 n.
Proof.
  revert n r. induction fuel as [|fuel IH]; intros n r Hn; cbn [costLog2i_loop].
  - change (2 ^ (Z.of_nat 0 + 1)) with 2 in Hn. replace n with 1 by lia. cbn. lia.
  - destruct (Z.ltb_spec 1 n) as [H|H]; [|replace n with 1 by lia; cbn; lia].
    replace (Z.of_nat (Datatypes.S fuel) + 1) with (Z.succ (Z.of_nat fuel + 1)) in Hn by lia.
    rewrite Z.pow_succ_r in Hn by lia.
    pose proof (Z.div_mod n 2). pose proof (Z.mod_pos_bound n 2).
    pose proof (Z.log2_shiftr n 1) as El. rewrite Z.shiftr_div_pow2 in * by lia.
    change (2 ^ 1) with 2 in *. rewrite IH by lia. pose proof (Z.log2_pos n). lia.
Qed.

(** ** Coverage: which cells the model may price *)

(** The README's table of covered algorithms ([TREE] and [NVLS_TREE] only for
    AllReduce, [NVLS] inside one node, [PAT] only for AllGather/ReduceScatter). *)
Definition covered (P : CostModelParams) (coll : ncclFunc_t) (algo proto nRanks nNodes : Z) : bool :=
  let nvls := (proto =? NCCL_PROTO_SIMPLE) && (2 <=? cm_nChannels P) in
  match coll with
  | ncclFuncAllReduce =>
      (algo =? NCCL_ALGO_RING) || (algo =? NCCL_ALGO_TREE)
      || (algo =? NCCL_ALGO_NVLS) && (nNodes <=? 1) && nvls
      || (algo =? NCCL_ALGO_NVLS_TREE) && nvls
  | ncclFuncAllGather | ncclFuncReduceScatter =>
      (algo =? NCCL_ALGO_RING)
      || (algo =? NCCL_ALGO_NVLS) && (nNodes <=? 1) && nvls
      || (algo =? NCCL_ALGO_PAT) && (proto =? NCCL_PROTO_SIMPLE) && (nNodes =? nRanks)
         && negb (dle (patBwEff P) 0.0%dbl)
  | _ => false
  end.

Definition priced (o : option price) : bool :=
  match o with Some (t, _) => negb (negative t) | None => false end.

Lemma unsupported_priced : priced unsupported = false.
Proof. vm_compute. reflexivity. Qed.

Lemma minus_one_negative : dlt (-1.0)%dbl 0.0%dbl = true /\ dle (-1.0)%dbl 0.0%dbl = true.
Proof. vm_compute. done. Qed.

(** [NVLS] and [NVLS_TREE] outside SIMPLE, or with fewer than two channels. *)
Lemma perChannelBw_nvls P a p scale nn nc f :
  a = NCCL_ALGO_NVLS \/ a = NCCL_ALGO_NVLS_TREE ->
  (p =? NCCL_PROTO_SIMPLE) && (2 <=? nc) = false ->
  perChannelBw P a p scale nn nc f = (-1.0)%dbl.
Proof.
  intros Ha Hp. unfold perChannelBw.
  replace ((a =? NCCL_ALGO_NVLS) || (a =? NCCL_ALGO_NVLS_TREE)) with true
    by (destruct Ha; subst; done).
  apply andb_false_iff in Hp as [-> | Hc]; [done|].
  destruct (p =? NCCL_PROTO_SIMPLE); [|done].
  replace (nc <? 2) with true by (symmetry; lia). done.
Qed.

Lemma priced_if (b : bool) o : priced (if b then unsupported else o) = true ->
  b = false /\ priced o = true.
Proof. destruct b; [by rewrite unsupported_priced|done]. Qed.

(** Combinations without a bandwidth ratio. *)
Definition ratioless (coll : ncclFunc_t) (algo : Z) : bool :=
  match coll with
  | ncclFuncAllReduce =>
      negb ((algo =? NCCL_ALGO_RING) || (algo =? NCCL_ALGO_NVLS)
            || (algo =? NCCL_ALGO_NVLS_TREE) || (algo =? NCCL_ALGO_TREE))
  | ncclFuncAllGather | ncclFuncReduceScatter =>
      negb ((algo =? NCCL_ALGO_RING) || (algo =? NCCL_ALGO_NVLS))
  | _ => true
  end.

Lemma busBwToAlgoBw_ratioless coll algo n bw :
  ratioless coll algo = true -> 1 < n -> busBwToAlgoBw bw algo coll n = (-1.0)%dbl.
Proof.
  intros H Hn. unfold busBwToAlgoBw. replace (n <=? 1) with false by (symmetry; lia).
  unfold ratioless in H. destruct coll; try done;
    repeat match goal with H : context [algo =? ?b] |- _ => destruct (algo =? b) end; done.
Qed.

Lemma covered_AllReduce ctx a p nBytes ops reg :
  0 <= a < NCCL_NUM_ALGORITHMS -> 1 < i32 (nRanks ctx) ->
  priced (computeAllReduceTime ctx a p nBytes ops reg) = true ->
  covered (costModel ctx) ncclFuncAllReduce a p (i32 (nRanks ctx)) (i32 (nNodes ctx)) = true.
Proof.
  intros Ha Hr. unfold covered, computeAllReduceTime. cbv zeta.
  destruct minus_one_negative as [Hlt Hle].
  replace (i32 (nRanks ctx) <=? 1) with false by (symmetry; lia).
  destruct (i32 (nNodes ctx) =? 0); [done|].
  intros [Hg [Hbw [Hal _]%priced_if]%priced_if]%priced_if.
  destruct (ratioless ncclFuncAllReduce a) eqn:Er.
  { rewrite busBwToAlgoBw_ratioless in Hal by done. congruence. }
  assert (a = NCCL_ALGO_NVLS \/ a = NCCL_ALGO_NVLS_TREE ->
          (p =? NCCL_PROTO_SIMPLE) && (2 <=? cm_nChannels (costModel ctx)) = true) as Hn.
  { intros Hn. apply not_false_iff_true. intros E.
    rewrite perChannelBw_nvls in Hbw by done. congruence. }
  unfold ratioless in Er. apply negb_false_iff in Er. rewrite !orb_true_iff, !Z.eqb_eq in Er.
  destruct Er as [[[-> | ->] | ->] | ->]; try done; rewrite Hn by auto; [|done].
  cbn in Hg |- *. rewrite andb_true_r. lia.
Qed.

Lemma covered_AllGatherOrRS ctx coll a p nBytes ops reg :
  coll = ncclFuncAllGather \/ coll = ncclFuncReduceScatter ->
  0 <= a < NCCL_NUM_ALGORITHMS -> 1 < i32 (nRanks ctx) ->
  priced (computeAllGatherOrRSTime ctx coll a p nBytes ops reg) = true ->
  covered (costModel ctx) coll a p (i32 (nRanks ctx)) (i32 (nNodes ctx)) = true.
Proof.
  intros Hcoll Ha Hr. unfold computeAllGatherOrRSTime. cbv zeta.
  destruct minus_one_negative as [Hlt Hle].
  replace (i32 (nRanks ctx) <=? 1) with false by (symmetry; lia).
  destruct (i32 (nNodes ctx) =? 0); [done|].
  destruct (Z.eqb_spec a NCCL_ALGO_PAT) as [->|Hpat].
  { intros [Hg _]%priced_if. rewrite !orb_false_iff, !negb_false_iff in Hg.
    destruct Hg as [[Hb Hp] Hnn]. destruct Hcoll as [-> | ->]; cbn [covered];
      by rewrite Hb, Hp, Hnn. }
  intros [Hg [_ [Hbw [Hal _]%priced_if]%priced_if]%priced_if]%priced_if.
  destruct (ratioless coll a) eqn:Er.
  { rewrite busBwToAlgoBw_ratioless in Hal by done. congruence. }
  assert (a = NCCL_ALGO_RING \/ a = NCCL_ALGO_NVLS) as Hra.
  { destruct Hcoll as [-> | ->]; cbn [ratioless] in Er; apply negb_false_iff in Er;
      by rewrite orb_true_iff, !Z.eqb_eq in Er. }
  destruct Hra as [-> | ->]; [by destruct Hcoll as [-> | ->]|].
  assert ((p =? NCCL_PROTO_SIMPLE) && (2 <=? cm_nChannels (costModel ctx)) = true) as Hn.
  { apply not_false_iff_true. intros E. rewrite perChannelBw_nvls in Hbw by auto. congruence. }
  destruct Hcoll as [-> | ->]; cbn [covered]; rewrite Hn; cbn in Hg |- *;
    rewrite andb_true_r, orb_false_r; lia.
Qed.

(** ** Bandwidth caps *)

(** The cap of an algorithm and protocol, in units of bus bandwidth. *)
Definition protocolCap (P : CostModelParams) (algo proto scale nChannels : Z) : option double :=
  if (algo =? NCCL_ALGO_RING) && (proto =? NCCL_PROTO_LL) then Some (tab1 (llMaxBw P) scale)
  else if (algo =? NCCL_ALGO_RING) && (proto =? NCCL_PROTO_LL128) then
    Some (dbl_of_Z nChannels * tab1 (perChMaxRingLL128Bw P) scale)%dbl
  else if (algo =? NCCL_ALGO_TREE) then
    if (proto =? NCCL_PROTO_LL) then Some (tab1 (llMaxBw P) scale)
    else if (proto =? NCCL_PROTO_LL128) then
      Some (dbl_of_Z nChannels * tab1 (perChMaxTreeLL128Bw P) scale)%dbl
    else Some (dbl_of_Z nChannels * tab1 (perChMaxTreeBw P) scale)%dbl
  else None.

Lemma applyProtocolCap_le P algo proto scale nNodes nChannels busBw cap :
  protocolCap P algo proto scale nChannels = Some cap ->
  dlt cap (applyProtocolCap busBw algo proto P scale nNodes nChannels) = false.
Proof.
  unfold protocolCap, applyProtocolCap. intros H.
  repeat case_match; simplify_eq; first [apply dlt_irrefl | done].
Qed.

(** ** Profiles *)

Lemma autoProfile_validated env ctx p :
  autoProfile env ctx = Some p -> costModelProfileValidated p <> 0.
Proof.
  unfold autoProfile. cbv zeta. case_match; [done|]. intros E. injection E as <-.
  by apply Z.eqb_neq.
Qed.

Lemma canonical_params name p :
  costModelProfileCanonicalName name = Some p ->
  is_Some (costModelProfileParams p) /\ costModelProfileCanonicalName p = Some p
  /\ (p = lit "mnnvl" \/ p = lit "rail_nop2p").
Proof.
  unfold costModelProfileCanonicalName at 1.
  destruct (strcaseeq name (lit "mnnvl")); [|destruct (strcaseeq name (lit "rail_nop2p"))];
    intros E; try discriminate E;
    injection E as <-; (split; [vm_compute; eauto|]); (split; [reflexivity|]); auto.
Qed.

Lemma validated_params p :
  costModelProfileValidated p <> 0 -> is_Some (costModelProfileParams p).
Proof.
  unfold costModelProfileValidated, costModelProfileParams. 
  destruct (strcaseeq p (lit "mnnvl")); [eauto|].
  destruct (strcaseeq p (lit "rail_nop2p")); [eauto|done].
Qed.

Lemma selectCostModelProfile_known env ctx p :
  selectCostModelProfile env ctx = Some p ->
  is_Some (costModelProfileParams p) /\
  (costModelProfileValidated p <> 0 \/
   exists req, getEnvSet env "NCCL_TUNER_COST_MODEL_PROFILE" = Some req
               /\ costModelProfileCanonicalName req = Some p).
Proof.
  assert (autoProfile env ctx = Some p ->
          is_Some (costModelProfileParams p) /\ costModelProfileValidated p <> 0) as Ha.
  { intros H%autoProfile_validated. split; [by apply validated_params|done]. }
  unfold selectCostModelProfile. destruct (getEnvSet _ _) as [req|] eqn:Er; [|naive_solver].
  destruct (strcaseeq req (lit "auto")); [naive_solver|].
  destruct (costModelProfileCanonicalName req) as [q|] eqn:Ec; [|naive_solver].
  intros E. injection E as ->. split; [by apply (canonical_params req)|]. right. eauto.
Qed.

(** ** Initialisation *)

Lemma initCostModel_keeps env ctx :
  let ctx' := initCostModel env ctx in
  configs ctx' = configs ctx /\ maxConfigs ctx' = maxConfigs ctx
  /\ nRanks ctx' = nRanks ctx /\ nNodes ctx' = nNodes ctx /\ nvlDomainInfo ctx' = nvlDomainInfo ctx.
Proof. unfold initCostModel. cbv zeta. cbn. repeat case_match; done. Qed.

Lemma parsed_rule_in_range line r : parseConfigLine line = Some r -> rule_in_range r.
Proof.
  unfold parseConfigLine, parseTokens. cbv zeta. case_match; [|done]. intros E. injection E as <-.
  split; cbn; [apply parseAlgorithm_range|apply parseProtocol_range].
Qed.

Lemma rules_in_range content : Forall rule_in_range (rules_of content).
Proof.
  unfold rules_of. induction (config_lines content) as [|l ls IH]; [done|].
  rewrite rules_cons. destruct (rule_of_line l) as [r|] eqn:E; [|done].
  constructor; [|done]. unfold rule_of_line in E. case_match; [done|].
  by eapply parsed_rule_in_range.
Qed.

Definition configPath (env : environment) : cstring :=
  default (lit "nccl_tuner.conf") (env "NCCL_TUNER_CONFIG_FILE"%string).

Definition fileRules (fs : filesystem) (env : environment) : list TuningConfig :=
  match fs (configPath env) with Some content => rules_of content | None => [] end.

(** Both allocations succeed: the shared description of the new context. *)
Lemma loadConfig_result ctx file :
  configs ctx = [] ->
  let '(ctx', r) := loadConfig true ctx file in
  r = ncclSuccess /\ configs ctx' = match file with Some c => rules_of c | None => [] end
  /\ ctx' <| configs := configs ctx |> <| maxConfigs := maxConfigs ctx |> = ctx.
Proof.
  intros H0. destruct file as [content|]; [|by destruct ctx; cbn in *; subst].
  unfold loadConfig, countConfigLines.
  pose proof (count_loop_filter (config_lines content) 0) as Hc.
  pose proof (omap_counted_le (config_lines content)) as Ho.
  destruct (Z.eqb_spec (count_loop (config_lines content) 0) 0) as [E|E]; cbn.
  - unfold rules_of. rewrite (nil_length_inv (omap rule_of_line (config_lines content))) by lia.
    by destruct ctx; cbn in *; subst.
  - rewrite load_loop_spec by (cbn [length]; lia). by destruct ctx; cbn in *; subst.
Qed.

Lemma pluginInit_run env fs nr nn nvl :
  exists ctx, pluginInit true true env fs nr nn nvl = (Some ctx, ncclSuccess)
    /\ configs ctx = fileRules fs env
    /\ ctx <| configs := [] |> <| maxConfigs := 0 |> = initCostModel env (freshContext nr nn nvl).
Proof.
  unfold pluginInit. cbn [negb]. cbv zeta. fold (configPath env).
  pose proof (initCostModel_keeps env (freshContext nr nn nvl)) as (Hc & Hm & _).
  pose proof (loadConfig_result (initCostModel env (freshContext nr nn nvl)) (fs (configPath env)) Hc)
    as Hl.
  destruct (loadConfig true _ _) as [ctx' r]. destruct Hl as (-> & Hcfg & He).
  exists ctx'. rewrite Hc, Hm in He. split; [done|]. split; [done|exact He].
Qed.

(** ** A concrete communicator: 8 ranks on 8 nodes, the [rail_nop2p] profile, one rule *)

Definition railEnv : environment := fun name =>
  if String.eqb name "NCCL_TUNER_COST_MODEL_PROFILE" then Some (lit "rail_nop2p")
  else if String.eqb name "NCCL_TUNER_CONFIG_FILE" then Some (lit "a.conf") else None.

Definition railFs : filesystem := fun path =>
  if bool_decide (path = lit "a.conf")
  then Some (lit "allreduce,0,1024,ring,ll,4,-1,-1,-1,-1" ++ [NL]) else None.

Definition railCtx : TunerContext :=
  default (freshContext 0 0 None) (fst (pluginInit true true railEnv railFs 8 8 None)).

Definition openTable : CollOut := mkCollOut (replicate 21 (flt_of_dbl 3.0%dbl)) 0.

Definition blockedTable : CollOut :=
  mkCollOut (<[3%nat := flt_of_dbl (-1.0)%dbl]> (replicate 21 (flt_of_dbl 3.0%dbl))) 0.

Lemma railCtx_ok : context_ok railCtx.
Proof.
  split; [vm_compute; discriminate|].
  assert (configs railCtx = fileRules railFs railEnv) as -> by (vm_compute; reflexivity).
  apply rules_in_range.
Qed.

Lemma shape21 t : length t = 21%nat -> table_shape 7 3 t.
Proof. intros H. unfold table_shape. rewrite H. done. Qed.

(** ** Properties *)

(** C1. [getCollInfo] implements its contract: on a context as [pluginInit]
    builds it and a contiguous [numAlgo] x 3 table it returns [ncclSuccess] without an
    undefined access, and the caller's memory ends as [CollInfoSpec] says: the
    first applicable rule zeroes its cell and sets the channel count; otherwise
    the table is untouched (model off or collective not modelled); otherwise
    every visited cell that is not IGNORE gets its model price, and an
    unpriced one is disabled exactly when something was priced and the profile asks for it. *)
Theorem getCollInfo_implements_contract ctx coll nBytes nPipeOps numAlgo numProto reg s :
  context_ok ctx -> table_shape numAlgo numProto (collCostTable s) ->
  exists s', getCollInfo (Some ctx) coll nBytes nPipeOps numAlgo numProto reg s = (Done ncclSuccess, s')
    /\ CollInfoSpec ctx coll nBytes nPipeOps numAlgo numProto reg s s'.
Proof. exact (pluginGetCollInfo_run ctx coll nBytes nPipeOps numAlgo numProto reg s). Qed.

Lemma getCollInfo_implements_contract_witness :
  exists s', getCollInfo (Some railCtx) ncclFuncAllReduce 512 1 7 3 0 openTable = (Done ncclSuccess, s')
    /\ CollInfoSpec railCtx ncclFuncAllReduce 512 1 7 3 0 openTable s'.
Proof.
  exact (getCollInfo_implements_contract railCtx ncclFuncAllReduce 512 1 7 3 0 openTable
           railCtx_ok (shape21 (collCostTable openTable) eq_refl)).
Defined.

(** C26. A cell NCCL marked [NCCL_ALGO_PROTO_IGNORE] is never changed by
    [getCollInfo], whichever stage decides; the table keeps its length, and the
    channel count changes only when a CSV rule with a channel count applied. *)
Theorem getCollInfo_keeps_ignored ctx coll nBytes nPipeOps numAlgo numProto reg s s' r c x :
  context_ok ctx -> table_shape numAlgo numProto (collCostTable s) ->
  getCollInfo (Some ctx) coll nBytes nPipeOps numAlgo numProto reg s = (Done r, s') ->
  length (collCostTable s') = length (collCostTable s)
  /\ (zget (collCostTable s) c = Some x -> ignored x = true -> zget (collCostTable s') c = Some x)
  /\ (outChannels s' <> outChannels s ->
      exists rule, csvPick ctx coll nBytes nPipeOps numAlgo numProto reg (collCostTable s) = Some rule
                   /\ outChannels s' = cfg_nChannels rule /\ cfg_nChannels rule <> -1).
Proof.
  intros Hc Ht E.
  destruct (pluginGetCollInfo_run ctx coll nBytes nPipeOps numAlgo numProto reg s Hc Ht)
    as (s1 & E1 & H).
  assert (s' = s1) as -> by (unfold getCollInfo in E; congruence).
  split; [by eapply spec_length|]. split; [by intros; eapply spec_ignored|].
  intros Hne. destruct H as [rule Hp | | ]; [|done|done].
  exists rule. cbn in *. destruct (Z.eqb_spec (cfg_nChannels rule) (-1)); [done|]. auto.
Qed.

Lemma getCollInfo_keeps_ignored_witness :
  let s' := snd (getCollInfo (Some railCtx) ncclFuncAllReduce 512 1 7 3 0 blockedTable) in
  zget (collCostTable s') 3 = zget (collCostTable blockedTable) 3.
Proof.
  apply (getCollInfo_keeps_ignored railCtx ncclFuncAllReduce 512 1 7 3 0 blockedTable _ ncclSuccess 3
           (flt_of_dbl (-1.0)%dbl) railCtx_ok (shape21 (collCostTable blockedTable) eq_refl)); vm_compute; reflexivity.
Defined.

(** C6. No mixing of the two cost scales.  When no CSV rule applies and the
    model prices the collective under a profile with [disableUnmodeledCells], either no cell changed at
    all, or every cell of the visited rows holds the model's price,
    [COST_MODEL_DISABLED_COST] or IGNORE: none keeps NCCL's own estimate. *)
Theorem getCollInfo_never_mixes ctx coll f nBytes nPipeOps numAlgo numProto reg s r s' :
  context_ok ctx -> table_shape numAlgo numProto (collCostTable s) ->
  csvPick ctx coll nBytes nPipeOps numAlgo numProto reg (collCostTable s) = None ->
  useCostModel ctx <> 0 -> modelOf coll = Some f ->
  disableUnmodeledCells (costModel ctx) <> 0 ->
  getCollInfo (Some ctx) coll nBytes nPipeOps numAlgo numProto reg s = (Done r, s') ->
  (forall c, zget (collCostTable s') c = zget (collCostTable s) c)
  \/ forall c x, 0 <= c < cell (Z.min numAlgo NCCL_NUM_ALGORITHMS) 0 ->
       zget (collCostTable s') c = Some x ->
       x = COST_MODEL_DISABLED_COST \/ ignored x = true
       \/ cellPrice ctx f nBytes nPipeOps reg c = Some x.
Proof.
  intros Hc Ht Hcsv Hu Hf Hdis E.
  destruct (pluginGetCollInfo_run ctx coll nBytes nPipeOps numAlgo numProto reg s Hc Ht)
    as (s1 & E1 & H).
  assert (s' = s1) as -> by (unfold getCollInfo in E; congruence).
  destruct H as [rule Hp | Hp [?|?] | f' t' d Hp _ Hf' na t Hd Hl Hz]; [congruence..|].
  assert (f' = f) as -> by congruence. cbn [collCostTable].
  destruct d.
  - right. intros c x Hr. rewrite Hz. unfold finalCell. rewrite decide_True by done.
    destruct (zget t c) as [y|]; [cbn|done].
    destruct (ignored y) eqn:Hi; [naive_solver|].
    destruct (cellPrice ctx f nBytes nPipeOps reg c); naive_solver.
  - left. intros c. rewrite Hz. apply finalCell_unpriced. intros Ha.
    discriminate (proj2 Hd (conj Ha Hdis)).
Qed.

Lemma getCollInfo_never_mixes_witness :
  let s' := snd (getCollInfo (Some railCtx) ncclFuncAllGather 4096 1 7 3 0 openTable) in
  zget (collCostTable s') 0 = Some COST_MODEL_DISABLED_COST /\
  ((forall c, zget (collCostTable s') c = zget (collCostTable openTable) c)
   \/ forall c x, 0 <= c < cell 7 0 -> zget (collCostTable s') c = Some x ->
        x = COST_MODEL_DISABLED_COST \/ ignored x = true
        \/ cellPrice railCtx computeAllGatherTime 4096 1 0 c = Some x).
Proof.
  split; [vm_compute; reflexivity|].
  apply (getCollInfo_never_mixes railCtx ncclFuncAllGather computeAllGatherTime 4096 1 7 3 0 openTable
           ncclSuccess _ railCtx_ok (shape21 (collCostTable openTable) eq_refl));
    [vm_compute; reflexivity|vm_compute; discriminate|reflexivity|vm_compute; discriminate|].
  vm_compute. reflexivity.
Defined.

(** C30. Coverage: with more than one rank, a cell the cost model prices is one of
    the algorithm/protocol combinations the README lists for the collective
    ([TREE], [NVLS_TREE] for AllReduce only, [NVLS] inside one node, [PAT] for
    AllGather/ReduceScatter with SIMPLE, one rank per node and a positive efficiency);
    with one rank or none there is nothing to transfer, and every cell has the price 0,
    covered or not. *)
Theorem priced_cells_are_covered ctx coll f a p nBytes ops reg :
  modelOf coll = Some f -> 0 <= a < NCCL_NUM_ALGORITHMS ->
  (1 < i32 (nRanks ctx) -> priced (f ctx a p nBytes ops reg) = true ->
   covered (costModel ctx) coll a p (i32 (nRanks ctx)) (i32 (nNodes ctx)) = true)
  /\ (i32 (nRanks ctx) <= 1 -> option_map fst (f ctx a p nBytes ops reg) = Some (flt_of_dbl 0.0%dbl)).
Proof.
  intros Hf Ha. split.
  - intros Hr. destruct coll; cbn in Hf; try discriminate; injection Hf as <-.
    + apply covered_AllGatherOrRS; auto.
    + apply covered_AllGatherOrRS; auto.
    + by apply covered_AllReduce.
  - intros Hr%Z.leb_le. destruct coll; cbn in Hf; try discriminate; injection Hf as <-;
      unfold computeAllGatherTime, computeReduceScatterTime, computeAllGatherOrRSTime, computeAllReduceTime;
      cbv zeta; by rewrite Hr.
Qed.

Lemma priced_cells_are_covered_witness :
  priced (computeAllGatherTime railCtx NCCL_ALGO_PAT NCCL_PROTO_SIMPLE 4096 1 0) = true /\
  covered (costModel railCtx) ncclFuncAllGather NCCL_ALGO_PAT NCCL_PROTO_SIMPLE
    (i32 (nRanks railCtx)) (i32 (nNodes railCtx)) = true.
Proof.
  split; [vm_compute; reflexivity|].
  destruct (priced_cells_are_covered railCtx ncclFuncAllGather computeAllGatherTime NCCL_ALGO_PAT
           NCCL_PROTO_SIMPLE 4096 1 0) as [H _]; [reflexivity|done|].
  apply H; vm_compute; reflexivity.
Defined.

(** The bus bandwidth the model works with never exceeds the cap of its
    algorithm and protocol at the communicator's scale. *)
Theorem applyProtocolCap_respects_cap P algo proto scale nNodes nChannels busBw cap :
  protocolCap P algo proto scale nChannels = Some cap ->
  dlt cap (applyProtocolCap busBw algo proto P scale nNodes nChannels) = false.
Proof. exact (applyProtocolCap_le P algo proto scale nNodes nChannels busBw cap). Qed.

Lemma applyProtocolCap_respects_cap_witness :
  dlt 282.0%dbl (applyProtocolCap 1000.0%dbl NCCL_ALGO_RING NCCL_PROTO_LL
                   railNoP2pParamsDefault 0 1 16) = false.
Proof.
  apply (applyProtocolCap_respects_cap railNoP2pParamsDefault NCCL_ALGO_RING NCCL_PROTO_LL 0 1 16).
  reflexivity.
Defined.

(** C35. Mode selection.  After [initCostModel] the model is forced only if it is
    also used; without a profile both are off; a profile that is selected has
    parameters, and is a validated one unless the user named it explicitly. *)
Theorem initCostModel_modes env ctx :
  let ctx' := initCostModel env ctx in
  (forceCostModel ctx' <> 0 -> useCostModel ctx' <> 0)
  /\ (costModelProfile ctx' = None -> useCostModel ctx' = 0 /\ forceCostModel ctx' = 0)
  /\ (forall p, costModelProfile ctx' = Some p ->
        is_Some (costModelProfileParams p)
        /\ (costModelProfileValidated p <> 0
            \/ exists req, getEnvSet env "NCCL_TUNER_COST_MODEL_PROFILE" = Some req
                           /\ costModelProfileCanonicalName req = Some p)).
Proof.
  cbv zeta. unfold initCostModel. cbv zeta. cbn [costModelProfile update].
  destruct (selectCostModelProfile env ctx) as [p|] eqn:Es.
  - cbn. destruct (Z.eqb_spec (getEnvInt env "NCCL_TUNER_FORCE_COST_MODEL" 0) 0) as [E|E];
      cbn; (split; [congruence|]); (split; [done|]);
      intros q Hq; injection Hq as <-; by apply (selectCostModelProfile_known env ctx).
  - cbn. split; [lia|]. done.
Qed.

(** C22. [pluginInit] end to end: when both allocations succeed it succeeds, its
    context holds exactly the rules of the configuration file (none without a
    file), every rule names an existing algorithm and protocol, the rest of the
    context is what [initCostModel] computes; if the context cannot be
    allocated it returns [ncclSystemError] and no context. *)
Theorem pluginInit_builds_context env fs nr nn nvl :
  (exists ctx, pluginInit true true env fs nr nn nvl = (Some ctx, ncclSuccess)
     /\ configs ctx = fileRules fs env /\ Forall rule_in_range (configs ctx)
     /\ nRanks ctx = nr /\ nNodes ctx = nn
     /\ ctx <| configs := [] |> <| maxConfigs := 0 |> = initCostModel env (freshContext nr nn nvl))
  /\ (forall cfgMallocOk, pluginInit false cfgMallocOk env fs nr nn nvl = (None, ncclSystemError)).
Proof.
  split; [|done]. destruct (pluginInit_run env fs nr nn nvl) as (ctx & E & Hc & Hi).
  pose proof (initCostModel_keeps env (freshContext nr nn nvl)) as (_ & _ & Hr & Hn & _).
  exists ctx. split; [done|]. split; [done|]. split.
  { rewrite Hc. unfold fileRules. case_match; [apply rules_in_range|done]. }
  rewrite <- Hi in Hr, Hn. done.
Qed.

(** [costLog2i] is the floor of the binary logarithm on positive [int]s and
    0 on the others: the halving loop always ends within its 31 steps. *)
Theorem costLog2i_is_log2 n : in_s 32 n -> costLog2i n = Z.log2 n.
Proof.
  unfold in_s, costLog2i. intros H. destruct (Z.ltb_spec 0 n) as [Hn|Hn].
  - rewrite costLog2i_loop_spec; [lia|]. change (2 ^ (Z.of_nat 31 + 1)) with (2 ^ 32). lia.
  - rewrite Z.log2_nonpos by lia. cbn [costLog2i_loop].
    replace (1 <? n) with false by (symmetry; lia). done.
Qed.

Lemma costLog2i_is_log2_witness : costLog2i 100 = Z.log2 100.
Proof. apply costLog2i_is_log2. unfold in_s. lia. Defined.

(** A matching rule whose cell NCCL disabled does not decide the call: with the
    same rule and message, the open table gets the rule's 0, the table whose cell is IGNORE
    is filled by the cost model. *)
Example matching_rule_on_ignored_cell_is_skipped :
  List.find (matches railCtx ncclFuncAllReduce 512 1 0) (configs railCtx) <> None
  /\ csvPick railCtx ncclFuncAllReduce 512 1 7 3 0 (collCostTable blockedTable) = None
  /\ outChannels (snd (getCollInfo (Some railCtx) ncclFuncAllReduce 512 1 7 3 0 openTable)) = 4
  /\ outChannels (snd (getCollInfo (Some railCtx) ncclFuncAllReduce 512 1 7 3 0 blockedTable)) = 0.
Proof. vm_compute. repeat split; discriminate. Qed.
