(* ===== verification/Bitops.v ===== *)
(** * Bit operations

    [net/include/bitops.h], host branch.  A template on an unsigned integer type is
    a definition with the width [w] as first argument.  The compiler builtins
    ([popcount], [ffs], [clz], [bswap]) are spelled out bit by bit. *)

From S2P Require Import Prelude.

Open Scope Z_scope.

(** ** Minimum, maximum, rounding *)

Fixpoint minval (a : Z) (more : list Z) : Z :=
  match more with
  | [] => a
  | b :: rest => minval (if a <? b then a else b) rest
  end.

Fixpoint maxval (a : Z) (more : list Z) : Z :=
  match more with
  | [] => a
  | b :: rest => maxval (if b <? a then a else b) rest
  end.

Definition BIT (x : Z) : Z := u64 (Z.shiftl 1 x).
Definition MASK (x : Z) : Z := u64 (u64 (Z.shiftl 1 x) - 1).

Definition divUp (w x y : Z) : Z := wrapU w (x + y - 1) / y.

Definition roundUp (w x y : Z) : Z :=
  wrapU w (wrapU w (x + y - 1) - wrapU w (x + y - 1) mod y).

Definition roundDown (w x y : Z) : Z := wrapU w (x - x mod y).

(** The macros [DIVUP], [ROUNDUP], [ALIGN_POWER] and [ALIGN_SIZE]. *)
Definition DIVUP (w x y : Z) : Z := wrapU w (x + y - 1) / y.
Definition ROUNDUP (w x y : Z) : Z := wrapU w (DIVUP w x y * y).
Definition ALIGN_POWER (w x y : Z) : Z :=
  if y <? x then ROUNDUP w x y else y / (y / x).
Definition ALIGN_SIZE (w size align : Z) : Z :=
  wrapU w (wrapU w (size + align - 1) / align * align).

Definition alignUp (w x a : Z) : Z := Z.land (wrapU w (x + a - 1)) (wrapU w (0 - a)).
Definition alignDown (w x a : Z) : Z := Z.land x (wrapU w (0 - a)).

Definition isPow2 (w x : Z) : bool := Z.land x (wrapU w (x - 1)) =? 0.

(** ** Addresses in units of 4 GiB: arithmetic on the upper half of a 64-bit word *)

Definition lo32 (x : Z) : Z := Z.land x (2 ^ 32 - 1).
Definition hi32 (x : Z) : Z := Z.shiftr x 32.
Definition pack32 (lo hi : Z) : Z := Z.lor lo (Z.shiftl hi 32).

Definition add4G (base delta4G : Z) : Z :=
  pack32 (lo32 base) (u32 (hi32 base + delta4G)).

Definition incWrap4G (ptr delta4G lo4G hi4G : Z) : Z :=
  let u := u32 (hi32 ptr + delta4G) in
  let u := if hi4G <=? u then u32 (u - u32 (hi4G - lo4G)) else u in
  pack32 (lo32 ptr) u.

Definition decWrap4G (ptr delta4G lo4G hi4G : Z) : Z :=
  let u := u32 (hi32 ptr - delta4G) in
  let u := if u <? lo4G then u32 (u + u32 (hi4G - lo4G)) else u in
  pack32 (lo32 ptr) u.

(** ** Division by a precomputed reciprocal *)

Definition idivRcp32 (x : Z) : Z := u32 (2 ^ 32 / x).
Definition idivRcp64 (x : Z) : Z := u64 ((2 ^ 64 - 1) / x + Z.b2z (isPow2 64 x)).

Definition mul32hi (a b : Z) : Z := u32 (Z.shiftr (u64 (a * b)) 32).
Definition mul64hi (a b : Z) : Z := u64 (Z.shiftr (wrapU 128 (a * b)) 64).

Definition imulRcp32 (x xrcp y yrcp : Z) : Z :=
  if xrcp =? 0 then yrcp
  else if yrcp =? 0 then xrcp
  else
    let rcp := mul32hi xrcp yrcp in
    let rem := u32 (0 - u32 (u32 (x * y) * rcp)) in
    if u32 (x * y) <=? rem then u32 (rcp + 1) else rcp.

Definition imulRcp64 (x xrcp y yrcp : Z) : Z :=
  if xrcp =? 0 then yrcp
  else if yrcp =? 0 then xrcp
  else
    let rcp := mul64hi xrcp yrcp in
    let rem := u64 (0 - u64 (u64 (x * y) * rcp)) in
    if u64 (x * y) <=? rem then u64 (rcp + 1) else rcp.

Definition idivmodFast32 (x y yrcp : Z) : Z * Z :=
  if negb (yrcp =? 0) then
    let q := mul32hi x yrcp in
    let r := u32 (x - u32 (y * q)) in
    if y <=? r then (u32 (q + 1), u32 (r - y)) else (q, r)
  else (x, 0).

Definition idivmodFast64 (x y yrcp : Z) : Z * Z :=
  if negb (yrcp =? 0) then
    let q := mul64hi x yrcp in
    let r := u64 (x - u64 (y * q)) in
    if y <=? r then (u64 (q + 1), u64 (r - y)) else (q, r)
  else (x, 0).

Definition idivFast32 (x y yrcp : Z) : Z := fst (idivmodFast32 x y yrcp).
(** The return type of [idivFast64] is [uint32_t]. *)
Definition idivFast64 (x y yrcp : Z) : Z := u32 (fst (idivmodFast64 x y yrcp)).
Definition imodFast32 (x y yrcp : Z) : Z := snd (idivmodFast32 x y yrcp).
Definition imodFast64 (x y yrcp : Z) : Z := snd (idivmodFast64 x y yrcp).

(** ** Counting and scanning bits *)

Fixpoint popcount (w : nat) (x : Z) : Z :=
  match w with
  | O => 0
  | Datatypes.S w' => Z.b2z (Z.testbit x (Z.of_nat w')) + popcount w' x
  end.

(** One plus the index of the lowest set bit at or above [i], 0 when there is none. *)
Fixpoint ffs_from (n : nat) (i x : Z) : Z :=
  match n with
  | O => 0
  | Datatypes.S n' => if Z.testbit x i then i + 1 else ffs_from n' (i + 1) x
  end.

Definition ffs (w x : Z) : Z := ffs_from (Z.to_nat w) 0 x.

(** Leading zeros of a [w]-bit value. *)
Fixpoint clz_from (n : nat) (x : Z) : Z :=
  match n with
  | O => 0
  | Datatypes.S n' => if Z.testbit x (Z.of_nat n') then 0 else 1 + clz_from n' x
  end.

Definition clz (w x : Z) : Z := clz_from (Z.to_nat w) x.

(** A type of at most 32 bits is widened to [unsigned int]. *)
Definition builtinWidth (w : Z) : Z := if w <=? 32 then 32 else 64.

Definition countOneBits (w x : Z) : Z := popcount (Z.to_nat (builtinWidth w)) x.

Definition firstOneBit (w mask : Z) : Z := ffs (builtinWidth w) mask - 1.

(** The index and the new mask. *)
Definition popFirstOneBit (w mask : Z) : Z * Z :=
  (firstOneBit w mask, Z.land mask (wrapU w (mask - 1))).

Definition log2Down (w x : Z) : Z :=
  if x =? 0 then -1 else (builtinWidth w - 1) - clz (builtinWidth w) x.

Definition log2Up (w x : Z) : Z :=
  let x := if negb (x =? 0) then x - 1 else x in
  if x =? 0 then 0 else builtinWidth w - clz (builtinWidth w) x.

Definition pow2Up (w x : Z) : Z := wrapU w (Z.shiftl 1 (log2Up w x)).

(** [None] for the shift by -1 of [x = 0]. *)
Definition pow2Down (w x : Z) : option Z :=
  if log2Down w x <? 0 then None else Some (wrapU w (Z.shiftl 1 (log2Down w x))).

(** ** Reversing bits *)

Definition byteAt (x i : Z) : Z := Z.land (Z.shiftr x (8 * i)) 255.

(** The [n]-byte value with the bytes of [x] in the opposite order. *)
Fixpoint bswap (n : nat) (x : Z) : Z :=
  match n with
  | O => 0
  | Datatypes.S n' => Z.lor (Z.shiftl (byteAt x 0) (8 * Z.of_nat n')) (bswap n' (Z.shiftr x 8))
  end.

(** One exchange of neighbouring groups of [k] bits. *)
Definition swapMask (w k : Z) : Z := (2 ^ w - 1) / (2 ^ k + 1).

Definition swapStage (w k x : Z) : Z :=
  let m := swapMask w k in
  Z.lor (wrapU w (Z.shiftl (Z.land x m) k)) (Z.shiftr (Z.land x (2 ^ w - 1 - m)) k).

(** The stages for [nSubBits] = 8 (or the type's 8 bits) down to 2. *)
Fixpoint reverseGroups (fuel : nat) (w nSubBits x : Z) : Z :=
  match fuel with
  | O => x
  | Datatypes.S f =>
      if nSubBits <=? 1 then x
      else reverseGroups f w (nSubBits / 2) (swapStage w (nSubBits / 2) x)
  end.

Definition reverseSubBits (w nSubBits x : Z) : Z :=
  if (16 <=? nSubBits) && (w =? nSubBits)
  then reverseGroups 8 w 8 (bswap (Z.to_nat (w / 8)) x)
  else reverseGroups 8 w nSubBits x.

Definition reverseBits (w x nBits : Z) : Z :=
  let ux := reverseSubBits w w x in
  if nBits =? 0 then 0 else Z.shiftr ux (w - nBits).

(** ** The 8-bit floating-point approximation of [uint32_t] *)

Definition u32fpEncode (x bitsPerPow2 : Z) : Z :=
  let log2x := 31 - clz 32 (Z.lor x 1) in
  let mantissa :=
    Z.land (Z.shiftr x (if bitsPerPow2 <=? log2x then log2x - bitsPerPow2 else 0))
           (u32 (Z.shiftl 1 bitsPerPow2) - 1) in
  let exponent := if bitsPerPow2 <=? log2x then log2x - (bitsPerPow2 - 1) else 0 in
  Z.lor (u32 (Z.shiftl exponent bitsPerPow2)) mantissa.

Definition u32fpDecode (x bitsPerPow2 : Z) : Z :=
  let exponent := Z.shiftr x bitsPerPow2 in
  let mantissa := Z.lor (Z.land x (u32 (Z.shiftl 1 bitsPerPow2) - 1))
                        (if negb (exponent =? 0) then 8 else 0) in
  let exponent := if negb (exponent =? 0) then exponent - 1 else exponent in
  u32 (Z.shiftl mantissa exponent).

Definition u32fp8MaxValue : Z := 0xf0000000.
Definition u32fp8Encode (x : Z) : Z := u8 (u32fpEncode x 3).
Definition u32fp8Decode (x : Z) : Z := u32fpDecode x 3.

(** ** Hashing *)

(** [memcpy] of at most eight bytes into a zeroed [uint64_t], little endian. *)
Fixpoint le64 (bytes : list Z) : Z :=
  match bytes with
  | [] => 0
  | b :: rest => Z.lor b (Z.shiftl (le64 rest) 8)
  end.

Definition xorshift (k x : Z) : Z := Z.lxor x (Z.shiftr x k).

Definition hashMix (acc : Z * Z) : Z * Z :=
  let '(a0, a1) := acc in
  let a0 := u64 (a0 + a1) in
  let a1 := Z.lxor a1 a0 in
  let a0 := xorshift 31 a0 in
  let a0 := u64 (a0 * 0x9de62bbc8cef3ce3) in
  let a1 := xorshift 32 a1 in
  let a1 := u64 (a1 * 0x485cd6311b599e79) in
  (a0, a1).

(** [while (size != 0)]: each turn takes up to eight bytes. *)
Fixpoint eatHash_loop (fuel : nat) (acc : Z * Z) (bytes : list Z) : Z * Z :=
  match fuel with
  | O => acc
  | Datatypes.S f =>
      match bytes with
      | [] => acc
      | _ =>
          let '(a0, a1) := hashMix acc in
          let x := le64 (take 8 bytes) in
          eatHash_loop f (u64 (a0 + x), a1) (drop 8 bytes)
      end
  end.

Definition eatHash (acc : Z * Z) (bytes : list Z) : Z * Z :=
  let '(a0, a1) := acc in
  eatHash_loop (length bytes) (Z.lxor a0 (Z.of_nat (length bytes)), a1) bytes.

Definition digestHash (acc : Z * Z) : Z :=
  let '(a0, a1) := acc in
  let h := xorshift 31 a0 in
  let h := u64 (h * 0xbac3bd562846de6b) in
  let h := u64 (h + a1) in
  let h := xorshift 32 h in
  u64 (h * 0x995a187a14e7b445).

Definition getHash (bytes : list Z) : Z := digestHash (eatHash (1, 1) bytes).

(** The eight bytes of a [uint64_t] in memory. *)
Definition bytes64 (x : Z) : list Z := map (fun i => byteAt x (Z.of_nat i)) (seq 0 8).

(** [hashCombine] of [net/misc/utils.cc]. *)
Definition hashCombine (baseHash value : Z) : Z :=
  digestHash (eatHash (eatHash (1, 1) (bytes64 baseHash)) (bytes64 value)).
