(* ===== verification/BitopsSpec.v ===== *)
(** * Bit operations: correctness

    Division by reciprocals, bit scans, bit reversal, the 8-bit floating-point
    code and the hash, each against its arithmetic meaning, for every input of
    the machine type unless a hypothesis restricts it. *)

From Stdlib Require Import Znumtheory Zpow_facts.
From S2P Require Import Prelude Bitops.

Open Scope Z_scope.

(** ** Lemmas: words *)

Lemma u_small w x : 0 <= x < 2 ^ w -> wrapU w x = x.
Proof. apply wrapU_small. Qed.

Lemma wrapU_sub_l w x y : 0 <= w -> wrapU w (x - wrapU w y) = wrapU w (x - y).
Proof. intros. unfold wrapU. now rewrite Zminus_mod_idemp_r. Qed.

Lemma wrapU_mul_l w x y : 0 <= w -> wrapU w (wrapU w x * y) = wrapU w (x * y).
Proof. intros. unfold wrapU. now rewrite Zmult_mod_idemp_l. Qed.

Lemma wrapU_mul_r w x y : 0 <= w -> wrapU w (x * wrapU w y) = wrapU w (x * y).
Proof. intros. unfold wrapU. now rewrite Zmult_mod_idemp_r. Qed.

Lemma testbit_wrapU w x i : 0 <= w -> Z.testbit (wrapU w x) i = (i <? w) && Z.testbit x i.
Proof.
  intros Hw. unfold wrapU. destruct (Z.ltb_spec i w).
  - by rewrite Z.mod_pow2_bits_low.
  - by rewrite Z.mod_pow2_bits_high by lia.
Qed.

Lemma testbit_above w x i : in_u w x -> w <= i -> Z.testbit x i = false.
Proof.
  intros [H0 H1] Hi. destruct (decide (0 <= w)).
  - rewrite <- (Z.mod_small x (2 ^ w)) by lia. apply Z.mod_pow2_bits_high. lia.
  - rewrite Z.pow_neg_r in H1 by lia. lia.
Qed.

Lemma div_eq a b q r : 0 <= r < b -> a = b * q + r -> a / b = q /\ a mod b = r.
Proof.
  intros Hr E. split; symmetry.
  - by apply (Z.div_unique_pos a b q r).
  - by apply (Z.mod_unique_pos a b q r).
Qed.

(** ** Division by a reciprocal *)

Section Reciprocal.
Context (w : Z) (Hw : 1 < w).
Let B := 2 ^ w.

(** The estimate is at most one below the quotient. *)
Lemma rcp_estimate x y :
0 <= x < B -> 2 <= y < B ->
let q := x * (B / y) / B in 0 <= q /\ q * y <= x /\ x - y * q < 2 * y.
Proof.
intros Hx Hy q. assert (0 < B) by lia.
pose proof (Z.div_mod B y). pose proof (Z.mod_pos_bound B y).
pose proof (Z.div_mod (x * (B / y)) B). pose proof (Z.mod_pos_bound (x * (B / y)) B).
fold q in H2. set (r := B / y) in *. assert (0 <= r) by (apply Z.div_pos; lia).
assert (0 <= q) by (apply Z.div_pos; nia).
split; [done|]. split.
- assert (q * y * B <= x * B) by nia. nia.
- assert (y * (q * B) > (x - 2 * y) * B) by nia. nia.
Qed.

(** The reciprocal of a product from the product of the reciprocals: exact or
one too small. *)
Lemma rcp_product x y :
2 <= x -> 2 <= y -> x * y <= B ->
let p := (B / x) * (B / y) / B in 0 <= p /\ p <= B / (x * y) <= p + 1.
Proof.
intros Hx Hy Hxy p. assert (0 < B) by nia.
set (a := B / x) in *. set (b := B / y) in *. set (t := B / (x * y)).
pose proof (Z.div_mod B x) as Ea. pose proof (Z.mod_pos_bound B x) as Ra.
pose proof (Z.div_mod B y) as Eb. pose proof (Z.mod_pos_bound B y) as Rb.
pose proof (Z.div_mod B (x * y)) as Et. pose proof (Z.mod_pos_bound B (x * y)) as Rt.
pose proof (Z.div_mod (a * b) B) as Ep. pose proof (Z.mod_pos_bound (a * b) B) as Rp.
fold a in Ea. fold b in Eb. fold t in Et. fold p in Ep.
assert (0 <= a) by (apply Z.div_pos; lia). assert (0 <= b) by (apply Z.div_pos; lia).
assert (0 <= p) by (apply Z.div_pos; nia).
split; [done|].
assert (x * a <= B) by lia. assert (y * b <= B) by lia.
assert ((x * a) * (y * b) <= B * B) by nia.
assert (B - x + 1 <= x * a) by lia. assert (B - y + 1 <= y * b) by lia.
assert (x <= B /\ y <= B) by nia.
assert ((B - x + 1) * (B - y + 1) <= (x * a) * (y * b)) by nia.
split.
- apply Z.div_le_lower_bound; [nia|].
assert (p * B <= a * b) by lia.
assert (x * y * p * B <= B * B) by nia. nia.
- enough (t < p + 2) by lia. apply Z.div_lt_upper_bound; [nia|].
assert (a * b < (p + 1) * B) by lia.
assert ((x * a) * (y * b) < x * y * ((p + 1) * B)) by nia.
assert (B * (B - (x + y - 2)) < x * y * (p + 1) * B) by nia.
assert (B - (x + y - 2) < x * y * (p + 1)) by nia. nia.
Qed.
End Reciprocal.

Lemma mul32hi_eq a b : in_u 32 a -> in_u 32 b -> mul32hi a b = a * b / 2 ^ 32.
Proof.
  unfold in_u, mul32hi. intros Ha Hb.
  rewrite (u_small 64) by (change (2 ^ 64) with (2 ^ 32 * 2 ^ 32); nia).
  rewrite Z.shiftr_div_pow2 by lia. apply u_small.
  split; [apply Z.div_pos; nia|apply Z.div_lt_upper_bound; nia].
Qed.

Lemma mul64hi_eq a b : in_u 64 a -> in_u 64 b -> mul64hi a b = a * b / 2 ^ 64.
Proof.
  unfold in_u, mul64hi. intros Ha Hb.
  rewrite (u_small 128) by (change (2 ^ 128) with (2 ^ 64 * 2 ^ 64); nia).
  rewrite Z.shiftr_div_pow2 by lia. apply u_small.
  split; [apply Z.div_pos; nia|apply Z.div_lt_upper_bound; nia].
Qed.

Lemma isPow2_spec w x : 0 < w -> 0 < x < 2 ^ w -> isPow2 w x = true <-> x = 2 ^ Z.log2 x.
Proof.
  intros Hw Hx. unfold isPow2. rewrite (u_small w) by lia. rewrite Z.eqb_eq.
  pose proof (Z.log2_spec x ltac:(lia)) as [Hl Hh]. pose proof (Z.log2_nonneg x).
  split.
  - intros E. destruct (decide (x = 2 ^ Z.log2 x)) as [|Hne]; [done|]. exfalso.
    assert (Z.log2 (x - 1) = Z.log2 x) as El.
    { apply Z.log2_unique; lia. }
    assert (Z.testbit (Z.land x (x - 1)) (Z.log2 x) = true) as Hb.
    { rewrite Z.land_spec, Z.bit_log2 by lia. rewrite <- El. apply Z.bit_log2.
      pose proof (Z.pow_pos_nonneg 2 (Z.log2 x)). lia. }
    by rewrite E, Z.bits_0 in Hb.
  - intros E. rewrite E. set (k := Z.log2 x) in *.
    apply Z.bits_inj'. intros i Hi. rewrite Z.land_spec, Z.bits_0, Z.pow2_bits_eqb by lia.
    destruct (Z.eqb_spec k i) as [<-|]; [|done]. cbn [andb].
    replace (2 ^ k - 1) with (Z.ones k) by (rewrite Z.ones_equiv; lia).
    apply Z.ones_spec_high. lia.
Qed.

Lemma idivRcp32_eq y : 1 <= y < 2 ^ 32 -> idivRcp32 y = if y =? 1 then 0 else 2 ^ 32 / y.
Proof.
  intros Hy. unfold idivRcp32. destruct (Z.eqb_spec y 1) as [->|]; [done|].
  apply u_small. split; [apply Z.div_pos; lia|apply Z.div_lt_upper_bound; lia].
Qed.

Lemma idivRcp64_eq y : 1 <= y < 2 ^ 64 -> idivRcp64 y = if y =? 1 then 0 else 2 ^ 64 / y.
Proof.
  intros Hy. unfold idivRcp64. destruct (Z.eqb_spec y 1) as [->|Hne]; [done|].
  pose proof (isPow2_spec 64 y ltac:(lia) ltac:(lia)) as Hp.
  pose proof (Z.div_mod (2 ^ 64) y). pose proof (Z.mod_pos_bound (2 ^ 64) y).
  assert ((2 ^ 64 - 1) / y + Z.b2z (isPow2 64 y) = 2 ^ 64 / y) as ->.
  { destruct (isPow2 64 y) eqn:E; cbn [Z.b2z].
    - assert (2 ^ 64 mod y = 0) as Hm.
      { rewrite (proj1 Hp eq_refl). pose proof (Z.log2_nonneg y).
        assert (Z.log2 y < 64) by (apply Z.log2_lt_pow2; lia).
        replace 64 with (64 - Z.log2 y + Z.log2 y) by lia.
        rewrite Z.pow_add_r by lia. apply Z_mod_mult. }
      destruct (div_eq (2 ^ 64 - 1) y (2 ^ 64 / y - 1) (y - 1)) as [-> _]; nia.
    - destruct (decide (2 ^ 64 mod y = 0)) as [Hm|Hm].
      + exfalso. apply Z.mod_divide in Hm; [|lia].
        destruct (Zdivide_power_2 y 2 64) as [m Hy2]; [lia|lia|apply prime_2|done|].
        assert (0 <= m) by (destruct (decide (0 <= m)); [done|]; rewrite Z.pow_neg_r in Hy2 by lia; lia).
        enough (y = 2 ^ Z.log2 y) as Hy3 by discriminate (proj2 Hp Hy3).
        rewrite Hy2. by rewrite Z.log2_pow2 by done.
      + destruct (div_eq (2 ^ 64 - 1) y (2 ^ 64 / y) (2 ^ 64 mod y - 1)) as [-> _]; nia. }
  apply u_small. split; [apply Z.div_pos; lia|apply Z.div_lt_upper_bound; lia].
Qed.

(** The two word sizes share the proof of one division step. *)
Lemma fast_step w x y :
  1 < w -> 0 <= x < 2 ^ w -> 2 <= y < 2 ^ w ->
  let q := x * (2 ^ w / y) / 2 ^ w in
  let r := wrapU w (x - wrapU w (y * q)) in
  (if y <=? r then (wrapU w (q + 1), wrapU w (r - y)) else (q, r)) = (x / y, x mod y).
Proof.
  intros Hw Hx Hy q r.
  destruct (rcp_estimate w Hw x y Hx Hy) as (Hq & Hqx & Hr). fold q in Hq, Hqx, Hr.
  assert (r = x - y * q) as Er.
  { unfold r. rewrite (u_small w (y * q)) by nia. apply u_small. nia. }
  clearbody r. rewrite Er in *. clear Er.
  destruct (Z.leb_spec y (x - y * q)).
  - rewrite !u_small by nia.
    destruct (div_eq x y (q + 1) (x - y * q - y)) as [-> ->]; nia || done.
  - destruct (div_eq x y q (x - y * q)) as [-> ->]; nia || done.
Qed.

Lemma idivmodFast32_run x y :
  in_u 32 x -> 1 <= y < 2 ^ 32 -> idivmodFast32 x y (idivRcp32 y) = (x / y, x mod y).
Proof.
  intros Hx Hy. unfold idivmodFast32. rewrite idivRcp32_eq by done.
  destruct (Z.eqb_spec y 1) as [->|]; [cbn; by rewrite Z.div_1_r, Z.mod_1_r|].
  assert (1 <= 2 ^ 32 / y < 2 ^ 32) as Hr
    by (split; [apply Z.div_le_lower_bound|apply Z.div_lt_upper_bound]; lia).
  replace (2 ^ 32 / y =? 0) with false by (symmetry; lia). cbn [negb].
  rewrite mul32hi_eq by (unfold in_u in *; lia).
  apply (fast_step 32 x y); unfold in_u in *; lia.
Qed.

Lemma idivmodFast64_run x y :
  in_u 64 x -> 1 <= y < 2 ^ 64 -> idivmodFast64 x y (idivRcp64 y) = (x / y, x mod y).
Proof.
  intros Hx Hy. unfold idivmodFast64. rewrite idivRcp64_eq by done.
  destruct (Z.eqb_spec y 1) as [->|]; [cbn; by rewrite Z.div_1_r, Z.mod_1_r|].
  assert (1 <= 2 ^ 64 / y < 2 ^ 64) as Hr
    by (split; [apply Z.div_le_lower_bound|apply Z.div_lt_upper_bound]; lia).
  replace (2 ^ 64 / y =? 0) with false by (symmetry; lia). cbn [negb].
  rewrite mul64hi_eq by (unfold in_u in *; lia).
  apply (fast_step 64 x y); unfold in_u in *; lia.
Qed.

(** One correction step of [imulRcp32]/[imulRcp64]. *)
Lemma rcp_correction w p m :
  1 < w -> 0 < m < 2 ^ w -> 1 <= p -> p <= 2 ^ w / m <= p + 1 -> 2 <= m ->
  (if m <=? wrapU w (0 - wrapU w (m * p)) then wrapU w (p + 1) else p) = 2 ^ w / m.
Proof.
  intros Hw Hm Hp Ht H2. set (t := 2 ^ w / m) in *.
  pose proof (Z.div_mod (2 ^ w) m) as E. pose proof (Z.mod_pos_bound (2 ^ w) m). fold t in E.
  rewrite wrapU_sub_l by lia.
  assert (wrapU w (0 - m * p) = 2 ^ w - m * p) as ->.
  { unfold wrapU. symmetry. apply (Z.mod_unique_pos _ _ (-1)); nia. }
  assert (t < 2 ^ w) by (apply Z.div_lt_upper_bound; nia).
  destruct (Z.leb_spec m (2 ^ w - m * p)).
  - rewrite u_small by nia. nia.
  - nia.
Qed.

Lemma imulRcp32_run x y :
  1 <= x -> 1 <= y -> x * y <= 2 ^ 31 ->
  imulRcp32 x (idivRcp32 x) y (idivRcp32 y) = idivRcp32 (x * y).
Proof.
  intros Hx Hy Hxy. unfold imulRcp32. rewrite !idivRcp32_eq by nia.
  destruct (Z.eqb_spec x 1) as [->|Hx1]; [cbn [Z.eqb]; by rewrite Z.mul_1_l|].
  assert (forall z, 2 <= z <= 2 ^ 31 -> 2 <= 2 ^ 32 / z < 2 ^ 32) as Hrng.
  { intros z Hz. split; [apply Z.div_le_lower_bound; lia|apply Z.div_lt_upper_bound; lia]. }
  pose proof (Hrng x ltac:(nia)). pose proof (Hrng y).
  replace (2 ^ 32 / x =? 0) with false by (symmetry; lia).
  destruct (Z.eqb_spec y 1) as [->|Hy1].
  { cbn [Z.eqb]. rewrite Z.mul_1_r. by apply Z.eqb_neq in Hx1 as ->. }
  replace (2 ^ 32 / y =? 0) with false by (symmetry; nia).
  replace (x * y =? 1) with false by (symmetry; nia).
  rewrite mul32hi_eq by (unfold in_u; nia).
  destruct (rcp_product 32 ltac:(lia) x y ltac:(lia) ltac:(lia) ltac:(nia)) as (_ & Hb).
  rewrite (u_small 32 (x * y)) by nia.
  pose proof (Hrng (x * y) ltac:(nia)).
  apply (rcp_correction 32); nia.
Qed.

Lemma imulRcp64_run x y :
  1 <= x -> 1 <= y -> x * y <= 2 ^ 63 ->
  imulRcp64 x (idivRcp64 x) y (idivRcp64 y) = idivRcp64 (x * y).
Proof.
  intros Hx Hy Hxy. unfold imulRcp64. rewrite !idivRcp64_eq by nia.
  destruct (Z.eqb_spec x 1) as [->|Hx1]; [cbn [Z.eqb]; by rewrite Z.mul_1_l|].
  assert (forall z, 2 <= z <= 2 ^ 63 -> 2 <= 2 ^ 64 / z < 2 ^ 64) as Hrng.
  { intros z Hz. split; [apply Z.div_le_lower_bound; lia|apply Z.div_lt_upper_bound; lia]. }
  pose proof (Hrng x ltac:(nia)). pose proof (Hrng y).
  replace (2 ^ 64 / x =? 0) with false by (symmetry; lia).
  destruct (Z.eqb_spec y 1) as [->|Hy1].
  { cbn [Z.eqb]. rewrite Z.mul_1_r. by apply Z.eqb_neq in Hx1 as ->. }
  replace (2 ^ 64 / y =? 0) with false by (symmetry; nia).
  replace (x * y =? 1) with false by (symmetry; nia).
  rewrite mul64hi_eq by (unfold in_u; nia).
  destruct (rcp_product 64 ltac:(lia) x y ltac:(lia) ltac:(lia) ltac:(nia)) as (_ & Hb).
  rewrite (u_small 64 (x * y)) by nia.
  pose proof (Hrng (x * y) ltac:(nia)).
  apply (rcp_correction 64); nia.
Qed.

(** ** Bit scans *)

Lemma clz_from_spec n x :
  0 < x < 2 ^ Z.of_nat n -> clz_from n x = Z.of_nat n - 1 - Z.log2 x.
Proof.
  induction n as [|n IH]; intros Hx; [cbn in Hx; lia|]. cbn [clz_from].
  assert (2 ^ Z.of_nat (Datatypes.S n) = 2 * 2 ^ Z.of_nat n) as E
    by (rewrite Nat2Z.inj_succ, Z.pow_succ_r; lia).
  destruct (Z.testbit x (Z.of_nat n)) eqn:Eb.
  - assert (2 ^ Z.of_nat n <= x) as Hle.
    { apply Z.nlt_ge. intros Hlt. by rewrite (testbit_above (Z.of_nat n)) in Eb by (unfold in_u; lia). }
    assert (Z.log2 x = Z.of_nat n) as -> by (apply Z.log2_unique; rewrite ?Z.pow_succ_r; lia). lia.
  - rewrite IH; [lia|]. split; [lia|]. apply Z.nle_gt. intros Hle.
    assert (Z.log2 x = Z.of_nat n) as El by (apply Z.log2_unique; rewrite ?Z.pow_succ_r; lia).
    rewrite <- El, Z.bit_log2 in Eb by lia. done.
Qed.

Lemma clz_spec w x : 0 <= w -> 0 < x < 2 ^ w -> clz w x = w - 1 - Z.log2 x.
Proof. intros Hw Hx. unfold clz. rewrite clz_from_spec; rewrite Z2Nat.id by lia; done. Qed.

Lemma builtinWidth_le w : 0 <= w <= 64 -> w <= builtinWidth w /\ 0 <= builtinWidth w.
Proof. unfold builtinWidth. destruct (Z.leb_spec w 32); lia. Qed.

Lemma in_builtin w x : 0 <= w <= 64 -> 0 <= x < 2 ^ w -> 0 <= x < 2 ^ builtinWidth w.
Proof.
  intros Hw Hx. pose proof (builtinWidth_le w Hw).
  pose proof (Z.pow_le_mono_r 2 w (builtinWidth w)). lia.
Qed.

Lemma log2Down_run w x : 0 < w <= 64 -> 0 < x < 2 ^ w -> log2Down w x = Z.log2 x.
Proof.
  intros Hw Hx. unfold log2Down. replace (x =? 0) with false by (symmetry; lia).
  pose proof (in_builtin w x). pose proof (builtinWidth_le w). rewrite clz_spec by lia. lia.
Qed.

Lemma log2Up_run w x : 0 < w <= 64 -> 0 < x < 2 ^ w -> log2Up w x = Z.log2_up x.
Proof.
  intros Hw Hx. unfold log2Up. replace (x =? 0) with false by (symmetry; lia). cbn [negb].
  destruct (Z.eqb_spec (x - 1) 0) as [E|E].
  - replace x with 1 by lia. done.
  - pose proof (in_builtin w x). pose proof (builtinWidth_le w). rewrite clz_spec by lia.
    rewrite Z.log2_up_eqn by lia. unfold Z.pred. replace (x + -1) with (x - 1) by lia. lia.
Qed.

(** [i] is the lowest set bit of [x]. *)
Definition lowest_bit (x i : Z) : Prop :=
  0 <= i /\ Z.testbit x i = true /\ forall j, 0 <= j < i -> Z.testbit x j = false.

Lemma ffs_from_spec n i x :
  0 <= i ->
  match ffs_from n i x with
  | 0 => forall j, i <= j < i + Z.of_nat n -> Z.testbit x j = false
  | r => i <= r - 1 < i + Z.of_nat n /\ Z.testbit x (r - 1) = true
         /\ forall j, i <= j < r - 1 -> Z.testbit x j = false
  end.
Proof.
  revert i. induction n as [|n IH]; intros i Hi; cbn [ffs_from].
  - intros j Hj. lia.
  - destruct (Z.testbit x i) eqn:E.
    + destruct (i + 1) eqn:E1; [lia| |lia]. rewrite <- E1. replace (i + 1 - 1) with i by lia.
      split; [lia|]. split; [done|]. intros j Hj. lia.
    + specialize (IH (i + 1) ltac:(lia)).
      destruct (ffs_from n (i + 1) x) as [|p|p].
      * intros j Hj. destruct (decide (j = i)) as [->|]; [done|]. apply IH. lia.
      * destruct IH as (H1 & H2 & H3). split; [lia|]. split; [done|].
        intros j Hj. destruct (decide (j = i)) as [->|]; [done|]. apply H3. lia.
      * destruct IH as (H1 & H2 & H3). lia.
Qed.

Lemma lowest_bit_split x i :
  lowest_bit x i -> exists m, x = 2 ^ i * (2 * m + 1).
Proof.
  intros (Hi & Hb & Hl). exists (Z.shiftr x (i + 1)).
  apply Z.bits_inj'. intros j Hj. rewrite Z.mul_comm, <- Z.shiftl_mul_pow2 by lia.
  rewrite Z.shiftl_spec by lia. destruct (Z.ltb_spec j i).
  - rewrite (Z.testbit_neg_r _ (j - i)) by lia. apply Hl. lia.
  - destruct (decide (j = i)) as [->|].
    + rewrite Z.sub_diag, Z.testbit_odd_0. done.
    + replace (j - i) with (Z.succ (j - i - 1)) by lia.
      rewrite Z.testbit_odd_succ by lia. rewrite Z.shiftr_spec by lia. f_equal. lia.
Qed.

Lemma clear_lowest x i j :
  lowest_bit x i -> 0 <= j ->
  Z.testbit (Z.land x (x - 1)) j = negb (j =? i) && Z.testbit x j.
Proof.
  intros Hl Hj. pose proof Hl as (Hi & Hb & Hlow).
  destruct (lowest_bit_split x i Hl) as [m E]. rewrite Z.land_spec.
  destruct (Z.ltb_spec j i).
  - by rewrite Hlow, andb_false_r by lia.
  - replace j with (j - i + i) by lia. rewrite <- !Z.div_pow2_bits by lia.
    pose proof (Z.pow_pos_nonneg 2 i ltac:(lia) Hi).
    destruct (div_eq x (2 ^ i) (2 * m + 1) 0) as [-> _]; [lia|lia|].
    destruct (div_eq (x - 1) (2 ^ i) (2 * m) (2 ^ i - 1)) as [-> _]; [lia|lia|].
    replace (j - i + i) with j by lia.
    destruct (Z.eqb_spec j i) as [->|]; cbn [negb].
    + by rewrite Z.sub_diag, Z.testbit_even_0, andb_false_r.
    + replace (j - i) with (Z.succ (j - i - 1)) by lia.
      rewrite Z.testbit_odd_succ, Z.testbit_even_succ by lia. by rewrite andb_diag.
Qed.

(** ** Bit reversal *)

(** A property of all indices of a word, decided by evaluation. *)
Lemma forall_index (w : nat) (p : Z -> bool) :
  forallb (fun i => p (Z.of_nat i)) (seq 0 w) = true -> forall i, 0 <= i < Z.of_nat w -> p i = true.
Proof.
  intros H i Hi. rewrite forallb_forall in H. specialize (H (Z.to_nat i)).
  rewrite Z2Nat.id in H by lia. apply H. apply in_seq. lia.
Qed.

(** Partner of index [i] in an exchange of neighbouring groups of [k] bits. *)
Definition partner (k i : Z) : Z := if Z.testbit i (Z.log2 k) then i - k else i + k.

(** What one stage needs of its mask. *)
Definition stage_ok (w k i : Z) : bool :=
  let m := swapMask w k in
  (0 <=? partner k i) && (partner k i <? w)
  && eqb (Z.testbit m i) (negb (Z.testbit i (Z.log2 k)))
  && implb (k <=? i) (eqb (Z.testbit m (i - k)) (Z.testbit i (Z.log2 k)))
  && implb (i + k <? w) (eqb (Z.testbit m (i + k)) (Z.testbit i (Z.log2 k))).

Lemma testbit_complement w m i :
  in_u w m -> 0 <= i < w -> Z.testbit (2 ^ w - 1 - m) i = negb (Z.testbit m i).
Proof.
  intros Hm Hi. replace (2 ^ w - 1 - m) with (wrapU w (Z.lnot m)).
  - rewrite testbit_wrapU, Z.lnot_spec by lia. by replace (i <? w) with true by (symmetry; lia).
  - unfold wrapU, Z.lnot, in_u in *. symmetry. apply (Z.mod_unique_pos _ _ (-1)); lia.
Qed.

Lemma in_u_bits w x :
  0 <= w -> (forall i, w <= i -> Z.testbit x i = false) -> in_u w x.
Proof.
  intros Hw H. assert (x = wrapU w x) as ->; [|by apply wrapU_range].
  apply Z.bits_inj'. intros i Hi. rewrite testbit_wrapU by done.
  destruct (Z.ltb_spec i w); [done|]. by rewrite H.
Qed.

Lemma swapStage_bit w k x i :
  0 < k -> in_u w x -> in_u w (swapMask w k) -> 0 <= i < w -> stage_ok w k i = true ->
  Z.testbit (swapStage w k x) i = Z.testbit x (partner k i).
Proof.
  intros Hk Hx Hm Hi. unfold stage_ok, swapStage, partner. cbv zeta.
  set (m := swapMask w k) in *. rewrite !andb_true_iff.
  intros [[[[Hp0 Hp1] Hmi] Hlo] Hhi]. apply Z.leb_le in Hp0. apply Z.ltb_lt in Hp1.
  rewrite Z.lor_spec, testbit_wrapU, Z.shiftl_spec, Z.shiftr_spec, !Z.land_spec by lia.
  replace (i <? w) with true by (symmetry; lia). cbn [andb].
  assert (Z.testbit x (i + k) && Z.testbit (2 ^ w - 1 - m) (i + k)
          = negb (Z.testbit i (Z.log2 k)) && Z.testbit x (i + k)) as ->.
  { destruct (Z.ltb_spec (i + k) w) as [H|H].
    - rewrite testbit_complement by (done || lia). cbn [implb] in Hhi. apply eqb_prop in Hhi.
      rewrite Hhi. apply andb_comm.
    - rewrite (testbit_above w x) by done. by rewrite andb_false_r. }
  assert (Z.testbit x (i - k) && Z.testbit m (i - k)
          = Z.testbit i (Z.log2 k) && Z.testbit x (i - k)) as ->.
  { destruct (Z.leb_spec k i) as [H|H].
    - cbn [implb] in Hlo. apply eqb_prop in Hlo. rewrite Hlo. apply andb_comm.
    - rewrite (Z.testbit_neg_r x) by lia. by rewrite andb_false_r. }
  destruct (Z.testbit i (Z.log2 k)); cbn; [by rewrite orb_false_r|done].
Qed.

Lemma swapStage_range w k x :
  0 < w -> 0 < k -> in_u w x -> in_u w (swapMask w k) -> in_u w (swapStage w k x).
Proof.
  intros Hw Hk Hx Hm. apply in_u_bits; [lia|]. intros i Hi. unfold swapStage. cbv zeta.
  rewrite Z.lor_spec, testbit_wrapU, Z.shiftr_spec, Z.land_spec by lia.
  replace (i <? w) with false by (symmetry; lia).
  by rewrite (testbit_above w x) by (done || lia).
Qed.

Lemma testbit_byteAt x i j :
  0 <= i -> 0 <= j -> Z.testbit (byteAt x i) j = (j <? 8) && Z.testbit x (8 * i + j).
Proof.
  intros Hi Hj. unfold byteAt. change 255 with (Z.ones 8).
  rewrite Z.land_ones by lia. fold (wrapU 8 (Z.shiftr x (8 * i))).
  rewrite testbit_wrapU, Z.shiftr_spec by lia. f_equal. f_equal. lia.
Qed.

Lemma bswap_bit n x i :
  0 <= i < 8 * Z.of_nat n ->
  Z.testbit (bswap n x) i = Z.testbit x (8 * (Z.of_nat n - 1 - i / 8) + i mod 8).
Proof.
  revert x. induction n as [|n IH]; intros x Hi; [lia|]. cbn [bswap].
  pose proof (Z.div_mod i 8). pose proof (Z.mod_pos_bound i 8).
  rewrite Z.lor_spec, Z.shiftl_spec by lia.
  destruct (Z.ltb_spec i (8 * Z.of_nat n)) as [H1|H1].
  - rewrite (Z.testbit_neg_r _ (i - 8 * Z.of_nat n)) by lia. cbn [orb].
    rewrite IH, Z.shiftr_spec by lia. f_equal. lia.
  - rewrite testbit_byteAt by lia.
    assert (Z.testbit (bswap n (Z.shiftr x 8)) i = false) as ->.
    { clear -H1. generalize (Z.shiftr x 8). clear x. revert H1. induction n as [|n IH]; intros H1 y;
        [apply Z.bits_0|]. cbn [bswap]. rewrite Z.lor_spec, Z.shiftl_spec by lia.
      rewrite IH, testbit_byteAt by lia.
      by replace (i - 8 * Z.of_nat n <? 8) with false by (symmetry; lia). }
    rewrite orb_false_r. replace (i - 8 * Z.of_nat n <? 8) with true by (symmetry; lia).
    cbn [andb]. assert (i / 8 = Z.of_nat n) as -> by lia. f_equal. lia.
Qed.

Lemma bswap_range n x : in_u (8 * Z.of_nat n) (bswap n x).
Proof.
  revert x. induction n as [|n IH]; intros x; [cbn; unfold in_u; lia|].
  apply in_u_bits; [lia|]. intros i Hi. cbn [bswap]. rewrite Z.lor_spec, Z.shiftl_spec by lia.
  rewrite testbit_byteAt by lia. rewrite (testbit_above (8 * Z.of_nat n) (bswap n _)) by (apply IH || lia).
  by replace (i - 8 * Z.of_nat n <? 8) with false by (symmetry; lia).
Qed.

(** The stages of one byte, and the whole index map, by evaluation. *)
Definition reversal_ok (n : nat) : bool :=
  let w := 8 * Z.of_nat n in
  forallb (fun k => (0 <=? swapMask w k) && (swapMask w k <? 2 ^ w)
                    && forallb (fun i => stage_ok w k (Z.of_nat i)) (seq 0 (8 * n))) [4; 2; 1]
  && forallb (fun i => let j := partner 4 (partner 2 (partner 1 (Z.of_nat i))) in
                 (8 * (Z.of_nat n - 1 - j / 8) + j mod 8 =? w - 1 - Z.of_nat i)
                 && (0 <=? j) && (j <? w)) (seq 0 (8 * n)).

Lemma reverse_bytes n x i :
  (0 < n)%nat -> reversal_ok n = true -> 0 <= i < 8 * Z.of_nat n ->
  let w := 8 * Z.of_nat n in
  Z.testbit (swapStage w 1 (swapStage w 2 (swapStage w 4 (bswap n x)))) i = Z.testbit x (w - 1 - i).
Proof.
  intros Hn Hok Hi w. unfold reversal_ok in Hok. cbv zeta in Hok. fold w in Hok.
  apply andb_true_iff in Hok as [Hst Hidx]. cbn [forallb] in Hst.
  rewrite !andb_true_iff in Hst. destruct Hst as ([[H4a H4b] H4] & [[H2a H2b] H2] & [[H1a H1b] H1] & _).
  assert (forall k, (0 <=? swapMask w k) = true -> (swapMask w k <? 2 ^ w) = true -> in_u w (swapMask w k)) as Hm.
  { intros k. unfold in_u. lia. }
  replace (8 * n)%nat with (Z.to_nat w) in * by lia.
  assert (forall p j, forallb (fun i => p (Z.of_nat i)) (seq 0 (Z.to_nat w)) = true -> 0 <= j < w -> p j = true) as Hall.
  { intros p j Hp Hj. apply (forall_index (Z.to_nat w) p Hp). lia. }
  pose proof (Hall (fun i => let j := partner 4 (partner 2 (partner 1 i)) in
                 (8 * (Z.of_nat n - 1 - j / 8) + j mod 8 =? w - 1 - i)
                 && (0 <=? j) && (j <? w)) i Hidx Hi) as Hj. cbv beta zeta in Hj.
  pose proof (bswap_range n x) as Rb. fold w in Rb.
  assert (0 < w) by lia.
  pose proof (swapStage_range w 4 _ ltac:(lia) ltac:(lia) Rb (Hm _ H4a H4b)) as R4.
  pose proof (swapStage_range w 2 _ ltac:(lia) ltac:(lia) R4 (Hm _ H2a H2b)) as R2.
  assert (forall k j, stage_ok w k j = true -> 0 <= partner k j < w) as Hp.
  { intros k j Hs. unfold stage_ok in Hs. cbv zeta in Hs. rewrite !andb_true_iff in Hs. lia. }
  pose proof (Hall _ i H1 Hi) as S1. pose proof (Hp _ _ S1) as P1.
  pose proof (Hall _ _ H2 P1) as S2. pose proof (Hp _ _ S2) as P2.
  pose proof (Hall _ _ H4 P2) as S4. pose proof (Hp _ _ S4) as P4.
  rewrite swapStage_bit by auto with lia. rewrite swapStage_bit by auto with lia.
  rewrite swapStage_bit by auto with lia.
  rewrite !andb_true_iff in Hj. rewrite bswap_bit by lia. f_equal. lia.
Qed.

(** ** The 8-bit floating-point code *)

Lemma log2_or_1 x : 0 <= x -> Z.log2 (Z.lor x 1) = Z.log2 x.
Proof. intros Hx. rewrite Z.log2_lor by lia. change (Z.log2 1) with 0. pose proof (Z.log2_nonneg x). lia. Qed.

Lemma lor_1_range w x : 1 <= w -> in_u w x -> 0 < Z.lor x 1 < 2 ^ w.
Proof.
  intros Hw Hx. assert (in_u w (Z.lor x 1)) as [H0 H1].
  { apply in_u_bits; [lia|]. intros i Hi. rewrite Z.lor_spec, (testbit_above w x) by done.
    rewrite (testbit_above w 1); [done| |done]. unfold in_u. split; [lia|].
    pose proof (Z.pow_le_mono_r 2 1 w). lia. }
  split; [|done]. destruct (decide (Z.lor x 1 = 0)) as [E|]; [|lia].
  apply Z.lor_eq_0_iff in E. lia.
Qed.

Lemma encode_log2 x : in_u 32 x -> 31 - clz 32 (Z.lor x 1) = Z.log2 x.
Proof.
  intros Hx. rewrite clz_spec by (apply lor_1_range || lia; done).
  rewrite log2_or_1 by (unfold in_u in Hx; lia). lia.
Qed.

Lemma u32fp_encode_cases x :
  in_u 32 x ->
  (x < 8 /\ u32fpEncode x 3 = x) \/
  (8 <= x /\ exists s m, s = Z.log2 x - 3 /\ 0 <= s <= 28 /\ m = x / 2 ^ s /\ 8 <= m < 16
     /\ u32fpEncode x 3 = 8 * (s + 1) + (m - 8)).
Proof.
  intros Hx. unfold u32fpEncode. rewrite encode_log2 by done. cbv zeta. unfold in_u in Hx.
  change (u32 (Z.shiftl 1 3) - 1) with (Z.ones 3). rewrite Z.land_ones by lia.
  destruct (Z.ltb_spec x 8) as [H|H].
  - left. split; [done|].
    assert (x = 0 \/ x = 1 \/ x = 2 \/ x = 3 \/ x = 4 \/ x = 5 \/ x = 6 \/ x = 7) as Hc by lia.
    repeat destruct Hc as [-> | Hc]; [reflexivity..|]. by subst.
  - right. split; [done|].
    pose proof (Z.log2_spec x ltac:(lia)) as [Hl Hh].
    assert (3 <= Z.log2 x) by (apply Z.log2_le_pow2; lia).
    assert (Z.log2 x < 32) by (apply Z.log2_lt_pow2; lia).
    exists (Z.log2 x - 3), (x / 2 ^ (Z.log2 x - 3)). split; [done|]. split; [lia|]. split; [done|].
    set (s := Z.log2 x - 3) in *.
    assert (2 ^ Z.log2 x = 2 ^ s * 8) as E by (change 8 with (2 ^ 3); rewrite <- Z.pow_add_r by lia; f_equal; lia).
    rewrite Z.pow_succ_r in Hh by lia. rewrite E in *.
    assert (0 < 2 ^ s) by (apply Z.pow_pos_nonneg; lia).
    assert (8 <= x / 2 ^ s < 16) as Hm.
    { split; [apply Z.div_le_lower_bound; lia|apply Z.div_lt_upper_bound; lia]. }
    split; [done|]. replace (3 <=? Z.log2 x) with true by (symmetry; lia). fold s.
    rewrite Z.shiftr_div_pow2 by lia. rewrite !Z.shiftl_mul_pow2 by lia.
    change (2 ^ 3) with 8. rewrite u_small by lia.
    assert ((x / 2 ^ s) mod 8 = x / 2 ^ s - 8) as ->.
    { symmetry. apply (Z.mod_unique_pos _ _ 1); lia. }
    assert (Z.land ((Z.log2 x - (3 - 1)) * 8) (x / 2 ^ s - 8) = 0) as Hd.
    { apply Z.bits_inj'. intros i Hi. rewrite Z.land_spec, Z.bits_0.
      destruct (Z.ltb_spec i 3).
      - change 8 with (2 ^ 3) at 1. rewrite <- Z.shiftl_mul_pow2, Z.shiftl_spec by lia.
        by rewrite Z.testbit_neg_r by lia.
      - rewrite (testbit_above 3 (x / 2 ^ s - 8)), andb_false_r; [done|unfold in_u; lia|lia]. }
    rewrite <- Z.lxor_lor by done. rewrite <- Z.add_nocarry_lxor by done. lia.
Qed.

Lemma u32fp_decode_norm s m :
  0 <= s <= 28 -> 8 <= m < 16 -> u32fpDecode (8 * (s + 1) + (m - 8)) 3 = m * 2 ^ s.
Proof.
  intros Hs Hm. unfold u32fpDecode. cbv zeta.
  change (u32 (Z.shiftl 1 3) - 1) with (Z.ones 3). rewrite Z.land_ones by lia.
  rewrite Z.shiftr_div_pow2 by lia. change (2 ^ 3) with 8.
  destruct (div_eq (8 * (s + 1) + (m - 8)) 8 (s + 1) (m - 8)) as [-> ->]; [lia|lia|].
  replace (s + 1 =? 0) with false by (symmetry; lia). cbn [negb].
  assert (Z.lor (m - 8) 8 = m) as ->.
  { assert (m = 8 \/ m = 9 \/ m = 10 \/ m = 11 \/ m = 12 \/ m = 13 \/ m = 14 \/ m = 15) as Hc by lia.
    repeat destruct Hc as [-> | Hc]; [reflexivity..|]. by subst. }
  rewrite Z.shiftl_mul_pow2 by lia. replace (s + 1 - 1) with s by lia. apply u_small.
  assert (0 < 2 ^ s <= 2 ^ 28) by (split; [apply Z.pow_pos_nonneg; lia|apply Z.pow_le_mono_r; lia]).
  change (2 ^ 32) with (16 * 2 ^ 28). nia.
Qed.

(** ** Hash *)

Lemma xorshift_inj k x y : 0 < k -> 0 <= x -> 0 <= y -> xorshift k x = xorshift k y -> x = y.
Proof.
  intros Hk Hx Hy E. unfold xorshift in E.
  assert (Z.lxor x y = Z.shiftr (Z.lxor x y) k) as Ed.
  { rewrite Z.shiftr_lxor.
    assert (Z.lxor (Z.lxor x (Z.shiftr x k)) (Z.lxor y (Z.shiftr y k)) = 0) as E0
      by (rewrite E; apply Z.lxor_nilpotent).
    apply Z.lxor_eq. rewrite <- E0.
    apply Z.bits_inj'. intros i Hi. rewrite !Z.lxor_spec.
    destruct (Z.testbit x i), (Z.testbit y i), (Z.testbit (Z.shiftr x k) i), (Z.testbit (Z.shiftr y k) i); done. }
  apply Z.lxor_eq. assert (0 <= Z.lxor x y) as Hn by (apply Z.lxor_nonneg; tauto).
  rewrite Z.shiftr_div_pow2 in Ed by lia.
  assert (2 <= 2 ^ k) by (change 2 with (2 ^ 1) at 1; apply Z.pow_le_mono_r; lia).
  destruct (decide (Z.lxor x y = 0)) as [|Hne]; [done|].
  pose proof (Z.div_lt (Z.lxor x y) (2 ^ k)). lia.
Qed.

Lemma xorshift_range w k x : 0 <= w -> 0 <= k -> in_u w x -> in_u w (xorshift k x).
Proof.
  intros Hw Hk Hx. apply in_u_bits; [done|]. intros i Hi. unfold xorshift.
  rewrite Z.lxor_spec, Z.shiftr_spec by lia. by rewrite !(testbit_above w x) by (done || lia).
Qed.

(** Multiplication by a constant with an inverse modulo [2^64]. *)
Lemma mul_inj64 c d x y :
  u64 (c * d) = 1 -> in_u 64 x -> in_u 64 y -> u64 (x * c) = u64 (y * c) -> x = y.
Proof.
  intros Hcd Hx Hy E.
  assert (forall z, in_u 64 z -> u64 (u64 (z * c) * d) = z) as H.
  { intros z Hz. rewrite wrapU_mul_l, <- Z.mul_assoc, <- wrapU_mul_r, Hcd, Z.mul_1_r by lia.
    by apply wrapU_small. }
  rewrite <- (H x), <- (H y), E by done. done.
Qed.

Lemma add_inj64 c x y : in_u 64 x -> in_u 64 y -> u64 (x + c) = u64 (y + c) -> x = y.
Proof.
  intros Hx Hy E.
  assert (forall z, in_u 64 z -> u64 (u64 (z + c) + (- c)) = z) as H.
  { intros z Hz. rewrite wrapU_add_l by lia. replace (z + c + - c) with z by lia.
    by apply wrapU_small. }
  rewrite <- (H x), <- (H y), E by done. done.
Qed.

Lemma u64_range x : in_u 64 (u64 x).
Proof. by apply wrapU_range. Qed.

(** Undoing one xorshift and one multiplication. *)
Lemma scramble_inj c d k x y :
  u64 (c * d) = 1 -> 0 < k -> in_u 64 x -> in_u 64 y ->
  u64 (xorshift k x * c) = u64 (xorshift k y * c) -> x = y.
Proof.
  intros Hcd Hk Hx Hy E.
  apply (mul_inj64 c d) in E; [|done|apply xorshift_range; lia || done..].
  unfold in_u in *. by apply xorshift_inj in E; try lia.
Qed.

Lemma digest_inj a b c : in_u 64 a -> in_u 64 b -> digestHash (a, c) = digestHash (b, c) -> a = b.
Proof.
  intros Ha Hb. unfold digestHash. cbv zeta. intros E.
  apply (scramble_inj 0x995a187a14e7b445 0xfb9918abf9e53e8d) in E;
    [|reflexivity|lia|apply u64_range..].
  apply add_inj64 in E; [|apply u64_range..].
  by apply (scramble_inj 0xbac3bd562846de6b 0xd5216e0ca079de43) in E.
Qed.

Lemma hashMix_inj a b :
  in_u 64 (fst a) -> in_u 64 (snd a) -> in_u 64 (fst b) -> in_u 64 (snd b) ->
  hashMix a = hashMix b -> a = b.
Proof.
  destruct a as [a0 a1], b as [b0 b1]. cbn [fst snd]. intros Ha0 Ha1 Hb0 Hb1.
  unfold hashMix. cbv zeta. intros E. injection E as E0 E1.
  apply (scramble_inj 0x9de62bbc8cef3ce3 0x3b75378e63ffe8cb) in E0;
    [|reflexivity|lia|apply u64_range..].
  assert (forall x y, in_u 64 x -> in_u 64 y -> in_u 64 (Z.lxor x y)) as Hx.
  { intros x y Hx Hy. apply in_u_bits; [lia|]. intros i Hi.
    by rewrite Z.lxor_spec, !(testbit_above 64) by done. }
  apply (scramble_inj 0x485cd6311b599e79 0x93220724b166bc9) in E1;
    [|reflexivity|lia|apply Hx; try done; apply u64_range..].
  rewrite E0 in E1.
  assert (a1 = b1) as ->.
  { apply (f_equal (fun z => Z.lxor z (u64 (b0 + b1)))) in E1.
    by rewrite !Z.lxor_assoc, Z.lxor_nilpotent, !Z.lxor_0_r in E1. }
  by apply add_inj64 in E0; subst.
Qed.

Definition bytes_ok (b : list Z) : Prop := Forall (in_u 8) b.

Lemma le64_step b rest :
  in_u 8 b -> 0 <= le64 rest -> le64 (b :: rest) = b + 256 * le64 rest.
Proof.
  intros Hb Hr. cbn [le64].
  assert (Z.land b (Z.shiftl (le64 rest) 8) = 0) as Hd.
  { apply Z.bits_inj'. intros i Hi. rewrite Z.land_spec, Z.bits_0, Z.shiftl_spec by lia.
    destruct (Z.ltb_spec i 8).
    - by rewrite (Z.testbit_neg_r _ (i - 8)), andb_false_r by lia.
    - by rewrite (testbit_above 8 b) by done. }
  rewrite <- Z.lxor_lor, <- Z.add_nocarry_lxor by done.
  rewrite Z.shiftl_mul_pow2 by lia. change (2 ^ 8) with 256. lia.
Qed.

Lemma le64_range b : bytes_ok b -> 0 <= le64 b < 256 ^ Z.of_nat (length b).
Proof.
  induction 1 as [|x b Hx Hb IH]; [cbn; lia|]. rewrite le64_step by (done || lia).
  cbn [length]. rewrite Nat2Z.inj_succ, Z.pow_succ_r by lia. unfold in_u in Hx.
  change (2 ^ 8) with 256 in Hx. lia.
Qed.

Lemma le64_inj b1 b2 :
  bytes_ok b1 -> bytes_ok b2 -> length b1 = length b2 -> le64 b1 = le64 b2 -> b1 = b2.
Proof.
  intros H1. revert b2. induction H1 as [|x b1 Hx Hb IH]; intros b2 H2 Hl E.
  - by destruct b2.
  - destruct b2 as [|y b2]; [done|]. inversion H2 as [|? ? Hy Hb2]; subst.
    pose proof (le64_range b1 Hb). pose proof (le64_range b2 Hb2).
    rewrite !le64_step in E by (done || lia). unfold in_u in *. change (2 ^ 8) with 256 in *.
    assert (x = y) as -> by lia. f_equal. apply IH; [done|cbn in Hl; lia|lia].
Qed.

Lemma le64_u64 b : bytes_ok b -> (length b <= 8)%nat -> in_u 64 (le64 b).
Proof.
  intros Hb Hl. pose proof (le64_range b Hb). unfold in_u.
  pose proof (Z.pow_le_mono_r 256 (Z.of_nat (length b)) 8). change (256 ^ 8) with (2 ^ 64) in *. lia.
Qed.

(** A string of at most eight bytes is one chunk. *)
Lemma eatHash_chunk a0 a1 b :
  (0 < length b <= 8)%nat ->
  eatHash (a0, a1) b =
  let '(m0, m1) := hashMix (Z.lxor a0 (Z.of_nat (length b)), a1) in (u64 (m0 + le64 b), m1).
Proof.
  intros Hl. unfold eatHash. destruct b as [|x b]; [cbn in Hl; lia|].
  set (n := Z.of_nat (length (x :: b))). cbn [length eatHash_loop].
  destruct (hashMix (Z.lxor a0 n, a1)) as [m0 m1].
  rewrite take_ge, drop_ge by (cbn [length] in *; lia). by destruct (length b).
Qed.

Lemma eatHash_chunk_inj acc b1 b2 :
  bytes_ok b1 -> bytes_ok b2 -> length b1 = length b2 -> (length b1 <= 8)%nat ->
  digestHash (eatHash acc b1) = digestHash (eatHash acc b2) -> b1 = b2.
Proof.
  intros H1 H2 Hl Hn. destruct acc as [a0 a1].
  destruct (decide (length b1 = 0)%nat) as [E0|E0].
  { intros _. destruct b1, b2; cbn in *; try lia; done. }
  rewrite !eatHash_chunk by lia. rewrite <- Hl.
  destruct (hashMix _) as [m0 m1]. intros E. apply digest_inj in E; [|apply u64_range..].
  rewrite (Z.add_comm m0), (Z.add_comm m0 (le64 b2)) in E.
  apply add_inj64 in E; [|apply le64_u64; done || lia..]. by apply le64_inj.
Qed.

Lemma bytes64_ok x : bytes_ok (bytes64 x).
Proof.
  apply Forall_forall. intros b Hb. apply list_elem_of_fmap in Hb as (i & -> & _).
  unfold byteAt. change 255 with (Z.ones 8). rewrite Z.land_ones by lia.
  apply (wrapU_range 8). lia.
Qed.

Lemma length_bytes64 x : length (bytes64 x) = 8%nat.
Proof. unfold bytes64. by rewrite length_map. Qed.

Lemma bytes64_inj x y : in_u 64 x -> in_u 64 y -> bytes64 x = bytes64 y -> x = y.
Proof.
  intros Hx Hy E. apply Z.bits_inj'. intros i Hi.
  destruct (Z.ltb_spec i 64) as [H|H]; [|by rewrite !(testbit_above 64) by done].
  pose proof (Z.div_mod i 8). pose proof (Z.mod_pos_bound i 8).
  assert (byteAt x (i / 8) = byteAt y (i / 8)) as Eb.
  { apply (f_equal (fun l => l !! Z.to_nat (i / 8))) in E. unfold bytes64 in E.
    rewrite !list_lookup_fmap, !lookup_seq_lt in E by lia. cbn in E.
    rewrite Z2Nat.id in E by lia. by injection E. }
  apply (f_equal (fun z => Z.testbit z (i mod 8))) in Eb.
  rewrite !testbit_byteAt in Eb by lia. replace (i mod 8 <? 8) with true in Eb by (symmetry; lia).
  cbn [andb] in Eb. by replace (8 * (i / 8) + i mod 8) with i in Eb by lia.
Qed.

(** ** Alignment *)

Lemma testbit_minus_pow2 w k i :
  0 <= k <= w -> 0 <= i -> Z.testbit (wrapU w (0 - 2 ^ k)) i = (i <? w) && (k <=? i).
Proof.
  intros Hk Hi. rewrite testbit_wrapU by lia. f_equal.
  replace (0 - 2 ^ k) with (Z.lnot (Z.ones k)) by (unfold Z.lnot; rewrite Z.ones_equiv; lia).
  rewrite Z.lnot_spec, Z.testbit_ones_nonneg by lia.
  by rewrite Z.leb_antisym.
Qed.

Lemma land_align w k x :
  0 <= k <= w -> in_u w x -> Z.land x (wrapU w (0 - 2 ^ k)) = x - x mod 2 ^ k.
Proof.
  intros Hk Hx. assert (0 < 2 ^ k) by (apply Z.pow_pos_nonneg; lia).
  replace (x - x mod 2 ^ k) with (2 ^ k * (x / 2 ^ k)) by (pose proof (Z.div_mod x (2 ^ k)); lia).
  rewrite Z.mul_comm, <- Z.shiftl_mul_pow2, <- Z.shiftr_div_pow2 by lia.
  apply Z.bits_inj'. intros i Hi.
  rewrite Z.land_spec, testbit_minus_pow2, Z.shiftl_spec by lia.
  destruct (Z.leb_spec k i).
  - rewrite Z.shiftr_spec by lia. replace (i - k + k) with i by lia.
    destruct (Z.ltb_spec i w); [by rewrite andb_true_r|]. by rewrite (testbit_above w x) by done.
  - by rewrite andb_false_r, andb_false_r, Z.testbit_neg_r by lia.
Qed.

Lemma pack32_eq lo hi : in_u 32 lo -> 0 <= hi -> pack32 lo hi = lo + 2 ^ 32 * hi.
Proof.
  intros Hl Hh. unfold pack32.
  assert (Z.land lo (Z.shiftl hi 32) = 0) as Hd.
  { apply Z.bits_inj'. intros i Hi. rewrite Z.land_spec, Z.bits_0, Z.shiftl_spec by lia.
    destruct (Z.ltb_spec i 32).
    - by rewrite (Z.testbit_neg_r _ (i - 32)), andb_false_r by lia.
    - by rewrite (testbit_above 32 lo) by done. }
  rewrite <- Z.lxor_lor, <- Z.add_nocarry_lxor by done. rewrite Z.shiftl_mul_pow2 by lia. lia.
Qed.

Lemma lo32_eq x : lo32 x = x mod 2 ^ 32.
Proof. unfold lo32. change (2 ^ 32 - 1) with (Z.ones 32). by rewrite Z.land_ones. Qed.

Lemma hi32_eq x : hi32 x = x / 2 ^ 32.
Proof. unfold hi32. by rewrite Z.shiftr_div_pow2. Qed.

Lemma hi32_pack lo hi : in_u 32 lo -> 0 <= hi -> hi32 (pack32 lo hi) = hi /\ lo32 (pack32 lo hi) = lo.
Proof.
  intros Hl Hh. rewrite hi32_eq, lo32_eq, pack32_eq by done. unfold in_u in Hl.
  apply div_eq; lia.
Qed.

(** ** Properties *)

(** Division by reciprocal is division: for every 32-bit dividend and
    non-zero divisor, [idivmodFast32] with the reciprocal of [idivRcp32]
    returns the quotient and the remainder (the divisor 1, whose reciprocal is
    0, included); the same for 64 bits, where however [idivFast64] returns the
    quotient in 32 bits and so loses its upper half. *)
Theorem idivmodFast_correct :
  (forall x y, in_u 32 x -> 1 <= y < 2 ^ 32 -> idivmodFast32 x y (idivRcp32 y) = (x / y, x mod y))
  /\ (forall x y, in_u 64 x -> 1 <= y < 2 ^ 64 -> idivmodFast64 x y (idivRcp64 y) = (x / y, x mod y))
  /\ (forall x y, in_u 64 x -> 1 <= y < 2 ^ 64 -> idivFast64 x y (idivRcp64 y) = (x / y) mod 2 ^ 32).
Proof.
  split; [exact idivmodFast32_run|]. split; [exact idivmodFast64_run|].
  intros x y Hx Hy. unfold idivFast64. by rewrite idivmodFast64_run.
Qed.

(** The reciprocal of a product computed without division is the
    reciprocal of the product, as long as the product is at most half the word;
    beyond that bound it can be 0, the code for the divisor 1 (three times
    1431655765, for instance), and the division built on it is then wrong. *)
Theorem imulRcp_correct_up_to_half :
  (forall x y, 1 <= x -> 1 <= y -> x * y <= 2 ^ 31 ->
     imulRcp32 x (idivRcp32 x) y (idivRcp32 y) = idivRcp32 (x * y))
  /\ (forall x y, 1 <= x -> 1 <= y -> x * y <= 2 ^ 63 ->
     imulRcp64 x (idivRcp64 x) y (idivRcp64 y) = idivRcp64 (x * y))
  /\ (let x := 3 in let y := 1431655765 in
      imulRcp32 x (idivRcp32 x) y (idivRcp32 y) = 0 /\ idivRcp32 (x * y) = 1
      /\ idivFast32 4294967295 (x * y) 0 = 4294967295).
Proof.
  split; [exact imulRcp32_run|]. split; [exact imulRcp64_run|]. vm_compute. done.
Qed.

(** [popFirstOneBit] takes the bits of a mask in increasing order: on a
    non-zero mask it returns the index of the lowest set bit and clears that bit
    and no other; [firstOneBit] is -1 exactly on the empty mask. *)
Theorem popFirstOneBit_pops_lowest w x :
  0 < w <= 64 -> in_u w x ->
  (firstOneBit w x = -1 <-> x = 0)
  /\ (x <> 0 -> let '(i, x') := popFirstOneBit w x in
        lowest_bit x i /\ in_u w x'
        /\ forall j, 0 <= j -> Z.testbit x' j = negb (j =? i) && Z.testbit x j).
Proof.
  intros Hw Hx. pose proof (in_builtin w x ltac:(lia) Hx) as Hb.
  pose proof (builtinWidth_le w ltac:(lia)) as Hbw.
  pose proof (ffs_from_spec (Z.to_nat (builtinWidth w)) 0 x ltac:(lia)) as Hf.
  unfold popFirstOneBit, firstOneBit, ffs.
  destruct (ffs_from _ 0 x) as [|p|p]; [|clear Hb|destruct Hf; lia].
  - assert (x = 0) as ->; [|done]. apply Z.bits_inj'. intros i Hi. rewrite Z.bits_0.
    destruct (Z.ltb_spec i (builtinWidth w)); [apply Hf; lia|].
    by apply (testbit_above (builtinWidth w)).
  - destruct Hf as (H1 & H2 & H3).
    split; [split; [lia|intros ->; by rewrite Z.bits_0 in H2]|]. intros Hne.
    assert (lowest_bit x (Z.pos p - 1)) as Hl.
    { split; [lia|]. split; [done|]. intros j Hj. apply H3. lia. }
    unfold in_u in Hx. rewrite (u_small w (x - 1)) by lia.
    split; [done|]. split; [|intros j Hj; by apply clear_lowest].
    apply in_u_bits; [lia|]. intros i Hi. rewrite Z.land_spec.
    by rewrite (testbit_above w x) by done.
Qed.

Lemma popFirstOneBit_pops_lowest_witness :
  (firstOneBit 32 40 = -1 <-> 40 = 0)
  /\ (40 <> 0 -> let '(i, x') := popFirstOneBit 32 40 in
        lowest_bit 40 i /\ in_u 32 x'
        /\ forall j, 0 <= j -> Z.testbit x' j = negb (j =? i) && Z.testbit 40 j).
Proof. apply (popFirstOneBit_pops_lowest 32 40); unfold in_u; lia. Defined.

(** [log2Down] and [log2Up] are the floor and the ceiling of the binary
    logarithm, and [pow2Down], [pow2Up] the powers of two around their argument
    (the upper one as long as it fits the type). *)
Theorem log2_pow2_correct w x :
  0 < w <= 64 -> 0 < x < 2 ^ w ->
  log2Down w x = Z.log2 x /\ log2Up w x = Z.log2_up x
  /\ (exists p, pow2Down w x = Some p /\ p <= x < 2 * p)
  /\ (x <= 2 ^ (w - 1) -> pow2Up w x = 2 ^ Z.log2_up x /\ x <= pow2Up w x < 2 * x).
Proof.
  intros Hw Hx. rewrite log2Down_run, log2Up_run by done.
  split; [done|]. split; [done|]. split.
  - unfold pow2Down. rewrite log2Down_run by done.
    pose proof (Z.log2_nonneg x). replace (Z.log2 x <? 0) with false by (symmetry; lia).
    pose proof (Z.log2_spec x ltac:(lia)) as [Hl Hh]. rewrite Z.pow_succ_r in Hh by lia.
    rewrite Z.shiftl_mul_pow2, Z.mul_1_l by lia. rewrite u_small by lia.
    exists (2 ^ Z.log2 x). split; [done|lia].
  - intros Hhalf. unfold pow2Up. rewrite log2Up_run by done.
    rewrite Z.shiftl_mul_pow2, Z.mul_1_l by apply Z.log2_up_nonneg.
    pose proof (Z.log2_up_nonneg x).
    assert (Z.log2_up x <= w - 1) by (apply Z.log2_up_le_pow2; lia).
    pose proof (Z.pow_lt_mono_r 2 (Z.log2_up x) w ltac:(lia) ltac:(lia) ltac:(lia)).
    rewrite u_small by lia. split; [done|].
    destruct (decide (x = 1)) as [->|]; [cbn; lia|].
    pose proof (Z.log2_up_spec x ltac:(lia)) as [Hl Hh].
    pose proof (Z.log2_up_pos x ltac:(lia)).
    assert (2 ^ Z.log2_up x = 2 * 2 ^ Z.pred (Z.log2_up x))
      by (rewrite <- Z.pow_succ_r by lia; f_equal; lia). lia.
Qed.

Lemma log2_pow2_correct_witness :
  log2Down 32 100 = Z.log2 100 /\ log2Up 32 100 = Z.log2_up 100
  /\ (exists p, pow2Down 32 100 = Some p /\ p <= 100 < 2 * p)
  /\ (100 <= 2 ^ (32 - 1) -> pow2Up 32 100 = 2 ^ Z.log2_up 100 /\ 100 <= pow2Up 32 100 < 2 * 100).
Proof. apply (log2_pow2_correct 32 100); lia. Defined.

(** [reverseBits] reverses the bottom bits: for the unsigned types of 16, 32
    and 64 bits, bit [i] of the result is bit [nBits - 1 - i] of the argument
    for [i < nBits], and the bits above are 0. *)
Theorem reverseBits_correct n x nBits i :
  n = 2%nat \/ n = 4%nat \/ n = 8%nat ->
  0 <= nBits <= 8 * Z.of_nat n -> 0 <= i ->
  Z.testbit (reverseBits (8 * Z.of_nat n) x nBits) i = (i <? nBits) && Z.testbit x (nBits - 1 - i).
Proof.
  intros Hn Hb Hi. set (w := 8 * Z.of_nat n).
  assert (reverseSubBits w w x = swapStage w 1 (swapStage w 2 (swapStage w 4 (bswap n x)))) as E.
  { unfold w. destruct Hn as [-> | [-> | ->]]; reflexivity. }
  assert (reversal_ok n = true) as Hok by (destruct Hn as [-> | [-> | ->]]; vm_compute; done).
  unfold reverseBits. rewrite E. cbv zeta. fold w in Hb.
  destruct (Z.eqb_spec nBits 0) as [->|Hne].
  { rewrite Z.bits_0. by replace (i <? 0) with false by (symmetry; lia). }
  rewrite Z.shiftr_spec by done. destruct (Z.ltb_spec i nBits) as [H|H]; cbn [andb].
  - etransitivity; [apply (reverse_bytes n x (i + (w - nBits)) ltac:(lia) Hok ltac:(lia))|].
    f_equal. fold w. lia.
  - apply (testbit_above w); [|lia].
    assert (forall k, k = 1 \/ k = 2 \/ k = 4 -> in_u w (swapMask w k)) as Hm.
    { intros k Hk. unfold w, in_u. destruct Hn as [-> | [-> | ->]];
        repeat destruct Hk as [-> | Hk]; subst; vm_compute; (split; [discriminate|reflexivity]). }
    repeat (apply swapStage_range; [unfold w; lia|lia| |apply Hm; auto]). apply bswap_range.
Qed.

Lemma reverseBits_correct_witness :
  reverseBits 32 6 3 = 3 /\ Z.testbit (reverseBits 32 6 3) 0 = (0 <? 3) && Z.testbit 6 (3 - 1 - 0).
Proof. split; [vm_compute; reflexivity|]. apply (reverseBits_correct 4 6 3 0); lia. Defined.

(** The 8-bit code of a 32-bit size: the code fits a byte, decoding it gives
    a lower bound that is exact below 16 and off by less than one eighth
    otherwise, and every byte the encoder can produce is decoded and encoded
    back to itself.  With another number of mantissa bits than 3 the decoder,
    which always restores bit 3, does not give a lower bound. *)
Theorem u32fp8_roundtrip :
  (forall x, in_u 32 x ->
     in_u 8 (u32fpEncode x 3) /\ u32fp8Decode (u32fp8Encode x) <= x
     /\ 8 * (x - u32fp8Decode (u32fp8Encode x)) < Z.max 8 x
     /\ (x < 16 -> u32fp8Decode (u32fp8Encode x) = x))
  /\ (forall c, 0 <= c <= u32fp8Encode (2 ^ 32 - 1) -> u32fp8Encode (u32fp8Decode c) = c)
  /\ u32fp8Decode (u32fp8Encode (2 ^ 32 - 1)) = u32fp8MaxValue
  /\ u32fpDecode (u32fpEncode 20 2) 2 = 36.
Proof.
  split; [|split; [|split; vm_compute; reflexivity]].
  - intros x Hx. unfold u32fp8Decode, u32fp8Encode.
    destruct (u32fp_encode_cases x Hx) as [[H E] | (H & s & m & Hs & Hsr & Hm & Hmr & E)]; rewrite E.
    + unfold in_u in Hx. rewrite (u_small 8) by lia.
      assert (u32fpDecode x 3 = x) as ->.
      { assert (x = 0 \/ x = 1 \/ x = 2 \/ x = 3 \/ x = 4 \/ x = 5 \/ x = 6 \/ x = 7) as Hc by lia.
        repeat destruct Hc as [-> | Hc]; [reflexivity..|]. by subst. }
      unfold in_u. lia.
    + rewrite (u_small 8) by lia. rewrite u32fp_decode_norm by lia.
      pose proof (Z.div_mod x (2 ^ s)). pose proof (Z.pow_pos_nonneg 2 s ltac:(lia) ltac:(lia)).
      pose proof (Z.mod_pos_bound x (2 ^ s)). rewrite <- Hm in *. unfold in_u.
      split; [lia|]. split; [nia|]. split; [nia|].
      intros Hx16. assert (s = 0) as ->; [|cbn in *; lia].
      assert (Z.log2 x = 3); [|lia]. apply Z.log2_unique; lia.
  - intros c Hc.
    assert (forall c, 0 <= c < Z.of_nat 240 -> (u32fp8Encode (u32fp8Decode c) =? c) = true) as Hall.
    { apply forall_index. vm_compute. reflexivity. }
    apply Z.eqb_eq, Hall. change (u32fp8Encode (2 ^ 32 - 1)) with 239 in Hc. lia.
Qed.

(** No collisions within one chunk: two byte strings of the same length of at
    most eight bytes with the same hash are equal, and [hashCombine] of a
    fixed base is injective in the combined value. *)
Theorem hash_injective_on_chunks :
  (forall b1 b2, bytes_ok b1 -> bytes_ok b2 -> length b1 = length b2 -> (length b1 <= 8)%nat ->
     getHash b1 = getHash b2 -> b1 = b2)
  /\ (forall base v1 v2, in_u 64 v1 -> in_u 64 v2 ->
     hashCombine base v1 = hashCombine base v2 -> v1 = v2).
Proof.
  split.
  - intros b1 b2. unfold getHash. apply eatHash_chunk_inj.
  - intros base v1 v2 H1 H2. unfold hashCombine. intros E. apply bytes64_inj; [done|done|].
    apply eatHash_chunk_inj in E; [done|apply bytes64_ok..| |]; by rewrite !length_bytes64.
Qed.

(** Alignment to a power of two: when the sum does not overflow, [alignUp] is
    the least multiple at or above its argument and agrees with [roundUp];
    [alignDown] is the greatest multiple at or below it; [isPow2] accepts 0 and
    exactly the powers of two. *)
Theorem align_correct w k x :
  0 < w -> 0 <= k < w -> in_u w x ->
  alignDown w x (2 ^ k) = 2 ^ k * (x / 2 ^ k)
  /\ (x + 2 ^ k - 1 < 2 ^ w ->
      (2 ^ k | alignUp w x (2 ^ k)) /\ x <= alignUp w x (2 ^ k) < x + 2 ^ k
      /\ alignUp w x (2 ^ k) = roundUp w x (2 ^ k))
  /\ (isPow2 w x = true <-> x = 0 \/ x = 2 ^ Z.log2 x).
Proof.
  intros Hw Hk Hx. assert (0 < 2 ^ k) by (apply Z.pow_pos_nonneg; lia).
  unfold alignDown. rewrite land_align by (done || lia).
  pose proof (Z.div_mod x (2 ^ k) ltac:(lia)). pose proof (Z.mod_pos_bound x (2 ^ k) ltac:(lia)).
  split; [lia|]. unfold in_u in Hx. split.
  - intros Ho. unfold alignUp, roundUp. rewrite (u_small w (x + 2 ^ k - 1)) by lia.
    rewrite land_align by (unfold in_u; lia).
    pose proof (Z.div_mod (x + 2 ^ k - 1) (2 ^ k) ltac:(lia)).
    pose proof (Z.mod_pos_bound (x + 2 ^ k - 1) (2 ^ k) ltac:(lia)).
    split; [exists ((x + 2 ^ k - 1) / 2 ^ k); lia|]. split; [lia|].
    symmetry. apply u_small. lia.
  - destruct (decide (x = 0)) as [->|]; [split; [auto|by intros _]|].
    rewrite isPow2_spec by lia. split; [auto|]. intros [?|?]; [lia|done].
Qed.

Lemma align_correct_witness :
  alignDown 64 1000 (2 ^ 7) = 2 ^ 7 * (1000 / 2 ^ 7)
  /\ (1000 + 2 ^ 7 - 1 < 2 ^ 64 ->
      (2 ^ 7 | alignUp 64 1000 (2 ^ 7)) /\ 1000 <= alignUp 64 1000 (2 ^ 7) < 1000 + 2 ^ 7
      /\ alignUp 64 1000 (2 ^ 7) = roundUp 64 1000 (2 ^ 7))
  /\ (isPow2 64 1000 = true <-> 1000 = 0 \/ 1000 = 2 ^ Z.log2 1000).
Proof. apply (align_correct 64 7 1000); unfold in_u; lia. Defined.

(** Addresses in units of 4 GiB: [add4G] adds to the upper half modulo its
    width and keeps the lower half; [incWrap4G] and [decWrap4G] keep a pointer
    whose upper half lies in [[lo4G, hi4G)] inside that window, moving it
    cyclically, and undo each other. *)
Theorem wrap4G_cyclic ptr delta lo hi :
  in_u 64 ptr -> 0 <= lo -> lo <= hi32 ptr < hi -> 0 <= delta <= hi - lo ->
  hi + delta < 2 ^ 32 -> delta <= lo ->
  add4G ptr delta = u64 (ptr + 2 ^ 32 * delta)
  /\ lo <= hi32 (incWrap4G ptr delta lo hi) < hi
  /\ lo <= hi32 (decWrap4G ptr delta lo hi) < hi
  /\ decWrap4G (incWrap4G ptr delta lo hi) delta lo hi = ptr.
Proof.
  intros Hp Hl0 Hh Hd Ho Hdl. unfold add4G, incWrap4G, decWrap4G. cbv zeta.
  assert (in_u 32 (lo32 ptr)) as Hlo by (rewrite lo32_eq; apply (wrapU_range 32); lia).
  assert (ptr = lo32 ptr + 2 ^ 32 * hi32 ptr) as Ep.
  { rewrite lo32_eq, hi32_eq. pose proof (Z.div_mod ptr (2 ^ 32)). lia. }
  set (l := lo32 ptr) in *. set (h := hi32 ptr) in *.
  rewrite (u_small 32 (h + delta)) by lia. rewrite (u_small 32 (hi - lo)) by lia.
  rewrite (u_small 32 (h - delta)) by lia.
  split.
  { rewrite pack32_eq by (done || lia). unfold in_u in Hlo.
    rewrite (u_small 64) by (change (2 ^ 64) with (2 ^ 32 * 2 ^ 32); lia). lia. }
  assert (forall z, 0 <= z -> hi32 (pack32 l z) = z /\ lo32 (pack32 l z) = l) as Hz
    by (intros; by apply hi32_pack).
  assert (0 <= (if hi <=? h + delta then u32 (h + delta - (hi - lo)) else h + delta)
          /\ (if hi <=? h + delta then u32 (h + delta - (hi - lo)) else h + delta)
             = if hi <=? h + delta then h + delta - (hi - lo) else h + delta) as [H0 ->].
  { destruct (Z.leb_spec hi (h + delta)); [rewrite u_small by lia|]; lia. }
  set (u := if hi <=? h + delta then h + delta - (hi - lo) else h + delta) in *.
  assert (lo <= u < hi) as Hu by (unfold u; destruct (Z.leb_spec hi (h + delta)); lia).
  destruct (Hz u ltac:(lia)) as [-> ->].
  split; [done|]. split.
  - destruct (Z.ltb_spec (h - delta) lo).
    + rewrite u_small by lia. rewrite (proj1 (Hz (h - delta + (hi - lo)) ltac:(lia))). lia.
    + rewrite (proj1 (Hz (h - delta) ltac:(lia))). lia.
  - rewrite (u_small 32 (u - delta)) by lia. rewrite Ep.
    rewrite <- pack32_eq by (done || lia). f_equal. unfold u.
    destruct (Z.leb_spec hi (h + delta)).
    + destruct (Z.ltb_spec (h + delta - (hi - lo) - delta) lo); [rewrite u_small by lia|]; lia.
    + destruct (Z.ltb_spec (h + delta - delta) lo); [rewrite u_small by lia|]; lia.
Qed.

Lemma wrap4G_cyclic_witness :
  add4G (2 ^ 32 * 9 + 5) 3 = u64 (2 ^ 32 * 9 + 5 + 2 ^ 32 * 3)
  /\ 4 <= hi32 (incWrap4G (2 ^ 32 * 9 + 5) 3 4 10) < 10
  /\ 4 <= hi32 (decWrap4G (2 ^ 32 * 9 + 5) 3 4 10) < 10
  /\ decWrap4G (incWrap4G (2 ^ 32 * 9 + 5) 3 4 10) 3 4 10 = 2 ^ 32 * 9 + 5.
Proof.
  apply (wrap4G_cyclic (2 ^ 32 * 9 + 5) 3 4 10); unfold in_u; try lia.
  change (hi32 (2 ^ 32 * 9 + 5)) with 9. lia.
Defined.
