(* ===== verification/NetTypes.v ===== *)
(** * Transport: data

    The structures of [net/transport/net_ib/common.h] and [p2p_resiliency.h]
    the data path works on.  A pointer into an array of the communicator is the
    index of the element ([None] for NULL): requests index [reqs], queue pairs
    index [qps], completion records index [cmplsRecords].  The members of the
    union of [ncclIbRequest] are separate fields.  Provider handles are the
    identities of the objects they belong to ([QpRef], [CqRef]). *)

From S2P Require Import Prelude.

Open Scope Z_scope.
Open Scope nccl_scope.

(** ** Limits *)

Definition NCCL_NET_MAX_REQUESTS : Z := 32.
Definition NCCL_NET_IB_MAX_RECVS : Z := 8.
Definition NET_IB_MAX_REQUESTS : Z := NCCL_NET_MAX_REQUESTS * NCCL_NET_IB_MAX_RECVS.
Definition NCCL_IB_MAX_DEVS_PER_NIC : Z := 8.
Definition NCCL_IB_MAX_QPS : Z := 128.
Definition IB_WRITE_CHUNK_ALIGNMENT : Z := 128.
Definition NCCL_IB_FLUSH_REQ_WR_ID_OFFSET : Z := 0x1000.
Definition NCCL_IB_RECV_WR_ID_DUMMY : Z := 2 ^ 64 - 1.
Definition NCCL_IB_SPEED_UPDATE_WR_ID : Z := 2 ^ 64 - 2.

(** ** Enumerations *)

(** [enum ncclIbRequestMatchingScheme]; the field that holds it is an [int]. *)
Definition BY_INDEX : Z := 0.
Definition BY_ID : Z := 1.

(** [NCCL_NET_IB_REQ_UNUSED] .. [NCCL_NET_IB_REQ_GIN_IGET]. *)
Inductive reqType : Type :=
  | REQ_UNUSED
  | REQ_SEND
  | REQ_RECV
  | REQ_FLUSH
  | REQ_GIN_IPUT
  | REQ_GIN_IGET.

Inductive ncclIbResiliencyDevState : Type :=
  | ncclIbResiliencyDevStateOk
  | ncclIbResiliencyDevStateError
  | ncclIbResiliencyDevStateRecoveryInProgress
  | ncclIbResiliencyDevStateRecoveryFailed
  | ncclIbResiliencyDevStateRecovered
  | ncclIbResiliencyDevStateErrorPermanent.

Inductive ncclIbResiliencyRequestSendState : Type :=
  | ncclIbResiliencyRequestStatePending
  | ncclIbResiliencyRequestStateProbePosted
  | ncclIbResiliencyRequestStateProbeCompleted.

(** Work-request opcodes, completion opcodes and statuses of the verbs API
    that the code distinguishes. *)
Inductive wrOpcode : Type := IBV_WR_RDMA_WRITE | IBV_WR_RDMA_WRITE_WITH_IMM | IBV_WR_RDMA_READ.

Inductive wcOpcode : Type :=
  | IBV_WC_SEND
  | IBV_WC_RECV
  | IBV_WC_RECV_RDMA_WITH_IMM
  | IBV_WC_RDMA_READ
  | IBV_WC_RDMA_WRITE
  | IBV_WC_OTHER.

Inductive wcStatus : Type :=
  | IBV_WC_SUCCESS
  | IBV_WC_WR_FLUSH_ERR
  | IBV_WC_RETRY_EXC_ERR
  | IBV_WC_OTHER_ERR.

#[export] Instance reqType_eq_dec : EqDecision reqType.
Proof. solve_decision. Defined.
#[export] Instance devState_eq_dec : EqDecision ncclIbResiliencyDevState.
Proof. solve_decision. Defined.
#[export] Instance sendState_eq_dec : EqDecision ncclIbResiliencyRequestSendState.
Proof. solve_decision. Defined.
#[export] Instance wrOpcode_eq_dec : EqDecision wrOpcode.
Proof. solve_decision. Defined.
#[export] Instance wcOpcode_eq_dec : EqDecision wcOpcode.
Proof. solve_decision. Defined.
#[export] Instance wcStatus_eq_dec : EqDecision wcStatus.
Proof. solve_decision. Defined.

(** ** Work requests and completions *)

Record Sge := mkSge { sge_addr : Z; sge_length : Z; sge_lkey : Z }.

(** [sg_list] is NULL ([None]) or points to one element. *)
Record SendWr := mkSendWr {
  wr_id : Z;
  wr_opcode : wrOpcode;
  wr_signaled : bool;
  wr_inline : bool;
  wr_sg : option Sge;
  wr_num_sge : Z;
  wr_remote_addr : Z;
  wr_rkey : Z;
  wr_imm : Z;
}.

Record Wc := mkWc {
  wc_wr_id : Z;
  wc_status : wcStatus;
  wc_opcode : wcOpcode;
  wc_imm : Z;
  wc_byte_len : Z;
  wc_qp_num : Z;
}.

(** ** Requests *)

Record ncclIbRequest := mkRequest {
  r_type : reqType;
  r_sock : bool;
  r_events : list Z;
  r_devBases : list bool;
  r_id : Z;
  r_nreqs : Z;
  send_size : Z;
  send_data : Z;
  send_lkeys : list Z;
  send_sentData : list bool;
  send_weights : list Z;
  recv_cmplsRecords : option Z;
  recv_aggSize : Z;
}.

Record ncclIbRequestCompletionRecord := mkCmplRecord {
  cr_sizes : list Z;
  cr_completions : list bool;
}.

Record ncclIbSendFifo := mkSendFifo {
  f_addr : Z;
  f_size : Z;
  f_rkeys : list Z;
  f_nreqs : Z;
  f_tag : Z;
  f_idx : Z;
}.

(** ** Queue pairs, devices *)

Record ncclIbQp := mkQp { qpn : Z; devIndex : Z; remDevIdx : Z; maxInlineData : Z }.

Record ncclIbDevInfo := mkDevInfo { rkey : Z; rem_currSpeed : Z; remSpeedBufRkey : Z }.

(** The process-wide [ncclIbDevs] entries: port speed and fatal-error count. *)
Record ncclIbDev := mkIbDev { currSpeed : Z; dev_fatalErrorCount : Z }.

Record ncclIbMrHandle := mkMrHandle { mr_lkeys : list Z; mr_rkeys : list Z }.

(** ** Resiliency *)

Record ncclIbResiliencyDev := mkResDev {
  rd_state : ncclIbResiliencyDevState;
  rd_nOutstandingProbes : Z;
  rd_probingResultLkey : Z;
}.

Record ncclIbResiliencyRequestSend := mkResReq {
  fr_state : ncclIbResiliencyRequestSendState;
  fr_request : option Z;
  fr_devIndex : Z;
  fr_time : Z;
  fr_failedAttempts : Z;
  fr_id : Z;
}.

Record ncclIbResiliencyRemoteCompletionRecordsInfo := mkRemCmpl { rc_addr : Z; rc_rkey : Z }.

(** [ncclIbResiliency], with the members [ncclIbResiliencySend] adds. *)
Record ncclIbResiliency := mkResiliency {
  recoveryEnabled : bool;
  res_devs : list ncclIbResiliencyDev;
  res_ndevs : Z;
  probingQps : list ncclIbQp;
  nProbingQps : Z;
  inProgress : bool;
  outstandingRequests : Z;
  nPortRecoveryQps : Z;
  outstandingRecovery : Z;
  failedRequests : list ncclIbResiliencyRequestSend;
  probingResults : list (list bool);
  probingResults_addr : Z;
  remCmplRecordsInfo : list ncclIbResiliencyRemoteCompletionRecordsInfo;
}.

(** ** Communicators *)

Record ncclIbNetCommBase := mkBase {
  ndevs : Z;
  vdevs : list Z;
  isSend : bool;
  reqs : list ncclIbRequest;
  qps : list ncclIbQp;
  activeQps : list (option Z);
  fifoHead : Z;
  nqps : Z;
  splitDataOnQps : Z;
  ready : Z;
  nRemDevs : Z;
  remOooRq : bool;
  localOooRq : bool;
  recvMatchingScheme : Z;
  nDataQps : Z;
  remDevs : list ncclIbDevInfo;
  fatalErrorCount : Z;
  resiliency : option ncclIbResiliency;
  speedChangeCounter : Z;
  totalSpeed : Z;
  weights : list Z;
  devSpeeds : list Z;
}.

(** [cd_ibDevN] is the entry of [ncclIbDevs]; [cd_sizesLkey] the key of the
    send side's completion-record shadow, [cd_ctsLkey] that of the receive
    side's CTS shadow, both fixed at connection time. *)
Record commDev := mkCommDev {
  cd_ibDevN : Z;
  cd_sizesLkey : Z;
  cd_ctsLkey : Z;
  cd_flushSge : Sge;
  cd_speedUpdateLkey : Z;
}.

Record ncclIbSendComm := mkSendComm {
  ctsFifo : list (list ncclIbSendFifo);
  sendReqs : list (list (option Z));
  sendReqsCnt : list Z;
  remCmpls_elems : list (list Z);
  remCmpls_elemsAddr : Z;
  remCmpls_addr : Z;
  remCmpls_rkeys : list Z;
  ar : Z;
  remoteSpeedBuf_counter : Z;
  remoteSpeedBuf_speedGbps : list Z;
  remoteSpeedCounter : Z;
}.

Record ncclIbRecvComm := mkRecvComm {
  recvReqs : list (option Z);
  remCts_elems : list (list ncclIbSendFifo);
  remCts_elemsAddr : Z;
  remCts_addr : Z;
  remCts_rkeys : list Z;
  remCts_inline : bool;
  cmplsRecords : list ncclIbRequestCompletionRecord;
  flushEnabled : Z;
  flushQpsCreated : bool;
  prepostReceiveWorkRequests : bool;
  ibRecvWorkRequest_wr_id : Z;
  remSpeedBufAddr : Z;
  speedUpdateBuf_addr : Z;
  speedUpdateBuf_counter : Z;
  speedUpdateBuf_speedGbps : list Z;
  lastSentSpeeds : list Z;
  lastSentCounter : Z;
  postedSpeedUpdate : bool;
}.

(** The base is embedded in a send or a receive communicator; the casts of the
    code are partial accesses to [tail]. *)
Inductive commTail : Type :=
  | SendTail (c : ncclIbSendComm)
  | RecvTail (c : ncclIbRecvComm).

(** ** Parameters and the provider *)

Record NetParams := mkNetParams {
  ncclParamIbEventBasedLb : bool;
  ncclParamIbEventBasedLbRemote : bool;
  ncclParamIbAsyncEvents : bool;
  ncclIbArThreshold : Z;
  ncclParamIbResiliencyPortFailoverMaxAttempts : Z;
  ncclParamIbResiliencyPortFailoverProbeDelay : Z;
}.

Inductive QpRef : Type := DataQp (i : Z) | FlushQp (dev : Z) | ProbingQp (i : Z).
Inductive CqRef : Type := DataCq (dev : Z) | FlushCq (dev : Z) | ProbingCq (dev : Z).

(** What happened between the communicator and the provider, oldest first. *)
Inductive Event : Type :=
  | Posted (qp : QpRef) (wrs : list SendWr)
  | PostedRecv (qp : QpRef) (id : Z)
  | Polled (cq : CqRef) (wcs : list Wc)
  | TookTime
  | CreatedFlushQp (dev : Z)
  | StartedRecovery (dev : Z).

(** The verbs provider and the clock: their answers are functions of everything
    that happened before, so any behaviour of the hardware is some [Env]. *)
Record Env := mkEnv {
  mrc_post_send : list Event -> QpRef -> list SendWr -> bool;
  mrc_post_recv : list Event -> QpRef -> Z -> bool;
  mrc_poll_cq : list Event -> CqRef -> Z -> option (list Wc);
  clockNano : list Event -> Z;
  createFlushQp_ok : list Event -> Z -> bool;
  recoveryContextInit_ok : list Event -> Z -> bool;
}.

(** One communicator with the process-wide variables it reads. *)
Record Net := mkNet {
  base : ncclIbNetCommBase;
  devs : list commDev;
  tail : commTail;
  ncclIbDevs : list ncclIbDev;
  ncclIbSpeedChangeCounter : Z;
  history : list Event;
}.

(** ** Field update *)

#[export] Instance eta_Sge : Eta Sge := fun r =>
  mkSge (sge_addr r) (sge_length r) (sge_lkey r).
#[export] Instance eta_SendWr : Eta SendWr := fun r =>
  mkSendWr (wr_id r) (wr_opcode r) (wr_signaled r) (wr_inline r) (wr_sg r) (wr_num_sge r) (wr_remote_addr r) (wr_rkey r) (wr_imm r).
#[export] Instance eta_Wc : Eta Wc := fun r =>
  mkWc (wc_wr_id r) (wc_status r) (wc_opcode r) (wc_imm r) (wc_byte_len r) (wc_qp_num r).
#[export] Instance eta_ncclIbRequest : Eta ncclIbRequest := fun r =>
  mkRequest (r_type r) (r_sock r) (r_events r) (r_devBases r) (r_id r) (r_nreqs r) (send_size r) (send_data r) (send_lkeys r) (send_sentData r) (send_weights r) (recv_cmplsRecords r) (recv_aggSize r).
#[export] Instance eta_ncclIbRequestCompletionRecord : Eta ncclIbRequestCompletionRecord := fun r =>
  mkCmplRecord (cr_sizes r) (cr_completions r).
#[export] Instance eta_ncclIbSendFifo : Eta ncclIbSendFifo := fun r =>
  mkSendFifo (f_addr r) (f_size r) (f_rkeys r) (f_nreqs r) (f_tag r) (f_idx r).
#[export] Instance eta_ncclIbQp : Eta ncclIbQp := fun r =>
  mkQp (qpn r) (devIndex r) (remDevIdx r) (maxInlineData r).
#[export] Instance eta_ncclIbDevInfo : Eta ncclIbDevInfo := fun r =>
  mkDevInfo (rkey r) (rem_currSpeed r) (remSpeedBufRkey r).
#[export] Instance eta_ncclIbDev : Eta ncclIbDev := fun r =>
  mkIbDev (currSpeed r) (dev_fatalErrorCount r).
#[export] Instance eta_ncclIbMrHandle : Eta ncclIbMrHandle := fun r =>
  mkMrHandle (mr_lkeys r) (mr_rkeys r).
#[export] Instance eta_ncclIbResiliencyDev : Eta ncclIbResiliencyDev := fun r =>
  mkResDev (rd_state r) (rd_nOutstandingProbes r) (rd_probingResultLkey r).
#[export] Instance eta_ncclIbResiliencyRequestSend : Eta ncclIbResiliencyRequestSend := fun r =>
  mkResReq (fr_state r) (fr_request r) (fr_devIndex r) (fr_time r) (fr_failedAttempts r) (fr_id r).
#[export] Instance eta_ncclIbResiliencyRemoteCompletionRecordsInfo : Eta ncclIbResiliencyRemoteCompletionRecordsInfo := fun r =>
  mkRemCmpl (rc_addr r) (rc_rkey r).
#[export] Instance eta_ncclIbResiliency : Eta ncclIbResiliency := fun r =>
  mkResiliency (recoveryEnabled r) (res_devs r) (res_ndevs r) (probingQps r) (nProbingQps r) (inProgress r) (outstandingRequests r) (nPortRecoveryQps r) (outstandingRecovery r) (failedRequests r) (probingResults r) (probingResults_addr r) (remCmplRecordsInfo r).
#[export] Instance eta_ncclIbNetCommBase : Eta ncclIbNetCommBase := fun r =>
  mkBase (ndevs r) (vdevs r) (isSend r) (reqs r) (qps r) (activeQps r) (fifoHead r) (nqps r) (splitDataOnQps r) (ready r) (nRemDevs r) (remOooRq r) (localOooRq r) (recvMatchingScheme r) (nDataQps r) (remDevs r) (fatalErrorCount r) (resiliency r) (speedChangeCounter r) (totalSpeed r) (weights r) (devSpeeds r).
#[export] Instance eta_commDev : Eta commDev := fun r =>
  mkCommDev (cd_ibDevN r) (cd_sizesLkey r) (cd_ctsLkey r) (cd_flushSge r) (cd_speedUpdateLkey r).
#[export] Instance eta_ncclIbSendComm : Eta ncclIbSendComm := fun r =>
  mkSendComm (ctsFifo r) (sendReqs r) (sendReqsCnt r) (remCmpls_elems r) (remCmpls_elemsAddr r) (remCmpls_addr r) (remCmpls_rkeys r) (ar r) (remoteSpeedBuf_counter r) (remoteSpeedBuf_speedGbps r) (remoteSpeedCounter r).
#[export] Instance eta_ncclIbRecvComm : Eta ncclIbRecvComm := fun r =>
  mkRecvComm (recvReqs r) (remCts_elems r) (remCts_elemsAddr r) (remCts_addr r) (remCts_rkeys r) (remCts_inline r) (cmplsRecords r) (flushEnabled r) (flushQpsCreated r) (prepostReceiveWorkRequests r) (ibRecvWorkRequest_wr_id r) (remSpeedBufAddr r) (speedUpdateBuf_addr r) (speedUpdateBuf_counter r) (speedUpdateBuf_speedGbps r) (lastSentSpeeds r) (lastSentCounter r) (postedSpeedUpdate r).
#[export] Instance eta_NetParams : Eta NetParams := fun r =>
  mkNetParams (ncclParamIbEventBasedLb r) (ncclParamIbEventBasedLbRemote r) (ncclParamIbAsyncEvents r) (ncclIbArThreshold r) (ncclParamIbResiliencyPortFailoverMaxAttempts r) (ncclParamIbResiliencyPortFailoverProbeDelay r).
#[export] Instance eta_Env : Eta Env := fun r =>
  mkEnv (mrc_post_send r) (mrc_post_recv r) (mrc_poll_cq r) (clockNano r) (createFlushQp_ok r) (recoveryContextInit_ok r).
#[export] Instance eta_Net : Eta Net := fun r =>
  mkNet (base r) (devs r) (tail r) (ncclIbDevs r) (ncclIbSpeedChangeCounter r) (history r).
