(* ===== verification/NetBase.v ===== *)
(** * Transport: communicator base

    The state monad of one communicator, the provider calls, and the inline
    functions of [common.h], [p2p.h] and the request allocation of [p2p.cc]. *)

From S2P Require Import Prelude NetTypes.

Open Scope Z_scope.
Open Scope nccl_scope.

(** The configuration and the hardware a communicator runs with. *)
Class Machine := mkMachine { prm : NetParams; env : Env }.

Abbreviation net := (comp Net).

(** ** Access *)

Definition readAt {A} (f : Net -> list A) (i : Z) : net A :=
  let* s := getS in of_option (zget (f s) i).

Definition modBase (f : ncclIbNetCommBase -> ncclIbNetCommBase) : net unit :=
  modify (fun s => s <| base := f (base s) |>).

Definition getReq (i : Z) : net ncclIbRequest := readAt (fun s => reqs (base s)) i.

Definition setReq (i : Z) (r : ncclIbRequest) : net unit :=
  let* s := getS in
  let* l := of_option (zset (reqs (base s)) i r) in
  modBase (fun b => b <| reqs := l |>).

Definition modReq (i : Z) (f : ncclIbRequest -> option ncclIbRequest) : net unit :=
  let* r := getReq i in
  let* r' := of_option (f r) in
  setReq i r'.

(** A cast to [ncclIbSendComm] or [ncclIbRecvComm] and a dereference. *)
Definition getSend : net ncclIbSendComm :=
  let* s := getS in
  match tail s with SendTail c => ret c | RecvTail _ => fault end.

Definition getRecv : net ncclIbRecvComm :=
  let* s := getS in
  match tail s with RecvTail c => ret c | SendTail _ => fault end.

Definition modSend (f : ncclIbSendComm -> option ncclIbSendComm) : net unit :=
  let* c := getSend in
  let* c' := of_option (f c) in
  modify (fun s => s <| tail := SendTail c' |>).

Definition modRecv (f : ncclIbRecvComm -> option ncclIbRecvComm) : net unit :=
  let* c := getRecv in
  let* c' := of_option (f c) in
  modify (fun s => s <| tail := RecvTail c' |>).

(** [resCtx] of the code: the communicator's resiliency context. *)
Definition getRes : net ncclIbResiliency :=
  let* s := getS in of_option (resiliency (base s)).

Definition modRes (f : ncclIbResiliency -> option ncclIbResiliency) : net unit :=
  let* r := getRes in
  let* r' := of_option (f r) in
  modBase (fun b => b <| resiliency := Some r' |>).

Definition hasResiliency : net bool :=
  gets (fun s => if resiliency (base s) then true else false).

(** Dereference of a possibly NULL pointer. *)
Definition deref {A} (o : option A) : net A := of_option o.

Definition check (r : ncclResult_t) : net unit :=
  if bool_decide (r = ncclSuccess) then ret tt else fail r.

(** Assignment to a cell of a two-dimensional array. *)
Definition zset2 {A} (l : list (list A)) (i j : Z) (v : A) : option (list (list A)) :=
  row ← zget l i; row' ← zset row j v; zset l i row'.

Definition zget2 {A} (l : list (list A)) (i j : Z) : option A := row ← zget l i; zget row j.

(** [base + k] for [k = 0 .. n - 1]. *)
Fixpoint upto (n : nat) (start : Z) : list Z :=
  match n with O => [] | Datatypes.S n' => start :: upto n' (start + 1) end.

Definition zrange (n : Z) : list Z := upto (Z.to_nat n) 0.

(** [map]/[for] over a list in the monad. *)
Fixpoint mapM {S A B} (f : A -> comp S B) (l : list A) : comp S (list B) :=
  match l with
  | [] => ret []
  | a :: l' => let* b := f a in let* bs := mapM f l' in ret (b :: bs)
  end.

Fixpoint mapM_opt {A B} (f : A -> option B) (l : list A) : option (list B) :=
  match l with
  | [] => Some []
  | a :: l' => b ← f a; bs ← mapM_opt f l'; Some (b :: bs)
  end.

Fixpoint iterM {S A} (f : A -> comp S unit) (l : list A) : comp S unit :=
  match l with [] => ret tt | a :: l' => f a ;;; iterM f l' end.

Section Provider.
Context `{M : Machine}.

(** ** Provider calls: [wrap_mrc_post_send], [wrap_mrc_post_recv],
[wrap_mrc_poll_cq] (and the [ibv] versions), [clockNano] *)

Definition log (e : Event) : net unit := modify (fun s => s <| history := history s ++ [e] |>).

Definition wrap_post_send (qp : QpRef) (wrs : list SendWr) : net unit :=
let* s := getS in
let ok := mrc_post_send env (history s) qp wrs in
if ok then log (Posted qp wrs) else fail ncclSystemError.

Definition wrap_post_recv (qp : QpRef) (id : Z) : net unit :=
let* s := getS in
let ok := mrc_post_recv env (history s) qp id in
if ok then log (PostedRecv qp id) else fail ncclSystemError.

Definition wrap_poll_cq (cq : CqRef) (n : Z) : net (list Wc) :=
let* s := getS in
match mrc_poll_cq env (history s) cq n with
| Some wcs => log (Polled cq wcs) ;;; ret wcs
| None => fail ncclSystemError
end.

Definition clock : net Z :=
let* s := getS in
let t := clockNano env (history s) in
log TookTime ;;; ret t.

(** ** [common.h] *)

Definition ncclIbStatsCheckFatalCount (count : Z) : net unit :=
if ncclParamIbAsyncEvents prm && negb (count =? 0) then fail ncclSystemError else ret tt.

(** One turn of the loop of [ncclIbComputeLbWeights]; [acc] is the [uint8_t]
[totalWeight]. *)
Definition lbWeight (b : ncclIbNetCommBase) (speed : Z) : option Z :=
if ncclParamIbEventBasedLb prm
then if totalSpeed b =? 0 then None else Some (u8 (u64 (speed * 100) / totalSpeed b))
else if ndevs b =? 0 then None else Some (u8 (Z.quot 100 (ndevs b))).

Fixpoint lbWeights_loop (b : ncclIbNetCommBase) (ds : list Z) (ws : list Z) (acc : Z)
: option (list Z * Z) :=
match ds with
| [] => Some (ws, acc)
| d :: ds' =>
speed ← zget (devSpeeds b) d;
w ← lbWeight b speed;
ws' ← zset ws d w;
lbWeights_loop b ds' ws' (u8 (acc + w))
end.

Definition ncclIbComputeLbWeights : net unit :=
let* s := getS in
let b := base s in
let* '(ws, totalWeight) := of_option (lbWeights_loop b (zrange (ndevs b)) (weights b) 0) in
if totalWeight <? 100 then
let* last := of_option (zget ws (ndevs b - 1)) in
let* ws := of_option (zset ws (ndevs b - 1) (u8 (last + (100 - totalWeight)))) in
modBase (fun b => b <| weights := ws |>)
else modBase (fun b => b <| weights := ws |>).

(** The speed of device [d]: the slower of the two ends, the local one when the
remote end has not reported a speed. *)
Definition devSpeed (s : Net) (d : Z) : option Z :=
cd ← zget (devs s) d;
qp ← zget (qps (base s)) d;
ibDev ← zget (ncclIbDevs s) (cd_ibDevN cd);
rem ← zget (remDevs (base s)) (remDevIdx qp);
let localSpeed := currSpeed ibDev in
let remoteSpeed := if 0 <? rem_currSpeed rem then rem_currSpeed rem else localSpeed in
Some (Z.min localSpeed remoteSpeed).

Fixpoint devSpeeds_loop (s : Net) (ds : list Z) (speeds : list Z) (total : Z)
: option (list Z * Z) :=
match ds with
| [] => Some (speeds, total)
| d :: ds' =>
v ← devSpeed s d;
speeds' ← zset speeds d v;
devSpeeds_loop s ds' speeds' (u64 (total + v))
end.

Definition ncclIbComputeDevSpeeds : net unit :=
let* s := getS in
let* '(speeds, total) :=
of_option (devSpeeds_loop s (zrange (ndevs (base s))) (devSpeeds (base s)) 0) in
modBase (fun b => b <| devSpeeds := speeds |> <| totalSpeed := total |>).

Definition ncclIbCommBaseGetQpByIndex (devIdx qpIndex : Z) : net (option Z) :=
let* s := getS in
let b := base s in
if (devIdx <? 0) || (ndevs b <=? devIdx) then fail ncclInternalError
else of_option (zget (activeQps b) (ndevs b * qpIndex + devIdx)).

Definition ncclIbCommBaseGetNqpsPerRequest : net Z :=
let* s := getS in
let b := base s in
if nDataQps b =? -1 then fail ncclInternalError
else if nqps b =? -1 then fail ncclInternalError
else ret (if splitDataOnQps b =? 1 then nqps b else nDataQps b).

(** The queue pair in [activeQps] and the index it was found at. *)
Definition ncclIbCommBaseGetQpForRequest (id qpIndex : Z) : net (Z * Z) :=
let* nQps := ncclIbCommBaseGetNqpsPerRequest in
let* s := getS in
let b := base s in
if u64 (nqps b) =? 0 then fault
else
let outQpIndex := i32 (u64 (u64 (id * u64 nQps) + u8 qpIndex) mod u64 (nqps b)) in
let* outQp := of_option (zget (activeQps b) outQpIndex) in
match outQp with
| None => fail ncclInternalError
| Some qp => ret (qp, outQpIndex)
end.

Fixpoint qpByNum_loop (b : ncclIbNetCommBase) (devIdx qpNum : Z) (idxs : list Z)
: option (option Z) :=
match idxs with
| [] => Some None
| i :: idxs' =>
let k := ndevs b * i + devIdx in
qp ← zget (qps b) k;
if qpn qp =? qpNum then Some (Some k) else qpByNum_loop b devIdx qpNum idxs'
end.

Definition ncclIbCommBaseGetQpByQpNum (devIdx qpNum : Z) : net Z :=
let* s := getS in
let b := base s in
if (devIdx <? 0) || (ndevs b <=? devIdx) then fail ncclInternalError
else
let* r := of_option (qpByNum_loop b devIdx qpNum (zrange (Z.quot (nqps b) (ndevs b)))) in
match r with
| Some k => ret k
| None => fail ncclInternalError
end.

(** [p2p.h] *)
Definition ncclIbRecvCommGetQpForCts (id : Z) : net Z :=
let* s := getS in
if u32 (ndevs (base s)) =? 0 then fault
else
let* qp := ncclIbCommBaseGetQpByIndex (u32 id mod u32 (ndevs (base s))) 0 in
match qp with
| None => fail ncclInternalError
| Some q => ret q
end.

Definition ncclIbRequestRetrieveAsIndex (reqIndex : Z) : net Z :=
if NET_IB_MAX_REQUESTS <=? u32 reqIndex then fail ncclInternalError else ret (u32 reqIndex).

Definition ncclIbCheckSpeedChanges : net unit :=
let* s := getS in
let* c := getSend in
let localChanged := negb (speedChangeCounter (base s) =? ncclIbSpeedChangeCounter s) in
when localChanged
(modBase (fun b => b <| speedChangeCounter := ncclIbSpeedChangeCounter s |>)) ;;;
let remoteChanged := negb (remoteSpeedCounter c =? remoteSpeedBuf_counter c) in
when remoteChanged
(modSend (fun c => Some (c <| remoteSpeedCounter := remoteSpeedBuf_counter c |>)) ;;;
 forN (nRemDevs (base s)) (fun i =>
 let* rem := readAt (fun s => remDevs (base s)) i in
 let* v := of_option (zget (remoteSpeedBuf_speedGbps c) i) in
 let* l := readAt (fun s => [remDevs (base s)]) 0 in
 let* l' := of_option (zset l i (rem <| rem_currSpeed := u64 (v * 1000) |>)) in
 modBase (fun b => b <| remDevs := l' |>))) ;;;
when (localChanged || remoteChanged) (ncclIbComputeDevSpeeds ;;; ncclIbComputeLbWeights).

(** ** Requests *)

Fixpoint firstUnused (l : list ncclIbRequest) (i : Z) : option Z :=
match l with
| [] => None
| r :: l' => if bool_decide (r_type r = REQ_UNUSED) then Some i else firstUnused l' (i + 1)
end.

Definition zeros (n : Z) : list Z := replicate (Z.to_nat n) 0.
Definition falses (n : Z) : list bool := replicate (Z.to_nat n) false.

Definition ncclIbGetRequest : net Z :=
let* s := getS in
match firstUnused (reqs (base s)) 0 with
| Some i =>
modReq i (fun r => Some (r <| r_sock := false |>
<| r_devBases := falses NCCL_IB_MAX_DEVS_PER_NIC |>
<| r_events := zeros NCCL_IB_MAX_DEVS_PER_NIC |>)) ;;;
ret i
| None => fail ncclInternalError
end.

Definition ncclIbFreeRequest (i : Z) : net unit :=
modReq i (fun r => Some (r <| r_type := REQ_UNUSED |>)).

(** [events[devIndex]++] and the device's base for polling. *)
Definition addEvent (dev : Z) (r : ncclIbRequest) : option ncclIbRequest :=
e ← zget (r_events r) dev;
es ← zset (r_events r) dev (e + 1);
ds ← zset (r_devBases r) dev true;
Some (r <| r_events := es |> <| r_devBases := ds |>).

Definition ncclIbAddEvent (i dev : Z) : net unit := modReq i (addEvent dev).

End Provider.
