(* ===== verification/NetDemo.v ===== *)
(** * Transport: a concrete connection

    Two devices, four queue pairs, failover off or on: the inputs at which the
    properties of the transport are instantiated. *)

From S2P Require Import Prelude NetTypes NetBase.

Open Scope Z_scope.
Open Scope nccl_scope.

Module Demo.

Definition params : NetParams := mkNetParams false true true 8192 1 10.

(** A provider that accepts every post and never completes anything. *)
Definition acceptAll : Env := {|
mrc_post_send _ _ _ := true; mrc_post_recv _ _ _ := true; mrc_poll_cq _ _ _ := Some [];
clockNano h := Z.of_nat (length h) * 100000000; createFlushQp_ok _ _ := true;
recoveryContextInit_ok _ _ := true |}.

#[local] Instance machine : Machine := mkMachine params acceptAll.

Definition unused : ncclIbRequest :=
mkRequest REQ_UNUSED false (zeros 8) (falses 8) 0 0 0 0 (zeros 8) (falses 128) (zeros 8) None 0.

Definition fill {A} (n : nat) (l : list A) (x : A) : list A := l ++ replicate (n - length l) x.

Definition qp (d : Z) : ncclIbQp := mkQp (100 + d) d d 512.

Definition mkBaseWith (send : bool) (rs : list ncclIbRequest) (res : option ncclIbResiliency)
: ncclIbNetCommBase := {|
ndevs := 2; vdevs := [0; 1]; isSend := send; reqs := fill 256 rs unused;
qps := fill 128 [qp 0; qp 1; qp 0; qp 1] (qp (-1)); activeQps := map Some (zrange 128);
fifoHead := 5; nqps := 4; splitDataOnQps := 0; ready := 1; nRemDevs := 2; remOooRq := false;
localOooRq := false; recvMatchingScheme := BY_INDEX; nDataQps := 2;
remDevs := replicate 8 (mkDevInfo 77 0 0); fatalErrorCount := 0; resiliency := res;
speedChangeCounter := 0; totalSpeed := 400000; weights := [50; 50; 0; 0; 0; 0; 0; 0];
devSpeeds := [200000; 200000; 0; 0; 0; 0; 0; 0] |}.

Definition dev (i : Z) : commDev := mkCommDev i (10 + i) (20 + i) (mkSge 0 0 0) (30 + i).

Definition ibDevs : list ncclIbDev := [mkIbDev 200000 0; mkIbDev 200000 0].

(** Requests 0 and 1 are a pair of sends, of 1000 and 0 bytes, in slot 5. *)
Definition sendReq (size data : Z) : ncclIbRequest :=
mkRequest REQ_SEND true [1; 1; 0; 0; 0; 0; 0; 0] [true; true; false; false; false; false; false; false]
5 2 size data [41; 42; 0; 0; 0; 0; 0; 0] (falses 128) [50; 50; 0; 0; 0; 0; 0; 0] None 0.

Definition cts (n addr tag : Z) : ncclIbSendFifo :=
mkSendFifo addr 4096 [51; 52; 0; 0; 0; 0; 0; 0] n tag 6.

Definition noCts : ncclIbSendFifo := mkSendFifo 0 0 (zeros 8) 0 0 0.

Definition slots : list ncclIbSendFifo := fill 8 [cts 2 0x9000 1; cts 2 0xa000 2] noCts.

Definition row : list (option Z) := fill 8 [Some 0; Some 1] None.

Definition sendComm : ncclIbSendComm := {|
ctsFifo := <[5%nat := slots]> (replicate 256 (replicate 8 noCts));
sendReqs := <[5%nat := row]> (replicate 256 (replicate 8 None));
sendReqsCnt := <[5%nat := 2]> (zeros 256);
remCmpls_elems := replicate 256 (zeros 8); remCmpls_elemsAddr := 0x100; remCmpls_addr := 0x200;
remCmpls_rkeys := [61; 62; 0; 0; 0; 0; 0; 0]; ar := 1; remoteSpeedBuf_counter := 0;
remoteSpeedBuf_speedGbps := zeros 8; remoteSpeedCounter := 0 |}.

Definition sender (res : option ncclIbResiliency) : Net := {|
base := mkBaseWith true [sendReq 1000 0x5000; sendReq 0 0x6000] res;
devs := [dev 0; dev 1]; tail := SendTail sendComm; ncclIbDevs := ibDevs;
ncclIbSpeedChangeCounter := 0; history := [] |}.

Definition recvComm (prepost : bool) : ncclIbRecvComm := {|
recvReqs := replicate 256 None; remCts_elems := replicate 256 (replicate 8 noCts);
remCts_elemsAddr := 0x300; remCts_addr := 0x400; remCts_rkeys := zeros 8; remCts_inline := true;
cmplsRecords := replicate 256 (mkCmplRecord (zeros 8) (falses 128)); flushEnabled := 1;
flushQpsCreated := false; prepostReceiveWorkRequests := prepost;
ibRecvWorkRequest_wr_id := NCCL_IB_RECV_WR_ID_DUMMY; remSpeedBufAddr := 0x500;
speedUpdateBuf_addr := 0x600; speedUpdateBuf_counter := 0; speedUpdateBuf_speedGbps := zeros 8;
lastSentSpeeds := zeros 8; lastSentCounter := 0; postedSpeedUpdate := false |}.

Definition receiver (res : option ncclIbResiliency) : Net := {|
base := mkBaseWith false [] res; devs := [dev 0; dev 1]; tail := RecvTail (recvComm false);
ncclIbDevs := ibDevs; ncclIbSpeedChangeCounter := 0; history := [] |}.

Definition resDev : ncclIbResiliencyDev := mkResDev ncclIbResiliencyDevStateOk 0 71.

Definition noFailure : ncclIbResiliencyRequestSend :=
mkResReq ncclIbResiliencyRequestStatePending None 0 0 0 0.

Definition res : ncclIbResiliency := {|
recoveryEnabled := true; res_devs := replicate 8 resDev; res_ndevs := 2;
probingQps := replicate 8 (qp 0); nProbingQps := 2; inProgress := false; outstandingRequests := 0;
nPortRecoveryQps := 2; outstandingRecovery := 0; failedRequests := replicate 256 noFailure;
probingResults := replicate 256 (falses 128); probingResults_addr := 0x700;
remCmplRecordsInfo := replicate 8 (mkRemCmpl 0x800 81) |}.

End Demo.

(** Splits [0 <= k < n] for a small literal [n]. *)
Ltac zcases k :=
  match goal with
  | H : 0 <= k < ?n |- _ =>
      let rec go m :=
        lazymatch m with
        | 0 => exfalso; lia
        | _ => let m' := eval vm_compute in (m - 1) in
               destruct (Z.eq_dec k m') as [->|]; [|go m']
        end in
      let n' := eval vm_compute in n in
      change n with n' in H; go n'
  end.
