(* ===== verification/NetLemmas.v ===== *)
(** * Transport: running the communicator monad

    One lemma per access and loop combinator: what it returns and the state it
    leaves. *)

From S2P Require Import Prelude NetTypes NetBase.

Open Scope Z_scope.
Open Scope nccl_scope.

Lemma readAt_run {A} (f : Net -> list A) i s x :
  zget (f s) i = Some x -> readAt f i s = (Done x, s).
Proof. intros E. unfold readAt. nred. now rewrite E. Qed.

Lemma getReq_run i s q : zget (reqs (base s)) i = Some q -> getReq i s = (Done q, s).
Proof. apply (readAt_run (fun s => reqs (base s))). Qed.

Definition updReq (s : Net) (i : Z) (q : ncclIbRequest) : Net :=
  s <| base := (base s) <| reqs := zupd (reqs (base s)) i q |> |>.

Lemma modReq_run i f s q q' :
  zget (reqs (base s)) i = Some q -> f q = Some q' -> modReq i f s = (Done tt, updReq s i q').
Proof.
  intros E Ef. unfold modReq. nstep (getReq_run _ _ _ E). rewrite (bind_some _ _ _ _ Ef).
  unfold setReq. nred. rewrite (bind_some _ _ _ _ (zset_is_Some _ _ q' (zget_Some _ _ _ E))).
  reflexivity.
Qed.

Lemma getSend_run s c : tail s = SendTail c -> getSend s = (Done c, s).
Proof. intros E. unfold getSend. nred. now rewrite E. Qed.

Lemma getRecv_run s c : tail s = RecvTail c -> getRecv s = (Done c, s).
Proof. intros E. unfold getRecv. nred. now rewrite E. Qed.

Lemma modSend_run s c c' f :
  tail s = SendTail c -> f c = Some c' -> modSend f s = (Done tt, s <| tail := SendTail c' |>).
Proof. intros E Ef. unfold modSend. nstep (getSend_run _ _ E). now rewrite (bind_some _ _ _ _ Ef). Qed.

Lemma modRecv_run s c c' f :
  tail s = RecvTail c -> f c = Some c' -> modRecv f s = (Done tt, s <| tail := RecvTail c' |>).
Proof. intros E Ef. unfold modRecv. nstep (getRecv_run _ _ E). now rewrite (bind_some _ _ _ _ Ef). Qed.

Lemma getRes_run s r : resiliency (base s) = Some r -> getRes s = (Done r, s).
Proof. intros E. unfold getRes. nred. now rewrite E. Qed.

Definition updRes (s : Net) (r : ncclIbResiliency) : Net :=
  s <| base := (base s) <| resiliency := Some r |> |>.

Lemma modRes_run s r r' f :
  resiliency (base s) = Some r -> f r = Some r' -> modRes f s = (Done tt, updRes s r').
Proof. intros E Ef. unfold modRes. nstep (getRes_run _ _ E). now rewrite (bind_some _ _ _ _ Ef). Qed.

Lemma postSend_run `{M : Machine} s q wrs :
  mrc_post_send env (history s) q wrs = true ->
  wrap_post_send q wrs s = (Done tt, s <| history := history s ++ [Posted q wrs] |>).
Proof. intros E. unfold wrap_post_send. nred. by rewrite E. Qed.

Lemma postRecv_run `{M : Machine} s q id :
  mrc_post_recv env (history s) q id = true ->
  wrap_post_recv q id s = (Done tt, s <| history := history s ++ [PostedRecv q id] |>).
Proof. intros E. unfold wrap_post_recv. nred. by rewrite E. Qed.

(** A read-only computation applied to every element. *)
Lemma mapM_pure {S A B} (f : A -> comp S B) (g : A -> B) l s :
  (forall a, In a l -> f a s = (Done (g a), s)) -> mapM f l s = (Done (map g l), s).
Proof.
  induction l as [|a l IH]; intros H; [reflexivity|]. cbn [mapM map].
  rewrite (bind_step _ _ _ _ _ (H a (or_introl eq_refl))).
  rewrite (bind_step _ _ _ _ _ (IH (fun b Hb => H b (or_intror Hb)))). reflexivity.
Qed.

Lemma In_zrange n i : In i (zrange n) <-> 0 <= i < n.
Proof.
  unfold zrange.
  assert (forall k a, In i (upto k a) <-> a <= i < a + Z.of_nat k) as H.
  { induction k as [|k IH]; intros a; cbn [upto In]; [lia|]. rewrite IH. lia. }
  rewrite H. lia.
Qed.

Lemma length_zrange n : length (zrange n) = Z.to_nat n.
Proof.
  unfold zrange. generalize (Z.to_nat n) 0. intros k. induction k; intros a; cbn; auto.
Qed.

(** Invariant rule for [iterM]. *)
Lemma iterM_total {S A} (I : list A -> S -> Prop) (f : A -> comp S unit) l s :
  (forall a done s1, I done s1 -> In a l -> exists s2, f a s1 = (Done tt, s2) /\ I (done ++ [a]) s2) ->
  I [] s -> exists s', iterM f l s = (Done tt, s') /\ I l s'.
Proof.
  intros Hf. assert (forall rest done s, (forall a, In a rest -> In a l) -> I done s ->
    exists s', iterM f rest s = (Done tt, s') /\ I (done ++ rest) s') as H.
  { induction rest as [|a rest IH]; intros done s0 Hin HI.
    - exists s0. rewrite app_nil_r. done.
    - destruct (Hf a done s0 HI (Hin a (or_introl eq_refl))) as (s2 & E & H2).
      destruct (IH (done ++ [a]) s2) as (s3 & E3 & H3); [auto using in_cons|done|].
      exists s3. cbn [iterM]. rewrite (bind_step _ _ _ _ _ E). split; [done|].
      by rewrite <- app_assoc in H3. }
  intros HI. destruct (H l [] s) as (s' & E & H'); eauto.
Qed.

Lemma firstUnused_spec l k :
  match firstUnused l k with
  | Some i => k <= i /\ exists r, zget l (i - k) = Some r /\ r_type r = REQ_UNUSED
              /\ forall j r', 0 <= j < i - k -> zget l j = Some r' -> r_type r' <> REQ_UNUSED
  | None => forall r, In r l -> r_type r <> REQ_UNUSED
  end.
Proof.
  revert k. induction l as [|r l IH]; intros k; [intros ? []|]. cbn [firstUnused].
  case_bool_decide as Hr.
  - split; [lia|]. exists r. rewrite Z.sub_diag. split; [done|]. split; [done|]. lia.
  - specialize (IH (k + 1)). destruct (firstUnused l (k + 1)) as [i|].
    + destruct IH as (Hi & r' & Hz & Hu & Hb). split; [lia|]. exists r'.
      assert (forall j, 0 < j -> zget (r :: l) j = zget l (j - 1)) as Hs.
      { intros j Hj. unfold zget. rewrite !decide_True by lia.
        replace (Z.to_nat j) with (S (Z.to_nat (j - 1))) by lia. done. }
      rewrite Hs by lia. replace (i - k - 1) with (i - (k + 1)) by lia. split; [done|].
      split; [done|]. intros j q Hj Hq. destruct (decide (j = 0)) as [->|].
      * unfold zget in Hq. rewrite decide_True in Hq by lia. cbn in Hq. by injection Hq as <-.
      * rewrite Hs in Hq by lia. apply (Hb (j - 1) q); [lia|done].
    + intros q [<-|Hq]; auto.
Qed.

(** ** Updates of one request *)

Lemma updReq_updReq s i q q' : updReq (updReq s i q) i q' = updReq s i q'.
Proof. unfold updReq. cbn. by rewrite zupd_zupd. Qed.

Lemma updReq_get s i q q0 :
  zget (reqs (base s)) i = Some q0 -> zget (reqs (base (updReq s i q))) i = Some q.
Proof. intros E. cbn. by apply zget_zupd_eq, (zget_Some _ _ q0). Qed.

Lemma updReq_same s i q : zget (reqs (base s)) i = Some q -> updReq s i q = s.
Proof.
  intros E. unfold updReq. rewrite zupd_same by done.
  by destruct s as [[]].
Qed.

(** ** Events *)

Definition addEvents (ds : list Z) (q : ncclIbRequest) : ncclIbRequest :=
  fold_left (fun q d => default q (addEvent d q)) ds q.

(** The lists of a request have one entry per device. *)
Definition devs_wf (q : ncclIbRequest) : Prop :=
  length (r_events q) = Z.to_nat NCCL_IB_MAX_DEVS_PER_NIC
  /\ length (r_devBases q) = Z.to_nat NCCL_IB_MAX_DEVS_PER_NIC.

Definition occurrences (d : Z) (ds : list Z) : Z :=
  zsum (map (fun e => if e =? d then 1 else 0) ds).

Lemma addEvent_some d q :
  devs_wf q -> 0 <= d < NCCL_IB_MAX_DEVS_PER_NIC ->
  exists q', addEvent d q = Some q' /\ devs_wf q'
    /\ q' = q <| r_events := r_events q' |> <| r_devBases := r_devBases q' |>
    /\ (forall e, zget (r_events q') e = (fun n => n + (if d =? e then 1 else 0)) <$> zget (r_events q) e)
    /\ (forall e, zget (r_devBases q') e = if decide (d = e) then Some true else zget (r_devBases q) e).
Proof.
  intros [He Hb] Hd. destruct (zget_is_Some (r_events q) d) as [n En]; [lia|].
  unfold addEvent. rewrite En. cbn [mbind option_bind].
  rewrite !zset_is_Some by lia. cbn [mbind option_bind]. eexists. split; [reflexivity|].
  split; [by split; cbn; rewrite length_zupd|]. split; [done|]. cbn. split; intros e; rewrite zget_zupd.
  - case_decide as Hc.
    + destruct Hc as [<- _]. rewrite En, Z.eqb_refl. done.
    + destruct (Z.eqb_spec d e) as [<-|]; [exfalso; apply Hc; split; lia|].
      destruct (zget (r_events q) e); cbn; [|done]. by rewrite Z.add_0_r.
  - repeat case_decide; try done; exfalso; naive_solver lia.
Qed.

Lemma addEvents_run `{M : Machine} s i q ds :
  zget (reqs (base s)) i = Some q -> devs_wf q ->
  Forall (fun d => 0 <= d < NCCL_IB_MAX_DEVS_PER_NIC) ds ->
  iterM (ncclIbAddEvent i) ds s = (Done tt, updReq s i (addEvents ds q))
  /\ devs_wf (addEvents ds q)
  /\ addEvents ds q = q <| r_events := r_events (addEvents ds q) |>
                        <| r_devBases := r_devBases (addEvents ds q) |>
  /\ (forall e, zget (r_events (addEvents ds q)) e = (fun n => n + occurrences e ds) <$> zget (r_events q) e)
  /\ (forall e, zget (r_devBases (addEvents ds q)) e
               = if decide (e ∈ ds) then Some true else zget (r_devBases q) e).
Proof.
  intros E Hwf Hds. revert s q E Hwf. induction Hds as [|d ds Hd Hds IH]; intros s q E Hwf.
  - cbn [addEvents fold_left iterM]. rewrite (updReq_same _ _ _ E). split; [done|]. split; [done|]. split; [by destruct q|].
    split; intros e; [|by rewrite decide_False by apply not_elem_of_nil].
    unfold occurrences. cbn. destruct (zget (r_events q) e); cbn; [|done]. by rewrite Z.add_0_r.
  - destruct (addEvent_some d q Hwf Hd) as (q1 & E1 & Hwf1 & Hf1 & He1 & Hb1).
    pose proof (updReq_get s i q1 q E) as Eq1.
    destruct (IH _ q1 Eq1 Hwf1) as (Er & Hwf' & Hf & He & Hb).
    cbn [iterM]. unfold ncclIbAddEvent at 1. nstep (modReq_run i (addEvent d) s q q1 E E1).
    assert (addEvents (d :: ds) q = addEvents ds q1) as Hadd.
    { unfold addEvents. cbn [fold_left]. by rewrite E1. }
    rewrite Hadd. split; [|split; [done|split; [|split]]].
    + rewrite Er. by rewrite updReq_updReq.
    + rewrite Hf at 1. rewrite Hf1. by destruct q.
    + intros e. rewrite He, He1. unfold occurrences. cbn [map zsum].
      destruct (zget (r_events q) e); cbn; [|done]. f_equal. lia.
    + intros e. rewrite Hb, Hb1. repeat case_decide; try done; exfalso; set_solver.
Qed.
