(* ===== verification/NetInv.v ===== *)
(** * Transport: invariants of the communicator monad

    [keeps I m Q]: run from a state in [I], [m] ends in a state in [I], whatever its
    outcome, and a value it returns satisfies [Q].  One rule per construct; the
    tactic [kwalk] applies them.  [safe I m Q] asks besides that [m] never ends in
    [Fault].  The invariant of this development is [net_inv]: the
    arrays have their C lengths, every stored pointer refers to an existing object,
    and the history only grows. *)

From S2P Require Import Prelude NetTypes NetBase NetLemmas.

Open Scope Z_scope.
Open Scope nccl_scope.

Definition keeps {S A} (I : S -> Prop) (m : comp S A) (Q : A -> Prop) : Prop :=
  forall s, I s -> I (snd (m s)) /\ match fst (m s) with Done a => Q a | _ => True end.

Create HintDb keeps discriminated.
#[export] Hint Constants Opaque : keeps.

Section Rules.
Context {S : Type} (I : S -> Prop).

Lemma keeps_weaken {A} (m : comp S A) (Q Q' : A -> Prop) :
keeps I m Q -> (forall a, Q a -> Q' a) -> keeps I m Q'.
Proof. intros H HQ s Hs. destruct (H s Hs) as [H1 H2]. split; [done|]. destruct (fst (m s)); auto. Qed.

Lemma keeps_state {A} (m : comp S A) (Q : A -> Prop) s : keeps I m Q -> I s -> I (snd (m s)).
Proof. intros H Hs. by apply H. Qed.

Lemma keeps_ret {A} (a : A) (Q : A -> Prop) : Q a -> keeps I (ret a) Q.
Proof. by intros H s Hs. Qed.

Lemma keeps_fail {A} r (Q : A -> Prop) : keeps I (fail r) Q.
Proof. by intros s Hs. Qed.

Lemma keeps_fault {A} (Q : A -> Prop) : keeps I fault Q.
Proof. by intros s Hs. Qed.

Lemma keeps_getS : keeps I getS I.
Proof. by intros s Hs. Qed.

Lemma keeps_gets {A} (f : S -> A) : keeps I (gets f) (fun a => exists s, I s /\ a = f s).
Proof. intros s Hs. split; [done|]. by exists s. Qed.

Lemma keeps_of_option {A} (o : option A) : keeps I (of_option o) (fun a => o = Some a).
Proof. destruct o; by intros s Hs. Qed.

Lemma keeps_modify (f : S -> S) : (forall s, I s -> I (f s)) -> keeps I (modify f) (fun _ => True).
Proof. intros H s Hs. split; [by apply H|done]. Qed.

Lemma keeps_bind {A B} (m : comp S A) (k : A -> comp S B) (Q : A -> Prop) (Q' : B -> Prop) :
keeps I m Q -> (forall a, Q a -> keeps I (k a) Q') -> keeps I (bind m k) Q'.
Proof.
intros Hm Hk s Hs. unfold bind. destruct (Hm s Hs) as [H1 H2].
destruct (m s) as [[a|r|] s1]; cbn in *; [by apply Hk|done..].
Qed.

Lemma keeps_when b (m : comp S unit) : keeps I m (fun _ => True) -> keeps I (when b m) (fun _ => True).
Proof. intros H. destruct b; [done|]. by apply keeps_ret. Qed.

Lemma keeps_for n a (body : Z -> comp S unit) :
(forall i, a <= i < a + Z.of_nat n -> keeps I (body i) (fun _ => True)) ->
keeps I (for_ n a body) (fun _ => True).
Proof.
revert a. induction n as [|n IH]; intros a H; [by apply keeps_ret|]. cbn [for_].
eapply keeps_bind; [apply H; lia|]. intros _ _. apply IH. intros i Hi. apply H. lia.
Qed.

Lemma keeps_forN n (body : Z -> comp S unit) :
(forall i, 0 <= i < n -> keeps I (body i) (fun _ => True)) -> keeps I (forN n body) (fun _ => True).
Proof. intros H. apply keeps_for. intros i Hi. apply H. lia. Qed.

Lemma keeps_iterM {A} (f : A -> comp S unit) l :
(forall a, In a l -> keeps I (f a) (fun _ => True)) -> keeps I (iterM f l) (fun _ => True).
Proof.
induction l as [|a l IH]; intros H; [by apply keeps_ret|]. cbn [iterM].
eapply keeps_bind; [apply H; by left|]. intros _ _. apply IH. intros b Hb. apply H. by right.
Qed.

Lemma keeps_mapM {A B} (f : A -> comp S B) l (Q : B -> Prop) :
(forall a, In a l -> keeps I (f a) Q) ->
keeps I (mapM f l) (fun bs => Forall Q bs /\ length bs = length l).
Proof.
induction l as [|a l IH]; intros H; [by apply keeps_ret|]. cbn [mapM].
eapply keeps_bind; [apply H; by left|]. intros b Hb.
eapply keeps_bind; [apply IH; intros c Hc; apply H; by right|].
intros bs [Hbs Hl]. apply keeps_ret. cbn. by rewrite Hl; split; [constructor|].
Qed.

Lemma keeps_mapM_length {A B} (f : A -> comp S B) l :
(forall a, In a l -> keeps I (f a) (fun _ => True)) ->
keeps I (mapM f l) (fun bs => length bs = length l).
Proof. intros H. eapply keeps_weaken; [by apply keeps_mapM|]. by intros bs [_ Hl]. Qed.

(** The postcondition of a computation whose value does not matter. *)
Lemma keeps_any {A} (m : comp S A) (Q : A -> Prop) : keeps I m Q -> keeps I m (fun _ => True).
Proof. intros H. by eapply keeps_weaken. Qed.

End Rules.

#[export] Hint Resolve keeps_ret keeps_fail keeps_fault keeps_getS keeps_gets keeps_of_option
  keeps_when : keeps.

(** ** No undefined behaviour

    [safe I m Q]: [keeps I m Q], and from a state in [I] the computation never ends in
    [Fault]: no access outside an array, no NULL dereference, no division by zero. *)

Definition safe {S A} (I : S -> Prop) (m : comp S A) (Q : A -> Prop) : Prop :=
  forall s, I s -> I (snd (m s)) /\ match fst (m s) with Done a => Q a | Fail _ => True | Fault => False end.

Section SafeRules.
Context {S : Type} (I : S -> Prop).

Lemma safe_noFault {A} (m : comp S A) (Q : A -> Prop) s : safe I m Q -> I s -> fst (m s) <> Fault.
Proof. intros H Hs. destruct (H s Hs) as [_ H2]. by destruct (fst (m s)). Qed.

Lemma safe_ret {A} (a : A) (Q : A -> Prop) : Q a -> safe I (ret a) Q.
Proof. by intros H s Hs. Qed.

Lemma safe_fail {A} r (Q : A -> Prop) : safe I (fail r) Q.
Proof. by intros s Hs. Qed.

Lemma safe_getS : safe I getS I.
Proof. by intros s Hs. Qed.

Lemma safe_gets {A} (f : S -> A) (Q : A -> Prop) : (forall s, I s -> Q (f s)) -> safe I (gets f) Q.
Proof. intros H s Hs. split; [done|]. by apply H. Qed.

Lemma safe_of_option {A} (o : option A) (Q : A -> Prop) : (exists a, o = Some a /\ Q a) -> safe I (of_option o) Q.
Proof. by intros (a & -> & Ha) s Hs. Qed.

Lemma safe_modify (f : S -> S) : (forall s, I s -> I (f s)) -> safe I (modify f) (fun _ => True).
Proof. intros H s Hs. split; [by apply H|done]. Qed.

Lemma safe_bind {A B} (m : comp S A) (k : A -> comp S B) (Q : A -> Prop) (Q' : B -> Prop) :
safe I m Q -> (forall a, Q a -> safe I (k a) Q') -> safe I (bind m k) Q'.
Proof.
intros Hm Hk s Hs. unfold bind. destruct (Hm s Hs) as [H1 H2].
destruct (m s) as [[a|r|] s1]; cbn in *; [by apply Hk|done..].
Qed.

Lemma safe_for n a (body : Z -> comp S unit) :
(forall i, a <= i < a + Z.of_nat n -> safe I (body i) (fun _ => True)) -> safe I (for_ n a body) (fun _ => True).
Proof.
revert a. induction n as [|n IH]; intros a H; [by apply safe_ret|]. cbn [for_].
eapply safe_bind; [apply H; lia|]. intros _ _. apply IH. intros i Hi. apply H. lia.
Qed.

Lemma safe_forN n (body : Z -> comp S unit) :
(forall i, 0 <= i < n -> safe I (body i) (fun _ => True)) -> safe I (forN n body) (fun _ => True).
Proof. intros H. apply safe_for. intros i Hi. apply H. lia. Qed.

Lemma safe_iterM {A} (P : A -> Prop) (f : A -> comp S unit) l :
Forall P l -> (forall a, P a -> safe I (f a) (fun _ => True)) -> safe I (iterM f l) (fun _ => True).
Proof.
intros Hl Hf. induction Hl as [|a l Ha Hl IH]; [by apply safe_ret|]. cbn [iterM].
eapply safe_bind; [by apply Hf|]. by intros _ _.
Qed.

Lemma safe_mapM {A B} (P : A -> Prop) (Q : B -> Prop) (f : A -> comp S B) l :
Forall P l -> (forall a, P a -> safe I (f a) Q) -> safe I (mapM f l) (Forall Q).
Proof.
intros Hl Hf. induction Hl as [|a l Ha Hl IH]; [by apply safe_ret|]. cbn [mapM].
eapply safe_bind; [by apply Hf|]. intros b Hb. eapply safe_bind; [apply IH|]. intros bs Hbs.
apply safe_ret. by constructor.
Qed.

End SafeRules.

(** ** The invariant *)

Definition ptr_ok (n : Z) (p : option Z) : Prop :=
  match p with Some i => 0 <= i < n | None => True end.

Definition sized {A} (n : Z) (l : list A) : Prop := length l = Z.to_nat n.

Definition request_wf (q : ncclIbRequest) : Prop :=
  sized NCCL_IB_MAX_DEVS_PER_NIC (r_events q) /\ sized NCCL_IB_MAX_DEVS_PER_NIC (r_devBases q)
  /\ sized NCCL_IB_MAX_DEVS_PER_NIC (send_lkeys q) /\ sized NCCL_IB_MAX_QPS (send_sentData q)
  /\ sized NCCL_IB_MAX_DEVS_PER_NIC (send_weights q) /\ ptr_ok NET_IB_MAX_REQUESTS (recv_cmplsRecords q).

Definition res_wf (r : ncclIbResiliency) : Prop :=
  sized NCCL_IB_MAX_DEVS_PER_NIC (res_devs r) /\ sized NET_IB_MAX_REQUESTS (failedRequests r)
  /\ Forall (fun fr => ptr_ok NET_IB_MAX_REQUESTS (fr_request fr)) (failedRequests r)
  /\ sized NCCL_IB_MAX_DEVS_PER_NIC (remCmplRecordsInfo r).

(** [activeQps] points at queue pairs, never NULL. *)
Definition active_ok (p : option Z) : Prop := exists q, p = Some q /\ 0 <= q < NCCL_IB_MAX_QPS.

Definition base_wf (b : ncclIbNetCommBase) : Prop :=
  0 <= ndevs b <= NCCL_IB_MAX_DEVS_PER_NIC
  /\ sized NET_IB_MAX_REQUESTS (reqs b) /\ Forall request_wf (reqs b)
  /\ sized NCCL_IB_MAX_QPS (qps b)
  /\ sized NCCL_IB_MAX_QPS (activeQps b) /\ Forall active_ok (activeQps b)
  /\ sized NCCL_IB_MAX_DEVS_PER_NIC (remDevs b) /\ sized NCCL_IB_MAX_DEVS_PER_NIC (weights b)
  /\ sized NCCL_IB_MAX_DEVS_PER_NIC (devSpeeds b) /\ in_u 64 (fifoHead b)
  /\ from_option res_wf True (resiliency b).

Definition cts_wf (f : ncclIbSendFifo) : Prop := sized NCCL_IB_MAX_DEVS_PER_NIC (f_rkeys f).

Definition send_wf (c : ncclIbSendComm) : Prop :=
  sized NET_IB_MAX_REQUESTS (sendReqs c)
  /\ Forall (fun row => sized NCCL_NET_IB_MAX_RECVS row /\ Forall (ptr_ok NET_IB_MAX_REQUESTS) row) (sendReqs c)
  /\ sized NET_IB_MAX_REQUESTS (sendReqsCnt c)
  /\ sized NET_IB_MAX_REQUESTS (remCmpls_elems c) /\ Forall (sized NCCL_NET_IB_MAX_RECVS) (remCmpls_elems c).

Definition record_wf (r : ncclIbRequestCompletionRecord) : Prop :=
  sized NCCL_NET_IB_MAX_RECVS (cr_sizes r) /\ sized NCCL_IB_MAX_QPS (cr_completions r).

Definition recv_wf (c : ncclIbRecvComm) : Prop :=
  sized NET_IB_MAX_REQUESTS (recvReqs c) /\ Forall (ptr_ok NET_IB_MAX_REQUESTS) (recvReqs c)
  /\ sized NET_IB_MAX_REQUESTS (remCts_elems c)
  /\ Forall (fun row => sized NCCL_NET_IB_MAX_RECVS row /\ Forall cts_wf row) (remCts_elems c)
  /\ sized NET_IB_MAX_REQUESTS (cmplsRecords c) /\ Forall record_wf (cmplsRecords c)
  /\ sized NCCL_IB_MAX_DEVS_PER_NIC (speedUpdateBuf_speedGbps c)
  /\ sized NCCL_IB_MAX_DEVS_PER_NIC (lastSentSpeeds c).

Definition tail_wf (t : commTail) : Prop :=
  match t with SendTail c => send_wf c | RecvTail c => recv_wf c end.

Definition net_wf (s : Net) : Prop := base_wf (base s) /\ tail_wf (tail s).

(** ** The exchange with the provider *)

(** What can happen after the history [h]: posts the provider accepts, completions it
    reports, flush queue pairs and recoveries it can start. *)
Definition legal `{M : Machine} (h : list Event) (e : Event) : Prop :=
  match e with
  | Posted q wrs => mrc_post_send env h q wrs = true
  | PostedRecv q id => mrc_post_recv env h q id = true
  | Polled cq wcs => exists n, mrc_poll_cq env h cq n = Some wcs
  | TookTime => True
  | CreatedFlushQp d => createFlushQp_ok env h d = true
  | StartedRecovery d => recoveryContextInit_ok env h d = true
  end.

Inductive extends `{M : Machine} (h : list Event) : list Event -> Prop :=
  | extends_refl : extends h h
  | extends_snoc h' e : extends h h' -> legal h' e -> extends h (h' ++ [e]).

Lemma extends_trans `{M : Machine} h1 h2 h3 : extends h1 h2 -> extends h2 h3 -> extends h1 h3.
Proof. intros H. induction 1; [done|]. by apply extends_snoc. Qed.

(** Well formed, with the history [h] behind it. *)
Definition net_inv `{M : Machine} (h : list Event) (s : Net) : Prop := net_wf s /\ extends h (history s).

(** ** Arrays *)

Create HintDb wf discriminated.

Section Arrays.
Context {A : Type}.
Implicit Types l : list A.

Lemma sized_zset n l i v l' : zset l i v = Some l' -> sized n l -> sized n l'.
Proof. intros [_ ->]%zset_Some H. unfold sized. by rewrite length_zupd. Qed.

Lemma sized_zupd n l i v : sized n l -> sized n (zupd l i v).
Proof. intros H. unfold sized. by rewrite length_zupd. Qed.

Lemma Forall_zget (P : A -> Prop) l i x : Forall P l -> zget l i = Some x -> P x.
Proof. intros H E. unfold zget in E. case_decide; [|done]. by eapply Forall_lookup_1. Qed.

Lemma Forall_zupd (P : A -> Prop) l i v : Forall P l -> P v -> Forall P (zupd l i v).
Proof. intros H Hv. unfold zupd. case_decide; [|done]. by apply Forall_insert. Qed.

Lemma Forall_zset (P : A -> Prop) l i v l' : zset l i v = Some l' -> Forall P l -> P v -> Forall P l'.
Proof. intros [_ ->]%zset_Some. apply Forall_zupd. Qed.

Lemma sized_replicate n (x : A) : sized n (replicate (Z.to_nat n) x).
Proof. apply length_replicate. Qed.

(** A prefix replaced. *)
Lemma sized_prefix n k l l' : sized n l' -> Z.of_nat (length l) <= n -> length l = k -> sized n (l ++ drop k l').
Proof. unfold sized. intros H Hl <-. rewrite length_app, length_drop, H. lia. Qed.

Lemma sized_zget n l i x : sized n l -> zget l i = Some x -> 0 <= i < n.
Proof. unfold sized. intros H E%zget_Some. lia. Qed.
End Arrays.

Lemma length_mapM_opt {A B} (f : A -> option B) l bs : mapM_opt f l = Some bs -> length bs = length l.
Proof.
  revert bs. induction l as [|a l IH]; intros bs E; [by injection E as <-|]. cbn in E.
  destruct (f a); [|done]. cbn in E. destruct (mapM_opt f l) eqn:El; [|done]. injection E as <-. cbn. by rewrite (IH l0).
Qed.

Lemma zset2_Some {A} (l : list (list A)) i j v l' :
  zset2 l i j v = Some l' -> exists row row', zget l i = Some row /\ zset row j v = Some row' /\ zset l i row' = Some l'.
Proof. unfold zset2. intros (row & Er & (row' & Es & E)%bind_Some)%bind_Some. eauto. Qed.

Lemma sized_zset2 {A} n (l : list (list A)) i j v l' : zset2 l i j v = Some l' -> sized n l -> sized n l'.
Proof. intros (row & row' & _ & _ & E)%zset2_Some. by apply (sized_zset n l i row'). Qed.

Lemma Forall_zset2 {A} (P : list A -> Prop) (l : list (list A)) i j v l' :
  zset2 l i j v = Some l' -> Forall P l ->
  (forall row row', P row -> zset row j v = Some row' -> P row') -> Forall P l'.
Proof.
  intros (row & row' & Er & Es & E)%zset2_Some H HP. eapply Forall_zset; [exact E|done|].
  eapply HP; [|exact Es]. by eapply Forall_zget.
Qed.

Lemma rows_zset2 {A} n (P : A -> Prop) (l : list (list A)) i j v l' :
  zset2 l i j v = Some l' -> Forall (fun row => sized n row /\ Forall P row) l -> P v ->
  Forall (fun row => sized n row /\ Forall P row) l'.
Proof.
  intros E H Hv. eapply Forall_zset2; [done..|]. intros row row' [Hs Hf] Er.
  split; [by eapply sized_zset|by eapply Forall_zset].
Qed.

Lemma sized_if {A} n (b : bool) (l l' : list A) : sized n l -> sized n l' -> sized n (if b then l else l').
Proof. by destruct b. Qed.

#[export] Hint Resolve sized_zset2 rows_zset2 sized_if : wf.
#[export] Hint Extern 2 (Forall (sized _) _) =>
  eapply Forall_zset2; [eassumption|eassumption|intros; eapply sized_zset; eassumption] : wf.
#[export] Hint Resolve sized_zset sized_zupd Forall_zset Forall_zupd sized_replicate : wf.
#[export] Hint Extern 1 (in_u _ (wrapU _ _)) => apply wrapU_range; done : wf.
#[export] Hint Extern 1 (sized _ (zeros _)) => apply sized_replicate : wf.
#[export] Hint Extern 1 (sized _ (falses _)) => apply sized_replicate : wf.

(** ** Leaves *)

Section Leaves.
Context `{M : Machine} (h : list Event).
Notation I := (net_inv h).

Lemma inv_log s e : I s -> legal (history s) e -> I (s <| history := history s ++ [e] |>).
Proof. intros [Hs He] Hl. split; [done|]. by apply extends_snoc. Qed.

(** An event is noted right after the provider was asked for it. *)
Lemma keeps_ask {A} e (ok : list Event -> bool) (a : A) (m : net A) :
(forall h, ok h = true -> legal h e) -> keeps I m (fun _ => True) ->
keeps I (let* s := getS in if ok (history s) then log e ;;; ret a else m) (fun _ => True).
Proof.
intros Hok Hm s Hs. rewrite bind_getS. destruct (ok (history s)) eqn:E; [|by apply Hm].
split; [|done]. apply inv_log; [done|]. by apply Hok.
Qed.

Lemma keeps_ask_tt e (ok : list Event -> bool) r :
(forall h, ok h = true -> legal h e) ->
keeps I (let* s := getS in if ok (history s) then log e else fail r) (fun _ => True).
Proof.
intros Hok s Hs. rewrite bind_getS. destruct (ok (history s)) eqn:E; [|done].
split; [|done]. apply inv_log; [done|]. by apply Hok.
Qed.

Lemma wf_post_send q wrs : keeps I (wrap_post_send q wrs) (fun _ => True).
Proof. by apply (keeps_ask_tt (Posted q wrs) (fun h => mrc_post_send env h q wrs)). Qed.

Lemma wf_post_recv q id : keeps I (wrap_post_recv q id) (fun _ => True).
Proof. by apply (keeps_ask_tt (PostedRecv q id) (fun h => mrc_post_recv env h q id)). Qed.

Lemma wf_poll_cq cq n : keeps I (wrap_poll_cq cq n) (fun _ => True).
Proof.
intros s Hs. unfold wrap_poll_cq. rewrite bind_getS.
destruct (mrc_poll_cq env (history s) cq n) as [wcs|] eqn:E; [|done].
split; [|done]. apply inv_log; [done|]. by exists n.
Qed.

Lemma wf_clock : keeps I clock (fun _ => True).
Proof. intros s Hs. split; [|done]. by apply inv_log. Qed.

Lemma keeps_readAt {A} (f : Net -> list A) i :
keeps I (readAt f i) (fun a => exists s, I s /\ zget (f s) i = Some a).
Proof.
eapply keeps_bind; [apply keeps_getS|]. intros s Hs.
eapply keeps_weaken; [apply keeps_of_option|]. intros a E. by exists s.
Qed.

Lemma keeps_modBase f : (forall b, base_wf b -> base_wf (f b)) -> keeps I (modBase f) (fun _ => True).
Proof. intros H. apply keeps_modify. intros s [[Hb Ht] Hl]. split; [|done]. split; [by apply H|done]. Qed.

Lemma inv_req s i q : I s -> zget (reqs (base s)) i = Some q -> request_wf q /\ 0 <= i < NET_IB_MAX_REQUESTS.
Proof.
intros [[(_ & Hl & Hr & _) _] _] E. split; [by eapply Forall_zget|by eapply sized_zget].
Qed.

Lemma keeps_getReq i : keeps I (getReq i) (fun q => request_wf q /\ 0 <= i < NET_IB_MAX_REQUESTS).
Proof.
eapply keeps_weaken; [apply keeps_readAt|]. intros q (s & Hs & E). by eapply inv_req.
Qed.

Lemma keeps_modReq i f :
(forall q q', request_wf q -> f q = Some q' -> request_wf q') -> keeps I (modReq i f) (fun _ => True).
Proof.
intros H. eapply keeps_bind; [apply keeps_getReq|]. intros q [Hq Hi].
eapply keeps_bind; [apply keeps_of_option|]. intros q' E. specialize (H q q' Hq E).
eapply keeps_bind; [apply keeps_getS|]. intros s Hs.
eapply keeps_bind; [apply keeps_of_option|]. intros l El. apply keeps_modBase.
destruct Hs as [[(? & Hr & Hf & _) _] _]. intros b (? & ? & ? & Hb). split; [done|].
split; [exact (sized_zset _ _ _ _ _ El Hr)|]. split; [exact (Forall_zset _ _ _ _ _ El Hf H)|done]. 
Qed.

Lemma keeps_getSend : keeps I getSend send_wf.
Proof. intros s Hs. unfold getSend, bind, getS. destruct (tail s) eqn:E; [|done]. cbn. split; [done|]. destruct Hs as [[_ Ht] _]. by rewrite E in Ht. Qed.

Lemma keeps_getRecv : keeps I getRecv recv_wf.
Proof. intros s Hs. unfold getRecv, bind, getS. destruct (tail s) eqn:E; [done|]. cbn. split; [done|]. destruct Hs as [[_ Ht] _]. by rewrite E in Ht. Qed.

Lemma keeps_modSend f :
(forall c c', send_wf c -> f c = Some c' -> send_wf c') -> keeps I (modSend f) (fun _ => True).
Proof.
intros H. eapply keeps_bind; [apply keeps_getSend|]. intros c Hc.
eapply keeps_bind; [apply keeps_of_option|]. intros c' E. apply keeps_modify.
intros s [[Hb _] Hl]. split; [|done]. split; [done|]. by eapply H.
Qed.

Lemma keeps_modRecv f :
(forall c c', recv_wf c -> f c = Some c' -> recv_wf c') -> keeps I (modRecv f) (fun _ => True).
Proof.
intros H. eapply keeps_bind; [apply keeps_getRecv|]. intros c Hc.
eapply keeps_bind; [apply keeps_of_option|]. intros c' E. apply keeps_modify.
intros s [[Hb _] Hl]. split; [|done]. split; [done|]. by eapply H.
Qed.

Lemma keeps_getRes : keeps I getRes res_wf.
Proof.
eapply keeps_bind; [apply keeps_getS|]. intros s [[Hb _] _].
eapply keeps_weaken; [apply keeps_of_option|]. intros r E. destruct Hb as (_ & _ & _ & _ & _ & _ & _ & _ & _ & _ & Hr).
by rewrite E in Hr.
Qed.

Lemma keeps_modRes f :
(forall r r', res_wf r -> f r = Some r' -> res_wf r') -> keeps I (modRes f) (fun _ => True).
Proof.
intros H. eapply keeps_bind; [apply keeps_getRes|]. intros r Hr.
eapply keeps_bind; [apply keeps_of_option|]. intros r' E. apply keeps_modBase.
intros b (? & ? & ? & ? & ? & ? & ? & ? & ? & ? & _). repeat (split; [done|]). by eapply H.
Qed.

Lemma keeps_gets_base : keeps I (gets base) base_wf.
Proof. eapply keeps_weaken; [apply keeps_gets|]. by intros b (s & [[Hb _] _] & ->). Qed.

End Leaves.

Lemma keeps_deref {A} I (o : option A) : keeps I (deref o) (fun a => o = Some a).
Proof. apply keeps_of_option. Qed.

#[export] Hint Resolve keeps_deref wf_post_send wf_post_recv wf_poll_cq wf_clock keeps_readAt keeps_getReq keeps_getSend keeps_getRecv keeps_getRes
  keeps_gets_base : keeps.

(** ** Automation *)

(** Opens the option binds of a hypothesis [o = Some _]. *)
Ltac opt_inv :=
  repeat match goal with
  | H : (_ ≫= _) = Some _ |- _ => apply bind_Some in H; destruct H as (? & ? & H)
  | H : Some _ = Some _ |- _ => injection H as H; subst
  | H : None = Some _ |- _ => discriminate H
  end.

(** Well-formedness after an update of some fields. *)
Ltac wf_split :=
  repeat match goal with
  | H : request_wf _ |- _ => destruct H as (? & ? & ? & ? & ? & ?)
  | H : res_wf _ |- _ => destruct H as (? & ? & ? & ?)
  | H : base_wf _ |- _ => destruct H as (? & ? & ? & ? & ? & ? & ? & ? & ? & ? & ?)
  | H : send_wf _ |- _ => destruct H as (? & ? & ? & ? & ?)
  | H : recv_wf _ |- _ => destruct H as (? & ? & ? & ? & ? & ? & ? & ?)
  end.

Ltac wf_solve :=
  intros; opt_inv; wf_split;
  lazymatch goal with
  | |- request_wf _ => unfold request_wf
  | |- res_wf _ => unfold res_wf
  | |- base_wf _ => unfold base_wf
  | |- send_wf _ => unfold send_wf
  | |- recv_wf _ => unfold recv_wf
  | |- _ => idtac
  end;
  repeat (first [assumption | match goal with |- _ /\ _ => split end]); try done; cbn; eauto 6 with wf.

Ltac kleaf :=
  first [ solve [eauto 2 with keeps]
        | lazymatch goal with
          | |- keeps _ (modBase _) _ => apply keeps_modBase
          | |- keeps _ (modReq _ _) _ => apply keeps_modReq
          | |- keeps _ (modSend _) _ => apply keeps_modSend
          | |- keeps _ (modRecv _) _ => apply keeps_modRecv
          | |- keeps _ (modRes _) _ => apply keeps_modRes
          | |- keeps _ (mapM _ _) _ => apply keeps_mapM_length; intros ? ?
          | |- keeps _ _ _ => refine (_ : keeps _ _ (fun _ => True))
          end ].

Ltac kstep :=
  cbv zeta;
  lazymatch goal with
  | |- keeps _ (bind _ _) _ =>
      eapply keeps_bind;
      [kleaf | let x := fresh "v" in let Hx := fresh "Hv" in intros x Hx; cbv beta in Hx; cbv beta]
  | |- keeps _ (if ?c then _ else _) _ => destruct c eqn:?
  | |- keeps _ (match ?x with _ => _ end) _ => destruct x eqn:?
  | |- keeps _ (ret _) _ => apply keeps_ret
  | |- keeps _ (fail _) _ => apply keeps_fail
  | |- keeps _ fault _ => apply keeps_fault
  | |- keeps _ (when _ _) _ => apply keeps_when
  | |- keeps _ (forN _ _) _ => apply keeps_forN; intros ? ?
  | |- keeps _ (iterM _ _) _ => apply keeps_iterM; intros ? ?
  | |- keeps _ (mapM _ _) (fun _ => True) => eapply keeps_any, keeps_mapM_length; intros ? ?
  | |- keeps _ (modBase _) _ => apply keeps_modBase
  | |- keeps _ (modReq _ _) _ => apply keeps_modReq
  | |- keeps _ (modSend _) _ => apply keeps_modSend
  | |- keeps _ (modRecv _) _ => apply keeps_modRecv
  | |- keeps _ (modRes _) _ => apply keeps_modRes
  | |- keeps _ _ (fun _ => True) => eapply keeps_any; solve [eauto 2 with keeps]
  | |- keeps _ _ _ => eapply keeps_weaken; [solve [eauto 2 with keeps]|]
  end.

Ltac kwalk := repeat kstep; try exact I; try done; try wf_solve.
