(* ===== verification/NetInit.v ===== *)
(** * Transport: initialising a communicator

    [ncclIbBaseCommInit], [ncclIbRecvCommInit] and [ncclIbSendCommInit] of
    [net/transport/net_ib/common.cc].  Allocating the resiliency context is the
    argument [resiliencyInit]: [None] when it fails. *)

From S2P Require Import Prelude NetTypes NetBase.

Open Scope Z_scope.
Open Scope nccl_scope.

(** The [NCCL_PARAM]s read here, as the [int]s the code declares them. *)
Record InitParams := mkInitParams {
  ncclParamIbResiliencyPortFailover : Z;
  ncclParamIbSplitDataOnQps : Z;
  ncclParamIbReceiverSideMatchingScheme : Z;
  ncclParamIbOooRq : Z;
  ncclParamIbPrepostReceiveWorkRequests : Z;
}.

Section Init.
Context (ip : InitParams) (resiliencyInit : option ncclIbResiliency).

(** [ncclIbResiliencyInit]: no context unless port failover is on. *)
Definition ncclIbResiliencyInit : net (option ncclIbResiliency) :=
if ncclParamIbResiliencyPortFailover ip =? 0 then ret None
else
match resiliencyInit with
| Some r => ret (Some (r <| inProgress := false |>))
| None => fail ncclSystemError
end.

Definition matchingScheme : Z :=
let scheme := if ncclParamIbReceiverSideMatchingScheme ip =? -2 then BY_INDEX
else ncclParamIbReceiverSideMatchingScheme ip in
if negb (ncclParamIbOooRq ip =? 0) || (ncclParamIbResiliencyPortFailover ip =? 1)
 || (ncclParamIbPrepostReceiveWorkRequests ip =? 1)
then BY_ID else scheme.

Definition ncclIbBaseCommInit (send : bool) : net unit :=
modBase (fun b =>
b <| qps := map (fun q => q <| devIndex := -1 |> <| remDevIdx := -1 |>) (qps b) |>
<| activeQps := map Some (zrange NCCL_IB_MAX_QPS) |>
<| nqps := -1 |> <| splitDataOnQps := ncclParamIbSplitDataOnQps ip |>
<| nDataQps := -1 |> <| isSend := send |> <| ready := 0 |>
<| speedChangeCounter := 0 |> <| totalSpeed := 0 |>
<| weights := zeros NCCL_IB_MAX_DEVS_PER_NIC |>
<| devSpeeds := zeros NCCL_IB_MAX_DEVS_PER_NIC |>) ;;;
let* r := ncclIbResiliencyInit in
modBase (fun b => b <| resiliency := r |> <| recvMatchingScheme := matchingScheme |>).

Definition ncclIbRecvCommInit : net unit :=
ncclIbBaseCommInit false ;;;
let* res := hasResiliency in
let prepost := ncclParamIbPrepostReceiveWorkRequests ip in
modRecv (fun c => Some (
c <| ibRecvWorkRequest_wr_id := NCCL_IB_RECV_WR_ID_DUMMY |>
<| prepostReceiveWorkRequests :=
 (if prepost =? -2 then false else negb (prepost =? 0)) || res
 || negb (ncclParamIbOooRq ip =? 0) |>)).

Definition ncclIbSendCommInit : net unit := ncclIbBaseCommInit true.

End Init.
