(* ===== verification/NetSpec.v ===== *)
(** * Transport: properties of the communicator base

    Load-balancing weights, queue-pair selection and the request table. *)

From S2P Require Import Prelude NetTypes NetBase NetLemmas NetInit NetDemo.

Open Scope Z_scope.
Open Scope nccl_scope.

(** ** Ranges *)

Lemma upto_snoc k a : upto (S k) a = upto k a ++ [a + Z.of_nat k].
Proof.
  revert a. induction k as [|k IH]; intros a.
  - cbn. f_equal. lia.
  - change (upto (S (S k)) a) with (a :: upto (S k) (a + 1)). rewrite IH. cbn. do 3 f_equal. lia.
Qed.

Lemma zrange_succ n : 0 <= n -> zrange (n + 1) = zrange n ++ [n].
Proof.
  intros Hn. unfold zrange. replace (Z.to_nat (n + 1)) with (S (Z.to_nat n)) by lia.
  rewrite upto_snoc. do 2 f_equal. lia.
Qed.

Lemma zrange_lookup n i : (i < Z.to_nat n)%nat -> zrange n !! i = Some (Z.of_nat i).
Proof.
  unfold zrange. enough (forall k a, (i < k)%nat -> upto k a !! i = Some (a + Z.of_nat i)) as H.
  { intros Hi. rewrite H by done. f_equal. }
  induction i as [|i IH]; intros [|k] a Hk; try lia; cbn [upto lookup list_lookup].
  - f_equal. lia.
  - change ((a :: upto k (a + 1)) !! Datatypes.S i) with (upto k (a + 1) !! i). rewrite IH by lia. f_equal. lia.
Qed.

Lemma NoDup_zrange n : NoDup (zrange n).
Proof.
  unfold zrange. generalize (Z.to_nat n) 0. intros k. induction k as [|k IH]; intros a; [constructor|].
  cbn [upto]. constructor; [|apply IH].
  assert (forall m a e, In e (upto m a) -> a <= e) as Hlt.
  { intros m. induction m as [|m IHm]; intros a' e; cbn; [tauto|].
    intros [<-|Hin]; [lia|]. specialize (IHm _ _ Hin). lia. }
  intros Hin%list_elem_of_In%Hlt. lia.
Qed.

Lemma zsum_map_le {A} (f g : A -> Z) l :
  (forall a, In a l -> f a <= g a) -> zsum (map f l) <= zsum (map g l).
Proof.
  induction l as [|a l IH]; intros H; cbn; [lia|].
  pose proof (H a (or_introl eq_refl)). pose proof (IH (fun b Hb => H b (or_intror Hb))). lia.
Qed.

Lemma zsum_map_ext {A} (f g : A -> Z) l :
  (forall a, In a l -> f a = g a) -> zsum (map f l) = zsum (map g l).
Proof.
  induction l as [|a l IH]; intros H; cbn; [done|].
  rewrite (H a (or_introl eq_refl)), IH; [done|]. intros b Hb. apply H. by right.
Qed.

Lemma zsum_map_add {A} (f g : A -> Z) l :
  zsum (map (fun a => f a + g a) l) = zsum (map f l) + zsum (map g l).
Proof. induction l as [|a l IH]; cbn; lia. Qed.

Lemma zsum_map_scale {A} (f : A -> Z) c l : zsum (map (fun a => f a * c) l) = zsum (map f l) * c.
Proof. induction l as [|a l IH]; cbn; lia. Qed.

Lemma zsum_map_const {A} c (l : list A) : zsum (map (fun _ => c) l) = Z.of_nat (length l) * c.
Proof. induction l as [|a l IH]; cbn [map zsum length]; lia. Qed.

(** ** Weights *)

(** The first [n] entries of an array. *)
Definition entries (l : list Z) (n : Z) : list Z := map (fun d => default 0 (zget l d)) (zrange n).

Section Weights.
Context `{M : Machine}.

Lemma lbWeights_loop_run b wt k a ws acc :
0 <= a -> a + Z.of_nat k <= Z.of_nat (length ws) ->
(forall d, a <= d < a + Z.of_nat k ->
 0 <= wt d /\ exists sp, zget (devSpeeds b) d = Some sp /\ lbWeight b sp = Some (wt d)) ->
0 <= acc -> acc + zsum (map wt (upto k a)) <= 255 ->
exists ws', lbWeights_loop b (upto k a) ws acc = Some (ws', acc + zsum (map wt (upto k a)))
/\ length ws' = length ws
/\ forall i, zget ws' i = if decide (a <= i < a + Z.of_nat k) then Some (wt i) else zget ws i.
Proof.
revert a ws acc. induction k as [|k IH]; intros a ws acc Ha Hl Hw H0 H1.
- exists ws. cbn. rewrite Z.add_0_r. split; [done|]. split; [done|]. intros i.
case_decide; [lia|done].
- cbn [upto map zsum] in H1. destruct (Hw a ltac:(lia)) as (Hp & sp & Es & Ew).
assert (0 <= zsum (map wt (upto k (a + 1)))) as Hs.
{ apply zsum_nonneg, Forall_forall. intros x Hx.
apply list_elem_of_In, in_map_iff in Hx as (d & <- & Hd).
apply Hw. clear -Hd. revert a Hd. induction k as [|k IHk]; intros a; cbn; [tauto|].
intros [<-|Hd]; [lia|]. specialize (IHk _ Hd). lia. }
cbn [upto lbWeights_loop]. rewrite Es. cbn. rewrite Ew. cbn.
rewrite zset_is_Some by lia. cbn. rewrite wrapU_small by (unfold in_u; lia).
destruct (IH (a + 1) (zupd ws a (wt a)) (acc + wt a)) as (ws' & E & Hl' & Hz).
+ lia.
+ rewrite length_zupd. lia.
+ intros d Hd. apply Hw. lia.
+ lia.
+ lia.
+ exists ws'. rewrite E. split; [do 2 f_equal; cbn; lia|]. rewrite Hl', length_zupd.
split; [done|]. intros i. rewrite Hz, zget_zupd. repeat case_decide; try lia; try done.
by replace i with a by lia.
Qed.

(** What the connection set-up establishes before weights are computed. *)
Record lb_ready (s : Net) : Prop := {
lb_ndevs : 1 <= ndevs (base s) <= NCCL_IB_MAX_DEVS_PER_NIC;
lb_weights : length (weights (base s)) = Z.to_nat NCCL_IB_MAX_DEVS_PER_NIC;
lb_speeds : length (devSpeeds (base s)) = Z.to_nat NCCL_IB_MAX_DEVS_PER_NIC;
lb_total : totalSpeed (base s) = zsum (entries (devSpeeds (base s)) (ndevs (base s)));
lb_nonneg : forall d v, zget (devSpeeds (base s)) d = Some v -> 0 <= v;
lb_pos : 0 < totalSpeed (base s) < 2 ^ 57;
}.

(** The weight of device [d] before the remainder goes to the last device. *)
Definition rawWeight (b : ncclIbNetCommBase) (d : Z) : Z :=
if ncclParamIbEventBasedLb prm then default 0 (zget (devSpeeds b) d) * 100 / totalSpeed b
else 100 / ndevs b.

Lemma entry_le l n d :
(forall i v, zget l i = Some v -> 0 <= v) -> 0 <= d < n ->
0 <= default 0 (zget l d) <= zsum (entries l n).
Proof.
intros Hp Hd. assert (forall i, 0 <= default 0 (zget l i)) as H0.
{ intros i. destruct (zget l i) as [v|] eqn:E; cbn; [by eapply Hp|lia]. }
split; [done|]. unfold entries.
assert (forall m, 0 <= m -> zsum (map (fun d => default 0 (zget l d)) (zrange m)) >= 0
 /\ (d < m -> default 0 (zget l d) <= zsum (map (fun d => default 0 (zget l d)) (zrange m)))) as H.
{ intros m Hm. pattern m. apply natlike_ind; [|intros k Hk [IH1 IH2]|done].
- split; [apply Z.le_ge; cbn [zrange upto map zsum Z.to_nat]; done|lia].
- rewrite <- Z.add_1_r, zrange_succ by done. rewrite map_app, zsum_app. cbn [map zsum].
pose proof (H0 k). split; [lia|]. intros Hk'. destruct (decide (d = k)) as [->|]; [lia|].
specialize (IH2 ltac:(lia)). lia. }
apply H; lia.
Qed.

Lemma rawWeight_spec s d :
lb_ready s -> 0 <= d < ndevs (base s) ->
0 <= rawWeight (base s) d <= 100 /\
exists sp, zget (devSpeeds (base s)) d = Some sp
 /\ lbWeight (base s) sp = Some (rawWeight (base s) d).
Proof.
intros [] Hd. destruct (zget_is_Some (devSpeeds (base s)) d) as [sp Es].
{ rewrite lb_speeds0. unfold NCCL_IB_MAX_DEVS_PER_NIC in *. lia. }
pose proof (entry_le _ _ d lb_nonneg0 Hd) as He. rewrite Es in He. cbn in He.
rewrite <- lb_total0 in He.
unfold rawWeight, lbWeight. rewrite Es. cbn [default].
destruct (ncclParamIbEventBasedLb prm).
- assert (0 <= sp * 100 / totalSpeed (base s) <= 100).
{ split; [apply Z.div_pos; lia|]. apply Z.div_le_upper_bound; lia. }
split; [done|]. exists sp. split; [done|].
replace (totalSpeed (base s) =? 0) with false by (symmetry; lia).
rewrite (wrapU_small 64) by (unfold in_u; lia). by rewrite wrapU_small by (unfold in_u; lia).
- assert (0 <= 100 / ndevs (base s) <= 100).
{ split; [apply Z.div_pos; lia|]. apply Z.div_le_upper_bound; lia. }
split; [done|]. exists sp. split; [done|].
replace (ndevs (base s) =? 0) with false by (symmetry; lia).
rewrite Z.quot_div_nonneg by lia. by rewrite wrapU_small by (unfold in_u; lia).
Qed.

Lemma rawWeights_sum s :
lb_ready s -> zsum (map (rawWeight (base s)) (zrange (ndevs (base s)))) <= 100.
Proof.
intros H. pose proof H as []. unfold rawWeight. destruct (ncclParamIbEventBasedLb prm).
- set (T := totalSpeed (base s)) in *.
enough (zsum (map (fun d => default 0 (zget (devSpeeds (base s)) d) * 100 / T * T)
(zrange (ndevs (base s)))) <= T * 100) as Hle.
{ rewrite zsum_map_scale in Hle. nia. }
transitivity (zsum (entries (devSpeeds (base s)) (ndevs (base s))) * 100); [|lia].
unfold entries. rewrite <- zsum_map_scale. apply zsum_map_le. intros d _.
pose proof (Z.mul_div_le (default 0 (zget (devSpeeds (base s)) d) * 100) T ltac:(lia)). lia.
- rewrite zsum_map_const, length_zrange.
pose proof (Z.mul_div_le 100 (ndevs (base s)) ltac:(lia)). lia.
Qed.

Lemma computeLbWeights_run s :
lb_ready s ->
exists ws, ncclIbComputeLbWeights s = (Done tt, s <| base := (base s) <| weights := ws |> |>)
/\ length ws = Z.to_nat NCCL_IB_MAX_DEVS_PER_NIC
/\ zsum (entries ws (ndevs (base s))) = 100
/\ (forall d, 0 <= d < ndevs (base s) - 1 -> zget ws d = Some (rawWeight (base s) d))
/\ forall d, 0 <= d < ndevs (base s) ->
 rawWeight (base s) d <= default 0 (zget ws d) <= 100.
Proof.
intros H. pose proof H as []. set (b := base s) in *.
pose proof (rawWeights_sum s H) as Hsum. fold b in Hsum.
assert (forall d, 0 <= d < ndevs b -> 0 <= rawWeight b d <= 100) as Hraw.
{ intros d Hd. by apply (rawWeight_spec s d H). }
destruct (lbWeights_loop_run b (rawWeight b) (Z.to_nat (ndevs b)) 0 (weights b) 0)
as (ws & E & Hl & Hz); try lia.
{ intros d Hd. destruct (rawWeight_spec s d H) as [[? ?] ?]; [fold b; lia|done]. }
{ fold (zrange (ndevs b)). lia. }
fold (zrange (ndevs b)) in E. rewrite Z.add_0_l in E.
set (total := zsum (map (rawWeight b) (zrange (ndevs b)))) in *.
assert (forall d, 0 <= d < ndevs b -> zget ws d = Some (rawWeight b d)) as Hws.
{ intros d Hd. rewrite Hz. by rewrite decide_True by lia. }
assert (entries ws (ndevs b) = map (rawWeight b) (zrange (ndevs b))) as Hent.
{ apply map_ext_in. intros d Hd%In_zrange. by rewrite Hws. }
assert (zrange (ndevs b) = zrange (ndevs b - 1) ++ [ndevs b - 1]) as Hsplit
by (rewrite <- zrange_succ by lia; f_equal; lia).
unfold ncclIbComputeLbWeights. nred. fold b. rewrite (bind_some _ _ _ _ E).
rewrite lb_weights0 in Hl. destruct (Z.ltb_spec total 100) as [Hlt|Hge].
- rewrite (bind_some _ _ _ _ (Hws (ndevs b - 1) ltac:(lia))).
assert (0 <= total) as Ht0.
{ apply zsum_nonneg, Forall_forall. intros x Hx.
apply list_elem_of_In, in_map_iff in Hx as (d & <- & Hd%In_zrange). by apply Hraw. }
pose proof (Hraw (ndevs b - 1) ltac:(lia)) as Hr.
assert (rawWeight b (ndevs b - 1) <= total) as Hlast.
{ unfold total. rewrite Hsplit, map_app, zsum_app. cbn [map zsum].
assert (0 <= zsum (map (rawWeight b) (zrange (ndevs b - 1)))); [|lia].
apply zsum_nonneg, Forall_forall. intros x Hx.
apply list_elem_of_In, in_map_iff in Hx as (d & <- & Hd%In_zrange). apply Hraw. lia. }
rewrite wrapU_small by (unfold in_u; lia).
assert (0 <= ndevs b - 1 < Z.of_nat (length ws)) as Hidx
by (rewrite Hl; unfold NCCL_IB_MAX_DEVS_PER_NIC in *; lia).
rewrite (bind_some _ _ _ _ (zset_is_Some ws (ndevs b - 1) _ Hidx)).
eexists. split; [reflexivity|]. rewrite length_zupd. split; [done|]. split.
+ unfold entries. rewrite Hsplit, map_app, zsum_app. cbn [map zsum].
rewrite zget_zupd_eq by done. cbn [default].
assert (total = zsum (map (rawWeight b) (zrange (ndevs b - 1))) + rawWeight b (ndevs b - 1)) as Et.
{ unfold total. rewrite Hsplit, map_app, zsum_app. cbn [map zsum]. lia. }
rewrite (zsum_map_ext _ (rawWeight b) (zrange (ndevs b - 1))); [unfold id; lia|].
intros d Hd%In_zrange. rewrite zget_zupd_ne by lia. by rewrite Hws by lia.
+ split; [intros d Hd; rewrite zget_zupd_ne by lia; apply Hws; lia|].
intros d Hd. rewrite zget_zupd. case_decide as Hc; cbn.
* destruct Hc as [<- _]. lia.
* rewrite Hws by done. cbn. pose proof (Hraw d Hd). lia.
- eexists. split; [reflexivity|]. split; [done|]. split; [rewrite Hent; fold total; lia|].
split; [intros d Hd; apply Hws; lia|]. intros d Hd. rewrite Hws by done. cbn. pose proof (Hraw d Hd). lia.
Qed.

(** *** Device speeds *)

(** The tables [ncclIbComputeDevSpeeds] reads. *)
Record links_ready (s : Net) : Prop := {
lk_ndevs : 1 <= ndevs (base s) <= NCCL_IB_MAX_DEVS_PER_NIC;
lk_weights : length (weights (base s)) = Z.to_nat NCCL_IB_MAX_DEVS_PER_NIC;
lk_speeds : length (devSpeeds (base s)) = Z.to_nat NCCL_IB_MAX_DEVS_PER_NIC;
lk_old : forall d v, zget (devSpeeds (base s)) d = Some v -> 0 <= v;
lk_links : forall d, 0 <= d < ndevs (base s) -> exists cd qp ibDev rem,
zget (devs s) d = Some cd /\ zget (qps (base s)) d = Some qp
/\ zget (ncclIbDevs s) (cd_ibDevN cd) = Some ibDev
/\ zget (remDevs (base s)) (remDevIdx qp) = Some rem
/\ 0 < currSpeed ibDev < 2 ^ 50 /\ 0 <= rem_currSpeed rem < 2 ^ 50;
}.

Lemma devSpeed_range s d :
links_ready s -> 0 <= d < ndevs (base s) ->
exists v, devSpeed s d = Some v /\ 0 < v < 2 ^ 50.
Proof.
intros H Hd. destruct (lk_links _ H d Hd) as (cd & qp & ib & rem & E1 & E2 & E3 & E4 & Hc & Hr).
unfold devSpeed. rewrite E1, E2. cbn. rewrite E3. cbn. rewrite E4. cbn.
eexists. split; [done|]. destruct (Z.ltb_spec 0 (rem_currSpeed rem)); lia.
Qed.

Lemma devSpeeds_loop_run s k a speeds total :
(forall d, a <= d < a + Z.of_nat k -> exists v, devSpeed s d = Some v /\ 0 < v < 2 ^ 50) ->
0 <= a -> a + Z.of_nat k <= Z.of_nat (length speeds) ->
0 <= total -> total + Z.of_nat k * 2 ^ 50 < 2 ^ 60 ->
exists speeds', devSpeeds_loop s (upto k a) speeds total
= Some (speeds', total + zsum (map (fun d => default 0 (devSpeed s d)) (upto k a)))
/\ length speeds' = length speeds
/\ forall i, zget speeds' i = if decide (a <= i < a + Z.of_nat k) then devSpeed s i else zget speeds i.
Proof.
revert a speeds total. induction k as [|k IH]; intros a speeds total Hv Ha Hl H0 Ht.
- exists speeds. cbn. rewrite Z.add_0_r. split; [done|]. split; [done|]. intros i. case_decide; [lia|done].
- destruct (Hv a ltac:(lia)) as (v & Ev & Hr). cbn [upto devSpeeds_loop map zsum].
rewrite Ev. cbn [mbind option_bind default from_option id]. rewrite zset_is_Some by lia.
cbn [mbind option_bind]. rewrite wrapU_small by (unfold in_u; lia).
destruct (IH (a + 1) (zupd speeds a v) (total + v)) as (sp & E & Hl' & Hz).
+ intros d Hd. apply Hv. lia.
+ lia.
+ rewrite length_zupd. lia.
+ lia.
+ lia.
+ exists sp. rewrite E. split; [do 2 f_equal; lia|]. rewrite Hl', length_zupd. split; [done|].
intros i. rewrite Hz, zget_zupd. repeat case_decide; try lia; try done. by replace i with a by lia.
Qed.

Definition withSpeeds (s : Net) (speeds : list Z) (total : Z) : Net :=
s <| base := (base s) <| devSpeeds := speeds |> <| totalSpeed := total |> |>.

Lemma computeDevSpeeds_run s :
links_ready s ->
exists speeds, let total := zsum (entries speeds (ndevs (base s))) in
ncclIbComputeDevSpeeds s = (Done tt, withSpeeds s speeds total)
/\ (forall d, 0 <= d < ndevs (base s) -> zget speeds d = devSpeed s d)
/\ lb_ready (withSpeeds s speeds total).
Proof.
intros H. pose proof H as [Hn Hw Hs Hold _]. unfold NCCL_IB_MAX_DEVS_PER_NIC in *.
destruct (devSpeeds_loop_run s (Z.to_nat (ndevs (base s))) 0 (devSpeeds (base s)) 0)
as (sp & E & Hl & Hz); try lia.
{ intros d Hd. apply devSpeed_range; [done|lia]. }
exists sp. cbn zeta. fold (zrange (ndevs (base s))) in E.
assert (forall d, 0 <= d < ndevs (base s) -> zget sp d = devSpeed s d) as Hd.
{ intros d Hd. rewrite Hz. by rewrite decide_True by lia. }
assert (zsum (map (fun d => default 0 (devSpeed s d)) (zrange (ndevs (base s))))
= zsum (entries sp (ndevs (base s)))) as Et.
{ apply zsum_map_ext. intros d Hi%In_zrange. by rewrite Hd. }
rewrite Et, Z.add_0_l in E. split; [|split; [done|]].
- unfold ncclIbComputeDevSpeeds. nred. by rewrite (bind_some _ _ _ _ E).
- assert (forall m, 0 <= m <= ndevs (base s) -> zsum (entries sp m) <= m * 2 ^ 50 /\ m <= zsum (entries sp m)) as Hb.
{ intros m [Hm0 Hm]. revert Hm. pattern m. apply natlike_ind; [done| |done]. intros k Hk IH Hm.
unfold entries in *. rewrite <- Z.add_1_r, zrange_succ, map_app, zsum_app by done. cbn [map zsum].
destruct (devSpeed_range s k H ltac:(lia)) as (v & Ev & Hv).
rewrite Hd, Ev by lia. cbn [default from_option id]. specialize (IH ltac:(lia)). lia. }
specialize (Hb (ndevs (base s)) ltac:(lia)). constructor; try done; cbn; [by rewrite Hl| |lia].
intros d v Ev. rewrite Hz in Ev. case_decide; [|by eapply Hold].
destruct (devSpeed_range s d H ltac:(lia)) as (v' & Ev' & Hv'). rewrite Ev in Ev'. injection Ev' as <-. lia.
Qed.


End Weights.

(** ** Queue pairs *)

(** The queue-pair tables once a connection is set up: every active entry names
    a queue pair of the communicator, every queue pair a device of either end. *)
Record qps_ready (b : ncclIbNetCommBase) : Prop := {
  qr_ndevs : 1 <= ndevs b <= NCCL_IB_MAX_DEVS_PER_NIC;
  qr_nqps : 1 <= nqps b <= NCCL_IB_MAX_QPS;
  qr_data : 1 <= nDataQps b <= nqps b;
  qr_active : forall k, 0 <= k < nqps b ->
    exists q, zget (activeQps b) k = Some (Some q) /\ 0 <= q < nqps b;
  qr_qps : forall q, 0 <= q < nqps b ->
    exists qp, zget (qps b) q = Some qp /\ 0 <= devIndex qp < ndevs b
               /\ 0 <= remDevIdx qp < NCCL_IB_MAX_DEVS_PER_NIC;
}.

Definition activeQp (b : ncclIbNetCommBase) (k : Z) : Z :=
  match zget (activeQps b) k with Some (Some q) => q | _ => -1 end.

Definition devOf (b : ncclIbNetCommBase) (q : Z) : Z :=
  match zget (qps b) q with Some qp => devIndex qp | None => -1 end.

Definition nqpsPerRequest (b : ncclIbNetCommBase) : Z :=
  if splitDataOnQps b =? 1 then nqps b else nDataQps b.

(** The index of the [i]-th queue pair of request [id], round robin over all. *)
Definition requestIndex (b : ncclIbNetCommBase) (id i : Z) : Z :=
  u64 (id * nqpsPerRequest b + i) mod nqps b.

Definition requestQps (b : ncclIbNetCommBase) (id : Z) : list (Z * Z) :=
  map (fun i => (activeQp b (requestIndex b id i), requestIndex b id i))
      (zrange (nqpsPerRequest b)).

Section Qps.

Lemma nqpsPerRequest_range b : qps_ready b -> 1 <= nqpsPerRequest b <= nqps b.
Proof. intros []. unfold nqpsPerRequest. case_match; lia. Qed.

Lemma requestIndex_range b id i : qps_ready b -> 0 <= requestIndex b id i < nqps b.
Proof. intros []. apply Z.mod_pos_bound. lia. Qed.

Lemma activeQp_spec b k :
qps_ready b -> 0 <= k < nqps b ->
zget (activeQps b) k = Some (Some (activeQp b k)) /\ 0 <= activeQp b k < nqps b.
Proof.
intros H Hk. destruct (qr_active _ H k Hk) as (q & E & Hq). unfold activeQp. by rewrite E.
Qed.

Lemma nqpsPerRequest_run s :
qps_ready (base s) ->
ncclIbCommBaseGetNqpsPerRequest s = (Done (nqpsPerRequest (base s)), s).
Proof.
intros []. unfold ncclIbCommBaseGetNqpsPerRequest. nred.
replace (nDataQps (base s) =? -1) with false by lia.
by replace (nqps (base s) =? -1) with false by lia.
Qed.

Lemma getQpForRequest_run s id i :
qps_ready (base s) -> 0 <= i < nqpsPerRequest (base s) ->
ncclIbCommBaseGetQpForRequest id i s =
(Done (activeQp (base s) (requestIndex (base s) id i), requestIndex (base s) id i), s).
Proof.
intros H Hi. pose proof H as [? Hq _ _ _]. unfold NCCL_IB_MAX_QPS in Hq.
pose proof (nqpsPerRequest_range _ H). unfold ncclIbCommBaseGetQpForRequest.
nstep (nqpsPerRequest_run _ H). nred.
rewrite (wrapU_small 64 (nqps (base s))) by (unfold in_u; lia).
rewrite (wrapU_small 64 (nqpsPerRequest (base s))) by (unfold in_u; lia).
rewrite (wrapU_small 8 i) by (unfold in_u; lia). rewrite wrapU_add_l by done.
replace (nqps (base s) =? 0) with false by lia. fold (requestIndex (base s) id i).
pose proof (requestIndex_range _ id i H) as Hr.
rewrite wrapS_small by (unfold in_s; lia).
destruct (activeQp_spec _ _ H Hr) as [E _]. by rewrite (bind_some _ _ _ _ E).
Qed.

Lemma requestQps_run s id :
qps_ready (base s) ->
mapM (ncclIbCommBaseGetQpForRequest id) (zrange (nqpsPerRequest (base s))) s =
(Done (requestQps (base s) id), s).
Proof.
intros H. apply mapM_pure. intros i Hi%In_zrange. by apply getQpForRequest_run.
Qed.

Lemma requestQps_range b id qi k :
qps_ready b -> In (qi, k) (requestQps b id) -> 0 <= qi < nqps b /\ 0 <= k < nqps b.
Proof.
intros H (i & [= <- <-] & Hi)%in_map_iff.
pose proof (requestIndex_range b id i H) as Hr. split; [|done]. by apply activeQp_spec.
Qed.

(** The devices of the queue pairs of the next request. *)
Definition sendDevs (s : Net) : list Z :=
map (fun '(q, _) => devOf (base s) q) (requestQps (base s) (fifoHead (base s))).

Lemma sendDevs_range s :
qps_ready (base s) -> Forall (fun d => 0 <= d < NCCL_IB_MAX_DEVS_PER_NIC) (sendDevs s).
Proof.
intros Q. pose proof (qr_ndevs _ Q).
apply Forall_forall. intros d Hd%list_elem_of_In%in_map_iff. destruct Hd as ([q k] & <- & Hin).
destruct (requestQps_range _ _ _ _ Q Hin) as [Hq _].
destruct (qr_qps _ Q q Hq) as (qp & E & Hd & _). unfold devOf. rewrite E. lia.
Qed.

Lemma requestIndex_inj b id i j :
qps_ready b -> 0 <= id -> (id + 1) * nqpsPerRequest b <= 2 ^ 64 ->
0 <= i < nqpsPerRequest b -> 0 <= j < nqpsPerRequest b ->
requestIndex b id i = requestIndex b id j -> i = j.
Proof.
intros H H0 Hid Hi Hj. pose proof (nqpsPerRequest_range b H). pose proof (qr_nqps b H).
unfold requestIndex. rewrite !wrapU_small by (unfold in_u; nia). intros E.
set (n := nqps b) in *. set (a := id * nqpsPerRequest b) in *.
pose proof (Z.div_mod (a + i) n ltac:(lia)) as D1. pose proof (Z.div_mod (a + j) n ltac:(lia)) as D2.
rewrite E in D1. assert ((a + i) / n = (a + j) / n \/ (a + i) / n <> (a + j) / n) as [E'|N] by lia.
- rewrite E' in D1. lia.
- exfalso. assert (n <= Z.abs (n * ((a + i) / n) - n * ((a + j) / n))) by nia. lia.
Qed.
End Qps.

(** The queue pairs of a request are pairwise different, in round-robin order
    over all queue pairs of the communicator: they depend on the request number and
    the two counts only, so both ends of a connection agree on them, and the next
    request continues where this one ended. *)
Theorem request_qps_round_robin s id :
  qps_ready (base s) -> 0 <= id -> (id + 2) * nqpsPerRequest (base s) <= 2 ^ 64 ->
  let n := nqpsPerRequest (base s) in
  mapM (ncclIbCommBaseGetQpForRequest id) (zrange n) s = (Done (requestQps (base s) id), s)
  /\ List.NoDup (map snd (requestQps (base s) id))
  /\ Z.of_nat (length (requestQps (base s) id)) = n
  /\ (forall i, 0 <= i < n -> requestIndex (base s) id i = (id * n + i) mod nqps (base s))
  /\ requestIndex (base s) (id + 1) 0 = (requestIndex (base s) id (n - 1) + 1) mod nqps (base s).
Proof.
  intros H H0 Hid. cbn zeta. pose proof (nqpsPerRequest_range _ H) as Hn. pose proof (qr_nqps _ H).
  set (n := nqpsPerRequest (base s)) in *.
  split; [by apply requestQps_run|]. split.
  { unfold requestQps. fold n. rewrite map_map. cbn [snd]. apply NoDup_ListNoDup, NoDup_fmap_2_strong.
    - intros i j Hi%list_elem_of_In%In_zrange Hj%list_elem_of_In%In_zrange E.
      eapply requestIndex_inj; eauto. fold n. nia.
    - apply NoDup_zrange. }
  split; [unfold requestQps; fold n; rewrite length_map, length_zrange; lia|].
  assert (forall m i, 0 <= m <= id + 1 -> 0 <= i < n -> requestIndex (base s) m i = (m * n + i) mod nqps (base s)) as E.
  { intros m i Hm Hi. unfold requestIndex. fold n. rewrite wrapU_small; [done|]. unfold in_u. nia. }
  split; [intros i Hi; apply E; lia|]. rewrite !E by lia.
  rewrite Zplus_mod_idemp_l. f_equal. lia.
Qed.

(** ** The request table *)

Definition freshReq (q : ncclIbRequest) : ncclIbRequest :=
  q <| r_sock := false |> <| r_devBases := falses NCCL_IB_MAX_DEVS_PER_NIC |>
    <| r_events := zeros NCCL_IB_MAX_DEVS_PER_NIC |>.

Lemma getRequest_run s :
  match firstUnused (reqs (base s)) 0 with
  | Some i => exists q, zget (reqs (base s)) i = Some q
                /\ ncclIbGetRequest s = (Done i, updReq s i (freshReq q))
  | None => ncclIbGetRequest s = (Fail ncclInternalError, s)
  end.
Proof.
  pose proof (firstUnused_spec (reqs (base s)) 0) as H. unfold ncclIbGetRequest. nred.
  destruct (firstUnused (reqs (base s)) 0) as [i|]; [|done].
  destruct H as (_ & q & E & _). rewrite Z.sub_0_r in E. exists q. split; [done|].
  erewrite bind_step; [|eapply modReq_run; [exact E|reflexivity]]. done.
Qed.

(** [ncclIbGetRequest] returns the first unused request with all its event
    counters and devices cleared, and touches nothing else; it fails, without an
    effect, exactly when every request is in use.  [ncclIbFreeRequest] makes a
    request available again. *)
Theorem request_table_alloc s :
  (ncclIbGetRequest s = (Fail ncclInternalError, s)
     /\ (forall q, In q (reqs (base s)) -> r_type q <> REQ_UNUSED))
  \/ exists i q, ncclIbGetRequest s = (Done i, updReq s i (freshReq q))
       /\ zget (reqs (base s)) i = Some q /\ r_type q = REQ_UNUSED
       /\ (forall j q', 0 <= j < i -> zget (reqs (base s)) j = Some q' -> r_type q' <> REQ_UNUSED)
       /\ forall s' q', zget (reqs (base s')) i = Some q' ->
            ncclIbFreeRequest i s' = (Done tt, updReq s' i (q' <| r_type := REQ_UNUSED |>)).
Proof.
  pose proof (getRequest_run s) as Hr. pose proof (firstUnused_spec (reqs (base s)) 0) as H.
  destruct (firstUnused (reqs (base s)) 0) as [i|]; [right|left; done].
  destruct Hr as (q & Eq & Er). destruct H as (_ & q' & Eq' & Hu & Hb). rewrite Z.sub_0_r in *.
  rewrite Eq in Eq'. injection Eq' as <-. exists i, q. repeat (split; [done|]).
  intros s' q' E'. by eapply modReq_run.
Qed.

(** ** Set-up *)

(** With the documented parameter values (0 or 1, or -2 for the default), a
    receiver that posts its work requests ahead of time matches completions by
    request id: the identifier of a pre-posted request names no request.  All other
    fields a fresh communicator relies on have their initial values. *)
Theorem prepost_implies_by_id ip ri s s' c :
  (ncclParamIbPrepostReceiveWorkRequests ip = 0 \/ ncclParamIbPrepostReceiveWorkRequests ip = 1
   \/ ncclParamIbPrepostReceiveWorkRequests ip = -2) ->
  (ncclParamIbResiliencyPortFailover ip = 0 \/ ncclParamIbResiliencyPortFailover ip = 1) ->
  tail s = RecvTail c -> ncclIbRecvCommInit ip ri s = (Done tt, s') ->
  exists c', tail s' = RecvTail c' /\ ibRecvWorkRequest_wr_id c' = NCCL_IB_RECV_WR_ID_DUMMY
    /\ (prepostReceiveWorkRequests c' = true -> recvMatchingScheme (base s') = BY_ID)
    /\ (resiliency (base s') <> None <-> ncclParamIbResiliencyPortFailover ip = 1)
    /\ isSend (base s') = false /\ ready (base s') = 0
    /\ forall k, 0 <= k < NCCL_IB_MAX_QPS -> zget (activeQps (base s')) k = Some (Some k).
Proof.
  intros Hp Hf Ht E. unfold ncclIbRecvCommInit, ncclIbBaseCommInit, ncclIbResiliencyInit in E.
  assert (forall k, 0 <= k < NCCL_IB_MAX_QPS -> zget (map Some (zrange NCCL_IB_MAX_QPS)) k = Some (Some k)) as Hq.
  { intros k Hk. rewrite <- (Z2Nat.id k) at 1 by lia. rewrite zget_lookup, list_lookup_fmap.
    rewrite zrange_lookup by lia. cbn. do 2 f_equal. lia. }
  destruct Hf as [Hf|Hf]; rewrite Hf in E; cbn [Z.eqb Pos.eqb] in E;
    unfold modBase, modify, hasResiliency, modRecv, getRecv, bind, ret, gets, getS, of_option, fail in E;
    cbn in E; rewrite ?Ht in E; [|destruct ri as [r|]; [|done]; cbn in E; rewrite ?Ht in E];
    injection E as <-; eexists; (split; [reflexivity|]); (split; [reflexivity|]); cbn;
    unfold matchingScheme; rewrite ?Hf.
  - split; [|split; [split; [done|lia]|done]]. rewrite orb_false_r. intros [Hd|Hd]%orb_prop.
    + destruct Hp as [Hp | [Hp | Hp]]; rewrite Hp in *; [done| |done]. by rewrite orb_true_r.
    + by rewrite Hd.
  - split; [intros _; by rewrite orb_true_r|]. by split; [split|].
Qed.

(** ** Instances *)

Import NetDemo.Demo.

Lemma demo_qps_ready res : qps_ready (base (sender res)).
Proof.
  constructor; try done.
  - intros k Hk. zcases k; eexists; (split; [reflexivity|done]).
  - intros q Hq. zcases q; eexists; (split; [reflexivity|done]).
Qed.

Lemma demo_links_ready : links_ready (sender None).
Proof.
  constructor; try done.
  - intros d v E. pose proof (zget_Some _ _ _ E) as Hd. cbn in Hd.
    assert (0 <= d < 8) as Hd' by lia. clear Hd. zcases d; by injection E as <-.
  - intros d Hd. zcases d; repeat eexists; done.
Qed.


Lemma request_qps_round_robin_witness :
  List.NoDup (map snd (requestQps (base (sender None)) 5))
  /\ map snd (requestQps (base (sender None)) 5) = [2; 3].
Proof.
  destruct (request_qps_round_robin (sender None) 5 (demo_qps_ready None)) as (_ & H & _); [lia|done|].
  split; [exact H|reflexivity].
Defined.

Definition demoInit : InitParams := mkInitParams 1 0 (-2) 0 (-2).

Lemma prepost_implies_by_id_witness :
  exists s' c', ncclIbRecvCommInit demoInit (Some res) (receiver None) = (Done tt, s')
    /\ tail s' = RecvTail c' /\ prepostReceiveWorkRequests c' = true
    /\ recvMatchingScheme (base s') = BY_ID.
Proof.
  destruct (ncclIbRecvCommInit demoInit (Some res) (receiver None)) as [o s'] eqn:E.
  assert (o = Done tt) as -> by (vm_compute in E; by injection E as <- _).
  destruct (prepost_implies_by_id demoInit (Some res) (receiver None) s' (recvComm false)
    ltac:(right; right; reflexivity) ltac:(right; reflexivity) eq_refl E) as (c' & Et & _ & Hp & _).
  exists s', c'. assert (prepostReceiveWorkRequests c' = true) as Hpre.
  { vm_compute in E. injection E as <-. cbn in Et. injection Et as <-. reflexivity. }
  split; [reflexivity|]. split; [exact Et|]. split; [exact Hpre|exact (Hp Hpre)].
Defined.
