(* ===== verification/NetSend.v ===== *)
(** * Transport: the send path

    [ncclIbMultiSend] and [ncclIbIsend] of [net/transport/net_ib/p2p.cc].  The
    scratch arrays [comm->wrs] and [comm->sges], which every call initialises before
    use, are local values; the length and key of an SGE no work request
    refers to are written as 0.  [imm_data] is kept in host order. *)

From S2P Require Import Prelude NetTypes NetBase.

Open Scope Z_scope.
Open Scope nccl_scope.

(** [sizeof] of the structures the peer's memory is indexed by. *)
Definition sizeofCmplRecord : Z := NCCL_NET_IB_MAX_RECVS * 4 + NCCL_IB_MAX_QPS.

(** [DIVUP] on [uint64_t]; [None] is the division by 0. *)
Definition divup64 (x y : Z) : option Z :=
  if y =? 0 then None else Some (u64 (x + y - 1) / y).

(** Share of a request of [size] bytes for one of the [q] queue pairs of a device
    of weight [w], in whole chunks of [IB_WRITE_CHUNK_ALIGNMENT] bytes. *)
Definition chunkShare (size w q : Z) : option Z :=
  d ← divup64 (u64 (u64 size * w)) (100 * q);
  c ← divup64 d IB_WRITE_CHUNK_ALIGNMENT;
  Some (u32 (u64 (c * IB_WRITE_CHUNK_ALIGNMENT))).

(** What is sent of a request on one queue pair, [off] bytes being sent already. *)
Definition chunkLength (size off w q : Z) : option Z :=
  share ← chunkShare size w q; Some (Z.min (u32 (size - off)) share).

Record DataWr := mkDataWr { dw_wr : SendWr; dw_sge : Sge; dw_off : Z; dw_req : Z }.

#[export] Instance eta_DataWr : Eta DataWr := fun r => mkDataWr (dw_wr r) (dw_sge r) (dw_off r) (dw_req r).

(** The loop that prepares one write per request; [id] accumulates [wr_id]. *)
Fixpoint prepareWrs (slot r id : Z) (l : list (Z * ncclIbRequest * ncclIbSendFifo))
  : list DataWr * Z :=
  match l with
  | [] => ([], id)
  | (i, req, f) :: l' =>
      let id := u64 (id + u64 (Z.shiftl (Z.land slot 0xff) (r * 8))) in
      let wr := {| wr_id := id; wr_opcode := IBV_WR_RDMA_WRITE; wr_signaled := false;
                   wr_inline := false; wr_sg := None; wr_num_sge := 1;
                   wr_remote_addr := f_addr f; wr_rkey := 0; wr_imm := 0 |} in
      let '(ds, id') := prepareWrs slot (r + 1) id l' in
      (mkDataWr wr (mkSge (send_data req) 0 0) 0 i :: ds, id')
  end.

(** The work request that carries the immediate data: an extra one, or the only
    data write itself. *)
Definition immWr (id imm : Z) (wr : SendWr) : SendWr :=
  wr <| wr_id := id |> <| wr_opcode := IBV_WR_RDMA_WRITE_WITH_IMM |> <| wr_imm := imm |>
     <| wr_signaled := true |>.

Definition zeroWr : SendWr := {|
  wr_id := 0; wr_opcode := IBV_WR_RDMA_WRITE; wr_signaled := false; wr_inline := false;
  wr_sg := None; wr_num_sge := 0; wr_remote_addr := 0; wr_rkey := 0; wr_imm := 0 |}.

(** The list handed to the provider. *)
Definition wrChain (ds : list DataWr) (last : option SendWr) : list SendWr :=
  map (fun d => (dw_wr d) <| wr_sg := Some (dw_sge d) |>) ds ++
  match last with Some wr => [wr] | None => [] end.

Section Send.
Context `{M : Machine}.

(** One data write on the queue pair [qp], [origDev] being the device the
connection assigned to this index. *)
Definition chunkWr (slots : list ncclIbSendFifo) (lb : list Z) (qpsPerDev : list Z)
(qp : ncclIbQp) (origDev r : Z) (d : DataWr) : net DataWr :=
let* req := getReq (dw_req d) in
let* f := of_option (zget slots r) in
let* rk := of_option (zget (f_rkeys f) (remDevIdx qp)) in
let* w := of_option (zget lb origDev) in
let* q := of_option (zget qpsPerDev origDev) in
let* len := of_option (chunkLength (send_size req) (dw_off d) w q) in
let wr := (dw_wr d) <| wr_rkey := rk |> in
if len =? 0
then ret (d <| dw_wr := wr <| wr_num_sge := 0 |> |> <| dw_sge := (dw_sge d) <| sge_length := 0 |> |>)
else
let* lkey := of_option (zget (send_lkeys req) (devIndex qp)) in
ret (d <| dw_wr := wr |> <| dw_sge := (dw_sge d) <| sge_length := len |> <| sge_lkey := lkey |> |>).

Fixpoint chunkWrs (slots : list ncclIbSendFifo) (lb qpsPerDev : list Z) (qp : ncclIbQp)
(origDev r : Z) (ds : list DataWr) : net (list DataWr) :=
match ds with
| [] => ret []
| d :: ds' =>
let* d' := chunkWr slots lb qpsPerDev qp origDev r d in
let* rest := chunkWrs slots lb qpsPerDev qp origDev (r + 1) ds' in
ret (d' :: rest)
end.

(** After the post: advance the offsets and addresses, note the queue pair. *)
Definition advance (qpIndex : Z) (d : DataWr) : net DataWr :=
let len := sge_length (dw_sge d) in
let* req := getReq (dw_req d) in
modReq (dw_req d) (fun r =>
sd ← zset (send_sentData r) qpIndex true; Some (r <| send_sentData := sd |>)) ;;;
ret (d <| dw_off := Z.min (u32 (dw_off d + len)) (u32 (send_size req)) |>
 <| dw_sge := (dw_sge d) <| sge_addr := u64 (sge_addr (dw_sge d) + len) |> |>
 <| dw_wr := (dw_wr d) <| wr_remote_addr := u64 (wr_remote_addr (dw_wr d) + len) |> |>).

(** The sizes of a multi-send, written to the peer's completion record. *)
Definition sizesWr (c : ncclIbSendComm) (slot nreqs dev : Z) (last : SendWr) : net SendWr :=
let* cd := readAt devs dev in
let* rk := of_option (zget (remCmpls_rkeys c) dev) in
ret (last <| wr_sg := Some (mkSge (u64 (remCmpls_elemsAddr c + slot * (NCCL_NET_IB_MAX_RECVS * 4)))
(nreqs * 4) (cd_sizesLkey cd)) |>
<| wr_rkey := rk |>).

Definition lastOnQp (c : ncclIbSendComm) (slot nreqs dev : Z) (last : option SendWr)
: net (option SendWr) :=
match last with
| None => ret None
| Some wr =>
if 1 <? nreqs then let* wr := sizesWr c slot nreqs dev wr in ret (Some wr) else ret (Some wr)
end.

(** One turn of the loop over the queue pairs. *)
Definition sendOnQp (slot nreqs : Z) (slots : list ncclIbSendFifo) (lb qpsPerDev : list Z)
(req0 : Z) (last : option SendWr) (q : Z * Z) (ds : list DataWr) : net (list DataWr) :=
let '(qpi, qpIndex) := q in
let* qp := readAt (fun s => qps (base s)) qpi in
let* orig := readAt (fun s => qps (base s)) qpIndex in
let* ds := chunkWrs slots lb qpsPerDev qp (devIndex orig) 0 ds in
let* c := getSend in
let* last := lastOnQp c slot nreqs (devIndex qp) last in
let* res := hasResiliency in
let* r0 := getReq req0 in
let* sent := of_option (zget (send_sentData r0) qpIndex) in
when (negb (res && sent)) (wrap_post_send (DataQp qpi) (wrChain ds last)) ;;;
mapM (advance qpIndex) ds.

Fixpoint sendOnQps (slot nreqs : Z) (slots : list ncclIbSendFifo) (lb qpsPerDev : list Z)
(req0 : Z) (last : option SendWr) (qs : list (Z * Z)) (ds : list DataWr) : net (list DataWr) :=
match qs with
| [] => ret ds
| q :: qs' =>
let* ds := sendOnQp slot nreqs slots lb qpsPerDev req0 last q ds in
sendOnQps slot nreqs slots lb qpsPerDev req0 last qs' ds
end.

(** The queue pairs of a request, and how many of them each device has. *)
Fixpoint countQps (qs : list (Z * Z)) (acc : list Z) : net (list Z) :=
match qs with
| [] => ret acc
| (_, qpIndex) :: qs' =>
let* orig := readAt (fun s => qps (base s)) qpIndex in
let* n := of_option (zget acc (devIndex orig)) in
let* acc' := of_option (zset acc (devIndex orig) (n + 1)) in
countQps qs' acc'
end.

Definition ncclIbMultiSend (slot : Z) : net unit :=
let* c := getSend in
let* row := of_option (zget (sendReqs c) slot) in
let* slots := of_option (zget (ctsFifo c) slot) in
let* f0 := of_option (zget slots 0) in
let nreqs := i32 (f_nreqs f0) in
if NCCL_NET_IB_MAX_RECVS <? nreqs then fail ncclInternalError
else
let* p0 := of_option (zget row 0) in
let* i0 := deref p0 in
let* r0 := getReq i0 in
let* nqps := ncclIbCommBaseGetNqpsPerRequest in
if NCCL_IB_MAX_QPS <? nqps then fail ncclInternalError
else
let* qs := mapM (ncclIbCommBaseGetQpForRequest (r_id r0)) (zrange nqps) in
let* qpsPerDev := countQps qs (zeros NCCL_IB_MAX_DEVS_PER_NIC) in
if nreqs <? 1 then fault
else
let* l := mapM (fun r =>
let* p := of_option (zget row r) in
let* i := deref p in
let* req := getReq i in
let* f := of_option (zget slots r) in
ret (i, req, f)) (zrange nreqs) in
let '(ds, id) := prepareWrs slot 0 0 l in
let* s := getS in
let b := base s in
let immData := if bool_decide (recvMatchingScheme b = BY_ID)
 then u32 (r_id r0) else u32 (send_size r0) in
let bulk := negb (remOooRq b && localOooRq b) && negb (ar c =? 0)
&& (ncclIbArThreshold prm <? send_size r0) in
let sends :=
if (1 <? nreqs) || bulk then
let wr := if 1 <? nreqs
then zeroWr <| wr_remote_addr := u64 (remCmpls_addr c + slot * sizeofCmplRecord) |>
<| wr_num_sge := 1 |>
else zeroWr in
(ds, Some (immWr id immData wr))
else
(map (fun d => d <| dw_wr := immWr id immData (dw_wr d) |>) ds, None) in
let '(ds, last) := sends in
let* _ := sendOnQps slot nreqs slots (send_weights r0) qpsPerDev i0 last qs ds in
ret tt.

(** ** [ncclIbIsend] *)

(** What the caller finds in [*request]; [Spinning] is the busy wait for the
remaining entries of a multi-receive, left as soon as the peer's writes
have arrived. *)
Inductive isendResult : Type :=
| NoRequest
| GotRequest (i : Z)
| Spinning.

(** The request for entry [r] of the slot; [None] when the entry is taken or
has another tag. *)
Definition isendTry (slot nreqs size tag data : Z) (mh : ncclIbMrHandle) (r : Z)
(slots : list ncclIbSendFifo) : net (option Z) :=
let* c := getSend in
let* row := of_option (zget (sendReqs c) slot) in
let* p := of_option (zget row r) in
let* f := of_option (zget slots r) in
match p with
| Some _ => ret None
| None =>
if negb (f_tag f =? u32 tag) then ret None
else
let size := if f_size f <? size then f_size f else size in
let* rk0 := of_option (zget (f_rkeys f) 0) in
if (f_addr f =? 0) || (rk0 =? 0) then fail ncclInternalError
else
let* nqps := ncclIbCommBaseGetNqpsPerRequest in
if NCCL_IB_MAX_QPS <? nqps then fail ncclInternalError
else
let* head := gets (fun s => fifoHead (base s)) in
let* devIdxs := mapM (fun i =>
let* '(qpi, _) := ncclIbCommBaseGetQpForRequest head i in
let* qp := readAt (fun s => qps (base s)) qpi in
ret (devIndex qp)) (zrange nqps) in
let* req := ncclIbGetRequest in
let* res := hasResiliency in
let* b := gets base in
let* lkeys := of_option (mapM_opt (fun i => zget (mr_lkeys mh) i) (zrange (ndevs b))) in
modReq req (fun q => Some (
q <| r_id := head |> <| r_type := REQ_SEND |> <| r_sock := true |>
<| r_nreqs := nreqs |> <| send_size := i32 size |> <| send_data := data |>
<| send_sentData := if res then falses NCCL_IB_MAX_QPS else send_sentData q |>
<| send_weights := if r =? 0 then weights b else send_weights q |>)) ;;;
iterM (ncclIbAddEvent req) devIdxs ;;;
modReq req (fun q => Some (q <| send_lkeys := lkeys ++ drop (length lkeys) (send_lkeys q) |>)) ;;;
modSend (fun c =>
elems ← zset2 (remCmpls_elems c) slot r (i32 size);
rows ← zset2 (sendReqs c) slot r (Some req);
cnt ← zget (sendReqsCnt c) slot;
cnts ← zset (sendReqsCnt c) slot (cnt + 1);
Some (c <| remCmpls_elems := elems |> <| sendReqs := rows |> <| sendReqsCnt := cnts |>)) ;;;
ret (Some req)
end.

Fixpoint isendMatch (slot nreqs size tag data : Z) (mh : ncclIbMrHandle)
(slots : list ncclIbSendFifo) (rs : list Z) : net isendResult :=
match rs with
| [] => ret NoRequest
| r :: rs' =>
let* o := isendTry slot nreqs size tag data mh r slots in
match o with
| None => isendMatch slot nreqs size tag data mh slots rs'
| Some req =>
let* c := getSend in
let* cnt := of_option (zget (sendReqsCnt c) slot) in
if cnt <? nreqs then ret (GotRequest req)
else
ncclIbMultiSend slot ;;;
modBase (fun b => b <| fifoHead := u64 (fifoHead b + 1) |>) ;;;
ret (GotRequest req)
end
end.

Definition ncclIbIsend (data size tag : Z) (mh : ncclIbMrHandle) : net isendResult :=
let* b := gets base in
if ready b =? 0 then fail ncclInternalError
else
ncclIbStatsCheckFatalCount (fatalErrorCount b) ;;;
let slot := fifoHead b mod NET_IB_MAX_REQUESTS in
let idx := u64 (fifoHead b + 1) in
let* c := getSend in
let* slots := of_option (zget (ctsFifo c) slot) in
let* f0 := of_option (zget slots 0) in
if negb (f_idx f0 =? idx) then ret NoRequest
else
let nreqs := i32 (f_nreqs f0) in
let* fs := of_option (mapM_opt (fun r => zget slots r) (zrange nreqs)) in
if negb (forallb (fun f => f_idx f =? idx) (drop 1 fs)) then ret Spinning
else isendMatch slot nreqs size tag data mh slots (zrange nreqs).

End Send.
