(* ===== verification/SendPlan.v ===== *)
(** * Transport: the plan of a send

    [ncclIbMultiSend] is shown to run a pure plan ([sendPlan]): one list of work
    requests per queue pair.  The plan is then shown to tile every request. *)

From S2P Require Import Prelude NetTypes NetBase NetLemmas NetSpec NetSend.

Open Scope Z_scope.
Open Scope nccl_scope.

(** One request of a send: its index, the request and the peer's CTS entry. *)
Definition SendItem : Type := Z * ncclIbRequest * ncclIbSendFifo.
Definition it_idx (x : SendItem) : Z := x.1.1.
Definition it_req (x : SendItem) : ncclIbRequest := x.1.2.
Definition it_cts (x : SendItem) : ncclIbSendFifo := x.2.

(** ** States that differ in what was sent only *)

Definition sameReq (q q' : ncclIbRequest) : Prop :=
  q' = q <| send_sentData := send_sentData q' |>
  /\ length (send_sentData q') = length (send_sentData q).

Definition sentOnly (s s' : Net) : Prop :=
  exists l h, s' = s <| base := (base s) <| reqs := l |> |> <| history := h |>
              /\ Forall2 sameReq (reqs (base s)) l.

Lemma sameReq_refl q : sameReq q q.
Proof. split; [by destruct q|done]. Qed.

Lemma sameReq_trans q1 q2 q3 : sameReq q1 q2 -> sameReq q2 q3 -> sameReq q1 q3.
Proof.
  intros [E1 L1] [E2 L2]. split; [|congruence]. rewrite E2 at 1. rewrite E1. by destruct q1, q3.
Qed.

Lemma sentOnly_refl s : sentOnly s s.
Proof.
  exists (reqs (base s)), (history s). split; [by destruct s as [[]]|].
  apply Forall_Forall2_diag, Forall_true, sameReq_refl.
Qed.

Lemma sentOnly_trans s1 s2 s3 : sentOnly s1 s2 -> sentOnly s2 s3 -> sentOnly s1 s3.
Proof.
  intros (l & h & -> & F) (l' & h' & -> & F'). exists l', h'. split; [done|]. cbn in F'.
  revert l' F'. induction F as [|q1 q2 l1 l2 H F IH]; intros l' F'; inversion F'; subst; constructor;
    eauto using sameReq_trans.
Qed.

Lemma Forall2_zget {A B} (P : A -> B -> Prop) l l' i x :
  Forall2 P l l' -> zget l i = Some x -> exists y, zget l' i = Some y /\ P x y.
Proof.
  intros F E. unfold zget in *. case_decide; [|done].
  destruct (Forall2_lookup_l _ _ _ _ _ F E) as (y & ? & ?). eauto.
Qed.

Lemma Forall2_zupd {A} (P : A -> A -> Prop) l l' i x y :
  Forall2 P l l' -> zget l i = Some x -> P x y -> Forall2 P l (zupd l' i y).
Proof.
  intros F E H. unfold zupd. unfold zget in E. case_decide; [|done].
  apply Forall2_same_length_lookup in F as [Hl F]. apply Forall2_same_length_lookup.
  split; [by rewrite length_insert|]. intros j a b Ha Hb. destruct (decide (j = Z.to_nat i)) as [->|].
  - rewrite list_lookup_insert_eq in Hb by (rewrite <- Hl; by eapply lookup_lt_Some). congruence.
  - rewrite list_lookup_insert_ne in Hb by done. eauto.
Qed.

Lemma sentOnly_req s s' i q :
  sentOnly s s' -> zget (reqs (base s)) i = Some q ->
  exists q', zget (reqs (base s')) i = Some q' /\ sameReq q q'.
Proof. intros (l & h & -> & F) E. cbn. by eapply Forall2_zget. Qed.

Lemma sentOnly_frame s s' :
  sentOnly s s' ->
  qps (base s') = qps (base s) /\ devs s' = devs s /\ tail s' = tail s
  /\ resiliency (base s') = resiliency (base s).
Proof. by intros (l & h & -> & F). Qed.

Lemma sentOnly_upd s s' i q q' :
  sentOnly s s' -> zget (reqs (base s)) i = Some q -> sameReq q q' ->
  sentOnly s (updReq s' i q').
Proof.
  intros (l & h & -> & F) E H. exists (zupd l i q'), h. split; [done|]. by eapply Forall2_zupd.
Qed.

Lemma sentOnly_log s s' e :
  sentOnly s s' -> sentOnly s (s' <| history := history s' ++ [e] |>).
Proof. intros (l & h & -> & F). exists l, (h ++ [e]). done. Qed.

(** ** The plan of a send *)

Section Plan.
Context (b : ncclIbNetCommBase) (lb qpd : list Z).

(** Share of a request of [size] bytes for the queue pair index [k]. *)
Definition share (size k : Z) : Z :=
default 0 (chunkShare size (default 0 (zget lb (devOf b k))) (default 0 (zget qpd (devOf b k)))).

Definition planLen (size k off : Z) : Z := Z.min (size - off) (share size k).

Definition rkeyFor (x : SendItem) (q : Z) : Z :=
default 0 (qp ← zget (qps b) q; zget (f_rkeys (it_cts x)) (remDevIdx qp)).
Definition lkeyFor (x : SendItem) (q : Z) : Z :=
default 0 (zget (send_lkeys (it_req x)) (devOf b q)).

(** What [chunkWr] and [advance] compute. *)
Definition planChunk (x : SendItem) (q k : Z) (d : DataWr) : DataWr :=
let len := planLen (send_size (it_req x)) k (dw_off d) in
let wr := (dw_wr d) <| wr_rkey := rkeyFor x q |> in
if len =? 0
then d <| dw_wr := wr <| wr_num_sge := 0 |> |> <| dw_sge := (dw_sge d) <| sge_length := 0 |> |>
else d <| dw_wr := wr |>
 <| dw_sge := (dw_sge d) <| sge_length := len |> <| sge_lkey := lkeyFor x q |> |>.

Definition planNext (x : SendItem) (d : DataWr) : DataWr :=
let len := sge_length (dw_sge d) in
d <| dw_off := Z.min (u32 (dw_off d + len)) (u32 (send_size (it_req x))) |>
<| dw_sge := (dw_sge d) <| sge_addr := u64 (sge_addr (dw_sge d) + len) |> |>
<| dw_wr := (dw_wr d) <| wr_remote_addr := u64 (wr_remote_addr (dw_wr d) + len) |> |>.

Definition dataWr (d : DataWr) : SendWr := (dw_wr d) <| wr_sg := Some (dw_sge d) |>.

(** What one request sends on each queue pair, and the work-request lists. *)
Fixpoint plan (x : SendItem) (qs : list (Z * Z)) (d : DataWr) : list SendWr :=
match qs with
| [] => []
| (q, k) :: qs' => dataWr (planChunk x q k d) :: plan x qs' (planNext x (planChunk x q k d))
end.

Fixpoint sendPlan (last : Z -> list SendWr) (qs : list (Z * Z)) (cells : list (SendItem * DataWr))
: list (Z * Z * list SendWr) :=
match qs with
| [] => []
| (q, k) :: qs' =>
(q, k, map (fun '(x, d) => dataWr (planChunk x q k d)) cells ++ last q)
:: sendPlan last qs' (map (fun '(x, d) => (x, planNext x (planChunk x q k d))) cells)
end.

Lemma sendPlan_qps last qs cells : map fst (sendPlan last qs cells) = qs.
Proof.
revert cells. induction qs as [|[q k] qs IH]; intros cells; [done|]. cbn. by rewrite IH.
Qed.

(** The [j]-th work request of every list is the plan of the [j]-th request. *)
Lemma sendPlan_column last qs cells j x d :
cells !! j = Some (x, d) ->
omap (fun '(q, _, ch) => wr ← (ch : list SendWr) !! j; Some (q : Z, wr)) (sendPlan last qs cells)
= zip (map fst qs) (plan x qs d).
Proof.
revert cells d. induction qs as [|[q k] qs IH]; intros cells d E; [done|].
cbn [sendPlan plan map zip omap list_omap]. rewrite lookup_app_l.
2: { rewrite length_map. by eapply lookup_lt_Some. }
rewrite list_lookup_fmap, E. cbn [fmap option_fmap option_map mbind option_bind].
cbn. f_equal. apply IH. by rewrite list_lookup_fmap, E.
Qed.

End Plan.

(** ** Chunk sizes *)

Lemma divup64_spec x y :
  0 <= x -> 0 < y -> x + y < 2 ^ 64 ->
  exists d, divup64 x y = Some d /\ 0 <= d <= x /\ x <= y * d /\ y * d < x + y.
Proof.
  intros Hx Hy Hb. unfold divup64. replace (y =? 0) with false by lia.
  rewrite wrapU_small by (unfold in_u; lia). eexists. split; [done|].
  pose proof (Z.div_mod (x + y - 1) y ltac:(lia)). pose proof (Z.mod_pos_bound (x + y - 1) y ltac:(lia)).
  set (d := (x + y - 1) / y) in *. nia.
Qed.

(** A share is a whole number of chunks, covers its part of the request and does
    not overflow. *)
Lemma chunkShare_spec size w q :
  0 <= size < 2 ^ 31 -> 0 <= w <= 100 -> 0 < q <= NCCL_IB_MAX_QPS ->
  exists c, chunkShare size w q = Some (c * IB_WRITE_CHUNK_ALIGNMENT)
    /\ 0 <= c /\ size * w <= 100 * q * (c * IB_WRITE_CHUNK_ALIGNMENT).
Proof.
  unfold NCCL_IB_MAX_QPS, IB_WRITE_CHUNK_ALIGNMENT. intros Hs Hw Hq.
  unfold chunkShare, IB_WRITE_CHUNK_ALIGNMENT.
  rewrite (wrapU_small 64 size) by (unfold in_u; lia).
  rewrite (wrapU_small 64 (size * w)) by (unfold in_u; nia).
  destruct (divup64_spec (size * w) (100 * q)) as (d & -> & Hd & Hd1 & Hd2); [nia|lia|nia|].
  cbn [mbind option_bind]. assert (d <= 2 ^ 31) by nia.
  destruct (divup64_spec d 128) as (c & -> & Hc & Hc1 & Hc2); [lia|lia|lia|].
  cbn [mbind option_bind]. rewrite (wrapU_small 64 (c * 128)) by (unfold in_u; lia).
  rewrite wrapU_small by (unfold in_u; lia). exists c. split; [done|]. nia.
Qed.

(** ** Running the plan *)

(** What a send finds: queue pairs, weights and counts for every device. *)
Record send_ready (s : Net) (lb qpd : list Z) : Prop := {
  sr_qps : qps_ready (base s);
  sr_lb : forall d, 0 <= d < ndevs (base s) -> exists w, zget lb d = Some w /\ 0 <= w <= 100;
  sr_qpd : length qpd = Z.to_nat NCCL_IB_MAX_DEVS_PER_NIC;
}.

(** The [j]-th request of the slot, and its work request. *)
Record cell_ready (s : Net) (slots : list ncclIbSendFifo) (j : Z) (x : SendItem) (d : DataWr) : Prop := {
  cl_req : zget (reqs (base s)) (it_idx x) = Some (it_req x);
  cl_cts : zget slots j = Some (it_cts x);
  cl_size : 0 <= send_size (it_req x) < 2 ^ 31;
  cl_sent : length (send_sentData (it_req x)) = Z.to_nat NCCL_IB_MAX_QPS;
  cl_lkeys : length (send_lkeys (it_req x)) = Z.to_nat NCCL_IB_MAX_DEVS_PER_NIC;
  cl_rkeys : length (f_rkeys (it_cts x)) = Z.to_nat NCCL_IB_MAX_DEVS_PER_NIC;
  cl_idx : dw_req d = it_idx x;
  cl_off : 0 <= dw_off d <= send_size (it_req x);
}.

Definition cells_ready (s : Net) (slots : list ncclIbSendFifo) (j : Z)
    (cells : list (SendItem * DataWr)) : Prop :=
  forall n x d, cells !! n = Some (x, d) -> cell_ready s slots (j + Z.of_nat n) x d.

Lemma cells_ready_cons s slots j x d cells :
  cells_ready s slots j ((x, d) :: cells) <->
  cell_ready s slots j x d /\ cells_ready s slots (j + 1) cells.
Proof.
  split.
  - intros H. split.
    + specialize (H O x d eq_refl). by rewrite Z.add_0_r in H.
    + intros n y e E. specialize (H (S n) y e E). by replace (j + 1 + Z.of_nat n) with (j + Z.of_nat (S n)) by lia.
  - intros [H1 H2] [|n] y e E.
    + injection E as <- <-. by rewrite Z.add_0_r.
    + replace (j + Z.of_nat (S n)) with (j + 1 + Z.of_nat n) by lia. by apply H2.
Qed.

Section Run.
Context `{M : Machine}.
Context (s0 : Net) (slots : list ncclIbSendFifo) (lb qpd : list Z).
Context (R : send_ready s0 lb qpd).

Notation b := (base s0).

(** The device of index [k] has a weight and, being counted, a positive count. *)
Definition counted (k : Z) : Prop :=
exists n, zget qpd (devOf b k) = Some n /\ 0 < n <= NCCL_IB_MAX_QPS.

Lemma devOf_range k : 0 <= k < nqps b -> 0 <= devOf b k < ndevs b.
Proof.
intros Hk. destruct (qr_qps _ (sr_qps _ _ _ R) k Hk) as (qp & E & Hd & _).
unfold devOf. by rewrite E.
Qed.

Lemma share_spec size k :
0 <= k < nqps b -> counted k -> 0 <= size < 2 ^ 31 ->
exists w n c, zget lb (devOf b k) = Some w /\ zget qpd (devOf b k) = Some n
/\ chunkShare size w n = Some (share b lb qpd size k)
/\ share b lb qpd size k = c * IB_WRITE_CHUNK_ALIGNMENT /\ 0 <= c
/\ size * w <= 100 * n * share b lb qpd size k.
Proof.
intros Hk (n & En & Hn) Hs. destruct (sr_lb _ _ _ R _ (devOf_range k Hk)) as (w & Ew & Hw).
destruct (chunkShare_spec size w n Hs Hw Hn) as (c & Ec & Hc & Hle).
exists w, n, c. unfold share. rewrite Ew, En. unfold default, from_option, id. by rewrite Ec.
Qed.

Lemma planLen_range size k off :
0 <= k < nqps b -> counted k -> 0 <= size < 2 ^ 31 -> 0 <= off <= size ->
0 <= planLen b lb qpd size k off <= size - off.
Proof.
intros Hk Hc Hs Ho. destruct (share_spec size k Hk Hc Hs) as (w & n & c & _ & _ & _ & E & H0 & _).
unfold planLen. rewrite E. unfold IB_WRITE_CHUNK_ALIGNMENT. lia.
Qed.

Lemma planChunk_len x q k d :
sge_length (dw_sge (planChunk b lb qpd x q k d)) = planLen b lb qpd (send_size (it_req x)) k (dw_off d).
Proof. unfold planChunk. case_match eqn:E; cbn; lia. Qed.

Lemma planChunk_off x q k d :
dw_off (planChunk b lb qpd x q k d) = dw_off d /\ dw_req (planChunk b lb qpd x q k d) = dw_req d.
Proof. unfold planChunk. by case_match. Qed.

Lemma planNext_off x q k d :
0 <= k < nqps b -> counted k -> 0 <= send_size (it_req x) < 2 ^ 31 ->
0 <= dw_off d <= send_size (it_req x) ->
dw_off (planNext x (planChunk b lb qpd x q k d)) =
dw_off d + planLen b lb qpd (send_size (it_req x)) k (dw_off d).
Proof.
intros Hk Hc Hs Ho. pose proof (planLen_range _ _ _ Hk Hc Hs Ho).
unfold planNext. cbn. rewrite planChunk_len. destruct (planChunk_off x q k d) as [-> _].
rewrite !wrapU_small by (unfold in_u; lia). lia.
Qed.

Lemma cell_next j x d q k :
0 <= k < nqps b -> counted k -> cell_ready s0 slots j x d ->
cell_ready s0 slots j x (planNext x (planChunk b lb qpd x q k d)).
Proof.
intros Hk Hc []. constructor; try done.
- cbn. by destruct (planChunk_off x q k d) as [_ ->].
- rewrite planNext_off by done. pose proof (planLen_range _ k _ Hk Hc cl_size0 cl_off0). lia.
Qed.

Lemma chunkWr_run s j x d q k qp :
sentOnly s0 s -> cell_ready s0 slots j x d ->
0 <= k < nqps b -> counted k -> 0 <= q < nqps b -> zget (qps b) q = Some qp ->
chunkWr slots lb qpd qp (devOf b k) j d s = (Done (planChunk b lb qpd x q k d), s).
Proof.
intros Hs [] Hk Hc Hq Eqp.
destruct (sentOnly_req _ _ _ _ Hs cl_req0) as (r' & Er & [Hr _]).
destruct (share_spec _ k Hk Hc cl_size0) as (w & n & c & Ew & En & Ec & _ & _ & _).
destruct (qr_qps _ (sr_qps _ _ _ R) q Hq) as (qp' & Eqp' & Hd & Hrd).
rewrite Eqp in Eqp'. injection Eqp' as <-.
destruct (zget_is_Some (f_rkeys (it_cts x)) (remDevIdx qp)) as [rk Erk].
{ rewrite cl_rkeys0. lia. }
destruct (zget_is_Some (send_lkeys (it_req x)) (devIndex qp)) as [lk Elk].
{ rewrite cl_lkeys0. pose proof (qr_ndevs _ (sr_qps _ _ _ R)). lia. }
unfold chunkWr. rewrite <- cl_idx0 in Er. nstep (getReq_run _ _ _ Er).
rewrite (bind_some _ _ _ _ cl_cts0), (bind_some _ _ _ _ Erk), (bind_some _ _ _ _ Ew), (bind_some _ _ _ _ En).
assert (send_size r' = send_size (it_req x) /\ send_lkeys r' = send_lkeys (it_req x)) as [Hsz Hlk]
by (rewrite Hr; done).
assert (chunkLength (send_size r') (dw_off d) w n
= Some (planLen b lb qpd (send_size (it_req x)) k (dw_off d))) as El.
{ unfold chunkLength. rewrite Hsz, Ec. cbn. unfold planLen.
by rewrite wrapU_small by (unfold in_u; lia). }
rewrite (bind_some _ _ _ _ El). unfold planChunk, rkeyFor, lkeyFor. rewrite Eqp. cbn [mbind option_bind].
rewrite Erk. cbn [default from_option]. case_match; [done|].
rewrite Hlk, (bind_some _ _ _ _ Elk). unfold devOf. rewrite Eqp, Elk. done.
Qed.

Lemma chunkWrs_run s j cells q k qp :
sentOnly s0 s -> cells_ready s0 slots j cells ->
0 <= k < nqps b -> counted k -> 0 <= q < nqps b -> zget (qps b) q = Some qp ->
chunkWrs slots lb qpd qp (devOf b k) j (map snd cells) s =
(Done (map (fun '(x, d) => planChunk b lb qpd x q k d) cells), s).
Proof.
intros Hs Hcs Hk Hc Hq Eqp. revert j Hcs.
induction cells as [|[x d] cells IH]; intros j Hcs; [done|].
apply cells_ready_cons in Hcs as [H1 H2]. cbn [map snd chunkWrs].
nstep (chunkWr_run s j x d q k qp Hs H1 Hk Hc Hq Eqp). by nstep (IH _ H2).
Qed.

(** Whether queue pair index [k] is marked as sent for request [i]. *)
Definition sentAt (s : Net) (i k : Z) : option bool :=
q ← zget (reqs (base s)) i; zget (send_sentData q) k.

Lemma advance_run s j x d q k :
sentOnly s0 s -> cell_ready s0 slots j x d -> 0 <= k < nqps b -> counted k ->
exists s', advance k (planChunk b lb qpd x q k d) s =
(Done (planNext x (planChunk b lb qpd x q k d)), s')
/\ sentOnly s0 s' /\ history s' = history s
/\ (forall i k', k' <> k -> sentAt s' i k' = sentAt s i k')
/\ sentAt s' (it_idx x) k = Some true.
Proof.
intros Hs Hr Hk Hc. pose proof Hr as []. destruct (sentOnly_req _ _ _ _ Hs cl_req0) as (r' & Er & Hsr).
destruct (planChunk_off x q k d) as [_ Hi]. rewrite cl_idx0 in Hi.
assert (0 <= k < Z.of_nat (length (send_sentData r'))) as Hk'.
{ rewrite (proj2 Hsr), cl_sent0. pose proof (qr_nqps _ (sr_qps _ _ _ R)). lia. }
unfold advance. rewrite Hi. nstep (getReq_run _ _ _ Er).
erewrite bind_step; [|eapply modReq_run; [exact Er|cbn beta; rewrite zset_is_Some by lia; reflexivity]].
cbv beta.
assert (send_size r' = send_size (it_req x)) as -> by (rewrite (proj1 Hsr); done).
eexists. split; [reflexivity|]. split; [|split; [done|split]].
- eapply sentOnly_upd; [done|done|]. eapply sameReq_trans; [exact Hsr|]. split; cbn; [by destruct r'|].
apply length_zupd.
- intros i k' Hne. unfold sentAt, updReq. cbn. rewrite zget_zupd. case_decide as Hd; [|done].
destruct Hd as [<- _]. rewrite Er. cbn. by rewrite zget_zupd_ne.
- unfold sentAt, updReq. cbn. rewrite zget_zupd_eq by (by eapply zget_Some). cbn.
by rewrite zget_zupd_eq.
Qed.

Lemma advances_run s j cells q k :
sentOnly s0 s -> cells_ready s0 slots j cells -> 0 <= k < nqps b -> counted k ->
exists s', mapM (advance k) (map (fun '(x, d) => planChunk b lb qpd x q k d) cells) s =
(Done (map snd (map (fun '(x, d) => (x, planNext x (planChunk b lb qpd x q k d))) cells)), s')
/\ sentOnly s0 s' /\ history s' = history s
/\ (forall i k', k' <> k -> sentAt s' i k' = sentAt s i k').
Proof.
intros Hs Hcs Hk Hc. revert j s Hs Hcs.
induction cells as [|[x d] cells IH]; intros j s Hs Hcs; [by exists s|].
apply cells_ready_cons in Hcs as [H1 H2].
destruct (advance_run s j x d q k Hs H1 Hk Hc) as (s1 & E1 & S1 & Hh1 & Hn1 & _).
destruct (IH _ s1 S1 H2) as (s2 & E2 & S2 & Hh2 & Hn2).
exists s2. cbn [map mapM snd]. nstep E1. nstep E2. split; [done|]. split; [done|].
split; [congruence|]. intros i k' Hne. by rewrite Hn2, Hn1.
Qed.

Lemma cells_next j cells q k :
0 <= k < nqps b -> counted k -> cells_ready s0 slots j cells ->
cells_ready s0 slots j (map (fun '(x, d) => (x, planNext x (planChunk b lb qpd x q k d))) cells).
Proof.
intros Hk Hc H n x d E. rewrite list_lookup_fmap in E.
destruct (cells !! n) as [[y e]|] eqn:Ec; [|done]. injection E as <- <-.
apply cell_next; [done|done|by apply H].
Qed.

(** *** The immediate work request *)

Context (c : ncclIbSendComm) (slot nreqs : Z) (last : option SendWr).
Hypothesis Htail : tail s0 = SendTail c.
Hypothesis Hdevs : ndevs b <= Z.of_nat (length (devs s0)).
Hypothesis Hrk : length (remCmpls_rkeys c) = Z.to_nat NCCL_IB_MAX_DEVS_PER_NIC.
Hypothesis accept : forall h q wrs, mrc_post_send env h q wrs = true.

(** The extra work request on queue pair [q], when there is one. *)
Definition lastFor (q : Z) : list SendWr :=
match last with
| None => []
| Some wr =>
if 1 <? nreqs then
[wr <| wr_sg := Some (mkSge (u64 (remCmpls_elemsAddr c + slot * (NCCL_NET_IB_MAX_RECVS * 4)))
(nreqs * 4) (default 0 (cd_sizesLkey <$> zget (devs s0) (devOf b q)))) |>
<| wr_rkey := default 0 (zget (remCmpls_rkeys c) (devOf b q)) |>]
else [wr]
end.

Lemma lastOnQp_run s q :
sentOnly s0 s -> 0 <= q < nqps b ->
lastOnQp c slot nreqs (devOf b q) last s = (Done (head (lastFor q)), s)
/\ lastFor q = match head (lastFor q) with Some wr => [wr] | None => [] end.
Proof.
intros Hs Hq. unfold lastOnQp, lastFor. destruct last as [wr|]; [|done].
destruct (Z.ltb_spec 1 nreqs) as [Hn|Hn]; [|done].
destruct (sentOnly_frame _ _ Hs) as (_ & Ed & _).
pose proof (devOf_range q Hq) as Hd. pose proof (qr_ndevs _ (sr_qps _ _ _ R)).
destruct (zget_is_Some (devs s0) (devOf b q)) as [cd Ecd]; [lia|].
destruct (zget_is_Some (remCmpls_rkeys c) (devOf b q)) as [rk Erk]; [rewrite Hrk; lia|].
rewrite Ecd, Erk. split; [|done]. unfold sizesWr. rewrite bind_assoc.
rewrite <- Ed in Ecd. nstep (readAt_run devs _ _ _ Ecd). rewrite bind_assoc.
by rewrite (bind_some _ _ _ _ Erk).
Qed.

(** Whether the work requests of index [k] are left out: under failover, what is
marked as sent is not sent again. *)
Definition skipped (s : Net) (req0 k : Z) : bool :=
(if resiliency (base s) then true else false) && default false (sentAt s req0 k).

Lemma sendOnQp_run s q k cells x0 d0 :
sentOnly s0 s -> cells_ready s0 slots 0 cells -> cells !! O = Some (x0, d0) ->
0 <= k < nqps b -> counted k -> 0 <= q < nqps b ->
exists s', sendOnQp slot nreqs slots lb qpd (it_idx x0) last (q, k) (map snd cells) s =
(Done (map snd (map (fun '(x, d) => (x, planNext x (planChunk b lb qpd x q k d))) cells)), s')
/\ sentOnly s0 s'
/\ history s' = history s ++
 (if skipped s (it_idx x0) k then []
else [Posted (DataQp q) (map (fun '(x, d) => dataWr (planChunk b lb qpd x q k d)) cells ++ lastFor q)])
/\ (forall i k', k' <> k -> sentAt s' i k' = sentAt s i k').
Proof.
intros Hs Hcs E0 Hk Hc Hq.
destruct (sentOnly_frame _ _ Hs) as (Eq & _ & Et & Eres).
destruct (qr_qps _ (sr_qps _ _ _ R) q Hq) as (qp & Eqp & _).
destruct (qr_qps _ (sr_qps _ _ _ R) k Hk) as (qk & Eqk & _).
assert (devIndex qk = devOf b k) as Edk by (unfold devOf; by rewrite Eqk).
assert (devIndex qp = devOf b q) as Edq by (unfold devOf; by rewrite Eqp).
pose proof (Hcs O x0 d0 E0) as []. destruct (sentOnly_req _ _ _ _ Hs cl_req0) as (r0 & Er0 & Hr0).
destruct (zget_is_Some (send_sentData r0) k) as [sent Esent].
{ rewrite (proj2 Hr0), cl_sent0. pose proof (qr_nqps _ (sr_qps _ _ _ R)). lia. }
unfold sendOnQp.
nstep (readAt_run (fun s => qps (base s)) q s qp ltac:(cbn beta; by rewrite Eq)).
nstep (readAt_run (fun s => qps (base s)) k s qk ltac:(cbn beta; by rewrite Eq)).
rewrite Edk. nstep (chunkWrs_run s 0 cells q k qp Hs Hcs Hk Hc Hq Eqp).
nstep (getSend_run s c ltac:(by rewrite Et)).
rewrite Edq. destruct (lastOnQp_run s q Hs Hq) as [El Ef]. nstep El.
unfold hasResiliency. nred. nstep (getReq_run _ _ _ Er0). rewrite (bind_some _ _ _ _ Esent).
set (ds := map (fun '(x, d) => planChunk b lb qpd x q k d) cells).
assert (wrChain ds (head (lastFor q))
= map (fun '(x, d) => dataWr (planChunk b lb qpd x q k d)) cells ++ lastFor q) as Ew.
{ unfold wrChain, ds. rewrite map_map, <- Ef. f_equal. apply map_ext. by intros [x d]. }
assert (skipped s (it_idx x0) k = (if resiliency (base s) then true else false) && sent) as Esk.
{ unfold skipped, sentAt. rewrite Er0. cbn. by rewrite Esent. }
rewrite Esk. destruct (_ && sent); cbn [when negb].
- nred. destruct (advances_run s 0 cells q k Hs Hcs Hk Hc) as (s' & E & S' & Hh & Hn).
exists s'. rewrite Hh, app_nil_r. done.
- set (ev := Posted (DataQp q) _).
destruct (advances_run (s <| history := history s ++ [ev] |>) 0 cells q k) as (s' & E & S' & Hh & Hn);
[by apply sentOnly_log|done..|].
exists s'. split; [|by rewrite Hh]. rewrite <- E. unfold wrap_post_send. rewrite bind_assoc, bind_getS.
rewrite accept, Ew. done.
Qed.

Definition qs_ok (qs : list (Z * Z)) : Prop :=
Forall (fun '(q, k) => 0 <= q < nqps b /\ 0 <= k < nqps b /\ counted k) qs.

(** The events of the part of the plan that is not skipped. *)
Definition postedPlan (s : Net) (req0 : Z) (p : list (Z * Z * list SendWr)) : list Event :=
map (fun '(q, _, ch) => Posted (DataQp q) ch)
(List.filter (fun '(_, k, _) => negb (skipped s req0 k)) p).

Lemma postedPlan_ext s s' req0 p :
(forall q k ch, In (q, k, ch) p -> skipped s' req0 k = skipped s req0 k) ->
postedPlan s' req0 p = postedPlan s req0 p.
Proof.
intros H. unfold postedPlan. f_equal. apply filter_ext_in. intros [[q k] ch] Hin.
by rewrite (H q k ch).
Qed.

Lemma sendOnQps_run s qs cells x0 d0 :
sentOnly s0 s -> cells_ready s0 slots 0 cells -> cells !! O = Some (x0, d0) ->
qs_ok qs -> List.NoDup (map snd qs) ->
exists ds s', sendOnQps slot nreqs slots lb qpd (it_idx x0) last qs (map snd cells) s = (Done ds, s')
/\ sentOnly s0 s'
/\ history s' = history s ++ postedPlan s (it_idx x0) (sendPlan b lb qpd lastFor qs cells).
Proof.
revert s cells d0. induction qs as [|[q k] qs IH]; intros s cells d0 Hs Hcs E0 Hok Hnd.
- exists (map snd cells), s. cbn. rewrite app_nil_r. done.
- apply Forall_cons in Hok as [(Hq & Hk & Hc) Hok].
cbn [map snd] in Hnd. apply NoDup_cons_iff in Hnd as [Hnin Hnd].
destruct (sendOnQp_run s q k cells x0 d0 Hs Hcs E0 Hk Hc Hq) as (s1 & E1 & S1 & Hh1 & Hn1).
destruct (IH s1 _ (planNext x0 (planChunk b lb qpd x0 q k d0)) S1
(cells_next 0 cells q k Hk Hc Hcs)) as (ds & s2 & E2 & S2 & Hh2); [|done..|].
{ by rewrite list_lookup_fmap, E0. }
exists ds, s2. cbn [sendOnQps]. nstep E1. split; [done|]. split; [done|].
rewrite Hh2, Hh1, <- app_assoc. f_equal. cbn [sendPlan]. unfold postedPlan at 2.
cbn [List.filter]. rewrite (postedPlan_ext s).
+ by destruct (skipped s (it_idx x0) k).
+ intros q' k' ch Hin. unfold skipped. rewrite Hn1.
* destruct (sentOnly_frame _ _ Hs) as (_ & _ & _ & ->).
by destruct (sentOnly_frame _ _ S1) as (_ & _ & _ & ->).
* intros ->. apply Hnin. apply (in_map fst) in Hin. rewrite sendPlan_qps in Hin.
by apply (in_map snd) in Hin.
Qed.

End Run.

(** ** Counting queue pairs *)

Fixpoint countDev (b : ncclIbNetCommBase) (d : Z) (ks : list Z) : Z :=
  match ks with
  | [] => 0
  | k :: ks' => (if devOf b k =? d then 1 else 0) + countDev b d ks'
  end.

Lemma countDev_range b d ks : 0 <= countDev b d ks <= Z.of_nat (length ks).
Proof. induction ks as [|k ks IH]; cbn [countDev length]; [lia|]. case_match; lia. Qed.

Lemma countDev_pos b k ks : In k ks -> 0 < countDev b (devOf b k) ks.
Proof.
  induction ks as [|k' ks IH]; [done|]. cbn [countDev].
  pose proof (countDev_range b (devOf b k) ks). intros [->|H']; [rewrite Z.eqb_refl; lia|].
  specialize (IH H'). case_match; lia.
Qed.

Lemma countQps_run s qs acc :
  qps_ready (base s) -> length acc = Z.to_nat NCCL_IB_MAX_DEVS_PER_NIC ->
  Forall (fun '(_, k) => 0 <= k < nqps (base s)) qs ->
  exists acc', countQps qs acc s = (Done acc', s) /\ length acc' = length acc
    /\ forall d, 0 <= d < NCCL_IB_MAX_DEVS_PER_NIC ->
         zget acc' d = (fun n => n + countDev (base s) d (map snd qs)) <$> zget acc d.
Proof.
  intros H. revert acc. induction qs as [|[q k] qs IH]; intros acc Hl Hk.
  - exists acc. split; [done|]. split; [done|]. intros d _. cbn.
    destruct (zget acc d); cbn; f_equal. lia.
  - apply Forall_cons in Hk as [Hk Hks]. destruct (qr_qps _ H k Hk) as (qp & Eqp & Hd & _).
    pose proof (qr_ndevs _ H). destruct (zget_is_Some acc (devIndex qp)) as [n En]; [lia|].
    destruct (IH (zupd acc (devIndex qp) (n + 1))) as (acc' & E & Hl' & Hz);
      [by rewrite length_zupd|done|].
    exists acc'. cbn [countQps]. nstep (readAt_run (fun s => qps (base s)) k s qp Eqp).
    rewrite (bind_some _ _ _ _ En), (bind_some _ _ _ _ (zset_is_Some acc _ (n + 1) (zget_Some _ _ _ En))).
    split; [done|]. rewrite length_zupd in Hl'. split; [done|]. intros d Hdr. rewrite Hz by done.
    cbn [map snd countDev].
    assert (devOf (base s) k = devIndex qp) as -> by (unfold devOf; by rewrite Eqp). rewrite zget_zupd.
    destruct (Z.eqb_spec (devIndex qp) d) as [<-|Hne].
    + rewrite decide_True by (split; [done|]; by eapply zget_Some). rewrite En. cbn. f_equal. lia.
    + rewrite decide_False by tauto. destruct (zget acc d); cbn; [|done]. f_equal.
Qed.

Lemma zsum_indicator (f : Z -> Z) d n :
  0 <= d < n -> zsum (map (fun e => (if d =? e then 1 else 0) * f e) (zrange n)) = f d.
Proof.
  intros [Hd Hn].
  assert (forall m, 0 <= m -> zsum (map (fun e => (if d =? e then 1 else 0) * f e) (zrange m))
                          = if d <? m then f d else 0) as H.
  { intros m Hm. pattern m. apply natlike_ind; [|intros k Hk IH|done].
    - by replace (d <? 0) with false by lia.
    - rewrite <- Z.add_1_r, zrange_succ by done. rewrite map_app, zsum_app, IH. cbn [map zsum].
      destruct (Z.eqb_spec d k), (Z.ltb_spec d k), (Z.ltb_spec d (k + 1)); subst; lia. }
  rewrite H by lia. by replace (d <? n) with true by lia.
Qed.

(** A sum over queue pairs, grouped by device. *)
Lemma zsum_by_dev b (f : Z -> Z) n ks :
  (forall k, In k ks -> 0 <= devOf b k < n) ->
  zsum (map (fun k => f (devOf b k)) ks) = zsum (map (fun d => countDev b d ks * f d) (zrange n)).
Proof.
  induction ks as [|k ks IH]; intros H; cbn [map zsum].
  - rewrite (zsum_map_ext _ (fun _ => 0)) by (intros; cbn; lia). rewrite zsum_map_const. lia.
  - rewrite (IH (fun k' Hk' => H k' (or_intror Hk'))).
    rewrite <- (zsum_indicator f (devOf b k) n (H k (or_introl eq_refl))).
    rewrite <- zsum_map_add. apply zsum_map_ext. intros d _. cbn [countDev]. lia.
Qed.
