(* ===== verification/SendSpec.v ===== *)
(** * Transport: properties of the send path

    Every byte of every request is written exactly once, in aligned chunks, and
    every queue pair gets exactly one signalled work request. *)

From S2P Require Import Prelude NetTypes NetBase NetLemmas NetSpec NetSend SendPlan NetDemo.

Open Scope Z_scope.
Open Scope nccl_scope.

(** ** Delivery *)

(** [delivers b x off l]: the work requests [l] (with the queue pairs they are
    posted on) write the bytes of request [x] from offset [off] to its end, in
    order, in chunks that are multiples of the alignment but for the last one,
    with the keys of the devices used.  Requests without an SGE write nothing. *)
Inductive delivers (b : ncclIbNetCommBase) (x : SendItem) : Z -> list (Z * SendWr) -> Prop :=
  | delivers_end : delivers b x (send_size (it_req x)) []
  | delivers_none off q wr l :
      wr_num_sge wr = 0 -> delivers b x off l -> delivers b x off ((q, wr) :: l)
  | delivers_chunk off q wr g l :
      wr_num_sge wr = 1 ->
      wr_sg wr = Some g ->
      0 < sge_length g ->
      (IB_WRITE_CHUNK_ALIGNMENT | sge_length g) \/ off + sge_length g = send_size (it_req x) ->
      sge_addr g = u64 (send_data (it_req x) + off) ->
      wr_remote_addr wr = u64 (f_addr (it_cts x) + off) ->
      sge_lkey g = lkeyFor b x q ->
      wr_rkey wr = rkeyFor b x q ->
      delivers b x (off + sge_length g) l ->
      delivers b x off ((q, wr) :: l).

(** Delivery depends on the queue pairs, the CTS and three fields of the request. *)
Lemma delivers_fields b b' x x' off l :
  qps b' = qps b -> it_cts x' = it_cts x -> send_size (it_req x') = send_size (it_req x) ->
  send_data (it_req x') = send_data (it_req x) -> send_lkeys (it_req x') = send_lkeys (it_req x) ->
  delivers b x off l -> delivers b' x' off l.
Proof.
  intros E Ec Es Ed El.
  induction 1 as [|off q wr l Hn _ IH|off q wr g l Hn Hg Hp Ha Hs Hrem Hl Hk _ IH].
  - rewrite <- Es. constructor.
  - by apply delivers_none.
  - eapply delivers_chunk; try done; unfold lkeyFor, rkeyFor, devOf in *; by rewrite ?E, ?Ec, ?Es, ?Ed, ?El.
Qed.

Lemma delivers_ext b b' x x' off l :
  qps b' = qps b -> it_cts x' = it_cts x -> sameReq (it_req x) (it_req x') ->
  delivers b x off l -> delivers b' x' off l.
Proof.
  intros E Ec [Hr _].
  assert (send_size (it_req x') = send_size (it_req x) /\ send_data (it_req x') = send_data (it_req x)
          /\ send_lkeys (it_req x') = send_lkeys (it_req x)) as (Es & Ed & El) by (rewrite Hr; done).
  by apply delivers_fields.
Qed.

(** The work request [d] stands at the offset it records. *)
Definition at_offset (x : SendItem) (d : DataWr) : Prop :=
  sge_addr (dw_sge d) = u64 (send_data (it_req x) + dw_off d)
  /\ wr_remote_addr (dw_wr d) = u64 (f_addr (it_cts x) + dw_off d)
  /\ (dw_off d < send_size (it_req x) -> wr_num_sge (dw_wr d) = 1).

Section Tiling.
Context (s0 : Net) (slots : list ncclIbSendFifo) (lb qpd : list Z) (R : send_ready s0 lb qpd).
Notation b := (base s0).

Lemma at_offset_next j x d q k :
0 <= k < nqps b -> counted s0 qpd k -> cell_ready s0 slots j x d ->
(send_size (it_req x) = 0 \/ 0 < share b lb qpd (send_size (it_req x)) k) ->
at_offset x d -> at_offset x (planNext x (planChunk b lb qpd x q k d)).
Proof.
intros Hk Hc [] Hsh (Ha & Hr & Hn). unfold at_offset.
rewrite (planNext_off s0 lb qpd R x q k d Hk Hc cl_size cl_off).
pose proof (planLen_range s0 lb qpd R _ k _ Hk Hc cl_size cl_off) as Hlen.
unfold planNext. cbn. rewrite planChunk_len.
set (len := planLen b lb qpd (send_size (it_req x)) k (dw_off d)) in *.
unfold planChunk. fold len. split; [|split].
- destruct (Z.eqb_spec len 0); cbn; rewrite Ha, wrapU_add_l by done; f_equal; lia.
- destruct (Z.eqb_spec len 0); cbn; rewrite Hr, wrapU_add_l by done; f_equal; lia.
- intros Hlt. destruct (Z.eqb_spec len 0) as [E|]; cbn; [|apply Hn; lia].
unfold len, planLen in E. lia.
Qed.

Lemma shares_nonneg size qs :
0 <= size < 2 ^ 31 -> qs_ok s0 qpd qs -> 0 <= zsum (map (share b lb qpd size) (map snd qs)).
Proof.
intros Hs Hok. apply zsum_nonneg. induction Hok as [|[q k] qs (Hq & Hk & Hc) Hok IH]; [constructor|].
constructor; [|exact IH]. destruct (share_spec s0 lb qpd R size k Hk Hc Hs) as (w & n & c & _ & _ & _ & E & Hc0 & _).
cbn. rewrite E. unfold IB_WRITE_CHUNK_ALIGNMENT. lia.
Qed.

Lemma plan_delivers j x qs d :
cell_ready s0 slots j x d -> qs_ok s0 qpd qs -> at_offset x d ->
(forall k, In k (map snd qs) ->
 send_size (it_req x) = 0 \/ 0 < share b lb qpd (send_size (it_req x)) k) ->
send_size (it_req x) - dw_off d <=
zsum (map (share b lb qpd (send_size (it_req x))) (map snd qs)) ->
delivers b x (dw_off d) (zip (map fst qs) (plan b lb qpd x qs d)).
Proof.
revert d. induction qs as [|[q k] qs IH]; intros d Hcell Hok Hat Hpos Hsum; pose proof Hcell as [].
- cbn in Hsum. replace (dw_off d) with (send_size (it_req x)) by lia. constructor.
- apply Forall_cons in Hok as [(Hq & Hk & Hc) Hok].
pose proof (planLen_range s0 lb qpd R _ k _ Hk Hc cl_size cl_off) as Hlen.
pose proof (planNext_off s0 lb qpd R x q k d Hk Hc cl_size cl_off) as Hoff.
pose proof (Hpos k (or_introl eq_refl)) as Hp.
cbn [map fst snd plan zip]. cbn [map snd zsum] in Hsum.
assert (delivers b x (dw_off d + planLen b lb qpd (send_size (it_req x)) k (dw_off d))
(zip (map fst qs) (plan b lb qpd x qs (planNext x (planChunk b lb qpd x q k d))))) as Hrest.
{ rewrite <- Hoff. apply IH.
- by apply (cell_next s0 slots lb qpd R).
- done.
- by apply (at_offset_next j).
- intros k' Hk'. apply Hpos. by right.
- rewrite Hoff. pose proof (shares_nonneg (send_size (it_req x)) qs cl_size Hok).
unfold planLen in *. lia. }
pose proof Hat as (Ha & Hr & Hn).
unfold planChunk in *. set (len := planLen b lb qpd (send_size (it_req x)) k (dw_off d)) in *.
destruct (Z.eqb_spec len 0) as [E|E].
+ apply delivers_none; [done|]. by rewrite E, Z.add_0_r in Hrest.
+ eapply delivers_chunk; [apply Hn; lia|reflexivity|cbn..]; try done; [lia|].
destruct (share_spec s0 lb qpd R _ k Hk Hc cl_size) as (w & n & c & _ & _ & _ & Es & Hc0 & _).
unfold len, planLen in *. destruct (Z.min_spec (send_size (it_req x) - dw_off d)
(share b lb qpd (send_size (it_req x)) k)) as [[_ ->]|[_ ->]]; [right; lia|left].
rewrite Es. apply Z.divide_factor_r.
Qed.

(** The weights cover a request on the queue-pair indices [ks]. *)
Record weights_cover (ks : list Z) : Prop := {
wc_sum : 100 <= zsum (entries lb (ndevs b));
wc_used : forall d, 0 <= d < ndevs b -> 0 < default 0 (zget lb d) -> exists k, In k ks /\ devOf b k = d;
wc_pos : forall k, In k ks -> 0 < default 0 (zget lb (devOf b k));
}.

Lemma shares_cover size ks :
0 <= size < 2 ^ 31 -> weights_cover ks ->
(forall k, In k ks -> 0 <= k < nqps b) -> (Z.of_nat (length ks) <= NCCL_IB_MAX_QPS) ->
(forall d, 0 <= d < ndevs b -> zget qpd d = Some (countDev b d ks)) ->
size <= zsum (map (share b lb qpd size) ks)
/\ forall k, In k ks -> size = 0 \/ 0 < share b lb qpd size k.
Proof.
intros Hs [Hsum Hused Hpos] Hks Hlen Hcnt.
assert (forall k, In k ks -> counted s0 qpd k) as Hc.
{ intros k Hk. exists (countDev b (devOf b k) ks).
split; [apply Hcnt; eapply devOf_range; eauto|].
pose proof (countDev_pos b k ks Hk). pose proof (countDev_range b (devOf b k) ks). lia. }
split.
- set (g := fun d => default 0 (chunkShare size (default 0 (zget lb d)) (default 0 (zget qpd d)))).
change (share b lb qpd size) with (fun k => g (devOf b k)).
rewrite (zsum_by_dev b g (ndevs b)) by (intros k Hk; eapply devOf_range; eauto).
enough (size * zsum (entries lb (ndevs b)) <=
100 * zsum (map (fun d => countDev b d ks * g d) (zrange (ndevs b)))) by nia.
unfold entries. rewrite Z.mul_comm, <- zsum_map_scale, Z.mul_comm, <- zsum_map_scale.
apply zsum_map_le. intros d Hd%In_zrange.
destruct (sr_lb _ _ _ R d Hd) as (w & Ew & Hw). rewrite Ew. cbn [default from_option id].
destruct (decide (0 < w)) as [Hw0|].
+ destruct (Hused d Hd) as (k & Hk & <-); [by rewrite Ew|].
destruct (share_spec s0 lb qpd R size k (Hks k Hk) (Hc k Hk) Hs)
as (w' & n & c & Ew' & En & _ & _ & _ & Hle).
rewrite Ew in Ew'. injection Ew' as <-. rewrite (Hcnt _ Hd) in En. injection En as <-.
fold (g (devOf b k)) in Hle. unfold share in Hle. fold (g (devOf b k)) in Hle. lia.
+ assert (w = 0) as -> by lia.
assert (0 <= countDev b d ks * g d); [|lia].
destruct (decide (0 < countDev b d ks)) as [Hp|].
* apply Z.mul_nonneg_nonneg; [lia|]. unfold g. rewrite Ew, (Hcnt d Hd). cbn [default from_option id].
pose proof (countDev_range b d ks).
destruct (chunkShare_spec size 0 (countDev b d ks)) as (c & -> & ? & _); [lia..|].
unfold IB_WRITE_CHUNK_ALIGNMENT. cbn. lia.
* pose proof (countDev_range b d ks). replace (countDev b d ks) with 0 by lia. lia.
- intros k Hk. specialize (Hpos k Hk).
destruct (share_spec s0 lb qpd R size k (Hks k Hk) (Hc k Hk) Hs)
as (w & n & c & Ew & En & _ & _ & _ & Hle).
rewrite Ew in Hpos. cbn in Hpos.
destruct (Hc k Hk) as (n' & En' & Hn'). rewrite En in En'. injection En' as <-. nia.
Qed.

End Tiling.

(** ** Headers of the work requests *)

(** The part of a work request the loop over the queue pairs leaves alone. *)
Definition header (wr : SendWr) : Z * wrOpcode * bool * Z :=
  (wr_id wr, wr_opcode wr, wr_signaled wr, wr_imm wr).

Definition plainWrite (h : Z * wrOpcode * bool * Z) : Prop :=
  match h with (_, op, sig, _) => op = IBV_WR_RDMA_WRITE /\ sig = false end.

Lemma header_planChunk b lb qpd x q k d :
  header (dw_wr (planChunk b lb qpd x q k d)) = header (dw_wr d).
Proof. unfold planChunk. by case_match. Qed.

Lemma sendPlan_headers b lb qpd last qs cells q k ch :
  In (q, k, ch) (sendPlan b lb qpd last qs cells) ->
  map header ch = map (fun '(_, d) => header (dw_wr d)) cells ++ map header (last q).
Proof.
  revert cells. induction qs as [|[q' k'] qs IH]; intros cells; [done|]. cbn [sendPlan In].
  intros [E|Hin].
  - injection E as <- <- <-. rewrite map_app, map_map. f_equal. apply map_ext. intros [x d].
    apply (header_planChunk b lb qpd x q' k' d).
  - rewrite (IH _ Hin), map_map. f_equal. apply map_ext. intros [x d].
    apply (header_planChunk b lb qpd x q' k' d).
Qed.

(** ** The prepared work requests *)

Definition preparedWr (f : ncclIbSendFifo) (id : Z) : SendWr :=
  {| wr_id := id; wr_opcode := IBV_WR_RDMA_WRITE; wr_signaled := false; wr_inline := false;
     wr_sg := None; wr_num_sge := 1; wr_remote_addr := f_addr f; wr_rkey := 0; wr_imm := 0 |}.

(** The low byte of the accumulated identifier is the slot from the first request on. *)
Lemma prepareWrs_id slot r id :
  0 <= r -> (if r =? 0 then id = 0 else id mod 256 = Z.land slot 0xff) ->
  u64 (id + u64 (Z.shiftl (Z.land slot 0xff) (r * 8))) mod 256 = Z.land slot 0xff.
Proof.
  intros Hr Hid. assert (0 <= Z.land slot 0xff < 256) as Hl.
  { change 0xff with (Z.ones 8). rewrite Z.land_ones by lia. apply Z.mod_pos_bound. lia. }
  rewrite wrapU_add_r by done. unfold wrapU. rewrite Z.shiftl_mul_pow2 by lia.
  change (2 ^ 64) with (2 ^ 56 * 256). rewrite Z.mod_mod_divide by (by exists (2 ^ 56)).
  destruct (Z.eqb_spec r 0) as [->|Hr0].
  - rewrite Hid, Z.mul_1_r. by apply Z.mod_small.
  - replace (2 ^ (r * 8)) with (2 ^ ((r - 1) * 8) * 256)
      by (change 256 with (2 ^ 8); rewrite <- Z.pow_add_r by lia; f_equal; lia).
    rewrite Z.mul_assoc, Z_mod_plus_full. done.
Qed.

Lemma prepareWrs_spec slot r id xs :
  0 <= r -> (if r =? 0 then id = 0 else id mod 256 = Z.land slot 0xff) -> xs <> [] \/ 1 <= r ->
  let p := prepareWrs slot r id xs in
  length p.1 = length xs /\ p.2 mod 256 = Z.land slot 0xff
  /\ forall n x d, xs !! n = Some x -> p.1 !! n = Some d ->
       exists id', d = mkDataWr (preparedWr (it_cts x) id') (mkSge (send_data (it_req x)) 0 0) 0 (it_idx x).
Proof.
  revert r id. induction xs as [|[[i req] f] xs IH]; intros r id Hr Hid Hne; cbn zeta.
  - cbn. destruct Hne as [?|Hr1]; [done|]. by replace (r =? 0) with false in Hid by lia.
  - cbn [prepareWrs]. pose proof (prepareWrs_id slot r id Hr Hid) as H1.
    set (id1 := u64 (id + u64 (Z.shiftl (Z.land slot 0xff) (r * 8)))) in *.
    specialize (IH (r + 1) id1 ltac:(lia)). replace (r + 1 =? 0) with false in IH by lia.
    specialize (IH H1 ltac:(right; lia)). cbn zeta in IH.
    destruct (prepareWrs slot (r + 1) id1 xs) as [ds id']. cbn in IH |- *.
    destruct IH as (Hl & Hm & Hd). split; [by rewrite Hl|]. split; [done|].
    intros [|n] x d Hx Hdn; [|by eapply Hd]. injection Hx as <-. injection Hdn as <-. by exists id1.
Qed.

(** ** The theorem *)

(** A slot whose sends have all been matched with the peer's receives [xs]. *)
Record slot_ready (s : Net) (slot : Z) (c : ncclIbSendComm) (slots : list ncclIbSendFifo)
    (row : list (option Z)) (x0 : SendItem) (xs : list SendItem) : Prop := {
  ml_tail : tail s = SendTail c;
  ml_row : zget (sendReqs c) slot = Some row;
  ml_slots : zget (ctsFifo c) slot = Some slots;
  ml_n : Z.of_nat (length (x0 :: xs)) <= NCCL_NET_IB_MAX_RECVS;
  ml_nreqs : f_nreqs (it_cts x0) = Z.of_nat (length (x0 :: xs));
  ml_items : forall n x, (x0 :: xs) !! n = Some x ->
    zget row (Z.of_nat n) = Some (Some (it_idx x))
    /\ zget (reqs (base s)) (it_idx x) = Some (it_req x)
    /\ zget slots (Z.of_nat n) = Some (it_cts x)
    /\ 0 <= send_size (it_req x) < 2 ^ 31
    /\ in_u 64 (send_data (it_req x)) /\ in_u 64 (f_addr (it_cts x))
    /\ length (send_sentData (it_req x)) = Z.to_nat NCCL_IB_MAX_QPS
    /\ length (send_lkeys (it_req x)) = Z.to_nat NCCL_IB_MAX_DEVS_PER_NIC
    /\ length (f_rkeys (it_cts x)) = Z.to_nat NCCL_IB_MAX_DEVS_PER_NIC;
  ml_qps : qps_ready (base s);
  ml_devs : ndevs (base s) <= Z.of_nat (length (devs s));
  ml_rkeys : length (remCmpls_rkeys c) = Z.to_nat NCCL_IB_MAX_DEVS_PER_NIC;
  ml_id : 0 <= r_id (it_req x0) /\ (r_id (it_req x0) + 1) * nqpsPerRequest (base s) <= 2 ^ 64;
  ml_lb : forall d, 0 <= d < ndevs (base s) ->
    exists w, zget (send_weights (it_req x0)) d = Some w /\ 0 <= w <= 100;
  ml_cover : weights_cover s (send_weights (it_req x0))
    (map snd (requestQps (base s) (r_id (it_req x0))));
}.

(** The work requests of position [j] in every list. *)
Definition column (j : nat) (p : list (Z * Z * list SendWr)) : list (Z * SendWr) :=
  omap (fun '(q, _, ch) => wr ← (ch : list SendWr) !! j; Some (q : Z, wr)) p.

(** Each list ends in its only signalled request, a write with the immediate
    data of the receiver's matching scheme, from whose identifier the slot can be read. *)
Definition ends_signalled (imm slot : Z) (hs : list (Z * wrOpcode * bool * Z)) : Prop :=
  exists init id, hs = init ++ [(id, IBV_WR_RDMA_WRITE_WITH_IMM, true, imm)]
    /\ Forall plainWrite init /\ Z.land id 0xff = Z.land slot 0xff.

Definition immData (b : ncclIbNetCommBase) (r : ncclIbRequest) : Z :=
  if bool_decide (recvMatchingScheme b = BY_ID) then u32 (r_id r) else u32 (send_size r).

Lemma mapM_upto {S A} (f : Z -> comp S A) (l : list A) a s :
  (forall n x, l !! n = Some x -> f (a + Z.of_nat n) s = (Done x, s)) ->
  mapM f (upto (length l) a) s = (Done l, s).
Proof.
  revert a. induction l as [|x l IH]; intros a H; [done|]. cbn [length upto mapM].
  pose proof (H O x eq_refl) as H0. rewrite Z.add_0_r in H0. nstep H0.
  erewrite bind_step; [done|]. apply IH. intros n y Hy. specialize (H (Datatypes.S n) y Hy).
  by replace (a + 1 + Z.of_nat n) with (a + Z.of_nat (Datatypes.S n)) by lia.
Qed.

Section MultiSend.
Context `{M : Machine}.
Context (s : Net) (slot : Z) (c : ncclIbSendComm) (slots : list ncclIbSendFifo)
(row : list (option Z)) (x0 : SendItem) (rest : list SendItem).
Context (H : slot_ready s slot c slots row x0 rest).
Notation xs := (x0 :: rest).
Notation qs := (requestQps (base s) (r_id (it_req x0))).

Lemma gather_run :
mapM (fun r =>
let* p := of_option (zget row r) in
let* i := deref p in
let* req := getReq i in
let* f := of_option (zget slots r) in
ret (i, req, f)) (zrange (Z.of_nat (length xs))) s = (Done xs, s).
Proof.
unfold zrange. rewrite Nat2Z.id. apply mapM_upto. intros n x Hx. rewrite Z.add_0_l.
destruct (ml_items _ _ _ _ _ _ _ H n x Hx) as (Er & Eq & Ef & _).
rewrite (bind_some _ _ _ _ Er). unfold deref. rewrite (bind_some _ _ _ _ eq_refl).
nstep (getReq_run _ _ _ Eq). rewrite (bind_some _ _ _ _ Ef). by destruct x as [[]].
Qed.

Lemma qs_range : Forall (fun '(q, k) => 0 <= q < nqps (base s) /\ 0 <= k < nqps (base s)) qs.
Proof.
apply Forall_forall. intros [q k] Hin%list_elem_of_In.
eapply requestQps_range; [by apply H|done].
Qed.

Lemma qs_nodup : List.NoDup (map snd qs).
Proof.
unfold requestQps. rewrite map_map. cbn [snd].
apply NoDup_ListNoDup, NoDup_fmap_2_strong; [|apply NoDup_ListNoDup].
- intros i j Hi%list_elem_of_In%In_zrange Hj%list_elem_of_In%In_zrange E.
pose proof (ml_id _ _ _ _ _ _ _ H) as [? ?]. by eapply requestIndex_inj; [apply H|..].
- apply NoDup_ListNoDup, NoDup_zrange.
Qed.

Lemma qpd_run :
exists qpd, countQps qs (zeros NCCL_IB_MAX_DEVS_PER_NIC) s = (Done qpd, s)
/\ send_ready s (send_weights (it_req x0)) qpd
/\ (forall d, 0 <= d < ndevs (base s) -> zget qpd d = Some (countDev (base s) d (map snd qs)))
/\ qs_ok s qpd qs.
Proof.
pose proof (ml_qps _ _ _ _ _ _ _ H) as Q. pose proof (qr_ndevs _ Q) as Hn.
destruct (countQps_run s qs (zeros NCCL_IB_MAX_DEVS_PER_NIC) Q) as (qpd & E & Hl & Hz).
{ unfold zeros. by rewrite length_replicate. }
{ eapply Forall_impl; [apply qs_range|]. by intros [q k] [_ ?]. }
assert (forall d, 0 <= d < ndevs (base s) -> zget qpd d = Some (countDev (base s) d (map snd qs))) as Hc.
{ intros d Hd. rewrite Hz by lia. unfold zeros, zget. rewrite decide_True by lia.
rewrite lookup_replicate_2 by lia. done. }
exists qpd. split; [done|]. split; [|split; [done|]].
- split; [done|by apply H|]. rewrite Hl. unfold zeros. by rewrite length_replicate.
- apply Forall_forall. intros [q k] Hin.
pose proof (proj1 (Forall_forall _ _) qs_range _ Hin) as [Hq Hk]. split; [done|]. split; [done|].
destruct (qr_qps _ Q k Hk) as (qp & Eqp & Hd & _).
assert (devOf (base s) k = devIndex qp) as Ed by (unfold devOf; by rewrite Eqp).
exists (countDev (base s) (devOf (base s) k) (map snd qs)). split; [apply Hc; lia|].
apply list_elem_of_In, (in_map snd) in Hin. cbn in Hin.
pose proof (countDev_pos (base s) k _ Hin). pose proof (countDev_range (base s) (devOf (base s) k) (map snd qs)) as Hr.
rewrite length_map in Hr.
assert (length qs = Z.to_nat (nqpsPerRequest (base s))) as El
by (unfold requestQps; by rewrite length_map, length_zrange).
pose proof (nqpsPerRequest_range _ Q). pose proof (qr_nqps _ Q). lia.
Qed.

(** The work requests as the loop over the queue pairs finds them. *)
Definition started (ds : list DataWr) : Prop :=
length ds = length xs /\ forall n x d, xs !! n = Some x -> ds !! n = Some d ->
dw_req d = it_idx x /\ dw_off d = 0 /\ sge_addr (dw_sge d) = send_data (it_req x)
/\ wr_remote_addr (dw_wr d) = f_addr (it_cts x) /\ wr_num_sge (dw_wr d) = 1.

Lemma sends_spec ds id imm base (extra : bool) :
prepareWrs slot 0 0 xs = (ds, id) -> (extra = false -> rest = []) ->
let '(ds', last) := if extra then (ds, Some (immWr id imm base))
else (map (fun d => d <| dw_wr := immWr id imm (dw_wr d) |>) ds, None) in
started ds' /\
ends_signalled imm slot (map (fun d => header (dw_wr d)) ds' ++ map header (option_list last)).
Proof.
intros E Hx. pose proof (prepareWrs_spec slot 0 0 xs ltac:(lia) eq_refl ltac:(by left)) as Hp.
cbn zeta in Hp. rewrite E in Hp. destruct Hp as (Hl & Hid & Hd). cbn [fst snd] in *.
assert (Z.land id 0xff = Z.land slot 0xff) as Hlow.
{ rewrite <- Hid. change 0xff with (Z.ones 8) at 1. by rewrite Z.land_ones by lia. }
destruct extra.
- split.
+ split; [done|]. intros n x d Ex Ed. destruct (Hd n x d Ex Ed) as [id' ->]. done.
+ exists (map (fun d => header (dw_wr d)) ds), id. split; [done|]. split; [|done].
apply Forall_forall. intros h Hh%list_elem_of_In%in_map_iff. destruct Hh as (d & <- & Hin).
apply list_elem_of_In, list_elem_of_lookup_1 in Hin as [n Ed].
destruct (lookup_lt_is_Some_2 xs n) as [x Ex]; [apply lookup_lt_Some in Ed; by rewrite Hl in Ed|].
destruct (Hd n x d Ex Ed) as [id' ->]. done.
- rewrite (Hx eq_refl) in *. destruct ds as [|d [|]]; try done.
destruct (Hd O x0 d eq_refl eq_refl) as [id' ->]. split.
+ split; [by rewrite Hx|]. rewrite Hx by done. intros [|[|n]] x d Ex Ed; try done.
injection Ex as <-. injection Ed as <-. done.
+ by exists [], id.
Qed.

Lemma cells_start ds :
started ds ->
cells_ready s slots 0 (zip xs ds)
/\ (forall n x, xs !! n = Some x -> exists d, zip xs ds !! n = Some (x, d)
 /\ dw_off d = 0 /\ at_offset x d)
/\ map snd (zip xs ds) = ds.
Proof.
intros [Hl Hd].
assert (forall n x d, zip xs ds !! n = Some (x, d) <-> xs !! n = Some x /\ ds !! n = Some d) as Hc.
{ intros n x d. rewrite lookup_zip_with_Some. split.
- by intros (? & ? & [= -> ->] & ? & ?).
- intros [? ?]. eauto. }
split; [|split].
- intros n x d [Ex Ed]%Hc. rewrite Z.add_0_l.
destruct (Hd n x d Ex Ed) as (? & ? & ? & ? & ?).
destruct (ml_items _ _ _ _ _ _ _ H n x Ex) as (Er & Eq & Ef & Hs & _ & _ & ? & ? & ?).
constructor; try done. lia.
- intros n x Ex. destruct (lookup_lt_is_Some_2 ds n) as [d Ed]; [rewrite Hl; by eapply lookup_lt_Some|].
destruct (Hd n x d Ex Ed) as (? & Ho & Ha & Hr & Hn).
destruct (ml_items _ _ _ _ _ _ _ H n x Ex) as (_ & _ & _ & _ & Hda & Hfa & _).
exists d. split; [by apply Hc|]. split; [done|]. unfold at_offset. rewrite Ha, Hr, Ho, !Z.add_0_r.
by rewrite !wrapU_small.
- apply snd_zip. lia.
Qed.

Lemma nreqs_eq : i32 (f_nreqs (it_cts x0)) = Z.of_nat (length xs) /\ 1 <= Z.of_nat (length xs) <= 8.
Proof.
pose proof (ml_n _ _ _ _ _ _ _ H) as Hn. unfold NCCL_NET_IB_MAX_RECVS in Hn.
rewrite (ml_nreqs _ _ _ _ _ _ _ H). split; [|cbn [length] in *; lia].
rewrite wrapS_small; [done|lia|]. unfold in_s. cbn [length] in *. lia.
Qed.

Lemma multiSend_run :
(forall h q wrs, mrc_post_send env h q wrs = true) ->
exists s' qpd ds last, ncclIbMultiSend slot s = (Done tt, s')
/\ sentOnly s s'
/\ send_ready s (send_weights (it_req x0)) qpd
/\ (forall d, 0 <= d < ndevs (base s) -> zget qpd d = Some (countDev (base s) d (map snd qs)))
/\ qs_ok s qpd qs
/\ started ds
/\ ends_signalled (immData (base s) (it_req x0)) slot
 (map (fun d => header (dw_wr d)) ds ++ map header (option_list last))
/\ history s' = history s ++
 postedPlan s (it_idx x0)
 (sendPlan (base s) (send_weights (it_req x0)) qpd
(lastFor s c slot (Z.of_nat (length xs)) last) qs (zip xs ds)).
Proof.
intros Hacc. pose proof (ml_qps _ _ _ _ _ _ _ H) as Q.
destruct nreqs_eq as [En Hn8]. destruct qpd_run as (qpd & Ec & R & Hcnt & Hok).
destruct (ml_items _ _ _ _ _ _ _ H O x0 eq_refl) as (Ep & Er & Ef & _).
pose proof (nqpsPerRequest_range _ Q) as Hnq. pose proof (qr_nqps _ Q) as Hmax.
destruct (prepareWrs slot 0 0 xs) as [ds0 id] eqn:Eprep.
set (bulk := negb (remOooRq (base s) && localOooRq (base s)) && negb (ar c =? 0)
 && (ncclIbArThreshold prm <? send_size (it_req x0))).
set (extra := (1 <? Z.of_nat (length xs)) || bulk).
set (wr := if 1 <? Z.of_nat (length xs)
 then zeroWr <| wr_remote_addr := u64 (remCmpls_addr c + slot * sizeofCmplRecord) |>
 <| wr_num_sge := 1 |> else zeroWr).
pose proof (sends_spec ds0 id (immData (base s) (it_req x0)) wr extra Eprep) as Hsends.
assert (extra = false -> rest = []) as Hx.
{ intros Hf. unfold extra in Hf. apply orb_false_iff in Hf as [Hf%Z.ltb_ge _].
apply length_zero_iff_nil. cbn [length] in Hf. lia. }
specialize (Hsends Hx).
destruct (if extra then _ else _) as [ds last] eqn:Es. destruct Hsends as [Hst Hsig].
destruct (cells_start ds Hst) as (Hcells & Hat & Esnd).
destruct (Hat O x0 eq_refl) as (d0 & E0 & _).
destruct (sendOnQps_run s slots _ qpd R c slot (Z.of_nat (length xs)) last (ml_tail _ _ _ _ _ _ _ H)
(ml_devs _ _ _ _ _ _ _ H) (ml_rkeys _ _ _ _ _ _ _ H) Hacc s qs (zip xs ds) x0 d0
(sentOnly_refl s) Hcells E0 Hok qs_nodup) as (ds' & s' & Erun & Ss & Hh).
exists s', qpd, ds, last. split; [|done]. unfold ncclIbMultiSend.
nstep (getSend_run _ _ (ml_tail _ _ _ _ _ _ _ H)).
rewrite (bind_some _ _ _ _ (ml_row _ _ _ _ _ _ _ H)), (bind_some _ _ _ _ (ml_slots _ _ _ _ _ _ _ H)).
rewrite (bind_some _ _ _ _ Ef). cbv zeta. rewrite En.
replace (NCCL_NET_IB_MAX_RECVS <? Z.of_nat (length xs)) with false by (unfold NCCL_NET_IB_MAX_RECVS; lia).
rewrite (bind_some _ _ _ _ Ep). unfold deref at 1. rewrite (bind_some _ _ _ _ eq_refl).
nstep (getReq_run _ _ _ Er). nstep (nqpsPerRequest_run s Q).
replace (NCCL_IB_MAX_QPS <? nqpsPerRequest (base s)) with false by lia.
nstep (requestQps_run s (r_id (it_req x0)) Q). nstep Ec.
replace (Z.of_nat (length xs) <? 1) with false by lia.
nstep gather_run. rewrite Eprep. nred. fold (immData (base s) (it_req x0)).
fold bulk. fold extra wr. rewrite Es. rewrite Esnd in Erun. nstep Erun. done.
Qed.

End MultiSend.

Lemma multiSend_tiles `{M : Machine} s slot c slots row x0 rest :
  slot_ready s slot c slots row x0 rest ->
  (forall h q wrs, mrc_post_send env h q wrs = true) ->
  exists s' p, ncclIbMultiSend slot s = (Done tt, s') /\ sentOnly s s'
    /\ map fst p = requestQps (base s) (r_id (it_req x0))
    /\ (forall q k ch, In (q, k, ch) p ->
          ends_signalled (immData (base s) (it_req x0)) slot (map header ch))
    /\ (forall j x, (x0 :: rest) !! j = Some x -> delivers (base s) x 0 (column j p))
    /\ history s' = history s ++ postedPlan s (it_idx x0) p.
Proof.
  intros H Hacc.
  destruct (multiSend_run s slot c slots row x0 rest H Hacc)
    as (s' & qpd & ds & last & E & Ss & R & Hcnt & Hok & Hst & Hsig & Hh).
  destruct (cells_start s slot c slots row x0 rest H ds Hst) as (Hcells & Hat & Esnd).
  eexists s', _. split; [exact E|]. split; [exact Ss|]. split; [apply sendPlan_qps|].
  split; [|split; [|exact Hh]].
  - intros q k ch Hin. rewrite (sendPlan_headers _ _ _ _ _ _ _ _ _ Hin).
    assert (map (fun '(_, d) => header (dw_wr d)) (zip (x0 :: rest) ds) = map (fun d => header (dw_wr d)) ds) as ->.
    { rewrite <- Esnd at 2. rewrite map_map. apply map_ext. by intros [x d]. }
    assert (map header (lastFor s c slot (Z.of_nat (length (x0 :: rest))) last q) = map header (option_list last)) as ->.
    { unfold lastFor. destruct last; [|done]. by case_match. }
    exact Hsig.
  - intros j x Ex. destruct (Hat j x Ex) as (d & Ed & Ho & Had).
    unfold column. rewrite (sendPlan_column _ _ _ _ _ _ _ _ _ Ed).
    pose proof (Hcells j x d Ed) as Hcell.
    destruct (shares_cover s _ qpd R (send_size (it_req x)) (map snd (requestQps (base s) (r_id (it_req x0)))))
      as [Hsum Hpos].
    + apply Hcell.
    + apply H.
    + intros k (qk & <- & Hin)%in_map_iff. destruct qk as [q k].
      by destruct (requestQps_range _ _ _ _ (ml_qps _ _ _ _ _ _ _ H) Hin).
    + unfold requestQps. rewrite !length_map, length_zrange.
      pose proof (ml_qps _ _ _ _ _ _ _ H) as Q. pose proof (nqpsPerRequest_range _ Q).
      pose proof (qr_nqps _ Q). lia.
    + exact Hcnt.
    + rewrite <- Ho. eapply plan_delivers; [exact R|exact Hcell|exact Hok|exact Had|exact Hpos|].
      rewrite Ho. lia.
Qed.

(** C2. [ncclIbMultiSend] returns normally on a matched slot and posts, on each of
    the request's queue pairs once and in order, one list of work requests: the
    [j]-th entries of the lists write every byte of the [j]-th request exactly
    once, in chunks that are multiples of 128 bytes but for the last, with the keys
    of the devices used; only the last entry of a list is signalled, and it carries
    the immediate data of the matching scheme and an identifier that decodes to the
    slot.  Under failover the lists of queue pairs marked as sent are left out and
    the others are unchanged, so a replay sends exactly the missing chunks. *)
Theorem multiSend_delivers `{M : Machine} s slot c slots row x0 rest :
  slot_ready s slot c slots row x0 rest ->
  (forall h q wrs, mrc_post_send env h q wrs = true) ->
  exists s' p, ncclIbMultiSend slot s = (Done tt, s') /\ sentOnly s s'
    /\ map fst p = requestQps (base s) (r_id (it_req x0))
    /\ (forall q k ch, In (q, k, ch) p ->
          ends_signalled (immData (base s) (it_req x0)) slot (map header ch))
    /\ (forall j x, (x0 :: rest) !! j = Some x -> delivers (base s) x 0 (column j p))
    /\ history s' = history s ++ postedPlan s (it_idx x0) p.
Proof. apply multiSend_tiles. Qed.

Import NetDemo.Demo.

Lemma demo_slot_ready res :
  slot_ready (sender res) 5 sendComm slots row
    (0, sendReq 1000 0x5000, cts 2 0x9000 1) [(1, sendReq 0 0x6000, cts 2 0xa000 2)].
Proof.
  constructor; try done; try apply demo_qps_ready.
  - intros [|[|n]] x E; try done; injection E as <-; repeat (split; [done|]); done.
  - intros d Hd. zcases d; eexists; (split; [reflexivity|done]).
  - constructor; [done| |].
    + intros d Hd Hw. zcases d; [exists 3|exists 2]; vm_compute; tauto.
    + intros k Hk. cbn in Hk. by repeat destruct Hk as [<-|Hk].
Qed.

Lemma multiSend_delivers_witness :
  exists s' p, @ncclIbMultiSend machine 5 (sender None) = (Done tt, s')
    /\ column 0 p <> [] /\ delivers (base (sender None)) (0, sendReq 1000 0x5000, cts 2 0x9000 1) 0 (column 0 p).
Proof.
  destruct (@multiSend_delivers machine _ 5 _ _ _ _ _ (demo_slot_ready None) (fun _ _ _ => eq_refl))
    as (s' & p & E & _ & Hp & _ & Hd & _).
  exists s', p. split; [exact E|]. split; [|by apply Hd].
  specialize (Hd O _ eq_refl). inversion Hd; done.
Defined.
