(* ===== verification/IsendSpec.v ===== *)
(** * Transport: properties of [ncclIbIsend]

    The send waits for the peer's clear-to-send; once it is there, the message
    leaves in one call. *)

From S2P Require Import Prelude NetTypes NetBase NetLemmas NetSpec NetSend SendPlan NetDemo SendSpec.

Open Scope Z_scope.
Open Scope nccl_scope.

Lemma mapM_opt_upto {A} (l : list A) k a :
  0 <= a -> a + Z.of_nat k <= Z.of_nat (length l) ->
  mapM_opt (fun i => zget l i) (upto k a) = Some (take k (drop (Z.to_nat a) l)).
Proof.
  revert a. induction k as [|k IH]; intros a Ha Hk; [done|]. cbn [upto mapM_opt].
  destruct (zget_is_Some l a) as [x Ex]; [lia|]. rewrite Ex. cbn [mbind option_bind].
  rewrite IH by lia. cbn [mbind option_bind]. unfold zget in Ex. rewrite decide_True in Ex by done.
  rewrite (drop_S l x (Z.to_nat a)) by done. cbn [take]. do 3 f_equal. f_equal. lia.
Qed.

Lemma mapM_opt_zget {A} (l : list A) n :
  n <= Z.of_nat (length l) -> mapM_opt (fun i => zget l i) (zrange n) = Some (take (Z.to_nat n) l).
Proof.
  intros Hn. unfold zrange. destruct (decide (0 <= n)).
  - rewrite mapM_opt_upto by lia. by rewrite drop_0.
  - by replace (Z.to_nat n) with O by lia.
Qed.

(** A sender between two messages. *)
Record send_open (s : Net) (c : ncclIbSendComm) (slot : Z) (slots : list ncclIbSendFifo) : Prop := {
  so_tail : tail s = SendTail c;
  so_ready : ready (base s) <> 0;
  so_fatal : fatalErrorCount (base s) = 0;
  so_slot : slot = fifoHead (base s) mod NET_IB_MAX_REQUESTS;
  so_head : 0 <= fifoHead (base s) /\ (fifoHead (base s) + 1) * nqpsPerRequest (base s) < 2 ^ 64;
  so_cts : zget (ctsFifo c) slot = Some slots;
  so_reqs : zget (sendReqs c) slot = Some (replicate (Z.to_nat NCCL_NET_IB_MAX_RECVS) None);
  so_cnt : zget (sendReqsCnt c) slot = Some 0;
  so_elems : exists l, zget (remCmpls_elems c) slot = Some l /\ length l = Z.to_nat NCCL_NET_IB_MAX_RECVS;
  so_table : forall i q, zget (reqs (base s)) i = Some q ->
    length (send_sentData q) = Z.to_nat NCCL_IB_MAX_QPS
    /\ length (send_lkeys q) = Z.to_nat NCCL_IB_MAX_DEVS_PER_NIC;
  so_qps : qps_ready (base s);
  so_devs : ndevs (base s) <= Z.of_nat (length (devs s));
  so_rkeys : length (remCmpls_rkeys c) = Z.to_nat NCCL_IB_MAX_DEVS_PER_NIC;
  so_weights : forall d, 0 <= d < ndevs (base s) ->
    exists w, zget (weights (base s)) d = Some w /\ 0 <= w <= 100;
  so_cover : weights_cover s (weights (base s)) (map snd (requestQps (base s) (fifoHead (base s))));
}.

(** The clear-to-send of one receive. *)
Record cts_ready (f : ncclIbSendFifo) (head tag : Z) : Prop := {
  ct_idx : f_idx f = u64 (head + 1);
  ct_nreqs : f_nreqs f = 1;
  ct_tag : f_tag f = u32 tag;
  ct_addr : f_addr f <> 0 /\ in_u 64 (f_addr f);
  ct_rkeys : length (f_rkeys f) = Z.to_nat NCCL_IB_MAX_DEVS_PER_NIC
             /\ exists rk, zget (f_rkeys f) 0 = Some rk /\ rk <> 0;
  ct_size : 0 <= f_size f < 2 ^ 31;
}.

Section Isend.
Context `{M : Machine}.
Context (s : Net) (c : ncclIbSendComm) (slot : Z) (slots : list ncclIbSendFifo) (f : ncclIbSendFifo).
Context (H : send_open s c slot slots) (Hf : zget slots 0 = Some f).
Context (data size tag : Z) (mh : ncclIbMrHandle).
Context (C : cts_ready f (fifoHead (base s)) tag).
Context (Hsize : 0 <= size) (Hdata : in_u 64 data) (Hmh : length (mr_lkeys mh) = Z.to_nat NCCL_IB_MAX_DEVS_PER_NIC).

Notation b := (base s).
Notation head := (fifoHead (base s)).
Notation n := (Z.min size (f_size f)).

Lemma sendDevs_run :
mapM (fun i =>
let* '(qpi, _) := ncclIbCommBaseGetQpForRequest head i in
let* qp := readAt (fun s => qps (base s)) qpi in
ret (devIndex qp)) (zrange (nqpsPerRequest b)) s = (Done (sendDevs s), s).
Proof.
pose proof (so_qps _ _ _ _ H) as Q. unfold sendDevs, requestQps. rewrite map_map.
apply mapM_pure. intros i Hi%In_zrange. nstep (getQpForRequest_run s head i Q Hi).
destruct (activeQp_spec _ _ Q (requestIndex_range b head i Q)) as [_ Hq].
destruct (qr_qps _ Q _ Hq) as (qp & E & _).
nstep (readAt_run (fun s => qps (base s)) _ s qp E). unfold devOf. by rewrite E.
Qed.

(** The request a send creates from the table entry [q]. *)
Definition newSend (q : ncclIbRequest) : ncclIbRequest :=
(addEvents (sendDevs s)
((freshReq q) <| r_id := head |> <| r_type := REQ_SEND |> <| r_sock := true |>
<| r_nreqs := 1 |> <| send_size := n |> <| send_data := data |>
<| send_sentData := if resiliency b then falses NCCL_IB_MAX_QPS else send_sentData q |>
<| send_weights := weights b |>))
<| send_lkeys := take (Z.to_nat (ndevs b)) (mr_lkeys mh)
 ++ drop (Z.to_nat (ndevs b)) (send_lkeys q) |>.

Definition openRow : list (option Z) := replicate (Z.to_nat NCCL_NET_IB_MAX_RECVS) None.

Definition sendComm1 (i : Z) (l : list Z) : ncclIbSendComm :=
c <| remCmpls_elems := zupd (remCmpls_elems c) slot (zupd l 0 n) |>
<| sendReqs := zupd (sendReqs c) slot (zupd openRow 0 (Some i)) |>
<| sendReqsCnt := zupd (sendReqsCnt c) slot 1 |>.


Lemma sendComm1_upd i l :
zget (remCmpls_elems c) slot = Some l -> length l = Z.to_nat NCCL_NET_IB_MAX_RECVS ->
(elems ← zset2 (remCmpls_elems c) slot 0 n;
 rows ← zset2 (sendReqs c) slot 0 (Some i);
 cnt ← zget (sendReqsCnt c) slot;
 cnts ← zset (sendReqsCnt c) slot (cnt + 1);
 Some (c <| remCmpls_elems := elems |> <| sendReqs := rows |> <| sendReqsCnt := cnts |>))
= Some (sendComm1 i l).
Proof.
intros El Hl. pose proof (so_reqs _ _ _ _ H) as Er. pose proof (so_cnt _ _ _ _ H) as Ec.
unfold zset2. rewrite El, Er, Ec. cbn [mbind option_bind].
pose proof (zget_Some _ _ _ El). pose proof (zget_Some _ _ _ Er). pose proof (zget_Some _ _ _ Ec).
assert (0 <= 0 < Z.of_nat (length l)) by (rewrite Hl; unfold NCCL_NET_IB_MAX_RECVS; lia).
assert (0 <= 0 < Z.of_nat (length openRow))
by (unfold openRow; rewrite length_replicate; unfold NCCL_NET_IB_MAX_RECVS; lia).
fold openRow. rewrite (zset_is_Some l), (zset_is_Some openRow) by done. cbn [mbind option_bind].
by rewrite !zset_is_Some by done.
Qed.

Lemma isendTry_run i q l :
firstUnused (reqs b) 0 = Some i -> zget (reqs b) i = Some q ->
zget (remCmpls_elems c) slot = Some l -> length l = Z.to_nat NCCL_NET_IB_MAX_RECVS ->
isendTry slot 1 size tag data mh 0 slots s =
(Done (Some i), (updReq s i (newSend q)) <| tail := SendTail (sendComm1 i l) |>).
Proof.
intros Ei Eq El Hl. pose proof (so_qps _ _ _ _ H) as Q. pose proof (qr_ndevs _ Q) as Hnd.
destruct C as [_ _ Ctag [Ca _] [_ (rk & Erk & Hrk)] Csz].
pose proof (nqpsPerRequest_range _ Q) as Hnq. pose proof (qr_nqps _ Q) as Hmax.
pose proof (getRequest_run s) as Hg. rewrite Ei in Hg. destruct Hg as (q' & Eq' & Eg).
rewrite Eq in Eq'. injection Eq' as <-.
assert (i32 (if f_size f <? size then f_size f else size) = n) as Esz.
{ rewrite wrapS_small; [destruct (Z.ltb_spec (f_size f) size); lia|lia|]. unfold in_s. case_match; lia. }
unfold isendTry. nstep (getSend_run _ _ (so_tail _ _ _ _ H)).
rewrite (bind_some _ _ _ _ (so_reqs _ _ _ _ H)). rewrite (bind_some (zget (replicate _ None) 0) (None : option Z)) by done.
rewrite (bind_some _ _ _ _ Hf). cbv beta iota. rewrite Ctag, Z.eqb_refl. cbn [negb]. cbv zeta. rewrite !Esz.
rewrite (bind_some _ _ _ _ Erk).
replace ((f_addr f =? 0) || (rk =? 0)) with false by lia.
nstep (nqpsPerRequest_run s Q). replace (NCCL_IB_MAX_QPS <? nqpsPerRequest b) with false by lia.
nred. nstep sendDevs_run. nstep Eg. unfold hasResiliency. nred.
assert (mapM_opt (fun i => zget (mr_lkeys mh) i) (zrange (ndevs b)) = Some (take (Z.to_nat (ndevs b)) (mr_lkeys mh))) as Elk
by (apply mapM_opt_zget; lia).
change (ndevs (base (updReq s i (freshReq q)))) with (ndevs b).
rewrite (bind_some _ _ _ _ Elk).
erewrite bind_step; [|eapply modReq_run; [by eapply updReq_get|reflexivity]]. cbv beta.
rewrite updReq_updReq.
match goal with |- context [updReq s i ?r] => set (q1 := r) end.
assert (devs_wf q1) as Hwf by done.
destruct (addEvents_run (updReq s i q1) i q1 (sendDevs s)) as (Er & _ & Efr & _);
[by eapply updReq_get|done|exact (sendDevs_range s (so_qps _ _ _ _ H))|].
nstep Er. rewrite updReq_updReq.
erewrite bind_step; [|eapply modReq_run; [by eapply updReq_get|reflexivity]]. cbv beta.
rewrite updReq_updReq.
erewrite bind_step; [|eapply modSend_run; [cbn; apply H|by apply sendComm1_upd]].
unfold newSend. fold q1. unfold ret. do 5 f_equal.
rewrite length_take, Hmh, Nat.min_l by lia. by rewrite Efr.
 unfold q1. cbn. by destruct (resiliency (base s)).
Qed.

(** What the entry [q] of the table becomes. *)
Lemma newSend_spec q :
length (send_sentData q) = Z.to_nat NCCL_IB_MAX_QPS ->
length (send_lkeys q) = Z.to_nat NCCL_IB_MAX_DEVS_PER_NIC ->
r_type (newSend q) = REQ_SEND /\ r_id (newSend q) = head /\ send_data (newSend q) = data
/\ send_size (newSend q) = n /\ send_weights (newSend q) = weights b
/\ length (send_sentData (newSend q)) = Z.to_nat NCCL_IB_MAX_QPS
/\ length (send_lkeys (newSend q)) = Z.to_nat NCCL_IB_MAX_DEVS_PER_NIC
/\ (resiliency b <> None -> send_sentData (newSend q) = falses NCCL_IB_MAX_QPS)
/\ forall d, 0 <= d < NCCL_IB_MAX_DEVS_PER_NIC ->
 zget (r_events (newSend q)) d = Some (occurrences d (sendDevs s)).
Proof.
intros Hs Hl. pose proof (qr_ndevs _ (so_qps _ _ _ _ H)) as Hnd.
unfold newSend. set (q1 := _ <| send_weights := _ |>).
destruct (addEvents_run (s <| base := b <| reqs := [q1] |> |>) 0 q1 (sendDevs s)) as (_ & _ & Efr & He & _);
[done|done|exact (sendDevs_range s (so_qps _ _ _ _ H))|].
set (q2 := addEvents (sendDevs s) q1) in *.
assert (r_type q2 = REQ_SEND /\ r_id q2 = head /\ send_data q2 = data /\ send_size q2 = n
/\ send_weights q2 = weights b
/\ send_sentData q2 = if resiliency b then falses NCCL_IB_MAX_QPS else send_sentData q)
as (E1 & E2 & E3 & E4 & E5 & E6) by (rewrite Efr; done).
cbn. repeat (split; [done|]). split; [rewrite E6; by destruct (resiliency b)|]. split.
{ rewrite length_app, length_take, length_drop, Hmh, Hl. lia. }
split; [intros Hr; rewrite E6; by destruct (resiliency b)|].
intros d Hd. rewrite He. unfold q1. cbn. unfold zeros, zget. rewrite decide_True by lia.
rewrite lookup_replicate_2 by lia. done.
Qed.

Lemma isend_slot_ready i q l :
zget (reqs b) i = Some q -> zget (remCmpls_elems c) slot = Some l ->
slot_ready ((updReq s i (newSend q)) <| tail := SendTail (sendComm1 i l) |>)
slot (sendComm1 i l) slots (zupd openRow 0 (Some i)) (i, newSend q, f) [].
Proof.
intros Eq El. destruct (so_table _ _ _ _ H i q Eq) as [Ls Ll].
destruct (newSend_spec q Ls Ll) as (_ & Eid & Ed & En & Ew & Ls' & Ll' & _).
destruct C as [_ Cn _ [_ Ca] [Crk _] Csz]. pose proof (so_head _ _ _ _ H) as Hh.
constructor; try done; try apply H.
- cbn. apply zget_zupd_eq, (zget_Some _ _ openRow), H.
- intros [|m] x E; [|done]. injection E as <-. unfold it_idx, it_req, it_cts. cbn [fst snd].
rewrite En, Ed. split; [done|]. split; [by eapply updReq_get|]. split; [done|]. split; [lia|].
by destruct Crk.
- destruct (so_qps _ _ _ _ H). by constructor.
- unfold it_req. cbn [fst snd]. rewrite Eid. split; [lia|]. unfold nqpsPerRequest in *. cbn. lia.
- unfold it_req. cbn [fst snd]. rewrite Ew. apply H.
- unfold it_req. cbn [fst snd]. rewrite Ew, Eid. destruct (so_cover _ _ _ _ H). by constructor.
Qed.

Lemma postedPlan_fresh s1 req0 p :
(forall k, skipped s1 req0 k = false) ->
postedPlan s1 req0 p = map (fun '(q, _, ch) => Posted (DataQp q) ch) p.
Proof.
intros Hk. unfold postedPlan. f_equal. induction p as [|[[q k] ch] p IH]; [done|]. cbn.
by rewrite Hk, IH.
Qed.

Lemma isend_run i :
firstUnused (reqs b) 0 = Some i -> (forall h q wrs, mrc_post_send env h q wrs = true) ->
exists q s1 p, zget (reqs b) i = Some q
/\ ncclIbIsend data size tag mh s = (Done (GotRequest i), s1)
/\ fifoHead (base s1) = u64 (head + 1)
/\ (exists q1, zget (reqs (base s1)) i = Some q1 /\ sameReq (newSend q) q1)
/\ map fst p = requestQps b head
/\ delivers b (i, newSend q, f) 0 (column 0 p)
/\ history s1 = history s ++ map (fun '(q, _, ch) => Posted (DataQp q) ch) p.
Proof.
intros Ei Hacc. pose proof (getRequest_run s) as Hg. rewrite Ei in Hg. destruct Hg as (q & Eq & _).
destruct (so_elems _ _ _ _ H) as (l & El & Hl). destruct C as [Cidx Cn _ _ _ _].
pose proof (isend_slot_ready i q l Eq El) as Hs1.
set (s1 := (updReq s i (newSend q)) <| tail := SendTail (sendComm1 i l) |>) in *.
destruct (multiSend_tiles _ _ _ _ _ _ _ Hs1 Hacc) as (s2 & p & Em & Ss & Ep & _ & Hd & Hh).
destruct (so_table _ _ _ _ H i q Eq) as [Ls Ll].
destruct (newSend_spec q Ls Ll) as (_ & Eid & _ & _ & _ & _ & _ & Hsent & _).
assert (zget (reqs (base s1)) i = Some (newSend q)) as Eq1 by (by eapply updReq_get).
rewrite postedPlan_fresh in Hh.
2: { intros k. unfold skipped, sentAt, it_idx. cbn [fst snd]. rewrite Eq1.
 change (resiliency (base s1)) with (resiliency b). destruct (resiliency b) as [r|]; [|done]. cbn [mbind option_bind].
 rewrite Hsent by done. unfold falses, zget. case_decide; [|done]. cbn [andb].
 destruct (replicate _ false !! Z.to_nat k) as [v|] eqn:E; [|done]. by apply lookup_replicate in E as [-> _]. }
exists q, (s2 <| base := (base s2) <| fifoHead := u64 (fifoHead (base s2) + 1) |> |>), p.
split; [done|]. split; [|split; [|split; [|split; [|split]]]].
- unfold ncclIbIsend. nred. replace (ready b =? 0) with false by (pose proof (so_ready _ _ _ _ H); lia).
unfold ncclIbStatsCheckFatalCount. rewrite (so_fatal _ _ _ _ H), andb_false_r. nred. cbv zeta.
nstep (getSend_run _ _ (so_tail _ _ _ _ H)). rewrite <- (so_slot _ _ _ _ H).
rewrite (bind_some _ _ _ _ (so_cts _ _ _ _ H)), (bind_some _ _ _ _ Hf), Cidx, Z.eqb_refl. cbn [negb].
rewrite Cn. change (i32 1) with 1. change (zrange 1) with [0]. cbn [mapM_opt]. rewrite Hf. cbn [mbind option_bind].
rewrite (bind_some _ _ _ _ eq_refl). cbn [drop forallb negb isendMatch].
nstep (isendTry_run i q l Ei Eq El Hl). fold s1. nstep (getSend_run s1 _ eq_refl).
assert (zget (sendReqsCnt (sendComm1 i l)) slot = Some 1) as Ec.
{ cbn. apply zget_zupd_eq, (zget_Some _ _ 0), H. }
rewrite (bind_some _ _ _ _ Ec). change (1 <? 1) with false. cbv iota. by nstep Em.
- destruct Ss as (l' & h' & -> & _). done.
- destruct (sentOnly_req _ _ _ _ Ss Eq1) as (q1 & E1 & Hq). by exists q1.
- rewrite Ep. unfold it_req. cbn [fst snd]. by rewrite Eid.
- apply (delivers_ext (base s1) b (i, newSend q, f)); [done..|apply sameReq_refl|by apply (Hd O)].
- exact Hh.
Qed.

End Isend.

(** As long as the peer's clear-to-send for the next message has not arrived,
    [ncclIbIsend] succeeds without a request and without any effect. *)
Theorem isend_waits_for_cts `{M : Machine} s c slots f data size tag mh :
  tail s = SendTail c -> ready (base s) <> 0 -> fatalErrorCount (base s) = 0 ->
  zget (ctsFifo c) (fifoHead (base s) mod NET_IB_MAX_REQUESTS) = Some slots ->
  zget slots 0 = Some f -> f_idx f <> u64 (fifoHead (base s) + 1) ->
  ncclIbIsend data size tag mh s = (Done NoRequest, s).
Proof.
  intros Et Hr Hfat Es Ef Hidx. unfold ncclIbIsend. nred. replace (ready (base s) =? 0) with false by lia.
  unfold ncclIbStatsCheckFatalCount. rewrite Hfat, andb_false_r. nred. cbv zeta.
  nstep (getSend_run _ _ Et). rewrite (bind_some _ _ _ _ Es), (bind_some _ _ _ _ Ef).
  by replace (f_idx f =? u64 (fifoHead (base s) + 1)) with false by lia.
Qed.

(** C10. When the clear-to-send of a single receive has arrived and a request is free,
    one [ncclIbIsend] sends the whole message: the request it returns records the
    message, cut to the receiver's buffer, and counts one event per queue pair on the
    device of that queue pair; every byte is written once into the peer's buffer, on
    the queue pairs of this message, and the sequence number advances. *)
Theorem isend_sends_message `{M : Machine} s c slot slots f data size tag mh i :
  send_open s c slot slots -> zget slots 0 = Some f -> cts_ready f (fifoHead (base s)) tag ->
  0 <= size -> in_u 64 data -> length (mr_lkeys mh) = Z.to_nat NCCL_IB_MAX_DEVS_PER_NIC ->
  firstUnused (reqs (base s)) 0 = Some i -> (forall h q wrs, mrc_post_send env h q wrs = true) ->
  exists s1 q1 p, ncclIbIsend data size tag mh s = (Done (GotRequest i), s1)
    /\ fifoHead (base s1) = u64 (fifoHead (base s) + 1)
    /\ zget (reqs (base s1)) i = Some q1 /\ r_type q1 = REQ_SEND /\ r_id q1 = fifoHead (base s)
    /\ send_data q1 = data /\ send_size q1 = Z.min size (f_size f)
    /\ (forall d, 0 <= d < NCCL_IB_MAX_DEVS_PER_NIC ->
          zget (r_events q1) d =
            Some (occurrences d (map (fun '(q, _) => devOf (base s) q) (requestQps (base s) (fifoHead (base s))))))
    /\ map fst p = requestQps (base s) (fifoHead (base s))
    /\ delivers (base s) (i, q1, f) 0 (column 0 p)
    /\ history s1 = history s ++ map (fun '(q, _, ch) => Posted (DataQp q) ch) p.
Proof.
  intros H Hf C Hsz Hdata Hmh Ei Hacc.
  destruct (isend_run s c slot slots f H Hf data size tag mh C Hsz Hdata Hmh i Ei Hacc)
    as (q & s1 & p & Eq & E & Eh & (q1 & Eq1 & Hsame) & Ep & Hd & Hh).
  pose proof Hsame as [Hs _].
  destruct (so_table _ _ _ _ H i q Eq) as [Ls Ll].
  destruct (newSend_spec s c slot slots f H data size mh Hmh q Ls Ll) as (E1 & E2 & E3 & E4 & _ & _ & _ & _ & He).
  exists s1, q1, p. split; [exact E|]. split; [exact Eh|]. split; [exact Eq1|].
  pose proof (delivers_ext (base s) (base s) (i, newSend s f data size mh q, f) (i, q1, f) _ _ eq_refl eq_refl Hsame Hd) as Hd1.
  split; [by rewrite Hs; exact E1|]. split; [by rewrite Hs; exact E2|]. split; [by rewrite Hs; exact E3|].
  split; [by rewrite Hs; exact E4|]. split; [by rewrite Hs; exact He|]. done.
Qed.

(** ** Instances *)

Import NetDemo.Demo.

Definition oneCts : list ncclIbSendFifo := fill 8 [cts 1 0x9000 7] noCts.

Definition openComm (row5 : list ncclIbSendFifo) : ncclIbSendComm :=
  sendComm <| ctsFifo := <[5%nat := row5]> (replicate 256 (replicate 8 noCts)) |>
    <| sendReqs := replicate 256 (replicate 8 None) |> <| sendReqsCnt := zeros 256 |>.

Definition openSender (row5 : list ncclIbSendFifo) : Net :=
  (sender None) <| base := mkBaseWith true [] None |> <| tail := SendTail (openComm row5) |>.

Definition demoMr : ncclIbMrHandle := mkMrHandle [41; 42; 0; 0; 0; 0; 0; 0] (zeros 8).

Lemma demo_send_open : send_open (openSender oneCts) (openComm oneCts) 5 oneCts.
Proof.
  constructor; try done; try (destruct (demo_qps_ready None); by constructor).
  - by eexists.
  - intros i q E. unfold zget in E. case_decide; [|done].
    change (reqs (base (openSender oneCts))) with (replicate 256 unused) in E.
    apply lookup_replicate in E as [-> _]. done.
  - intros d Hd. zcases d; eexists; (split; [reflexivity|done]).
  - constructor; [done| |].
    + intros d Hd Hw. zcases d; [exists 3|exists 2]; vm_compute; tauto.
    + intros k Hk. cbn in Hk. by repeat destruct Hk as [<-|Hk].
Qed.

Lemma demo_cts_ready : cts_ready (cts 1 0x9000 7) 5 7.
Proof. constructor; try done. split; [done|]. by eexists. Qed.

Lemma isend_waits_for_cts_witness :
  @ncclIbIsend machine 0x5000 1000 7 demoMr (openSender (replicate 8 noCts))
  = (Done NoRequest, openSender (replicate 8 noCts)).
Proof.
  apply (@isend_waits_for_cts machine (openSender (replicate 8 noCts)) (openComm (replicate 8 noCts))
           (replicate 8 noCts) noCts); done.
Defined.

Lemma isend_sends_message_witness :
  exists s1 q1, @ncclIbIsend machine 0x5000 1000 7 demoMr (openSender oneCts) = (Done (GotRequest 0), s1)
    /\ zget (reqs (base s1)) 0 = Some q1 /\ send_size q1 = 1000.
Proof.
  destruct (@isend_sends_message machine (openSender oneCts) (openComm oneCts) 5 oneCts (cts 1 0x9000 7)
    0x5000 1000 7 demoMr 0 demo_send_open eq_refl demo_cts_ready ltac:(lia) ltac:(done) eq_refl eq_refl
    (fun _ _ _ => eq_refl)) as (s1 & q1 & p & E & _ & Eq & _ & _ & _ & Es & _).
  exists s1, q1. split; [exact E|]. split; [exact Eq|]. exact Es.
Defined.

(** A device of weight 0 (a share of the total speed below one percent rounds to
    it) breaks a send: its empty chunk sets [num_sge] to 0 on the work request, which
    is shared by all queue pairs and never set back, so the rest of the message is
    skipped over without being sent.  Here the speeds 1000 and 200000 give the weights
    0 and 100, and a message of 1000 bytes goes out with no data at all. *)
Theorem zero_weight_drops_data :
  let slow := mkMachine (mkNetParams true true true 8192 1 10) acceptAll in
  let s := (openSender oneCts) <| ncclIbDevs := [mkIbDev 1000 0; mkIbDev 200000 0] |> in
  exists s' req, (@ncclIbComputeDevSpeeds ;;; @ncclIbComputeLbWeights slow ;;;
                  @ncclIbIsend slow 0x5000 1000 7 demoMr) s = (Done (GotRequest req), s')
    /\ take 2 (weights (base s')) = [0; 100]
    /\ length (history s') = 2%nat
    /\ forallb (fun e => match e with
                         | Posted _ wrs => forallb (fun wr => wr_num_sge wr =? 0) wrs
                         | _ => false end) (history s') = true.
Proof.
  cbn zeta. match goal with |- exists s' req, ?c = _ /\ _ => destruct c as [o s'] eqn:E end.
  assert (o = Done (GotRequest 0)) as ->.
  { vm_compute in E. by injection E as <- _. }
  exists s', 0. split; [reflexivity|]. vm_compute in E. injection E as <-. done.
Qed.
