(* ===== verification/NetRecv.v ===== *)
(** * Transport: the receive path

    [ncclIbPostFifo], [ncclIbIrecv] and [ncclIbIflush] of
    [net/transport/net_ib/p2p.cc], and the guard and loop of
    [ncclIbCreateFlushQp] of [connect.cc]; building one flush queue pair is a
    single provider call there; [ConnSetup.createFlushQp] has its steps. *)

From S2P Require Import Prelude NetTypes NetBase.

Open Scope Z_scope.
Open Scope nccl_scope.

Definition sizeofSendFifo : Z := 64.

Section Recv.
Context `{M : Machine}.

(** Post the clear-to-send message of a request. *)
Definition ncclIbPostFifo (reqIdx slot : Z) : net unit :=
let* req := getReq reqIdx in
let* qpi := ncclIbRecvCommGetQpForCts (r_id req) in
let* ctsQp := readAt (fun s => qps (base s)) qpi in
let* c := getRecv in
let* rem := readAt (fun s => remDevs (base s)) (remDevIdx ctsQp) in
let* cd := readAt devs (devIndex ctsQp) in
let* res := hasResiliency in
let length := u32 (r_nreqs req * sizeofSendFifo) in
let signal := (slot =? devIndex ctsQp) || res in
let wr := {|
wr_id := if signal then slot else 0;
wr_opcode := IBV_WR_RDMA_WRITE;
wr_signaled := signal;
wr_inline := remCts_inline c && negb (maxInlineData ctsQp <? length);
wr_sg := Some (mkSge (u64 (remCts_elemsAddr c + slot * (NCCL_NET_IB_MAX_RECVS * sizeofSendFifo)))
 length (cd_ctsLkey cd));
wr_num_sge := 1;
wr_remote_addr := u64 (remCts_addr c + slot * NCCL_NET_IB_MAX_RECVS * sizeofSendFifo);
wr_rkey := rkey rem;
wr_imm := 0 |} in
wrap_post_send (DataQp qpi) [wr].

(** One buffer of a (multi-)receive, as the caller describes it. *)
Record RecvBuf := mkRecvBuf { rb_data : Z; rb_size : Z; rb_tag : Z; rb_mh : ncclIbMrHandle }.

(** Entry of the CTS message for one buffer. *)
Definition ctsEntry (n head nd : Z) (b : RecvBuf) (old : ncclIbSendFifo) : option ncclIbSendFifo :=
rks ← mapM_opt (fun j => zget (mr_rkeys (rb_mh b)) j) (zrange nd);
Some {| f_addr := rb_data b; f_size := rb_size b;
f_rkeys := rks ++ drop (length rks) (f_rkeys old);
f_nreqs := n; f_tag := u32 (rb_tag b); f_idx := u64 (head + 1) |}.

Fixpoint fillCts (n head nd i : Z) (bufs : list RecvBuf) (row : list ncclIbSendFifo)
: option (list ncclIbSendFifo) :=
match bufs with
| [] => Some row
| b :: bufs' =>
old ← zget row i;
e ← ctsEntry n head nd b old;
row' ← zset row i e;
fillCts n head nd (i + 1) bufs' row'
end.

Definition ncclIbIrecv (bufs : list RecvBuf) : net Z :=
let n := Z.of_nat (length bufs) in
let* b := gets base in
if ready b =? 0 then fail ncclInternalError
else if NCCL_NET_IB_MAX_RECVS <? n then fail ncclInternalError
else
ncclIbStatsCheckFatalCount (fatalErrorCount b) ;;;
let* nqps := ncclIbCommBaseGetNqpsPerRequest in
if NCCL_IB_MAX_QPS <? nqps then fail ncclInternalError
else
let* qs := mapM (ncclIbCommBaseGetQpForRequest (fifoHead b)) (zrange nqps) in
let* req := ncclIbGetRequest in
let slot := fifoHead b mod NET_IB_MAX_REQUESTS in
let* res := hasResiliency in
modReq req (fun q => Some (
q <| r_id := fifoHead b |> <| r_type := REQ_RECV |> <| r_sock := true |> <| r_nreqs := n |>
<| r_devBases := if res then replicate (Z.to_nat (ndevs b)) true
 ++ drop (Z.to_nat (ndevs b)) (r_devBases q)
 else r_devBases q |>)) ;;;
modRecv (fun c => l ← zset (recvReqs c) slot (Some req); Some (c <| recvReqs := l |>)) ;;;
iterM (fun '(qpi, _) =>
let* qp := readAt (fun s => qps (base s)) qpi in
ncclIbAddEvent req (devIndex qp) ;;;
let* c := getRecv in
if prepostReceiveWorkRequests c then ret tt
else
modRecv (fun c => Some (c <| ibRecvWorkRequest_wr_id := slot |>)) ;;;
wrap_post_recv (DataQp qpi) slot) qs ;;;
modReq req (fun q => Some (q <| recv_aggSize := 0 |> <| recv_cmplsRecords := Some slot |>)) ;;;
modRecv (fun c =>
rec ← zget (cmplsRecords c) slot;
l ← zset (cmplsRecords c) slot
(mkCmplRecord (zeros n ++ drop (Z.to_nat n) (cr_sizes rec)) (falses NCCL_IB_MAX_QPS));
row ← zget (remCts_elems c) slot;
row' ← fillCts n (fifoHead b) (ndevs b) 0 bufs row;
rows ← zset (remCts_elems c) slot row';
Some (c <| cmplsRecords := l |> <| remCts_elems := rows |>)) ;;;
ncclIbPostFifo req slot ;;;
modBase (fun b => b <| fifoHead := u64 (fifoHead b + 1) |>) ;;;
ret req.

(** ** Flush *)

Definition ncclIbCreateFlushQp : net unit :=
let* c := getRecv in
if (flushEnabled c =? 0) || flushQpsCreated c then ret tt
else
let* b := gets base in
forN (ndevs b) (fun i =>
let* s := getS in
if createFlushQp_ok env (history s) i then log (CreatedFlushQp i) else fail ncclSystemError) ;;;
modRecv (fun c => Some (c <| flushQpsCreated := true |>)).

(** Index of the last receive with a non-zero size, -1 when there is none. *)
Fixpoint lastNonZero (sizes : list Z) (i last : Z) : Z :=
match sizes with
| [] => last
| x :: l => lastNonZero l (i + 1) (if x =? 0 then last else i)
end.

Definition ncclIbIflush (data sizes : list Z) (mhs : list ncclIbMrHandle) : net (option Z) :=
let* c := getRecv in
let last := lastNonZero sizes 0 (-1) in
if (flushEnabled c =? 0) || (last =? -1) then ret None
else
ncclIbCreateFlushQp ;;;
let* req := ncclIbGetRequest in
modReq req (fun q => Some (q <| r_type := REQ_FLUSH |> <| r_sock := true |>)) ;;;
let* mh := of_option (zget mhs last) in
let* addr := of_option (zget data last) in
let* b := gets base in
forN (ndevs b) (fun i =>
let* rk := of_option (zget (mr_rkeys mh) i) in
let* cd := readAt devs i in
wrap_post_send (FlushQp i)
[{| wr_id := req + NCCL_IB_FLUSH_REQ_WR_ID_OFFSET; wr_opcode := IBV_WR_RDMA_READ;
wr_signaled := true; wr_inline := false; wr_sg := Some (cd_flushSge cd);
wr_num_sge := 1; wr_remote_addr := addr; wr_rkey := rk; wr_imm := 0 |}] ;;;
ncclIbAddEvent req i) ;;;
ret (Some req).

End Recv.
