(* ===== verification/RecvSpec.v ===== *)
(** * Transport: properties of the receive path

    [ncclIbIrecv] registers the request, posts its receive work requests and
    publishes one clear-to-send message the peer's [ncclIbIsend] accepts. *)

From S2P Require Import Prelude NetTypes NetBase NetLemmas NetSpec NetSend SendPlan NetDemo SendSpec IsendSpec NetRecv.

Open Scope Z_scope.
Open Scope nccl_scope.

(** ** The clear-to-send row *)

Lemma fillCts_spec n head nd bufs i row :
  0 <= i -> i + Z.of_nat (length bufs) <= Z.of_nat (length row) ->
  0 <= nd -> Forall (fun rb => nd <= Z.of_nat (length (mr_rkeys (rb_mh rb)))) bufs ->
  exists row', fillCts n head nd i bufs row = Some row' /\ length row' = length row
    /\ (forall j, ~ i <= j < i + Z.of_nat (length bufs) -> zget row' j = zget row j)
    /\ forall k rb, bufs !! k = Some rb ->
         exists old, zget row (i + Z.of_nat k) = Some old
           /\ zget row' (i + Z.of_nat k) = Some
             {| f_addr := rb_data rb; f_size := rb_size rb;
                f_rkeys := take (Z.to_nat nd) (mr_rkeys (rb_mh rb)) ++ drop (Z.to_nat nd) (f_rkeys old);
                f_nreqs := n; f_tag := u32 (rb_tag rb); f_idx := u64 (head + 1) |}.
Proof.
  revert i row. induction bufs as [|rb bufs IH]; intros i row Hi Hl Hnd Hrk.
  - exists row. split; [done|]. split; [done|]. split; [done|]. intros k rb E. done.
  - apply Forall_cons in Hrk as [Hr Hrk]. cbn [length] in Hl.
    destruct (zget_is_Some row i) as [old Eo]; [lia|]. cbn [fillCts]. rewrite Eo. cbn [mbind option_bind].
    unfold ctsEntry. rewrite mapM_opt_zget by lia. cbn [mbind option_bind].
    rewrite zset_is_Some by lia. cbn [mbind option_bind].
    rewrite length_take, Nat.min_l by lia.
    match goal with |- context [zupd row i ?e] => set (entry := e) end.
    destruct (IH (i + 1) (zupd row i entry)) as (row' & E & Hl' & Hout & Hin);
      [lia|rewrite length_zupd; lia|done|done|].
    exists row'. rewrite E, Hl', length_zupd. split; [done|]. split; [done|]. split.
    + intros j Hj. cbn [length] in Hj. rewrite Hout by lia. apply zget_zupd_ne. lia.
    + intros [|k] rb' Ek.
      * injection Ek as <-. exists old. rewrite Z.add_0_r. split; [done|].
        rewrite Hout by lia. apply zget_zupd_eq. lia.
      * destruct (Hin k rb' Ek) as (old' & Eo' & Er').
        replace (i + Z.of_nat (S k)) with (i + 1 + Z.of_nat k) by lia. exists old'.
        rewrite zget_zupd_ne in Eo' by lia. done.
Qed.

(** ** Posting the receive work requests *)

Definition recvEvents (prepost : bool) (slot : Z) (qs : list (Z * Z)) : list Event :=
  if prepost then [] else map (fun '(q, _) => PostedRecv (DataQp q) slot) qs.

Definition setWrId (c : ncclIbRecvComm) (prepost : bool) (slot : Z) (qs : list (Z * Z)) : ncclIbRecvComm :=
  match qs with
  | [] => c
  | _ => if prepost then c else c <| ibRecvWorkRequest_wr_id := slot |>
  end.

Section Irecv.
Context `{M : Machine}.

Lemma setWrId_app c slot p qs :
prepostReceiveWorkRequests c = p ->
setWrId (if p then c else c <| ibRecvWorkRequest_wr_id := slot |>) p slot qs
= (if p then c else c <| ibRecvWorkRequest_wr_id := slot |>).
Proof. intros _. destruct qs, p; done. Qed.

Lemma recvLoop_run s c i q slot qs :
qps_ready (base s) -> tail s = RecvTail c -> zget (reqs (base s)) i = Some q -> devs_wf q ->
Forall (fun '(qi, k) => 0 <= qi < nqps (base s)) qs ->
(forall h q id, mrc_post_recv env h q id = true) ->
iterM (fun '(qpi, _) =>
let* qp := readAt (fun s => qps (base s)) qpi in
ncclIbAddEvent i (devIndex qp) ;;;
let* c := getRecv in
if prepostReceiveWorkRequests c then ret tt
else
modRecv (fun c => Some (c <| ibRecvWorkRequest_wr_id := slot |>)) ;;;
wrap_post_recv (DataQp qpi) slot) qs s =
(Done tt, (updReq s i (addEvents (map (fun '(qi, _) => devOf (base s) qi) qs) q))
<| tail := RecvTail (setWrId c (prepostReceiveWorkRequests c) slot qs) |>
<| history := history s ++ recvEvents (prepostReceiveWorkRequests c) slot qs |>).
Proof.
intros Q Et Eq Hwf Hqs Hacc. revert s c q Q Et Eq Hwf Hqs.
induction qs as [|[qi k] qs IH]; intros s c q Q Et Eq Hwf Hqs.
- cbn [map addEvents fold_left iterM]. rewrite (updReq_same _ _ _ Eq). unfold recvEvents. cbn.
rewrite Tauto.if_same, app_nil_r, <- Et. by destruct s.
- apply Forall_cons in Hqs as [Hq Hqs]. destruct (qr_qps _ Q qi Hq) as (qp & Eqp & Hd & _).
pose proof (qr_ndevs _ Q). destruct (addEvent_some (devIndex qp) q Hwf) as (q1 & E1 & Hwf1 & _); [lia|].
assert (devOf (base s) qi = devIndex qp) as Edev by (unfold devOf; by rewrite Eqp).
assert (forall qs, addEvents (devIndex qp :: qs) q = addEvents qs q1) as Hadd
by (intros; unfold addEvents; cbn [fold_left]; by rewrite E1).
cbn [iterM map]. rewrite bind_assoc.
nstep (readAt_run (fun s => qps (base s)) qi s qp Eqp). rewrite bind_assoc.
unfold ncclIbAddEvent at 1. nstep (modReq_run i _ s q q1 Eq E1). rewrite bind_assoc.
nstep (getRecv_run (updReq s i q1) c Et). rewrite Edev, Hadd.
assert (qps_ready (base (updReq s i q1))) as Q' by (destruct Q; by constructor).
pose proof (updReq_get s i q1 q Eq) as Eq1.
destruct (prepostReceiveWorkRequests c) eqn:Ep.
+ nred. rewrite (IH (updReq s i q1) c q1 Q' Et Eq1 Hwf1 Hqs), Ep.
rewrite updReq_updReq. unfold recvEvents. by destruct qs.
+ rewrite bind_assoc. erewrite bind_step; [|eapply modRecv_run; [exact Et|reflexivity]]. cbv beta.
erewrite bind_step; [|by apply postRecv_run]. cbv beta.
match goal with |- iterM _ _ ?x = _ => set (s1 := x) end.
rewrite (IH s1 (c <| ibRecvWorkRequest_wr_id := slot |>) q1 Q' eq_refl Eq1 Hwf1 Hqs).
change (prepostReceiveWorkRequests (c <| ibRecvWorkRequest_wr_id := slot |>)) with (prepostReceiveWorkRequests c).
rewrite Ep. unfold s1, updReq. cbn. rewrite zupd_zupd, <- app_assoc. unfold recvEvents. cbn.
destruct qs; reflexivity.
Qed.

(** ** The clear-to-send message *)

(** The queue pair of the message, in turn over the devices. *)
Definition ctsQp (b : ncclIbNetCommBase) (id : Z) : Z := activeQp b (u32 id mod ndevs b).

Definition ctsWr (s : Net) (c : ncclIbRecvComm) (id n slot : Z) : SendWr :=
let q := ctsQp (base s) id in
let qp := default (mkQp 0 0 0 0) (zget (qps (base s)) q) in
let signal := (slot =? devIndex qp) || (if resiliency (base s) then true else false) in
{| wr_id := if signal then slot else 0;
 wr_opcode := IBV_WR_RDMA_WRITE;
 wr_signaled := signal;
 wr_inline := remCts_inline c && negb (maxInlineData qp <? n * sizeofSendFifo);
 wr_sg := Some (mkSge (u64 (remCts_elemsAddr c + slot * (NCCL_NET_IB_MAX_RECVS * sizeofSendFifo)))
(n * sizeofSendFifo)
(default 0 (cd_ctsLkey <$> zget (devs s) (devIndex qp))));
 wr_num_sge := 1;
 wr_remote_addr := u64 (remCts_addr c + slot * NCCL_NET_IB_MAX_RECVS * sizeofSendFifo);
 wr_rkey := default 0 (rkey <$> zget (remDevs (base s)) (remDevIdx qp));
 wr_imm := 0 |}.

(** What posting a clear-to-send relies on. *)
Record cts_links (s : Net) : Prop := {
cl_qps : qps_ready (base s);
cl_ndevs : ndevs (base s) <= nqps (base s);
cl_remDevs : length (remDevs (base s)) = Z.to_nat NCCL_IB_MAX_DEVS_PER_NIC;
cl_devs : ndevs (base s) <= Z.of_nat (length (devs s));
}.

Lemma ctsQp_run s id :
cts_links s -> ncclIbRecvCommGetQpForCts id s = (Done (ctsQp (base s) id), s)
 /\ 0 <= ctsQp (base s) id < nqps (base s).
Proof.
intros []. pose proof (qr_ndevs _ cl_qps0) as Hn. unfold NCCL_IB_MAX_DEVS_PER_NIC in Hn.
assert (u32 (ndevs (base s)) = ndevs (base s)) as En by (apply wrapU_small; unfold in_u; lia).
pose proof (Z.mod_pos_bound (u32 id) (ndevs (base s)) ltac:(lia)) as Hm.
destruct (activeQp_spec _ (u32 id mod ndevs (base s)) cl_qps0 ltac:(lia)) as [Ea Hr].
split; [|exact Hr]. unfold ncclIbRecvCommGetQpForCts. nred. rewrite En.
replace (ndevs (base s) =? 0) with false by lia.
unfold ncclIbCommBaseGetQpByIndex at 1. rewrite bind_assoc, bind_getS.
replace ((u32 id mod ndevs (base s) <? 0) || (ndevs (base s) <=? u32 id mod ndevs (base s))) with false by lia.
rewrite Z.mul_0_r, Z.add_0_l. by rewrite (bind_some _ _ _ _ Ea).
Qed.

Lemma postFifo_run s c i q slot :
cts_links s -> tail s = RecvTail c -> zget (reqs (base s)) i = Some q ->
0 <= r_nreqs q <= NCCL_NET_IB_MAX_RECVS ->
(forall h qp wrs, mrc_post_send env h qp wrs = true) ->
ncclIbPostFifo i slot s =
(Done tt, s <| history := history s ++
 [Posted (DataQp (ctsQp (base s) (r_id q))) [ctsWr s c (r_id q) (r_nreqs q) slot]] |>).
Proof.
intros L Et Eq Hn Hacc. pose proof L as []. unfold NCCL_NET_IB_MAX_RECVS in *.
destruct (ctsQp_run s (r_id q) L) as [Er Hq].
destruct (qr_qps _ cl_qps0 _ Hq) as (qp & Eqp & Hd & Hrd). pose proof (qr_ndevs _ cl_qps0).
destruct (zget_is_Some (remDevs (base s)) (remDevIdx qp)) as [rem Erem]; [rewrite cl_remDevs0; lia|].
destruct (zget_is_Some (devs s) (devIndex qp)) as [cd Ecd]; [lia|].
unfold ncclIbPostFifo. nstep (getReq_run _ _ _ Eq). nstep Er.
nstep (readAt_run (fun s => qps (base s)) _ s qp Eqp). nstep (getRecv_run _ _ Et).
nstep (readAt_run (fun s => remDevs (base s)) _ s rem Erem). nstep (readAt_run devs _ s cd Ecd).
unfold hasResiliency. nred. cbv zeta. rewrite postSend_run by apply Hacc.
unfold ctsWr. rewrite Eqp. cbn [default from_option id]. rewrite Erem, Ecd. cbn.
rewrite wrapU_small by (unfold in_u, sizeofSendFifo; lia). done.
Qed.

(** ** [ncclIbIrecv] *)

(** A receiver between two messages. *)
Record recv_open (s : Net) (c : ncclIbRecvComm) (slot : Z) : Prop := {
ro_tail : tail s = RecvTail c;
ro_ready : ready (base s) <> 0;
ro_fatal : fatalErrorCount (base s) = 0;
ro_slot : slot = fifoHead (base s) mod NET_IB_MAX_REQUESTS;
ro_links : cts_links s;
ro_reqs : length (recvReqs c) = Z.to_nat NET_IB_MAX_REQUESTS;
ro_recs : length (cmplsRecords c) = Z.to_nat NET_IB_MAX_REQUESTS;
ro_rows : length (remCts_elems c) = Z.to_nat NET_IB_MAX_REQUESTS;
ro_row : forall row, zget (remCts_elems c) slot = Some row ->
length row = Z.to_nat NCCL_NET_IB_MAX_RECVS
/\ forall j e, zget row j = Some e -> length (f_rkeys e) = Z.to_nat NCCL_IB_MAX_DEVS_PER_NIC;
}.

Definition newRecv (s : Net) (n slot : Z) (q : ncclIbRequest) : ncclIbRequest :=
(addEvents (sendDevs s)
((freshReq q) <| r_id := fifoHead (base s) |> <| r_type := REQ_RECV |> <| r_sock := true |>
<| r_nreqs := n |>
<| r_devBases := if resiliency (base s)
 then replicate (Z.to_nat (ndevs (base s))) true
++ drop (Z.to_nat (ndevs (base s))) (falses NCCL_IB_MAX_DEVS_PER_NIC)
 else falses NCCL_IB_MAX_DEVS_PER_NIC |>))
<| recv_aggSize := 0 |> <| recv_cmplsRecords := Some slot |>.

(** The CTS entry of the receive [rb]. *)
Definition published (s : Net) (n : Z) (rb : RecvBuf) (old : ncclIbSendFifo) : ncclIbSendFifo :=
{| f_addr := rb_data rb; f_size := rb_size rb;
 f_rkeys := take (Z.to_nat (ndevs (base s))) (mr_rkeys (rb_mh rb))
++ drop (Z.to_nat (ndevs (base s))) (f_rkeys old);
 f_nreqs := n; f_tag := u32 (rb_tag rb); f_idx := u64 (fifoHead (base s) + 1) |}.

Definition clearedRecord (n : Z) (rec : ncclIbRequestCompletionRecord) : ncclIbRequestCompletionRecord :=
mkCmplRecord (zeros n ++ drop (Z.to_nat n) (cr_sizes rec)) (falses NCCL_IB_MAX_QPS).

Definition irecvComm (c : ncclIbRecvComm) (i slot : Z) (qs : list (Z * Z)) (rec : ncclIbRequestCompletionRecord)
(row : list ncclIbSendFifo) : ncclIbRecvComm :=
(setWrId (c <| recvReqs := zupd (recvReqs c) slot (Some i) |>) (prepostReceiveWorkRequests c) slot qs)
<| cmplsRecords := zupd (cmplsRecords c) slot rec |>
<| remCts_elems := zupd (remCts_elems c) slot row |>.

Lemma setWrId_frame c p slot qs :
setWrId c p slot qs = c <| ibRecvWorkRequest_wr_id := ibRecvWorkRequest_wr_id (setWrId c p slot qs) |>.
Proof. unfold setWrId. destruct qs as [|? ?]; [by destruct c|]. destruct p; by destruct c. Qed.

(** The updates of the communicator after the loop. *)
Lemma irecvComm_upd s c i slot bufs qs rec row row' :
let n := Z.of_nat (length bufs) in
zget (cmplsRecords c) slot = Some rec -> zget (remCts_elems c) slot = Some row ->
fillCts n (fifoHead (base s)) (ndevs (base s)) 0 bufs row = Some row' ->
(fun c => rec ← zget (cmplsRecords c) slot;
 l ← zset (cmplsRecords c) slot
 (mkCmplRecord (zeros n ++ drop (Z.to_nat n) (cr_sizes rec)) (falses NCCL_IB_MAX_QPS));
 row ← zget (remCts_elems c) slot;
 row' ← fillCts n (fifoHead (base s)) (ndevs (base s)) 0 bufs row;
 rows ← zset (remCts_elems c) slot row';
 Some (c <| cmplsRecords := l |> <| remCts_elems := rows |>))
(setWrId (c <| recvReqs := zupd (recvReqs c) slot (Some i) |>) (prepostReceiveWorkRequests c) slot qs)
= Some (irecvComm c i slot qs (clearedRecord n rec) row').
Proof.
cbn zeta. intros Er El Ef. unfold irecvComm. rewrite setWrId_frame.
set (c2 := (c <| recvReqs := _ |>) <| ibRecvWorkRequest_wr_id := _ |>).
change (cmplsRecords c2) with (cmplsRecords c). change (remCts_elems c2) with (remCts_elems c).
rewrite Er. cbn [mbind option_bind]. rewrite zset_is_Some by (by eapply zget_Some). cbn [mbind option_bind].
rewrite El. cbn [mbind option_bind]. rewrite Ef. cbn [mbind option_bind].
rewrite zset_is_Some by (by eapply zget_Some). done.
Qed.

Lemma newRecv_spec s n slot q :
qps_ready (base s) ->
r_type (newRecv s n slot q) = REQ_RECV /\ r_id (newRecv s n slot q) = fifoHead (base s)
/\ r_nreqs (newRecv s n slot q) = n /\ recv_cmplsRecords (newRecv s n slot q) = Some slot
/\ recv_aggSize (newRecv s n slot q) = 0
/\ forall d, 0 <= d < NCCL_IB_MAX_DEVS_PER_NIC ->
 zget (r_events (newRecv s n slot q)) d = Some (occurrences d (sendDevs s)).
Proof.
intros Q. pose proof (qr_ndevs _ Q) as Hnd. unfold newRecv. set (q1 := _ <| r_devBases := _ |>).
assert (devs_wf q1) as Hwf.
{ split; [done|]. unfold q1. cbn. destruct (resiliency (base s)); [|done].
unfold falses. rewrite length_app, length_replicate, length_drop, length_replicate. lia. }
destruct (addEvents_run (s <| base := (base s) <| reqs := [q1] |> |>) 0 q1 (sendDevs s))
as (_ & _ & Efr & He & _); [done|done|by apply sendDevs_range|].
set (q2 := addEvents (sendDevs s) q1) in *.
assert (r_type q2 = REQ_RECV /\ r_id q2 = fifoHead (base s) /\ r_nreqs q2 = n) as (E1 & E2 & E3)
by (rewrite Efr; done).
cbn. repeat (split; [done|]). intros d Hd. rewrite He. unfold q1. cbn. unfold zeros, zget.
rewrite decide_True by lia. rewrite lookup_replicate_2 by lia. done.
Qed.

(** The message depends on the connection only. *)
Lemma ctsWr_ext s s' c c' id n slot :
activeQps (base s) = activeQps (base s') /\ ndevs (base s) = ndevs (base s')
/\ qps (base s) = qps (base s') /\ remDevs (base s) = remDevs (base s') /\ devs s = devs s'
/\ resiliency (base s) = resiliency (base s') /\ remCts_inline c = remCts_inline c'
/\ remCts_elemsAddr c = remCts_elemsAddr c' /\ remCts_addr c = remCts_addr c' ->
ctsWr s c id n slot = ctsWr s' c' id n slot.
Proof.
intros (E1 & E2 & E3 & E4 & E5 & E6 & E7 & E8 & E9). unfold ctsWr, ctsQp, activeQp.
by rewrite E1, E2, E3, E4, E5, E6, E7, E8, E9.
Qed.

Lemma irecv_run s c slot bufs i q rec row :
let n := Z.of_nat (length bufs) in
let qs := requestQps (base s) (fifoHead (base s)) in
recv_open s c slot -> n <= NCCL_NET_IB_MAX_RECVS ->
Forall (fun rb => ndevs (base s) <= Z.of_nat (length (mr_rkeys (rb_mh rb)))) bufs ->
firstUnused (reqs (base s)) 0 = Some i -> zget (reqs (base s)) i = Some q ->
zget (cmplsRecords c) slot = Some rec -> zget (remCts_elems c) slot = Some row ->
(forall h qp wrs, mrc_post_send env h qp wrs = true) ->
(forall h qp id, mrc_post_recv env h qp id = true) ->
exists row' s', fillCts n (fifoHead (base s)) (ndevs (base s)) 0 bufs row = Some row'
/\ ncclIbIrecv bufs s = (Done i, s')
/\ base s' = (base s) <| reqs := zupd (reqs (base s)) i (newRecv s n slot q) |>
<| fifoHead := u64 (fifoHead (base s) + 1) |>
/\ tail s' = RecvTail (irecvComm c i slot qs (clearedRecord n rec) row')
/\ history s' = history s ++ recvEvents (prepostReceiveWorkRequests c) slot qs
 ++ [Posted (DataQp (ctsQp (base s) (fifoHead (base s)))) [ctsWr s c (fifoHead (base s)) n slot]].
Proof.
cbn zeta. intros H Hn Hrk Ei Eq Erec Erow Hps Hpr. pose proof H as [Et Hr Hfat Hslot L Hrl _ _ Hrow].
pose proof L as [Q Hnq _ _]. pose proof (qr_ndevs _ Q) as Hnd. destruct (Hrow row Erow) as [Hlrow _].
pose proof (getRequest_run s) as Hg. rewrite Ei in Hg. destruct Hg as (q' & Eq' & Eg).
rewrite Eq in Eq'. injection Eq' as <-.
assert (0 <= slot < NET_IB_MAX_REQUESTS) as Hs by (subst slot; by apply Z.mod_pos_bound).
destruct (fillCts_spec (Z.of_nat (length bufs)) (fifoHead (base s)) (ndevs (base s)) bufs 0 row)
as (row' & Efill & _); [lia|lia|lia|done|].
pose proof (nqpsPerRequest_range _ Q). pose proof (qr_nqps _ Q).
set (n := Z.of_nat (length bufs)) in *. set (qs := requestQps (base s) (fifoHead (base s))).
exists row'. eexists. split; [exact Efill|]. split.
{ unfold ncclIbIrecv. fold n. nred. replace (ready (base s) =? 0) with false by lia.
replace (NCCL_NET_IB_MAX_RECVS <? n) with false by lia.
unfold ncclIbStatsCheckFatalCount. rewrite Hfat, andb_false_r. nred.
nstep (nqpsPerRequest_run s Q). replace (NCCL_IB_MAX_QPS <? nqpsPerRequest (base s)) with false by lia.
nstep (requestQps_run s (fifoHead (base s)) Q). nstep Eg. rewrite <- Hslot. unfold hasResiliency. nred.
erewrite bind_step; [|eapply modReq_run; [by eapply updReq_get|reflexivity]]. cbv beta. rewrite updReq_updReq.
match goal with |- context [updReq s i ?r] => set (q1 := r) end.
erewrite bind_step; [|eapply modRecv_run; [exact Et|]].
2: { cbv beta. rewrite zset_is_Some by lia. reflexivity. }
cbv beta. match goal with |- bind _ _ ?x = _ => set (s2 := x) end.
assert (devs_wf q1 /\ (addEvents (sendDevs s) q1) <| recv_aggSize := 0 |> <| recv_cmplsRecords := Some slot |>
= newRecv s n slot q) as [Hwf Hnew].
{ split; [|unfold newRecv, q1; change (resiliency (base (updReq s i (freshReq q)))) with (resiliency (base s));
 destruct (resiliency (base s)); reflexivity].
split; [done|]. unfold q1. cbn. destruct (resiliency (base s)); [|done].
cbn. rewrite length_app, length_replicate, length_drop. unfold falses. rewrite length_replicate. lia. }
assert (qps_ready (base s2)) as Q2 by (destruct Q; by constructor).
pose proof (updReq_get s i q1 q Eq) as Eq1.
erewrite bind_step; [|eapply (recvLoop_run s2 _ i q1 slot qs Q2 eq_refl Eq1 Hwf); [|exact Hpr]].
2: { apply Forall_forall. intros [qi k] Hin%list_elem_of_In. exact (proj1 (requestQps_range _ _ _ _ Q Hin)). }
change (prepostReceiveWorkRequests (c <| recvReqs := zupd (recvReqs c) slot (Some i) |>))
with (prepostReceiveWorkRequests c).
cbv beta. match goal with |- bind _ _ ?x = _ => set (s3 := x) end.
assert (zget (reqs (base s3)) i = Some (addEvents (sendDevs s) q1)) as Eq3.
{ eapply (updReq_get s2). exact Eq1. }
erewrite bind_step; [|eapply modReq_run; [exact Eq3|reflexivity]]. cbv beta. rewrite Hnew.
erewrite bind_step; [|eapply modRecv_run; [reflexivity|by eapply (irecvComm_upd s)]].
cbv beta. match goal with |- bind _ _ ?x = _ => set (s5 := x) end.
assert (zget (reqs (base s5)) i = Some (newRecv s n slot q)) as Eq5 by (by eapply (updReq_get s3)).
destruct (newRecv_spec s n slot q Q) as (_ & Eid & En & _).
assert (cts_links s5) as L5 by (destruct L; constructor; [by destruct Q; constructor|done..]).
erewrite bind_step; [|eapply (postFifo_run s5 _ i _ slot L5 eq_refl Eq5); [rewrite En; lia|exact Hps]].
rewrite Eid, En. unfold modBase, modify. cbv beta.
rewrite (ctsWr_ext s5 s _ c) by (unfold irecvComm; rewrite setWrId_frame; done). reflexivity. }
split; [cbn; by rewrite !zupd_zupd|]. split; [done|]. cbn. by rewrite <- app_assoc.
Qed.

End Irecv.


(** C4. A receive and the matching send work together: when a receiver and a sender
    are at the same sequence number and the row published by [ncclIbIrecv] of one
    buffer has reached the sender, [ncclIbIsend] with the receive's tag accepts it and
    writes the whole message, cut to the buffer, into the buffer of the receive. *)
Theorem receive_then_send_delivers `{M : Machine} r cr s cs slot rb i slots data size mh j :
  recv_open r cr slot -> send_open s cs slot slots -> fifoHead (base r) = fifoHead (base s) ->
  length (mr_rkeys (rb_mh rb)) = Z.to_nat NCCL_IB_MAX_DEVS_PER_NIC ->
  (exists rk, zget (mr_rkeys (rb_mh rb)) 0 = Some rk /\ rk <> 0) ->
  rb_data rb <> 0 -> in_u 64 (rb_data rb) -> 0 <= rb_size rb < 2 ^ 31 ->
  firstUnused (reqs (base r)) 0 = Some i -> firstUnused (reqs (base s)) 0 = Some j ->
  0 <= size -> in_u 64 data -> length (mr_lkeys mh) = Z.to_nat NCCL_IB_MAX_DEVS_PER_NIC ->
  (forall h qp wrs, mrc_post_send env h qp wrs = true) ->
  (forall h qp id, mrc_post_recv env h qp id = true) ->
  exists r' cr' row, ncclIbIrecv [rb] r = (Done i, r') /\ tail r' = RecvTail cr'
    /\ zget (remCts_elems cr') slot = Some row
    /\ (slots = row ->
        exists s' f p q, ncclIbIsend data size (rb_tag rb) mh s = (Done (GotRequest j), s')
          /\ f_addr f = rb_data rb /\ send_data q = data /\ send_size q = Z.min size (rb_size rb)
          /\ delivers (base s) (j, q, f) 0 (column 0 p)
          /\ history s' = history s ++ map (fun '(q, _, ch) => Posted (DataQp q) ch) p).
Proof.
  intros Hr Hs Hh Hkl (rk & Erk & Hrk0) Ha Ha' Hsz Ei Ej Hsize Hdata Hmh Hps Hpr.
  pose proof Hr as [Et _ _ Hslot L Hrl Hcl Hel Hrow]. pose proof (getRequest_run r) as Hg. rewrite Ei in Hg.
  destruct Hg as (q & Eq & _).
  assert (0 <= slot < NET_IB_MAX_REQUESTS) as Hslot' by (subst slot; by apply Z.mod_pos_bound).
  destruct (zget_is_Some (cmplsRecords cr) slot) as [rec Erec]; [lia|].
  destruct (zget_is_Some (remCts_elems cr) slot) as [row Erow]; [lia|].
  assert (Forall (fun rb => ndevs (base r) <= Z.of_nat (length (mr_rkeys (rb_mh rb)))) [rb]) as Hrks.
  { constructor; [|constructor]. pose proof (qr_ndevs _ (cl_qps _ L)). lia. }
  destruct (irecv_run r cr slot [rb] i q rec row Hr ltac:(done) Hrks Ei Eq Erec Erow Hps Hpr)
    as (row' & r' & Ef & E & Eb & Et' & Eh).
  destruct (Hrow row Erow) as [Hlrow Hkeys].
  destruct (fillCts_spec 1 (fifoHead (base r)) (ndevs (base r)) [rb] 0 row)
    as (row2 & Ef2 & _ & _ & Hin);
    [lia|by rewrite Hlrow|pose proof (qr_ndevs _ (cl_qps _ L)); lia|exact Hrks|].
  change (Z.of_nat (length [rb])) with 1 in Ef. rewrite Ef in Ef2. injection Ef2 as <-.
  destruct (Hin O rb eq_refl) as (old & Eo & Ep). cbn [Z.add Z.of_nat] in Eo, Ep.
  exists r'. do 2 eexists. split; [exact E|]. split; [exact Et'|].
  split; [cbn; apply zget_zupd_eq; lia|]. intros ->.
  match type of Ep with _ = Some ?e => set (f := e) in Ep end.
  assert (cts_ready f (fifoHead (base s)) (rb_tag rb)) as C.
  { pose proof (qr_ndevs _ (cl_qps _ L)). constructor; try done; [by rewrite <- Hh|].
    cbn. rewrite length_app, length_take, length_drop, (Hkeys 0 old Eo), Hkl. split; [lia|].
    exists rk. split; [|done]. unfold zget in *. rewrite decide_True in * by lia.
    rewrite lookup_app_l by (rewrite length_take, Hkl; lia). by rewrite lookup_take_lt by lia. }
  destruct (isend_run s cs slot row' f Hs Ep data size (rb_tag rb) mh C Hsize Hdata Hmh j Ej Hps)
    as (q0 & s1 & p & Eq0 & Es & _ & _ & _ & Hd & Hh1).
  destruct (so_table _ _ _ _ Hs j q0 Eq0) as [Ls Ll].
  destruct (newSend_spec s cs slot row' f Hs data size mh Hmh q0 Ls Ll) as (_ & _ & E3 & E4 & _).
  by exists s1, f, p, (newSend s f data size mh q0).
Qed.

(** ** Instances *)

Import NetDemo.Demo.

Lemma demo_recv_open : recv_open (receiver None) (recvComm false) 5.
Proof.
  constructor; try done.
  - constructor; try done. destruct (demo_qps_ready None). by constructor.
  - intros row E. assert (row = replicate 8 noCts) as -> by (by injection E). split; [done|]. intros j e Ee. unfold zget in Ee. case_decide; [|done].
    by apply lookup_replicate in Ee as [-> _].
Qed.

Definition demoBuf : RecvBuf := mkRecvBuf 0x9000 4096 7 (mkMrHandle (zeros 8) [51; 52; 0; 0; 0; 0; 0; 0]).

Definition demoRow : list ncclIbSendFifo :=
  mkSendFifo 0x9000 4096 [51; 52; 0; 0; 0; 0; 0; 0] 1 7 6 :: replicate 7 noCts.


Lemma demo_send_open_row : send_open (openSender demoRow) (openComm demoRow) 5 demoRow.
Proof.
  destruct demo_send_open as [? ? ? ? ? _ ? ? ? ? ? ? ? ? ?]. by constructor.
Qed.

Lemma receive_then_send_delivers_witness :
  exists s' f (p : list (Z * Z * list SendWr)), @ncclIbIsend machine 0x5000 1000 7 demoMr (openSender demoRow) = (Done (GotRequest 0), s')
    /\ f_addr f = 0x9000 /\ history s' = map (fun '(q, _, ch) => Posted (DataQp q) ch) p.
Proof.
  assert (exists rk, zget (mr_rkeys (rb_mh demoBuf)) 0 = Some rk /\ rk <> 0) as Hrk by (by exists 51).
  assert (rb_data demoBuf <> 0 /\ in_u 64 (rb_data demoBuf) /\ 0 <= rb_size demoBuf < 2 ^ 31 /\ in_u 64 0x5000)
    as (Ha & Hb & Hc & Hd) by (unfold in_u; cbn; lia).
  pose proof (@receive_then_send_delivers machine (receiver None) (recvComm false) (openSender demoRow)
    (openComm demoRow) 5 demoBuf 0 demoRow 0x5000 1000 demoMr 0 demo_recv_open demo_send_open_row) as T.
  destruct (T ltac:(reflexivity) ltac:(reflexivity) Hrk Ha Hb Hc ltac:(vm_compute; reflexivity)
    ltac:(vm_compute; reflexivity) ltac:(lia) Hd ltac:(reflexivity) (fun _ _ _ => eq_refl) (fun _ _ _ => eq_refl))
    as (r' & cr' & row & E & Et & Erow & Hsend).
  assert (demoRow = row) as Er.
  { vm_compute in E. injection E as <-. cbn in Et. injection Et as <-. vm_compute in Erow.
    injection Erow as <-. reflexivity. }
  destruct (Hsend Er) as (s' & f & p & q & Es & Ea & _ & _ & _ & Hh).
  exists s', f, p. split; [exact Es|]. split; [exact Ea|exact Hh].
Defined.
