(* ===== verification/Resiliency.v ===== *)
(** * Transport: port failover

    [net/transport/net_ib/p2p_resiliency.cc]: classifying an error completion,
    moving the active queue pairs off a failed device, probing the receiver,
    replaying or completing the requests that failed, and restoring the queue
    pairs of a recovered device.  The recovery of a port
    ([p2p_resiliency_recovery.cc]) is in [Recovery] and [RecoveryThread], the creation
    of the probing queue pairs in [ConnSetup]. *)

From S2P Require Import Prelude NetTypes NetBase NetSend NetRecv.

Open Scope Z_scope.
Open Scope nccl_scope.

Definition MSEC_TO_NSEC : Z := 1000000.
Definition MAX_PROBE_WC : Z := 4.

(** ** Access *)

Definition getDevState (d : Z) : net ncclIbResiliencyDevState :=
  let* r := getRes in
  let* rd := of_option (zget (res_devs r) d) in
  ret (rd_state rd).

Definition modResDev (d : Z) (f : ncclIbResiliencyDev -> ncclIbResiliencyDev) : net unit :=
  modRes (fun r =>
    rd ← zget (res_devs r) d;
    l ← zset (res_devs r) d (f rd);
    Some (r <| res_devs := l |>)).

Definition setDevState (d : Z) (st : ncclIbResiliencyDevState) : net unit :=
  modResDev d (fun rd => rd <| rd_state := st |>).

Definition getFailed (i : Z) : net ncclIbResiliencyRequestSend :=
  let* r := getRes in of_option (zget (failedRequests r) i).

Definition modFailed (i : Z) (f : ncclIbResiliencyRequestSend -> ncclIbResiliencyRequestSend)
  : net unit :=
  modRes (fun r =>
    x ← zget (failedRequests r) i;
    l ← zset (failedRequests r) i (f x);
    Some (r <| failedRequests := l |>)).

Definition isOk (st : ncclIbResiliencyDevState) : bool :=
  bool_decide (st = ncclIbResiliencyDevStateOk).

(** ** Classification of an error *)

(** Devices that are down once [devIdx] is counted as failed. *)
Fixpoint countFailed (l : list ncclIbResiliencyDev) (i devIdx : Z) : Z :=
  match l with
  | [] => 0
  | rd :: l' =>
      (if (i =? devIdx) || negb (isOk (rd_state rd)) then 1 else 0) + countFailed l' (i + 1) devIdx
  end.

Definition recoverableStatus (st : wcStatus) : bool :=
  match st with
  | IBV_WC_WR_FLUSH_ERR | IBV_WC_RETRY_EXC_ERR => true
  | _ => false
  end.

Definition ncclIbResiliencyCheckErrorNotFatal (wc : Wc) (devIdx : Z) : net unit :=
  let* r := getRes in
  let nFailedDevices := countFailed (take (Z.to_nat (res_ndevs r)) (res_devs r)) 0 devIdx in
  let fatalCompletionStatus := negb (recoverableStatus (wc_status wc)) in
  if 1 <? nFailedDevices then fail ncclRemoteError
  else if (nFailedDevices <? res_ndevs r) && negb fatalCompletionStatus then ret tt
  else fail ncclRemoteError.

(** ** Replacing queue pairs *)

(** The [do ... while] search for a queue pair on a functional device. *)
Fixpoint replaceSearch (fuel : nat) (failedQpIndex offset : Z) : net (option Z) :=
  match fuel with
  | O => fault
  | Datatypes.S f =>
      let* b := gets base in
      if nqps b =? 0 then fault
      else
        let newQpIndex := Z.rem (failedQpIndex + offset) (nqps b) in
        let* newQp := of_option (zget (qps b) newQpIndex) in
        let* st := getDevState (devIndex newQp) in
        if isOk st then ret (Some newQpIndex)
        else if newQpIndex =? failedQpIndex then ret None
        else replaceSearch f failedQpIndex (offset + 1)
  end.

Definition replaceQp (failedDevIndex qpIndex : Z) : net unit :=
  let* b := gets base in
  let* p := of_option (zget (activeQps b) qpIndex) in
  let* failedQpIndex := deref p in
  let* failedQp := of_option (zget (qps b) failedQpIndex) in
  if negb (devIndex failedQp =? failedDevIndex) then ret tt
  else if (failedQpIndex <? 0) || (nqps b <=? failedQpIndex) then fail ncclInternalError
  else
    let* o := replaceSearch (Z.to_nat (nqps b)) failedQpIndex 1 in
    match o with
    | None => fail ncclInternalError
    | Some newQpIndex =>
        let* b := gets base in
        let* l := of_option (zset (activeQps b) qpIndex (Some newQpIndex)) in
        modBase (fun b => b <| activeQps := l |>)
    end.

Definition ncclIbResiliencyReplaceQps (failedDevIndex : Z) : net unit :=
  let* b := gets base in
  forN (nqps b) (replaceQp failedDevIndex).

Definition ncclIbResiliencyActiveQpsRestore (restoredDevIndex : Z) : net unit :=
  let* b := gets base in
  forN (nqps b) (fun qpIndex =>
    let* b := gets base in
    let* qp := of_option (zget (qps b) qpIndex) in
    if negb (devIndex qp =? restoredDevIndex) then ret tt
    else
      let* l := of_option (zset (activeQps b) qpIndex (Some qpIndex)) in
      modBase (fun b => b <| activeQps := l |>)).

Section Resiliency.
Context `{M : Machine}.

(** ** Tracking failed requests *)

Definition ncclIbResiliencySendRequestInit (reqIdx devIdx : Z) : net unit :=
let* req := getReq reqIdx in
let slot := r_id req mod NET_IB_MAX_REQUESTS in
let* fr := getFailed slot in
if fr_id fr =? u64 (r_id req + 1) then ret tt
else if u64 (r_id req + 1) <=? fr_id fr then fail ncclInternalError
else if negb (bool_decide (r_type req = REQ_SEND)) then fail ncclInternalError
else
let* t := clock in
modFailed slot (fun _ => {|
fr_state := ncclIbResiliencyRequestStatePending; fr_request := Some reqIdx;
fr_devIndex := devIdx; fr_time := t; fr_failedAttempts := 0; fr_id := u64 (r_id req + 1) |}) ;;;
modRes (fun r => Some (r <| outstandingRequests := outstandingRequests r + 1 |>
 <| inProgress := true |>)).

Definition ncclIbResiliencySendRequestFree (i : Z) : net unit :=
let* fr := getFailed i in
match fr_request fr with
| None => fail ncclInternalError
| Some _ =>
modFailed i (fun fr => {|
fr_state := ncclIbResiliencyRequestStatePending; fr_request := None;
fr_devIndex := 0; fr_time := 0; fr_failedAttempts := 0; fr_id := fr_id fr |}) ;;;
modRes (fun r => Some (r <| outstandingRequests := outstandingRequests r - 1 |>))
end.

(** ** Replay *)

(** The events of one request of a multi-send: one for every queue pair whose
data the probe did not find delivered. *)
Definition repostEvents (slot reqIdx : Z) : net unit :=
modReq reqIdx (fun q => Some (q <| r_events := zeros NCCL_IB_MAX_DEVS_PER_NIC |>)) ;;;
let* nqps := ncclIbCommBaseGetNqpsPerRequest in
iterM (fun i =>
let* q := getReq reqIdx in
let* '(qpi, qpIndex) := ncclIbCommBaseGetQpForRequest (r_id q) i in
let* res := getRes in
let* delivered := of_option (zget2 (probingResults res) slot qpIndex) in
if delivered : bool then ret tt
else
modReq reqIdx (fun q => sd ← zset (send_sentData q) qpIndex false;
Some (q <| send_sentData := sd |>)) ;;;
let* qp := readAt (fun s => qps (base s)) qpi in
ncclIbAddEvent reqIdx (devIndex qp)) (zrange nqps).

Definition ncclIbResiliencyRepostRequest (reqIdx : Z) : net unit :=
let* req := getReq reqIdx in
let slot := r_id req mod NET_IB_MAX_REQUESTS in
match r_type req with
| REQ_SEND =>
let* c := getSend in
let* row := of_option (zget (sendReqs c) slot) in
iterM (fun r =>
let* p := of_option (zget row r) in
let* i := deref p in
repostEvents slot i) (zrange (r_nreqs req)) ;;;
ncclIbMultiSend slot
| REQ_RECV => ncclIbPostFifo reqIdx slot
| _ => fail ncclInternalError
end.

(** ** Error completions *)

Definition ncclIbResiliencyHandleCompletionErrorReceiver (wc : Wc) (devIdx : Z) : net unit :=
let id := wc_wr_id wc in
let inRecvRange := (0 <=? id) && (id <? NET_IB_MAX_REQUESTS) in
let inFlushRange := (NCCL_IB_FLUSH_REQ_WR_ID_OFFSET <=? id)
&& (id <? NCCL_IB_FLUSH_REQ_WR_ID_OFFSET + NET_IB_MAX_REQUESTS) in
if negb inRecvRange && negb inFlushRange && negb (id =? NCCL_IB_RECV_WR_ID_DUMMY)
then fail ncclInternalError
else if id =? NCCL_IB_RECV_WR_ID_DUMMY then
if bool_decide (wc_status wc = IBV_WC_WR_FLUSH_ERR) then ret tt else fail ncclInternalError
else
let* reqIdx :=
if inFlushRange then ncclIbRequestRetrieveAsIndex (id - NCCL_IB_FLUSH_REQ_WR_ID_OFFSET)
else
let* c := getRecv in
let* p := of_option (zget (recvReqs c) id) in
deref p in
let* req := getReq reqIdx in
match r_type req with
| REQ_FLUSH =>
modReq reqIdx (fun q => es ← zset (r_events q) devIdx 0; Some (q <| r_events := es |>))
| REQ_RECV => ncclIbResiliencyRepostRequest reqIdx
| REQ_UNUSED => ret tt
| _ => fail ncclInternalError
end.

Definition ncclIbResiliencyHandleCompletionErrorSender (wc : Wc) (devIdx : Z) : net unit :=
let slot := Z.land (wc_wr_id wc) 0xff in
let* c := getSend in
let* row := of_option (zget (sendReqs c) slot) in
let* p := of_option (zget row 0) in
match p with
| None => ret tt
| Some reqIdx => ncclIbResiliencySendRequestInit reqIdx devIdx
end.

(** Hand a failed device over to the recovery thread; the code is returned, not
propagated. *)
Definition ncclIbPortRecoveryHandleFailure (devIdx : Z) : net ncclResult_t :=
let* r := getRes in
if negb (recoveryEnabled r) then ret ncclInternalError
else
let* st := getDevState devIdx in
if negb (bool_decide (st = ncclIbResiliencyDevStateRecoveryInProgress)) then ret ncclInternalError
else
let* s := getS in
if recoveryContextInit_ok env (history s) devIdx
then log (StartedRecovery devIdx) ;;; ret ncclSuccess
else ret ncclSystemError.

Definition ncclIbResiliencyHandleDeviceFailure (devIdx : Z) : net unit :=
let* st := getDevState devIdx in
if isOk st then
setDevState devIdx ncclIbResiliencyDevStateError ;;;
ncclIbResiliencyReplaceQps devIdx ;;;
let* r := getRes in
when (recoveryEnabled r)
(setDevState devIdx ncclIbResiliencyDevStateRecoveryInProgress ;;;
 let* res := ncclIbPortRecoveryHandleFailure devIdx in
 if bool_decide (res = ncclSuccess)
 then modRes (fun r => Some (r <| outstandingRecovery := outstandingRecovery r + 1 |>
 <| inProgress := true |>))
 else forN (res_ndevs r) (fun i =>
if negb (i =? devIdx) then ret tt
else setDevState i ncclIbResiliencyDevStateErrorPermanent))
else ret tt.

Definition ncclIbResiliencyHandleCompletionError (wc : Wc) (devIdx : Z) : net unit :=
ncclIbResiliencyCheckErrorNotFatal wc devIdx ;;;
ncclIbResiliencyHandleDeviceFailure devIdx ;;;
let* b := gets base in
if isSend b then ncclIbResiliencyHandleCompletionErrorSender wc devIdx
else ncclIbResiliencyHandleCompletionErrorReceiver wc devIdx.

(** ** Probing *)

(** Data is missing on a queue pair the request used and the probe did not
find delivered. *)
Fixpoint missingData (sent delivered : list bool) : bool :=
match sent, delivered with
| s :: sent', d :: delivered' => (s && negb d) || missingData sent' delivered'
| _, _ => false
end.

Definition ncclIbResiliencyHandleProbeCompleted (i : Z) : net unit :=
let* fr := getFailed i in
let* reqIdx := deref (fr_request fr) in
let* req := getReq reqIdx in
let slot := r_id req mod NET_IB_MAX_REQUESTS in
let* r := getRes in
let* delivered := of_option (zget (probingResults r) slot) in
if negb (missingData (send_sentData req) delivered) then
let* c := getSend in
let* row := of_option (zget (sendReqs c) slot) in
iterM (fun k =>
let* p := of_option (zget row k) in
let* j := deref p in
modReq j (fun q => Some (q <| r_events := zeros NCCL_IB_MAX_DEVS_PER_NIC |>)))
(zrange (r_nreqs req))
else ncclIbResiliencyRepostRequest reqIdx.

(** Index of the first functional device, the number of devices when none is. *)
Fixpoint firstOkDev (l : list ncclIbResiliencyDev) (i : Z) : Z :=
match l with
| [] => i
| rd :: l' => if isOk (rd_state rd) then i else firstOkDev l' (i + 1)
end.

Definition ncclIbResiliencyProbePost (i : Z) : net unit :=
let* fr := getFailed i in
if negb (bool_decide (fr_state fr = ncclIbResiliencyRequestStatePending)) then fail ncclInternalError
else if ncclParamIbResiliencyPortFailoverMaxAttempts prm <? fr_failedAttempts fr
then fail ncclRemoteError
else
let* now := clock in
let elapsedTime := u64 (now - fr_time fr) in
let requiredWaitTime := u64 (ncclParamIbResiliencyPortFailoverProbeDelay prm * MSEC_TO_NSEC) in
if elapsedTime <? requiredWaitTime then ret tt
else
let* r := getRes in
let devIdx := firstOkDev (take (Z.to_nat (res_ndevs r)) (res_devs r)) 0 in
if devIdx =? res_ndevs r then fail ncclInternalError
else
let* rd := of_option (zget (res_devs r) devIdx) in
let* qp := of_option (zget (probingQps r) devIdx) in
if NET_IB_MAX_REQUESTS <=? rd_nOutstandingProbes rd then fail ncclInternalError
else
let* reqIdx := deref (fr_request fr) in
let* req := getReq reqIdx in
let slot := r_id req mod NET_IB_MAX_REQUESTS in
let* info := of_option (zget (remCmplRecordsInfo r) (remDevIdx qp)) in
let remoteAddr := u64 (rc_addr info + sizeofCmplRecord * slot + 4 * NCCL_NET_IB_MAX_RECVS) in
wrap_post_send (ProbingQp devIdx)
[{| wr_id := slot; wr_opcode := IBV_WR_RDMA_READ; wr_signaled := true;
wr_inline := false;
wr_sg := Some (mkSge (u64 (probingResults_addr r + slot * NCCL_IB_MAX_QPS))
 NCCL_IB_MAX_QPS (rd_probingResultLkey rd));
wr_num_sge := 1; wr_remote_addr := remoteAddr; wr_rkey := rc_rkey info;
wr_imm := 0 |}] ;;;
modFailed i (fun fr => fr <| fr_state := ncclIbResiliencyRequestStateProbePosted |>) ;;;
modResDev devIdx (fun rd => rd <| rd_nOutstandingProbes := rd_nOutstandingProbes rd + 1 |>).

Definition ncclIbResiliencyProbeHandleCompletionEvent (wc : Wc) (devIdx : Z) : net unit :=
let i := wc_wr_id wc mod NET_IB_MAX_REQUESTS in
if bool_decide (wc_status wc = IBV_WC_SUCCESS) then
modFailed i (fun fr => fr <| fr_state := ncclIbResiliencyRequestStateProbeCompleted |>)
else
ncclIbResiliencyCheckErrorNotFatal wc devIdx ;;;
ncclIbResiliencyHandleDeviceFailure devIdx ;;;
modFailed i (fun fr => fr <| fr_state := ncclIbResiliencyRequestStatePending |>
<| fr_failedAttempts := fr_failedAttempts fr + 1 |>).

(** The [do ... while] that drains one probing CQ. *)
Fixpoint probeDrain (fuel : nat) (devIdx : Z) : net unit :=
match fuel with
| O => fault
| Datatypes.S f =>
let* wcs := wrap_poll_cq (ProbingCq devIdx) MAX_PROBE_WC in
let nCompletions := Z.of_nat (length wcs) in
if nCompletions =? 0 then ret tt
else
let* r := getRes in
let* rd := of_option (zget (res_devs r) devIdx) in
if rd_nOutstandingProbes rd <? nCompletions then fail ncclInternalError
else
modResDev devIdx (fun rd =>
rd <| rd_nOutstandingProbes := rd_nOutstandingProbes rd - nCompletions |>) ;;;
iterM (fun wc => ncclIbResiliencyProbeHandleCompletionEvent wc devIdx) wcs ;;;
probeDrain f devIdx
end.

Definition ncclIbResiliencyProbeProgress : net unit :=
let* r := getRes in
forN (res_ndevs r) (fun devIdx =>
let* r := getRes in
let* rd := of_option (zget (res_devs r) devIdx) in
if rd_nOutstandingProbes rd =? 0 then ret tt
else probeDrain (Z.to_nat (rd_nOutstandingProbes rd) + 1) devIdx).

(** ** Progress *)

Definition progressRequest (i : Z) : net unit :=
let* fr := getFailed i in
match fr_request fr with
| None => ret tt
| Some _ =>
match fr_state fr with
| ncclIbResiliencyRequestStatePending => ncclIbResiliencyProbePost i
| ncclIbResiliencyRequestStateProbeCompleted =>
ncclIbResiliencyHandleProbeCompleted i ;;; ncclIbResiliencySendRequestFree i
| ncclIbResiliencyRequestStateProbePosted => ret tt
end
end.

Definition progressRecovery (devIdx : Z) : net unit :=
let* st := getDevState devIdx in
match st with
| ncclIbResiliencyDevStateRecovered =>
modRes (fun r => Some (r <| outstandingRecovery := outstandingRecovery r - 1 |>)) ;;;
ncclIbResiliencyActiveQpsRestore devIdx ;;;
setDevState devIdx ncclIbResiliencyDevStateOk
| ncclIbResiliencyDevStateRecoveryFailed =>
modRes (fun r => Some (r <| outstandingRecovery := outstandingRecovery r - 1 |>)) ;;;
setDevState devIdx ncclIbResiliencyDevStateErrorPermanent
| _ => ret tt
end.

Definition ncclIbResiliencyProgress : net unit :=
let* r := getRes in
if negb (inProgress r) then ret tt
else
let* b := gets base in
when (isSend b)
(ncclIbResiliencyProbeProgress ;;;
 forN NET_IB_MAX_REQUESTS progressRequest) ;;;
let* r := getRes in
when (0 <? outstandingRecovery r) (forN (res_ndevs r) progressRecovery) ;;;
let* r := getRes in
when ((outstandingRequests r =? 0) && (outstandingRecovery r =? 0))
(modRes (fun r => Some (r <| inProgress := false |>))).

(** ** Completion of a request under failover *)

(** The two sums of the loop over the devices. *)
Fixpoint eventSums (es : list Z) (remaining negative : Z) : Z * Z :=
match es with
| [] => (remaining, negative)
| e :: es' => if e <? 0 then eventSums es' remaining (negative + e)
else eventSums es' (remaining + e) negative
end.

Definition ncclIbResiliencyRequestIsComplete (reqIdx : Z) : net bool :=
let* req := getReq reqIdx in
let* s := getS in
match resiliency (base s) with
| None => fail ncclInternalError
| Some r =>
let '(remaining, negative) := eventSums (take (Z.to_nat (res_ndevs r)) (r_events req)) 0 0 in
ret ((remaining =? 0) || (Z.abs negative =? remaining))
end.

(** ** Sizes and configuration *)

Definition ncclIbResiliencyDataCqSizeGet : net Z :=
let* r := getRes in
let* nqps := ncclIbCommBaseGetNqpsPerRequest in
let* b := gets base in
let cqSize := if isSend b then NET_IB_MAX_REQUESTS * nqps else NET_IB_MAX_REQUESTS * 2 * nqps in
if res_ndevs r <=? 0 then fail ncclInternalError else ret (cqSize * res_ndevs r).

Definition ncclIbResiliencyDataRqSizeGet : net Z :=
let* b := gets base in
if isSend b then fail ncclInternalError
else
let* nqps := ncclIbCommBaseGetNqpsPerRequest in
let rqSize := u32 (NET_IB_MAX_REQUESTS * nqps) in
if rqSize =? 0 then fail ncclInternalError else ret rqSize.

Definition ncclIbResiliencyDeviceNumSet (nLocalDevs nRemDevs : Z) : net unit :=
let* r := getRes in
if nLocalDevs <=? 0 then fail ncclInternalError
else if nRemDevs <=? 0 then fail ncclInternalError
else
let* b := gets base in
let n := if isSend b then nLocalDevs else nRemDevs in
modRes (fun r => Some (r <| res_ndevs := nLocalDevs |> <| nProbingQps := n |>)) ;;;
if NCCL_IB_MAX_DEVS_PER_NIC <? n then fail ncclInternalError
else
let k := if recoveryEnabled r then Z.max nLocalDevs nRemDevs else 0 in
modRes (fun r => Some (r <| nPortRecoveryQps := k |>)) ;;;
if NCCL_IB_MAX_DEVS_PER_NIC <? k then fail ncclInternalError else ret tt.

Definition ncclIbResiliencyRemoteCompletionRecordsSet (rkey addr devIdx : Z) : net unit :=
let* r := getRes in
let* b := gets base in
if negb (isSend b) then fail ncclInternalError
else if u32 (nProbingQps r) <? devIdx then fail ncclInternalError
else modRes (fun r => l ← zset (remCmplRecordsInfo r) devIdx (mkRemCmpl addr rkey);
Some (r <| remCmplRecordsInfo := l |>)).

(** [connect.cc]. *)
Definition ncclIbPostReceiveWorkRequestsOnQp (qpIndex : Z) : net unit :=
let* b := gets base in
let* n := (if resiliency b then ncclIbResiliencyDataRqSizeGet else ret NET_IB_MAX_REQUESTS) in
let* c := getRecv in
forN n (fun _ => wrap_post_recv (DataQp qpIndex) (ibRecvWorkRequest_wr_id c)).

End Resiliency.
