(* ===== verification/ResiliencySpec.v ===== *)
(** * Transport: properties of port failover

    Classifying errors, moving queue pairs off a failed device and back, tracking
    failed sends, and the completion rule under failover. *)

From S2P Require Import Prelude NetTypes NetBase NetLemmas NetSpec NetSend SendPlan NetDemo SendSpec Resiliency.

Open Scope Z_scope.
Open Scope nccl_scope.

(** ** Access *)

Lemma getDevState_run s r d rd :
  resiliency (base s) = Some r -> zget (res_devs r) d = Some rd ->
  getDevState d s = (Done (rd_state rd), s).
Proof.
  intros Er Ed. unfold getDevState. nstep (getRes_run _ _ Er). by rewrite (bind_some _ _ _ _ Ed).
Qed.

(** ** Fatal errors *)

(** The device [d] is functional. *)
Definition devOk (r : ncclIbResiliency) (d : Z) : bool :=
  match zget (res_devs r) d with Some rd => isOk (rd_state rd) | None => false end.

Lemma countFailed_spec l i d :
  0 <= countFailed l i d
  /\ (countFailed l i d = 0 <->
      forall j rd, l !! j = Some rd -> i + Z.of_nat j <> d /\ isOk (rd_state rd) = true).
Proof.
  revert i. induction l as [|rd l IH]; intros i; cbn [countFailed]; [split; [lia|done]|].
  destruct (IH (i + 1)) as [H0 Hz]. split; [case_match; lia|]. split.
  - intros E [|j] rd' Ej.
    + injection Ej as <-. rewrite Z.add_0_r. destruct (Z.eqb_spec i d), (isOk (rd_state rd)); cbn in E; lia || done.
    + replace (i + Z.of_nat (Datatypes.S j)) with (i + 1 + Z.of_nat j) by lia.
      apply Hz; [|done]. case_match; lia.
  - intros H. destruct (H O rd eq_refl) as [Hi Ho]. rewrite Z.add_0_r in Hi.
    rewrite Ho. replace (i =? d) with false by lia. cbn. apply Hz. intros j rd' Ej.
    specialize (H (Datatypes.S j) rd' Ej).
    by replace (i + 1 + Z.of_nat j) with (i + Z.of_nat (Datatypes.S j)) by lia.
Qed.

(** Counting the failed device itself leaves the others. *)
Lemma countFailed_one l i d :
  i <= d < i + Z.of_nat (length l) ->
  1 <= countFailed l i d
  /\ (countFailed l i d = 1 <->
      forall j rd, l !! j = Some rd -> i + Z.of_nat j <> d -> isOk (rd_state rd) = true).
Proof.
  revert i. induction l as [|rd l IH]; intros i Hd; cbn [countFailed length] in *; [lia|].
  destruct (Z.eqb_spec i d) as [->|Hne]; cbn [orb].
  - destruct (countFailed_spec l (d + 1) d) as [H0 Hz]. split; [lia|]. split.
    + intros E. assert (countFailed l (d + 1) d = 0) as E0 by lia. intros [|j] rd' Ej Hj; [lia|].
      by apply (proj1 Hz E0 j).
    + intros H. assert (countFailed l (d + 1) d = 0); [|lia]. apply Hz. intros j rd' Ej. split; [lia|].
      apply (H (Datatypes.S j)); [done|lia].
  - destruct (IH (i + 1)) as [H1 Hz]; [lia|].
    split; [case_match; lia|]. split.
    + intros E. destruct (isOk (rd_state rd)) eqn:Eo; cbn in E; [|lia].
      intros [|j] rd' Ej Hj; [by injection Ej as <-|]. apply (proj1 Hz ltac:(lia) j); [done|lia].
    + intros H. rewrite (H O rd eq_refl) by lia. cbn. apply Hz. intros j rd' Ej Hj.
      apply (H (Datatypes.S j)); [done|lia].
Qed.

(** C40. An error on device [d] is survivable exactly when its status is one of the two
    retryable ones, the communicator has at least two devices and every other device
    is functional; otherwise it is reported as [ncclRemoteError].  The check has no
    effect. *)
Theorem error_not_fatal_iff s r wc d :
  resiliency (base s) = Some r -> 1 <= res_ndevs r <= Z.of_nat (length (res_devs r)) ->
  0 <= d < res_ndevs r ->
  let survivable := recoverableStatus (wc_status wc) = true /\ 2 <= res_ndevs r
                    /\ forall j, 0 <= j < res_ndevs r -> j <> d -> devOk r j = true in
  (survivable -> ncclIbResiliencyCheckErrorNotFatal wc d s = (Done tt, s))
  /\ (~ survivable -> ncclIbResiliencyCheckErrorNotFatal wc d s = (Fail ncclRemoteError, s)).
Proof.
  intros Er Hn Hd. cbn zeta. unfold ncclIbResiliencyCheckErrorNotFatal. nstep (getRes_run _ _ Er).
  set (l := take (Z.to_nat (res_ndevs r)) (res_devs r)).
  assert (length l = Z.to_nat (res_ndevs r)) as Hl by (unfold l; rewrite length_take; lia).
  destruct (countFailed_one l 0 d) as [H1 Hone]; [lia|].
  assert (countFailed l 0 d = 1 <-> forall j, 0 <= j < res_ndevs r -> j <> d -> devOk r j = true) as Hothers.
  { rewrite Hone. split.
    - intros H j Hj Hne. unfold devOk, zget. rewrite decide_True by lia.
      destruct (lookup_lt_is_Some_2 (res_devs r) (Z.to_nat j)) as [rd Erd]; [lia|]. rewrite Erd.
      apply (H (Z.to_nat j)); [|lia]. unfold l. by rewrite lookup_take_lt by lia.
    - intros H j rd Ej Hne. pose proof (lookup_lt_Some _ _ _ Ej) as Hj.
      unfold l in Ej. rewrite lookup_take_lt in Ej by lia.
      specialize (H (Z.of_nat j) ltac:(lia) ltac:(lia)). unfold devOk in H. rewrite zget_lookup, Ej in H. done. }
  destruct (recoverableStatus (wc_status wc)) eqn:Est; cbn [negb].
  - rewrite andb_true_r. split.
    + intros (_ & H2 & Ho%Hothers). rewrite Ho. change (1 <? 1) with false.
      by replace (1 <? res_ndevs r) with true by lia.
    + intros Hns. destruct (Z.ltb_spec 1 (countFailed l 0 d)); [done|].
      destruct (Z.ltb_spec (countFailed l 0 d) (res_ndevs r)); [|done].
      exfalso. apply Hns. split; [done|]. split; [lia|]. apply Hothers. lia.
  - rewrite andb_false_r. split; [by intros (? & _)|]. intros _. by case_match.
Qed.

(** ** Replacing queue pairs *)

(** Queue pairs and devices as the failover code finds them. *)
Record failover_ready (s : Net) (r : ncclIbResiliency) : Prop := {
  fo_res : resiliency (base s) = Some r;
  fo_qps : qps_ready (base s);
  fo_ndevs : ndevs (base s) <= Z.of_nat (length (res_devs r));
}.

(** Only the table of active queue pairs differs. *)
Definition withActive (s : Net) (l : list (option Z)) : Net :=
  s <| base := (base s) <| activeQps := l |> |>.

Definition okQp (b : ncclIbNetCommBase) (r : ncclIbResiliency) (q : Z) : bool := devOk r (devOf b q).

(** The offsets [1 .. n] reach every index. *)
Lemma offsets_cover (P : Z -> bool) k n :
  0 <= k < n -> (forall o, 1 <= o <= n -> P ((k + o) mod n) = false) ->
  forall q, 0 <= q < n -> P q = false.
Proof.
  intros Hk H q Hq. destruct (decide (k < q)).
  - rewrite <- (H (q - k)) by lia. f_equal. replace (k + (q - k)) with q by lia. symmetry. by apply Z.mod_small.
  - rewrite <- (H (q - k + n)) by lia. f_equal. replace (k + (q - k + n)) with (q + 1 * n) by lia.
    rewrite Z_mod_plus_full. symmetry. by apply Z.mod_small.
Qed.

(** The search needs no more turns than there are queue pairs, and finds a queue pair
    on a functional device if there is one. *)
Lemma replaceSearch_spec s r k fuel offset :
  failover_ready s r -> 0 <= k < nqps (base s) -> okQp (base s) r k = false ->
  1 <= offset -> offset + Z.of_nat fuel = nqps (base s) + 1 ->
  (forall o, 1 <= o < offset -> okQp (base s) r ((k + o) mod nqps (base s)) = false) ->
  (exists q, replaceSearch fuel k offset s = (Done (Some q), s) /\ 0 <= q < nqps (base s)
             /\ okQp (base s) r q = true)
  \/ (1 <= Z.of_nat fuel -> replaceSearch fuel k offset s = (Done None, s))
     /\ forall q, 0 <= q < nqps (base s) -> okQp (base s) r q = false.
Proof.
  intros H Hk Hok. revert offset. induction fuel as [|fuel IH]; intros offset Ho Hf Hprev.
  - right. split; [lia|]. apply (offsets_cover _ k); [done|]. intros o Hr. apply Hprev. lia.
  - cbn [replaceSearch]. nred. replace (nqps (base s) =? 0) with false by lia.
    rewrite Z.rem_mod_nonneg by lia. set (q := (k + offset) mod nqps (base s)) in *.
    pose proof (Z.mod_pos_bound (k + offset) (nqps (base s)) ltac:(lia)) as Hq. fold q in Hq.
    destruct (qr_qps _ (fo_qps _ _ H) q Hq) as (qp & Eqp & Hd & _).
    destruct (zget_is_Some (res_devs r) (devIndex qp)) as [rd Erd]; [pose proof (fo_ndevs _ _ H); lia|].
    assert (okQp (base s) r q = isOk (rd_state rd)) as Eok by (unfold okQp, devOk, devOf; by rewrite Eqp, Erd).
    rewrite (bind_some _ _ _ _ Eqp). nstep (getDevState_run _ _ _ _ (fo_res _ _ H) Erd).
    rewrite <- Eok. destruct (okQp (base s) r q) eqn:E.
    + left. by exists q.
    + assert (forall o, 1 <= o < offset + 1 -> okQp (base s) r ((k + o) mod nqps (base s)) = false) as Hprev'.
      { intros o Hr. destruct (decide (o = offset)) as [->|]; [done|]. apply Hprev. lia. }
      destruct (Z.eqb_spec q k) as [Eqk|Hne].
      * right. split; [done|].
        assert (offset = nqps (base s)) as Eo.
        { unfold q in Eqk. destruct (decide (k + offset < nqps (base s))).
          - rewrite Z.mod_small in Eqk by lia. lia.
          - rewrite <- (Z.mod_add (k + offset) (-1)) in Eqk by lia. rewrite Z.mod_small in Eqk by lia. lia. }
        apply (offsets_cover _ k); [done|]. intros o Hr. apply Hprev'. lia.
      * destruct (IH (offset + 1)) as [(q' & Es & Hq' & Eq')|[Hn Hnone]]; [lia|lia|done| |].
        -- left. by exists q'.
        -- right. split; [|done]. intros _. apply Hn. 
           assert (offset <> nqps (base s)); [|lia]. intros ->. apply Hne. unfold q.
           rewrite <- (Z.mul_1_l (nqps (base s))) at 1. rewrite Z_mod_plus_full. by apply Z.mod_small.
Qed.

Lemma qps_ready_active b l :
  qps_ready b ->
  (forall k, 0 <= k < nqps b -> exists q, zget l k = Some (Some q) /\ 0 <= q < nqps b) ->
  qps_ready (b <| activeQps := l |>).
Proof. intros [] H. by constructor. Qed.

Lemma failover_withActive s r l :
  failover_ready s r ->
  (forall k, 0 <= k < nqps (base s) -> exists q, zget l k = Some (Some q) /\ 0 <= q < nqps (base s)) ->
  failover_ready (withActive s l) r.
Proof. intros [] H. constructor; [done| |done]. by apply qps_ready_active. Qed.

(** One turn of the loop. *)
Lemma replaceQp_run s r d k :
  failover_ready s r -> devOk r d = false -> 0 <= k < nqps (base s) ->
  (exists q, 0 <= q < nqps (base s) /\ okQp (base s) r q = true) ->
  exists q, replaceQp d k s = (Done tt, withActive s (zupd (activeQps (base s)) k (Some q)))
    /\ 0 <= q < nqps (base s)
    /\ (if devOf (base s) (activeQp (base s) k) =? d then okQp (base s) r q = true
        else q = activeQp (base s) k).
Proof.
  intros H Hd Hk (q0 & Hq0 & Hok0). pose proof (fo_qps _ _ H) as Q.
  destruct (activeQp_spec _ k Q Hk) as [Ea Hq]. set (q := activeQp (base s) k) in *.
  destruct (qr_qps _ Q q Hq) as (qp & Eqp & _).
  assert (devOf (base s) q = devIndex qp) as Edev by (unfold devOf; by rewrite Eqp).
  unfold replaceQp. nred. rewrite (bind_some _ _ _ _ Ea). unfold deref. rewrite (bind_some _ _ _ _ eq_refl).
  rewrite (bind_some _ _ _ _ Eqp), Edev. destruct (Z.eqb_spec (devIndex qp) d) as [Ed|Ed]; cbn [negb].
  - replace ((q <? 0) || (nqps (base s) <=? q)) with false by lia.
    assert (okQp (base s) r q = false) as Hbad by (unfold okQp; by rewrite Edev, Ed).
    destruct (replaceSearch_spec s r q (Z.to_nat (nqps (base s))) 1 H Hq Hbad) as [(q' & Es & Hq' & Eq')|[_ Hnone]];
      [lia|lia|lia| |by rewrite Hnone in Hok0].
    nstep Es. nred. exists q'. pose proof (zget_Some _ _ _ Ea) as Hlen.
    by rewrite (bind_some _ _ _ _ (zset_is_Some _ _ (Some q') Hlen)).
  - exists q. unfold withActive.
    assert (zupd (activeQps (base s)) k (Some q) = activeQps (base s)) as ->.
    { apply list_eq_zget. intros j. rewrite zget_zupd. case_decide as Hc; [|done]. by destruct Hc as [<- _]. }
    unfold ret. split; [|done]. f_equal. by destruct s as [[]].
Qed.

(** What replacing the queue pairs of device [d] does to the table. *)
Definition replaced (b : ncclIbNetCommBase) (r : ncclIbResiliency) (d n : Z) (l : list (option Z)) : Prop :=
  length l = length (activeQps b)
  /\ (forall k, ~ 0 <= k < n -> zget l k = zget (activeQps b) k)
  /\ forall k, 0 <= k < n -> exists q, zget l k = Some (Some q) /\ 0 <= q < nqps b
       /\ if devOf b (activeQp b k) =? d then okQp b r q = true else q = activeQp b k.

Lemma replaceQps_run s r d :
  failover_ready s r -> devOk r d = false ->
  (exists q, 0 <= q < nqps (base s) /\ okQp (base s) r q = true) ->
  exists l, ncclIbResiliencyReplaceQps d s = (Done tt, withActive s l)
    /\ replaced (base s) r d (nqps (base s)) l /\ failover_ready (withActive s l) r.
Proof.
  intros H Hd Hok. pose proof (fo_qps _ _ H) as Q. pose proof (qr_nqps _ Q).
  assert (forall i l, 0 <= i <= nqps (base s) -> replaced (base s) r d i l -> failover_ready (withActive s l) r) as Hfr.
  { intros i l Hi (Hl & Hout & Hin). apply failover_withActive; [done|]. intros k Hk.
    destruct (decide (0 <= k < i)) as [Hki|Hki].
    - destruct (Hin k Hki) as (q & E & Hq & _). eauto.
    - rewrite Hout by done. by apply Q. }
  unfold ncclIbResiliencyReplaceQps. nred. unfold forN.
  destruct (for_total (fun i s' => exists l, s' = withActive s l /\ replaced (base s) r d i l)
              (Z.to_nat (nqps (base s))) 0 (replaceQp d) s) as (s' & E & l & -> & Hl).
  - intros i s1 Hi (l & -> & Hl). pose proof Hl as (Hlen & Hout & Hin).
    destruct (replaceQp_run (withActive s l) r d i (Hfr i l ltac:(lia) Hl) Hd ltac:(cbn; lia) Hok) as (q & E & Hq & Hc).
    exists (withActive s (zupd l i (Some q))). split; [exact E|]. eexists. split; [reflexivity|].
    assert (activeQp (base (withActive s l)) i = activeQp (base s) i) as Ei.
    { unfold activeQp. cbn. by rewrite Hout by lia. }
    split; [by rewrite length_zupd|]. split.
    + intros k Hk. rewrite zget_zupd_ne by lia. apply Hout. lia.
    + intros k Hk. destruct (decide (k = i)) as [->|Hne].
      * exists q. rewrite zget_zupd_eq by (destruct (activeQp_spec _ i Q ltac:(lia)) as [Ea _];
          apply zget_Some in Ea; lia). split; [done|]. split; [done|]. by rewrite Ei in Hc.
      * rewrite zget_zupd_ne by lia. apply Hin. lia.
  - exists (activeQps (base s)). split; [by destruct s as [[]]|]. split; [done|]. split; [done|]. lia.
  - exists l. rewrite Z.add_0_l, Z2Nat.id in Hl by lia. split; [exact E|]. split; [done|].
    apply (Hfr (nqps (base s))); [lia|done].
Qed.

Lemma restore_run s d :
  qps_ready (base s) ->
  exists l, ncclIbResiliencyActiveQpsRestore d s = (Done tt, withActive s l)
    /\ length l = length (activeQps (base s))
    /\ forall k, zget l k = if decide (0 <= k < nqps (base s) /\ devOf (base s) k = d)
                            then Some (Some k) else zget (activeQps (base s)) k.
Proof.
  intros Q. pose proof (qr_nqps _ Q). unfold ncclIbResiliencyActiveQpsRestore. nred. unfold forN.
  match goal with |- context [for_ ?n ?a ?body s] =>
    destruct (for_total (fun i s' => exists l, s' = withActive s l /\ length l = length (activeQps (base s))
      /\ forall k, zget l k = if decide (0 <= k < i /\ devOf (base s) k = d)
                              then Some (Some k) else zget (activeQps (base s)) k) n a body s)
      as (s' & E & l & -> & Hl & Hz) end.
  - intros i s1 Hi (l & -> & Hl & Hz). nred.
    destruct (qr_qps _ Q i ltac:(lia)) as (qp & Eqp & _).
    assert (devOf (base s) i = devIndex qp) as Edev by (unfold devOf; by rewrite Eqp).
    rewrite (bind_some _ qp) by done. destruct (Z.eqb_spec (devIndex qp) d) as [Ed|Ed]; cbn [negb].
    + destruct (activeQp_spec _ i Q ltac:(lia)) as [Ea _]. apply zget_Some in Ea.
      rewrite (bind_some _ (zupd l i (Some i))) by (cbn; rewrite zset_is_Some by lia; done).
      eexists. split; [reflexivity|]. eexists. split; [reflexivity|]. split; [by rewrite length_zupd|].
      intros k. rewrite zget_zupd, Hz. destruct (decide (k = i)) as [->|Hk].
      * rewrite !decide_True by (split; [lia|congruence || lia]). done.
      * rewrite (decide_False (P := i = k /\ _)) by (by intros [<- _]).
        repeat case_decide; try done; exfalso; intuition lia.
    + exists (withActive s l). split; [done|]. exists l. split; [done|]. split; [done|].
      intros k. rewrite Hz. destruct (decide (k = i)) as [->|Hk].
      * rewrite !decide_False by (intros [? ?]; lia || congruence). done.
      * repeat case_decide; try done; exfalso; intuition lia.
  - exists (activeQps (base s)). split; [by destruct s as [[]]|]. split; [done|].
    intros k. by rewrite decide_False by lia.
  - exists l. split; [exact E|]. split; [done|]. intros k. rewrite Hz, Z2Nat.id by lia. by rewrite Z.add_0_l.
Qed.

(** C38. Moving the traffic off a failed device and back is the identity: when every
    queue-pair index is served by its own queue pair, replacing the queue pairs of
    device [d] and then restoring them gives back the same state. *)
Theorem replace_then_restore s r d :
  failover_ready s r -> devOk r d = false ->
  (exists q, 0 <= q < nqps (base s) /\ okQp (base s) r q = true) ->
  (forall k, 0 <= k < nqps (base s) -> activeQp (base s) k = k) ->
  (ncclIbResiliencyReplaceQps d ;;; ncclIbResiliencyActiveQpsRestore d) s = (Done tt, s).
Proof.
  intros H Hd Hok Hid. destruct (replaceQps_run s r d H Hd Hok) as (l & E & (Hl & Hout & Hin) & H1).
  nstep E. destruct (restore_run (withActive s l) d (fo_qps _ _ H1)) as (l' & E' & Hl' & Hz). rewrite E'. f_equal.
  assert (l' = activeQps (base s)) as ->; [|by destruct s as [[]]].
  apply list_eq_zget. intros k. rewrite Hz. cbn.
  change (devOf (base (withActive s l)) k) with (devOf (base s) k).
  case_decide as Hc.
  - destruct (activeQp_spec _ k (fo_qps _ _ H) (proj1 Hc)) as [-> _]. by rewrite Hid by lia.
  - destruct (decide (0 <= k < nqps (base s))) as [Hk|Hk]; [|by apply Hout].
    destruct (Hin k Hk) as (q & -> & _ & Hq). destruct (activeQp_spec _ k (fo_qps _ _ H) Hk) as [-> _].
    rewrite (Hid k Hk) in *. replace (devOf (base s) k =? d) with false in Hq by (symmetry; apply Z.eqb_neq; tauto).
    by rewrite Hq.
Qed.

(** ** The failure of a device *)

Definition withDevState (r : ncclIbResiliency) (d : Z) (st : ncclIbResiliencyDevState) : ncclIbResiliency :=
  match zget (res_devs r) d with
  | Some rd => r <| res_devs := zupd (res_devs r) d (rd <| rd_state := st |>) |>
  | None => r
  end.

Lemma setDevState_run s r d st rd :
  resiliency (base s) = Some r -> zget (res_devs r) d = Some rd ->
  setDevState d st s = (Done tt, updRes s (withDevState r d st)).
Proof.
  intros Er Ed. unfold setDevState, modResDev, withDevState. rewrite Ed. eapply modRes_run; [exact Er|].
  cbn beta. rewrite Ed. cbn [mbind option_bind]. by rewrite zset_is_Some by (by eapply zget_Some).
Qed.

Lemma withDevState_get r d st rd :
  zget (res_devs r) d = Some rd ->
  zget (res_devs (withDevState r d st)) d = Some (rd <| rd_state := st |>)
  /\ length (res_devs (withDevState r d st)) = length (res_devs r)
  /\ devOk (withDevState r d st) d = isOk st
  /\ forall d', d' <> d -> devOk (withDevState r d st) d' = devOk r d'.
Proof.
  intros E. unfold withDevState. rewrite E. pose proof (zget_Some _ _ _ E) as Hd. cbn.
  split; [by apply zget_zupd_eq|]. split; [by rewrite length_zupd|]. unfold devOk. cbn.
  split; [by rewrite zget_zupd_eq|]. intros d' Hne. by rewrite zget_zupd_ne.
Qed.

(** A loop that acts on one index only. *)
Lemma for_only {S} n a d (m : Z -> comp S unit) s s' :
  m d s = (Done tt, s') -> a <= d < a + Z.of_nat n ->
  for_ n a (fun i => if negb (i =? d) then ret tt else m i) s = (Done tt, s').
Proof.
  intros E. assert (forall n a s, d < a -> for_ n a (fun i => if negb (i =? d) then ret tt else m i) s = (Done tt, s)) as Hskip.
  { intros n0; induction n0 as [|n0 IH]; intros a' s0 Ha; [done|]. cbn [for_]. replace (a' =? d) with false by lia.
    cbn [negb]. nred. apply IH. lia. }
  revert a. induction n as [|n IH]; intros a Ha; [lia|]. cbn [for_]. destruct (Z.eqb_spec a d) as [->|Hne]; cbn [negb].
  - nstep E. apply Hskip. lia.
  - nred. apply IH. lia.
Qed.

Definition stateOf (r : ncclIbResiliency) (d : Z) : option ncclIbResiliencyDevState :=
  rd_state <$> zget (res_devs r) d.

Lemma withDevState_state r d st d' :
  stateOf r d <> None ->
  stateOf (withDevState r d st) d' = if decide (d' = d) then Some st else stateOf r d'.
Proof.
  unfold stateOf, withDevState. destruct (zget (res_devs r) d) as [rd|] eqn:E; [|done]. intros _. cbn.
  rewrite zget_zupd. case_decide as H1; case_decide as H2; try done; exfalso.
  - by destruct H1 as [-> _].
  - apply H1. split; [done|]. by eapply zget_Some.
Qed.

Lemma failover_updRes s r r' :
  failover_ready s r -> length (res_devs r') = length (res_devs r) -> failover_ready (updRes s r') r'.
Proof. intros [] Hl. constructor; [done|by destruct fo_qps0; constructor|cbn; by rewrite Hl]. Qed.

Lemma stateOf_length r d st : length (res_devs (withDevState r d st)) = length (res_devs r).
Proof. unfold withDevState. case_match; [|done]. cbn. apply length_zupd. Qed.

Section DeviceFailure.
Context `{M : Machine}.

(** Handing the device over to the recovery thread. *)
Lemma handleFailure_run s r d :
resiliency (base s) = Some r -> recoveryEnabled r = true ->
stateOf r d = Some ncclIbResiliencyDevStateRecoveryInProgress ->
ncclIbPortRecoveryHandleFailure d s =
(if recoveryContextInit_ok env (history s) d
 then (Done ncclSuccess, s <| history := history s ++ [StartedRecovery d] |>)
 else (Done ncclSystemError, s)).
Proof.
intros Er En Es. unfold stateOf in Es. destruct (zget (res_devs r) d) as [rd|] eqn:Ed; [|done].
injection Es as Es. unfold ncclIbPortRecoveryHandleFailure. nstep (getRes_run _ _ Er). rewrite En. cbn [negb].
nstep (getDevState_run _ _ _ _ Er Ed). rewrite Es, bool_decide_eq_true_2 by done. cbn [negb]. nred. by destruct (recoveryContextInit_ok _ _ _).
Qed.

(** The part of [ncclIbResiliencyHandleDeviceFailure] after the queue pairs are replaced. *)
Lemma recoveryPart_run s r d :
resiliency (base s) = Some r -> recoveryEnabled r = true ->
stateOf r d = Some ncclIbResiliencyDevStateError -> 0 <= d < res_ndevs r ->
exists s' r', (setDevState d ncclIbResiliencyDevStateRecoveryInProgress ;;;
 let* res := ncclIbPortRecoveryHandleFailure d in
 if bool_decide (res = ncclSuccess)
 then modRes (fun r => Some (r <| outstandingRecovery := outstandingRecovery r + 1 |>
 <| inProgress := true |>))
 else forN (res_ndevs r) (fun i =>
if negb (i =? d) then ret tt
else setDevState i ncclIbResiliencyDevStateErrorPermanent)) s = (Done tt, s')
/\ s' = (updRes s r') <| history := history s' |>
/\ forall d', stateOf r' d' = if decide (d' = d)
 then Some (if recoveryContextInit_ok env (history s) d then ncclIbResiliencyDevStateRecoveryInProgress
else ncclIbResiliencyDevStateErrorPermanent)
 else stateOf r d'.
Proof.
intros Er En Es Hd. assert (stateOf r d <> None) as Hn by (by rewrite Es).
pose proof Es as Es'. unfold stateOf in Es'. destruct (zget (res_devs r) d) as [rd|] eqn:Ed; [|done].
rewrite (bind_step _ _ _ _ _ (setDevState_run s r d _ rd Er Ed)).
set (r2 := withDevState r d ncclIbResiliencyDevStateRecoveryInProgress).
assert (forall d', stateOf r2 d' = if decide (d' = d) then Some ncclIbResiliencyDevStateRecoveryInProgress else stateOf r d') as E2
by (intros; by apply withDevState_state).
assert (recoveryEnabled r2 = true) as En2 by (unfold r2, withDevState; by rewrite Ed).
assert (ncclIbPortRecoveryHandleFailure d (updRes s r2) = _) as Eh
by (apply (handleFailure_run (updRes s r2) r2 d eq_refl En2); by rewrite E2, decide_True by done).
change (history (updRes s r2)) with (history s) in Eh.
destruct (recoveryContextInit_ok env (history s) d).
- nstep Eh. rewrite bool_decide_eq_true_2 by done.
erewrite modRes_run; [|reflexivity|reflexivity].
eexists _, (r2 <| outstandingRecovery := outstandingRecovery r2 + 1 |> <| inProgress := true |>).
split; [reflexivity|]. split; [reflexivity|exact E2].
- nstep Eh. rewrite bool_decide_eq_false_2 by done.
assert (zget (res_devs r2) d <> None) as Hd2.
{ specialize (E2 d). rewrite decide_True in E2 by done. unfold stateOf in E2. by destruct (zget (res_devs r2) d). }
destruct (zget (res_devs r2) d) as [rd2|] eqn:Ed2; [|done].
unfold forN. erewrite for_only; [|eapply (setDevState_run (updRes s r2) r2 d _ rd2); [done|exact Ed2]|lia].
eexists _, (withDevState r2 d ncclIbResiliencyDevStateErrorPermanent).
split; [reflexivity|]. split; [reflexivity|]. intros d'.
rewrite withDevState_state by (unfold stateOf; by rewrite Ed2). rewrite E2. by repeat case_decide.
Qed.

(** C14. When a functional device fails while another queue pair is on a functional one,
[ncclIbResiliencyHandleDeviceFailure] moves every active queue pair off the device,
onto functional devices, and leaves the others alone; the device ends in recovery
if recovery is on and accepted it, permanently failed if it was refused, and in
error otherwise; other devices, requests and the communicator keep their state.
A second failure of a device that is already down has no effect. *)
Theorem device_failure_moves_traffic s r d :
failover_ready s r -> ndevs (base s) = res_ndevs r -> 0 <= d < res_ndevs r ->
(devOk r d = false -> stateOf r d <> None -> ncclIbResiliencyHandleDeviceFailure d s = (Done tt, s))
/\ (devOk r d = true ->
(exists q, 0 <= q < nqps (base s) /\ devOf (base s) q <> d /\ okQp (base s) r q = true) ->
exists s' r', ncclIbResiliencyHandleDeviceFailure d s = (Done tt, s')
/\ resiliency (base s') = Some r' /\ reqs (base s') = reqs (base s) /\ tail s' = tail s
/\ qps_ready (base s')
/\ (forall k, 0 <= k < nqps (base s) ->
 devOf (base s) (activeQp (base s') k) <> d
 /\ (devOf (base s) (activeQp (base s) k) = d -> okQp (base s) r (activeQp (base s') k) = true)
 /\ (devOf (base s) (activeQp (base s) k) <> d -> activeQp (base s') k = activeQp (base s) k))
/\ forall d', stateOf r' d' = if decide (d' = d)
 then Some (if recoveryEnabled r
then if recoveryContextInit_ok env (history s) d
 then ncclIbResiliencyDevStateRecoveryInProgress
 else ncclIbResiliencyDevStateErrorPermanent
else ncclIbResiliencyDevStateError)
 else stateOf r d').
Proof.
intros H Hnd Hd. pose proof H as [Er Q Hl].
destruct (zget_is_Some (res_devs r) d) as [rd Ed]; [lia|].
assert (devOk r d = isOk (rd_state rd)) as Eok by (unfold devOk; by rewrite Ed).
assert (stateOf r d = Some (rd_state rd)) as Est by (unfold stateOf; by rewrite Ed).
unfold ncclIbResiliencyHandleDeviceFailure. rewrite (bind_step _ _ _ _ _ (getDevState_run _ _ _ _ Er Ed)).
rewrite Eok. split; [by intros ->|]. intros Hok (q & Hq & Hqd & Hqok). rewrite Hok.
set (r1 := withDevState r d ncclIbResiliencyDevStateError).
assert (failover_ready (updRes s r1) r1) as H1 by (apply (failover_updRes s r); [done|apply stateOf_length]).
destruct (withDevState_get r d ncclIbResiliencyDevStateError rd Ed) as (Ed1 & _ & Hbad & Hothers). fold r1 in Ed1, Hbad, Hothers.
destruct (replaceQps_run (updRes s r1) r1 d H1 Hbad) as (l & El & (_ & _ & Hin) & H2).
{ exists q. split; [done|]. unfold okQp in *. cbn. by rewrite Hothers. }
rewrite (bind_step _ _ _ _ _ (setDevState_run s r d _ rd Er Ed)). fold r1. nstep El.
nstep (getRes_run (withActive (updRes s r1) l) r1 eq_refl).
set (s2 := withActive (updRes s r1) l) in *.
assert (forall s' r', s' = (updRes s2 r') <| history := history s' |> ->
qps_ready (base s') /\ forall k, 0 <= k < nqps (base s) ->
 devOf (base s) (activeQp (base s') k) <> d
 /\ (devOf (base s) (activeQp (base s) k) = d -> okQp (base s) r (activeQp (base s') k) = true)
 /\ (devOf (base s) (activeQp (base s) k) <> d -> activeQp (base s') k = activeQp (base s) k)) as Hactive.
{ intros s' r' Es'. assert (base s' = (base s2) <| resiliency := Some r' |>) as -> by (rewrite Es'; done).
split; [destruct H2 as [_ Q2 _]; by destruct Q2|]. intros k Hk.
destruct (Hin k Hk) as (q' & Eq' & _ & Hc).
assert (activeQp ((base s2) <| resiliency := Some r' |>) k = q') as ->
by (unfold activeQp; cbn; by rewrite Eq').
change (activeQp (base (updRes s r1)) k) with (activeQp (base s) k) in Hc.
change (devOf (base (updRes s r1))) with (devOf (base s)) in Hc.
assert (okQp (base s) r1 q' = true -> devOf (base s) q' <> d) as Hne.
{ unfold okQp. intros E1 E2. by rewrite E2, Hbad in E1. }
destruct (Z.eqb_spec (devOf (base s) (activeQp (base s) k)) d) as [E|E]; [|by subst q'].
split; [by apply Hne|]. split; [|done]. intros _. unfold okQp in *.
change (devOf (base (updRes s r1)) q') with (devOf (base s) q') in Hc.
rewrite <- Hothers; [exact Hc|]. by apply Hne. }
assert (recoveryEnabled r1 = recoveryEnabled r /\ res_ndevs r1 = res_ndevs r) as [Een End]
by (unfold r1, withDevState; by rewrite Ed).
rewrite Een. destruct (recoveryEnabled r) eqn:En; cbn [when].
- destruct (recoveryPart_run s2 r1 d eq_refl Een) as (s' & r' & E & Es' & Hst).
{ unfold r1. rewrite withDevState_state by (by rewrite Est). by rewrite decide_True. }
{ by rewrite End. }
destruct (Hactive s' r' Es') as [Q' Ha].
exists s', r'. split; [exact E|]. rewrite Es'. split; [done|]. split; [done|]. split; [done|].
split; [by rewrite Es' in Q'|]. split; [by rewrite Es' in Ha|].
intros d'. rewrite Hst. change (history s2) with (history s).
case_decide; [done|]. unfold r1. by rewrite withDevState_state, decide_False by (done || by rewrite Est).
- destruct (Hactive s2 r1) as [Q' Ha]; [by destruct s|].
exists s2, r1. split; [done|]. do 3 (split; [done|]). split; [exact Q'|]. split; [exact Ha|].
intros d'. unfold r1. by rewrite withDevState_state by (by rewrite Est).
Qed.

End DeviceFailure.

(** ** Tracking failed requests *)

Definition isTracked (fr : ncclIbResiliencyRequestSend) : Z := if fr_request fr then 1 else 0.

(** [outstandingRequests] counts the tracked requests. *)
Definition counts_tracked (r : ncclIbResiliency) : Prop :=
  outstandingRequests r = zsum (map isTracked (failedRequests r)).

Lemma map_zupd {A B} (f : A -> B) l i x : map f (zupd l i x) = zupd (map f l) i (f x).
Proof. unfold zupd. case_decide; [|done]. apply (list_fmap_insert f). Qed.

Lemma counts_tracked_upd r i fr fr' k ip :
  counts_tracked r -> zget (failedRequests r) i = Some fr ->
  k = outstandingRequests r - isTracked fr + isTracked fr' ->
  counts_tracked (r <| failedRequests := zupd (failedRequests r) i fr' |>
                    <| outstandingRequests := k |> <| inProgress := ip |>).
Proof.
  intros H E ->. unfold counts_tracked in *. cbn. rewrite map_zupd.
  rewrite (zsum_upd _ i (isTracked fr)); [by rewrite H|].
  unfold zget in *. case_decide; [|done]. by rewrite list_lookup_fmap, E.
Qed.

Lemma getFailed_run s r i fr :
  resiliency (base s) = Some r -> zget (failedRequests r) i = Some fr -> getFailed i s = (Done fr, s).
Proof. intros Er E. unfold getFailed. nstep (getRes_run _ _ Er). by rewrite E. Qed.

Lemma modFailed_run s r i fr f :
  resiliency (base s) = Some r -> zget (failedRequests r) i = Some fr ->
  modFailed i f s = (Done tt, updRes s (r <| failedRequests := zupd (failedRequests r) i (f fr) |>)).
Proof.
  intros Er E. unfold modFailed. eapply modRes_run; [exact Er|]. cbn beta. rewrite E. cbn [mbind option_bind].
  by rewrite zset_is_Some by (by eapply zget_Some).
Qed.

(** Tracking of failed sends: [ncclIbResiliencySendRequestInit] ignores a request
    that is or was tracked under its number, rejects an older one, and otherwise
    records it as pending with the time of the error; [ncclIbResiliencySendRequestFree]
    forgets a tracked request but keeps its number, so that late errors are ignored.
    Both keep [outstandingRequests] equal to the number of tracked requests. *)
Theorem failed_request_tracking `{M : Machine} s r i d slot fr :
  resiliency (base s) = Some r -> zget (failedRequests r) slot = Some fr -> counts_tracked r ->
  (forall q, zget (reqs (base s)) i = Some q -> slot = r_id q mod NET_IB_MAX_REQUESTS ->
     (fr_id fr = u64 (r_id q + 1) -> ncclIbResiliencySendRequestInit i d s = (Done tt, s))
     /\ (u64 (r_id q + 1) < fr_id fr -> ncclIbResiliencySendRequestInit i d s = (Fail ncclInternalError, s))
     /\ (fr_id fr < u64 (r_id q + 1) -> r_type q = REQ_SEND -> fr_request fr = None ->
         exists s' r' fr', ncclIbResiliencySendRequestInit i d s = (Done tt, s')
           /\ s' = (updRes s r') <| history := history s ++ [TookTime] |>
           /\ zget (failedRequests r') slot = Some fr' /\ fr_request fr' = Some i
           /\ fr_state fr' = ncclIbResiliencyRequestStatePending /\ fr_devIndex fr' = d
           /\ fr_time fr' = clockNano env (history s) /\ fr_id fr' = u64 (r_id q + 1)
           /\ inProgress r' = true /\ counts_tracked r'))
  /\ (fr_request fr = None -> ncclIbResiliencySendRequestFree slot s = (Fail ncclInternalError, s))
  /\ (fr_request fr <> None ->
      exists r' fr', ncclIbResiliencySendRequestFree slot s = (Done tt, updRes s r')
        /\ zget (failedRequests r') slot = Some fr' /\ fr_request fr' = None /\ fr_id fr' = fr_id fr
        /\ counts_tracked r').
Proof.
  intros Er Ef Hc. pose proof (zget_Some _ _ _ Ef) as Hslot. split; [|split].
  - intros q Eq Es. unfold ncclIbResiliencySendRequestInit.
    rewrite (bind_step _ _ _ _ _ (getReq_run _ _ _ Eq)). rewrite <- Es.
    rewrite (bind_step _ _ _ _ _ (getFailed_run _ _ _ _ Er Ef)).
    split; [intros ->; by rewrite Z.eqb_refl|]. split.
    + intros Hlt. replace (fr_id fr =? u64 (r_id q + 1)) with false by lia.
      by replace (u64 (r_id q + 1) <=? fr_id fr) with true by lia.
    + intros Hlt Et Enone. replace (fr_id fr =? u64 (r_id q + 1)) with false by lia.
      replace (u64 (r_id q + 1) <=? fr_id fr) with false by lia. rewrite bool_decide_eq_true_2 by done. cbn [negb].
      unfold clock at 1. rewrite bind_assoc, bind_getS. unfold log at 1, modify. rewrite bind_assoc. unfold bind at 1. nred.
      erewrite bind_step; [|eapply modFailed_run; [exact Er|exact Ef]]. cbv beta.
      erewrite modRes_run; [|reflexivity|reflexivity]. do 3 eexists. split; [reflexivity|]. split; [reflexivity|].
      split; [cbn; by apply zget_zupd_eq|]. do 6 (split; [done|]).
      apply (counts_tracked_upd r slot fr); [done|done|]. unfold isTracked. rewrite Enone. cbn. lia.
  - intros En. unfold ncclIbResiliencySendRequestFree. nstep (getFailed_run _ _ _ _ Er Ef). by rewrite En.
  - intros En. unfold ncclIbResiliencySendRequestFree. nstep (getFailed_run _ _ _ _ Er Ef).
    destruct (fr_request fr) as [j|] eqn:Ej; [|done].
    erewrite bind_step; [|eapply modFailed_run; [exact Er|exact Ef]]. cbv beta.
    erewrite modRes_run; [|reflexivity|reflexivity]. do 2 eexists. split; [reflexivity|].
    split; [cbn; by apply zget_zupd_eq|]. do 2 (split; [done|]).
    refine (counts_tracked_upd r slot fr (mkResReq ncclIbResiliencyRequestStatePending None 0 0 0 (fr_id fr))
              (outstandingRequests r - 1) (inProgress r) Hc Ef _).
    unfold isTracked. rewrite Ej. cbn. lia.
Qed.

(** ** Completion under failover *)

Lemma eventSums_spec es rem neg :
  exists p m, eventSums es rem neg = (rem + p, neg - m) /\ 0 <= p /\ 0 <= m /\ zsum es = p - m
    /\ (p = 0 <-> forall e, In e es -> e <= 0).
Proof.
  revert rem neg. induction es as [|e es IH]; intros rem neg; cbn [eventSums zsum].
  - exists 0, 0. rewrite Z.add_0_r, Z.sub_0_r. repeat (split; [done || lia|]). done.
  - destruct (Z.ltb_spec e 0) as [He|He].
    + destruct (IH rem (neg + e)) as (p & m & -> & Hp & Hm & Hs & Hz). exists p, (m - e).
      split; [f_equal; lia|]. do 3 (split; [lia|]). rewrite Hz. split.
      * intros H e' [<-|Hin]; [lia|by apply H].
      * intros H e' Hin. apply H. by right.
    + destruct (IH (rem + e) neg) as (p & m & -> & Hp & Hm & Hs & Hz). exists (p + e), m.
      split; [f_equal; lia|]. do 3 (split; [lia|]). split.
      * intros H e' [<-|Hin]; [lia|]. apply Hz; [lia|done].
      * intros H. assert (e <= 0) by (apply H; by left).
        assert (p = 0); [|lia]. apply Hz. intros e' Hin. apply H. by right.
Qed.

(** Under failover a request counts as complete exactly when no device is waited
    for any more (no positive event counter) or the events still waited for on some
    devices are balanced by events that arrived on other devices in their place (the
    counters add up to zero). *)
Theorem resiliency_completion_rule s r i q :
  resiliency (base s) = Some r -> zget (reqs (base s)) i = Some q ->
  let es := take (Z.to_nat (res_ndevs r)) (r_events q) in
  exists b, ncclIbResiliencyRequestIsComplete i s = (Done b, s)
    /\ (b = true <-> (forall e, In e es -> e <= 0) \/ zsum es = 0).
Proof.
  intros Er Eq. cbn zeta. unfold ncclIbResiliencyRequestIsComplete. nstep (getReq_run _ _ _ Eq). nred.
  rewrite Er. destruct (eventSums_spec (take (Z.to_nat (res_ndevs r)) (r_events q)) 0 0)
    as (p & m & -> & Hp & Hm & Hs & Hz). eexists. split; [reflexivity|]. rewrite <- Hz, Hs.
  rewrite orb_true_iff, !Z.eqb_eq. lia.
Qed.

(** ** Instances *)

Import NetDemo.Demo.

(** Device 0 is down. *)
Definition resDown : ncclIbResiliency := withDevState res 0 ncclIbResiliencyDevStateError.

Lemma demo_failover_ready r :
  res_devs r = res_devs res \/ res_devs r = res_devs resDown -> failover_ready (sender (Some r)) r.
Proof.
  intros H. constructor; [done|apply demo_qps_ready|]. by destruct H as [-> | ->].
Qed.

Lemma error_not_fatal_iff_witness :
  ncclIbResiliencyCheckErrorNotFatal (mkWc 5 IBV_WC_RETRY_EXC_ERR IBV_WC_OTHER 0 0 0) 0 (sender (Some res))
  = (Done tt, sender (Some res)).
Proof.
  apply (error_not_fatal_iff (sender (Some res)) res _ 0 eq_refl); [cbn; lia|cbn; lia|].
  split; [done|]. split; [cbn; lia|]. intros j Hj Hne. change (res_ndevs res) with 2 in Hj.
  zcases j; done.
Defined.

Lemma demo_other_qp r : res_devs r = res_devs res \/ res_devs r = res_devs resDown ->
  exists q, 0 <= q < nqps (base (sender (Some r))) /\ devOf (base (sender (Some r))) q <> 0
            /\ okQp (base (sender (Some r))) r q = true.
Proof.
  intros H. exists 1. split; [cbn; lia|]. split; [done|]. unfold okQp, devOk. by destruct H as [-> | ->].
Qed.

Lemma replace_then_restore_witness :
  (ncclIbResiliencyReplaceQps 0 ;;; ncclIbResiliencyActiveQpsRestore 0) (sender (Some resDown))
  = (Done tt, sender (Some resDown)).
Proof.
  apply (replace_then_restore _ resDown); [by apply demo_failover_ready; right|done| |].
  - destruct (demo_other_qp resDown) as (q & Hq & _ & Ho); [by right|]. eauto.
  - intros k Hk. change (nqps (base (sender (Some resDown)))) with 4 in Hk. by zcases k.
Defined.

Lemma device_failure_moves_traffic_witness :
  exists s', @ncclIbResiliencyHandleDeviceFailure machine 0 (sender (Some res)) = (Done tt, s')
    /\ devOf (base (sender (Some res))) (activeQp (base s') 2) <> 0.
Proof.
  destruct (proj2 (@device_failure_moves_traffic machine (sender (Some res)) res 0
    (demo_failover_ready res (or_introl eq_refl)) eq_refl ltac:(cbn; lia)) eq_refl
    (demo_other_qp res (or_introl eq_refl)))
    as (s' & r' & E & _ & _ & _ & _ & Ha & _).
  exists s'. split; [exact E|]. apply (Ha 2). cbn. lia.
Defined.

Lemma failed_request_tracking_witness :
  exists s', @ncclIbResiliencySendRequestInit machine 0 1 (sender (Some res)) = (Done tt, s')
    /\ outstandingRequests <$> resiliency (base s') = Some 1.
Proof.
  destruct (proj1 (@failed_request_tracking machine (sender (Some res)) res 0 1 5 noFailure
    eq_refl eq_refl eq_refl) (sendReq 1000 0x5000) eq_refl eq_refl) as (_ & _ & H).
  destruct H as (s' & r' & fr & E & Es & _ & _ & _ & _ & _ & _ & _ & _); [vm_compute; done..|].
  exists s'. split; [exact E|]. vm_compute in E. injection E as <-. reflexivity.
Defined.

Lemma resiliency_completion_rule_witness :
  exists b, ncclIbResiliencyRequestIsComplete 0 (sender (Some res)) = (Done b, sender (Some res)) /\ b = false.
Proof.
  destruct (resiliency_completion_rule (sender (Some res)) res 0 (sendReq 1000 0x5000) eq_refl eq_refl)
    as (b & E & H).
  exists b. split; [exact E|]. destruct b; [|done]. exfalso.
  destruct (proj1 H eq_refl) as [H1|H1]; [specialize (H1 1 (or_introl eq_refl)); lia|done].
Defined.
