(* ===== verification/ReplaySpec.v ===== *)
(** * Transport: replaying a failed send

    After a probe, [ncclIbResiliencyRepostRequest] sends again exactly the chunks the
    probe did not find delivered, and waits for exactly their completions. *)

From S2P Require Import Prelude NetTypes NetBase NetLemmas NetSpec NetSend SendPlan NetDemo SendSpec Resiliency ResiliencySpec.

Open Scope Z_scope.
Open Scope nccl_scope.

Section Replay.
Context (b : ncclIbNetCommBase) (delivered : list bool).

Definition isDelivered (k : Z) : bool := default false (zget delivered k).

(** The queue pairs whose data is missing, and their devices. *)
Definition undelivered (qs : list (Z * Z)) : list (Z * Z) :=
List.filter (fun '(_, k) => negb (isDelivered k)) qs.

Definition missingDevs (qs : list (Z * Z)) : list Z := map (fun '(q, _) => devOf b q) (undelivered qs).

(** What [repostEvents] makes of a request. *)
Definition repostStep (q : ncclIbRequest) (p : Z * Z) : ncclIbRequest :=
let '(qi, k) := p in
if isDelivered k then q
else default q (addEvent (devOf b qi) (q <| send_sentData := zupd (send_sentData q) k false |>)).

Definition reposted (qs : list (Z * Z)) (q : ncclIbRequest) : ncclIbRequest :=
fold_left repostStep qs (q <| r_events := zeros NCCL_IB_MAX_DEVS_PER_NIC |>).

(** Requests that agree but for their events and the record of what was sent. *)
Definition sameMessage (q q' : ncclIbRequest) : Prop :=
q' = q <| r_events := r_events q' |> <| r_devBases := r_devBases q' |>
 <| send_sentData := send_sentData q' |>
/\ length (send_sentData q') = length (send_sentData q).

Lemma sameMessage_refl q : sameMessage q q.
Proof. split; [by destruct q|done]. Qed.

Lemma sameMessage_trans q1 q2 q3 : sameMessage q1 q2 -> sameMessage q2 q3 -> sameMessage q1 q3.
Proof.
intros [E1 L1] [E2 L2]. split; [|congruence]. rewrite E2 at 1. rewrite E1. by destruct q1, q3.
Qed.

Lemma sameMessage_fields q q' :
sameMessage q q' ->
r_type q' = r_type q /\ r_id q' = r_id q /\ r_nreqs q' = r_nreqs q /\ send_size q' = send_size q
/\ send_data q' = send_data q /\ send_lkeys q' = send_lkeys q /\ send_weights q' = send_weights q.
Proof. intros [E _]. by rewrite E. Qed.

Lemma fold_repost qs q :
devs_wf q -> qps_ready b ->
Forall (fun '(qi, k) => 0 <= qi < nqps b /\ 0 <= k < Z.of_nat (length (send_sentData q))) qs ->
let q' := fold_left repostStep qs q in
devs_wf q' /\ sameMessage q q'
/\ (forall d, zget (r_events q') d = (fun n => n + occurrences d (missingDevs qs)) <$> zget (r_events q) d)
/\ (forall k, 0 <= k < Z.of_nat (length (send_sentData q)) ->
 zget (send_sentData q') k =
 if existsb (fun '(_, k') => (k' =? k) && negb (isDelivered k)) qs then Some false
 else zget (send_sentData q) k).
Proof.
intros Hwf Q. revert q Hwf. induction qs as [|[qi k] qs IH]; intros q Hwf Hqs; cbn zeta.
- cbn. split; [done|]. split; [apply sameMessage_refl|]. split; [|done].
intros d. unfold occurrences. cbn. destruct (zget (r_events q) d); cbn; [|done]. by rewrite Z.add_0_r.
- apply Forall_cons in Hqs as [(Hq & Hk) Hqs]. cbn [fold_left].
change (repostStep q (qi, k)) with (if isDelivered k then q else
default q (addEvent (devOf b qi) (q <| send_sentData := zupd (send_sentData q) k false |>))).
destruct (isDelivered k) eqn:Ed.
+ destruct (IH q Hwf Hqs) as (H1 & H2 & H3 & H4). split; [done|]. split; [done|]. split.
* intros d. rewrite H3. unfold missingDevs, undelivered. cbn [List.filter]. by rewrite Ed.
* intros k' Hk'. rewrite H4 by done. cbn [existsb].
destruct (Z.eqb_spec k k') as [<-|]; [by rewrite Ed|done].
+ destruct (qr_qps _ Q qi Hq) as (qp & Eqp & Hd & _). pose proof (qr_ndevs _ Q).
assert (devOf b qi = devIndex qp) as Edev by (unfold devOf; by rewrite Eqp).
set (q1 := q <| send_sentData := zupd (send_sentData q) k false |>).
destruct (addEvent_some (devOf b qi) q1 Hwf) as (q2 & E2 & Hwf2 & Hf2 & He2 & _); [lia|].
rewrite E2. cbn [default from_option id].
assert (length (send_sentData q2) = length (send_sentData q)) as Hlen
by (rewrite Hf2; cbn; apply length_zupd).
destruct (IH q2 Hwf2) as (H1 & H2 & H3 & H4); [by rewrite Hlen|].
split; [done|]. split; [|split].
* eapply sameMessage_trans; [|exact H2]. split; [|done]. rewrite Hf2. by destruct q.
* intros d. rewrite H3, He2. unfold missingDevs, undelivered. cbn [List.filter]. rewrite Ed. cbn [negb map].
unfold occurrences. cbn [map zsum]. change (r_events q1) with (r_events q).
destruct (zget (r_events q) d); cbn; [|done]. f_equal. lia.
* intros k' Hk'. rewrite H4 by (by rewrite Hlen). cbn [existsb].
assert (send_sentData q2 = zupd (send_sentData q) k false) as -> by (rewrite Hf2; done).
rewrite zget_zupd. destruct (Z.eqb_spec k k') as [<-|Hne]; cbn [andb orb].
-- rewrite Ed. cbn [negb orb]. rewrite decide_True by done. by case_match.
-- by rewrite decide_False by tauto.
Qed.

End Replay.

Section Repost.
Context `{M : Machine}.
Context (s : Net) (r : ncclIbResiliency) (slot : Z) (delivered : list bool).
Context (Q : qps_ready (base s)) (Er : resiliency (base s) = Some r)
(Ed : zget (probingResults r) slot = Some delivered)
(Hd : length delivered = Z.to_nat NCCL_IB_MAX_QPS).

Notation b := (base s).

Lemma repost_loop i id ns q0 q1 :
zget (reqs b) i = Some q1 -> r_id q0 = id -> devs_wf q0 ->
length (send_sentData q0) = Z.to_nat NCCL_IB_MAX_QPS ->
Forall (fun n => 0 <= n < nqpsPerRequest b) ns ->
iterM (fun n =>
let* q := getReq i in
let* '(qpi, qpIndex) := ncclIbCommBaseGetQpForRequest (r_id q) n in
let* res := getRes in
let* delivered := of_option (zget2 (probingResults res) slot qpIndex) in
if delivered : bool then ret tt
else
modReq i (fun q => sd ← zset (send_sentData q) qpIndex false;
Some (q <| send_sentData := sd |>)) ;;;
let* qp := readAt (fun s => qps (base s)) qpi in
ncclIbAddEvent i (devIndex qp)) ns (updReq s i q0)
= (Done tt, updReq s i (fold_left (repostStep b delivered)
 (map (fun n => (activeQp b (requestIndex b id n), requestIndex b id n)) ns) q0)).
Proof.
intros Eq Eid Hwf Hl Hns. revert q0 Eid Hwf Hl. induction Hns as [|n ns Hn Hns IH]; intros q0 Eid Hwf Hl; [done|].
cbn [iterM map fold_left]. pose proof (updReq_get s i q0 q1 Eq) as Eq0.
assert (qps_ready (base (updReq s i q0))) as Q0 by (destruct Q; by constructor).
pose proof (requestIndex_range b id n Q) as Hk. set (k := requestIndex b id n) in *.
pose proof (activeQp_spec b k Q Hk) as [_ Hq]. pose proof (qr_nqps _ Q).
destruct (zget_is_Some delivered k) as [dl Edl]; [rewrite Hd; lia|].
rewrite bind_assoc. nstep (getReq_run _ _ _ Eq0). rewrite Eid, bind_assoc.
nstep (getQpForRequest_run (updReq s i q0) id n Q0 Hn).
change (activeQp (base (updReq s i q0)) (requestIndex (base (updReq s i q0)) id n)) with (activeQp b k).
change (requestIndex (base (updReq s i q0)) id n) with k.
rewrite bind_assoc. nstep (getRes_run (updReq s i q0) r Er). rewrite bind_assoc.
rewrite (bind_some _ dl) by (unfold zget2; rewrite Ed; exact Edl).
assert (repostStep b delivered q0 (activeQp b k, k)
= if dl then q0 else default q0 (addEvent (devOf b (activeQp b k)) (q0 <| send_sentData := zupd (send_sentData q0) k false |>))) as Est.
{ unfold repostStep, isDelivered. by rewrite Edl. }
rewrite Est. destruct dl.
- nred. by apply IH.
- rewrite bind_assoc. erewrite bind_step.
2: { eapply modReq_run; [exact Eq0|]. cbn beta. rewrite zset_is_Some by (rewrite Hl; lia). reflexivity. }
cbv beta. rewrite updReq_updReq, bind_assoc. set (q2 := q0 <| send_sentData := _ |>).
destruct (qr_qps _ Q _ Hq) as (qp & Eqp & Hdev & _). pose proof (qr_ndevs _ Q).
nstep (readAt_run (fun s => qps (base s)) (activeQp b k) (updReq s i q2) qp Eqp).
assert (devOf b (activeQp b k) = devIndex qp) as -> by (unfold devOf; by rewrite Eqp).
destruct (addEvent_some (devIndex qp) q2 Hwf) as (q3 & E3 & Hwf3 & Hf3 & _); [lia|].
unfold ncclIbAddEvent at 1. rewrite E3.
erewrite bind_step; [|eapply modReq_run; [by eapply updReq_get|exact E3]]. cbv beta.
rewrite updReq_updReq. change (default q0 (Some q3)) with q3. apply IH; [rewrite Hf3; done|done|].
rewrite Hf3. cbn. by rewrite length_zupd.
Qed.

Lemma repostEvents_run i q :
zget (reqs b) i = Some q -> length (r_devBases q) = Z.to_nat NCCL_IB_MAX_DEVS_PER_NIC ->
length (send_sentData q) = Z.to_nat NCCL_IB_MAX_QPS ->
repostEvents slot i s = (Done tt, updReq s i (reposted b delivered (requestQps b (r_id q)) q)).
Proof.
intros Eq Hb Hl. unfold repostEvents.
erewrite bind_step; [|eapply modReq_run; [exact Eq|reflexivity]]. cbv beta.
set (q0 := q <| r_events := _ |>).
assert (qps_ready (base (updReq s i q0))) as Q0 by (destruct Q; by constructor).
nstep (nqpsPerRequest_run (updReq s i q0) Q0).
change (nqpsPerRequest (base (updReq s i q0))) with (nqpsPerRequest b).
rewrite (repost_loop i (r_id q) (zrange (nqpsPerRequest b)) q0 q Eq eq_refl); [done|by split|done|].
apply Forall_forall. intros n Hn%list_elem_of_In%In_zrange. done.
Qed.

End Repost.

(** ** The requests of a slot *)

Definition withReqs (s : Net) (l : list ncclIbRequest) : Net :=
  s <| base := (base s) <| reqs := l |> |>.

(** A request table in which the requests [xs] are replaced through [f]. *)
Definition updItems (f : ncclIbRequest -> ncclIbRequest) (xs : list SendItem) (l : list ncclIbRequest)
  : list ncclIbRequest :=
  fold_left (fun l x => zupd l (it_idx x) (f (it_req x))) xs l.

Lemma updItems_other f xs l j : j ∉ map it_idx xs -> zget (updItems f xs l) j = zget l j.
Proof.
  revert l. induction xs as [|x xs IH]; intros l Hj; [done|]. cbn in Hj.
  apply not_elem_of_cons in Hj as [Hne Hj].
  change (updItems f (x :: xs) l) with (updItems f xs (zupd l (it_idx x) (f (it_req x)))).
  rewrite IH by done. by apply zget_zupd_ne.
Qed.

Lemma updItems_get f xs l n x :
  NoDup (map it_idx xs) -> xs !! n = Some x -> 0 <= it_idx x < Z.of_nat (length l) ->
  zget (updItems f xs l) (it_idx x) = Some (f (it_req x)).
Proof.
  revert l n. induction xs as [|y xs IH]; intros l n Hnd E Hi; [done|]. cbn in Hnd.
  change (updItems f (y :: xs) l) with (updItems f xs (zupd l (it_idx y) (f (it_req y)))).
  apply NoDup_cons in Hnd as [Hy Hnd]. destruct n as [|n].
  - injection E as ->. rewrite updItems_other by done. by apply zget_zupd_eq.
  - by eapply IH; [|done|rewrite length_zupd].
Qed.

(** A loop over the row of a slot that updates one request after the other. *)
Lemma items_loop (m : Z -> net unit) (f : ncclIbRequest -> ncclIbRequest) row xs a s l :
  (forall l' i q, zget l' i = Some q -> In q (map it_req xs) ->
     m i (withReqs s l') = (Done tt, withReqs s (zupd l' i (f q)))) ->
  NoDup (map it_idx xs) ->
  (forall n x, xs !! n = Some x -> zget row (a + Z.of_nat n) = Some (Some (it_idx x))
                                   /\ zget l (it_idx x) = Some (it_req x)) ->
  iterM (fun r => let* p := of_option (zget row r) in let* i := deref p in m i)
    (upto (length xs) a) (withReqs s l) = (Done tt, withReqs s (updItems f xs l)).
Proof.
  revert a l. induction xs as [|x xs IH]; intros a l Hm Hnd Hxs; [done|].
  cbn [length upto iterM]. apply NoDup_cons in Hnd as [Hx Hnd].
  destruct (Hxs O x eq_refl) as [Er Eq]. rewrite Z.add_0_r in Er.
  rewrite bind_assoc, (bind_some _ _ _ _ Er), bind_assoc. unfold deref.
  rewrite (bind_some _ _ _ _ eq_refl). nstep (Hm l _ _ Eq (or_introl eq_refl)).
  rewrite IH; [done| |done|].
  - intros l' i q E Hin. apply Hm; [done|by right].
  - intros n y E. destruct (Hxs (Datatypes.S n) y E) as [Er' Eq'].
    replace (a + 1 + Z.of_nat n) with (a + Z.of_nat (Datatypes.S n)) by lia. split; [done|].
    rewrite zget_zupd_ne; [done|]. intros Eidx. apply Hx. rewrite Eidx.
    apply list_elem_of_In, in_map, list_elem_of_In. by eapply list_elem_of_lookup_2.
Qed.

(** ** The theorem *)

(** A slot whose data was posted on all its queue pairs and whose probe has answered. *)
Record replay_ready (s : Net) (r : ncclIbResiliency) (slot : Z) (delivered : list bool)
    (c : ncclIbSendComm) (slots : list ncclIbSendFifo) (row : list (option Z))
    (x0 : SendItem) (rest : list SendItem) : Prop := {
  rp_slot : slot_ready s slot c slots row x0 rest;
  rp_res : resiliency (base s) = Some r;
  rp_delivered : zget (probingResults r) slot = Some delivered;
  rp_length : length delivered = Z.to_nat NCCL_IB_MAX_QPS;
  rp_id : r_id (it_req x0) mod NET_IB_MAX_REQUESTS = slot;
  rp_items : forall x, In x (x0 :: rest) ->
    r_type (it_req x) = REQ_SEND /\ r_id (it_req x) = r_id (it_req x0)
    /\ length (r_devBases (it_req x)) = Z.to_nat NCCL_IB_MAX_DEVS_PER_NIC;
  rp_nreqs : r_nreqs (it_req x0) = Z.of_nat (length (x0 :: rest));
  rp_distinct : NoDup (map it_idx (x0 :: rest));
  rp_sent : forall k, 0 <= k < NCCL_IB_MAX_QPS ->
    zget (send_sentData (it_req x0)) k
    = Some (bool_decide (k ∈ map snd (requestQps (base s) (r_id (it_req x0)))));
}.

Lemma missingData_spec sent delivered :
  length sent = length delivered ->
  missingData sent delivered = true <->
  exists k, zget sent k = Some true /\ zget delivered k = Some false.
Proof.
  intros Hl. assert (missingData sent delivered = true <->
    exists n, sent !! n = Some true /\ delivered !! n = Some false) as ->.
  { revert delivered Hl. induction sent as [|b sent IH]; intros [|d delivered] Hl; try done.
    - split; [done|]. by intros (n & E & _).
    - cbn [missingData]. rewrite orb_true_iff, andb_true_iff, negb_true_iff, IH by (cbn in Hl; lia). split.
      + intros [[-> ->]|(n & E1 & E2)]; [by exists O|by exists (Datatypes.S n)].
      + intros ([|n] & E1 & E2); [left|right; by exists n]. by injection E1; injection E2. }
  split.
  - intros (n & E1 & E2). exists (Z.of_nat n). by rewrite !zget_lookup.
  - intros (k & E1 & E2). exists (Z.to_nat k). unfold zget in *. by case_decide.
Qed.

Section ReplayTheorem.
Context `{M : Machine}.
Context (s : Net) (r : ncclIbResiliency) (slot : Z) (delivered : list bool) (c : ncclIbSendComm)
(slots : list ncclIbSendFifo) (row : list (option Z)) (x0 : SendItem) (rest : list SendItem).
Context (H : replay_ready s r slot delivered c slots row x0 rest).
Notation b := (base s).
Notation items := (x0 :: rest).
Notation qs := (requestQps b (r_id (it_req x0))).

Lemma item_index x : In x items ->
0 <= it_idx x < Z.of_nat (length (reqs b)) /\ zget (reqs b) (it_idx x) = Some (it_req x)
/\ length (send_sentData (it_req x)) = Z.to_nat NCCL_IB_MAX_QPS.
Proof.
intros (n & E)%list_elem_of_In%list_elem_of_lookup_1.
destruct (ml_items _ _ _ _ _ _ _ (rp_slot _ _ _ _ _ _ _ _ _ H) n x E) as (_ & Er & _ & _ & _ & _ & El & _).
split; [by eapply zget_Some|done].
Qed.

(** The loop of both branches of [ncclIbResiliencyHandleProbeCompleted]. *)
Lemma replay_loop (m : Z -> net unit) (f : ncclIbRequest -> ncclIbRequest) :
(forall l' i q, zget l' i = Some q -> In q (map it_req items) ->
 m i (withReqs s l') = (Done tt, withReqs s (zupd l' i (f q)))) ->
iterM (fun r => let* p := of_option (zget row r) in let* i := deref p in m i)
(zrange (r_nreqs (it_req x0))) s
= (Done tt, withReqs s (updItems f items (reqs b))).
Proof.
intros Hm. rewrite (rp_nreqs _ _ _ _ _ _ _ _ _ H). unfold zrange. rewrite Nat2Z.id.
assert (s = withReqs s (reqs b)) as Es by (by destruct s as [[]]). rewrite Es at 1.
apply items_loop; [done|apply H|].
intros n x E. destruct (ml_items _ _ _ _ _ _ _ (rp_slot _ _ _ _ _ _ _ _ _ H) n x E) as (? & ? & _).
by rewrite Z.add_0_l.
Qed.

Lemma repost_row :
iterM (fun r => let* p := of_option (zget row r) in let* i := deref p in repostEvents slot i)
(zrange (r_nreqs (it_req x0))) s
= (Done tt, withReqs s (updItems (reposted b delivered qs) items (reqs b))).
Proof.
apply replay_loop. intros l' i q E (x & <- & Hx)%in_map_iff.
destruct (rp_items _ _ _ _ _ _ _ _ _ H x Hx) as (_ & Eid & Hb).
destruct (item_index x Hx) as (_ & _ & Hsd). pose proof (rp_slot _ _ _ _ _ _ _ _ _ H) as S.
assert (qps_ready (base (withReqs s l'))) as Q by (destruct (ml_qps _ _ _ _ _ _ _ S); by constructor).
rewrite (repostEvents_run (withReqs s l') r slot delivered Q (rp_res _ _ _ _ _ _ _ _ _ H)
(rp_delivered _ _ _ _ _ _ _ _ _ H) (rp_length _ _ _ _ _ _ _ _ _ H) i (it_req x) E Hb Hsd).
by rewrite Eid.
Qed.

(** What the replayed requests look like. *)
Lemma reposted_spec x : In x items ->
let q' := reposted b delivered qs (it_req x) in
sameMessage (it_req x) q'
/\ (forall d, 0 <= d < NCCL_IB_MAX_DEVS_PER_NIC ->
zget (r_events q') d = Some (occurrences d (missingDevs b delivered qs)))
/\ (forall k, 0 <= k < NCCL_IB_MAX_QPS ->
 zget (send_sentData q') k =
 if existsb (fun '(_, k') => (k' =? k) && negb (isDelivered delivered k)) qs then Some false
 else zget (send_sentData (it_req x)) k).
Proof.
intros Hx q'. destruct (rp_items _ _ _ _ _ _ _ _ _ H x Hx) as (_ & _ & Hb).
destruct (item_index x Hx) as (_ & _ & Hsd). pose proof (rp_slot _ _ _ _ _ _ _ _ _ H) as S.
pose proof (ml_qps _ _ _ _ _ _ _ S) as Q. pose proof (qr_nqps _ Q).
destruct (fold_repost b delivered qs ((it_req x) <| r_events := zeros NCCL_IB_MAX_DEVS_PER_NIC |>))
as (_ & Hm & He & Hs); [by split|done| |].
- apply Forall_forall. intros [q k] Hin%list_elem_of_In. cbn. rewrite Hsd.
destruct (requestQps_range _ _ _ _ Q Hin). lia.
- split; [|split].
+ eapply sameMessage_trans; [|exact Hm]. by split; [destruct (it_req x)|].
+ intros d Hd. unfold q', reposted. rewrite He. by zcases d.
+ intros k Hk. unfold q', reposted. rewrite Hs; [done|]. cbn. rewrite Hsd. lia.
Qed.

Definition replayItem (x : SendItem) : SendItem :=
(it_idx x, reposted b delivered qs (it_req x), it_cts x).

Notation s1 := (withReqs s (updItems (reposted b delivered qs) items (reqs b))).

Lemma replayed_slot_ready : slot_ready s1 slot c slots row (replayItem x0) (map replayItem rest).
Proof.
pose proof (rp_slot _ _ _ _ _ _ _ _ _ H) as S. pose proof S as [? ? ? Hn Hf Hit Hq ? ? Hid Hlb [? ? ?]].
destruct (reposted_spec x0 (or_introl eq_refl)) as [Hm0 _].
destruct (sameMessage_fields _ _ Hm0) as (_ & Eid & _ & _ & _ & _ & Ew).
assert (forall x, In x items -> it_cts (replayItem x) = it_cts x) as Hcts by done.
constructor; try done.
- by rewrite <- map_cons, length_map.
- by rewrite <- map_cons, length_map.
- intros n x E. rewrite <- map_cons in E. rewrite list_lookup_fmap in E.
destruct (items !! n) as [y|] eqn:Ey; [|done]. injection E as <-.
assert (In y items) as Hy by (by eapply list_elem_of_In, list_elem_of_lookup_2).
destruct (Hit n y Ey) as (Er & Eq & Ec & Hsz & Hda & Had & Hsd & Hlk & Hrk).
destruct (reposted_spec y Hy) as [Hm _]. destruct (item_index y Hy) as [Hi _].
destruct (sameMessage_fields _ _ Hm) as (_ & _ & _ & Es & Ed & El & _).
destruct Hm as [_ Hlen]. cbn [replayItem it_idx it_req it_cts fst snd].
split; [done|]. split; [eapply updItems_get; [apply H|done|done]|]. by rewrite Es, Ed, El, Hlen.
- by destruct Hq; constructor.
- cbn [replayItem it_req fst snd]. by rewrite Eid.
- cbn [replayItem it_req fst snd]. by rewrite Ew.
- cbn [replayItem it_req fst snd]. rewrite Ew, Eid. by constructor.
Qed.

(** The queue pairs left out of the replay are the delivered ones. *)
Lemma replay_skips q k : In (q, k) qs -> skipped s1 (it_idx x0) k = isDelivered delivered k.
Proof.
intros Hin. pose proof (ml_qps _ _ _ _ _ _ _ (rp_slot _ _ _ _ _ _ _ _ _ H)) as Q.
destruct (requestQps_range _ _ _ _ Q Hin) as [_ Hk]. pose proof (qr_nqps _ Q).
destruct (item_index x0 (or_introl eq_refl)) as (Hi & _).
destruct (reposted_spec x0 (or_introl eq_refl)) as (_ & _ & Hs).
unfold skipped, sentAt. change (reqs (base s1)) with (updItems (reposted b delivered qs) items (reqs b)).
rewrite (updItems_get _ _ (reqs b) O x0 (rp_distinct _ _ _ _ _ _ _ _ _ H) eq_refl Hi).
change (resiliency (base s1)) with (resiliency b). rewrite (rp_res _ _ _ _ _ _ _ _ _ H).
cbn [mbind option_bind]. rewrite Hs by lia. rewrite (rp_sent _ _ _ _ _ _ _ _ _ H) by lia.
rewrite bool_decide_eq_true_2 by (apply list_elem_of_In; by apply (in_map snd) in Hin).
destruct (isDelivered delivered k) eqn:Ed.
- destruct (existsb _ qs) eqn:Ex; [|done]. apply existsb_exists in Ex as ([q' k'] & _ & Hx).
by rewrite andb_false_r in Hx.
- replace (existsb _ qs) with true; [done|]. symmetry. apply existsb_exists. exists (q, k).
split; [done|]. by rewrite Z.eqb_refl.
Qed.

(** Nothing is missing. *)
Lemma none_missing q k :
missingData (send_sentData (it_req x0)) delivered = false -> In (q, k) qs -> isDelivered delivered k = true.
Proof.
intros Hm Hin. destruct (isDelivered delivered k) eqn:Ed; [done|]. exfalso.
apply not_true_iff_false in Hm. apply Hm. destruct (item_index x0 (or_introl eq_refl)) as (_ & _ & Hl).
apply missingData_spec; [by rewrite Hl, (rp_length _ _ _ _ _ _ _ _ _ H)|]. exists k.
pose proof (ml_qps _ _ _ _ _ _ _ (rp_slot _ _ _ _ _ _ _ _ _ H)) as Q. pose proof (qr_nqps _ Q).
destruct (requestQps_range _ _ _ _ Q Hin) as [_ Hk]. rewrite (rp_sent _ _ _ _ _ _ _ _ _ H) by lia.
rewrite bool_decide_eq_true_2 by (apply list_elem_of_In; by apply (in_map snd) in Hin). split; [done|].
unfold isDelivered in Ed. destruct (zget_is_Some delivered k) as [d E]; [rewrite (rp_length _ _ _ _ _ _ _ _ _ H); lia|].
rewrite E in *. by cbn in Ed; subst d.
Qed.

(** The posts of a replay. *)
Definition replayPosts (p : list (Z * Z * list SendWr)) : list Event :=
map (fun '(q, _, ch) => Posted (DataQp q) ch)
(List.filter (fun '(_, k, _) => negb (isDelivered delivered k)) p).

Definition waits_for_missing (s' : Net) : Prop :=
forall x, In x items -> exists q', zget (reqs (base s')) (it_idx x) = Some q'
/\ forall d, 0 <= d < NCCL_IB_MAX_DEVS_PER_NIC ->
 zget (r_events q') d = Some (occurrences d (missingDevs b delivered qs)).

Definition acceptsSends : Prop := forall h q wrs, mrc_post_send env h q wrs = true.

(** The branch in which data is missing. *)
Lemma repost_run : acceptsSends ->
exists s' p, ncclIbResiliencyRepostRequest (it_idx x0) s = (Done tt, s') /\ map fst p = qs
/\ (forall j x, items !! j = Some x -> delivers b x 0 (column j p))
/\ history s' = history s ++ replayPosts p /\ waits_for_missing s'.
Proof.
intros Hacc. pose proof (rp_slot _ _ _ _ _ _ _ _ _ H) as S.
destruct (item_index x0 (or_introl eq_refl)) as (_ & E0 & _).
destruct (rp_items _ _ _ _ _ _ _ _ _ H x0 (or_introl eq_refl)) as (Et & _ & _).
destruct (reposted_spec x0 (or_introl eq_refl)) as [Hm0 _].
destruct (sameMessage_fields _ _ Hm0) as (_ & Eid & _).
destruct (multiSend_tiles s1 slot c slots row _ _ replayed_slot_ready Hacc)
as (s' & p & E & Hsent & Hp & _ & Hd & Hh).
change (requestQps (base s1)) with (requestQps b) in Hp. cbn [replayItem it_req fst snd] in Hp. rewrite Eid in Hp.
exists s', p. split; [|split; [exact Hp|split; [|split]]].
- unfold ncclIbResiliencyRepostRequest. nstep (getReq_run _ _ _ E0). rewrite Et.
rewrite (rp_id _ _ _ _ _ _ _ _ _ H). nstep (getSend_run _ _ (ml_tail _ _ _ _ _ _ _ S)).
rewrite (bind_some _ _ _ _ (ml_row _ _ _ _ _ _ _ S)). nstep repost_row. exact E.
- intros j x Ex. assert (In x items) as Hx by (by eapply list_elem_of_In, list_elem_of_lookup_2).
destruct (reposted_spec x Hx) as [Hm _].
destruct (sameMessage_fields _ _ Hm) as (_ & _ & _ & Es & Ed & El & _).
eapply (delivers_fields (base s1) b (replayItem x)); try done. apply Hd.
by rewrite <- map_cons, list_lookup_fmap, Ex.
- rewrite Hh. change (history s1) with (history s). f_equal. unfold postedPlan, replayPosts. f_equal.
apply filter_ext_in. intros [[q k] ch] Hin. f_equal. apply (replay_skips q). rewrite <- Hp.
by apply (in_map fst) in Hin.
- intros x Hx. destruct (item_index x Hx) as (Hi & _). apply list_elem_of_In, list_elem_of_lookup_1 in Hx as [n En].
assert (zget (reqs (base s1)) (it_idx x) = Some (reposted b delivered qs (it_req x))) as Eq
by (eapply updItems_get; [apply H|done|done]).
destruct (sentOnly_req _ _ _ _ Hsent Eq) as (q' & Eq' & [Hq' _]). exists q'. split; [done|].
destruct (reposted_spec x) as (_ & He & _); [by eapply list_elem_of_In, list_elem_of_lookup_2|].
rewrite Hq'. exact He.
Qed.

(** The branch in which everything was delivered. *)
Lemma no_replay_run :
missingData (send_sentData (it_req x0)) delivered = false ->
let s' := withReqs s (updItems (fun q => q <| r_events := zeros NCCL_IB_MAX_DEVS_PER_NIC |>) items (reqs b)) in
iterM (fun r => let* p := of_option (zget row r) in let* j := deref p in
modReq j (fun q => Some (q <| r_events := zeros NCCL_IB_MAX_DEVS_PER_NIC |>)))
(zrange (r_nreqs (it_req x0))) s = (Done tt, s')
/\ waits_for_missing s'.
Proof.
intros Hm s'. split.
- apply replay_loop. intros l' i q E _. by apply (modReq_run i _ (withReqs s l') q _ E).
- intros x Hx. destruct (item_index x Hx) as (Hi & _). apply list_elem_of_In, list_elem_of_lookup_1 in Hx as [n En].
eexists. split; [eapply updItems_get; [apply H|done|done]|]. intros d Hd.
assert (missingDevs b delivered qs = []) as ->; [|by zcases d].
unfold missingDevs, undelivered. erewrite filter_ext_in; [by rewrite filter_false|].
intros [q k] Hin. by rewrite (none_missing q k Hm Hin).
Qed.

End ReplayTheorem.

(** C15. When the probe of a failed send has answered, exactly what it did not find
    delivered is sent again: of the work-request lists that tile the messages of the
    slot, one per queue pair, those of the queue pairs whose data is missing are
    posted again, in order and unchanged (none when nothing is missing), and every
    request of the slot waits for exactly their completions. *)
Theorem replay_sends_missing `{M : Machine} s r slot delivered c slots row x0 rest i fr :
  replay_ready s r slot delivered c slots row x0 rest ->
  zget (failedRequests r) i = Some fr -> fr_request fr = Some (it_idx x0) -> acceptsSends ->
  exists s' p, ncclIbResiliencyHandleProbeCompleted i s = (Done tt, s')
    /\ map fst p = requestQps (base s) (r_id (it_req x0))
    /\ (forall j x, (x0 :: rest) !! j = Some x -> delivers (base s) x 0 (column j p))
    /\ history s' = history s ++ replayPosts delivered p
    /\ waits_for_missing s delivered x0 rest s'.
Proof.
  intros H Ef Efr Hacc. pose proof (rp_slot _ _ _ _ _ _ _ _ _ H) as S.
  destruct (item_index _ _ _ _ _ _ _ _ _ H x0 (or_introl eq_refl)) as (_ & E0 & _).
  unfold ncclIbResiliencyHandleProbeCompleted.
  nstep (getFailed_run _ _ _ _ (rp_res _ _ _ _ _ _ _ _ _ H) Ef). rewrite Efr.
  unfold deref at 1.
  rewrite (bind_some _ _ _ _ eq_refl). nstep (getReq_run _ _ _ E0).
  nstep (getRes_run _ _ (rp_res _ _ _ _ _ _ _ _ _ H)). rewrite (rp_id _ _ _ _ _ _ _ _ _ H).
  rewrite (bind_some _ _ _ _ (rp_delivered _ _ _ _ _ _ _ _ _ H)).
  destruct (missingData (send_sentData (it_req x0)) delivered) eqn:Em; cbn [negb].
  - by apply (repost_run s r slot delivered c slots row).
  - destruct (multiSend_tiles s slot c slots row x0 rest S Hacc) as (_ & p & _ & _ & Hp & _ & Hd & _).
    destruct (no_replay_run _ _ _ _ _ _ _ _ _ H Em) as [E Hw].
    nstep (getSend_run _ _ (ml_tail _ _ _ _ _ _ _ S)). rewrite (bind_some _ _ _ _ (ml_row _ _ _ _ _ _ _ S)).
    eexists _, p. split; [exact E|]. split; [done|]. split; [done|]. split; [|exact Hw].
    change (history s = history s ++ replayPosts delivered p).
    unfold replayPosts. erewrite filter_ext_in; [by rewrite filter_false, app_nil_r|].
    intros [[q k] ch] Hin. rewrite (none_missing _ _ _ _ _ _ _ _ _ H q k Em); [done|].
    rewrite <- Hp. by apply (in_map fst) in Hin.
Qed.

(** ** An instance: queue pair 2 of the message was delivered, 3 was not *)

Import NetDemo.Demo.

Definition demoSent : list bool := fill 128 [false; false; true; true] false.
Definition demoDelivered : list bool := fill 128 [false; false; true] false.

Definition demoRes : ncclIbResiliency :=
  res <| probingResults := zupd (probingResults res) 5 demoDelivered |>
      <| failedRequests := zupd (failedRequests res) 5
           (mkResReq ncclIbResiliencyRequestStateProbeCompleted (Some 0) 0 0 0 6) |>.

Definition demoItem (i size data addr tag : Z) : SendItem :=
  (i, (sendReq size data) <| send_sentData := demoSent |>, cts 2 addr tag).

Definition failedSender : Net :=
  (sender (Some demoRes)) <| base := (base (sender (Some demoRes)))
    <| reqs := fill 256 [it_req (demoItem 0 1000 0x5000 0 0); it_req (demoItem 1 0 0x6000 0 0)] unused |> |>.

Lemma demo_replay_ready :
  replay_ready failedSender demoRes 5 demoDelivered sendComm slots row
    (demoItem 0 1000 0x5000 0x9000 1) [demoItem 1 0 0x6000 0xa000 2].
Proof.
  assert (forall k, 0 <= k < 128 -> zget demoSent k
    = Some (bool_decide (k ∈ map snd (requestQps (base failedSender) 5)))) as Hsent.
  { intros k Hk. change (map snd (requestQps (base failedSender) 5)) with [2; 3]. by zcases k. }
  constructor; try done.
  - destruct (demo_slot_ready (Some demoRes)) as [? ? ? ? ? _ Q ? ? ? ? W]. constructor; try done.
    + intros [|[|n]] x E; try done; injection E as <-; repeat (split; [done|]); done.
    + by destruct Q; constructor.
    + by destruct W; constructor.
  - intros x [<-|[<-|[]]]; done.
  - by apply (bool_decide_unpack _); vm_compute.
Qed.

Lemma replay_sends_missing_witness :
  exists s' p, @ncclIbResiliencyHandleProbeCompleted machine 5 failedSender = (Done tt, s')
    /\ map fst p = [(2, 2); (3, 3)] /\ history s' = replayPosts demoDelivered p.
Proof.
  destruct (@replay_sends_missing machine failedSender demoRes 5 demoDelivered sendComm slots row _ _ 5 _
    demo_replay_ready eq_refl eq_refl (fun _ _ _ => eq_refl)) as (s' & p & E & Ep & _ & Eh & _).
  exists s', p. split; [exact E|]. split; [exact Ep|exact Eh].
Defined.
