(* ===== verification/NetTest.v ===== *)
(** * Transport: completions

    From the poll to the user: retrieving the request of a completion,
    processing it, completing requests and [ncclIbTest]
    ([net/transport/net_ib/p2p.cc]).  The latency monitor only observes; it is in
    [LatMon]. *)

From S2P Require Import Prelude NetTypes NetBase NetSend NetRecv Resiliency.

Open Scope Z_scope.
Open Scope nccl_scope.

Section Test.
Context `{M : Machine}.

(** The request of a successful completion, possibly NULL. *)
Definition ncclIbRequestRetrieveFromCompletion (wc : Wc) : net (option Z) :=
if negb (bool_decide (wc_status wc = IBV_WC_SUCCESS)) then fail ncclInternalError
else
let* b := gets base in
if negb (isSend b) && bool_decide (wc_opcode wc = IBV_WC_RECV_RDMA_WITH_IMM)
 && bool_decide (recvMatchingScheme b = BY_ID) then
let* c := getRecv in
of_option (zget (recvReqs c) (wc_imm wc mod NET_IB_MAX_REQUESTS))
else if negb (isSend b) && bool_decide (wc_opcode wc = IBV_WC_RDMA_READ) then
let* i := ncclIbRequestRetrieveAsIndex (u64 (wc_wr_id wc - NCCL_IB_FLUSH_REQ_WR_ID_OFFSET)) in
ret (Some i)
else if negb (isSend b) then
let* c := getRecv in of_option (zget (recvReqs c) (wc_wr_id wc))
else
let* c := getSend in of_option (zget2 (sendReqs c) (Z.land (wc_wr_id wc) 0xff) 0).

Definition allZero (es : list Z) : bool := forallb (fun e => e =? 0) es.

Definition ncclIbRequestIsComplete (reqIdx : Z) : net bool :=
let* req := getReq reqIdx in
let complete := allZero (r_events req) in
let* res := hasResiliency in
if negb complete && res then ncclIbResiliencyRequestIsComplete reqIdx else ret complete.

(** The sizes reported for a receive. *)
Definition recvSizes (req : ncclIbRequest) (rec : ncclIbRequestCompletionRecord) : option (list Z) :=
s0 ← zget (cr_sizes rec) 0;
if (1 <? r_nreqs req) || (0 <? s0)
then mapM_opt (fun i => zget (cr_sizes rec) i) (zrange (r_nreqs req))
else mapM_opt (fun i => if i =? 0 then Some (recv_aggSize req) else None) (zrange (r_nreqs req)).

(** Completes a request; [wantSizes] tells whether the caller passed [sizes],
the result is what is stored there. *)
Definition ncclIbRequestComplete (reqIdx : Z) (wantSizes : bool) : net (list Z) :=
let* req := getReq reqIdx in
let* sizes :=
match r_type req with
| REQ_RECV =>
if wantSizes then
let* slot := deref (recv_cmplsRecords req) in
let* c := getRecv in
let* rec := of_option (zget (cmplsRecords c) slot) in
of_option (recvSizes req rec)
else ret []
| REQ_SEND =>
let slot := r_id req mod NET_IB_MAX_REQUESTS in
let* c := getSend in
let* cnt := of_option (zget (sendReqsCnt c) slot) in
modSend (fun c => l ← zset (sendReqsCnt c) slot (cnt - 1);
Some (c <| sendReqsCnt := l |>)) ;;;
when (cnt - 1 =? 0)
(modSend (fun c =>
 l ← zset (sendReqs c) slot (replicate (Z.to_nat NCCL_NET_IB_MAX_RECVS) None);
 Some (c <| sendReqs := l |>)) ;;;
 when (ncclParamIbEventBasedLb prm) ncclIbCheckSpeedChanges) ;;;
ret (if wantSizes then [send_size req] else [])
| _ => ret []
end in
ncclIbFreeRequest reqIdx ;;;
ret sizes.

(** ** Speed updates *)

Definition IBV_SPEED_UPDATE_SIZE : Z := 32.

Definition ncclIbPostSpeedUpdateToRemote : net unit :=
let* c := getRecv in
let* s := getS in
let b := base s in
let counter := ncclIbSpeedChangeCounter s in
if (counter =? speedChangeCounter b) || (remSpeedBufAddr c =? 0) || postedSpeedUpdate c then ret tt
else
let* speeds := of_option (mapM_opt (fun i =>
n ← zget (vdevs b) i; d ← zget (ncclIbDevs s) n; Some (u16 (currSpeed d / 1000)))
(zrange (ndevs b))) in
modBase (fun b => b <| speedChangeCounter := counter |>) ;;;
let nd := Z.to_nat (ndevs b) in
if bool_decide (speeds = take nd (lastSentSpeeds c)) then ret tt
else
let* qp := of_option (zget (qps b) 0) in
let* cd := readAt devs (devIndex qp) in
let* rem := of_option (zget (remDevs b) (remDevIdx qp)) in
let newCounter := u64 (lastSentCounter c + 1) in
modRecv (fun c => Some (c <| speedUpdateBuf_counter := newCounter |>
<| speedUpdateBuf_speedGbps := speeds ++ drop nd (speedUpdateBuf_speedGbps c) |>
<| postedSpeedUpdate := true |>)) ;;;
wrap_post_send (DataQp 0)
[{| wr_id := NCCL_IB_SPEED_UPDATE_WR_ID; wr_opcode := IBV_WR_RDMA_WRITE;
wr_signaled := true; wr_inline := false;
wr_sg := Some (mkSge (speedUpdateBuf_addr c) IBV_SPEED_UPDATE_SIZE (cd_speedUpdateLkey cd));
wr_num_sge := 1; wr_remote_addr := remSpeedBufAddr c; wr_rkey := remSpeedBufRkey rem;
wr_imm := 0 |}] ;;;
modRecv (fun c => Some (c <| lastSentSpeeds := speeds ++ drop nd (lastSentSpeeds c) |>
<| lastSentCounter := newCounter |>)).

Definition clearPostedSpeedUpdate : net unit :=
modRecv (fun c => Some (c <| postedSpeedUpdate := false |>)).

(** ** One completion *)

Definition decEvent (dev : Z) (q : ncclIbRequest) : option ncclIbRequest :=
e ← zget (r_events q) dev; es ← zset (r_events q) dev (e - 1); Some (q <| r_events := es |>).

Definition processSend (reqIdx dev : Z) : net unit :=
let* req := getReq reqIdx in
if negb (bool_decide (r_type req = REQ_SEND)) then fail ncclInternalError
else
let slot := r_id req mod NET_IB_MAX_REQUESTS in
let* c := getSend in
let* row := of_option (zget (sendReqs c) slot) in
let* res := hasResiliency in
iterM (fun j =>
let* p := of_option (zget row j) in
let* i := deref p in
let* q := getReq i in
let* e := of_option (zget (r_events q) dev) in
if negb res && (e <=? 0) then fail ncclInternalError else modReq i (decEvent dev))
(zrange (r_nreqs req)).

Definition processRecvImm (wc : Wc) (reqIdx dev : Z) : net unit :=
let* req := getReq reqIdx in
let* res := hasResiliency in
let* b := gets base in
let* c := getRecv in
if bool_decide (r_type req = REQ_UNUSED) && res then ret tt
else if negb (bool_decide (r_type req = REQ_RECV)) && negb res then fail ncclInternalError
else
(if r_nreqs req =? 1 then
 let* slot := deref (recv_cmplsRecords req) in
 let* rec := of_option (zget (cmplsRecords c) slot) in
 let* s0 := of_option (zget (cr_sizes rec) 0) in
 if bool_decide (recvMatchingScheme b = BY_INDEX) then
 modRecv (fun c =>
 ss ← zset (cr_sizes rec) 0 (i32 (wc_imm wc));
 l ← zset (cmplsRecords c) slot (mkCmplRecord ss (cr_completions rec));
 Some (c <| cmplsRecords := l |>))
 else if s0 =? 0 then
 modReq reqIdx (fun q => Some (q <| recv_aggSize := i32 (recv_aggSize q + wc_byte_len wc) |>))
 else ret tt
 else ret tt) ;;;
(if prepostReceiveWorkRequests c then
 let* qpIndex := ncclIbCommBaseGetQpByQpNum dev (wc_qp_num wc) in
 let* slot := deref (recv_cmplsRecords req) in
 modRecv (fun c =>
 rec ← zget (cmplsRecords c) slot;
 cs ← zset (cr_completions rec) qpIndex true;
 l ← zset (cmplsRecords c) slot (mkCmplRecord (cr_sizes rec) cs);
 Some (c <| cmplsRecords := l |>)) ;;;
 wrap_post_recv (DataQp qpIndex) (ibRecvWorkRequest_wr_id c)
 else ret tt) ;;;
modReq reqIdx (decEvent dev).

Definition ncclIbCompletionEventProcess (wc : Wc) (dev : Z) : net unit :=
if wc_wr_id wc =? NCCL_IB_SPEED_UPDATE_WR_ID then clearPostedSpeedUpdate
else
let* p := ncclIbRequestRetrieveFromCompletion wc in
match p with
| None => fail ncclInternalError
| Some reqIdx =>
let* b := gets base in
if isSend b then processSend reqIdx dev
else
match wc_opcode wc with
| IBV_WC_RECV_RDMA_WITH_IMM => processRecvImm wc reqIdx dev
| IBV_WC_RDMA_READ => modReq reqIdx (decEvent dev)
| IBV_WC_RDMA_WRITE =>
let* req := getReq reqIdx in
if bool_decide (r_type req = REQ_UNUSED) then ret tt
else when (ncclParamIbEventBasedLb prm && ncclParamIbEventBasedLbRemote prm)
 ncclIbPostSpeedUpdateToRemote
| _ => fail ncclInternalError
end
end.

(** ** [ncclIbTest] *)

(** One polled completion. *)
Definition testCompletion (dev : Z) (wc : Wc) : net unit :=
if negb (bool_decide (wc_status wc = IBV_WC_SUCCESS)) then
if wc_wr_id wc =? NCCL_IB_SPEED_UPDATE_WR_ID then clearPostedSpeedUpdate
else
let* res := hasResiliency in
if res then ncclIbResiliencyHandleCompletionError wc dev else fail ncclRemoteError
else ncclIbCompletionEventProcess wc dev.

(** Poll one device; the number of completions taken. *)
Definition pollDev (reqIdx dev : Z) : net Z :=
let* req := getReq reqIdx in
let* res := hasResiliency in
let* used := of_option (zget (r_devBases req) dev) in
let* e := of_option (zget (r_events req) dev) in
if negb used || ((e =? 0) && negb res) then ret 0
else
let cq := if bool_decide (r_type req = REQ_FLUSH) then FlushCq dev else DataCq dev in
let* wcs := wrap_poll_cq cq 4 in
iterM (testCompletion dev) wcs ;;;
if (Z.of_nat (length wcs)) =? 0 then ret 0
else
let* cd := readAt devs dev in
let* d := readAt ncclIbDevs (cd_ibDevN cd) in
ncclIbStatsCheckFatalCount (dev_fatalErrorCount d) ;;;
ret (Z.of_nat (length wcs)).

Fixpoint pollDevs (reqIdx : Z) (ds : list Z) (total : Z) : net Z :=
match ds with
| [] => ret total
| d :: ds' => let* n := pollDev reqIdx d in pollDevs reqIdx ds' (total + n)
end.

Inductive testResult : Type :=
| NotDone
| IsDone (sizes : list Z)
| OutOfFuel.

(** The [do ... while (totalWrDone > 0)] loop, at most [fuel] turns. *)
Fixpoint testLoop (fuel : nat) (reqIdx : Z) (wantSizes : bool) : net testResult :=
match fuel with
| O => ret OutOfFuel
| Datatypes.S f =>
let* b := gets base in
ncclIbStatsCheckFatalCount (fatalErrorCount b) ;;;
let* complete := ncclIbRequestIsComplete reqIdx in
if complete : bool then
let* sizes := ncclIbRequestComplete reqIdx wantSizes in ret (IsDone sizes)
else
let* total := pollDevs reqIdx (zrange (ndevs b)) 0 in
if 0 <? total then testLoop f reqIdx wantSizes else ret NotDone
end.

Definition ncclIbTest (fuel : nat) (reqIdx : Z) (wantSizes : bool) : net testResult :=
let* b := gets base in
match resiliency b with
| Some r => when (inProgress r) ncclIbResiliencyProgress
| None => ret tt
end ;;;
testLoop fuel reqIdx wantSizes.

End Test.
