(* ===== verification/TestSpec.v ===== *)
(** * Transport: properties of the completion path

    From the completions a device reports to the answer of [ncclIbTest] for a send:
    what one completion does to the requests of its slot, what a poll takes, and when
    the test says done. *)

From S2P Require Import Prelude NetTypes NetBase NetDemo NetLemmas NetSpec NetSend SendPlan SendSpec NetRecv Resiliency ResiliencySpec ReplaySpec NetTest.

Open Scope Z_scope.
Open Scope nccl_scope.

(** ** Sends in flight *)

(** The sends [xs] of a slot have been posted (without failover) and wait for the
    events [es], one counter per device. *)
Record inflight (s : Net) (slot : Z) (c : ncclIbSendComm) (row : list (option Z))
    (xs : list SendItem) (es : list Z) : Prop := {
  if_tail : tail s = SendTail c;
  if_send : isSend (base s) = true;
  if_res : resiliency (base s) = None;
  if_row : zget (sendReqs c) slot = Some row;
  if_fatal : fatalErrorCount (base s) = 0;
  if_devs : forall d, 0 <= d < ndevs (base s) -> exists cd dv,
    zget (devs s) d = Some cd /\ zget (ncclIbDevs s) (cd_ibDevN cd) = Some dv /\ dev_fatalErrorCount dv = 0;
  if_ndevs : 0 <= ndevs (base s) <= NCCL_IB_MAX_DEVS_PER_NIC;
  if_events : length es = Z.to_nat NCCL_IB_MAX_DEVS_PER_NIC;
  if_items : forall n x, xs !! n = Some x ->
    zget row (Z.of_nat n) = Some (Some (it_idx x)) /\ zget (reqs (base s)) (it_idx x) = Some (it_req x);
  if_reqs : forall x, In x xs ->
    r_type (it_req x) = REQ_SEND /\ r_id (it_req x) mod NET_IB_MAX_REQUESTS = slot
    /\ r_nreqs (it_req x) = Z.of_nat (length xs) /\ r_events (it_req x) = es
    /\ length (r_devBases (it_req x)) = Z.to_nat NCCL_IB_MAX_DEVS_PER_NIC
    /\ forall d e, zget es d = Some e -> e <> 0 -> zget (r_devBases (it_req x)) d = Some true;
  if_distinct : NoDup (map it_idx xs);
}.

Definition setEvents (es : list Z) (q : ncclIbRequest) : ncclIbRequest := q <| r_events := es |>.

Definition withItemEvents (es : list Z) (x : SendItem) : SendItem :=
  (it_idx x, setEvents es (it_req x), it_cts x).

(** The state in which the sends [xs] wait for [es]. *)
Definition withEvents (s : Net) (xs : list SendItem) (es : list Z) : Net :=
  withReqs s (updItems (setEvents es) xs (reqs (base s))).

Section Inflight.
Context (s : Net) (slot : Z) (c : ncclIbSendComm) (row : list (option Z)) (xs : list SendItem) (es : list Z).
Context (H : inflight s slot c row xs es).

Lemma inflight_index x : In x xs ->
0 <= it_idx x < Z.of_nat (length (reqs (base s))) /\ zget (reqs (base s)) (it_idx x) = Some (it_req x).
Proof.
intros (n & E)%list_elem_of_In%list_elem_of_lookup_1.
destruct (if_items _ _ _ _ _ _ H n x E) as [_ Er]. split; [by eapply zget_Some|done].
Qed.

Lemma map_idx_events es' : map it_idx (map (withItemEvents es') xs) = map it_idx xs.
Proof. rewrite map_map. by apply map_ext. Qed.

(** Fewer events leave the sends in flight. *)
Lemma inflight_events es' :
length es' = length es -> (forall d e', zget es' d = Some e' -> e' <> 0 -> exists e, zget es d = Some e /\ e <> 0) ->
inflight (withEvents s xs es') slot c row (map (withItemEvents es') xs) es'.
Proof.
intros Hl He. pose proof H as []. constructor; try done.
- by rewrite Hl.
- intros n y E. rewrite list_lookup_fmap in E. destruct (xs !! n) as [x|] eqn:Ex; [|done]. injection E as <-.
destruct (if_items0 n x Ex) as [Er Eq]. split; [done|].
apply (updItems_get (setEvents es') xs (reqs (base s)) n x); [done..|by eapply zget_Some].
- intros y (x & <- & Hx)%in_map_iff. destruct (if_reqs0 x Hx) as (? & ? & ? & ? & ? & Hb).
cbn [withItemEvents it_req fst snd setEvents]. rewrite length_map. repeat (split; [done|]).
intros d e' E' Hne. destruct (He d e' E' Hne) as (e & E & Hn). by apply (Hb d e).
- by rewrite map_idx_events.
Qed.

Lemma updItems_ext f g l l' :
(forall x, In x xs -> f (it_req x) = g (it_req x)) -> length l = length l' ->
(forall j, j ∉ map it_idx xs -> zget l j = zget l' j) ->
(forall x, In x xs -> 0 <= it_idx x < Z.of_nat (length l)) ->
updItems f xs l = updItems g xs l'.
Proof.
intros Hfg Hl Hout Hin. apply list_eq_zget. intros j.
destruct (decide (j ∈ map it_idx xs)) as [Hj|Hj]; [|by rewrite !updItems_other by done; apply Hout].
apply list_elem_of_In, in_map_iff in Hj as (x & <- & Hx). pose proof (Hin x Hx).
pose proof Hx as (n & En)%list_elem_of_In%list_elem_of_lookup_1.
rewrite !(updItems_get _ xs _ n x) by (try apply H; try done; lia). by rewrite Hfg.
Qed.

Lemma withEvents_same : withEvents s xs es = s.
Proof.
unfold withEvents. assert (updItems (setEvents es) xs (reqs (base s)) = reqs (base s)) as ->; [|by destruct s as [[]]].
apply list_eq_zget. intros j. destruct (decide (j ∈ map it_idx xs)) as [Hj|Hj]; [|by apply updItems_other].
apply list_elem_of_In, in_map_iff in Hj as (x & <- & Hx). destruct (inflight_index x Hx) as [Hi Eq].
pose proof Hx as (n & En)%list_elem_of_In%list_elem_of_lookup_1.
rewrite (updItems_get _ xs _ n x) by (try apply H; done). rewrite Eq. f_equal. unfold setEvents.
destruct (if_reqs _ _ _ _ _ _ H x Hx) as (_ & _ & _ & <- & _). by destruct (it_req x).
Qed.

(** ** One completion *)

Lemma decEvent_set q d e :
r_events q = es -> zget es d = Some e -> decEvent d q = Some (setEvents (zupd es d (e - 1)) q).
Proof.
intros Eq E. unfold decEvent. rewrite Eq, E. cbn [mbind option_bind].
by rewrite zset_is_Some by (by eapply zget_Some).
Qed.

Lemma processSend_run x0 d e :
xs !! O = Some x0 -> zget es d = Some e -> 0 < e ->
processSend (it_idx x0) d s = (Done tt, withEvents s xs (zupd es d (e - 1))).
Proof.
intros E0 Ed He. assert (In x0 xs) as H0 by (by eapply list_elem_of_In, list_elem_of_lookup_2).
destruct (inflight_index x0 H0) as [_ Er]. destruct (if_reqs _ _ _ _ _ _ H x0 H0) as (Et & Eid & En & _).
unfold processSend. nstep (getReq_run _ _ _ Er). rewrite Et, bool_decide_eq_true_2 by done. cbn [negb].
rewrite Eid, En. nstep (getSend_run _ _ (if_tail _ _ _ _ _ _ H)).
rewrite (bind_some _ _ _ _ (if_row _ _ _ _ _ _ H)). unfold hasResiliency. nred.
rewrite (if_res _ _ _ _ _ _ H). unfold zrange, withEvents. rewrite Nat2Z.id.
assert (s = withReqs s (reqs (base s))) as Es by (by destruct s as [[]]). rewrite Es at 1.
apply (items_loop (fun i => let* q := getReq i in let* e := of_option (zget (r_events q) d) in
if negb false && (e <=? 0) then fail ncclInternalError else modReq i (decEvent d))
(setEvents (zupd es d (e - 1))) row xs 0 s (reqs (base s))).
- intros l i q Eq (x & <- & Hx)%in_map_iff. destruct (if_reqs _ _ _ _ _ _ H x Hx) as (_ & _ & _ & Ee & _).
rewrite (bind_step _ _ _ _ _ (getReq_run i (withReqs s l) _ Eq)).
rewrite (bind_some _ e) by (by rewrite Ee). replace (e <=? 0) with false by lia. cbn [negb andb].
apply (modReq_run i (decEvent d) (withReqs s l) _ _ Eq). by apply decEvent_set.
- apply H.
- intros n x Ex. rewrite Z.add_0_l. by apply (if_items _ _ _ _ _ _ H).
Qed.

Lemma length_updItems f ys l : length (updItems f ys l) = length l.
Proof.
revert l. induction ys as [|y ys IH]; intros l; [done|].
change (length (updItems f ys (zupd l (it_idx y) (f (it_req y)))) = length l). by rewrite IH, length_zupd.
Qed.

Lemma updItems_map f ys g l :
(forall y, it_idx (g y) = it_idx y) -> updItems f (map g ys) l = fold_left (fun l y => zupd l (it_idx y) (f (it_req (g y)))) ys l.
Proof.
intros Hg. revert l. induction ys as [|y ys IH]; intros l; [done|]. cbn [map].
change (updItems f (map g ys) (zupd l (it_idx (g y)) (f (it_req (g y)))) = fold_left (fun l y => zupd l (it_idx y) (f (it_req (g y)))) ys (zupd l (it_idx y) (f (it_req (g y))))).
by rewrite Hg.
Qed.

Lemma withEvents_twice es1 es2 :
withEvents (withEvents s xs es1) (map (withItemEvents es1) xs) es2 = withEvents s xs es2.
Proof.
unfold withEvents. change (reqs (base (withReqs s ?l))) with l.
assert (updItems (setEvents es2) (map (withItemEvents es1) xs) (updItems (setEvents es1) xs (reqs (base s)))
= updItems (setEvents es2) xs (reqs (base s))) as E; [|by rewrite E].
rewrite updItems_map by done. apply (updItems_ext (setEvents es2) (setEvents es2)); [done| | |].
- apply length_updItems.
- intros j Hj. by apply updItems_other.
- intros x Hx. rewrite length_updItems. by apply inflight_index.
Qed.

End Inflight.

(** A successful completion of a send of the slot. *)
Definition slotCompletion (slot : Z) (wc : Wc) : Prop :=
  wc_status wc = IBV_WC_SUCCESS /\ wc_wr_id wc <> NCCL_IB_SPEED_UPDATE_WR_ID /\ Z.land (wc_wr_id wc) 0xff = slot.

(** ** The completions of one poll *)

Section Poll.
Context `{M : Machine}.

Lemma testCompletion_run s slot c row xs es x0 d wc e :
inflight s slot c row xs es -> xs !! O = Some x0 -> slotCompletion slot wc ->
zget es d = Some e -> 0 < e ->
testCompletion d wc s = (Done tt, withEvents s xs (zupd es d (e - 1))).
Proof.
intros H E0 (Hst & Hid & Hslot) Ed He. destruct (if_items _ _ _ _ _ _ H O x0 E0) as [Er _].
unfold testCompletion, ncclIbCompletionEventProcess, ncclIbRequestRetrieveFromCompletion.
rewrite Hst, bool_decide_eq_true_2 by done. cbn [negb].
replace (wc_wr_id wc =? NCCL_IB_SPEED_UPDATE_WR_ID) with false by lia.
rewrite bind_assoc, bind_gets, (if_send _ _ _ _ _ _ H). cbn [negb andb].
rewrite bind_assoc. nstep (getSend_run _ _ (if_tail _ _ _ _ _ _ H)).
rewrite (bind_some _ (Some (it_idx x0))) by (unfold zget2; rewrite Hslot, (if_row _ _ _ _ _ _ H); exact Er).
rewrite bind_gets, (if_send _ _ _ _ _ _ H). by apply (processSend_run s slot c row xs es H).
Qed.

(** Completions of device [d] leave the others waiting. *)
Lemma inflight_take s slot c row xs es d e k :
inflight s slot c row xs es -> zget es d = Some e -> e <> 0 -> 
inflight (withEvents s xs (zupd es d k)) slot c row (map (withItemEvents (zupd es d k)) xs) (zupd es d k).
Proof.
intros H Ed He. apply (inflight_events s slot c row xs es H); [apply length_zupd|].
intros d' e' E' Hne. rewrite zget_zupd in E'. case_decide as Hc; [|by exists e'].
destruct Hc as [<- _]. by exists e.
Qed.

Lemma completions_run s slot c row xs es x0 d wcs e :
inflight s slot c row xs es -> xs !! O = Some x0 -> Forall (slotCompletion slot) wcs ->
zget es d = Some e -> Z.of_nat (length wcs) <= e ->
iterM (testCompletion d) wcs s = (Done tt, withEvents s xs (zupd es d (e - Z.of_nat (length wcs)))).
Proof.
intros H E0 Hw. revert s xs es x0 e H E0. induction Hw as [|wc wcs Hwc Hw IH]; intros s xs es x0 e H E0 Ed Hl.
- cbn [iterM length]. rewrite Z.sub_0_r, zupd_same by done. by rewrite (withEvents_same _ _ _ _ _ _ H).
- cbn [iterM]. cbn [length] in Hl |- *. pose proof (zget_Some _ _ _ Ed).
rewrite (bind_step _ _ _ _ _ (testCompletion_run s slot c row xs es x0 d wc e H E0 Hwc Ed ltac:(lia))).
rewrite (IH _ _ _ (withItemEvents (zupd es d (e - 1)) x0) (e - 1) (inflight_take _ _ _ _ _ _ d e (e - 1) H Ed ltac:(lia))).
+ rewrite (withEvents_twice _ _ _ _ _ _ H), zupd_zupd. do 3 f_equal. lia.
+ by rewrite list_lookup_fmap, E0.
+ by apply zget_zupd_eq.
+ lia.
Qed.

(** ** What the devices still hold *)

(** Completions taken from the data CQ of device [d]. *)
Definition polled (h : list Event) (d : Z) : Z :=
zsum (map (fun e => match e with
| Polled (DataCq d') wcs => if d' =? d then Z.of_nat (length wcs) else 0
| _ => 0 end) h).

Lemma polled_snoc h d' wcs d :
polled (h ++ [Polled (DataCq d') wcs]) d = polled h d + (if d' =? d then Z.of_nat (length wcs) else 0).
Proof. unfold polled. rewrite map_app, zsum_app. cbn [map zsum]. lia. Qed.

(** The data CQs hold the completions [cq]: a poll takes the next ones, in order. *)
Definition cqs_hold (cq : Z -> list Wc) : Prop :=
forall h d n, mrc_poll_cq env h (DataCq d) n
= Some (take (Z.to_nat n) (drop (Z.to_nat (polled h d)) (cq d))).

Definition remaining (cq : Z -> list Wc) (h : list Event) (d : Z) : Z :=
Z.of_nat (length (cq d)) - polled h d.

Section Turns.
Context (s : Net) (slot : Z) (c : ncclIbSendComm) (row : list (option Z)) (xs : list SendItem) (es0 : list Z).
Context (H : inflight s slot c row xs es0) (cq : Z -> list Wc) (miss : Z -> Z).
Context (Hcq : cqs_hold cq) (Hgood : forall d, Forall (slotCompletion slot) (cq d)).

(** The state in which the sends wait for [es] after the history [h]. *)
Definition waiting (es : list Z) (h : list Event) : Net := (withEvents s xs es) <| history := h |>.

(** They wait for the completions the devices still hold and for [miss] more. *)
Record arriving (es : list Z) (h : list Event) : Prop := {
ar_length : length es = length es0;
ar_polled : forall d, 0 <= polled h d;
ar_events : forall d, 0 <= d < ndevs (base s) ->
0 <= miss d /\ 0 <= remaining cq h d /\ zget es d = Some (miss d + remaining cq h d);
ar_others : forall d, ndevs (base s) <= d < NCCL_IB_MAX_DEVS_PER_NIC -> zget es d = Some 0;
ar_before : forall d e, zget es d = Some e -> e <> 0 -> exists e0, zget es0 d = Some e0 /\ e0 <> 0;
}.

Lemma waiting_inflight es h :
arriving es h -> inflight (waiting es h) slot c row (map (withItemEvents es) xs) es.
Proof.
intros A. destruct (inflight_events s slot c row xs es0 H es (ar_length _ _ A) (ar_before _ _ A)). by constructor.
Qed.

Lemma waiting_twice es h es' h' :
(withEvents (waiting es h) (map (withItemEvents es) xs) es') <| history := h' |> = waiting es' h'.
Proof. pose proof (withEvents_twice _ _ _ _ _ _ H es es') as E. unfold waiting. rewrite <- E. done. Qed.

Lemma arriving_take es h d wcs :
arriving es h -> 0 <= d < ndevs (base s) -> Z.of_nat (length wcs) <= remaining cq h d ->
arriving (zupd es d (miss d + remaining cq h d - Z.of_nat (length wcs))) (h ++ [Polled (DataCq d) wcs]).
Proof.
intros A Hd Hl. pose proof A as [Al Ap Ae Ao Ab]. destruct (Ae d Hd) as (Hm & Hr & Ed).
pose proof (zget_Some _ _ _ Ed) as Hi. constructor.
- by rewrite length_zupd.
- intros d'. rewrite polled_snoc. specialize (Ap d'). case_match; lia.
- intros d' Hd'. destruct (Ae d' Hd') as (Hm' & Hr' & Ed'). unfold remaining in *. rewrite polled_snoc, zget_zupd.
destruct (Z.eqb_spec d d') as [<-|Hne].
+ rewrite decide_True by (split; [done|lia]). repeat (split; [lia|]). f_equal. lia.
+ rewrite decide_False by tauto. repeat (split; [lia|]). rewrite Ed'. f_equal. lia.
- intros d' Hd'. rewrite zget_zupd, decide_False by lia. by apply Ao.
- intros d' e' E' Hne. rewrite zget_zupd in E'. case_decide as Hc; [|by eapply Ab].
destruct Hc as [<- _]. injection E' as <-. apply (Ab d _ Ed). lia.
Qed.

Lemma poll_takes s' d :
0 <= polled (history s') d -> 0 <= remaining cq (history s') d ->
exists wcs, wrap_poll_cq (DataCq d) 4 s' = (Done wcs, s' <| history := history s' ++ [Polled (DataCq d) wcs] |>)
/\ Forall (slotCompletion slot) wcs /\ Z.of_nat (length wcs) = Z.min 4 (remaining cq (history s') d).
Proof.
intros Hp Hr. unfold wrap_poll_cq. rewrite bind_getS, Hcq. eexists. split; [reflexivity|]. split.
- apply Forall_take, Forall_drop, Hgood.
- unfold remaining in *. rewrite length_take, length_drop. lia.
Qed.

Lemma polled_progress (h : list Event) d d' wcs :
remaining cq (h ++ [Polled (DataCq d) wcs]) d'
= remaining cq h d' - (if d =? d' then Z.of_nat (length wcs) else 0).
Proof. unfold remaining. rewrite polled_snoc. lia. Qed.

(** One device of a turn. *)
Lemma pollDev_run es h x d :
arriving es h -> In x xs -> 0 <= d < ndevs (base s) ->
exists es' h', pollDev (it_idx x) d (waiting es h) = (Done (remaining cq h d - remaining cq h' d), waiting es' h')
/\ arriving es' h' /\ (forall d', d' <> d -> remaining cq h' d' = remaining cq h d')
/\ 0 <= remaining cq h' d <= remaining cq h d
/\ (remaining cq h' d = remaining cq h d -> remaining cq h d = 0).
Proof.
intros A Hx Hd. pose proof (waiting_inflight es h A) as F.
destruct (ar_events _ _ A d Hd) as (Hm & Hr & Ed).
assert (In (withItemEvents es x) (map (withItemEvents es) xs)) as Hx' by (by apply in_map).
destruct (inflight_index _ _ _ _ _ _ F _ Hx') as [_ Eq]. change (it_idx (withItemEvents es x)) with (it_idx x) in Eq.
destruct (if_reqs _ _ _ _ _ _ F _ Hx') as (Et & _ & _ & Ee & Hb & Hused).
unfold pollDev. nstep (getReq_run _ _ _ Eq). unfold hasResiliency. nred. rewrite (if_res _ _ _ _ _ _ F).
destruct (zget_is_Some (r_devBases (it_req (withItemEvents es x))) d) as [u Eu];
[rewrite Hb; pose proof (if_ndevs _ _ _ _ _ _ H); lia|].
rewrite (bind_some _ _ _ _ Eu), (bind_some _ (miss d + remaining cq h d)) by (by rewrite Ee).
destruct (Z.eqb_spec (miss d + remaining cq h d) 0) as [E0|Hne].
- exists es, h. rewrite orb_true_r, Z.sub_diag. repeat (split; [done || lia|]). lia.
- rewrite (Hused d _ Ed Hne) in Eu. injection Eu as <-. cbn [negb orb andb].
rewrite Et, bool_decide_eq_false_2 by done.
destruct (poll_takes (waiting es h) d (ar_polled _ _ A d) Hr) as (wcs & Ep & Hw & Hl).
change (history (waiting es h)) with h in Ep, Hl. nstep Ep.
set (s1 := (waiting es h) <| history := _ |>).
assert (inflight s1 slot c row (map (withItemEvents es) xs) es) as F1 by (by destruct F; constructor).
assert (exists x0, xs !! O = Some x0) as [x0 E0] by (clear -Hx; destruct xs; [done|by eexists]).
assert (map (withItemEvents es) xs !! O = Some (withItemEvents es x0)) as E0' by (by rewrite list_lookup_fmap, E0).
pose proof (completions_run s1 slot c row _ es (withItemEvents es x0) d wcs _ F1 E0' Hw Ed ltac:(lia)) as Ec.
pose proof (waiting_twice es (h ++ [Polled (DataCq d) wcs]) (zupd es d (miss d + remaining cq h d - Z.of_nat (length wcs))) (h ++ [Polled (DataCq d) wcs])) as Et2.
exists (zupd es d (miss d + remaining cq h d - Z.of_nat (length wcs))), (h ++ [Polled (DataCq d) wcs]).
rewrite (bind_step _ _ _ _ _ Ec). rewrite polled_progress, Z.eqb_refl.
assert (arriving (zupd es d (miss d + remaining cq h d - Z.of_nat (length wcs))) (h ++ [Polled (DataCq d) wcs])) as A'
by (apply arriving_take; [done..|lia]).
split; [|split; [exact A'|split; [|split; lia]]].
2: { intros d' Hne'. rewrite polled_progress. replace (d =? d') with false by lia. lia. }
destruct (Z.eqb_spec (Z.of_nat (length wcs)) 0) as [El|El].
+ unfold ret. do 2 f_equal; [lia|]. exact Et2.
+ destruct (if_devs _ _ _ _ _ _ H d Hd) as (cd & dv & Ecd & Edv & Ef).
match goal with |- bind _ _ ?s2 = _ =>
rewrite (bind_step _ _ _ _ _ (readAt_run devs d s2 cd Ecd));
rewrite (bind_step _ _ _ _ _ (readAt_run ncclIbDevs _ s2 dv Edv)) end.
unfold ncclIbStatsCheckFatalCount. rewrite Ef, andb_false_r. nred. unfold ret. do 2 f_equal; [lia|]. exact Et2.
Qed.

(** Everything the devices hold. *)
Definition held (h : list Event) : Z := zsum (map (remaining cq h) (zrange (ndevs (base s)))).

Lemma held_step h h' d :
0 <= d < ndevs (base s) -> (forall d', d' <> d -> remaining cq h' d' = remaining cq h d') ->
held h - held h' = remaining cq h d - remaining cq h' d.
Proof.
intros Hd Hne. unfold held.
rewrite <- (zsum_indicator (fun d => remaining cq h d - remaining cq h' d) d (ndevs (base s)) Hd).
induction (zrange (ndevs (base s))) as [|a l IH]; [done|]. cbn [map zsum]. rewrite <- !IH.
destruct (Z.eqb_spec d a) as [->|Ha]; [lia|]. rewrite (Hne a (not_eq_sym Ha)). lia.
Qed.

Lemma held_zero es h : arriving es h -> held h = 0 -> forall d, 0 <= d < ndevs (base s) -> remaining cq h d = 0.
Proof.
intros A E d Hd. unfold held in E.
assert (forall l, (forall d, In d l -> 0 <= remaining cq h d) -> zsum (map (remaining cq h) l) = 0 ->
forall d, In d l -> remaining cq h d = 0) as Hz.
{ induction l as [|a l IH]; intros Hl El d' Hin; [done|]. cbn [map zsum] in El.
assert (0 <= zsum (map (remaining cq h) l)).
{ apply zsum_nonneg, Forall_forall. intros v Hv%list_elem_of_In%in_map_iff. destruct Hv as (b & <- & Hb).
apply Hl. by right. }
pose proof (Hl a (or_introl eq_refl)). destruct Hin as [<-|Hin]; [lia|]. apply IH; [|lia|done].
intros d2 H2. apply Hl. by right. }
apply (Hz (zrange (ndevs (base s)))); [|done|by apply In_zrange].
intros d' Hd'%In_zrange. by apply (ar_events _ _ A).
Qed.

(** One turn: all devices. *)
Lemma pollDevs_run es h x ds total :
arriving es h -> In x xs -> Forall (fun d => 0 <= d < ndevs (base s)) ds ->
exists es' h', pollDevs (it_idx x) ds total (waiting es h) = (Done (total + (held h - held h')), waiting es' h')
/\ arriving es' h' /\ held h' <= held h
/\ (held h' = held h -> forall d, In d ds -> remaining cq h d = 0).
Proof.
intros A Hx Hds. revert es h total A. induction Hds as [|d ds Hd Hds IH]; intros es h total A.
- exists es, h. cbn [pollDevs]. rewrite Z.sub_diag, Z.add_0_r. done.
- destruct (pollDev_run es h x d A Hx Hd) as (es1 & h1 & E1 & A1 & Hne & Hle & Hz).
destruct (IH es1 h1 (total + (remaining cq h d - remaining cq h1 d)) A1) as (es2 & h2 & E2 & A2 & Hle2 & Hz2).
pose proof (held_step h h1 d Hd Hne) as Hh. exists es2, h2. cbn [pollDevs]. nstep E1. rewrite E2.
split; [do 2 f_equal; lia|]. split; [done|]. split; [lia|]. intros Eh d' [<-|Hin]; [apply Hz; lia|].
destruct (decide (d' = d)) as [->|Hd']; [apply Hz; lia|]. rewrite <- Hne by done. apply Hz2; [lia|done].
Qed.

(** ** The loop *)

Lemma isComplete_run es h x :
arriving es h -> In x xs -> ncclIbRequestIsComplete (it_idx x) (waiting es h) = (Done (allZero es), waiting es h).
Proof.
intros A Hx. pose proof (waiting_inflight es h A) as F.
assert (In (withItemEvents es x) (map (withItemEvents es) xs)) as Hx' by (by apply in_map).
destruct (inflight_index _ _ _ _ _ _ F _ Hx') as [_ Eq].
destruct (if_reqs _ _ _ _ _ _ F _ Hx') as (_ & _ & _ & Ee & _).
unfold ncclIbRequestIsComplete. rewrite (bind_step _ _ _ _ _ (getReq_run (it_idx x) _ _ Eq)), Ee.
unfold hasResiliency. nred. rewrite (if_res _ _ _ _ _ _ F), andb_false_r. done.
Qed.

(** All counters are zero when everything has arrived, and only then. *)
Lemma allZero_iff es h : arriving es h ->
allZero es = true <-> forall d, 0 <= d < ndevs (base s) -> miss d = 0 /\ remaining cq h d = 0.
Proof.
intros A. unfold allZero. rewrite forallb_forall. split.
- intros Hz d Hd. destruct (ar_events _ _ A d Hd) as (Hm & Hr & Ed).
assert (In (miss d + remaining cq h d) es) as Hin.
{ unfold zget in Ed. case_decide; [|done]. by apply list_elem_of_In, (list_elem_of_lookup_2 _ _ _ Ed). }
specialize (Hz _ Hin). lia.
- intros Hz e (n & En)%list_elem_of_In%list_elem_of_lookup_1. pose proof (lookup_lt_Some _ _ _ En) as Hn.
rewrite (ar_length _ _ A), (if_events _ _ _ _ _ _ H) in Hn. rewrite <- zget_lookup in En.
destruct (decide (Z.of_nat n < ndevs (base s))) as [Hd|Hd].
+ destruct (ar_events _ _ A (Z.of_nat n)) as (_ & _ & Ed); [lia|]. rewrite Ed in En. injection En as <-.
destruct (Hz (Z.of_nat n)); lia.
+ rewrite (ar_others _ _ A) in En by lia. by injection En as <-.
Qed.

Lemma testLoop_run fuel es h x w :
arriving es h -> In x xs -> held h < Z.of_nat fuel ->
exists es' h', arriving es' h' /\ (forall d, 0 <= d < ndevs (base s) -> remaining cq h' d = 0)
/\ testLoop fuel (it_idx x) w (waiting es h) =
 if allZero es'
 then (let* sizes := ncclIbRequestComplete (it_idx x) w in ret (IsDone sizes)) (waiting es' h')
 else (Done NotDone, waiting es' h').
Proof.
intros A Hx. revert es h A. induction fuel as [|fuel IH]; intros es h A Hf.
- assert (0 <= held h); [|lia]. unfold held. apply zsum_nonneg, Forall_forall.
intros v Hv%list_elem_of_In%in_map_iff. destruct Hv as (d & <- & Hd%In_zrange). by apply (ar_events _ _ A).
- cbn [testLoop]. rewrite bind_gets. unfold ncclIbStatsCheckFatalCount.
change (fatalErrorCount (base (waiting es h))) with (fatalErrorCount (base s)).
rewrite (if_fatal _ _ _ _ _ _ H), andb_false_r, bind_ret. nstep (isComplete_run es h x A Hx).
destruct (allZero es) eqn:Ez.
+ exists es, h. rewrite Ez. split; [done|]. split; [|done].
intros d Hd. by apply (proj1 (allZero_iff es h A) Ez).
+ change (ndevs (base (waiting es h))) with (ndevs (base s)).
destruct (pollDevs_run es h x (zrange (ndevs (base s))) 0 A Hx) as (es1 & h1 & E1 & A1 & Hle & Hz);
[by apply Forall_forall; intros d Hd%list_elem_of_In%In_zrange|].
nstep E1. destruct (Z.ltb_spec 0 (0 + (held h - held h1))) as [Hlt|Hge].
* apply (IH es1 h1); [done|lia].
* assert (forall d, 0 <= d < ndevs (base s) -> remaining cq h d = 0) as Hr
by (intros d Hd; apply Hz; [lia|by apply In_zrange]).
assert (held h1 = held h) as Eh by lia.
assert (forall d, 0 <= d < ndevs (base s) -> remaining cq h1 d = 0) as Hr1.
{ apply (held_zero es1); [done|]. rewrite Eh. unfold held. rewrite (zsum_map_ext _ (fun _ => 0)).
- rewrite zsum_map_const. lia.
- intros d Hd%In_zrange. by apply Hr. }
assert (allZero es1 = false) as Ez1.
{ apply not_true_iff_false. intros Ht. apply not_true_iff_false in Ez. apply Ez.
apply (allZero_iff es h A). intros d Hd. split; [|by apply Hr]. by apply (proj1 (allZero_iff es1 h1 A1) Ht). }
exists es1, h1. rewrite Ez1. done.
Qed.

End Turns.

End Poll.

(** ** Completing the request *)

(** No speed change is pending on either side. *)
Definition speeds_settled (s : Net) (c : ncclIbSendComm) : Prop :=
  speedChangeCounter (base s) = ncclIbSpeedChangeCounter s /\ remoteSpeedCounter c = remoteSpeedBuf_counter c.

Section Complete.
Context `{M : Machine}.

Lemma checkSpeedChanges_run s c :
tail s = SendTail c -> speeds_settled s c -> ncclIbCheckSpeedChanges s = (Done tt, s).
Proof.
intros Et [Hl Hr]. unfold ncclIbCheckSpeedChanges. nred. nstep (getSend_run _ _ Et).
by rewrite Hl, Hr, !Z.eqb_refl.
Qed.

(** The send communicator after a request of the slot is done. *)
Definition sendDone (c : ncclIbSendComm) (slot cnt : Z) : ncclIbSendComm :=
let c1 := c <| sendReqsCnt := zupd (sendReqsCnt c) slot (cnt - 1) |> in
if cnt - 1 =? 0
then c1 <| sendReqs := zupd (sendReqs c) slot (replicate (Z.to_nat NCCL_NET_IB_MAX_RECVS) None) |>
else c1.

Lemma requestComplete_run s slot c row xs es x w cnt :
inflight s slot c row xs es -> In x xs -> zget (sendReqsCnt c) slot = Some cnt -> speeds_settled s c ->
ncclIbRequestComplete (it_idx x) w s
= (Done (if w then [send_size (it_req x)] else []),
 updReq (s <| tail := SendTail (sendDone c slot cnt) |>) (it_idx x) ((it_req x) <| r_type := REQ_UNUSED |>)).
Proof.
intros F Hx Ec Hs. destruct (inflight_index _ _ _ _ _ _ F x Hx) as [_ Eq].
destruct (if_reqs _ _ _ _ _ _ F x Hx) as (Et & Eid & _). pose proof (if_tail _ _ _ _ _ _ F) as Etl.
pose proof (zget_Some _ _ _ Ec). pose proof (zget_Some _ _ _ (if_row _ _ _ _ _ _ F)).
unfold ncclIbRequestComplete. nstep (getReq_run _ _ _ Eq). rewrite Et, Eid, bind_assoc.
nstep (getSend_run _ _ Etl). rewrite bind_assoc, (bind_some _ _ _ _ Ec), bind_assoc.
erewrite bind_step; [|eapply modSend_run; [exact Etl|cbn beta; rewrite zset_is_Some by done; reflexivity]].
cbv beta. rewrite bind_assoc. set (c1 := c <| sendReqsCnt := _ |>). set (s1 := s <| tail := _ |>).
assert (when (cnt - 1 =? 0)
(modSend (fun c => l ← zset (sendReqs c) slot (replicate (Z.to_nat NCCL_NET_IB_MAX_RECVS) None);
 Some (c <| sendReqs := l |>)) ;;;
 when (ncclParamIbEventBasedLb prm) ncclIbCheckSpeedChanges) s1
= (Done tt, s <| tail := SendTail (sendDone c slot cnt) |>)) as Ew.
{ unfold sendDone. destruct (cnt - 1 =? 0); cbn [when]; [|done].
erewrite bind_step; [|eapply modSend_run; [reflexivity|cbn beta; rewrite zset_is_Some by done; reflexivity]].
cbv beta. destruct (ncclParamIbEventBasedLb prm); cbn [when]; [|done].
rewrite (checkSpeedChanges_run _ (c1 <| sendReqs := zupd (sendReqs c) slot (replicate (Z.to_nat NCCL_NET_IB_MAX_RECVS) None) |>));
[done|done|exact Hs]. }
rewrite (bind_step _ _ _ _ _ Ew). nred. unfold ncclIbFreeRequest.
erewrite bind_step; [|eapply modReq_run; [exact Eq|reflexivity]]. done.
Qed.

End Complete.

Lemma polled_nonneg h d : 0 <= polled h d.
Proof.
  unfold polled. apply zsum_nonneg, Forall_forall. intros v Hv%list_elem_of_In%in_map_iff.
  destruct Hv as (e & <- & _). repeat case_match; lia.
Qed.

(** C8. A send completes exactly when its completions have arrived, and is then
    reported: let the sends of a slot wait for the events [es], and let the data CQs of
    the devices hold successful completions of that slot, in any order and interleaving
    over the devices, at most as many as are waited for.  If they hold all of them,
    [ncclIbTest] (whose polling loop takes them in batches of four per device) returns
    done with the size of the message, frees the request and takes it off its slot,
    which is cleared with its last send.  If any is missing it returns not done, and
    every send of the slot waits for exactly the missing ones. *)
Theorem test_reports_send `{M : Machine} s slot c row xs es cq cnt x w fuel :
  inflight s slot c row xs es -> In x xs -> zget (sendReqsCnt c) slot = Some cnt -> speeds_settled s c ->
  cqs_hold cq -> (forall d, Forall (slotCompletion slot) (cq d)) ->
  (forall d, 0 <= d < ndevs (base s) ->
     exists e, zget es d = Some e /\ 0 <= remaining cq (history s) d <= e) ->
  (forall d, ndevs (base s) <= d < NCCL_IB_MAX_DEVS_PER_NIC -> zget es d = Some 0) ->
  zsum (map (remaining cq (history s)) (zrange (ndevs (base s)))) < Z.of_nat fuel ->
  exists s', 
    ((forall d, 0 <= d < ndevs (base s) -> zget es d = Some (remaining cq (history s) d)) ->
       ncclIbTest fuel (it_idx x) w s = (Done (IsDone (if w then [send_size (it_req x)] else [])), s')
       /\ tail s' = SendTail (sendDone c slot cnt)
       /\ exists q', zget (reqs (base s')) (it_idx x) = Some q' /\ r_type q' = REQ_UNUSED)
    /\ ((exists d, 0 <= d < ndevs (base s) /\ zget es d <> Some (remaining cq (history s) d)) ->
       ncclIbTest fuel (it_idx x) w s = (Done NotDone, s')
       /\ forall x', In x' xs -> exists q', zget (reqs (base s')) (it_idx x') = Some q'
            /\ forall d e, 0 <= d < ndevs (base s) -> zget es d = Some e ->
                 zget (r_events q') d = Some (e - remaining cq (history s) d)).
Proof.
  intros F Hx Ec Hsp Hcq Hgood He Ho Hf.
  set (miss := fun d => default 0 (zget es d) - remaining cq (history s) d).
  assert (arriving s es cq miss es (history s)) as A.
  { constructor; [done|intros; apply polled_nonneg| |done|eauto]. intros d Hd.
    destruct (He d Hd) as (e & Ee & Hr). unfold miss. rewrite Ee. cbn [default from_option id]. repeat (split; [lia|]). f_equal. lia. }
  assert (s = waiting s xs es (history s)) as Es.
  { unfold waiting. rewrite (withEvents_same _ _ _ _ _ _ F). by destruct s. }
  destruct (testLoop_run s slot c row xs es F cq miss Hcq Hgood fuel es (history s) x w A Hx Hf)
    as (es' & h' & A' & Hz & E).
  assert (ncclIbTest fuel (it_idx x) w s = testLoop fuel (it_idx x) w s) as Et.
  { unfold ncclIbTest. rewrite bind_gets, (if_res _ _ _ _ _ _ F). done. }
  rewrite <- Es in E. rewrite Et, E.
  assert (allZero es' = true <-> forall d, 0 <= d < ndevs (base s) -> zget es d = Some (remaining cq (history s) d)) as Hall.
  { rewrite (allZero_iff s slot c row xs es F cq miss es' h' A'). split; intros Hall d Hd.
    - destruct (Hall d Hd) as [Hm _]. destruct (He d Hd) as (e & Ee & _). unfold miss in Hm. rewrite Ee in *.
      cbn in Hm. f_equal. lia.
    - split; [|by apply Hz]. unfold miss. rewrite (Hall d Hd). cbn. lia. }
  pose proof (waiting_inflight s slot c row xs es F cq miss es' h' A') as F'.
  assert (forall y, In y xs -> zget (reqs (base (waiting s xs es' h'))) (it_idx y)
                               = Some (setEvents es' (it_req y))) as Hreqs
    by (intros y Hy; by apply (inflight_index _ _ _ _ _ _ F' (withItemEvents es' y) (in_map _ xs y Hy))).
  destruct (allZero es').
  - eexists. split; [|intros (d & Hd & Hne); by rewrite (proj1 Hall eq_refl d Hd) in Hne].
    intros _. split; [|split].
    + nstep (requestComplete_run (waiting s xs es' h') slot c row _ es' (withItemEvents es' x) w cnt F'
        (in_map (withItemEvents es') xs x Hx) Ec Hsp). reflexivity.
    + done.
    + eexists. split; [eapply updReq_get; exact (Hreqs x Hx)|reflexivity].
  - eexists. split; [intros Harr; by discriminate (proj2 Hall Harr)|]. intros _. split; [reflexivity|].
    intros y Hy. eexists. split; [exact (Hreqs y Hy)|]. intros d e Hd Ee. cbn [setEvents].
    change (r_events (setEvents es' (it_req y))) with es'.
    destruct (ar_events _ _ _ _ _ _ A' d Hd) as (_ & _ & ->). rewrite (Hz d Hd). unfold miss. rewrite Ee. cbn. f_equal. lia.
Qed.

(** ** Errors *)

Section Errors.
Context `{M : Machine}.

Lemma zrange_split d n : 0 <= d < n -> exists l, zrange n = zrange d ++ d :: l.
Proof.
intros Hd. unfold zrange.
assert (forall k a m, exists l, upto (k + Datatypes.S m) a = upto k a ++ (a + Z.of_nat k) :: l) as Hs.
{ induction k as [|k IH]; intros a m; cbn [Nat.add upto app].
- rewrite Z.add_0_r. eauto.
- destruct (IH (a + 1) m) as [l ->]. exists l. do 3 f_equal. lia. }
destruct (Hs (Z.to_nat d) 0 (Z.to_nat (n - d - 1))) as [l E]. exists l.
replace (Z.to_nat n) with (Z.to_nat d + Datatypes.S (Z.to_nat (n - d - 1)))%nat by lia.
rewrite E. do 2 f_equal. lia.
Qed.

Lemma pollDev_skip s slot c row xs es x d :
inflight s slot c row xs es -> In x xs -> 0 <= d < NCCL_IB_MAX_DEVS_PER_NIC -> zget es d = Some 0 ->
pollDev (it_idx x) d s = (Done 0, s).
Proof.
intros F Hx Hd Ed. destruct (inflight_index _ _ _ _ _ _ F x Hx) as [_ Eq].
destruct (if_reqs _ _ _ _ _ _ F x Hx) as (_ & _ & _ & Ee & Hb & _).
unfold pollDev. nstep (getReq_run _ _ _ Eq). unfold hasResiliency. nred. rewrite (if_res _ _ _ _ _ _ F).
destruct (zget_is_Some (r_devBases (it_req x)) d) as [u Eu]; [rewrite Hb; lia|].
rewrite (bind_some _ _ _ _ Eu), (bind_some _ 0) by (by rewrite Ee). by rewrite orb_true_r.
Qed.

Lemma pollDevs_skip s slot c row xs es x ds1 ds2 total :
inflight s slot c row xs es -> In x xs ->
Forall (fun d => 0 <= d < NCCL_IB_MAX_DEVS_PER_NIC /\ zget es d = Some 0) ds1 ->
pollDevs (it_idx x) (ds1 ++ ds2) total s = pollDevs (it_idx x) ds2 total s.
Proof.
intros F Hx. revert total. induction 1 as [|d ds1 [Hd Ed] Hds IH]; [done|]. cbn [app pollDevs].
nstep (pollDev_skip _ _ _ _ _ _ _ _ F Hx Hd Ed). by rewrite Z.add_0_r.
Qed.

Lemma iterM_app {S A} (f : A -> comp S unit) l1 l2 s : iterM f (l1 ++ l2) s = (iterM f l1 ;;; iterM f l2) s.
Proof.
revert s. induction l1 as [|a l1 IH]; intros s; [done|]. cbn [app iterM]. rewrite bind_assoc. unfold bind at 1 2.
destruct (f a s) as [[[]|r|] s1]; [apply IH|done..].
Qed.

(** C24. A failed completion is reported: without port failover, when the first device
a send waits for reports a completion with an error status, [ncclIbTest] returns
[ncclRemoteError] at once; the completions the same poll reported before it are
counted on every send of the slot, nothing else is. *)
Theorem failed_completion_reported s slot c row xs es x w fuel d e good bad rest :
inflight s slot c row xs es -> In x xs -> 0 <= d < ndevs (base s) ->
(forall d', 0 <= d' < d -> zget es d' = Some 0) -> zget es d = Some e -> 0 < e ->
mrc_poll_cq env (history s) (DataCq d) 4 = Some (good ++ bad :: rest) ->
Forall (slotCompletion slot) good -> Z.of_nat (length good) <= e ->
wc_status bad <> IBV_WC_SUCCESS -> wc_wr_id bad <> NCCL_IB_SPEED_UPDATE_WR_ID ->
exists s', ncclIbTest (Datatypes.S fuel) (it_idx x) w s = (Fail ncclRemoteError, s')
/\ forall y, In y xs -> zget (reqs (base s')) (it_idx y)
 = Some ((it_req y) <| r_events := zupd es d (e - Z.of_nat (length good)) |>).
Proof.
intros F Hx Hd Hz Ed He Ep Hg Hl Hbad Hid.
destruct (inflight_index _ _ _ _ _ _ F x Hx) as [_ Eq].
destruct (if_reqs _ _ _ _ _ _ F x Hx) as (Et & _ & _ & Ee & _ & Hb).
pose proof (if_ndevs _ _ _ _ _ _ F). set (s1 := s <| history := history s ++ [Polled (DataCq d) (good ++ bad :: rest)] |>).
assert (inflight s1 slot c row xs es) as F1 by (by destruct F; constructor).
assert (exists x0, xs !! O = Some x0) as [x0 E0] by (clear -Hx; destruct xs; [done|by eexists]).
assert (pollDev (it_idx x) d s = (Fail ncclRemoteError, withEvents s1 xs (zupd es d (e - Z.of_nat (length good))))) as Epoll.
{ unfold pollDev. nstep (getReq_run _ _ _ Eq). unfold hasResiliency. nred. rewrite (if_res _ _ _ _ _ _ F).
rewrite (bind_some _ true) by (by apply (Hb d e); [|lia]). rewrite (bind_some _ e) by (by rewrite Ee).
replace (e =? 0) with false by lia. cbn [negb orb andb]. rewrite Et, bool_decide_eq_false_2 by done.
assert (wrap_poll_cq (DataCq d) 4 s = (Done (good ++ bad :: rest), s1)) as Ew.
{ unfold wrap_poll_cq. by rewrite bind_getS, Ep. }
nstep Ew. unfold bind at 1. rewrite iterM_app.
rewrite (bind_step _ _ _ _ _ (completions_run s1 slot c row xs es x0 d good e F1 E0 Hg Ed Hl)).
cbn [iterM]. unfold bind at 1. unfold testCompletion at 1. rewrite bool_decide_eq_false_2 by done. cbn [negb].
replace (wc_wr_id bad =? NCCL_IB_SPEED_UPDATE_WR_ID) with false by lia.
unfold hasResiliency. rewrite bind_gets. cbn [withEvents withReqs].
change (resiliency (base (withEvents s1 xs (zupd es d (e - Z.of_nat (length good)))))) with (resiliency (base s)).
by rewrite (if_res _ _ _ _ _ _ F). }
eexists. split.
- unfold ncclIbTest. rewrite bind_gets, (if_res _ _ _ _ _ _ F). nred. cbn [testLoop]. rewrite bind_gets.
unfold ncclIbStatsCheckFatalCount. rewrite (if_fatal _ _ _ _ _ _ F), andb_false_r. nred.
assert (ncclIbRequestIsComplete (it_idx x) s = (Done false, s)) as Ec.
{ unfold ncclIbRequestIsComplete. nstep (getReq_run _ _ _ Eq). unfold hasResiliency. nred.
rewrite (if_res _ _ _ _ _ _ F), andb_false_r, Ee. unfold ret. do 2 f_equal. unfold allZero.
apply not_true_iff_false. rewrite forallb_forall. intros Ha.
assert (In e es) as Hin by (unfold zget in Ed; case_decide; [|done]; by apply list_elem_of_In, (list_elem_of_lookup_2 _ _ _ Ed)).
specialize (Ha e Hin). lia. }
nstep Ec. destruct (zrange_split d (ndevs (base s)) Hd) as [l ->].
unfold bind at 1. rewrite (pollDevs_skip s slot c row xs es x (zrange d) (d :: l) 0 F Hx).
+ cbn [pollDevs]. unfold bind at 1. rewrite Epoll. reflexivity.
+ apply Forall_forall. intros d' Hd'%list_elem_of_In%In_zrange. split; [lia|by apply Hz].
- intros y Hy. assert (inflight (withEvents s1 xs (zupd es d (e - Z.of_nat (length good)))) slot c row _ _) as F2
by (apply (inflight_take s1 slot c row xs es d e); [done..|lia]).
by apply (inflight_index _ _ _ _ _ _ F2 (withItemEvents _ y) (in_map _ xs y Hy)).
Qed.

End Errors.

(** ** Instances *)

Import NetDemo.Demo.

(** The provider whose data CQs hold [cq]. *)
Definition queueing (cq : Z -> list Wc) : Machine :=
  mkMachine params (acceptAll <| mrc_poll_cq := fun h q n =>
    match q with
    | DataCq d => Some (take (Z.to_nat n) (drop (Z.to_nat (polled h d)) (cq d)))
    | _ => Some []
    end |>).

Definition demoWc (st : wcStatus) : Wc := mkWc 5 st IBV_WC_RDMA_WRITE 0 0 0.

Definition demoItems : list SendItem :=
  [(0, sendReq 1000 0x5000, cts 2 0x9000 1); (1, sendReq 0 0x6000, cts 2 0xa000 2)].

Lemma demo_inflight : inflight (sender None) 5 sendComm row demoItems [1; 1; 0; 0; 0; 0; 0; 0].
Proof.
  constructor; try done.
  - intros d Hd. change (ndevs (base (sender None))) with 2 in Hd. zcases d; by do 2 eexists.
  - intros [|[|n]] x E; try done; by injection E as <-.
  - intros x [<-|[<-|[]]]; repeat (split; [done|]); intros d e E Hne;
      pose proof (zget_Some _ _ _ E) as Hd; change (length _) with 8%nat in Hd; cbn in Hd;
      assert (0 <= d < 8) as Hd' by lia; clear Hd; zcases d; try done; by injection E as <-.
  - by apply (bool_decide_unpack _); vm_compute.
Qed.

Definition oneEach (d : Z) : list Wc := if (d =? 0) || (d =? 1) then [demoWc IBV_WC_SUCCESS] else [].

Lemma test_reports_send_witness :
  exists s', @ncclIbTest (queueing oneEach) 3 0 true (sender None) = (Done (IsDone [1000]), s')
    /\ tail s' = SendTail (sendDone sendComm 5 2).
Proof.
  assert (forall d, Forall (slotCompletion 5) (oneEach d)) as Hg.
  { intros d. unfold oneEach. case_match; repeat constructor; done. }
  assert (forall d, 0 <= d < 2 -> zget [1; 1; 0; 0; 0; 0; 0; 0] d = Some (remaining oneEach [] d)) as Hr
    by (intros d Hd; by zcases d).
  destruct (@test_reports_send (queueing oneEach) (sender None) 5 sendComm row demoItems
    [1; 1; 0; 0; 0; 0; 0; 0] oneEach 2 (0, sendReq 1000 0x5000, cts 2 0x9000 1) true 3
    demo_inflight (or_introl eq_refl) eq_refl (conj eq_refl eq_refl) (fun h d n => eq_refl) Hg) as (s' & Hdone & _).
  - intros d Hd. rewrite (Hr d Hd). eexists. split; [reflexivity|]. change (ndevs (base (sender None))) with 2 in Hd.
    by zcases d.
  - intros d Hd. change (2 <= d < 8) in Hd. assert (0 <= d < 8) as Hd' by lia. zcases d; try done; lia.
  - done.
  - exists s'. destruct (Hdone Hr) as (E & Et & _). split; [exact E|exact Et].
Defined.

Lemma failed_completion_reported_witness :
  exists s', @ncclIbTest (queueing (fun d => [demoWc IBV_WC_SUCCESS; demoWc IBV_WC_RETRY_EXC_ERR])) 3 0 true (sender None)
    = (Fail ncclRemoteError, s').
Proof.
  assert (Forall (slotCompletion 5) [demoWc IBV_WC_SUCCESS]) as Hg by (by repeat constructor).
  assert (forall d', 0 <= d' < 0 -> zget [1; 1; 0; 0; 0; 0; 0; 0] d' = Some 0) as Hz by lia.
  assert (0 <= 0 < ndevs (base (sender None))) as Hd by (cbn; lia).
  destruct (@failed_completion_reported (queueing (fun d => [demoWc IBV_WC_SUCCESS; demoWc IBV_WC_RETRY_EXC_ERR]))
    (sender None) 5 sendComm row demoItems [1; 1; 0; 0; 0; 0; 0; 0] (0, sendReq 1000 0x5000, cts 2 0x9000 1) true 2 0 1
    [demoWc IBV_WC_SUCCESS] (demoWc IBV_WC_RETRY_EXC_ERR) [] demo_inflight (or_introl eq_refl) Hd Hz eq_refl
    eq_refl eq_refl Hg) as (s' & E & _); [by cbn; lia|done|done|].
  exists s'. exact E.
Defined.
