(* ===== verification/RegCache.v ===== *)
(** * Transport: memory registration ([reg.cc])

    Every device keeps a cache of its registered regions: an array of [capacity]
    cells, the first [population] of them in use, each with the number of handles
    that were given out for it.  The caches of all devices are one state, since
    [ncclIbDevs] is global; every access of the code is under the mutex of the
    device, so a call is one step.  The verbs library is a parameter: what
    registering and deregistering return may depend on everything done before. *)

From S2P Require Import Prelude NetBase.

Open Scope Z_scope.
Open Scope nccl_scope.

Definition MrPtr : Type := Z.
Definition PdPtr : Type := Z.

Record ncclIbMr := mkIbMr { mr_addr : Z; mr_pages : Z; mr_refs : Z; mr_mr : MrPtr }.

Record ncclIbMrCache := mkIbMrCache
  { slots : list ncclIbMr; capacity : Z; population : Z }.

(** The part of [ncclIbDev] that registration uses. *)
Record RegDev := mkRegDev { mrCache : ncclIbMrCache; dataDirect : bool }.

(** The four ways of registering, with the arguments the code passes. *)
Inductive RegCall : Type :=
  | ibv_reg_mr (pd : PdPtr) (addr len flags : Z)
  | ibv_reg_mr_iova2 (pd : PdPtr) (addr len iova flags : Z)
  | ibv_reg_dmabuf_mr (pd : PdPtr) (offset len iova fd flags : Z)
  | mlx5dv_reg_dmabuf_mr (pd : PdPtr) (offset len iova fd flags mlx5_access : Z).

Inductive RegEvent : Type :=
  | Registered (dev : Z) (c : RegCall) (mr : MrPtr)
  | Deregistered (dev : Z) (mr : MrPtr).

Record RegState := mkRegState { rdevs : list RegDev; rhist : list RegEvent }.

#[export] Instance ncclIbMr_eq_dec : EqDecision ncclIbMr.
Proof. solve_decision. Defined.
#[export] Instance eta_ncclIbMr : Eta ncclIbMr := fun r =>
  mkIbMr (mr_addr r) (mr_pages r) (mr_refs r) (mr_mr r).
#[export] Instance eta_ncclIbMrCache : Eta ncclIbMrCache := fun r =>
  mkIbMrCache (slots r) (capacity r) (population r).
#[export] Instance eta_RegDev : Eta RegDev := fun r => mkRegDev (mrCache r) (dataDirect r).
#[export] Instance eta_RegState : Eta RegState := fun r => mkRegState (rdevs r) (rhist r).

(** The verbs library, the operating system and the configuration. *)
Class RegMachine := mkRegMachine
  { pageSize : Z;
    ncclIbRelaxedOrderingEnabled : bool;
    IBV_ACCESS_LOCAL_WRITE : Z;
    IBV_ACCESS_REMOTE_WRITE : Z;
    IBV_ACCESS_REMOTE_READ : Z;
    IBV_ACCESS_REMOTE_ATOMIC : Z;
    IBV_ACCESS_RELAXED_ORDERING : Z;
    reg_mr : list RegEvent -> RegCall -> option MrPtr;
    dereg_mr : list RegEvent -> MrPtr -> bool;
    malloc_ok : list RegEvent -> Z -> bool }.

Definition NCCL_NET_MR_FLAG_FORCE_SO : Z := Z.shiftl 1 0.
Definition MLX5DV_REG_DMABUF_ACCESS_DATA_DIRECT : Z := Z.shiftl 1 0.

Abbreviation reg := (comp RegState).

(** ** Memory *)

(** [memmove] of [n] cells inside one array. *)
Definition memmove {A} (l : list A) (dst src n : Z) : option (list A) :=
  if decide (0 <= n /\ 0 <= dst /\ 0 <= src
             /\ dst + n <= Z.of_nat (length l) /\ src + n <= Z.of_nat (length l))
  then Some (take (Z.to_nat dst) l ++ take (Z.to_nat n) (drop (Z.to_nat src) l)
             ++ drop (Z.to_nat (dst + n)) l)
  else None.

(** An [int] result: arithmetic that leaves the type has no meaning. *)
Definition toInt (x : Z) : option Z :=
  if decide (- 2 ^ 31 <= x < 2 ^ 31) then Some x else None.

(** The cells [calloc]ed by [ncclRealloc]. *)
Definition zeroMr : ncclIbMr := mkIbMr 0 0 0 0.

Section Registration.
Context `{M : RegMachine}.

Definition getDev (d : Z) : reg RegDev :=
let* s := getS in of_option (zget (rdevs s) d).

Definition setCache (d : Z) (c : ncclIbMrCache) : reg unit :=
let* dev := getDev d in
modify (fun s => s <| rdevs := zupd (rdevs s) d (dev <| mrCache := c |>) |>).

Definition wrap_reg (d : Z) (c : RegCall) : reg MrPtr :=
let* s := getS in
match reg_mr (rhist s) c with
| Some mr => modify (fun s => s <| rhist := rhist s ++ [Registered d c mr] |>) ;;; ret mr
| None => fail ncclSystemError
end.

Definition wrap_ibv_dereg_mr (d : Z) (mr : MrPtr) : reg unit :=
let* s := getS in
if dereg_mr (rhist s) mr
then modify (fun s => s <| rhist := rhist s ++ [Deregistered d mr] |>)
else fail ncclSystemError.

(** [ncclRealloc(&cache->slots, oldNelem, nelem)] of [alloc.h]: the array it
leaves behind, or the code it returns. *)
Definition ncclRealloc (hist : list RegEvent) (old : list ncclIbMr) (oldNelem nelem : Z)
: list ncclIbMr + ncclResult_t :=
if (nelem <? oldNelem) || ((length old =? 0)%nat && (0 <? oldNelem)) then inr ncclInternalError
else if nelem =? oldNelem then inl old
else if malloc_ok hist nelem
then inl (take (Z.to_nat oldNelem) old ++ replicate (Z.to_nat (nelem - oldNelem)) zeroMr)
else inr ncclSystemError.

(** ** [ncclIbRegMrDmaBufInternal2] *)

(** The first address of the page of [data], and the number of pages from
there that hold [size] bytes. *)
Definition regAddr (data : Z) : Z := Z.land data (u64 (- pageSize)).
Definition regPages (data size : Z) : Z :=
u64 (data + size - regAddr data + pageSize - 1) / pageSize.

Inductive Lookup : Type :=
| NotFound (slot : Z)
| Found (slot : Z).

(** The loop over the slots, from [slot] with [n] turns left. *)
Fixpoint lookupSlot (c : ncclIbMrCache) (addr pages : Z) (n : nat) (slot : Z) : option Lookup :=
match n with
| O => None
| S n' =>
if slot =? population c then Some (NotFound slot) else
e ← zget (slots c) slot;
if addr <? mr_addr e then Some (NotFound slot) else
if u64 ((addr - mr_addr e) / pageSize + pages) <=? mr_pages e then Some (Found slot) else
lookupSlot c addr pages n' (slot + 1)
end.

Definition lookup (c : ncclIbMrCache) (addr pages : Z) : option Lookup :=
lookupSlot c addr pages (S (Z.to_nat (population c))) 0.

(** "must grow cache": the capacity is written before the array is there. *)
Definition growCache (d : Z) : reg unit :=
let* dev := getDev d in
let c := mrCache dev in
if population c =? capacity c then
let* cap := of_option (if capacity c <? 32 then Some 32 else toInt (2 * capacity c)) in
setCache d (c <| capacity := cap |>) ;;;
let* s := getS in
match ncclRealloc (rhist s) (slots c) (population c) cap with
| inl l => setCache d (c <| capacity := cap |> <| slots := l |>)
| inr r => fail r
end
else ret tt.

(** The registration call for the region. *)
Definition regCall (dd : bool) (pd : PdPtr) (addr pages offset fd mrFlags : Z) : RegCall :=
let flags := Z.lor (Z.lor (Z.lor IBV_ACCESS_LOCAL_WRITE IBV_ACCESS_REMOTE_WRITE)
IBV_ACCESS_REMOTE_READ) IBV_ACCESS_REMOTE_ATOMIC in
let relaxedOrdering :=
ncclIbRelaxedOrderingEnabled && (Z.land mrFlags NCCL_NET_MR_FLAG_FORCE_SO =? 0) in
let flags := if relaxedOrdering then Z.lor flags IBV_ACCESS_RELAXED_ORDERING else flags in
let len := u64 (pages * pageSize) in
if negb (fd =? -1) then
if negb dd then ibv_reg_dmabuf_mr pd offset len addr fd flags
else mlx5dv_reg_dmabuf_mr pd offset len addr fd flags MLX5DV_REG_DMABUF_ACCESS_DATA_DIRECT
else if relaxedOrdering then ibv_reg_mr_iova2 pd addr len addr flags
else ibv_reg_mr pd addr len flags.

(** The registered region becomes slot [slot]; the ones from there on move up. *)
Definition insertSlot (c : ncclIbMrCache) (slot : Z) (e : ncclIbMr) : option ncclIbMrCache :=
l ← (if negb (slot =? population c)
 then memmove (slots c) (slot + 1) slot (population c - slot)
 else Some (slots c));
l' ← zset l slot e;
p ← toInt (population c + 1);
Some (c <| slots := l' |> <| population := p |>).

(** [base] is the device with its protection domain. *)
Definition ncclIbRegMrDmaBufInternal2 (base : Z * PdPtr) (data size offset fd mrFlags : Z)
: reg MrPtr :=
let (d, pd) := base in
let addr := regAddr data in
let pages := regPages data size in
let* dev := getDev d in
let* r := of_option (lookup (mrCache dev) addr pages) in
match r with
| NotFound slot =>
growCache d ;;;
let* mr := wrap_reg d (regCall (dataDirect dev) pd addr pages offset fd mrFlags) in
let* dev := getDev d in
let* c := of_option (insertSlot (mrCache dev) slot (mkIbMr addr pages 1 mr)) in
setCache d c ;;;
ret mr
| Found slot =>
let c := mrCache dev in
let* e := of_option (zget (slots c) slot) in
let* n := of_option (toInt (mr_refs e + 1)) in
setCache d (c <| slots := zupd (slots c) slot (e <| mr_refs := n |>) |>) ;;;
ret (mr_mr e)
end.

(** ** [ncclIbDeregMrInternal] *)

Fixpoint findMr (c : ncclIbMrCache) (mr : MrPtr) (n : nat) (i : Z) : option (option Z) :=
match n with
| O => Some None
| S n' =>
e ← zget (slots c) i;
if mr =? mr_mr e then Some (Some i) else findMr c mr n' (i + 1)
end.

(** The last slot takes the place of slot [i]; an empty cache frees its array. *)
Definition removeSlot (c : ncclIbMrCache) (i : Z) : option ncclIbMrCache :=
let p := population c - 1 in
l ← memmove (slots c) i p 1;
Some (if p =? 0 then mkIbMrCache [] 0 0 else c <| slots := l |> <| population := p |>).

Definition ncclIbDeregMrInternal (base : Z * PdPtr) (mhandle : MrPtr) : reg unit :=
let (d, _) := base in
let* dev := getDev d in
let c := mrCache dev in
let* found := of_option (findMr c mhandle (Z.to_nat (population c)) 0) in
match found with
| None => fail ncclInternalError
| Some i =>
let* e := of_option (zget (slots c) i) in
let* n := of_option (toInt (mr_refs e - 1)) in
let c := c <| slots := zupd (slots c) i (e <| mr_refs := n |>) |> in
if n =? 0 then
let* c' := of_option (removeSlot c i) in
setCache d c' ;;;
wrap_ibv_dereg_mr d mhandle
else setCache d c
end.

(** ** The interface: a communicator is the list of its devices

A handle is the region of each device. *)

Definition ncclIbRegMrDmaBufInternal (base : list (Z * PdPtr)) (data size offset fd mrFlags : Z)
: reg (list MrPtr) :=
if size =? 0 then fail ncclInternalError else
mapM (fun devComm => ncclIbRegMrDmaBufInternal2 devComm data size offset fd mrFlags) base.

Definition ncclIbRegMrDmaBuf (comm : list (Z * PdPtr)) (data size offset fd : Z) : reg (list MrPtr) :=
ncclIbRegMrDmaBufInternal comm data size offset fd 0.

Definition ncclIbRegMr (comm : list (Z * PdPtr)) (data size : Z) : reg (list MrPtr) :=
ncclIbRegMrDmaBufInternal comm data size 0 (-1) 0.

Fixpoint deregAll (base : list (Z * PdPtr)) (mrs : list MrPtr) : reg unit :=
match base, mrs with
| [], _ => ret tt
| devComm :: base', mr :: mrs' =>
ncclIbDeregMrInternal devComm mr ;;; deregAll base' mrs'
| _, [] => fault
end.

Definition ncclIbDeregMr (comm : list (Z * PdPtr)) (mhandle : option (list MrPtr)) : reg unit :=
match mhandle with
| None => ret tt
| Some mrs => deregAll comm mrs
end.

End Registration.
