(* ===== verification/RegSpec.v ===== *)
(** * Transport: one registration cache

    What the operations on the cache of a device compute: the shifting of the
    cells, the two searches, and every outcome of a registration ([RegResult]) and
    of a deregistration ([DeregResult]). *)

From S2P Require Import Prelude NetBase RegCache.

Open Scope Z_scope.
Open Scope nccl_scope.

(** ** The cells of an array *)

Section Cells.
Context {A : Type}.
Implicit Types (l : list A).

Lemma memmove_up l (i n : nat) l' :
(i <= n)%nat ->
memmove l (Z.of_nat i + 1) (Z.of_nat i) (Z.of_nat n - Z.of_nat i) = Some l' ->
(n < length l)%nat /\
l' = take (i + 1) l ++ take (n - i) (drop i l) ++ drop (n + 1) l.
Proof.
intros Hin. unfold memmove. case_decide as H; [|done]. intros [= <-]. split; [lia|].
repeat f_equal; lia.
Qed.

Lemma take_insert_gap l (i n : nat) (e : A) :
(i <= n)%nat -> (n < length l)%nat ->
take (n + 1) (<[i := e]> (take (i + 1) l ++ take (n - i) (drop i l) ++ drop (n + 1) l))
= take i (take n l) ++ e :: drop i (take n l).
Proof.
intros Hi Hn. apply list_eq. intros k.
destruct (decide (k < n + 1)%nat) as [Hk|Hk].
2:{ rewrite !(proj2 (lookup_ge_None _ _)); [done|..];
rewrite ?length_app, ?length_take; cbn; rewrite ?length_drop, ?length_take; lia. }
rewrite lookup_take_lt by lia.
destruct (decide (k = i)) as [->|Hne].
- rewrite list_lookup_insert_eq by (rewrite !length_app, !length_take, !length_drop; lia).
rewrite lookup_app_r by (rewrite !length_take; lia).
rewrite !length_take. now replace (i - (i `min` (n `min` length l)))%nat with 0%nat by lia.
- rewrite list_lookup_insert_ne by done.
destruct (decide (k < i)%nat).
+ rewrite lookup_app_l by (rewrite length_take; lia).
rewrite lookup_take_lt by lia.
rewrite lookup_app_l by (rewrite !length_take; lia).
now rewrite !lookup_take_lt by lia.
+ rewrite lookup_app_r by (rewrite length_take; lia). rewrite length_take.
rewrite lookup_app_l by (rewrite length_take, length_drop; lia).
rewrite lookup_take_lt by lia. rewrite lookup_drop.
rewrite lookup_app_r by (rewrite !length_take; lia). rewrite !length_take.
replace (k - i `min` (n `min` length l))%nat with (S (k - i - 1))%nat by lia.
rewrite lookup_cons, lookup_drop, lookup_take_lt by lia. f_equal. lia.
Qed.

Lemma memmove_last l (i n : nat) l' x :
(i <= n)%nat -> (n < length l)%nat -> l !! i = Some x ->
memmove l (Z.of_nat i) (Z.of_nat n) 1 = Some l' ->
length l' = length l /\ take (n + 1) l ≡ₚ x :: take n l'.
Proof.
intros Hi Hn Hx. unfold memmove. case_decide as H; [|lia]. intros [= <-].
rewrite !Nat2Z.id. replace (Z.to_nat (Z.of_nat i + 1)) with (i + 1)%nat by lia.
change (Z.to_nat 1) with 1%nat.
split; [rewrite !length_app, !length_take, !length_drop; lia|].
destruct (lookup_lt_is_Some_2 l n Hn) as [y Hy].
rewrite (drop_S _ _ _ Hy). cbn [take]. rewrite take_0.
assert (take (n + 1) l = take n l ++ [y]) as -> by
(replace (n + 1)%nat with (S n) by lia; now apply take_S_r).
destruct (decide (i = n)) as [->|Hne].
- assert (x = y) as -> by congruence. rewrite take_app_le by (rewrite length_take; lia).
rewrite take_take, Nat.min_id. symmetry. apply Permutation_cons_append.
- rewrite take_app, take_take, length_take.
replace (n `min` i)%nat with i by lia. replace (n - i `min` length l)%nat with (S (n - i - 1)) by lia.
cbn [app take].
assert (take n l = take i l ++ x :: take (n - i - 1) (drop (i + 1) l)) as ->.
{ rewrite <- (take_drop i (take n l)) at 1. rewrite take_take, Nat.min_l by lia. f_equal.
rewrite (drop_S _ x) by (now rewrite lookup_take_lt by lia). f_equal.
rewrite skipn_firstn_comm. f_equal; [lia|]. f_equal. lia. }
rewrite <- app_assoc. cbn.
rewrite <- Permutation_middle. constructor.
apply Permutation_app_head. symmetry. apply Permutation_cons_append.
Qed.
End Cells.

(** ** One cache *)

(** The cells in use. *)
Definition live (c : ncclIbMrCache) : list ncclIbMr := take (Z.to_nat (population c)) (slots c).

Record cache_wf (c : ncclIbMrCache) : Prop := mkCacheWf
  { wf_population : 0 <= population c <= capacity c;
    wf_array : Z.of_nat (length (slots c)) = capacity c;
    wf_capacity : capacity c < 2 ^ 31 }.

Lemma length_live c : cache_wf c -> Z.of_nat (length (live c)) = population c.
Proof. intros []. unfold live. rewrite length_take. lia. Qed.

Lemma live_lookup c (i : nat) :
  cache_wf c -> live c !! i = if decide (Z.of_nat i < population c) then zget (slots c) (Z.of_nat i) else None.
Proof.
  intros []. unfold live. rewrite zget_lookup. case_decide.
  - apply lookup_take_lt. lia.
  - apply lookup_take_ge. lia.
Qed.

Lemma live_cell c (i : nat) e :
  cache_wf c -> live c !! i = Some e ->
  Z.of_nat i < population c /\ zget (slots c) (Z.of_nat i) = Some e.
Proof. intros W H. rewrite live_lookup in H by done. now case_decide. Qed.

Lemma live_upd c (i : nat) e :
  cache_wf c -> live (c <| slots := zupd (slots c) (Z.of_nat i) e |>) = <[i := e]> (live c).
Proof.
  intros []. unfold live. cbn. unfold zupd. rewrite decide_True by lia. rewrite Nat2Z.id.
  apply list_eq. intros k. destruct (decide (k = i)) as [->|].
  - destruct (decide (i < Z.to_nat (population c))%nat).
    + rewrite lookup_take_lt by lia. rewrite !list_lookup_insert_eq; rewrite ?length_take; [done|lia..].
    + rewrite lookup_take_ge by lia. symmetry. apply lookup_ge_None.
      rewrite length_insert, length_take. lia.
  - rewrite list_lookup_insert_ne by done. destruct (decide (k < Z.to_nat (population c))%nat).
    + rewrite !lookup_take_lt by lia. now rewrite list_lookup_insert_ne.
    + now rewrite !lookup_take_ge by lia.
Qed.

Lemma wf_upd c i e : cache_wf c -> cache_wf (c <| slots := zupd (slots c) i e |>).
Proof. intros []. split; cbn; rewrite ?length_zupd; done. Qed.

Lemma insertSlot_spec c (i : nat) e :
  cache_wf c -> population c < capacity c -> Z.of_nat i <= population c ->
  exists c', insertSlot c (Z.of_nat i) e = Some c' /\ cache_wf c' /\
    live c' = take i (live c) ++ e :: drop i (live c).
Proof.
  intros [] Hp Hi. unfold insertSlot.
  set (n := Z.to_nat (population c)).
  assert (exists l, (if negb (Z.of_nat i =? population c)
     then memmove (slots c) (Z.of_nat i + 1) (Z.of_nat i) (population c - Z.of_nat i)
     else Some (slots c)) = Some l /\ length l = length (slots c) /\
     take (n + 1) (<[i := e]> l) = take i (take n (slots c)) ++ e :: drop i (take n (slots c)))
    as (l & -> & Hl & Htk).
  { case_match eqn:E.
    - destruct (memmove (slots c) (Z.of_nat i + 1) (Z.of_nat i) (population c - Z.of_nat i)) as [l|] eqn:Em.
      + exists l. replace (population c) with (Z.of_nat n) in Em by lia.
        apply memmove_up in Em as [? ->]; [|lia]. split; [done|].
        split; [rewrite !length_app, !length_take, !length_drop; lia|].
        apply take_insert_gap; lia.
      + unfold memmove in Em. case_decide; [done|lia].
    - exists (slots c). split; [done|]. split; [done|].
      assert (i = n) as -> by lia.
      rewrite take_take, Nat.min_id, drop_ge by (rewrite length_take; lia).
      rewrite (take_S_r _ n e) || (replace (n + 1)%nat with (S n) by lia; rewrite (take_S_r _ n e)).
      + now rewrite take_insert_ge by lia.
      + apply list_lookup_insert_eq. lia. }
  cbn. rewrite zset_is_Some by lia. cbn.
  unfold toInt. rewrite decide_True by lia. cbn. eexists. split; [done|].
  split; [split; cbn; rewrite ?length_zupd; lia|].
  unfold live. cbn. replace (Z.to_nat (population c + 1)) with (n + 1)%nat by lia.
  unfold zupd. rewrite decide_True, Nat2Z.id by lia. done.
Qed.

Lemma removeSlot_spec c (i : nat) x :
  cache_wf c -> live c !! i = Some x ->
  exists c', removeSlot c (Z.of_nat i) = Some c' /\ cache_wf c' /\ live c ≡ₚ x :: live c'.
Proof.
  intros W Hx. pose proof W as []. pose proof (live_cell _ _ _ W Hx) as [Hi Hc].
  rewrite zget_lookup in Hc. unfold removeSlot.
  set (n := Z.to_nat (population c - 1)).
  replace (population c - 1) with (Z.of_nat n) by lia.
  destruct (memmove (slots c) (Z.of_nat i) (Z.of_nat n) 1) as [l|] eqn:Em.
  2:{ unfold memmove in Em. case_decide; [done|lia]. }
  pose proof (memmove_last (slots c) i n l x ltac:(lia) ltac:(lia) Hc Em) as [Hl Hp].
  cbn. eexists. split; [done|].
  assert (live c = take (n + 1) (slots c)) as E by (unfold live; f_equal; lia).
  case_match eqn:En.
  - split; [split; cbn; lia|]. rewrite E, Hp. replace n with 0%nat by lia. rewrite take_0. done.
  - split; [split; cbn; lia|]. rewrite E, Hp. unfold live. cbn. now rewrite Nat2Z.id.
Qed.

(** ** Searching *)

Section Search.
Context `{M : RegMachine}.

(** The comparison of the code: slot [e] holds [pages] pages from [addr] on. *)
Definition covers (addr pages : Z) (e : ncclIbMr) : bool :=
(mr_addr e <=? addr) && (u64 ((addr - mr_addr e) / pageSize + pages) <=? mr_pages e).

Definition lookup_ok (c : ncclIbMrCache) (addr pages : Z) (r : Lookup) : Prop :=
match r with
| Found i => exists k e, i = Z.of_nat k /\ live c !! k = Some e /\ covers addr pages e = true
| NotFound i => exists k, i = Z.of_nat k /\ i <= population c /\
(forall j e, (j < k)%nat -> live c !! j = Some e -> mr_addr e <= addr /\ covers addr pages e = false) /\
(forall e, live c !! k = Some e -> addr < mr_addr e)
end.

Lemma lookupSlot_ok c addr pages n (k : nat) :
cache_wf c -> Z.of_nat k + Z.of_nat n = population c + 1 -> (0 < n)%nat ->
(forall j e, (j < k)%nat -> live c !! j = Some e -> mr_addr e <= addr /\ covers addr pages e = false) ->
exists r, lookupSlot c addr pages n (Z.of_nat k) = Some r /\ lookup_ok c addr pages r.
Proof.
intros W. pose proof (length_live _ W) as Hlen. revert k.
induction n as [|n IH]; intros k Hn Hpos Hj; [lia|]. cbn [lookupSlot].
destruct (Z.eqb_spec (Z.of_nat k) (population c)) as [Hk|Hk].
{ eexists. split; [done|]. exists k. split; [done|]. split; [lia|]. split; [done|].
intros e [? _]%live_cell; [lia|done]. }
destruct (lookup_lt_is_Some_2 (live c) k) as [e He]; [lia|].
destruct (live_cell _ _ _ W He) as [_ ->]. cbn.
destruct (Z.ltb_spec addr (mr_addr e)).
{ eexists. split; [done|]. exists k. split; [done|]. split; [lia|]. split; [done|].
intros e' He'. congruence. }
case_match eqn:Ec.
- eexists. split; [done|]. exists k, e. split; [done|]. split; [done|].
unfold covers. rewrite Ec. rewrite (proj2 (Z.leb_le _ _)) by done. done.
- replace (Z.of_nat k + 1) with (Z.of_nat (S k)) by lia. apply IH; [lia..|].
intros j e' Hjk He'. destruct (decide (j = k)) as [->|]; [|apply (Hj j); [lia|done]].
assert (e' = e) as -> by congruence. split; [done|]. unfold covers. rewrite Ec.
apply andb_false_r.
Qed.

Lemma lookup_found_or_not c addr pages :
cache_wf c -> exists r, lookup c addr pages = Some r /\ lookup_ok c addr pages r.
Proof.
intros W. pose proof W as []. apply (lookupSlot_ok c addr pages (S (Z.to_nat (population c))) 0); [done|lia|lia|].
intros j e ?. lia.
Qed.

Lemma findMr_ok c mr n (k : nat) :
cache_wf c -> Z.of_nat k + Z.of_nat n = population c ->
(forall j e, (j < k)%nat -> live c !! j = Some e -> mr_mr e <> mr) ->
(exists i e, findMr c mr n (Z.of_nat k) = Some (Some (Z.of_nat i)) /\ live c !! i = Some e /\ mr_mr e = mr)
\/ (findMr c mr n (Z.of_nat k) = Some None /\ mr ∉ mr_mr <$> live c).
Proof.
intros W. pose proof (length_live _ W) as Hlen. revert k.
induction n as [|n IH]; intros k Hn Hj; cbn [findMr].
{ right. split; [done|]. intros (e & -> & (j & He)%list_elem_of_lookup)%list_elem_of_fmap.
pose proof (lookup_lt_Some _ _ _ He). apply (Hj j e); [lia|done|done]. }
destruct (lookup_lt_is_Some_2 (live c) k) as [e He]; [lia|].
destruct (live_cell _ _ _ W He) as [_ ->]. cbn.
destruct (Z.eqb_spec mr (mr_mr e)) as [->|Hne].
- left. exists k, e. done.
- replace (Z.of_nat k + 1) with (Z.of_nat (S k)) by lia. apply IH; [lia|].
intros j e' Hjk He'. destruct (decide (j = k)) as [->|]; [congruence|].
apply (Hj j); [lia|done].
Qed.

Lemma findMr_spec c mr :
cache_wf c ->
(exists i e, findMr c mr (Z.to_nat (population c)) 0 = Some (Some (Z.of_nat i))
 /\ live c !! i = Some e /\ mr_mr e = mr)
\/ (findMr c mr (Z.to_nat (population c)) 0 = Some None /\ mr ∉ mr_mr <$> live c).
Proof. intros W. pose proof W as []. apply (findMr_ok c mr _ 0); [done|lia|]. intros. lia. Qed.
End Search.

(** ** What the two operations of a device do *)

Definition withCache (s : RegState) (d : Z) (dev : RegDev) (c : ncclIbMrCache) : RegState :=
  s <| rdevs := zupd (rdevs s) d (dev <| mrCache := c |>) |>.

Definition logged (s : RegState) (e : RegEvent) : RegState := s <| rhist := rhist s ++ [e] |>.

Lemma rhist_logged s d dev c e : rhist (logged (withCache s d dev c) e) = rhist s ++ [e].
Proof. reflexivity. Qed.

Lemma setCache_run s d dev c :
  zget (rdevs s) d = Some dev -> setCache d c s = (Done tt, withCache s d dev c).
Proof. intros H. unfold setCache, getDev, bind, getS. now rewrite H. Qed.

Lemma getDev_run s d dev : zget (rdevs s) d = Some dev -> getDev d s = (Done dev, s).
Proof. intros H. unfold getDev, bind, getS. now rewrite H. Qed.

Lemma withCache_get s d dev c :
  zget (rdevs s) d = Some dev -> zget (rdevs (withCache s d dev c)) d = Some (dev <| mrCache := c |>).
Proof. intros H. apply zget_zupd_eq. now apply zget_Some in H. Qed.

Lemma withCache_same s d dev : zget (rdevs s) d = Some dev -> withCache s d dev (mrCache dev) = s.
Proof.
  intros H. unfold withCache. replace (dev <| mrCache := mrCache dev |>) with dev by now destruct dev.
  rewrite zupd_same by done. now destruct s.
Qed.

Lemma withCache_again s d dev c c' :
  withCache (withCache s d dev c) d (dev <| mrCache := c |>) c' = withCache s d dev c'.
Proof.
  unfold withCache. cbv [update eta]. cbn. now rewrite zupd_zupd.
Qed.

Section Operations.
Context `{M : RegMachine}.

Inductive RegResult (s : RegState) (d : Z) (pd : PdPtr) (data size offset fd fl : Z) (dev : RegDev)
: outcome MrPtr -> RegState -> Prop :=
| reg_hit i e n :
live (mrCache dev) !! i = Some e -> covers (regAddr data) (regPages data size) e = true ->
toInt (mr_refs e + 1) = Some n ->
RegResult s d pd data size offset fd fl dev (Done (mr_mr e))
(withCache s d dev ((mrCache dev) <| slots := zupd (slots (mrCache dev)) (Z.of_nat i) (e <| mr_refs := n |>) |>))
| reg_miss i mr c' :
let call := regCall (dataDirect dev) pd (regAddr data) (regPages data size) offset fd fl in
lookup_ok (mrCache dev) (regAddr data) (regPages data size) (NotFound (Z.of_nat i)) ->
reg_mr (rhist s) call = Some mr -> cache_wf c' ->
live c' = take i (live (mrCache dev))
++ mkIbMr (regAddr data) (regPages data size) 1 mr :: drop i (live (mrCache dev)) ->
RegResult s d pd data size offset fd fl dev (Done mr)
(logged (withCache s d dev c') (Registered d call mr))
| reg_refused c' :
cache_wf c' -> live c' = live (mrCache dev) ->
RegResult s d pd data size offset fd fl dev (Fail ncclSystemError) (withCache s d dev c')
| reg_overflow s' : RegResult s d pd data size offset fd fl dev Fault s'.

Lemma growCache_run (Hm : forall h n, malloc_ok h n = true) s d dev :
zget (rdevs s) d = Some dev -> cache_wf (mrCache dev) ->
(exists s', growCache d s = (Fault, s')) \/
(exists c', growCache d s = (Done tt, withCache s d dev c') /\ cache_wf c' /\
live c' = live (mrCache dev) /\ population c' = population (mrCache dev) /\
population c' < capacity c').
Proof.
intros H W. pose proof W as []. unfold growCache. rewrite (bind_step _ _ _ _ _ (getDev_run _ _ _ H)).
cbn zeta. case_match eqn:E.
2:{ right. exists (mrCache dev). rewrite withCache_same by done. repeat split; try done; lia. }
set (c := mrCache dev) in *.
destruct (if capacity c <? 32 then Some 32 else toInt (2 * capacity c)) as [cap|] eqn:Ecap;
[|left; eexists; done].
assert (capacity c < cap < 2 ^ 31) as Hcap.
{ case_match; [injection Ecap as <-; lia|]. unfold toInt in Ecap. case_decide; [|done].
injection Ecap as <-. lia. }
right. rewrite (bind_some _ _ _ _ eq_refl).
rewrite (bind_step _ _ _ _ _ (setCache_run _ _ _ _ H)).
nred.
unfold ncclRealloc.
rewrite (proj2 (Z.ltb_ge cap (population c))) by lia.
replace ((length (slots c) =? 0)%nat && (0 <? population c)) with false
by (destruct (Nat.eqb_spec (length (slots c)) 0); cbn; lia).
rewrite (proj2 (Z.eqb_neq cap (population c))) by lia. cbn [orb]. rewrite Hm.
eexists. split.
- rewrite (setCache_run _ _ _ _ (withCache_get _ _ _ _ H)), withCache_again. done.
- split; [split; cbn; rewrite ?length_app, ?length_take, ?length_replicate; lia|].
split; [|cbn; lia]. unfold live. cbn. rewrite take_app_le by (rewrite length_take; lia).
rewrite take_take, Nat.min_id. done.
Qed.

Lemma reg2_result (Hm : forall h n, malloc_ok h n = true) s d pd data size offset fd fl dev :
zget (rdevs s) d = Some dev -> cache_wf (mrCache dev) ->
RegResult s d pd data size offset fd fl dev
(fst (ncclIbRegMrDmaBufInternal2 (d, pd) data size offset fd fl s))
(snd (ncclIbRegMrDmaBufInternal2 (d, pd) data size offset fd fl s)).
Proof.
intros H W. cbn -[regAddr regPages lookup growCache insertSlot].
rewrite (bind_step _ _ _ _ _ (getDev_run _ _ _ H)).
destruct (lookup_found_or_not _ (regAddr data) (regPages data size) W) as (r & Er & Hr). rewrite (bind_some _ _ _ _ Er). destruct r as [slot|slot].
- destruct (growCache_run Hm s d dev H W) as [[s' E]|(c1 & E & W1 & L1 & P1 & Hp)].
{ unfold bind at 1 2. rewrite E. constructor. }
rewrite (bind_step _ _ _ _ _ E). unfold wrap_reg.
rewrite bind_assoc. nred.
destruct Hr as (k & -> & Hk & Hr). change (rhist (withCache s d dev c1)) with (rhist s).
destruct (reg_mr (rhist s) _) as [mr|] eqn:Emr.
2:{ cbn. now constructor. }
rewrite bind_assoc, (bind_step (modify _) _ _ _ _ eq_refl). nred.
erewrite bind_step; [|apply getDev_run, (withCache_get s d dev c1 H)].
destruct (insertSlot_spec c1 k (mkIbMr (regAddr data) (regPages data size) 1 mr) W1 Hp ltac:(lia))
as (c' & Ei & W' & L').
cbn [mrCache update]. change (mrCache (dev <| mrCache := c1 |>)) with c1. rewrite (bind_some _ _ _ _ Ei).
erewrite bind_step; [|apply setCache_run, (withCache_get s d dev c1 H)].
cbn [ret fst snd].
match goal with |- RegResult _ _ _ _ _ _ _ _ _ _ ?s' =>
replace s' with (logged (withCache s d dev c') (Registered d
(regCall (dataDirect dev) pd (regAddr data) (regPages data size) offset fd fl) mr)) end.
+ eapply reg_miss; [|done|done|]; [|now rewrite L', L1]. now exists k.
+ rewrite <- (withCache_again s d dev c1 c'). done.
- destruct Hr as (k & e & -> & He & Hc). destruct (live_cell _ _ _ W He) as [_ Hg].
rewrite (bind_some _ _ _ _ Hg).
destruct (toInt (mr_refs e + 1)) as [n|] eqn:En; [|constructor].
rewrite (bind_some _ _ _ _ eq_refl).
rewrite (bind_step _ _ _ _ _ (setCache_run _ _ _ _ H)). unfold ret. cbn [fst snd].
now apply (reg_hit s d pd data size offset fd fl dev k e n).
Qed.

Inductive DeregResult (s : RegState) (d : Z) (mr : MrPtr) (dev : RegDev)
: outcome unit -> RegState -> Prop :=
| dereg_unknown : mr ∉ mr_mr <$> live (mrCache dev) ->
DeregResult s d mr dev (Fail ncclInternalError) s
| dereg_shared i e n :
live (mrCache dev) !! i = Some e -> mr_mr e = mr -> toInt (mr_refs e - 1) = Some n -> n <> 0 ->
DeregResult s d mr dev (Done tt)
(withCache s d dev ((mrCache dev) <| slots := zupd (slots (mrCache dev)) (Z.of_nat i) (e <| mr_refs := n |>) |>))
| dereg_last i e c' :
live (mrCache dev) !! i = Some e -> mr_mr e = mr -> mr_refs e = 1 ->
cache_wf c' -> live (mrCache dev) ≡ₚ e :: live c' -> dereg_mr (rhist s) mr = true ->
DeregResult s d mr dev (Done tt)
(logged (withCache s d dev c') (Deregistered d mr))
| dereg_refused i e c' :
live (mrCache dev) !! i = Some e -> mr_mr e = mr -> mr_refs e = 1 ->
cache_wf c' -> live (mrCache dev) ≡ₚ e :: live c' -> dereg_mr (rhist s) mr = false ->
DeregResult s d mr dev (Fail ncclSystemError) (withCache s d dev c')
| dereg_overflow i e :
live (mrCache dev) !! i = Some e -> mr_mr e = mr -> toInt (mr_refs e - 1) = None ->
DeregResult s d mr dev Fault s.

Lemma dereg_result s d pd mr dev :
zget (rdevs s) d = Some dev -> cache_wf (mrCache dev) ->
DeregResult s d mr dev (fst (ncclIbDeregMrInternal (d, pd) mr s)) (snd (ncclIbDeregMrInternal (d, pd) mr s)).
Proof.
intros H W. unfold ncclIbDeregMrInternal.
rewrite (bind_step _ _ _ _ _ (getDev_run _ _ _ H)). cbn zeta.
destruct (findMr_spec (mrCache dev) mr W) as [(i & e & -> & He & Hmr)|[-> Hn]].
2:{ now constructor. }
rewrite (bind_some _ _ _ _ eq_refl). cbv iota.
destruct (live_cell _ _ _ W He) as [Hi Hg]. rewrite (bind_some _ _ _ _ Hg).
destruct (toInt (mr_refs e - 1)) as [n|] eqn:En; [|now apply (dereg_overflow s d mr dev i e)].
rewrite (bind_some _ _ _ _ eq_refl).
destruct (Z.eqb_spec n 0) as [->|Hn0].
2:{ rewrite (setCache_run _ _ _ _ H). now apply (dereg_shared s d mr dev i e n). }
assert (mr_refs e = 1) as Hone.
{ unfold toInt in En. case_decide; [|done]. injection En. lia. }
set (c1 := (mrCache dev) <| slots := _ |>).
assert (live c1 = <[i := e <| mr_refs := 0 |>]> (live (mrCache dev))) as L1 by now apply live_upd.
pose proof (lookup_lt_Some _ _ _ He) as Hlt.
destruct (removeSlot_spec c1 i (e <| mr_refs := 0 |>)) as (c' & -> & W' & Hp).
{ now apply wf_upd. }
{ rewrite L1. now apply list_lookup_insert_eq. }
assert (live (mrCache dev) ≡ₚ e :: live c') as Hp'.
{ apply (Permutation_app_inv_l [e <| mr_refs := 0 |>]). cbn. rewrite perm_swap, <- Hp, L1.
rewrite <- (take_drop_middle _ _ _ He) at 1. rewrite insert_take_drop by done.
rewrite <- !Permutation_middle. apply perm_swap. }
rewrite (bind_some _ _ _ _ eq_refl). rewrite (bind_step _ _ _ _ _ (setCache_run _ _ _ _ H)).
unfold wrap_ibv_dereg_mr. nred.
change (rhist (withCache s d dev c')) with (rhist s).
destruct (dereg_mr (rhist s) mr) eqn:Ed; cbn.
- exact (dereg_last s d mr dev i e c' He Hmr Hone W' Hp' Ed).
- exact (dereg_refused s d mr dev i e c' He Hmr Hone W' Hp' Ed).
Qed.

End Operations.
