(* ===== verification/RegHandles.v ===== *)
(** * Transport: properties of memory registration

    The handles the callers hold are a multiset kept beside the caches; every
    sequence of registrations and deregistrations, whatever the verbs library
    answers, keeps the caches in step with it. *)

From S2P Require Import Prelude NetBase RegCache RegSpec.

Open Scope Z_scope.
Open Scope nccl_scope.

(** ** Handles *)

(** The regions registered with the library and not yet given back. *)
Definition alive (h : list RegEvent) : list (Z * MrPtr) :=
  fold_left (fun l ev => match ev with
                         | Registered d _ mr => (d, mr) :: l
                         | Deregistered d mr => filter (fun x => x <> (d, mr)) l
                         end) h [].

Lemma alive_snoc h ev :
  alive (h ++ [ev]) = match ev with
                      | Registered d _ mr => (d, mr) :: alive h
                      | Deregistered d mr => filter (fun x => x <> (d, mr)) (alive h)
                      end.
Proof. unfold alive. now rewrite fold_left_app. Qed.

Lemma filter_absent x (l : list (Z * MrPtr)) : x ∉ l -> filter (fun y => y <> x) l = l.
Proof.
  induction l as [|y l IH]; [done|]. intros [Hxy Hx]%not_elem_of_cons.
  rewrite filter_cons_True by congruence. now rewrite IH.
Qed.

(** The number of handles of region [mr] of device [d] among [held]. *)
Definition holders (held : list (Z * MrPtr)) (d : Z) (mr : MrPtr) : Z :=
  Z.of_nat (length (filter (fun x => x = (d, mr)) held)).

Lemma holders_cons held d mr d' mr' :
  holders ((d, mr) :: held) d' mr'
  = (if decide (d = d' /\ mr = mr') then 1 else 0) + holders held d' mr'.
Proof.
  unfold holders. rewrite filter_cons. case_decide as H; case_decide as H'; cbn [length].
  - lia.
  - destruct H'. now injection H as -> ->.
  - destruct H' as [-> ->]. done.
  - lia.
Qed.

Lemma holders_perm held held' d mr : held ≡ₚ held' -> holders held d mr = holders held' d mr.
Proof. intros H. unfold holders. now rewrite H. Qed.

Lemma holders_pos held d mr : 0 < holders held d mr <-> (d, mr) ∈ held.
Proof.
  unfold holders. split.
  - intros H. destruct (filter _ held) as [|x l] eqn:E; [cbn in H; lia|].
    assert (x ∈ filter (fun x => x = (d, mr)) held) as Hx by (rewrite E; left).
    apply list_elem_of_filter in Hx as [-> ?]. done.
  - intros H. assert ((d, mr) ∈ filter (fun x => x = (d, mr)) held) as Hx by now apply list_elem_of_filter.
    destruct (filter _ held); [now apply not_elem_of_nil in Hx|cbn; lia].
Qed.

(** The addresses a registration call makes accessible. *)
Definition callRange (c : RegCall) : Z * Z :=
  match c with
  | ibv_reg_mr _ addr len _ => (addr, len)
  | ibv_reg_mr_iova2 _ _ len iova _ => (iova, len)
  | ibv_reg_dmabuf_mr _ _ len iova _ _ => (iova, len)
  | mlx5dv_reg_dmabuf_mr _ _ len iova _ _ _ => (iova, len)
  end.

Section Handles.
Context `{M : RegMachine}.

Lemma regCall_range dd pd addr pages offset fd fl :
callRange (regCall dd pd addr pages offset fd fl) = (addr, u64 (pages * pageSize)).
Proof. unfold regCall. now repeat case_match. Qed.

(** Any sequence of calls on the devices: what succeeded, what failed and the
handles the callers hold; a handle is given back once, whatever that returns. *)
Inductive calls : RegState -> list (Z * MrPtr) -> Prop :=
| calls_init s :
rhist s = [] -> Forall (fun dev => mrCache dev = mkIbMrCache [] 0 0) (rdevs s) ->
calls s []
| calls_reg s held d pd data size offset fd fl mr s' :
calls s held ->
ncclIbRegMrDmaBufInternal2 (d, pd) data size offset fd fl s = (Done mr, s') ->
calls s' ((d, mr) :: held)
| calls_reg_failed s held base data size offset fd fl r s' :
calls s held ->
ncclIbRegMrDmaBufInternal2 base data size offset fd fl s = (Fail r, s') ->
calls s' held
| calls_dereg s held held' d pd mr o s' :
calls s held -> held ≡ₚ (d, mr) :: held' ->
ncclIbDeregMrInternal (d, pd) mr s = (o, s') ->
calls s' held'
| calls_dereg_other s held d pd mr o s' :
calls s held -> (d, mr) ∉ held ->
ncclIbDeregMrInternal (d, pd) mr s = (o, s') ->
calls s' held.

Record cache_ok (h : list RegEvent) (held : list (Z * MrPtr)) (d : Z) (c : ncclIbMrCache) : Prop :=
mkCacheOk
{ ok_wf : cache_wf c;
ok_distinct : NoDup (mr_mr <$> live c);
ok_refs : forall e, e ∈ live c -> 0 < mr_refs e < 2 ^ 31 /\ mr_refs e = holders held d (mr_mr e);
ok_held : forall mr, mr ∉ mr_mr <$> live c -> holders held d mr = 0;
ok_alive : forall e, e ∈ live c -> (d, mr_mr e) ∈ alive h;
ok_range : forall e, e ∈ live c -> exists call, Registered d call (mr_mr e) ∈ h /\
callRange call = (mr_addr e, u64 (mr_pages e * pageSize));
ok_shape : forall e, e ∈ live c -> exists data size,
mr_addr e = regAddr data /\ mr_pages e = regPages data size }.

Definition reg_ok (s : RegState) (held : list (Z * MrPtr)) : Prop :=
forall d dev, zget (rdevs s) d = Some dev -> cache_ok (rhist s) held d (mrCache dev).

Lemma cache_ok_frame h h' held held' d c :
cache_ok h held d c -> (forall mr, holders held' d mr = holders held d mr) ->
(forall mr, (d, mr) ∈ alive h -> (d, mr) ∈ alive h') -> (forall ev, ev ∈ h -> ev ∈ h') ->
cache_ok h' held' d c.
Proof.
intros [] Hh Ha Hs. split; auto.
- intros e He. rewrite Hh. auto.
- intros mr Hmr. rewrite Hh. auto.
- intros e He. destruct (ok_range0 e He) as (call & ? & ?). eauto.
Qed.

(** A cell is overwritten: the others keep their region. *)
Lemma insert_elem {A} (l : list A) i x y : y ∈ <[i := x]> l -> y = x \/ exists j, j <> i /\ l !! j = Some y.
Proof.
intros (j & Hj)%list_elem_of_lookup. destruct (decide (j = i)) as [->|Hne].
- left. pose proof (lookup_lt_Some _ _ _ Hj) as Hl. rewrite length_insert in Hl.
rewrite list_lookup_insert_eq in Hj by done. congruence.
- right. exists j. rewrite list_lookup_insert_ne in Hj by done. done.
Qed.

Lemma NoDup_key c i j e e' :
NoDup (mr_mr <$> live c) -> live c !! i = Some e -> live c !! j = Some e' -> mr_mr e = mr_mr e' -> i = j.
Proof.
intros Hn Hi Hj E. eapply NoDup_lookup; [done| |]; rewrite list_lookup_fmap, ?Hi, ?Hj; cbn; [done|].
now rewrite E.
Qed.

(** The number of references of one slot and its holders change together. *)
Lemma cache_ok_refs h held held' d c i e n :
cache_ok h held d c -> live c !! i = Some e -> 0 < n < 2 ^ 31 ->
holders held' d (mr_mr e) = n ->
(forall mr, mr <> mr_mr e -> holders held' d mr = holders held d mr) ->
cache_ok h held' d (c <| slots := zupd (slots c) (Z.of_nat i) (e <| mr_refs := n |>) |>).
Proof.
intros [] He Hn Hh Ho. set (c' := c <| slots := _ |>).
assert (live c' = <[i := e <| mr_refs := n |>]> (live c)) as L by now apply live_upd.
assert (mr_mr <$> live c' = mr_mr <$> live c) as Lm.
{ rewrite L, list_fmap_insert. apply list_insert_id. now rewrite list_lookup_fmap, He. }
assert (forall P : ncclIbMr -> Prop, P (e <| mr_refs := n |>) ->
(forall e', e' ∈ live c -> mr_mr e' <> mr_mr e -> P e') -> forall e', e' ∈ live c' -> P e') as Hall.
{ intros P H1 H2 e' He'. rewrite L in He'. apply insert_elem in He' as [->|(j & Hj & He')]; [done|].
apply H2; [now apply list_elem_of_lookup_2 in He'|]. intros E. apply Hj. now apply (NoDup_key c j i e' e). }
pose proof (list_elem_of_lookup_2 _ _ _ He) as Hin.
split.
- now apply wf_upd.
- now rewrite Lm.
- apply Hall; [cbn; lia|]. intros e' He' Hne. rewrite Ho by done. auto.
- intros mr. rewrite Lm. intros Hmr. rewrite Ho; [auto|]. intros ->. apply Hmr.
now apply list_elem_of_fmap_2.
- apply Hall; [now apply (ok_alive0 e)|]. auto.
- apply Hall; [now apply (ok_range0 e)|]. auto.
- apply Hall; [now apply (ok_shape0 e)|]. auto.
Qed.

(** A slot leaves the cache with its last holder. *)
Lemma cache_ok_remove h h' held held' d c c' e :
cache_ok h held d c -> live c ≡ₚ e :: live c' -> cache_wf c' ->
holders held' d (mr_mr e) = 0 ->
(forall mr, mr <> mr_mr e -> holders held' d mr = holders held d mr) ->
(forall mr, mr <> mr_mr e -> (d, mr) ∈ alive h -> (d, mr) ∈ alive h') -> (forall ev, ev ∈ h -> ev ∈ h') ->
cache_ok h' held' d c'.
Proof.
intros [] Hp W Hz Ho Ha Hs.
assert (NoDup (mr_mr <$> e :: live c')) as Hn by now rewrite <- Hp.
cbn in Hn. apply NoDup_cons in Hn as [Hne Hn].
assert (forall e', e' ∈ live c' -> e' ∈ live c /\ mr_mr e' <> mr_mr e) as Hin.
{ intros e' He'. split; [rewrite Hp; now right|]. intros E. apply Hne. rewrite <- E.
now apply list_elem_of_fmap_2. }
split; auto.
- intros e' [He' Hd]%Hin. rewrite Ho by done. auto.
- intros mr Hmr. destruct (decide (mr = mr_mr e)) as [->|]; [done|]. rewrite Ho by done.
apply ok_held0. rewrite Hp. cbn. now apply not_elem_of_cons.
- intros e' [He' Hd]%Hin. auto.
- intros e' [He' Hd]%Hin. destruct (ok_range0 e' He') as (call & ? & ?). eauto.
- intros e' [He' Hd]%Hin. auto.
Qed.

(** A new region enters the cache with one holder. *)
Lemma cache_ok_insert h held d c c' i e call :
cache_ok h held d c -> cache_wf c' -> live c' = take i (live c) ++ e :: drop i (live c) ->
mr_refs e = 1 -> mr_mr e ∉ (alive h).*2 -> callRange call = (mr_addr e, u64 (mr_pages e * pageSize)) ->
(exists data size, mr_addr e = regAddr data /\ mr_pages e = regPages data size) ->
cache_ok (h ++ [Registered d call (mr_mr e)]) ((d, mr_mr e) :: held) d c'.
Proof.
intros [] W L H1 Hf Hr Hsh.
assert (live c' ≡ₚ e :: live c) as Hp
by (rewrite L, <- Permutation_middle; now rewrite take_drop).
assert (mr_mr e ∉ mr_mr <$> live c) as Hnew.
{ intros (e' & E & He')%list_elem_of_fmap. apply Hf. rewrite E.
apply list_elem_of_fmap. exists (d, mr_mr e'). split; [done|]. auto. }
assert (forall P : ncclIbMr -> Prop, P e -> (forall e', e' ∈ live c -> mr_mr e' <> mr_mr e -> P e') ->
forall e', e' ∈ live c' -> P e') as Hall.
{ intros P HP HQ e'. rewrite Hp. intros [->|He']%elem_of_cons; [done|]. apply HQ; [done|].
intros E. apply Hnew. rewrite <- E. now apply list_elem_of_fmap_2. }
split; auto.
- rewrite Hp. cbn. now apply NoDup_cons.
- apply Hall.
+ rewrite holders_cons, decide_True, (ok_held0 _ Hnew) by done. lia.
+ intros e' He' Hne. rewrite holders_cons, decide_False, Z.add_0_l by (intros [_ E]; auto). auto.
- intros mr. rewrite Hp. cbn. rewrite not_elem_of_cons. intros [Hne Hmr].
rewrite holders_cons, decide_False, Z.add_0_l by (intros [_ E]; auto). auto.
- rewrite alive_snoc. apply Hall; [now left|]. intros e' He' _. right. auto.
- apply Hall.
+ exists call. split; [|done]. apply elem_of_app. right. now left.
+ intros e' He' _. destruct (ok_range0 e' He') as (call' & ? & ?). exists call'.
split; [|done]. apply elem_of_app. now left.
- apply Hall; auto.
Qed.

(** Documented behaviour of the library: a new region is not one still registered. *)
Definition fresh_mrs : Prop :=
forall h c mr, reg_mr h c = Some mr -> mr ∉ (alive h).*2.

Lemma alive_snoc_other h d mr d' mr' :
(d', mr') ∈ alive h -> (d', mr') <> (d, mr) -> (d', mr') ∈ alive (h ++ [Deregistered d mr]).
Proof. intros H Hne. rewrite alive_snoc. now apply list_elem_of_filter. Qed.

(** Only the cache of device [d] changes. *)
Lemma reg_ok_with s held held' d dev c' h' :
reg_ok s held -> zget (rdevs s) d = Some dev ->
cache_ok h' held' d c' ->
(forall d' mr, d' <> d -> holders held' d' mr = holders held d' mr) ->
(forall d' mr, d' <> d -> (d', mr) ∈ alive (rhist s) -> (d', mr) ∈ alive h') ->
(forall ev, ev ∈ rhist s -> ev ∈ h') ->
reg_ok (mkRegState (zupd (rdevs s) d (dev <| mrCache := c' |>)) h') held'.
Proof.
intros Hok H Hc Hh Ha Hs d' dev' Hd. cbn in *. rewrite zget_zupd in Hd. case_decide as E.
- destruct E as [<- _]. injection Hd as <-. done.
- assert (d' <> d) as Hne.
{ intros ->. apply E. split; [done|]. now apply zget_Some in H. }
eapply cache_ok_frame; [now apply Hok|auto..].
Qed.

Lemma getDev_inv s d {A} (k : RegDev -> reg A) o s' :
bind (getDev d) k s = (o, s') -> o <> Fault -> exists dev, zget (rdevs s) d = Some dev.
Proof.
intros H Ho. unfold getDev, bind, getS in H. destruct (zget (rdevs s) d) as [dev|]; [eauto|].
cbn in H. now injection H as <- _.
Qed.

Lemma holders_cons_other held d mr d' mr' :
(d, mr) <> (d', mr') -> holders ((d, mr) :: held) d' mr' = holders held d' mr'.
Proof. intros H. rewrite holders_cons, decide_False; [lia|]. intros [-> ->]. done. Qed.

Lemma toInt_small x : 0 < x < 2 ^ 31 -> toInt (x - 1) = Some (x - 1).
Proof. intros. unfold toInt. now rewrite decide_True by lia. Qed.

(** The state of the caches after one call. *)
Lemma reg_ok_reg (Hf : fresh_mrs) s held d pd data size offset fd fl dev o s' :
reg_ok s held -> zget (rdevs s) d = Some dev ->
RegResult s d pd data size offset fd fl dev o s' ->
match o with
| Done mr => reg_ok s' ((d, mr) :: held)
| Fail _ => reg_ok s' held
| Fault => True
end.
Proof.
intros Hok H R. pose proof (Hok d dev H) as C. destruct R as [i e n He Hc Hn|i mr c' call Hl Hr W L|c' W L|s'].
- apply (reg_ok_with s held); auto; [|intros; apply holders_cons_other; congruence].
unfold toInt in Hn. case_decide; [|done]. injection Hn as <-.
destruct (ok_refs _ _ _ _ C e (list_elem_of_lookup_2 _ _ _ He)) as [Hp Hh].
eapply cache_ok_refs; [done|done|lia| |].
+ rewrite holders_cons, decide_True by done. lia.
+ intros mr Hne. apply holders_cons_other. congruence.
- apply (reg_ok_with s held); auto.
+ apply (cache_ok_insert (rhist s) held d (mrCache dev) c' i
(mkIbMr (regAddr data) (regPages data size) 1 mr) call); try done.
* now apply (Hf _ _ _ Hr).
* apply regCall_range.
* now exists data, size.
+ intros. apply holders_cons_other. congruence.
+ intros. rewrite alive_snoc. now right.
+ intros. apply elem_of_app. now left.
- apply (reg_ok_with s held); auto. destruct C. split; rewrite ?L; done.
- done.
Qed.

Lemma reg_ok_dereg s held held' d mr dev o s' :
reg_ok s held -> zget (rdevs s) d = Some dev -> held ≡ₚ (d, mr) :: held' ->
DeregResult s d mr dev o s' -> reg_ok s' held'.
Proof.
intros Hok H Hp R. pose proof (Hok d dev H) as C.
assert (forall d' mr', (d', mr') <> (d, mr) -> holders held' d' mr' = holders held d' mr') as Ho
by (intros; rewrite (holders_perm _ _ _ _ Hp), holders_cons_other; congruence).
assert (holders held d mr = 1 + holders held' d mr) as H1
by (rewrite (holders_perm _ _ _ _ Hp), holders_cons, decide_True; done).
assert (0 <= holders held' d mr) as Hpos by (unfold holders; lia).
assert (forall i e, live (mrCache dev) !! i = Some e -> mr_mr e = mr ->
0 < mr_refs e < 2 ^ 31 /\ mr_refs e = holders held d mr) as Hrefs.
{ intros i e He <-. apply (ok_refs _ _ _ _ C). now apply list_elem_of_lookup_2 in He. }
destruct R as [Hn|i e n He Hmr Hn Hn0|i e c' He Hmr Hone W L Hd|i e c' He Hmr Hone W L Hd|i e He Hmr Hi].
- apply (ok_held _ _ _ _ C) in Hn. lia.
- unfold toInt in Hn. case_decide; [|done]. injection Hn as <-.
specialize (Hrefs i e He Hmr). subst mr.
apply (reg_ok_with s held); auto; [|intros; apply Ho; congruence].
eapply cache_ok_refs; [done|done|lia|lia|]. intros. apply Ho. congruence.
- specialize (Hrefs i e He Hmr). subst mr. apply (reg_ok_with s held); auto.
+ eapply cache_ok_remove; [done|done|done|lia| | |]; [intros; apply Ho; congruence| |].
* intros. apply alive_snoc_other; [done|congruence].
* intros. apply elem_of_app. now left.
+ intros. apply Ho. congruence.
+ intros. apply alive_snoc_other; [done|congruence].
+ intros. apply elem_of_app. now left.
- specialize (Hrefs i e He Hmr). subst mr. apply (reg_ok_with s held); auto; [|intros; apply Ho; congruence].
eapply cache_ok_remove; [done|done|done|lia| |auto|auto]. intros; apply Ho; congruence.
- destruct (ok_refs _ _ _ _ C e (list_elem_of_lookup_2 _ _ _ He)) as [Hr _].
now rewrite (toInt_small _ Hr) in Hi.
Qed.

Lemma dereg_no_dev s d pd mr : zget (rdevs s) d = None -> ncclIbDeregMrInternal (d, pd) mr s = (Fault, s).
Proof. intros H. unfold ncclIbDeregMrInternal, getDev. rewrite bind_assoc. nred. now rewrite H. Qed.

Lemma live_held s held d dev e :
reg_ok s held -> zget (rdevs s) d = Some dev -> e ∈ live (mrCache dev) -> (d, mr_mr e) ∈ held.
Proof.
intros Hok H He. destruct (ok_refs _ _ _ _ (Hok _ _ H) e He). apply holders_pos. lia.
Qed.

Lemma dereg_not_held s held d mr dev o s' :
reg_ok s held -> zget (rdevs s) d = Some dev -> (d, mr) ∉ held ->
DeregResult s d mr dev o s' -> o = Fail ncclInternalError /\ s' = s.
Proof.
intros Hok H Hn R.
assert (forall i e, live (mrCache dev) !! i = Some e -> mr_mr e = mr -> False) as Hno.
{ intros i e He <-. apply Hn. eapply live_held; [done..|]. now apply list_elem_of_lookup_2 in He. }
destruct R as [?|i e n He ? Hi|i e c' He|i e c' He|i e He Hi]; [done|exfalso; eauto..].
Qed.

Lemma calls_ok (Hm : forall h n, malloc_ok h n = true) (Hf : fresh_mrs) s held :
calls s held -> reg_ok s held.
Proof.
induction 1 as [s Hh Hc|s held d pd data size offset fd fl mr s' _ IH E|s held [d pd] data size offset fd fl r s' _ IH E
 |s held held' d pd mr o s' _ IH Hp E|s held d pd mr o s' _ IH Hn E].
- intros d dev H. rewrite Forall_lookup in Hc. unfold zget in H. case_decide; [|done].
rewrite (Hc _ _ H).
split; [split; cbn; lia|constructor| |done|..]; intros e []%not_elem_of_nil.
- destruct (getDev_inv _ _ _ _ _ E ltac:(done)) as [dev H].
pose proof (reg2_result Hm s d pd data size offset fd fl dev H (ok_wf _ _ _ _ (IH _ _ H))) as R.
rewrite E in R. now apply (reg_ok_reg Hf _ _ _ _ _ _ _ _ _ _ _ _ IH H R).
- destruct (getDev_inv _ _ _ _ _ E ltac:(done)) as [dev H].
pose proof (reg2_result Hm s d pd data size offset fd fl dev H (ok_wf _ _ _ _ (IH _ _ H))) as R.
rewrite E in R. now apply (reg_ok_reg Hf _ _ _ _ _ _ _ _ _ _ _ _ IH H R).
- destruct (zget (rdevs s) d) as [dev|] eqn:H.
+ pose proof (dereg_result s d pd mr dev H (ok_wf _ _ _ _ (IH _ _ H))) as R.
rewrite E in R. now apply (reg_ok_dereg _ _ _ _ _ _ _ _ IH H Hp R).
+ rewrite (dereg_no_dev s d pd mr H) in E. injection E as _ <-. intros d' dev' Hd.
eapply cache_ok_frame; [now apply IH| |done|done]. intros mr'.
rewrite (holders_perm _ _ _ _ Hp), holders_cons_other; congruence.
- destruct (zget (rdevs s) d) as [dev|] eqn:H.
+ pose proof (dereg_result s d pd mr dev H (ok_wf _ _ _ _ (IH _ _ H))) as R.
rewrite E in R. cbn in R. destruct (dereg_not_held s held d mr dev o s' IH H Hn R) as [_ ->]. done.
+ rewrite (dereg_no_dev s d pd mr H) in E. now injection E as _ <-.
Qed.

(** ** The theorems *)

(** C21. Whatever sequence of registrations and deregistrations was made on the
devices, whatever the verbs library answered, refusals included, and as long as the
allocations of the cache arrays succeed (a growth that fails corrupts the cache,
[failed_growth_corrupts]) and the library does not hand out a region it still has
registered: the cache of every device is well formed, its slots hold different regions, exactly the
ones some caller holds a handle of, each with the number of those handles, and
the library still has every one of them registered. *)
Theorem registrations_follow_handles
(Hm : forall h n, malloc_ok h n = true) (Hf : fresh_mrs) s held d dev :
calls s held -> zget (rdevs s) d = Some dev ->
cache_wf (mrCache dev) /\
NoDup (mr_mr <$> live (mrCache dev)) /\
(forall mr, (d, mr) ∈ held <-> mr ∈ mr_mr <$> live (mrCache dev)) /\
(forall e, e ∈ live (mrCache dev) ->
mr_refs e = holders held d (mr_mr e) /\ (d, mr_mr e) ∈ alive (rhist s)).
Proof.
intros Hc H. pose proof (calls_ok Hm Hf s held Hc) as Hok. pose proof (Hok d dev H) as [].
split; [done|]. split; [done|]. split.
- intros mr. split.
+ intros Hin%holders_pos. destruct (decide (mr ∈ mr_mr <$> live (mrCache dev))) as [|Hn]; [done|].
rewrite (ok_held0 mr Hn) in Hin. lia.
+ intros (e & -> & He)%list_elem_of_fmap. now apply (live_held s held d dev).
- intros e He. split; [now apply ok_refs0|now apply ok_alive0].
Qed.
End Handles.

(** ** Pages *)

Section Pages.
Context `{M : RegMachine} (k : Z) (Hk : 1 <= k < 64) (Hps : pageSize = 2 ^ k).

Lemma page_mask : u64 (- pageSize) = Z.shiftl (Z.ones (64 - k)) k.
Proof.
rewrite Hps, Z.shiftl_mul_pow2, Z.ones_equiv by lia. unfold wrapU.
rewrite <- (Z_mod_plus_full _ 1). rewrite Z.mod_small.
- replace 64 with ((64 - k) + k) at 1 by lia. rewrite Z.pow_add_r by lia. lia.
- pose proof (Z.pow_pos_nonneg 2 k). pose proof (Z.pow_lt_mono_r 2 k 64). lia.
Qed.

Lemma regAddr_mod data : regAddr data = data mod 2 ^ 64 / 2 ^ k * 2 ^ k.
Proof.
unfold regAddr. rewrite page_mask. rewrite <- Z.land_ones by lia.
rewrite <- Z.shiftr_div_pow2, <- Z.shiftl_mul_pow2 by lia.
apply Z.bits_inj'. intros i Hi. rewrite Z.land_spec, !Z.shiftl_spec by lia.
destruct (Z.ltb_spec i k); [rewrite !(Z.testbit_neg_r _ (i - k)) by lia; apply andb_false_r|].
rewrite Z.shiftr_spec, Z.land_spec, !Z.testbit_ones by lia. f_equal; [f_equal; lia|].
destruct (Z.ltb_spec (i - k) (64 - k)), (Z.ltb_spec (i - k + k) 64), (Z.leb_spec 0 (i - k)), (Z.leb_spec 0 (i - k + k)); cbn; lia.
Qed.

Lemma page_pos : 1 < pageSize /\ pageSize * (2 ^ 64 / pageSize) = 2 ^ 64 /\ 2 ^ 64 / pageSize <= 2 ^ 63.
Proof.
rewrite Hps. replace 64 with ((64 - k) + k) by lia. rewrite Z.pow_add_r, Z.div_mul by lia.
pose proof (Z.pow_le_mono_r 2 1 k). pose proof (Z.pow_le_mono_r 2 (64 - k) 63). lia.
Qed.

Lemma regAddr_aligned data : 0 <= regAddr data < 2 ^ 64 /\ (pageSize | regAddr data).
Proof.
rewrite regAddr_mod, <- Hps. pose proof page_pos. pose proof (Z.mod_pos_bound data (2 ^ 64)).
split; [|apply Z.divide_factor_r].
pose proof (Z.div_pos (data mod 2 ^ 64) pageSize). pose proof (Z.mul_div_le (data mod 2 ^ 64) pageSize). lia.
Qed.

Lemma regAddr_below data : 0 <= data < 2 ^ 64 -> regAddr data <= data < regAddr data + pageSize.
Proof.
intros. rewrite regAddr_mod, <- Hps, Z.mod_small by lia. pose proof page_pos.
pose proof (Z.div_mod data pageSize). pose proof (Z.mod_pos_bound data pageSize). lia.
Qed.

(** The page count of a registration never overflows its length. *)
Lemma regPages_bound data size : 0 <= regPages data size /\ regPages data size * pageSize < 2 ^ 64.
Proof.
unfold regPages. pose proof page_pos.
pose proof (wrapU_range 64 (data + size - regAddr data + pageSize - 1)) as Hr. unfold in_u in Hr.
set (x := u64 _) in *. pose proof (Z.div_pos x pageSize). pose proof (Z.mul_div_le x pageSize). lia.
Qed.

Lemma regPages_enough data size :
0 <= data -> 0 < size -> data + size + pageSize <= 2 ^ 64 ->
data + size <= regAddr data + regPages data size * pageSize.
Proof.
intros. unfold regPages. pose proof page_pos. pose proof (regAddr_below data ltac:(lia)).
pose proof (regAddr_aligned data) as [? _].
rewrite wrapU_small by (unfold in_u; lia).
pose proof (Z.div_mod (data + size - regAddr data + pageSize - 1) pageSize).
pose proof (Z.mod_pos_bound (data + size - regAddr data + pageSize - 1) pageSize). lia.
Qed.

(** A slot that passes the comparison of the search holds the pages asked for. *)
Lemma covers_range data size e :
(exists data' size', mr_addr e = regAddr data' /\ mr_pages e = regPages data' size') ->
covers (regAddr data) (regPages data size) e = true ->
mr_addr e <= regAddr data /\
regAddr data + regPages data size * pageSize <= mr_addr e + mr_pages e * pageSize.
Proof.
intros (data' & size' & Ha & Hp) [Hle Hc]%andb_true_iff. apply Z.leb_le in Hle, Hc. split; [done|].
pose proof page_pos as (Hp1 & Hp2 & Hp3).
destruct (regAddr_aligned data) as [Hr [q Hq]]. destruct (regAddr_aligned data') as [Hr' [q' Hq']].
destruct (regPages_bound data size) as [Hb1 Hb2].
assert ((regAddr data - mr_addr e) / pageSize = q - q') as Ed.
{ rewrite Ha, Hq, Hq', <- Z.mul_sub_distr_r. apply Z.div_mul. lia. }
rewrite Ha, Hq, Hq' in *.
assert (q - q' + regPages data size <= 2 ^ 64 / pageSize + 2 ^ 64 / pageSize - 1) as Hs by nia.
rewrite Ed, wrapU_small in Hc; [nia|]. unfold in_u. nia.
Qed.
End Pages.

Section Theorems.
Context `{M : RegMachine}.

(** C27. A registration that succeeds returns a region that the library has
registered, and not yet given back, for a range of addresses that contains the
whole buffer, whether the region is new or was found in the cache. *)
Theorem registration_covers_buffer k (Hk : 1 <= k < 64) (Hps : pageSize = 2 ^ k)
(Hm : forall h n, malloc_ok h n = true) (Hf : fresh_mrs)
s held d pd data size offset fd fl mr s' :
calls s held -> 0 <= data -> 0 < size -> data + size + pageSize <= 2 ^ 64 ->
ncclIbRegMrDmaBufInternal2 (d, pd) data size offset fd fl s = (Done mr, s') ->
(d, mr) ∈ alive (rhist s') /\
exists call start len, Registered d call mr ∈ rhist s' /\ callRange call = (start, len) /\
start <= data /\ data + size <= start + len.
Proof.
intros Hc H0 Hs Hb E. pose proof (calls_ok Hm Hf _ _ (calls_reg _ _ _ _ _ _ _ _ _ _ _ Hc E)) as Hok'.
pose proof (calls_ok Hm Hf _ _ Hc) as Hok.
destruct (getDev_inv _ _ _ _ _ E ltac:(done)) as [dev H]. pose proof (Hok d dev H) as C.
pose proof (reg2_result Hm s d pd data size offset fd fl dev H (ok_wf _ _ _ _ C)) as R.
rewrite E in R. cbn in R. clear E Hok'.
pose proof (page_pos k Hk Hps). pose proof (regPages_enough k Hk Hps data size H0 Hs Hb).
destruct (regAddr_below k Hk Hps data ltac:(lia)) as [Hbelow _].
inversion R as [i e n He Hcov Hn|i mr' c' call Hl Hr W L| |]; subst.
- pose proof (list_elem_of_lookup_2 _ _ _ He) as Hin.
split; [now apply (ok_alive _ _ _ _ C)|].
destruct (ok_range _ _ _ _ C e Hin) as (call & Hev & Hrange).
pose proof (ok_shape _ _ _ _ C e Hin) as Hsh.
destruct (covers_range k Hk Hps data size e Hsh Hcov) as [Ha Hp].
exists call, (mr_addr e), (u64 (mr_pages e * pageSize)). split; [done|]. split; [done|].
destruct Hsh as (data' & size' & Ha' & Hp'). rewrite Ha', Hp' in *.
destruct (regPages_bound k Hk Hps data' size').
rewrite wrapU_small by (unfold in_u; nia). lia.
- rewrite rhist_logged. split; [rewrite alive_snoc; now left|]. eexists _, _, _.
split; [apply elem_of_app; right; now left|]. split; [apply regCall_range|].
destruct (regPages_bound k Hk Hps data size). rewrite wrapU_small by (unfold in_u; nia). lia.
Qed.

(** What a successful registration of [mr] did to a cache and to the history. *)
Inductive added (d : Z) (mr : MrPtr) (c c1 : ncclIbMrCache) (h h1 : list RegEvent) : Prop :=
| added_new i e : live c1 !! i = Some e -> mr_mr e = mr -> mr_refs e = 1 ->
live c1 ≡ₚ e :: live c -> alive h1 = (d, mr) :: alive h -> (d, mr) ∉ alive h ->
added d mr c c1 h h1
| added_shared i e e' : live c1 !! i = Some e -> mr_mr e = mr -> 1 < mr_refs e ->
e' = e <| mr_refs := mr_refs e - 1 |> ->
live c = <[i := e']> (live c1) -> h1 = h -> added d mr c c1 h h1.

Lemma reg_added (Hf : fresh_mrs) s held d pd data size offset fd fl dev mr s1 :
zget (rdevs s) d = Some dev -> cache_ok (rhist s) held d (mrCache dev) ->
RegResult s d pd data size offset fd fl dev (Done mr) s1 ->
exists c1, rdevs s1 = zupd (rdevs s) d (dev <| mrCache := c1 |>) /\
added d mr (mrCache dev) c1 (rhist s) (rhist s1).
Proof.
intros H C R. inversion R as [i e n He Hcov Hn|i mr' c' call Hl Hr W L| |]; subst.
- eexists. split; [done|]. unfold toInt in Hn. case_decide; [|done]. injection Hn as <-.
destruct (ok_refs _ _ _ _ C e (list_elem_of_lookup_2 _ _ _ He)).
pose proof (lookup_lt_Some _ _ _ He).
set (e1 := e <| mr_refs := mr_refs e + 1 |>).
apply (added_shared _ _ _ _ _ _ i e1 e).
+ rewrite live_upd by apply C. now apply list_lookup_insert_eq.
+ done.
+ cbn. lia.
+ unfold e1. destruct e. cbv [update eta]. cbn. f_equal. lia.
+ rewrite live_upd by apply C. rewrite list_insert_insert_eq. now rewrite list_insert_id.
+ done.
- eexists. split; [done|].
destruct (list_elem_of_lookup_1 (live c') (mkIbMr (regAddr data) (regPages data size) 1 mr)) as [j Hj].
{ rewrite L. apply elem_of_app. right. now left. }
eapply added_new; [exact Hj|done|done| | |].
+ rewrite L, <- Permutation_middle, take_drop. done.
+ rewrite rhist_logged. apply alive_snoc.
+ intros Hin. apply (Hf _ _ _ Hr). apply list_elem_of_fmap. now exists (d, mr).
Qed.

Lemma dereg_added held s1 d mr c dev1 h o s2 :
cache_ok (rhist s1) held d (mrCache dev1) ->
added d mr c (mrCache dev1) h (rhist s1) -> dereg_mr (rhist s1) mr = true ->
DeregResult s1 d mr dev1 o s2 ->
o = Done tt /\ alive (rhist s2) = alive h /\
exists c2, rdevs s2 = zupd (rdevs s1) d (dev1 <| mrCache := c2 |>) /\ live c2 ≡ₚ live c.
Proof.
intros C A Hd R. pose proof (ok_distinct _ _ _ _ C) as Hn.
assert (exists i e, live (mrCache dev1) !! i = Some e /\ mr_mr e = mr /\
(forall j e', live (mrCache dev1) !! j = Some e' -> mr_mr e' = mr -> j = i /\ e' = e)) as (i & e & He & Hmr & Hu).
{ destruct A as [i e He Hmr|i e e' He Hmr]; exists i, e; split; [done| |done|]; split; try done;
intros j e2 He2 Hm2; assert (j = i) as -> by (apply (NoDup_key _ j i e2 e Hn); congruence); split; congruence. }
destruct A as [i' e' He' Hmr' Hone Hp Ha Hnew|i' e' e0 He' Hmr' Hmany -> Hl Hh];
destruct (Hu i' e' He' Hmr') as [-> ->]; clear He' Hmr';
destruct R as [Hno|j e' n He' Hmr' Hi Hn0|j e' c' He' Hmr' Hr1 W' L' Hd'|j e' c' He' Hmr' Hr1 W' L' Hd'|j e' He' Hmr' Hi];
try (destruct Hno; rewrite <- Hmr; apply list_elem_of_fmap_2; now apply list_elem_of_lookup_2 in He);
try (destruct (Hu j e' He' Hmr') as [-> ->]); try congruence; try lia;
destruct (ok_refs _ _ _ _ C e (list_elem_of_lookup_2 _ _ _ He)) as [Hr _];
try (rewrite (toInt_small _ Hr) in Hi; try done; injection Hi as <-; try lia).
- split; [done|]. rewrite rhist_logged, alive_snoc, Ha.
split; [|exists c'; split; [done|]; apply (Permutation_cons_inv (a := e)); now rewrite <- L'].
rewrite filter_cons_False by (intros E; now destruct E). now apply filter_absent.
- split; [done|]. split; [now rewrite <- Hh|]. eexists. split; [done|].
rewrite live_upd by apply C. now rewrite Hl.
Qed.

(** Registering a buffer and giving the region back, the library agreeing,
leaves on the device the regions there were, with their numbers of references
(their order in the array may change), the other devices untouched, and the
same regions registered with the library. *)
Theorem register_then_deregister (Hm : forall h n, malloc_ok h n = true) (Hf : fresh_mrs)
s held d pd data size offset fd fl mr s1 dev :
calls s held -> zget (rdevs s) d = Some dev ->
ncclIbRegMrDmaBufInternal2 (d, pd) data size offset fd fl s = (Done mr, s1) ->
dereg_mr (rhist s1) mr = true ->
exists s2 dev2, ncclIbDeregMrInternal (d, pd) mr s1 = (Done tt, s2) /\
zget (rdevs s2) d = Some dev2 /\ live (mrCache dev2) ≡ₚ live (mrCache dev) /\
(forall d', d' <> d -> zget (rdevs s2) d' = zget (rdevs s) d') /\
alive (rhist s2) = alive (rhist s).
Proof.
intros Hc H E Hd. pose proof (calls_ok Hm Hf _ _ Hc) as Hok. pose proof (Hok d dev H) as C.
pose proof (calls_ok Hm Hf _ _ (calls_reg _ _ _ _ _ _ _ _ _ _ _ Hc E)) as Hok1.
pose proof (reg2_result Hm s d pd data size offset fd fl dev H (ok_wf _ _ _ _ C)) as R.
rewrite E in R. cbn in R. destruct (reg_added Hf _ _ _ _ _ _ _ _ _ _ _ _ H C R) as (c1 & Hr1 & A).
pose proof (zget_Some _ _ _ H) as Hrange. set (dev1 := dev <| mrCache := c1 |>) in *.
assert (zget (rdevs s1) d = Some dev1) as H1 by (rewrite Hr1; now apply zget_zupd_eq).
pose proof (Hok1 d dev1 H1) as C1.
pose proof (dereg_result s1 d pd mr dev1 H1 (ok_wf _ _ _ _ C1)) as R1.
destruct (ncclIbDeregMrInternal (d, pd) mr s1) as [o s2]. cbn in R1.
destruct (dereg_added _ s1 d mr _ dev1 _ o s2 C1 A Hd R1)
as (-> & Ha & c2 & Hr2 & Hp).
exists s2, (dev1 <| mrCache := c2 |>). rewrite Hr2, Hr1, zupd_zupd.
split; [done|]. split; [now apply zget_zupd_eq|]. split; [done|]. split; [|done].
intros d' Hne. now apply zget_zupd_ne.
Qed.

(** The slots in the order of their addresses. *)
Definition sorted (c : ncclIbMrCache) : Prop :=
forall i j e e', (i < j)%nat -> live c !! i = Some e -> live c !! j = Some e' -> mr_addr e <= mr_addr e'.

(** As long as the slots are in the order of their addresses, the search
finds a slot that holds the pages asked for whenever there is one, and the
place it gives for a new slot keeps the order. *)
Theorem sorted_search_complete c addr pages :
cache_wf c -> sorted c ->
exists r, lookup c addr pages = Some r /\
match r with
| Found i => exists k e, i = Z.of_nat k /\ live c !! k = Some e /\ covers addr pages e = true
| NotFound i => (forall e, e ∈ live c -> covers addr pages e = false) /\
forall refs mr c', population c < capacity c ->
insertSlot c i (mkIbMr addr pages refs mr) = Some c' -> sorted c'
end.
Proof.
intros W Hs. destruct (lookup_found_or_not c addr pages W) as (r & -> & Hr). exists r. split; [done|].
destruct r as [i|i]; [|done]. destruct Hr as (k & -> & Hk & Hbefore & Hat).
assert (forall j e, (k <= j)%nat -> live c !! j = Some e -> addr < mr_addr e) as Hafter.
{ intros j e Hj He. destruct (lookup_lt_is_Some_2 (live c) k) as [e0 He0];
[pose proof (lookup_lt_Some _ _ _ He); lia|].
pose proof (Hat e0 He0). destruct (decide (j = k)) as [->|]; [now apply Hat|].
pose proof (Hs k j e0 e ltac:(lia) He0 He). lia. }
split.
- intros e (j & He)%list_elem_of_lookup. destruct (decide (j < k)%nat) as [Hj|Hj].
+ now apply (Hbefore j e Hj).
+ unfold covers. pose proof (Hafter j e ltac:(lia) He).
rewrite (proj2 (Z.leb_gt (mr_addr e) addr)) by lia. done.
- intros refs mr c' Hp Hi.
destruct (insertSlot_spec c k (mkIbMr addr pages refs mr) W Hp Hk) as (c2 & Hi2 & _ & L).
assert (c2 = c') as -> by congruence. clear Hi Hi2.
pose proof (length_live c W) as Hlen.
assert (forall j, live c' !! j = if decide (j < k)%nat then live c !! j else
if decide (j = k) then Some (mkIbMr addr pages refs mr) else live c !! (j - 1)%nat) as Hl.
{ intros j. rewrite L. case_decide; [rewrite lookup_app_l by (rewrite length_take; lia);
now apply lookup_take_lt|].
rewrite lookup_app_r by (rewrite length_take; lia). rewrite length_take, Nat.min_l by lia.
case_decide as E; [subst j; now rewrite Nat.sub_diag|].
replace (j - k)%nat with (S (j - 1 - k)) by lia. rewrite lookup_cons, lookup_drop. f_equal. lia. }
intros i j e e' Hij. rewrite !Hl. repeat case_decide; try lia; intros He He'.
+ now apply (Hs i j).
+ injection He' as <-. now apply (Hbefore i e).
+ now apply (Hs i (j - 1)%nat e e' ltac:(lia)).
+ injection He as <-. pose proof (Hafter (j - 1)%nat e' ltac:(lia) He'). cbn. lia.
+ now apply (Hs (i - 1)%nat (j - 1)%nat e e' ltac:(lia)).
Qed.
End Theorems.

(** ** Concrete executions *)

(** A library that gives a region the first number above those in use, on a host with pages
    of 4096 bytes. *)
Definition reg_demo (refuse : list RegEvent -> RegCall -> bool) (ok : list RegEvent -> Z -> bool) : RegMachine :=
  {| pageSize := 4096; ncclIbRelaxedOrderingEnabled := true;
     IBV_ACCESS_LOCAL_WRITE := 1; IBV_ACCESS_REMOTE_WRITE := 2; IBV_ACCESS_REMOTE_READ := 4;
     IBV_ACCESS_REMOTE_ATOMIC := 8; IBV_ACCESS_RELAXED_ORDERING := 2 ^ 20;
     reg_mr := fun h c => if refuse h c then None else Some (1 + foldr Z.max 0 (alive h).*2);
     dereg_mr := fun _ _ => true;
     malloc_ok := ok |}.

Definition always {A B : Type} (b : bool) (_ : A) (_ : B) : bool := b.

Definition two_devs : RegState :=
  mkRegState [mkRegDev (mkIbMrCache [] 0 0) false; mkRegDev (mkIbMrCache [] 0 0) true] [].

(** One page at [4096 * i], on device [d]. *)
Definition regPage (M : RegMachine) (d i fl : Z) : reg MrPtr :=
  ncclIbRegMrDmaBufInternal2 (d, 7) (4096 * i) 4096 0 (-1) fl.

Lemma zmax_bound l x : x ∈ l -> x <= foldr Z.max 0 l.
Proof. induction l as [|y l IH]; [intros []%not_elem_of_nil|]. intros [->|H]%elem_of_cons; cbn; [|specialize (IH H)]; lia. Qed.

Lemma reg_demo_fresh refuse ok : @fresh_mrs (reg_demo refuse ok).
Proof.
  intros h c mr. cbn. case_match; [done|]. intros [= <-] Hin%zmax_bound. lia.
Qed.

Lemma two_devs_calls M : @calls M two_devs [].
Proof. apply calls_init; [done|]. repeat constructor. Qed.

(** The regions are handed out in the order of the array, but a
    deregistration moves the last slot into the place of the one that leaves, which
    can break the order of addresses the search stops on: pages 1, 2 and 3 are
    registered, page 1 is given back, and page 2, still registered, is registered
    again. *)
Theorem swap_breaks_order :
let M := reg_demo (always false) (always true) in
let s3 := snd ((regPage M 0 1 0 ;;; regPage M 0 2 0 ;;; regPage M 0 3 0) two_devs) in
let s4 := snd (@ncclIbDeregMrInternal M (0, 7) 1 s3) in
fst (regPage M 0 2 0 s3) = Done 2 /\ fst (regPage M 0 2 0 s4) = Done 4.
Proof. vm_compute. split; reflexivity. Qed.

(** A registration that fails on the second device leaves the reference it
    took on the first one: the caller has no handle to give it back with. *)
Theorem failed_registration_leaks :
let M := reg_demo (fun h _ => 1 <=? Z.of_nat (length h)) (always true) in
let r := @ncclIbRegMr M [(0, 7); (1, 8)] 4096 4096 two_devs in
fst r = Fail ncclSystemError /\
(fun dev => live (mrCache dev)) <$> zget (rdevs (snd r)) 0 = Some [mkIbMr 4096 1 1 1].
Proof. vm_compute. split; reflexivity. Qed.

(** The cache is looked up by address only: a region that must keep the
    order of its writes (NCCL_NET_MR_FLAG_FORCE_SO) is served by one registered
    with relaxed ordering before. *)
Theorem cached_region_ignores_force_so :
let M := reg_demo (always false) (always true) in
let s1 := snd (regPage M 0 1 0 two_devs) in
fst (regPage M 0 1 NCCL_NET_MR_FLAG_FORCE_SO s1) = Done 1 /\
rhist s1 = [Registered 0 (ibv_reg_mr_iova2 7 4096 4096 4096 (15 + 2 ^ 20)) 1] /\
rhist (snd (regPage M 0 1 NCCL_NET_MR_FLAG_FORCE_SO two_devs)) = [Registered 0 (ibv_reg_mr 7 4096 4096 15) 1].
Proof. vm_compute. repeat split; reflexivity. Qed.

(** The capacity is raised before the larger array is there: when that
    allocation fails the call fails, and the next registration writes outside the
    array. *)
Theorem failed_growth_corrupts :
let M := reg_demo (always false) (always false) in
let r := regPage M 0 1 0 two_devs in
fst r = Fail ncclSystemError /\ fst (regPage M 0 1 0 (snd r)) = Fault.
Proof. vm_compute. split; reflexivity. Qed.

Lemma registrations_follow_handles_witness :
let M := reg_demo (always false) (always true) in
exists s dev, @calls M s [(1, 2); (0, 1); (0, 1)] /\ zget (rdevs s) 0 = Some dev /\
  @cache_wf (mrCache dev) /\ live (mrCache dev) = [mkIbMr 4096 1 2 1].
Proof.
intros M.
set (r1 := regPage M 0 1 0 two_devs). set (r2 := regPage M 0 1 0 (snd r1)).
set (r3 := @ncclIbRegMrDmaBufInternal2 M (1, 7) 12300 5000 0 3 0 (snd r2)).
assert (@calls M (snd r3) [(1, 2); (0, 1); (0, 1)]) as Hc.
{ apply (calls_reg (snd r2) [(0, 1); (0, 1)] 1 7 12300 5000 0 3 0 2 (snd r3)); [|vm_compute; reflexivity].
  apply (calls_reg (snd r1) [(0, 1)] 0 7 4096 4096 0 (-1) 0 1 (snd r2)); [|vm_compute; reflexivity].
  apply (calls_reg two_devs [] 0 7 4096 4096 0 (-1) 0 1 (snd r1)); [apply two_devs_calls|vm_compute; reflexivity]. }
exists (snd r3), (default (mkRegDev (mkIbMrCache [] 0 0) false) (zget (rdevs (snd r3)) 0)).
split; [exact Hc|]. split; [vm_compute; reflexivity|].
split; [|vm_compute; reflexivity].
apply (registrations_follow_handles (M := M) (fun _ _ => eq_refl) (reg_demo_fresh _ _) (snd r3) _ 0 _ Hc).
vm_compute; reflexivity.
Defined.

Lemma registration_covers_buffer_witness :
let M := reg_demo (always false) (always true) in
exists s', @ncclIbRegMrDmaBufInternal2 M (1, 7) 12300 5000 0 3 0 two_devs = (Done 1, s') /\
  (1, 1) ∈ alive (rhist s').
Proof.
intros M. eexists. split; [vm_compute; reflexivity|].
eapply (registration_covers_buffer (M := M) 12 ltac:(lia) ltac:(reflexivity) (fun _ _ => eq_refl)
  (reg_demo_fresh _ _) two_devs [] 1 7 12300 5000 0 3 0 1);
  [apply two_devs_calls|lia|lia|apply Z.leb_le; vm_compute; reflexivity|vm_compute; reflexivity].
Defined.

Lemma register_then_deregister_witness :
let M := reg_demo (always false) (always true) in
exists s1 s2, regPage M 0 1 0 two_devs = (Done 1, s1) /\
  @ncclIbDeregMrInternal M (0, 7) 1 s1 = (Done tt, s2) /\ alive (rhist s2) = [].
Proof.
intros M. eexists. edestruct (register_then_deregister (M := M) (fun _ _ => eq_refl) (reg_demo_fresh _ _)
  two_devs [] 0 7 4096 4096 0 (-1) 0 1) as (s2 & dev2 & E & _ & _ & _ & Ha);
  [apply two_devs_calls|vm_compute; reflexivity|vm_compute; reflexivity|vm_compute; reflexivity|].
exists s2. split; [vm_compute; reflexivity|]. split; [exact E|]. now rewrite Ha.
Defined.

Lemma sorted_search_complete_witness :
let M := reg_demo (always false) (always true) in
let c := mkIbMrCache [mkIbMr 4096 1 1 1; mkIbMr 12288 2 1 2] 2 2 in
lookup c 16384 1 = Some (Found 1) /\
exists r, lookup c 16384 1 = Some r /\ match r with
| Found i => exists k e, i = Z.of_nat k /\ live c !! k = Some e /\ covers 16384 1 e = true
| NotFound i => (forall e, e ∈ live c -> covers 16384 1 e = false) /\
    forall refs mr c', population c < capacity c ->
      insertSlot c i (mkIbMr 16384 1 refs mr) = Some c' -> sorted c'
end.
Proof.
intros M c. split; [vm_compute; reflexivity|].
apply (sorted_search_complete (M := M)).
- split; cbn; lia.
- intros [|[|i]] [|[|j]] e e' Hij He He'; cbn in *; try lia; try done.
  injection He as <-. injection He' as <-. cbn. lia.
Defined.
