(* ===== verification/Recovery.v ===== *)
(** * Transport: port recovery ([p2p_resiliency_recovery.cc])

    A failed device is brought back by a handshake between the two ends of the
    communicator: the sender posts "alive" messages, the receiver answers a long
    enough sequence with an acknowledgement after it has restored its queue pairs,
    the sender restores its own and posts a final acknowledgement.  This file
    models the protocol of one device ([ncclIbPortRecoveryContextProgress] and all
    it calls), and the reconfiguration of queue pairs of [p2p_resiliency.cc].  The
    thread that runs it is in [RecoveryThread].

    The [union] of the context is two groups of fields, of which a context uses
    the one of its side. *)

From S2P Require Import Prelude NetTypes NetBase Resiliency.

Open Scope Z_scope.
Open Scope nccl_scope.

Definition NCCL_IB_RESILIENCY_PORT_RECOVERY_ALIVE_MSG_BATCH_SIZE_MAX : Z := 10.
Definition NCCL_IB_RESILIENCY_PORT_RECOVERY_CQ_SIZE : Z :=
  NCCL_IB_RESILIENCY_PORT_RECOVERY_ALIVE_MSG_BATCH_SIZE_MAX * 2.
Definition NCCL_IB_RESILIENCY_PORT_RECOVERY_ACK_MSG_ID : Z := 0x1234.

Inductive ncclIbPortRecoveryState : Type :=
  | ncclIbPortRecoveryStateInit
  | ncclIbPortRecoveryStateAliveMessages
  | ncclIbPortRecoveryStateAck
  | ncclIbPortRecoveryStateSuccess
  | ncclIbPortRecoveryStateFailed.

Inductive ncclIbPortRecoveryStateProgressResult : Type :=
  | ncclIbPortRecoveryStateProgressResultInProgress
  | ncclIbPortRecoveryStateProgressResultGoToNextState
  | ncclIbPortRecoveryStateProgressResultGoToPrevState
  | ncclIbPortRecoveryStateProgressResultFailed.

Abbreviation progressResult := ncclIbPortRecoveryStateProgressResult.
Abbreviation InProgress := ncclIbPortRecoveryStateProgressResultInProgress.
Abbreviation GoToNextState := ncclIbPortRecoveryStateProgressResultGoToNextState.
Abbreviation GoToPrevState := ncclIbPortRecoveryStateProgressResultGoToPrevState.
Abbreviation Failed := ncclIbPortRecoveryStateProgressResultFailed.

#[export] Instance recoveryState_eq_dec : EqDecision ncclIbPortRecoveryState.
Proof. solve_decision. Defined.

(** [pr_resCtx] is the communicator, as an index into those of the process. *)
Record ncclIbPortRecoveryContext := mkRecoveryContext {
  pr_resCtx : Z;
  pr_devIndex : Z;
  pr_state : ncclIbPortRecoveryState;
  pr_timeInit : Z;
  pr_nFailedAttempts : Z;
  pr_timeLastMsg : Z;
  pr_aliveMsgNextId : Z;
  pr_ackReceived : bool;
  pr_ackPosted : bool;
  pr_ackCompleted : bool;
  pr_aliveMsgPosted : bool;
  pr_aliveMsgCompleted : bool;
  pr_nInOrderMsgsReceived : Z;
}.

(** ** The provider *)

Inductive RecQp : Type := NetQp (q : QpRef) | RecoveryQp (i : Z).
Inductive QpOp : Type := QpReset | QpInit | QpSetEce | QpRtr | QpRts | QpToError.

Record RecWc := mkRecWc { rw_status : wcStatus; rw_opcode : wcOpcode; rw_imm : Z }.

(** A message of the protocol: its immediate data, and whether its completion is
    signalled. *)
Record RecMsg := mkRecMsg { msg_imm : Z; msg_signaled : bool }.

Inductive RecEvent : Type :=
  | ModifiedQp (comm : Z) (q : RecQp) (op : QpOp) (ok : bool)
  | PostedRecoveryRecv (comm dev : Z)
  | PostedRecoverySend (comm dev : Z) (msgs : list RecMsg)
  | PolledRecoveryCq (comm dev : Z) (wcs : list RecWc)
  | TookRecoveryTime.

Record RecoveryParams := mkRecoveryParams {
  portRecovery : Z;
  startDelay : Z;
  aliveMsgBatchInterval : Z;
  aliveMsgSequenceSize : Z;
  aliveMsgTimeout : Z;
  ackTimeout : Z;
  attemptsMax : Z;
}.

(** [ibvQp] tells whether a queue pair has an [ibv_qp] (one of the MRC library
    alone has none); [recoveryDev] is the device of a recovery queue pair.  Both
    are fixed when the communicator connects. *)
Class RecoveryMachine := mkRecoveryMachine {
  netMachine : Machine;
  rprm : RecoveryParams;
  ibvQp : Z -> RecQp -> bool;
  recoveryDev : Z -> Z -> Z;
  eceSupported : list RecEvent -> Z -> RecQp -> bool;
  modify_qp : list RecEvent -> Z -> RecQp -> QpOp -> bool;
  post_recovery_recv : list RecEvent -> Z -> Z -> bool;
  post_recovery_send : list RecEvent -> Z -> Z -> list RecMsg -> bool;
  poll_recovery_cq : list RecEvent -> Z -> Z -> Z -> option (list RecWc);
  recoveryClock : list RecEvent -> Z;
}.
#[export] Existing Instance netMachine.

(** ** The state of a step: the context being progressed, and what is shared *)

Record Shared := mkShared { comms : list Net; rhistory : list RecEvent }.
Record RecState := mkRecState { rctx : ncclIbPortRecoveryContext; shared : Shared }.

#[export] Instance eta_RecoveryContext : Eta ncclIbPortRecoveryContext := fun r =>
  mkRecoveryContext (pr_resCtx r) (pr_devIndex r) (pr_state r) (pr_timeInit r) (pr_nFailedAttempts r)
    (pr_timeLastMsg r) (pr_aliveMsgNextId r) (pr_ackReceived r) (pr_ackPosted r) (pr_ackCompleted r)
    (pr_aliveMsgPosted r) (pr_aliveMsgCompleted r) (pr_nInOrderMsgsReceived r).
#[export] Instance eta_RecoveryParams : Eta RecoveryParams := fun r =>
  mkRecoveryParams (portRecovery r) (startDelay r) (aliveMsgBatchInterval r) (aliveMsgSequenceSize r)
    (aliveMsgTimeout r) (ackTimeout r) (attemptsMax r).
#[export] Instance eta_Shared : Eta Shared := fun r => mkShared (comms r) (rhistory r).
#[export] Instance eta_RecState : Eta RecState := fun r => mkRecState (rctx r) (shared r).

Abbreviation rec := (comp RecState).

(** [for (i = 0; i < n; i++) body] whose body may return from the function. *)
Fixpoint forReturn {S A} (n : nat) (i : Z) (body : Z -> comp S (option A)) : comp S (option A) :=
  match n with
  | O => ret None
  | Datatypes.S n' =>
      let* r := body i in
      match r with Some a => ret (Some a) | None => forReturn n' (i + 1) body end
  end.

Definition modCtx (f : ncclIbPortRecoveryContext -> ncclIbPortRecoveryContext) : rec unit :=
  modify (fun s => s <| rctx := f (rctx s) |>).

Definition rlog (e : RecEvent) : rec unit :=
  modify (fun s => s <| shared := (shared s) <| rhistory := rhistory (shared s) ++ [e] |> |>).

(** [recoveryContext->resCtx->baseComm]. *)
Definition getComm : rec Net :=
  let* s := getS in of_option (zget (comms (shared s)) (pr_resCtx (rctx s))).

(** An operation of the communicator itself. *)
Definition onComm {A} (m : net A) : rec A :=
  fun s =>
    match zget (comms (shared s)) (pr_resCtx (rctx s)) with
    | None => (Fault, s)
    | Some c =>
        let (o, c') := m c in
        (o, s <| shared := (shared s) <| comms := zupd (comms (shared s)) (pr_resCtx (rctx s)) c' |> |>)
    end.

(** [resCtx->...]. *)
Definition getResCtx : rec ncclIbResiliency :=
  let* c := getComm in of_option (resiliency (base c)).

Section Recovery.
Context `{M : RecoveryMachine}.

Definition rclock : rec Z :=
let* s := getS in
rlog TookRecoveryTime ;;; ret (recoveryClock (rhistory (shared s))).

(** A parameter in milliseconds as a [uint64_t] of nanoseconds. *)
Definition nsec (p : Z) : Z := u64 (u64 p * MSEC_TO_NSEC).

(** [now - since], unsigned. *)
Definition elapsed (now since : Z) : Z := u64 (now - since).

(** [ncclIbQpReset], [ncclIbQpInit], [ncclIbQpRtr], [ncclIbQpRts] and
[ncclIbQpError] of [connect.cc], and [wrap_ibv_set_ece]: whether they succeed. *)
Definition modifyQp (q : RecQp) (op : QpOp) : rec bool :=
let* s := getS in
let ok := modify_qp (rhistory (shared s)) (pr_resCtx (rctx s)) q op in
rlog (ModifiedQp (pr_resCtx (rctx s)) q op ok) ;;; ret ok.

Definition hasIbvQp (q : RecQp) : rec bool := gets (fun s => ibvQp (pr_resCtx (rctx s)) q).

Definition ncclIbPortRecoveryPostRecvWorkRequest (dev : Z) : rec bool :=
let* s := getS in
if post_recovery_recv (rhistory (shared s)) (pr_resCtx (rctx s)) dev
then rlog (PostedRecoveryRecv (pr_resCtx (rctx s)) dev) ;;; ret true
else ret false.

(** The same [n] times: whether all were posted. *)
Definition postRecvs (dev n : Z) : rec bool :=
let* r := forReturn (Z.to_nat n) 0 (fun _ =>
let* ok := ncclIbPortRecoveryPostRecvWorkRequest dev in
ret (if ok then None else Some tt)) in
ret (match r with None => true | Some _ => false end).

(** [ibv_post_send] on the recovery queue pair of the device. *)
Definition postSend (msgs : list RecMsg) : rec bool :=
let* s := getS in
let c := rctx s in
if post_recovery_send (rhistory (shared s)) (pr_resCtx c) (pr_devIndex c) msgs
then rlog (PostedRecoverySend (pr_resCtx c) (pr_devIndex c) msgs) ;;; ret true
else ret false.

(** [wrap_ibv_poll_cq] on the recovery completion queue. *)
Definition pollRecovery (n : Z) : rec (option (list RecWc)) :=
let* s := getS in
let c := rctx s in
match poll_recovery_cq (rhistory (shared s)) (pr_resCtx c) (pr_devIndex c) n with
| None => ret None
| Some wcs => rlog (PolledRecoveryCq (pr_resCtx c) (pr_devIndex c) wcs) ;;; ret (Some wcs)
end.

(** ** Queue pairs *)

(** Result: what [*success] holds. *)
Definition ncclIbResiliencyQpReconfigure (q : RecQp) : rec bool :=
let* present := hasIbvQp q in
if negb present then fail ncclInternalError else
let* ok := modifyQp q QpReset in
if negb ok then ret false else
let* ok := modifyQp q QpInit in
if negb ok then ret false else
let* s := getS in
let* ok := (if eceSupported (rhistory (shared s)) (pr_resCtx (rctx s)) q
then modifyQp q QpSetEce else ret true) in
if negb ok then ret false else
let* ok := modifyQp q QpRtr in
if negb ok then ret false else
modifyQp q QpRts.

Definition ncclIbPortRecoveryQpsReconfigure (devIdx : Z) : rec bool :=
let* c := getComm in
let* r := getResCtx in
let nRecvWrs :=
if isSend (base c) then 1 else NCCL_IB_RESILIENCY_PORT_RECOVERY_ALIVE_MSG_BATCH_SIZE_MAX in
let* failed := forReturn (Z.to_nat (nPortRecoveryQps r)) 0 (fun i =>
let* s := getS in
let* present := hasIbvQp (RecoveryQp i) in
if negb present || negb (recoveryDev (pr_resCtx (rctx s)) i =? devIdx) then ret None else
let* ok := ncclIbResiliencyQpReconfigure (RecoveryQp i) in
if negb ok then ret (Some tt) else
let* ok := postRecvs i nRecvWrs in
ret (if ok then None else Some tt)) in
ret (match failed with None => true | Some _ => false end).

Definition ncclIbResiliencyQpsReconfigure (devIdx : Z) : rec bool :=
let* r := getResCtx in
let* failed := forReturn (Z.to_nat (nProbingQps r)) 0 (fun i =>
let* qp := of_option (zget (probingQps r) i) in
let* present := hasIbvQp (NetQp (ProbingQp i)) in
if negb present || negb (devIndex qp =? devIdx) then ret None else
let* ok := ncclIbResiliencyQpReconfigure (NetQp (ProbingQp i)) in
ret (if ok then None else Some tt)) in
match failed with
| Some _ => ret false
| None => ncclIbPortRecoveryQpsReconfigure devIdx
end.

(** A call whose failure is looked at by the caller. *)
Definition succeeds {S} (m : comp S unit) : comp S bool :=
fun s => match m s with
 | (Done _, s') => (Done true, s')
 | (Fail _, s') => (Done false, s')
 | (Fault, s') => (Fault, s')
 end.

(** [success] is the value [*success] has at the call: the function writes it
only to report a failure. *)
Definition ncclIbPortRecoveryQpsRestore (success : bool) : rec bool :=
let* ctx := gets rctx in
let* c := getComm in
let* failed := forReturn (Z.to_nat (u32 (nqps (base c)))) 0 (fun qpIndex =>
let* localQp := of_option (zget (qps (base c)) qpIndex) in
if negb (devIndex localQp =? pr_devIndex ctx) then ret None else
let* ok := ncclIbResiliencyQpReconfigure (NetQp (DataQp qpIndex)) in
if negb ok then ret (Some tt) else
if isSend (base c) then ret None else
let* ok := succeeds (onComm (ncclIbPostReceiveWorkRequestsOnQp qpIndex)) in
ret (if ok then None else Some tt)) in
match failed with
| Some _ => ret false
| None =>
if isSend (base c) then ret success else
let* rc := onComm getRecv in
if (flushEnabled rc =? 0) || negb (flushQpsCreated rc) then ret success else
let* failed := forReturn (Z.to_nat (ndevs (base c))) 0 (fun i =>
if negb (i =? pr_devIndex ctx) then ret None else
let* ok := ncclIbResiliencyQpReconfigure (NetQp (FlushQp i)) in
ret (if ok then None else Some tt)) in
ret (match failed with None => success | Some _ => false end)
end.

Definition ncclIbPortRecoveryQpsToError : rec unit :=
let* ctx := gets rctx in
let* c := getComm in
forN (u32 (nqps (base c))) (fun qpIndex =>
let* localQp := of_option (zget (qps (base c)) qpIndex) in
if negb (devIndex localQp =? pr_devIndex ctx) then ret tt else
let* ok := modifyQp (NetQp (DataQp qpIndex)) QpToError in
if ok then ret tt else fail ncclSystemError).

(** The rest of the messages, with a fresh receive posted for each; polls until
the queue is empty, at most [fuel] times. *)
Fixpoint drain (fuel : nat) : rec bool :=
match fuel with
| O => fault
| Datatypes.S fuel' =>
let* r := pollRecovery NCCL_IB_RESILIENCY_PORT_RECOVERY_CQ_SIZE in
match r with
| None => ret false
| Some wcs =>
let* ctx := gets rctx in
let* ok := postRecvs (pr_devIndex ctx) (Z.of_nat (length wcs)) in
if negb ok then ret false
else if (length wcs =? 0)%nat then ret true else drain fuel'
end
end.

(** ** [ncclIbPortRecoveryContextInit]

[malloc] succeeds; the caller starts from the zeroed context. *)

Definition freshRecoveryContext (resCtx devIdx timeInit : Z) : ncclIbPortRecoveryContext :=
mkRecoveryContext resCtx devIdx ncclIbPortRecoveryStateInit timeInit 0 0 0
false false false false false 0.

Definition ncclIbPortRecoveryContextInit (resCtx devIdx : Z) : rec unit :=
modCtx (fun _ => freshRecoveryContext resCtx devIdx 0) ;;;
let* t := rclock in
modCtx (fun c => c <| pr_timeInit := t |>) ;;;
let* c := getComm in
ncclIbPortRecoveryQpsToError ;;;
let n := if isSend (base c) then 1 else NCCL_IB_RESILIENCY_PORT_RECOVERY_ALIVE_MSG_BATCH_SIZE_MAX in
let* ok := postRecvs devIdx n in
if ok then ret tt else fail ncclSystemError.

(** ** Completions *)

Definition ncclIbPortRecoveryHandleCompletionReceiver (wc : RecWc) : rec bool :=
let* c := gets rctx in
match pr_state c with
| ncclIbPortRecoveryStateAliveMessages =>
if pr_ackPosted c then
match rw_opcode wc with
| IBV_WC_RECV => ncclIbPortRecoveryPostRecvWorkRequest (pr_devIndex c)
| IBV_WC_SEND => modCtx (fun c => c <| pr_ackCompleted := true |>) ;;; ret true
| _ => ret false
end
else if negb (bool_decide (rw_opcode wc = IBV_WC_RECV)) then ret false
else
(if rw_imm wc =? pr_aliveMsgNextId c
 then modCtx (fun c => c <| pr_nInOrderMsgsReceived := pr_nInOrderMsgsReceived c + 1 |>
     <| pr_aliveMsgNextId := u32 (pr_aliveMsgNextId c + 1) |>)
 else modCtx (fun c => c <| pr_aliveMsgNextId := u32 (rw_imm wc + 1) |>
     <| pr_nInOrderMsgsReceived := 0 |>)) ;;;
let* now := rclock in
modCtx (fun c => c <| pr_timeLastMsg := now |>) ;;;
ncclIbPortRecoveryPostRecvWorkRequest (pr_devIndex c)
| ncclIbPortRecoveryStateAck =>
if negb (bool_decide (rw_opcode wc = IBV_WC_RECV)) then ret false
else if negb (rw_imm wc =? NCCL_IB_RESILIENCY_PORT_RECOVERY_ACK_MSG_ID) then ret false
else modCtx (fun c => c <| pr_ackReceived := true |>) ;;; ret true
| _ => ret true
end.

Definition ncclIbPortRecoveryHandleCompletionSender (wc : RecWc) : rec bool :=
let* c := gets rctx in
match pr_state c with
| ncclIbPortRecoveryStateAliveMessages =>
if bool_decide (rw_opcode wc = IBV_WC_SEND) then
if pr_aliveMsgCompleted c then ret false
else modCtx (fun c => c <| pr_aliveMsgCompleted := true |>) ;;; ret true
else ret false
| ncclIbPortRecoveryStateAck =>
if negb (pr_ackReceived c) then
if negb (bool_decide (rw_opcode wc = IBV_WC_RECV)) then ret false
else if negb (rw_imm wc =? NCCL_IB_RESILIENCY_PORT_RECOVERY_ACK_MSG_ID) then ret false
else modCtx (fun c => c <| pr_ackReceived := true |>) ;;; ret true
else if negb (bool_decide (rw_opcode wc = IBV_WC_SEND)) then ret false
else modCtx (fun c => c <| pr_ackCompleted := true |>) ;;; ret true
| _ => ret true
end.

Definition ncclIbPortRecoveryPollCq : rec bool :=
let* r := pollRecovery 1 in
match r with
| None => ret false
| Some [] => ret true
| Some (wc :: _) =>
if negb (bool_decide (rw_status wc = IBV_WC_SUCCESS)) then ret false else
let* c := getComm in
if isSend (base c) then ncclIbPortRecoveryHandleCompletionSender wc
else ncclIbPortRecoveryHandleCompletionReceiver wc
end.

(** ** Messages *)

(** The batch: consecutive identifiers, the last message signalled. *)
Fixpoint aliveMsgs (n : nat) (id : Z) : list RecMsg :=
match n with
| O => []
| Datatypes.S n' => mkRecMsg id (n' =? 0)%nat :: aliveMsgs n' (u32 (id + 1))
end.

(** The array of work requests is uninitialised when the size is not positive. *)
Definition ncclIbPortRecoveryPostAliveMessages : rec bool :=
let nMsgsToPost := i32 (aliveMsgSequenceSize rprm) in
if NCCL_IB_RESILIENCY_PORT_RECOVERY_ALIVE_MSG_BATCH_SIZE_MAX <? nMsgsToPost
then fail ncclInternalError else
if nMsgsToPost <=? 0 then fault else
let* c := gets rctx in
modCtx (fun c => c <| pr_aliveMsgNextId := u32 (pr_aliveMsgNextId c + nMsgsToPost) |>) ;;;
let* ok := postSend (aliveMsgs (Z.to_nat nMsgsToPost) (pr_aliveMsgNextId c)) in
if negb ok then ret false else
let* now := rclock in
modCtx (fun c => c <| pr_timeLastMsg := now |> <| pr_aliveMsgPosted := true |>) ;;;
ret true.

Definition ncclIbPortRecoveryPostAck : rec bool :=
let* ok := postSend [mkRecMsg NCCL_IB_RESILIENCY_PORT_RECOVERY_ACK_MSG_ID true] in
if negb ok then ret false else
modCtx (fun c => c <| pr_ackPosted := true |>) ;;; ret true.

(** ** The phase of alive messages

[outResult] is the value the result has at the call. *)

(** [nFailedAttempts++]; whether that was the last attempt. *)
Definition countFailure : rec bool :=
modCtx (fun c => c <| pr_nFailedAttempts := pr_nFailedAttempts c + 1 |>) ;;;
gets (fun s => attemptsMax rprm <=? pr_nFailedAttempts (rctx s)).

Definition ncclIbPortRecoveryProgressAliveMessagesSender : rec progressResult :=
let* c := gets rctx in
if negb (pr_aliveMsgPosted c) then
let* now := rclock in
if elapsed now (pr_timeLastMsg c) <? nsec (aliveMsgBatchInterval rprm) then ret InProgress else
let* ok := ncclIbPortRecoveryPostAliveMessages in
ret (if ok then InProgress else Failed)
else
let* ok := ncclIbPortRecoveryPollCq in
if negb ok then ret Failed else
let* c := gets rctx in
ret (if pr_aliveMsgCompleted c then GoToNextState else InProgress).

Definition ncclIbPortRecoveryProgressAliveMessagesReceiver (fuel : nat) : rec progressResult :=
let* c := gets rctx in
if negb (pr_ackPosted c) then
let* ok := ncclIbPortRecoveryPollCq in
if negb ok then ret Failed else
let* c := gets rctx in
if aliveMsgSequenceSize rprm <? pr_nInOrderMsgsReceived c then
let* ok := drain fuel in
if negb ok then ret Failed else
let* ok := ncclIbPortRecoveryQpsRestore ok in
if negb ok then ret Failed else
let* ok := ncclIbPortRecoveryPostAck in
ret (if ok then InProgress else Failed)
else
let* now := rclock in
if nsec (aliveMsgTimeout rprm) <? elapsed now (pr_timeLastMsg c) then
let* last := countFailure in
if last then ret Failed else
modCtx (fun c => c <| pr_timeLastMsg := now |>) ;;;
ret InProgress
else ret InProgress
else
let* ok := ncclIbPortRecoveryPollCq in
if negb ok then ret Failed else
let* c := gets rctx in
if pr_ackCompleted c then ret GoToNextState else
let* now := rclock in
if nsec (ackTimeout rprm) <? elapsed now (pr_timeLastMsg c) then
let* last := countFailure in
if last then ret Failed else
modCtx (fun c => c <| pr_ackPosted := false |> <| pr_ackCompleted := false |>
 <| pr_timeLastMsg := now |>) ;;;
let* ok := postRecvs (pr_devIndex c) NCCL_IB_RESILIENCY_PORT_RECOVERY_ALIVE_MSG_BATCH_SIZE_MAX in
ret (if ok then GoToPrevState else Failed)
else ret InProgress.

Definition setState (st : ncclIbPortRecoveryState) : rec unit :=
modCtx (fun c => c <| pr_state := st |>).

Definition ncclIbPortRecoveryProgressAliveMessages (fuel : nat) : rec unit :=
let* c := getComm in
let* r := (if isSend (base c) then ncclIbPortRecoveryProgressAliveMessagesSender
 else ncclIbPortRecoveryProgressAliveMessagesReceiver fuel) in
match r with
| GoToPrevState => fail ncclInternalError
| GoToNextState => setState ncclIbPortRecoveryStateAck
| Failed => setState ncclIbPortRecoveryStateFailed
| InProgress => ret tt
end.

(** ** The phase of acknowledgements *)

(** The acknowledgement of the sender: the queue pairs are restored first;
[success] is the value [success] has. *)
Definition finishAckSender (outResult : progressResult) (success : bool) : rec progressResult :=
let* c := gets rctx in
let* r := (if negb (pr_ackPosted c) then
 let* ok := ncclIbPortRecoveryQpsRestore success in
 if negb ok then ret None else
 let* ok := ncclIbPortRecoveryPostAck in
 ret (if ok then Some InProgress else None)
 else ret (Some outResult)) in
match r with
| None => ret Failed
| Some outResult =>
let* c := gets rctx in
if negb (pr_ackCompleted c) then
let* ok := ncclIbPortRecoveryPollCq in
if negb ok then ret Failed else
let* c := gets rctx in
ret (if pr_ackCompleted c then GoToNextState else InProgress)
else ret outResult
end.

Definition ncclIbPortRecoveryProgressAckSender (outResult : progressResult) : rec progressResult :=
let* c := gets rctx in
if negb (pr_ackReceived c) then
let* ok := ncclIbPortRecoveryPollCq in
if negb ok then ret Failed else
let* c := gets rctx in
if negb (pr_ackReceived c) then
let* now := rclock in
if nsec (ackTimeout rprm) <? elapsed now (pr_timeLastMsg c) then
let* last := countFailure in
if last then ret Failed else
modCtx (fun c => c <| pr_aliveMsgPosted := false |> <| pr_aliveMsgCompleted := false |>) ;;;
ret GoToPrevState
else ret InProgress
else finishAckSender outResult ok
else finishAckSender outResult false.

Definition ncclIbPortRecoveryProgressAckReceiver (fuel : nat) : rec progressResult :=
let* ok := ncclIbPortRecoveryPollCq in
if negb ok then ret Failed else
let* c := gets rctx in
if negb (pr_ackReceived c) then
let* now := rclock in
if nsec (ackTimeout rprm) <? elapsed now (pr_timeLastMsg c) then
let* last := countFailure in
if last then ret Failed else
modCtx (fun c => c <| pr_ackPosted := false |> <| pr_ackCompleted := false |>
 <| pr_nInOrderMsgsReceived := 0 |>) ;;;
let* ok := drain fuel in
ret (if ok then GoToPrevState else Failed)
else ret InProgress
else ret GoToNextState.

Definition ncclIbPortRecoveryProgressAck (fuel : nat) : rec unit :=
let* c := getComm in
let* r := (if isSend (base c) then ncclIbPortRecoveryProgressAckSender Failed
 else ncclIbPortRecoveryProgressAckReceiver fuel) in
match r with
| GoToPrevState => setState ncclIbPortRecoveryStateAliveMessages
| GoToNextState => setState ncclIbPortRecoveryStateSuccess
| Failed => setState ncclIbPortRecoveryStateFailed
| InProgress => ret tt
end.

(** ** [ncclIbPortRecoveryContextProgress] *)

(** The loop over the devices that stores the outcome. *)
Definition storeDevState (st : ncclIbResiliencyDevState) : rec unit :=
let* c := gets rctx in
let* r := getResCtx in
forN (res_ndevs r) (fun i =>
if negb (i =? pr_devIndex c) then ret tt else onComm (setDevState i st)).

Definition inState (st : ncclIbPortRecoveryState) (m : rec unit) : rec unit :=
let* c := gets rctx in when (bool_decide (pr_state c = st)) m.

(** The delay before the protocol starts; the result says whether to go on. *)
Definition progressInit : rec bool :=
let* c := gets rctx in
if negb (bool_decide (pr_state c = ncclIbPortRecoveryStateInit)) then ret true else
let* now := rclock in
if elapsed now (pr_timeInit c) <? nsec (startDelay rprm) then ret false else
let* ok := ncclIbResiliencyQpsReconfigure (pr_devIndex c) in
if negb ok then setState ncclIbPortRecoveryStateFailed ;;; ret true else
let* comm := getComm in
when (isSend (base comm)) (modCtx (fun c => c <| pr_timeLastMsg := 0 |>)) ;;;
setState ncclIbPortRecoveryStateAliveMessages ;;;
ret true.

(** Result: [*outDone]. *)
Definition ncclIbPortRecoveryContextProgress (fuel : nat) : rec bool :=
let* go := progressInit in
if negb go then ret false else
inState ncclIbPortRecoveryStateAliveMessages (ncclIbPortRecoveryProgressAliveMessages fuel) ;;;
inState ncclIbPortRecoveryStateAck (ncclIbPortRecoveryProgressAck fuel) ;;;
inState ncclIbPortRecoveryStateSuccess (storeDevState ncclIbResiliencyDevStateRecovered) ;;;
inState ncclIbPortRecoveryStateFailed (storeDevState ncclIbResiliencyDevStateRecoveryFailed) ;;;
let* c := gets rctx in
ret (bool_decide (pr_state c = ncclIbPortRecoveryStateSuccess)
 || bool_decide (pr_state c = ncclIbPortRecoveryStateFailed)).

End Recovery.
