(* ===== verification/RecoverySpec.v ===== *)
(** * Transport: what the recovery protocol guarantees

    A run of the protocol of one device is followed through its history with the
    provider; [wp m Q s] says that [m], if it returns from [s], returns a value and
    a state in [Q]. *)

From S2P Require Import Prelude NetTypes NetBase NetInv Resiliency Recovery.

Open Scope Z_scope.
Open Scope nccl_scope.

(** ** Weakest preconditions *)

Definition wp {S A} (m : comp S A) (Q : A -> S -> Prop) (s : S) : Prop :=
  match m s with (Done a, s') => Q a s' | _ => True end.

Section Wp.
Context {S : Type}.

Lemma wp_bind {A B} (m : comp S A) (k : A -> comp S B) Q s :
wp m (fun a => wp (k a) Q) s -> wp (bind m k) Q s.
Proof. unfold wp, bind. destruct (m s) as [[a|r|] s']; auto. Qed.

Lemma wp_mono {A} (m : comp S A) (Q Q' : A -> S -> Prop) s :
wp m Q s -> (forall a s', Q a s' -> Q' a s') -> wp m Q' s.
Proof. unfold wp. destruct (m s) as [[a|r|] s']; auto. Qed.

Lemma wp_seq {A B} (m : comp S A) (k : A -> comp S B) (R : A -> S -> Prop) Q s :
wp m R s -> (forall a s', R a s' -> wp (k a) Q s') -> wp (bind m k) Q s.
Proof. intros H Hk. apply wp_bind. eapply wp_mono; [exact H|exact Hk]. Qed.

Lemma wp_ret {A} (a : A) (Q : A -> S -> Prop) s : Q a s -> wp (ret a) Q s.
Proof. done. Qed.

Lemma wp_done {A} (m : comp S A) Q s a s' : wp m Q s -> m s = (Done a, s') -> Q a s'.
Proof. unfold wp. intros H E. now rewrite E in H. Qed.

Lemma wp_gets {A} (f : S -> A) Q s : Q (f s) s -> wp (gets f) Q s.
Proof. done. Qed.

Lemma wp_getS (Q : S -> S -> Prop) s : Q s s -> wp getS Q s.
Proof. done. Qed.

Lemma wp_modify (f : S -> S) (Q : unit -> S -> Prop) s : Q tt (f s) -> wp (modify f) Q s.
Proof. done. Qed.

Lemma wp_of_option {A} (o : option A) (Q : A -> S -> Prop) s : (forall a, o = Some a -> Q a s) -> wp (of_option o) Q s.
Proof. destruct o as [a|]; unfold wp; cbn; auto. Qed.

Lemma wp_fail {A} r (Q : A -> S -> Prop) s : wp (fail r) Q s.
Proof. done. Qed.

Lemma wp_fault {A} (Q : A -> S -> Prop) s : wp fault Q s.
Proof. done. Qed.

Lemma wp_when b (m : comp S unit) Q s : (b = true -> wp m Q s) -> (b = false -> Q tt s) -> wp (when b m) Q s.
Proof. destruct b; cbn; auto. Qed.

(** The rule of a loop that may return early. *)
Lemma wp_forReturn {A} (I : Z -> S -> Prop) (R : A -> S -> Prop) n i (body : Z -> comp S (option A)) s :
(forall j s1, i <= j < i + Z.of_nat n -> I j s1 ->
wp (body j) (fun r s2 => match r with None => I (j + 1) s2 | Some a => R a s2 end) s1) ->
I i s ->
wp (forReturn n i body) (fun r s' => match r with None => I (i + Z.of_nat n) s' | Some a => R a s' end) s.
Proof.
revert i s. induction n as [|n IH]; intros i s Hb HI.
- cbn. apply wp_ret. now replace (i + Z.of_nat 0) with i by lia.
- cbn [forReturn]. eapply wp_seq; [apply Hb; [lia|exact HI]|]. intros [a|] s1 H1; [now apply wp_ret|].
replace (i + Z.of_nat (Datatypes.S n)) with (i + 1 + Z.of_nat n) by lia.
apply IH; [|exact H1]. intros j s2 Hj. apply Hb. lia.
Qed.

Lemma wp_for (I : Z -> S -> Prop) n i (body : Z -> comp S unit) s :
(forall j s1, i <= j < i + Z.of_nat n -> I j s1 -> wp (body j) (fun _ => I (j + 1)) s1) ->
I i s -> wp (for_ n i body) (fun _ => I (i + Z.of_nat n)) s.
Proof.
revert i s. induction n as [|n IH]; intros i s Hb HI.
- cbn. apply wp_ret. now replace (i + Z.of_nat 0) with i by lia.
- cbn [for_]. eapply wp_seq; [apply Hb; [lia|exact HI]|]. intros [] s1 H1.
replace (i + Z.of_nat (Datatypes.S n)) with (i + 1 + Z.of_nat n) by lia.
apply IH; [|exact H1]. intros j s2 Hj. apply Hb. lia.
Qed.
End Wp.

(** ** The history of one context *)

(** What of a communicator recovery depends on and nothing changes. *)
Record Conn := mkConn { k_isSend : bool; k_nqps : Z; k_qps : list ncclIbQp }.
Definition conn (s : Net) : Conn := mkConn (isSend (base s)) (nqps (base s)) (qps (base s)).

(** Polls of other completion queues, and everything else. *)
Definition no_poll (c d : Z) (e : RecEvent) : Prop :=
  match e with PolledRecoveryCq c' d' _ => (c', d') <> (c, d) | _ => True end.

(** The immediate data of the messages received for device [d], oldest first. *)
Definition recvImms (c d : Z) (h : list RecEvent) : list Z :=
  flat_map (fun e => match e with
    | PolledRecoveryCq c' d' wcs =>
        if decide ((c', d') = (c, d))
        then rw_imm <$> filter (fun w => rw_status w = IBV_WC_SUCCESS /\ rw_opcode w = IBV_WC_RECV) wcs
        else []
    | _ => []
    end) h.

Lemma recvImms_app c d h h' : recvImms c d (h ++ h') = recvImms c d h ++ recvImms c d h'.
Proof. apply flat_map_app. Qed.

Lemma recvImms_no_poll c d es : Forall (no_poll c d) es -> recvImms c d es = [].
Proof.
  induction 1 as [|e es He _ IH]; [done|].
  destruct e; try exact IH. cbn in *. now rewrite decide_False.
Qed.

(** From [s] to [s']: the communicator is still there, the history grew, without
    a poll for the device. *)
Record ext (k : Conn) (c d : Z) (s s' : Shared) : Prop := mkExt
  { ext_conn : (exists n, zget (comms s) c = Some n /\ conn n = k) ->
               exists n, zget (comms s') c = Some n /\ conn n = k;
    ext_hist : exists es, rhistory s' = rhistory s ++ es /\ Forall (no_poll c d) es }.

#[export] Instance ext_preorder k c d : PreOrder (ext k c d).
Proof.
  split.
  - intros s. split; [done|]. exists []. now rewrite app_nil_r.
  - intros s1 s2 s3 [Hc1 (es1 & E1 & H1)] [Hc2 (es2 & E2 & H2)]. split; [auto|].
    exists (es1 ++ es2). rewrite E2, E1, app_assoc. split; [done|]. now apply Forall_app.
Qed.

(** The same for a step of the protocol that leaves the context alone. *)
Definition quiet (k : Conn) (c d : Z) (s s' : RecState) : Prop :=
  rctx s' = rctx s /\ ext k c d (shared s) (shared s').

#[export] Instance quiet_preorder k c d : PreOrder (quiet k c d).
Proof.
  split.
  - intros s. now split.
  - intros s1 s2 s3 [E1 H1] [E2 H2]. split; [congruence|]. now transitivity (shared s2).
Qed.

(** Milestones in the history, the latest first; each sees what came before. *)
Fixpoint follows (ms : list (list RecEvent -> RecEvent -> Prop)) (h : list RecEvent) : Prop :=
  match ms with
  | [] => True
  | m :: ms' => exists h1 e h2, h = h1 ++ e :: h2 /\ m h1 e /\ follows ms' h1
  end.

Lemma follows_app ms h es : follows ms h -> follows ms (h ++ es).
Proof.
  destruct ms as [|m ms]; [done|]. intros (h1 & e & h2 & -> & Hm & Hf).
  exists h1, e, (h2 ++ es). split; [now rewrite <- app_assoc|done].
Qed.

Lemma follows_snoc (m : list RecEvent -> RecEvent -> Prop) ms h e :
  m h e -> follows ms h -> follows (m :: ms) (h ++ [e]).
Proof. intros Hm Hf. now exists h, e, []. Qed.

(** ** The milestones *)

Definition completed (op : wcOpcode) (imm : Z -> Prop) (c d : Z) (_ : list RecEvent) (e : RecEvent) : Prop :=
  exists wc wcs, e = PolledRecoveryCq c d (wc :: wcs) /\ rw_status wc = IBV_WC_SUCCESS /\
    rw_opcode wc = op /\ imm (rw_imm wc).

Definition ackArrived : Z -> Z -> list RecEvent -> RecEvent -> Prop :=
  completed IBV_WC_RECV (fun i => i = NCCL_IB_RESILIENCY_PORT_RECOVERY_ACK_MSG_ID).
Definition sendDone : Z -> Z -> list RecEvent -> RecEvent -> Prop :=
  completed IBV_WC_SEND (fun _ => True).

(** Every data queue pair of the device was brought back to the state in which it
    can send. *)
Definition restored (k : Conn) (c d : Z) (h : list RecEvent) : Prop :=
  forall i q, 0 <= i < u32 (k_nqps k) -> zget (k_qps k) i = Some q -> devIndex q = d ->
    ModifiedQp c (NetQp (DataQp i)) QpRts true ∈ h.

Definition ackSent (k : Conn) (c d : Z) (h : list RecEvent) (e : RecEvent) : Prop :=
  e = PostedRecoverySend c d [mkRecMsg NCCL_IB_RESILIENCY_PORT_RECOVERY_ACK_MSG_ID true] /\
  restored k c d h.

(** Consecutive identifiers. *)
Fixpoint ids (n : nat) (id : Z) : list Z :=
  match n with O => [] | Datatypes.S n' => id :: ids n' (u32 (id + 1)) end.

(** [n] messages in a row were received. *)
Definition aliveRun (n : nat) (c d : Z) (h : list RecEvent) : Prop :=
  exists l0 id l1, recvImms c d h = l0 ++ ids n id ++ l1.

(** The identifier after [n] more. *)
Fixpoint nextId (n : nat) (id : Z) : Z :=
  match n with O => id | Datatypes.S n' => nextId n' (u32 (id + 1)) end.

Lemma ids_snoc n id : ids (Datatypes.S n) id = ids n id ++ [nextId n id].
Proof. revert id. induction n as [|n IH]; intros id; [done|]. cbn [ids nextId app]. now rewrite <- IH. Qed.

Lemma nextId_S n id : nextId (Datatypes.S n) id = u32 (nextId n id + 1).
Proof. revert id. induction n as [|n IH]; intros id; [done|]. cbn [nextId] in *. now rewrite IH. Qed.

Lemma ids_suffix n m id : exists l0 id', ids (n + m) id = l0 ++ ids m id'.
Proof.
  revert id. induction n as [|n IH]; intros id; [now exists [], id|].
  destruct (IH (u32 (id + 1))) as (l0 & id' & E). exists (id :: l0), id'. cbn. now rewrite E.
Qed.

Lemma aliveRun_app n c d h es : aliveRun n c d h -> aliveRun n c d (h ++ es).
Proof.
  intros (l0 & id & l1 & E). exists l0, id, (l1 ++ recvImms c d es).
  now rewrite recvImms_app, E, <- !app_assoc.
Qed.

Section Protocol.
Context `{M : RecoveryMachine}.

(** The acknowledgement of the receiver. *)
Definition ackGiven (k : Conn) (c d : Z) (h : list RecEvent) (e : RecEvent) : Prop :=
ackSent k c d h e /\ aliveRun (Z.to_nat (aliveMsgSequenceSize rprm + 1)) c d h.

(** The two sides of a finished handshake. *)
Definition handshake (k : Conn) (c d : Z) (h : list RecEvent) : Prop :=
if k_isSend k
then follows [sendDone c d; ackSent k c d; ackArrived c d] h
else follows [ackArrived c d; sendDone c d;
ackGiven k c d] h.
End Protocol.

(** ** What the steps of the protocol leave behind *)

(** Posting receives changes the history of a communicator only. *)
Lemma keeps_postRecvs `{RecoveryMachine} (I : Net -> Prop) qpIndex :
  (forall n e, I n -> I (n <| history := history n ++ [e] |>)) ->
  keeps I (ncclIbPostReceiveWorkRequestsOnQp qpIndex) (fun _ => True).
Proof.
  intros HI.
  assert (keeps I ncclIbCommBaseGetNqpsPerRequest (fun _ => True))
    by (unfold ncclIbCommBaseGetNqpsPerRequest; kwalk).
  assert (keeps I ncclIbResiliencyDataRqSizeGet (fun _ => True))
    by (unfold ncclIbResiliencyDataRqSizeGet; kwalk).
  assert (keeps I getRecv (fun _ => True)) by (unfold getRecv; kwalk).
  assert (forall q i, keeps I (wrap_post_recv q i) (fun _ => True)).
  { intros q i. unfold wrap_post_recv, log. kwalk. apply keeps_modify; auto. }
  unfold ncclIbPostReceiveWorkRequestsOnQp. kwalk.
Qed.

Section Steps.
Context `{M : RecoveryMachine} (k : Conn) (c d : Z).

Abbreviation hist s := (rhistory (shared s)).

(** The step works for device [d] of the connected communicator [c]. *)
Definition here (s : RecState) : Prop :=
pr_resCtx (rctx s) = c /\ pr_devIndex (rctx s) = d /\
exists n, zget (comms (shared s)) c = Some n /\ conn n = k.

Lemma here_quiet s s' : here s -> quiet k c d s s' -> here s'.
Proof. intros (? & ? & ?) [E [Hc _]]. unfold here. rewrite E. auto. Qed.

Lemma quiet_log s e : no_poll c d e ->
quiet k c d s (s <| shared := (shared s) <| rhistory := hist s ++ [e] |> |>).
Proof. intros He. split; [done|]. split; [done|]. exists [e]. split; [done|]. now constructor. Qed.

Lemma quiet_hist s s' ev : quiet k c d s s' -> ev ∈ hist s -> ev ∈ hist s'.
Proof. intros [_ [_ (es & -> & _)]] H. apply elem_of_app. now left. Qed.

Lemma wp_rclock s : wp rclock (fun _ s' => quiet k c d s s') s.
Proof. apply quiet_log. done. Qed.

Lemma wp_modifyQp q op s : here s ->
wp (modifyQp q op) (fun ok s' => quiet k c d s s' /\ (ok = true -> ModifiedQp c q op true ∈ hist s')) s.
Proof.
intros (Hc & _ & _). unfold modifyQp. apply wp_bind, wp_getS, wp_bind. rewrite Hc.
apply wp_modify, wp_ret. split; [now apply quiet_log|]. intros ->. apply elem_of_app. right. now left.
Qed.

Lemma wp_postRecv dev s : wp (ncclIbPortRecoveryPostRecvWorkRequest dev) (fun _ s' => quiet k c d s s') s.
Proof.
unfold ncclIbPortRecoveryPostRecvWorkRequest. apply wp_bind, wp_getS. case_match; [|now apply wp_ret].
apply wp_bind, wp_modify, wp_ret. now apply quiet_log.
Qed.

Lemma wp_postRecvs dev n s : wp (postRecvs dev n) (fun _ s' => quiet k c d s s') s.
Proof.
unfold postRecvs. eapply wp_seq.
- apply (wp_forReturn (fun _ => quiet k c d s) (fun _ => quiet k c d s)); [|done].
intros j s1 _ H1. eapply wp_seq; [apply wp_postRecv|]. intros ok s2 H2. apply wp_ret.
assert (quiet k c d s s2) by (now transitivity s1). now destruct ok.
- intros [u|] s1 H1; now apply wp_ret.
Qed.

Lemma wp_postSend msgs s : here s ->
wp (postSend msgs) (fun ok s' => quiet k c d s s' /\
(ok = true -> hist s' = hist s ++ [PostedRecoverySend c d msgs])) s.
Proof.
intros (Hc & Hd & _). unfold postSend. apply wp_bind, wp_getS. rewrite Hc, Hd.
case_match; [|now apply wp_ret]. apply wp_bind, wp_modify, wp_ret. split; [now apply quiet_log|done].
Qed.

(** A computation of steps none of which touches the context: the rule of [let*]. *)
Lemma wp_quiet {A B} (m : rec A) (kk : A -> rec B) (R : A -> RecState -> Prop) Q s :
here s -> wp m (fun a s' => quiet k c d s s' /\ R a s') s ->
(forall a s', here s' -> quiet k c d s s' -> R a s' -> wp (kk a) Q s') -> wp (bind m kk) Q s.
Proof.
intros Hh H Hk. eapply wp_seq; [exact H|]. intros a s' [Hq HR]. apply Hk; [|done..].
now apply (here_quiet s).
Qed.

Lemma wp_reconfigure q s : here s ->
wp (ncclIbResiliencyQpReconfigure q)
(fun ok s' => quiet k c d s s' /\ (ok = true -> ModifiedQp c q QpRts true ∈ hist s')) s.
Proof.
intros Hh. unfold ncclIbResiliencyQpReconfigure. apply wp_bind, wp_gets.
case_match; [apply wp_fail|].
eapply wp_quiet; [done|now apply wp_modifyQp|]. intros ok s1 Hw1 Qw1 _. case_match; [now apply wp_ret|].
eapply wp_quiet; [done|now apply wp_modifyQp|]. intros ok2 s2 Hw2 Qw2 _.
case_match; [apply wp_ret; split; [now transitivity s1|done]|].
apply wp_bind, wp_getS.
eapply (wp_quiet _ _ (fun _ _ => True)); [done| |].
{ case_match; [|now apply wp_ret]. eapply wp_mono; [now apply wp_modifyQp|]. now intros ? ? [? _]. }
intros ok3 s3 Hw3 Qw3 _.
assert (quiet k c d s s3) as Q03 by (transitivity s1; [done|now transitivity s2]).
case_match; [now apply wp_ret|].
eapply wp_quiet; [done|now apply wp_modifyQp|]. intros ok4 s4 Hw4 Qw4 _.
assert (quiet k c d s s4) as Q04 by now transitivity s3.
case_match; [now apply wp_ret|].
eapply wp_mono; [now apply wp_modifyQp|]. intros ok5 s5 [Q5 Hev]. split; [now transitivity s4|done].
Qed.

Lemma onComm_quiet {A} (m : net A) Q s : here s -> keeps (fun n => conn n = k) m Q ->
quiet k c d s (snd (onComm m s)).
Proof.
intros (Hc & _ & n & Hn & Hk) Hm. unfold onComm. rewrite Hc, Hn.
destruct (Hm n Hk) as [Hk' _]. destruct (m n) as [o n']. cbn in *.
split; [done|]. split; [|exists []; cbn; now rewrite app_nil_r].
intros _. exists n'. split; [apply zget_zupd_eq; now apply zget_Some in Hn|done].
Qed.

Lemma wp_onComm {A} (m : net A) Q s : here s -> keeps (fun n => conn n = k) m Q ->
wp (onComm m) (fun _ s' => quiet k c d s s') s.
Proof.
intros Hh Hm. pose proof (onComm_quiet m Q s Hh Hm) as Hq. unfold wp.
now destruct (onComm m s) as [[a|r|] s'].
Qed.

Lemma wp_succeeds_onComm (m : net unit) Q s : here s -> keeps (fun n => conn n = k) m Q ->
wp (succeeds (onComm m)) (fun _ s' => quiet k c d s s') s.
Proof.
intros Hh Hm. pose proof (onComm_quiet m Q s Hh Hm) as Hq. unfold wp, succeeds.
now destruct (onComm m s) as [[a|r|] s'].
Qed.

Lemma wp_getComm (Q : Net -> RecState -> Prop) s : here s ->
(forall n, zget (comms (shared s)) c = Some n -> conn n = k -> Q n s) -> wp getComm Q s.
Proof.
intros (Hc & _ & n & Hn & Hk) HQ. unfold getComm. apply wp_bind, wp_getS. rewrite Hc, Hn. cbn.
apply wp_ret. now apply HQ.
Qed.

Lemma wp_getResCtx (Q : ncclIbResiliency -> RecState -> Prop) s : here s -> (forall r, Q r s) -> wp getResCtx Q s.
Proof.
intros Hh HQ. unfold getResCtx. apply wp_bind, wp_getComm; [done|]. intros n _ _.
apply wp_of_option. intros r _. apply HQ.
Qed.

Lemma wp_recoveryQpsReconfigure dev s : here s ->
wp (ncclIbPortRecoveryQpsReconfigure dev) (fun _ s' => quiet k c d s s') s.
Proof.
intros Hh. unfold ncclIbPortRecoveryQpsReconfigure.
apply wp_bind, wp_getComm; [done|]. intros n _ _.
apply wp_bind, wp_getResCtx; [done|]. intros r. cbv zeta.
eapply wp_seq.
- apply (wp_forReturn (fun _ s1 => quiet k c d s s1) (fun _ s1 => quiet k c d s s1)); [|done].
intros i s1 _ Qw1. assert (here s1) as Hw1 by now apply (here_quiet s).
apply wp_bind, wp_getS, wp_bind, wp_gets. case_match; [now apply wp_ret|].
eapply wp_quiet; [done|now apply wp_reconfigure|]. intros ok s2 Hw2 Qw2 _.
assert (quiet k c d s s2) by now transitivity s1.
case_match; [now apply wp_ret|]. eapply wp_seq; [apply wp_postRecvs|].
intros ok2 s3 Qw3. apply wp_ret. assert (quiet k c d s s3) by now transitivity s2. now destruct ok2.
- intros [u|] s1 H1; now apply wp_ret.
Qed.

Lemma wp_qpsReconfigure dev s : here s ->
wp (ncclIbResiliencyQpsReconfigure dev) (fun _ s' => quiet k c d s s') s.
Proof.
intros Hh. unfold ncclIbResiliencyQpsReconfigure.
apply wp_bind, wp_getResCtx; [done|]. intros r. eapply wp_seq.
- apply (wp_forReturn (fun _ s1 => quiet k c d s s1) (fun _ s1 => quiet k c d s s1)); [|done].
intros i s1 _ Qw1. assert (here s1) as Hw1 by now apply (here_quiet s).
apply wp_bind, wp_of_option. intros qp _. apply wp_bind, wp_gets. case_match; [now apply wp_ret|].
eapply wp_quiet; [done|now apply wp_reconfigure|]. intros ok s2 Hw2 Qw2 _.
apply wp_ret. assert (quiet k c d s s2) by now transitivity s1. now destruct ok.
- intros [u|] s1 Qw1; [now apply wp_ret|].
eapply wp_mono; [apply wp_recoveryQpsReconfigure; now apply (here_quiet s)|].
intros ok s2 Qw2. now transitivity s1.
Qed.

(** The queue pairs of the device, up to index [i], are back. *)
Definition restoredTo (i : Z) (h : list RecEvent) : Prop :=
forall j q, 0 <= j < i -> zget (k_qps k) j = Some q -> devIndex q = d ->
ModifiedQp c (NetQp (DataQp j)) QpRts true ∈ h.

Lemma restoredTo_step i s s' q : quiet k c d s s' -> restoredTo i (hist s) ->
zget (k_qps k) i = Some q -> (devIndex q = d -> ModifiedQp c (NetQp (DataQp i)) QpRts true ∈ hist s') ->
restoredTo (i + 1) (hist s').
Proof.
intros Hq Hr Hi Hev j q' Hj Hq' Hd. destruct (decide (j = i)) as [->|].
- apply Hev. congruence.
- eapply quiet_hist; [exact Hq|]. apply (Hr j q'); [lia|done|done].
Qed.

Lemma wp_qpsRestore success s : here s ->
wp (ncclIbPortRecoveryQpsRestore success)
(fun ok s' => quiet k c d s s' /\ (ok = true -> success = true /\ restored k c d (hist s'))) s.
Proof.
intros Hh. unfold ncclIbPortRecoveryQpsRestore. apply wp_bind, wp_gets, wp_bind, wp_getComm; [done|].
intros n Hn Hk. destruct Hh as (Hc & Hd & Hx). assert (here s) as Hh by done. rewrite Hd.
assert (nqps (base n) = k_nqps k /\ qps (base n) = k_qps k) as [-> ->] by now rewrite <- Hk.
eapply (wp_seq _ _ (fun r s1 => quiet k c d s s1 /\
match r with None => restored k c d (hist s1) | Some _ => True end)).
- eapply wp_mono.
+ apply (wp_forReturn (fun i s1 => quiet k c d s s1 /\ restoredTo i (hist s1)) (fun _ s1 => quiet k c d s s1)).
* intros i s1 _ [Qw1 Hr1]. assert (here s1) as Hw1 by now apply (here_quiet s).
apply wp_bind, wp_of_option. intros q Hq. case_match eqn:E1.
{ apply wp_ret. split; [done|]. apply (restoredTo_step i s1 s1 q); try done. lia. }
eapply wp_quiet; [done|now apply wp_reconfigure|]. intros ok s2 Hw2 Qw2 Hev.
assert (quiet k c d s s2) as Q02 by now transitivity s1.
case_match eqn:E2; [now apply wp_ret|]. destruct ok; [|done].
assert (restoredTo (i + 1) (hist s2)) as Hr2 by (apply (restoredTo_step i s1 s2 q); auto).
case_match; [now apply wp_ret|].
eapply wp_seq; [eapply wp_succeeds_onComm; [done|now apply keeps_postRecvs]|]. intros ok s3 Qw3.
assert (quiet k c d s s3) as Q03 by now transitivity s2.
apply wp_ret. destruct ok; [|done]. split; [done|].
intros j q' Hj Hq' Hd'. eapply quiet_hist; [exact Qw3|]. now apply (Hr2 j q').
* split; [done|]. intros j q Hj. lia.
+ intros [u|] s1; [done|]. intros [Q1 Hr]. split; [done|]. intros j q Hj Hq Hdj. apply (Hr j q); [lia|done|done].
- intros [u|] s1 [Qw1 Hr1]; [now apply wp_ret|]. assert (here s1) as Hw1 by now apply (here_quiet s).
case_match; [apply wp_ret; auto|].
eapply wp_seq.
{ eapply (wp_onComm getRecv (fun _ => True)); [done|]. intros n1 Hk1. unfold getRecv, bind, getS.
now destruct (tail n1). }
intros rc s2 Qw2. assert (quiet k c d s s2) as Q02 by now transitivity s1.
assert (restored k c d (hist s2)) as Hr2 by (intros j q Hj Hq Hdj; eapply quiet_hist; [exact Qw2|eauto]).
case_match; [apply wp_ret; auto|].
eapply wp_seq.
+ apply (wp_forReturn (fun _ s3 => quiet k c d s2 s3) (fun _ s3 => quiet k c d s2 s3)); [|done].
intros i s3 _ Qw3. assert (here s3) as Hw3 by (apply (here_quiet s); [done|now transitivity s2]).
case_match; [now apply wp_ret|]. eapply wp_quiet; [done|now apply wp_reconfigure|].
intros ok s4 Hw4 Qw4 _. apply wp_ret. assert (quiet k c d s2 s4) by now transitivity s3. now destruct ok.
+ intros r s3 Qw3. assert (quiet k c d s2 s3) as Q23 by now destruct r. apply wp_ret.
split; [now transitivity s2|]. destruct r; [done|]. intros ->. split; [done|].
intros j q Hj Hq Hdj. eapply quiet_hist; [exact Q23|eauto].
Qed.

Lemma quiet_grows s s' : quiet k c d s s' -> exists es, hist s' = hist s ++ es.
Proof. intros [_ [_ (es & E & _)]]. eauto. Qed.

Lemma wp_poll n s : here s ->
wp (pollRecovery n) (fun r s' => match r with
| None => s' = s
| Some wcs => poll_recovery_cq (hist s) c d n = Some wcs /\
s' = s <| shared := (shared s) <| rhistory := hist s ++ [PolledRecoveryCq c d wcs] |> |>
end) s.
Proof.
intros (Hc & Hd & _). unfold pollRecovery. apply wp_bind, wp_getS. cbv zeta. rewrite Hc, Hd.
destruct (poll_recovery_cq (hist s) c d n) as [wcs|] eqn:E; [|now apply wp_ret].
apply wp_bind, wp_modify, wp_ret. done.
Qed.

(** After a poll the context is the same and the communicator is still there. *)
Lemma here_logged s e : here s -> here (s <| shared := (shared s) <| rhistory := hist s ++ [e] |> |>).
Proof. done. Qed.

Lemma here_ctx s x : here s ->
pr_resCtx x = pr_resCtx (rctx s) -> pr_devIndex x = pr_devIndex (rctx s) -> here (s <| rctx := x |>).
Proof. intros (Hc & Hd & Hx) E1 E2. unfold here. cbn. now rewrite E1, E2. Qed.

(** ** The sender *)

Section Sender.
Context (Hside : k_isSend k = true).

Abbreviation sentAck := (follows [ackSent k c d; ackArrived c d]).
Abbreviation doneAck := (follows [sendDone c d; ackSent k c d; ackArrived c d]).

Record sender_core (x : ncclIbPortRecoveryContext) (h : list RecEvent) : Prop := mkSenderCore
{ sc_received : pr_ackReceived x = true -> follows [ackArrived c d] h;
sc_posted : pr_ackPosted x = true -> sentAck h;
sc_completed : pr_ackCompleted x = true -> doneAck h }.

Record sender_ok (x : ncclIbPortRecoveryContext) (h : list RecEvent) : Prop := mkSenderOk
{ so_core : sender_core x h;
so_posted : pr_state x <> ncclIbPortRecoveryStateFailed -> pr_ackReceived x = true -> pr_ackPosted x = true;
so_success : pr_state x = ncclIbPortRecoveryStateSuccess -> doneAck h }.

Lemma sender_core_app x h es : sender_core x h -> sender_core x (h ++ es).
Proof. intros []. split; intros; apply follows_app; auto. Qed.

Lemma sender_ok_app x h es : sender_ok x h -> sender_ok x (h ++ es).
Proof. intros []. split; [now apply sender_core_app|done|]. intros. apply follows_app; auto. Qed.

Lemma sender_core_quiet s s' : quiet k c d s s' -> sender_core (rctx s) (hist s) -> sender_core (rctx s') (hist s').
Proof. intros Hq H. destruct (quiet_grows _ _ Hq) as [es ->]. destruct Hq as [-> _]. now apply sender_core_app. Qed.

Lemma wp_pollCq_sender s : here s ->
sender_core (rctx s) (hist s) -> (pr_ackReceived (rctx s) = true -> pr_ackPosted (rctx s) = true) ->
wp ncclIbPortRecoveryPollCq (fun _ s' =>
here s' /\ sender_core (rctx s') (hist s') /\ pr_state (rctx s') = pr_state (rctx s) /\
pr_ackPosted (rctx s') = pr_ackPosted (rctx s) /\
(pr_state (rctx s) = ncclIbPortRecoveryStateAliveMessages -> pr_ackReceived (rctx s') = pr_ackReceived (rctx s))) s.
Proof.
intros Hh Hcore Hpost. unfold ncclIbPortRecoveryPollCq. eapply wp_seq; [now apply wp_poll|].
intros [wcs|] s1; [|intros ->; now apply wp_ret]. intros [_ ->].
destruct wcs as [|wc wcs]; [apply wp_ret; split; [done|]; split; [now apply sender_core_app|done]|].
case_match eqn:Est; [apply wp_ret; split; [done|]; split; [now apply sender_core_app|done]|].
apply negb_false_iff, bool_decide_eq_true in Est.
apply wp_bind, wp_getComm; [now apply here_logged|]. intros n _ Hk.
assert (isSend (base n) = true) as -> by (rewrite <- Hside, <- Hk; done).
set (e := PolledRecoveryCq c d (wc :: wcs)).
unfold ncclIbPortRecoveryHandleCompletionSender. apply wp_bind, wp_gets. cbn [rctx update].
change (rctx (s <| shared := _ |>)) with (rctx s).
pose proof (sender_core_app (rctx s) (hist s) [e] Hcore) as Hcore'.
destruct (pr_state (rctx s)) eqn:Ex; try (now apply wp_ret).
- case_match; [|now apply wp_ret]. case_match; [now apply wp_ret|].
apply wp_bind, wp_modify, wp_ret. split; [now apply here_ctx|]. destruct Hcore'. now split; [split|].
- case_match eqn:Er.
+ case_match eqn:Eo; [now apply wp_ret|]. case_match eqn:Ei; [now apply wp_ret|].
apply wp_bind, wp_modify, wp_ret. split; [now apply here_ctx|].
split; [|done]. destruct Hcore'. split; [|done|done]. intros _.
refine (follows_snoc (ackArrived c d) [] (hist s) e _ I). exists wc, wcs.
apply negb_false_iff in Eo, Ei. apply bool_decide_eq_true in Eo. apply Z.eqb_eq in Ei. done.
+ case_match eqn:Eo; [now apply wp_ret|].
apply wp_bind, wp_modify, wp_ret. split; [now apply here_ctx|].
split; [|done]. destruct Hcore'. split; [done|done|]. intros _.
refine (follows_snoc (sendDone c d) _ (hist s) e _ (sc_posted _ _ Hcore (Hpost _))); [|now apply negb_false_iff in Er].
exists wc, wcs. apply negb_false_iff in Eo. apply bool_decide_eq_true in Eo. done.
Qed.

(** Between polls: an acknowledgement received has been answered. *)
Definition sender_mid (s : RecState) : Prop :=
here s /\ sender_core (rctx s) (hist s) /\ (pr_ackReceived (rctx s) = true -> pr_ackPosted (rctx s) = true).

Definition sameState (s s' : RecState) : Prop := pr_state (rctx s') = pr_state (rctx s).

Lemma sender_mid_quiet s s' : quiet k c d s s' -> sender_mid s -> sender_mid s'.
Proof.
intros Hq (Hh & Hc & Hp). split; [now apply (here_quiet s)|]. split; [now apply (sender_core_quiet s)|].
destruct Hq as [-> _]. done.
Qed.

(** A change of the other fields. *)
Lemma sender_mid_ctx s f : sender_mid s ->
(forall x, pr_resCtx (f x) = pr_resCtx x /\ pr_devIndex (f x) = pr_devIndex x /\
pr_ackReceived (f x) = pr_ackReceived x /\ pr_ackPosted (f x) = pr_ackPosted x /\
pr_ackCompleted (f x) = pr_ackCompleted x) ->
sender_mid (s <| rctx := f (rctx s) |>).
Proof.
intros (Hh & [] & Hp) Hf. destruct (Hf (rctx s)) as (E1 & E2 & E3 & E4 & E5).
split; [now apply here_ctx|]. cbn. rewrite E3, E4. split; [|done]. split; rewrite ?E3, ?E4, ?E5; done.
Qed.

Lemma wp_countFailure s : sender_mid s -> wp countFailure (fun _ s' => sender_mid s' /\ sameState s s') s.
Proof.
intros Hm. unfold countFailure, modCtx. apply wp_bind, wp_modify, wp_gets. split; [|done].
now apply (sender_mid_ctx s).
Qed.

Lemma wp_postAlive s : sender_mid s ->
wp ncclIbPortRecoveryPostAliveMessages (fun _ s' => sender_mid s' /\ sameState s s') s.
Proof.
intros Hm. unfold ncclIbPortRecoveryPostAliveMessages, modCtx. cbv zeta.
case_match; [apply wp_fail|]. case_match; [apply wp_fault|].
apply wp_bind, wp_gets, wp_bind, wp_modify.
eapply wp_seq; [apply wp_postSend; now apply (sender_mid_ctx s)|]. intros ok s1 [Qw1 _].
assert (sender_mid s1 /\ sameState s s1) as [Hm1 E1].
{ split; [eapply sender_mid_quiet; [exact Qw1|now apply (sender_mid_ctx s)]|]. destruct Qw1 as [E _]. unfold sameState. now rewrite E. }
case_match; [now apply wp_ret|].
eapply wp_seq; [apply wp_rclock|]. intros now s2 Qw2. apply wp_bind, wp_modify, wp_ret.
split.
{ apply (sender_mid_ctx s2 (fun x => x <| pr_timeLastMsg := now |> <| pr_aliveMsgPosted := true |>)); [|done].
now apply (sender_mid_quiet s1). }
destruct Qw2 as [E _]. unfold sameState in *. cbn. now rewrite E.
Qed.

Lemma wp_aliveSender s : sender_mid s -> pr_state (rctx s) = ncclIbPortRecoveryStateAliveMessages ->
wp ncclIbPortRecoveryProgressAliveMessagesSender (fun _ s' => sender_mid s' /\ sameState s s') s.
Proof.
intros Hm Hst. unfold ncclIbPortRecoveryProgressAliveMessagesSender. apply wp_bind, wp_gets. case_match.
- eapply wp_seq; [apply wp_rclock|]. intros now s1 Qw1.
assert (sender_mid s1) as Hm1 by now apply (sender_mid_quiet s).
assert (sameState s s1) as E1 by (destruct Qw1 as [E _]; unfold sameState; now rewrite E).
case_match; [now apply wp_ret|]. eapply wp_seq; [now apply wp_postAlive|].
intros ok s2 [Hm2 E2]. apply wp_ret. split; [done|]. unfold sameState in *. congruence.
- destruct Hm as (Hh & Hc & Hp). eapply wp_seq; [now apply wp_pollCq_sender|].
intros ok s1 (Hw1 & Hc1 & E1 & Ep & Er). specialize (Er Hst).
assert (sender_mid s1) as Hm1 by (split; [done|]; split; [done|]; rewrite Er, Ep; done).
case_match; [now apply wp_ret|]. now apply wp_bind, wp_gets, wp_ret.
Qed.

Lemma wp_postAck s : here s -> sender_core (rctx s) (hist s) ->
restored k c d (hist s) -> follows [ackArrived c d] (hist s) ->
wp ncclIbPortRecoveryPostAck (fun ok s' => here s' /\ sender_core (rctx s') (hist s') /\ sameState s s' /\
(ok = true -> pr_ackPosted (rctx s') = true)) s.
Proof.
intros Hh Hc Hr Ha. unfold ncclIbPortRecoveryPostAck, modCtx. eapply wp_seq; [now apply wp_postSend|].
intros ok s1 [Qw1 Hev].
assert (here s1) as Hw1 by now apply (here_quiet s).
assert (sender_core (rctx s1) (hist s1)) as Hc1 by now apply (sender_core_quiet s).
assert (sameState s s1) as E1 by (destruct Qw1 as [E _]; unfold sameState; now rewrite E).
case_match; [now apply wp_ret; destruct ok|]. destruct ok; [|done].
apply wp_bind, wp_modify, wp_ret. split; [now apply here_ctx|]. split; [|done].
destruct Hc1. split; [done| |done]. intros _. change (sentAck (hist s1)). rewrite (Hev eq_refl).
now apply (follows_snoc (ackSent k c d)).
Qed.

Definition ack_post (s : RecState) (r : progressResult) (s' : RecState) : Prop :=
here s' /\ sender_core (rctx s') (hist s') /\ sameState s s' /\
(r <> Failed -> pr_ackReceived (rctx s') = true -> pr_ackPosted (rctx s') = true) /\
(r = GoToNextState -> doneAck (hist s')).

Lemma wp_finishAck out success s : here s -> sender_core (rctx s) (hist s) -> out <> GoToNextState ->
pr_ackReceived (rctx s) = true ->
wp (finishAckSender out success) (ack_post s) s.
Proof.
intros Hh Hc Hout Hrec. unfold finishAckSender. apply wp_bind, wp_gets.
eapply (wp_seq _ _ (fun r s1 => here s1 /\ sender_core (rctx s1) (hist s1) /\ sameState s s1 /\
match r with Some o => o <> GoToNextState /\ pr_ackPosted (rctx s1) = true | None => True end)).
- case_match eqn:Ep; [|apply wp_ret; apply negb_false_iff in Ep; done].
eapply wp_seq; [now apply wp_qpsRestore|]. intros ok s1 [Qw1 Hr].
assert (here s1) as Hw1 by now apply (here_quiet s).
assert (sender_core (rctx s1) (hist s1)) as Hc1 by now apply (sender_core_quiet s).
assert (sameState s s1) as E1 by (destruct Qw1 as [E _]; unfold sameState; now rewrite E).
case_match; [now apply wp_ret|]. destruct ok; [|done]. destruct (Hr eq_refl) as [_ Hrest].
eapply wp_seq.
{ apply wp_postAck; [done|done|done|]. apply (sc_received _ _ Hc1). destruct Qw1 as [-> _]. done. }
intros ok s2 (Hw2 & Hc2 & E2 & Hp2). apply wp_ret. split; [done|]. split; [done|].
split; [unfold sameState in *; congruence|]. destruct ok; [|done]. split; [done|auto].
- intros [o|] s1 (Hw1 & Hc1 & E1 & Ho); [|now apply wp_ret]. destruct Ho as [Ho Hp1].
apply wp_bind, wp_gets. case_match eqn:Ecm.
+ eapply wp_seq; [now apply wp_pollCq_sender|]. intros ok s2 (Hw2 & Hc2 & E2 & Ep2 & _).
assert (sameState s s2) as E02 by (unfold sameState in *; congruence).
case_match; [now apply wp_ret|]. apply wp_bind, wp_gets, wp_ret.
split; [done|]. split; [done|]. split; [done|]. split; [intros _ _; congruence|].
case_match eqn:Ec; [|done]. intros _. now apply (sc_completed _ _ Hc2).
+ apply wp_ret. now split.
Qed.

Lemma wp_ackSender s : sender_mid s -> wp (ncclIbPortRecoveryProgressAckSender Failed) (ack_post s) s.
Proof.
intros (Hh & Hc & Hp). unfold ncclIbPortRecoveryProgressAckSender. apply wp_bind, wp_gets.
case_match eqn:E; [|apply wp_finishAck; try done; now apply negb_false_iff in E].
eapply wp_seq; [now apply wp_pollCq_sender|]. intros ok s1 (Hw1 & Hc1 & E1 & Ep1 & _).
case_match; [now apply wp_ret|]. apply wp_bind, wp_gets. case_match eqn:Er.
- apply negb_true_iff in Er. assert (sender_mid s1) as Hm1 by (split; [done|]; split; [done|congruence]).
eapply wp_seq; [apply wp_rclock|]. intros now s2 Qw2.
assert (sender_mid s2) as Hm2 by now apply (sender_mid_quiet s1).
assert (sameState s s2) as E2 by (destruct Qw2 as [E2 _]; unfold sameState in *; congruence).
case_match; [|apply wp_ret; destruct Hm2 as (? & ? & ?); now split].
eapply wp_seq; [now apply wp_countFailure|]. intros last s3 [Hm3 E3].
assert (sameState s s3) as E03 by (unfold sameState in *; congruence).
case_match; [apply wp_ret; destruct Hm3 as (? & ? & ?); now split|].
apply wp_bind. unfold modCtx. apply wp_modify, wp_ret.
destruct (sender_mid_ctx s3 (fun x => x <| pr_aliveMsgPosted := false |> <| pr_aliveMsgCompleted := false |>) Hm3
ltac:(done)) as (? & ? & ?). now split.
- apply negb_false_iff in Er. eapply wp_mono; [now apply wp_finishAck|].
intros r s2 (? & ? & E2 & ? & ?). split; [done|]. split; [done|]. split; [unfold sameState in *; congruence|done].
Qed.
End Sender.

(** ** The receiver *)

Section Receiver.
Context (Hside : k_isSend k = false).
Context (Hpoll : forall h c d n wcs, poll_recovery_cq h c d n = Some wcs -> (length wcs <= Z.to_nat n)%nat).

Abbreviation gaveAck := (follows [ackGiven k c d]).
Abbreviation gaveDone := (follows [sendDone c d; ackGiven k c d]).
Abbreviation allDone := (follows [ackArrived c d; sendDone c d; ackGiven k c d]).

Record receiver_core (x : ncclIbPortRecoveryContext) (h : list RecEvent) : Prop := mkReceiverCore
{ rc_posted : pr_ackPosted x = true -> gaveAck h;
rc_completed : pr_ackCompleted x = true -> gaveDone h;
rc_received : pr_ackReceived x = true -> allDone h;
rc_count : 0 <= pr_nInOrderMsgsReceived x }.

(** The counter is the length of the run of messages received last. *)
Definition trail (x : ncclIbPortRecoveryContext) (h : list RecEvent) : Prop :=
pr_ackPosted x = false ->
exists l0 id, recvImms c d h = l0 ++ ids (Z.to_nat (pr_nInOrderMsgsReceived x)) id /\
pr_aliveMsgNextId x = nextId (Z.to_nat (pr_nInOrderMsgsReceived x)) id.

Definition inAck (x : ncclIbPortRecoveryContext) (h : list RecEvent) : Prop :=
pr_state x = ncclIbPortRecoveryStateAck -> pr_ackPosted x = true /\ gaveDone h.

Definition receiver_mid (s : RecState) : Prop :=
here s /\ receiver_core (rctx s) (hist s) /\ trail (rctx s) (hist s) /\ inAck (rctx s) (hist s).

Lemma receiver_core_app x h es : receiver_core x h -> receiver_core x (h ++ es).
Proof. intros []. split; intros; try apply follows_app; auto. Qed.

Lemma inAck_app x h es : inAck x h -> inAck x (h ++ es).
Proof. intros H Hx. destruct (H Hx). split; [done|]. now apply follows_app. Qed.

Lemma trail_zero x h : pr_nInOrderMsgsReceived x = 0 -> trail x h.
Proof. intros E _. exists (recvImms c d h), (pr_aliveMsgNextId x). rewrite E. cbn. now rewrite app_nil_r. Qed.

Lemma trail_no_recv x h es : recvImms c d es = [] -> trail x h -> trail x (h ++ es).
Proof. intros E H Hp. destruct (H Hp) as (l0 & id & Hl & Hn). exists l0, id. now rewrite recvImms_app, E, app_nil_r. Qed.

Lemma receiver_mid_quiet s s' : quiet k c d s s' -> receiver_mid s -> receiver_mid s'.
Proof.
intros Hq (Hh & Hc & Ht & Ha). split; [now apply (here_quiet s)|].
destruct Hq as [Ex [_ (es & Eh & Hn)]]. rewrite Ex, Eh. split; [now apply receiver_core_app|].
split; [|now apply inAck_app]. apply trail_no_recv; [|done]. now apply recvImms_no_poll.
Qed.

Lemma trail_posted x h : pr_ackPosted x = true -> trail x h.
Proof. intros E H. congruence. Qed.

(** A change of the other fields. *)
Lemma receiver_mid_ctx s f : receiver_mid s ->
(forall x, pr_resCtx (f x) = pr_resCtx x /\ pr_devIndex (f x) = pr_devIndex x /\ pr_state (f x) = pr_state x /\
pr_ackReceived (f x) = pr_ackReceived x /\ pr_ackPosted (f x) = pr_ackPosted x /\
pr_ackCompleted (f x) = pr_ackCompleted x /\ pr_nInOrderMsgsReceived (f x) = pr_nInOrderMsgsReceived x /\
pr_aliveMsgNextId (f x) = pr_aliveMsgNextId x) ->
receiver_mid (s <| rctx := f (rctx s) |>).
Proof.
intros (Hh & [] & Ht & Ha) Hf. destruct (Hf (rctx s)) as (E1 & E2 & E3 & E4 & E5 & E6 & E7 & E8).
split; [now apply here_ctx|]. unfold trail, inAck in *. cbn. rewrite E3, E5, E7, E8.
split; [|done]. split; rewrite ?E4, ?E5, ?E6, ?E7; done.
Qed.

(** One poll of a completion queue, as the identifiers it adds. *)
Lemma recvImms_poll wc : recvImms c d [PolledRecoveryCq c d [wc]] =
if decide (rw_status wc = IBV_WC_SUCCESS /\ rw_opcode wc = IBV_WC_RECV) then [rw_imm wc] else [].
Proof.
unfold recvImms. cbn -[filter]. rewrite decide_True, app_nil_r by done. rewrite filter_cons, filter_nil.
now repeat case_decide.
Qed.

(** The handler, by the phase the receiver is in. *)
Section Handler.
Context (s : RecState) (wc : RecWc).
Let s1 : RecState :=
s <| shared := (shared s) <| rhistory := hist s ++ [PolledRecoveryCq c d [wc]] |> |>.
Context (Hh : here s1) (Hc : receiver_core (rctx s) (hist s)) (Ht : trail (rctx s) (hist s))
(Ha : inAck (rctx s) (hist s)) (Hok : rw_status wc = IBV_WC_SUCCESS).
Context (Hno : rw_opcode wc <> IBV_WC_RECV -> receiver_mid s1).
Context (Hyes : pr_ackPosted (rctx s) = true -> receiver_mid s1).

Abbreviation post := (fun (_ : bool) s' => receiver_mid s' /\ sameState s s' /\
pr_ackPosted (rctx s') = pr_ackPosted (rctx s)).

Lemma wp_alive_posted : pr_state (rctx s) = ncclIbPortRecoveryStateAliveMessages ->
pr_ackPosted (rctx s) = true -> wp (ncclIbPortRecoveryHandleCompletionReceiver wc) post s1.
Proof.
intros Hst Hp. unfold ncclIbPortRecoveryHandleCompletionReceiver. apply wp_bind, wp_gets.
change (rctx s1) with (rctx s). rewrite Hst, Hp. destruct (rw_opcode wc) eqn:Eo; try (apply wp_ret; split; [now apply Hyes|done]).
- apply wp_bind, wp_modify, wp_ret. destruct (Hyes Hp) as (_ & [] & Hx).
split; [|done]. split; [now apply here_ctx|]. split; [|done]. split; try done. intros _.
refine (follows_snoc (sendDone c d) [ackGiven k c d] (hist s) _ _ (rc_posted _ _ Hc Hp)).
now exists wc, [].
- eapply wp_mono; [apply wp_postRecv|]. intros ok s2 Qw2. split; [now apply (receiver_mid_quiet s1); auto|].
destruct Qw2 as [E _]. unfold sameState. now rewrite E.
Qed.

Lemma wp_alive_waiting : pr_state (rctx s) = ncclIbPortRecoveryStateAliveMessages ->
pr_ackPosted (rctx s) = false -> wp (ncclIbPortRecoveryHandleCompletionReceiver wc) post s1.
Proof.
intros Hst Hp. unfold ncclIbPortRecoveryHandleCompletionReceiver. apply wp_bind, wp_gets.
change (rctx s1) with (rctx s). rewrite Hst, Hp.
case_match eqn:Eo; [apply wp_ret; split; [apply Hno|done]; intros E; now rewrite E in Eo|].
apply negb_false_iff, bool_decide_eq_true in Eo.
assert (recvImms c d (hist s1) = recvImms c d (hist s) ++ [rw_imm wc]) as Erecv.
{ change (hist s1) with (hist s ++ [PolledRecoveryCq c d [wc]]).
now rewrite recvImms_app, recvImms_poll, decide_True. }
pose proof (receiver_core_app (rctx s) (hist s) [PolledRecoveryCq c d [wc]] Hc) as Hc1.
eapply (wp_seq _ _ (fun _ s2 => receiver_mid s2 /\ sameState s s2 /\ pr_ackPosted (rctx s2) = pr_ackPosted (rctx s))).
- destruct Hc1. destruct (Z.eqb_spec (rw_imm wc) (pr_aliveMsgNextId (rctx s))) as [Ei|Ei];
apply wp_modify; match goal with |- receiver_mid ?x /\ _ => set (s2 := x) end;
(split; [|done]); (split; [now apply here_ctx|]).
+ split; [split; try done; cbn; lia|]. split; [|intros E; cbn in E; congruence].
intros _. destruct (Ht Hp) as (l0 & id & El & En).
assert (Z.to_nat (pr_nInOrderMsgsReceived (rctx s2)) = Datatypes.S (Z.to_nat (pr_nInOrderMsgsReceived (rctx s)))) as Ec
by (cbn; lia).
exists l0, id. rewrite Ec, ids_snoc, nextId_S, <- En. split; [|done].
transitivity (recvImms c d (hist s1)); [done|]. now rewrite Erecv, El, Ei, <- app_assoc.
+ split; [split; try done; cbn; lia|]. split; [now apply trail_zero|intros E; cbn in E; congruence].
- intros [] s2 (Hm2 & E2 & Ep2). eapply wp_seq; [apply wp_rclock|]. intros now s3 Qw3.
assert (receiver_mid s3) as Hm3 by now apply (receiver_mid_quiet s2).
apply wp_bind. unfold modCtx. apply wp_modify.
eapply wp_mono; [apply wp_postRecv|]. intros ok s4 Qw4.
split.
+ eapply receiver_mid_quiet; [exact Qw4|].
now apply (receiver_mid_ctx s3 (fun x => x <| pr_timeLastMsg := now |>)).
+ destruct Qw3 as [E3 _], Qw4 as [E4 _]. unfold sameState in *. split; rewrite E4; cbn; rewrite E3; congruence.
Qed.

Lemma wp_ack_waiting : pr_state (rctx s) = ncclIbPortRecoveryStateAck ->
wp (ncclIbPortRecoveryHandleCompletionReceiver wc) post s1.
Proof.
intros Hst. destruct (Ha Hst) as [Hp Hdone].
unfold ncclIbPortRecoveryHandleCompletionReceiver. apply wp_bind, wp_gets.
change (rctx s1) with (rctx s). rewrite Hst. pose proof (Hyes Hp) as Hm.
case_match eqn:Eo; [now apply wp_ret|]. case_match eqn:Ei; [now apply wp_ret|].
apply negb_false_iff in Eo, Ei. apply bool_decide_eq_true in Eo. apply Z.eqb_eq in Ei.
apply wp_bind, wp_modify, wp_ret. destruct Hm as (_ & [] & Hx).
split; [|done]. split; [now apply here_ctx|]. split; [|done]. split; try done. intros _.
refine (follows_snoc (ackArrived c d) [sendDone c d; ackGiven k c d] (hist s) _ _ Hdone).
now exists wc, [].
Qed.
End Handler.

Lemma wp_pollCq_receiver s : receiver_mid s ->
(pr_state (rctx s) = ncclIbPortRecoveryStateAliveMessages \/ pr_state (rctx s) = ncclIbPortRecoveryStateAck) ->
wp ncclIbPortRecoveryPollCq (fun _ s' => receiver_mid s' /\ sameState s s' /\
pr_ackPosted (rctx s') = pr_ackPosted (rctx s)) s.
Proof.
intros (Hh & Hc & Ht & Ha) Hst. unfold ncclIbPortRecoveryPollCq. eapply wp_seq; [now apply wp_poll|].
intros [wcs|] s1; [|intros ->; now apply wp_ret]. intros [Hp ->]. apply Hpoll in Hp.
destruct wcs as [|wc [|wc2 wcs]]; [| |cbn in Hp; lia].
{ apply wp_ret. split; [|done]. split; [done|]. split; [now apply receiver_core_app|].
split; [apply trail_no_recv; [|done]|now apply inAck_app].
unfold recvImms. cbn. now rewrite decide_True. }
set (e := PolledRecoveryCq c d [wc]). set (s1 := s <| shared := _ |>).
pose proof (receiver_core_app (rctx s) (hist s) [e] Hc) as Hc1.
pose proof (inAck_app (rctx s) (hist s) [e] Ha) as Ha1.
assert (here s1) as Hw1 by done.
assert (~ (rw_status wc = IBV_WC_SUCCESS /\ rw_opcode wc = IBV_WC_RECV) -> receiver_mid s1) as Hno.
{ intros Hn. split; [done|]. split; [done|]. split; [|done].
apply trail_no_recv; [|done]. unfold e. rewrite recvImms_poll. now case_decide. }
assert (pr_ackPosted (rctx s) = true -> receiver_mid s1) as Hyes.
{ intros Hn. split; [done|]. split; [done|]. split; [|done]. now apply trail_posted. }
case_match eqn:Est; [apply wp_ret; split; [apply Hno|done]; intros [E _]; rewrite E in Est; done|].
apply negb_false_iff, bool_decide_eq_true in Est.
apply wp_bind, wp_getComm; [done|]. intros n _ Hk.
assert (isSend (base n) = false) as -> by (rewrite <- Hside, <- Hk; done).
destruct Hst as [Hst|Hst]; [destruct (pr_ackPosted (rctx s)) eqn:Epost|].
- rewrite <- Epost. apply wp_alive_posted; auto.
- rewrite <- Epost. apply wp_alive_waiting; auto. intros Hn. apply Hno. now intros [_ ?].
- apply wp_ack_waiting; auto.
Qed.

(** Emptying the queue: messages may be lost, the context is not touched. *)
Definition grown (s s' : RecState) : Prop :=
rctx s' = rctx s /\ here s' /\ exists es, hist s' = hist s ++ es.

Lemma grown_trans s1 s2 s3 : grown s1 s2 -> grown s2 s3 -> grown s1 s3.
Proof.
intros (E1 & _ & es1 & H1) (E2 & Hh & es2 & H2). split; [congruence|]. split; [done|].
exists (es1 ++ es2). now rewrite H2, H1, app_assoc.
Qed.

Lemma grown_quiet s s' : here s -> quiet k c d s s' -> grown s s'.
Proof. intros Hh Hq. split; [apply Hq|]. split; [now apply (here_quiet s)|now apply quiet_grows]. Qed.

Lemma wp_drain fuel s : here s -> wp (drain fuel) (fun _ s' => grown s s') s.
Proof.
revert s. induction fuel as [|fuel IH]; intros s Hh; [apply wp_fault|]. cbn [drain].
eapply wp_seq; [now apply wp_poll|]. intros [wcs|] s1 H1.
2:{ subst s1. apply wp_ret. split; [done|]. split; [done|]. exists []. now rewrite app_nil_r. }
destruct H1 as [_ ->]. set (s1 := s <| shared := _ |>). assert (here s1) as Hw1 by done.
assert (grown s s1) as G1 by (split; [done|]; split; [done|]; now eexists).
apply wp_bind, wp_gets. eapply wp_seq; [apply wp_postRecvs|]. intros ok s2 Qw2.
assert (grown s s2) as G2 by (eapply grown_trans; [exact G1|now apply grown_quiet]).
case_match; [now apply wp_ret|]. case_match; [now apply wp_ret|].
eapply wp_mono; [apply IH; apply G2|]. intros ok2 s3 G3. now apply (grown_trans s s2).
Qed.

Lemma wp_postAckReceiver s : here s -> receiver_core (rctx s) (hist s) -> inAck (rctx s) (hist s) ->
restored k c d (hist s) -> aliveRun (Z.to_nat (aliveMsgSequenceSize rprm + 1)) c d (hist s) ->
wp ncclIbPortRecoveryPostAck (fun ok s' => sameState s s' /\ here s' /\ receiver_core (rctx s') (hist s') /\
(ok = true -> receiver_mid s')) s.
Proof.
intros Hh Hc Ha Hr Hal. unfold ncclIbPortRecoveryPostAck, modCtx. eapply wp_seq; [now apply wp_postSend|].
intros ok s1 [Qw1 Hev].
assert (here s1) as Hw1 by now apply (here_quiet s).
destruct (quiet_grows _ _ Qw1) as [es Ees]. destruct Qw1 as [E1 _].
assert (receiver_core (rctx s1) (hist s1)) as Hc1 by (rewrite E1, Ees; now apply receiver_core_app).
assert (inAck (rctx s1) (hist s1)) as Ha1 by (rewrite E1, Ees; now apply inAck_app).
assert (sameState s s1) as Es by (unfold sameState; now rewrite E1).
case_match; [now apply wp_ret; destruct ok|]. destruct ok; [|done].
apply wp_bind, wp_modify, wp_ret. set (s2 := s1 <| rctx := _ |>).
assert (here s2) as Hw2 by now apply here_ctx.
assert (receiver_core (rctx s2) (hist s2)) as Hc2.
{ destruct Hc1. split; try done. intros _. change (gaveAck (hist s1)). rewrite (Hev eq_refl).
now apply (follows_snoc (ackGiven k c d)). }
split; [done|]. split; [done|]. split; [done|]. intros _. split; [done|]. split; [done|].
split; [now apply trail_posted|]. intros Hst. split; [done|]. now apply Ha1.
Qed.

(** What a step of the receiver leaves for the outcome [r]. *)
Definition recv_post (s : RecState) (r : progressResult) (s' : RecState) : Prop :=
sameState s s' /\ here s' /\ receiver_core (rctx s') (hist s') /\
(r = InProgress \/ r = GoToNextState -> receiver_mid s').

Lemma recv_post_mid s r s' : sameState s s' -> receiver_mid s' -> recv_post s r s'.
Proof. intros E Hm. destruct Hm as (? & ? & ?). split; [done|]. split; [done|]. split; [done|]. intros _. now split. Qed.

Lemma wp_countFailureReceiver s : receiver_mid s ->
wp countFailure (fun _ s' => receiver_mid s' /\ sameState s s' /\
pr_ackPosted (rctx s') = pr_ackPosted (rctx s) /\ pr_devIndex (rctx s') = pr_devIndex (rctx s)) s.
Proof.
intros Hm. unfold countFailure, modCtx. apply wp_bind, wp_modify, wp_gets. split; [|done].
now apply (receiver_mid_ctx s (fun x => x <| pr_nFailedAttempts := pr_nFailedAttempts x + 1 |>)).
Qed.

Lemma wp_clockReceiver s : receiver_mid s ->
wp rclock (fun _ s' => receiver_mid s' /\ sameState s s' /\ rctx s' = rctx s) s.
Proof.
intros Hm. eapply wp_mono; [apply wp_rclock|]. intros now s1 Qw1.
split; [now apply (receiver_mid_quiet s)|]. destruct Qw1 as [E _]. unfold sameState. now rewrite E.
Qed.

Lemma aliveRun_trail x h n : trail x h -> pr_ackPosted x = false -> n < pr_nInOrderMsgsReceived x ->
aliveRun (Z.to_nat (n + 1)) c d h.
Proof.
intros Ht Hp Hn. destruct (Ht Hp) as (l0 & id & El & _).
set (m := Z.to_nat (pr_nInOrderMsgsReceived x)) in *.
destruct (ids_suffix (m - Z.to_nat (n + 1)) (Z.to_nat (n + 1)) id) as (l1 & id' & E).
replace (m - Z.to_nat (n + 1) + Z.to_nat (n + 1))%nat with m in E by lia.
exists (l0 ++ l1), id', []. now rewrite app_nil_r, El, E, app_assoc.
Qed.

(** Enough messages: empty the queue, restore, acknowledge. *)
Lemma wp_acknowledge fuel s : receiver_mid s -> pr_state (rctx s) <> ncclIbPortRecoveryStateAck ->
pr_ackPosted (rctx s) = false -> aliveMsgSequenceSize rprm < pr_nInOrderMsgsReceived (rctx s) ->
wp (let* ok := drain fuel in
if negb ok then ret Failed else
let* ok := ncclIbPortRecoveryQpsRestore ok in
if negb ok then ret Failed else
let* ok := ncclIbPortRecoveryPostAck in
ret (if ok then InProgress else Failed)) (fun r s' => recv_post s r s' /\ r <> GoToNextState) s.
Proof.
intros (Hh & Hc & Ht & Ha) Hst Hp Hn.
pose proof (aliveRun_trail _ _ _ Ht Hp Hn) as Hal.
eapply wp_seq; [now apply wp_drain|]. intros ok s1 (E1 & Hw1 & es1 & H1).
assert (receiver_core (rctx s1) (hist s1)) as Hc1 by (rewrite E1, H1; now apply receiver_core_app).
assert (sameState s s1) as S1 by (unfold sameState; now rewrite E1).
assert (forall s', sameState s s' -> here s' -> receiver_core (rctx s') (hist s') ->
recv_post s Failed s' /\ Failed <> GoToNextState) as Hfailed.
{ intros s' ? ? ?. split; [|done]. split; [done|]. split; [done|]. split; [done|]. now intros [?|?]. }
case_match; [apply wp_ret; now apply Hfailed|].
eapply wp_seq; [now apply wp_qpsRestore|]. intros ok2 s2 [Qw2 Hr].
destruct (quiet_grows _ _ Qw2) as [es2 H2]. destruct Qw2 as [E2 Q2].
assert (here s2) as Hw2 by (apply (here_quiet s1); [done|now split]).
assert (receiver_core (rctx s2) (hist s2)) as Hc2 by (rewrite E2, H2; now apply receiver_core_app).
assert (sameState s s2) as S2 by (unfold sameState; now rewrite E2, E1).
case_match; [apply wp_ret; now apply Hfailed|]. destruct ok2; [|done]. destruct (Hr eq_refl) as [_ Hres].
eapply wp_seq.
- apply wp_postAckReceiver; [done|done| |done|].
+ intros E. rewrite E2, E1 in E. done.
+ rewrite H2, H1. now apply aliveRun_app, aliveRun_app.
- intros ok3 s3 (S3 & Hw3 & Hc3 & Hm3). apply wp_ret.
assert (sameState s s3) as S03 by (unfold sameState in *; congruence).
destruct ok3; [|now apply Hfailed]. split; [|done]. apply recv_post_mid; auto.
Qed.

Lemma wp_aliveReceiver fuel s : receiver_mid s -> pr_state (rctx s) = ncclIbPortRecoveryStateAliveMessages ->
wp (ncclIbPortRecoveryProgressAliveMessagesReceiver fuel) (fun r s' => recv_post s r s' /\
(r = GoToNextState -> pr_ackPosted (rctx s') = true /\ gaveDone (hist s'))) s.
Proof.
intros Hm Hst. unfold ncclIbPortRecoveryProgressAliveMessagesReceiver. apply wp_bind, wp_gets.
case_match eqn:Ep.
- apply negb_true_iff in Ep. eapply wp_seq; [now apply wp_pollCq_receiver; [|left]|].
intros ok s1 (Hm1 & S1 & P1).
case_match; [apply wp_ret; split; [now apply recv_post_mid|done]|].
apply wp_bind, wp_gets. case_match eqn:En.
+ apply Z.ltb_lt in En. eapply wp_mono; [apply wp_acknowledge; [done| |congruence|done]|].
{ unfold sameState in S1. rewrite S1, Hst. done. }
intros r s2 [(S2 & Hp2) Hr]. split; [split; [unfold sameState in *; congruence|done]|done].
+ eapply wp_seq; [now apply wp_clockReceiver|]. intros now s2 (Hm2 & S2 & E2).
assert (sameState s s2) as S02 by (unfold sameState in *; congruence).
case_match; [|apply wp_ret; split; [now apply recv_post_mid|done]].
eapply wp_seq; [now apply wp_countFailureReceiver|]. intros last s3 (Hm3 & S3 & _).
assert (sameState s s3) as S03 by (unfold sameState in *; congruence).
case_match; [apply wp_ret; split; [now apply recv_post_mid|done]|].
apply wp_bind. unfold modCtx. apply wp_modify, wp_ret. split; [|done].
apply recv_post_mid; [done|]. now apply (receiver_mid_ctx s3 (fun x => x <| pr_timeLastMsg := now |>)).
- apply negb_false_iff in Ep. eapply wp_seq; [now apply wp_pollCq_receiver; [|left]|].
intros ok s1 (Hm1 & S1 & P1).
case_match; [apply wp_ret; split; [now apply recv_post_mid|done]|].
apply wp_bind, wp_gets. case_match eqn:Ec.
{ apply wp_ret. split; [now apply recv_post_mid|]. intros _. split; [congruence|].
destruct Hm1 as (_ & Hc1 & _). now apply (rc_completed _ _ Hc1). }
eapply wp_seq; [now apply wp_clockReceiver|]. intros now s2 (Hm2 & S2 & E2).
assert (sameState s s2) as S02 by (unfold sameState in *; congruence).
case_match; [|apply wp_ret; split; [now apply recv_post_mid|done]].
eapply wp_seq; [now apply wp_countFailureReceiver|]. intros last s3 (Hm3 & S3 & _).
assert (sameState s s3) as S03 by (unfold sameState in *; congruence).
case_match; [apply wp_ret; split; [now apply recv_post_mid|done]|].
apply wp_bind. unfold modCtx. apply wp_modify.
eapply wp_seq; [apply wp_postRecvs|]. intros ok4 s4 Qw4.
destruct Hm3 as (Hw3 & Hc3 & _). destruct (quiet_grows _ _ Qw4) as [es4 H4].
assert (here s4) as Hw4 by (eapply here_quiet; [|exact Qw4]; now apply here_ctx).
destruct Qw4 as [E4 _].
apply wp_ret. destruct ok4; (split; [|done]); (split; [unfold sameState in *; now rewrite E4|]);
(split; [done|]); (split; [|now intros [?|?]]); rewrite E4, H4; apply receiver_core_app; destruct Hc3; now split.
Qed.

Lemma wp_ackReceiver fuel s : receiver_mid s -> pr_state (rctx s) = ncclIbPortRecoveryStateAck ->
wp (ncclIbPortRecoveryProgressAckReceiver fuel) (fun r s' => recv_post s r s' /\
(r = GoToPrevState -> receiver_core (rctx s') (hist s') /\ trail (rctx s') (hist s')) /\
(r = GoToNextState -> allDone (hist s'))) s.
Proof.
intros Hm Hst. unfold ncclIbPortRecoveryProgressAckReceiver.
eapply wp_seq; [now apply wp_pollCq_receiver; [|right]|]. intros ok s1 (Hm1 & S1 & P1).
case_match; [apply wp_ret; split; [now apply recv_post_mid|done]|].
apply wp_bind, wp_gets. case_match eqn:Er.
2:{ apply wp_ret. split; [now apply recv_post_mid|]. split; [done|]. intros _.
destruct Hm1 as (_ & Hc1 & _). apply (rc_received _ _ Hc1). now apply negb_false_iff in Er. }
eapply wp_seq; [now apply wp_clockReceiver|]. intros now s2 (Hm2 & S2 & E2).
assert (sameState s s2) as S02 by (unfold sameState in *; congruence).
case_match; [|apply wp_ret; split; [now apply recv_post_mid|done]].
eapply wp_seq; [now apply wp_countFailureReceiver|]. intros last s3 (Hm3 & S3 & _).
assert (sameState s s3) as S03 by (unfold sameState in *; congruence).
case_match; [apply wp_ret; split; [now apply recv_post_mid|done]|].
apply wp_bind. unfold modCtx. apply wp_modify. set (s4 := s3 <| rctx := _ |>).
destruct Hm3 as (Hw3 & Hc3 & _). assert (here s4) as Hw4 by now apply here_ctx.
assert (receiver_core (rctx s4) (hist s4)) as Hc4 by (destruct Hc3; now split).
eapply wp_seq; [now apply wp_drain|]. intros ok5 s5 (E5 & Hw5 & es5 & H5).
assert (receiver_core (rctx s5) (hist s5)) as Hc5 by (rewrite E5, H5; now apply receiver_core_app).
assert (sameState s s5) as S5 by (unfold sameState in *; now rewrite E5).
apply wp_ret. destruct ok5.
- split; [|split; [|done]]; [split; [done|]; split; [done|]; split; [done|]; now intros [?|?]|].
intros _. split; [done|]. apply trail_zero. now rewrite E5.
- split; [|done]. split; [done|]. split; [done|]. split; [done|]. now intros [?|?].
Qed.
End Receiver.
End Steps.

(** ** A whole step *)

Section Whole.
Context `{M : RecoveryMachine} (k : Conn) (c d : Z).
Context (Hpoll : forall h c d n wcs, poll_recovery_cq h c d n = Some wcs -> (length wcs <= Z.to_nat n)%nat).

Abbreviation hist s := (rhistory (shared s)).

(** Between two steps. *)
Definition ctx_ok (x : ncclIbPortRecoveryContext) (h : list RecEvent) : Prop :=
if k_isSend k then sender_ok k c d x h
else receiver_core k c d x h /\
 (pr_state x <> ncclIbPortRecoveryStateFailed -> trail c d x h /\ inAck k c d x h) /\
 (pr_state x = ncclIbPortRecoveryStateSuccess -> handshake k c d h).

Definition step_ok (s : RecState) : Prop := here k c d s /\ ctx_ok (rctx s) (hist s).

Lemma ctx_ok_success x h : ctx_ok x h -> pr_state x = ncclIbPortRecoveryStateSuccess -> handshake k c d h.
Proof. unfold ctx_ok, handshake. destruct (k_isSend k); [intros [] E; auto|]. intros (_ & _ & H) E. auto. Qed.

Lemma step_ok_quiet s s' : quiet k c d s s' -> step_ok s -> step_ok s'.
Proof.
intros Hq (Hh & Hok). split; [now apply (here_quiet k c d s)|]. destruct (Hq) as [-> [_ (es & -> & Hn)]].
unfold ctx_ok in *. destruct (k_isSend k) eqn:Ek; [now apply sender_ok_app|].
destruct Hok as (Hc & Ht & Hs). split; [now apply receiver_core_app|].
split; [|intros E; unfold handshake in *; rewrite Ek in *; apply follows_app; auto].
intros E. destruct (Ht E). split; [apply trail_no_recv; [now apply recvImms_no_poll|done]|now apply inAck_app].
Qed.

(** A fresh context. *)
Lemma fresh_ok x h : pr_state x <> ncclIbPortRecoveryStateSuccess -> pr_state x <> ncclIbPortRecoveryStateAck ->
pr_ackReceived x = false -> pr_ackPosted x = false -> pr_ackCompleted x = false ->
pr_nInOrderMsgsReceived x = 0 -> ctx_ok x h.
Proof.
intros Hs Ha H1 H2 H3 H4. unfold ctx_ok. destruct (k_isSend k).
- split; [split; congruence|congruence|congruence].
- split; [split; try congruence; lia|]. split; [|congruence]. intros _. split; [now apply trail_zero|].
intros E. congruence.
Qed.

(** Moving to another phase. *)
Lemma wp_setState st (Q : unit -> RecState -> Prop) s : Q tt (s <| rctx := (rctx s) <| pr_state := st |> |>) ->
wp (setState st) Q s.
Proof. intros H. unfold setState, modCtx. now apply wp_modify. Qed.

Lemma step_failed s : here k c d s ->
(if k_isSend k then sender_core k c d (rctx s) (hist s) else receiver_core k c d (rctx s) (hist s)) ->
step_ok (s <| rctx := (rctx s) <| pr_state := ncclIbPortRecoveryStateFailed |> |>).
Proof.
intros Hh Hc. split; [now apply here_ctx|]. unfold ctx_ok. destruct (k_isSend k).
- split; [destruct Hc; now split|done|done].
- split; [destruct Hc; now split|]. done.
Qed.

Lemma sender_mid_ok s : k_isSend k = true -> sender_mid k c d s ->
pr_state (rctx s) <> ncclIbPortRecoveryStateSuccess -> step_ok s.
Proof.
intros Hs (Hh & Hc & Hp) Hst. split; [done|]. unfold ctx_ok. rewrite Hs. now split.
Qed.

Lemma receiver_mid_ok s : k_isSend k = false -> receiver_mid k c d s ->
pr_state (rctx s) <> ncclIbPortRecoveryStateSuccess -> step_ok s.
Proof.
intros Hs (Hh & Hc & Ht & Ha) Hst. split; [done|]. unfold ctx_ok. rewrite Hs. now split.
Qed.

Lemma ok_sender_mid s : k_isSend k = true -> step_ok s -> pr_state (rctx s) <> ncclIbPortRecoveryStateFailed ->
sender_mid k c d s.
Proof. intros Hs [Hh Hok] Hst. unfold ctx_ok in Hok. rewrite Hs in Hok. destruct Hok. split; [done|]. auto. Qed.

Lemma ok_receiver_mid s : k_isSend k = false -> step_ok s -> pr_state (rctx s) <> ncclIbPortRecoveryStateFailed ->
receiver_mid k c d s.
Proof.
intros Hs [Hh Hok] Hst. unfold ctx_ok in Hok. rewrite Hs in Hok. destruct Hok as (Hc & Ht & _).
destruct (Ht Hst). now split.
Qed.

Lemma wp_progressAlive fuel s : step_ok s -> pr_state (rctx s) = ncclIbPortRecoveryStateAliveMessages ->
wp (ncclIbPortRecoveryProgressAliveMessages fuel) (fun _ s' => step_ok s' /\
pr_state (rctx s') <> ncclIbPortRecoveryStateInit /\ pr_state (rctx s') <> ncclIbPortRecoveryStateSuccess) s.
Proof.
intros Hok Hst. unfold ncclIbPortRecoveryProgressAliveMessages.
apply wp_bind, (wp_getComm k c d); [apply Hok|]. intros n _ Hk.
assert (isSend (base n) = k_isSend k) as -> by (rewrite <- Hk; done).
destruct (k_isSend k) eqn:Es.
- eapply wp_seq.
{ eapply wp_aliveSender; [done|apply ok_sender_mid; [done..|congruence]|done]. }
intros r s1 [Hm1 S1]. unfold sameState in S1.
assert (step_ok s1) as Hok1 by (apply sender_mid_ok; [done..|congruence]).
destruct r; [apply wp_ret; split; [done|split; congruence]| |apply wp_fail|].
+ apply wp_setState. split; [|done]. apply sender_mid_ok; [done| |done].
now apply (sender_mid_ctx k c d s1 (fun x => x <| pr_state := ncclIbPortRecoveryStateAck |>)).
+ apply wp_setState. split; [|done]. apply step_failed; [apply Hm1|]. rewrite Es. apply Hm1.
- eapply wp_seq.
{ eapply wp_aliveReceiver; [done|done|apply ok_receiver_mid; [done..|congruence]|done]. }
intros r s1 [(S1 & Hw1 & Hc1 & Hm1) Hnext]. unfold sameState in S1.
destruct r; [| |apply wp_fail|].
+ apply wp_ret. split; [|split; congruence]. apply receiver_mid_ok; [done|auto|congruence].
+ apply wp_setState. split; [|done]. apply receiver_mid_ok; [done| |done].
destruct (Hnext eq_refl) as [Hp Hd]. split; [now apply here_ctx|].
split; [destruct Hc1; now split|]. split; [now apply trail_posted|]. now intros _.
+ apply wp_setState. split; [|done]. apply step_failed; [done|]. now rewrite Es.
Qed.

Lemma wp_progressAck fuel s : step_ok s -> pr_state (rctx s) = ncclIbPortRecoveryStateAck ->
wp (ncclIbPortRecoveryProgressAck fuel) (fun _ s' => step_ok s' /\
pr_state (rctx s') <> ncclIbPortRecoveryStateInit) s.
Proof.
intros Hok Hst. unfold ncclIbPortRecoveryProgressAck.
apply wp_bind, (wp_getComm k c d); [apply Hok|]. intros n _ Hk.
assert (isSend (base n) = k_isSend k) as -> by (rewrite <- Hk; done).
destruct (k_isSend k) eqn:Es.
- eapply wp_seq; [eapply wp_ackSender; [done|apply ok_sender_mid; [done..|congruence]]|].
intros r s1 (Hw1 & Hc1 & S1 & Hp1 & Hn1). unfold sameState in S1.
destruct r; [apply wp_ret; split; [|congruence]; apply sender_mid_ok; [done| |congruence]; split; [done|]; auto|..];
apply wp_setState; (split; [|done]).
+ split; [now apply here_ctx|]. unfold ctx_ok. rewrite Es.
split; [destruct Hc1; now split|intros _; now apply Hp1|intros _; now apply Hn1].
+ apply sender_mid_ok; [done| |done]. split; [now apply here_ctx|]. split; [destruct Hc1; now split|].
now apply Hp1.
+ apply step_failed; [done|]. now rewrite Es.
- eapply wp_seq; [eapply wp_ackReceiver; [done|done|apply ok_receiver_mid; [done..|congruence]|done]|].
intros r s1 [(S1 & Hw1 & Hc1 & Hm1) [Hprev Hnext]]. unfold sameState in S1.
destruct r; [apply wp_ret; split; [|congruence]; apply receiver_mid_ok; [done|auto|congruence]|..];
apply wp_setState; (split; [|done]).
+ split; [now apply here_ctx|]. unfold ctx_ok. rewrite Es. split; [destruct Hc1; now split|].
destruct (Hm1 (or_intror eq_refl)) as (_ & _ & Ht & _). unfold handshake. rewrite Es.
split; [split; [exact Ht|done]|]. intros _. now apply Hnext.
+ destruct (Hprev eq_refl) as [_ Ht]. apply receiver_mid_ok; [done| |done].
split; [now apply here_ctx|]. split; [destruct Hc1; now split|]. split; [exact Ht|done].
+ apply step_failed; [done|]. now rewrite Es.
Qed.

Lemma wp_progressInit s : step_ok s -> pr_state (rctx s) <> ncclIbPortRecoveryStateSuccess ->
wp progressInit (fun go s' => step_ok s' /\ pr_state (rctx s') <> ncclIbPortRecoveryStateSuccess /\
(go = false -> pr_state (rctx s') = ncclIbPortRecoveryStateInit) /\
(go = true -> pr_state (rctx s') <> ncclIbPortRecoveryStateInit)) s.
Proof.
intros Hok Hns. unfold progressInit. apply wp_bind, wp_gets. case_match eqn:Ei.
{ apply wp_ret. split; [done|]. split; [done|]. split; [done|]. intros _ E. now rewrite E in Ei. }
apply negb_false_iff, bool_decide_eq_true in Ei.
eapply wp_seq; [apply (wp_rclock k c d)|]. intros now s1 Qw1.
assert (step_ok s1) as Hok1 by now apply (step_ok_quiet s).
assert (rctx s1 = rctx s) as E1 by apply Qw1.
case_match; [apply wp_ret; rewrite E1, Ei; done|].
eapply wp_seq; [apply wp_qpsReconfigure; apply Hok1|]. intros ok s2 Qw2.
assert (step_ok s2) as Hok2 by now apply (step_ok_quiet s1).
assert (rctx s2 = rctx s) as E2 by (destruct Qw2 as [-> _]; done).
case_match.
- apply wp_bind, wp_setState, wp_ret.
split; [|done]. apply step_failed; [apply Hok2|]. destruct Hok2 as [_ Hok2]. unfold ctx_ok in Hok2.
destruct (k_isSend k); apply Hok2.
- apply wp_bind, (wp_getComm k c d); [apply Hok2|]. intros n _ _.
eapply (wp_seq _ _ (fun _ s3 => here k c d s3 /\ ctx_ok (rctx s3) (hist s3) /\ pr_state (rctx s3) = ncclIbPortRecoveryStateInit)).
{ destruct Hok2 as [Hh2 Hc2]. apply wp_when; intros _; [|rewrite E2, Ei in *; done].
unfold modCtx. apply wp_modify. split; [now apply here_ctx|]. split; [|cbn; now rewrite E2].
unfold ctx_ok in *. destruct (k_isSend k).
- destruct Hc2 as [[] ? ?]. now split.
- destruct Hc2 as ([] & ? & ?). now split. }
intros [] s3 (Hh3 & Hc3 & E3). apply wp_bind, wp_setState, wp_ret.
split; [|done]. split; [now apply here_ctx|]. unfold ctx_ok in *. destruct (k_isSend k).
+ destruct Hc3 as [[] Hp ?]. split; [now split| |done]. intros _. apply Hp. congruence.
+ destruct Hc3 as ([] & Ht & ?). split; [now split|]. split; [|done]. intros _.
destruct Ht as [Ht _]; [congruence|]. split; [exact Ht|done].
Qed.
End Whole.
