(* ===== verification/RecoveryOutcome.v ===== *)
(** * Transport: the outcome of a port recovery

    The protocol is followed from the start of the recovery of a device to the
    moment its state is stored, with other threads running in between. *)

From S2P Require Import Prelude NetTypes NetBase NetInv NetInit NetDemo Resiliency Recovery RecoverySpec.

Open Scope Z_scope.
Open Scope nccl_scope.

(** ** Nothing but the end of the protocol touches the failover state *)

Definition failoverStates (s : RecState) : list (option ncclIbResiliency) :=
  (fun n => resiliency (base n)) <$> comms (shared s).

(** The device a context is about. *)
Definition owner (c : ncclIbPortRecoveryContext) : Z * Z := (pr_resCtx c, pr_devIndex c).

Lemma keeps_forReturn {S A} (I : S -> Prop) n i (body : Z -> comp S (option A)) :
  (forall j, keeps I (body j) (fun _ => True)) -> keeps I (forReturn n i body) (fun _ => True).
Proof.
  intros H. revert i. induction n as [|n IH]; intros i; [now apply keeps_ret|]. cbn [forReturn].
  eapply keeps_bind; [apply H|]. intros [a|] _; [now apply keeps_ret|apply IH].
Qed.

(** What recovery knows of the communicators: their failover contexts and their queue pairs. *)
Definition commStates (s : RecState) : list (option ncclIbResiliency * Conn) :=
  (fun n => (resiliency (base n), conn n)) <$> comms (shared s).

(** Completions are taken for the device [o] only. *)
Definition polls_only (o : Z * Z) (e : RecEvent) : Prop :=
  match e with PolledRecoveryCq c d _ => (c, d) = o | _ => True end.

(** What an operation of every communicator keeps of it, an operation on one keeps of all. *)
Lemma keeps_onComm {A X} (f : Net -> X) (L : list X) (I : RecState -> Prop) (m : net A) (Q : A -> Prop) :
(forall x, keeps (fun n => f n = x) m Q) ->
(forall s l, I s -> I (s <| shared := (shared s) <| comms := l |> |>)) ->
keeps (fun s => f <$> comms (shared s) = L /\ I s) (onComm m) (fun _ => True).
Proof.
intros Hm HI s [Hs Hi]. unfold onComm. destruct (zget (comms (shared s)) (pr_resCtx (rctx s))) as [n|] eqn:E; [|done].
destruct (Hm (f n) n eq_refl) as [Hn _]. destruct (m n) as [oc n']. cbn in Hn.
cbn [fst snd]. split; [split; [|now apply HI]|now destruct oc]. cbn. rewrite <- Hs. apply list_eq_zget. intros i.
assert (forall l, zget (f <$> l) i = f <$> zget l i) as Hmap.
{ intros l. unfold zget. case_decide; [apply list_lookup_fmap|done]. }
rewrite !Hmap, zget_zupd. case_decide as Ei; [|done]. destruct Ei as [<- _]. rewrite E. cbn. now rewrite Hn.
Qed.

(** The frame of the protocol: all it does to the state but for its own context. *)
Definition framed (R : list (option ncclIbResiliency * Conn)) (o : Z * Z) (h : list RecEvent) (s : RecState) : Prop :=
  commStates s = R /\ owner (rctx s) = o /\
  exists es, rhistory (shared s) = h ++ es /\ Forall (polls_only o) es.

Lemma framed_refl s : framed (commStates s) (owner (rctx s)) (rhistory (shared s)) s.
Proof. split; [done|]. split; [done|]. exists []. now rewrite app_nil_r. Qed.

Section Frame.
Context `{M : RecoveryMachine} (R : list (option ncclIbResiliency * Conn)) (o : Z * Z) (h0 : list RecEvent).

Abbreviation quietly m := (keeps (framed R o h0) m (fun _ => True)).

Lemma same_modCtx f : (forall c, owner (f c) = owner c) -> quietly (modCtx f).
Proof. intros Hf. apply keeps_modify. intros s (H1 & H2 & H3). split; [done|]. split; [|done]. cbn. now rewrite Hf. Qed.

Lemma framed_log e s : framed R o h0 s -> polls_only o e ->
framed R o h0 (s <| shared := (shared s) <| rhistory := rhistory (shared s) ++ [e] |> |>).
Proof.
intros (H1 & H2 & es & H3 & Hes) He. split; [done|]. split; [done|]. exists (es ++ [e]). cbn.
rewrite H3, <- app_assoc. split; [done|]. apply Forall_app. split; [done|now constructor].
Qed.

Lemma same_rlog e : polls_only o e -> quietly (rlog e).
Proof. intros He. apply keeps_modify. intros s Hs. now apply framed_log. Qed.

Lemma same_poll n : quietly (pollRecovery n).
Proof.
intros s Hs. unfold pollRecovery, bind, getS.
destruct (poll_recovery_cq _ _ _ _) as [wcs|]; cbn; [|done]. split; [|done].
apply framed_log; [done|]. cbn. apply Hs.
Qed.

Lemma same_onComm {A} (m : net A) (Q : A -> Prop) :
(forall r, keeps (fun n => (resiliency (base n), conn n) = r) m Q) -> quietly (onComm m).
Proof.
intros Hm. apply (keeps_onComm (fun n => (resiliency (base n), conn n)) R _ m Q Hm). now intros s l Hs.
Qed.

Lemma same_succeeds (m : rec unit) : quietly m -> quietly (succeeds m).
Proof. intros H s Hs. destruct (H s Hs) as [H1 _]. unfold succeeds. now destruct (m s) as [[u|r|] s']. Qed.


Ltac qwalk := repeat first
[ exact I | done
| solve [eauto 2 with keeps]
| apply same_modCtx; now intros ?
| apply same_rlog; exact I
| apply same_poll
| progress cbv zeta
| apply keeps_forReturn; intros ?
| apply keeps_forN; intros ? ?
| apply same_succeeds
| lazymatch goal with
| |- keeps _ (bind _ _) _ => eapply (keeps_bind _ _ _ (fun _ => True)); [|intros ? _]
| |- keeps _ (if ?b then _ else _) _ => destruct b
| |- keeps _ (match ?x with _ => _ end) _ => destruct x
| |- keeps _ (ret _) _ => now apply keeps_ret
| |- keeps _ (fail _) _ => apply keeps_fail
| |- keeps _ fault _ => apply keeps_fault
| |- keeps _ getS _ => eapply keeps_any, keeps_getS
| |- keeps _ (gets _) _ => eapply keeps_any, keeps_gets
| |- keeps _ (of_option _) _ => eapply keeps_any, keeps_of_option
| |- keeps _ (when _ _) _ => apply keeps_when
end ].

Lemma same_clock : quietly rclock. Proof. unfold rclock. qwalk. Qed.
Lemma same_getComm : quietly getComm. Proof. unfold getComm. qwalk. Qed.
#[local] Hint Resolve same_clock same_getComm : keeps.
Lemma same_getResCtx : quietly getResCtx. Proof. unfold getResCtx. qwalk. Qed.
Lemma same_modifyQp q op : quietly (modifyQp q op). Proof. unfold modifyQp. qwalk. Qed.
Lemma same_hasIbvQp q : quietly (hasIbvQp q). Proof. unfold hasIbvQp. qwalk. Qed.
Lemma same_postRecv dev : quietly (ncclIbPortRecoveryPostRecvWorkRequest dev).
Proof. unfold ncclIbPortRecoveryPostRecvWorkRequest. qwalk. Qed.
#[local] Hint Resolve same_getResCtx same_modifyQp same_hasIbvQp same_postRecv : keeps.
Lemma same_postRecvs dev n : quietly (postRecvs dev n). Proof. unfold postRecvs. qwalk. Qed.
Lemma same_postSend msgs : quietly (postSend msgs). Proof. unfold postSend. qwalk. Qed.
Lemma same_reconfigure q : quietly (ncclIbResiliencyQpReconfigure q).
Proof. unfold ncclIbResiliencyQpReconfigure. qwalk. Qed.
#[local] Hint Resolve same_postRecvs same_postSend same_reconfigure : keeps.
Lemma same_recoveryQps dev : quietly (ncclIbPortRecoveryQpsReconfigure dev).
Proof. unfold ncclIbPortRecoveryQpsReconfigure. qwalk. Qed.
#[local] Hint Resolve same_recoveryQps : keeps.
Lemma same_qps dev : quietly (ncclIbResiliencyQpsReconfigure dev).
Proof. unfold ncclIbResiliencyQpsReconfigure. qwalk. Qed.
#[local] Hint Resolve same_qps : keeps.

Lemma same_restorePosts qpIndex : quietly (onComm (ncclIbPostReceiveWorkRequestsOnQp qpIndex)).
Proof. eapply same_onComm. intros r. now apply keeps_postRecvs. Qed.
Lemma same_getRecv : quietly (onComm getRecv).
Proof. apply (same_onComm _ (fun _ => True)). intros r. unfold getRecv. kwalk. Qed.
#[local] Hint Resolve same_restorePosts same_getRecv : keeps.

Lemma same_qpsRestore b : quietly (ncclIbPortRecoveryQpsRestore b).
Proof. unfold ncclIbPortRecoveryQpsRestore. qwalk. Qed.
Lemma same_drain fuel : quietly (drain fuel).
Proof. induction fuel as [|fuel IH]; cbn [drain]; qwalk. Qed.
Lemma same_receiver wc : quietly (ncclIbPortRecoveryHandleCompletionReceiver wc).
Proof. unfold ncclIbPortRecoveryHandleCompletionReceiver. qwalk. Qed.
Lemma same_sender wc : quietly (ncclIbPortRecoveryHandleCompletionSender wc).
Proof. unfold ncclIbPortRecoveryHandleCompletionSender. qwalk. Qed.
#[local] Hint Resolve same_qpsRestore same_drain same_receiver same_sender : keeps.

Lemma same_pollCq : quietly ncclIbPortRecoveryPollCq.
Proof. unfold ncclIbPortRecoveryPollCq. qwalk. Qed.
Lemma same_postAlive : quietly ncclIbPortRecoveryPostAliveMessages.
Proof. unfold ncclIbPortRecoveryPostAliveMessages. qwalk. Qed.
Lemma same_postAck : quietly ncclIbPortRecoveryPostAck.
Proof. unfold ncclIbPortRecoveryPostAck. qwalk. Qed.
Lemma same_countFailure : quietly countFailure.
Proof. unfold countFailure. qwalk. Qed.
Lemma same_setState st : quietly (setState st).
Proof. unfold setState. qwalk. Qed.
#[local] Hint Resolve same_pollCq same_postAlive same_postAck same_countFailure same_setState : keeps.

Lemma same_finishAck r b : quietly (finishAckSender r b).
Proof. unfold finishAckSender. qwalk. Qed.
#[local] Hint Resolve same_finishAck : keeps.

Lemma same_progressAlive fuel : quietly (ncclIbPortRecoveryProgressAliveMessages fuel).
Proof.
unfold ncclIbPortRecoveryProgressAliveMessages, ncclIbPortRecoveryProgressAliveMessagesSender,
ncclIbPortRecoveryProgressAliveMessagesReceiver. qwalk.
Qed.

Lemma same_progressAck fuel : quietly (ncclIbPortRecoveryProgressAck fuel).
Proof.
unfold ncclIbPortRecoveryProgressAck, ncclIbPortRecoveryProgressAckSender,
ncclIbPortRecoveryProgressAckReceiver. qwalk.
Qed.

Lemma same_progressInit : quietly progressInit.
Proof. unfold progressInit. qwalk. Qed.
Lemma same_qpsToError : quietly ncclIbPortRecoveryQpsToError.
Proof. unfold ncclIbPortRecoveryQpsToError. qwalk. Qed.
End Frame.

(** A step keeps the device its context is about, and which communicators have
recovery enabled. *)
Definition enabledStates (s : RecState) : list (option bool) :=
  (fun n => recoveryEnabled <$> resiliency (base n)) <$> comms (shared s).

Lemma enabled_failover s s' : failoverStates s' = failoverStates s -> enabledStates s' = enabledStates s.
Proof.
assert (forall t, enabledStates t = fmap recoveryEnabled <$> failoverStates t) as H
  by (intros t; unfold enabledStates, failoverStates; now rewrite <- list_fmap_compose).
intros E. now rewrite !H, E.
Qed.

Lemma failover_commStates s s' : commStates s' = commStates s -> failoverStates s' = failoverStates s.
Proof.
assert (forall t, failoverStates t = fst <$> commStates t) as H
  by (intros t; unfold failoverStates, commStates; now rewrite <- list_fmap_compose).
intros E. now rewrite !H, E.
Qed.

(** *** The two halves of a step *)

Lemma inState_other `{M : RecoveryMachine} st m s : pr_state (rctx s) <> st -> inState st m s = (Done tt, s).
Proof. intros Hn. unfold inState. nred. now rewrite bool_decide_eq_false_2. Qed.

Lemma inState_here `{M : RecoveryMachine} st m s : pr_state (rctx s) = st -> inState st m s = m s.
Proof. intros E. unfold inState. nred. now rewrite bool_decide_eq_true_2. Qed.

Ltac otherState :=
match goal with |- context [bind (inState ?st ?m) _ ?s] =>
rewrite (bind_step _ _ _ _ _ (inState_other st m s ltac:(congruence))); cbv beta iota
end.

(** The step up to the stores. *)
Definition protocol `{M : RecoveryMachine} (fuel : nat) : rec bool :=
  let* go := progressInit in
  if negb go then ret false else
  inState ncclIbPortRecoveryStateAliveMessages (ncclIbPortRecoveryProgressAliveMessages fuel) ;;;
  inState ncclIbPortRecoveryStateAck (ncclIbPortRecoveryProgressAck fuel) ;;; ret true.

Lemma same_protocol `{M : RecoveryMachine} R o h fuel : keeps (framed R o h) (protocol fuel) (fun _ => True).
Proof.
pose proof (same_progressInit R o h). pose proof (same_progressAlive R o h fuel). pose proof (same_progressAck R o h fuel).
unfold protocol, inState. kwalk.
Qed.

Section Owner.
Context `{M : RecoveryMachine} (E : list (option bool)) (o : Z * Z).

Abbreviation own := (fun s => enabledStates s = E /\ owner (rctx s) = o).

Lemma own_frame {A} (m : rec A) :
(forall R h, keeps (framed R o h) m (fun _ => True)) -> keeps own m (fun _ => True).
Proof.
intros Hm s [HE Ho]. rewrite <- Ho in Hm. destruct (Hm _ _ s (framed_refl s)) as [(H1 & H2 & _) H3].
split; [|exact H3]. split; [|congruence]. rewrite <- HE. now apply enabled_failover, failover_commStates.
Qed.

Lemma own_storeDevState st : keeps own (storeDevState st) (fun _ => True).
Proof.
assert (forall i, keeps own (onComm (setDevState i st)) (fun _ => True)) as Hset.
{ intros i. apply (keeps_onComm _ _ _ _ (fun _ => True)); [|now intros s l Hs]. intros x n Hn.
unfold setDevState, modResDev, modRes, getRes, modBase, bind, getS, gets, modify, of_option.
destruct (resiliency (base n)) as [r|] eqn:Er; cbn; [|now rewrite Er].
destruct (zget (res_devs r) i) as [rd|]; cbn; [|now rewrite Er].
destruct (zset (res_devs r) i _) as [l|]; cbn; [done|now rewrite Er]. }
assert (keeps own getResCtx (fun _ => True)) by (apply own_frame; intros R h; apply same_getResCtx).
unfold storeDevState. kwalk.
Qed.

Lemma own_inState st m : keeps own m (fun _ => True) -> keeps own (inState st m) (fun _ => True).
Proof. intros Hm. unfold inState. kwalk. Qed.

Lemma own_progress fuel : keeps own (ncclIbPortRecoveryContextProgress fuel) (fun _ => True).
Proof.
assert (keeps own progressInit (fun _ => True)) by (apply own_frame; intros R h; apply same_progressInit).
assert (forall st, keeps own (inState st (ncclIbPortRecoveryProgressAliveMessages fuel)) (fun _ => True))
by (intros st; apply own_inState, own_frame; intros R h; apply same_progressAlive).
assert (forall st, keeps own (inState st (ncclIbPortRecoveryProgressAck fuel)) (fun _ => True))
by (intros st; apply own_inState, own_frame; intros R h; apply same_progressAck).
assert (forall st st', keeps own (inState st (storeDevState st')) (fun _ => True))
by (intros st st'; apply own_inState, own_storeDevState).
unfold ncclIbPortRecoveryContextProgress. kwalk.
Qed.
End Owner.

Lemma contextInit_frame `{M : RecoveryMachine} c d s :
let s' := snd (ncclIbPortRecoveryContextInit c d s) in
framed (commStates s) (c, d) (rhistory (shared s)) s'.
Proof.
unfold ncclIbPortRecoveryContextInit. rewrite (bind_step (modCtx _) _ s tt _ eq_refl).
set (s1 := s <| rctx := freshRecoveryContext c d 0 |>). set (I := framed (commStates s) (c, d) (rhistory (shared s))).
assert (keeps I
  (let* t := rclock in modCtx (fun c => c <| pr_timeInit := t |>) ;;;
   let* c := getComm in ncclIbPortRecoveryQpsToError ;;;
   let* ok := postRecvs d (if isSend (base c) then 1 else NCCL_IB_RESILIENCY_PORT_RECOVERY_ALIVE_MSG_BATCH_SIZE_MAX) in
   if ok then ret tt else fail ncclSystemError) (fun _ => True)) as H.
{ assert (forall n, keeps I (postRecvs d n) (fun _ => True)) as Hp by (intros n; apply same_postRecvs).
  assert (keeps I rclock (fun _ => True)) by apply same_clock.
  assert (keeps I getComm (fun _ => True)) by apply same_getComm.
  assert (keeps I ncclIbPortRecoveryQpsToError (fun _ => True)) by apply same_qpsToError.
  assert (forall t, keeps I (modCtx (fun c => c <| pr_timeInit := t |>)) (fun _ => True)) by (intros t; now apply same_modCtx).
  kwalk. all: apply Hp. }
exact (proj1 (H s1 (framed_refl s1))).
Qed.

(** ** The stored state *)

Definition devState (c d : Z) (s : RecState) : option ncclIbResiliencyDevState :=
  n ← zget (comms (shared s)) c; r ← resiliency (base n); rd ← zget (res_devs r) d; Some (rd_state rd).

(** The number of devices the failover context of [c] was set up for. *)
Definition devCount (c : Z) (s : RecState) : option Z :=
  n ← zget (comms (shared s)) c; res_ndevs <$> resiliency (base n).

Lemma failover_devState s s' c d :
  failoverStates s' = failoverStates s -> devState c d s' = devState c d s /\ devCount c s' = devCount c s.
Proof.
  intros E. unfold devState, devCount.
  assert (forall t, (zget (comms (shared t)) c ≫= fun n => resiliency (base n))
    = zget (failoverStates t) c ≫= id) as H.
  { intros t. unfold failoverStates, zget. case_decide; [|done]. rewrite list_lookup_fmap.
    now destruct (comms (shared t) !! _). }
  assert (forall A (f : ncclIbResiliency -> option A) t,
    (n ← zget (comms (shared t)) c; resiliency (base n) ≫= f) = (zget (failoverStates t) c ≫= id) ≫= f) as Hf.
  { intros A f t. rewrite <- H. now destruct (zget (comms (shared t)) c). }
  split; [rewrite !Hf, E; done|].
  pose proof (Hf Z (fun r => Some (res_ndevs r))) as Hg. unfold mbind, option_bind, fmap, option_fmap, option_map in *.
  now rewrite !Hg, E.
Qed.

Section Outcome.
Context `{M : RecoveryMachine} (k : Conn) (c d : Z).

Abbreviation hist s := (rhistory (shared s)).

Lemma setDevState_shared_run st s st0 : here k c d s -> devState c d s = Some st0 ->
exists s', onComm (setDevState d st) s = (Done tt, s') /\ rctx s' = rctx s /\ hist s' = hist s /\ here k c d s' /\
devState c d s' = Some st.
Proof.
intros (Hc & Hd & n & Hn & Hk) Hst. unfold devState in Hst. rewrite Hn in Hst. cbn in Hst.
destruct (resiliency (base n)) as [r|] eqn:Er; [|done]. cbn in Hst.
destruct (zget (res_devs r) d) as [rd|] eqn:Erd; [|done].
unfold onComm. rewrite Hc, Hn. unfold setDevState, modResDev, modRes, getRes, modBase, bind, getS, of_option.
rewrite Er. cbn. rewrite Erd. cbn. rewrite zset_is_Some by now apply zget_Some in Erd. cbn.
eexists. split; [reflexivity|].
split; [done|]. split; [done|]. pose proof (zget_Some _ _ _ Hn). pose proof (zget_Some _ _ _ Erd).
assert (forall x, zget (zupd (comms (shared s)) c x) c = Some x) as Hz by (intros x; now apply zget_zupd_eq).
split.
- split; [done|]. split; [done|]. eexists. split; [apply Hz|]. now rewrite <- Hk.
- unfold devState. cbn. rewrite Hz. cbn. now rewrite zget_zupd_eq.
Qed.

Lemma storeDevState_run st s st0 nd : here k c d s -> devState c d s = Some st0 ->
devCount c s = Some nd -> 0 <= d < nd ->
exists s', storeDevState st s = (Done tt, s') /\ rctx s' = rctx s /\ hist s' = hist s /\ devState c d s' = Some st.
Proof.
intros Hh Hst Hnd Hd. unfold storeDevState. nred.
assert (pr_devIndex (rctx s) = d) as -> by apply Hh.
assert (exists r, getResCtx s = (Done r, s) /\ res_ndevs r = nd) as (r & Er & <-).
{ destruct Hh as (Hc & _ & n & Hn & _). unfold devCount in Hnd. rewrite Hn in Hnd. cbn in Hnd.
destruct (resiliency (base n)) as [r|] eqn:Hr; [|done]. exists r. split; [|cbn in Hnd; congruence].
unfold getResCtx, getComm. rewrite bind_assoc. nred. rewrite Hc, Hn. nred. cbn. unfold of_option. now rewrite Hr. }
nstep Er. unfold forN.
destruct (for_total (fun i s1 => rctx s1 = rctx s /\ hist s1 = hist s /\ here k c d s1 /\
exists st1, devState c d s1 = Some st1 /\ (d < i -> st1 = st)) (Z.to_nat (res_ndevs r)) 0
(fun i => if negb (i =? d) then ret tt else onComm (setDevState i st)) s)
as (s' & E & E1 & H1 & _ & st1 & Hst1 & Hlt).
- intros i s1 Hi (E1 & H1 & Hw1 & st1 & Hst1 & Hlt). case_match eqn:Ei.
+ exists s1. split; [done|]. split; [done|]. split; [done|]. split; [done|]. exists st1. split; [done|].
intros. apply Hlt. lia.
+ assert (i = d) as -> by lia. destruct (setDevState_shared_run st s1 st1 Hw1 Hst1) as (s2 & Es & E2 & H2 & Hw2 & Hst2).
exists s2. split; [done|]. split; [congruence|]. split; [congruence|]. split; [done|]. eauto.
- split; [done|]. split; [done|]. split; [done|]. exists st0. split; [done|]. lia.
- exists s'. split; [exact E|]. split; [done|]. split; [done|]. rewrite Hst1. f_equal. apply Hlt. lia.
Qed.

Lemma wp_storeDevState st s st0 nd : here k c d s -> devState c d s = Some st0 ->
devCount c s = Some nd -> 0 <= d < nd ->
wp (storeDevState st) (fun _ s' => rctx s' = rctx s /\ hist s' = hist s /\ devState c d s' = Some st) s.
Proof.
intros Hh Hst Hnd Hd. destruct (storeDevState_run st s st0 nd Hh Hst Hnd Hd) as (s' & E & H). unfold wp. now rewrite E.
Qed.

(** A recovery, from its start: steps that do not finish it, with anything in
between that leaves the context and the queue pairs of the communicator alone
and does not take completions of the device. *)
Inductive recovering : RecState -> Prop :=
| recovery_started s s' :
(exists n, zget (comms (shared s)) c = Some n /\ conn n = k) ->
ncclIbPortRecoveryContextInit c d s = (Done tt, s') -> recovering s'
| recovery_stepped s fuel s' :
recovering s -> ncclIbPortRecoveryContextProgress fuel s = (Done false, s') -> recovering s'
| recovery_elsewhere s s' :
recovering s -> rctx s' = rctx s -> ext k c d (shared s) (shared s') -> recovering s'.

Context (Hpoll : forall h c d n wcs, poll_recovery_cq h c d n = Some wcs -> (length wcs <= Z.to_nat n)%nat).

Lemma wp_qpsToError s : here k c d s ->
wp ncclIbPortRecoveryQpsToError (fun _ s' => quiet k c d s s') s.
Proof.
intros Hh. unfold ncclIbPortRecoveryQpsToError. apply wp_bind, wp_gets, wp_bind, (wp_getComm k c d); [done|].
intros n _ _. unfold forN. apply (wp_for (fun _ s1 => quiet k c d s s1)); [|done].
intros i s1 _ Qw1. apply wp_bind, wp_of_option. intros q _. case_match; [now apply wp_ret|].
eapply wp_seq; [apply (wp_modifyQp k c d); now apply (here_quiet k c d s)|]. intros ok s2 [Qw2 _].
destruct ok; [apply wp_ret; now transitivity s1|apply wp_fail].
Qed.

Lemma wp_contextInit s : (exists n, zget (comms (shared s)) c = Some n /\ conn n = k) ->
wp (ncclIbPortRecoveryContextInit c d) (fun _ s' => step_ok k c d s' /\
pr_state (rctx s') = ncclIbPortRecoveryStateInit) s.
Proof.
intros Hn. unfold ncclIbPortRecoveryContextInit, modCtx. apply wp_bind, wp_modify.
set (s1 := s <| rctx := _ |>). assert (here k c d s1) as Hw1 by done.
eapply wp_seq; [apply (wp_rclock k c d)|]. intros t s2 Qw2. apply wp_bind, wp_modify.
assert (here k c d s2) as Hw2 by now apply (here_quiet k c d s1). destruct Qw2 as [E2 _].
match goal with |- wp _ _ ?x => set (s3 := x) end.
assert (here k c d s3) as Hw3 by now apply here_ctx.
apply wp_bind, (wp_getComm k c d); [done|]. intros n _ _.
eapply wp_seq; [now apply wp_qpsToError|]. intros [] s4 Qw4. cbv zeta.
eapply wp_seq; [apply (wp_postRecvs k c d)|]. intros ok s5 Qw5.
assert (quiet k c d s3 s5) as Qw by now transitivity s4.
destruct ok; [|apply wp_fail]. apply wp_ret.
destruct (Qw) as [E5 _].
assert (rctx s5 = freshRecoveryContext c d t) as E by (rewrite E5; cbn; rewrite E2; done).
split; [split; [now apply (here_quiet k c d s3)|]|now rewrite E].
rewrite E. now apply fresh_ok.
Qed.

(** The result of a step tells whether the phase is a final one. *)
Definition final (st : ncclIbPortRecoveryState) : bool :=
bool_decide (st = ncclIbPortRecoveryStateSuccess) || bool_decide (st = ncclIbPortRecoveryStateFailed).

Lemma wp_inState st m (Q : unit -> RecState -> Prop) s :
(pr_state (rctx s) = st -> wp m Q s) -> (pr_state (rctx s) <> st -> Q tt s) -> wp (inState st m) Q s.
Proof.
intros H1 H2. unfold inState. apply wp_bind, wp_gets, wp_when; intros E.
- apply H1. now apply bool_decide_eq_true in E.
- apply H2. now apply bool_decide_eq_false in E.
Qed.

Lemma protocol_states fuel s : failoverStates (snd (protocol fuel s)) = failoverStates s.
Proof. apply failover_commStates. now destruct (same_protocol _ _ _ fuel s (framed_refl s)) as [[E _] _]. Qed.

Lemma wp_protocol fuel s : step_ok k c d s -> pr_state (rctx s) <> ncclIbPortRecoveryStateSuccess ->
wp (protocol fuel) (fun go s' => step_ok k c d s' /\ failoverStates s' = failoverStates s /\
(go = false -> pr_state (rctx s') = ncclIbPortRecoveryStateInit)) s.
Proof.
intros Hok Hns.
assert (wp (protocol fuel) (fun go s' => step_ok k c d s' /\ (go = false -> pr_state (rctx s') = ncclIbPortRecoveryStateInit)) s) as H.
{ eapply wp_seq; [exact (wp_progressInit k c d s Hok Hns)|].
intros go s1 (Hok1 & Hns1 & Hg1 & Hg2). destruct go; cbn; [|now apply wp_ret].
eapply (wp_seq _ _ (fun _ s2 => step_ok k c d s2)).
{ apply wp_inState; [|done]. intros Hst. eapply wp_mono; [exact (wp_progressAlive k c d Hpoll fuel s1 Hok1 Hst)|].
now intros [] s2 (? & _). }
intros [] s2 Hok2. eapply (wp_seq _ _ (fun _ s3 => step_ok k c d s3)).
{ apply wp_inState; [|done]. intros Hst. eapply wp_mono; [exact (wp_progressAck k c d Hpoll fuel s2 Hok2 Hst)|].
now intros [] s3 (? & _). }
intros [] s3 Hok3. now apply wp_ret. }
pose proof (protocol_states fuel s) as Hfs. unfold wp in *. now destruct (protocol fuel s) as [[go|e|] s'].
Qed.

Lemma progress_split fuel s : ncclIbPortRecoveryContextProgress fuel s =
bind (protocol fuel) (fun go => if negb go then ret false else
inState ncclIbPortRecoveryStateSuccess (storeDevState ncclIbResiliencyDevStateRecovered) ;;;
inState ncclIbPortRecoveryStateFailed (storeDevState ncclIbResiliencyDevStateRecoveryFailed) ;;;
let* c := gets rctx in ret (final (pr_state c))) s.
Proof.
unfold ncclIbPortRecoveryContextProgress, protocol, bind.
destruct (progressInit s) as [[[]|r|] s1]; try reflexivity. cbn [negb].
destruct (inState ncclIbPortRecoveryStateAliveMessages _ s1) as [[u|r|] s2]; try reflexivity.
now destruct (inState ncclIbPortRecoveryStateAck _ s2) as [[u'|r|] s3].
Qed.

Lemma keeps_store x st : keeps (fun s => rctx s = x) (storeDevState st) (fun _ => True).
Proof.
assert (forall A (m : net A), keeps (fun s => rctx s = x) (onComm m) (fun _ => True)) as Hon.
{ intros A m s Hs. unfold onComm. destruct (zget _ _) as [n|]; [|done]. destruct (m n) as [o n']. now destruct o. }
assert (keeps (fun s => rctx s = x) getResCtx (fun _ => True)) by (unfold getResCtx, getComm; kwalk).
unfold storeDevState. kwalk.
Qed.

(** The second half of the step: the stores, and the result. *)
Definition stores : rec bool :=
inState ncclIbPortRecoveryStateSuccess (storeDevState ncclIbResiliencyDevStateRecovered) ;;;
inState ncclIbPortRecoveryStateFailed (storeDevState ncclIbResiliencyDevStateRecoveryFailed) ;;;
let* c := gets rctx in ret (final (pr_state c)).

Lemma wp_stores s : wp stores (fun b s' => rctx s' = rctx s /\ b = final (pr_state (rctx s)) /\ (b = false -> s' = s)) s.
Proof.
assert (forall st s1, wp (storeDevState st) (fun _ s2 => rctx s2 = rctx s1) s1) as Hst.
{ intros st s1. destruct (keeps_store (rctx s1) st s1 eq_refl) as [E _].
unfold wp. now destruct (storeDevState st s1) as [[[]|r|] s2]. }
unfold stores. eapply (wp_seq _ _ (fun _ s1 => rctx s1 = rctx s /\ (final (pr_state (rctx s)) = false -> s1 = s))).
{ apply wp_inState; [|done]. intros E. eapply wp_mono; [apply Hst|]. intros [] s1 E1. split; [done|].
now rewrite E. }
intros [] s1 [E1 H1]. eapply (wp_seq _ _ (fun _ s2 => rctx s2 = rctx s /\ (final (pr_state (rctx s)) = false -> s2 = s))).
{ apply wp_inState; [|done]. intros E. eapply wp_mono; [apply Hst|]. intros [] s2 E2. split; [congruence|].
rewrite <- E1, E. done. }
intros [] s2 [E2 H2]. apply wp_bind, wp_gets, wp_ret. rewrite E2. auto.
Qed.

Lemma step_ok_recovering s : recovering s -> step_ok k c d s /\ final (pr_state (rctx s)) = false.
Proof.
induction 1 as [s s' Hn E|s fuel s' _ [Hok Hf] E|s s' _ [Hok Hf] Ex Hx].
- destruct (wp_done _ _ _ _ _ (wp_contextInit s Hn) E) as [Hok Hst]. split; [done|]. now rewrite Hst.
- rewrite progress_split in E.
assert (pr_state (rctx s) <> ncclIbPortRecoveryStateSuccess) as Hns by (intros E1; now rewrite E1 in Hf).
refine (wp_done _ (fun b s1 => b = false -> step_ok k c d s1 /\ final (pr_state (rctx s1)) = false) _ _ _ _ E eq_refl).
eapply wp_seq; [now apply wp_protocol|]. intros go s1 (Hok1 & _ & Hg). destruct go; cbn [negb].
2:{ apply wp_ret. intros _. split; [done|]. now rewrite Hg. }
eapply wp_mono; [apply wp_stores|]. intros b s2 (E2 & -> & H2) Hfin. rewrite E2. split; [|done].
now rewrite H2.
- split; [|now rewrite Ex]. apply (step_ok_quiet k c d s); [now split|done].
Qed.

(** What a step of a recovery leaves behind. *)
Lemma progress_outcome fuel s done_ s' st nd :
recovering s -> devState c d s = Some st -> devCount c s = Some nd -> 0 <= d < nd ->
ncclIbPortRecoveryContextProgress fuel s = (Done done_, s') ->
match pr_state (rctx s') with
| ncclIbPortRecoveryStateSuccess =>
done_ = true /\ devState c d s' = Some ncclIbResiliencyDevStateRecovered /\ handshake k c d (hist s')
| ncclIbPortRecoveryStateFailed =>
done_ = true /\ devState c d s' = Some ncclIbResiliencyDevStateRecoveryFailed
| _ => done_ = false /\ devState c d s' = Some st
end.
Proof.
intros Hrec Hst Hnd Hd E. destruct (step_ok_recovering s Hrec) as [Hok Hf].
rewrite progress_split in E.
assert (pr_state (rctx s) <> ncclIbPortRecoveryStateSuccess) as Hns by (intros E1; now rewrite E1 in Hf).
revert E. apply (wp_done _ (fun done_ s' => match pr_state (rctx s') with
| ncclIbPortRecoveryStateSuccess =>
done_ = true /\ devState c d s' = Some ncclIbResiliencyDevStateRecovered /\ handshake k c d (hist s')
| ncclIbPortRecoveryStateFailed =>
done_ = true /\ devState c d s' = Some ncclIbResiliencyDevStateRecoveryFailed
| _ => done_ = false /\ devState c d s' = Some st end)).
eapply wp_seq; [now apply wp_protocol|]. intros go s1 (Hok1 & Hfs & Hg).
destruct (failover_devState s s1 c d Hfs) as [Ed En]. rewrite <- Ed in Hst. rewrite <- En in Hnd.
destruct go; cbn [negb]; [|apply wp_ret; now rewrite Hg].
apply (wp_seq _ _ (fun _ s2 => rctx s2 = rctx s1 /\ hist s2 = hist s1 /\
(pr_state (rctx s1) = ncclIbPortRecoveryStateSuccess -> devState c d s2 = Some ncclIbResiliencyDevStateRecovered) /\
(pr_state (rctx s1) <> ncclIbPortRecoveryStateSuccess -> s2 = s1))).
{ apply wp_inState; [|done]. intros E1. eapply wp_mono; [eapply wp_storeDevState; [apply Hok1|done..]|].
intros [] s2 (E2 & H2 & Hd2). done. }
intros [] s2 (E2 & H2 & Hsucc & Hother).
apply (wp_seq _ _ (fun _ s3 => rctx s3 = rctx s1 /\ hist s3 = hist s1 /\
(pr_state (rctx s1) = ncclIbPortRecoveryStateFailed -> devState c d s3 = Some ncclIbResiliencyDevStateRecoveryFailed) /\
(pr_state (rctx s1) <> ncclIbPortRecoveryStateFailed -> s3 = s2))).
{ apply wp_inState; rewrite E2; [|done]. intros E1. rewrite Hother by congruence.
eapply wp_mono; [eapply wp_storeDevState; [apply Hok1|done..]|]. intros [] s3 (E3 & H3 & Hd3). done. }
intros [] s3 (E3 & H3 & Hfail & Hother3). apply wp_bind, wp_gets, wp_ret. rewrite E3, H3.
assert (ctx_ok k c d (rctx s1) (hist s1)) as Hctx by apply Hok1.
destruct (pr_state (rctx s1)) eqn:Est; cbn.
1-3: rewrite Hother3, Hother by done; done.
- rewrite Hother3 by done. split; [done|]. split; [now apply Hsucc|]. now apply (ctx_ok_success k c d (rctx s1)).
- split; [done|]. now apply Hfail.
Qed.

(** The stores themselves succeed. *)
Lemma stores_run s st nd : here k c d s -> devState c d s = Some st -> devCount c s = Some nd -> 0 <= d < nd ->
exists b s', stores s = (Done b, s').
Proof.
intros Hh Hst Hnd Hd.
assert (forall st', exists s', storeDevState st' s = (Done tt, s') /\ rctx s' = rctx s) as Hrun.
{ intros st'. destruct (storeDevState_run st' s st nd Hh Hst Hnd Hd) as (s' & E & Ex & _). eauto. }
unfold stores. destruct (decide (pr_state (rctx s) = ncclIbPortRecoveryStateSuccess)) as [E|E].
- destruct (Hrun ncclIbResiliencyDevStateRecovered) as (s1 & E1 & Ex). rewrite <- (inState_here _ _ _ E) in E1.
nstep E1. otherState. nred. eauto.
- otherState. destruct (decide (pr_state (rctx s) = ncclIbPortRecoveryStateFailed)) as [E'|E']; [|otherState; nred; eauto].
destruct (Hrun ncclIbResiliencyDevStateRecoveryFailed) as (s1 & E1 & Ex). rewrite <- (inState_here _ _ _ E') in E1.
nstep E1. nred. eauto.
Qed.

(** A step that does not end normally stores nothing. *)
Lemma progress_stuck fuel s r s' st nd : recovering s -> devState c d s = Some st -> devCount c s = Some nd ->
0 <= d < nd -> ncclIbPortRecoveryContextProgress fuel s = (r, s') -> (forall b, r <> Done b) -> devState c d s' = Some st.
Proof.
intros Hrec Hst Hnd Hd E Hr. destruct (step_ok_recovering s Hrec) as [Hok Hf].
assert (pr_state (rctx s) <> ncclIbPortRecoveryStateSuccess) as Hns by (intros E1; now rewrite E1 in Hf).
rewrite progress_split in E. pose proof (protocol_states fuel s) as Hfs. pose proof (wp_protocol fuel s Hok Hns) as Hwp.
unfold bind at 1 in E. unfold wp in Hwp. destruct (protocol fuel s) as [[go|e|] s1]; cbn in Hfs.
- destruct (failover_devState s s1 c d Hfs) as [Ed En]. destruct go; cbn [negb] in E; [|injection E as <- _; now destruct (Hr false)].
destruct (stores_run s1 st nd) as (b & s2 & E2); [apply Hwp|congruence|congruence|done|].
change (stores s1 = (r, s')) in E. rewrite E2 in E. injection E as <- _. now destruct (Hr b).
- injection E as _ <-. now rewrite (proj1 (failover_devState s s1 c d Hfs)).
- injection E as _ <-. now rewrite (proj1 (failover_devState s s1 c d Hfs)).
Qed.

(** Whatever the other threads and the hardware do, a step of the recovery of
a device that ends normally either leaves the recovery running and the state of
the device untouched, or ends it: the device is stored as recovered, and then
the handshake took place in the order of the protocol (for the sender: the
acknowledgement of the receiver arrived, after which every data queue pair of
the device was restored, the final acknowledgement posted and completed; for
the receiver: more consecutive alive messages than the configured sequence
arrived, the queue pairs were restored, the acknowledgement posted and
completed, and the final acknowledgement arrived), or the device is stored as
failed for good. *)
Theorem recovered_only_after_handshake fuel s done_ s' st nd :
recovering s -> devState c d s = Some st -> devCount c s = Some nd -> 0 <= d < nd ->
ncclIbPortRecoveryContextProgress fuel s = (Done done_, s') ->
match pr_state (rctx s') with
| ncclIbPortRecoveryStateSuccess =>
done_ = true /\ devState c d s' = Some ncclIbResiliencyDevStateRecovered /\ handshake k c d (hist s')
| ncclIbPortRecoveryStateFailed =>
done_ = true /\ devState c d s' = Some ncclIbResiliencyDevStateRecoveryFailed
| _ => done_ = false /\ devState c d s' = Some st
end.
Proof. apply progress_outcome. Qed.
End Outcome.

(** ** Giving up *)

Section GivingUp.
Context `{M : RecoveryMachine} (c d : Z).

Abbreviation hist s := (rhistory (shared s)).

(** [n] steps, of which only the last may end the recovery. *)
Fixpoint steps (fuel n : nat) : rec bool :=
match n with
| O => ret false
| Datatypes.S n' =>
let* done_ := ncclIbPortRecoveryContextProgress fuel in
if done_ then ret true else steps fuel n'
end.

(** The peer sends nothing; [time i] is the clock at its reading number [i], which
advances by at least [tick] nanoseconds from one reading to the next, up to the
reading number [bound]. *)
Definition readings (h : list RecEvent) : Z :=
Z.of_nat (length (List.filter (fun e => match e with TookRecoveryTime => true | _ => false end) h)).

Lemma readings_app h1 h2 : readings (h1 ++ h2) = readings h1 + readings h2.
Proof. unfold readings. rewrite List.filter_app, length_app. lia. Qed.

Context (time : Z -> Z) (tick bound : Z).
Context (Hsilent : forall h n, poll_recovery_cq h c d n = Some []).
Context (Hclock : forall h, recoveryClock h = time (readings h)).
Context (Htick : 0 < tick) (Htime : forall i, 0 <= i < bound -> time i + tick <= time (i + 1) < 2 ^ 64).

(** A number of steps after which the receiver's patience is over. *)
Definition patience : Z := nsec (aliveMsgTimeout rprm) / tick + 1.

(** A receiver that waits for alive messages, since [since]; at least [m] ticks have
passed at its next reading of the clock. *)
Record waiting (s : RecState) (failed m : Z) : Prop := mkWaiting
{ wt_ctx : pr_resCtx (rctx s) = c /\ pr_devIndex (rctx s) = d;
wt_comm : exists n, zget (comms (shared s)) c = Some n /\ isSend (base n) = false;
wt_state : pr_state (rctx s) = ncclIbPortRecoveryStateAliveMessages;
wt_posted : pr_ackPosted (rctx s) = false;
wt_count : pr_nInOrderMsgsReceived (rctx s) <= aliveMsgSequenceSize rprm;
wt_failed : pr_nFailedAttempts (rctx s) = failed;
wt_clock : 0 <= pr_timeLastMsg (rctx s) /\
pr_timeLastMsg (rctx s) + m * tick <= time (readings (hist s)) < 2 ^ 64;
wt_polls : 1 <= m <= patience }.

Definition fuelLeft (failed m : Z) : Z := (attemptsMax rprm - failed) * patience - (m - 1).

Lemma getComm_run s n : pr_resCtx (rctx s) = c -> zget (comms (shared s)) c = Some n -> getComm s = (Done n, s).
Proof. intros Hc Hn. unfold getComm. nred. now rewrite Hc, Hn. Qed.

Lemma patience_positive : 1 <= patience.
Proof.
assert (0 <= nsec (aliveMsgTimeout rprm)) by (apply Z.mod_pos_bound; lia).
unfold patience. pose proof (Z.div_pos (nsec (aliveMsgTimeout rprm)) tick). lia.
Qed.

(** The next reading is late exactly when the receiver counts a failed attempt. *)
Lemma waiting_polls s failed m : waiting s failed m ->
(nsec (aliveMsgTimeout rprm) <? elapsed (time (readings (hist s))) (pr_timeLastMsg (rctx s))) = false -> m + 1 <= patience.
Proof.
intros [_ _ _ _ _ _ [H0 Ht] Hm] E. apply Z.ltb_ge in E. unfold elapsed, u64, wrapU in E.
rewrite Z.mod_small in E by nia. unfold patience.
enough (m <= nsec (aliveMsgTimeout rprm) / tick) by lia. apply Z.div_le_lower_bound; nia.
Qed.

Lemma silent_phase fuel s failed m : waiting s failed m -> readings (hist s) < bound ->
exists s', ncclIbPortRecoveryProgressAliveMessages fuel s = (Done tt, s') /\ comms (shared s') = comms (shared s) /\
readings (hist s') = readings (hist s) + 1 /\
((attemptsMax rprm <= failed + 1 /\ pr_resCtx (rctx s') = c /\ pr_devIndex (rctx s') = d /\
pr_state (rctx s') = ncclIbPortRecoveryStateFailed) \/
 (failed + 1 < attemptsMax rprm /\ waiting s' (failed + 1) 1) \/
 waiting s' failed (m + 1)).
Proof.
intros Hw Hb. pose proof (waiting_polls s failed m Hw) as Hpolls. pose proof patience_positive as Hpat.
destruct Hw as [[Hc Hd] (n & Hn & Hs) Hst Hp Hcnt Hf [H0 Ht] Hm].
pose proof (Htime (readings (hist s))) as Hnext.
assert (0 <= readings (hist s)) as Hr0 by (unfold readings; lia). specialize (Hnext (conj Hr0 Hb)).
unfold ncclIbPortRecoveryProgressAliveMessages. nstep (getComm_run s n Hc Hn). rewrite Hs.
unfold ncclIbPortRecoveryProgressAliveMessagesReceiver. rewrite bind_assoc. nred. rewrite Hp. cbn [negb].
set (e := PolledRecoveryCq c d []).
set (s1 := s <| shared := (shared s) <| rhistory := hist s ++ [e] |> |>).
assert (ncclIbPortRecoveryPollCq s = (Done true, s1)) as Epoll.
{ unfold ncclIbPortRecoveryPollCq, pollRecovery, bind, gets, getS. cbv beta iota zeta.
rewrite Hc, Hd, Hsilent. done. }
rewrite bind_assoc. nstep Epoll. cbn [negb]. rewrite bind_assoc. nred. change (rctx s1) with (rctx s).
rewrite (proj2 (Z.ltb_ge _ _)) by done.
assert (readings (hist s1) = readings (hist s)) as Er1 by (cbn -[readings]; rewrite readings_app; change (readings [e]) with 0; lia).
set (s2 := s1 <| shared := (shared s1) <| rhistory := hist s1 ++ [TookRecoveryTime] |> |>).
assert (readings (hist s2) = readings (hist s) + 1) as Er2
by (rewrite <- Er1; cbn -[readings]; rewrite (readings_app _ [TookRecoveryTime]); done).
assert (rclock s1 = (Done (time (readings (hist s))), s2)) as Eclk by (rewrite <- Er1, <- Hclock; done).
rewrite bind_assoc. nstep Eclk. case_match eqn:Elate.
- set (s3 := s2 <| rctx := (rctx s2) <| pr_nFailedAttempts := pr_nFailedAttempts (rctx s2) + 1 |> |>).
assert (countFailure s2 = (Done (attemptsMax rprm <=? failed + 1), s3)) as Ecnt by (rewrite <- Hf; done).
rewrite bind_assoc. nstep Ecnt. destruct (attemptsMax rprm <=? failed + 1) eqn:Elast.
+ nred. eexists. split; [reflexivity|]. split; [done|]. split; [exact Er2|]. left. split; [lia|]. now split.
+ eexists. split; [reflexivity|]. split; [done|]. split; [exact Er2|]. right. left. split; [lia|].
split; try done; [now exists n|cbn; now rewrite <- Hf|].
cbn -[readings]. change ((hist s ++ [e]) ++ [TookRecoveryTime]) with (hist s2). rewrite Er2. lia.
- nred. eexists. split; [reflexivity|]. split; [done|]. split; [exact Er2|]. right. right.
specialize (Hpolls eq_refl). split; try done; [now exists n| |lia].
cbn -[readings]. change ((hist s ++ [e]) ++ [TookRecoveryTime]) with (hist s2). rewrite Er2. lia.
Qed.

Definition deviceState (s : RecState) st nd : Prop := devState c d s = Some st /\ devCount c s = Some nd.

(** One step: the recovery ends with the failure stored, or the receiver goes on
waiting with less time left. *)
Lemma silent_step fuel s failed m st nd : waiting s failed m -> readings (hist s) < bound ->
deviceState s st nd -> 0 <= d < nd ->
exists b s', ncclIbPortRecoveryContextProgress fuel s = (Done b, s') /\
match b with
| true => attemptsMax rprm <= failed + 1 /\ pr_state (rctx s') = ncclIbPortRecoveryStateFailed /\
devState c d s' = Some ncclIbResiliencyDevStateRecoveryFailed
| false => readings (hist s') = readings (hist s) + 1 /\ deviceState s' st nd /\
((failed + 1 < attemptsMax rprm /\ waiting s' (failed + 1) 1) \/ waiting s' failed (m + 1))
end.
Proof.
intros Hw Hb [Hst Hnd] Hd. pose proof (wt_state _ _ _ Hw) as Ew.
unfold ncclIbPortRecoveryContextProgress.
assert (progressInit s = (Done true, s)) as Einit by (unfold progressInit; nred; rewrite bool_decide_eq_false_2; [done|congruence]).
nstep Einit. cbn [negb].
destruct (silent_phase fuel s failed m Hw Hb) as (s1 & E & Hcomms & Hr & Hcase).
rewrite (bind_step _ _ _ _ _ (eq_trans (inState_here _ _ _ Ew) E)). cbv beta iota.
assert (devState c d s1 = Some st /\ devCount c s1 = Some nd) as [Hst1 Hnd1] by (unfold devState, devCount; now rewrite Hcomms).
destruct Hcase as [(Hlast & Hc1 & Hd1 & Ef)|Hw1].
- do 2 otherState.
destruct (storeDevState_run (conn (default (Demo.sender None) (zget (comms (shared s)) c))) c d
ncclIbResiliencyDevStateRecoveryFailed s1 st nd) as (s2 & E2 & Ex2 & _ & Hst2); [|done..|].
{ destruct Hw as [_ (n & Hn & _)]. split; [done|]. split; [done|]. exists n. rewrite Hcomms, Hn. done. }
rewrite (bind_step _ _ _ _ _ (eq_trans (inState_here _ _ _ Ef) E2)). nred. rewrite Ex2, Ef.
exists true, s2. repeat split; done || congruence.
- assert (pr_state (rctx s1) = ncclIbPortRecoveryStateAliveMessages) as E1 by (destruct Hw1 as [[_ H]|H]; apply (wt_state _ _ _ H)).
do 3 otherState. nred. rewrite E1. exists false, s1. split; [done|]. split; [done|]. now split.
Qed.

(** C17. The recovery ends even when the peer is gone: whatever the parameters, a
receiver that gets no message counts a failed attempt whenever its timeout has
passed, and after the configured number of attempts it stores the device as
failed and finishes, within that number times the number of readings of the
clock a timeout lasts. *)
Theorem silent_receiver_gives_up fuel s failed st nd :
waiting s failed 1 -> failed < attemptsMax rprm -> deviceState s st nd -> 0 <= d < nd ->
readings (hist s) + fuelLeft failed 1 <= bound ->
exists s', steps fuel (Z.to_nat (fuelLeft failed 1)) s = (Done true, s') /\
pr_state (rctx s') = ncclIbPortRecoveryStateFailed /\
devState c d s' = Some ncclIbResiliencyDevStateRecoveryFailed.
Proof.
intros Hw Hf Hdev Hd Hb.
enough (forall n s failed m, waiting s failed m -> failed < attemptsMax rprm -> deviceState s st nd ->
readings (hist s) + Z.of_nat n <= bound -> fuelLeft failed m <= Z.of_nat n ->
exists s', steps fuel n s = (Done true, s') /\ pr_state (rctx s') = ncclIbPortRecoveryStateFailed /\
devState c d s' = Some ncclIbResiliencyDevStateRecoveryFailed) as H.
{ pose proof patience_positive. unfold fuelLeft in *. apply (H _ s failed 1); try done; unfold fuelLeft; lia || nia. }
clear s failed Hw Hf Hdev Hb. intros n. pose proof patience_positive as Hp.
induction n as [|n IH]; intros s failed m Hw Hf Hdev Hb Hn; pose proof (wt_polls _ _ _ Hw) as Hm; unfold fuelLeft in *.
{ nia. }
destruct (silent_step fuel s failed m st nd Hw) as (b & s1 & E & Hcase); [lia|done..|].
cbn [steps]. rewrite (bind_step _ _ _ _ _ E). destruct b.
- exists s1. split; [done|]. apply Hcase.
- destruct Hcase as (Hr & Hdev1 & [[Hf1 Hw1]|Hw1]).
+ apply (IH s1 (failed + 1) 1); try done; [lia|nia].
+ apply (IH s1 failed (m + 1)); try done; [lia|nia].
Qed.
End GivingUp.

(** ** Concrete recoveries *)

Module RecoveryDemo.

Definition params : RecoveryParams := mkRecoveryParams 1 200 500 5 4000 5000 3.

Definition polls (h : list RecEvent) : nat :=
length (List.filter (fun e => match e with PolledRecoveryCq _ _ _ => true | _ => false end) h).

Definition clocks (h : list RecEvent) : Z :=
Z.of_nat (length (List.filter (fun e => match e with TookRecoveryTime => true | _ => false end) h)).

(** Every call succeeds; the completion queue delivers the script, one answer per
poll, and the clock, [boot] at the start, advances by [tick] milliseconds at
every reading. *)
Definition machineAt (boot : Z) (present : RecQp -> bool) (tick : Z) (script : list (list RecWc)) : RecoveryMachine := {|
netMachine := Demo.machine; rprm := params;
ibvQp := fun _ => present; recoveryDev := fun _ i => i mod 2;
eceSupported := fun _ _ _ => false; modify_qp := fun _ _ _ _ => true;
post_recovery_recv := fun _ _ _ => true; post_recovery_send := fun _ _ _ _ => true;
poll_recovery_cq := fun h _ _ n => Some (take (Z.to_nat n) (default [] (script !! polls h)));
recoveryClock := fun h => (boot + (clocks h + 1) * tick) * MSEC_TO_NSEC
|}.

Definition machine := machineAt 0.

Definition ok (op : wcOpcode) (imm : Z) : list RecWc := [mkRecWc IBV_WC_SUCCESS op imm].
Definition ack : list RecWc := ok IBV_WC_RECV NCCL_IB_RESILIENCY_PORT_RECOVERY_ACK_MSG_ID.
Definition sent : list RecWc := ok IBV_WC_SEND 0.

Definition failing : ncclIbResiliency :=
Demo.res <| res_devs := replicate 8 (Demo.resDev <| rd_state := ncclIbResiliencyDevStateRecoveryInProgress |>) |>.

Definition world (n : Net) : RecState :=
mkRecState (freshRecoveryContext 0 0 0) (mkShared [n] []).

Definition allPresent (q : RecQp) : bool := true.

(** Device 1 of communicator 0, from the failure on. *)
Definition recover (M : RecoveryMachine) (net : Net) (n : nat) : outcome bool * RecState :=
(ncclIbPortRecoveryContextInit 0 1 ;;; steps 40 n) (world net).

Definition finalState (r : outcome bool * RecState) :=
(fst r, pr_state (rctx (snd r)), pr_nFailedAttempts (rctx (snd r)), devState 0 1 (snd r)).

Definition quietSender := machine allPresent 600 [sent; ack; sent].
Example sender_recovers : finalState (recover quietSender (Demo.sender (Some failing)) 2)
= (Done true, ncclIbPortRecoveryStateSuccess, 0, Some ncclIbResiliencyDevStateRecovered).
Proof. vm_compute. reflexivity. Qed.

Definition batch (n : nat) (id : Z) : list (list RecWc) := ok IBV_WC_RECV <$> ids n id.
Definition busyReceiver := machine allPresent 600 (batch 6 0 ++ [[]; sent; ack]).
Example receiver_recovers : finalState (recover busyReceiver (Demo.receiver (Some failing)) 20)
= (Done true, ncclIbPortRecoveryStateSuccess, 0, Some ncclIbResiliencyDevStateRecovered).
Proof. vm_compute. reflexivity. Qed.

(** One batch of the configured size arrives whole, and the receiver gives up. *)
Definition oneBatch := machine allPresent 600 (batch 5 0).

Definition noIbvQp (q : RecQp) : bool := match q with NetQp (DataQp _) => false | _ => true end.

End RecoveryDemo.

Import RecoveryDemo.

(** The receiver acknowledges only after more messages than one batch of the
    sender has: a batch that arrives whole and in order is answered by nothing, and
    without a second one the recovery fails. *)
Theorem one_batch_is_not_enough :
let r := recover oneBatch (Demo.receiver (Some failing)) 40 in
recvImms 0 1 (rhistory (shared (snd r))) = ids (Z.to_nat (aliveMsgSequenceSize params)) 0 /\
finalState r = (Done true, ncclIbPortRecoveryStateFailed, 3, Some ncclIbResiliencyDevStateRecoveryFailed).
Proof. vm_compute. split; reflexivity. Qed.

(** The receiver's wait for the completion of its acknowledgement asks to go
    back to the phase it is in; that is reported as an internal error, which ends
    the recovery thread. *)
Theorem ack_timeout_is_internal_error :
fst (recover (machine allPresent 3000 (batch 6 0)) (Demo.receiver (Some failing)) 10) = Fail ncclInternalError.
Proof. vm_compute. reflexivity. Qed.

(** Queue pairs of the MRC library have no [ibv_qp]: when the acknowledgement
    arrives, restoring them is an internal error, which ends the recovery thread. *)
Theorem mrc_queue_pairs_stop_recovery :
fst (recover (machine noIbvQp 600 [sent; ack; sent]) (Demo.sender (Some failing)) 10) = Fail ncclInternalError.
Proof. vm_compute. reflexivity. Qed.

(** The receiver's timer starts at zero, not at the time the recovery starts:
    300 ms after the failure, with a timeout of 4000 ms, one attempt is already
    counted as failed. *)
Theorem receiver_fails_an_attempt_at_once :
let r := recover (machineAt 1000000000 allPresent 300 []) (Demo.receiver (Some failing)) 1 in
pr_nFailedAttempts (rctx (snd r)) = 1 /\ aliveMsgTimeout params = 4000.
Proof. vm_compute. split; reflexivity. Qed.

Lemma recovered_only_after_handshake_witness :
let M := quietSender in
let k := conn (Demo.sender (Some failing)) in
exists s s', @recovering M k 0 1 s /\ @ncclIbPortRecoveryContextProgress M 40 s = (Done true, s') /\
  devState 0 1 s = Some ncclIbResiliencyDevStateRecoveryInProgress /\
  devState 0 1 s' = Some ncclIbResiliencyDevStateRecovered /\ @handshake M k 0 1 (rhistory (shared s')).
Proof.
intros M k.
set (s0 := snd (@ncclIbPortRecoveryContextInit M 0 1 (world (Demo.sender (Some failing))))).
set (s1 := snd (@ncclIbPortRecoveryContextProgress M 40 s0)).
set (s2 := snd (@ncclIbPortRecoveryContextProgress M 40 s1)).
assert (@recovering M k 0 1 s1) as Hrec.
{ apply (recovery_stepped (M := M) k 0 1 s0 40 s1); [|vm_compute; reflexivity].
  apply (recovery_started (M := M) k 0 1 (world (Demo.sender (Some failing))) s0); [|vm_compute; reflexivity].
  exists (Demo.sender (Some failing)). split; reflexivity. }
exists s1, s2. split; [exact Hrec|].
assert (@ncclIbPortRecoveryContextProgress M 40 s1 = (Done true, s2)) as E by (vm_compute; reflexivity).
assert (devState 0 1 s1 = Some ncclIbResiliencyDevStateRecoveryInProgress) as Hd by (vm_compute; reflexivity).
split; [exact E|]. split; [exact Hd|].
assert (forall h c d n wcs, @poll_recovery_cq M h c d n = Some wcs -> (length wcs <= Z.to_nat n)%nat) as Hpoll.
{ intros h c d n wcs. cbn. intros [= <-]. rewrite length_take. lia. }
pose proof (recovered_only_after_handshake (M := M) k 0 1 Hpoll 40 s1 true s2
  ncclIbResiliencyDevStateRecoveryInProgress 2 Hrec Hd ltac:(vm_compute; reflexivity) ltac:(lia) E) as H.
assert (pr_state (rctx s2) = ncclIbPortRecoveryStateSuccess) as Hs by (vm_compute; reflexivity).
rewrite Hs in H. destruct H as (_ & H1 & H2). split; [exact H1|exact H2].
Defined.

Definition silent := machine allPresent 600 [].

Lemma silent_receiver_gives_up_witness :
let M := silent in
let s := snd (recover silent (Demo.receiver (Some failing)) 1) in
@fuelLeft M 600000000 0 1 = 21 /\
exists s', steps (M := M) 40 21 s = (Done true, s') /\ pr_state (rctx s') = ncclIbPortRecoveryStateFailed /\
  devState 0 1 s' = Some ncclIbResiliencyDevStateRecoveryFailed.
Proof.
split; [vm_compute; reflexivity|].
apply (silent_receiver_gives_up (M := silent) 0 1 (fun i => (i + 1) * 600000000) 600000000 100)
  with (failed := 0) (st := ncclIbResiliencyDevStateRecoveryInProgress) (nd := 2).
- intros h n. change (Some (take (Z.to_nat n) (default [] (@nil (list RecWc) !! polls h))) = Some []).
  rewrite lookup_nil. cbn [default]. now destruct (Z.to_nat n).
- intros h. cbn -[Z.mul Z.add]. unfold clocks, readings, MSEC_TO_NSEC. lia.
- lia.
- lia.
- split.
  + split; reflexivity.
  + eexists. split; vm_compute; reflexivity.
  + vm_compute. reflexivity.
  + vm_compute. reflexivity.
  + apply Z.leb_le. vm_compute. reflexivity.
  + vm_compute. reflexivity.
  + split; [apply Z.leb_le; vm_compute; reflexivity|].
    split; [apply Z.leb_le; vm_compute; reflexivity|apply Z.ltb_lt; vm_compute; reflexivity].
  + split; apply Z.leb_le; vm_compute; reflexivity.
- vm_compute. reflexivity.
- split; vm_compute; reflexivity.
- lia.
- apply Z.leb_le. vm_compute. reflexivity.
Defined.
