(* ===== verification/RecoveryThread.v ===== *)
(** * Transport: the recovery thread ([p2p_resiliency_recovery.cc])

    One thread of the process progresses the recoveries of all communicators.  The
    other threads hand failed devices over ([ncclIbPortRecoveryHandleFailure]),
    ask it to let go of a communicator ([ncclIbPortRecoveryClose]) and start and
    stop it ([ncclIbPortRecoveryThreadStart], [ncclIbPortRecoveryThreadStop]).
    This file models all of them as the steps of one [World]: a step is what a
    thread does between two points at which another one can see a difference (a
    critical section of [ncclIbPortRecoveryMutex], an access to an atomic, one turn
    of the loop of the recovery thread).  The progress of one recovery and the
    initialisation of one context are taken as one step each. *)

From S2P Require Import Prelude NetTypes NetBase Resiliency Recovery RecoverySpec.

Open Scope Z_scope.
Open Scope nccl_scope.

Record ncclIbPortRecoveryCloseRequest := mkCloseRequest {
  cr_resCtx : Z;
  cr_completed : bool;
}.

(** Where the thread of a communicator is. [Reporting]: in
    [ncclIbResiliencyHandleDeviceFailure], with the device marked as being recovered;
    [Failing]: in [ncclIbPortRecoveryHandleFailure], before the critical section; [Closing]: in [ncclIbCloseSend] or
    [ncclIbCloseRecv], after the queue pairs are destroyed; [WaitingClose]: in
    [ncclIbPortRecoveryClose], with its request, given by its place among all
    requests ever made. *)
Inductive CommPhase : Type :=
  | Open
  | Reporting (d : Z)
  | Failing (c : ncclIbPortRecoveryContext)
  | Closing
  | WaitingClose (req : nat)
  | Closed.

(** Where the recovery thread is; [AtProgress] holds the contexts the loop has
    passed and those to come. [Errored]: left by [NCCLCHECK]. *)
Inductive ThreadPc : Type :=
  | NotStarted
  | AtWait
  | AtClose (local : list nat)
  | AtComplete (local : list nat)
  | AtActive
  | AtProgress (passed todo : list ncclIbPortRecoveryContext)
  | Stopped (r : ncclResult_t)
  | Errored (r : ncclResult_t)
  | Undefined.

Record World := mkWorld {
  sharedState : Shared;
  ncclIbPortRecoveryRefCount : Z;
  ncclIbPortRecoveryThreadActive : bool;
  recoveryInbox : list ncclIbPortRecoveryContext;
  recoveryCloseRequests : list nat;
  requests : list ncclIbPortRecoveryCloseRequest;
  recoveryQueue : list ncclIbPortRecoveryContext;
  pc : ThreadPc;
  phases : gmap Z CommPhase;
}.

#[export] Instance eta_World : Eta World := fun w =>
  mkWorld (sharedState w) (ncclIbPortRecoveryRefCount w) (ncclIbPortRecoveryThreadActive w) (recoveryInbox w)
    (recoveryCloseRequests w) (requests w) (recoveryQueue w) (pc w) (phases w).

(** [resCtx->recoveryEnabled]; without a resiliency context nothing of this file is called. *)
Definition enabledIn (sh : Shared) (c : Z) : bool :=
  match zget (comms sh) c ≫= (fun n => resiliency (base n)) with
  | Some r => recoveryEnabled r
  | None => false
  end.

(** The stored state of a device, and the number of devices of a communicator. *)
Definition stateIn (sh : Shared) (c d : Z) : option ncclIbResiliencyDevState :=
  n ← zget (comms sh) c; r ← resiliency (base n); rd ← zget (res_devs r) d; Some (rd_state rd).

Definition countIn (sh : Shared) (c : Z) : option Z :=
  n ← zget (comms sh) c; res_ndevs <$> resiliency (base n).

(** What the recovery of its devices knows of a communicator. *)
Definition connIn (sh : Shared) (c : Z) : option Conn := conn <$> zget (comms sh) c.

(** [resCtx->devs[d].state.store(st)] by the thread of the communicator. *)
Definition storeState (c d : Z) (st : ncclIbResiliencyDevState) (sh : Shared) : option Shared :=
  n ← zget (comms sh) c;
  match setDevState d st n with
  | (Done _, n') => Some (sh <| comms := zupd (comms sh) c n' |>)
  | _ => None
  end.

Section Thread.
Context `{M : RecoveryMachine}.

(** ** The recovery thread *)

Definition ncclIbPortRecoveryHandleCloseRequests (reqs : list ncclIbPortRecoveryCloseRequest)
(closeRequests : list nat) (queue : list ncclIbPortRecoveryContext) : list ncclIbPortRecoveryContext :=
foldl (fun q id =>
match reqs !! id with
| Some closeReq => filter (fun c => pr_resCtx c <> cr_resCtx closeReq) q
| None => q
end) queue closeRequests.

Definition completeRequests (closeRequests : list nat) (reqs : list ncclIbPortRecoveryCloseRequest)
: list ncclIbPortRecoveryCloseRequest :=
foldl (fun rs id => alter (fun r => mkCloseRequest (cr_resCtx r) true) id rs) reqs closeRequests.

(** The predicate the thread waits for. *)
Definition workToDo (w : World) : bool :=
negb (ncclIbPortRecoveryThreadActive w) || negb (bool_decide (recoveryInbox w = []))
|| negb (bool_decide (recoveryQueue w = [])) || negb (bool_decide (recoveryCloseRequests w = [])).

(** The checks after the loop. *)
Definition leftOver (w : World) : ncclResult_t :=
if negb (bool_decide (recoveryCloseRequests w = [])) then ncclInternalError else
if negb (bool_decide (recoveryInbox w = [])) then ncclInternalError else
if negb (bool_decide (recoveryQueue w = [])) then ncclInternalError else ncclSuccess.

(** One step of [ncclIbPortRecoveryAsyncThreadMain]; [None] while it sleeps, and
when it is not there. *)
Definition ncclIbPortRecoveryAsyncThreadMain (fuel : nat) (w : World) : option World :=
match pc w with
| AtWait =>
if workToDo w then
let local := recoveryCloseRequests w in
Some (w <| recoveryQueue := recoveryQueue w ++ recoveryInbox w |> <| recoveryInbox := [] |>
<| recoveryCloseRequests := [] |>
<| pc := match local with [] => AtActive | _ => AtClose local end |>)
else None
| AtClose local =>
Some (w <| recoveryQueue := ncclIbPortRecoveryHandleCloseRequests (requests w) local (recoveryQueue w) |>
<| pc := AtComplete local |>)
| AtComplete local =>
Some (w <| requests := completeRequests local (requests w) |> <| pc := AtActive |>)
| AtActive =>
if ncclIbPortRecoveryThreadActive w
then Some (w <| recoveryQueue := [] |> <| pc := AtProgress [] (recoveryQueue w) |>)
else Some (w <| pc := Stopped (leftOver w) |>)
| AtProgress passed [] => Some (w <| recoveryQueue := passed |> <| pc := AtWait |>)
| AtProgress passed (c :: todo) =>
let (r, s) := ncclIbPortRecoveryContextProgress fuel (mkRecState c (sharedState w)) in
Some (w <| sharedState := shared s |>
<| pc := match r with
 | Done true => AtProgress passed todo
 | Done false => AtProgress (passed ++ [rctx s]) todo
 | Fail e => Errored e
 | Fault => Undefined
 end |>)
| _ => None
end.

(** ** The other threads *)

Definition setPhase (c : Z) (p : CommPhase) (w : World) : World := w <| phases := <[c := p]> (phases w) |>.

(** [ncclIbPortRecoveryInit], for a communicator with a resiliency context. *)
Definition ncclIbPortRecoveryInit (c : Z) (w : World) : option World :=
n ← zget (comms (sharedState w)) c;
r ← resiliency (base n);
let r' := r <| recoveryEnabled := ncclIbPortRecoveryThreadActive w |> in
let n' := n <| base := (base n) <| resiliency := Some r' |> |> in
Some (setPhase c Open
(w <| sharedState := (sharedState w) <| comms := zupd (comms (sharedState w)) c n' |> |>)).

(** The part of [ncclIbResiliencyHandleDeviceFailure] that matters here: a device
that works is marked. *)
Definition reportFailure (c d : Z) (w : World) : option World :=
st ← stateIn (sharedState w) c d;
if isOk st && enabledIn (sharedState w) c then
sh ← storeState c d ncclIbResiliencyDevStateRecoveryInProgress (sharedState w);
Some (setPhase c (Reporting d) (w <| sharedState := sh |>))
else None.

(** [ncclIbPortRecoveryHandleFailure] up to the critical section. *)
Definition handleFailureInit (c devIndex : Z) (w : World) : option (World * option ncclResult_t) :=
n ← zget (comms (sharedState w)) c;
r ← resiliency (base n);
rd ← zget (res_devs r) devIndex;
if negb (recoveryEnabled r) then Some (w, Some ncclInternalError) else
if negb (bool_decide (rd_state rd = ncclIbResiliencyDevStateRecoveryInProgress))
then Some (w, Some ncclInternalError) else
match ncclIbPortRecoveryContextInit c devIndex (mkRecState (freshRecoveryContext 0 0 0) (sharedState w)) with
| (Done _, s) => Some (setPhase c (Failing (rctx s)) (w <| sharedState := shared s |>), None)
| (Fail e, s) => Some (w <| sharedState := shared s |>, Some e)
| (Fault, _) => None
end.

(** The device is given up when that fails. *)
Definition handleFailure (c devIndex : Z) (w : World) : option World :=
r ← handleFailureInit c devIndex w;
match r with
| (w', None) => Some w'
| (w', Some _) =>
sh ← storeState c devIndex ncclIbResiliencyDevStateErrorPermanent (sharedState w');
Some (setPhase c Open (w' <| sharedState := sh |>))
end.

(** The rest of [ncclIbPortRecoveryHandleFailure]. *)
Definition handleFailurePush (c : Z) (w : World) : option World :=
match phases w !! c with
| Some (Failing ctx) => Some (setPhase c Open (w <| recoveryInbox := recoveryInbox w ++ [ctx] |>))
| _ => None
end.

(** [ncclIbPortRecoveryClose], up to the wait. *)
Definition ncclIbPortRecoveryClose (c : Z) (w : World) : World :=
if negb (enabledIn (sharedState w) c) then setPhase c Closed w else
if negb (ncclIbPortRecoveryThreadActive w) then setPhase c Closed w else
let req := length (requests w) in
setPhase c (WaitingClose req)
(w <| requests := requests w ++ [mkCloseRequest c false] |>
 <| recoveryCloseRequests := recoveryCloseRequests w ++ [req] |>).

(** The wait is over. *)
Definition closeReturns (c : Z) (w : World) : option World :=
match phases w !! c with
| Some (WaitingClose req) =>
closeReq ← requests w !! req;
if cr_completed closeReq then Some (setPhase c Closed w) else None
| _ => None
end.

(** [None]: [std::thread] is assigned while the old thread was not joined. *)
Definition ncclIbPortRecoveryThreadStart (w : World) : option World :=
if portRecovery rprm =? 0 then Some w else
let w := w <| ncclIbPortRecoveryRefCount := ncclIbPortRecoveryRefCount w + 1 |> in
if ncclIbPortRecoveryThreadActive w then Some w else
match pc w with
| NotStarted => Some (w <| ncclIbPortRecoveryThreadActive := true |> <| recoveryQueue := [] |> <| pc := AtWait |>)
| _ => None
end.

(** Up to the join. *)
Definition ncclIbPortRecoveryThreadStop (w : World) : World :=
if portRecovery rprm =? 0 then w else
let w := w <| ncclIbPortRecoveryRefCount := ncclIbPortRecoveryRefCount w - 1 |> in
if 0 <? ncclIbPortRecoveryRefCount w then w else w <| ncclIbPortRecoveryThreadActive := false |>.

Definition joinThread (w : World) : option World :=
match pc w with
| Stopped _ | Errored _ => Some (w <| pc := NotStarted |>)
| _ => None
end.

(** ** Everything that can happen

The contract of the plugin's caller: the calls on one communicator are made one
after the other ([phases]); a communicator belongs to an initialised network,
and a network is finalised after its communicators are closed, so the last
[ncclIbPortRecoveryThreadStop] finds every communicator closed; starting and
stopping are not concurrent with each other. *)

(** What the code of a communicator does besides: it sets neither [recoveryEnabled]
nor the number of devices, neither starts nor ends the recovery of a device on its
own, and keeps its queue pairs. *)
Record leavesRecoveryAlone (w : World) (l : list Net) : Prop := mkAlone
{ la_enabled : forall c, phases w !! c <> None -> enabledIn (mkShared l []) c = enabledIn (sharedState w) c;
la_count : forall c, phases w !! c <> None -> countIn (mkShared l []) c = countIn (sharedState w) c;
la_conn : forall c, phases w !! c <> None -> connIn (mkShared l []) c = connIn (sharedState w) c;
la_state : forall c d, phases w !! c <> None ->
stateIn (mkShared l []) c d = Some ncclIbResiliencyDevStateRecoveryInProgress <->
stateIn (sharedState w) c d = Some ncclIbResiliencyDevStateRecoveryInProgress }.

Definition allClosed (w : World) : Prop := forall c p, phases w !! c = Some p -> p = Closed.

Inductive otherStep : World -> World -> Prop :=
| step_init c w w' : phases w !! c = None -> ncclIbPortRecoveryInit c w = Some w' -> otherStep w w'
| step_elsewhere w l : leavesRecoveryAlone w l ->
otherStep w (w <| sharedState := (sharedState w) <| comms := l |> |>)
| step_report c d nd w w' : phases w !! c = Some Open -> countIn (sharedState w) c = Some nd -> 0 <= d < nd ->
reportFailure c d w = Some w' -> otherStep w w'
| step_failure c d w w' : phases w !! c = Some (Reporting d) -> handleFailure c d w = Some w' -> otherStep w w'
| step_push c w w' : handleFailurePush c w = Some w' -> otherStep w w'
| step_closing c w : phases w !! c = Some Open -> otherStep w (setPhase c Closing w)
| step_close c w : phases w !! c = Some Closing -> otherStep w (ncclIbPortRecoveryClose c w)
| step_closed c w w' : closeReturns c w = Some w' -> otherStep w w'
| step_start w w' : ncclIbPortRecoveryThreadStart w = Some w' -> otherStep w w'
| step_stop w : 1 < ncclIbPortRecoveryRefCount w \/ allClosed w ->
otherStep w (ncclIbPortRecoveryThreadStop w)
| step_join w w' : ncclIbPortRecoveryThreadActive w = false -> joinThread w = Some w' -> otherStep w w'.

(** A step of the recovery thread or of another one. *)
Inductive step : World -> World -> Prop :=
| step_thread fuel w w' : ncclIbPortRecoveryAsyncThreadMain fuel w = Some w' -> step w w'
| step_other w w' : otherStep w w' -> step w w'.

(** Any number of steps, of which [n] are of the recovery thread. *)
Inductive run : nat -> World -> World -> Prop :=
| run_done w : run 0 w w
| run_thread fuel n w w1 w2 : ncclIbPortRecoveryAsyncThreadMain fuel w = Some w1 -> run n w1 w2 ->
run (Datatypes.S n) w w2
| run_other n w w1 w2 : otherStep w w1 -> run n w1 w2 -> run n w w2.

Definition start (sh : Shared) : World := mkWorld sh 0 false [] [] [] [] NotStarted ∅.

Inductive reachable : World -> Prop :=
| reachable_start sh : reachable (start sh)
| reachable_step w w' : reachable w -> step w w' -> reachable w'.

(** All contexts the recovery thread may come to use. *)
Definition queued (w : World) : list ncclIbPortRecoveryContext :=
match pc w with
| AtProgress passed todo => passed ++ todo
| Stopped _ | Errored _ | Undefined | NotStarted => []
| _ => recoveryQueue w
end.

End Thread.
