(* ===== verification/ThreadSpec.v ===== *)
(** * Transport: what the recovery thread promises

    The invariant of the hand-over between the communicators and the recovery
    thread, and its consequences: a closed communicator is not used any more, a
    close comes to its end while the thread lives, and the thread is stopped with
    nothing left to do. *)

From S2P Require Import Prelude NetTypes NetBase NetInv NetDemo Resiliency Recovery RecoverySpec RecoveryOutcome RecoveryThread.

Open Scope Z_scope.
Open Scope nccl_scope.

(** ** What a step of a recovery does to the shared state *)

Lemma enabledIn_states s c : enabledIn (shared s) c = default false (zget (enabledStates s) c ≫= id).
Proof.
unfold enabledIn, enabledStates. rewrite zget_fmap. destruct (zget _ c) as [n|]; [|done]. cbn.
now destruct (resiliency (base n)).
Qed.

Lemma enabledIn_keeps s s' : enabledStates s' = enabledStates s -> forall c, enabledIn (shared s') c = enabledIn (shared s) c.
Proof. intros E c. now rewrite !enabledIn_states, E. Qed.

(** Communicators unchanged but for their histories, and completions taken for
    device [o] only. *)
Record moved (o : Z * Z) (sh sh' : Shared) : Prop := mkMoved
{ mv_enabled : forall c, enabledIn sh' c = enabledIn sh c;
  mv_count : forall c, countIn sh' c = countIn sh c;
  mv_conn : forall c, connIn sh' c = connIn sh c;
  mv_state : forall c d, stateIn sh' c d = stateIn sh c d;
  mv_hist : exists es, rhistory sh' = rhistory sh ++ es /\ Forall (polls_only o) es }.

Lemma moved_framed o s s' : framed (commStates s) o (rhistory (shared s)) s' -> moved o (shared s) (shared s').
Proof.
intros (E & _ & Hh).
assert (forall c, (resiliency ∘ base) <$> zget (comms (shared s')) c = (resiliency ∘ base) <$> zget (comms (shared s)) c /\
  conn <$> zget (comms (shared s')) c = conn <$> zget (comms (shared s)) c) as Hc.
{ intros c. apply (f_equal (fun l => zget l c)) in E. unfold commStates in E. rewrite !zget_fmap in E.
  destruct (zget (comms (shared s')) c), (zget (comms (shared s)) c); cbn in *; try done. split; congruence. }
split; [| | | |exact Hh].
- intros c. unfold enabledIn. destruct (Hc c) as [H _].
  destruct (zget (comms (shared s')) c), (zget (comms (shared s)) c); cbn in *; try done. now injection H as ->.
- intros c. unfold countIn. destruct (Hc c) as [H _].
  destruct (zget (comms (shared s')) c), (zget (comms (shared s)) c); cbn in *; try done. now injection H as ->.
- intros c. apply (Hc c).
- intros c d. unfold stateIn. destruct (Hc c) as [H _].
  destruct (zget (comms (shared s')) c), (zget (comms (shared s)) c); cbn in *; try done. now injection H as ->.
Qed.

(** A communicator but for the state of one of its devices. *)
Definition devStateOf (n : Net) (d : Z) : option ncclIbResiliencyDevState :=
  r ← resiliency (base n); rd ← zget (res_devs r) d; Some (rd_state rd).

Record sameButDevice (d : Z) (n n' : Net) : Prop := mkSameBut
{ sb_conn : conn n' = conn n;
  sb_enabled : recoveryEnabled <$> resiliency (base n') = recoveryEnabled <$> resiliency (base n);
  sb_count : res_ndevs <$> resiliency (base n') = res_ndevs <$> resiliency (base n);
  sb_states : forall d', d' <> d -> devStateOf n' d' = devStateOf n d' }.

Lemma setDevState_same d st n : sameButDevice d n (snd (setDevState d st n)) /\
(fst (setDevState d st n) = Done tt -> devStateOf (snd (setDevState d st n)) d = Some st).
Proof.
unfold setDevState, modResDev, modRes, getRes, modBase, bind, getS, gets, modify, of_option.
destruct (resiliency (base n)) as [r|] eqn:Er; cbn; [|done].
destruct (zget (res_devs r) d) as [rd|] eqn:Ed; cbn; [|done]. pose proof (zget_Some _ _ _ Ed).
rewrite zset_is_Some by done. cbn. split; [split; cbn; rewrite ?Er; try done|intros _].
- intros d' Hd. unfold devStateOf. cbn. rewrite Er. cbn. now rewrite zget_zupd_ne.
- unfold devStateOf. cbn. now rewrite zget_zupd_eq.
Qed.

(** The state of the communicators but for that of device [d] of [c]. *)
Record sharedBut (c d : Z) (sh sh' : Shared) : Prop := mkSharedBut
{ sh_enabled : forall c', enabledIn sh' c' = enabledIn sh c';
  sh_count : forall c', countIn sh' c' = countIn sh c';
  sh_conn : forall c', connIn sh' c' = connIn sh c';
  sh_state : forall c' d', (c', d') <> (c, d) -> stateIn sh' c' d' = stateIn sh c' d' }.

Lemma sharedBut_comm c d sh n n' : zget (comms sh) c = Some n -> sameButDevice d n n' ->
sharedBut c d sh (sh <| comms := zupd (comms sh) c n' |>) /\
stateIn (sh <| comms := zupd (comms sh) c n' |>) c d = devStateOf n' d.
Proof.
intros En [Hk He Hn Hs]. pose proof (zget_Some _ _ _ En) as Hlt.
assert (zget (zupd (comms sh) c n') c = Some n') as Hc by now apply zget_zupd_eq.
assert (forall c', c' <> c -> zget (zupd (comms sh) c n') c' = zget (comms sh) c') as Hne
  by (intros c' Hn'; apply zget_zupd_ne; congruence).
split; [split|unfold stateIn; cbn; now rewrite Hc].
- intros c'. unfold enabledIn. cbn. destruct (decide (c' = c)) as [->|]; [|now rewrite Hne].
  rewrite Hc, En. cbn. destruct (resiliency (base n')), (resiliency (base n)); cbn in *; congruence.
- intros c'. unfold countIn. cbn. destruct (decide (c' = c)) as [->|]; [|now rewrite Hne]. now rewrite Hc, En.
- intros c'. unfold connIn. cbn -[conn]. destruct (decide (c' = c)) as [->|]; [|now rewrite Hne].
  rewrite Hc, En. cbn -[conn]. now rewrite Hk.
- intros c' d' Hd. unfold stateIn. cbn. destruct (decide (c' = c)) as [->|]; [|now rewrite Hne].
  rewrite Hc, En. apply Hs. congruence.
Qed.

Lemma storeState_keeps c d st sh sh' : storeState c d st sh = Some sh' ->
sharedBut c d sh sh' /\ rhistory sh' = rhistory sh /\ stateIn sh' c d = Some st.
Proof.
unfold storeState. destruct (zget (comms sh) c) as [n|] eqn:En; [|done]. cbn [mbind option_bind].
destruct (setDevState_same d st n) as [Hs Hd]. destruct (setDevState d st n) as [[[]|e|] n']; try done. intros [= <-].
destruct (sharedBut_comm c d sh n n' En Hs) as [H1 H2]. split; [done|]. split; [done|]. rewrite H2. now apply Hd.
Qed.

Section Spec.
Context `{M : RecoveryMachine}.

(** The requests the thread has taken, and of them those whose contexts it has
still to drop. *)
Definition taken (p : ThreadPc) : list nat :=
match p with AtClose local | AtComplete local => local | _ => [] end.
Definition toDrop (p : ThreadPc) : list nat :=
match p with AtClose local => local | _ => [] end.

(** May a context of [c] still be used, the requests [reqs] being open? *)
Definition usable (w : World) (reqs : list nat) (c : Z) : Prop :=
enabledIn (sharedState w) c = true /\
match phases w !! c with
| Some Open | Some (Reporting _) | Some (Failing _) | Some Closing => True
| Some (WaitingClose req) => req ∈ reqs
| Some Closed | None => False
end.

Record thread_inv (w : World) : Prop := mkThreadInv
{ ti_inbox : forall x, x ∈ recoveryInbox w -> usable w (recoveryCloseRequests w) (pr_resCtx x);
ti_queue : forall x, x ∈ queued w -> usable w (recoveryCloseRequests w ++ toDrop (pc w)) (pr_resCtx x);
ti_failing : forall c x, phases w !! c = Some (Failing x) -> pr_resCtx x = c /\ enabledIn (sharedState w) c = true;
ti_waiting : forall c req, phases w !! c = Some (WaitingClose req) ->
enabledIn (sharedState w) c = true /\ exists b, requests w !! req = Some (mkCloseRequest c b) /\
(b = false -> req ∈ recoveryCloseRequests w ++ taken (pc w));
ti_pending : forall req, req ∈ recoveryCloseRequests w ++ taken (pc w) ->
exists c, phases w !! c = Some (WaitingClose req) /\ requests w !! req = Some (mkCloseRequest c false);
ti_nodup : NoDup (recoveryCloseRequests w ++ taken (pc w));
ti_active : forall c p, phases w !! c = Some p -> p <> Closed -> enabledIn (sharedState w) c = true ->
ncclIbPortRecoveryThreadActive w = true;
ti_stopped : forall r, pc w = Stopped r -> r = ncclSuccess }.

Lemma usable_mono w reqs reqs' c : usable w reqs c -> (forall r, r ∈ reqs -> r ∈ reqs') -> usable w reqs' c.
Proof. intros [He Hp] Hr. split; [done|]. destruct (phases w !! c) as [[| | | |req|]|]; auto. Qed.

(** ** The steps of the thread *)

Lemma elem_of_handleCloseRequests reqs local q x :
x ∈ ncclIbPortRecoveryHandleCloseRequests reqs local q <->
x ∈ q /\ forall id r, id ∈ local -> reqs !! id = Some r -> cr_resCtx r <> pr_resCtx x.
Proof.
unfold ncclIbPortRecoveryHandleCloseRequests. revert q. induction local as [|id local IH]; intros q; cbn.
{ set_solver. }
rewrite IH. destruct (reqs !! id) as [r|] eqn:E.
- rewrite list_elem_of_filter. split.
+ intros [[Hr Hx] Hl]. split; [done|]. intros id' r' [->|Hi]%elem_of_cons Hr'; [|eauto]. congruence.
+ intros [Hx Hl]. split; [split; [|done]|].
* intros Ex. apply (Hl id r); [left|done|done].
* intros id' r' Hi. apply Hl. now right.
- split; intros [Hx Hl]; (split; [done|]); intros id' r' Hi Hr'.
+ apply elem_of_cons in Hi as [->|Hi]; [congruence|eauto].
+ apply (Hl id'); [now right|done].
Qed.

Lemma completeRequests_lookup local reqs i :
completeRequests local reqs !! i =
(fun r => mkCloseRequest (cr_resCtx r) (cr_completed r || bool_decide (i ∈ local))) <$> reqs !! i.
Proof.
unfold completeRequests. revert reqs. induction local as [|id local IH]; intros reqs; cbn.
- rewrite bool_decide_eq_false_2 by apply not_elem_of_nil. destruct (reqs !! i) as [[c b]|]; cbn; [|done]. now rewrite orb_false_r.
- rewrite IH. destruct (decide (i = id)) as [->|Hn].
+ rewrite list_lookup_alter_eq. destruct (reqs !! id) as [[c b]|]; cbn; [|done].
rewrite (bool_decide_eq_true_2 (id ∈ id :: _)) by left. now rewrite orb_true_r.
+ rewrite list_lookup_alter_ne by done. destruct (reqs !! i) as [[c b]|]; cbn; [|done]. do 3 f_equal.
apply bool_decide_ext. set_solver.
Qed.

Lemma inv_wait w : thread_inv w -> pc w = AtWait ->
forall w', w' = w <| recoveryQueue := recoveryQueue w ++ recoveryInbox w |> <| recoveryInbox := [] |>
<| recoveryCloseRequests := [] |>
<| pc := match recoveryCloseRequests w with [] => AtActive | _ => AtClose (recoveryCloseRequests w) end |> ->
thread_inv w'.
Proof.
intros [Hin Hq Hfa Hwa Hpe Hnd Hac _] Epc w' ->. unfold queued in Hq. rewrite Epc in Hq, Hwa, Hpe, Hnd. cbn in *.
rewrite app_nil_r in *.
assert (queued (w <| recoveryQueue := recoveryQueue w ++ recoveryInbox w |> <| recoveryInbox := [] |>
<| recoveryCloseRequests := [] |>
<| pc := match recoveryCloseRequests w with [] => AtActive | _ => AtClose (recoveryCloseRequests w) end |>)
= recoveryQueue w ++ recoveryInbox w) as Eq by (unfold queued; cbn; now destruct (recoveryCloseRequests w)).
assert (toDrop (match recoveryCloseRequests w with [] => AtActive | _ => AtClose (recoveryCloseRequests w) end)
= recoveryCloseRequests w) as Ed by now destruct (recoveryCloseRequests w).
assert (taken (match recoveryCloseRequests w with [] => AtActive | _ => AtClose (recoveryCloseRequests w) end)
= recoveryCloseRequests w) as Et by now destruct (recoveryCloseRequests w).
split; cbn; try done.
- intros x Hx. now apply not_elem_of_nil in Hx.
- rewrite Eq, Ed. intros x [Hx|Hx]%elem_of_app; [exact (Hq x Hx)|exact (Hin x Hx)].
- now rewrite Et.
- now rewrite Et.
- now rewrite Et.
- intros r. now destruct (recoveryCloseRequests w).
Qed.

Lemma inv_close w local : thread_inv w -> pc w = AtClose local ->
thread_inv (w <| recoveryQueue := ncclIbPortRecoveryHandleCloseRequests (requests w) local (recoveryQueue w) |>
<| pc := AtComplete local |>).
Proof.
intros [Hin Hq Hfa Hwa Hpe Hnd Hac _] Epc. unfold queued in Hq. rewrite Epc in Hq, Hwa, Hpe, Hnd.
split; cbn in *; try done. rewrite app_nil_r. intros x [Hx Hl]%elem_of_handleCloseRequests.
destruct (Hq x Hx) as [He Hp]. split; [done|]. cbn. destruct (phases w !! pr_resCtx x) as [[| | | |req|]|] eqn:Eph; try done.
apply elem_of_app in Hp as [Hp|Hp]; [done|]. destruct (Hwa _ _ Eph) as (_ & b & Er & _). now destruct (Hl req _ Hp Er).
Qed.

Lemma inv_complete w local : thread_inv w -> pc w = AtComplete local ->
thread_inv (w <| requests := completeRequests local (requests w) |> <| pc := AtActive |>).
Proof.
intros [Hin Hq Hfa Hwa Hpe Hnd Hac _] Epc. unfold queued in Hq. rewrite Epc in Hq, Hwa, Hpe, Hnd.
split; cbn in *; try done.
- intros c req Hw. destruct (Hwa c req Hw) as (He & b & Er & Hb). split; [done|].
rewrite completeRequests_lookup, Er. cbn. eexists. split; [done|].
intros [-> Hl%bool_decide_eq_false]%orb_false_iff. specialize (Hb eq_refl). set_solver.
- rewrite app_nil_r. intros req Hr. destruct (Hpe req) as (c & Hc & Er); [set_solver|]. exists c. split; [done|].
rewrite completeRequests_lookup, Er. cbn. rewrite bool_decide_eq_false_2; [done|].
intros Hl. apply NoDup_app in Hnd as (_ & Hnd & _). now apply (Hnd req).
- rewrite app_nil_r. now apply NoDup_app in Hnd as [Hnd _].
Qed.

(** A context that may still be used keeps the thread going. *)
Lemma usable_active w reqs c : thread_inv w -> usable w reqs c -> ncclIbPortRecoveryThreadActive w = true.
Proof.
intros Hw [He Hp]. destruct (phases w !! c) as [p|] eqn:E; [|done].
apply (ti_active _ Hw c p); [done| |done]. intros ->. done.
Qed.

Lemma inv_stop w : thread_inv w -> pc w = AtActive -> ncclIbPortRecoveryThreadActive w = false ->
leftOver w = ncclSuccess.
Proof.
intros Hw Epc Ha.
assert (recoveryCloseRequests w = []) as E1.
{ destruct (recoveryCloseRequests w) as [|req l] eqn:E; [done|].
destruct (ti_pending _ Hw req) as (c & Hc & _); [rewrite E; left|].
destruct (ti_waiting _ Hw c req Hc) as [He _]. now rewrite (ti_active _ Hw c _ Hc) in Ha. }
assert (recoveryInbox w = []) as E2.
{ destruct (recoveryInbox w) as [|x l] eqn:E; [done|].
now rewrite (usable_active w _ _ Hw (ti_inbox _ Hw x ltac:(rewrite E; left))) in Ha. }
assert (recoveryQueue w = []) as E3.
{ destruct (recoveryQueue w) as [|x l] eqn:E; [done|].
assert (x ∈ queued w) as Hx by (unfold queued; rewrite Epc, E; left).
now rewrite (usable_active w _ _ Hw (ti_queue _ Hw x Hx)) in Ha. }
unfold leftOver. now rewrite E1, E2, E3.
Qed.

Lemma inv_shared w sh : (forall c, phases w !! c <> None -> enabledIn sh c = enabledIn (sharedState w) c) ->
thread_inv w -> thread_inv (w <| sharedState := sh |>).
Proof.
intros He [Hin Hq Hfa Hwa Hpe Hnd Hac Hst].
assert (forall reqs c, usable w reqs c -> usable (w <| sharedState := sh |>) reqs c) as Hu.
{ intros reqs c [Hc Hp]. split; [|done]. cbn. rewrite He; [done|]. intros E. now rewrite E in Hp. }
split; cbn; try done.
- intros x Hx. now apply Hu, Hin.
- intros x Hx. now apply Hu, Hq.
- intros c x Hx. rewrite He by congruence. auto.
- intros c req Hr. rewrite He by congruence. auto.
- intros c p Hp. rewrite He by congruence. eauto.
Qed.

Lemma inv_moves w q p : thread_inv w ->
(forall x, x ∈ queued (w <| recoveryQueue := q |> <| pc := p |>) -> exists y, y ∈ queued w /\ pr_resCtx y = pr_resCtx x) ->
taken p = taken (pc w) -> toDrop p = toDrop (pc w) -> (forall r, p = Stopped r -> r = ncclSuccess) ->
thread_inv (w <| recoveryQueue := q |> <| pc := p |>).
Proof.
intros [Hin Hq Hfa Hwa Hpe Hnd Hac Hst] Hx Et Ed Hs. split; cbn; rewrite ?Et, ?Ed; try done.
intros x Hxq. destruct (Hx x Hxq) as (y & Hy & <-). exact (Hq y Hy).
Qed.

(** The progress of a recovery keeps what the hand-over is about. *)
Lemma progress_frame fuel x sh :
let s := snd (ncclIbPortRecoveryContextProgress fuel (mkRecState x sh)) in
owner (rctx s) = owner x /\ forall c, enabledIn (shared s) c = enabledIn sh c.
Proof.
set (s0 := mkRecState x sh).
destruct (own_progress (enabledStates s0) (owner x) fuel s0 (conj eq_refl eq_refl)) as [[E Ho] _].
split; [exact Ho|]. intros c. exact (enabledIn_keeps s0 _ E c).
Qed.

Lemma inv_progress fuel w passed x todo r s : thread_inv w -> pc w = AtProgress passed (x :: todo) ->
ncclIbPortRecoveryContextProgress fuel (mkRecState x (sharedState w)) = (r, s) ->
thread_inv (w <| sharedState := shared s |> <| pc :=
match r with
| Done true => AtProgress passed todo
| Done false => AtProgress (passed ++ [rctx s]) todo
| Fail e => Errored e
| Fault => Undefined
end |>).
Proof.
intros Hw Epc E. destruct (progress_frame fuel x (sharedState w)) as [Ho He]. rewrite E in Ho, He. cbn in Ho, He.
injection Ho as Ho _.
apply (inv_moves (w <| sharedState := shared s |>) (recoveryQueue w)).
- apply inv_shared; [intros c _; apply He|done].
- unfold queued. cbn. rewrite Epc. destruct r as [[|]|e|]; cbn; intros y Hy.
+ exists y. set_solver.
+ rewrite <- app_assoc in Hy. apply elem_of_app in Hy as [Hy|[->%list_elem_of_singleton|Hy]%elem_of_app];
[exists y; set_solver|exists x; set_solver|exists y; set_solver].
+ now apply not_elem_of_nil in Hy.
+ now apply not_elem_of_nil in Hy.
- cbn. rewrite Epc. now destruct r as [[|]|e|].
- cbn. rewrite Epc. now destruct r as [[|]|e|].
- now destruct r as [[|]|e|].
Qed.

Lemma inv_thread fuel w w' : thread_inv w -> ncclIbPortRecoveryAsyncThreadMain fuel w = Some w' -> thread_inv w'.
Proof.
intros Hw E. unfold ncclIbPortRecoveryAsyncThreadMain in E. destruct (pc w) eqn:Epc; try done.
- destruct (workToDo w); [|done]. injection E as E. now apply (inv_wait w).
- injection E as <-. now apply inv_close.
- injection E as <-. now apply inv_complete.
- destruct (ncclIbPortRecoveryThreadActive w) eqn:Ea; injection E as <-.
+ apply inv_moves; cbn; rewrite ?Epc; try done. unfold queued. cbn. rewrite Epc. eauto.
+ apply (inv_moves w (recoveryQueue w)); cbn; rewrite ?Epc; try done.
* unfold queued. cbn. intros x Hx. now apply not_elem_of_nil in Hx.
* intros r [= <-]. now apply inv_stop.
- destruct todo as [|x todo].
+ injection E as <-. apply inv_moves; cbn; rewrite ?Epc; try done. unfold queued. cbn. rewrite Epc, app_nil_r. eauto.
+ destruct (ncclIbPortRecoveryContextProgress _ _) as [r s] eqn:Ep. injection E as <-. now apply (inv_progress fuel w passed x).
Qed.

(** ** The steps of the other threads *)

Definition atCaller (p : CommPhase) : bool :=
match p with Open | Reporting _ | Failing _ | Closing => true | WaitingClose _ | Closed => false end.

(** The thread of a communicator goes on, outside of [ncclIbPortRecoveryClose]. *)
Lemma inv_phase w c p : thread_inv w ->
match phases w !! c with Some p0 => atCaller p0 = true | None => True end ->
atCaller p = true -> (enabledIn (sharedState w) c = true -> ncclIbPortRecoveryThreadActive w = true) ->
(forall x, p = Failing x -> pr_resCtx x = c /\ enabledIn (sharedState w) c = true) ->
thread_inv (setPhase c p w).
Proof.
intros [Hin Hq Hfa Hwa Hpe Hnd Hac Hst] Hold Hnew Ha Hf.
assert (forall reqs c', usable w reqs c' -> usable (setPhase c p w) reqs c') as Hu.
{ intros reqs c' [He Hp]. split; [exact He|]. cbn. destruct (decide (c' = c)) as [->|Hn].
- rewrite lookup_insert_eq. now destruct p.
- now rewrite lookup_insert_ne. }
split; cbn; try done.
- intros x Hx. now apply Hu, Hin.
- intros x Hx. now apply Hu, Hq.
- intros c' x [[<- ->]|[_ Hx]]%lookup_insert_Some; [now apply Hf|now apply Hfa].
- intros c' req [[<- ->]|[_ Hx]]%lookup_insert_Some; [done|now apply Hwa].
- intros req Hr. destruct (Hpe req Hr) as (c' & Hc & Er). exists c'. split; [|done].
rewrite lookup_insert_ne; [done|]. intros <-. now rewrite Hc in Hold.
- intros c' p' [[<- <-]|[_ Hx]]%lookup_insert_Some Hp He; [auto|eauto].
Qed.

(** A communicator whose contexts are gone is closed. *)
Lemma inv_closed w c : thread_inv w -> (forall x, x ∈ recoveryInbox w ++ queued w -> pr_resCtx x <> c) ->
(forall req, phases w !! c = Some (WaitingClose req) -> req ∉ recoveryCloseRequests w ++ taken (pc w)) ->
thread_inv (setPhase c Closed w).
Proof.
intros [Hin Hq Hfa Hwa Hpe Hnd Hac Hst] Hx Hr.
assert (forall reqs c', c' <> c -> usable w reqs c' -> usable (setPhase c Closed w) reqs c') as Hu.
{ intros reqs c' Hn [He Hp]. split; [exact He|]. cbn. now rewrite lookup_insert_ne. }
split; cbn; try done.
- intros x Hxi. apply Hu; [apply Hx; set_solver|auto].
- intros x Hxi. apply Hu; [apply Hx|now apply Hq]. apply elem_of_app. now right.
- intros c' x [[<- ?]|[_ ?]]%lookup_insert_Some; [done|now apply Hfa].
- intros c' req [[<- ?]|[_ ?]]%lookup_insert_Some; [done|now apply Hwa].
- intros req Hreq. destruct (Hpe req Hreq) as (c' & Hc & Er). exists c'. split; [|done].
rewrite lookup_insert_ne; [done|]. intros <-. now apply (Hr req).
- intros c' p' [[<- <-]|[_ ?]]%lookup_insert_Some Hp He; [done|eauto].
Qed.

Lemma inv_contexts w x reqs : thread_inv w -> x ∈ recoveryInbox w ++ queued w ->
reqs = recoveryCloseRequests w ++ toDrop (pc w) -> usable w reqs (pr_resCtx x).
Proof.
intros Hw [Hx|Hx]%elem_of_app ->; [|now apply ti_queue].
apply (usable_mono w (recoveryCloseRequests w)); [now apply ti_inbox|]. set_solver.
Qed.

Lemma inv_init c w w' : thread_inv w -> phases w !! c = None -> ncclIbPortRecoveryInit c w = Some w' -> thread_inv w'.
Proof.
intros Hw Hc E. unfold ncclIbPortRecoveryInit in E.
destruct (zget (comms (sharedState w)) c) as [n|] eqn:En; [|done]. cbn in E.
destruct (resiliency (base n)) as [r|] eqn:Er; [|done]. injection E as <-.
set (n' := n <| base := _ |>).
pose proof (zget_Some _ _ _ En) as Hlt.
assert (forall c', c' <> c -> zget (zupd (comms (sharedState w)) c n') c' = zget (comms (sharedState w)) c') as Hne.
{ intros c' Hn. rewrite zget_zupd. case_decide; [intuition congruence|done]. }
apply inv_phase; [apply inv_shared; [|done]| | |..]; cbn.
- intros c' Hp. unfold enabledIn. cbn. rewrite Hne; [done|congruence].
- now rewrite Hc.
- done.
- unfold enabledIn. cbn. now rewrite zget_zupd_eq.
- done.
Qed.

Lemma inv_report c d w w' : thread_inv w -> phases w !! c = Some Open -> reportFailure c d w = Some w' -> thread_inv w'.
Proof.
intros Hw Hc E. unfold reportFailure in E. destruct (stateIn _ c d) as [st|]; [|done]. cbn [mbind option_bind] in E.
destruct (isOk st && _); [|done]. destruct (storeState _ _ _ _) as [sh|] eqn:Es; [|done]. injection E as <-.
apply storeState_keeps in Es as [Hk _].
apply inv_phase; cbn; try done.
- apply inv_shared; [intros c' _; apply (sh_enabled _ _ _ _ Hk)|done].
- now rewrite Hc.
- rewrite (sh_enabled _ _ _ _ Hk). now apply (ti_active _ Hw c Open).
Qed.

Lemma handleFailureInit_frame c d w w' r : handleFailureInit c d w = Some (w', r) ->
moved (c, d) (sharedState w) (sharedState w') /\
match r with
| Some _ => w' = w <| sharedState := sharedState w' |>
| None => enabledIn (sharedState w) c = true /\ stateIn (sharedState w) c d = Some ncclIbResiliencyDevStateRecoveryInProgress /\
exists x, owner x = (c, d) /\ w' = setPhase c (Failing x) (w <| sharedState := sharedState w' |>) /\
ncclIbPortRecoveryContextInit c d (mkRecState (freshRecoveryContext 0 0 0) (sharedState w)) =
(Done tt, mkRecState x (sharedState w'))
end.
Proof.
intros E. unfold handleFailureInit in E.
destruct (zget (comms (sharedState w)) c) as [n|] eqn:En; [|done]. cbn [mbind option_bind] in E.
destruct (resiliency (base n)) as [rs|] eqn:Er; [|done]. cbn [mbind option_bind] in E.
destruct (zget (res_devs rs) d) as [rd|] eqn:Ed; [|done]. cbn [mbind option_bind] in E.
assert (enabledIn (sharedState w) c = recoveryEnabled rs) as He by (unfold enabledIn; now rewrite En; cbn; rewrite Er).
assert (stateIn (sharedState w) c d = Some (rd_state rd)) as Hst
by (unfold stateIn; rewrite En; cbn; rewrite Er; cbn; now rewrite Ed).
assert (w = w <| sharedState := sharedState w |>) as Hw by now destruct w.
assert (moved (c, d) (sharedState w) (sharedState w)) as Hmv.
{ split; try done. exists []. now rewrite app_nil_r. }
destruct (recoveryEnabled rs); cbn [negb] in E; [|injection E as <- <-; now split].
destruct (bool_decide _) eqn:Hb; cbn [negb] in E; [|injection E as <- <-; now split]. apply bool_decide_eq_true in Hb.
set (s0 := mkRecState (freshRecoveryContext 0 0 0) (sharedState w)) in *.
pose proof (contextInit_frame c d s0) as Hf. pose proof (moved_framed (c, d) s0 _ Hf) as Hm. destruct Hf as (_ & Ho & _).
destruct (ncclIbPortRecoveryContextInit c d s0) as [o s]. cbn in Hm, Ho.
destruct o as [[]|e|]; [| |done]; injection E as <- <-; (split; [exact Hm|]); [|done].
split; [done|]. split; [congruence|]. exists (rctx s). split; [done|]. split; [done|]. now destruct s.
Qed.

Lemma inv_failure c d w w' : thread_inv w -> phases w !! c = Some (Reporting d) ->
handleFailure c d w = Some w' -> thread_inv w'.
Proof.
intros Hw Hc E. unfold handleFailure in E. destruct (handleFailureInit c d w) as [[w1 r]|] eqn:Ei; [|done].
cbn [mbind option_bind] in E. apply handleFailureInit_frame in Ei as [Hm Hr]. pose proof (mv_enabled _ _ _ Hm) as He.
assert (enabledIn (sharedState w) c = true -> ncclIbPortRecoveryThreadActive w = true) as Ha
by now apply (ti_active _ Hw c (Reporting d)).
assert (thread_inv (w <| sharedState := sharedState w1 |>)) as Hs by (apply inv_shared; [intros c' _; apply He|done]).
destruct r as [e|].
- destruct (storeState _ _ _ _) as [sh|] eqn:Es; [|done]. injection E as <-. apply storeState_keeps in Es as [Hk _].
assert (forall c', enabledIn sh c' = enabledIn (sharedState w) c') as He' by (intros c'; rewrite <- He; apply (sh_enabled _ _ _ _ Hk)).
assert (w1 <| sharedState := sh |> = w <| sharedState := sh |>) as -> by (now rewrite Hr).
apply inv_phase; cbn; try done.
+ now apply inv_shared.
+ now rewrite Hc.
+ now rewrite He'.
- injection E as <-. destruct Hr as (Hen & _ & x & Ho & -> & _). apply inv_phase; cbn; try done.
+ now rewrite Hc.
+ now rewrite He.
+ intros x' [= <-]. rewrite He. now injection Ho as -> _.
Qed.

Lemma inv_push c w w' : thread_inv w -> handleFailurePush c w = Some w' -> thread_inv w'.
Proof.
intros Hw E. unfold handleFailurePush in E. destruct (phases w !! c) as [[| |x| | |]|] eqn:Hc; try done. injection E as <-.
destruct (ti_failing _ Hw c x Hc) as [<- He].
apply (inv_phase (w <| recoveryInbox := recoveryInbox w ++ [x] |>)); cbn; try done.
- destruct Hw as [Hin Hq Hfa Hwa Hpe Hnd Hac Hst]. split; cbn; try done.
intros y [Hy|Hy%list_elem_of_singleton]%elem_of_app; [exact (Hin y Hy)|]. subst y.
split; [exact He|]. cbn. now rewrite Hc.
- now rewrite Hc.
- intros _. now apply (ti_active _ Hw (pr_resCtx x) (Failing x)).
Qed.

(** The request is on the list before the thread can look for it. *)
Lemma inv_request w c : thread_inv w -> phases w !! c = Some Closing -> enabledIn (sharedState w) c = true ->
thread_inv (setPhase c (WaitingClose (length (requests w)))
(w <| requests := requests w ++ [mkCloseRequest c false] |>
 <| recoveryCloseRequests := recoveryCloseRequests w ++ [length (requests w)] |>)).
Proof.
intros Hw Hc He. pose proof Hw as [Hin Hq Hfa Hwa Hpe Hnd Hac Hst]. set (req := length (requests w)).
assert (forall i r, requests w !! i = Some r -> (requests w ++ [mkCloseRequest c false]) !! i = Some r) as Hold
by (intros i r Hi; now apply lookup_app_l_Some).
assert ((requests w ++ [mkCloseRequest c false]) !! req = Some (mkCloseRequest c false)) as Hreq
by (now apply list_lookup_middle).
assert (forall i, i ∈ recoveryCloseRequests w ++ taken (pc w) -> i <> req) as Hfresh.
{ intros i Hi ->. destruct (Hpe req Hi) as (? & ? & Er). apply lookup_lt_Some in Er. unfold req in Er. lia. }
assert (forall reqs c', usable w reqs c' -> forall reqs', (forall i, i ∈ reqs -> i ∈ reqs') -> req ∈ reqs' ->
usable (setPhase c (WaitingClose req) w) reqs' c') as Hu.
{ intros reqs c' [He' Hp] reqs' Hi Hr. split; [exact He'|]. cbn. destruct (decide (c' = c)) as [->|Hn].
- now rewrite lookup_insert_eq.
- rewrite lookup_insert_ne by done. destruct (phases w !! c') as [[| | | |r|]|]; auto. }
split; cbn; try done.
- intros x Hx. apply (Hu _ _ (Hin x Hx)); set_solver.
- intros x Hx. apply (Hu _ _ (Hq x Hx)); set_solver.
- intros c' x [[<- ?]|[_ ?]]%lookup_insert_Some; [done|now apply Hfa].
- intros c' r [[<- [= <-]]|[_ Hr]]%lookup_insert_Some.
{ split; [done|]. exists false. split; [done|]. set_solver. }
destruct (Hwa c' r Hr) as (Hc' & b & Er & Hb). split; [done|]. exists b. split; [auto|]. set_solver.
- intros r Hr. destruct (decide (r = req)) as [->|Hn].
+ exists c. now rewrite lookup_insert_eq.
+ destruct (Hpe r) as (c' & Hc' & Er); [set_solver|]. exists c'. rewrite lookup_insert_ne by congruence. auto.
- rewrite <- app_assoc. apply NoDup_app in Hnd as (H1 & H2 & H3). apply NoDup_app. split; [done|]. split.
+ intros i Hi [->%list_elem_of_singleton|Ht]%elem_of_app; [|now apply (H2 i)]. apply (Hfresh req); set_solver.
+ apply NoDup_app. split; [apply NoDup_singleton|]. split; [|done].
intros i ->%list_elem_of_singleton Ht. apply (Hfresh req); set_solver.
- intros c' p [[<- <-]|[_ ?]]%lookup_insert_Some Hp Hc'; [now apply (Hac c Closing)|eauto].
Qed.

Lemma inv_closeCall w c : thread_inv w -> phases w !! c = Some Closing -> thread_inv (ncclIbPortRecoveryClose c w).
Proof.
intros Hw Hc. unfold ncclIbPortRecoveryClose.
destruct (enabledIn (sharedState w) c) eqn:He; cbn [negb].
- rewrite (ti_active _ Hw c Closing) by done. now apply inv_request.
- apply inv_closed; [done| |intros req Hr; congruence].
intros x Hx Ec. destruct (inv_contexts w x _ Hw Hx eq_refl) as [He' _]. congruence.
Qed.

Lemma inv_closeReturns w c w' : thread_inv w -> closeReturns c w = Some w' -> thread_inv w'.
Proof.
intros Hw E. unfold closeReturns in E. destruct (phases w !! c) as [[| | | |req|]|] eqn:Hc; try done.
destruct (ti_waiting _ Hw c req Hc) as (_ & b & Er & _). rewrite Er in E. cbn in E. destruct b; [|done]. injection E as <-.
assert (req ∉ recoveryCloseRequests w ++ taken (pc w)) as Hn.
{ intros Hr. destruct (ti_pending _ Hw req Hr) as (c' & _ & Er'). congruence. }
apply inv_closed; [done| |].
- intros x Hx Ec. destruct (inv_contexts w x _ Hw Hx eq_refl) as [_ Hp]. rewrite Ec, Hc in Hp. apply Hn.
destruct (pc w); set_solver.
- intros req' Hr'. rewrite Hc in Hr'. now injection Hr' as <-.
Qed.

Lemma inv_start w w' : thread_inv w -> ncclIbPortRecoveryThreadStart w = Some w' -> thread_inv w'.
Proof.
intros [Hin Hq Hfa Hwa Hpe Hnd Hac Hst] E. unfold ncclIbPortRecoveryThreadStart in E.
destruct (portRecovery rprm =? 0); [now injection E as <-|]. cbn in E.
destruct (ncclIbPortRecoveryThreadActive w) eqn:Ea; [injection E as <-; now split|].
destruct (pc w) eqn:Epc; try done. injection E as <-. split; cbn in *; try done.
intros x Hx. now apply not_elem_of_nil in Hx.
Qed.

Lemma inv_stopCall w : thread_inv w -> 1 < ncclIbPortRecoveryRefCount w \/ allClosed w ->
thread_inv (ncclIbPortRecoveryThreadStop w).
Proof.
intros [Hin Hq Hfa Hwa Hpe Hnd Hac Hst] Hc. unfold ncclIbPortRecoveryThreadStop.
destruct (portRecovery rprm =? 0); [done|]. cbn. case_match eqn:Er; [now split|].
destruct Hc as [Hc|Hc]; [lia|]. split; cbn; try done. intros c p Hp Hn. now apply Hc in Hp.
Qed.

Lemma inv_join w w' : thread_inv w -> joinThread w = Some w' -> thread_inv w'.
Proof.
intros Hw E. unfold joinThread in E. destruct (pc w) eqn:Epc; try done; injection E as <-.
all: apply (inv_moves w (recoveryQueue w)); cbn; rewrite ?Epc; try done.
all: intros x Hx; now apply not_elem_of_nil in Hx.
Qed.

Lemma inv_other w w' : thread_inv w -> otherStep w w' -> thread_inv w'.
Proof.
intros Hw Hs. destruct Hs.
- now apply (inv_init c w).
- apply inv_shared; [apply (la_enabled _ _ H)|done].
- now apply (inv_report c d w).
- now apply (inv_failure c d w).
- now apply (inv_push c w).
- apply inv_phase; try done; [now rewrite H|]. intros He. now apply (ti_active _ Hw c Open).
- now apply inv_closeCall.
- now apply (inv_closeReturns w c).
- now apply (inv_start w).
- now apply inv_stopCall.
- now apply (inv_join w).
Qed.

Lemma inv_step w w' : thread_inv w -> step w w' -> thread_inv w'.
Proof. intros Hw Hs. destruct Hs as [fuel w w' E|w w' Hs]; [now apply (inv_thread fuel w)|now apply (inv_other w)]. Qed.

Lemma reachable_inv w : reachable w -> thread_inv w.
Proof.
induction 1 as [sh|w w' _ IH Hs]; [|now apply (inv_step w)].
split; cbn; try done; try (intros x Hx; now apply not_elem_of_nil in Hx). apply NoDup_nil_2.
Qed.

(** C11. A communicator whose close has returned is not used any more: whatever the
threads of the communicators and the recovery thread do, and in whatever order,
no recovery of it waits in the inbox or in the queue of the thread, and none is
being progressed, so its memory can be freed. *)
Theorem closed_communicators_released w c x :
reachable w -> phases w !! c = Some Closed -> x ∈ recoveryInbox w ++ queued w -> pr_resCtx x <> c.
Proof.
intros Hw Hc Hx <-. destruct (inv_contexts w x _ (reachable_inv w Hw) Hx eq_refl) as [_ Hp]. now rewrite Hc in Hp.
Qed.

(** When the recovery thread is stopped it finds nothing left behind: no close
request, no failed device waiting, no recovery in progress. *)
Theorem stopped_with_nothing_left w r : reachable w -> pc w = Stopped r -> r = ncclSuccess.
Proof. intros Hw. now apply ti_stopped, reachable_inv. Qed.

(** ** The life of a close request *)

Definition ended (p : ThreadPc) : bool :=
match p with NotStarted | Stopped _ | Errored _ | Undefined => true | _ => false end.

(** The steps of the thread until the request [req] is completed. *)
Definition turnsLeft (w : World) (req : nat) : nat :=
match pc w with
| AtWait => 3
| AtProgress _ todo => 4 + length todo
| AtActive => 5 + length (recoveryQueue w)
| AtComplete local => if bool_decide (req ∈ local) then 1 else 6 + length (recoveryQueue w)
| AtClose local => if bool_decide (req ∈ local) then 2 else 7 + length (recoveryQueue w)
| _ => 0
end.

(** [c] waits for the completion of its request [req]. *)
Definition openRequest (w : World) (c : Z) (req : nat) : Prop :=
phases w !! c = Some (WaitingClose req) /\ requests w !! req = Some (mkCloseRequest c false).

Lemma openRequest_active w c req : thread_inv w -> openRequest w c req -> ncclIbPortRecoveryThreadActive w = true.
Proof.
intros Hw [Hc _]. destruct (ti_waiting _ Hw c req Hc) as [He _]. now apply (ti_active _ Hw c (WaitingClose req)).
Qed.

(** What the other threads leave alone: the requests there are, the recovery thread
while it is active, and a communicator that waits for its request. *)
Record untouched (w w' : World) : Prop := mkUntouched
{ ut_requests : exists l, requests w' = requests w ++ l;
ut_thread : ncclIbPortRecoveryThreadActive w = true -> pc w' = pc w /\ recoveryQueue w' = recoveryQueue w;
ut_phases : forall c req, phases w !! c = Some (WaitingClose req) ->
phases w' !! c = Some (WaitingClose req) \/ (cr_completed <$> requests w !! req = Some true) }.

Lemma untouched_same w w' : requests w' = requests w -> pc w' = pc w -> recoveryQueue w' = recoveryQueue w ->
phases w' = phases w -> untouched w w'.
Proof. intros Er Ep Eq Eph. split; [exists []; now rewrite app_nil_r|done|]. rewrite Eph. auto. Qed.

Lemma untouched_phase w w1 c p : untouched w w1 -> phases w1 = phases w ->
(forall req, phases w !! c = Some (WaitingClose req) -> cr_completed <$> requests w !! req = Some true) ->
untouched w (setPhase c p w1).
Proof.
intros [Hr Ht Hp] E Hn. split; [exact Hr|exact Ht|]. intros c' req Hc. cbn.
destruct (decide (c' = c)) as [->|]; [right; auto|]. rewrite lookup_insert_ne by done. rewrite E. auto.
Qed.

Lemma untouched_failure c d w w' : phases w !! c = Some (Reporting d) -> handleFailure c d w = Some w' -> untouched w w'.
Proof.
intros Hn E. unfold handleFailure in E. destruct (handleFailureInit c d w) as [[w1 r]|] eqn:Ei; [|done].
cbn [mbind option_bind] in E. apply handleFailureInit_frame in Ei as [_ Hr]. destruct r as [e|].
- destruct (storeState _ _ _ _) as [sh|]; [|done]. injection E as <-. rewrite Hr.
apply untouched_phase; [now apply untouched_same|done|]. intros req. now rewrite Hn.
- injection E as <-. destruct Hr as (_ & _ & x & _ & -> & _).
apply untouched_phase; [now apply untouched_same|done|]. intros req. now rewrite Hn.
Qed.

Lemma other_untouched w w' : otherStep w w' -> untouched w w'.
Proof.
destruct 1 as [c w w' Hn E|w l He|c d nd w w' Hn Hnd Hd E|c d w w' Hn E|c w w' E|c w Hn|c w Hn|c w w' E|w w' E|w Hn|w w' Hn E].
- unfold ncclIbPortRecoveryInit in E. destruct (zget _ _) as [n|]; [|done]. cbn in E.
destruct (resiliency _) as [rs|]; [|done]. injection E as <-.
apply untouched_phase; [now apply untouched_same|done|]. intros req. now rewrite Hn.
- now apply untouched_same.
- unfold reportFailure in E. destruct (stateIn _ c d) as [st|]; [|done]. cbn [mbind option_bind] in E.
destruct (_ && _); [|done]. destruct (storeState _ _ _ _) as [sh|]; [|done]. injection E as <-.
apply untouched_phase; [now apply untouched_same|done|]. intros req. now rewrite Hn.
- now apply (untouched_failure c d w).
- unfold handleFailurePush in E. destruct (phases w !! c) as [[| |x| | |]|] eqn:Hn; try done. injection E as <-.
apply untouched_phase; [now apply untouched_same|done|]. intros req. now rewrite Hn.
- apply untouched_phase; [now apply untouched_same|done|]. intros req. now rewrite Hn.
- unfold ncclIbPortRecoveryClose. destruct (negb _); [|destruct (negb _)].
all: apply untouched_phase; [|done|intros req; now rewrite Hn].
1-2: now apply untouched_same.
split; cbn; [eauto|done|auto].
- unfold closeReturns in E. destruct (phases w !! c) as [[| | | |req|]|] eqn:Hn; try done.
destruct (requests w !! req) as [[x b]|] eqn:Er; [|done]. cbn in E. destruct b; [|done]. injection E as <-.
apply untouched_phase; [now apply untouched_same|done|]. intros req' Hr. rewrite Hn in Hr. injection Hr as <-. now rewrite Er.
- unfold ncclIbPortRecoveryThreadStart in E. destruct (_ =? 0); [injection E as <-; now apply untouched_same|]. cbn in E.
destruct (ncclIbPortRecoveryThreadActive w) eqn:Ha; [injection E as <-; now apply untouched_same|].
destruct (pc w); try done. injection E as <-. split; cbn; [exists []; now rewrite app_nil_r|congruence|auto].
- unfold ncclIbPortRecoveryThreadStop. destruct (_ =? 0); [now apply untouched_same|]. cbn. case_match; now apply untouched_same.
- unfold joinThread in E. destruct (pc w); try done; injection E as <-.
all: split; cbn; [exists []; now rewrite app_nil_r|congruence|auto].
Qed.

Lemma untouched_lookup w w' req r : untouched w w' -> requests w !! req = Some r -> requests w' !! req = Some r.
Proof. intros [[l ->] _ _] Hr. now apply lookup_app_l_Some. Qed.

Lemma openRequest_other w w' c req : thread_inv w -> otherStep w w' -> openRequest w c req ->
openRequest w' c req /\ pc w' = pc w /\ recoveryQueue w' = recoveryQueue w.
Proof.
intros Hw Hs Ho. pose proof (openRequest_active w c req Hw Ho) as Ha. destruct Ho as [Hc Hr].
apply other_untouched in Hs. split; [|now apply Hs]. split; [|now apply (untouched_lookup w)].
destruct (ut_phases _ _ Hs c req Hc) as [Hp|Hp]; [done|]. now rewrite Hr in Hp.
Qed.

Lemma thread_requests fuel w w' : ncclIbPortRecoveryAsyncThreadMain fuel w = Some w' ->
requests w' = match pc w with AtComplete local => completeRequests local (requests w) | _ => requests w end /\
phases w' = phases w.
Proof.
unfold ncclIbPortRecoveryAsyncThreadMain. destruct (pc w) as [| |local|local| |passed [|x todo]| | |]; intros E; try done.
- destruct (workToDo w); [|done]. now injection E as <-.
- now injection E as <-.
- now injection E as <-.
- destruct (ncclIbPortRecoveryThreadActive w); now injection E as <-.
- now injection E as <-.
- destruct (ncclIbPortRecoveryContextProgress _ _). now injection E as <-.
Qed.

Lemma completed_stays w w' c req : step w w' -> requests w !! req = Some (mkCloseRequest c true) ->
requests w' !! req = Some (mkCloseRequest c true).
Proof.
intros Hs Hr. destruct Hs as [fuel w w' E|w w' Hs]; [|now apply (untouched_lookup w); [apply other_untouched|]].
apply thread_requests in E as [-> _]. destruct (pc w); try done. now rewrite completeRequests_lookup, Hr.
Qed.

Lemma handleCloseRequests_length reqs local q :
(length (ncclIbPortRecoveryHandleCloseRequests reqs local q) <= length q)%nat.
Proof.
unfold ncclIbPortRecoveryHandleCloseRequests. revert q. induction local as [|id local IH]; intros q; cbn; [done|].
rewrite IH. destruct (reqs !! id) as [r|]; [|done]. apply length_filter.
Qed.

Lemma openRequest_placed w c req : thread_inv w -> openRequest w c req ->
req ∈ recoveryCloseRequests w ++ taken (pc w).
Proof.
intros Hw [Hc Hr]. destruct (ti_waiting _ Hw c req Hc) as (_ & b & Er & Hb). apply Hb. congruence.
Qed.

(** A step of the thread brings an open request nearer to its completion, or ends the thread. *)
Lemma thread_turn fuel w w' c req : thread_inv w -> openRequest w c req ->
ncclIbPortRecoveryAsyncThreadMain fuel w = Some w' ->
requests w' !! req = Some (mkCloseRequest c true) \/
openRequest w' c req /\ (ended (pc w') = true \/ (turnsLeft w' req < turnsLeft w req)%nat).
Proof.
intros Hw Ho E. pose proof (openRequest_placed w c req Hw Ho) as Hp.
pose proof (openRequest_active w c req Hw Ho) as Ha. pose proof (thread_requests fuel w w' E) as [Er Eph].
pose proof Ho as [Hc Hr].
assert ((forall local, pc w <> AtComplete local) -> openRequest w' c req) as Hkeep.
{ intros Hn. split; [congruence|]. rewrite Er. destruct (pc w); try done. now destruct (Hn local). }
unfold ncclIbPortRecoveryAsyncThreadMain in E. unfold turnsLeft.
destruct (pc w) as [| |local|local| |passed [|x todo]| | |] eqn:Epc; try done; cbn [taken] in Hp; rewrite ?app_nil_r in Hp.
- right. split; [now apply Hkeep|]. right. destruct (workToDo w); [|done]. injection E as <-. cbn.
destruct (recoveryCloseRequests w) as [|i l] eqn:El; [now apply not_elem_of_nil in Hp|].
rewrite bool_decide_eq_true_2 by done. lia.
- right. split; [now apply Hkeep|]. right. injection E as <-. cbn. case_bool_decide; [lia|].
pose proof (handleCloseRequests_length (requests w) local (recoveryQueue w)). lia.
- rewrite Er, completeRequests_lookup, Hr. cbn. case_bool_decide as Hl; cbn; [now left|right].
split; [split; [congruence|]|].
+ rewrite Er, completeRequests_lookup, Hr. cbn. now rewrite bool_decide_eq_false_2.
+ right. injection E as <-. cbn. lia.
- right. split; [now apply Hkeep|]. rewrite Ha in E. injection E as <-. right. cbn. lia.
- right. split; [now apply Hkeep|]. right. injection E as <-. cbn. lia.
- right. split; [now apply Hkeep|]. destruct (ncclIbPortRecoveryContextProgress _ _) as [[[|]|e|] s]; injection E as <-; cbn;
[right; lia|right; lia|now left|now left].
Qed.

(** An open request is not blocked: the thread has a step to take. *)
Lemma thread_awake fuel w c req : thread_inv w -> openRequest w c req -> ended (pc w) = false ->
exists w', ncclIbPortRecoveryAsyncThreadMain fuel w = Some w'.
Proof.
intros Hw Ho He. pose proof (openRequest_placed w c req Hw Ho) as Hp.
unfold ncclIbPortRecoveryAsyncThreadMain. destruct (pc w) as [| |local|local| |passed [|x todo]| | |] eqn:Epc; try done; eauto.
- cbn in Hp. rewrite app_nil_r in Hp.
assert (workToDo w = true) as ->; [|eauto]. unfold workToDo.
rewrite (bool_decide_eq_false_2 (recoveryCloseRequests w = [])); [now rewrite orb_true_r|].
intros E. rewrite E in Hp. now apply not_elem_of_nil in Hp.
- destruct (ncclIbPortRecoveryThreadActive w); eauto.
- destruct (ncclIbPortRecoveryContextProgress _ _); eauto.
Qed.

(** C16. A close comes to its end while the recovery thread lives: the thread always
has a step to take while a request is open, and in any interleaving the request
is completed after a number of its steps that only depends on where it is and on
how many recoveries are in progress, or an error has ended the thread. *)
Theorem close_request_completes w c req :
reachable w -> openRequest w c req -> ended (pc w) = false ->
(forall fuel, exists w', ncclIbPortRecoveryAsyncThreadMain fuel w = Some w') /\
(forall n w', run n w w' -> (turnsLeft w req <= n)%nat ->
requests w' !! req = Some (mkCloseRequest c true) \/ ended (pc w') = true).
Proof.
intros Hw Ho He. apply reachable_inv in Hw. split; [intros fuel; now apply (thread_awake fuel w c req)|].
enough (forall n w w', run n w w' -> thread_inv w ->
requests w !! req = Some (mkCloseRequest c true) \/ openRequest w c req /\ (ended (pc w) = true \/ (turnsLeft w req <= n)%nat) ->
requests w' !! req = Some (mkCloseRequest c true) \/ ended (pc w') = true) as H by eauto.
clear w Hw Ho He. intros n w w' Hrun. induction Hrun as [w|fuel n w w1 w2 E Hrun IH|n w w1 w2 Hs Hrun IH]; intros Hw H.
- destruct H as [H|[Ho [He|Hn]]]; auto. right. pose proof (openRequest_placed w c req Hw Ho) as Hp. unfold turnsLeft in Hn.
destruct (pc w); try done; try lia; case_bool_decide; lia.
- apply IH; [now apply (inv_thread fuel w)|]. destruct H as [H|[Ho H]].
+ left. now apply (completed_stays w); [apply (step_thread fuel)|].
+ destruct (thread_turn fuel w w1 c req Hw Ho E) as [H1|[Ho1 [He1|Hn1]]]; auto. right. split; [done|]. right.
destruct H as [H|H]; [|lia]. unfold ncclIbPortRecoveryAsyncThreadMain in E. now destruct (pc w).
- apply IH; [now apply (inv_other w)|]. destruct H as [H|[Ho H]].
+ left. now apply (completed_stays w); [apply step_other|].
+ right. destruct (openRequest_other w w1 c req Hw Hs Ho) as (Ho1 & Ep & Eq). split; [done|].
rewrite Ep. destruct H as [H|H]; [auto|]. right. unfold turnsLeft in *. now rewrite Ep, Eq.
Qed.

(** When an error ends the recovery thread, a communicator that waits for its
close request waits for ever: no step of any thread completes it. *)
Theorem close_hangs_after_error w w' c req n :
reachable w -> openRequest w c req -> ended (pc w) = true -> run n w w' ->
openRequest w' c req /\ ended (pc w') = true.
Proof.
intros Hw Ho He Hrun. apply reachable_inv in Hw. induction Hrun as [w|fuel n w w1 w2 E Hrun IH|n w w1 w2 Hs Hrun IH]; [done| |].
- unfold ncclIbPortRecoveryAsyncThreadMain in E. now destruct (pc w).
- destruct (openRequest_other w w1 c req Hw Hs Ho) as (Ho1 & Ep & _). apply IH; [now apply (inv_other w)|done|congruence].
Qed.
End Spec.
