(* ===== verification/ThreadDemo.v ===== *)
(** * Transport: runs of the recovery thread

    The steps of [RecoveryThread] as executable actions, and concrete runs of them:
    the witnesses of the theorems of [ThreadSpec], and what goes wrong when the
    order of a close or an error of the thread is unlucky. *)

From S2P Require Import Prelude NetTypes NetBase NetDemo Resiliency Recovery RecoverySpec RecoveryOutcome RecoveryThread ThreadSpec.

Open Scope Z_scope.
Open Scope nccl_scope.

Inductive Action : Type :=
  | ThreadTurn (fuel : nat)
  | Init (c : Z)
  | Reports (c d : Z)
  | HandsOver (c : Z)
  | Push (c : Z)
  | DestroysQps (c : Z)
  | Close (c : Z)
  | Returns (c : Z)
  | Start
  | Stop
  | Join.

Section Actions.
Context `{M : RecoveryMachine}.

Definition isClosed (p : CommPhase) : bool := match p with Closed => true | _ => false end.

Definition perform (a : Action) (w : World) : option World :=
match a with
| ThreadTurn fuel => ncclIbPortRecoveryAsyncThreadMain fuel w
| Init c => match phases w !! c with None => ncclIbPortRecoveryInit c w | _ => None end
| Reports c d =>
match phases w !! c, countIn (sharedState w) c with
| Some Open, Some nd => if (0 <=? d) && (d <? nd) then reportFailure c d w else None
| _, _ => None
end
| HandsOver c => match phases w !! c with Some (Reporting d) => handleFailure c d w | _ => None end
| Push c => handleFailurePush c w
| DestroysQps c => match phases w !! c with Some Open => Some (setPhase c Closing w) | _ => None end
| Close c => match phases w !! c with Some Closing => Some (ncclIbPortRecoveryClose c w) | _ => None end
| Returns c => closeReturns c w
| Start => ncclIbPortRecoveryThreadStart w
| Stop => if (1 <? ncclIbPortRecoveryRefCount w) || bool_decide (map_Forall (fun _ p => isClosed p = true) (phases w))
then Some (ncclIbPortRecoveryThreadStop w) else None
| Join => if ncclIbPortRecoveryThreadActive w then None else joinThread w
end.

Fixpoint performAll (l : list Action) (w : World) : option World :=
match l with
| [] => Some w
| a :: l' => w' ← perform a w; performAll l' w'
end.

Lemma perform_step a w w' : perform a w = Some w' -> step w w'.
Proof.
destruct a; cbn [perform]; intros E.
- now apply (step_thread fuel).
- destruct (phases w !! c) eqn:Hc; [done|]. now apply step_other, (step_init c).
- destruct (phases w !! c) as [[]|] eqn:Hc; try done. destruct (countIn _ c) as [nd|] eqn:Hn; [|done].
destruct ((0 <=? d) && (d <? nd)) eqn:Hd; [|done]. apply step_other, (step_report c d nd); [done..|lia|done].
- destruct (phases w !! c) as [[]|] eqn:Hc; try done. now apply step_other, (step_failure c d).
- now apply step_other, (step_push c).
- destruct (phases w !! c) as [[]|] eqn:Hc; try done. injection E as <-. now apply step_other, step_closing.
- destruct (phases w !! c) as [[]|] eqn:Hc; try done. injection E as <-. now apply step_other, step_close.
- now apply step_other, (step_closed c).
- now apply step_other, step_start.
- destruct (_ || _) eqn:Hb; [|done]. injection E as <-. apply step_other, step_stop.
apply orb_true_iff in Hb as [Hb|Hb%bool_decide_eq_true]; [left; lia|right].
intros c p Hp. specialize (Hb c p Hp). now destruct p.
- destruct (ncclIbPortRecoveryThreadActive w) eqn:Ha; [done|]. now apply step_other, step_join.
Qed.

Lemma performAll_reachable l w w' : reachable w -> performAll l w = Some w' -> reachable w'.
Proof.
revert w. induction l as [|a l IH]; intros w Hw E; cbn [performAll] in E; [now injection E as <-|].
destruct (perform a w) as [w1|] eqn:Ea; [|done]. apply (IH w1); [|done].
apply (reachable_step w); [done|]. now apply (perform_step a).
Qed.
End Actions.

Module ThreadRuns.

Definition turns (n : nat) : list Action := replicate n (ThreadTurn 40).

(** Two connected senders; device 1 of both fails. *)
Definition two : Shared := mkShared [Demo.sender (Some Demo.res); Demo.sender (Some Demo.res)] [].

Definition go (M : RecoveryMachine) (l : list Action) : World := default (start two) (performAll (M := M) l (start two)).

Definition both : list Action := [Start; Init 0; Init 1; Reports 0 1; Reports 1 1; HandsOver 0; HandsOver 1; Push 1; Push 0].

Example both_queued : map pr_resCtx (recoveryInbox (go silent both)) = [1; 0].
Proof. vm_compute. reflexivity. Qed.

(** The close of communicator 0, up to its wait, after [n] turns of the thread. *)
Definition closing (n : nat) : list Action := both ++ turns n ++ [DestroysQps 0; Close 0].

Example close_completes : phases (go silent (closing 4 ++ turns 6 ++ [Returns 0])) !! 0 = Some Closed.
Proof. vm_compute. reflexivity. Qed.

(** A process with one communicator that is closed before the thread is stopped. *)
Definition lifecycle : list Action :=
[Start; Init 0; Reports 0 1; HandsOver 0; Push 0; ThreadTurn 40; DestroysQps 0; Close 0] ++ turns 6 ++ [Returns 0; Stop; ThreadTurn 40].

(** The queue pairs of communicator 0 are destroyed while its recovery goes on. *)
Definition destroyed : list Action := [Start; Init 0; Reports 0 1; HandsOver 0; Push 0] ++ turns 4 ++ [DestroysQps 0].

(** An error ends the thread before communicator 0 is closed. *)
Definition unlucky : list Action :=
[Start; Init 0; Reports 0 1; HandsOver 0; Push 0] ++ turns 7 ++ [DestroysQps 0; Close 0].

End ThreadRuns.

Import ThreadRuns.

Lemma go_reachable M l w : performAll (M := M) l (start two) = Some w -> reachable (go M l).
Proof. intros E. unfold go. rewrite E. now apply (performAll_reachable l (start two)); [apply reachable_start|]. Qed.

(** A communicator is closed in the wrong order: [ncclIbCloseSend] and
    [ncclIbCloseRecv] destroy the data queue pairs first and then ask the recovery
    thread to let go of them; a recovery that reaches its end in between brings up
    queue pairs that are destroyed. *)
Theorem destroyed_queue_pairs_are_modified :
let w := go RecoveryDemo.quietSender destroyed in
let w' := go RecoveryDemo.quietSender (destroyed ++ turns 4) in
reachable (M := RecoveryDemo.quietSender) w /\ phases w !! 0 = Some Closing /\
reachable (M := RecoveryDemo.quietSender) w' /\ phases w' !! 0 = Some Closing /\
ModifiedQp 0 (NetQp (DataQp 1)) QpReset true ∈ drop (length (rhistory (sharedState w))) (rhistory (sharedState w')).
Proof.
split; [eapply go_reachable; vm_compute; reflexivity|]. split; [vm_compute; reflexivity|].
split; [eapply go_reachable; vm_compute; reflexivity|]. split; [vm_compute; reflexivity|].
apply list_elem_of_In. vm_compute. tauto.
Qed.

Lemma closed_communicators_released_witness :
let w := go silent (closing 4 ++ turns 6 ++ [Returns 0]) in
reachable (M := silent) w /\ phases w !! 0 = Some Closed /\
exists x, x ∈ recoveryInbox w ++ queued w /\ pr_resCtx x <> 0.
Proof.
intros w. assert (reachable (M := silent) w) as Hw by (eapply go_reachable; vm_compute; reflexivity).
assert (phases w !! 0 = Some Closed) as Hc by (vm_compute; reflexivity).
split; [exact Hw|]. split; [exact Hc|].
assert (exists x, x ∈ recoveryInbox w ++ queued w) as [x Hx] by (eexists; vm_compute; left).
exists x. split; [exact Hx|]. exact (closed_communicators_released (M := silent) w 0 x Hw Hc Hx).
Defined.

Lemma stopped_with_nothing_left_witness :
let w := go silent lifecycle in reachable (M := silent) w /\ exists r, pc w = Stopped r /\ r = ncclSuccess.
Proof.
intros w. assert (reachable (M := silent) w) as Hw by (eapply go_reachable; vm_compute; reflexivity).
split; [exact Hw|]. exists ncclSuccess. assert (pc w = Stopped ncclSuccess) as E by (vm_compute; reflexivity).
split; [exact E|]. exact (stopped_with_nothing_left (M := silent) w ncclSuccess Hw E).
Defined.

Lemma close_request_completes_witness :
let w := go silent (closing 4) in
reachable (M := silent) w /\ openRequest w 0 0 /\ turnsLeft w 0 = 4%nat /\
forall n w', run (M := silent) n w w' -> (4 <= n)%nat -> requests w' !! 0%nat = Some (mkCloseRequest 0 true) \/ ended (pc w') = true.
Proof.
intros w. assert (reachable (M := silent) w) as Hw by (eapply go_reachable; vm_compute; reflexivity).
assert (openRequest w 0 0) as Ho by (split; vm_compute; reflexivity).
assert (ended (pc w) = false) as He by (vm_compute; reflexivity).
split; [exact Hw|]. split; [exact Ho|]. assert (turnsLeft w 0 = 4%nat) as Et by (vm_compute; reflexivity).
split; [exact Et|]. intros n w' Hrun Hn.
apply (proj2 (close_request_completes (M := silent) w 0 0 Hw Ho He) n w' Hrun). rewrite Et. exact Hn.
Defined.

Lemma close_hangs_after_error_witness :
let M := RecoveryDemo.machine RecoveryDemo.noIbvQp 600 [RecoveryDemo.sent; RecoveryDemo.ack; RecoveryDemo.sent] in
let w := go M unlucky in
reachable (M := M) w /\ pc w = Errored ncclInternalError /\
forall n w', run (M := M) n w w' -> openRequest w' 0 0 /\ ended (pc w') = true.
Proof.
intros M w. assert (reachable (M := M) w) as Hw by (eapply go_reachable; vm_compute; reflexivity).
assert (openRequest w 0 0) as Ho by (split; vm_compute; reflexivity).
assert (ended (pc w) = true) as He by (vm_compute; reflexivity).
split; [exact Hw|]. split; [vm_compute; reflexivity|]. intros n w' Hrun.
exact (close_hangs_after_error (M := M) w w' 0 0 n Hw Ho He Hrun).
Defined.
