(* ===== verification/ThreadRecovery.v ===== *)
(** * Transport: the recoveries of all communicators

    The recovery thread and the protocol together: in any interleaving of the
    threads, a device is reported as recovered only when the handshake of its own
    recovery took place. *)

From S2P Require Import Prelude NetTypes NetBase NetInv NetDemo Resiliency Recovery RecoverySpec RecoveryOutcome RecoveryThread ThreadSpec ThreadDemo.

Open Scope Z_scope.
Open Scope nccl_scope.

(** ** The effect of one step on the others *)

(** The step was for the device [o]. *)
Record stepped (o : Z * Z) (sh sh' : Shared) : Prop := mkStepped
{ sp_but : sharedBut (fst o) (snd o) sh sh';
  sp_hist : exists es, rhistory sh' = rhistory sh ++ es /\ Forall (polls_only o) es }.

Lemma sharedBut_refl c d sh : sharedBut c d sh sh.
Proof. now split. Qed.

Lemma sharedBut_trans c d sh1 sh2 sh3 : sharedBut c d sh1 sh2 -> sharedBut c d sh2 sh3 -> sharedBut c d sh1 sh3.
Proof. intros [E1 N1 K1 S1] [E2 N2 K2 S2]. split; intros; [rewrite E2|rewrite N2|rewrite K2|rewrite S2 by done]; auto. Qed.

#[export] Instance stepped_preorder o : PreOrder (stepped o).
Proof.
  split.
  - intros sh. split; [apply sharedBut_refl|]. exists []. now rewrite app_nil_r.
  - intros sh1 sh2 sh3 [B1 (es1 & E1 & F1)] [B2 (es2 & E2 & F2)]. split; [now apply (sharedBut_trans _ _ _ sh2)|].
    exists (es1 ++ es2). rewrite E2, E1, app_assoc. split; [done|]. now apply Forall_app.
Qed.

Lemma moved_stepped o sh sh' : moved o sh sh' -> stepped o sh sh'.
Proof. intros [E N K S H]. now split. Qed.

(** What the recovery of device [d] of [c] relies on. *)
Record passes (c d : Z) (sh sh' : Shared) : Prop := mkPasses
{ ps_conn : connIn sh' c = connIn sh c;
  ps_count : countIn sh' c = countIn sh c;
  ps_state : stateIn sh c d = Some ncclIbResiliencyDevStateRecoveryInProgress ->
             stateIn sh' c d = Some ncclIbResiliencyDevStateRecoveryInProgress;
  ps_hist : exists es, rhistory sh' = rhistory sh ++ es /\ Forall (no_poll c d) es }.

Lemma stepped_passes o c d sh sh' : stepped o sh sh' -> (c, d) <> o -> passes c d sh sh'.
Proof.
intros [[E N K S] (es & H & Hes)] Ho. split; [apply K|apply N| |].
- rewrite S; [done|]. now destruct o.
- exists es. split; [done|]. eapply Forall_impl; [exact Hes|]. intros [| | |c' d' wcs|] He; cbn in *; congruence.
Qed.

Lemma passes_ext k c d sh sh' : passes c d sh sh' -> ext k c d sh sh'.
Proof.
intros [K _ _ H]. split; [|done]. intros (n & Hn & <-). unfold connIn in K. rewrite Hn in K.
change (conn <$> Some n) with (Some (conn n)) in K. apply fmap_Some in K as (n' & Hn' & E). now exists n'.
Qed.

Section Recoveries.
Context `{M : RecoveryMachine}.

Lemma own_device_store o st i s : owner (rctx s) = o -> i = snd o ->
let s' := snd (onComm (setDevState i st) s) in owner (rctx s') = o /\ stepped o (shared s) (shared s').
Proof.
intros Ho ->. unfold onComm. assert (pr_resCtx (rctx s) = fst o) as Hc by (now rewrite <- Ho). rewrite Hc.
destruct (zget (comms (shared s)) (fst o)) as [n|] eqn:En; [|now split].
destruct (setDevState_same (snd o) st n) as [Hs _]. destruct (setDevState (snd o) st n) as [r n']. cbn in Hs |- *.
split; [done|]. split; [now apply (sharedBut_comm _ _ _ n)|]. exists []. now rewrite app_nil_r.
Qed.

Lemma progress_stepped fuel x sh :
let s' := snd (ncclIbPortRecoveryContextProgress fuel (mkRecState x sh)) in
owner (rctx s') = owner x /\ stepped (owner x) sh (shared s').
Proof.
set (I := fun s => owner (rctx s) = owner x /\ stepped (owner x) sh (shared s)).
assert (forall A (m : rec A), (forall R h, keeps (framed R (owner x) h) m (fun _ => True)) -> keeps I m (fun _ => True)) as Hframe.
{ intros A m Hm s [Ho Hs]. pose proof (framed_refl s) as Hf. rewrite Ho in Hf. destruct (Hm _ _ s Hf) as [Hf' Hq].
split; [|done]. split; [apply Hf'|]. transitivity (shared s); [done|]. now apply moved_stepped, moved_framed. }
assert (forall st, keeps I (storeDevState st) (fun _ => True)) as Hstore.
{ intros st. unfold storeDevState.
eapply (keeps_bind _ _ _ (fun c => owner c = owner x)).
- intros s Hs. split; [exact Hs|apply Hs].
- intros c Hc. eapply (keeps_bind _ _ _ (fun _ => True)); [apply Hframe; intros R h; apply same_getResCtx|].
intros r _. apply keeps_forN. intros i Hi. destruct (negb (i =? pr_devIndex c)) eqn:E; [now apply keeps_ret|].
intros s [Ho Hs]. destruct (own_device_store (owner x) st i s Ho) as [Ho' Hs']; [rewrite <- Hc; cbn; lia|].
split; [|now destruct (fst _)]. split; [done|]. now transitivity (shared s). }
assert (keeps I (ncclIbPortRecoveryContextProgress fuel) (fun _ => True)) as H.
{ assert (forall st st', keeps I (inState st (storeDevState st')) (fun _ => True)) by (intros st st'; unfold inState; kwalk).
pose proof (Hframe _ _ (fun R h => same_progressInit R (owner x) h)).
pose proof (Hframe _ _ (fun R h => same_progressAlive R (owner x) h fuel)).
pose proof (Hframe _ _ (fun R h => same_progressAck R (owner x) h fuel)).
unfold ncclIbPortRecoveryContextProgress, inState at 1 2. kwalk. }
destruct (H (mkRecState x sh)) as [Hx _]; [now split|exact Hx].
Qed.

(** ** The recoveries in progress *)

Definition live (w : World) : list ncclIbPortRecoveryContext := recoveryInbox w ++ queued w.

(** The device is marked, and the recovery is one that has been run from its start. *)
Definition tracked (sh : Shared) (x : ncclIbPortRecoveryContext) : Prop :=
exists k nd, connIn sh (pr_resCtx x) = Some k /\ countIn sh (pr_resCtx x) = Some nd /\ 0 <= pr_devIndex x < nd /\
stateIn sh (pr_resCtx x) (pr_devIndex x) = Some ncclIbResiliencyDevStateRecoveryInProgress /\
recovering k (pr_resCtx x) (pr_devIndex x) (mkRecState x sh).

Lemma tracked_passes sh sh' x : tracked sh x -> passes (pr_resCtx x) (pr_devIndex x) sh sh' -> tracked sh' x.
Proof.
intros (k & nd & Hk & Hn & Hd & Hst & Hr) Hp. exists k, nd.
split; [now rewrite (ps_conn _ _ _ _ Hp)|]. split; [now rewrite (ps_count _ _ _ _ Hp)|]. split; [done|].
split; [now apply (ps_state _ _ _ _ Hp)|].
apply (recovery_elsewhere k _ _ (mkRecState x sh)); [done|done|]. now apply passes_ext.
Qed.

Record rec_inv (w : World) : Prop := mkRecInv
{ ri_nodup : NoDup (owner <$> live w);
ri_live : forall x, x ∈ live w -> tracked (sharedState w) x;
ri_failing : forall c x, phases w !! c = Some (Failing x) ->
tracked (sharedState w) x /\ owner x ∉ owner <$> live w;
ri_reporting : forall c d, phases w !! c = Some (Reporting d) ->
(c, d) ∉ owner <$> live w /\ stateIn (sharedState w) c d = Some ncclIbResiliencyDevStateRecoveryInProgress /\
exists nd, countIn (sharedState w) c = Some nd /\ 0 <= d < nd }.

(** Contexts may go, and threads may move on. *)
Lemma ri_less w w' : rec_inv w -> sharedState w' = sharedState w -> NoDup (owner <$> live w') ->
(forall x, x ∈ live w' -> x ∈ live w) ->
(forall c x, phases w' !! c = Some (Failing x) -> phases w !! c = Some (Failing x)) ->
(forall c d, phases w' !! c = Some (Reporting d) -> phases w !! c = Some (Reporting d)) -> rec_inv w'.
Proof.
intros [Hnd Hl Hf Hr] E Hnd' Hx Hf' Hr'.
assert (forall o, o ∉ owner <$> live w -> o ∉ owner <$> live w') as Hno.
{ intros o Ho Hi. apply Ho. apply list_elem_of_fmap in Hi as (x & -> & Hi). apply list_elem_of_fmap. eauto. }
split; rewrite ?E; [done|auto| |].
- intros c x Hc. destruct (Hf c x) as [H1 H2]; auto.
- intros c d Hc. destruct (Hr c d) as [H1 H2]; auto.
Qed.

(** The shared state may change in what no recovery relies on. *)
Lemma ri_shared w sh : rec_inv w ->
(forall x, x ∈ live w -> passes (pr_resCtx x) (pr_devIndex x) (sharedState w) sh) ->
(forall c x, phases w !! c = Some (Failing x) -> passes (pr_resCtx x) (pr_devIndex x) (sharedState w) sh) ->
(forall c d, phases w !! c = Some (Reporting d) -> passes c d (sharedState w) sh) ->
rec_inv (w <| sharedState := sh |>).
Proof.
intros [Hnd Hl Hf Hr] Hpl Hpf Hpr. split; cbn.
- exact Hnd.
- intros x Hx. apply (tracked_passes (sharedState w)); [now apply Hl|now apply Hpl].
- intros c x Hc. destruct (Hf c x Hc) as [H1 H2]. split; [|exact H2]. apply (tracked_passes (sharedState w)); [done|eauto].
- intros c d Hc. destruct (Hr c d Hc) as (H1 & H2 & nd & H3 & H4). specialize (Hpr c d Hc). split; [exact H1|].
split; [now apply (ps_state _ _ _ _ Hpr)|]. exists nd. now rewrite (ps_count _ _ _ _ Hpr).
Qed.

Lemma elem_of_owner (x : ncclIbPortRecoveryContext) (l : list ncclIbPortRecoveryContext) : x ∈ l -> owner x ∈ owner <$> l.
Proof. apply list_elem_of_fmap_2. Qed.

(** A step for device [o], on which no other recovery works. *)
Lemma ri_stepped w o sh : rec_inv w -> stepped o (sharedState w) sh -> o ∉ owner <$> live w ->
(forall c x, phases w !! c = Some (Failing x) -> owner x <> o) ->
(forall c d, phases w !! c = Some (Reporting d) -> (c, d) <> o) ->
rec_inv (w <| sharedState := sh |>).
Proof.
intros Hw Hs Hl Hf Hr. apply ri_shared; [done| | |].
- intros x Hx. apply (stepped_passes o); [done|]. intros <-. now apply Hl, elem_of_owner.
- intros c x Hc. apply (stepped_passes o); [done|]. now apply (Hf c).
- intros c d Hc. apply (stepped_passes o); [done|]. now apply (Hr c).
Qed.

(** ** Every step keeps the recoveries apart *)

Context (Hpoll : forall h c d n wcs, poll_recovery_cq h c d n = Some wcs -> (length wcs <= Z.to_nat n)%nat).

Lemma live_owner w x c d : x ∈ live w -> (c, d) ∉ owner <$> live w -> owner x <> (c, d).
Proof. intros Hx Hn E. apply Hn. rewrite <- E. now apply elem_of_owner. Qed.

(** The step of one recovery, the others being apart. *)
Lemma tracked_progress fuel x sh s : tracked sh x ->
ncclIbPortRecoveryContextProgress fuel (mkRecState x sh) = (Done false, s) -> tracked (shared s) (rctx s).
Proof.
intros (k & nd & Hk & Hn & Hd & Hst & Hr) E. destruct (progress_stepped fuel x sh) as [Ho Hs]. rewrite E in Ho, Hs. cbn in Ho, Hs.
pose proof (progress_outcome k _ _ Hpoll fuel _ false s _ nd Hr Hst Hn Hd E) as Hout.
destruct Hs as [[_ N K _] _]. injection Ho as Ec Ed. exists k, nd. rewrite Ec, Ed.
split; [now rewrite K|]. split; [now rewrite N|]. split; [done|]. split.
- destruct (pr_state (rctx s)); now destruct Hout.
- destruct s as [x' sh']. now apply (recovery_stepped k _ _ (mkRecState x sh) fuel).
Qed.

(** A new recovery, of a device no other one is about. *)
Lemma ri_add w w' y : rec_inv w -> sharedState w' = sharedState w -> Permutation (live w') (y :: live w) ->
tracked (sharedState w) y -> owner y ∉ owner <$> live w ->
(forall c x, phases w' !! c = Some (Failing x) -> phases w !! c = Some (Failing x) /\ owner x <> owner y) ->
(forall c d, phases w' !! c = Some (Reporting d) -> phases w !! c = Some (Reporting d) /\ (c, d) <> owner y) ->
rec_inv w'.
Proof.
intros [Hnd Hl Hf Hr] E Hp Hy Hn Hf' Hr'.
assert (forall o, o ∉ owner <$> live w -> o <> owner y -> o ∉ owner <$> live w') as Hno.
{ intros o H1 H2. rewrite Hp. cbn. apply not_elem_of_cons. now split. }
split; rewrite ?E.
- rewrite Hp. cbn. now constructor.
- intros x Hx. rewrite Hp in Hx. apply elem_of_cons in Hx as [->|Hx]; auto.
- intros c x Hc. destruct (Hf' c x Hc) as [Hc' Ho]. destruct (Hf c x Hc'). auto.
- intros c d Hc. destruct (Hr' c d Hc) as [Hc' Ho]. destruct (Hr c d Hc'). auto.
Qed.

Lemma ri_progress fuel w passed x todo r s : rec_inv w -> pc w = AtProgress passed (x :: todo) ->
ncclIbPortRecoveryContextProgress fuel (mkRecState x (sharedState w)) = (r, s) ->
rec_inv (w <| sharedState := shared s |> <| pc :=
match r with
| Done true => AtProgress passed todo
| Done false => AtProgress (passed ++ [rctx s]) todo
| Fail e => Errored e
| Fault => Undefined
end |>).
Proof.
intros Hw Epc E.
assert (Permutation (live w) (x :: recoveryInbox w ++ passed ++ todo)) as Elive.
{ unfold live, queued. rewrite Epc. now rewrite !app_assoc, <- Permutation_middle. }
destruct (progress_stepped fuel x (sharedState w)) as [Ho Hs]. rewrite E in Ho, Hs. cbn in Ho, Hs.
set (w0 := w <| pc := AtProgress passed todo |>).
pose proof (ri_nodup _ Hw) as Hnd. rewrite Elive, fmap_cons in Hnd. apply NoDup_cons in Hnd as [Hx Hnd].
assert (x ∈ live w) as Hxl by (rewrite Elive; left).
assert (rec_inv w0) as Hw0.
{ apply (ri_less w); try done. intros y Hy. rewrite Elive. now right. }
assert (forall c y, phases w !! c = Some (Failing y) -> owner y <> owner x) as Hf.
{ intros c y Hc Ey. destruct (ri_failing _ Hw c y Hc) as [_ Hn]. apply Hn. rewrite Ey. now apply elem_of_owner. }
assert (forall c d, phases w !! c = Some (Reporting d) -> (c, d) <> owner x) as Hr.
{ intros c d Hc Ey. destruct (ri_reporting _ Hw c d Hc) as [Hn _]. apply Hn. rewrite Ey. now apply elem_of_owner. }
assert (rec_inv (w0 <| sharedState := shared s |>)) as Hw1 by (now apply (ri_stepped w0 (owner x))).
destruct r as [[|]|e|]; [exact Hw1| | |].
- apply (ri_add (w0 <| sharedState := shared s |>) _ (rctx s)); cbn; try done.
+ unfold live, queued. cbn. rewrite <- !app_assoc. cbn. now rewrite !app_assoc, <- Permutation_middle.
+ now apply (tracked_progress fuel x (sharedState w)); [apply (ri_live _ Hw)|].
+ now rewrite Ho.
+ intros c y Hc. rewrite Ho. eauto.
+ intros c d Hc. rewrite Ho. eauto.
- apply (ri_less (w0 <| sharedState := shared s |>)); try done; unfold live, queued; cbn; rewrite app_nil_r.
+ rewrite fmap_app in Hnd. now apply NoDup_app in Hnd.
+ set_solver.
- apply (ri_less (w0 <| sharedState := shared s |>)); try done; unfold live, queued; cbn; rewrite app_nil_r.
+ rewrite fmap_app in Hnd. now apply NoDup_app in Hnd.
+ set_solver.
Qed.

Lemma handleCloseRequests_sublist reqs local q :
sublist (ncclIbPortRecoveryHandleCloseRequests reqs local q) q.
Proof.
unfold ncclIbPortRecoveryHandleCloseRequests. revert q. induction local as [|id local IH]; intros q; cbn; [done|].
rewrite IH. destruct (reqs !! id) as [r|]; [|done]. apply sublist_filter.
Qed.

Lemma ri_thread fuel w w' : rec_inv w -> ncclIbPortRecoveryAsyncThreadMain fuel w = Some w' -> rec_inv w'.
Proof.
intros Hw E. unfold ncclIbPortRecoveryAsyncThreadMain in E. pose proof (ri_nodup _ Hw) as Hnd.
destruct (pc w) as [| |local|local| |passed [|x todo]| | |] eqn:Epc; try done.
- destruct (workToDo w); [|done]. injection E as <-. set (w1 := _ <| pc := _ |>).
assert (Permutation (live w1) (live w)) as Hp.
{ unfold live, queued. rewrite Epc. subst w1. cbn. destruct (recoveryCloseRequests w); apply Permutation_app_comm. }
apply (ri_less w); try done; [now rewrite Hp|]. intros x. now rewrite Hp.
- injection E as <-. unfold live, queued in Hnd. rewrite Epc in Hnd.
pose proof (handleCloseRequests_sublist (requests w) local (recoveryQueue w)) as Hs.
apply (ri_less w); try done; unfold live, queued; cbn; rewrite ?Epc.
+ eapply sublist_NoDup; [exact Hnd|]. apply fmap_sublist, sublist_app; [done|exact Hs].
+ intros x [Hx|Hx]%elem_of_app; apply elem_of_app; [now left|right]. exact (elem_of_sublist _ _ _ Hx Hs).
- injection E as <-. apply (ri_less w); try done; unfold live, queued in *; now rewrite Epc in *.
- destruct (ncclIbPortRecoveryThreadActive w); injection E as <-.
+ apply (ri_less w); try done; unfold live, queued in *; now rewrite Epc in *.
+ unfold live, queued in Hnd. rewrite Epc, fmap_app in Hnd. apply NoDup_app in Hnd as [Hnd _].
apply (ri_less w); try done; unfold live, queued; cbn; rewrite app_nil_r; [done|]. set_solver.
- injection E as <-. apply (ri_less w); try done; unfold live, queued in *; cbn; rewrite Epc, ?app_nil_r in *; done.
- destruct (ncclIbPortRecoveryContextProgress _ _) as [r s] eqn:Ep. injection E as <-. now apply (ri_progress fuel w passed x).
Qed.

(** Moves of a communicator's thread that touch neither recoveries nor devices. *)
Lemma ri_phase w w' c p : rec_inv w -> sharedState w' = sharedState w -> recoveryInbox w' = recoveryInbox w ->
queued w' = queued w -> phases w' = <[c := p]> (phases w) ->
match p with Reporting _ | Failing _ => False | _ => True end -> rec_inv w'.
Proof.
intros Hw E Ei Eq Ep Hp.
assert (live w' = live w) as El by (unfold live; now rewrite Ei, Eq).
apply (ri_less w); rewrite ?El; try done; [apply (ri_nodup _ Hw)| |].
- intros c' x. rewrite Ep. intros [[<- ->]|[_ H]]%lookup_insert_Some; done.
- intros c' d. rewrite Ep. intros [[<- ->]|[_ H]]%lookup_insert_Some; done.
Qed.

Lemma ri_same w w' : rec_inv w -> sharedState w' = sharedState w -> live w' = live w -> phases w' = phases w -> rec_inv w'.
Proof. intros Hw E El Ep. apply (ri_less w); rewrite ?El, ?Ep; try done. apply (ri_nodup _ Hw). Qed.

(** Only the threads of communicators that were set up are concerned. *)
Lemma live_phase w x : thread_inv w -> x ∈ live w -> phases w !! pr_resCtx x <> None.
Proof.
intros Hw Hx. destruct (inv_contexts w x _ Hw Hx eq_refl) as [_ Hp]. now destruct (phases w !! pr_resCtx x).
Qed.

Lemma failing_owner w c x : thread_inv w -> phases w !! c = Some (Failing x) -> pr_resCtx x = c.
Proof. intros Hw Hc. now apply (ti_failing _ Hw). Qed.

Lemma ri_init c w w' : rec_inv w -> thread_inv w -> phases w !! c = None -> ncclIbPortRecoveryInit c w = Some w' -> rec_inv w'.
Proof.
intros Hw Ht Hc E. unfold ncclIbPortRecoveryInit in E.
destruct (zget (comms (sharedState w)) c) as [n|] eqn:En; [|done]. cbn in E.
destruct (resiliency (base n)) as [r|] eqn:Er; [|done]. injection E as <-. set (n' := n <| base := _ |>).
set (sh := (sharedState w) <| comms := zupd (comms (sharedState w)) c n' |>).
assert (forall c' d, c' <> c -> passes c' d (sharedState w) sh) as Hpass.
{ intros c' d Hn. assert (zget (zupd (comms (sharedState w)) c n') c' = zget (comms (sharedState w)) c') as Hz
by (apply zget_zupd_ne; congruence).
split; [unfold connIn|unfold countIn|unfold stateIn|]; cbn; rewrite ?Hz; try done. exists []. now rewrite app_nil_r. }
apply (ri_phase (w <| sharedState := sh |>) _ c Open); try done. apply ri_shared; [done| | |].
- intros x Hx. apply Hpass. intros E. now apply (live_phase w x Ht Hx); rewrite E.
- intros c' x Hx. apply Hpass. rewrite (failing_owner w c' x Ht Hx). congruence.
- intros c' d Hd. apply Hpass. congruence.
Qed.

Lemma ri_elsewhere w l : rec_inv w -> thread_inv w -> leavesRecoveryAlone w l ->
rec_inv (w <| sharedState := (sharedState w) <| comms := l |> |>).
Proof.
intros Hw Ht [He Hn Hk Hst].
assert (forall c d, phases w !! c <> None -> passes c d (sharedState w) ((sharedState w) <| comms := l |>)) as Hpass.
{ intros c d Hc. split; [exact (Hk c Hc)|exact (Hn c Hc)|apply (Hst c d Hc)|]. exists []. now rewrite app_nil_r. }
apply ri_shared; [done| | |].
- intros x Hx. now apply Hpass, live_phase.
- intros c x Hx. apply Hpass. rewrite (failing_owner w c x Ht Hx). congruence.
- intros c d Hd. apply Hpass. congruence.
Qed.

Lemma storeState_stepped c d st sh sh' : storeState c d st sh = Some sh' -> stepped (c, d) sh sh'.
Proof.
intros E. apply storeState_keeps in E as (Hb & Hh & _). split; [done|]. exists []. now rewrite Hh, app_nil_r.
Qed.

(** No recovery is in progress for a device that works. *)
Lemma ok_not_live w c d : rec_inv w -> stateIn (sharedState w) c d <> Some ncclIbResiliencyDevStateRecoveryInProgress ->
(c, d) ∉ owner <$> live w.
Proof.
intros Hw Hn Hi. apply list_elem_of_fmap in Hi as (x & E & Hx). destruct (ri_live _ Hw x Hx) as (k & nd & _ & _ & _ & Hst & _).
injection E as -> ->. done.
Qed.

Lemma ri_report c d nd w w' : rec_inv w -> thread_inv w -> phases w !! c = Some Open ->
countIn (sharedState w) c = Some nd -> 0 <= d < nd -> reportFailure c d w = Some w' -> rec_inv w'.
Proof.
intros Hw Ht Hc Hn Hd E. unfold reportFailure in E. destruct (stateIn _ c d) as [st|] eqn:Est; [|done]. cbn [mbind option_bind] in E.
destruct (isOk st) eqn:Eok; [|done]. apply bool_decide_eq_true in Eok as ->. destruct (_ && _); [|done].
destruct (storeState _ _ _ _) as [sh|] eqn:Es; [|done]. injection E as <-.
pose proof (storeState_stepped _ _ _ _ _ Es) as Hs. apply storeState_keeps in Es as ([_ Nb _ _] & _ & Hst).
assert ((c, d) ∉ owner <$> live w) as Hno by (apply ok_not_live; [done|congruence]).
assert (rec_inv (w <| sharedState := sh |>)) as [Hnd Hl Hf Hr].
{ apply (ri_stepped w (c, d)); try done.
- intros c' x Hx E. pose proof (failing_owner w c' x Ht Hx) as Ex. unfold owner in E. congruence.
- intros c' d' Hx E. congruence. }
split; cbn in *; try done.
- intros c' x [[<- ?]|[_ Hx]]%lookup_insert_Some; [done|]. exact (Hf c' x Hx).
- intros c' d' [[<- [= <-]]|[_ Hx]]%lookup_insert_Some; [|now apply Hr].
split; [exact Hno|]. split; [done|]. exists nd. now rewrite Nb.
Qed.

Lemma ri_failure c d w w' : rec_inv w -> thread_inv w -> phases w !! c = Some (Reporting d) ->
handleFailure c d w = Some w' -> rec_inv w'.
Proof.
intros Hw Ht Hc E. unfold handleFailure in E. destruct (handleFailureInit c d w) as [[w1 r]|] eqn:Ei; [|done].
cbn [mbind option_bind] in E. apply handleFailureInit_frame in Ei as [Hm Hr].
destruct (ri_reporting _ Hw c d Hc) as (Hno & Hst & nd & Hn & Hd).
(** The communicator moves on; no recovery of [d] is there yet. *)
assert (forall sh, stepped (c, d) (sharedState w) sh -> rec_inv (setPhase c Open (w <| sharedState := sh |>))) as Hopen.
{ intros sh Hs. set (w0 := setPhase c Open w).
assert (rec_inv w0) as Hw0 by (now apply (ri_phase w w0 c Open)).
apply (ri_stepped w0 (c, d)); try done; cbn.
- intros c' x [[<- ?]|[Hcn Hx]]%lookup_insert_Some E'; [done|].
pose proof (failing_owner w c' x Ht Hx) as Ex. unfold owner in E'. congruence.
- intros c' d' [[<- ?]|[Hcn Hx]]%lookup_insert_Some E'; congruence. }
destruct r as [e|].
- destruct (storeState _ _ _ _) as [sh|] eqn:Es; [|done]. injection E as <-.
assert (w1 <| sharedState := sh |> = w <| sharedState := sh |>) as -> by (now rewrite Hr).
apply Hopen. transitivity (sharedState w1); [now apply moved_stepped|exact (storeState_stepped _ _ _ _ _ Es)].
- injection E as <-. destruct Hr as (_ & _ & x & Ho & Ew & Einit).
destruct (Hopen (sharedState w1)) as [Hnd Hl Hf Hr]; [now apply moved_stepped|]. cbn in *.
injection Ho as Exc Exd.
assert (tracked (sharedState w1) x) as Hx.
{ destruct Hm as [_ N K S _]. unfold tracked. rewrite Exc, Exd, N, K, S.
assert (exists n, zget (comms (sharedState w)) c = Some n) as [n En]
by (unfold countIn in Hn; destruct (zget (comms (sharedState w)) c); [eauto|done]).
exists (conn n), nd. split; [unfold connIn; now rewrite En|]. split; [done|]. split; [done|]. split; [done|].
apply (recovery_started _ _ _ (mkRecState (freshRecoveryContext 0 0 0) (sharedState w))); [now exists n|done]. }
rewrite Ew. split; cbn; try done.
+ intros c' y [[<- [= <-]]|[Hcn Hy]]%lookup_insert_Some.
* split; [done|]. unfold owner. rewrite Exc, Exd. exact Hno.
* apply (Hf c' y). now rewrite lookup_insert_ne.
+ intros c' d' [[<- ?]|[Hcn Hy]]%lookup_insert_Some; [done|]. apply Hr. now rewrite lookup_insert_ne.
Qed.

Lemma ri_push c w w' : rec_inv w -> thread_inv w -> handleFailurePush c w = Some w' -> rec_inv w'.
Proof.
intros Hw Ht E. unfold handleFailurePush in E. destruct (phases w !! c) as [[| |x| | |]|] eqn:Hc; try done. injection E as <-.
destruct (ri_failing _ Hw c x Hc) as [Hx Hn]. pose proof (failing_owner w c x Ht Hc) as Ex.
apply (ri_add w _ x); cbn; try done.
- unfold live. cbn [recoveryInbox setPhase]. change (queued (setPhase _ _ _)) with (queued w).
rewrite <- app_assoc. symmetry. apply Permutation_middle.
- intros c' y [[<- ?]|[Hcn Hy]]%lookup_insert_Some; [done|]. split; [done|].
pose proof (failing_owner w c' y Ht Hy) as Ey. unfold owner. congruence.
- intros c' d [[<- ?]|[Hcn Hy]]%lookup_insert_Some; [done|]. split; [done|]. unfold owner. congruence.
Qed.

Lemma ri_close c w : rec_inv w -> rec_inv (ncclIbPortRecoveryClose c w).
Proof.
intros Hw. unfold ncclIbPortRecoveryClose. destruct (negb _); [now apply (ri_phase w _ c Closed)|].
destruct (negb _); [now apply (ri_phase w _ c Closed)|]. now apply (ri_phase w _ c (WaitingClose (length (requests w)))).
Qed.

Lemma ri_other w w' : rec_inv w -> thread_inv w -> otherStep w w' -> rec_inv w'.
Proof.
intros Hw Ht Hs.
destruct Hs as [c w w' Hn E|w l He|c d nd w w' Hn Hnd Hd E|c d w w' Hn E|c w w' E|c w Hn|c w Hn|c w w' E|w w' E|w Hn|w w' Hn E].
- now apply (ri_init c w).
- now apply ri_elsewhere.
- now apply (ri_report c d nd w).
- now apply (ri_failure c d w).
- now apply (ri_push c w).
- now apply (ri_phase w _ c Closing).
- now apply ri_close.
- unfold closeReturns in E. destruct (phases w !! c) as [[| | | |req|]|]; try done.
destruct (requests w !! req) as [[x b]|]; [|done]. cbn in E. destruct b; [|done]. injection E as <-. now apply (ri_phase w _ c Closed).
- unfold ncclIbPortRecoveryThreadStart in E. destruct (_ =? 0); [now injection E as <-|]. cbn in E.
destruct (ncclIbPortRecoveryThreadActive w); [injection E as <-; now apply (ri_same w)|].
destruct (pc w) eqn:Epc; try done. injection E as <-. apply (ri_same w); try done. unfold live, queued. cbn. now rewrite Epc.
- unfold ncclIbPortRecoveryThreadStop. destruct (_ =? 0); [done|]. cbn. case_match; now apply (ri_same w).
- unfold joinThread in E. destruct (pc w) eqn:Epc; try done; injection E as <-; apply (ri_same w); try done;
unfold live, queued; cbn; now rewrite Epc.
Qed.

Lemma reachable_recoveries w : reachable w -> rec_inv w.
Proof.
induction 1 as [sh|w w' Hw IH Hs].
- split; cbn; try done; [constructor|]. intros x Hx. now apply not_elem_of_nil in Hx.
- apply reachable_inv in Hw. destruct Hs as [fuel w w' E|w w' Hs]; [now apply (ri_thread fuel w)|now apply (ri_other w)].
Qed.

(** C9. In any interleaving of the threads of all communicators, a step of the
recovery thread changes the stored state of a device only from being recovered,
and only to failed, or to recovered after the handshake of the device took place
in the order of the protocol. *)
Theorem thread_recovers_only_after_handshake fuel w w' c d st :
reachable w -> ncclIbPortRecoveryAsyncThreadMain fuel w = Some w' -> stateIn (sharedState w) c d = Some st ->
stateIn (sharedState w') c d = Some st \/
st = ncclIbResiliencyDevStateRecoveryInProgress /\
(stateIn (sharedState w') c d = Some ncclIbResiliencyDevStateRecoveryFailed \/
 stateIn (sharedState w') c d = Some ncclIbResiliencyDevStateRecovered /\
 exists k, connIn (sharedState w) c = Some k /\ handshake k c d (rhistory (sharedState w'))).
Proof.
intros Hw E Hst. apply reachable_recoveries in Hw. unfold ncclIbPortRecoveryAsyncThreadMain in E.
destruct (pc w) as [| |local|local| |passed [|x todo]| | |] eqn:Epc; try done.
- destruct (workToDo w); [|done]. injection E as <-. now left.
- injection E as <-. now left.
- injection E as <-. now left.
- destruct (ncclIbPortRecoveryThreadActive w); injection E as <-; now left.
- injection E as <-. now left.
- assert (x ∈ live w) as Hx by (unfold live, queued; rewrite Epc; set_solver).
pose proof (ri_live _ Hw x Hx) as (k & nd & Hk & Hn & Hd & Hin & Hr).
destruct (progress_stepped fuel x (sharedState w)) as [_ [[_ _ _ Hother] _]].
destruct (ncclIbPortRecoveryContextProgress fuel _) as [r s] eqn:Ep. injection E as <-. cbn in *.
destruct (decide ((c, d) = owner x)) as [[= -> ->]|Ho]; [|left; rewrite Hother; done].
assert (st = ncclIbResiliencyDevStateRecoveryInProgress) as -> by congruence.
destruct r as [b|e|].
+ pose proof (progress_outcome k _ _ Hpoll fuel _ b s _ nd Hr Hin Hn Hd Ep) as Hout.
destruct (pr_state (rctx s)); try (left; now apply Hout); right; (split; [done|]).
* right. destruct Hout as (_ & H1 & H2). split; [done|]. now exists k.
* left. apply Hout.
+ left. exact (progress_stuck k _ _ Hpoll fuel _ _ s _ nd Hr Hin Hn Hd Ep (fun b => ltac:(discriminate))).
+ left. exact (progress_stuck k _ _ Hpoll fuel _ _ s _ nd Hr Hin Hn Hd Ep (fun b => ltac:(discriminate))).
Qed.
End Recoveries.

Import ThreadRuns.

Lemma thread_recovers_only_after_handshake_witness :
let M := RecoveryDemo.quietSender in
let l := [Start; Init 0; Reports 0 1; HandsOver 0; Push 0] ++ turns 6 in
let w := go M l in let w' := go M (l ++ turns 1) in
reachable (M := M) w /\ stateIn (sharedState w') 0 1 = Some ncclIbResiliencyDevStateRecovered /\
exists k, connIn (sharedState w) 0 = Some k /\ handshake (M := M) k 0 1 (rhistory (sharedState w')).
Proof.
intros M l w w'. assert (reachable (M := M) w) as Hw by (eapply go_reachable; vm_compute; reflexivity).
assert (forall h c d n wcs, @poll_recovery_cq M h c d n = Some wcs -> (length wcs <= Z.to_nat n)%nat) as Hpoll.
{ intros h c d n wcs. cbn. intros [= <-]. rewrite length_take. lia. }
assert (ncclIbPortRecoveryAsyncThreadMain (M := M) 40 w = Some w') as E by (vm_compute; reflexivity).
assert (stateIn (sharedState w) 0 1 = Some ncclIbResiliencyDevStateRecoveryInProgress) as Hst by (vm_compute; reflexivity).
assert (stateIn (sharedState w') 0 1 = Some ncclIbResiliencyDevStateRecovered) as Hst' by (vm_compute; reflexivity).
split; [exact Hw|]. split; [exact Hst'|].
destruct (thread_recovers_only_after_handshake (M := M) Hpoll 40 w w' 0 1 _ Hw E Hst) as [H|[_ [H|[_ H]]]];
  [rewrite Hst' in H; discriminate H|rewrite Hst' in H; discriminate H|exact H].
Defined.
