(* ===== verification/NetWf.v ===== *)
(** * Transport: well-formedness

    Every operation of the transport keeps the communicator well formed and only
    appends to the history, whatever the provider answers and however it ends; and
    the receiving operations never end in undefined behaviour. *)

From S2P Require Import Prelude NetTypes NetBase NetDemo NetLemmas NetInv NetInit NetSpec NetSend NetRecv RecvSpec Resiliency NetTest.

Open Scope Z_scope.
Open Scope nccl_scope.

Section Wf.
Context `{M : Machine} (h : list Event).
Notation I := (net_inv h).

(** ** Communicator base *)

Lemma wf_hasResiliency : keeps I hasResiliency (fun _ => True).
Proof. eapply keeps_any, keeps_gets. Qed.

Lemma wf_fatal n : keeps I (ncclIbStatsCheckFatalCount n) (fun _ => True).
Proof. unfold ncclIbStatsCheckFatalCount. kwalk. Qed.

#[local] Hint Resolve wf_hasResiliency wf_fatal : keeps.

Lemma lbWeights_sized b ds ws acc r :
lbWeights_loop b ds ws acc = Some r -> length (fst r) = length ws.
Proof.
revert ws acc. induction ds as [|d ds IH]; intros ws acc E; cbn in E; opt_inv; [done|].
rewrite (IH _ _ E). apply zset_Some in H1 as [_ ->]. apply length_zupd.
Qed.

Lemma devSpeeds_sized s ds ws acc r :
devSpeeds_loop s ds ws acc = Some r -> length (fst r) = length ws.
Proof.
revert ws acc. induction ds as [|d ds IH]; intros ws acc E; cbn in E; opt_inv; [done|].
rewrite (IH _ _ E). apply zset_Some in H0 as [_ ->]. apply length_zupd.
Qed.

Lemma wf_computeLbWeights : keeps I ncclIbComputeLbWeights (fun _ => True).
Proof.
unfold ncclIbComputeLbWeights. kstep. do 2 kstep. pose proof (lbWeights_sized _ _ _ _ _ Hv0) as Hl. cbn in Hl.
assert (sized NCCL_IB_MAX_DEVS_PER_NIC l) by (unfold sized; rewrite Hl; by (destruct Hv as [[Hb _] _]; wf_split)).
kwalk.
Qed.

Lemma wf_computeDevSpeeds : keeps I ncclIbComputeDevSpeeds (fun _ => True).
Proof.
unfold ncclIbComputeDevSpeeds. kstep. do 2 kstep. pose proof (devSpeeds_sized _ _ _ _ _ Hv0) as Hl. cbn in Hl.
assert (sized NCCL_IB_MAX_DEVS_PER_NIC l) by (unfold sized; rewrite Hl; by (destruct Hv as [[Hb _] _]; wf_split)).
kwalk.
Qed.

Lemma wf_nqpsPerRequest : keeps I ncclIbCommBaseGetNqpsPerRequest (fun _ => True).
Proof. unfold ncclIbCommBaseGetNqpsPerRequest. kwalk. Qed.

#[local] Hint Resolve wf_computeLbWeights wf_computeDevSpeeds wf_nqpsPerRequest : keeps.

Lemma wf_getQpByIndex d k : keeps I (ncclIbCommBaseGetQpByIndex d k) (fun _ => True).
Proof. unfold ncclIbCommBaseGetQpByIndex. kwalk. Qed.

Lemma wf_getQpForRequest id k : keeps I (ncclIbCommBaseGetQpForRequest id k) (fun _ => True).
Proof. unfold ncclIbCommBaseGetQpForRequest. kwalk. Qed.

Lemma wf_getQpByQpNum d n : keeps I (ncclIbCommBaseGetQpByQpNum d n) (fun _ => True).
Proof. unfold ncclIbCommBaseGetQpByQpNum. kwalk. Qed.

#[local] Hint Resolve wf_getQpByIndex wf_getQpForRequest wf_getQpByQpNum : keeps.

Lemma wf_getQpForCts id : keeps I (ncclIbRecvCommGetQpForCts id) (fun _ => True).
Proof. unfold ncclIbRecvCommGetQpForCts. kwalk. Qed.

Lemma wf_retrieveAsIndex i : keeps I (ncclIbRequestRetrieveAsIndex i) (fun _ => True).
Proof. unfold ncclIbRequestRetrieveAsIndex. kwalk. Qed.

Lemma wf_checkSpeedChanges : keeps I ncclIbCheckSpeedChanges (fun _ => True).
Proof. 
unfold ncclIbCheckSpeedChanges. kwalk. destruct Hv5 as (s5 & [[Hb5 _] _] & E5). injection E5 as <-.
wf_split. eauto with wf.
Qed.

Lemma wf_getRequest : keeps I ncclIbGetRequest (fun i => 0 <= i < NET_IB_MAX_REQUESTS).
Proof.
unfold ncclIbGetRequest. kstep. destruct (firstUnused _ _) as [i|] eqn:E; [|kwalk].
pose proof (firstUnused_spec (reqs (base v)) 0) as Hf. rewrite E in Hf.
destruct Hf as (_ & q & Eq & _). rewrite Z.sub_0_r in Eq.
destruct Hv as [[(_ & Hl & _) _] _]. pose proof (sized_zget _ _ _ _ Hl Eq). kwalk.
Qed.

Lemma wf_freeRequest i : keeps I (ncclIbFreeRequest i) (fun _ => True).
Proof. unfold ncclIbFreeRequest. kwalk. Qed.

Lemma wf_addEvent i d : keeps I (ncclIbAddEvent i d) (fun _ => True).
Proof. unfold ncclIbAddEvent, addEvent. kwalk. Qed.

#[local] Hint Resolve wf_getQpForCts wf_retrieveAsIndex wf_checkSpeedChanges wf_getRequest
wf_freeRequest wf_addEvent : keeps.

(** ** Sending *)

Lemma wf_chunkWr slots lb qpd qp o r d : keeps I (chunkWr slots lb qpd qp o r d) (fun _ => True).
Proof. unfold chunkWr. kwalk. Qed.
#[local] Hint Resolve wf_chunkWr : keeps.

Lemma wf_chunkWrs slots lb qpd qp o r ds : keeps I (chunkWrs slots lb qpd qp o r ds) (fun _ => True).
Proof. revert r. induction ds as [|d ds IH]; intros r; cbn [chunkWrs]; kwalk. Qed.

Lemma wf_advance k d : keeps I (advance k d) (fun _ => True).
Proof. unfold advance. kwalk. Qed.

Lemma wf_sizesWr c slot n d last : keeps I (sizesWr c slot n d last) (fun _ => True).
Proof. unfold sizesWr. kwalk. Qed.
#[local] Hint Resolve wf_chunkWrs wf_advance wf_sizesWr : keeps.

Lemma wf_lastOnQp c slot n d last : keeps I (lastOnQp c slot n d last) (fun _ => True).
Proof. unfold lastOnQp. kwalk. Qed.
#[local] Hint Resolve wf_lastOnQp : keeps.

Lemma wf_sendOnQp slot n slots lb qpd r0 last q ds :
keeps I (sendOnQp slot n slots lb qpd r0 last q ds) (fun _ => True).
Proof. unfold sendOnQp. kwalk. Qed.
#[local] Hint Resolve wf_sendOnQp : keeps.

Lemma wf_sendOnQps slot n slots lb qpd r0 last qs ds :
keeps I (sendOnQps slot n slots lb qpd r0 last qs ds) (fun _ => True).
Proof. revert ds. induction qs as [|q qs IH]; intros ds; cbn [sendOnQps]; kwalk. Qed.

Lemma wf_countQps qs acc : keeps I (countQps qs acc) (fun _ => True).
Proof. revert acc. induction qs as [|[q k] qs IH]; intros acc; cbn [countQps]; kwalk. Qed.
#[local] Hint Resolve wf_sendOnQps wf_countQps : keeps.

Lemma wf_multiSend slot : keeps I (ncclIbMultiSend slot) (fun _ => True).
Proof.
unfold ncclIbMultiSend. kwalk.
Qed.
#[local] Hint Resolve wf_multiSend : keeps.

Lemma wf_isendTry slot n size tag data mh r slots :
keeps I (isendTry slot n size tag data mh r slots) (fun _ => True).
Proof.
unfold isendTry. kwalk.
- apply length_mapM_opt in Hv10. rewrite length_zrange in Hv10.
apply sized_prefix; [done|lia|done].
Qed.
#[local] Hint Resolve wf_isendTry : keeps.

Lemma wf_isendMatch slot n size tag data mh slots rs :
keeps I (isendMatch slot n size tag data mh slots rs) (fun _ => True).
Proof. induction rs as [|r rs IH]; cbn [isendMatch]; kwalk. Qed.
#[local] Hint Resolve wf_isendMatch : keeps.

Lemma wf_isend data size tag mh : keeps I (ncclIbIsend data size tag mh) (fun _ => True).
Proof. unfold ncclIbIsend. kwalk. Qed.

(** ** Receiving *)

Lemma wf_postFifo i slot : keeps I (ncclIbPostFifo i slot) (fun _ => True).
Proof. unfold ncclIbPostFifo. kwalk. Qed.
#[local] Hint Resolve wf_postFifo : keeps.

Lemma ctsEntry_wf n head nd b old e :
nd <= NCCL_IB_MAX_DEVS_PER_NIC -> cts_wf old -> ctsEntry n head nd b old = Some e -> cts_wf e.
Proof.
intros Hn Ho E. unfold ctsEntry in E. opt_inv. apply length_mapM_opt in H. rewrite length_zrange in H.
apply sized_prefix; [done| |done]. unfold NCCL_IB_MAX_DEVS_PER_NIC in *. lia.
Qed.

Lemma fillCts_wf n head nd i bufs row row' :
nd <= NCCL_IB_MAX_DEVS_PER_NIC -> fillCts n head nd i bufs row = Some row' ->
sized NCCL_NET_IB_MAX_RECVS row /\ Forall cts_wf row ->
sized NCCL_NET_IB_MAX_RECVS row' /\ Forall cts_wf row'.
Proof.
intros Hn. revert i row. induction bufs as [|b bufs IH]; intros i row E [Hs Hf]; cbn in E; opt_inv; [done|].
apply (IH _ _ E). split; [by eapply sized_zset|]. eapply Forall_zset; [done..|].
eapply ctsEntry_wf; [done| |done]. by eapply Forall_zget.
Qed.

Lemma slot_range k : 0 <= k mod NET_IB_MAX_REQUESTS < NET_IB_MAX_REQUESTS.
Proof. by apply Z.mod_pos_bound. Qed.

Lemma wf_irecv bufs : keeps I (ncclIbIrecv bufs) (fun _ => True).
Proof.
unfold ncclIbIrecv. kwalk.
- apply sized_if; [|done]. apply sized_prefix; [done| |]; rewrite length_replicate; lia.
- apply slot_range.
- eapply Forall_zset; [done..|]. eapply fillCts_wf; [|done|].
+ lia.
+ eapply (Forall_zget (fun row => sized NCCL_NET_IB_MAX_RECVS row /\ Forall cts_wf row)); eassumption.
- eapply Forall_zset; [done..|]. split; [|apply sized_replicate].
apply sized_prefix; [by eapply (Forall_zget record_wf)|..]; unfold zeros; rewrite length_replicate; lia.
Qed.

Lemma wf_createFlushQp : keeps I ncclIbCreateFlushQp (fun _ => True).
Proof.
unfold ncclIbCreateFlushQp. do 2 kstep; [by apply keeps_ret|]. kstep. kstep.
- kstep. by apply (keeps_ask_tt h (CreatedFlushQp i) (fun h => createFlushQp_ok env h i)).
- kwalk.
Qed.
#[local] Hint Resolve wf_createFlushQp : keeps.

Lemma wf_iflush data sizes mhs : keeps I (ncclIbIflush data sizes mhs) (fun _ => True).
Proof. unfold ncclIbIflush. kwalk. Qed.

(** ** Port failover *)

Lemma wf_getDevState d : keeps I (getDevState d) (fun _ => True).
Proof. unfold getDevState. kwalk. Qed.

Lemma wf_modResDev d f : keeps I (modResDev d f) (fun _ => True).
Proof. unfold modResDev. kwalk. Qed.
#[local] Hint Resolve wf_modResDev : keeps.

Lemma wf_setDevState d st : keeps I (setDevState d st) (fun _ => True).
Proof. unfold setDevState. kwalk. Qed.

Lemma wf_getFailed i : keeps I (getFailed i) (fun fr => ptr_ok NET_IB_MAX_REQUESTS (fr_request fr)).
Proof.
unfold getFailed. kstep. eapply keeps_weaken; [apply keeps_of_option|]. intros fr E. cbv beta in E. wf_split.
by eapply (Forall_zget (fun fr => ptr_ok NET_IB_MAX_REQUESTS (fr_request fr))).
Qed.

Lemma wf_modFailed i f :
(forall fr, ptr_ok NET_IB_MAX_REQUESTS (fr_request fr) -> ptr_ok NET_IB_MAX_REQUESTS (fr_request (f fr))) ->
keeps I (modFailed i f) (fun _ => True).
Proof.
intros Hf. unfold modFailed. kwalk. eapply Forall_zset; [done..|]. apply Hf.
by eapply (Forall_zget (fun fr => ptr_ok NET_IB_MAX_REQUESTS (fr_request fr))).
Qed.
#[local] Hint Resolve wf_getDevState wf_setDevState wf_getFailed : keeps.

Lemma wf_checkNotFatal wc d : keeps I (ncclIbResiliencyCheckErrorNotFatal wc d) (fun _ => True).
Proof. unfold ncclIbResiliencyCheckErrorNotFatal. kwalk. Qed.

Lemma wf_replaceSearch fuel k o :
keeps I (replaceSearch fuel k o) (fun r => from_option (fun q => 0 <= q < NCCL_IB_MAX_QPS) True r).
Proof.
revert o. induction fuel as [|fuel IH]; intros o; cbn [replaceSearch]; kwalk.
eapply sized_zget; [|eassumption]. done.
Qed.
#[local] Hint Resolve wf_checkNotFatal wf_replaceSearch : keeps.

Lemma wf_replaceQp d k : keeps I (replaceQp d k) (fun _ => True).
Proof.
unfold replaceQp. kwalk.
- eapply Forall_zset; [done..|]. by eexists.
Qed.
#[local] Hint Resolve wf_replaceQp : keeps.

Lemma wf_replaceQps d : keeps I (ncclIbResiliencyReplaceQps d) (fun _ => True).
Proof. unfold ncclIbResiliencyReplaceQps. kwalk. Qed.

Lemma wf_restore d : keeps I (ncclIbResiliencyActiveQpsRestore d) (fun _ => True).
Proof.
unfold ncclIbResiliencyActiveQpsRestore. kwalk.
- eapply Forall_zset; [done..|]. eexists. split; [done|]. eapply sized_zget; [|eassumption]. done.
Qed.
#[local] Hint Resolve wf_replaceQps wf_restore : keeps.

Lemma wf_requestInit i d : keeps I (ncclIbResiliencySendRequestInit i d) (fun _ => True).
Proof.
unfold ncclIbResiliencySendRequestInit. kwalk; apply wf_modFailed; cbn; try done; tauto.
Qed.

Lemma wf_requestFree i : keeps I (ncclIbResiliencySendRequestFree i) (fun _ => True).
Proof. unfold ncclIbResiliencySendRequestFree. kwalk; apply wf_modFailed; cbn; try done; tauto. Qed.

Lemma wf_repostEvents slot i : keeps I (repostEvents slot i) (fun _ => True).
Proof. unfold repostEvents. kwalk. Qed.
#[local] Hint Resolve wf_requestInit wf_requestFree wf_repostEvents : keeps.

Lemma wf_repostRequest i : keeps I (ncclIbResiliencyRepostRequest i) (fun _ => True).
Proof. unfold ncclIbResiliencyRepostRequest. kwalk. Qed.
#[local] Hint Resolve wf_repostRequest : keeps.

Lemma wf_errorReceiver wc d : keeps I (ncclIbResiliencyHandleCompletionErrorReceiver wc d) (fun _ => True).
Proof. unfold ncclIbResiliencyHandleCompletionErrorReceiver. kwalk. Qed.

Lemma wf_errorSender wc d : keeps I (ncclIbResiliencyHandleCompletionErrorSender wc d) (fun _ => True).
Proof. unfold ncclIbResiliencyHandleCompletionErrorSender. kwalk. Qed.

Lemma wf_portRecovery d : keeps I (ncclIbPortRecoveryHandleFailure d) (fun _ => True).
Proof.
unfold ncclIbPortRecoveryHandleFailure. do 2 kstep; [kwalk|]. do 2 kstep; [kwalk|].
apply (keeps_ask h (StartedRecovery d) (fun h => recoveryContextInit_ok env h d)); [done|kwalk].
Qed.
#[local] Hint Resolve wf_errorReceiver wf_errorSender wf_portRecovery : keeps.

Lemma wf_deviceFailure d : keeps I (ncclIbResiliencyHandleDeviceFailure d) (fun _ => True).
Proof. unfold ncclIbResiliencyHandleDeviceFailure. kwalk. Qed.
#[local] Hint Resolve wf_deviceFailure : keeps.

Lemma wf_completionError wc d : keeps I (ncclIbResiliencyHandleCompletionError wc d) (fun _ => True).
Proof. unfold ncclIbResiliencyHandleCompletionError. kwalk. Qed.

Lemma wf_probeCompleted i : keeps I (ncclIbResiliencyHandleProbeCompleted i) (fun _ => True).
Proof. unfold ncclIbResiliencyHandleProbeCompleted. kwalk. Qed.

Lemma wf_probePost i : keeps I (ncclIbResiliencyProbePost i) (fun _ => True).
Proof. unfold ncclIbResiliencyProbePost. kwalk; apply wf_modFailed; cbn; try done; tauto. Qed.

Lemma wf_probeEvent wc d : keeps I (ncclIbResiliencyProbeHandleCompletionEvent wc d) (fun _ => True).
Proof. unfold ncclIbResiliencyProbeHandleCompletionEvent. kwalk; apply wf_modFailed; cbn; try done; tauto. Qed.
#[local] Hint Resolve wf_completionError wf_probeCompleted wf_probePost wf_probeEvent : keeps.

Lemma wf_probeDrain fuel d : keeps I (probeDrain fuel d) (fun _ => True).
Proof. induction fuel as [|fuel IH]; cbn [probeDrain]; kwalk. Qed.
#[local] Hint Resolve wf_probeDrain : keeps.

Lemma wf_probeProgress : keeps I ncclIbResiliencyProbeProgress (fun _ => True).
Proof. unfold ncclIbResiliencyProbeProgress. kwalk. Qed.

Lemma wf_progressRequest i : keeps I (progressRequest i) (fun _ => True).
Proof. unfold progressRequest. kwalk. Qed.

Lemma wf_progressRecovery d : keeps I (progressRecovery d) (fun _ => True).
Proof. unfold progressRecovery. kwalk. Qed.
#[local] Hint Resolve wf_probeProgress wf_progressRequest wf_progressRecovery : keeps.

Lemma wf_progress : keeps I ncclIbResiliencyProgress (fun _ => True).
Proof. unfold ncclIbResiliencyProgress. kwalk. Qed.

Lemma wf_resRequestIsComplete i : keeps I (ncclIbResiliencyRequestIsComplete i) (fun _ => True).
Proof. unfold ncclIbResiliencyRequestIsComplete. kwalk. Qed.
#[local] Hint Resolve wf_progress wf_resRequestIsComplete : keeps.

(** ** Completions *)

Lemma wf_retrieve wc : keeps I (ncclIbRequestRetrieveFromCompletion wc) (fun _ => True).
Proof. unfold ncclIbRequestRetrieveFromCompletion. kwalk. Qed.

Lemma wf_isComplete i : keeps I (ncclIbRequestIsComplete i) (fun _ => True).
Proof. unfold ncclIbRequestIsComplete. kwalk. Qed.

Lemma wf_requestComplete i w : keeps I (ncclIbRequestComplete i w) (fun _ => True).
Proof.
unfold ncclIbRequestComplete. kwalk.
- eapply Forall_zset; [done..|]. split; [done|]. by apply Forall_replicate.
Qed.

Lemma wf_postSpeedUpdate : keeps I ncclIbPostSpeedUpdateToRemote (fun _ => True).
Proof. 
unfold ncclIbPostSpeedUpdateToRemote. kwalk.
all: apply length_mapM_opt in Hv1; rewrite length_zrange in Hv1.
all: destruct Hv0 as [[(? & _) _] _]; apply sized_prefix; [done|lia|done].
Qed.

Lemma wf_clearPosted : keeps I clearPostedSpeedUpdate (fun _ => True).
Proof. unfold clearPostedSpeedUpdate. kwalk. Qed.
#[local] Hint Resolve wf_retrieve wf_isComplete wf_requestComplete wf_postSpeedUpdate wf_clearPosted : keeps.

Lemma wf_decEvent i d : keeps I (modReq i (decEvent d)) (fun _ => True).
Proof. unfold decEvent. kwalk. Qed.
#[local] Hint Resolve wf_decEvent : keeps.

Lemma wf_processSend i d : keeps I (processSend i d) (fun _ => True).
Proof. unfold processSend, decEvent. kwalk. Qed.

Lemma wf_processRecvImm wc i d : keeps I (processRecvImm wc i d) (fun _ => True).
Proof.
unfold processRecvImm, decEvent. kwalk.
- eapply Forall_zset; [done..|]. destruct (Forall_zget record_wf _ _ _ H25 Hv4).
split; [by eapply sized_zset|done].
- eapply Forall_zset; [done..|]. match goal with E : zget (cmplsRecords ?c) _ = Some _, F : Forall record_wf (cmplsRecords ?c) |- _ =>
destruct (Forall_zget record_wf _ _ _ F E) end.
split; [done|by eapply sized_zset].
Qed.
#[local] Hint Resolve wf_processSend wf_processRecvImm : keeps.

Lemma wf_eventProcess wc d : keeps I (ncclIbCompletionEventProcess wc d) (fun _ => True).
Proof. unfold ncclIbCompletionEventProcess, decEvent. kwalk. Qed.
#[local] Hint Resolve wf_eventProcess : keeps.

Lemma wf_testCompletion d wc : keeps I (testCompletion d wc) (fun _ => True).
Proof. unfold testCompletion. kwalk. Qed.
#[local] Hint Resolve wf_testCompletion : keeps.

Lemma wf_pollDev i d : keeps I (pollDev i d) (fun _ => True).
Proof. unfold pollDev. kwalk. Qed.
#[local] Hint Resolve wf_pollDev : keeps.

Lemma wf_pollDevs i ds total : keeps I (pollDevs i ds total) (fun _ => True).
Proof. revert total. induction ds as [|d ds IH]; intros total; cbn [pollDevs]; kwalk. Qed.
#[local] Hint Resolve wf_pollDevs : keeps.

Lemma wf_testLoop fuel i w : keeps I (testLoop fuel i w) (fun _ => True).
Proof. induction fuel as [|fuel IH]; cbn [testLoop]; kwalk. Qed.
#[local] Hint Resolve wf_testLoop : keeps.

Lemma wf_test fuel i w : keeps I (ncclIbTest fuel i w) (fun _ => True).
Proof. unfold ncclIbTest. kwalk. Qed.

(** ** Initialisation *)

Lemma active_initial : Forall active_ok (map Some (zrange NCCL_IB_MAX_QPS)).
Proof.
apply Forall_forall. intros p Hp%list_elem_of_In%in_map_iff. destruct Hp as (q & <- & Hq%In_zrange). by exists q.
Qed.

Lemma wf_baseCommInit ip r send :
from_option res_wf True r -> keeps I (ncclIbBaseCommInit ip r send) (fun _ => True).
Proof.
intros Hr. unfold ncclIbBaseCommInit, ncclIbResiliencyInit.
eapply keeps_bind; [apply keeps_modBase|intros _ _].
- intros b Hb. wf_split. unfold base_wf.
repeat (first [assumption|match goal with |- _ /\ _ => split end]); try done.
+ etrans; [exact (length_map _ (qps b))|done].
+ apply active_initial.
- eapply (keeps_bind _ _ _ (fun r => from_option res_wf True r)).
+ kwalk.
+ intros r' Hr'. kwalk.
Qed.

Lemma wf_recvCommInit ip r : from_option res_wf True r -> keeps I (ncclIbRecvCommInit ip r) (fun _ => True).
Proof.
intros Hr. unfold ncclIbRecvCommInit. eapply keeps_bind; [by apply wf_baseCommInit|]. intros _ _. kwalk.
Qed.

End Wf.

(** ** The interface *)

(** What a client can ask of a communicator. *)
Inductive NetCall : Type :=
  | SendCommInit (ip : InitParams) (r : option ncclIbResiliency)
  | RecvCommInit (ip : InitParams) (r : option ncclIbResiliency)
  | Isend (data size tag : Z) (mh : ncclIbMrHandle)
  | Irecv (bufs : list RecvBuf)
  | Iflush (data sizes : list Z) (mhs : list ncclIbMrHandle)
  | TestRequest (fuel : nat) (req : Z) (wantSizes : bool).

(** The state a call leaves, however it ends. *)
Definition afterCall `{M : Machine} (s : Net) (c : NetCall) : Net :=
  match c with
  | SendCommInit ip r => snd (ncclIbSendCommInit ip r s)
  | RecvCommInit ip r => snd (ncclIbRecvCommInit ip r s)
  | Isend data size tag mh => snd (ncclIbIsend data size tag mh s)
  | Irecv bufs => snd (ncclIbIrecv bufs s)
  | Iflush data sizes mhs => snd (ncclIbIflush data sizes mhs s)
  | TestRequest fuel req w => snd (ncclIbTest fuel req w s)
  end.

(** The resiliency context handed to an initialisation has its C shape. *)
Definition call_ok (c : NetCall) : Prop :=
  match c with SendCommInit _ r | RecvCommInit _ r => from_option res_wf True r | _ => True end.

Lemma afterCall_inv `{M : Machine} h s c : call_ok c -> net_inv h s -> net_inv h (afterCall s c).
Proof.
  intros Hc Hs. destruct c; cbn [afterCall call_ok] in *;
    refine (keeps_state _ _ (fun _ => True) s _ Hs).
  - exact (wf_baseCommInit h ip r true Hc).
  - exact (wf_recvCommInit h ip r Hc).
  - exact (wf_isend h data size tag mh).
  - exact (wf_irecv h bufs).
  - exact (wf_iflush h data sizes mhs).
  - exact (wf_test h fuel req wantSizes).
Qed.

(** Type safety of the state, whatever the outcome of each call: starting from a
    well-formed communicator, any sequence of calls of the transport interface (initialisation,
    send, receive, flush, test with everything it triggers: completions, failover,
    probing, replay, speed updates), with any provider, parameters and arguments and
    however each call ends, leaves every array at its C length, every stored request,
    record and queue-pair pointer within the array it points to, no NULL among the
    active queue pairs and the sequence number a 64-bit value; the history only grows,
    by a legal exchange with the provider. *)
Theorem calls_keep_wf `{M : Machine} calls s :
  net_wf s -> Forall call_ok calls ->
  let s' := fold_left afterCall calls s in
  net_wf s' /\ extends (history s) (history s').
Proof.
  intros Hs Hc. cut (net_inv (history s) (fold_left afterCall calls s)); [done|].
  assert (net_inv (history s) s) as Hi by (split; [done|apply extends_refl]).
  generalize dependent s. intros s _. generalize (history s). intros h Hi. revert s Hi.
  induction Hc as [|c calls Hc Hcs IH]; intros s Hi; [done|]. by apply IH, afterCall_inv.
Qed.

(** ** A receiver stays inside its arrays

    [calls_keep_wf] lets a call end in [Fault].  Here every access of the receiving
    calls is shown to be inside its array. *)

(** What the queue-pair arithmetic of a communicator reads. *)
Definition links (b : ncclIbNetCommBase) :=
  (ndevs b, nqps b, nDataQps b, splitDataOnQps b, activeQps b, qps b).

Lemma links_ready b b' : links b = links b' -> qps_ready b' -> qps_ready b.
Proof. intros [= E1 E2 E3 E4 E5 E6] []. constructor; by rewrite ?E1, ?E2, ?E3, ?E4, ?E5, ?E6. Qed.

Lemma links_nqpsPerRequest b b' : links b = links b' -> nqpsPerRequest b = nqpsPerRequest b'.
Proof. unfold nqpsPerRequest. by intros [= _ -> -> -> _ _]. Qed.

(** A receiver that is set up: well formed, its queue pairs and devices connected. *)
Definition receiver_wf (s : Net) : Prop :=
  net_wf s /\ (exists c, tail s = RecvTail c) /\ cts_links s.

Section Receiver.
Context `{M : Machine} (h : list Event) (b0 : ncclIbNetCommBase) (nDev : Z).
Context (Q0 : qps_ready b0) (Hnq : ndevs b0 <= nqps b0) (Hnd : ndevs b0 <= nDev).

(** The invariant: a receiver over the queue pairs of [b0]. *)
Definition recvInv (s : Net) : Prop :=
net_inv h s /\ (exists c, tail s = RecvTail c) /\ links (base s) = links b0 /\ Z.of_nat (length (devs s)) = nDev.
Notation J := recvInv.

Lemma recvInv_links s : J s -> cts_links s.
Proof.
intros (((Hb & _) & _) & _ & El & Ed). pose proof (links_ready _ _ El Q0).
destruct Hb as (_ & _ & _ & _ & _ & _ & Hr & _). injection El as E1 E2 _ _ _ _. by constructor; [|lia| |lia].
Qed.

(** *** Leaves *)

(** A provider call: noted when the provider accepts it. *)
Lemma safe_ask e (ok : list Event -> bool) r :
(forall h, ok h = true -> legal h e) ->
safe J (let* s := getS in if ok (history s) then log e else fail r) (fun _ => True).
Proof.
intros Hok s Hs. rewrite bind_getS. destruct (ok (history s)) eqn:E; [|done].
split; [|done]. destruct Hs as [Hi Hs]. split; [|done]. apply inv_log; [done|by apply Hok].
Qed.

Lemma safe_post_send q wrs : safe J (wrap_post_send q wrs) (fun _ => True).
Proof. by apply (safe_ask (Posted q wrs) (fun h => mrc_post_send env h q wrs)). Qed.

Lemma safe_post_recv q id : safe J (wrap_post_recv q id) (fun _ => True).
Proof. by apply (safe_ask (PostedRecv q id) (fun h => mrc_post_recv env h q id)). Qed.

Lemma safe_base : safe J (gets base) (fun b => base_wf b /\ links b = links b0).
Proof. apply safe_gets. by intros s (((? & _) & _) & _ & ? & _). Qed.

Lemma safe_hasResiliency : safe J hasResiliency (fun _ => True).
Proof. by apply safe_gets. Qed.

Lemma safe_fatal n : safe J (ncclIbStatsCheckFatalCount n) (fun _ => True).
Proof. unfold ncclIbStatsCheckFatalCount. destruct (_ && _); [apply safe_fail|by apply safe_ret]. Qed.

Lemma safe_modBase f :
(forall b, base_wf b -> base_wf (f b) /\ links (f b) = links b) -> safe J (modBase f) (fun _ => True).
Proof.
intros H. apply safe_modify. intros s (((Hb & Ht) & Hh) & Ht' & El & Ed). destruct (H _ Hb) as [Hb' El'].
split; [by split|]. split; [done|]. split; [|done]. cbn. by rewrite El'.
Qed.

Lemma safe_readAt {A} (f : Net -> list A) i (Q : A -> Prop) :
(forall s, J s -> exists a, zget (f s) i = Some a /\ Q a) -> safe J (readAt f i) Q.
Proof. intros H. eapply safe_bind; [apply safe_getS|]. intros s Hs. by apply safe_of_option, H. Qed.

Lemma safe_getReq i : 0 <= i < NET_IB_MAX_REQUESTS -> safe J (getReq i) request_wf.
Proof.
intros Hi. apply safe_readAt. intros s (((Hb & _) & _) & _). destruct Hb as (_ & Hl & Hr & _).
destruct (zget_is_Some (reqs (base s)) i) as [q E]; [rewrite Hl; lia|]. exists q. split; [done|]. by eapply Forall_zget.
Qed.

Lemma safe_modReq i f :
0 <= i < NET_IB_MAX_REQUESTS -> (forall q, request_wf q -> exists q', f q = Some q' /\ request_wf q') ->
safe J (modReq i f) (fun _ => True).
Proof.
intros Hi Hf. eapply safe_bind; [by apply safe_getReq|]. intros q Hq.
eapply safe_bind; [by apply (safe_of_option _ _ request_wf), Hf|]. intros q' Hq'.
eapply safe_bind; [apply safe_getS|]. intros s (((Hb & _) & _) & _). destruct Hb as (_ & Hl & Hr & _).
eapply (safe_bind _ _ _ (fun l => sized NET_IB_MAX_REQUESTS l /\ Forall request_wf l)).
- apply safe_of_option. rewrite zset_is_Some by (rewrite Hl; lia). eexists. split; [done|].
split; [by apply sized_zupd|by apply Forall_zupd].
- intros l [Hl' Hr']. apply safe_modBase. intros b (? & _ & _ & Hb). done.
Qed.

Lemma safe_getRecv : safe J getRecv recv_wf.
Proof.
intros s Hs. destruct (Hs) as (((_ & Ht) & _) & (c & E) & _). rewrite (getRecv_run _ _ E).
rewrite E in Ht. done.
Qed.

Lemma safe_modRecv f :
(forall c, recv_wf c -> exists c', f c = Some c' /\ recv_wf c') -> safe J (modRecv f) (fun _ => True).
Proof.
intros H. eapply safe_bind; [apply safe_getRecv|]. intros c Hc.
eapply safe_bind; [by apply (safe_of_option _ _ recv_wf), H|]. intros c' Hc'. apply safe_modify.
intros s (((Hb & _) & Hh) & _ & El & Ed). split; [by split|]. by split; [exists c'|].
Qed.

(** *** Queue pairs *)

Lemma safe_nqpsPerRequest : safe J ncclIbCommBaseGetNqpsPerRequest (fun n => n = nqpsPerRequest b0).
Proof.
intros s Hs. pose proof (cl_qps _ (recvInv_links s Hs)) as Q. rewrite (nqpsPerRequest_run _ Q).
split; [done|]. by apply links_nqpsPerRequest, Hs.
Qed.

Definition qp_in (qi : Z) : Prop := 0 <= qi < nqps b0.

Lemma safe_getQpForRequest id i :
0 <= i < nqpsPerRequest b0 -> safe J (ncclIbCommBaseGetQpForRequest id i) (fun '(qi, _) => qp_in qi).
Proof.
intros Hi s Hs. pose proof (cl_qps _ (recvInv_links s Hs)) as Q. destruct (Hs) as (_ & _ & El & _).
rewrite getQpForRequest_run; [|done|by rewrite (links_nqpsPerRequest _ _ El)]. split; [done|]. cbn.
injection El as _ En _ _ _ _. unfold qp_in. rewrite <- En. apply activeQp_spec; [done|]. by apply requestIndex_range.
Qed.

Lemma safe_qp qi :
qp_in qi -> safe J (readAt (fun s => qps (base s)) qi)
(fun qp => 0 <= devIndex qp < ndevs b0 /\ 0 <= remDevIdx qp < NCCL_IB_MAX_DEVS_PER_NIC).
Proof.
intros Hq. apply safe_readAt. intros s (_ & _ & El & _). injection El as _ _ _ _ _ ->. by apply (qr_qps _ Q0).
Qed.

Lemma safe_getQpForCts id : safe J (ncclIbRecvCommGetQpForCts id) qp_in.
Proof.
intros s Hs. destruct (ctsQp_run s id (recvInv_links s Hs)) as [E Hr]. rewrite E. split; [done|]. cbn.
destruct Hs as (_ & _ & El & _). injection El as _ En _ _ _ _. unfold qp_in. by rewrite <- En.
Qed.

Lemma safe_commDev d : 0 <= d < ndevs b0 -> safe J (readAt devs d) (fun _ => True).
Proof.
intros Hd. apply safe_readAt. intros s (_ & _ & _ & Ed). destruct (zget_is_Some (devs s) d) as [cd E]; [lia|]. eauto.
Qed.

(** *** Requests *)

Lemma safe_getRequest : safe J ncclIbGetRequest (fun i => 0 <= i < NET_IB_MAX_REQUESTS).
Proof.
eapply safe_bind; [apply safe_getS|]. intros s (((Hb & _) & _) & _).
pose proof (firstUnused_spec (reqs (base s)) 0) as Hf. destruct (firstUnused _ _) as [i|]; [|apply safe_fail].
destruct Hf as (_ & q & Eq & _). rewrite Z.sub_0_r in Eq. destruct Hb as (_ & Hl & _).
pose proof (sized_zget _ _ _ _ Hl Eq) as Hi. eapply safe_bind; [|intros _ _; by apply safe_ret].
apply safe_modReq; [done|]. intros r Hr. eexists. split; [done|]. wf_solve.
Qed.

Lemma safe_addEvent i d : 0 <= i < NET_IB_MAX_REQUESTS -> 0 <= d < ndevs b0 -> safe J (ncclIbAddEvent i d) (fun _ => True).
Proof.
intros Hi Hd. apply safe_modReq; [done|]. intros q Hq. pose proof (qr_ndevs _ Q0). destruct (Hq) as (He & Hv & ?).
destruct (addEvent_some d q) as (q' & E & (He' & Hv') & Eq & _); [by split|lia|]. exists q'. split; [done|].
rewrite Eq. done.
Qed.

(** *** [ncclIbIrecv] *)

Lemma safe_postFifo i slot : 0 <= i < NET_IB_MAX_REQUESTS -> safe J (ncclIbPostFifo i slot) (fun _ => True).
Proof.
intros Hi. unfold ncclIbPostFifo. eapply safe_bind; [by apply safe_getReq|]. intros req _.
eapply safe_bind; [apply safe_getQpForCts|]. intros qi Hqi.
eapply safe_bind; [by apply safe_qp|]. intros qp [Hd Hrd]. eapply safe_bind; [apply safe_getRecv|]. intros c _.
eapply (safe_bind _ _ _ (fun _ => True)).
- apply safe_readAt. intros s (((Hb & _) & _) & _). destruct Hb as (_ & _ & _ & _ & _ & _ & Hr & _).
destruct (zget_is_Some (remDevs (base s)) (remDevIdx qp)) as [rem E]; [rewrite Hr; lia|]. by exists rem.
- intros rem _. eapply safe_bind; [by apply safe_commDev|]. intros cd _.
eapply safe_bind; [apply safe_hasResiliency|]. intros res _. apply safe_post_send.
Qed.

(** One turn of the loop over the queue pairs. *)
Lemma safe_recvOnQp i slot qi :
0 <= i < NET_IB_MAX_REQUESTS -> qp_in qi ->
safe J (let* qp := readAt (fun s => qps (base s)) qi in
ncclIbAddEvent i (devIndex qp) ;;;
let* c := getRecv in
if prepostReceiveWorkRequests c then ret tt
else
modRecv (fun c => Some (c <| ibRecvWorkRequest_wr_id := slot |>)) ;;;
wrap_post_recv (DataQp qi) slot) (fun _ => True).
Proof.
intros Hi Hq. eapply safe_bind; [by apply safe_qp|]. intros qp [Hd _].
eapply safe_bind; [by apply safe_addEvent|]. intros _ _. eapply safe_bind; [apply safe_getRecv|]. intros c _.
destruct (prepostReceiveWorkRequests c); [by apply safe_ret|].
eapply safe_bind; [apply safe_modRecv|intros _ _; apply safe_post_recv].
intros c' Hc. eexists. split; [done|]. wf_solve.
Qed.

(** Clearing the completion record of a slot and filling its clear-to-send row. *)
Lemma publish_total n head slot bufs c :
n = Z.of_nat (length bufs) -> n <= NCCL_NET_IB_MAX_RECVS -> 0 <= slot < NET_IB_MAX_REQUESTS ->
Forall (fun rb => ndevs b0 <= Z.of_nat (length (mr_rkeys (rb_mh rb)))) bufs -> recv_wf c ->
exists c', (rec ← zget (cmplsRecords c) slot;
l ← zset (cmplsRecords c) slot
(mkCmplRecord (zeros n ++ drop (Z.to_nat n) (cr_sizes rec)) (falses NCCL_IB_MAX_QPS));
row ← zget (remCts_elems c) slot;
row' ← fillCts n head (ndevs b0) 0 bufs row;
rows ← zset (remCts_elems c) slot row';
Some (c <| cmplsRecords := l |> <| remCts_elems := rows |>)) = Some c' /\ recv_wf c'.
Proof.
intros -> Hn Hslot Hrk Hc. pose proof (qr_ndevs _ Q0) as Hd. wf_split.
destruct (zget_is_Some (cmplsRecords c) slot) as [rec Er]; [rewrite H3; lia|]. rewrite Er. cbn [mbind option_bind].
rewrite zset_is_Some by (rewrite H3; lia). cbn [mbind option_bind].
destruct (zget_is_Some (remCts_elems c) slot) as [row Ew]; [rewrite H1; lia|]. rewrite Ew. cbn [mbind option_bind].
pose proof (Forall_zget _ _ _ _ H2 Ew) as [Hrow Hcts].
destruct (fillCts_spec (Z.of_nat (length bufs)) head (ndevs b0) bufs 0 row) as (row' & Ef & _);
[lia|rewrite Hrow; unfold NCCL_NET_IB_MAX_RECVS in *; lia|lia|done|].
rewrite Ef. cbn [mbind option_bind]. rewrite zset_is_Some by (rewrite H1; lia). cbn [mbind option_bind].
eexists. split; [done|]. destruct (Forall_zget _ _ _ _ H4 Er) as [Hs1 Hs2].
assert (sized NCCL_NET_IB_MAX_RECVS row' /\ Forall cts_wf row') as Hrow'
by (eapply fillCts_wf; [|exact Ef|done]; lia).
unfold recv_wf. cbn. do 2 (split; [done|]).
split; [by apply sized_zupd|]. split; [by apply Forall_zupd|]. split; [by apply sized_zupd|].
split; [|done]. apply Forall_zupd; [done|]. split; [|apply sized_replicate].
apply sized_prefix; [done|..]; unfold zeros; rewrite length_replicate; lia.
Qed.

Lemma safe_irecv bufs :
Forall (fun rb => ndevs b0 <= Z.of_nat (length (mr_rkeys (rb_mh rb)))) bufs ->
safe J (ncclIbIrecv bufs) (fun _ => True).
Proof.
intros Hrk. pose proof (qr_ndevs _ Q0) as Hd. unfold ncclIbIrecv.
eapply safe_bind; [apply safe_base|]. intros b [_ El]. injection El as Eb _ _ _ _ _.
destruct (ready b =? 0); [apply safe_fail|]. destruct (_ <? _) eqn:En; [apply safe_fail|].
eapply safe_bind; [apply safe_fatal|]. intros _ _. eapply safe_bind; [apply safe_nqpsPerRequest|]. intros n ->.
destruct (_ <? nqpsPerRequest _); [apply safe_fail|].
eapply safe_bind; [eapply (safe_mapM _ (fun i => 0 <= i < nqpsPerRequest b0)); [|intros i Hi; by apply safe_getQpForRequest]|].
{ apply Forall_forall. by intros i Hi%list_elem_of_In%In_zrange. }
intros qs Hqs. eapply safe_bind; [apply safe_getRequest|]. intros i Hi. cbv zeta.
eapply safe_bind; [apply safe_hasResiliency|]. intros res _.
eapply safe_bind; [apply safe_modReq; [done|]|intros _ _].
{ intros q Hq. eexists. split; [done|]. wf_solve. apply sized_if; [|done].
apply sized_prefix; [done| |]; rewrite length_replicate; lia. }
eapply safe_bind; [apply safe_modRecv|intros _ _].
{ intros c Hc. wf_split. rewrite zset_is_Some by (rewrite H; apply Z.mod_pos_bound; done). cbn.
eexists. split; [done|]. wf_solve. }
eapply safe_bind; [eapply safe_iterM; [exact Hqs|]; intros [qi k] Hq; by apply safe_recvOnQp|]. intros _ _.
eapply safe_bind; [apply safe_modReq; [done|]|intros _ _].
{ intros q Hq. eexists. split; [done|]. wf_solve. apply slot_range. }
eapply safe_bind; [apply safe_modRecv|intros _ _].
{ intros c Hc. rewrite Eb. apply publish_total; [done|lia|apply slot_range|done..]. }
eapply safe_bind; [by apply safe_postFifo|]. intros _ _.
eapply safe_bind; [apply safe_modBase|intros _ _; by apply safe_ret].
intros b' Hb'. split; [|done]. wf_solve.
Qed.

(** *** [ncclIbIflush] *)

Lemma lastNonZero_range sizes i last :
-1 <= last < i -> -1 <= lastNonZero sizes i last < i + Z.of_nat (length sizes).
Proof.
revert i last. induction sizes as [|x l IH]; intros i last Hl; cbn [lastNonZero length]; [lia|].
specialize (IH (i + 1) (if x =? 0 then last else i)). destruct (x =? 0); lia.
Qed.

Lemma safe_createFlushQp : safe J ncclIbCreateFlushQp (fun _ => True).
Proof.
unfold ncclIbCreateFlushQp. eapply safe_bind; [apply safe_getRecv|]. intros c _.
destruct (_ || _); [by apply safe_ret|]. eapply safe_bind; [apply safe_base|]. intros b _.
eapply safe_bind; [apply safe_forN|intros _ _].
- intros i _. by apply (safe_ask (CreatedFlushQp i) (fun h => createFlushQp_ok env h i)).
- apply safe_modRecv. intros c' Hc. eexists. split; [done|]. wf_solve.
Qed.

Lemma safe_iflush data sizes mhs :
length data = length sizes -> length mhs = length sizes ->
Forall (fun mh => ndevs b0 <= Z.of_nat (length (mr_rkeys mh))) mhs ->
safe J (ncclIbIflush data sizes mhs) (fun _ => True).
Proof.
intros Hld Hlm Hrk. unfold ncclIbIflush. eapply safe_bind; [apply safe_getRecv|]. intros c _. cbv zeta.
destruct (_ || _) eqn:E0; [by apply safe_ret|]. apply orb_false_iff in E0 as [_ E0].
pose proof (lastNonZero_range sizes 0 (-1) ltac:(lia)) as Hlast.
set (last := lastNonZero sizes 0 (-1)) in *.
eapply safe_bind; [apply safe_createFlushQp|]. intros _ _. eapply safe_bind; [apply safe_getRequest|]. intros i Hi.
eapply safe_bind; [apply safe_modReq; [done|]|intros _ _].
{ intros q Hq. eexists. split; [done|]. wf_solve. }
eapply (safe_bind _ _ _ (fun mh => ndevs b0 <= Z.of_nat (length (mr_rkeys mh)))).
{ apply safe_of_option. destruct (zget_is_Some mhs last) as [mh E]; [lia|]. exists mh. split; [done|].
by eapply (Forall_zget _ _ _ _ Hrk). }
intros mh Hmh. eapply (safe_bind _ _ _ (fun _ => True)).
{ apply safe_of_option. destruct (zget_is_Some data last) as [a E]; [lia|]. by exists a. }
intros addr _. eapply safe_bind; [apply safe_base|]. intros b [_ El]. injection El as Eb _ _ _ _ _. rewrite Eb.
eapply safe_bind; [apply safe_forN|intros _ _; by apply safe_ret]. intros d Hd.
eapply (safe_bind _ _ _ (fun _ => True)).
{ apply safe_of_option. destruct (zget_is_Some (mr_rkeys mh) d) as [rk E]; [lia|]. by exists rk. }
intros rk _. eapply safe_bind; [by apply safe_commDev|]. intros cd _.
eapply safe_bind; [apply safe_post_send|]. intros _ _. by apply safe_addEvent.
Qed.

End Receiver.

(** What the receiving calls are handed: a remote key of every buffer for each device
    of the communicator, and as many addresses and handles as sizes to flush. *)
Definition receiver_call (nd : Z) (c : NetCall) : Prop :=
  match c with
  | Irecv bufs => Forall (fun rb => nd <= Z.of_nat (length (mr_rkeys (rb_mh rb)))) bufs
  | Iflush data sizes mhs =>
      length data = length sizes /\ length mhs = length sizes
      /\ Forall (fun mh => nd <= Z.of_nat (length (mr_rkeys mh))) mhs
  | _ => False
  end.

(** The call runs into undefined behaviour. *)
Definition faults `{M : Machine} (s : Net) (c : NetCall) : Prop :=
  match c with
  | SendCommInit ip r => fst (ncclIbSendCommInit ip r s) = Fault
  | RecvCommInit ip r => fst (ncclIbRecvCommInit ip r s) = Fault
  | Isend data size tag mh => fst (ncclIbIsend data size tag mh s) = Fault
  | Irecv bufs => fst (ncclIbIrecv bufs s) = Fault
  | Iflush data sizes mhs => fst (ncclIbIflush data sizes mhs s) = Fault
  | TestRequest fuel req w => fst (ncclIbTest fuel req w s) = Fault
  end.

Lemma receiver_step `{M : Machine} h b0 nDev s c :
  qps_ready b0 -> ndevs b0 <= nqps b0 -> ndevs b0 <= nDev -> receiver_call (ndevs b0) c ->
  recvInv h b0 nDev s -> ~ faults s c /\ recvInv h b0 nDev (afterCall s c).
Proof.
  intros Q Hnq Hnd Hc Hs. destruct c; cbn [receiver_call faults afterCall] in *; try done.
  - pose proof (safe_irecv h b0 nDev Q Hnq Hnd bufs Hc) as H.
    split; [exact (safe_noFault _ _ _ _ H Hs)|apply (H s Hs)].
  - destruct Hc as (H1 & H2 & H3). pose proof (safe_iflush h b0 nDev Q Hnd data sizes mhs H1 H2 H3) as H.
    split; [exact (safe_noFault _ _ _ _ H Hs)|apply (H s Hs)].
Qed.

Lemma irecv_too_many `{M : Machine} bufs s :
  NCCL_NET_IB_MAX_RECVS < Z.of_nat (length bufs) -> ncclIbIrecv bufs s = (Fail ncclInternalError, s).
Proof.
  intros Hn. unfold ncclIbIrecv. rewrite bind_gets. destruct (ready _ =? 0); [done|].
  by rewrite (proj2 (Z.ltb_lt _ _) Hn).
Qed.

(** C7. A receiver stays inside its arrays: from a well-formed communicator that is
    set up to receive (its queue pairs name devices it has), any sequence of receives
    and flushes, of any number of buffers, with any parameters and any answers of the
    provider, never runs into undefined behaviour: no call reads or writes outside an
    array, follows a null pointer or divides by zero, also when the requests run out
    or the provider refuses a post in the middle.  The communicator stays well formed
    and set up, the history only grows by a legal exchange with the provider, and a
    receive of more than eight buffers is refused and changes nothing. *)
Theorem receiver_stays_in_bounds `{M : Machine} calls s :
  receiver_wf s -> Forall (receiver_call (ndevs (base s))) calls ->
  let s' := fold_left afterCall calls s in
  (forall before c after, calls = before ++ c :: after -> ~ faults (fold_left afterCall before s) c)
  /\ receiver_wf s' /\ extends (history s) (history s')
  /\ forall bufs, NCCL_NET_IB_MAX_RECVS < Z.of_nat (length bufs) ->
       ncclIbIrecv bufs s' = (Fail ncclInternalError, s').
Proof.
  intros (Hwf & Htail & L) Hcalls. cbn zeta. pose proof L as [Q Hnq _ Hnd].
  assert (forall l, Forall (receiver_call (ndevs (base s))) l ->
    recvInv (history s) (base s) (Z.of_nat (length (devs s))) (fold_left afterCall l s)) as Hinv.
  { induction l as [|c l IH] using rev_ind; intros Hl.
    - split; [by split; [|apply extends_refl]|done].
    - apply Forall_app in Hl as [Hl Hc%Forall_cons_1]. rewrite fold_left_app. cbn [fold_left].
      by eapply receiver_step; [..|apply Hc|apply IH]. }
  split; [|split; [|split]].
  - intros before c after ->. apply Forall_app in Hcalls as [Hb [Hc _]%Forall_cons_1].
    by apply (receiver_step _ _ _ _ _ Q Hnq Hnd Hc (Hinv before Hb)).
  - pose proof (Hinv calls Hcalls) as Hi. pose proof (recvInv_links _ _ _ Q Hnq Hnd _ Hi).
    destruct Hi as ((? & _) & ? & _). done.
  - apply (Hinv calls Hcalls).
  - intros bufs. apply irecv_too_many.
Qed.

(** ** An instance *)

Import NetDemo.Demo.

Lemma demo_res_wf : res_wf res.
Proof. repeat split; try done. by apply Forall_replicate. Qed.

Lemma demo_net_wf r : from_option res_wf True r -> net_wf (sender r).
Proof.
  intros Hr. split.
  - unfold base_wf. repeat match goal with |- _ /\ _ => split end; try done.
    + apply Forall_app. split; [repeat constructor|apply Forall_replicate; repeat split; done]; done.
    + apply active_initial.
  - unfold tail_wf, send_wf, sender. cbn [tail]. repeat match goal with |- _ /\ _ => split end; try done.
    + apply Forall_insert; [by apply Forall_replicate; split; [|apply Forall_replicate]|].
      split; [done|]. repeat constructor; done.
    + by apply Forall_replicate.
Qed.

Example demo_calls_keep_wf :
  net_wf (fold_left (@afterCall machine) [TestRequest 3 0 true; Isend 0x5000 10 1 (mkMrHandle [] [])] (sender (Some res))).
Proof. apply (@calls_keep_wf machine); [apply demo_net_wf, demo_res_wf|by repeat constructor]. Qed.

(** Two receives, a flush and a receive of nine buffers, which is refused. *)
Definition demoCalls : list NetCall :=
  [Irecv [demoBuf]; Irecv [demoBuf; demoBuf]; Iflush [0x9000] [4096] [mkMrHandle [] [51; 52]]; Irecv (replicate 9 demoBuf)].

Lemma demo_recv_net_wf : net_wf (receiver None).
Proof.
  split.
  - unfold base_wf. repeat match goal with |- _ /\ _ => split end; try done.
    + by apply Forall_replicate.
    + apply active_initial.
  - unfold tail_wf, recv_wf, receiver. cbn [tail]. repeat match goal with |- _ /\ _ => split end; try done.
    + by apply Forall_replicate.
    + apply Forall_replicate. split; [done|]. by apply Forall_replicate.
    + by apply Forall_replicate.
Qed.

Lemma receiver_stays_in_bounds_witness :
  ~ @faults machine (fold_left (@afterCall machine) (take 3 demoCalls) (receiver None)) (Irecv (replicate 9 demoBuf))
  /\ receiver_wf (fold_left (@afterCall machine) demoCalls (receiver None)).
Proof.
  destruct (@receiver_stays_in_bounds machine demoCalls (receiver None)) as (Hf & Hwf & _).
  - split; [exact demo_recv_net_wf|]. split; [by eexists|]. exact (ro_links _ _ _ demo_recv_open).
  - repeat constructor; done.
  - split; [|exact Hwf]. by apply (Hf (take 3 demoCalls) (Irecv (replicate 9 demoBuf)) []).
Defined.
