(* ===== verification/TestTermination.v ===== *)
(** * Transport: termination

    The loops of [ncclIbTest] and of the probe processing run as long as they find
    completions.  Their fuel is enough: for [ncclIbTest] any bound on the completions
    the provider can still report, for the probes the number of outstanding probes. *)

From S2P Require Import Prelude NetTypes NetBase NetDemo NetLemmas NetInv NetSend NetRecv Resiliency NetTest NetWf.

Open Scope Z_scope.
Open Scope nccl_scope.

(** ** Counting completions *)

Definition completions (h : list Event) : Z :=
  zsum (map (fun e => match e with Polled _ wcs => Z.of_nat (length wcs) | _ => 0 end) h).

Lemma completions_snoc h e :
  completions (h ++ [e]) = completions h + match e with Polled _ wcs => Z.of_nat (length wcs) | _ => 0 end.
Proof. unfold completions. rewrite map_app, zsum_app. cbn [map zsum]. lia. Qed.

Section Termination.
Context `{M : Machine}.

Lemma extends_completions h h' : extends h h' -> completions h <= completions h'.
Proof. induction 1 as [|h' e _ IH]; [done|]. rewrite completions_snoc. destruct e; lia. Qed.

(** The provider reports at most [N] completions altogether. *)
Definition provider_bounded (N : Z) : Prop :=
forall h cq n wcs, mrc_poll_cq env h cq n = Some wcs -> wcs <> [] ->
completions h + Z.of_nat (length wcs) <= N.

Lemma extends_bounded N h h' :
provider_bounded N -> extends h h' -> completions h <= N -> completions h' <= N.
Proof.
intros HN H. induction H as [|h' e _ IH He]; intros Hc; [done|]. specialize (IH Hc). rewrite completions_snoc.
destruct e as [| |cq wcs| | |]; try lia. destruct He as [n En].
destruct wcs as [|wc wcs]; [cbn; lia|]. by apply (HN _ _ _ _ En).
Qed.

Lemma keeps_extends {A} (m : net A) Q s :
(forall h, keeps (net_inv h) m Q) -> net_wf s ->
net_wf (snd (m s)) /\ extends (history s) (history (snd (m s))).
Proof. intros H Hs. apply (H (history s) s). split; [done|apply extends_refl]. Qed.

(** The same for a computation known to return. *)
Lemma keeps_step {A} (m : net A) Q s a s' :
(forall h, keeps (net_inv h) m Q) -> net_wf s -> m s = (Done a, s') ->
net_wf s' /\ extends (history s) (history s').
Proof. intros H Hs E. pose proof (keeps_extends m Q s H Hs) as Hx. by rewrite E in Hx. Qed.

Lemma pollDev_counts i d s n s' :
net_wf s -> pollDev i d s = (Done n, s') ->
net_wf s' /\ extends (history s) (history s') /\ 0 <= n <= completions (history s') - completions (history s).
Proof.
intros Hs E. destruct (keeps_step _ _ _ _ _ (fun h => wf_pollDev h i d) Hs E) as [Hs' Hx].
split; [done|]. split; [done|]. pose proof (extends_completions _ _ Hx) as Hmono.
unfold pollDev in E. apply bind_Done in E as (req & s1 & E1 & E).
apply bind_Done in E as (res & s2 & E2 & E). apply bind_Done in E as (used & s3 & E3 & E).
apply bind_Done in E as (e & s4 & E4 & E).
destruct (negb used || ((e =? 0) && negb res)); [injection E as <- <-; lia|].
apply bind_Done in E as (wcs & s5 & E5 & E). apply bind_Done in E as ([] & s6 & E6 & E).
destruct (keeps_step _ _ _ _ _ (fun h => keeps_any _ _ _ (keeps_getReq h i)) Hs E1) as [W1 X1].
destruct (keeps_step _ _ _ _ _ wf_hasResiliency W1 E2) as [W2 X2].
destruct (keeps_step _ _ _ _ _ (fun h => keeps_of_option (net_inv h) _) W2 E3) as [W3 X3].
destruct (keeps_step _ _ _ _ _ (fun h => keeps_of_option (net_inv h) _) W3 E4) as [W4 X4].
set (cq := if bool_decide _ then _ else _) in E5.
destruct (keeps_step _ _ _ _ _ (fun h => wf_poll_cq h cq 4) W4 E5) as [W5 _].
assert (completions (history s5) = completions (history s4) + Z.of_nat (length wcs)) as Hc5.
{ unfold wrap_poll_cq in E5. rewrite bind_getS in E5. destruct (mrc_poll_cq _ _ _ _) as [l|]; [|done].
injection E5 as -> <-. exact (completions_snoc (history s4) (Polled cq wcs)). }
assert (forall h, keeps (net_inv h) (iterM (testCompletion d) wcs) (fun _ => True)) as Hit
by (intros h; apply keeps_iterM; intros; apply wf_testCompletion).
destruct (keeps_step _ _ _ _ _ Hit W5 E6) as [W6 X6].
pose proof (extends_completions _ _ (extends_trans _ _ _ X1 (extends_trans _ _ _ X2 (extends_trans _ _ _ X3 X4)))).
pose proof (extends_completions _ _ X6).
destruct (Z.of_nat (length wcs) =? 0) eqn:Ez; [injection E as <- <-; lia|].
assert (forall h, keeps (net_inv h) (let* cd := readAt devs d in
let* dv := readAt ncclIbDevs (cd_ibDevN cd) in
ncclIbStatsCheckFatalCount (dev_fatalErrorCount dv) ;;; ret (Z.of_nat (length wcs))) (fun k => k = Z.of_nat (length wcs))) as Hrest.
{ intros h. pose proof (wf_fatal h) as Hf. kstep. kstep.
eapply keeps_bind; [apply Hf|]. intros _ _. by apply keeps_ret. }
pose proof (Hrest (history s6) s6 (conj W6 (extends_refl _))) as [[W7 X7] Hn]. rewrite E in *. cbn in *.
pose proof (extends_completions _ _ X7). lia.
Qed.

Lemma pollDevs_counts i ds total s n s' :
net_wf s -> pollDevs i ds total s = (Done n, s') ->
net_wf s' /\ extends (history s) (history s') /\ n - total <= completions (history s') - completions (history s).
Proof.
revert total s. induction ds as [|d ds IH]; intros total s Hs E.
- injection E as <- <-. split; [done|]. split; [apply extends_refl|lia].
- cbn [pollDevs] in E. apply bind_Done in E as (k & s1 & E1 & E).
destruct (pollDev_counts _ _ _ _ _ Hs E1) as (W1 & X1 & Hk).
destruct (IH _ _ W1 E) as (W2 & X2 & Hn). split; [done|]. split; [by eapply extends_trans|lia].
Qed.

(** Every turn of the loop takes a completion. *)
Lemma testLoop_counts fuel i w s s' :
net_wf s -> testLoop fuel i w s = (Done OutOfFuel, s') ->
extends (history s) (history s') /\ completions (history s) + Z.of_nat fuel <= completions (history s').
Proof.
revert s. induction fuel as [|fuel IH]; intros s Hs E; cbn [testLoop] in E.
- injection E as <-. split; [apply extends_refl|lia].
- rewrite bind_gets in E. apply bind_Done in E as ([] & s1 & E1 & E).
apply bind_Done in E as (c & s2 & E2 & E).
destruct (keeps_step _ _ _ _ _ (fun h => wf_fatal h _) Hs E1) as [W1 X1].
destruct (keeps_step _ _ _ _ _ (fun h => wf_isComplete h i) W1 E2) as [W2 X2].
destruct c; [by apply bind_Done in E as (? & ? & _ & [=])|].
apply bind_Done in E as (n & s3 & E3 & E). destruct (pollDevs_counts _ _ _ _ _ _ W2 E3) as (W3 & X3 & Hn).
destruct (Z.ltb_spec 0 n); [|done]. destruct (IH s3 W3 E) as [X4 Hf].
pose proof (extends_completions _ _ X1). pose proof (extends_completions _ _ X2).
split; [exact (extends_trans _ _ _ X1 (extends_trans _ _ _ X2 (extends_trans _ _ _ X3 X4)))|lia].
Qed.

(** Fuel that is enough stays enough. *)
Lemma testLoop_more fuel k i w s :
fst (testLoop fuel i w s) <> Done OutOfFuel -> testLoop (fuel + k) i w s = testLoop fuel i w s.
Proof.
revert s. induction fuel as [|fuel IH]; intros s; [done|]. cbn [testLoop Nat.add].
rewrite !bind_gets. unfold bind.
destruct (ncclIbStatsCheckFatalCount _ _) as [[[]|r|] s1]; [|done..].
destruct (ncclIbRequestIsComplete i s1) as [[c|r|] s2]; [|done..]. destruct c; [done|].
destruct (pollDevs _ _ _ _) as [[n|r|] s3]; [|done..].
destruct (0 <? n); [apply IH|done].
Qed.

Lemma testLoop_enough fuel i w s N :
net_wf s -> provider_bounded N -> completions (history s) <= N ->
N - completions (history s) < Z.of_nat fuel -> fst (testLoop fuel i w s) <> Done OutOfFuel.
Proof.
intros Hs HN Hc Hf E. destruct (testLoop fuel i w s) as [o s'] eqn:El. cbn in E. subst o.
destruct (testLoop_counts _ _ _ _ _ Hs El) as [Hx Hn].
pose proof (extends_bounded _ _ _ HN Hx Hc). lia.
Qed.

(** What [ncclIbTest] does before its loop. *)
Definition testProgress : net unit :=
let* b := gets base in
match resiliency b with
| Some r => when (inProgress r) ncclIbResiliencyProgress
| None => ret tt
end.

Lemma test_unfold fuel i w s : ncclIbTest fuel i w s = (testProgress ;;; testLoop fuel i w) s.
Proof. reflexivity. Qed.

Lemma wf_testProgress h : keeps (net_inv h) testProgress (fun _ => True).
Proof. unfold testProgress. pose proof (wf_progress h). kwalk. Qed.

(** C19. [ncclIbTest] terminates: if the provider reports at most [N] completions
altogether, one more turn of its polling loop than the completions still to come is
always enough, whatever they are and however they are handled, and any larger fuel
gives the same result and state. *)
Theorem test_terminates fuel k i w s N :
net_wf s -> provider_bounded N -> completions (history s) <= N ->
N - completions (history s) < Z.of_nat fuel ->
fst (ncclIbTest fuel i w s) <> Done OutOfFuel /\ ncclIbTest (fuel + k) i w s = ncclIbTest fuel i w s.
Proof.
intros Hs HN Hc Hf. rewrite !test_unfold. destruct (keeps_extends _ _ _ wf_testProgress Hs) as [W X].
unfold bind. destruct (testProgress s) as [[[]|r|] s1]; [|done..]. cbn in W, X.
pose proof (extends_completions _ _ X). pose proof (extends_bounded _ _ _ HN X Hc).
assert (fst (testLoop fuel i w s1) <> Done OutOfFuel) by (apply (testLoop_enough fuel i w s1 N); [done..|lia]).
split; [done|]. by apply testLoop_more.
Qed.

End Termination.

(** ** Probes *)

Section Probes.
Context `{M : Machine} (d : Z).

(** At most [m] probes are outstanding on the device. *)
Definition probes_le (m : Z) (s : Net) : Prop :=
forall r rd, resiliency (base s) = Some r -> zget (res_devs r) d = Some rd -> rd_nOutstandingProbes rd <= m.

Section Bound.
Context (m : Z).
Notation J := (probes_le m).

Lemma probes_modBase f : (forall b, resiliency (f b) = resiliency b) -> keeps J (modBase f) (fun _ => True).
Proof. intros H. apply keeps_modify. intros s Hs r rd Er. cbn in Er. rewrite H in Er. by apply Hs. Qed.

Lemma probes_modRes f :
(forall r r', f r = Some r' -> forall rd', zget (res_devs r') d = Some rd' ->
 exists rd, zget (res_devs r) d = Some rd /\ rd_nOutstandingProbes rd' <= rd_nOutstandingProbes rd) ->
keeps J (modRes f) (fun _ => True).
Proof.
intros Hf s Hs. unfold modRes, getRes, bind, getS, of_option. destruct (resiliency (base s)) as [r|] eqn:Er; [|done].
cbn. destruct (f r) as [r'|] eqn:Ef; [|done]. split; [|done]. intros ? rd' [= <-] Ed.
destruct (Hf r r' Ef rd' Ed) as (rd & E & Hle). specialize (Hs r rd Er E). lia.
Qed.

Lemma probes_log e : keeps J (log e) (fun _ => True).
Proof. by apply keeps_modify. Qed.

Lemma probes_pure {A} (f : Net -> option A) : keeps J (let* s := getS in of_option (f s)) (fun _ => True).
Proof. intros s Hs. unfold bind, getS. by destruct (f s). Qed.

(** Updates of the resiliency context that leave the devices alone. *)
Lemma probes_modRes_same f :
(forall r r', f r = Some r' -> res_devs r' = res_devs r) -> keeps J (modRes f) (fun _ => True).
Proof. intros H. apply probes_modRes. intros r r' E rd' Ed. rewrite (H r r' E) in Ed. by exists rd'. Qed.

Lemma probes_modResDev d' f :
(forall rd, rd_nOutstandingProbes (f rd) <= rd_nOutstandingProbes rd) -> keeps J (modResDev d' f) (fun _ => True).
Proof.
intros H. apply probes_modRes. intros r r' E rd' Ed. opt_inv. apply zset_Some in H1 as [_ ->]. cbn in Ed.
rewrite zget_zupd in Ed. case_decide as Hd; [|by exists rd']. destruct Hd as [-> _]. injection Ed as <-. eauto.
Qed.

Lemma probes_modFailed i f : keeps J (modFailed i f) (fun _ => True).
Proof. apply probes_modRes_same. intros r r' E. opt_inv. done. Qed.

Lemma probes_getDevState d' : keeps J (getDevState d') (fun _ => True).
Proof. intros s Hs. unfold getDevState, getRes, bind, getS, of_option. destruct (resiliency _) as [r|]; [|done]. cbn. by destruct (zget _ _). Qed.

Lemma probes_replaceQps d' : keeps J (ncclIbResiliencyReplaceQps d') (fun _ => True).
Proof.
assert (forall fuel k o, keeps J (replaceSearch fuel k o) (fun _ => True)) as Hsearch.
{ induction fuel as [|fuel IH]; intros k o; cbn [replaceSearch]; [apply keeps_fault|].
eapply keeps_bind; [eapply keeps_gets|]. intros b _. destruct (nqps b =? 0); [apply keeps_fault|].
eapply keeps_bind; [apply keeps_of_option|]. intros q _. eapply keeps_bind; [apply probes_getDevState|].
intros st _. destruct (isOk st); [by apply keeps_ret|]. case_match; [by apply keeps_ret|apply IH]. }
unfold ncclIbResiliencyReplaceQps. eapply keeps_bind; [eapply keeps_gets|]. intros b _.
apply keeps_forN. intros i _. unfold replaceQp.
eapply keeps_bind; [eapply keeps_gets|]. intros b' _. eapply keeps_bind; [apply keeps_of_option|]. intros p _.
eapply keeps_bind; [apply keeps_of_option|]. intros fq _. eapply keeps_bind; [apply keeps_of_option|]. intros qp _.
case_match; [by apply keeps_ret|]. case_match; [apply keeps_fail|].
eapply keeps_bind; [apply Hsearch|]. intros [q|] _; [|apply keeps_fail].
eapply keeps_bind; [eapply keeps_gets|]. intros b2 _. eapply keeps_bind; [apply keeps_of_option|]. intros l _.
by apply probes_modBase.
Qed.

Lemma probes_portRecovery d' : keeps J (ncclIbPortRecoveryHandleFailure d') (fun _ => True).
Proof.
unfold ncclIbPortRecoveryHandleFailure. eapply keeps_bind; [apply (probes_pure (fun s => resiliency (base s)))|].
intros r _. case_match; [by apply keeps_ret|]. eapply keeps_bind; [apply probes_getDevState|]. intros st _.
case_match; [by apply keeps_ret|]. eapply keeps_bind; [apply keeps_getS|]. intros s _.
case_match; [|by apply keeps_ret]. eapply keeps_bind; [apply probes_log|]. intros _ _. by apply keeps_ret.
Qed.

Lemma probes_deviceFailure d' : keeps J (ncclIbResiliencyHandleDeviceFailure d') (fun _ => True).
Proof.
unfold ncclIbResiliencyHandleDeviceFailure, setDevState. eapply keeps_bind; [apply probes_getDevState|]. intros st _.
case_match; [|by apply keeps_ret]. eapply keeps_bind; [by apply probes_modResDev|]. intros _ _.
eapply keeps_bind; [apply probes_replaceQps|]. intros _ _.
eapply keeps_bind; [apply (probes_pure (fun s => resiliency (base s)))|]. intros r _. apply keeps_when.
eapply keeps_bind; [by apply probes_modResDev|]. intros _ _.
eapply keeps_bind; [apply probes_portRecovery|]. intros res _. case_match.
- apply probes_modRes_same. intros r0 r' E. by injection E as <-.
- apply keeps_forN. intros i _. case_match; [by apply keeps_ret|by apply probes_modResDev].
Qed.

Lemma probes_event wc d' : keeps J (ncclIbResiliencyProbeHandleCompletionEvent wc d') (fun _ => True).
Proof.
unfold ncclIbResiliencyProbeHandleCompletionEvent. case_match; [apply probes_modFailed|].
eapply (keeps_bind _ _ _ (fun _ => True)).
- unfold ncclIbResiliencyCheckErrorNotFatal. eapply keeps_bind; [apply (probes_pure (fun s => resiliency (base s)))|].
intros r _. case_match; [apply keeps_fail|]. case_match; [by apply keeps_ret|apply keeps_fail].
- intros _ _. eapply keeps_bind; [apply probes_deviceFailure|]. intros _ _. apply probes_modFailed.
Qed.
End Bound.

Lemma probes_events m wcs s s' :
probes_le m s -> iterM (fun wc => ncclIbResiliencyProbeHandleCompletionEvent wc d) wcs s = (Done tt, s') ->
probes_le m s'.
Proof.
intros Hs E. assert (keeps (probes_le m) (iterM (fun wc => ncclIbResiliencyProbeHandleCompletionEvent wc d) wcs)
(fun _ => True)) as H by (apply keeps_iterM; intros; apply probes_event).
pose proof (keeps_state _ _ _ _ H Hs) as Hx. by rewrite E in Hx.
Qed.

Lemma probes_taken m s n s' rd r :
probes_le (Z.of_nat (Datatypes.S m)) s -> resiliency (base s) = Some r -> zget (res_devs r) d = Some rd ->
1 <= n ->
modResDev d (fun rd => rd <| rd_nOutstandingProbes := rd_nOutstandingProbes rd - n |>) s = (Done tt, s') ->
probes_le (Z.of_nat m) s'.
Proof.
intros Hs Er Ed Hn E. pose proof (Hs r rd Er Ed) as Hle. unfold modResDev in E.
erewrite modRes_run in E; [|exact Er|cbn beta; rewrite Ed; cbn [mbind option_bind];
rewrite zset_is_Some by (by eapply zget_Some); reflexivity].
injection E as <-. intros r' rd' [= <-] Ed'. cbn in Ed'.
rewrite zget_zupd_eq in Ed' by (by eapply zget_Some). injection Ed' as <-. cbn. lia.
Qed.

Lemma probes_poll m cq n s o s' : probes_le m s -> wrap_poll_cq cq n s = (o, s') -> probes_le m s'.
Proof.
intros Hs E. unfold wrap_poll_cq in E. rewrite bind_getS in E.
destruct (mrc_poll_cq _ _ _ _); injection E as _ <-; exact Hs.
Qed.

Lemma probeDrain_enough m k s :
probes_le (Z.of_nat m) s -> probeDrain (Datatypes.S m + k) d s = probeDrain (Datatypes.S m) d s.
Proof.
revert s. induction m as [|m IH]; intros s Hs; cbn [probeDrain Nat.add]; unfold getRes, bind, getS, of_option.
all: destruct (wrap_poll_cq _ _ s) as [[wcs|e|] s1] eqn:E1; [|done..].
all: pose proof (probes_poll _ _ _ _ _ _ Hs E1) as Hs1.
all: destruct (Z.eqb_spec (Z.of_nat (length wcs)) 0) as [|Hne]; [done|].
all: destruct (resiliency (base s1)) as [r|] eqn:Er; [|done]; cbn [ret].
all: destruct (zget (res_devs r) d) as [rd|] eqn:Ed; [|done]; cbn [ret].
all: destruct (Z.ltb_spec (rd_nOutstandingProbes rd) (Z.of_nat (length wcs))); [done|].
- specialize (Hs1 r rd Er Ed). lia.
- destruct (modResDev _ _ s1) as [[[]|e|] s2] eqn:E2; [|done..].
destruct (iterM _ wcs s2) as [[[]|e|] s3] eqn:E3; [|done..].
apply (IH s3). eapply probes_events; [|exact E3]. eapply probes_taken; [exact Hs1|done|done| |exact E2]. lia.
Qed.

(** Draining the completions of the probes of a device terminates: the fuel
[ncclIbResiliencyProbeProgress] uses, one more than the probes outstanding, is
enough whatever the completions are and do (errors included), and more gives the
same. *)
Theorem probe_drain_terminates s r rd k :
resiliency (base s) = Some r -> zget (res_devs r) d = Some rd -> 0 <= rd_nOutstandingProbes rd ->
probeDrain (Z.to_nat (rd_nOutstandingProbes rd) + 1 + k) d s
= probeDrain (Z.to_nat (rd_nOutstandingProbes rd) + 1) d s.
Proof.
intros Er Ed Hn. rewrite Nat.add_1_r. apply probeDrain_enough.
intros r' rd' Er' Ed'. rewrite Z2Nat.id by lia. congruence || (rewrite Er in Er'; injection Er' as <-; rewrite Ed in Ed'; by injection Ed' as <-).
Qed.

End Probes.

(** ** An instance *)

Import NetDemo.Demo.

(** A provider that reports one completion on the first poll. *)
Definition oneCompletion : Env :=
  acceptAll <| mrc_poll_cq := fun h cq n =>
    if completions h =? 0 then Some [mkWc 5 IBV_WC_SUCCESS IBV_WC_RDMA_WRITE 0 0 0] else Some [] |>.

Definition oneMachine : Machine := mkMachine params oneCompletion.

Lemma oneCompletion_bounded : @provider_bounded oneMachine 1.
Proof. intros h cq n wcs E. cbn in E. destruct (Z.eqb_spec (completions h) 0) as [->|]; by injection E as <-. Qed.

Lemma test_terminates_witness :
  fst (@ncclIbTest oneMachine 2 0 true (sender None)) <> Done OutOfFuel
  /\ @ncclIbTest oneMachine (2 + 7) 0 true (sender None) = @ncclIbTest oneMachine 2 0 true (sender None).
Proof.
  apply (@test_terminates oneMachine 2 7 0 true (sender None) 1);
    [exact (demo_net_wf None Logic.I)|apply oneCompletion_bounded|cbn; lia|cbn; lia].
Defined.

Lemma probe_drain_terminates_witness :
  @probeDrain oneMachine (1 + 9) 0 (sender (Some res)) = @probeDrain oneMachine 1 0 (sender (Some res)).
Proof. apply (@probe_drain_terminates oneMachine 0 (sender (Some res)) res resDev 9 eq_refl eq_refl). cbn. lia. Defined.
