(* ===== verification/ConnGid.v ===== *)
(** * Connection set-up: addresses of a port

    The GID helpers of [net/transport/net_ib/connect.cc]: the kind of an address,
    the choice of the entry of a port's GID table ([ncclIbGetGidIndex]) and of its
    partition-key table ([ncclIbGetPkeyIndex]), and the choice of a device that
    shares a subnet with the peer ([ncclIbFindDevBySubnet]).

    A GID is its four 32-bit words in network order, each read as a number; the
    code compares and masks words of that order only, with constants it puts
    through [htonl].  What the provider and sysfs answer is a [PortTables]; the
    device's answers do not change during one call. *)

From S2P Require Import Prelude CStr.

Open Scope Z_scope.
Open Scope nccl_scope.

Record ibv_gid := mkGid { gw0 : Z; gw1 : Z; gw2 : Z; gw3 : Z }.

#[export] Instance ibv_gid_eq_dec : EqDecision ibv_gid.
Proof. solve_decision. Defined.

Definition gidWords (g : ibv_gid) : list Z := [gw0 g; gw1 g; gw2 g; gw3 g].
Definition zeroGid : ibv_gid := mkGid 0 0 0 0.

(** The union's other member: [global.subnet_prefix] is the first two words,
    [global.interface_id] the last two. *)
Definition subnet_prefix (g : ibv_gid) : Z * Z := (gw0 g, gw1 g).

Inductive sa_family_t : Type := AF_INET | AF_INET6.
#[export] Instance sa_family_eq_dec : EqDecision sa_family_t.
Proof. solve_decision. Defined.

Definition IBV_LINK_LAYER_UNSPECIFIED : Z := 0.
Definition IBV_LINK_LAYER_INFINIBAND : Z := 1.
Definition IBV_LINK_LAYER_ETHERNET : Z := 2.

(** What [read] of [/sys/class/infiniband/.../gid_attrs/types/<index>] gives;
    [None] is a failed [open]. *)
Inductive SysRead : Type := ReadError | ReadEINVAL | ReadText (s : cstring).

Record PortTables := mkPortTables {
  query_gid : Z -> option ibv_gid;
  gid_type_file : Z -> option SysRead;
  query_pkey : Z -> option Z;
}.

(** The [NCCL_PARAM]s and environment strings read here. *)
Record GidParams := mkGidParams {
  ncclParamIbGidIndex : Z;
  ncclParamIbRoutableFlidIbGidIndex : Z;
  ncclParamIbRoceVersionNum : Z;
  ncclParamIbPkey : Z;
  ncclParamIbPkeyValue : Z;
  ncclParamIbSubnetPrefixLen : Z;
  NCCL_IB_ADDR_FAMILY : option cstring;
  NCCL_IB_ADDR_RANGE : option cstring;
}.

(** ** Kinds of address *)

Definition getGidAddrFamily (g : ibv_gid) : sa_family_t :=
  let isIpV4Mapped := Z.lor (Z.lor (gw0 g) (gw1 g)) (Z.lxor (gw2 g) 0x0000ffff) =? 0 in
  let isIpV4MappedMulticast :=
    (gw0 g =? 0xff0e0000) && (Z.lor (gw1 g) (Z.lxor (gw2 g) 0x0000ffff) =? 0) in
  if isIpV4Mapped || isIpV4MappedMulticast then AF_INET else AF_INET6.

Definition configuredGid (g : ibv_gid) : bool :=
  let trailer := Z.lor (Z.lor (gw1 g) (gw2 g)) (gw3 g) in
  negb ((Z.lor (gw0 g) trailer =? 0) || ((gw0 g =? 0xfe800000) && (trailer =? 0))).

Definition linkLocalGid (g : ibv_gid) : bool := (gw0 g =? 0xfe800000) && (gw1 g =? 0).

Definition validGid (g : ibv_gid) : bool := configuredGid g && negb (linkLocalGid g).

Definition ncclIbExtractLocalSubnetPrefix (p : Z * Z) : Z := Z.land (snd p) 0xffff.

Definition ncclIbExtractFlid (g : ibv_gid) : Z := Z.shiftr (gw1 g) 16.

(** [NETMASK(bits)]: [1 << 31] minus one overflows an [int]. *)
Definition NETMASK (bits : Z) : option Z :=
  let n := 32 - bits in
  if (n <? 0) || (31 <=? n) then None else Some (Z.lxor 0xffffffff (Z.shiftl 1 n - 1)).

(** The loop over the words of an IPv6 address; the result is [prefixlen] when it ends. *)
Fixpoint match6 (prefix addr : list Z) (prefixlen : Z) : option Z :=
  match prefix, addr with
  | b :: prefix', a :: addr' =>
      if prefixlen <=? 0 then Some prefixlen
      else if 32 <=? prefixlen then
        if negb (Z.lxor b a =? 0) then Some prefixlen else match6 prefix' addr' (prefixlen - 32)
      else
        mask ← NETMASK prefixlen;
        Some (if negb (Z.lxor (Z.land b mask) (Z.land a mask) =? 0) then prefixlen else 0)
  | _, _ => Some prefixlen
  end.

(** [prefix] is the address the pointer points to: one word or four. *)
Definition matchGidAddrPrefix (af : sa_family_t) (prefix : option (list Z)) (prefixlen : Z)
    (g : ibv_gid) : option bool :=
  if prefixlen <=? 0 then Some (prefixlen =? 0)
  else
    p ← prefix;
    match af with
    | AF_INET =>
        base ← zget p 0;
        mask ← NETMASK prefixlen;
        Some (Z.lxor (Z.land base mask) (Z.land (gw3 g) mask) =? 0)
    | AF_INET6 => rest ← match6 p (gidWords g) prefixlen; Some (rest =? 0)
    end.

(** [strncmp(s, p, strlen(p)) == 0]. *)
Definition strncmpEq (s p : cstring) : bool := list_eqb p (take (length p) s).

Section Choice.
Context {St : Type}.
Context (gp : GidParams) (inet_pton : sa_family_t -> cstring -> option (list Z)).

(** ** Environment *)

Definition envIbAddrFamily : sa_family_t :=
match NCCL_IB_ADDR_FAMILY gp with
| None => AF_INET
| Some env => if bool_decide (cstr env = lit "AF_INET6") then AF_INET6 else AF_INET
end.

(** The text before and after the first slash. *)
Fixpoint splitSlash (s : cstring) : option (cstring * cstring) :=
match s with
| [] => None
| c :: s' =>
if ceqb c (chr 47) then Some ([], s')
else '(a, b) ← splitSlash s'; Some (c :: a, b)
end.

(** The address and [*mask]; [strtol] past the range of [long] is left to
[CStr.strtol], the conversion to [int] is [i32]. *)
Definition envIbAddrRange (af : sa_family_t) : option (list Z) * Z :=
match NCCL_IB_ADDR_RANGE gp with
| None | Some [] => (None, 0)
| Some env =>
match splitSlash (take 127 (cstr env)) with
| None => (None, 0)
| Some (addrStr, maskStr) =>
match inet_pton af addrStr with
| None => (None, 0)
| Some a =>
let mask := i32 (default 0 (strtol maskStr)) in
let limit := match af with AF_INET => 32 | AF_INET6 => 128 end in
if limit <? mask then (None, 0) else (Some a, mask)
end
end
end.

(** ** The GID table of a port *)

Context (t : PortTables).

Definition wrap_ibv_query_gid (index : Z) : comp St ibv_gid :=
match query_gid t index with Some g => ret g | None => fail ncclSystemError end.

(** [None]: the version is left as it was. *)
Definition ncclIbRoceGetVersionNum (gidIndex : Z) : comp St (option Z) :=
match gid_type_file t gidIndex with
| None => fail ncclSystemError
| Some ReadError => fail ncclSystemError
| Some ReadEINVAL => ret None
| Some (ReadText s) =>
let s := cstr (take 15 s) in
if strncmpEq s (lit "IB/RoCE v1") || strncmpEq s (lit "RoCE v1") then ret (Some 1)
else if strncmpEq s (lit "RoCE v2") then ret (Some 2)
else ret None
end.

(** [uninit] is what the stack holds in [gidRoceVerNum], which the code declares
without a value. *)
Definition ncclUpdateGidIndex (uninit : Z) (af : sa_family_t) (prefix : option (list Z))
(prefixlen roceVer gidIndexCandidate gidIndex : Z) : comp St Z :=
let* gid := wrap_ibv_query_gid gidIndex in
let* gidCandidate := wrap_ibv_query_gid gidIndexCandidate in
let gidFam := getGidAddrFamily gid in
let gidCandidateFam := getGidAddrFamily gidCandidate in
let* gidCandidateMatchSubnet := of_option (matchGidAddrPrefix af prefix prefixlen gidCandidate) in
if negb (bool_decide (gidCandidateFam = gidFam)) && bool_decide (gidCandidateFam = af)
 && gidCandidateMatchSubnet
then ret gidIndexCandidate
else if negb (bool_decide (gidCandidateFam = af)) || negb (validGid gidCandidate)
 || negb gidCandidateMatchSubnet
then ret gidIndex
else
let* v := ncclIbRoceGetVersionNum gidIndex in
let* vc := ncclIbRoceGetVersionNum gidIndexCandidate in
let gidRoceVerNum := default uninit v in
let gidRoceVerNumCandidate := default (-1) vc in
if (negb (gidRoceVerNum =? gidRoceVerNumCandidate) || negb (validGid gid))
 && (gidRoceVerNumCandidate =? roceVer)
then ret gidIndexCandidate else ret gidIndex.

Fixpoint gidLoop (uninit : Z) (af : sa_family_t) (prefix : option (list Z))
(prefixlen roceVer : Z) (n : nat) (next gidIndex : Z) : comp St Z :=
match n with
| O => ret gidIndex
| Datatypes.S n' =>
let* i := ncclUpdateGidIndex uninit af prefix prefixlen roceVer next gidIndex in
gidLoop uninit af prefix prefixlen roceVer n' (next + 1) i
end.

Definition ncclIbGetGidIndex (uninit link_layer gid_tbl_len : Z) : comp St Z :=
if link_layer =? IBV_LINK_LAYER_INFINIBAND then
let routableGidIndex := i32 (ncclParamIbRoutableFlidIbGidIndex gp) in
if routableGidIndex <? gid_tbl_len then
let* g := wrap_ibv_query_gid routableGidIndex in
if negb (ncclIbExtractFlid g =? 0) then ret routableGidIndex else ret 0
else ret 0
else if 0 <=? i32 (ncclParamIbGidIndex gp) then ret (i32 (ncclParamIbGidIndex gp))
else
let userAddrFamily := envIbAddrFamily in
let '(prefix, prefixlen) := envIbAddrRange userAddrFamily in
gidLoop uninit userAddrFamily prefix prefixlen (i32 (ncclParamIbRoceVersionNum gp))
(Z.to_nat (gid_tbl_len - 1)) 1 0.

(** ** The partition-key table of a port *)

Fixpoint pkeyLoop (target : Z) (n : nat) (index : Z) : comp St Z :=
match n with
| O => fail ncclInvalidUsage
| Datatypes.S n' =>
match query_pkey t index with
| None => fail ncclSystemError
| Some pkey => if Z.land pkey 0x7fff =? target then ret index else pkeyLoop target n' (index + 1)
end
end.

(** [query_pkey] is the key in host order. *)
Definition ncclIbGetPkeyIndex (pkey_tbl_len : Z) : comp St Z :=
if ncclParamIbPkeyValue gp <? 0 then ret (i32 (ncclParamIbPkey gp))
else pkeyLoop (Z.land (ncclParamIbPkeyValue gp) 0x7fff) (Z.to_nat pkey_tbl_len) 0.

End Choice.

(** ** Devices on the peer's subnet *)

(** [~((1U << (32 - prefixLen)) - 1)]: unsigned, so a prefix of one bit is fine;
    a shift by 32 or more has no meaning. *)
Definition subnetMask (prefixLen : Z) : option Z :=
  let n := 32 - prefixLen in
  if (n <? 0) || (32 <=? n) then None else Some (Z.lxor 0xffffffff (Z.shiftl 1 n - 1)).

Definition gidSameSubnet (local remote : ibv_gid) (prefixLen : Z) : option bool :=
  if negb (bool_decide (getGidAddrFamily local = getGidAddrFamily remote)) then Some false
  else match getGidAddrFamily local with
  | AF_INET => mask ← subnetMask prefixLen; Some (Z.land (gw3 local) mask =? Z.land (gw3 remote) mask)
  | AF_INET6 => Some (bool_decide (subnet_prefix local = subnet_prefix remote))
  end.

Fixpoint subnetMatchesAny (localGid : ibv_gid) (remoteGids : list ibv_gid) (prefixLen : Z) : option bool :=
  match remoteGids with
  | [] => Some false
  | g :: gs =>
      same ← (if validGid g then gidSameSubnet localGid g prefixLen else Some false);
      if same : bool then Some true else subnetMatchesAny localGid gs prefixLen
  end.

(** What [ncclIbGetGidIndex] and the query that follows it give for a port of the
    host; [pg_ethernet] says the port is RoCE. *)
Record PortGid := mkPortGid { pg_ethernet : bool; pg_gid : outcome ibv_gid }.

Definition portGid (gp : GidParams) (inet_pton : sa_family_t -> cstring -> option (list Z))
    (uninit : Z) (t : PortTables) (link_layer gid_tbl_len : Z) : PortGid := {|
  pg_ethernet := link_layer =? IBV_LINK_LAYER_ETHERNET;
  pg_gid := fst (bind (ncclIbGetGidIndex gp inet_pton t uninit link_layer gid_tbl_len)
                      (wrap_ibv_query_gid t) tt) |}.

(** [checked] and [matched] of one merged device. *)
Fixpoint countMatches (ports : list PortGid) (remoteGids : list ibv_gid) (prefixLen checked matched : Z)
    : option (Z * Z) :=
  match ports with
  | [] => Some (checked, matched)
  | p :: ports' =>
      if negb (pg_ethernet p) then countMatches ports' remoteGids prefixLen checked matched
      else match pg_gid p with
      | Fault => None
      | Fail _ => countMatches ports' remoteGids prefixLen checked matched
      | Done g =>
          m ← (if validGid g then subnetMatchesAny g remoteGids prefixLen else Some false);
          countMatches ports' remoteGids prefixLen (checked + 1) (if m : bool then matched + 1 else matched)
      end
  end.

Definition allPortsMatch (ports : list PortGid) (remoteGids : list ibv_gid) (prefixLen : Z) : option bool :=
  '(checked, matched) ← countMatches ports remoteGids prefixLen 0 0;
  Some ((0 <? checked) && (matched =? checked)).

(** The search over the merged devices other than the default one. *)
Fixpoint searchSubnet (merged : list (list PortGid)) (devIdx defaultDev : Z) (remoteGids : list ibv_gid)
    (prefixLen : Z) : option (option Z) :=
  match merged with
  | [] => Some None
  | ports :: merged' =>
      if devIdx =? defaultDev then searchSubnet merged' (devIdx + 1) defaultDev remoteGids prefixLen
      else
        m ← allPortsMatch ports remoteGids prefixLen;
        if m : bool then Some (Some devIdx)
        else searchSubnet merged' (devIdx + 1) defaultDev remoteGids prefixLen
  end.

Definition ncclIbFindDevBySubnet {St} (prefixLen : Z) (merged : list (list PortGid))
    (remoteGids : list ibv_gid) (defaultDev : Z) : comp St Z :=
  if (prefixLen <? 1) || (32 <? prefixLen) then fail ncclInvalidArgument
  else if negb (existsb validGid remoteGids) then ret defaultDev
  else
    let* keep :=
      of_option (match zget merged defaultDev with
                 | Some ports => allPortsMatch ports remoteGids prefixLen
                 | None => Some false
                 end) in
    if keep : bool then ret defaultDev
    else
      let* found := of_option (searchSubnet merged 0 defaultDev remoteGids prefixLen) in
      ret (default defaultDev found).
