(* ===== verification/GidSpec.v ===== *)
(** * Connection set-up: addresses, verified

    The address range of [NCCL_IB_ADDR_RANGE] is a comparison of leading bits; the
    entry chosen in a GID table; the device chosen for a peer's subnets. *)

From S2P Require Import Prelude CStr ConnGid.

Open Scope Z_scope.
Open Scope nccl_scope.

(** ** Masks *)

(** Bit [i] of an address, the most significant of the first word first. *)
Definition addrBit (ws : list Z) (i : Z) : bool :=
  Z.testbit (default 0 (zget ws (i / 32))) (31 - i mod 32).

Definition samePrefix (p : Z) (a b : list Z) : Prop :=
  forall i, 0 <= i < p -> addrBit a i = addrBit b i.

Definition words (ws : list Z) : Prop := Forall (in_u 32) ws.

Lemma mask_testbit n i :
  0 <= n <= 32 -> 0 <= i -> Z.testbit (Z.lxor 0xffffffff (Z.shiftl 1 n - 1)) i = (n <=? i) && (i <? 32).
Proof.
  intros Hn Hi. rewrite Z.lxor_spec, Z.shiftl_1_l.
  change 0xffffffff with (Z.ones 32).
  replace (2 ^ n - 1) with (Z.ones n) by (rewrite Z.ones_equiv; lia).
  rewrite !Z.testbit_ones_nonneg by lia.
  destruct (i <? 32) eqn:E1, (i <? n) eqn:E2, (n <=? i) eqn:E3; try done; lia.
Qed.

(** Comparing under a mask compares the bits the mask has. *)
Lemma masked_eq a b n :
  0 <= n <= 32 -> in_u 32 a -> in_u 32 b ->
  (Z.land a (Z.lxor 0xffffffff (Z.shiftl 1 n - 1)) = Z.land b (Z.lxor 0xffffffff (Z.shiftl 1 n - 1))
   <-> forall i, n <= i < 32 -> Z.testbit a i = Z.testbit b i).
Proof.
  intros Hn Ha Hb. split.
  - intros E i Hi. apply (f_equal (fun z => Z.testbit z i)) in E.
    rewrite !Z.land_spec, mask_testbit in E by lia.
    replace ((n <=? i) && (i <? 32)) with true in E by lia. now rewrite !andb_true_r in E.
  - intros H. apply Z.bits_inj'. intros i Hi. rewrite !Z.land_spec, mask_testbit by lia.
    destruct ((n <=? i) && (i <? 32)) eqn:E; [|now rewrite !andb_false_r].
    f_equal. apply H. lia.
Qed.

Lemma word_eq a b :
  in_u 32 a -> in_u 32 b -> (a = b <-> forall i, 0 <= i < 32 -> Z.testbit a i = Z.testbit b i).
Proof.
  intros Ha Hb. split; [now intros ->|]. intros H. apply Z.bits_inj'. intros i Hi.
  destruct (decide (i < 32)); [apply H; lia|].
  assert (forall x, in_u 32 x -> Z.testbit x i = false) as Hz; [|now rewrite !Hz].
  intros x [Hx1 Hx2]. destruct (decide (x = 0)) as [->|]; [apply Z.testbit_0_l|].
  apply Z.bits_above_log2; [lia|]. apply Z.log2_lt_pow2; [lia|].
  eapply Z.lt_le_trans; [exact Hx2|]. apply Z.pow_le_mono_r; lia.
Qed.

(** ** The address range *)

Lemma addrBit_tail w ws i : 32 <= i -> addrBit (w :: ws) i = addrBit ws (i - 32).
Proof.
  intros Hi. unfold addrBit. replace ((i - 32) / 32) with (i / 32 - 1) by (replace (i - 32) with (i + -1 * 32) by lia; rewrite Z.div_add; lia).
  replace ((i - 32) mod 32) with (i mod 32) by (rewrite <- (Z.mod_add (i - 32) 1 32) by lia; f_equal; lia).
  assert (1 <= i / 32) by (apply Z.div_le_lower_bound; lia).
  f_equal. f_equal. unfold zget. rewrite !decide_True by lia.
  replace (Z.to_nat (i / 32)) with (S (Z.to_nat (i / 32 - 1))) by lia. done.
Qed.

Lemma addrBit_head w ws i : 0 <= i < 32 -> addrBit (w :: ws) i = Z.testbit w (31 - i).
Proof. intros Hi. unfold addrBit. rewrite Z.div_small, Z.mod_small by lia. done. Qed.

Lemma samePrefix_cons p a b x y :
  32 <= p -> in_u 32 x -> in_u 32 y ->
  (samePrefix p (x :: a) (y :: b) <-> x = y /\ samePrefix (p - 32) a b).
Proof.
  intros Hp Hx Hy. split.
  - intros H. split.
    + apply word_eq; [done..|]. intros i Hi. specialize (H (31 - i)).
      rewrite !addrBit_head in H by lia. replace (31 - (31 - i)) with i in H by lia. apply H. lia.
    + intros i Hi. specialize (H (i + 32)). rewrite !addrBit_tail in H by lia.
      replace (i + 32 - 32) with i in H by lia. apply H. lia.
  - intros [-> H] i Hi. destruct (decide (i < 32)).
    + rewrite !addrBit_head by lia. done.
    + rewrite !addrBit_tail by lia. apply H. lia.
Qed.

Lemma samePrefix_short p a b x y :
  0 < p < 32 -> in_u 32 x -> in_u 32 y ->
  (samePrefix p (x :: a) (y :: b)
   <-> Z.land x (Z.lxor 0xffffffff (Z.shiftl 1 (32 - p) - 1)) = Z.land y (Z.lxor 0xffffffff (Z.shiftl 1 (32 - p) - 1))).
Proof.
  intros Hp Hx Hy. rewrite masked_eq by (done || lia). split.
  - intros H i Hi. specialize (H (31 - i)). rewrite !addrBit_head in H by lia.
    replace (31 - (31 - i)) with i in H by lia. apply H. lia.
  - intros H i Hi. rewrite !addrBit_head by lia. apply H. lia.
Qed.

Lemma NETMASK_some p : 2 <= p <= 32 -> NETMASK p = Some (Z.lxor 0xffffffff (Z.shiftl 1 (32 - p) - 1)).
Proof. intros Hp. unfold NETMASK. replace ((32 - p <? 0) || (31 <=? 32 - p)) with false by lia. done. Qed.

Lemma lxor_0 x y : (Z.lxor x y =? 0) = bool_decide (x = y).
Proof. apply eq_true_iff_eq. rewrite Z.eqb_eq, bool_decide_eq_true. apply Z.lxor_eq_0_iff. Qed.

Lemma match6_spec a b p :
  words a -> words b -> length a = length b -> 0 <= p <= 32 * Z.of_nat (length a) -> p mod 32 <> 1 ->
  exists r, match6 a b p = Some r /\ (r = 0 <-> samePrefix p a b).
Proof.
  revert b p. induction a as [|x a IH]; intros [|y b] p Ha Hb Hl Hp H1; try done.
  { exists p. split; [done|]. assert (p = 0) as -> by (cbn in Hp; lia). split; [|done]. intros _ i Hi. lia. }
  apply Forall_cons in Ha as [Hx Ha]. apply Forall_cons in Hb as [Hy Hb]. cbn [length] in *.
  cbn [match6]. destruct (p <=? 0) eqn:Ep.
  { exists p. split; [done|]. assert (p = 0) as -> by lia. split; [|done]. intros _ i Hi. lia. }
  destruct (32 <=? p) eqn:E32.
  - rewrite lxor_0. destruct (bool_decide_reflect (x = y)) as [->|Hne]; cbn [negb].
    + destruct (IH b (p - 32)) as (r & Er & Hr); [done|done|lia|lia| |].
      { rewrite <- (Z.mod_add (p - 32) 1 32) by lia. by replace (p - 32 + 1 * 32) with p by lia. }
      exists r. split; [done|]. rewrite Hr, samePrefix_cons by (done || lia). tauto.
    + exists p. split; [done|]. rewrite samePrefix_cons by (done || lia). split; [lia|tauto].
  - assert (2 <= p).
    { destruct (decide (p = 1)) as [->|]; [|lia]. by rewrite Z.mod_small in H1 by lia. }
    rewrite NETMASK_some by lia. cbn [mbind option_bind]. rewrite lxor_0.
    eexists. split; [done|]. rewrite samePrefix_short by (done || lia).
    case_bool_decide; cbn [negb]; split; intros; (done || lia).
Qed.

(** The address the range of a family is compared with: the embedded IPv4 address,
    or the whole GID. *)
Definition comparedAddress (af : sa_family_t) (g : ibv_gid) : list Z :=
  match af with AF_INET => [gw3 g] | AF_INET6 => gidWords g end.

Definition rangeBits (af : sa_family_t) : Z := match af with AF_INET => 32 | AF_INET6 => 128 end.

Definition gid_words (g : ibv_gid) : Prop := words (gidWords g).

(** A GID is inside the configured address range exactly when its leading bits
    are those of the range: for IPv4 those of the embedded address, for IPv6 those of
    the whole GID.  (A last group of one bit is excluded: there the mask overflows.) *)
Theorem range_is_prefix (af : sa_family_t) (base : list Z) (p : Z) (g : ibv_gid)
  (Hbase : words base) (Hlen : length base = length (comparedAddress af g))
  (Hg : gid_words g) (Hp : 0 <= p <= rangeBits af) (H1 : p mod 32 <> 1) :
  exists r, matchGidAddrPrefix af (Some base) p g = Some r
            /\ (r = true <-> samePrefix p base (comparedAddress af g)).
Proof.
  unfold matchGidAddrPrefix. destruct (p <=? 0) eqn:Ep.
  { exists (p =? 0). split; [done|]. assert (p = 0) as -> by lia. split; [|done]. intros _ i Hi. lia. }
  cbn [mbind option_bind]. destruct af; cbn [comparedAddress rangeBits] in *.
  - destruct base as [|x [|? ?]]; try done. apply Forall_cons in Hbase as [Hx _].
    assert (in_u 32 (gw3 g)) as Hy by (eapply (Forall_forall _ _); [exact Hg|cbn; set_solver]).
    assert (2 <= p).
    { destruct (decide (p = 1)) as [->|]; [|lia]. by rewrite Z.mod_small in H1 by lia. }
    change (zget [x] 0) with (Some x). cbn [mbind option_bind]. rewrite NETMASK_some by lia. cbn [mbind option_bind].
    rewrite lxor_0. eexists. split; [done|]. rewrite bool_decide_eq_true.
    destruct (decide (p = 32)) as [->|].
    + rewrite samePrefix_cons by (done || lia). rewrite masked_eq, <- word_eq by (done || lia).
      split; [intros ->; split; [done|intros i Hi; lia]|by intros [-> _]].
    + by rewrite samePrefix_short by (done || lia).
  - destruct (match6_spec base (gidWords g) p) as (r & Er & Hr); [done|done|done| |done|].
    { rewrite Hlen. cbn. lia. }
    rewrite Er. cbn [mbind option_bind]. eexists. split; [done|]. by rewrite Z.eqb_eq.
Qed.

Lemma range_is_prefix_witness :
  let g := mkGid 0 0 0xffff 0xc0a80a05 in
  words [0xc0a80000] /\ gid_words g
  /\ exists r, matchGidAddrPrefix AF_INET (Some [0xc0a80000]) 16 g = Some r
               /\ (r = true <-> samePrefix 16 [0xc0a80000] [0xc0a80a05]).
Proof.
  cbn zeta.
  assert (words [0xc0a80000]) as Hb by (repeat constructor; unfold in_u; vm_compute; done).
  assert (gid_words (mkGid 0 0 0xffff 0xc0a80a05)) as Hg by (repeat constructor; unfold in_u; vm_compute; done).
  split; [exact Hb|]. split; [exact Hg|].
  apply (range_is_prefix AF_INET [0xc0a80000] 16 (mkGid 0 0 0xffff 0xc0a80a05)); [exact Hb|reflexivity|exact Hg| |].
  - cbn. lia.
  - vm_compute. discriminate.
Defined.

(** ** The entry of the GID table *)

(** A port whose [len] entries can all be read: [gids] and the RoCE versions [vers]. *)
Record table_reads (t : PortTables) (len : Z) (gids : Z -> ibv_gid) (vers : Z -> Z) : Prop := {
  tr_gid : forall i, 0 <= i < len -> query_gid t i = Some (gids i);
  tr_ver : forall St i (s : St), 0 <= i < len -> ncclIbRoceGetVersionNum t i s = (Done (Some (vers i)), s);
}.

Section Choice.
Context (t : PortTables) (len : Z) (gids : Z -> ibv_gid) (vers : Z -> Z).
Context (R : table_reads t len gids vers).
Context (af : sa_family_t) (prefix : option (list Z)) (prefixlen roceVer uninit : Z) (inside : Z -> bool).
Context (Hin : forall i, 0 <= i < len -> matchGidAddrPrefix af prefix prefixlen (gids i) = Some (inside i)).

(** Entries the user's settings ask for, leaving the address range aside. *)
Definition wanted (i : Z) : Prop :=
getGidAddrFamily (gids i) = af /\ validGid (gids i) = true /\ vers i = roceVer.

(** The update as a function of the table. *)
Definition better (cand cur : Z) : bool :=
bool_decide (getGidAddrFamily (gids cand) = af) && inside cand
&& (negb (bool_decide (getGidAddrFamily (gids cand) = getGidAddrFamily (gids cur)))
|| validGid (gids cand) && (vers cand =? roceVer)
 && (negb (vers cur =? vers cand) || negb (validGid (gids cur)))).

Lemma update_run {St} (s : St) cand cur :
0 <= cand < len -> 0 <= cur < len ->
ncclUpdateGidIndex t uninit af prefix prefixlen roceVer cand cur s
= (Done (if better cand cur then cand else cur), s).
Proof.
intros Hc Hu. unfold ncclUpdateGidIndex, wrap_ibv_query_gid, better.
rewrite !(tr_gid _ _ _ _ R) by done. nred. rewrite Hin by done. cbn [of_option]. nred.
repeat (case_bool_decide; cbn [negb andb orb]); destruct (inside cand), (validGid (gids cand)) eqn:Ev; cbn [negb andb orb];
try done; try congruence; rewrite ?andb_false_r;
try (nstep (tr_ver _ _ _ _ R St cur s Hu); nstep (tr_ver _ _ _ _ R St cand s Hc); unfold id in *; cbn [default id]; unfold id);
destruct (vers cur =? vers cand), (validGid (gids cur)), (vers cand =? roceVer); try done.
Qed.

Lemma better_keeps_wanted cand cur : wanted cur -> better cand cur = true -> wanted cand.
Proof.
unfold wanted, better. intros (Hf & Hv & Hr) H.
apply andb_true_iff in H as [[Hfam _]%andb_true_iff H]. apply bool_decide_eq_true in Hfam.
rewrite bool_decide_eq_true_2 in H by congruence. cbn [negb orb] in H.
apply andb_true_iff in H as [[? ?%Z.eqb_eq]%andb_true_iff _]. done.
Qed.

Lemma wanted_is_better cand cur :
wanted cand -> inside cand = true -> better cand cur = false -> wanted cur.
Proof.
unfold wanted, better. intros (Hf & Hv & Hr) Hi H.
rewrite bool_decide_eq_true_2, Hi, Hv in H by done. rewrite Hr, Z.eqb_refl in H. cbn [andb] in H.
apply orb_false_iff in H as [H1 H2]. apply negb_false_iff, bool_decide_eq_true in H1.
apply orb_false_iff in H2 as [H2%negb_false_iff%Z.eqb_eq H3%negb_false_iff]. split_and!; congruence.
Qed.

Lemma gidLoop_spec {St} (n : nat) (next cur : Z) (s : St) :
0 <= cur < next -> next + Z.of_nat n <= len ->
exists r, gidLoop t uninit af prefix prefixlen roceVer n next cur s = (Done r, s)
/\ 0 <= r < next + Z.of_nat n
/\ (r = cur \/ getGidAddrFamily (gids r) = af /\ inside r = true)
/\ (wanted cur \/ (exists i, next <= i < next + Z.of_nat n /\ wanted i /\ inside i = true) -> wanted r).
Proof.
revert next cur. induction n as [|n IH]; intros next cur Hcur Hlen.
- exists cur. split_and!; [done|lia|lia|by left|]. intros [?|(i & ? & _)]; [done|lia].
- cbn [gidLoop]. nstep (update_run s next cur ltac:(lia) ltac:(lia)).
destruct (IH (next + 1) (if better next cur then next else cur)) as (r & E & Hr & Hfam & Hw);
[case_match; lia|lia|].
exists r. split; [done|]. split; [lia|]. split.
+ destruct Hfam as [->|?]; [|by right]. destruct (better next cur) eqn:Eb; [|by left]. right.
unfold better in Eb. apply andb_true_iff in Eb as [[? ?]%andb_true_iff _]. by apply bool_decide_eq_true in H.
+ intros [Hc|(i & Hi & Hwi & Hini)]; apply Hw.
* left. destruct (better next cur) eqn:Eb; [by eapply better_keeps_wanted|done].
* destruct (decide (i = next)) as [->|]; [|right; exists i; split; [lia|done]]. left.
destruct (better next cur) eqn:Eb; [done|by eapply wanted_is_better].
Qed.
End Choice.

(** What the settings ask of a GID: the address range is that of the environment. *)
Definition settingsRange (gp : GidParams) inet_pton (g : ibv_gid) : option bool :=
  let af := envIbAddrFamily gp in
  let '(prefix, prefixlen) := envIbAddrRange gp inet_pton af in
  matchGidAddrPrefix af prefix prefixlen g.

(** On a RoCE port, when some entry after the first has the address family and
    the RoCE version the user asks for, is a usable address and lies in the address
    range, the entry chosen has the family and the version and is usable; and unless
    it is the first entry it lies in the range. *)
Theorem gid_choice {St} (gp : GidParams) inet_pton (t : PortTables) (uninit link_layer len : Z)
  (gids : Z -> ibv_gid) (vers : Z -> Z) (inside : Z -> bool) (s : St) (i : Z)
  (R : table_reads t len gids vers)
  (Hin : forall i, 0 <= i < len -> settingsRange gp inet_pton (gids i) = Some (inside i))
  (Hroce : link_layer <> IBV_LINK_LAYER_INFINIBAND) (Hauto : i32 (ncclParamIbGidIndex gp) < 0)
  (Hi : 1 <= i < len)
  (Hw : wanted gids vers (envIbAddrFamily gp) (i32 (ncclParamIbRoceVersionNum gp)) i) (Hii : inside i = true) :
  exists r, ncclIbGetGidIndex gp inet_pton t uninit link_layer len s = (Done r, s)
    /\ 0 <= r < len
    /\ wanted gids vers (envIbAddrFamily gp) (i32 (ncclParamIbRoceVersionNum gp)) r
    /\ (r <> 0 -> inside r = true).
Proof.
  unfold settingsRange in Hin. unfold ncclIbGetGidIndex.
  replace (link_layer =? IBV_LINK_LAYER_INFINIBAND) with false by lia.
  replace (0 <=? i32 (ncclParamIbGidIndex gp)) with false by lia.
  destruct (envIbAddrRange gp inet_pton (envIbAddrFamily gp)) as [prefix prefixlen].
  destruct (gidLoop_spec t len gids vers R (envIbAddrFamily gp) prefix prefixlen (i32 (ncclParamIbRoceVersionNum gp))
    uninit inside Hin (Z.to_nat (len - 1)) 1 0 s) as (r & E & Hr & Hf & Hwr); [lia|lia|].
  exists r. split; [done|]. split; [lia|]. split; [|intros Hne; destruct Hf as [?|[_ ?]]; [lia|done]].
  apply Hwr. right. exists i. split; [lia|done].
Qed.

(** A table of three entries: a link-local address, a RoCE v1 and a RoCE v2 one. *)
Definition demoGids (i : Z) : ibv_gid :=
  if i =? 0 then mkGid 0xfe800000 0 0x1234 0x5678 else mkGid 0 0 0xffff 0x0a000001.
Definition demoVers (i : Z) : Z := if i =? 2 then 2 else 1.
Definition demoTable : PortTables := {|
  query_gid i := Some (demoGids i);
  gid_type_file i := Some (ReadText (lit (if demoVers i =? 2 then "RoCE v2" else "IB/RoCE v1")));
  query_pkey _ := None |}.
Definition demoGp : GidParams := mkGidParams (-1) 1 2 0 (-1) 24 None None.

Lemma demoTable_reads : table_reads demoTable 3 demoGids demoVers.
Proof.
  split; [done|]. intros St i s Hi. unfold ncclIbRoceGetVersionNum, demoTable, gid_type_file, demoVers.
  assert (i = 0 \/ i = 1 \/ i = 2) as [->|[->| ->]] by lia; vm_compute; done.
Qed.

Lemma gid_choice_witness :
  exists r, ncclIbGetGidIndex demoGp (fun _ _ => None) demoTable 7 IBV_LINK_LAYER_ETHERNET 3 tt = (Done r, tt)
    /\ 0 <= r < 3 /\ wanted demoGids demoVers AF_INET 2 r /\ (r <> 0 -> true = true).
Proof.
  refine (gid_choice demoGp (fun _ _ => None) demoTable 7 IBV_LINK_LAYER_ETHERNET 3 demoGids demoVers
    (fun _ => true) tt 2 demoTable_reads _ _ _ _ _ eq_refl).
  - intros i Hi. reflexivity.
  - discriminate.
  - vm_compute. reflexivity.
  - lia.
  - repeat split; vm_compute; reflexivity.
Defined.

(** Concrete tables on which the choice does not do what the settings ask. *)
Definition rangeGp : GidParams :=
  mkGidParams (-1) 1 2 0 (-1) 24 None (Some (lit "10.1.0.0/16")).
Definition pton (af : sa_family_t) (s : cstring) : option (list Z) :=
  match af with AF_INET => Some [0x0a010000] | AF_INET6 => None end.
Definition twoEntries (first : SysRead) : PortTables := {|
  query_gid i := Some (if i =? 0 then mkGid 0 0 0xffff 0xc0a80001 else mkGid 0 0 0xffff 0x0a010001);
  gid_type_file i := Some (if i =? 0 then first else ReadText (lit "RoCE v2"));
  query_pkey _ := None |}.

(** The first entry is outside [NCCL_IB_ADDR_RANGE], the second inside and in every
    other respect like the first: the first is chosen. *)
Lemma first_entry_escapes_range :
  settingsRange rangeGp pton (mkGid 0 0 0xffff 0xc0a80001) = Some false
  /\ settingsRange rangeGp pton (mkGid 0 0 0xffff 0x0a010001) = Some true
  /\ fst (ncclIbGetGidIndex rangeGp pton (twoEntries (ReadText (lit "RoCE v2"))) 0
            IBV_LINK_LAYER_ETHERNET 2 tt) = Done 0.
Proof. vm_compute. done. Qed.

(** When the version of the current entry cannot be read, the choice depends on what
    the stack holds. *)
Lemma version_uninitialised :
  fst (ncclIbGetGidIndex rangeGp pton (twoEntries ReadEINVAL) 2 IBV_LINK_LAYER_ETHERNET 2 tt) = Done 0
  /\ fst (ncclIbGetGidIndex rangeGp pton (twoEntries ReadEINVAL) 0 IBV_LINK_LAYER_ETHERNET 2 tt) = Done 1.
Proof. vm_compute. done. Qed.

(** A range of one bit: the mask is computed with a signed overflow. *)
Lemma one_bit_range_overflows g : matchGidAddrPrefix AF_INET (Some [0]) 1 g = None.
Proof. reflexivity. Qed.

(** ** The partition key *)

Lemma pkeyLoop_spec {St} (t : PortTables) target n index (s : St) r s' :
  pkeyLoop t target n index s = (Done r, s') ->
  s' = s /\ index <= r < index + Z.of_nat n
  /\ (exists k, query_pkey t r = Some k /\ Z.land k 0x7fff = target)
  /\ (forall j, index <= j < r -> exists k, query_pkey t j = Some k /\ Z.land k 0x7fff <> target).
Proof.
  revert index. induction n as [|n IH]; intros index; cbn [pkeyLoop]; [done|].
  destruct (query_pkey t index) as [k|] eqn:Ek; [|done].
  destruct (Z.land k 0x7fff =? target) eqn:E.
  - intros [= <- <-]. split; [done|]. split; [lia|]. split; [exists k; split; [done|lia]|]. intros j Hj. lia.
  - intros H. destruct (IH _ H) as (-> & Hr & Hk & Hj). split; [done|]. split; [lia|]. split; [done|].
    intros j Hjr. destruct (decide (j = index)) as [->|]; [exists k; split; [done|lia]|apply Hj; lia].
Qed.

(** Asked for a partition key by value, the lookup returns the first index of the
    table that holds it, whatever its membership bit. *)
Theorem pkey_index_first {St} (gp : GidParams) (t : PortTables) (pkey_tbl_len : Z) (s s' : St) (r : Z)
  (Hval : 0 <= ncclParamIbPkeyValue gp) (H : ncclIbGetPkeyIndex gp t pkey_tbl_len s = (Done r, s')) :
  0 <= r < pkey_tbl_len
  /\ (exists k, query_pkey t r = Some k /\ k mod 2 ^ 15 = ncclParamIbPkeyValue gp mod 2 ^ 15)
  /\ forall j, 0 <= j < r -> exists k, query_pkey t j = Some k /\ k mod 2 ^ 15 <> ncclParamIbPkeyValue gp mod 2 ^ 15.
Proof.
  unfold ncclIbGetPkeyIndex in H. replace (ncclParamIbPkeyValue gp <? 0) with false in H by lia.
  change 0x7fff with (Z.ones 15) in H. rewrite Z.land_ones in H by lia.
  apply pkeyLoop_spec in H as (_ & Hr & (k & Ek & Hk) & Hj).
  change 0x7fff with (Z.ones 15) in *. rewrite Z.land_ones in Hk by lia.
  split; [lia|]. split; [by exists k|]. intros j Hjr. destruct (Hj j ltac:(lia)) as (k' & E' & H').
  rewrite Z.land_ones in H' by lia. by exists k'.
Qed.

Lemma pkey_index_first_witness :
  let t := mkPortTables (fun _ => None) (fun _ => None) (fun i => Some (if i =? 1 then 0x8005 else 0xffff)) in
  0 <= 1 < 4
  /\ (exists k, query_pkey t 1 = Some k /\ k mod 2 ^ 15 = 5 mod 2 ^ 15)
  /\ forall j, 0 <= j < 1 -> exists k, query_pkey t j = Some k /\ k mod 2 ^ 15 <> 5 mod 2 ^ 15.
Proof.
  cbn zeta. apply (pkey_index_first (mkGidParams (-1) 1 2 0 5 24 None None)
    (mkPortTables (fun _ => None) (fun _ => None) (fun i => Some (if i =? 1 then 0x8005 else 0xffff))) 4 tt tt 1).
  - vm_compute. discriminate.
  - vm_compute. reflexivity.
Defined.

(** ** A device for the peer's subnets *)

Section Subnet.
Context (remoteGids : list ibv_gid) (prefixLen : Z) (Hpl : 1 <= prefixLen <= 32).

(** Two addresses of one family on one subnet. *)
Definition onSubnet (a b : ibv_gid) : bool := default false (gidSameSubnet a b prefixLen).

Definition reaches (g : ibv_gid) : bool :=
validGid g && existsb (fun r => validGid r && onSubnet g r) remoteGids.

Lemma gidSameSubnet_total a b : gidSameSubnet a b prefixLen = Some (onSubnet a b).
Proof.
unfold onSubnet. destruct (gidSameSubnet a b prefixLen) eqn:E; [done|]. exfalso. revert E.
unfold gidSameSubnet, subnetMask. replace ((32 - prefixLen <? 0) || (32 <=? 32 - prefixLen)) with false by lia.
by repeat case_match.
Qed.

Lemma subnetMatchesAny_spec g :
subnetMatchesAny g remoteGids prefixLen = Some (existsb (fun r => validGid r && onSubnet g r) remoteGids).
Proof.
induction remoteGids as [|r rs IH]; [done|]. cbn [subnetMatchesAny existsb].
destruct (validGid r) eqn:E; cbn [andb]; [rewrite gidSameSubnet_total|]; cbn [mbind option_bind]; [|done].
by destruct (onSubnet g r).
Qed.

(** A device works when it has a RoCE port whose address is known, and every such
port reaches the peer. *)
Definition known (p : PortGid) : option ibv_gid :=
if pg_ethernet p then match pg_gid p with Done g => Some g | _ => None end else None.

Definition works (ports : list PortGid) : Prop :=
Exists (fun p => is_Some (known p)) ports /\ Forall (fun p => forall g, known p = Some g -> reaches g = true) ports.

Definition defined (ports : list PortGid) : Prop := Forall (fun p => pg_gid p <> Fault) ports.

Lemma countMatches_spec ports checked matched :
defined ports ->
exists c m, countMatches ports remoteGids prefixLen checked matched = Some (checked + c, matched + m)
/\ 0 <= m <= c /\ (0 < c <-> Exists (fun p => is_Some (known p)) ports)
/\ (m = c <-> Forall (fun p => forall g, known p = Some g -> reaches g = true) ports).
Proof.
revert checked matched. induction ports as [|p ports IH]; intros checked matched Hd.
{ exists 0, 0. rewrite !Z.add_0_r. split_and!; [done|lia|lia| |]; rewrite ?Exists_nil, ?Forall_nil; split; (done || lia). }
apply Forall_cons in Hd as [Hp Hd]. cbn [countMatches].
assert (known p = None -> exists c m,
countMatches ports remoteGids prefixLen checked matched = Some (checked + c, matched + m)
/\ 0 <= m <= c /\ (0 < c <-> Exists (fun p => is_Some (known p)) (p :: ports))
/\ (m = c <-> Forall (fun p => forall g, known p = Some g -> reaches g = true) (p :: ports))) as Hskip.
{ intros Hn. destruct (IH checked matched Hd) as (c & m & E & H1 & H2 & H3). exists c, m.
rewrite Exists_cons, Forall_cons, Hn, H2, H3. split_and!; [done|lia|lia| |]; split; [by right|intros [[? ?]|?]; done|done|by intros []]. }
unfold known in Hskip at 1. destruct (pg_ethernet p) eqn:Ee; cbn [negb]; [|by apply Hskip].
destruct (pg_gid p) as [g|r|] eqn:Eg; [|by apply Hskip|done]. clear Hskip.
assert (known p = Some g) as Hk by (unfold known; by rewrite Ee, Eg).
rewrite subnetMatchesAny_spec.
assert ((if validGid g then Some (existsb (fun r => validGid r && onSubnet g r) remoteGids) else Some false)
= Some (reaches g)) as -> by (unfold reaches; by destruct (validGid g)).
cbn [mbind option_bind].
destruct (IH (checked + 1) (if reaches g then matched + 1 else matched) Hd) as (c & m & E & H1 & H2 & H3).
exists (1 + c), (if reaches g then 1 + m else m). rewrite E, Exists_cons, Forall_cons, Hk.
split_and!; [f_equal; f_equal; [lia|destruct (reaches g); lia]|destruct (reaches g); lia|destruct (reaches g); lia| |].
- split; [intros _; left; by eexists|lia].
- destruct (reaches g) eqn:Er; [|split; [lia|intros [Hf _]; by rewrite (Hf g eq_refl) in Er]].
rewrite <- H3. split; [intros ?; split; [by intros ? [= <-]|lia]|intros [_ ?]; lia].
Qed.

Lemma allPortsMatch_spec ports :
defined ports -> exists b, allPortsMatch ports remoteGids prefixLen = Some b /\ (b = true <-> works ports).
Proof.
intros Hd. destruct (countMatches_spec ports 0 0 Hd) as (c & m & E & H1 & H2 & H3).
unfold allPortsMatch, works. rewrite E. cbn [mbind option_bind]. eexists. split; [done|].
rewrite <- H2, <- H3, andb_true_iff. lia.
Qed.

Lemma searchSubnet_spec merged i defaultDev :
Forall defined merged ->
exists o, searchSubnet merged i defaultDev remoteGids prefixLen = Some o
/\ match o with
 | Some d => exists ports, zget merged (d - i) = Some ports /\ works ports /\ d <> defaultDev
 | None => forall d ports, zget merged (d - i) = Some ports -> d <> defaultDev -> ~ works ports
 end.
Proof.
revert i. induction merged as [|ports merged IH]; intros i Hd.
{ exists None. split; [done|]. intros d ports E. apply zget_Some in E. cbn in E. lia. }
apply Forall_cons in Hd as [Hp Hd]. cbn [searchSubnet].
assert (forall d, d <> i -> zget (ports :: merged) (d - i) = zget merged (d - (i + 1))) as Hshift.
{ intros d Hne. unfold zget. repeat case_decide; try lia; [|done].
replace (Z.to_nat (d - i)) with (S (Z.to_nat (d - (i + 1)))) by lia. done. }
destruct (IH (i + 1) Hd) as (o & E & Ho).
assert (i = defaultDev \/ ~ works ports ->
match o with
| Some d => exists ports', zget (ports :: merged) (d - i) = Some ports' /\ works ports' /\ d <> defaultDev
| None => forall d ports', zget (ports :: merged) (d - i) = Some ports' -> d <> defaultDev -> ~ works ports'
end) as Hnext.
{ intros Hno. destruct o as [d|].
- destruct Ho as (ports' & E' & Hw & Hne). exists ports'. rewrite Hshift; [done|].
intros ->. apply zget_Some in E'. lia.
- intros d ports' E' Hne. destruct (decide (d = i)) as [->|Hdi].
+ rewrite Z.sub_diag in E'. unfold zget in E'. cbn in E'. injection E' as <-. by destruct Hno.
+ rewrite Hshift in E' by done. by eapply Ho. }
destruct (i =? defaultDev) eqn:Ei; [exists o; split; [done|apply Hnext; lia]|].
destruct (allPortsMatch_spec ports Hp) as (b & -> & Hb). cbn [mbind option_bind]. destruct b.
- exists (Some i). split; [done|]. exists ports. rewrite Z.sub_diag. split; [done|]. split; [tauto|lia].
- exists o. split; [done|]. apply Hnext. right. intros ?%Hb. done.
Qed.
End Subnet.

(** Subnet-aware routing keeps the default device when it works or when no device
    does, and otherwise picks a device that works: one with a RoCE port of known
    address, all such ports on a subnet of one of the peer's valid addresses. *)
Theorem routing_picks_working_device {St} (prefixLen : Z) (merged : list (list PortGid))
  (remoteGids : list ibv_gid) (defaultDev : Z) (s : St)
  (Hpl : 1 <= prefixLen <= 32) (Hv : existsb validGid remoteGids = true) (Hd : Forall defined merged) :
  exists r, ncclIbFindDevBySubnet prefixLen merged remoteGids defaultDev s = (Done r, s)
  /\ (forall ports, zget merged defaultDev = Some ports -> works remoteGids prefixLen ports -> r = defaultDev)
  /\ ((exists ports, zget merged r = Some ports /\ works remoteGids prefixLen ports)
      \/ r = defaultDev /\ forall d ports, zget merged d = Some ports -> ~ works remoteGids prefixLen ports).
Proof.
  unfold ncclIbFindDevBySubnet. replace ((prefixLen <? 1) || (32 <? prefixLen)) with false by lia.
  rewrite Hv. cbn [negb].
  destruct (searchSubnet_spec remoteGids prefixLen Hpl merged 0 defaultDev Hd) as (o & E & Ho).
  assert (exists keep, (match zget merged defaultDev with
     | Some ports => allPortsMatch ports remoteGids prefixLen | None => Some false end) = Some keep
     /\ (keep = true <-> exists ports, zget merged defaultDev = Some ports /\ works remoteGids prefixLen ports))
    as (keep & -> & Hkeep).
  { destruct (zget merged defaultDev) as [ports|] eqn:Ed; [|exists false; split; [done|]; split; [done|by intros (? & ? & _)]].
    assert (defined ports) as Hp.
    { rewrite Forall_forall in Hd. apply Hd. unfold zget in Ed. case_decide; [|done]. by eapply list_elem_of_lookup_2. }
    destruct (allPortsMatch_spec remoteGids prefixLen Hpl ports Hp) as (b & -> & Hb). exists b. split; [done|].
    rewrite Hb. split; [by eexists|]. by intros (? & [= <-] & ?). }
  nred. destruct keep.
  - exists defaultDev. split; [done|]. split; [done|]. left. by apply Hkeep.
  - rewrite E. nred. exists (default defaultDev o). split; [done|]. split.
    { intros ports Ed Hw. by assert (false = true) by (apply Hkeep; by exists ports). }
    destruct o as [d|].
    + left. destruct Ho as (ports & Ed & Hw & _). rewrite Z.sub_0_r in Ed. by exists ports.
    + right. split; [done|]. intros d ports Ed Hw. destruct (decide (d = defaultDev)) as [->|Hne].
      * by assert (false = true) by (apply Hkeep; by exists ports).
      * eapply (Ho d ports); [by rewrite Z.sub_0_r|done|done].
Qed.

Lemma routing_picks_working_device_witness :
  let a := mkGid 0 0 0xffff 0x0a000001 in let b := mkGid 0 0 0xffff 0x0a000102 in
  let merged := [[mkPortGid true (Done a)]; [mkPortGid true (Done (mkGid 0 0 0xffff 0x0a000101))]] in
  exists r, ncclIbFindDevBySubnet 24 merged [b; zeroGid] 0 tt = (Done r, tt)
  /\ (forall ports, zget merged 0 = Some ports -> works [b; zeroGid] 24 ports -> r = 0)
  /\ ((exists ports, zget merged r = Some ports /\ works [b; zeroGid] 24 ports)
      \/ r = 0 /\ forall d ports, zget merged d = Some ports -> ~ works [b; zeroGid] 24 ports).
Proof.
  cbn zeta. apply (routing_picks_working_device 24
    [[mkPortGid true (Done (mkGid 0 0 0xffff 0x0a000001))]; [mkPortGid true (Done (mkGid 0 0 0xffff 0x0a000101))]]
    [mkGid 0 0 0xffff 0x0a000102; zeroGid] 0 tt).
  - lia.
  - vm_compute. reflexivity.
  - repeat constructor; discriminate.
Defined.
