(* ===== verification/ConnTypes.v ===== *)
(** * Connection set-up: data

    The structures [net/transport/net_ib/connect.h] and [common.h] use to set up a
    connection, and the calls to the provider.  A communicator under construction is
    a [Conn]: the members the data path reads are those of [NetTypes.Net]; the other
    members of a queue pair, a device or the resiliency context stand beside it in
    arrays with the same indices ([QpConn], [DevConn], [ResDevConn]).  Provider
    handles are flags; a handle's numbers (queue-pair number, keys) are stored. *)

From S2P Require Import Prelude NetTypes NetBase NetInit ConnGid.

Open Scope Z_scope.
Open Scope nccl_scope.

(** ** Ports of the host *)

Record ibv_port_attr := mkPortAttr {
  active_mtu : Z;
  pa_lid : Z;
  pa_link_layer : Z;
  pa_flags : Z;
  gid_tbl_len : Z;
  pkey_tbl_len : Z;
}.

Record ncclIbGidInfo := mkGidInfo { gi_link_layer : Z; localGid : ibv_gid; localGidIndex : Z }.

(** The members of [ncclIbDev] the set-up reads; [currSpeed] and the error count are
    in [NetTypes.ncclIbDev]. *)
Record IbPort := mkIbPort {
  portNum : Z;
  hasMrcContext : bool;
  pdRefs : Z;
  hasPd : bool;
  port_ar : bool;
  oooRqSize : Z;
  portAttr : ibv_port_attr;
  isMlx5 : bool;
  gidInfo : ncclIbGidInfo;
}.

(** [ncclNetVDeviceProps_t]. *)
Record ncclNetVDeviceProps_t := mkVProps { vp_ndevs : Z; vp_devs : list Z }.

(** ** Queue pairs *)

Record ibv_ece := mkEce { ece_vendor_id : Z; ece_options : Z; ece_comp_mask : Z }.
Definition zeroEce : ibv_ece := mkEce 0 0 0.

Inductive ibv_qp_state : Type := IBV_QPS_RESET | IBV_QPS_INIT | IBV_QPS_RTR | IBV_QPS_RTS | IBV_QPS_ERR.
Inductive ibv_qp_type : Type := IBV_QPT_RC | IBV_QPT_UC.
Inductive accessFlag : Type :=
  | IBV_ACCESS_LOCAL_WRITE | IBV_ACCESS_REMOTE_WRITE | IBV_ACCESS_REMOTE_READ | IBV_ACCESS_REMOTE_ATOMIC.

(** The bits of the mask of [ibv_modify_qp], as a list. *)
Inductive qpAttrFlag : Type :=
  | IBV_QP_STATE | IBV_QP_PKEY_INDEX | IBV_QP_PORT | IBV_QP_ACCESS_FLAGS | IBV_QP_AV | IBV_QP_PATH_MTU
  | IBV_QP_DEST_QPN | IBV_QP_RQ_PSN | IBV_QP_MAX_DEST_RD_ATOMIC | IBV_QP_MIN_RNR_TIMER | IBV_QP_SQ_PSN
  | IBV_QP_TIMEOUT | IBV_QP_RETRY_CNT | IBV_QP_RNR_RETRY | IBV_QP_MAX_QP_RD_ATOMIC.

#[export] Instance ibv_ece_eq_dec : EqDecision ibv_ece.
Proof. solve_decision. Defined.
#[export] Instance ibv_qp_state_eq_dec : EqDecision ibv_qp_state.
Proof. solve_decision. Defined.
#[export] Instance ibv_qp_type_eq_dec : EqDecision ibv_qp_type.
Proof. solve_decision. Defined.
#[export] Instance accessFlag_eq_dec : EqDecision accessFlag.
Proof. solve_decision. Defined.
#[export] Instance qpAttrFlag_eq_dec : EqDecision qpAttrFlag.
Proof. solve_decision. Defined.

Record ncclIbQpInitAttr := mkInitAttr {
  ia_pkeyIndex : Z;
  ia_portNum : Z;
  ia_qpAccessFlags : list accessFlag;
}.

Record ncclIbQpRtrAttr := mkRtrAttr {
  ra_mtu : Z;
  ra_linkLayer : Z;
  ra_tc : Z;
  ra_sl : Z;
  ra_remoteQpNum : Z;
  ra_remoteLid : Z;
  ra_remoteGid : ibv_gid;
  ra_localIbPort : Z;
  ra_localPortFlags : Z;
  ra_localGid : ibv_gid;
  ra_localGidIndex : Z;
}.

Record ncclIbQpRtsAttr := mkRtsAttr { sa_timeout : Z; sa_retryCnt : Z }.

(** The members of [ncclIbQp] that [NetTypes.ncclIbQp] leaves out; [qc_type] is the
    type of the verbs object. *)
Record QpConn := mkQpConn {
  hasQp : bool;
  hasMrcQp : bool;
  hasMrcQpHint : bool;
  qc_type : ibv_qp_type;
  ece : ibv_ece;
  eceSupported : bool;
  initAttr : ncclIbQpInitAttr;
  rtrAttr : ncclIbQpRtrAttr;
  rtsAttr : ncclIbQpRtsAttr;
}.

Definition zeroInitAttr : ncclIbQpInitAttr := mkInitAttr 0 0 [].
Definition zeroRtrAttr : ncclIbQpRtrAttr := mkRtrAttr 0 0 0 0 0 0 zeroGid 0 0 zeroGid 0.
Definition zeroQpConn : QpConn :=
  mkQpConn false false false IBV_QPT_RC zeroEce false zeroInitAttr zeroRtrAttr (mkRtsAttr 0 0).

(** A queue pair of a communicator. *)
Inductive QpKind : Type := Data | Flush | Probing | Recovery.
Definition QpId : Type := QpKind * Z.

#[export] Instance QpKind_eq_dec : EqDecision QpKind.
Proof. solve_decision. Defined.

(** [struct ibv_qp_attr] with its address handle; [memset] to zero is [zeroQpAttr]. *)
Record ibv_ah_attr := mkAhAttr {
  ah_is_global : bool;
  ah_dgid : ibv_gid;
  ah_sgid_index : Z;
  ah_hop_limit : Z;
  ah_traffic_class : Z;
  ah_dlid : Z;
  ah_sl : Z;
  ah_port_num : Z;
}.

Record ibv_qp_attr := mkQpAttr {
  qp_state : ibv_qp_state;
  qa_pkey_index : Z;
  qa_port_num : Z;
  qa_access_flags : list accessFlag;
  qa_path_mtu : Z;
  qa_dest_qp_num : Z;
  qa_rq_psn : Z;
  qa_sq_psn : Z;
  qa_max_dest_rd_atomic : Z;
  qa_min_rnr_timer : Z;
  qa_ah : ibv_ah_attr;
  qa_timeout : Z;
  qa_retry_cnt : Z;
  qa_rnr_retry : Z;
  qa_max_rd_atomic : Z;
}.

Definition zeroAh : ibv_ah_attr := mkAhAttr false zeroGid 0 0 0 0 0 0.
Definition zeroQpAttr (st : ibv_qp_state) : ibv_qp_attr :=
  mkQpAttr st 0 0 [] 0 0 0 0 0 0 zeroAh 0 0 0 0.

(** [ncclIbQpCreateAttr]: the completion queue and the protection domain are those of
    the device [ca_dev]; [ca_mrc] says [mrcContext] is not NULL. *)
Inductive CqKind : Type := DataQueue | MrcQueue | ProbingQueue | RecoveryQueue.

Record ncclIbQpCreateAttr := mkCreateAttr {
  ca_type : ibv_qp_type;
  ca_oooRq : bool;
  ca_mrc : bool;
  ca_cq : CqKind;
  ca_dev : Z;
  ca_numQpsPerPeer : Z;
  ca_maxRecvWorkRequest : Z;
  ca_maxSendWorkRequest : Z;
  ca_maxInlineData : Z;
}.

(** ** What the two ends tell each other *)

Record ncclIbQpInfo := mkQpInfo {
  qi_qpn : Z;
  qi_ece : ibv_ece;
  qi_ece_supported : bool;
  qi_devIndex : Z;
}.

(** [ncclIbDevInfo]; the members the data path reads are [rkey], [currSpeed] and
    [remSpeedBufRkey]. *)
Record DevInfo := mkDevInfoX {
  di_lid : Z;
  di_ib_port : Z;
  di_mtu : Z;
  di_link_layer : Z;
  di_gid : ibv_gid;
  di_rkey : Z;
  di_currSpeed : Z;
}.

Definition zeroQpInfo : ncclIbQpInfo := mkQpInfo 0 zeroEce false 0.
Definition zeroDevInfo : DevInfo := mkDevInfoX 0 0 0 0 zeroGid 0 0.

(** [ncclIbConnectionMetadata]; [devName] serves a log message only. *)
Record Metadata := mkMetadata {
  md_qpInfo : list ncclIbQpInfo;
  md_probingQpsInfo : list ncclIbQpInfo;
  md_portRecoveryQpsInfo : list ncclIbQpInfo;
  md_devs : list DevInfo;
  md_addr : Z;
  md_remSpeedBufAddr : Z;
  md_remSpeedBufRkey : Z;
  md_ndevs : Z;
  md_tc : Z;
  md_sl : Z;
}.

Definition zeroMetadata : Metadata :=
  mkMetadata (replicate (Z.to_nat NCCL_IB_MAX_QPS) zeroQpInfo)
    (replicate (Z.to_nat NCCL_IB_MAX_DEVS_PER_NIC) zeroQpInfo)
    (replicate (Z.to_nat NCCL_IB_MAX_DEVS_PER_NIC) zeroQpInfo)
    (replicate (Z.to_nat NCCL_IB_MAX_DEVS_PER_NIC) zeroDevInfo) 0 0 0 0 0 0.

(** Equality of what the two ends tell each other, by computation. *)
Definition ncclIbQpInfo_eqb (x y : ncclIbQpInfo) : bool :=
  (qi_qpn x =? qi_qpn y) && (qi_devIndex x =? qi_devIndex y) && Bool.eqb (qi_ece_supported x) (qi_ece_supported y)
  && (ece_vendor_id (qi_ece x) =? ece_vendor_id (qi_ece y)) && (ece_options (qi_ece x) =? ece_options (qi_ece y))
  && (ece_comp_mask (qi_ece x) =? ece_comp_mask (qi_ece y)).

Lemma ncclIbQpInfo_eqb_eq x y : ncclIbQpInfo_eqb x y = true <-> x = y.
Proof.
  unfold ncclIbQpInfo_eqb. rewrite !andb_true_iff, !Z.eqb_eq, Bool.eqb_true_iff.
  destruct x as [? [] ? ?], y as [? [] ? ?]; cbn. split; [|naive_solver]. intros [[[[[-> ->] ->] ->] ->] ->]. done.
Qed.

#[export] Instance ncclIbQpInfo_eq_dec : EqDecision ncclIbQpInfo := eqb_dec _ ncclIbQpInfo_eqb_eq.
#[export] Instance DevInfo_eq_dec : EqDecision DevInfo.
Proof. solve_decision. Defined.

Definition Metadata_eqb (x y : Metadata) : bool :=
  (md_addr x =? md_addr y) && (md_remSpeedBufAddr x =? md_remSpeedBufAddr y) && (md_remSpeedBufRkey x =? md_remSpeedBufRkey y)
  && (md_ndevs x =? md_ndevs y) && (md_tc x =? md_tc y) && (md_sl x =? md_sl y)
  && list_eqb ncclIbQpInfo_eqb (md_qpInfo x) (md_qpInfo y)
  && list_eqb ncclIbQpInfo_eqb (md_probingQpsInfo x) (md_probingQpsInfo y)
  && list_eqb ncclIbQpInfo_eqb (md_portRecoveryQpsInfo x) (md_portRecoveryQpsInfo y)
  && bool_decide (md_devs x = md_devs y).

Lemma Metadata_eqb_eq x y : Metadata_eqb x y = true <-> x = y.
Proof.
  unfold Metadata_eqb. rewrite !andb_true_iff, !Z.eqb_eq, bool_decide_eq_true.
  rewrite !(list_eqb_eq _ ncclIbQpInfo_eqb_eq). destruct x, y; cbn. split; [|intros [= -> -> -> -> -> -> -> -> -> ->]; by split_and!].
  intros [[[[[[[[[-> ->] ->] ->] ->] ->] ->] ->] ->] ->]. done.
Qed.

#[export] Instance Metadata_eq_dec : EqDecision Metadata := eqb_dec _ Metadata_eqb_eq.
#[export] Instance vProps_eq_dec : EqDecision ncclNetVDeviceProps_t.
Proof. solve_decision. Defined.

(** ** Calls to the provider *)

Record Mr := mkMr { mr_lkey : Z; mr_rkey : Z }.

(** The memory regions of a communicator. *)
Inductive Region : Type :=
  | PutSignalScratchpad | CtsFifo | CmplsRecords | RemoteSpeedBuf | SpeedUpdateBuf | FlushHostMem
  | ProbingResults.

(** A completion queue of device [d] of the communicator. *)
Definition CqId : Type := CqKind * Z.

Inductive Call : Type :=
  | AllocPd (ibDevN : Z)
  | DeallocPd (ibDevN : Z)
  | CreateCq (q : CqId) (size : Z)
  | DestroyCq (q : CqId)
  | CreateQp (q : QpId) (attrs : ncclIbQpCreateAttr)
  | DestroyQp (q : QpId)
  | CreateMrcQp (q : QpId) (attrs : ncclIbQpCreateAttr)
  | GetMrcQpn (q : QpId)
  | DestroyMrcQp (q : QpId)
  | CreateQpHint (q : QpId) (nqps initRate minRate maxRate : Z)
  | DestroyQpHint (q : QpId)
  | ModifyQp (q : QpId) (attr : ibv_qp_attr) (mask : list qpAttrFlag)
  | ModifyMrcQp (q : QpId) (attr : ibv_qp_attr) (mask : list qpAttrFlag) (hint : bool) (timeout : option Z)
  | QueryEce (q : QpId)
  | SetEce (q : QpId) (e : ibv_ece)
  | RegMr (r : Region) (dev : Z)
  | DeregMr (r : Region) (dev : Z)
  | MallocComm
  | MallocBuffer
  | MallocStage.

(** What a successful call returns: a queue-pair number and the inline bytes granted,
    the two keys of a memory region, an ECE and whether it is supported. *)
Record Answer := mkAnswer { an_fst : Z; an_snd : Z; an_ece : ibv_ece; an_supported : bool }.

(** The provider as a function of everything asked before: any hardware is one.
    [tables] is what the device [ibDevN] answers about its tables. *)
Record Provider := mkProvider {
  answer : list Call -> Call -> option Answer;
  tables : list Call -> Z -> PortTables;
  uninitialised : list Call -> Z;
  gdrSupported : list Call -> bool;
}.

(** The [NCCL_PARAM]s of the set-up. *)
Record ConnParams := mkConnParams {
  ncclParamIbTimeout : Z;
  ncclParamIbRetryCnt : Z;
  ncclParamIbUseInline : bool;
  ncclParamIbSl : Z;
  ncclParamIbFifoTc : Z;
  ncclParamIbEceEnable : bool;
  ncclParamMrcTimeout : Z;
  ncclParamMrcQpHintEnable : bool;
  ncclParamMrcCcInitRate : Z;
  ncclParamMrcCcMinRate : Z;
  ncclParamMrcCcMaxRate : Z;
  ncclParamIbSubnetAwareRouting : bool;
  ncclParamIbGdrFlushDisable : bool;
  gidParams : GidParams;
}.

(** ** The communicator under construction *)

(** The members of [ncclIbSendCommDev]/[ncclIbRecvCommDev] that [NetTypes.commDev]
    leaves out. *)
Record DevConn := mkDevConn {
  dc_pd : bool;
  dc_cq : bool;
  dc_mrcCq : bool;
  dc_pkeyIndex : Z;
  dc_gidInfo : ncclIbGidInfo;
  ctsFifoMr : option Mr;
  putSignalScratchpadMr : option Mr;
  cmplsRecordsMr : option Mr;
  speedUpdateMr : option Mr;
  hostMr : option Mr;
}.

Record ResDevConn := mkResDevConn {
  probingCq : bool;
  portRecoveryCq : bool;
  probingResultMr : option Mr;
}.

Definition zeroDevConn : DevConn :=
  mkDevConn false false false 0 (mkGidInfo 0 zeroGid 0) None None None None None.

(** [selfAddr], [selfSpeedBufAddr] and [flushHostAddr] are the addresses of the memory
    the peer or the device writes to; [meta_] is the metadata being filled. *)
Record Conn := mkConn {
  net_ : Net;
  dataX : list QpConn;
  flushQps : list ncclIbQp;
  flushX : list QpConn;
  probingX : list QpConn;
  recoveryQps : list ncclIbQp;
  recoveryX : list QpConn;
  devsX : list DevConn;
  resDevsX : list ResDevConn;
  remoteSpeedMr : option Mr;
  flushQpSl : Z;
  flushQpTc : Z;
  selfAddr : Z;
  selfSpeedBufAddr : Z;
  flushHostAddr : Z;
  meta_ : Metadata;
  ports : list IbPort;
  calls : list Call;
}.

#[export] Instance eta_IbPort : Eta IbPort := fun r =>
  mkIbPort (portNum r) (hasMrcContext r) (pdRefs r) (hasPd r) (port_ar r) (oooRqSize r) (portAttr r) (isMlx5 r) (gidInfo r).
#[export] Instance eta_ibv_port_attr : Eta ibv_port_attr := fun r =>
  mkPortAttr (active_mtu r) (pa_lid r) (pa_link_layer r) (pa_flags r) (gid_tbl_len r) (pkey_tbl_len r).
#[export] Instance eta_QpConn : Eta QpConn := fun r =>
  mkQpConn (hasQp r) (hasMrcQp r) (hasMrcQpHint r) (qc_type r) (ece r) (eceSupported r) (initAttr r) (rtrAttr r) (rtsAttr r).
#[export] Instance eta_RtrAttr : Eta ncclIbQpRtrAttr := fun r =>
  mkRtrAttr (ra_mtu r) (ra_linkLayer r) (ra_tc r) (ra_sl r) (ra_remoteQpNum r) (ra_remoteLid r) (ra_remoteGid r)
    (ra_localIbPort r) (ra_localPortFlags r) (ra_localGid r) (ra_localGidIndex r).
#[export] Instance eta_ah : Eta ibv_ah_attr := fun r =>
  mkAhAttr (ah_is_global r) (ah_dgid r) (ah_sgid_index r) (ah_hop_limit r) (ah_traffic_class r) (ah_dlid r) (ah_sl r) (ah_port_num r).
#[export] Instance eta_ibv_qp_attr : Eta ibv_qp_attr := fun r =>
  mkQpAttr (qp_state r) (qa_pkey_index r) (qa_port_num r) (qa_access_flags r) (qa_path_mtu r) (qa_dest_qp_num r)
    (qa_rq_psn r) (qa_sq_psn r) (qa_max_dest_rd_atomic r) (qa_min_rnr_timer r) (qa_ah r) (qa_timeout r)
    (qa_retry_cnt r) (qa_rnr_retry r) (qa_max_rd_atomic r).
#[export] Instance eta_CreateAttr : Eta ncclIbQpCreateAttr := fun r =>
  mkCreateAttr (ca_type r) (ca_oooRq r) (ca_mrc r) (ca_cq r) (ca_dev r) (ca_numQpsPerPeer r)
    (ca_maxRecvWorkRequest r) (ca_maxSendWorkRequest r) (ca_maxInlineData r).
#[export] Instance eta_ncclIbQpInfo : Eta ncclIbQpInfo := fun r =>
  mkQpInfo (qi_qpn r) (qi_ece r) (qi_ece_supported r) (qi_devIndex r).
#[export] Instance eta_DevInfo : Eta DevInfo := fun r =>
  mkDevInfoX (di_lid r) (di_ib_port r) (di_mtu r) (di_link_layer r) (di_gid r) (di_rkey r) (di_currSpeed r).
#[export] Instance eta_Metadata : Eta Metadata := fun r =>
  mkMetadata (md_qpInfo r) (md_probingQpsInfo r) (md_portRecoveryQpsInfo r) (md_devs r) (md_addr r)
    (md_remSpeedBufAddr r) (md_remSpeedBufRkey r) (md_ndevs r) (md_tc r) (md_sl r).
#[export] Instance eta_DevConn : Eta DevConn := fun r =>
  mkDevConn (dc_pd r) (dc_cq r) (dc_mrcCq r) (dc_pkeyIndex r) (dc_gidInfo r) (ctsFifoMr r) (putSignalScratchpadMr r)
    (cmplsRecordsMr r) (speedUpdateMr r) (hostMr r).
#[export] Instance eta_ResDevConn : Eta ResDevConn := fun r =>
  mkResDevConn (probingCq r) (portRecoveryCq r) (probingResultMr r).
#[export] Instance eta_Conn : Eta Conn := fun r =>
  mkConn (net_ r) (dataX r) (flushQps r) (flushX r) (probingX r) (recoveryQps r) (recoveryX r) (devsX r)
    (resDevsX r) (remoteSpeedMr r) (flushQpSl r) (flushQpTc r) (selfAddr r) (selfSpeedBufAddr r) (flushHostAddr r) (meta_ r) (ports r) (calls r).

(** The host a communicator is set up on; [resiliencyAlloc] is the context
    [ncclIbResiliencyInit] allocates, [sock...] the parameters of the sockets. *)
Class Host := mkHost {
  cprm : ConnParams;
  initPrm : InitParams;
  provider : Provider;
  machine :: Machine;
  inetPton : sa_family_t -> CStr.cstring -> option (list Z);
  resiliencyAlloc : option ncclIbResiliency;
  sockRetryCnt : Z;
  sockRcvBuf : Z;
  sockSndBuf : Z;
}.

Abbreviation conn := (comp Conn).

(** ** Access *)

(** An operation on the members of the data path. *)
Definition onNet {A} (m : net A) : conn A := fun s =>
  match m (net_ s) with (o, n) => (o, s <| net_ := n |>) end.

Definition at_ {A} (f : Conn -> list A) (i : Z) : conn A :=
  let* s := getS in of_option (zget (f s) i).

Definition modPort (i : Z) (f : IbPort -> IbPort) : conn unit :=
  let* p := at_ ports i in
  let* s := getS in
  let* l := of_option (zset (ports s) i (f p)) in
  modify (fun s => s <| ports := l |>).

Definition modDevX (i : Z) (f : DevConn -> DevConn) : conn unit :=
  let* d := at_ devsX i in
  let* s := getS in
  let* l := of_option (zset (devsX s) i (f d)) in
  modify (fun s => s <| devsX := l |>).

Definition modResDevX (i : Z) (f : ResDevConn -> ResDevConn) : conn unit :=
  let* d := at_ resDevsX i in
  let* s := getS in
  let* l := of_option (zset (resDevsX s) i (f d)) in
  modify (fun s => s <| resDevsX := l |>).

(** The member arrays of the four kinds of queue pair. *)
Definition qpxs (k : QpKind) (s : Conn) : list QpConn :=
  match k with Data => dataX s | Flush => flushX s | Probing => probingX s | Recovery => recoveryX s end.

Definition setQpxs (k : QpKind) (l : list QpConn) (s : Conn) : Conn :=
  match k with
  | Data => s <| dataX := l |> | Flush => s <| flushX := l |>
  | Probing => s <| probingX := l |> | Recovery => s <| recoveryX := l |>
  end.

Definition getQpx (q : QpId) : conn QpConn := at_ (qpxs (fst q)) (snd q).

Definition modQpx (q : QpId) (f : QpConn -> QpConn) : conn unit :=
  let* x := getQpx q in
  let* s := getS in
  let* l := of_option (zset (qpxs (fst q) s) (snd q) (f x)) in
  modify (setQpxs (fst q) l).

(** The members the data path reads. *)
Definition qpBases (k : QpKind) (s : Conn) : list ncclIbQp :=
  match k with
  | Data => qps (base (net_ s))
  | Flush => flushQps s
  | Probing => from_option probingQps [] (resiliency (base (net_ s)))
  | Recovery => recoveryQps s
  end.

Definition setQpBases (k : QpKind) (l : list ncclIbQp) (s : Conn) : Conn :=
  let n := net_ s in
  match k with
  | Data => s <| net_ := (n <| base := (base n) <| qps := l |> |>) |>
  | Flush => s <| flushQps := l |>
  | Probing =>
      s <| net_ := (n <| base := (base n) <| resiliency := (fun r => r <| probingQps := l |>) <$> resiliency (base n) |> |>) |>
  | Recovery => s <| recoveryQps := l |>
  end.

Definition getQp (q : QpId) : conn ncclIbQp := at_ (qpBases (fst q)) (snd q).

Definition modQp (q : QpId) (f : ncclIbQp -> ncclIbQp) : conn unit :=
  let* x := getQp q in
  let* s := getS in
  let* l := of_option (zset (qpBases (fst q) s) (snd q) (f x)) in
  modify (setQpBases (fst q) l).

(** One call: it is recorded whether it succeeds or not. *)
Definition call `{H : Host} (c : Call) : conn Answer :=
  let* s := getS in
  modify (fun s => s <| calls := calls s ++ [c] |>) ;;;
  match answer provider (calls s) c with Some a => ret a | None => fail ncclSystemError end.

Definition call_ `{H : Host} (c : Call) : conn unit := call c ;;; ret tt.
