(* ===== verification/ConnQp.v ===== *)
(** * Connection set-up: one queue pair

    Creating, destroying and modifying a queue pair: [ncclIbQpCreate],
    [ncclIbReceiverQpCreate], [ncclIbQpDestroy] and the transitions [ncclIbQpInit],
    [ncclIbQpRtr], [ncclIbQpRts], [ncclIbQpReset], [ncclIbQpError] of
    [net/transport/net_ib/connect.cc].  The WQE latency monitor is left out. *)

From S2P Require Import Prelude NetTypes NetBase ConnGid ConnTypes.

Open Scope Z_scope.
Open Scope nccl_scope.

Definition UINT32_MAX : Z := 2 ^ 32 - 1.
Definition sizeofSendFifo : Z := 64.

(** [IBV_QPF_GRH_REQUIRED] is bit 0 of the port's flags. *)
Section Qp.
Context `{H : Host}.

(** [wrap_ibv_modify_qp] and [wrap_mrc_modify_qp] on whichever object the queue pair
has; with neither, the verbs call dereferences NULL. *)
Definition qpModify (q : QpId) (attr : ibv_qp_attr) (mask mrcMask : list qpAttrFlag) (hint : bool)
(timeout : option Z) : conn unit :=
let* x := getQpx q in
if hasMrcQp x then call_ (ModifyMrcQp q attr mrcMask hint timeout)
else if hasQp x then call_ (ModifyQp q attr mask)
else fault.

Definition ncclIbQpInit (q : QpId) : conn unit :=
let* x := getQpx q in
let ia := initAttr x in
let qpAttr := (zeroQpAttr IBV_QPS_INIT) <| qa_pkey_index := u16 (ia_pkeyIndex ia) |>
<| qa_port_num := ia_portNum ia |> <| qa_access_flags := ia_qpAccessFlags ia |> in
let attrMask := [IBV_QP_STATE; IBV_QP_PKEY_INDEX; IBV_QP_PORT; IBV_QP_ACCESS_FLAGS] in
qpModify q qpAttr attrMask attrMask (hasMrcQpHint x) None.

(** [qp->qp->qp_type != IBV_QPT_UC], evaluated when there is no MRC object. *)
Definition reliable (x : QpConn) : conn bool :=
if hasMrcQp x then ret true
else if hasQp x then ret (negb (bool_decide (qc_type x = IBV_QPT_UC)))
else fault.

Definition rtrAddress (ra : ncclIbQpRtrAttr) : ibv_ah_attr :=
if ra_linkLayer ra =? IBV_LINK_LAYER_ETHERNET then
zeroAh <| ah_is_global := true |> <| ah_dgid := ra_remoteGid ra |> <| ah_sgid_index := u8 (ra_localGidIndex ra) |>
<| ah_hop_limit := 255 |> <| ah_traffic_class := ra_tc ra |>
<| ah_sl := u8 (ra_sl ra) |> <| ah_port_num := ra_localIbPort ra |>
else
let sameSubnet := ncclIbExtractLocalSubnetPrefix (subnet_prefix (ra_localGid ra))
=? ncclIbExtractLocalSubnetPrefix (subnet_prefix (ra_remoteGid ra)) in
let needGlobal := negb sameSubnet || Z.testbit (ra_localPortFlags ra) 0 in
let flid := ncclIbExtractFlid (ra_remoteGid ra) in
let dlid := if sameSubnet then u16 (ra_remoteLid ra)
else if flid =? 0 then u16 (ra_remoteLid ra) else flid in
let ah := if needGlobal
then zeroAh <| ah_is_global := true |> <| ah_dgid := ra_remoteGid ra |>
<| ah_sgid_index := u8 (ra_localGidIndex ra) |> <| ah_hop_limit := 255 |>
else zeroAh in
ah <| ah_dlid := dlid |> <| ah_sl := u8 (ra_sl ra) |> <| ah_port_num := ra_localIbPort ra |>.

Definition ncclIbQpRtr (q : QpId) : conn unit :=
let* x := getQpx q in
let ra := rtrAttr x in
let qpAttr := (zeroQpAttr IBV_QPS_RTR) <| qa_path_mtu := ra_mtu ra |> <| qa_dest_qp_num := ra_remoteQpNum ra |>
<| qa_rq_psn := 0 |> <| qa_ah := rtrAddress ra |> in
let mask0 := [IBV_QP_STATE; IBV_QP_AV; IBV_QP_PATH_MTU; IBV_QP_DEST_QPN; IBV_QP_RQ_PSN] in
let* rc := reliable x in
let qpAttr := if rc then qpAttr <| qa_max_dest_rd_atomic := 1 |> <| qa_min_rnr_timer := 12 |> else qpAttr in
let attrMask := if rc then mask0 ++ [IBV_QP_MAX_DEST_RD_ATOMIC; IBV_QP_MIN_RNR_TIMER] else mask0 in
let mrcMask := filter (fun f => f <> IBV_QP_MAX_DEST_RD_ATOMIC) attrMask in
qpModify q qpAttr attrMask mrcMask false None.

Definition ncclIbQpRts (q : QpId) : conn unit :=
let* x := getQpx q in
let sa := rtsAttr x in
let mask0 := [IBV_QP_STATE; IBV_QP_SQ_PSN] in
let* rc := reliable x in
let qpAttr := if rc then (zeroQpAttr IBV_QPS_RTS) <| qa_timeout := u8 (sa_timeout sa) |>
<| qa_retry_cnt := u8 (sa_retryCnt sa) |> <| qa_rnr_retry := 7 |> <| qa_max_rd_atomic := 1 |>
else zeroQpAttr IBV_QPS_RTS in
let attrMask := if rc
then mask0 ++ [IBV_QP_TIMEOUT; IBV_QP_RETRY_CNT; IBV_QP_RNR_RETRY; IBV_QP_MAX_QP_RD_ATOMIC] else mask0 in
let mrcMask := mask0 ++ [IBV_QP_TIMEOUT; IBV_QP_RETRY_CNT; IBV_QP_RNR_RETRY] in
qpModify q qpAttr attrMask mrcMask false (Some (ncclParamMrcTimeout cprm)).

Definition ncclIbQpReset (q : QpId) : conn unit :=
qpModify q (zeroQpAttr IBV_QPS_RESET) [IBV_QP_STATE] [IBV_QP_STATE] false None.

Definition ncclIbQpError (q : QpId) : conn unit :=
qpModify q (zeroQpAttr IBV_QPS_ERR) [IBV_QP_STATE] [IBV_QP_STATE] false None.

(** ** Creation and destruction *)

Definition ncclIbQpCreateMrcHint (q : QpId) (attrs : ncclIbQpCreateAttr) : conn unit :=
if negb (ncclParamMrcQpHintEnable cprm) then ret tt
else if (ca_numQpsPerPeer attrs <=? 0) || (NCCL_IB_MAX_QPS <? ca_numQpsPerPeer attrs) then fail ncclInvalidUsage
else
let initRate := ncclParamMrcCcInitRate cprm in
let minRate := ncclParamMrcCcMinRate cprm in
let maxRate := ncclParamMrcCcMaxRate cprm in
if (initRate <? 0) || (minRate <? 0) || (maxRate <? 0) || (UINT32_MAX <? initRate) || (UINT32_MAX <? maxRate)
 || (UINT32_MAX <? Z.quot minRate (ca_numQpsPerPeer attrs))
then fail ncclInvalidUsage
else
call_ (CreateQpHint q (ca_numQpsPerPeer attrs) initRate (Z.quot minRate (ca_numQpsPerPeer attrs)) maxRate) ;;;
modQpx q (fun x => x <| hasMrcQpHint := true |>).

Definition ncclIbQpDestroy (q : QpId) : conn unit :=
let* x := getQpx q in
when (hasMrcQp x)
(call_ (DestroyMrcQp q) ;;; modQpx q (fun x => x <| hasMrcQp := false |>)) ;;;
when (hasQp x)
(call_ (DestroyQp q) ;;; modQpx q (fun x => x <| hasQp := false |>)) ;;;
when (hasMrcQpHint x)
(call_ (DestroyQpHint q) ;;; modQpx q (fun x => x <| hasMrcQpHint := false |>)).

(** Run [m]; when it fails, run [cleanup] and fail with the same code. *)
Definition onFail {A} (m : conn A) (cleanup : conn unit) : conn A := fun s =>
match m s with
| (Fail r, s') => match cleanup s' with (Fault, s'') => (Fault, s'') | (_, s'') => (Fail r, s'') end
| r => r
end.

(** The code a caller returns instead of the one of a failed call. *)
Definition withCode {A} (r : ncclResult_t) (m : conn A) : conn A := fun s =>
match m s with (Fail _, s') => (Fail r, s') | o => o end.

Definition ncclIbQpCreate (q : QpId) (attrs : ncclIbQpCreateAttr) : conn unit :=
if ca_mrc attrs then
if ca_oooRq attrs then fail ncclInvalidUsage
else
ncclIbQpCreateMrcHint q attrs ;;;
onFail
(let* a := call (CreateMrcQp q attrs) in
 modQpx q (fun x => x <| hasMrcQp := true |>) ;;;
 let* n := call (GetMrcQpn q) in
 modQp q (fun x => x <| qpn := an_fst n |>) ;;;
 modQp q (fun x => x <| maxInlineData := an_snd a |>))
(ncclIbQpDestroy q)
else
let* a := if ca_oooRq attrs then withCode ncclInternalError (call (CreateQp q attrs)) else call (CreateQp q attrs) in
modQpx q (fun x => x <| hasQp := true |> <| qc_type := ca_type attrs |>) ;;;
modQp q (fun x => x <| qpn := an_fst a |> <| maxInlineData := an_snd a |>).

Definition ncclIbReceiverQpCreate (q : QpId) (attrs : ncclIbQpCreateAttr) : conn unit :=
if negb (ncclParamIbUseInline cprm) then ncclIbQpCreate q attrs
else ncclIbQpCreate q (attrs <| ca_maxInlineData := NCCL_NET_IB_MAX_RECVS * sizeofSendFifo |>).

(** [base->nqps] is the bound, -1 before the peer's devices are known. *)
Definition ncclIbDestroyDataQps : conn ncclResult_t :=
let* s := getS in
(fix go (n : nat) (i : Z) (result : ncclResult_t) : conn ncclResult_t :=
match n with
| O => ret result
| Datatypes.S n' =>
let* r := fun s => match ncclIbQpDestroy (Data, i) s with
| (Done _, s') => (Done ncclSuccess, s')
| (Fail e, s') => (Done e, s')
| (Fault, s') => (Fault, s')
end in
go n' (i + 1) (if bool_decide (result = ncclSuccess) then r else result)
end) (Z.to_nat (Z.min (nqps (base (net_ s))) NCCL_IB_MAX_QPS)) 0 ncclSuccess.

(** ** Enhanced connection establishment *)

(** [wrap_ibv_query_ece]/[wrap_ibv_set_ece]: an unsupported call succeeds and clears
[*supported]. *)
Definition wrap_ibv_query_ece (q : QpId) : conn (ibv_ece * bool) :=
let* a := call (QueryEce q) in ret (an_ece a, an_supported a).

Definition wrap_ibv_set_ece (q : QpId) (e : ibv_ece) : conn bool :=
let* a := call (SetEce q e) in ret (an_supported a).

End Qp.
