(* ===== verification/ConnSetup.v ===== *)
(** * Connection set-up: the objects of a communicator

    Per-device objects ([ncclIbInitCommDevBase], [ncclIbDestroyBase]), the queue pairs
    of both ends ([ncclIbSenderQpsCreate], [ncclIbSenderQpsToRts],
    [ncclIbReceiverQpsCreateToRts], [ncclIbCreateFlushQp]) of
    [net/transport/net_ib/connect.cc], and what the resiliency context adds to them
    ([p2p_resiliency.cc], [p2p_resiliency_recovery.cc]). *)

From S2P Require Import Prelude NetTypes NetBase NetInit Resiliency Recovery ConnGid ConnTypes ConnQp.

Open Scope Z_scope.
Open Scope nccl_scope.

Section Setup.
Context `{H : Host}.

(** ** Access *)

Definition getBase : conn ncclIbNetCommBase := gets (fun s => base (net_ s)).
Definition modNetBase (f : ncclIbNetCommBase -> ncclIbNetCommBase) : conn unit := onNet (modBase f).
Definition modMeta (f : Metadata -> option Metadata) : conn unit :=
let* m := gets meta_ in
let* m' := of_option (f m) in
modify (fun s => s <| meta_ := m' |>).

(** [comm->devs[i].base.ibDevN], the port it names, and the device's other members. *)
Definition ibDevNOf (i : Z) : conn Z := let* d := at_ (fun s => devs (net_ s)) i in ret (cd_ibDevN d).
Definition portOf (i : Z) : conn IbPort := let* n := ibDevNOf i in at_ ports n.

Definition hasRes : conn bool := let* b := getBase in ret (if resiliency b then true else false).
Definition withRes (m : conn unit) : conn unit := let* r := hasRes in when r m.

(** ** Devices *)

Definition modNetDev (i : Z) (f : commDev -> commDev) : conn unit :=
onNet (
let* s := getS in
let* d := of_option (zget (devs s) i) in
let* l := of_option (zset (devs s) i (f d)) in
modify (fun s => s <| devs := l |>)).

(** [pdRefs] counts before the allocation is tried; [base->pd] is whatever the port has. *)
Definition ncclIbInitCommDevBase (ibDevN i cqSize : Z) : conn unit :=
modNetDev i (fun d => d <| cd_ibDevN := ibDevN |>) ;;;
let* p := at_ ports ibDevN in
modPort ibDevN (fun p => p <| pdRefs := pdRefs p + 1 |>) ;;;
when (pdRefs p =? 0)
(modPort ibDevN (fun p => p <| hasPd := false |>) ;;;
 call_ (AllocPd ibDevN) ;;;
 modPort ibDevN (fun p => p <| hasPd := true |>)) ;;;
let* p := at_ ports ibDevN in
modDevX i (fun d => d <| dc_pd := hasPd p |> <| dc_gidInfo := gidInfo p |>) ;;;
call_ (CreateCq (MrcQueue, i) cqSize) ;;;
modDevX i (fun d => d <| dc_mrcCq := true |>) ;;;
call_ (CreateCq (DataQueue, i) cqSize) ;;;
modDevX i (fun d => d <| dc_cq := true |>) ;;;
let* s := getS in
let* idx := ncclIbGetPkeyIndex (gidParams cprm) (tables provider (calls s) ibDevN) (pkey_tbl_len (portAttr p)) in
modDevX i (fun d => d <| dc_pkeyIndex := idx |>).

Definition ncclIbDestroyBase (i : Z) : conn unit :=
call_ (DestroyCq (MrcQueue, i)) ;;;
call_ (DestroyCq (DataQueue, i)) ;;;
let* n := ibDevNOf i in
modPort n (fun p => p <| pdRefs := pdRefs p - 1 |>) ;;;
let* p := at_ ports n in
when (pdRefs p =? 0) (call_ (DeallocPd n)).

(** ** The address of the peer *)

(** The assignments to [rtrAttr] that all the queue pairs share. *)
Definition remoteRtrAttr (rem : DevInfo) (port : IbPort) (d : DevConn) (mtu tc sl remoteQpn : Z)
: ncclIbQpRtrAttr := {|
ra_mtu := mtu; ra_linkLayer := di_link_layer rem; ra_tc := u8 tc; ra_sl := sl;
ra_remoteQpNum := remoteQpn; ra_remoteLid := di_lid rem; ra_remoteGid := di_gid rem;
ra_localIbPort := di_ib_port rem; ra_localPortFlags := u8 (pa_flags (portAttr port));
ra_localGid := localGid (dc_gidInfo d); ra_localGidIndex := localGidIndex (dc_gidInfo d) |}.

Definition senderTc (rem : DevInfo) (remMeta : Metadata) : Z :=
if di_link_layer rem =? IBV_LINK_LAYER_ETHERNET then md_tc remMeta else -1.

Definition setInitAttr (q : QpId) (d : DevConn) (port : IbPort) (flags : list accessFlag) : conn unit :=
modQpx q (fun x => x <| initAttr := mkInitAttr (dc_pkeyIndex d) (portNum port) flags |>).

(** [ncclIbQpRtr] with these attributes. *)
Definition toRtr (q : QpId) (a : ncclIbQpRtrAttr) : conn unit :=
modQpx q (fun x => x <| rtrAttr := a |>) ;;; ncclIbQpRtr q.

Definition toRts (q : QpId) : conn unit :=
modQpx q (fun x => x <| rtsAttr := mkRtsAttr (ncclParamIbTimeout cprm) (ncclParamIbRetryCnt cprm) |>) ;;;
ncclIbQpRts q.

Definition clearEce (q : QpId) : conn unit :=
modQpx q (fun x => x <| ece := zeroEce |> <| eceSupported := false |>).

(** ** Probing queue pairs *)

Definition probingAttrs (d maxSend : Z) : ncclIbQpCreateAttr :=
mkCreateAttr IBV_QPT_RC false false ProbingQueue d 0 0 maxSend 0.

Definition ncclIbPortRecoveryDevInit (i : Z) : conn unit :=
call_ (CreateCq (RecoveryQueue, i) NCCL_IB_RESILIENCY_PORT_RECOVERY_CQ_SIZE) ;;;
modResDevX i (fun d => d <| portRecoveryCq := true |>).

Definition ncclIbResiliencyDevInit (i : Z) : conn unit :=
let* r := onNet getRes in
if u32 (res_ndevs r) <=? i then fail ncclInternalError
else
onNet (setDevState i ncclIbResiliencyDevStateOk) ;;;
let* b := getBase in
when (isSend b)
(let* a := call (RegMr ProbingResults i) in
 modResDevX i (fun d => d <| probingResultMr := Some (mkMr (an_fst a) (an_snd a)) |>) ;;;
 onNet (modResDev i (fun d => d <| rd_probingResultLkey := an_fst a |>))) ;;;
call_ (CreateCq (ProbingQueue, i) (if isSend b then NET_IB_MAX_REQUESTS else 1)) ;;;
modResDevX i (fun d => d <| probingCq := true |>) ;;;
when (recoveryEnabled r) (ncclIbPortRecoveryDevInit i).

Definition ncclIbPortRecoveryDevDestroy (i : Z) : conn unit :=
let* d := at_ resDevsX i in
when (portRecoveryCq d) (call_ (DestroyCq (RecoveryQueue, i))).

Definition ncclIbResiliencyDevDestroy (i : Z) : conn unit :=
let* r := onNet getRes in
let* d := at_ resDevsX i in
when (probingCq d) (call_ (DestroyCq (ProbingQueue, i))) ;;;
when (recoveryEnabled r) (ncclIbPortRecoveryDevDestroy i) ;;;
let* b := getBase in
when (isSend b && (if probingResultMr d then true else false)) (call_ (DeregMr ProbingResults i)).

(** ** Recovery queue pairs *)

Definition recoveryAttrs (d maxRecv maxSend : Z) : ncclIbQpCreateAttr :=
mkCreateAttr IBV_QPT_UC false false RecoveryQueue d 0 maxRecv maxSend 0.

Definition setRecoveryInfo (i q : Z) (d : Z) : conn unit :=
modMeta (fun m =>
 x ← zget (md_portRecoveryQpsInfo m) i;
 l ← zset (md_portRecoveryQpsInfo m) i (x <| qi_qpn := q |> <| qi_devIndex := d |>);
 Some (m <| md_portRecoveryQpsInfo := l |>)).

Definition recoveryQpCreate (i maxRecv maxSend : Z) : conn unit :=
let* b := getBase in
if ndevs b =? 0 then fault
else
let dev := Z.rem i (ndevs b) in
let* port := portOf dev in
let* d := at_ devsX dev in
ncclIbQpCreate (ConnTypes.Recovery, i) (recoveryAttrs dev maxRecv maxSend) ;;;
modQp (ConnTypes.Recovery, i) (fun x => x <| devIndex := dev |>) ;;;
let* qp := getQp (ConnTypes.Recovery, i) in
setRecoveryInfo i (qpn qp) dev ;;;
setInitAttr (ConnTypes.Recovery, i) d port [IBV_ACCESS_LOCAL_WRITE] ;;;
ncclIbQpInit (ConnTypes.Recovery, i).

(** The recovery queue pair to RTS; its timeouts are left as they are. *)
Definition recoveryQpToRts (remMeta : Metadata) (setRem : bool) (i : Z) : conn unit :=
let* b := getBase in
if ndevs b =? 0 then fault
else
let dev := Z.rem i (ndevs b) in
let* port := portOf dev in
let* d := at_ devsX dev in
let* remQp := of_option (zget (md_portRecoveryQpsInfo remMeta) i) in
when setRem (modQp (ConnTypes.Recovery, i) (fun x => x <| remDevIdx := qi_devIndex remQp |>)) ;;;
let* rem := of_option (zget (md_devs remMeta) (qi_devIndex remQp)) in
toRtr (ConnTypes.Recovery, i)
(remoteRtrAttr rem port d (Z.min (di_mtu rem) (active_mtu (portAttr port))) (senderTc rem remMeta)
(md_sl remMeta) (qi_qpn remQp)) ;;;
ncclIbQpRts (ConnTypes.Recovery, i).

Definition ncclIbPortRecoverySenderQpsCreate (nQps : Z) : conn unit :=
if nQps <=? 0 then fail ncclInternalError
else forN nQps (fun i => recoveryQpCreate i 1 NCCL_IB_RESILIENCY_PORT_RECOVERY_ALIVE_MSG_BATCH_SIZE_MAX).

Definition ncclIbPortRecoverySenderQpsToRts (remMeta : Metadata) (nQps : Z) : conn unit :=
if nQps <=? 0 then fail ncclInternalError
else forN nQps (recoveryQpToRts remMeta true).

Definition ncclIbPortRecoveryReceiverQpsCreateToRts (remMeta : Metadata) (nQps : Z) : conn unit :=
forN nQps (fun i =>
recoveryQpCreate i NCCL_IB_RESILIENCY_PORT_RECOVERY_ALIVE_MSG_BATCH_SIZE_MAX 1 ;;;
recoveryQpToRts remMeta false i).

Definition ncclIbPortRecoveryQpsDestroy (nQps : Z) : conn unit :=
forN nQps (fun i =>
let* x := getQpx (ConnTypes.Recovery, i) in
when (hasQp x) (call_ (DestroyQp (ConnTypes.Recovery, i)))).

(** ** Queue pairs of the resiliency context *)

Definition probingQpCreate (i dev maxSend : Z) (flags : list accessFlag) : conn unit :=
let* port := portOf dev in
let* d := at_ devsX dev in
ncclIbQpCreate (Probing, i) (probingAttrs dev maxSend) ;;;
modQp (Probing, i) (fun x => x <| devIndex := dev |>) ;;;
let* qp := getQp (Probing, i) in
modMeta (fun m =>
 x ← zget (md_probingQpsInfo m) i;
 l ← zset (md_probingQpsInfo m) i (x <| qi_qpn := qpn qp |> <| qi_devIndex := dev |>);
 Some (m <| md_probingQpsInfo := l |>)) ;;;
setInitAttr (Probing, i) d port flags ;;;
ncclIbQpInit (Probing, i).

Definition probingQpToRts (remMeta : Metadata) (i dev : Z) (setRem : bool) : conn unit :=
let* port := portOf dev in
let* d := at_ devsX dev in
let* remQp := of_option (zget (md_probingQpsInfo remMeta) i) in
when setRem (modQp (Probing, i) (fun x => x <| remDevIdx := qi_devIndex remQp |>)) ;;;
let* rem := of_option (zget (md_devs remMeta) (qi_devIndex remQp)) in
toRtr (Probing, i)
(remoteRtrAttr rem port d (Z.min (di_mtu rem) (active_mtu (portAttr port))) (senderTc rem remMeta)
(md_sl remMeta) (qi_qpn remQp)) ;;;
toRts (Probing, i).

Definition ncclIbResiliencySenderCreateQps : conn unit :=
let* r := onNet getRes in
forN (nProbingQps r) (fun i => probingQpCreate i i NET_IB_MAX_REQUESTS [IBV_ACCESS_LOCAL_WRITE]) ;;;
when (recoveryEnabled r) (ncclIbPortRecoverySenderQpsCreate (nPortRecoveryQps r)).

Definition ncclIbResiliencySenderQpsToRts (remMeta : Metadata) : conn unit :=
let* r := onNet getRes in
forN (nProbingQps r) (fun i => probingQpToRts remMeta i i true) ;;;
when (recoveryEnabled r) (ncclIbPortRecoverySenderQpsToRts remMeta (nPortRecoveryQps r)).

Definition ncclIbResiliencyReceiverQpsCreateToRts (remMeta : Metadata) : conn unit :=
let* r := onNet getRes in
forN (nProbingQps r) (fun i =>
let* b := getBase in
if ndevs b =? 0 then fault
else
let dev := Z.rem i (ndevs b) in
probingQpCreate i dev 0 [IBV_ACCESS_REMOTE_READ] ;;;
probingQpToRts remMeta i dev false) ;;;
when (recoveryEnabled r) (ncclIbPortRecoveryReceiverQpsCreateToRts remMeta (nPortRecoveryQps r)).

(** The probing and the recovery queue pairs; the wait for the recovery thread is
[RecoveryThread]'s. *)
Definition ncclIbResiliencyClose : conn unit :=
let* r := onNet getRes in
forN (nProbingQps r) (fun i =>
let* x := getQpx (Probing, i) in
when (hasQp x) (call_ (DestroyQp (Probing, i)))) ;;;
when (recoveryEnabled r) (ncclIbPortRecoveryQpsDestroy (nPortRecoveryQps r)).

(** ** Data queue pairs *)

Definition oooRqForced : bool := negb (ncclParamIbOooRq initPrm =? 0).

(** [qpCreateAttrs.oooRq] after the checks for a device; the structure is shared by
the iterations, so a device the check does not concern keeps the last value. *)
Definition oooRqFor (port : IbPort) (ooo : bool) : conn bool :=
if isMlx5 port && oooRqForced then
if negb (port_ar port) then fail ncclInternalError
else
let* b := getBase in
if negb (remOooRq b && localOooRq b) then fail ncclInternalError else ret true
else ret ooo.

Definition setQpInfo (i : Z) (f : ncclIbQpInfo -> ncclIbQpInfo) : conn unit :=
modMeta (fun m =>
 x ← zget (md_qpInfo m) i;
 l ← zset (md_qpInfo m) i (f x);
 Some (m <| md_qpInfo := l |>)).

(** Queue pair [i] of device [i % ndevs]. *)
Definition stripe (i : Z) : conn Z :=
let* b := getBase in
if ndevs b =? 0 then fault else ret (u32 i mod u32 (ndevs b)).

Definition senderQpCreate (i : Z) (ooo : bool) : conn bool :=
let* b := getBase in
let* dev := stripe i in
let* port := portOf dev in
let* d := at_ devsX dev in
let* ooo := oooRqFor port ooo in
ncclIbQpCreate (Data, i)
(mkCreateAttr IBV_QPT_RC ooo (hasMrcContext port) DataQueue dev (nqps b) 0 (2 * NET_IB_MAX_REQUESTS) 0) ;;;
modQp (Data, i) (fun x => x <| devIndex := dev |>) ;;;
let* qp := getQp (Data, i) in
setQpInfo i (fun x => x <| qi_qpn := qpn qp |> <| qi_devIndex := dev |>) ;;;
setInitAttr (Data, i) d port [IBV_ACCESS_REMOTE_WRITE] ;;;
ncclIbQpInit (Data, i) ;;;
let* x := getQpx (Data, i) in
(if ncclParamIbEceEnable cprm && hasQp x then
let* '(e, sup) := wrap_ibv_query_ece (Data, i) in
modQpx (Data, i) (fun x => x <| eceSupported := sup |>) ;;;
setQpInfo i (fun x => x <| qi_ece := e |> <| qi_ece_supported := sup |>)
else
setQpInfo i (fun x => x <| qi_ece_supported := false |>) ;;; clearEce (Data, i)) ;;;
ret ooo.

Fixpoint qpsLoop (body : Z -> bool -> conn bool) (n : nat) (i : Z) (ooo : bool) : conn unit :=
match n with
| O => ret tt
| Datatypes.S n' => let* ooo := body i ooo in qpsLoop body n' (i + 1) ooo
end.

(** The result of [ncclIbResiliencySenderCreateQps] is dropped. *)
Definition ncclIbSenderQpsCreate : conn unit :=
let* b := getBase in
qpsLoop senderQpCreate (Z.to_nat (u32 (nqps b))) 0 false ;;;
withRes (succeeds ncclIbResiliencySenderCreateQps ;;; ret tt).

Definition senderQpToRts (remMeta : Metadata) (i : Z) : conn unit :=
let* qp := getQp (Data, i) in
let* port := portOf (devIndex qp) in
let* d := at_ devsX (devIndex qp) in
let* remQp := of_option (zget (md_qpInfo remMeta) i) in
let* rem := of_option (zget (md_devs remMeta) (qi_devIndex remQp)) in
modQp (Data, i) (fun x => x <| remDevIdx := qi_devIndex remQp |>) ;;;
let* x := getQpx (Data, i) in
(if hasQp x && eceSupported x && qi_ece_supported remQp then
let* sup := wrap_ibv_set_ece (Data, i) (qi_ece remQp) in
modQpx (Data, i) (fun x => x <| eceSupported := sup |> <| ece := qi_ece remQp |>)
else clearEce (Data, i)) ;;;
toRtr (Data, i)
(remoteRtrAttr rem port d (Z.min (di_mtu rem) (active_mtu (portAttr port))) (senderTc rem remMeta)
(md_sl remMeta) (qi_qpn remQp)) ;;;
toRts (Data, i).

Definition ncclIbSenderQpsToRts (remMeta : Metadata) : conn unit :=
let* b := getBase in
forN (u32 (nqps b)) (senderQpToRts remMeta) ;;;
withRes (ncclIbResiliencySenderQpsToRts remMeta).

Definition speedUpdates : bool := ncclParamIbEventBasedLb prm && ncclParamIbEventBasedLbRemote prm.

(** [ncclIbResiliencyDataRqSizeGet] writes the shared structure too. *)
Definition recvWorkRequests (res : bool) : conn Z :=
if res then onNet ncclIbResiliencyDataRqSizeGet else ret NET_IB_MAX_REQUESTS.

Definition receiverTc (rem : DevInfo) (remMeta : Metadata) : Z :=
if (di_link_layer rem =? IBV_LINK_LAYER_ETHERNET) && negb (ncclParamIbFifoTc cprm =? -1)
then ncclParamIbFifoTc cprm else md_tc remMeta.

Definition receiverQpCreateToRts (remMeta : Metadata) (i : Z) (ooo : bool) : conn bool :=
let* b := getBase in
let* res := hasRes in
let* dev := stripe i in
let* port := portOf dev in
let* d := at_ devsX dev in
let* n := ibDevNOf dev in
let* remQp := of_option (zget (md_qpInfo remMeta) i) in
let* rem := of_option (zget (md_devs remMeta) (qi_devIndex remQp)) in
modQp (Data, i) (fun x => x <| remDevIdx := qi_devIndex remQp |> <| devIndex := dev |>) ;;;
let* maxRecv := recvWorkRequests res in
let maxSend := NET_IB_MAX_REQUESTS * (if res then 1 else 2) + (if speedUpdates then 1 else 0) in
let* ooo := oooRqFor port ooo in
if isMlx5 port && oooRqForced && (oooRqSize port <? maxRecv) then fail ncclInternalError
else
ncclIbReceiverQpCreate (Data, i)
(mkCreateAttr IBV_QPT_RC ooo (hasMrcContext port) DataQueue dev (nqps b) maxRecv maxSend 0) ;;;
let* qp := getQp (Data, i) in
setQpInfo i (fun x => x <| qi_qpn := qpn qp |> <| qi_devIndex := dev |>) ;;;
setInitAttr (Data, i) d port [IBV_ACCESS_REMOTE_WRITE; IBV_ACCESS_REMOTE_ATOMIC; IBV_ACCESS_REMOTE_READ] ;;;
ncclIbQpInit (Data, i) ;;;
let* x := getQpx (Data, i) in
let* sup := (if hasQp x && qi_ece_supported remQp then wrap_ibv_set_ece (Data, i) (qi_ece remQp)
else clearEce (Data, i) ;;; ret false) in
setQpInfo i (fun x => x <| qi_ece_supported := sup |>) ;;;
modPort n (fun p => p <| portAttr := (portAttr p) <| active_mtu := Z.min (active_mtu (portAttr p)) (di_mtu rem) |> |>) ;;;
let* port := portOf dev in
toRtr (Data, i)
(remoteRtrAttr rem port d (active_mtu (portAttr port)) (receiverTc rem remMeta) (md_sl remMeta) (qi_qpn remQp)) ;;;
toRts (Data, i) ;;;
(if hasQp x && qi_ece_supported remQp && sup then
let* '(e, sup) := wrap_ibv_query_ece (Data, i) in
setQpInfo i (fun x => x <| qi_ece := e |> <| qi_ece_supported := sup |>) ;;;
modQpx (Data, i) (fun x => x <| ece := e |> <| eceSupported := sup |>)
else clearEce (Data, i)) ;;;
ret ooo.

Definition ncclIbReceiverQpsCreateToRts (remMeta : Metadata) : conn unit :=
let* b := getBase in
qpsLoop (receiverQpCreateToRts remMeta) (Z.to_nat (u32 (nqps b))) 0 false ;;;
let* c := onNet getRecv in
when (negb (flushEnabled c =? 0))
(modify (fun s => s <| flushQpSl := md_sl remMeta |> <| flushQpTc := md_tc remMeta |>)) ;;;
withRes (ncclIbResiliencyReceiverQpsCreateToRts remMeta).

Definition ncclIbReceiverPrePostReceiveWorkRequests : conn unit :=
let* b := getBase in
forN (nqps b) (fun i => onNet (ncclIbPostReceiveWorkRequestsOnQp i)).

(** ** Flush queue pairs *)

Definition createFlushQp (i : Z) : conn unit :=
let* port := portOf i in
let* d := at_ devsX i in
ncclIbQpCreate (Flush, i) (mkCreateAttr IBV_QPT_RC false false DataQueue i 0 0 NET_IB_MAX_REQUESTS 0) ;;;
setInitAttr (Flush, i) d port [IBV_ACCESS_LOCAL_WRITE; IBV_ACCESS_REMOTE_READ] ;;;
ncclIbQpInit (Flush, i) ;;;
let* qp := getQp (Flush, i) in
let* s := getS in
toRtr (Flush, i) {|
ra_mtu := active_mtu (portAttr port); ra_linkLayer := pa_link_layer (portAttr port);
ra_tc := u8 (if pa_link_layer (portAttr port) =? IBV_LINK_LAYER_ETHERNET then flushQpTc s else -1);
ra_sl := flushQpSl s; ra_remoteQpNum := qpn qp; ra_remoteLid := pa_lid (portAttr port);
ra_remoteGid := localGid (dc_gidInfo d); ra_localIbPort := portNum port;
ra_localPortFlags := u8 (pa_flags (portAttr port));
ra_localGid := localGid (dc_gidInfo d); ra_localGidIndex := localGidIndex (dc_gidInfo d) |} ;;;
toRts (Flush, i) ;;;
let* a := call (RegMr FlushHostMem i) in
modDevX i (fun d => d <| hostMr := Some (mkMr (an_fst a) (an_snd a)) |>) ;;;
modNetDev i (fun d => d <| cd_flushSge := mkSge (flushHostAddr s) 1 (an_fst a) |>).

Definition ncclIbCreateFlushQp : conn unit :=
let* c := onNet getRecv in
if (flushEnabled c =? 0) || flushQpsCreated c then ret tt
else
let* b := getBase in
forN (ndevs b) createFlushQp ;;;
onNet (modRecv (fun c => Some (c <| flushQpsCreated := true |>))).

End Setup.
