(* ===== verification/Socket.v ===== *)
(** * Connection set-up: the socket

    The sockets of [net/misc/socket.cc] over the calls of [net/os/linux.cc], as the
    transport uses them: asynchronous ([asyncFlag = 1]) and without an abort flag.

    The bytes of a message are [Cell]s that remember the object they represent, so a
    reader that puts together all the bytes of one object gets the object.  The
    kernel is a script: the answers of the calls to come.  A call for which the head
    of the script is no answer would block, or succeeds where it cannot block; a
    receive never gets more than the peer has sent ([inLog]), a send may be cut
    anywhere. *)

From S2P Require Import Prelude NetTypes NetBase ConnGid ConnTypes.

Open Scope Z_scope.
Open Scope nccl_scope.

(** ** Messages *)

(** What goes over the socket of a connection, with the sizes of the C objects. *)
Inductive Msg : Type :=
  | MsgMagic (magic : Z)
  | MsgType (type : Z)
  | MsgVProps (v : ncclNetVDeviceProps_t)
  | MsgExtra (oooRq : bool)
  | MsgMeta (m : Metadata)
  | MsgReady (ready : Z).

#[export] Instance Msg_eq_dec : EqDecision Msg.
Proof. solve_decision. Defined.

Definition sizeofVProps : Z := 36.
Definition sizeofExtra : Z := 1.
Definition sizeofMeta : Z := 4584.

Definition msgSize (m : Msg) : Z :=
  match m with
  | MsgMagic _ => 8 | MsgType _ => 4 | MsgVProps _ => sizeofVProps | MsgExtra _ => sizeofExtra
  | MsgMeta _ => sizeofMeta | MsgReady _ => 4
  end.

Inductive Cell : Type := Zero | Byte (m : Msg) (i : Z).

#[export] Instance Cell_eq_dec : EqDecision Cell.
Proof. solve_decision. Defined.

Definition encode (m : Msg) : list Cell := map (Byte m) (zrange (msgSize m)).

(** The object whose representation these bytes are. *)
Definition decode (l : list Cell) : option Msg :=
  match l with
  | Byte m _ :: _ => if decide (l = encode m) then Some m else None
  | _ => None
  end.

(** ** The kernel *)

Inductive Errno : Type :=
  | EAGAIN | EINTR | EINPROGRESS | EPIPE | ECONNRESET | ETIMEDOUT | EHOSTUNREACH | ECONNREFUSED
  | ENETDOWN | EPROTO | ENOPROTOOPT | EHOSTDOWN | ENONET | EOPNOTSUPP | ENETUNREACH | EOTHER.

#[export] Instance Errno_eq_dec : EqDecision Errno.
Proof. solve_decision. Defined.

(** Calls that only succeed or fail. *)
Inductive Sys : Type := SysSocket | SysFcntl | SysSetsockopt | SysDup2 | SysClose | SysBind | SysGetsockname | SysListen
  | SysGetsockopt.

#[export] Instance Sys_eq_dec : EqDecision Sys.
Proof. solve_decision. Defined.

Inductive KAns : Type :=
  | KAccept (e : option Errno)
  | KConnect (e : option Errno)
  | KPoll (r : option Errno)
  | KSoError (e : option Errno)
  | KMoved (n : Z)
  | KIoError (e : Errno)
  | KClosed
  | KFailed (c : Sys).

Inductive ncclSocketState : Type :=
  | ncclSocketStateNone | ncclSocketStateInitialized | ncclSocketStateAccepting | ncclSocketStateAccepted
  | ncclSocketStateConnecting | ncclSocketStateConnectPolling | ncclSocketStateConnected | ncclSocketStateReady
  | ncclSocketStateTerminating | ncclSocketStateClosed | ncclSocketStateError | ncclSocketStateBadHandshake.

#[export] Instance ncclSocketState_eq_dec : EqDecision ncclSocketState.
Proof. solve_decision. Defined.

Definition ncclSocketTypeNetIb : Z := 4.

(** A socket, what it has sent ([out]), what its peer has sent ([inLog]) and how much
    of that it has read; [script] is the kernel's. *)
Record ncclSocket := mkSocket {
  sk_fd : bool;
  acceptFd : bool;
  errorRetries : Z;
  sk_state : ncclSocketState;
  sk_magic : Z;
  sk_type : Z;
  customRetry : bool;
  finalizeCounter : Z;
  finalizeBuffer : list Cell;
  out : list Cell;
  inLog : list Cell;
  nread : Z;
  script : list KAns;
}.

#[export] Instance eta_ncclSocket : Eta ncclSocket := fun r =>
  mkSocket (sk_fd r) (acceptFd r) (errorRetries r) (sk_state r) (sk_magic r) (sk_type r) (customRetry r)
    (finalizeCounter r) (finalizeBuffer r) (out r) (inLog r) (nread r) (script r).

Abbreviation sockM := (comp ncclSocket).

Definition pop : sockM unit := modify (fun s => s <| script := drop 1 (script s) |>).

Definition syscall (c : Sys) : sockM unit :=
  let* s := getS in
  match script s with
  | KFailed c' :: _ => if decide (c = c') then pop ;;; fail ncclSystemError else ret tt
  | _ => ret tt
  end.

(** [buf] with [cells] written from [off]. *)
Definition memwrite (buf : list Cell) (off : Z) (cells : list Cell) : list Cell :=
  take (Z.to_nat off) buf ++ cells ++ drop (Z.to_nat off + length cells) buf.

(** What [recv] and [send] return. *)
Inductive IoResult (A : Type) : Type := Moved (a : A) | EndOfFile | IoError (e : Errno).
Arguments Moved {A} a.
Arguments EndOfFile {A}.
Arguments IoError {A} e.

(** [recv(fd, p, n, MSG_DONTWAIT)]: asked for nothing it returns 0. *)
Definition recv (n : Z) : sockM (IoResult (list Cell)) :=
  if n =? 0 then ret EndOfFile
  else
    let* s := getS in
    match script s with
    | KMoved k :: _ =>
        pop ;;;
        let avail := take (Z.to_nat (Z.min k n)) (drop (Z.to_nat (nread s)) (inLog s)) in
        if Z.of_nat (length avail) =? 0 then ret (IoError EAGAIN)
        else
          modify (fun s => s <| nread := nread s + Z.of_nat (length avail) |>) ;;;
          ret (Moved avail)
    | KIoError e :: _ => pop ;;; ret (IoError e)
    | KClosed :: _ => pop ;;; ret EndOfFile
    | _ => ret (IoError EAGAIN)
    end.

(** [send(fd, p, n, MSG_DONTWAIT | MSG_NOSIGNAL)]: the number of bytes taken. *)
Definition send (cells : list Cell) : sockM (IoResult Z) :=
  let* s := getS in
  match script s with
  | KMoved k :: _ =>
      pop ;;;
      let taken := take (Z.to_nat k) cells in
      if Z.of_nat (length taken) =? 0 then ret (IoError EAGAIN)
      else modify (fun s => s <| out := out s ++ taken |>) ;;; ret (Moved (Z.of_nat (length taken)))
  | KIoError e :: _ => pop ;;; ret (IoError e)
  | _ => ret (IoError EAGAIN)
  end.

(** ** [linux.cc] *)

Section Os.
(** [ncclParamRetryCnt()], the buffer sizes of [ncclParamSocketMaxRecvBuff] and [...SendBuff]. *)
Context (retryCnt rcvBuf sndBuf : Z).

Definition transient (e : Errno) : bool :=
match e with EINTR | EAGAIN => true | _ => false end.

(** One turn of [ncclOsSocketProgressOpt] (an asynchronous socket takes no other);
the results are the bytes read or the count sent, and [*closed]. *)
Definition progressRecv (n : Z) : sockM (list Cell * bool) :=
let* r := recv n in
match r with
| Moved cells => ret (cells, false)
| EndOfFile => ret ([], true)
| IoError ECONNRESET => ret ([], true)
| IoError e => if transient e then ret ([], false) else fail ncclRemoteError
end.

Definition progressSend (cells : list Cell) : sockM (Z * bool) :=
let* r := send cells in
match r with
| Moved n => ret (n, false)
| EndOfFile => ret (0, false)
| IoError EPIPE => ret (0, true)
| IoError e => if transient e then ret (0, false) else fail ncclRemoteError
end.

Definition ncclOsSocketSetFlags : sockM unit :=
let* s := getS in
if negb (sk_fd s) then fail ncclInvalidArgument
else
syscall SysFcntl ;;; syscall SysFcntl ;;; syscall SysSetsockopt ;;;
when (0 <? sndBuf) (syscall SysSetsockopt) ;;;
when (0 <? rcvBuf) (syscall SysSetsockopt).

Definition ncclOsSocketResetAccept : sockM unit :=
modify (fun s => s <| sk_fd := false |> <| sk_state := ncclSocketStateBadHandshake |> <| finalizeCounter := 0 |>).

Definition ncclOsSocketResetFd : sockM unit :=
syscall SysSocket ;;;
let* s := getS in
(if sk_fd s then syscall SysDup2 ;;; syscall SysClose
 else modify (fun s => s <| sk_fd := true |>)) ;;;
ncclOsSocketSetFlags.

Definition retriedAccept (e : Errno) : bool :=
match e with
| ENETDOWN | EPROTO | ENOPROTOOPT | EHOSTDOWN | ENONET | EHOSTUNREACH | EOPNOTSUPP | ENETUNREACH | EINTR => true
| _ => false
end.

Definition ncclOsSocketTryAccept : sockM unit :=
let* s := getS in
let r := match script s with KAccept r :: _ => r | _ => Some EAGAIN end in
match script s with KAccept _ :: _ => pop | _ => ret tt end ;;;
match r with
| None => modify (fun s => s <| sk_fd := true |> <| sk_state := ncclSocketStateAccepted |>)
| Some e =>
modify (fun s => s <| sk_fd := false |>) ;;;
if retriedAccept e then
modify (fun s => s <| errorRetries := errorRetries s + 1 |>) ;;;
if errorRetries s + 1 =? retryCnt then fail ncclSystemError else ret tt
else if bool_decide (e = EAGAIN) then ret tt else fail ncclSystemError
end.

Definition retriedConnect (e : Errno) : bool :=
match e with EINTR | EAGAIN | ETIMEDOUT | EHOSTUNREACH | ECONNREFUSED => true | _ => false end.

(** The sleep before a retry is left out. *)
Definition socketConnectCheck (errCode : option Errno) : sockM unit :=
match errCode with
| None => modify (fun s => s <| sk_state := ncclSocketStateConnected |>)
| Some EINPROGRESS => modify (fun s => s <| sk_state := ncclSocketStateConnectPolling |>)
| Some e =>
if retriedConnect e then
let* s := getS in
(if customRetry s then ret tt
 else
modify (fun s => s <| errorRetries := errorRetries s + 1 |>) ;;;
if errorRetries s =? retryCnt
then modify (fun s => s <| sk_state := ncclSocketStateError |>) ;;; fail ncclRemoteError
else ret tt) ;;;
ncclOsSocketResetFd ;;;
modify (fun s => s <| sk_state := ncclSocketStateConnecting |>)
else
modify (fun s => s <| sk_state := ncclSocketStateError |>) ;;; fail ncclSystemError
end.

Definition ncclOsSocketStartConnect : sockM unit :=
let* s := getS in
match script s with
| KConnect r :: _ => pop ;;; socketConnectCheck r
| _ => socketConnectCheck (Some EINPROGRESS)
end.

(** [poll] answers that nothing happened ([KPoll None] or no answer), fails, or the
socket is ready and its error is read. *)
Definition ncclOsSocketPollConnect : sockM unit :=
let* s := getS in
match script s with
| KPoll None :: _ => pop
| KPoll (Some e) :: _ => pop ;;; if bool_decide (e = EINTR) then ret tt else fail ncclSystemError
| KSoError e :: _ => pop ;;; syscall SysGetsockopt ;;; socketConnectCheck e
| _ => ret tt
end.

(** ** [socket.cc] *)

(** With no [pclosed] a closed connection is an error. *)
Definition socketProgressRecv (n : Z) : sockM (list Cell) :=
let* '(cells, closed) := progressRecv n in
if closed : bool then fail ncclRemoteError else ret cells.

Definition socketProgressSend (cells : list Cell) : sockM Z :=
let* '(n, closed) := progressSend cells in
if closed : bool then fail ncclRemoteError else ret n.

(** [ncclSocketProgress(NCCL_SOCKET_RECV, sock, buf, size, &offset)]: the buffer and
the offset after the call. *)
Definition ncclSocketProgressRecv (buf : list Cell) (size offset : Z) : sockM (list Cell * Z) :=
let* cells := socketProgressRecv (size - offset) in
ret (memwrite buf offset cells, offset + Z.of_nat (length cells)).

(** The bytes of [buf] from [offset] up to [size]. *)
Definition slice (buf : list Cell) (size offset : Z) : list Cell :=
drop (Z.to_nat offset) (take (Z.to_nat size) buf).

Definition ncclSocketProgressSend (buf : list Cell) (size offset : Z) : sockM Z :=
let* n := socketProgressSend (slice buf size offset) in ret (offset + n).

Definition setCounter (c : Z) : sockM unit := modify (fun s => s <| finalizeCounter := c |>).

(** The magic number, then the type, each through [finalizeBuffer]. *)
Definition finalizeAcceptType : sockM unit :=
let* s := getS in
let received := finalizeCounter s - 8 in
let* '(buf, received) := ncclSocketProgressRecv (finalizeBuffer s) 4 received in
modify (fun s => s <| finalizeBuffer := buf |>) ;;;
setCounter (received + 8) ;;;
if received <? 4 then ret tt
else if decide (decode (take 4 buf) = Some (MsgType (sk_type s)))
then modify (fun s => s <| sk_state := ncclSocketStateReady |>)
else ncclOsSocketResetAccept.

Definition socketFinalizeAccept : sockM unit :=
ncclOsSocketSetFlags ;;;
let* s := getS in
if finalizeCounter s <? 8 then
let* '(cells, closed) := progressRecv (8 - finalizeCounter s) in
let buf := memwrite (finalizeBuffer s) (finalizeCounter s) cells in
let received := finalizeCounter s + Z.of_nat (length cells) in
modify (fun s => s <| finalizeBuffer := buf |>) ;;;
setCounter received ;;;
if received <? 8 then when closed ncclOsSocketResetAccept
else if decide (decode (take 8 buf) = Some (MsgMagic (sk_magic s))) then finalizeAcceptType
else ncclOsSocketResetAccept
else finalizeAcceptType.

Definition finalizeConnectType : sockM unit :=
let* s := getS in
let* sent := ncclSocketProgressSend (encode (MsgType (sk_type s))) 4 (finalizeCounter s - 8) in
setCounter (sent + 8) ;;;
if sent <? 4 then ret tt
else modify (fun s => s <| sk_state := ncclSocketStateReady |>).

Definition socketFinalizeConnect : sockM unit :=
let* s := getS in
if finalizeCounter s <? 8 then
let* sent := ncclSocketProgressSend (encode (MsgMagic (sk_magic s))) 8 (finalizeCounter s) in
setCounter sent ;;;
if sent <? 8 then ret tt else finalizeConnectType
else finalizeConnectType.

Definition inSockState (st : ncclSocketState) (m : sockM unit) : sockM unit :=
let* s := getS in when (bool_decide (sk_state s = st)) m.

Definition socketProgressState : sockM unit :=
inSockState ncclSocketStateAccepting ncclOsSocketTryAccept ;;;
inSockState ncclSocketStateAccepted socketFinalizeAccept ;;;
inSockState ncclSocketStateConnecting ncclOsSocketStartConnect ;;;
inSockState ncclSocketStateConnectPolling ncclOsSocketPollConnect ;;;
inSockState ncclSocketStateConnected socketFinalizeConnect.

Definition isReady (s : ncclSocket) : bool := bool_decide (sk_state s = ncclSocketStateReady).

(** The result is [*running]. *)
Definition ncclSocketReady : sockM bool :=
let* s := getS in
match sk_state s with
| ncclSocketStateError | ncclSocketStateClosed => fail ncclRemoteError
| ncclSocketStateReady => ret true
| _ =>
socketProgressState ;;;
inSockState ncclSocketStateBadHandshake (modify (fun s => s <| sk_state := ncclSocketStateAccepting |>)) ;;;
gets isReady
end.

(** The [do ... while] of an asynchronous socket takes one turn. *)
Definition ncclSocketConnect : sockM unit :=
let* s := getS in
if negb (sk_fd s) then fail ncclInvalidArgument
else if negb (bool_decide (sk_state s = ncclSocketStateInitialized)) then
(if bool_decide (sk_state s = ncclSocketStateError) then fail ncclRemoteError else fail ncclInternalError)
else
modify (fun s => s <| sk_state := ncclSocketStateConnecting |> <| finalizeCounter := 0 |>) ;;;
socketProgressState ;;;
let* s := getS in
match sk_state s with
| ncclSocketStateConnecting | ncclSocketStateConnectPolling | ncclSocketStateConnected
| ncclSocketStateReady => ret tt
| ncclSocketStateError => fail ncclSystemError
| _ => fail ncclInternalError
end.

(** [ncclSocketAccept(sock, listenSock)]: [sock] is the current state. *)
Definition ncclSocketAccept (listenSock : ncclSocket) : sockM unit :=
match sk_state listenSock with
| ncclSocketStateReady =>
let* s := getS in
when (negb (acceptFd s))
(modify (fun s => listenSock <| sk_state := ncclSocketStateAccepting |> <| finalizeCounter := 0 |>
 <| out := out s |> <| inLog := inLog s |> <| nread := nread s |> <| script := script s |>)) ;;;
socketProgressState ;;;
inSockState ncclSocketStateBadHandshake (modify (fun s => s <| sk_state := ncclSocketStateAccepting |>)) ;;;
let* s := getS in
match sk_state s with
| ncclSocketStateAccepting | ncclSocketStateAccepted | ncclSocketStateReady => ret tt
| ncclSocketStateError => fail ncclSystemError
| _ => fail ncclInternalError
end
| ncclSocketStateError => fail ncclSystemError
| _ => fail ncclInternalError
end.

(** [ncclSocketInit]; [addr] says whether an address is given, of a family the code
supports.  The bytes and the script are the kernel's. *)
Definition ncclSocketInit (addr : bool) (magic type : Z) (custom : bool) : sockM unit :=
modify (fun s => s <| errorRetries := 0 |> <| sk_state := ncclSocketStateInitialized |> <| sk_magic := magic |>
<| sk_type := type |> <| sk_fd := false |> <| acceptFd := false |> <| customRetry := custom |>) ;;;
when addr (fun s => match ncclOsSocketResetFd s with
| (Fail r, s') => (Fail r, s' <| sk_state := ncclSocketStateClosed |> <| sk_fd := false |>)
| o => o
end).

(** The port is not forced: [SO_REUSEADDR] is not set. *)
Definition ncclSocketListen : sockM unit :=
let* s := getS in
if negb (sk_fd s) then fail ncclInvalidArgument
else
syscall SysBind ;;; syscall SysGetsockname ;;; syscall SysListen ;;;
modify (fun s => s <| acceptFd := sk_fd s |> <| sk_state := ncclSocketStateReady |>).

Definition ncclSocketClose : sockM unit :=
modify (fun s => s <| sk_state := ncclSocketStateClosed |> <| sk_fd := false |>).

End Os.
