(* ===== verification/Connect.v ===== *)
(** * Connection set-up: connect and accept

    [ncclIbConnectImpl] and [ncclIbAcceptImpl] of [net/transport/net_ib/connect.cc].

    A call of connect or accept goes on where the last one stopped: the labels the
    code jumps to are the functions [ib_...] below, each ending in the next.  [Peer]
    is one end: the communicator, its socket, and the stage the handle (or the
    listening communicator) keeps.  The result of a call says whether the
    communicator was handed out; [Fail] is a returned error code. *)

From S2P Require Import Prelude NetTypes NetBase NetInit Resiliency Recovery ConnGid ConnTypes ConnQp ConnSetup Socket.

Open Scope Z_scope.
Open Scope nccl_scope.

Inductive ncclIbCommState : Type :=
  | ncclIbCommStateStart | ncclIbCommStateConnect | ncclIbCommStateAccept | ncclIbCommStateSend
  | ncclIbCommStateRecv | ncclIbCommStateConnecting | ncclIbCommStateConnected | ncclIbCommStatePendingReady
  | ncclIbCommStateSendDevList | ncclIbCommStateRecvDevList.

#[export] Instance ncclIbCommState_eq_dec : EqDecision ncclIbCommState.
Proof. solve_decision. Defined.

(** The pointer [comm] is the communicator of the [Peer]. *)
Record ncclIbCommStage := mkStage {
  st_state : ncclIbCommState;
  st_offset : Z;
  st_buffer : option (list Cell);
}.

Definition freshStage : ncclIbCommStage := mkStage ncclIbCommStateStart 0 None.

(** What the listener tells the connector out of band. *)
Record ncclIbHandle := mkHandle { h_magic : Z; listenGids : list ibv_gid }.

(** [stage] is NULL for a listener between two connections; [lcDev] and [lcSock] are
    the device and the socket of the listening communicator, [readyBuf] the bytes of
    [base.ready] read so far; [merged] is [ncclIbMergedDevs]. *)
Record Peer := mkPeer {
  comm_ : Conn;
  sock_ : ncclSocket;
  stage_ : option ncclIbCommStage;
  lcDev : Z;
  lcSock : ncclSocket;
  readyBuf : list Cell;
  merged : list ncclNetVDeviceProps_t;
}.

#[export] Instance eta_Stage : Eta ncclIbCommStage := fun r => mkStage (st_state r) (st_offset r) (st_buffer r).
#[export] Instance eta_Peer : Eta Peer := fun r =>
  mkPeer (comm_ r) (sock_ r) (stage_ r) (lcDev r) (lcSock r) (readyBuf r) (merged r).

Abbreviation peer := (comp Peer).

Definition onConn {A} (m : conn A) : peer A := fun s =>
  match m (comm_ s) with (o, c) => (o, s <| comm_ := c |>) end.

Definition onSock {A} (m : sockM A) : peer A := fun s =>
  match m (sock_ s) with (o, c) => (o, s <| sock_ := c |>) end.

Definition getStage : peer ncclIbCommStage := let* s := getS in of_option (stage_ s).

Definition modStage (f : ncclIbCommStage -> ncclIbCommStage) : peer unit :=
  let* st := getStage in modify (fun s => s <| stage_ := Some (f st) |>).

Definition goto_ (st : ncclIbCommState) : peer unit :=
  modStage (fun g => g <| st_state := st |> <| st_offset := 0 |>).

Definition setOffset (off : Z) : peer unit := modStage (fun g => g <| st_offset := off |>).
Definition setBuffer (b : option (list Cell)) : peer unit := modStage (fun g => g <| st_buffer := b |>).

(** [NCCLCHECKGOTO(m, ret, fail)]: an error of [m] runs the code at [fail]. *)
Definition checkGoto {A} (fail_ : peer unit) (m : peer A) : peer A := fun s =>
  match m s with
  | (Fail r, s') => match fail_ s' with (Fault, s'') => (Fault, s'') | (_, s'') => (Fail r, s'') end
  | o => o
  end.

(** ** Memory *)

Definition zeroRequest : ncclIbRequest :=
  mkRequest REQ_UNUSED false (zeros NCCL_IB_MAX_DEVS_PER_NIC) (falses NCCL_IB_MAX_DEVS_PER_NIC) 0 0 0 0
    (zeros NCCL_IB_MAX_DEVS_PER_NIC) (falses NCCL_IB_MAX_QPS) (zeros NCCL_IB_MAX_DEVS_PER_NIC) None 0.
Definition zeroFifo : ncclIbSendFifo := mkSendFifo 0 0 (zeros NCCL_IB_MAX_DEVS_PER_NIC) 0 0 0.
Definition many {A} (n : Z) (x : A) : list A := replicate (Z.to_nat n) x.

Definition zeroBase : ncclIbNetCommBase := {|
  ndevs := 0; vdevs := []; isSend := false; reqs := many NET_IB_MAX_REQUESTS zeroRequest;
  qps := many NCCL_IB_MAX_QPS (mkQp 0 0 0 0); activeQps := many NCCL_IB_MAX_QPS None; fifoHead := 0; nqps := 0;
  splitDataOnQps := 0; ready := 0; nRemDevs := 0; remOooRq := false; localOooRq := false; recvMatchingScheme := 0;
  nDataQps := 0; remDevs := many NCCL_IB_MAX_DEVS_PER_NIC (mkDevInfo 0 0 0); fatalErrorCount := 0;
  resiliency := None; speedChangeCounter := 0; totalSpeed := 0; weights := zeros NCCL_IB_MAX_DEVS_PER_NIC;
  devSpeeds := zeros NCCL_IB_MAX_DEVS_PER_NIC |}.

(** [elemsAddr] is the address of the shadow array of the communicator. *)
Definition zeroSend (elemsAddr : Z) : ncclIbSendComm := {|
  ctsFifo := many NET_IB_MAX_REQUESTS (many NCCL_NET_IB_MAX_RECVS zeroFifo);
  sendReqs := many NET_IB_MAX_REQUESTS (many NCCL_NET_IB_MAX_RECVS None); sendReqsCnt := zeros NET_IB_MAX_REQUESTS;
  remCmpls_elems := many NET_IB_MAX_REQUESTS (zeros NCCL_NET_IB_MAX_RECVS); remCmpls_elemsAddr := elemsAddr;
  remCmpls_addr := 0; remCmpls_rkeys := zeros NCCL_IB_MAX_DEVS_PER_NIC; ar := 0; remoteSpeedBuf_counter := 0;
  remoteSpeedBuf_speedGbps := zeros NCCL_IB_MAX_DEVS_PER_NIC; remoteSpeedCounter := 0 |}.

Definition zeroRecv (elemsAddr speedAddr : Z) : ncclIbRecvComm := {|
  recvReqs := many NET_IB_MAX_REQUESTS None;
  remCts_elems := many NET_IB_MAX_REQUESTS (many NCCL_NET_IB_MAX_RECVS zeroFifo); remCts_elemsAddr := elemsAddr;
  remCts_addr := 0; remCts_rkeys := zeros NCCL_IB_MAX_DEVS_PER_NIC; remCts_inline := false;
  cmplsRecords := many NET_IB_MAX_REQUESTS (mkCmplRecord (zeros NCCL_NET_IB_MAX_RECVS) (falses NCCL_IB_MAX_QPS));
  flushEnabled := 0; flushQpsCreated := false; prepostReceiveWorkRequests := false; ibRecvWorkRequest_wr_id := 0;
  remSpeedBufAddr := 0; speedUpdateBuf_addr := speedAddr; speedUpdateBuf_counter := 0;
  speedUpdateBuf_speedGbps := zeros NCCL_IB_MAX_DEVS_PER_NIC; lastSentSpeeds := zeros NCCL_IB_MAX_DEVS_PER_NIC;
  lastSentCounter := 0; postedSpeedUpdate := false |}.

(** [ncclIbMalloc] gives zeroed memory; its address is the [selfAddr] of the state. *)
Definition zeroConn (t : commTail) (s : Conn) : Conn :=
  let d := NCCL_IB_MAX_DEVS_PER_NIC in
  s <| net_ := (net_ s) <| base := zeroBase |> <| devs := many d (mkCommDev 0 0 0 (mkSge 0 0 0) 0) |> <| NetTypes.tail := t |> |>
    <| dataX := many NCCL_IB_MAX_QPS zeroQpConn |> <| flushQps := many d (mkQp 0 0 0 0) |> <| flushX := many d zeroQpConn |>
    <| probingX := many d zeroQpConn |> <| recoveryQps := many d (mkQp 0 0 0 0) |> <| recoveryX := many d zeroQpConn |>
    <| devsX := many d zeroDevConn |> <| resDevsX := many d (mkResDevConn false false None) |>
    <| remoteSpeedMr := None |> <| flushQpSl := 0 |> <| flushQpTc := 0 |>.

(** [strncpy] and the padding aside, [memcpy(stage->buffer, &object, size)]. *)
Definition writeBuffer (off : Z) (m : Msg) : peer unit :=
  let* st := getStage in
  let* b := of_option (st_buffer st) in
  setBuffer (Some (memwrite b off (encode m))).

Definition newBuffer : list Cell := many sizeofMeta Zero.

Section Handshake.
Context `{H : Host}.

Definition verb (c : Call) : peer unit := onConn (call_ c).

(** ** Progress over the socket *)

(** [ncclSocketProgress(NCCL_SOCKET_SEND, sock, stage->buffer, size, &stage->offset)];
the result says all was sent. *)
Definition sendBuffer (size : Z) : peer bool :=
let* st := getStage in
let* b := of_option (st_buffer st) in
let* off := onSock (ncclSocketProgressSend b size (st_offset st)) in
setOffset off ;;; ret (off =? size).

Definition recvBuffer (size : Z) : peer bool :=
let* st := getStage in
let* b := of_option (st_buffer st) in
let* '(b, off) := onSock (ncclSocketProgressRecv b size (st_offset st)) in
setBuffer (Some b) ;;; setOffset off ;;; ret (off =? size).

Definition sizeofDevList : Z := sizeofVProps + sizeofExtra.

(** The objects in the buffer. *)
Definition readDevList : peer (ncclNetVDeviceProps_t * bool) :=
let* st := getStage in
let* b := of_option (st_buffer st) in
match decode (slice b sizeofVProps 0), decode (slice b sizeofDevList sizeofVProps) with
| Some (MsgVProps v), Some (MsgExtra o) => ret (v, o)
| _, _ => fault
end.

Definition readMeta : peer Metadata :=
let* st := getStage in
let* b := of_option (st_buffer st) in
match decode (slice b sizeofMeta 0) with Some (MsgMeta m) => ret m | _ => fault end.

(** ** Both ends *)

Definition setVProps (v : ncclNetVDeviceProps_t) : conn unit :=
modNetBase (fun b => b <| ndevs := vp_ndevs v |> <| vdevs := vp_devs v |>).

(** All the devices of [v] have an out-of-order receive queue. *)
Fixpoint allOooRq (devs : list Z) (acc : bool) : conn bool :=
match devs with
| [] => ret acc
| d :: devs' =>
let* p := at_ ports d in
allOooRq devs' (acc && negb (oooRqSize p =? 0))
end.

Definition localOoo (v : ncclNetVDeviceProps_t) : conn bool :=
let* ds := of_option (mapM_opt (zget (vp_devs v)) (zrange (vp_ndevs v))) in allOooRq ds true.

(** The number of queue pairs both ends will use. *)
Definition setNqps (nQpsPerDev : Z) (local remote : ncclNetVDeviceProps_t) : conn unit :=
modNetBase (fun b => b <| nqps := Z.max (nQpsPerDev * vp_ndevs remote) (nQpsPerDev * vp_ndevs local) |>
<| nDataQps := Z.max (vp_ndevs local) (vp_ndevs remote) |>).

Definition vdevAt (i : Z) : conn Z := let* b := getBase in of_option (zget (vdevs b) i).

Definition setMetaDev (i : Z) (f : DevInfo -> DevInfo) : conn unit :=
modMeta (fun m =>
 x ← zget (md_devs m) i;
 l ← zset (md_devs m) i (f x);
 Some (m <| md_devs := l |>)).

Definition regMr (r : Region) (i : Z) (f : Mr -> DevConn -> DevConn) : conn Mr :=
let* a := call (RegMr r i) in
let mr := mkMr (an_fst a) (an_snd a) in
modDevX i (f mr) ;;; ret mr.

(** The peer's devices, [rem i] giving the rkey of its speed buffer. *)
Definition storeRemDevs (remMeta : Metadata) (speedRkey : Z) : conn unit :=
modNetBase (fun b => b <| nRemDevs := md_ndevs remMeta |>) ;;;
forN (md_ndevs remMeta) (fun i =>
let* d := of_option (zget (md_devs remMeta) i) in
let* b := getBase in
let* l := of_option (zset (remDevs b) i (mkDevInfo (di_rkey d) (di_currSpeed d) speedRkey)) in
modNetBase (fun b => b <| remDevs := l |>)).

(** The link layers of the peer's devices. *)
Definition checkRemoteLink (remMeta : Metadata) (link : Z) : conn unit :=
forN (md_ndevs remMeta) (fun i =>
let* d := of_option (zget (md_devs remMeta) i) in
if negb (di_link_layer d =? link) then fail ncclInternalError else ret tt).

Definition subnetRouting (dev : Z) (gids : list ibv_gid) : peer Z :=
let* s := getS in
let c := comm_ s in
let portGidOf (n : Z) : option PortGid :=
p ← zget (ports c) n;
Some (portGid (gidParams cprm) inetPton (uninitialised provider (calls c)) (tables provider (calls c) n)
(pa_link_layer (portAttr p)) (gid_tbl_len (portAttr p))) in
let devGids (v : ncclNetVDeviceProps_t) : option (list PortGid) :=
mapM_opt (fun i => n ← zget (vp_devs v) i; portGidOf n) (zrange (vp_ndevs v)) in
let* m := of_option (mapM_opt devGids (merged s)) in
ncclIbFindDevBySubnet (i32 (ncclParamIbSubnetPrefixLen (gidParams cprm))) m gids dev.

(** ** Connect *)

Section Connect.
Context (handle : ncclIbHandle) (trafficClass : option Z) (dev nQpsPerDev envTrafficClass : Z).

(** [fail:] and [exit:].  The buffer is freed, and forgotten when the next call starts. *)
Definition connectExit : peer unit :=
modStage (fun g => g <| st_state := ncclIbCommStateStart |> <| st_buffer := None |>).
Definition connectFail : peer unit := onConn (ncclIbDestroyDataQps ;;; ret tt) ;;; connectExit.
Definition orFail {A} (m : peer A) : peer A := checkGoto connectFail m.

(** [ib_send_ready:] *)
Definition ib_send_ready : peer bool :=
let* s := getS in
let* st := getStage in
let* off := orFail (onSock (ncclSocketProgressSend (encode (MsgReady (ready (base (net_ (comm_ s)))))) 4 (st_offset st))) in
setOffset off ;;;
if off =? 4 then connectExit ;;; ret true else ret false.

Definition checkLocalLink (remMeta : Metadata) : conn unit :=
let* b := getBase in
if 0 <? ndevs b then
let* port := portOf 0 in checkRemoteLink remMeta (pa_link_layer (portAttr port))
else ret tt.

Definition storeCmplsRecords (remMeta : Metadata) : conn unit :=
onNet (modSend (fun c => Some (c <| remCmpls_addr := md_addr remMeta |>))) ;;;
forN (md_ndevs remMeta) (fun i =>
let* d := of_option (zget (md_devs remMeta) i) in
onNet (modSend (fun c => l ← zset (remCmpls_rkeys c) i (di_rkey d); Some (c <| remCmpls_rkeys := l |>))) ;;;
withRes (onNet (ncclIbResiliencyRemoteCompletionRecordsSet (di_rkey d) (md_addr remMeta) i))).

Definition connectSetup (remMeta : Metadata) : conn unit :=
storeRemDevs remMeta 0 ;;;
storeCmplsRecords remMeta ;;;
let* b := getBase in
forN (ndevs b) (fun i =>
let* mr := regMr CmplsRecords i (fun mr d => d <| cmplsRecordsMr := Some mr |>) in
modNetDev i (fun d => d <| cd_sizesLkey := mr_lkey mr |>)) ;;;
ncclIbSenderQpsToRts remMeta ;;;
onNet (ncclIbComputeDevSpeeds ;;; ncclIbComputeLbWeights) ;;;
modNetBase (fun b => b <| ready := 1 |>).

(** [ib_connect:] *)
Definition ib_connect : peer bool :=
let* full := orFail (recvBuffer sizeofMeta) in
if negb full then ret false
else
let* remMeta := readMeta in
onConn (checkLocalLink remMeta) ;;;
orFail (onConn (connectSetup remMeta)) ;;;
goto_ ncclIbCommStateConnected ;;;
ib_send_ready.

(** [ib_send:] *)
Definition ib_send : peer bool :=
let* full := orFail (sendBuffer sizeofMeta) in
if negb full then ret false
else
goto_ ncclIbCommStateConnecting ;;;
setBuffer (Some newBuffer) ;;;
ib_connect.

(** The devices, with the completion queues; [ar] is the conjunction of theirs. *)
Definition connectDevs : conn unit :=
let* b := getBase in
onNet (modSend (fun c => Some (c <| ar := 1 |>))) ;;;
forN (ndevs b) (fun i =>
let* n := vdevAt i in
let* res := hasRes in
let* cqSize := (if res then onNet ncclIbResiliencyDataCqSizeGet else ret (NET_IB_MAX_REQUESTS * nQpsPerDev)) in
ncclIbInitCommDevBase n i cqSize ;;;
let* port := at_ ports n in
onNet (modSend (fun c => Some (c <| ar := if negb (ar c =? 0) && port_ar port then 1 else 0 |>))) ;;;
withRes (ncclIbResiliencyDevInit i)).

(** One device of the metadata; the accumulator is [link_layer]. *)
Definition connectDevInfo (i : Z) : conn unit :=
let* port := portOf i in
setMetaDev i (fun d => d <| di_ib_port := portNum port |> <| di_mtu := active_mtu (portAttr port) |>
 <| di_lid := pa_lid (portAttr port) |>) ;;;
regMr PutSignalScratchpad i (fun mr d => d <| putSignalScratchpadMr := Some mr |>) ;;;
let* mr := regMr CtsFifo i (fun mr d => d <| ctsFifoMr := Some mr |>) in
setMetaDev i (fun d => d <| di_rkey := mr_rkey mr |>) ;;;
let* d := at_ devsX i in
setMetaDev i (fun x => x <| di_link_layer := gi_link_layer (dc_gidInfo d) |> <| di_gid := localGid (dc_gidInfo d) |>).

Fixpoint connectDevInfos (n : nat) (i link : Z) : peer unit :=
match n with
| O => ret tt
| Datatypes.S n' =>
orFail (onConn (connectDevInfo i)) ;;;
let* m := gets (fun s => meta_ (comm_ s)) in
let* d := of_option (zget (md_devs m) i) in
let link := if link =? IBV_LINK_LAYER_UNSPECIFIED then di_link_layer d else link in
if negb (link =? di_link_layer d) then fail ncclInternalError
else connectDevInfos n' (i + 1) link
end.

Definition speedBuffer : conn unit :=
if speedUpdates then
let* a := call (RegMr RemoteSpeedBuf 0) in
modify (fun s => s <| remoteSpeedMr := Some (mkMr (an_fst a) (an_snd a)) |>)
else ret tt.

Definition ncclIbGetTrafficClass : Z := default (-1) trafficClass.

Definition metaSl : Z :=
if negb (ncclParamIbSl cprm =? -1) then ncclParamIbSl cprm
else if negb (ncclIbGetTrafficClass =? -1) then ncclIbGetTrafficClass else 0.

Definition metaTc : Z :=
if negb (envTrafficClass =? -1) then envTrafficClass
else if negb (ncclIbGetTrafficClass =? -1) then ncclIbGetTrafficClass else 0.

Definition connectMeta : conn unit :=
let* s := getS in
modMeta (fun m => Some (m <| md_addr := selfAddr s |> <| md_sl := metaSl |> <| md_tc := metaTc |>
<| md_remSpeedBufAddr := (if remoteSpeedMr s then selfSpeedBufAddr s else 0) |>
<| md_remSpeedBufRkey := from_option mr_rkey 0 (remoteSpeedMr s) |>)).

(** The device list of the peer is complete; what its [vProps] decide. *)
Definition connectExchange (remoteVProps : ncclNetVDeviceProps_t) (oooRq : bool) : peer unit :=
onConn (modNetBase (fun b => b <| remOooRq := oooRq |>)) ;;;
let* v := (let* s := getS in of_option (zget (merged s) dev)) in
onConn (setVProps v ;;; setNqps nQpsPerDev v remoteVProps ;;;
withRes (onNet (ncclIbResiliencyDeviceNumSet (vp_ndevs v) (vp_ndevs remoteVProps)))).

(** [ib_recv_dev_list:] *)
Definition ib_recv_dev_list : peer bool :=
let* full := recvBuffer sizeofDevList in
if negb full then ret false
else
setOffset 0 ;;;
let* '(remoteVProps, oooRq) := readDevList in
connectExchange remoteVProps oooRq ;;;
orFail (onConn connectDevs) ;;;
let* b := onConn getBase in
onConn (modMeta (fun _ => Some (zeroMetadata <| md_ndevs := ndevs b |>))) ;;;
orFail (onConn ncclIbSenderQpsCreate) ;;;
connectDevInfos (Z.to_nat (ndevs b)) 0 IBV_LINK_LAYER_UNSPECIFIED ;;;
orFail (onConn speedBuffer) ;;;
onConn connectMeta ;;;
goto_ ncclIbCommStateSend ;;;
let* m := gets (fun s => meta_ (comm_ s)) in
writeBuffer 0 (MsgMeta m) ;;;
ib_send.

(** [ib_send_dev_list:] *)
Definition ib_send_dev_list : peer bool :=
let* full := sendBuffer sizeofDevList in
if negb full then ret false
else goto_ ncclIbCommStateRecvDevList ;;; ib_recv_dev_list.

(** [ib_connect_check:] *)
Definition ib_connect_check : peer bool :=
let* rdy := orFail (onSock (ncclSocketReady sockRetryCnt sockRcvBuf sockSndBuf)) in
if negb rdy then ret false
else
let* s := getS in
if Z.of_nat (length (merged s)) <=? dev then fail ncclInternalError
else
let* v := of_option (zget (merged s) dev) in
onConn (setVProps v) ;;;
goto_ ncclIbCommStateSendDevList ;;;
orFail (verb MallocBuffer) ;;;
setBuffer (Some newBuffer) ;;;
writeBuffer 0 (MsgVProps v) ;;;
let* o := onConn (localOoo v) in
onConn (modNetBase (fun b => b <| localOooRq := o |>)) ;;;
writeBuffer sizeofVProps (MsgExtra o) ;;;
ib_send_dev_list.

Definition connectStart : peer bool :=
setBuffer None ;;;
verb MallocComm ;;;
onConn (modify (fun c => zeroConn (SendTail (zeroSend (selfAddr c + 1))) c)) ;;;
orFail (onConn (onNet (ncclIbSendCommInit initPrm resiliencyAlloc))) ;;;
onConn (modNetBase (fun b => b <| fatalErrorCount := 0 |>)) ;;;
orFail (onSock (ncclSocketInit sockRcvBuf sockSndBuf true (h_magic handle) ncclSocketTypeNetIb false)) ;;;
modStage (fun g => g <| st_state := ncclIbCommStateConnect |>) ;;;
orFail (onSock (ncclSocketConnect sockRetryCnt sockRcvBuf sockSndBuf)) ;;;
ib_connect_check.

Definition connectResume : peer bool :=
let* st := getStage in
match st_state st with
| ncclIbCommStateConnect => ib_connect_check
| ncclIbCommStateSendDevList => ib_send_dev_list
| ncclIbCommStateRecvDevList => ib_recv_dev_list
| ncclIbCommStateSend => ib_send
| ncclIbCommStateConnecting => ib_connect
| ncclIbCommStateConnected => ib_send_ready
| ncclIbCommStateStart => connectStart
| _ => fail ncclInternalError
end.
End Connect.

Definition ncclIbConnectImpl (handle : ncclIbHandle) (trafficClass : option Z) (dev nQpsPerDev envTrafficClass : Z)
: peer bool :=
let* dev := (if ncclParamIbSubnetAwareRouting cprm then subnetRouting dev (listenGids handle) else ret dev) in
connectResume handle trafficClass dev nQpsPerDev envTrafficClass.

(** ** Accept *)

Section Accept.
Context (nQpsPerDev : Z).

Definition acceptExit : peer unit := modify (fun s => s <| stage_ := None |>).
Definition acceptFail : peer unit := onConn (ncclIbDestroyDataQps ;;; ret tt) ;;; acceptExit.
Definition orFailA {A} (m : peer A) : peer A := checkGoto acceptFail m.

(** [ib_recv_ready:]  The bytes go to [base.ready] itself. *)
Definition ib_recv_ready : peer bool :=
let* s := getS in
let* st := getStage in
let* '(b, off) := orFailA (onSock (ncclSocketProgressRecv (readyBuf s) 4 (st_offset st))) in
modify (fun s => s <| readyBuf := b |>) ;;;
setOffset off ;;;
if negb (off =? 4) then ret false
else
match decode (slice b 4 0) with
| Some (MsgReady r) =>
onConn (modNetBase (fun b => b <| ready := r |>)) ;;; acceptExit ;;; ret true
| _ => fault
end.

(** [ib_send:] *)
Definition accept_send : peer bool :=
let* full := orFailA (sendBuffer sizeofMeta) in
if negb full then ret false
else
goto_ ncclIbCommStatePendingReady ;;;
modify (fun s => s <| readyBuf := many 4 Zero |>) ;;;
ib_recv_ready.

(** The other device the peer's addresses ask for; it stays the listener's. *)
Definition acceptRoute (remMeta : Metadata) : peer unit :=
if ncclParamIbSubnetAwareRouting cprm && (0 <? md_ndevs remMeta) then
let n := Z.to_nat (Z.min (md_ndevs remMeta) NCCL_IB_MAX_DEVS_PER_NIC) in
let gids := map di_gid (filter (fun d => di_link_layer d = IBV_LINK_LAYER_ETHERNET) (take n (md_devs remMeta))) in
let* s := getS in
let* dev := orFailA (subnetRouting (lcDev s) gids) in
if dev =? lcDev s then ret tt
else
modify (fun s => s <| lcDev := dev |>) ;;;
let* v := of_option (zget (merged s) dev) in
onConn (setVProps v)
else ret tt.

(** The devices; the accumulator, and the result, is [link_layer]. *)
Fixpoint acceptDevs (n : nat) (i link : Z) : peer Z :=
match n with
| O => ret link
| Datatypes.S n' =>
let* ibDevN := onConn (vdevAt i) in
orFailA (onConn (
let* res := hasRes in
let* cqSize := (if res then onNet ncclIbResiliencyDataCqSizeGet
 else ret (2 * NET_IB_MAX_REQUESTS * nQpsPerDev + (if speedUpdates then 1 else 0))) in
ncclIbInitCommDevBase ibDevN i cqSize ;;;
withRes (ncclIbResiliencyDevInit i))) ;;;
let* port := onConn (at_ ports ibDevN) in
let link := if link =? IBV_LINK_LAYER_UNSPECIFIED then pa_link_layer (portAttr port) else link in
if negb (link =? pa_link_layer (portAttr port)) then fail ncclInternalError
else acceptDevs n' (i + 1) link
end.

Definition acceptStore (remMeta : Metadata) : conn unit :=
onNet (modRecv (fun c => Some (c <| remSpeedBufAddr := md_remSpeedBufAddr remMeta |>))) ;;;
storeRemDevs remMeta (md_remSpeedBufRkey remMeta) ;;;
let* s := getS in
onNet (modRecv (fun c => Some (c <| flushEnabled :=
 if gdrSupported provider (calls s) && negb (ncclParamIbGdrFlushDisable cprm) then 1 else 0 |>))).

Definition acceptQps (remMeta : Metadata) : conn unit :=
ncclIbReceiverQpsCreateToRts remMeta ;;;
let* c := onNet getRecv in
when (prepostReceiveWorkRequests c) ncclIbReceiverPrePostReceiveWorkRequests.

(** The key of a device of the peer for the clear-to-sends, kept but never read:
[ncclIbPostFifo] takes it from [remDevs]. *)
Definition storeCtsRkey (remMeta : Metadata) (i : Z) : conn unit :=
let* d := of_option (zget (md_devs remMeta) i) in
onNet (modRecv (fun c => l ← zset (remCts_rkeys c) i (di_rkey d); Some (c <| remCts_rkeys := l |>))).

Definition acceptRegs (remMeta : Metadata) : conn unit :=
onNet (modRecv (fun c => Some (c <| remCts_addr := md_addr remMeta |>))) ;;;
let* b := getBase in
forN (nRemDevs b) (storeCtsRkey remMeta) ;;;
let* b := getBase in
forN (ndevs b) (fun i =>
let* mr := regMr CtsFifo i (fun mr d => d <| ctsFifoMr := Some mr |>) in
modNetDev i (fun d => d <| cd_ctsLkey := mr_lkey mr |>) ;;;
let* mr := regMr CmplsRecords i (fun mr d => d <| cmplsRecordsMr := Some mr |>) in
setMetaDev i (fun d => d <| di_rkey := mr_rkey mr |>) ;;;
when speedUpdates
(let* mr := regMr SpeedUpdateBuf i (fun mr d => d <| speedUpdateMr := Some mr |>) in
 modNetDev i (fun d => d <| cd_speedUpdateLkey := mr_lkey mr |>))) ;;;
when (ncclParamIbUseInline cprm) (onNet (modRecv (fun c => Some (c <| remCts_inline := true |>)))).

Definition acceptDevInfo (i : Z) : conn unit :=
let* n := ibDevNOf i in
let* port := at_ ports n in
let* d := at_ devsX i in
let* ib := at_ (fun s => ncclIbDevs (net_ s)) n in
setMetaDev i (fun x => x <| di_lid := pa_lid (portAttr port) |> <| di_link_layer := gi_link_layer (dc_gidInfo d) |>
 <| di_ib_port := portNum port |> <| di_gid := localGid (dc_gidInfo d) |>
 <| di_mtu := active_mtu (portAttr port) |> <| di_currSpeed := currSpeed ib |>) ;;;
onNet (modRecv (fun c => l ← zset (lastSentSpeeds c) i (u16 (currSpeed ib / 1000));
 Some (c <| lastSentSpeeds := l |>))).

Definition acceptMeta (remMeta : Metadata) : conn unit :=
let* b := getBase in
forN (ndevs b) acceptDevInfo ;;;
let* s := getS in
modMeta (fun m => Some (m <| md_addr := selfAddr s |> <| md_sl := md_sl remMeta |> <| md_tc := md_tc remMeta |>
 <| md_ndevs := ndevs b |>)).

(** [ib_recv:] *)
Definition ib_recv : peer bool :=
let* full := orFailA (recvBuffer sizeofMeta) in
if negb full then ret false
else
let* remMeta := readMeta in
acceptRoute remMeta ;;;
onConn (modMeta (fun _ => Some zeroMetadata)) ;;;
let* b := onConn getBase in
let* link := acceptDevs (Z.to_nat (ndevs b)) 0 IBV_LINK_LAYER_UNSPECIFIED in
onConn (checkRemoteLink remMeta link) ;;;
orFailA (onConn (acceptStore remMeta ;;; acceptQps remMeta ;;; acceptRegs remMeta)) ;;;
onConn (acceptMeta remMeta) ;;;
goto_ ncclIbCommStateSend ;;;
setBuffer None ;;;
orFailA (verb MallocBuffer) ;;;
setBuffer (Some newBuffer) ;;;
let* m := gets (fun s => meta_ (comm_ s)) in
writeBuffer 0 (MsgMeta m) ;;;
accept_send.

(** [ib_send_dev_list:] *)
Definition accept_send_dev_list : peer bool :=
let* full := orFailA (sendBuffer sizeofDevList) in
if negb full then ret false
else goto_ ncclIbCommStateRecv ;;; ib_recv.

(** [ib_recv_dev_list:]  [ncclIbCheckVProps] only logs. *)
Definition accept_recv_dev_list : peer bool :=
let* full := recvBuffer sizeofDevList in
if negb full then ret false
else
let* '(remoteVProps, oooRq) := readDevList in
let* s := getS in
if Z.of_nat (length (merged s)) <=? lcDev s then fail ncclInternalError
else
onConn (modNetBase (fun b => b <| remOooRq := oooRq |>)) ;;;
let* v := of_option (zget (merged s) (lcDev s)) in
onConn (setVProps v) ;;;
writeBuffer 0 (MsgVProps v) ;;;
onConn (setNqps nQpsPerDev v remoteVProps ;;;
withRes (onNet (ncclIbResiliencyDeviceNumSet (vp_ndevs v) (vp_ndevs remoteVProps)))) ;;;
goto_ ncclIbCommStateSendDevList ;;;
let* o := onConn (localOoo v) in
onConn (modNetBase (fun b => b <| localOooRq := o |>)) ;;;
writeBuffer sizeofVProps (MsgExtra o) ;;;
accept_send_dev_list.

(** [ib_accept_check:] *)
Definition ib_accept_check : peer bool :=
let* rdy := orFailA (onSock (ncclSocketReady sockRetryCnt sockRcvBuf sockSndBuf)) in
if negb rdy then ret false
else goto_ ncclIbCommStateRecvDevList ;;; accept_recv_dev_list.

Definition acceptStart : peer bool :=
verb MallocComm ;;;
onConn (modify (fun c => zeroConn (RecvTail (zeroRecv (selfAddr c + 1) (selfAddr c + 2))) c)) ;;;
orFailA (onConn (onNet (ncclIbRecvCommInit initPrm resiliencyAlloc))) ;;;
onConn (modNetBase (fun b => b <| fatalErrorCount := 0 |>)) ;;;
modStage (fun g => g <| st_state := ncclIbCommStateAccept |>) ;;;
orFailA (onSock (ncclSocketInit sockRcvBuf sockSndBuf false 0 0 false)) ;;;
let* s := getS in
orFailA (onSock (ncclSocketAccept sockRetryCnt sockRcvBuf sockSndBuf (lcSock s))) ;;;
setOffset 0 ;;;
verb MallocBuffer ;;;
setBuffer (Some newBuffer) ;;;
ib_accept_check.

Definition ncclIbAcceptImpl : peer bool :=
let* s := getS in
match stage_ s with
| None => verb MallocStage ;;; modify (fun s => s <| stage_ := Some freshStage |>)
| Some _ => ret tt
end ;;;
let* st := getStage in
match st_state st with
| ncclIbCommStateAccept => ib_accept_check
| ncclIbCommStateRecvDevList => accept_recv_dev_list
| ncclIbCommStateSendDevList => accept_send_dev_list
| ncclIbCommStateRecv => ib_recv
| ncclIbCommStateSend => accept_send
| ncclIbCommStatePendingReady => ib_recv_ready
| ncclIbCommStateStart => acceptStart
| _ => fail ncclInternalError
end.
End Accept.

End Handshake.
