(* ===== verification/ConnClose.v ===== *)
(** * Connection set-up: listen and close

    [ncclIbListen], [ncclIbCloseSend], [ncclIbCloseRecv] and [ncclIbCloseListen] of
    [net/transport/net_ib/connect.cc].  The wait of [ncclIbResiliencyClose] for the
    recovery thread is the subject of [ThreadSpec]. *)

From S2P Require Import Prelude NetTypes NetBase Recovery ConnGid ConnTypes ConnQp ConnSetup Socket Connect.

Open Scope Z_scope.
Open Scope nccl_scope.

Section Close.
Context `{H : Host}.

(** The GIDs of at most two RoCE ports. *)
Fixpoint listenLoop (devs : list Z) (slots : nat) : peer (list ibv_gid) :=
match devs, slots with
| n :: devs', Datatypes.S slots' =>
let* port := onConn (at_ ports n) in
if negb (pa_link_layer (portAttr port) =? IBV_LINK_LAYER_ETHERNET) then listenLoop devs' slots
else
let* c := gets (fun s => calls (comm_ s)) in
let t := tables provider c n in
let* i := ncclIbGetGidIndex (gidParams cprm) inetPton t (uninitialised provider c)
(pa_link_layer (portAttr port)) (gid_tbl_len (portAttr port)) in
let* g := wrap_ibv_query_gid t i in
let* gs := listenLoop devs' slots' in
ret (g :: gs)
| _, _ => ret []
end.

Definition onListenSock {A} (m : sockM A) : peer A := fun s =>
match m (lcSock s) with (o, c) => (o, s <| lcSock := c |>) end.

(** [magic] is [ncclSocketDefaultMagic()]; the unused slots of [listenGids] are zero. *)
Definition ncclIbListen (dev magic : Z) : peer ncclIbHandle :=
verb MallocComm ;;;
modify (fun s => s <| lcDev := dev |> <| stage_ := None |>) ;;;
checkGoto (onListenSock ncclSocketClose) (
onListenSock (ncclSocketInit sockRcvBuf sockSndBuf true magic ncclSocketTypeNetIb false) ;;;
onListenSock ncclSocketListen ;;;
let* ready := gets (fun s => isReady (lcSock s)) in
(if ready then ret tt else fail ncclInternalError) ;;;
let* s := getS in
let* gs := (if ncclParamIbSubnetAwareRouting cprm && (dev <? Z.of_nat (length (merged s))) then
let* v := of_option (zget (merged s) dev) in
let* ds := of_option (mapM_opt (zget (vp_devs v)) (zrange (vp_ndevs v))) in
listenLoop ds 2
else ret []) in
ret (mkHandle magic (gs ++ replicate (2 - length gs) zeroGid))).

Definition ncclIbCloseListen : peer unit := onListenSock ncclSocketClose.

(** [NCCLCHECK] of a result. *)
Definition checked (m : conn ncclResult_t) : conn unit :=
let* r := m in if bool_decide (r = ncclSuccess) then ret tt else fail r.

Definition deregIf (r : Region) (i : Z) (mr : option Mr) : conn unit :=
match mr with Some _ => call_ (DeregMr r i) | None => ret tt end.

Definition closeSendDev (i : Z) : conn unit :=
let* d := at_ devsX i in
deregIf CtsFifo i (ctsFifoMr d) ;;;
deregIf CmplsRecords i (cmplsRecordsMr d) ;;;
deregIf PutSignalScratchpad i (putSignalScratchpadMr d) ;;;
withRes (ncclIbResiliencyDevDestroy i) ;;;
ncclIbDestroyBase i.

Definition ncclIbResiliencyDestroy : conn unit := modNetBase (fun b => b <| resiliency := None |>).

Definition ncclIbCloseSend : peer unit :=
onSock ncclSocketClose ;;;
onConn (
checked ncclIbDestroyDataQps ;;;
withRes ncclIbResiliencyClose ;;;
let* s := getS in
deregIf RemoteSpeedBuf 0 (remoteSpeedMr s) ;;;
let* b := getBase in
forN (ndevs b) closeSendDev ;;;
ncclIbResiliencyDestroy).

Definition closeFlush (i : Z) : conn unit :=
let* c := onNet getRecv in
let* d := at_ devsX i in
if flushEnabled c =? 0 then ret tt
else
let* x := getQpx (Flush, i) in
when (hasQp x) (call_ (DestroyQp (Flush, i))) ;;;
deregIf FlushHostMem i (hostMr d).

(** The result of [ncclIbResiliencyDevDestroy] is dropped here. *)
Definition closeRecvDev (i : Z) : conn unit :=
let* d := at_ devsX i in
closeFlush i ;;;
deregIf CtsFifo i (ctsFifoMr d) ;;;
deregIf CmplsRecords i (cmplsRecordsMr d) ;;;
deregIf SpeedUpdateBuf i (speedUpdateMr d) ;;;
withRes (Recovery.succeeds (ncclIbResiliencyDevDestroy i) ;;; ret tt) ;;;
ncclIbDestroyBase i.

Definition ncclIbCloseRecv : peer unit :=
onSock ncclSocketClose ;;;
onConn (
checked ncclIbDestroyDataQps ;;;
withRes ncclIbResiliencyClose ;;;
let* b := getBase in
forN (ndevs b) closeRecvDev ;;;
ncclIbResiliencyDestroy).

End Close.
