(* ===== verification/ConnLogic.v ===== *)
(** * Connection set-up: reasoning about one end

    [pres f m]: however [m] ends, the view [f] of the state is what it was.
    [triple P m Q]: run from a state in [P], a normal return satisfies [Q].  One rule
    per construct; [pw] walks through a computation for [pres]. *)

From S2P Require Import Prelude NetTypes NetBase NetLemmas NetInv NetInit Resiliency Recovery ConnGid ConnTypes ConnQp ConnSetup.

Open Scope Z_scope.
Open Scope nccl_scope.

Definition pres {S A X} (f : S -> X) (m : comp S A) : Prop := forall s, f (snd (m s)) = f s.

Definition triple {S A} (P : S -> Prop) (m : comp S A) (Q : A -> S -> Prop) : Prop :=
  forall s, P s -> match m s with (Done a, s') => Q a s' | _ => True end.

Create HintDb pres discriminated.
#[export] Hint Constants Opaque : pres.

Section Pres.
Context {S X : Type} (f : S -> X).

Lemma pres_ret {A} (a : A) : pres f (ret a). Proof. by intros s. Qed.
Lemma pres_fail {A} r : pres f (fail (A := A) r). Proof. by intros s. Qed.
Lemma pres_fault {A} : pres f (fault (A := A)). Proof. intros s. reflexivity. Qed.
Lemma pres_getS : pres f getS. Proof. intros s. reflexivity. Qed.
Lemma pres_gets {A} (g : S -> A) : pres f (gets g). Proof. by intros s. Qed.
Lemma pres_of_option {A} (o : option A) : pres f (of_option o). Proof. by destruct o; intros s. Qed.

Lemma pres_modify g : (forall s, f (g s) = f s) -> pres f (modify g).
Proof. intros H s. apply H. Qed.

Lemma pres_bind {A B} (m : comp S A) (k : A -> comp S B) :
pres f m -> (forall a, pres f (k a)) -> pres f (bind m k).
Proof.
intros Hm Hk s. unfold bind. specialize (Hm s). destruct (m s) as [[a|r|] s']; cbn in *; [|done..].
by rewrite Hk.
Qed.

Lemma pres_when b (m : comp S unit) : pres f m -> pres f (when b m).
Proof. destruct b; [done|]. intros _. apply pres_ret. Qed.

Lemma pres_for n a (body : Z -> comp S unit) :
(forall i, a <= i < a + Z.of_nat n -> pres f (body i)) -> pres f (for_ n a body).
Proof.
revert a. induction n as [|n IH]; intros a H; [apply pres_ret|]. cbn [for_].
apply pres_bind; [apply H; lia|]. intros _. apply IH. intros i Hi. apply H. lia.
Qed.

Lemma pres_forN n (body : Z -> comp S unit) :
(forall i, 0 <= i < n -> pres f (body i)) -> pres f (forN n body).
Proof. intros H. apply pres_for. intros i Hi. apply H. lia. Qed.

Lemma pres_run {A} (m : comp S A) s r s' : pres f m -> m s = (r, s') -> f s' = f s.
Proof. intros H E. specialize (H s). by rewrite E in H. Qed.

Lemma pres_ext {A} (m m' : comp S A) : (forall s, m s = m' s) -> pres f m -> pres f m'.
Proof. intros E H s. rewrite <- E. apply H. Qed.
End Pres.

#[export] Hint Resolve pres_ret pres_fail pres_fault pres_getS pres_gets pres_of_option pres_when : pres.

Lemma pres_comp {S X Y A} (f : S -> X) (g : X -> Y) (m : comp S A) : pres f m -> pres (fun s => g (f s)) m.
Proof. intros H s. by rewrite H. Qed.

Section Triple.
Context {S : Type}.
Implicit Types (P : S -> Prop).

Lemma triple_ret {A} (a : A) P (Q : A -> S -> Prop) : (forall s, P s -> Q a s) -> triple P (ret a) Q.
Proof. by intros H s Hs; apply H. Qed.
Lemma triple_fail {A} r P (Q : A -> S -> Prop) : triple P (fail r) Q. Proof. by intros s Hs. Qed.
Lemma triple_fault {A} P (Q : A -> S -> Prop) : triple P fault Q. Proof. by intros s Hs. Qed.

Lemma triple_bind {A B} (m : comp S A) (k : A -> comp S B) P (R : A -> S -> Prop) (Q : B -> S -> Prop) :
triple P m R -> (forall a, triple (R a) (k a) Q) -> triple P (bind m k) Q.
Proof.
intros Hm Hk s Hs. unfold bind. specialize (Hm s Hs). destruct (m s) as [[a|r|] s']; [|done..]. by apply Hk.
Qed.

Lemma triple_weaken {A} (m : comp S A) P P' (Q Q' : A -> S -> Prop) :
triple P m Q -> (forall s, P' s -> P s) -> (forall a s, Q a s -> Q' a s) -> triple P' m Q'.
Proof. intros H HP HQ s Hs. specialize (H s (HP _ Hs)). destruct (m s) as [[a|r|] s']; auto. Qed.

Lemma triple_ext {A} (m m' : comp S A) P (Q : A -> S -> Prop) : (forall s, m s = m' s) -> triple P m Q -> triple P m' Q.
Proof. intros E H s Hs. rewrite <- E. by apply H. Qed.

Lemma triple_getS P (Q : S -> S -> Prop) : (forall s, P s -> Q s s) -> triple P getS Q.
Proof. by intros H s Hs; apply H. Qed.

Lemma triple_gets {A} (g : S -> A) P (Q : A -> S -> Prop) : (forall s, P s -> Q (g s) s) -> triple P (gets g) Q.
Proof. by intros H s Hs; apply H. Qed.

Lemma triple_of_option {A} (o : option A) P (Q : A -> S -> Prop) :
(forall a s, o = Some a -> P s -> Q a s) -> triple P (of_option o) Q.
Proof. intros H s Hs. destruct o; [|done]. by apply H. Qed.

Lemma triple_modify g P (Q : unit -> S -> Prop) : (forall s, P s -> Q tt (g s)) -> triple P (modify g) Q.
Proof. by intros H s Hs; apply H. Qed.

Lemma triple_when b (m : comp S unit) P (Q : unit -> S -> Prop) :
(b = true -> triple P m Q) -> (b = false -> forall s, P s -> Q tt s) -> triple P (when b m) Q.
Proof. intros H1 H2. destruct b; [by apply H1|]. apply triple_ret. by apply H2. Qed.

(** What [m] leaves alone stays true. *)
Lemma triple_frame {A X} (g : S -> X) (m : comp S A) P (Q : A -> S -> Prop) (R : X -> Prop) :
pres g m -> triple P m Q -> triple (fun s => P s /\ R (g s)) m (fun a s => Q a s /\ R (g s)).
Proof.
intros Hp Ht s [Hs Hr]. specialize (Ht s Hs). specialize (Hp s).
destruct (m s) as [[a|r|] s']; [|done..]. split; [done|]. cbn in Hp. by rewrite Hp.
Qed.

Lemma triple_pres {A X} (g : S -> X) (m : comp S A) (R : X -> Prop) :
pres g m -> triple (fun s => R (g s)) m (fun _ s => R (g s)).
Proof.
intros Hp s Hr. specialize (Hp s). destruct (m s) as [[a|r|] s']; [|done..]. cbn in Hp. by rewrite Hp.
Qed.

Lemma triple_and {A} (m : comp S A) P (Q Q' : A -> S -> Prop) :
triple P m Q -> triple P m Q' -> triple P m (fun a s => Q a s /\ Q' a s).
Proof. intros H1 H2 s Hs. specialize (H1 s Hs). specialize (H2 s Hs). by destruct (m s) as [[a|r|] s']. Qed.

(** [I i] holds before iteration [i]. *)
Lemma triple_for (I : Z -> S -> Prop) n a (body : Z -> comp S unit) :
(forall i, a <= i < a + Z.of_nat n -> triple (I i) (body i) (fun _ => I (i + 1))) ->
triple (I a) (for_ n a body) (fun _ => I (a + Z.of_nat n)).
Proof.
revert a. induction n as [|n IH]; intros a H.
- apply triple_ret. intros s. by rewrite Z.add_0_r.
- cbn [for_]. eapply triple_bind; [apply H; lia|]. intros []. cbn beta.
replace (a + Z.of_nat (Datatypes.S n)) with (a + 1 + Z.of_nat n) by lia. apply IH.
intros i Hi. apply H. lia.
Qed.

Lemma triple_forN (I : Z -> S -> Prop) n (body : Z -> comp S unit) :
(forall i, 0 <= i < n -> triple (I i) (body i) (fun _ => I (i + 1))) ->
triple (I 0) (forN n body) (fun _ => I (Z.max 0 n)).
Proof.
intros H. unfold forN. replace (Z.max 0 n) with (0 + Z.of_nat (Z.to_nat n)) by lia.
apply triple_for. intros i Hi. apply H. lia.
Qed.

Lemma triple_false {A} (m : comp S A) (Q : A -> S -> Prop) : triple (fun _ => False) m Q.
Proof. intros s Hs. destruct Hs. Qed.

(** A fact about the state before that does not mention it. *)
Lemma triple_pure {A} (F : Prop) (m : comp S A) P (Q : A -> S -> Prop) :
(F -> triple P m Q) -> triple (fun s => F /\ P s) m Q.
Proof. intros H s [HF Hs]. by apply H. Qed.

Lemma triple_pureR {A} (F : Prop) (m : comp S A) P (Q : A -> S -> Prop) :
(F -> triple P m Q) -> triple (fun s => P s /\ F) m Q.
Proof. intros H s [Hs HF]. by apply H. Qed.

Lemma triple_ex {A B} (P : B -> S -> Prop) (m : comp S A) (Q : A -> S -> Prop) :
(forall b, triple (P b) m Q) -> triple (fun s => exists b, P b s) m Q.
Proof. intros H s [b Hs]. by apply (H b). Qed.
End Triple.

(** ** Walking through a computation *)

Ltac pstep :=
  lazymatch goal with
  | |- pres _ (bind _ _) => apply pres_bind; [|intros ?]
  | |- pres _ (ret _) => apply pres_ret
  | |- pres _ (fail _) => apply pres_fail
  | |- pres _ fault => apply pres_fault
  | |- pres _ getS => apply pres_getS
  | |- pres _ (gets _) => apply pres_gets
  | |- pres _ (of_option _) => apply pres_of_option
  | |- pres _ (when _ _) => apply pres_when
  | |- pres _ (forN _ _) => apply pres_forN; intros ? ?
  | |- pres _ (for_ _ _ _) => apply pres_for; intros ? ?
  | |- pres _ (match ?x with _ => _ end) => destruct x
  | |- pres _ _ => first [solve [eauto with pres] | apply pres_modify; intros ?; reflexivity]
  end.
Ltac pw := repeat pstep.

(** ** The computations on a communicator *)

Section Conn.
Context {X : Type} (f : Conn -> X).

Lemma pres_at {A} (g : Conn -> list A) i : pres f (at_ g i).
Proof. unfold at_. pw. Qed.

Lemma pres_onNet {A Y} (g : Net -> Y) (m : net A) :
(forall s n, g n = g (net_ s) -> f (s <| net_ := n |>) = f s) -> pres g m -> pres f (onNet m).
Proof.
intros Hf Hm s. unfold onNet. specialize (Hm (net_ s)). destruct (m (net_ s)) as [o n]. cbn in *. by apply Hf.
Qed.

Lemma pres_modPort i g : (forall s l, f (s <| ports := l |>) = f s) -> pres f (modPort i g).
Proof. intros Hf. unfold modPort. pw; [apply pres_at|]. by apply pres_modify. Qed.

Lemma pres_modDevX i g : (forall s l, f (s <| devsX := l |>) = f s) -> pres f (modDevX i g).
Proof. intros Hf. unfold modDevX. pw; [apply pres_at|]. by apply pres_modify. Qed.

Lemma pres_modResDevX i g : (forall s l, f (s <| resDevsX := l |>) = f s) -> pres f (modResDevX i g).
Proof. intros Hf. unfold modResDevX. pw; [apply pres_at|]. by apply pres_modify. Qed.

(** Replacing element [i] of an array of queue pairs. *)
Lemma pres_modQpx q g :
(forall s l x, zget (qpxs (fst q) s) (snd q) = Some x -> zset (qpxs (fst q) s) (snd q) (g x) = Some l ->
f (setQpxs (fst q) l s) = f s) ->
pres f (modQpx q g).
Proof.
intros Hf s. unfold modQpx, getQpx, at_, bind, getS.
destruct (zget (qpxs q.1 s) q.2) as [x|] eqn:E; [|done]. cbn [of_option ret].
destruct (zset (qpxs q.1 s) q.2 (g x)) as [l|] eqn:El; [|done]. cbn. by eapply Hf.
Qed.

Lemma pres_modQp q g :
(forall s l x, zget (qpBases (fst q) s) (snd q) = Some x -> zset (qpBases (fst q) s) (snd q) (g x) = Some l ->
f (setQpBases (fst q) l s) = f s) ->
pres f (modQp q g).
Proof.
intros Hf s. unfold modQp, getQp, at_, bind, getS.
destruct (zget (qpBases q.1 s) q.2) as [x|] eqn:E; [|done]. cbn [of_option ret].
destruct (zset (qpBases q.1 s) q.2 (g x)) as [l|] eqn:El; [|done]. cbn. by eapply Hf.
Qed.

Lemma pres_modMeta g :
(forall s m, g (meta_ s) = Some m -> f (s <| meta_ := m |>) = f s) -> pres f (modMeta g).
Proof.
intros Hf s. unfold modMeta, bind, gets. destruct (g (meta_ s)) as [m|] eqn:E; [|done]. cbn. by apply Hf.
Qed.

Lemma pres_call `{H : Host} c : (forall s, f (s <| calls := calls s ++ [c] |>) = f s) -> pres f (call c).
Proof.
intros Hf. unfold call. pw; try apply pres_modify, Hf; done.
Qed.

Lemma pres_call_ `{H : Host} c : (forall s, f (s <| calls := calls s ++ [c] |>) = f s) -> pres f (call_ c).
Proof. intros Hf. unfold call_. pw. by apply pres_call. Qed.
End Conn.

#[export] Hint Resolve pres_at : pres.

(** ** Views that an operation on queue pair [q] does not see *)

(** The queue pair a call changes the state of. *)
Definition modified (c : Call) : option QpId :=
  match c with ModifyQp q _ _ | ModifyMrcQp q _ _ _ _ => Some q | _ => None end.

Definition only (q : QpId) (c : Call) : Prop := match modified c with Some q' => q' = q | None => True end.

#[export] Hint Extern 1 (only _ _) => reflexivity : pres.
#[export] Hint Extern 1 (only _ _) => exact Logic.I : pres.

Record ignoresX {X} (f : Conn -> X) (q : QpId) : Prop := {
  ig_calls : forall s c, only q c -> f (s <| calls := calls s ++ [c] |>) = f s;
  ig_x : forall s l x y, zget (qpxs (fst q) s) (snd q) = Some x -> zset (qpxs (fst q) s) (snd q) y = Some l ->
         f (setQpxs (fst q) l s) = f s;
}.

Record ignores {X} (f : Conn -> X) (q : QpId) : Prop := {
  ig_isX :: ignoresX f q;
  ig_b : forall s l x y, zget (qpBases (fst q) s) (snd q) = Some x -> zset (qpBases (fst q) s) (snd q) y = Some l ->
         f (setQpBases (fst q) l s) = f s;
}.

Section Operations.
Context `{Host} {X : Type} (f : Conn -> X) (q : QpId).

Section Outside.
Context (I : ignoresX f q).

Lemma pres_callI c : only q c -> pres f (call c).
Proof. intros Hc. apply pres_call. intros s. by apply I. Qed.
Lemma pres_call_I c : only q c -> pres f (call_ c).
Proof. intros Hc. apply pres_call_. intros s. by apply I. Qed.
Lemma pres_modQpxI g : pres f (modQpx q g).
Proof. apply pres_modQpx. intros s l x. apply I. Qed.
#[local] Hint Resolve pres_callI pres_call_I pres_modQpxI : pres.

Lemma pres_getQpx q' : pres f (getQpx q'). Proof. apply pres_at. Qed.
Lemma pres_getQp q' : pres f (getQp q'). Proof. apply pres_at. Qed.
#[local] Hint Resolve pres_getQpx pres_getQp : pres.

Lemma pres_qpModify a m mm h t : pres f (qpModify q a m mm h t).
Proof. unfold qpModify. pw. Qed.
Lemma pres_reliable x : pres f (reliable x).
Proof. unfold reliable. pw. Qed.
#[local] Hint Resolve pres_qpModify pres_reliable : pres.

Lemma pres_qpInit : pres f (ncclIbQpInit q). Proof. unfold ncclIbQpInit. pw. Qed.
Lemma pres_qpRtr : pres f (ncclIbQpRtr q). Proof. unfold ncclIbQpRtr. pw. Qed.
Lemma pres_qpRts : pres f (ncclIbQpRts q). Proof. unfold ncclIbQpRts. pw. Qed.
#[local] Hint Resolve pres_qpInit pres_qpRtr pres_qpRts : pres.

Lemma pres_setInitAttr d p fl : pres f (setInitAttr q d p fl). Proof. unfold setInitAttr. pw. Qed.
Lemma pres_toRtr a : pres f (toRtr q a). Proof. unfold toRtr. pw. Qed.
Lemma pres_toRts : pres f (toRts q). Proof. unfold toRts. pw. Qed.
Lemma pres_clearEce : pres f (clearEce q). Proof. unfold clearEce. pw. Qed.
Lemma pres_queryEce : pres f (wrap_ibv_query_ece q). Proof. unfold wrap_ibv_query_ece. pw. Qed.
Lemma pres_setEce e : pres f (wrap_ibv_set_ece q e). Proof. unfold wrap_ibv_set_ece. pw. Qed.
Lemma pres_qpDestroy : pres f (ncclIbQpDestroy q). Proof. unfold ncclIbQpDestroy. pw. Qed.
Lemma pres_createHint a : pres f (ncclIbQpCreateMrcHint q a). Proof. unfold ncclIbQpCreateMrcHint. pw. Qed.
End Outside.

Lemma pres_onFail {A} (m : conn A) c : pres f m -> pres f c -> pres f (onFail m c).
Proof.
intros Hm Hc s. unfold onFail. specialize (Hm s). destruct (m s) as [[a|r|] s1]; cbn in *; [done| |done].
specialize (Hc s1). destruct (c s1) as [[a|r'|] s2]; cbn in *; congruence.
Qed.

Lemma pres_withCode {A} r (m : conn A) : pres f m -> pres f (withCode r m).
Proof. intros Hm s. unfold withCode. specialize (Hm s). by destruct (m s) as [[a|r'|] s1]. Qed.

Context (I : ignores f q).
Let IX : ignoresX f q := ig_isX _ _ I.

Lemma pres_modQpI g : pres f (modQp q g).
Proof. apply pres_modQp. intros s l x. apply I. Qed.

Lemma pres_qpCreate a : pres f (ncclIbQpCreate q a).
Proof.
unfold ncclIbQpCreate. destruct (ca_mrc a), (ca_oooRq a).
all: pw; try apply pres_onFail; try apply pres_withCode; pw; eauto using pres_createHint, pres_modQpxI, pres_modQpI, pres_qpDestroy.
all: by apply (pres_callI IX).
Qed.

Lemma pres_receiverQpCreate a : pres f (ncclIbReceiverQpCreate q a).
Proof. unfold ncclIbReceiverQpCreate. case_match; apply pres_qpCreate. Qed.
End Operations.

#[export] Hint Resolve pres_getQpx pres_getQp : pres.
#[export] Hint Resolve pres_callI pres_call_I pres_modQpxI pres_qpInit pres_qpRtr pres_qpRts pres_setInitAttr pres_toRtr
  pres_toRts pres_clearEce pres_queryEce pres_setEce pres_qpDestroy pres_modQpI pres_qpCreate pres_receiverQpCreate
  ig_isX : pres.

(** ** The views of this development *)

(** The members of the base that no set-up of queue pairs or devices touches. *)
Definition netCore (n : Net) : ncclIbNetCommBase :=
  (base n) <| qps := [] |> <| resiliency := None |> <| totalSpeed := 0 |> <| weights := [] |> <| devSpeeds := [] |>.
Definition coreOf (s : Conn) : ncclIbNetCommBase := netCore (net_ s).

Definition qpAt (j : Z) (s : Conn) : option ncclIbQp := zget (qps (base (net_ s))) j.
Definition qxAt (j : Z) (s : Conn) : option QpConn := zget (dataX s) j.
Definition infoAt (j : Z) (s : Conn) : option ncclIbQpInfo := zget (md_qpInfo (meta_ s)) j.

(** The changes of state asked for queue pair [q], in order. *)
Definition modOf (q : QpId) (c : Call) : option ibv_qp_attr :=
  match c with
  | ModifyQp q' a _ | ModifyMrcQp q' a _ _ _ => if decide (q' = q) then Some a else None
  | _ => None
  end.
Definition modsOf (q : QpId) (s : Conn) : list ibv_qp_attr := omap (modOf q) (calls s).

Lemma modOf_other q c : modified c <> Some q -> modOf q c = None.
Proof. destruct c; try done; cbn; intros Hne; (rewrite decide_False; [done|congruence]). Qed.

Lemma modsOf_other q c s : modified c <> Some q -> modsOf q (s <| calls := calls s ++ [c] |>) = modsOf q s.
Proof. intros Hne. unfold modsOf. cbn. rewrite omap_app. cbn. rewrite modOf_other by done. apply app_nil_r. Qed.

(** Everything about data queue pair [j]. *)
Definition slotAt (j : Z) (s : Conn) := (qpAt j s, qxAt j s, infoAt j s, modsOf (Data, j) s).

(** The metadata but for the queue pairs. *)
Definition metaRest (s : Conn) : Metadata :=
  (meta_ s) <| md_qpInfo := [] |> <| md_probingQpsInfo := [] |> <| md_portRecoveryQpsInfo := [] |>.

Lemma zget_zset_ne {A} (l l' : list A) i j v : zset l i v = Some l' -> i <> j -> zget l' j = zget l j.
Proof. intros [_ ->]%zset_Some Hne. by apply zget_zupd_ne. Qed.

Lemma zget_zset_eq {A} (l l' : list A) i v : zset l i v = Some l' -> zget l' i = Some v.
Proof. intros [Hi ->]%zset_Some. by apply zget_zupd_eq. Qed.

Lemma ignoresX_any {X} (f : Conn -> X) q :
  (forall s l, f (s <| calls := l |>) = f s) -> (forall k l s, f (setQpxs k l s) = f s) -> ignoresX f q.
Proof. intros Hc Hx. split; [intros s c _; apply Hc|]. intros s l x y _ _. apply Hx. Qed.

Lemma core_ignores q : ignores coreOf q.
Proof. split; [apply ignoresX_any; [done|by intros []]|]. intros s l x y _ _. by destruct q as [[] i]. Qed.

Lemma metaRest_ignores q : ignores metaRest q.
Proof. split; [apply ignoresX_any; [done|by intros []]|]. intros s l x y _ _. by destruct q as [[] i]. Qed.

Lemma infoAt_ignores j q : ignores (infoAt j) q.
Proof. split; [apply ignoresX_any; [done|by intros []]|]. intros s l x y _ _. by destruct q as [[] i]. Qed.

Lemma qpAt_ignoresX j q : ignoresX (qpAt j) q.
Proof. apply ignoresX_any; [done|by intros []]. Qed.

Lemma slotAt_ignores j q : q <> (Data, j) -> ignores (slotAt j) q.
Proof.
  intros Hne. destruct q as [k i]. split; [split|].
  { intros s c Hc. unfold slotAt. rewrite modsOf_other; [done|]. unfold only in Hc. case_match; congruence. }
  all: intros s l x y Ex El; destruct k; try done; unfold slotAt.
  - unfold qxAt. cbn in *. by rewrite (zget_zset_ne _ _ _ j _ El) by congruence.
  - unfold qpAt. cbn in *. by rewrite (zget_zset_ne _ _ _ j _ El) by congruence.
Qed.

#[export] Hint Resolve core_ignores metaRest_ignores infoAt_ignores qpAt_ignoresX : pres.
#[export] Hint Extern 1 (ignores (slotAt _) _) => apply slotAt_ignores; congruence : pres.
