(* ===== verification/ConnSetupSpec.v ===== *)
(** * Connection set-up: what an operation leaves alone

    The views of a communicator that setting up its devices, its queue pairs and its
    resiliency context does not change, and what each transition asks of a queue pair. *)

From S2P Require Import Prelude NetTypes NetBase NetLemmas NetInv NetInit Resiliency Recovery ConnGid ConnTypes ConnQp ConnSetup ConnLogic.

Open Scope Z_scope.
Open Scope nccl_scope.

(** ** The operations of the data path used here *)

(** The peer's addresses in the part of one end. *)
Definition tailKey (t : commTail) : bool * Z * list Z :=
  match t with
  | SendTail c => (true, remCmpls_addr c, remCmpls_rkeys c)
  | RecvTail c => (false, remCts_addr c, [])
  end.

(** Everything of the base but the resiliency context and the speeds, and [tailKey]. *)
Definition netView (n : Net) : ncclIbNetCommBase * list ncclIbQp * (bool * Z * list Z) :=
  (netCore n, qps (base n), tailKey (NetTypes.tail n)).

Section NetOps.
Context `{M : Machine}.

Lemma pres_modRes f : pres netView (modRes f).
Proof. unfold modRes, getRes, modBase. pw. Qed.

Lemma pres_getRes : pres netView getRes.
Proof. unfold getRes. pw. Qed.
#[local] Hint Resolve pres_modRes pres_getRes : pres.

Lemma pres_modSend f : (forall c c', f c = Some c' -> tailKey (SendTail c') = tailKey (SendTail c)) ->
pres netView (modSend f).
Proof.
intros Hf s. unfold modSend, getSend, bind, getS. destruct (NetTypes.tail s) as [c|c] eqn:E; [|done]. cbn.
destruct (f c) as [c'|] eqn:Ec; [|done]. cbn. unfold netView. cbn. rewrite E. f_equal. by apply Hf.
Qed.
Lemma pres_modRecv f : (forall c c', f c = Some c' -> tailKey (RecvTail c') = tailKey (RecvTail c)) ->
pres netView (modRecv f).
Proof.
intros Hf s. unfold modRecv, getRecv, bind, getS. destruct (NetTypes.tail s) as [c|c] eqn:E; [done|]. cbn.
destruct (f c) as [c'|] eqn:Ec; [|done]. cbn. unfold netView. cbn. rewrite E. f_equal. by apply Hf.
Qed.
Lemma pres_getRecv : pres netView getRecv.
Proof. unfold getRecv. pw. Qed.
#[local] Hint Resolve pres_getRecv : pres.

Lemma pres_modResDev d f : pres netView (modResDev d f).
Proof. unfold modResDev. pw. Qed.
Lemma pres_setDevState d st : pres netView (setDevState d st).
Proof. unfold setDevState. apply pres_modResDev. Qed.
Lemma pres_nqpsPerRequest : pres netView ncclIbCommBaseGetNqpsPerRequest.
Proof. unfold ncclIbCommBaseGetNqpsPerRequest. pw. Qed.
#[local] Hint Resolve pres_modResDev pres_nqpsPerRequest : pres.
Lemma pres_cqSize : pres netView ncclIbResiliencyDataCqSizeGet.
Proof. unfold ncclIbResiliencyDataCqSizeGet. pw. Qed.
Lemma pres_rqSize : pres netView ncclIbResiliencyDataRqSizeGet.
Proof. unfold ncclIbResiliencyDataRqSizeGet. pw. Qed.
#[local] Hint Resolve pres_rqSize : pres.
Lemma pres_devNumSet a b : pres netView (ncclIbResiliencyDeviceNumSet a b).
Proof. unfold ncclIbResiliencyDeviceNumSet. pw. Qed.
Lemma pres_cmplSet a b c : pres netView (ncclIbResiliencyRemoteCompletionRecordsSet a b c).
Proof. unfold ncclIbResiliencyRemoteCompletionRecordsSet. pw. Qed.
Lemma pres_postRecv q id : pres netView (wrap_post_recv q id).
Proof. unfold wrap_post_recv, log. pw. Qed.
#[local] Hint Resolve pres_postRecv : pres.
Lemma pres_postRecvs i : pres netView (ncclIbPostReceiveWorkRequestsOnQp i).
Proof. unfold ncclIbPostReceiveWorkRequestsOnQp. pw. Qed.
Lemma pres_speeds : pres netView ncclIbComputeDevSpeeds.
Proof. unfold ncclIbComputeDevSpeeds, modBase. pw. Qed.
Lemma pres_weights : pres netView ncclIbComputeLbWeights.
Proof. unfold ncclIbComputeLbWeights, modBase. pw. Qed.
End NetOps.

#[export] Hint Resolve pres_modRes pres_getRes pres_getRecv pres_modResDev pres_setDevState
  pres_cqSize pres_rqSize pres_devNumSet pres_cmplSet pres_postRecvs pres_speeds pres_weights : pres.

(** ** Set-up leaves alone what it does not set up *)

(** No change of state of a data queue pair. *)
Definition notData (c : Call) : Prop := forall i, modified c <> Some (Data, i).

Lemma only_notData k i c : k <> Data -> only (k, i) c -> notData c.
Proof. intros Hk Hc j E. unfold only in Hc. rewrite E in Hc. congruence. Qed.

(** A view of the communicator that sees of the data path only [netView], and nothing of
    the devices, the ports, the calls on other queue pairs and the resiliency queue pairs. *)
Record calm {X} (f : Conn -> X) : Prop := {
  os_net : forall s n, netView n = netView (net_ s) -> f (s <| net_ := n |>) = f s;
  os_devs : forall s l, f (s <| devsX := l |>) = f s;
  os_resDevs : forall s l, f (s <| resDevsX := l |>) = f s;
  os_ports : forall s l, f (s <| ports := l |>) = f s;
  os_calls : forall s c, notData c -> f (s <| calls := calls s ++ [c] |>) = f s;
  os_probing : forall s l, f (s <| probingX := l |>) = f s;
  os_recovery : forall s l, f (s <| recoveryX := l |>) = f s;
  os_recoveryQps : forall s l, f (s <| recoveryQps := l |>) = f s;
}.

(** One that does not see the announcements of the resiliency queue pairs either. *)
Record outside {X} (f : Conn -> X) : Prop := {
  os_calm : calm f;
  os_probingInfo : forall s l, f (s <| meta_ := (meta_ s) <| md_probingQpsInfo := l |> |>) = f s;
  os_recoveryInfo : forall s l, f (s <| meta_ := (meta_ s) <| md_portRecoveryQpsInfo := l |> |>) = f s;
}.

Lemma outside_core : outside coreOf.
Proof. split; [split|..]; try done. intros s n E. exact (f_equal (fun v => fst (fst v)) E). Qed.

Lemma outside_tail : outside (fun s => tailKey (NetTypes.tail (net_ s))).
Proof. split; [split|..]; try done. intros s n E. exact (f_equal snd E). Qed.

Lemma calm_meta : calm meta_.
Proof. done. Qed.

Lemma outside_metaRest : outside metaRest.
Proof. split; [split|..]; done. Qed.

Lemma outside_slot j : outside (slotAt j).
Proof.
  split; [split|..]; try done.
  - intros s n E. apply (f_equal (fun v => snd (fst v))) in E. cbn in E. unfold slotAt, qpAt. cbn. by rewrite E.
  - intros s c Hc. unfold slotAt. by rewrite modsOf_other.
Qed.

Lemma outside_comp {X Y} (f : Conn -> X) (g : X -> Y) : outside f -> outside (fun s => g (f s)).
Proof. intros [[]]; split; [split|..]; intros; f_equal; auto. Qed.

#[export] Hint Resolve os_calm outside_core outside_metaRest outside_slot outside_tail calm_meta : pres.

Section Outside.
Context `{H : Host} {X : Type} (f : Conn -> X).

Section Calm.
Context (O : calm f).

Lemma outside_ignores_probing i : ignores f (Probing, i).
Proof.
split; [split; [intros s c Hc; apply (os_calls _ O); by eapply only_notData, Hc|]|]; cbn; intros s l x y _ _; [apply O|]. apply (os_net _ O). unfold netView, netCore. done.
Qed.

Lemma outside_ignores_recovery i : ignores f (ConnTypes.Recovery, i).
Proof. split; [split; [intros s c Hc; apply (os_calls _ O); by eapply only_notData, Hc|]|]; cbn; intros s l x y _ _; apply O. Qed.
Let IP i : ignoresX f (Probing, i) := ig_isX _ _ (outside_ignores_probing i).
Let IR i : ignoresX f (ConnTypes.Recovery, i) := ig_isX _ _ (outside_ignores_recovery i).

Hint Resolve outside_ignores_probing outside_ignores_recovery IP IR : pres.

Lemma pres_onNetO {A} (m : net A) : pres netView m -> pres f (onNet m).
Proof. apply pres_onNet. apply O. Qed.
Hint Extern 1 (pres _ (onNet _)) => apply pres_onNetO; solve [eauto with pres] : pres.

Lemma pres_modNetDev i g : pres f (modNetDev i g).
Proof. unfold modNetDev. apply pres_onNetO. pw. Qed.
Lemma pres_modDevXO i g : pres f (modDevX i g). Proof. apply pres_modDevX. apply O. Qed.
Lemma pres_modResDevXO i g : pres f (modResDevX i g). Proof. apply pres_modResDevX. apply O. Qed.
Lemma pres_modPortO i g : pres f (modPort i g). Proof. apply pres_modPort. apply O. Qed.
Lemma pres_callO c : notData c -> pres f (call c). Proof. intros Hc. apply pres_call. intros s. by apply O. Qed.
Lemma pres_call_O c : notData c -> pres f (call_ c). Proof. intros Hc. apply pres_call_. intros s. by apply O. Qed.
Hint Extern 1 (notData _) => intros ?; discriminate : pres.
Lemma pres_getBase : pres f getBase. Proof. unfold getBase. pw. Qed.
Lemma pres_ibDevNOf i : pres f (ibDevNOf i). Proof. unfold ibDevNOf. pw. Qed.
Lemma pres_hasRes : pres f hasRes. Proof. unfold hasRes, getBase. pw. Qed.
Hint Resolve pres_modNetDev pres_modDevXO pres_modResDevXO pres_modPortO pres_callO pres_call_O pres_getBase
pres_ibDevNOf pres_hasRes : pres.
Lemma pres_portOf i : pres f (portOf i). Proof. unfold portOf. pw. Qed.
Lemma pres_withRes m : pres f m -> pres f (withRes m). Proof. intros Hm. unfold withRes. pw. Qed.
Hint Resolve pres_portOf pres_withRes : pres.

Lemma pres_pkeyIndex gp t n : pres f (ncclIbGetPkeyIndex (St := Conn) gp t n).
Proof.
unfold ncclIbGetPkeyIndex. pw. generalize 0 as i. induction (Z.to_nat n) as [|k IH]; intros i; cbn [pkeyLoop]; pw.
Qed.
Hint Resolve pres_pkeyIndex : pres.

Lemma pres_initDevBase n i c : pres f (ncclIbInitCommDevBase n i c).
Proof. unfold ncclIbInitCommDevBase. pw. Qed.

Lemma pres_recoveryDevInit i : pres f (ncclIbPortRecoveryDevInit i).
Proof. unfold ncclIbPortRecoveryDevInit. pw. Qed.
Hint Resolve pres_recoveryDevInit : pres.

Lemma pres_resDevInit i : pres f (ncclIbResiliencyDevInit i).
Proof. unfold ncclIbResiliencyDevInit. pw. Qed.

Lemma pres_recoveryRts m b i : pres f (recoveryQpToRts m b i).
Proof. unfold recoveryQpToRts. pw. Qed.
Hint Resolve pres_recoveryRts : pres.

Lemma pres_probingRts m i d b : pres f (probingQpToRts m i d b).
Proof. unfold probingQpToRts. pw. Qed.
Hint Resolve pres_probingRts : pres.

Lemma pres_resSenderRts m : pres f (ncclIbResiliencySenderQpsToRts m).
Proof. unfold ncclIbResiliencySenderQpsToRts, ncclIbPortRecoverySenderQpsToRts. pw. Qed.
Lemma pres_succeeds m : pres f m -> pres f (succeeds (S := Conn) m).
Proof. intros Hm s. unfold succeeds. specialize (Hm s). by destruct (m s) as [[a|r|] s1]. Qed.
Lemma pres_prepost : pres f ncclIbReceiverPrePostReceiveWorkRequests.
Proof. unfold ncclIbReceiverPrePostReceiveWorkRequests. pw. Qed.
Lemma pres_oooRq p o : pres f (oooRqFor p o).
Proof. unfold oooRqFor. pw. Qed.
Lemma pres_stripe i : pres f (stripe i).
Proof. unfold stripe. pw. Qed.
End Calm.

#[local] Hint Resolve outside_ignores_probing outside_ignores_recovery pres_initDevBase pres_resDevInit
pres_resSenderRts pres_prepost pres_oooRq pres_stripe pres_getBase pres_ibDevNOf pres_hasRes pres_portOf pres_withRes
pres_modNetDev pres_modDevXO pres_modResDevXO pres_modPortO pres_callO pres_call_O pres_recoveryRts pres_probingRts : pres.
Hint Extern 1 (pres _ (onNet _)) => apply pres_onNetO; solve [eauto with pres] : pres.

Context (O : outside f).
#[local] Hint Resolve O : pres.

Lemma pres_setRecoveryInfo i q d : pres f (setRecoveryInfo i q d).
Proof.
apply pres_modMeta. intros s m E. destruct (zget _ _) as [x|]; [|done]. cbn [mbind option_bind] in E.
destruct (zset _ _ _) as [l|]; [|done]. injection E as <-. apply (os_recoveryInfo _ O).
Qed.
Hint Resolve pres_setRecoveryInfo : pres.

Lemma pres_recoveryCreate i a b : pres f (recoveryQpCreate i a b).
Proof. unfold recoveryQpCreate. pw. Qed.
Hint Resolve pres_recoveryCreate : pres.

Lemma pres_probingCreate i d n fl : pres f (probingQpCreate i d n fl).
Proof.
unfold probingQpCreate. pw.
apply pres_modMeta. intros s m E. destruct (zget (md_probingQpsInfo (meta_ s)) i) as [x|]; [|done]. cbn [mbind option_bind] in E.
destruct (zset _ _ _) as [l|]; [|done]. injection E as <-. apply (os_probingInfo _ O).
Qed.
Hint Resolve pres_probingCreate : pres.

Lemma pres_resSenderCreate : pres f ncclIbResiliencySenderCreateQps.
Proof. unfold ncclIbResiliencySenderCreateQps, ncclIbPortRecoverySenderQpsCreate. pw. Qed.
Lemma pres_resReceiver m : pres f (ncclIbResiliencyReceiverQpsCreateToRts m).
Proof. unfold ncclIbResiliencyReceiverQpsCreateToRts, ncclIbPortRecoveryReceiverQpsCreateToRts. pw. Qed.
End Outside.

#[export] Hint Resolve pres_initDevBase pres_resDevInit pres_resSenderCreate pres_resSenderRts pres_resReceiver
  pres_succeeds pres_prepost pres_oooRq pres_stripe pres_getBase pres_ibDevNOf pres_hasRes pres_portOf pres_withRes
  pres_modNetDev pres_modDevXO pres_modResDevXO pres_modPortO pres_callO pres_call_O : pres.

#[export] Hint Extern 2 (pres ?f (onNet _)) => apply (pres_onNetO f); [solve [auto with pres]|solve [eauto with pres]] : pres.

#[export] Hint Extern 1 (notData _) => intros ?; discriminate : pres.
#[export] Hint Resolve outside_ignores_probing outside_ignores_recovery pres_recoveryRts pres_probingRts : pres.

(** The queue pairs the provider numbers do not appear or disappear. *)
Definition qpsLen (s : Conn) : nat := length (qps (base (net_ s))).

Lemma outside_qpsLen : outside qpsLen.
Proof. split; [split|..]; try done. intros s n E. apply (f_equal (fun v => snd (fst v))) in E. cbn in E. unfold qpsLen. cbn. by rewrite E. Qed.

Lemma qpsLen_ignores q : ignores qpsLen q.
Proof.
  split; [apply ignoresX_any; [done|by intros []]|]. intros s l x y Ex El. destruct q as [[] i]; try done.
  unfold qpsLen. cbn in *. apply zset_Some in El as [_ ->]. by rewrite length_zupd.
Qed.
#[export] Hint Resolve outside_qpsLen qpsLen_ignores : pres.

(** ** The changes of state of a queue pair *)

Lemma pres_pair {S A X Y} (f : S -> X) (g : S -> Y) (m : comp S A) :
  pres f m -> pres g m -> pres (fun s => (f s, g s)) m.
Proof. intros Hf Hg s. by rewrite Hf, Hg. Qed.

(** A step that leaves the view [g] alone, before the rest. *)
Lemma triple_skip {S A B X} (g : S -> X) (R : X -> Prop) (m : comp S A) (k : A -> comp S B) (Q : B -> S -> Prop) :
  pres g m -> (forall a, triple (fun s => R (g s)) (k a) Q) -> triple (fun s => R (g s)) (bind m k) Q.
Proof. intros Hm Hk. eapply triple_bind; [by apply triple_pres|]. intros a. apply Hk. Qed.

Section Modifications.
Context `{H : Host}.
Implicit Types (q : QpId).

Lemma modsOf_snoc q c a s : modOf q c = Some a -> modsOf q (s <| calls := calls s ++ [c] |>) = modsOf q s ++ [a].
Proof. intros E. unfold modsOf. cbn. rewrite omap_app. cbn. by rewrite E. Qed.

Lemma call_asks q c a L : modOf q c = Some a ->
triple (fun s => modsOf q s = L) (call_ c) (fun _ s => modsOf q s = L ++ [a]).
Proof.
intros E s Hs. unfold call_, call, bind, getS, modify. cbn. destruct (answer provider (calls s) c); [|done]. cbn.
etransitivity; [exact (modsOf_snoc _ _ _ _ E)|]. by rewrite Hs.
Qed.

Lemma qpModify_asks q a m mm h t L :
triple (fun s => modsOf q s = L) (qpModify q a m mm h t) (fun _ s => modsOf q s = L ++ [a]).
Proof.
unfold qpModify. apply (triple_skip (modsOf q) (fun x => x = L)); [pw|]. intros x.
destruct (hasMrcQp x); [|destruct (hasQp x); [|apply triple_fault]]; apply call_asks; cbn; by rewrite decide_True.
Qed.

(** The attributes a queue pair goes to RTR with. *)
Definition rtrAsk (ra : ncclIbQpRtrAttr) (a : ibv_qp_attr) : Prop :=
qp_state a = IBV_QPS_RTR /\ qa_dest_qp_num a = ra_remoteQpNum ra /\ qa_path_mtu a = ra_mtu ra
/\ qa_ah a = rtrAddress ra.

Lemma init_asks q L :
triple (fun s => modsOf q s = L) (ncclIbQpInit q)
(fun _ s => exists a, modsOf q s = L ++ [a] /\ qp_state a = IBV_QPS_INIT).
Proof.
unfold ncclIbQpInit. apply (triple_skip (modsOf q) (fun x => x = L)); [pw|]. intros x.
eapply triple_weaken; [apply qpModify_asks|intros s Hs; exact Hs|]. intros [] s Hs. cbn beta. eauto.
Qed.

Definition rtrOf q (s : Conn) : option ncclIbQpRtrAttr := rtrAttr <$> zget (qpxs (fst q) s) (snd q).

Lemma modsOf_setQpxs q k l s : modsOf q (setQpxs k l s) = modsOf q s.
Proof. by destruct k. Qed.
Lemma modsOf_setQpBases q k l s : modsOf q (setQpBases k l s) = modsOf q s.
Proof. by destruct k. Qed.

Lemma pres_modQpx_mods q q' g : pres (modsOf q) (modQpx q' g).
Proof. apply pres_modQpx. intros. apply modsOf_setQpxs. Qed.
Lemma pres_modQp_mods q q' g : pres (modsOf q) (modQp q' g).
Proof. apply pres_modQp. intros. apply modsOf_setQpBases. Qed.

Lemma qpxs_setQpxs k l s : qpxs k (setQpxs k l s) = l.
Proof. by destruct k. Qed.

Lemma modQpx_sets q g s s' : modQpx q g s = (Done tt, s') ->
exists x, zget (qpxs (fst q) s) (snd q) = Some x /\ zget (qpxs (fst q) s') (snd q) = Some (g x).
Proof.
unfold modQpx, getQpx, at_, bind, getS. destruct (zget (qpxs q.1 s) q.2) as [x|] eqn:E; [|done]. cbn.
destruct (zset (qpxs q.1 s) q.2 (g x)) as [l|] eqn:El; [|done]. cbn. intros [= <-].
exists x. rewrite qpxs_setQpxs. split; [done|]. by eapply zget_zset_eq.
Qed.

Lemma toRtr_asks q ra L :
triple (fun s => modsOf q s = L) (toRtr q ra) (fun _ s => exists a, modsOf q s = L ++ [a] /\ rtrAsk ra a).
Proof.
unfold toRtr. eapply triple_bind with (R := fun _ s => modsOf q s = L /\ rtrOf q s = Some ra).
{ intros s Hs. pose proof (pres_modQpx_mods q q (fun x => x <| rtrAttr := ra |>) s) as Hp.
destruct (modQpx _ _ s) as [[[]|r|] s'] eqn:E; try done. apply modQpx_sets in E as (x & Ex & Ex').
cbn in Hp. split; [by rewrite Hp|]. unfold rtrOf. by rewrite Ex'. }
intros []. unfold ncclIbQpRtr. eapply triple_bind with (R := fun x s => modsOf q s = L /\ rtrAttr x = ra).
{ intros s [Hs Hr]. unfold getQpx, at_, bind, getS. unfold rtrOf in Hr. destruct (zget _ _) as [x|]; [|done].
injection Hr as <-. done. }
intros x. apply triple_pureR. intros <-.
apply (triple_skip (modsOf q) (fun y => y = L)); [unfold reliable; pw|]. intros rc.
eapply triple_weaken; [apply qpModify_asks|intros s Hs; exact Hs|]. intros [] s Hs. cbn beta. eexists. split; [exact Hs|].
by destruct rc.
Qed.

Lemma toRts_asks q L :
triple (fun s => modsOf q s = L) (toRts q)
(fun _ s => exists a, modsOf q s = L ++ [a] /\ qp_state a = IBV_QPS_RTS).
Proof.
unfold toRts. apply (triple_skip (modsOf q) (fun y => y = L)); [apply pres_modQpx_mods|]. intros [].
unfold ncclIbQpRts. apply (triple_skip (modsOf q) (fun y => y = L)); [pw|]. intros x. cbn zeta.
apply (triple_skip (modsOf q) (fun y => y = L)); [unfold reliable; pw|]. intros rc.
eapply triple_weaken; [apply qpModify_asks|intros s Hs; exact Hs|]. intros [] s Hs. cbn beta. eexists. split; [exact Hs|].
by destruct rc.
Qed.
End Modifications.
