(* ===== verification/ConnDataSpec.v ===== *)
(** * Connection set-up: the data queue pairs, verified

    What [ncclIbSenderQpsCreate], [ncclIbSenderQpsToRts] and
    [ncclIbReceiverQpsCreateToRts] do to the data queue pairs and the metadata: each
    queue pair is created on the device of its stripe, announced with its number and
    its device, and moved through INIT, RTR and RTS towards the peer's. *)

From S2P Require Import Prelude NetTypes NetBase NetLemmas NetInv NetInit Resiliency Recovery ConnGid ConnTypes ConnQp ConnSetup ConnLogic ConnSetupSpec.

Open Scope Z_scope.
Open Scope nccl_scope.

(** What the metadata says of queue pair [i]: its number and its device. *)
Definition announced (x : ncclIbQpInfo) : Z * Z := (qi_qpn x, qi_devIndex x).
Definition announcedAt (i : Z) (s : Conn) : option (Z * Z) := announced <$> infoAt i s.

(** Queue pair [i], what is announced of it, and the changes of state asked for it. *)
Definition slotView (i : Z) (s : Conn) := (qpAt i s, announcedAt i s, modsOf (Data, i) s).
Definition Slot : Type := option ncclIbQp * option (Z * Z) * list ibv_qp_attr.

(** In INIT, announced on device [dev], with [F] of its members. *)
Definition inInit (F : ncclIbQp -> Prop) (dev : Z) (v : Slot) : Prop :=
  exists qp a, v = (Some qp, Some (qpn qp, dev), [a]) /\ F qp /\ qp_state a = IBV_QPS_INIT.

(** Created on device [dev]. *)
Definition created (dev : Z) : Slot -> Prop := inInit (fun qp => devIndex qp = dev) dev.

(** Connected to the queue pair the peer announces as [info] on device [rem]. *)
Definition connected (dev : Z) (info : ncclIbQpInfo) (rem : DevInfo) (v : Slot) : Prop :=
  exists qp a0 a1 a2, v = (Some qp, Some (qpn qp, dev), [a0; a1; a2])
    /\ devIndex qp = dev /\ remDevIdx qp = qi_devIndex info
    /\ qp_state a0 = IBV_QPS_INIT /\ qp_state a1 = IBV_QPS_RTR /\ qp_state a2 = IBV_QPS_RTS
    /\ qa_dest_qp_num a1 = qi_qpn info
    /\ exists ra, qa_ah a1 = rtrAddress ra /\ ra_linkLayer ra = di_link_layer rem
         /\ ra_remoteGid ra = di_gid rem /\ ra_remoteLid ra = di_lid rem.

(** The peer's half, found in its metadata. *)
Definition joined (rm : Metadata) (dev i : Z) (v : Slot) : Prop :=
  exists info rem, zget (md_qpInfo rm) i = Some info /\ zget (md_devs rm) (qi_devIndex info) = Some rem
    /\ connected dev info rem v.

(** The device of queue pair [i] of [nd]. *)
Definition stripeOf (nd i : Z) : Z := u32 i mod u32 nd.

Definition ndevsOf (s : Conn) : Z := ndevs (base (net_ s)).

Lemma ndevsOf_core s : ndevsOf s = ndevs (coreOf s).
Proof. done. Qed.

Lemma pres_ndevs {A} (m : conn A) : pres coreOf m -> pres ndevsOf m.
Proof. apply (pres_comp coreOf ndevs). Qed.

Lemma pres_slotView {A} j (m : conn A) : pres (slotAt j) m -> pres (slotView j) m.
Proof. apply (pres_comp (slotAt j) (fun v => (fst (fst (fst v)), announced <$> snd (fst v), snd v))). Qed.

Lemma outside_slotView j : outside (slotView j).
Proof. apply (outside_comp (slotAt j) (fun v => (fst (fst (fst v)), announced <$> snd (fst v), snd v))), outside_slot. Qed.
#[export] Hint Resolve outside_slotView : pres.

Section Sender.
Context `{H : Host}.

Lemma pres_qpCreate_mods q q' a : pres (modsOf q) (ncclIbQpCreate q' a).
Proof.
assert (forall c, modified c = None -> pres (modsOf q) (call c)) as Hc.
{ intros c E. apply pres_call. intros s. apply modsOf_other. by rewrite E. }
assert (forall c, modified c = None -> pres (modsOf q) (call_ c)) as Hc'.
{ intros c E. unfold call_. pw; by apply Hc. }
assert (forall g, pres (modsOf q) (modQpx q' g)) as Hx by apply pres_modQpx_mods.
assert (forall g, pres (modsOf q) (modQp q' g)) as Hq by apply pres_modQp_mods.
assert (pres (modsOf q) (ncclIbQpDestroy q')) as Hd by (unfold ncclIbQpDestroy; pw; auto).
unfold ncclIbQpCreate, ncclIbQpCreateMrcHint.
destruct (ca_mrc a), (ca_oooRq a); pw; try apply pres_onFail; try apply pres_withCode; pw; auto.
Qed.

Lemma pres_receiverQpCreate_mods q q' a : pres (modsOf q) (ncclIbReceiverQpCreate q' a).
Proof. unfold ncclIbReceiverQpCreate. case_match; apply pres_qpCreate_mods. Qed.

Lemma qpBases_setQpBases_data l s : qps (base (net_ (setQpBases Data l s))) = l.
Proof. done. Qed.

(** Writing to a data queue pair. *)
Lemma modQp_sets i g (R : list ibv_qp_attr -> Prop) (X : option ncclIbQp -> Prop) :
triple (fun s => X (qpAt i s) /\ R (modsOf (Data, i) s)) (modQp (Data, i) g)
(fun _ s => exists qp, X (Some qp) /\ qpAt i s = Some (g qp) /\ R (modsOf (Data, i) s)).
Proof.
intros s [Hq Hs]. pose proof (pres_modQp_mods (Data, i) (Data, i) g s) as Hp. revert Hp.
unfold modQp, getQp, at_, bind, getS. cbn. unfold qpAt in *. destruct (zget _ i) as [qp|] eqn:E; [|done]. cbn.
destruct (zset _ i (g qp)) as [l|] eqn:El; [|done]. cbn. intros Hp. exists qp. split; [done|].
split; [by eapply zget_zset_eq|done].
Qed.

(** Writing what is announced of a queue pair. *)
Lemma setQpInfo_sets i g (v : option ncclIbQp * list ibv_qp_attr) :
triple (fun s => (qpAt i s, modsOf (Data, i) s) = v) (setQpInfo i g)
(fun _ s => (qpAt i s, modsOf (Data, i) s) = v /\ exists x, infoAt i s = Some (g x)).
Proof.
intros s Hs. unfold setQpInfo, modMeta, bind, gets. cbn.
destruct (zget (md_qpInfo (meta_ s)) i) as [x|]; [|done]. cbn [mbind option_bind].
destruct (zset _ i (g x)) as [l|] eqn:E; [|done]. cbn. split; [done|]. exists x.
unfold infoAt. cbn. by eapply zget_zset_eq.
Qed.

Lemma pres_setQpInfo_slot i j g : (forall x, announced (g x) = announced x) -> pres (slotView j) (setQpInfo i g).
Proof.
intros Hg. apply pres_modMeta. intros s m E. unfold slotView, announcedAt, infoAt. cbn.
destruct (zget (md_qpInfo (meta_ s)) i) as [x|] eqn:Ex; [|done]. cbn [mbind option_bind] in E.
destruct (zset _ i (g x)) as [l|] eqn:El; [|done]. injection E as <-. cbn. f_equal. f_equal.
destruct (decide (i = j)) as [->|Hne].
- rewrite (zget_zset_eq _ _ _ _ El), Ex. cbn. by rewrite Hg.
- by rewrite (zget_zset_ne _ _ _ _ _ El).
Qed.

Lemma slotView_ignoresX i j : i <> j -> ignoresX (slotView j) (Data, i).
Proof.
intros Hne. split.
- intros s c Hc. unfold slotView. rewrite modsOf_other; [done|]. unfold only in Hc. case_match; congruence.
- intros s l x y _ _. done.
Qed.

(** The queue pair and what is announced; blind to the changes of state. *)
Definition bodyView (i : Z) (s : Conn) := (qpAt i s, announcedAt i s).

Lemma bodyView_ignoresX i q : ignoresX (bodyView i) q.
Proof. apply ignoresX_any; [done|by intros []]. Qed.

#[local] Hint Resolve bodyView_ignoresX : pres.

Lemma getQp_reads i (v : option ncclIbQp * list ibv_qp_attr) :
triple (fun s => (qpAt i s, modsOf (Data, i) s) = v) (getQp (Data, i))
(fun qp s => (qpAt i s, modsOf (Data, i) s) = v /\ fst v = Some qp).
Proof.
intros s Hs. unfold getQp, at_, bind, getS. cbn. fold (qpAt i s). destruct (qpAt i s) as [qp|] eqn:E; [|done].
cbn. rewrite E. split; [done|]. by rewrite <- Hs.
Qed.

(** The device of the stripe, with whatever else holds. *)
Lemma stripe_reads i nd (P : Conn -> Prop) :
triple (fun s => ndevsOf s = nd /\ P s) (stripe i) (fun dev s => dev = stripeOf nd i /\ P s).
Proof.
intros s [Hn Hs]. unfold stripe, getBase, gets, bind, ndevsOf, stripeOf in *. cbn.
destruct (ndevs (base (net_ s)) =? 0); [done|]. cbn. by rewrite Hn.
Qed.

Lemma bodyView_of i s qp x m : (qpAt i s, modsOf (Data, i) s) = (Some qp, m) -> infoAt i s = Some x ->
slotView i s = (Some qp, Some (announced x), m).
Proof. intros [= Hq Hm] Hx. unfold slotView, announcedAt. by rewrite Hq, Hm, Hx. Qed.

Lemma pres_modQpx_slot i q g : pres (slotView i) (modQpx q g).
Proof. apply pres_modQpx. intros s l x _ _. by destruct q as [[] ?]. Qed.

Lemma pres_call_slot i c : modified c = None -> pres (slotView i) (call c).
Proof. intros Hc. apply pres_call. intros s. unfold slotView. by rewrite modsOf_other by congruence. Qed.

Lemma pres_clearEce_slot i q : pres (slotView i) (clearEce q).
Proof. apply pres_modQpx_slot. Qed.
Lemma pres_queryEce_slot i q : pres (slotView i) (wrap_ibv_query_ece q).
Proof. unfold wrap_ibv_query_ece. pw. Qed.
Lemma pres_setEce_slot i q e : pres (slotView i) (wrap_ibv_set_ece q e).
Proof. unfold wrap_ibv_set_ece. pw. Qed.
Hint Resolve pres_modQpx_slot pres_clearEce_slot pres_queryEce_slot pres_setEce_slot : pres.
Hint Extern 1 (pres (slotView _) (setQpInfo _ _)) => apply pres_setQpInfo_slot; done : pres.

Lemma pres_setInitAttr_slot i j d port fl : pres (slotView j) (setInitAttr (Data, i) d port fl).
Proof. apply pres_modQpx_slot. Qed.

(** A computation that asks for one change of state of queue pair [i]. *)
Lemma slot_asks (m : conn unit) i (F : ibv_qp_attr -> Prop) qp x l :
pres (bodyView i) m ->
triple (fun s => modsOf (Data, i) s = l) m (fun _ s => exists a, modsOf (Data, i) s = l ++ [a] /\ F a) ->
triple (fun s => slotView i s = (qp, x, l)) m (fun _ s => exists a, slotView i s = (qp, x, l ++ [a]) /\ F a).
Proof.
intros Hp Ht s Hs. assert (modsOf (Data, i) s = l) as Hm by (by injection Hs). specialize (Ht s Hm).
specialize (Hp s). destruct (m s) as [[[]|r|] s']; try done. cbn in Hp. destruct Ht as (a & Ha & HF).
exists a. split; [|done]. unfold slotView, bodyView in *. injection Hp as -> ->. injection Hs as -> -> _. by rewrite Ha.
Qed.

Lemma init_slot i qp x :
triple (fun s => slotView i s = (qp, x, [])) (ncclIbQpInit (Data, i))
(fun _ s => exists a, slotView i s = (qp, x, [a]) /\ qp_state a = IBV_QPS_INIT).
Proof. apply (slot_asks _ i _ qp x []); [by eapply pres_qpInit, bodyView_ignoresX|]. apply (init_asks _ []). Qed.

(** From INIT to RTS, towards the peer's queue pair. *)
Lemma connect_slot {A} i dev info rem ra (rest : conn A) Q :
ra_remoteQpNum ra = qi_qpn info -> ra_linkLayer ra = di_link_layer rem -> ra_remoteGid ra = di_gid rem ->
ra_remoteLid ra = di_lid rem ->
triple (fun s => connected dev info rem (slotView i s)) rest Q ->
triple (fun s => inInit (fun qp => devIndex qp = dev /\ remDevIdx qp = qi_devIndex info) dev (slotView i s))
(toRtr (Data, i) ra ;;; toRts (Data, i) ;;; rest) Q.
Proof.
intros E1 E2 E3 E4 Hr. apply triple_ex. intros qp. apply triple_ex. intros a0.
apply triple_pureR. intros ([Hd Hrem] & Ha0).
eapply triple_bind; [apply (slot_asks _ i (rtrAsk ra)); [by eapply pres_toRtr, bodyView_ignoresX|apply toRtr_asks]|].
intros []. apply triple_ex. intros a1. apply triple_pureR. intros (H1 & H2 & _ & H4).
eapply triple_bind; [apply slot_asks; [by eapply pres_toRts, bodyView_ignoresX|apply toRts_asks]|].
intros []. eapply triple_weaken; [exact Hr| |done]. intros s (a2 & Hs & H5).
exists qp, a0, a1, a2. split; [exact Hs|]. do 6 (split; [congruence|]). by exists ra.
Qed.

Lemma connect_slot_end i dev info rem ra :
ra_remoteQpNum ra = qi_qpn info -> ra_linkLayer ra = di_link_layer rem -> ra_remoteGid ra = di_gid rem ->
ra_remoteLid ra = di_lid rem ->
triple (fun s => inInit (fun qp => devIndex qp = dev /\ remDevIdx qp = qi_devIndex info) dev (slotView i s))
(toRtr (Data, i) ra ;;; toRts (Data, i)) (fun _ s => connected dev info rem (slotView i s)).
Proof.
intros E1 E2 E3 E4. eapply triple_ext; [|apply (connect_slot i dev info rem ra (ret tt)); try done; by apply triple_ret].
intros s. unfold bind. destruct (toRtr _ _ s) as [[[]|r|] s1]; [|done..]. by destruct (toRts _ s1) as [[[]|r|] s2].
Qed.

(** From creation to INIT: the part both ends share. *)
Lemma announce_and_init {A} (F : ncclIbQp -> Prop) i dev d port fl (rest : conn A) Q :
triple (fun s => inInit F dev (slotView i s)) rest Q ->
triple (fun s => exists qp, (qpAt i s, modsOf (Data, i) s) = (Some qp, []) /\ F qp)
(let* qp := getQp (Data, i) in
 setQpInfo i (fun x => x <| qi_qpn := qpn qp |> <| qi_devIndex := dev |>) ;;;
 setInitAttr (Data, i) d port fl ;;;
 ncclIbQpInit (Data, i) ;;;
 rest)
Q.
Proof.
intros Hrest. apply triple_ex. intros qp. apply triple_pureR. intros Hd.
eapply triple_bind; [apply getQp_reads|]. intros x. apply triple_pureR. intros [= <-].
eapply triple_bind; [apply setQpInfo_sets|]. intros [].
eapply triple_weaken with (P := fun s => slotView i s = (Some qp, Some (qpn qp, dev), []));
[|intros s [Hs (y & Hy)]; by rewrite (bodyView_of _ _ _ _ _ Hs Hy)|intros ? ? Hq; exact Hq].
apply (triple_skip (slotView i) (fun v => v = (Some qp, Some (qpn qp, dev), []))); [apply pres_setInitAttr_slot|].
intros []. eapply triple_bind; [apply init_slot|]. intros []. eapply triple_weaken; [exact Hrest| |done].
intros s (a & Ha & Hst). exists qp, a. done.
Qed.

Lemma setDevice i dev (g : ncclIbQp -> ncclIbQp) : (forall x, devIndex (g x) = dev) ->
triple (fun s => modsOf (Data, i) s = []) (modQp (Data, i) g)
(fun _ s => exists qp, (qpAt i s, modsOf (Data, i) s) = (Some qp, []) /\ devIndex qp = dev).
Proof.
intros Hg. eapply triple_weaken; [apply (modQp_sets i g (fun l => l = []) (fun _ => True))|done|].
intros [] s (qp & _ & Hq & Hm). exists (g qp). by rewrite Hq, Hm.
Qed.

(** *** The sender *)

Lemma senderQpCreate_creates i ooo nd :
triple (fun s => ndevsOf s = nd /\ modsOf (Data, i) s = []) (senderQpCreate i ooo)
(fun _ s => created (stripeOf nd i) (slotView i s)).
Proof.
unfold senderQpCreate. apply (triple_skip id); [pw|]. intros b.
eapply triple_bind; [apply (stripe_reads i nd)|]. intros dev. apply triple_pure. intros ->.
do 3 (apply (triple_skip (modsOf (Data, i)) (fun v => v = [])); [pw|intros ?]).
apply (triple_skip (modsOf (Data, i)) (fun v => v = [])); [apply pres_qpCreate_mods|]. intros [].
eapply triple_bind; [by apply (setDevice i (stripeOf nd i))|]. intros []. apply announce_and_init.
apply (triple_skip (slotView i) (created (stripeOf nd i))); [pw|]. intros x.
apply (triple_skip (slotView i) (created (stripeOf nd i))); [|intros []; by apply triple_ret].
destruct (ncclParamIbEceEnable cprm && hasQp x); pw.
Qed.

(** What the loop body leaves alone. *)
Section Body.
Context {X : Type} (f : Conn -> X) (i : Z) (O : calm f) (I : ignores f (Data, i)).
Let IX : ignoresX f (Data, i) := ig_isX _ _ I.
#[local] Hint Resolve O I IX pres_portOf pres_getBase pres_ibDevNOf pres_hasRes pres_oooRq pres_modPortO : pres.

Lemma pres_senderQpToRts m : pres f (senderQpToRts m i).
Proof. unfold senderQpToRts. pw. Qed.

Context (Hinfo : forall g, pres f (setQpInfo i g)).
#[local] Hint Resolve Hinfo : pres.

Lemma pres_senderQpCreate ooo : pres f (senderQpCreate i ooo).
Proof. unfold senderQpCreate. pw. Qed.

Lemma pres_receiverQp m ooo : pres f (receiverQpCreateToRts m i ooo).
Proof. unfold receiverQpCreateToRts, recvWorkRequests. pw. Qed.
End Body.

Lemma pres_setQpInfo_ne i j g : i <> j -> pres (slotAt j) (setQpInfo i g).
Proof.
intros Hne. apply pres_modMeta. intros s m E.
destruct (zget (md_qpInfo (meta_ s)) i) as [x|] eqn:Ex; [|done]. cbn [mbind option_bind] in E.
destruct (zset _ i (g x)) as [l|] eqn:El; [|done]. injection E as <-. unfold slotAt, infoAt. cbn.
by rewrite (zget_zset_ne _ _ _ _ _ El).
Qed.

Lemma pres_setQpInfo {X} (f : Conn -> X) i g :
(forall s l, f (s <| meta_ := (meta_ s) <| md_qpInfo := l |> |>) = f s) -> pres f (setQpInfo i g).
Proof.
intros Hf. apply pres_modMeta. intros s m E.
destruct (zget (md_qpInfo (meta_ s)) i) as [x|] eqn:Ex; [|done]. cbn [mbind option_bind] in E.
destruct (zset _ i (g x)) as [l|] eqn:El; [|done]. injection E as <-. apply Hf.
Qed.

(** Loops over the queue pairs. *)
Lemma triple_qpsLoop (J : Z -> Conn -> Prop) body n a ooo :
(forall i o, a <= i < a + Z.of_nat n -> triple (J i) (body i o) (fun _ => J (i + 1))) ->
triple (J a) (qpsLoop body n a ooo) (fun _ => J (a + Z.of_nat n)).
Proof.
revert a ooo. induction n as [|n IH]; intros a ooo Hb.
- apply triple_ret. intros s. by rewrite Z.add_0_r.
- cbn [qpsLoop]. eapply triple_bind; [apply Hb; lia|]. intros o. cbn beta.
replace (a + Z.of_nat (S n)) with (a + 1 + Z.of_nat n) by lia. apply IH. intros i o' Hi. apply Hb. lia.
Qed.

Lemma pres_qpsLoop {X} (f : Conn -> X) body n a ooo :
(forall i o, pres f (body i o)) -> pres f (qpsLoop body n a ooo).
Proof. intros Hb. revert a ooo. induction n as [|n IH]; intros a ooo; cbn [qpsLoop]; pw; auto. Qed.

(** [D i v]: slot [i] is done; [T v]: it is not yet; each turn does its own slot and leaves the others alone. *)
Definition progress (D : Z -> Slot -> Prop) (T : Z -> Slot -> Prop) (nd k : Z) (s : Conn) : Prop :=
ndevsOf s = nd /\ (forall i, 0 <= i < k -> D i (slotView i s)) /\ (forall i, k <= i -> T i (slotView i s)).

Lemma progress_step {A} (D T : Z -> Slot -> Prop) nd i (m : conn A) :
0 <= i ->
pres coreOf m -> (forall j, i <> j -> pres (slotAt j) m) ->
triple (fun s => ndevsOf s = nd /\ T i (slotView i s)) m (fun _ s => D i (slotView i s)) ->
triple (progress D T nd i) m (fun _ => progress D T nd (i + 1)).
Proof.
intros Hi Hc Hs Ht s (Hn & Hd & Hr). specialize (Ht s (conj Hn (Hr i (Z.le_refl i)))).
pose proof (pres_ndevs m Hc s) as Hn'. assert (forall j, i <> j -> slotView j (snd (m s)) = slotView j s) as Hj.
{ intros j Hne. by apply pres_slotView, Hs. }
destruct (m s) as [[x|r|] s']; try done. cbn in *. split; [congruence|]. split.
- intros j Hj'. destruct (decide (j = i)) as [->|Hne]; [done|]. rewrite Hj by done. apply Hd. lia.
- intros j Hj'. rewrite Hj by lia. apply Hr. lia.
Qed.
End Sender.

#[export] Hint Resolve pres_modQpx_slot pres_clearEce_slot pres_queryEce_slot pres_setEce_slot bodyView_ignoresX : pres.
#[export] Hint Extern 1 (pres (slotView _) (setQpInfo _ _)) => apply pres_setQpInfo_slot; done : pres.

(** Untouched: no change of state was asked for. *)
Definition untouched (v : Slot) : Prop := snd v = [].

Section Creation.
Context `{H : Host}.

Lemma pres_withSucceeds {X} (f : Conn -> X) m : pres f m -> pres f (withRes (succeeds (S := Conn) m ;;; ret tt)).
Proof. intros Hm. unfold withRes, hasRes, getBase. pw; by apply pres_succeeds. Qed.

Lemma senderQpsCreate_creates nd n :
triple (fun s => ndevsOf s = nd /\ nqps (base (net_ s)) = n /\ forall i, modsOf (Data, i) s = [])
ncclIbSenderQpsCreate
(fun _ s => forall i, 0 <= i < u32 n -> created (stripeOf nd i) (slotView i s)).
Proof.
unfold ncclIbSenderQpsCreate. eapply triple_bind with
(R := fun b s => progress (fun i => created (stripeOf nd i)) (fun _ => untouched) nd 0 s /\ nqps b = n).
{ apply triple_gets. intros s (Hn & Hq & Hm). split; [|done]. split; [done|]. split; [lia|]. intros i _. apply Hm. }
intros b. apply triple_pureR. intros ->.
eapply triple_bind.
{ apply (triple_qpsLoop (progress (fun i => created (stripeOf nd i)) (fun _ => untouched) nd)).
intros i o Hi. apply progress_step; [lia|..].
- apply pres_senderQpCreate; [auto with pres..|]. intros g. by apply pres_setQpInfo.
- intros j Hne. apply pres_senderQpCreate; [auto with pres..|]. intros g. by apply pres_setQpInfo_ne.
- apply senderQpCreate_creates. }
intros []. cbn beta. intros s (_ & Hd & _).
match goal with |- match ?m s with _ => _ end => assert (forall i, pres (slotView i) m) as Hp end.
{ intros i. apply pres_slotView, pres_withSucceeds. auto with pres. }
destruct (withRes _ s) as [[[]|r|] s'] eqn:E; try done. intros i Hi. rewrite (pres_run _ _ _ _ _ (Hp i) E).
apply Hd. lia.
Qed.
End Creation.

Section Rts.
Context `{H : Host}.

(** Setting the peer's device of a queue pair. *)
Lemma setRemote i dev r (g : ncclIbQp -> ncclIbQp) :
(forall x, qpn (g x) = qpn x /\ devIndex (g x) = devIndex x /\ remDevIdx (g x) = r) ->
triple (fun s => created dev (slotView i s)) (modQp (Data, i) g)
(fun _ s => inInit (fun qp => devIndex qp = dev /\ remDevIdx qp = r) dev (slotView i s)).
Proof.
intros Hg s (qp & a & Hs & Hd & Ha). injection Hs as Hq Hx Hm.
pose proof (modQp_sets i g (fun l => l = [a]) (fun o => o = Some qp) s (conj Hq Hm)) as Ht.
assert (pres (announcedAt i) (modQp (Data, i) g)) as Hp.
{ apply (pres_comp (infoAt i) (fmap announced)). by apply (pres_modQpI _ _ (infoAt_ignores i _)). }
specialize (Hp s). destruct (modQp _ g s) as [[[]|e|] s']; try done. cbn in Hp.
destruct Ht as (? & [= ->] & Hq' & Hm'). destruct (Hg qp) as (G1 & G2 & G3). exists (g qp), a.
unfold slotView. rewrite Hq', Hp, Hx, Hm', G1. split; [done|]. split; [by rewrite G2, G3|done].
Qed.

Lemma senderQpToRts_joins rm i dev :
triple (fun s => created dev (slotView i s)) (senderQpToRts rm i) (fun _ s => joined rm dev i (slotView i s)).
Proof.
unfold senderQpToRts. do 3 (apply (triple_skip id); [pw|intros ?]).
eapply triple_bind; [apply triple_of_option with (Q := fun x s => created dev (slotView i s) /\ zget (md_qpInfo rm) i = Some x); by split|].
intros info. apply triple_pureR. intros Ei.
eapply triple_bind; [apply triple_of_option with
(Q := fun x s => created dev (slotView i s) /\ zget (md_devs rm) (qi_devIndex info) = Some x); by split|].
intros rem. apply triple_pureR. intros Er.
eapply triple_bind; [by apply (setRemote i dev (qi_devIndex info))|]. intros [].
apply (triple_skip id); [pw|intros x].
apply (triple_skip (slotView i) (inInit (fun qp => devIndex qp = dev /\ remDevIdx qp = qi_devIndex info) dev)); [pw|intros []].
eapply triple_weaken; [by apply (connect_slot_end i dev info rem)|done|]. intros [] s Hs. by exists info, rem.
Qed.

(** *** The receiver *)

(** The two devices of queue pair [i]. *)
Definition devView (i : Z) (s : Conn) : option (Z * Z) := (fun qp => (devIndex qp, remDevIdx qp)) <$> qpAt i s.

Lemma devView_modQp i g : (forall x, devIndex (g x) = devIndex x /\ remDevIdx (g x) = remDevIdx x) ->
pres (devView i) (modQp (Data, i) g).
Proof.
intros Hg. apply pres_modQp. intros s l x Ex El. unfold devView, qpAt. cbn in *.
rewrite (zget_zset_eq _ _ _ _ El), Ex. cbn. by destruct (Hg x) as [-> ->].
Qed.

Lemma devView_ignoresX i q : ignoresX (devView i) q.
Proof. apply ignoresX_any; [done|by intros []]. Qed.

Lemma outside_dev i : outside (fun s => (modsOf (Data, i) s, devView i s)).
Proof.
split; [split|..]; try done.
- intros s n E. apply (f_equal (fun v => snd (fst v))) in E. cbn in E. unfold devView, qpAt. cbn. by rewrite E.
- intros s c Hc. rewrite modsOf_other by apply Hc. done.
Qed.

Lemma pres_qpCreate_dev i a : pres (devView i) (ncclIbReceiverQpCreate (Data, i) a).
Proof.
assert (forall a, pres (devView i) (ncclIbQpCreate (Data, i) a)) as Hc.
{ clear a. intros a. pose proof (devView_ignoresX i (Data, i)) as I. unfold ncclIbQpCreate.
destruct (ca_mrc a), (ca_oooRq a); pw; try apply pres_onFail; try apply pres_withCode; pw.
all: eauto using pres_createHint, pres_qpDestroy; try by apply devView_modQp.
all: by apply (pres_callI _ _ I). }
unfold ncclIbReceiverQpCreate. case_match; apply Hc.
Qed.

Lemma receiverQp_joins rm i ooo nd :
triple (fun s => ndevsOf s = nd /\ modsOf (Data, i) s = []) (receiverQpCreateToRts rm i ooo)
(fun _ s => joined rm (stripeOf nd i) i (slotView i s)).
Proof.
unfold receiverQpCreateToRts. do 2 (apply (triple_skip id); [pw|intros ?]).
eapply triple_bind; [apply (stripe_reads i nd)|]. intros dev. apply triple_pure. intros ->.
do 3 (apply (triple_skip id); [pw|intros ?]).
eapply triple_bind; [apply triple_of_option with
(Q := fun x s => modsOf (Data, i) s = [] /\ zget (md_qpInfo rm) i = Some x); by split|].
intros info. apply triple_pureR. intros Ei.
eapply triple_bind; [apply triple_of_option with
(Q := fun x s => modsOf (Data, i) s = [] /\ zget (md_devs rm) (qi_devIndex info) = Some x); by split|].
intros rem. apply triple_pureR. intros Er.
eapply triple_bind with (R := fun _ s => modsOf (Data, i) s = [] /\ devView i s = Some (stripeOf nd i, qi_devIndex info)).
{ eapply triple_weaken; [apply (modQp_sets i _ (fun l => l = []) (fun _ => True))|done|].
intros [] s (qp & _ & Hq & Hm). split; [done|]. unfold devView. by rewrite Hq. }
intros []. eapply triple_weaken with
(P := fun s => (modsOf (Data, i) s, devView i s) = ([], Some (stripeOf nd i, qi_devIndex info)));
[|intros s [Hm Hd]; by rewrite Hm, Hd|intros ? ? Hq; exact Hq].
apply (triple_skip (fun s => (modsOf (Data, i) s, devView i s)) (fun v => v = ([], Some (stripeOf nd i, qi_devIndex info)))).
{ unfold recvWorkRequests. destruct a0; [|pw]. apply (pres_onNetO (fun s => (modsOf (Data, i) s, devView i s)));
[apply outside_dev|apply pres_rqSize]. }
intros maxRecv.
apply (triple_skip (fun s => (modsOf (Data, i) s, devView i s)) (fun v => v = ([], Some (stripeOf nd i, qi_devIndex info))));
[pw|intros ooo'].
case_match; [apply triple_fail|].
apply (triple_skip (fun s => (modsOf (Data, i) s, devView i s)) (fun v => v = ([], Some (stripeOf nd i, qi_devIndex info))));
[apply pres_pair; [apply pres_receiverQpCreate_mods|apply pres_qpCreate_dev]|intros []].
eapply triple_weaken; [apply (announce_and_init (fun qp => devIndex qp = stripeOf nd i /\ remDevIdx qp = qi_devIndex info))| |intros ? ? Hq; exact Hq].
2: { intros s Hs. injection Hs as Hm Hd. unfold devView in Hd. destruct (qpAt i s) as [qp|] eqn:Eq; [|done].
 injection Hd as Hd Hr. exists qp. by rewrite Eq, Hm. }
set (F := inInit _ (stripeOf nd i)).
apply (triple_skip (slotView i) F); [pw|intros x].
apply (triple_skip (slotView i) F); [pw|intros sup].
apply (triple_skip (slotView i) F); [pw|intros []].
apply (triple_skip (slotView i) F); [pw|intros []].
apply (triple_skip (slotView i) F); [pw|intros port].
apply (connect_slot i (stripeOf nd i) info rem); [done..|].
apply (triple_skip (slotView i) (connected (stripeOf nd i) info rem)); [destruct sup, (hasQp x && qi_ece_supported info); pw|].
intros []. apply triple_ret. intros s Hs. by exists info, rem.
Qed.

(** *** The whole set-up of each end *)

Lemma senderQpsToRts_joins rm nd n :
triple (fun s => ndevsOf s = nd /\ nqps (base (net_ s)) = n
/\ forall i, 0 <= i < u32 n -> created (stripeOf nd i) (slotView i s))
(ncclIbSenderQpsToRts rm)
(fun _ s => forall i, 0 <= i < u32 n -> joined rm (stripeOf nd i) i (slotView i s)).
Proof.
unfold ncclIbSenderQpsToRts. eapply triple_bind with (R := fun b s =>
progress (fun i => joined rm (stripeOf nd i) i) (fun i v => i < u32 n -> created (stripeOf nd i) v) nd 0 s /\ nqps b = n).
{ apply triple_gets. intros s (Hn & Hq & Hc). split; [|done]. split; [done|]. split; [lia|]. intros i Hi Hl. apply Hc. lia. }
intros b. apply triple_pureR. intros ->. eapply triple_bind.
{ apply (triple_forN (progress (fun i => joined rm (stripeOf nd i) i) (fun i v => i < u32 n -> created (stripeOf nd i) v) nd)).
intros i Hi. apply progress_step; [lia|..].
- apply pres_senderQpToRts; auto with pres.
- intros j Hne. apply pres_senderQpToRts; auto with pres.
- eapply triple_weaken; [apply senderQpToRts_joins| |intros ? ? Hq; exact Hq]. intros s [_ Hc]. apply Hc. lia. }
intros []. intros s (_ & Hd & _).
assert (forall i, pres (slotView i) (withRes (ncclIbResiliencySenderQpsToRts rm))) as Hp by (intros i; auto with pres).
destruct (withRes _ s) as [[[]|r|] s'] eqn:E; try done. intros i Hi. rewrite (pres_run _ _ _ _ _ (Hp i) E). apply Hd. lia.
Qed.

Lemma receiverQps_joins rm nd n :
triple (fun s => ndevsOf s = nd /\ nqps (base (net_ s)) = n /\ forall i, modsOf (Data, i) s = [])
(ncclIbReceiverQpsCreateToRts rm)
(fun _ s => forall i, 0 <= i < u32 n -> joined rm (stripeOf nd i) i (slotView i s)).
Proof.
unfold ncclIbReceiverQpsCreateToRts. eapply triple_bind with
(R := fun b s => progress (fun i => joined rm (stripeOf nd i) i) (fun _ => untouched) nd 0 s /\ nqps b = n).
{ apply triple_gets. intros s (Hn & Hq & Hm). split; [|done]. split; [done|]. split; [lia|]. intros i _. apply Hm. }
intros b. apply triple_pureR. intros ->. eapply triple_bind.
{ apply (triple_qpsLoop (progress (fun i => joined rm (stripeOf nd i) i) (fun _ => untouched) nd)).
intros i o Hi. apply progress_step; [lia|..].
- apply pres_receiverQp; [auto with pres..|]. intros g. by apply pres_setQpInfo.
- intros j Hne. apply pres_receiverQp; [auto with pres..|]. intros g. by apply pres_setQpInfo_ne.
- apply receiverQp_joins. }
intros []. intros s (_ & Hd & _).
match goal with |- match ?m s with _ => _ end => assert (forall i, pres (slotView i) m) as Hp end.
{ intros i. pw. }
match goal with |- match ?m s with _ => _ end => destruct (m s) as [[[]|r|] s'] eqn:E end; try done.
intros i Hi. rewrite (pres_run _ _ _ _ _ (Hp i) E). apply Hd. lia.
Qed.
End Rts.
