(* ===== verification/ConnAllSpec.v ===== *)
(** * Connection set-up: the communicator, verified

    What the two ends do to their communicator between the messages of the handshake:
    the number of queue pairs they agree on, and what is left in place of every queue
    pair, for each part of [ncclIbConnectImpl] and [ncclIbAcceptImpl]. *)

From S2P Require Import Prelude NetTypes NetBase NetLemmas NetInv NetInit Resiliency Recovery ConnGid ConnTypes ConnQp ConnSetup Socket Connect ConnLogic ConnSetupSpec ConnDataSpec.

Open Scope Z_scope.
Open Scope nccl_scope.

(** What the handshake says of the communicator and its queue pair [i]. *)
Record Facts := mkFacts {
  fc_core : ncclIbNetCommBase;
  fc_len : nat;
  fc_addr : Z;
  fc_tail : bool * Z * list Z;
  fc_slot : Slot;
}.

Definition factsOf (i : Z) (c : Conn) : Facts :=
  mkFacts (coreOf c) (qpsLen c) (selfAddr c) (tailKey (NetTypes.tail (net_ c))) (slotView i c).

(** A property of all queue pairs. *)
Definition all (R : Z -> Facts -> Prop) (c : Conn) : Prop := forall i, R i (factsOf i c).

Lemma triple_all {A} (R : Z -> Facts -> Prop) (m : conn A) :
  (forall i, pres (factsOf i) m) -> triple (all R) m (fun _ => all R).
Proof.
  intros Hp s Hs. destruct (m s) as [[a|r|] s'] eqn:E; try done. intros i. rewrite (pres_run _ _ _ _ _ (Hp i) E). apply Hs.
Qed.

Lemma outside_pair {X Y} (f : Conn -> X) (g : Conn -> Y) : outside f -> outside g -> outside (fun c => (f c, g c)).
Proof. intros [[] ? ?] [[] ? ?]. split; [split|..]; intros; f_equal; auto. Qed.

Lemma outside_addr : outside selfAddr.
Proof. split; [split|..]; done. Qed.

Lemma outside_facts i : outside (factsOf i).
Proof.
  exact (outside_comp _ (fun v => mkFacts v.1.1.1.1 v.1.1.1.2 v.1.1.2 v.1.2 v.2) (outside_pair _ _ (outside_pair _ _
    (outside_pair _ _ (outside_pair _ _ outside_core outside_qpsLen) outside_addr) outside_tail) (outside_slotView i))).
Qed.

Lemma pres_facts {A} i (m : conn A) :
  pres coreOf m -> pres qpsLen m -> pres selfAddr m -> pres (fun c => tailKey (NetTypes.tail (net_ c))) m ->
  pres (slotView i) m -> pres (factsOf i) m.
Proof. intros H1 H2 H3 H4 H5 s. unfold factsOf. by rewrite H1, H2, H3, (H4 s), H5. Qed.

#[export] Hint Resolve outside_facts : pres.

Lemma outside_mods i : outside (modsOf (Data, i)).
Proof. split; [split|..]; try done. intros s c Hc. by apply modsOf_other. Qed.

Lemma addr_ignores q : ignores selfAddr q.
Proof. split; [apply ignoresX_any; [done|by intros []]|]. intros s l x y _ _. by destruct q as [[] i]. Qed.

Lemma tail_ignores q : ignores (fun c => tailKey (NetTypes.tail (net_ c))) q.
Proof. split; [apply ignoresX_any; [done|by intros []]|]. intros s l x y _ _. by destruct q as [[] i]. Qed.

Lemma meta_ignores q : ignores meta_ q.
Proof. split; [apply ignoresX_any; [done|by intros []]|]. intros s l x y _ _. by destruct q as [[] i]. Qed.
#[export] Hint Resolve outside_addr outside_mods addr_ignores tail_ignores meta_ignores : pres.

Section Ends.
Context `{H : Host}.

(** ** What the parts leave alone *)

Lemma pres_setMetaDev {X} (f : Conn -> X) i g :
(forall s l, f (s <| meta_ := (meta_ s) <| md_devs := l |> |>) = f s) -> pres f (setMetaDev i g).
Proof.
intros Hf. apply pres_modMeta. intros s m E.
destruct (zget (md_devs (meta_ s)) i) as [x|] eqn:Ex; [|done]. cbn [mbind option_bind] in E.
destruct (zset _ i (g x)) as [l|] eqn:El; [|done]. injection E as <-. apply Hf.
Qed.

Section Left.
Context {X : Type} (f : Conn -> X) (O : outside f).
#[local] Hint Resolve O : pres.
#[local] Hint Resolve pres_initDevBase pres_resDevInit pres_stripe pres_getBase pres_ibDevNOf pres_hasRes pres_portOf pres_withRes
pres_modNetDev pres_modDevXO pres_modResDevXO pres_modPortO pres_callO pres_call_O : pres.

Lemma pres_vdevAt i : pres f (vdevAt i).
Proof. unfold vdevAt. pw. Qed.
#[local] Hint Resolve pres_vdevAt : pres.

Lemma pres_ar g : (forall c, remCmpls_addr (g c) = remCmpls_addr c /\ remCmpls_rkeys (g c) = remCmpls_rkeys c) ->
pres f (onNet (modSend (fun c => Some (g c)))).
Proof.
intros Hg. apply pres_onNetO; [apply O|]. apply pres_modSend. intros c c' [= <-]. cbn. by destruct (Hg c) as [-> ->].
Qed.

Lemma pres_recvPart g : (forall c c', g c = Some c' -> remCts_addr c' = remCts_addr c) -> pres f (onNet (modRecv g)).
Proof. intros Hg. apply pres_onNetO; [apply O|]. apply pres_modRecv. intros c c' E. cbn. by rewrite (Hg _ _ E). Qed.

Lemma pres_connectDevs n : pres f (connectDevs n).
Proof.
unfold connectDevs. pw; try (by apply pres_ar); auto with pres.
Qed.

Lemma pres_regMr r i g : pres f (regMr r i g).
Proof. unfold regMr. pw. Qed.

Lemma pres_speedBuffer : (forall s m, f (s <| remoteSpeedMr := m |>) = f s) -> pres f speedBuffer.
Proof. intros Hs. unfold speedBuffer. pw. apply pres_modify. intros s. apply Hs. Qed.
End Left.

(** ** Writing the members of the base *)

Definition withCore (f : Facts) (b : ncclIbNetCommBase) : Facts :=
mkFacts b (fc_len f) (fc_addr f) (fc_tail f) (fc_slot f).

Lemma triple_modNetBase (R R' : Z -> Facts -> Prop) g :
(forall b, qps (g b) = qps b) ->
(forall n, netCore (n <| base := g (base n) |>) = g (netCore n)) ->
(forall i f, R i f -> R' i (withCore f (g (fc_core f)))) ->
triple (all R) (modNetBase g) (fun _ => all R').
Proof.
intros Hq Hc Hr c Ha i. pose proof (Hr i _ (Ha i)) as Hi.
assert (factsOf i (c <| net_ := (net_ c) <| base := g (base (net_ c)) |> |>) = withCore (factsOf i c) (g (coreOf c))) as ->; [|done].
unfold factsOf, withCore, coreOf, qpsLen, slotView, qpAt. cbn -[netCore]. by rewrite Hc, Hq.
Qed.

Definition nqpsFor (nQpsPerDev : Z) (v rv : ncclNetVDeviceProps_t) : Z :=
Z.max (nQpsPerDev * vp_ndevs rv) (nQpsPerDev * vp_ndevs v).

Context (nQpsPerDev : Z).

(** Nothing agreed on; no queue pair touched. *)
Definition fresh (i : Z) (f : Facts) : Prop :=
activeQps (fc_core f) = map Some (zrange NCCL_IB_MAX_QPS) /\ fc_len f = Z.to_nat NCCL_IB_MAX_QPS /\ snd (fc_slot f) = [].

(** What both ends compute from the devices of the two. *)
Definition coreOk (v rv : ncclNetVDeviceProps_t) (b : ncclIbNetCommBase) : Prop :=
ndevs b = vp_ndevs v /\ nqps b = nqpsFor nQpsPerDev v rv /\ nDataQps b = Z.max (vp_ndevs v) (vp_ndevs rv)
/\ activeQps b = map Some (zrange NCCL_IB_MAX_QPS).

Definition slotsAre (S : Z -> Slot -> Prop) (v rv : ncclNetVDeviceProps_t) (i : Z) (f : Facts) : Prop :=
coreOk v rv (fc_core f) /\ fc_len f = Z.to_nat NCCL_IB_MAX_QPS
/\ (0 <= i < u32 (nqpsFor nQpsPerDev v rv) -> S i (fc_slot f)).

Definition agreed (v rv : ncclNetVDeviceProps_t) (i : Z) (f : Facts) : Prop :=
coreOk v rv (fc_core f) /\ fc_len f = Z.to_nat NCCL_IB_MAX_QPS /\ snd (fc_slot f) = [].

Definition announcing (v rv : ncclNetVDeviceProps_t) : Z -> Facts -> Prop :=
slotsAre (fun i => created (stripeOf (vp_ndevs v) i)) v rv.

Definition joining (rm : Metadata) (v rv : ncclNetVDeviceProps_t) : Z -> Facts -> Prop :=
slotsAre (fun i => joined rm (stripeOf (vp_ndevs v) i) i) v rv.

(** The number of devices is set. *)
Definition freshV (v : ncclNetVDeviceProps_t) (i : Z) (f : Facts) : Prop :=
fresh i f /\ ndevs (fc_core f) = vp_ndevs v.

Lemma setVProps_sets v : triple (all fresh) (setVProps v) (fun _ => all (freshV v)).
Proof. apply triple_modNetBase; [done..|]. intros i f Hf. by split. Qed.

Lemma freshV_fresh v c : all (freshV v) c -> all fresh c.
Proof. intros Ha i. apply Ha. Qed.

(** The out-of-order flags of either end change nothing here. *)
Lemma oooFlags_keep (R : Z -> Facts -> Prop) o :
(forall i f, R i f -> R i (withCore f ((fc_core f) <| localOooRq := o |>)) /\ R i (withCore f ((fc_core f) <| remOooRq := o |>))) ->
triple (all R) (modNetBase (fun b => b <| localOooRq := o |>)) (fun _ => all R)
/\ triple (all R) (modNetBase (fun b => b <| remOooRq := o |>)) (fun _ => all R).
Proof. intros Hr. split; (apply triple_modNetBase; [done..|]); intros i f Hf; by apply Hr. Qed.

Lemma pres_devNum {X} (f : Conn -> X) a b : outside f -> pres f (withRes (onNet (ncclIbResiliencyDeviceNumSet a b))).
Proof. intros O. auto with pres. Qed.

Lemma setNqps_agrees v rv :
triple (all (freshV v))
(setNqps nQpsPerDev v rv ;;; withRes (onNet (ncclIbResiliencyDeviceNumSet (vp_ndevs v) (vp_ndevs rv))))
(fun _ => all (agreed v rv)).
Proof.
eapply triple_bind with (R := fun _ => all (agreed v rv)).
- apply triple_modNetBase; [done..|]. intros i f [(Ha & Hl & Hm) Hn]. by repeat split.
- intros []. apply triple_all. intros i. apply pres_devNum, outside_facts.
Qed.

(** *** The sender *)

Lemma pres_qpsCreate {X} (f : Conn -> X) : outside f -> (forall i, ignores f (Data, i)) -> (forall i g, pres f (setQpInfo i g)) ->
pres f ncclIbSenderQpsCreate.
Proof.
intros O I S. unfold ncclIbSenderQpsCreate. apply pres_bind; [auto with pres|]. intros b. apply pres_bind.
- apply pres_qpsLoop. intros i o. apply pres_senderQpCreate; auto with pres.
- intros _. apply pres_withSucceeds. auto with pres.
Qed.

Lemma senderQpsCreate_announces v rv : triple (all (agreed v rv)) ncclIbSenderQpsCreate (fun _ => all (announcing v rv)).
Proof.
intros c Ha. pose proof (senderQpsCreate_creates (vp_ndevs v) (nqpsFor nQpsPerDev v rv) c) as Hc.
assert (pres coreOf ncclIbSenderQpsCreate) as H1 by (apply pres_qpsCreate; auto with pres; intros; by apply pres_setQpInfo).
assert (pres qpsLen ncclIbSenderQpsCreate) as H2 by (apply pres_qpsCreate; auto with pres; intros; by apply pres_setQpInfo).
specialize (H1 c). specialize (H2 c). destruct (ncclIbSenderQpsCreate c) as [[[]|r|] c'] eqn:E; [|done..].
cbn in H1, H2. destruct (Ha 0) as [Hk _]. intros i. destruct (Ha i) as (_ & Hl & _). split; [|split].
- unfold factsOf, fc_core. by rewrite H1.
- unfold factsOf, fc_len. by rewrite H2.
- intros Hi. apply Hc; [|done]. destruct Hk as (K1 & K2 & _). split; [exact K1|]. split; [exact K2|].
intros j. by destruct (Ha j) as (_ & _ & Hm).
Qed.

Lemma pres_connectDevInfo {X} (f : Conn -> X) i : outside f -> (forall s l, f (s <| meta_ := (meta_ s) <| md_devs := l |> |>) = f s) ->
pres f (connectDevInfo i).
Proof.
intros O Hd. unfold connectDevInfo. pw; try (by apply pres_setMetaDev); try (by apply pres_regMr); auto with pres.
Qed.

Lemma connectMeta_addr tc env :
triple (fun _ => True) (connectMeta tc env) (fun _ c => md_addr (meta_ c) = selfAddr c).
Proof. by intros c _. Qed.

(** Properties that see of the base only what the ends agree on. *)
Definition steady (R : Z -> Facts -> Prop) : Prop := forall i f b, R i f -> ndevs b = ndevs (fc_core f) ->
nqps b = nqps (fc_core f) -> nDataQps b = nDataQps (fc_core f) -> activeQps b = activeQps (fc_core f) -> R i (withCore f b).

Lemma steady_slots S v rv : steady (slotsAre S v rv).
Proof.
intros i f b ((K1 & K2 & K3 & K4) & Hl & Hs) E1 E2 E3 E4. split; [|by split].
unfold coreOk. cbn. by rewrite E1, E2, E3, E4.
Qed.

Lemma steady_modNetBase R g : steady R -> (forall b, qps (g b) = qps b) -> (forall n, netCore (n <| base := g (base n) |>) = g (netCore n)) ->
(forall b, ndevs (g b) = ndevs b /\ nqps (g b) = nqps b /\ nDataQps (g b) = nDataQps b /\ activeQps (g b) = activeQps b) ->
triple (all R) (modNetBase g) (fun _ => all R).
Proof.
intros S Hq Hc Hk. apply triple_modNetBase; [done..|]. intros i f Hf. destruct (Hk (fc_core f)) as (K1 & K2 & K3 & K4). by apply S.
Qed.

(** The keys of the peer's devices below [k]. *)
Definition remKeys (rm : Metadata) (k : Z) (l : list ncclIbDevInfo) : Prop :=
forall j, 0 <= j < k -> exists d e, zget (md_devs rm) j = Some d /\ zget l j = Some e /\ rkey e = di_rkey d.

(** With the devices of the peer stored. *)
Definition knows (rm : Metadata) (k : Z) (R : Z -> Facts -> Prop) (i : Z) (f : Facts) : Prop :=
R i f /\ nRemDevs (fc_core f) = md_ndevs rm /\ remKeys rm k (remDevs (fc_core f)).

Lemma storeRemDevs_stores rm sp R : steady R ->
triple (all R) (storeRemDevs rm sp) (fun _ => all (knows rm (md_ndevs rm) R)).
Proof.
intros S. unfold storeRemDevs. eapply triple_bind with (R := fun _ => all (knows rm 0 R)).
{ apply triple_modNetBase; [done..|]. intros i f Hf. split; [by apply S|]. split; [done|]. intros j Hj. lia. }
intros []. eapply triple_weaken;
[apply (triple_forN (fun k => all (knows rm (Z.min k (md_ndevs rm)) R)))|intros s Hs i; destruct (Hs i) as (? & ? & Hk); split; [done|split; [done|intros j Hj; apply Hk; lia]]|].
2: { intros [] s Hs i. destruct (Hs i) as (? & ? & Hk). split; [done|]. split; [done|]. intros j Hj. apply Hk. lia. }
intros k Hk. eapply triple_bind with (R := fun d s => all (knows rm k R) s /\ zget (md_devs rm) k = Some d).
{ apply triple_of_option. intros d s E Hs. split; [|done]. intros i. destruct (Hs i) as (? & ? & Hr).
split; [done|]. split; [done|]. intros j Hj. apply Hr. lia. }
intros d. apply triple_pureR. intros Ed.
eapply triple_bind with (R := fun b s => all (knows rm k R) s /\ forall i, remDevs (fc_core (factsOf i s)) = remDevs b).
{ apply triple_gets. intros s Hs. by split. }
intros b. eapply triple_bind with (R := fun l s => (all (knows rm k R) s /\ forall i, remDevs (fc_core (factsOf i s)) = remDevs b)
/\ zset (remDevs b) k (mkDevInfo (di_rkey d) (di_currSpeed d) sp) = Some l).
{ apply triple_of_option. by intros l s E Hs. }
intros l. apply triple_pureR. intros El.
eapply triple_weaken with (P := all (fun i f => knows rm k R i f /\ remDevs (fc_core f) = remDevs b));
[|intros s [Ha Hb] i; split; [apply Ha|apply Hb]|intros ? ? Hq; exact Hq].
apply triple_modNetBase; [done..|]. intros i f [(Hf & Hn & Hr) Eb]. split; [by apply S|]. split; [done|].
intros j Hj. cbn. destruct (decide (j = k)) as [->|Hne].
- exists d, (mkDevInfo (di_rkey d) (di_currSpeed d) sp). split; [done|]. split; [by eapply zget_zset_eq|done].
- rewrite (zget_zset_ne _ _ _ _ _ El) by done. rewrite <- Eb. apply Hr. lia.
Qed.

(** *** The peer's addresses *)

Definition withTail (f : Facts) (t : bool * Z * list Z) : Facts :=
mkFacts (fc_core f) (fc_len f) (fc_addr f) t (fc_slot f).

Lemma triple_modSend (R R' : Z -> Facts -> Prop) g :
(forall i f c c', R i f -> fc_tail f = tailKey (SendTail c) -> g c = Some c' -> R' i (withTail f (tailKey (SendTail c')))) ->
triple (all R) (onNet (modSend g)) (fun _ => all R').
Proof.
intros Hr s Ha. unfold onNet, modSend, getSend, bind, getS. destruct (NetTypes.tail (net_ s)) as [c|c] eqn:E; [|done]. cbn.
destruct (g c) as [c'|] eqn:Ec; [|done]. cbn. intros i. pose proof (Hr i _ c c' (Ha i)) as Hi. apply Hi; [|done].
unfold factsOf, fc_tail. by rewrite E.
Qed.

Lemma triple_modRecv (R R' : Z -> Facts -> Prop) g :
(forall i f c c', R i f -> fc_tail f = tailKey (RecvTail c) -> g c = Some c' -> R' i (withTail f (tailKey (RecvTail c')))) ->
triple (all R) (onNet (modRecv g)) (fun _ => all R').
Proof.
intros Hr s Ha. unfold onNet, modRecv, getRecv, bind, getS. destruct (NetTypes.tail (net_ s)) as [c|c] eqn:E; [done|]. cbn.
destruct (g c) as [c'|] eqn:Ec; [|done]. cbn. intros i. pose proof (Hr i _ c c' (Ha i)) as Hi. apply Hi; [|done].
unfold factsOf, fc_tail. by rewrite E.
Qed.

(** Properties that do not see the peer's addresses. *)
Definition tailless (R : Z -> Facts -> Prop) : Prop := forall i f t, R i f -> R i (withTail f t).

Lemma tailless_slots S v rv : tailless (slotsAre S v rv).
Proof. by intros i f t Hf. Qed.
Lemma tailless_knows rm k R : tailless R -> tailless (knows rm k R).
Proof. intros Ht i f t (Hf & Hr). split; [by apply Ht|done]. Qed.
Lemma steady_knows rm k R : steady R -> forall i f b, knows rm k R i f -> ndevs b = ndevs (fc_core f) ->
nqps b = nqps (fc_core f) -> nDataQps b = nDataQps (fc_core f) -> activeQps b = activeQps (fc_core f) ->
nRemDevs b = nRemDevs (fc_core f) -> remDevs b = remDevs (fc_core f) -> knows rm k R i (withCore f b).
Proof. intros S i f b (Hf & Hn & Hr) *. intros E1 E2 E3 E4 E5 E6. split; [by apply S|]. cbn. by rewrite E5, E6. Qed.

(** The sender's: where the completion records are, with the keys below [k]. *)
Definition sendKeys (rm : Metadata) (k : Z) (t : bool * Z * list Z) : Prop :=
exists ks, t = (true, md_addr rm, ks) /\ forall j, 0 <= j < k -> exists d, zget (md_devs rm) j = Some d /\ zget ks j = Some (di_rkey d).

Definition keyed (rm : Metadata) (k : Z) (R : Z -> Facts -> Prop) (i : Z) (f : Facts) : Prop := R i f /\ sendKeys rm k (fc_tail f).

Lemma pres_cmplRecords {X} (f : Conn -> X) a b c : outside f -> pres f (withRes (onNet (ncclIbResiliencyRemoteCompletionRecordsSet a b c))).
Proof. intros O. auto with pres. Qed.

Lemma storeCmplsRecords_stores rm R : tailless R ->
triple (all R) (storeCmplsRecords rm) (fun _ => all (keyed rm (md_ndevs rm) R)).
Proof.
intros T. unfold storeCmplsRecords. eapply triple_bind with (R := fun _ => all (keyed rm 0 R)).
{ apply triple_modSend. intros i f c c' Hf _ [= <-]. split; [by apply T|]. eexists. split; [done|]. intros j Hj. lia. }
intros []. assert (forall s k k', all (keyed rm k R) s -> k' <= k \/ (k' <= 0) -> all (keyed rm k' R) s) as Hle.
{ intros s k k' Hs Hk i. destruct (Hs i) as (Hf & ks & Et & Hks). split; [done|]. exists ks. split; [done|]. intros j Hj. apply Hks. lia. }
eapply triple_weaken; [apply (triple_forN (fun k => all (keyed rm (Z.min k (md_ndevs rm)) R)))|intros s Hs; eapply Hle; [exact Hs|lia]|].
2: { intros [] s Hs. eapply Hle; [exact Hs|lia]. }
intros k Hk. eapply triple_bind with (R := fun d s => all (keyed rm k R) s /\ zget (md_devs rm) k = Some d).
{ apply triple_of_option. intros d s E Hs. split; [|done]. eapply Hle; [exact Hs|lia]. }
intros d. apply triple_pureR. intros Ed. eapply triple_bind with (R := fun _ => all (keyed rm (Z.min (k + 1) (md_ndevs rm)) R)).
2: { intros []. apply triple_all. intros i. apply pres_cmplRecords, outside_facts. }
apply triple_modSend. intros i f c c' (Hf & ks & Et & Hks) Ec E. rewrite Et in Ec. injection Ec as Eaddr Eks.
destruct (zset (remCmpls_rkeys c) k (di_rkey d)) as [l|] eqn:El; [|done]. cbn [mbind option_bind] in E. injection E as <-.
split; [by apply T|]. exists l. split; [by rewrite Eaddr|]. intros j Hj. destruct (decide (j = k)) as [->|Hne].
- exists d. split; [done|]. by eapply zget_zset_eq.
- rewrite (zget_zset_ne _ _ _ _ _ El) by done. rewrite <- Eks. apply Hks. lia.
Qed.

Lemma pres_senderRts {X} (f : Conn -> X) rm : calm f -> (forall i, ignores f (Data, i)) -> pres f (ncclIbSenderQpsToRts rm).
Proof.
intros O I. unfold ncclIbSenderQpsToRts. apply pres_bind; [apply pres_gets|]. intros b. apply pres_bind.
- apply pres_forN. intros i Hi. apply pres_senderQpToRts; auto.
- intros _. apply pres_withRes. by apply pres_resSenderRts.
Qed.

(** The slots go from announced to joined; the rest of the facts stays. *)
Definition joinedTo (rm : Metadata) (v rv : ncclNetVDeviceProps_t) (i : Z) (f : Facts) : Prop :=
keyed rm (md_ndevs rm) (knows rm (md_ndevs rm) (joining rm v rv)) i f.

Lemma senderRts_joins rm v rv :
triple (all (keyed rm (md_ndevs rm) (knows rm (md_ndevs rm) (announcing v rv)))) (ncclIbSenderQpsToRts rm)
(fun _ => all (joinedTo rm v rv)).
Proof.
intros c Ha. pose proof (senderQpsToRts_joins rm (vp_ndevs v) (nqpsFor nQpsPerDev v rv) c) as Hc.
pose proof (pres_senderRts coreOf rm ltac:(auto with pres) ltac:(auto with pres) c) as H1.
pose proof (pres_senderRts qpsLen rm ltac:(auto with pres) ltac:(auto with pres) c) as H2.
pose proof (pres_senderRts (fun c => tailKey (NetTypes.tail (net_ c))) rm ltac:(auto with pres) ltac:(auto with pres) c) as H3.
destruct (ncclIbSenderQpsToRts rm c) as [[[]|r|] c'] eqn:E; [|done..]. cbn in H1, H2, H3.
assert (forall i, 0 <= i < u32 (nqpsFor nQpsPerDev v rv) -> joined rm (stripeOf (vp_ndevs v) i) i (slotView i c')) as Hj.
{ apply Hc. destruct (Ha 0) as [[((K1 & K2 & _) & _) _] _]. split; [exact K1|]. split; [exact K2|].
intros i Hi. destruct (Ha i) as [[(_ & _ & Hs) _] _]. by apply Hs. }
intros i. destruct (Ha i) as [[(Hk & Hl & _) Hrem] Hkeys].
unfold joinedTo, keyed, knows, joining, slotsAre, factsOf. cbn [fc_core fc_len fc_addr fc_tail fc_slot].
rewrite H1, H2, H3. split; [split|]; [|exact Hrem|exact Hkeys]. split; [exact Hk|]. split; [exact Hl|]. apply Hj.
Qed.

(** The sender, ready. *)
Definition senderReady (rm : Metadata) (v rv : ncclNetVDeviceProps_t) (i : Z) (f : Facts) : Prop :=
joinedTo rm v rv i f /\ ready (fc_core f) = 1.

Lemma pres_getBaseF {X} (f : Conn -> X) : pres f getBase.
Proof. unfold getBase. pw. Qed.
Lemma pres_speedsF {X} (f : Conn -> X) : calm f -> pres f (onNet (ncclIbComputeDevSpeeds ;;; ncclIbComputeLbWeights)).
Proof. intros O. apply pres_onNetO; [done|]. pw. Qed.
Lemma pres_cmplsMr {X} (f : Conn -> X) i : calm f ->
pres f (let* mr := regMr CmplsRecords i (fun mr d => d <| cmplsRecordsMr := Some mr |>) in
modNetDev i (fun d => d <| cd_sizesLkey := mr_lkey mr |>)).
Proof. intros O. unfold regMr. pw; auto using pres_callO, pres_modDevXO, pres_modNetDev with pres. Qed.

Lemma connectSetup_readies rm v rv :
triple (all (announcing v rv)) (connectSetup rm) (fun _ => all (senderReady rm v rv)).
Proof.
unfold connectSetup.
eapply triple_bind; [apply (storeRemDevs_stores rm 0 (announcing v rv)), steady_slots|]. intros [].
eapply triple_bind; [apply (storeCmplsRecords_stores rm (knows rm (md_ndevs rm) (announcing v rv)))|intros []].
{ apply tailless_knows, tailless_slots. }
do 1 (eapply triple_bind; [apply triple_all; intros i; apply pres_getBaseF|intros b]).
eapply triple_bind; [apply triple_all; intros i; apply pres_forN; intros j Hj; apply pres_cmplsMr, os_calm, outside_facts|intros []].
eapply triple_bind; [apply senderRts_joins|intros []].
eapply triple_bind; [apply triple_all; intros i; apply pres_speedsF, os_calm, outside_facts|intros []].
apply triple_modNetBase; [done..|]. intros i f ([(Hk & Hl & Hs) Hrem] & Hkeys).
split; [|done]. split; [|exact Hkeys]. split; [|exact Hrem]. split; [exact Hk|]. split; [exact Hl|exact Hs].
Qed.

Lemma pres_modNetBaseF {X} (f : Conn -> X) g : (forall s n, f (s <| net_ := n |>) = f s) -> pres f (modNetBase g).
Proof. intros Hf s. apply Hf. Qed.

(** Setting up leaves the metadata already sent alone. *)
Lemma connectSetup_meta rm : pres (fun c => (meta_ c, selfAddr c)) (connectSetup rm).
Proof.
assert (calm (fun c => (meta_ c, selfAddr c))) as O by done.
assert (forall i, ignores (fun c => (meta_ c, selfAddr c)) (Data, i)) as I.
{ intros i. split; [apply ignoresX_any; [done|by intros []]|]. done. }
assert (forall m : net unit, pres (fun c => (meta_ c, selfAddr c)) (onNet m)) as Hn.
{ intros m s. unfold onNet. by destruct (m (net_ s)). }
unfold connectSetup, storeRemDevs, storeCmplsRecords.
pw; try apply Hn; try (by apply pres_modNetBaseF); try (by apply pres_getBaseF); try by apply pres_cmplsMr.
- unfold regMr. pw; auto using pres_callO, pres_modDevXO, pres_modNetDev with pres.
- by apply pres_senderRts.
Qed.

(** *** The receiver *)

Lemma steady_agreed v rv : steady (agreed v rv).
Proof.
intros i f b ((K1 & K2 & K3 & K4) & Hl & Hs) E1 E2 E3 E4. split; [|by split].
unfold coreOk. cbn. by rewrite E1, E2, E3, E4.
Qed.

Lemma acceptStore_stores rm v rv :
triple (all (agreed v rv)) (acceptStore rm) (fun _ => all (knows rm (md_ndevs rm) (agreed v rv))).
Proof.
unfold acceptStore. eapply triple_bind with (R := fun _ => all (agreed v rv)).
{ apply triple_modRecv. intros i f c c' Hf _ [= <-]. exact Hf. }
intros []. eapply triple_bind; [apply storeRemDevs_stores, steady_agreed|]. intros [].
eapply triple_bind; [apply triple_all; intros i; apply pres_getS|]. intros s0.
apply triple_modRecv. intros i f c c' Hf _ [= <-]. exact Hf.
Qed.

Lemma pres_receiverQps {X} (f : Conn -> X) rm : outside f -> (forall i, ignores f (Data, i)) -> (forall i g, pres f (setQpInfo i g)) ->
(forall s a b, f (s <| flushQpSl := a |> <| flushQpTc := b |>) = f s) -> pres f (ncclIbReceiverQpsCreateToRts rm).
Proof.
intros O I S F. unfold ncclIbReceiverQpsCreateToRts. apply pres_bind; [apply pres_getBaseF|]. intros b. apply pres_bind.
- apply pres_qpsLoop. intros i o. apply pres_receiverQp; auto with pres.
- intros _. pw. apply pres_modify. intros s. apply F.
Qed.

Lemma receiverQps_join rm v rv :
triple (all (knows rm (md_ndevs rm) (agreed v rv))) (ncclIbReceiverQpsCreateToRts rm)
(fun _ => all (knows rm (md_ndevs rm) (joining rm v rv))).
Proof.
intros c Ha. pose proof (receiverQps_joins rm (vp_ndevs v) (nqpsFor nQpsPerDev v rv) c) as Hc.
assert (pres coreOf (ncclIbReceiverQpsCreateToRts rm)) as H1 by (apply pres_receiverQps; auto with pres; intros; by apply pres_setQpInfo).
assert (pres qpsLen (ncclIbReceiverQpsCreateToRts rm)) as H2 by (apply pres_receiverQps; auto with pres; intros; by apply pres_setQpInfo).
specialize (H1 c). specialize (H2 c). destruct (ncclIbReceiverQpsCreateToRts rm c) as [[[]|r|] c'] eqn:E; [|done..]. cbn in H1, H2.
assert (forall i, 0 <= i < u32 (nqpsFor nQpsPerDev v rv) -> joined rm (stripeOf (vp_ndevs v) i) i (slotView i c')) as Hj.
{ apply Hc. destruct (Ha 0) as [((K1 & K2 & _) & _) _]. split; [exact K1|]. split; [exact K2|].
intros i. by destruct (Ha i) as [(_ & _ & Hs) _]. }
intros i. destruct (Ha i) as [(Hk & Hl & _) Hrem].
unfold knows, joining, slotsAre, factsOf. cbn [fc_core fc_len fc_addr fc_tail fc_slot].
rewrite H1, H2. split; [|exact Hrem]. split; [exact Hk|]. split; [exact Hl|]. apply Hj.
Qed.

Lemma acceptQps_join rm v rv :
triple (all (knows rm (md_ndevs rm) (agreed v rv))) (acceptQps rm) (fun _ => all (knows rm (md_ndevs rm) (joining rm v rv))).
Proof.
unfold acceptQps. eapply triple_bind; [apply receiverQps_join|]. intros [].
apply triple_all. intros i. pw.
Qed.

(** The receiver knows where the clear-to-sends go. *)
Definition receiverReady (rm : Metadata) (v rv : ncclNetVDeviceProps_t) (i : Z) (f : Facts) : Prop :=
knows rm (md_ndevs rm) (joining rm v rv) i f /\ fc_tail f = (false, md_addr rm, []).

Lemma acceptRegs_readies rm v rv :
triple (all (knows rm (md_ndevs rm) (joining rm v rv))) (acceptRegs rm) (fun _ => all (receiverReady rm v rv)).
Proof.
unfold acceptRegs. eapply triple_bind with (R := fun _ => all (receiverReady rm v rv)).
{ apply triple_modRecv. intros i f c c' Hf _ [= <-]. split; [|done]. apply tailless_knows; [apply tailless_slots|done]. }
intros []. apply triple_all. intros i. pose proof (outside_facts i) as O. pose proof (os_calm _ O) as Oc.
pw; auto using pres_getBaseF, pres_regMr, pres_modNetDev with pres; try by apply pres_setMetaDev.
- unfold storeCtsRkey. pw. apply pres_recvPart; [done|]. intros c c' E.
destruct (zset (remCts_rkeys c) _ _); [|done]. by injection E as <-.
- apply pres_recvPart; [done|]. by intros c c' [= <-].
Qed.

Lemma acceptMeta_keeps rm v rv :
triple (all (receiverReady rm v rv)) (acceptMeta rm)
(fun _ c => all (receiverReady rm v rv) c /\ md_addr (meta_ c) = selfAddr c).
Proof.
unfold acceptMeta. eapply triple_bind; [apply triple_all; intros i; apply pres_getBaseF|]. intros b.
eapply triple_bind with (R := fun _ => all (receiverReady rm v rv)).
{ apply triple_all. intros i. pose proof (outside_facts i) as O. apply pres_forN. intros j Hj. unfold acceptDevInfo.
pw; auto using pres_ibDevNOf with pres; try by apply pres_setMetaDev.
apply pres_recvPart; [done|]. intros c c' E. destruct (zset (lastSentSpeeds c) j _); [|done]. by injection E as <-. }
intros []. by intros c Hc.
Qed.
End Ends.
