(* ===== verification/SocketSpec.v ===== *)
(** * Sockets, verified

    What the sockets of the transport carry: however the kernel cuts the transfers,
    the bytes sent so far are a prefix of the message, and the bytes in a receive
    buffer are the next bytes of what the peer sent. *)

From S2P Require Import Prelude NetTypes NetBase NetLemmas NetInv NetInit Resiliency Recovery ConnGid ConnTypes ConnQp ConnSetup ConnLogic Socket.

Open Scope Z_scope.
Open Scope nccl_scope.

(** ** Bytes *)

Lemma length_encode m : length (encode m) = Z.to_nat (msgSize m).
Proof. unfold encode. by rewrite length_map, length_zrange. Qed.

Lemma decode_Some l m : decode l = Some m -> l = encode m.
Proof. unfold decode. destruct l as [|[|m' i] l]; [done..|]. case_decide as E; [|done]. by intros [= <-]. Qed.

Lemma encode_cons m : exists l, encode m = Byte m 0 :: l.
Proof. by destruct m; eexists. Qed.

Lemma decode_encode m : decode (encode m) = Some m.
Proof. destruct (encode_cons m) as [l E]. unfold decode. rewrite E. rewrite <- E. by rewrite decide_True. Qed.

Lemma encode_inj m m' : encode m = encode m' -> m = m'.
Proof. intros E. destruct (encode_cons m) as [l El], (encode_cons m') as [l' El']. congruence. Qed.

(** The bytes of [l] from [base], [n] of them. *)
Definition window (l : list Cell) (base n : Z) : list Cell := take (Z.to_nat n) (drop (Z.to_nat base) l).

(** A buffer holds the first [off] bytes of the log of the peer from [base], and that
    much of the log has been read. *)
Record filled (base off : Z) (buf : list Cell) (s : ncclSocket) : Prop := {
  fi_base : 0 <= base;
  fi_off : 0 <= off;
  fi_nread : nread s = base + off;
  fi_log : base + off <= Z.of_nat (length (inLog s));
  fi_buf : off <= Z.of_nat (length buf);
  fi_eq : take (Z.to_nat off) buf = window (inLog s) base off;
}.

Lemma filled_start base buf s :
  0 <= base -> nread s = base -> base <= Z.of_nat (length (inLog s)) -> filled base 0 buf s.
Proof. intros. split; try lia. unfold window. cbn. by rewrite !take_0. Qed.

Lemma window_app l base n cells :
  0 <= base -> 0 <= n -> base + n <= Z.of_nat (length l) -> cells `prefix_of` drop (Z.to_nat (base + n)) l ->
  window l base n ++ cells = window l base (n + Z.of_nat (length cells)).
Proof.
  intros Hb Hn Hl [k Hk]. unfold window.
  replace (Z.to_nat (n + Z.of_nat (length cells))) with (Z.to_nat n + length cells)%nat by lia.
  rewrite <- take_take_drop. f_equal. rewrite drop_drop.
  replace (Z.to_nat base + Z.to_nat n)%nat with (Z.to_nat (base + n)) by lia. by rewrite Hk, take_app_length.
Qed.

(** Reading on. *)
Lemma filled_more base off buf s cells s' :
  filled base off buf s -> cells `prefix_of` drop (Z.to_nat (nread s)) (inLog s) ->
  nread s' = nread s + Z.of_nat (length cells) -> inLog s' = inLog s ->
  filled base (off + Z.of_nat (length cells)) (memwrite buf off cells) s'.
Proof.
  intros [Hb Ho Hn Hl Hbuf He] Hp Hn' Hi. rewrite Hn in Hp. pose proof Hp as [k Hk].
  assert (length (take (Z.to_nat off) buf) = Z.to_nat off) as Hlen by (rewrite length_take; lia).
  apply (f_equal length) in Hk. rewrite length_drop, length_app in Hk.
  split; try lia.
  - rewrite Hi. lia.
  - unfold memwrite. rewrite !length_app. lia.
  - rewrite Hi. unfold memwrite. rewrite <- window_app by (done || lia).
    rewrite <- He, app_assoc. rewrite take_app_le by (rewrite length_app; lia).
    apply take_ge. rewrite length_app. lia.
Qed.

Lemma filled_full base size buf s :
  filled base size buf s -> slice buf size 0 = window (inLog s) base size.
Proof. intros F. unfold slice. cbn. rewrite drop_0. apply F. Qed.

(** The log of the peer may have grown. *)
Lemma window_prefix l l' base n :
  l `prefix_of` l' -> 0 <= base -> 0 <= n -> base + n <= Z.of_nat (length l) -> window l' base n = window l base n.
Proof.
  intros [k ->] Hb Hn Hl. unfold window. rewrite drop_app_le by lia. rewrite take_app_le; [done|].
  rewrite length_drop. lia.
Qed.

Lemma filled_grow base off buf s s' :
  filled base off buf s -> inLog s `prefix_of` inLog s' -> nread s' = nread s -> filled base off buf s'.
Proof.
  intros [Hb Ho Hn Hl Hbuf He] Hp Hr. pose proof (prefix_length _ _ Hp). split; try lia.
  rewrite He. symmetry. apply window_prefix; auto.
Qed.

(** ** Transfers *)

(** The kernel tells of no closed connection: neither end has closed. *)
Definition live (l : list KAns) : Prop := Forall (fun a => a <> KClosed /\ a <> KIoError ECONNRESET) l.

Lemma live_drop l n : live l -> live (drop n l).
Proof. apply Forall_drop. Qed.

(** A socket after a transfer: [n] more bytes read, [cells] sent, some of the script used. *)
Definition moved (s : ncclSocket) (n : Z) (cells : list Cell) (s' : ncclSocket) : Prop :=
  exists k, s' = s <| nread := nread s + n |> <| out := out s ++ cells |> <| script := drop k (script s) |>.

Lemma moved_0 s : moved s 0 [] s.
Proof. exists 0%nat. destruct s. cbn. by rewrite Z.add_0_r, app_nil_r, drop_0. Qed.

Lemma moved_pop s : moved s 0 [] (s <| script := drop 1 (script s) |>).
Proof. exists 1%nat. destruct s. cbn. by rewrite Z.add_0_r, app_nil_r. Qed.

Lemma moved_live s n c s' : moved s n c s' -> live (script s) -> live (script s').
Proof. intros [k ->]. apply live_drop. Qed.

Lemma syscall_Done c s s' : syscall c s = (Done tt, s') -> s' = s.
Proof.
  unfold syscall, bind, getS. destruct (script s) as [|[] ?]; try (by intros [= <-]).
  case_decide; [done|]. by intros [= <-].
Qed.

Lemma progressRecv_Done n s cells closed s' : progressRecv n s = (Done (cells, closed), s') ->
  moved s (Z.of_nat (length cells)) [] s' /\ cells `prefix_of` drop (Z.to_nat (nread s)) (inLog s)
  /\ Z.of_nat (length cells) <= Z.max 0 n /\ (n <> 0 -> live (script s) -> closed = false).
Proof.
  unfold progressRecv, recv, bind, getS, pop, modify. cbn.
  destruct (n =? 0) eqn:En; [apply Z.eqb_eq in En as ->|apply Z.eqb_neq in En].
  { intros [= <- <- <-]. split; [apply moved_0|]. split; [apply prefix_nil|]. split; [cbn; lia|done]. }
  assert (moved s 0 [] s /\ [] `prefix_of` drop (Z.to_nat (nread s)) (inLog s) /\ 0 <= Z.max 0 n) as (H1 & H2 & H3).
  { split; [apply moved_0|]. split; [apply prefix_nil|lia]. }
  destruct (script s) as [|[] l] eqn:El; try (intros [= <- <- <-]; done).
  all: pose proof (moved_pop s) as H4.
  - set (avail := take _ _). assert (avail `prefix_of` drop (Z.to_nat (nread s)) (inLog s)) as Ha by apply prefix_take.
    assert (Z.of_nat (length avail) <= Z.max 0 n) as Hlen by (unfold avail; rewrite length_take; lia).
    destruct (Z.of_nat (length avail) =? 0) eqn:E0; cbn.
    + by intros [= <- <- <-].
    + intros [= <- <- <-]. split; [|done]. exists 1%nat. destruct s. cbn. by rewrite app_nil_r.
  - cbn. destruct e; cbn; try done; intros [= <- <- <-]; try done.
    split; [done|]. split; [done|]. split; [done|]. intros _ Hl. by apply Forall_cons in Hl as [[_ []] _].
  - cbn. intros [= <- <- <-]. split; [done|]. split; [done|]. split; [done|]. intros _ Hl.
    by apply Forall_cons in Hl as [[[] _] _].
Qed.

Lemma progressSend_Done cells s n closed s' : progressSend cells s = (Done (n, closed), s') ->
  moved s 0 (take (Z.to_nat n) cells) s' /\ 0 <= n <= Z.of_nat (length cells).
Proof.
  unfold progressSend, send, bind, getS, pop, modify. cbn.
  assert (moved s 0 [] s /\ 0 <= 0 <= Z.of_nat (length cells)) as [H1 H2] by (split; [apply moved_0|lia]).
  destruct (script s) as [|[] l] eqn:El; try (intros [= <- <- <-]; done).
  all: pose proof (moved_pop s) as H4.
  - set (taken := take _ _). destruct (Z.of_nat (length taken) =? 0) eqn:E0; cbn.
    + by intros [= <- <- <-].
    + intros [= <- <- <-]. rewrite Nat2Z.id. assert (length taken <= length cells)%nat as Hl by (unfold taken; rewrite length_take; lia).
      split; [|lia]. exists 1%nat. replace (take (length taken) cells) with taken.
      * destruct s. cbn. by rewrite Z.add_0_r.
      * unfold taken. rewrite length_take. rewrite <- take_take. by rewrite firstn_all.
  - cbn. destruct e; cbn; try done; by intros [= <- <- <-].
Qed.

(** Receiving into a buffer: it stays filled, with more. *)
Lemma progressRecv_fills base buf size off s b off' s' :
  ncclSocketProgressRecv buf size off s = (Done (b, off'), s') -> filled base off buf s -> off <= size ->
  filled base off' b s' /\ off <= off' <= size /\ moved s (off' - off) [] s'.
Proof.
  unfold ncclSocketProgressRecv, socketProgressRecv, bind. intros E F Hs.
  destruct (progressRecv (size - off) s) as [[[cells closed]|r|] s1] eqn:Er; [|done..].
  apply progressRecv_Done in Er as (Hm & Hp & Hl & _). destruct closed; [done|]. injection E as <- <- <-.
  destruct Hm as [k Hm]. split; [eapply filled_more; [exact F|exact Hp|by rewrite Hm|by rewrite Hm]|]. split; [lia|].
  exists k. by replace (off + Z.of_nat (length cells) - off) with (Z.of_nat (length cells)) by lia.
Qed.

(** Sending a buffer whose first [size] bytes are [msg]. *)
Lemma progressSend_sends pre msg buf size off s off' s' :
  ncclSocketProgressSend buf size off s = (Done off', s') ->
  take (Z.to_nat size) buf = msg -> Z.of_nat (length msg) = size -> 0 <= off ->
  out s = pre ++ take (Z.to_nat off) msg ->
  off <= off' <= Z.max off size /\ exists cells, moved s 0 cells s' /\ out s' = pre ++ take (Z.to_nat off') msg.
Proof.
  unfold ncclSocketProgressSend, socketProgressSend, bind. intros E Hb Hl Ho Hout.
  destruct (progressSend _ s) as [[[n closed]|r|] s1] eqn:Er; [|done..].
  apply progressSend_Done in Er as (Hm & Hn). destruct closed; [done|]. injection E as <- <-.
  unfold slice in Hm, Hn. rewrite Hb in Hm, Hn. rewrite length_drop in Hn. split; [lia|].
  eexists. split; [exact Hm|]. destruct Hm as [k ->]. cbn. rewrite Hout, <- app_assoc. f_equal.
  replace (Z.to_nat (off + n)) with (Z.to_nat off + Z.to_nat n)%nat by lia. by rewrite <- take_take_drop.
Qed.

(** ** The greeting *)

(** What a connector sends first. *)
Definition hello (magic : Z) : list Cell := encode (MsgMagic magic) ++ encode (MsgType ncclSocketTypeNetIb).

Lemma length_hello m : length (hello m) = 12%nat.
Proof. unfold hello. by rewrite length_app, !length_encode. Qed.

Section Greeting.
Context (retryCnt rcvBuf sndBuf magic : Z).

(** The connector's side: how much of the greeting is sent. *)
Record connecting (s : ncclSocket) : Prop := {
cn_magic : sk_magic s = magic;
cn_type : sk_type s = ncclSocketTypeNetIb;
cn_nread : nread s = 0;
cn_state :
match sk_state s with
| ncclSocketStateConnecting | ncclSocketStateConnectPolling => finalizeCounter s = 0 /\ out s = []
| ncclSocketStateConnected =>
let c := finalizeCounter s in
(0 <= c < 8 /\ out s = take (Z.to_nat c) (encode (MsgMagic magic)))
\/ (8 <= c < 12 /\ out s = encode (MsgMagic magic) ++ take (Z.to_nat (c - 8)) (encode (MsgType ncclSocketTypeNetIb)))
| ncclSocketStateReady => out s = hello magic
| _ => False
end;
}.

Definition logOk (l : list Cell) : Prop := take 12 l `prefix_of` hello magic.

(** The listener's side: how much of the greeting is read. *)
Record accepting (s : ncclSocket) : Prop := {
ac_magic : sk_magic s = magic;
ac_type : sk_type s = ncclSocketTypeNetIb;
ac_out : out s = [];
ac_live : live (script s);
ac_log : logOk (inLog s);
ac_state :
match sk_state s with
| ncclSocketStateAccepting => nread s = 0 /\ finalizeCounter s = 0
| ncclSocketStateAccepted =>
let c := finalizeCounter s in
(0 <= c < 8 /\ filled 0 c (finalizeBuffer s) s) \/ (8 <= c < 12 /\ filled 8 (c - 8) (finalizeBuffer s) s)
| ncclSocketStateReady => nread s = 12 /\ 12 <= Z.of_nat (length (inLog s))
| _ => False
end;
}.

Lemma inSockState_keeps (I : ncclSocket -> Prop) st m :
triple (fun s => I s /\ sk_state s = st) m (fun _ => I) -> triple I (inSockState st m) (fun _ => I).
Proof.
intros Hm s Hs. unfold inSockState, bind, getS. case_bool_decide as E; cbn; [by apply Hm|done].
Qed.

(** A socket that is never in state [st]. *)
Lemma inSockState_never (I : ncclSocket -> Prop) st m :
(forall s, I s -> sk_state s <> st) -> triple I (inSockState st m) (fun _ => I).
Proof. intros Hn. apply inSockState_keeps. intros s [Hs E]. by destruct (Hn s Hs). Qed.

Lemma bind_syscall {A} c (k : unit -> sockM A) s a s' : bind (syscall c) k s = (Done a, s') -> k tt s = (Done a, s').
Proof.
unfold bind. destruct (syscall c s) as [[[]|r|] s1] eqn:E; [|done..]. by apply syscall_Done in E as ->.
Qed.

Lemma bind_when_syscall {A} b c (k : unit -> sockM A) s a s' :
bind (when b (syscall c)) k s = (Done a, s') -> k tt s = (Done a, s').
Proof. destruct b; [apply bind_syscall|done]. Qed.

Lemma setFlags_same s s' : ncclOsSocketSetFlags rcvBuf sndBuf s = (Done tt, s') -> s' = s.
Proof.
unfold ncclOsSocketSetFlags, bind at 1, getS. destruct (sk_fd s); [|done]. cbn [negb].
intros E%bind_syscall%bind_syscall%bind_syscall%bind_when_syscall.
destruct (0 <? rcvBuf); [by apply syscall_Done in E|by injection E].
Qed.

Lemma resetFd_same s s' : ncclOsSocketResetFd rcvBuf sndBuf s = (Done tt, s') -> exists fd, s' = s <| sk_fd := fd |>.
Proof.
unfold ncclOsSocketResetFd. intros E%bind_syscall. unfold bind at 1, getS in E. destruct (sk_fd s) eqn:Ef.
- unfold bind at 1 in E. destruct ((syscall SysDup2 ;;; syscall SysClose) s) as [[[]|r|] s1] eqn:E1; [|done..].
apply bind_syscall, syscall_Done in E1 as ->. apply setFlags_same in E as ->. exists true. by destruct s; cbn in *; subst.
- apply setFlags_same in E as ->. by exists true.
Qed.

(** Nothing of the greeting is sent. *)
Record idle (s : ncclSocket) : Prop := {
id_magic : sk_magic s = magic;
id_type : sk_type s = ncclSocketTypeNetIb;
id_nread : nread s = 0;
id_counter : finalizeCounter s = 0;
id_out : out s = [];
}.

Lemma idle_connecting s st : idle s -> st = ncclSocketStateConnecting \/ st = ncclSocketStateConnectPolling ->
connecting (s <| sk_state := st |>).
Proof. intros [] Hst. by split; destruct Hst as [-> | ->]. Qed.

Lemma idle_connected s : idle s -> connecting (s <| sk_state := ncclSocketStateConnected |>).
Proof. intros [??? Hc Ho]. split; try done. cbn. left. rewrite Hc, Ho. by split; [lia|]. Qed.

Lemma connecting_idle s : connecting s -> sk_state s = ncclSocketStateConnecting \/ sk_state s = ncclSocketStateConnectPolling ->
idle s.
Proof. intros [??? Hst] [E|E]; rewrite E in Hst; split; naive_solver. Qed.

Lemma connectCheck_keeps e : triple idle (socketConnectCheck retryCnt rcvBuf sndBuf e) (fun _ => connecting).
Proof.
unfold socketConnectCheck. destruct e as [e|]; [|apply triple_modify; apply idle_connected].
assert (triple idle
(if retriedConnect e then
 let* s := getS in
 (if customRetry s then ret tt
else modify (fun s => s <| errorRetries := errorRetries s + 1 |>) ;;;
if errorRetries s =? retryCnt
then modify (fun s => s <| sk_state := ncclSocketStateError |>) ;;; fail ncclRemoteError
else ret tt) ;;;
 ncclOsSocketResetFd rcvBuf sndBuf ;;;
 modify (fun s => s <| sk_state := ncclSocketStateConnecting |>)
 else modify (fun s => s <| sk_state := ncclSocketStateError |>) ;;; fail ncclSystemError) (fun _ => connecting)) as Hr.
{ destruct (retriedConnect e); [|eapply triple_bind; [by apply triple_modify with (Q := fun _ _ => True)|intros; apply triple_fail]].
eapply triple_bind with (R := fun _ => idle); [by apply triple_getS|]. intros s0.
eapply triple_bind with (R := fun _ => idle).
{ destruct (customRetry s0); [by apply triple_ret|].
eapply triple_bind with (R := fun _ => idle); [apply triple_modify; by intros s []; split|]. intros [].
destruct (errorRetries s0 =? retryCnt); [|by apply triple_ret].
eapply triple_bind; [by apply triple_modify with (Q := fun _ _ => True)|intros; apply triple_fail]. }
intros []. eapply triple_bind with (R := fun _ => idle).
{ intros s Hs. destruct (ncclOsSocketResetFd rcvBuf sndBuf s) as [[[]|r|] s1] eqn:E; [|done..].
apply resetFd_same in E as [fd ->]. by destruct Hs; split. }
intros []. apply triple_modify. intros s Hs. apply idle_connecting; auto. }
destruct e; try exact Hr. apply triple_modify. intros s Hs. apply idle_connecting; auto.
Qed.

Lemma idle_script s l : idle s -> idle (s <| script := l |>).
Proof. by intros []; split. Qed.

Lemma startConnect_keeps : triple idle (ncclOsSocketStartConnect retryCnt rcvBuf sndBuf) (fun _ => connecting).
Proof.
intros s Hs. unfold ncclOsSocketStartConnect, bind at 1, getS.
destruct (script s) as [|[] ?] eqn:El; try by apply connectCheck_keeps.
unfold bind at 1, pop, modify. cbn. by apply connectCheck_keeps, idle_script.
Qed.

Lemma pollConnect_keeps :
triple (fun s => idle s /\ sk_state s = ncclSocketStateConnectPolling) (ncclOsSocketPollConnect retryCnt rcvBuf sndBuf)
(fun _ => connecting).
Proof.
assert (forall s, idle s -> sk_state s = ncclSocketStateConnectPolling -> connecting s) as Hst.
{ intros s Hs E. pose proof (idle_connecting s _ Hs (or_intror eq_refl)) as Hc. destruct s. cbn in *. by subst. }
intros s [Hs E]. unfold ncclOsSocketPollConnect, bind at 1, getS.
destruct (script s) as [|[] l] eqn:El; try by apply Hst.
- destruct r as [e|]; [|by apply Hst; [apply idle_script|]]. unfold bind, pop, modify. cbn.
case_bool_decide; [|done]. cbn. by apply Hst; [apply idle_script|].
- match goal with |- match ?m s with _ => _ end => destruct (m s) as [[[]|r|] s1] eqn:E1; [|done..] end.
unfold bind at 1, pop, modify in E1. cbn in E1. apply bind_syscall in E1.
pose proof (connectCheck_keeps e _ (idle_script s (drop 1 (script s)) Hs)) as Hc. by rewrite E1 in Hc.
Qed.

Lemma connecting_moved s cells s' c : connecting s -> moved s 0 cells s' -> sk_state s = ncclSocketStateConnected ->
(0 <= c < 8 /\ out s' = take (Z.to_nat c) (encode (MsgMagic magic)))
\/ (8 <= c < 12 /\ out s' = encode (MsgMagic magic) ++ take (Z.to_nat (c - 8)) (encode (MsgType ncclSocketTypeNetIb))) ->
connecting (s' <| finalizeCounter := c |>).
Proof.
intros [] [k ->] Est Hc. split; try done; cbn; [lia|]. rewrite Est. exact Hc.
Qed.

(** The type of the socket, once the magic number is sent. *)
Lemma connectType_keeps :
triple (fun s => connecting s /\ sk_state s = ncclSocketStateConnected
/\ out s = encode (MsgMagic magic) ++ take (Z.to_nat (finalizeCounter s - 8)) (encode (MsgType ncclSocketTypeNetIb))
/\ 8 <= finalizeCounter s < 12)
finalizeConnectType (fun _ => connecting).
Proof.
intros s (Hc & Est & Ho & Hr). unfold finalizeConnectType, bind at 1, getS. rewrite (cn_type _ Hc).
unfold bind at 1. destruct (ncclSocketProgressSend _ 4 _ s) as [[sent|r|] s1] eqn:E; [|done..].
pose proof (progressSend_sends _ _ _ _ _ _ _ _ E eq_refl eq_refl ltac:(lia) Ho) as (Hs & cells & Hm & Ho1).
rewrite setCounter_run || unfold bind at 1, setCounter, modify. cbn.
destruct (sent <? 4) eqn:E4; [apply Z.ltb_lt in E4|apply Z.ltb_ge in E4].
- cbn. eapply connecting_moved; [exact Hc|exact Hm|done|]. right. split; [lia|].
replace (sent + 8 - 8) with sent by lia. exact Ho1.
- cbn. assert (sent = 4) as -> by lia. destruct Hm as [k ->]. destruct Hc. split; try done; cbn; lia.
Qed.

Lemma finalizeConnect_keeps :
triple (fun s => connecting s /\ sk_state s = ncclSocketStateConnected) socketFinalizeConnect (fun _ => connecting).
Proof.
intros s [Hc Est]. pose proof (cn_state _ Hc) as Hst. rewrite Est in Hst. cbn in Hst.
unfold socketFinalizeConnect, bind at 1, getS.
destruct (finalizeCounter s <? 8) eqn:E8; [apply Z.ltb_lt in E8|apply Z.ltb_ge in E8].
2: { apply connectType_keeps. destruct Hst as [[? _]|[? Ho]]; [lia|]. auto. }
destruct Hst as [[Hr Ho]|[? _]]; [|lia]. rewrite (cn_magic _ Hc). unfold bind at 1.
destruct (ncclSocketProgressSend _ 8 _ s) as [[sent|r|] s1] eqn:E; [|done..].
pose proof (progressSend_sends [] _ _ _ _ _ _ _ E eq_refl eq_refl ltac:(lia) Ho) as (Hs & cells & Hm & Ho1).
unfold bind at 1, setCounter, modify. cbn beta iota.
destruct (sent <? 8) eqn:E9; [apply Z.ltb_lt in E9|apply Z.ltb_ge in E9].
- cbn. eapply connecting_moved; [exact Hc|exact Hm|done|]. left. split; [lia|]. exact Ho1.
- assert (sent = 8) as -> by lia. apply connectType_keeps.
assert (out s1 = encode (MsgMagic magic) ++ take (Z.to_nat (8 - 8)) (encode (MsgType ncclSocketTypeNetIb))) as Ho2.
{ rewrite Ho1. by rewrite take_0, app_nil_r. }
split; [eapply connecting_moved; [exact Hc|exact Hm|done|]; right; split; [lia|exact Ho2]|].
split; [by destruct Hm as [k ->]|]. split; [exact Ho2|cbn; lia].
Qed.

Lemma connecting_never s : connecting s ->
sk_state s <> ncclSocketStateAccepting /\ sk_state s <> ncclSocketStateAccepted /\ sk_state s <> ncclSocketStateBadHandshake.
Proof. intros [??? Hst]. by destruct (sk_state s). Qed.

Lemma progressState_connects : triple connecting (socketProgressState retryCnt rcvBuf sndBuf) (fun _ => connecting).
Proof.
unfold socketProgressState.
eapply triple_bind with (R := fun _ => connecting); [apply inSockState_never; intros s Hs; by apply connecting_never|intros []].
eapply triple_bind with (R := fun _ => connecting); [apply inSockState_never; intros s Hs; by apply connecting_never|intros []].
eapply triple_bind with (R := fun _ => connecting).
{ apply inSockState_keeps. eapply triple_weaken; [apply startConnect_keeps| |done].
intros s [Hs E]. apply connecting_idle; auto. }
intros []. eapply triple_bind with (R := fun _ => connecting).
{ apply inSockState_keeps. eapply triple_weaken; [apply pollConnect_keeps| |done].
intros s [Hs E]. split; [apply connecting_idle; auto|done]. }
intros []. apply inSockState_keeps, finalizeConnect_keeps.
Qed.

Lemma ready_connects : triple connecting (ncclSocketReady retryCnt rcvBuf sndBuf)
(fun r s => connecting s /\ (r = true -> sk_state s = ncclSocketStateReady)).
Proof.
intros s Hs. unfold ncclSocketReady, bind at 1, getS.
assert (triple connecting
(socketProgressState retryCnt rcvBuf sndBuf ;;;
 inSockState ncclSocketStateBadHandshake (modify (fun s => s <| sk_state := ncclSocketStateAccepting |>)) ;;;
 gets isReady) (fun r s => connecting s /\ (r = true -> sk_state s = ncclSocketStateReady))) as Hrun.
{ eapply triple_bind; [apply progressState_connects|]. intros [].
eapply triple_bind with (R := fun _ => connecting); [apply inSockState_never; intros ? ?; by apply connecting_never|].
intros []. apply triple_gets. intros s' Hs'. split; [done|]. unfold isReady. intros E. by apply bool_decide_eq_true in E. }
destruct (sk_state s) eqn:E; try (by apply Hrun); done.
Qed.

Lemma socketConnect_connects :
triple (fun s => sk_magic s = magic /\ sk_type s = ncclSocketTypeNetIb /\ nread s = 0 /\ out s = [])
(ncclSocketConnect retryCnt rcvBuf sndBuf) (fun _ => connecting).
Proof.
intros s (Hm & Ht & Hn & Ho). unfold ncclSocketConnect, bind at 1, getS.
destruct (negb (sk_fd s)); [done|]. destruct (negb (bool_decide _)); [by case_bool_decide|].
unfold bind at 1, modify. set (s1 := s <| sk_state := _ |> <| finalizeCounter := 0 |>).
assert (connecting s1) as Hc by (by split).
pose proof (progressState_connects s1 Hc) as Hp. unfold bind at 1.
destruct (socketProgressState retryCnt rcvBuf sndBuf s1) as [[[]|r|] s2]; [|done..].
unfold bind, getS. by destruct (sk_state s2).
Qed.

Lemma socketInit_keeps b c t u s s' : ncclSocketInit rcvBuf sndBuf b c t u s = (Done tt, s') ->
sk_magic s' = c /\ sk_type s' = t /\ acceptFd s' = false /\ out s' = out s /\ nread s' = nread s
/\ inLog s' = inLog s /\ script s' = script s.
Proof.
unfold ncclSocketInit, bind, modify. destruct b; cbn [when]; [|by intros [= <-]].
destruct (ncclOsSocketResetFd _ _ _) as [[[]|r|] s1] eqn:E; intros [= <-]. by apply resetFd_same in E as [fd ->].
Qed.

(** *** The listener *)

Lemma logOk_take l n : logOk l -> (n <= 12)%nat -> (n <= length l)%nat -> take n l = take n (hello magic).
Proof.
intros [k Hk] H1 H2. rewrite Hk. rewrite take_app_le by (rewrite length_take; lia). rewrite take_take. f_equal. lia.
Qed.

Lemma accepting_moved s n s' : accepting s -> moved s n [] s' -> sk_state s = ncclSocketStateAccepted ->
forall buf c,
(0 <= c < 8 /\ filled 0 c buf s') \/ (8 <= c < 12 /\ filled 8 (c - 8) buf s') ->
accepting (s' <| finalizeBuffer := buf |> <| finalizeCounter := c |>).
Proof.
intros [] Hm Est buf c Hc. pose proof (moved_live _ _ _ _ Hm ac_live0) as Hl. destruct Hm as [k ->].
split; try done; cbn; [by rewrite app_nil_r|]. rewrite Est.
destruct Hc as [[? []]|[? []]]; [left|right]; (split; [done|]; by split).
Qed.

Lemma tryAccept_keeps :
triple (fun s => accepting s /\ sk_state s = ncclSocketStateAccepting) (ncclOsSocketTryAccept retryCnt) (fun _ => accepting).
Proof.
intros s [Ha Est]. unfold ncclOsSocketTryAccept, bind at 1, getS.
set (m := match script s with KAccept _ :: _ => pop | _ => ret tt end).
assert (exists k, m s = (Done tt, s <| script := drop k (script s) |>)) as [k Em].
{ unfold m. destruct (script s) as [|[] l] eqn:El; try (exists 0%nat; destruct s; cbn in *; by subst).
exists 1%nat. unfold pop, modify. by rewrite El. }
unfold bind at 1. rewrite Em. clear m Em. set (s1 := s <| script := _ |>).
assert (accepting s1) as Ha1 by (destruct Ha as [????? Hst]; rewrite Est in Hst; split; try done; [by apply live_drop|cbn; by rewrite Est]).
assert (sk_state s1 = ncclSocketStateAccepting) as Est1 by done.
assert (forall fd e, accepting (s1 <| sk_fd := fd |> <| errorRetries := e |>)) as Hk.
{ intros fd e. destruct Ha1 as [??????Hst]. split; try done. rewrite Est1 in Hst. cbn. by rewrite Est. }
assert (forall fd, accepting (s1 <| sk_fd := fd |>)) as Hk0.
{ intros fd. specialize (Hk fd (errorRetries s1)). by destruct s1. }
destruct (match script s with KAccept r :: _ => r | _ => Some EAGAIN end) as [e|].
- unfold bind at 1, modify. destruct (retriedAccept e).
+ unfold bind at 1. destruct (_ =? retryCnt); [done|]. apply Hk.
+ case_bool_decide; [apply Hk0|done].
- destruct Ha1 as [????? Hst]. rewrite Est1 in Hst. destruct Hst as [Hn Hf]. split; try done. cbn. left. cbn in Hf. rewrite Hf.
split; [lia|]. apply filled_start; [done|done|lia].
Qed.

Lemma window_hello l base n : logOk l -> 0 <= base -> 0 <= n -> base + n <= 12 -> base + n <= Z.of_nat (length l) ->
window l base n = window (hello magic) base n.
Proof.
intros Hl Hb Hn H12 Hlen. unfold window. rewrite !take_drop_commute.
rewrite (logOk_take l) by (done || lia). done.
Qed.

Lemma acceptType_keeps :
triple (fun s => accepting s /\ sk_state s = ncclSocketStateAccepted /\ 8 <= finalizeCounter s < 12
/\ filled 8 (finalizeCounter s - 8) (finalizeBuffer s) s)
finalizeAcceptType (fun _ => accepting).
Proof.
intros s (Ha & Est & Hr & F). unfold finalizeAcceptType, bind at 1, getS. unfold bind at 1.
destruct (ncclSocketProgressRecv _ 4 _ s) as [[[b rec]|r|] s1] eqn:E; [|done..].
destruct (progressRecv_fills _ _ _ _ _ _ _ _ E F ltac:(lia)) as (F1 & Hrec & Hm).
unfold bind at 1, modify. unfold bind at 1, setCounter, modify. cbn beta iota.
destruct (rec <? 4) eqn:E4; [apply Z.ltb_lt in E4|apply Z.ltb_ge in E4].
- eapply accepting_moved; [exact Ha|exact Hm|done|]. right. split; [lia|]. by replace (rec + 8 - 8) with rec by lia.
- assert (rec = 4) as -> by lia.
pose proof (moved_live _ _ _ _ Hm (ac_live _ Ha)) as Hl. assert (logOk (inLog s1)) as Hlog by (destruct Hm as [k ->]; apply Ha).
assert (take 4 b = encode (MsgType ncclSocketTypeNetIb)) as Eb.
{ change 4%nat with (Z.to_nat 4). rewrite (fi_eq _ _ _ _ F1). rewrite window_hello by (done || lia || apply F1). done. }
rewrite decide_True.
2: { destruct Hm as [k ->]. cbn. rewrite Eb, decode_encode. by rewrite (ac_type _ Ha). }
destruct Ha as [Hmg Hty Ho _ _ _], F1 as [? ? Hn Hl1 ? ?]. destruct Hm as [k Hm]. subst s1.
split; try done; cbn in *. by rewrite Ho.
Qed.

Lemma finalizeAccept_keeps :
triple (fun s => accepting s /\ sk_state s = ncclSocketStateAccepted) (socketFinalizeAccept rcvBuf sndBuf) (fun _ => accepting).
Proof.
intros s [Ha Est]. pose proof (ac_state _ Ha) as Hst. rewrite Est in Hst. cbn in Hst.
unfold socketFinalizeAccept, bind at 1. destruct (ncclOsSocketSetFlags rcvBuf sndBuf s) as [[[]|r|] s0] eqn:E0; [|done..].
apply setFlags_same in E0 as ->. unfold bind at 1, getS.
destruct (finalizeCounter s <? 8) eqn:E8; [apply Z.ltb_lt in E8|apply Z.ltb_ge in E8].
2: { destruct Hst as [[? _]|[Hr F]]; [lia|]. apply acceptType_keeps. auto. }
destruct Hst as [[Hr F]|[? _]]; [|lia]. unfold bind at 1.
destruct (progressRecv _ s) as [[[cells closed]|r|] s1] eqn:E; [|done..].
apply progressRecv_Done in E as (Hm & Hp & Hlen & Hcl). rewrite (Hcl ltac:(lia) (ac_live _ Ha)).
set (rec := finalizeCounter s + Z.of_nat (length cells)). set (b := memwrite (finalizeBuffer s) (finalizeCounter s) cells).
assert (filled 0 rec b s1) as F1 by (eapply filled_more; [exact F|exact Hp|by destruct Hm as [k ->]..]).
unfold bind at 1, modify. unfold bind at 1, setCounter, modify. cbn beta iota.
destruct (rec <? 8) eqn:E9; [apply Z.ltb_lt in E9|apply Z.ltb_ge in E9].
- cbn [when]. eapply accepting_moved; [exact Ha|exact Hm|done|]. left. split; [lia|done].
- assert (rec = 8) as Erec by lia. rewrite Erec in *.
assert (logOk (inLog s1)) as Hlog by (destruct Hm as [k ->]; apply Ha).
assert (take 8 b = encode (MsgMagic magic)) as Eb.
{ change 8%nat with (Z.to_nat 8). rewrite (fi_eq _ _ _ _ F1). rewrite window_hello by (done || lia || apply F1). done. }
rewrite decide_True.
2: { destruct Hm as [k ->]. cbn. rewrite Eb, decode_encode. by rewrite (ac_magic _ Ha). }
assert (filled 8 (8 - 8) b s1) as F2.
{ apply filled_start; [lia|apply F1|]. destruct F1. lia. }
apply acceptType_keeps. split; [eapply accepting_moved; [exact Ha|exact Hm|done|]; right; split; [lia|exact F2]|].
split; [by destruct Hm as [k ->]|]. split; [cbn; lia|]. by destruct F2; split.
Qed.

Lemma accepting_never s : accepting s ->
sk_state s <> ncclSocketStateConnecting /\ sk_state s <> ncclSocketStateConnectPolling
/\ sk_state s <> ncclSocketStateConnected /\ sk_state s <> ncclSocketStateBadHandshake.
Proof. intros [????? Hst]. by destruct (sk_state s). Qed.

Lemma progressState_accepts : triple accepting (socketProgressState retryCnt rcvBuf sndBuf) (fun _ => accepting).
Proof.
unfold socketProgressState.
eapply triple_bind with (R := fun _ => accepting); [apply inSockState_keeps, tryAccept_keeps|intros []].
eapply triple_bind with (R := fun _ => accepting); [apply inSockState_keeps, finalizeAccept_keeps|intros []].
do 2 (eapply triple_bind with (R := fun _ => accepting); [apply inSockState_never; intros s Hs; by apply accepting_never|intros []]).
apply inSockState_never. intros s Hs. by apply accepting_never.
Qed.

Lemma ready_accepts : triple accepting (ncclSocketReady retryCnt rcvBuf sndBuf)
(fun r s => accepting s /\ (r = true -> sk_state s = ncclSocketStateReady)).
Proof.
intros s Hs. unfold ncclSocketReady, bind at 1, getS.
assert (triple accepting
(socketProgressState retryCnt rcvBuf sndBuf ;;;
 inSockState ncclSocketStateBadHandshake (modify (fun s => s <| sk_state := ncclSocketStateAccepting |>)) ;;;
 gets isReady) (fun r s => accepting s /\ (r = true -> sk_state s = ncclSocketStateReady))) as Hrun.
{ eapply triple_bind; [apply progressState_accepts|]. intros [].
eapply triple_bind with (R := fun _ => accepting); [apply inSockState_never; intros ? ?; by apply accepting_never|].
intros []. apply triple_gets. intros s' Hs'. split; [done|]. unfold isReady. intros E. by apply bool_decide_eq_true in E. }
destruct (sk_state s) eqn:E; try (by apply Hrun); done.
Qed.

(** [ncclSocketAccept] on a fresh socket: it becomes a copy of the listening one. *)
Lemma socketAccept_accepts l :
triple (fun s => acceptFd s = false /\ sk_magic l = magic /\ sk_type l = ncclSocketTypeNetIb /\ nread s = 0 /\ out s = []
/\ live (script s) /\ logOk (inLog s))
(ncclSocketAccept retryCnt rcvBuf sndBuf l) (fun _ => accepting).
Proof.
intros s (Hf & Hm & Ht & Hn & Ho & Hl & Hlog). unfold ncclSocketAccept. destruct (sk_state l); try done.
unfold bind at 1, getS. rewrite Hf. cbn [negb when]. unfold bind at 1, modify.
match goal with |- context [bind _ _ ?x] => assert (accepting x) as Ha by (by split) end.
pose proof (progressState_accepts _ Ha) as Hp. unfold bind at 1.
destruct (socketProgressState retryCnt rcvBuf sndBuf _) as [[[]|r|] s2]; [|done..].
unfold bind at 1. pose proof (inSockState_never accepting ncclSocketStateBadHandshake
(modify (fun s => s <| sk_state := ncclSocketStateAccepting |>)) (fun x Hx => proj2 (proj2 (proj2 (accepting_never x Hx)))) s2 Hp) as Hi.
destruct (inSockState _ _ s2) as [[[]|r|] s3]; [|done..]. unfold bind, getS. by destruct (sk_state s3).
Qed.
End Greeting.
