(* ===== verification/HandshakeBase.v ===== *)
(** * Handshake: one call of connect or accept

    Rules for the operations of a [Peer] ([Connect]): what a normal return of each says
    about the stage, the buffer, the socket and the communicator. *)

From S2P Require Import Prelude NetTypes NetBase NetLemmas NetInv NetInit Resiliency Recovery ConnGid ConnTypes ConnQp ConnSetup Socket Connect ConnLogic ConnSetupSpec ConnDataSpec ConnAllSpec SocketSpec.

Open Scope Z_scope.
Open Scope nccl_scope.

Lemma triple_Done {S A} (P : S -> Prop) (m : comp S A) (Q : A -> S -> Prop) s a s' :
  triple P m Q -> P s -> m s = (Done a, s') -> Q a s'.
Proof. intros Ht Hs E. specialize (Ht s Hs). by rewrite E in Ht. Qed.

(** What a normal return says. *)
Definition returns {S A} (s : S) (m : comp S A) (Q : A -> S -> Prop) : Prop := forall a s', m s = (Done a, s') -> Q a s'.

Lemma returns_triple {S A} (P : S -> Prop) (m : comp S A) Q : (forall s, P s -> returns s m Q) -> triple P m Q.
Proof. intros H s Hs. specialize (H s Hs). destruct (m s) as [[a|r|] s'] eqn:E; try done. by apply H. Qed.

Lemma returns_of {S A} (P : S -> Prop) (m : comp S A) Q s : triple P m Q -> P s -> returns s m Q.
Proof. intros Ht Hs a s' E. by eapply triple_Done. Qed.

Lemma returns_bind {S A B} (m : comp S A) (k : A -> comp S B) Q s :
  (forall a s1, m s = (Done a, s1) -> returns s1 (k a) Q) -> returns s (bind m k) Q.
Proof. intros H b s' E. apply bind_Done in E as (a & s1 & E1 & E2). by eapply H. Qed.

Lemma returns_ret {S A} (a : A) (s : S) Q : Q a s -> returns s (ret a) Q.
Proof. intros H b s' [= <- <-]. done. Qed.

Lemma returns_fail {S A} r (s : S) (Q : A -> S -> Prop) : returns s (fail r) Q.
Proof. by intros b s' E. Qed.

(** ** Inversion of the operations *)

Lemma onConn_Done {A} (m : conn A) p a p' : onConn m p = (Done a, p') ->
  exists c, m (comm_ p) = (Done a, c) /\ p' = p <| comm_ := c |>.
Proof. unfold onConn. destruct (m (comm_ p)) as [o c]. intros [= -> <-]. by exists c. Qed.

Lemma onSock_Done {A} (m : sockM A) p a p' : onSock m p = (Done a, p') ->
  exists k, m (sock_ p) = (Done a, k) /\ p' = p <| sock_ := k |>.
Proof. unfold onSock. destruct (m (sock_ p)) as [o c]. intros [= -> <-]. by exists c. Qed.

Lemma checkGoto_Done {A} f (m : peer A) p a p' : checkGoto f m p = (Done a, p') -> m p = (Done a, p').
Proof.
  unfold checkGoto. destruct (m p) as [[a'|r|] s'] eqn:E; [done| |done]. by destruct (f s') as [[[]| |] s2].
Qed.

Lemma of_option_Done {S A} (o : option A) (s : S) a s' : of_option o s = (Done a, s') -> o = Some a /\ s' = s.
Proof. destruct o; [|done]. by intros [= -> ->]. Qed.

Lemma getStage_Done p st p' : getStage p = (Done st, p') -> stage_ p = Some st /\ p' = p.
Proof. unfold getStage. intros (q & p1 & [= <- <-] & E)%bind_Done. by apply of_option_Done in E. Qed.

Lemma modStage_Done g p p' : modStage g p = (Done tt, p') ->
  exists st, stage_ p = Some st /\ p' = p <| stage_ := Some (g st) |>.
Proof.
  unfold modStage. intros (st & p1 & E1 & E2)%bind_Done. apply getStage_Done in E1 as [E1 ->]. injection E2 as <-.
  by exists st.
Qed.

Lemma writeBuffer_Done off m p p' : writeBuffer off m p = (Done tt, p') ->
  exists st b, stage_ p = Some st /\ st_buffer st = Some b
    /\ p' = p <| stage_ := Some (st <| st_buffer := Some (memwrite b off (encode m)) |>) |>.
Proof.
  unfold writeBuffer. intros (st & p1 & E1 & E2)%bind_Done. apply getStage_Done in E1 as [E1 ->].
  apply bind_Done in E2 as (b & p2 & E2 & E3). apply of_option_Done in E2 as [E2 ->].
  apply modStage_Done in E3 as (st' & E3 & ->). exists st, b. split; [done|]. split; [done|]. congruence.
Qed.

Lemma sendBuffer_Done size p full p' : sendBuffer size p = (Done full, p') ->
  exists st b off k, stage_ p = Some st /\ st_buffer st = Some b
    /\ ncclSocketProgressSend b size (st_offset st) (sock_ p) = (Done off, k)
    /\ p' = p <| sock_ := k |> <| stage_ := Some (st <| st_offset := off |>) |> /\ full = (off =? size).
Proof.
  unfold sendBuffer. intros (st & p1 & E1 & E2)%bind_Done. apply getStage_Done in E1 as [E1 ->].
  apply bind_Done in E2 as (b & p2 & E2 & E3). apply of_option_Done in E2 as [E2 ->].
  apply bind_Done in E3 as (off & p3 & E3 & E4). apply onSock_Done in E3 as (k & E3 & ->).
  apply bind_Done in E4 as ([] & p4 & E4 & E5). apply modStage_Done in E4 as (st' & E4 & ->). cbn in E4. injection E5 as <- <-.
  exists st, b, off, k. split; [done|]. split; [done|]. split; [done|]. split; [congruence|done].
Qed.

Lemma recvBuffer_Done size p full p' : recvBuffer size p = (Done full, p') ->
  exists st b b' off k, stage_ p = Some st /\ st_buffer st = Some b
    /\ ncclSocketProgressRecv b size (st_offset st) (sock_ p) = (Done (b', off), k)
    /\ p' = p <| sock_ := k |> <| stage_ := Some (st <| st_buffer := Some b' |> <| st_offset := off |>) |> /\ full = (off =? size).
Proof.
  unfold recvBuffer. intros (st & p1 & E1 & E2)%bind_Done. apply getStage_Done in E1 as [E1 ->].
  apply bind_Done in E2 as (b & p2 & E2 & E3). apply of_option_Done in E2 as [E2 ->].
  apply bind_Done in E3 as ([b' off] & p3 & E3 & E4). apply onSock_Done in E3 as (k & E3 & ->).
  apply bind_Done in E4 as ([] & p4 & E4 & E5). apply modStage_Done in E4 as (st1 & E4 & ->). cbn in E4.
  apply bind_Done in E5 as ([] & p5 & E5 & E6). apply modStage_Done in E5 as (st2 & E5 & ->). cbn in E5. injection E6 as <- <-.
  exists st, b, b', off, k. split; [done|]. split; [done|]. split; [done|]. split; [|done].
  assert (st1 = st) as -> by congruence. injection E5 as <-. done.
Qed.

(** ** Objects in a buffer *)

Definition devList (v : ncclNetVDeviceProps_t) (o : bool) : list Cell := encode (MsgVProps v) ++ encode (MsgExtra o).

Lemma length_devList v o : length (devList v o) = 37%nat.
Proof. unfold devList. by rewrite length_app, !length_encode. Qed.

Lemma readDevList_Done p v o p' : readDevList p = (Done (v, o), p') ->
  p' = p /\ exists st b, stage_ p = Some st /\ st_buffer st = Some b /\ take 37 b = devList v o.
Proof.
  unfold readDevList. intros (st & p1 & E1 & E2)%bind_Done. apply getStage_Done in E1 as [E1 ->].
  apply bind_Done in E2 as (b & p2 & E2 & E3). apply of_option_Done in E2 as [E2 ->].
  destruct (decode (slice b sizeofVProps 0)) as [[]|] eqn:D1; try done.
  destruct (decode (slice b sizeofDevList sizeofVProps)) as [[]|] eqn:D2; try done. injection E3 as <- <- <-.
  split; [done|]. exists st, b. split; [done|]. split; [done|]. apply decode_Some in D1, D2.
  unfold devList. rewrite <- D1, <- D2. unfold slice, sizeofDevList, sizeofVProps, sizeofExtra. cbn [Z.to_nat drop].
  rewrite drop_0. change (Z.to_nat (36 + 1)) with 37%nat. change (Z.to_nat 36) with 36%nat. 
  rewrite <- (take_drop 36 (take 37 b)) at 1. by rewrite take_take.
Qed.

Lemma readMeta_Done p m p' : readMeta p = (Done m, p') ->
  p' = p /\ exists st b, stage_ p = Some st /\ st_buffer st = Some b /\ slice b sizeofMeta 0 = encode (MsgMeta m).
Proof.
  unfold readMeta. intros (st & p1 & E1 & E2)%bind_Done. apply getStage_Done in E1 as [E1 ->].
  apply bind_Done in E2 as (b & p2 & E2 & E3). apply of_option_Done in E2 as [E2 ->].
  destruct (decode (slice b sizeofMeta 0)) as [[]|] eqn:D; try done. injection E3 as <- <-.
  split; [done|]. exists st, b. split; [done|]. split; [done|]. by apply decode_Some in D.
Qed.

Lemma take_memwrite b m : take (length (encode m)) (memwrite b 0 (encode m)) = encode m.
Proof. unfold memwrite. change (Z.to_nat 0) with 0%nat. rewrite take_0. apply (take_app_length (encode m)). Qed.

Lemma take_devList b v o : take 37 (memwrite (memwrite b 0 (encode (MsgVProps v))) sizeofVProps (encode (MsgExtra o))) = devList v o.
Proof.
  pose proof (take_memwrite b (MsgVProps v)) as Ht. rewrite length_encode in Ht.
  change (Z.to_nat (msgSize (MsgVProps v))) with (Z.to_nat sizeofVProps) in Ht.
  unfold memwrite at 1. rewrite Ht, app_assoc. fold (devList v o). rewrite <- (length_devList v o). apply take_app_length.
Qed.

(** ** A communicator from its allocation *)

Section Init.
Context `{H : Host}.

Definition baseInit (n : Net) : Prop :=
activeQps (base n) = map Some (zrange NCCL_IB_MAX_QPS) /\ length (qps (base n)) = Z.to_nat NCCL_IB_MAX_QPS.

Lemma baseCommInit_inits ip r send :
triple (fun n => length (qps (base n)) = Z.to_nat NCCL_IB_MAX_QPS) (ncclIbBaseCommInit ip r send) (fun _ => baseInit).
Proof.
unfold ncclIbBaseCommInit. eapply triple_bind with (R := fun _ => baseInit).
{ apply triple_modify. intros n Hn. split; [done|]. cbn. by rewrite length_map. }
intros []. eapply triple_bind with (R := fun _ => baseInit).
{ unfold ncclIbResiliencyInit. case_match; [by apply triple_ret|]. destruct r; [by apply triple_ret|apply triple_fail]. }
intros r'. apply triple_modify. by intros n Hn.
Qed.

Lemma recvCommInit_inits ip r :
triple (fun n => length (qps (base n)) = Z.to_nat NCCL_IB_MAX_QPS) (ncclIbRecvCommInit ip r) (fun _ => baseInit).
Proof.
unfold ncclIbRecvCommInit. eapply triple_bind; [apply baseCommInit_inits|]. intros [].
eapply triple_bind with (R := fun _ => baseInit); [by apply triple_gets|]. intros res.
intros n Hn. unfold modRecv, getRecv, bind, getS. by destruct (NetTypes.tail n).
Qed.

(** Memory from [ncclIbMalloc], initialised. *)
Definition noMods (c : Conn) : Prop := forall i, modsOf (Data, i) c = [].

Lemma commInit_fresh t (m : net unit) c c1 c2 c3 :
triple (fun n => length (qps (base n)) = Z.to_nat NCCL_IB_MAX_QPS) m (fun _ => baseInit) -> noMods c ->
modify (zeroConn t) c = (Done tt, c1) -> onNet m c1 = (Done tt, c2) ->
modNetBase (fun b => b <| fatalErrorCount := 0 |>) c2 = (Done tt, c3) -> all fresh c3.
Proof.
intros Hm Hc [= <-] E2 [= <-]. unfold onNet in E2.
pose proof (Hm (net_ (zeroConn t c)) eq_refl) as Hi. destruct (m (net_ (zeroConn t c))) as [o n]. injection E2 as -> <-.
destruct Hi as [Ha Hl]. intros i. split; [exact Ha|]. split; [exact Hl|]. exact (Hc i).
Qed.

Lemma verb_mods c : modified c = None -> forall i p p', verb c p = (Done tt, p') ->
modsOf (Data, i) (comm_ p') = modsOf (Data, i) (comm_ p).
Proof.
intros Hc i p p' E. apply onConn_Done in E as (c' & E & ->).
refine (pres_run (modsOf (Data, i)) _ _ _ _ _ E). apply pres_call_. intros s. apply modsOf_other. by rewrite Hc.
Qed.

(** An allocation changes the list of calls only. *)
Lemma verb_keeps c R p p' : modified c = None -> verb c p = (Done tt, p') -> all R (comm_ p) ->
all R (comm_ p') /\ p' = p <| comm_ := comm_ p' |>.
Proof.
intros Hc E Ha. apply onConn_Done in E as (c' & E & ->). split; [|done]. cbn.
refine (triple_Done _ _ _ _ _ _ (triple_all R _ _) Ha E). intros i. apply pres_call_. intros s.
unfold factsOf, slotView. rewrite modsOf_other by (by rewrite Hc). done.
Qed.

Lemma localOoo_same v c o c' : localOoo v c = (Done o, c') -> c' = c.
Proof.
intros E. assert (pres id (localOoo v)) as Hp.
{ unfold localOoo. pw. match goal with |- pres _ (allOooRq ?l ?a) => generalize l, a end; intros l.
induction l as [|d l IH]; intros acc; cbn [allOooRq]; pw. }
exact (pres_run _ _ _ _ _ Hp E).
Qed.
End Init.

(** ** What an end has read and sent *)

(** What an end has read: the devices of the peer, from [base]. *)
Definition readDevs (base : Z) (rv : ncclNetVDeviceProps_t) (ro : bool) (l : list Cell) : Prop :=
  base + 37 <= Z.of_nat (length l) /\ window l base 37 = devList rv ro.

(** The metadata of the peer. *)
Definition readMetadata (base : Z) (rm : Metadata) (l : list Cell) : Prop :=
  base + sizeofMeta <= Z.of_nat (length l) /\ window l base sizeofMeta = encode (MsgMeta rm).

Lemma readDevs_grow base rv ro l l' : 0 <= base -> l `prefix_of` l' -> readDevs base rv ro l -> readDevs base rv ro l'.
Proof.
  intros Hb Hp [Hl Hw]. pose proof (prefix_length _ _ Hp). split; [lia|]. rewrite <- Hw. apply window_prefix; auto; lia.
Qed.

Lemma readMetadata_grow base rm l l' : 0 <= base -> l `prefix_of` l' -> readMetadata base rm l -> readMetadata base rm l'.
Proof.
  intros Hb Hp [Hl Hw]. pose proof (prefix_length _ _ Hp). split; [lia|]. rewrite <- Hw. apply window_prefix; auto. done.
Qed.

(** A peer in stage [st], with what holds of the offset and the buffer. *)
Definition inStage (st : ncclIbCommState) (P : Z -> option (list Cell) -> Peer -> Prop) (p : Peer) : Prop :=
  exists off b, stage_ p = Some (mkStage st off b) /\ P off b p.

#[local] Opaque encode.

(** A receive into the buffer. *)
Lemma recvBuffer_fills size base p full p' off buf st :
recvBuffer size p = (Done full, p') -> stage_ p = Some (mkStage st off (Some buf)) -> filled base off buf (sock_ p) -> off <= size ->
exists off' buf' k, p' = p <| sock_ := k |> <| stage_ := Some (mkStage st off' (Some buf')) |> /\ filled base off' buf' k
  /\ off' <= size /\ inLog k = inLog (sock_ p) /\ out k = out (sock_ p) /\ full = (off' =? size).
Proof.
  intros E Est F Hs. apply recvBuffer_Done in E as (st' & b & b' & off' & k & E1 & E2 & E3 & -> & ->).
  rewrite Est in E1. injection E1 as <-. cbn in E2. injection E2 as <-. cbn in E3.
  destruct (progressRecv_fills _ _ _ _ _ _ _ _ E3 F Hs) as (F' & Ho & [j Hk]). exists off', b', k.
  split; [done|]. split; [done|]. split; [lia|]. rewrite Hk. cbn. by rewrite app_nil_r.
Qed.

(** A send from the buffer. *)
Lemma sendBuffer_sends size pre msg p full p' off buf st :
sendBuffer size p = (Done full, p') -> stage_ p = Some (mkStage st off (Some buf)) -> take (Z.to_nat size) buf = msg ->
Z.of_nat (length msg) = size -> 0 <= off <= size -> out (sock_ p) = pre ++ take (Z.to_nat off) msg ->
exists off' k, p' = p <| sock_ := k |> <| stage_ := Some (mkStage st off' (Some buf)) |> /\ 0 <= off' <= size
  /\ out k = pre ++ take (Z.to_nat off') msg /\ inLog k = inLog (sock_ p) /\ nread k = nread (sock_ p) /\ full = (off' =? size).
Proof.
  intros E Est Hb Hl Ho Hout. apply sendBuffer_Done in E as (st' & b & off' & k & E1 & E2 & E3 & -> & ->).
  rewrite Est in E1. injection E1 as <-. cbn in E2. injection E2 as <-. cbn in E3.
  pose proof (progressSend_sends _ _ _ _ _ _ _ _ E3 Hb Hl (proj1 Ho) Hout) as (Ho' & cells & [j Hk] & Hout').
  exists off', k. split; [done|]. split; [lia|]. split; [done|]. rewrite Hk. cbn. split; [done|]. split; [lia|done].
Qed.

Lemma slice_0 b n : slice b n 0 = take (Z.to_nat n) b.
Proof. unfold slice. change (Z.to_nat 0) with 0%nat. apply drop_0. Qed.

Lemma readDevs_take base buf k v o : filled base 37 buf k -> take 37 buf = devList v o -> readDevs base v o (inLog k).
Proof.
  intros F E. split; [destruct F; lia|]. rewrite <- E. symmetry. apply (fi_eq _ _ _ _ F).
Qed.

Lemma readMetadata_take base buf k m : filled base sizeofMeta buf k -> slice buf sizeofMeta 0 = encode (MsgMeta m) ->
  readMetadata base m (inLog k).
Proof.
  intros F E. split; [apply F|]. rewrite <- E. symmetry. by apply filled_full.
Qed.

(** The metadata names the address of the communicator. *)
Definition addressed (c : Conn) : Prop := md_addr (meta_ c) = selfAddr c.

Section Facts.
Context `{H : Host}.

Lemma setVProps_fresh c c' w : all fresh c -> setVProps w c = (Done tt, c') -> all fresh c'.
Proof. intros Ha E. apply (freshV_fresh w). exact (triple_Done _ _ _ _ _ _ (setVProps_sets w) Ha E). Qed.

Lemma ooo_fresh c c' o : all fresh c -> modNetBase (fun b => b <| localOooRq := o |>) c = (Done tt, c') -> all fresh c'.
Proof. intros Ha E. refine (triple_Done _ _ _ _ _ _ (proj1 (oooFlags_keep fresh o _)) Ha E). done. Qed.


Lemma verb_addressed c p p' : verb c p = (Done tt, p') -> addressed (comm_ p) -> addressed (comm_ p').
Proof.
intros E Ha. apply onConn_Done in E as (c' & E & ->).
assert (pres (fun c => (meta_ c, selfAddr c)) (call_ c)) as Hp by (by apply pres_call_).
pose proof (pres_run _ _ _ _ _ Hp E) as [= Em Es]. unfold addressed. cbn. by rewrite Em, Es.
Qed.
End Facts.
