(* ===== verification/HandshakeSend.v ===== *)
(** * Handshake: the connecting end

    The invariant of [ncclIbConnectImpl]: at each stage, what has been sent, what has
    been read and what of it is in the buffer, and how far the communicator is set
    up.  Every call that returns normally keeps it. *)

From S2P Require Import Prelude NetTypes NetBase NetLemmas NetInv NetInit Resiliency Recovery ConnGid ConnTypes ConnQp ConnSetup Socket Connect ConnLogic ConnSetupSpec ConnDataSpec ConnAllSpec SocketSpec HandshakeBase.

Open Scope Z_scope.
Open Scope nccl_scope.

#[local] Opaque encode.

Section Sender.
Context `{H : Host} (handle : ncclIbHandle) (trafficClass : option Z) (dev nQpsPerDev envTrafficClass : Z).
Context (mg : list ncclNetVDeviceProps_t) (v : ncclNetVDeviceProps_t).
Context (Hv : zget mg dev = Some v).

Notation magic := (h_magic handle).

Definition sStart (off : Z) (b : option (list Cell)) (p : Peer) : Prop :=
merged p = mg /\ nread (sock_ p) = 0 /\ out (sock_ p) = [] /\ forall i, modsOf (Data, i) (comm_ p) = [].

Definition sConnect (off : Z) (b : option (list Cell)) (p : Peer) : Prop :=
merged p = mg /\ connecting magic (sock_ p) /\ all fresh (comm_ p).

Definition sSendDevs (off : Z) (b : option (list Cell)) (p : Peer) : Prop :=
exists buf o, b = Some buf /\ take 37 buf = devList v o /\ 0 <= off <= 37 /\ merged p = mg
/\ nread (sock_ p) = 0 /\ out (sock_ p) = hello magic ++ take (Z.to_nat off) (devList v o) /\ all fresh (comm_ p).

Definition sRecvDevs (off : Z) (b : option (list Cell)) (p : Peer) : Prop :=
exists buf o, b = Some buf /\ filled 0 off buf (sock_ p) /\ off <= 37 /\ merged p = mg
/\ out (sock_ p) = hello magic ++ devList v o /\ all fresh (comm_ p).

Definition sSend (off : Z) (b : option (list Cell)) (p : Peer) : Prop :=
exists buf o rv ro, b = Some buf /\ slice buf sizeofMeta 0 = encode (MsgMeta (meta_ (comm_ p))) /\ 0 <= off <= sizeofMeta
/\ nread (sock_ p) = 37 /\ readDevs 0 rv ro (inLog (sock_ p))
/\ out (sock_ p) = hello magic ++ devList v o ++ take (Z.to_nat off) (encode (MsgMeta (meta_ (comm_ p))))
/\ all (announcing nQpsPerDev v rv) (comm_ p) /\ addressed (comm_ p).

Definition sConnecting (off : Z) (b : option (list Cell)) (p : Peer) : Prop :=
exists buf o rv ro, b = Some buf /\ filled 37 off buf (sock_ p) /\ off <= sizeofMeta /\ readDevs 0 rv ro (inLog (sock_ p))
/\ out (sock_ p) = hello magic ++ devList v o ++ encode (MsgMeta (meta_ (comm_ p)))
/\ all (announcing nQpsPerDev v rv) (comm_ p) /\ addressed (comm_ p).

(** The communicator is ready; [off] bytes of the message that says so are sent. *)
Definition sReady (off : Z) (p : Peer) : Prop :=
exists o rv ro rm, readDevs 0 rv ro (inLog (sock_ p)) /\ readMetadata 37 rm (inLog (sock_ p))
/\ out (sock_ p) = hello magic ++ devList v o ++ encode (MsgMeta (meta_ (comm_ p))) ++ take (Z.to_nat off) (encode (MsgReady 1))
/\ all (senderReady nQpsPerDev rm v rv) (comm_ p) /\ addressed (comm_ p).

Definition sConnected (off : Z) (b : option (list Cell)) (p : Peer) : Prop := 0 <= off <= 4 /\ sReady off p.

(** A call that has not handed out the communicator leaves the peer in one of the stages. *)
Definition sInv (p : Peer) : Prop :=
inStage ncclIbCommStateStart sStart p \/ inStage ncclIbCommStateConnect sConnect p
\/ inStage ncclIbCommStateSendDevList sSendDevs p \/ inStage ncclIbCommStateRecvDevList sRecvDevs p
\/ inStage ncclIbCommStateSend sSend p \/ inStage ncclIbCommStateConnecting sConnecting p
\/ inStage ncclIbCommStateConnected sConnected p.

Definition sPost (r : bool) (p : Peer) : Prop := if r then sReady 4 p else sInv p.

Lemma post_connected off b p : stage_ p = Some (mkStage ncclIbCommStateConnected off b) -> sConnected off b p -> sPost false p.
Proof. intros E Hp. do 6 right. by exists off, b. Qed.
Lemma post_connecting off b p : stage_ p = Some (mkStage ncclIbCommStateConnecting off b) -> sConnecting off b p -> sPost false p.
Proof. intros E Hp. do 5 right. left. by exists off, b. Qed.
Lemma post_send off b p : stage_ p = Some (mkStage ncclIbCommStateSend off b) -> sSend off b p -> sPost false p.
Proof. intros E Hp. do 4 right. left. by exists off, b. Qed.
Lemma post_recvDevs off b p : stage_ p = Some (mkStage ncclIbCommStateRecvDevList off b) -> sRecvDevs off b p -> sPost false p.
Proof. intros E Hp. do 3 right. left. by exists off, b. Qed.
Lemma post_sendDevs off b p : stage_ p = Some (mkStage ncclIbCommStateSendDevList off b) -> sSendDevs off b p -> sPost false p.
Proof. intros E Hp. do 2 right. left. by exists off, b. Qed.
Lemma post_connect off b p : stage_ p = Some (mkStage ncclIbCommStateConnect off b) -> sConnect off b p -> sPost false p.
Proof. intros E Hp. right. left. by exists off, b. Qed.

Lemma ready_base c rm rv : all (senderReady nQpsPerDev rm v rv) c -> ready (base (net_ c)) = 1.
Proof. intros Ha. destruct (Ha 0) as [_ E]. exact E. Qed.

Lemma sendReady_ok : triple (inStage ncclIbCommStateConnected sConnected) ib_send_ready sPost.
Proof.
apply returns_triple. intros p (off & b & Est & Hoff & o & rv & ro & rm & Hd & Hm & Hout & Ha & Had).
unfold ib_send_ready. apply returns_bind. intros p0 p1 [= <- <-]. apply returns_bind. intros st p1 E.
apply getStage_Done in E as [E ->]. rewrite Est in E. injection E as <-.
apply returns_bind. intros off' p1 E%checkGoto_Done. apply onSock_Done in E as (k & E & ->).
rewrite (ready_base _ _ _ Ha) in E. rewrite !app_assoc in Hout. cbn [st_offset] in E.
pose proof (progressSend_sends _ _ _ _ _ _ _ _ E eq_refl eq_refl (proj1 Hoff) Hout) as (Ho' & cells & [j Hk] & Hout').
apply returns_bind. intros [] p1 E1. apply modStage_Done in E1 as (st & E1 & ->). cbn in E1. rewrite Est in E1. injection E1 as <-.
assert (inLog k = inLog (sock_ p)) as Hlog by (by rewrite Hk).
assert (forall p', sock_ p' = k -> comm_ p' = comm_ p -> sReady off' p') as Hr.
{ intros p' Ek Ec. exists o, rv, ro, rm. rewrite Ek, Ec, Hlog. split; [done|]. split; [done|]. split; [|done].
rewrite Hout'. by rewrite !app_assoc. }
destruct (off' =? 4) eqn:E4; [apply Z.eqb_eq in E4 as ->|].
- apply returns_bind. intros [] p1 E2. apply modStage_Done in E2 as (st & _ & ->). apply returns_ret. by apply Hr.
- apply returns_ret. eapply (post_connected off' b); [done|]. split; [lia|]. by apply Hr.
Qed.

Lemma checkLink_same rm c c' : checkLocalLink rm c = (Done tt, c') -> c' = c.
Proof.
intros E. assert (pres id (checkLocalLink rm)) as Hp.
{ unfold checkLocalLink, checkRemoteLink. pw; auto using pres_getBaseF, pres_portOf with pres. }
exact (pres_run _ _ _ _ _ Hp E).
Qed.

Lemma connect_ok : triple (inStage ncclIbCommStateConnecting sConnecting) ib_connect sPost.
Proof.
apply returns_triple. intros p (off & b & Est & buf & o & rv & ro & -> & F & Hoff & Hd & Hout & Ha & Had).
unfold ib_connect. apply returns_bind. intros full p1 E%checkGoto_Done.
eapply recvBuffer_fills in E as (off' & buf' & k & -> & F' & Ho' & Hlog & Hko & ->); [|done..].
destruct (off' =? sizeofMeta) eqn:Ef; [apply Z.eqb_eq in Ef as ->|]; cbn [negb].
2: { apply returns_ret. eapply post_connecting; [done|]. exists buf', o, rv, ro.
 cbn. rewrite Hlog, Hko. split_and!; done. }
apply returns_bind. intros rm q E. apply readMeta_Done in E as (-> & st & b & E1 & E2 & Eb). cbn in E1. injection E1 as <-.
cbn in E2. injection E2 as <-. rewrite (filled_full _ _ _ _ F') in Eb.
apply returns_bind. intros [] p2 E. apply onConn_Done in E as (c1 & E & ->). apply checkLink_same in E as ->. cbn.
apply returns_bind. intros [] p3 E%checkGoto_Done. apply onConn_Done in E as (c & E & ->). cbn in E |- *.
pose proof (pres_run _ _ _ _ _ (connectSetup_meta rm) E) as Hm. injection Hm as Hm Hsa.
pose proof (triple_Done _ _ _ _ _ _ (connectSetup_readies nQpsPerDev rm v rv) Ha E) as Hr.
apply returns_bind. intros [] p4 E2. apply modStage_Done in E2 as (st & E2 & ->). cbn in E2. injection E2 as <-.
apply returns_of with (P := inStage ncclIbCommStateConnected sConnected); [apply sendReady_ok|].
exists 0, (Some buf'). split; [done|]. split; [lia|]. exists o, rv, ro, rm. cbn. rewrite Hlog in *. split; [done|].
split; [split; [|done]; destruct F'; rewrite Hlog in *; lia|]. split; [|split; [done|]].
- rewrite Hko, Hout, Hm. by rewrite app_nil_r.
- unfold addressed. rewrite Hm, Hsa. exact Had.
Qed.

Lemma send_ok : triple (inStage ncclIbCommStateSend sSend) ib_send sPost.
Proof.
apply returns_triple. intros p (off & b & Est & buf & o & rv & ro & -> & Hb & Hoff & Hn & Hd & Hout & Ha & Had).
unfold ib_send. apply returns_bind. intros full p1 E%checkGoto_Done. rewrite slice_0 in Hb. rewrite app_assoc in Hout.
eapply sendBuffer_sends in E as (off' & k & -> & Ho' & Hko & Hlog & Hnr & ->);
[|exact Est|exact Hb|by rewrite length_encode|exact Hoff|exact Hout].
destruct (off' =? sizeofMeta) eqn:Ef; [apply Z.eqb_eq in Ef as ->|]; cbn [negb].
2: { apply returns_ret. eapply post_send; [done|]. exists buf, o, rv, ro. rewrite slice_0. cbn.
 rewrite Hlog, Hko, Hnr, app_assoc. split_and!; try done; lia. }
apply returns_bind. intros [] p2 E2. apply modStage_Done in E2 as (st & E2 & ->). cbn in E2. injection E2 as <-.
apply returns_bind. intros [] p3 E2. apply modStage_Done in E2 as (st & E2 & ->). cbn in E2. injection E2 as <-.
apply returns_of with (P := inStage ncclIbCommStateConnecting sConnecting); [apply connect_ok|].
exists 0, (Some newBuffer). split; [done|]. exists newBuffer, o, rv, ro. cbn. rewrite Hlog, Hko, app_assoc.
split_and!; try done.
apply filled_start; [lia|congruence|]. rewrite Hlog. apply Hd.
Qed.

(** The part of the handshake that touches the communicator only. *)
Definition onlyConn (p q : Peer) : Prop := q = p <| comm_ := comm_ q |>.

Lemma onlyConn_upd p c : onlyConn p (p <| comm_ := c |>).
Proof. done. Qed.

Lemma onlyConn_trans p q r : onlyConn p q -> onlyConn q r -> onlyConn p r.
Proof. unfold onlyConn. intros -> ->. by destruct p. Qed.

Lemma devInfos_keep R n i link p : all R (comm_ p) ->
returns p (connectDevInfos n i link) (fun _ q => all R (comm_ q) /\ onlyConn p q).
Proof.
revert i link p. induction n as [|n IH]; intros i link p Ha; [apply returns_ret; split; [done|by destruct p]|].
cbn [connectDevInfos]. apply returns_bind. intros [] p1 E%checkGoto_Done. apply onConn_Done in E as (c & E & ->).
assert (all R c) as Hc.
{ refine (triple_Done _ _ _ _ _ _ (triple_all R _ _) Ha E). intros j. apply pres_connectDevInfo; [apply outside_facts|done]. }
apply returns_bind. intros m p2 [= <- <-]. apply returns_bind. intros d p2 E2. apply of_option_Done in E2 as [_ ->].
destruct (negb _); [apply returns_fail|]. intros a q Eq. apply IH in Eq as [Hq Ho]; [|done]. split; [done|].
eapply onlyConn_trans; [apply onlyConn_upd|exact Ho].
Qed.

Lemma exchange_agrees rv ro p : merged p = mg -> all fresh (comm_ p) ->
returns p (connectExchange dev nQpsPerDev rv ro) (fun _ q => all (agreed nQpsPerDev v rv) (comm_ q) /\ onlyConn p q).
Proof.
intros Hmg Ha. unfold connectExchange. apply returns_bind. intros [] p1 E. apply onConn_Done in E as (c & E & ->).
assert (all fresh c) as Hc by (refine (triple_Done _ _ _ _ _ _ (proj2 (oooFlags_keep fresh ro _)) Ha E); done).
apply returns_bind. intros v' p2 E2. apply bind_Done in E2 as (q & q1 & [= <- <-] & E2). apply of_option_Done in E2 as [E2 ->].
cbn in E2. rewrite Hmg, Hv in E2. injection E2 as <-. intros [] q E3. apply onConn_Done in E3 as (c' & E3 & ->).
split; [|by destruct p]. change (comm_ _) with c'. change (comm_ _) with c in E3.
refine (triple_Done (all fresh) _ (fun _ => all (agreed nQpsPerDev v rv)) _ _ _ _ Hc E3).
eapply triple_bind; [apply setVProps_sets|]. intros []. apply setNqps_agrees.
Qed.

(** The metadata starts empty; what is agreed on does not depend on it. *)
Lemma zeroMeta_agreed rv n c c' : all (agreed nQpsPerDev v rv) c ->
modMeta (fun _ => Some (zeroMetadata <| md_ndevs := n |>)) c = (Done tt, c') -> all (agreed nQpsPerDev v rv) c'.
Proof. intros Ha [= <-] i. exact (Ha i). Qed.

(** The communicator, from the device list of the peer to the metadata. *)
Lemma speed_facts i : pres (factsOf i) speedBuffer.
Proof. apply pres_speedBuffer; [apply outside_facts|done]. Qed.

Lemma connectMeta_facts i : pres (factsOf i) (connectMeta trafficClass envTrafficClass).
Proof. intros c. reflexivity. Qed.

Lemma recvDevs_ok : triple (inStage ncclIbCommStateRecvDevList sRecvDevs)
(ib_recv_dev_list trafficClass dev nQpsPerDev envTrafficClass) sPost.
Proof.
apply returns_triple. intros p (off & b & Est & buf & o & -> & F & Hoff & Hmg & Hout & Ha).
unfold ib_recv_dev_list. apply returns_bind. intros full p1 E.
eapply recvBuffer_fills in E as (off' & buf' & k & -> & F' & Ho' & Hlog & Hko & ->); [|done..].
destruct (off' =? sizeofDevList) eqn:Ef; [apply Z.eqb_eq in Ef as ->|]; cbn [negb].
2: { apply returns_ret. eapply post_recvDevs; [done|]. exists buf', o. cbn. rewrite Hko. split_and!; done. }
apply returns_bind. intros [] p2 E. apply modStage_Done in E as (st & E & ->). cbn in E. injection E as <-.
apply returns_bind. intros [rv ro] q E. apply readDevList_Done in E as (-> & st & b & E1 & E2 & Eb). cbn in E1. injection E1 as <-.
cbn in E2. injection E2 as <-. pose proof (readDevs_take _ _ _ _ _ F' Eb) as Hd.
apply returns_bind. intros [] p3 E. apply exchange_agrees in E as [Ha3 Ho3]; [|exact Hmg|exact Ha].
apply returns_bind. intros [] p4 E%checkGoto_Done. apply onConn_Done in E as (c4 & E & ->).
assert (all (agreed nQpsPerDev v rv) c4) as Ha4.
{ refine (triple_Done _ _ _ _ _ _ (triple_all _ _ _) Ha3 E). intros i. apply pres_connectDevs, outside_facts. }
clear E.
apply returns_bind. intros b5 p5 E5. apply onConn_Done in E5 as (c5 & [= <- <-] & ->).
apply returns_bind. intros [] p6 E6. apply onConn_Done in E6 as (c6 & E6 & ->).
pose proof (zeroMeta_agreed _ _ _ _ Ha4 E6) as Ha6.
apply returns_bind. intros [] p7 E%checkGoto_Done. apply onConn_Done in E as (c7 & E & ->).
pose proof (triple_Done _ _ _ _ _ _ (senderQpsCreate_announces nQpsPerDev v rv) Ha6 E) as Ha7. clear E.
apply returns_bind. intros [] p8 E8. apply devInfos_keep with (R := announcing nQpsPerDev v rv) in E8 as [Ha8 Ho8]; [|exact Ha7].
apply returns_bind. intros [] p9 E%checkGoto_Done. apply onConn_Done in E as (c9 & E & ->).
pose proof (triple_Done _ _ _ _ _ _ (triple_all _ _ speed_facts) Ha8 E) as Ha9.
apply returns_bind. intros [] p10 E10. apply onConn_Done in E10 as (c10 & E10 & ->).
pose proof (triple_Done _ _ _ _ _ _ (triple_all _ _ connectMeta_facts) Ha9 E10) as Ha10.
pose proof (triple_Done _ _ _ _ _ _ (connectMeta_addr trafficClass envTrafficClass) Logic.I E10) as Had.
rewrite Ho8, Ho3. clear Ho8 Ho3. 
apply returns_bind. intros [] p11 E11. apply modStage_Done in E11 as (st & E11 & ->). cbn in E11. injection E11 as <-.
apply returns_bind. intros m p12 [= <- <-]. cbn.
apply returns_bind. intros [] p13 E13. apply writeBuffer_Done in E13 as (st & b & E13 & Eb' & ->). cbn in E13. injection E13 as <-.
cbn in Eb'. injection Eb' as <-.
apply returns_of with (P := inStage ncclIbCommStateSend sSend); [apply send_ok|].
eexists 0, _. split; [done|]. eexists _, o, rv, ro. split; [done|]. rewrite slice_0. cbn.
split; [pose proof (take_memwrite buf' (MsgMeta (meta_ c10))) as Ht; by rewrite length_encode in Ht|].
split; [done|]. split; [exact (fi_nread _ _ _ _ F')|]. split; [done|]. split; [by rewrite Hko, app_nil_r|]. done.
Qed.

Lemma sendDevs_ok : triple (inStage ncclIbCommStateSendDevList sSendDevs)
(ib_send_dev_list trafficClass dev nQpsPerDev envTrafficClass) sPost.
Proof.
apply returns_triple. intros p (off & b & Est & buf & o & -> & Hb & Hoff & Hmg & Hn & Hout & Ha).
unfold ib_send_dev_list. apply returns_bind. intros full p1 E.
eapply sendBuffer_sends in E as (off' & k & -> & Ho' & Hko & Hlog & Hnr & ->);
[|exact Est|exact Hb|by rewrite length_devList|exact Hoff|exact Hout].
destruct (off' =? sizeofDevList) eqn:Ef; [apply Z.eqb_eq in Ef as ->|]; cbn [negb].
2: { apply returns_ret. eapply post_sendDevs; [done|]. exists buf, o. cbn. rewrite Hko, Hnr. split_and!; [done|exact Hb|apply Ho'|apply Ho'|done|done|done|exact Ha]. }
apply returns_bind. intros [] p2 E. apply modStage_Done in E as (st & E & ->). cbn in E. injection E as <-.
apply returns_of with (P := inStage ncclIbCommStateRecvDevList sRecvDevs); [apply recvDevs_ok|].
exists 0, (Some buf). split; [done|]. exists buf, o. cbn -[devList]. split; [done|].
split; [apply filled_start; [done|by rewrite Hnr|lia]|]. split_and!; done.
Qed.

Lemma check_ok : triple (inStage ncclIbCommStateConnect sConnect)
(ib_connect_check trafficClass dev nQpsPerDev envTrafficClass) sPost.
Proof.
apply returns_triple. intros p (off & b & Est & Hmg & Hc & Ha).
unfold ib_connect_check. apply returns_bind. intros rdy p1 E%checkGoto_Done. apply onSock_Done in E as (k & E & ->).
pose proof (triple_Done _ _ _ _ _ _ (ready_connects _ _ _ _) Hc E) as [Hk Hrdy]. destruct rdy; cbn [negb].
2: { apply returns_ret. by eapply post_connect. }
specialize (Hrdy eq_refl). pose proof (cn_state _ _ Hk) as Hout. rewrite Hrdy in Hout.
apply returns_bind. intros p1 q [= <- <-]. cbn. rewrite Hmg. destruct (_ <=? dev); [apply returns_fail|].
apply returns_bind. intros v' q E1. apply of_option_Done in E1 as [E1 ->]. rewrite Hv in E1. injection E1 as <-.
apply returns_bind. intros [] p2 E2. apply onConn_Done in E2 as (c2 & E2 & ->). apply setVProps_fresh in E2 as Ha2; [|exact Ha].
apply returns_bind. intros [] p3 E3. apply modStage_Done in E3 as (st & E3 & ->). cbn in E3. rewrite Est in E3. injection E3 as <-.
apply returns_bind. intros [] p4 E4%checkGoto_Done. eapply verb_keeps in E4 as [Ha4 E4]; [|done|exact Ha2].
apply returns_bind. intros [] p5 E5. apply modStage_Done in E5 as (st & E5 & ->). rewrite E4 in E5. cbn in E5. injection E5 as <-.
apply returns_bind. intros [] p6 E6. apply writeBuffer_Done in E6 as (st & b6 & E6 & Eb & ->). cbn in E6. injection E6 as <-.
cbn in Eb. injection Eb as <-.
apply returns_bind. intros o p7 E7. apply onConn_Done in E7 as (c7 & E7 & ->). apply localOoo_same in E7 as ->.
apply returns_bind. intros [] p8 E8. apply onConn_Done in E8 as (c8 & E8 & ->). apply ooo_fresh in E8 as Ha8; [|exact Ha4].
apply returns_bind. intros [] p9 E9. apply writeBuffer_Done in E9 as (st & b9 & E9 & Eb & ->). cbn in E9. injection E9 as <-.
cbn in Eb. injection Eb as <-. rewrite E4. cbn.
apply returns_of with (P := inStage ncclIbCommStateSendDevList sSendDevs); [apply sendDevs_ok|].
eexists 0, _. split; [done|]. eexists _, o. split; [done|]. split; [apply take_devList|].
cbn -[devList]. split; [done|]. split; [exact Hmg|]. split; [apply Hk|]. split; [by rewrite take_0, app_nil_r|done].
Qed.

Lemma start_ok : triple (inStage ncclIbCommStateStart sStart)
(connectStart handle trafficClass dev nQpsPerDev envTrafficClass) sPost.
Proof.
apply returns_triple. intros p (off & b & Est & Hmg & Hn & Hout & Hm).
unfold connectStart. apply returns_bind. intros [] p1 E1. apply modStage_Done in E1 as (st & E1 & ->). rewrite Est in E1. injection E1 as <-.
apply returns_bind. intros [] p2 E2. assert (noMods (comm_ p2)) as Hu by (intros i; rewrite (verb_mods MallocComm eq_refl i _ _ E2); exact (Hm i)).
apply onConn_Done in E2 as (c2 & E2 & ->). cbn in Hu.
apply returns_bind. intros [] p3 E3. apply onConn_Done in E3 as (c3 & E3 & ->).
apply returns_bind. intros [] p4 E4%checkGoto_Done. apply onConn_Done in E4 as (c4 & E4 & ->).
apply returns_bind. intros [] p5 E5. apply onConn_Done in E5 as (c5 & E5 & ->).
assert (all fresh c5) as Ha by exact (commInit_fresh _ _ _ _ _ _ (baseCommInit_inits _ _ _) Hu E3 E4 E5).
apply returns_bind. intros [] p6 E6%checkGoto_Done. apply onSock_Done in E6 as (k6 & E6 & ->).
apply socketInit_keeps in E6 as (Kc & Kt & Kf & Ko & Kn & _).
apply returns_bind. intros [] p7 E7. apply modStage_Done in E7 as (st & E7 & ->). cbn in E7. injection E7 as <-.
apply returns_bind. intros [] p8 E8%checkGoto_Done. apply onSock_Done in E8 as (k8 & E8 & ->). cbn in Ko, Kn, E8.
assert (connecting magic k8) as Hk.
{ refine (triple_Done _ _ _ _ _ _ (socketConnect_connects _ _ _ magic) _ E8). split_and!; [done..|by rewrite Kn|by rewrite Ko]. }
apply returns_of with (P := inStage ncclIbCommStateConnect sConnect); [apply check_ok|].
eexists off, _. by split.
Qed.

(** Whatever the stage it is called in. *)
Lemma connect_keeps : triple sInv (connectResume handle trafficClass dev nQpsPerDev envTrafficClass) sPost.
Proof.
apply returns_triple. intros p Hp. unfold connectResume. apply returns_bind. intros st p1 E. apply getStage_Done in E as [E ->].
destruct Hp as [Hp|[Hp|[Hp|[Hp|[Hp|[Hp|Hp]]]]]]; pose proof Hp as (off & b & Est & _); rewrite Est in E; injection E as <-; cbn.
all: eapply returns_of; [|exact Hp].
- apply start_ok.
- apply check_ok.
- apply sendDevs_ok.
- apply recvDevs_ok.
- apply send_ok.
- apply connect_ok.
- apply sendReady_ok.
Qed.
End Sender.
