(* ===== verification/HandshakeRecv.v ===== *)
(** * Handshake: the accepting end

    The invariant of [ncclIbAcceptImpl], stage by stage, as [HandshakeSend] has it for
    the connecting end: the greeting is read by [ncclSocketReady], then the devices of
    the peer, its metadata, and the word that it is ready. *)

From S2P Require Import Prelude NetTypes NetBase NetLemmas NetInv NetInit Resiliency Recovery ConnGid ConnTypes ConnQp ConnSetup Socket Connect ConnLogic ConnSetupSpec ConnDataSpec ConnAllSpec SocketSpec HandshakeBase.

Open Scope Z_scope.
Open Scope nccl_scope.

#[local] Opaque encode.

(** Where the messages of the connecting end start. *)
Definition atDevs : Z := 12.
Definition atMeta : Z := 49.
Definition atReady : Z := 49 + sizeofMeta.

(** The last message. *)
Definition readReady (base r : Z) (l : list Cell) : Prop :=
  base + 4 <= Z.of_nat (length l) /\ window l base 4 = encode (MsgReady r).

Section Receiver.
Context `{H : Host} (nQpsPerDev magic dev : Z).
Context (mg : list ncclNetVDeviceProps_t) (v : ncclNetVDeviceProps_t).
Context (Hv : zget mg dev = Some v).
Context (Hroute : ncclParamIbSubnetAwareRouting cprm = false).

(** The listener. *)
Definition listening (p : Peer) : Prop :=
merged p = mg /\ lcDev p = dev /\ sk_magic (lcSock p) = magic /\ sk_type (lcSock p) = ncclSocketTypeNetIb.

(** What holds of the socket between two calls. *)
Definition served (p : Peer) : Prop := live (script (sock_ p)) /\ logOk magic (inLog (sock_ p)).

Definition rNone (p : Peer) : Prop :=
stage_ p = None /\ listening p /\ nread (sock_ p) = 0 /\ out (sock_ p) = [] /\ noMods (comm_ p).

Definition rAccept (off : Z) (b : option (list Cell)) (p : Peer) : Prop :=
listening p /\ (exists buf, b = Some buf) /\ accepting magic (sock_ p) /\ all fresh (comm_ p).

Definition rRecvDevs (off : Z) (b : option (list Cell)) (p : Peer) : Prop :=
exists buf, b = Some buf /\ filled atDevs off buf (sock_ p) /\ off <= 37 /\ listening p /\ out (sock_ p) = []
/\ all fresh (comm_ p).

Definition rSendDevs (off : Z) (b : option (list Cell)) (p : Peer) : Prop :=
exists buf o rv ro, b = Some buf /\ take 37 buf = devList v o /\ 0 <= off <= 37 /\ nread (sock_ p) = atMeta
/\ readDevs atDevs rv ro (inLog (sock_ p)) /\ out (sock_ p) = take (Z.to_nat off) (devList v o)
/\ all (agreed nQpsPerDev v rv) (comm_ p).

Definition rRecv (off : Z) (b : option (list Cell)) (p : Peer) : Prop :=
exists buf o rv ro, b = Some buf /\ filled atMeta off buf (sock_ p) /\ off <= sizeofMeta
/\ readDevs atDevs rv ro (inLog (sock_ p)) /\ out (sock_ p) = devList v o /\ all (agreed nQpsPerDev v rv) (comm_ p).

(** The communicator is set up; [off] bytes of the metadata are sent. *)
Definition rDone (off : Z) (p : Peer) : Prop :=
exists o rv ro rm, readDevs atDevs rv ro (inLog (sock_ p)) /\ readMetadata atMeta rm (inLog (sock_ p))
/\ out (sock_ p) = devList v o ++ take (Z.to_nat off) (encode (MsgMeta (meta_ (comm_ p))))
/\ all (receiverReady nQpsPerDev rm v rv) (comm_ p) /\ addressed (comm_ p).

Definition rSend (off : Z) (b : option (list Cell)) (p : Peer) : Prop :=
exists buf, b = Some buf /\ slice buf sizeofMeta 0 = encode (MsgMeta (meta_ (comm_ p))) /\ 0 <= off <= sizeofMeta
/\ nread (sock_ p) = atReady /\ rDone off p.

Definition rPending (off : Z) (b : option (list Cell)) (p : Peer) : Prop :=
filled atReady off (readyBuf p) (sock_ p) /\ off <= 4 /\ rDone sizeofMeta p.

(** The communicator has been handed out. *)
Definition rReady (p : Peer) : Prop :=
rDone sizeofMeta p /\ readReady atReady (ready (base (net_ (comm_ p)))) (inLog (sock_ p)).

Definition rInv (p : Peer) : Prop :=
rNone p \/ inStage ncclIbCommStateAccept rAccept p \/ inStage ncclIbCommStateRecvDevList rRecvDevs p
\/ inStage ncclIbCommStateSendDevList rSendDevs p \/ inStage ncclIbCommStateRecv rRecv p
\/ inStage ncclIbCommStateSend rSend p \/ inStage ncclIbCommStatePendingReady rPending p.

Definition rPost (r : bool) (p : Peer) : Prop := if r then rReady p else rInv p.

Lemma post_accept off b p : stage_ p = Some (mkStage ncclIbCommStateAccept off b) -> rAccept off b p -> rPost false p.
Proof. intros E Hp. right. left. by exists off, b. Qed.
Lemma post_recvDevList off b p : stage_ p = Some (mkStage ncclIbCommStateRecvDevList off b) -> rRecvDevs off b p -> rPost false p.
Proof. intros E Hp. do 2 right. left. by exists off, b. Qed.
Lemma post_sendDevList off b p : stage_ p = Some (mkStage ncclIbCommStateSendDevList off b) -> rSendDevs off b p -> rPost false p.
Proof. intros E Hp. do 3 right. left. by exists off, b. Qed.
Lemma post_recv off b p : stage_ p = Some (mkStage ncclIbCommStateRecv off b) -> rRecv off b p -> rPost false p.
Proof. intros E Hp. do 4 right. left. by exists off, b. Qed.
Lemma post_sendMeta off b p : stage_ p = Some (mkStage ncclIbCommStateSend off b) -> rSend off b p -> rPost false p.
Proof. intros E Hp. do 5 right. left. by exists off, b. Qed.
Lemma post_pending off b p : stage_ p = Some (mkStage ncclIbCommStatePendingReady off b) -> rPending off b p -> rPost false p.
Proof. intros E Hp. do 6 right. by exists off, b. Qed.

Lemma recvReady_ok : triple (inStage ncclIbCommStatePendingReady rPending) ib_recv_ready rPost.
Proof.
apply returns_triple. intros p (off & b & Est & F & Hoff & o & rv & ro & rm & Hd & Hm & Hout & Ha & Had).
unfold ib_recv_ready. apply returns_bind. intros p0 p1 [= <- <-]. apply returns_bind. intros st p1 E.
apply getStage_Done in E as [E ->]. rewrite Est in E. injection E as <-.
apply returns_bind. intros [b' off'] p1 E%checkGoto_Done. apply onSock_Done in E as (k & E & ->). cbn [st_offset] in E.
destruct (progressRecv_fills _ _ _ _ _ _ _ _ E F Hoff) as (F' & Ho' & j & Hk).
apply returns_bind. intros [] p1 [= <-]. apply returns_bind. intros [] p1 E1. apply modStage_Done in E1 as (st & E1 & ->).
cbn in E1. rewrite Est in E1. injection E1 as <-.
assert (inLog k = inLog (sock_ p) /\ out k = out (sock_ p)) as [Hlog Hko] by (rewrite Hk; cbn; by rewrite app_nil_r).
assert (forall p', sock_ p' = k -> meta_ (comm_ p') = meta_ (comm_ p) -> selfAddr (comm_ p') = selfAddr (comm_ p) ->
all (receiverReady nQpsPerDev rm v rv) (comm_ p') -> rDone sizeofMeta p') as Hr.
{ intros p' Ek Em Es Ha'. exists o, rv, ro, rm. unfold addressed. rewrite Ek, Em, Es, Hlog, Hko. by split_and!. }
destruct (off' =? 4) eqn:E4; [apply Z.eqb_eq in E4 as ->|]; cbn [negb].
2: { apply returns_ret. eapply (post_pending off' b); [done|]. split; [done|]. split; [lia|]. by apply Hr. }
destruct (decode (slice b' 4 0)) as [[]|] eqn:D; try done. apply decode_Some in D.
apply returns_bind. intros [] p1 E2. apply onConn_Done in E2 as (c & E2 & ->). apply returns_bind. intros [] p1 [= <-].
apply returns_ret. split.
- pose proof E2 as [= <-]. by apply Hr.
- pose proof E2 as [= <-]. split; cbn.
+ rewrite Hlog. rewrite <- Hlog. apply F'.
+ rewrite <- (filled_full _ _ _ _ F'), D. done.
Qed.

Lemma acceptSend_ok : triple (inStage ncclIbCommStateSend rSend) accept_send rPost.
Proof.
apply returns_triple. intros p (off & b & Est & buf & -> & Hb & Hoff & Hn & o & rv & ro & rm & Hd & Hm & Hout & Ha & Had).
unfold accept_send. apply returns_bind. intros full p1 E%checkGoto_Done. rewrite slice_0 in Hb.
eapply sendBuffer_sends in E as (off' & k & -> & Ho' & Hko & Hlog & Hnr & ->);
[|exact Est|exact Hb|by rewrite length_encode|exact Hoff|exact Hout].
assert (forall p', sock_ p' = k -> comm_ p' = comm_ p -> rDone off' p') as Hr.
{ intros p' Ek Ec. exists o, rv, ro, rm. rewrite Ek, Ec, Hlog, Hko. by split_and!. }
destruct (off' =? sizeofMeta) eqn:Ef; [apply Z.eqb_eq in Ef as ->|]; cbn [negb].
2: { apply returns_ret. eapply post_sendMeta; [done|]. exists buf. rewrite slice_0. cbn.
 split; [done|]. split; [done|]. split; [done|]. split; [lia|]. by apply Hr. }
apply returns_bind. intros [] p2 E2. apply modStage_Done in E2 as (st & E2 & ->). cbn in E2. injection E2 as <-.
apply returns_bind. intros [] p3 [= <-].
apply returns_of with (P := inStage ncclIbCommStatePendingReady rPending); [apply recvReady_ok|].
exists 0, (Some buf). split; [done|]. split; [|split; [lia|by apply Hr]]. cbn.
apply filled_start; [done|by rewrite Hnr|]. rewrite Hlog. destruct Hm as [Hl _]. exact Hl.
Qed.

(** The devices. *)
Lemma acceptDevs_keep R n i link p : all R (comm_ p) ->
returns p (acceptDevs nQpsPerDev n i link) (fun _ q => all R (comm_ q) /\ q = p <| comm_ := comm_ q |>).
Proof.
revert i link p. induction n as [|n IH]; intros i link p Ha; [apply returns_ret; split; [done|by destruct p]|].
cbn [acceptDevs]. apply returns_bind. intros d p0 E. apply onConn_Done in E as (c0 & E & ->).
assert (forall j, outside (factsOf j)) as O by (intros; apply outside_facts).
pose proof (triple_Done _ _ _ _ _ _ (triple_all R _ (fun j => pres_vdevAt (factsOf j) i)) Ha E) as Ha0. clear E.
apply returns_bind. intros [] p1 E%checkGoto_Done. apply onConn_Done in E as (c1 & E & ->).
assert (all R c1) as Ha1.
{ refine (triple_Done _ _ _ _ _ _ (triple_all R _ _) Ha0 E). intros j.
pw; eauto using pres_hasRes, pres_initDevBase, pres_resDevInit, pres_withRes with pres. }
clear E. apply returns_bind. intros port p2 E. apply onConn_Done in E as (c2 & E & ->).
assert (all R c2) as Ha2 by (refine (triple_Done _ _ _ _ _ _ (triple_all R _ (fun j => pres_at _ _ _)) Ha1 E)).
destruct (negb _); [apply returns_fail|]. intros a q Eq. apply IH in Eq as [Hq Ho]; [|done]. split; [done|].
rewrite Ho. by destruct p.
Qed.

Lemma checkRemote_same rm link c c' : checkRemoteLink rm link c = (Done tt, c') -> c' = c.
Proof. intros E. assert (pres id (checkRemoteLink rm link)) as Hp by (unfold checkRemoteLink; pw). exact (pres_run _ _ _ _ _ Hp E). Qed.

(** From the peer's metadata to our own. *)
Lemma acceptParts_ready rm rv c c' c'' : all (agreed nQpsPerDev v rv) c ->
(acceptStore rm ;;; acceptQps rm ;;; acceptRegs rm) c = (Done tt, c') -> acceptMeta rm c' = (Done tt, c'') ->
all (receiverReady nQpsPerDev rm v rv) c'' /\ addressed c''.
Proof.
intros Ha E1 E2. refine (triple_Done _ _ _ _ _ _ (acceptMeta_keeps nQpsPerDev rm v rv) _ E2).
refine (triple_Done (all (agreed nQpsPerDev v rv)) _ (fun _ => all (receiverReady nQpsPerDev rm v rv)) _ _ _ _ Ha E1).
eapply triple_bind; [apply acceptStore_stores|]. intros []. eapply triple_bind; [apply acceptQps_join|]. intros [].
apply acceptRegs_readies.
Qed.

Lemma zeroMeta_agreedR rv c c' : all (agreed nQpsPerDev v rv) c ->
modMeta (fun _ => Some zeroMetadata) c = (Done tt, c') -> all (agreed nQpsPerDev v rv) c'.
Proof. intros Ha [= <-] i. exact (Ha i). Qed.

Lemma recv_ok : triple (inStage ncclIbCommStateRecv rRecv) (ib_recv nQpsPerDev) rPost.
Proof using Hroute.
apply returns_triple. intros p (off & b & Est & buf & o & rv & ro & -> & F & Hoff & Hd & Hout & Ha).
unfold ib_recv. apply returns_bind. intros full p1 E%checkGoto_Done.
eapply recvBuffer_fills in E as (off' & buf' & k & -> & F' & Ho' & Hlog & Hko & ->); [|done..].
destruct (off' =? sizeofMeta) eqn:Ef; [apply Z.eqb_eq in Ef as ->|]; cbn [negb].
2: { apply returns_ret. eapply post_recv; [done|]. exists buf', o, rv, ro. cbn. rewrite Hlog, Hko. by split_and!. }
apply returns_bind. intros rm q E. apply readMeta_Done in E as (-> & st & b & E1 & E2 & Eb). cbn in E1. injection E1 as <-.
cbn in E2. injection E2 as <-. pose proof (readMetadata_take _ _ _ _ F' Eb) as Hm.
apply returns_bind. intros [] p2 E. unfold acceptRoute in E. rewrite Hroute in E. injection E as <-.
apply returns_bind. intros [] p3 E3. apply onConn_Done in E3 as (c3 & E3 & ->). apply zeroMeta_agreedR with (rv := rv) in E3 as Ha3; [|exact Ha].
apply returns_bind. intros b3 p4 E4. apply onConn_Done in E4 as (c4 & [= <- <-] & ->).
apply returns_bind. intros link p5 E5. apply acceptDevs_keep with (R := agreed nQpsPerDev v rv) in E5 as [Ha5 Ho5]; [|exact Ha3].
rewrite Ho5. revert Ha5. generalize (comm_ p5). clear Ho5 p5. intros c5 Ha5.
apply returns_bind. intros [] p6 E6. apply onConn_Done in E6 as (c6 & E6 & ->). apply checkRemote_same in E6 as ->.
apply returns_bind. intros [] p7 E7%checkGoto_Done. apply onConn_Done in E7 as (c7 & E7 & ->).
apply returns_bind. intros [] p8 E8. apply onConn_Done in E8 as (c8 & E8 & ->). cbn in E7, E8.
destruct (acceptParts_ready rm rv _ _ _ Ha5 E7 E8) as [Ha8 Had8].
apply returns_bind. intros [] p9 E9. apply modStage_Done in E9 as (st & E9 & ->). cbn in E9. injection E9 as <-.
apply returns_bind. intros [] p10 E10. apply modStage_Done in E10 as (st & E10 & ->). cbn in E10. injection E10 as <-.
apply returns_bind. intros [] p11 E11%checkGoto_Done. pose proof E11 as E11'. pose proof E11 as E.
eapply verb_keeps in E11 as [Ha11 _]; [|done|exact Ha8].
apply onConn_Done in E as (c11 & _ & ->).
pose proof (verb_addressed _ _ _ E11' Had8) as Had11. cbn in Ha11, Had11.
apply returns_bind. intros [] p12 E12. apply modStage_Done in E12 as (st & E12 & ->). cbn in E12. injection E12 as <-.
apply returns_bind. intros m p13 [= <- <-]. cbn.
apply returns_bind. intros [] p14 E14. apply writeBuffer_Done in E14 as (st & b & E14 & Eb' & ->). cbn in E14. injection E14 as <-.
cbn in Eb'. injection Eb' as <-.
apply returns_of with (P := inStage ncclIbCommStateSend rSend); [apply acceptSend_ok|].
eexists 0, _. split; [done|]. eexists. split; [done|]. rewrite slice_0. cbn.
split; [pose proof (take_memwrite newBuffer (MsgMeta (meta_ c11))) as Ht; by rewrite length_encode in Ht|].
split; [done|]. split; [exact (fi_nread _ _ _ _ F')|]. exists o, rv, ro, rm. cbn.
split; [by rewrite Hlog|]. split; [done|]. split; [by rewrite Hko, app_nil_r|]. done.
Qed.

Lemma acceptSendDevs_ok : triple (inStage ncclIbCommStateSendDevList rSendDevs) (accept_send_dev_list nQpsPerDev) rPost.
Proof using Hroute.
apply returns_triple. intros p (off & b & Est & buf & o & rv & ro & -> & Hb & Hoff & Hn & Hd & Hout & Ha).
unfold accept_send_dev_list. apply returns_bind. intros full p1 E%checkGoto_Done.
eapply (sendBuffer_sends _ []) in E as (off' & k & -> & Ho' & Hko & Hlog & Hnr & ->);
[|exact Est|exact Hb|by rewrite length_devList|exact Hoff|exact Hout].
destruct (off' =? sizeofDevList) eqn:Ef; [apply Z.eqb_eq in Ef as ->|]; cbn [negb].
2: { apply returns_ret. eapply post_sendDevList; [done|]. exists buf, o, rv, ro. cbn -[devList]. rewrite Hko, Hnr, Hlog.
 split_and!; try done; apply Ho'. }
apply returns_bind. intros [] p2 E. apply modStage_Done in E as (st & E & ->). cbn in E. injection E as <-.
apply returns_of with (P := inStage ncclIbCommStateRecv rRecv); [apply recv_ok|].
exists 0, (Some buf). split; [done|]. exists buf, o, rv, ro. cbn -[devList]. split; [done|].
split; [apply filled_start; [done|by rewrite Hnr|rewrite Hlog; destruct Hd as [Hl _]; exact Hl]|].
rewrite Hlog. by split_and!.
Qed.

Lemma agreesWith c c1 c2 c3 rv ro : all fresh c -> modNetBase (fun b => b <| remOooRq := ro |>) c = (Done tt, c1) ->
setVProps v c1 = (Done tt, c2) ->
(setNqps nQpsPerDev v rv ;;; withRes (onNet (ncclIbResiliencyDeviceNumSet (vp_ndevs v) (vp_ndevs rv)))) c2 = (Done tt, c3) ->
all (agreed nQpsPerDev v rv) c3.
Proof.
intros Ha E1 E2 E3. assert (all fresh c1) as Ha1 by (refine (triple_Done _ _ _ _ _ _ (proj2 (oooFlags_keep fresh ro _)) Ha E1); done).
refine (triple_Done _ _ _ _ _ _ (setNqps_agrees nQpsPerDev v rv) _ E3).
exact (triple_Done _ _ _ _ _ _ (setVProps_sets v) Ha1 E2).
Qed.

Lemma ooo_agreed rv c c' o : all (agreed nQpsPerDev v rv) c -> modNetBase (fun b => b <| localOooRq := o |>) c = (Done tt, c') ->
all (agreed nQpsPerDev v rv) c'.
Proof. intros Ha E. refine (triple_Done _ _ _ _ _ _ (proj1 (oooFlags_keep (agreed nQpsPerDev v rv) o _)) Ha E). done. Qed.

Lemma acceptRecvDevs_ok : triple (inStage ncclIbCommStateRecvDevList rRecvDevs) (accept_recv_dev_list nQpsPerDev) rPost.
Proof using Hroute Hv.
apply returns_triple. intros p (off & b & Est & buf & -> & F & Hoff & Hl & Hout & Ha).
unfold accept_recv_dev_list. apply returns_bind. intros full p1 E.
eapply recvBuffer_fills in E as (off' & buf' & k & -> & F' & Ho' & Hlog & Hko & ->); [|done..].
destruct (off' =? sizeofDevList) eqn:Ef; [apply Z.eqb_eq in Ef as ->|]; cbn [negb].
2: { apply returns_ret. eapply post_recvDevList; [done|]. exists buf'. cbn. rewrite Hko. by split_and!. }
apply returns_bind. intros [rv ro] q E. apply readDevList_Done in E as (-> & st & b & E1 & E2 & Eb). cbn in E1. injection E1 as <-.
cbn in E2. injection E2 as <-. pose proof (readDevs_take _ _ _ _ _ F' Eb) as Hd.
destruct Hl as (Hmg & Hdev & Hmagic & Htype).
apply returns_bind. intros p1' q [= <- <-]. cbn. destruct (_ <=? lcDev p); [apply returns_fail|].
apply returns_bind. intros [] p3 E3. apply onConn_Done in E3 as (c3 & E3 & ->).
apply returns_bind. intros v' q E4. apply of_option_Done in E4 as [E4 ->]. rewrite Hmg, Hdev, Hv in E4. injection E4 as <-.
apply returns_bind. intros [] p5 E5. apply onConn_Done in E5 as (c5 & E5 & ->).
apply returns_bind. intros [] p6 E6. apply writeBuffer_Done in E6 as (st & b6 & E6 & Eb6 & ->). cbn in E6. injection E6 as <-.
cbn in Eb6. injection Eb6 as <-.
apply returns_bind. intros [] p7 E7. apply onConn_Done in E7 as (c7 & E7 & ->). cbn in E3, E5, E7.
pose proof (agreesWith _ _ _ _ _ _ Ha E3 E5 E7) as Ha7.
apply returns_bind. intros [] p8 E8. apply modStage_Done in E8 as (st & E8 & ->). cbn in E8. injection E8 as <-.
apply returns_bind. intros o p9 E9. apply onConn_Done in E9 as (c9 & E9 & ->). apply localOoo_same in E9 as ->.
apply returns_bind. intros [] p10 E10. apply onConn_Done in E10 as (c10 & E10 & ->).
pose proof (ooo_agreed _ _ _ _ Ha7 E10) as Ha10.
apply returns_bind. intros [] p11 E11. apply writeBuffer_Done in E11 as (st & b & E11 & Eb11 & ->). cbn in E11. injection E11 as <-.
cbn in Eb11. injection Eb11 as <-. cbn.
apply returns_of with (P := inStage ncclIbCommStateSendDevList rSendDevs); [apply acceptSendDevs_ok|].
eexists 0, _. split; [done|]. eexists _, o, rv, ro. split; [done|]. split; [apply take_devList|].
cbn -[devList]. split; [done|]. split; [exact (fi_nread _ _ _ _ F')|]. split; [done|]. rewrite Hko. by split_and!.
Qed.

Lemma acceptCheck_ok : triple (inStage ncclIbCommStateAccept rAccept) (ib_accept_check nQpsPerDev) rPost.
Proof using Hroute Hv.
apply returns_triple. intros p (off & b & Est & Hl & [buf ->] & Hc & Ha).
unfold ib_accept_check. apply returns_bind. intros rdy p1 E%checkGoto_Done. apply onSock_Done in E as (k & E & ->).
pose proof (triple_Done _ _ _ _ _ _ (ready_accepts _ _ _ _) Hc E) as [Hk Hrdy]. destruct rdy; cbn [negb].
2: { apply returns_ret. eapply post_accept; [done|]. split; [done|]. split; [by exists buf|]. by split. }
specialize (Hrdy eq_refl). pose proof (ac_state _ _ Hk) as Hst. rewrite Hrdy in Hst. destruct Hst as [Hn Hlen].
apply returns_bind. intros [] p2 E2. apply modStage_Done in E2 as (st & E2 & ->). cbn in E2. rewrite Est in E2. injection E2 as <-.
apply returns_of with (P := inStage ncclIbCommStateRecvDevList rRecvDevs); [apply acceptRecvDevs_ok|].
exists 0, (Some buf). split; [done|]. exists buf. cbn. split; [done|]. split; [by apply filled_start|].
split; [done|]. split; [exact Hl|]. split; [apply Hk|done].
Qed.

Lemma acceptStart_ok p b0 : stage_ p = Some (mkStage ncclIbCommStateStart 0 b0) -> listening p -> served p ->
nread (sock_ p) = 0 -> out (sock_ p) = [] -> noMods (comm_ p) -> returns p (acceptStart nQpsPerDev) rPost.
Proof using Hroute Hv.
intros Est Hl [Hlive Hlog] Hn Hout Hm. unfold acceptStart.
apply returns_bind. intros [] p2 E2. assert (noMods (comm_ p2)) as Hu.
{ intros i. rewrite (verb_mods MallocComm eq_refl i _ _ E2). apply Hm. }
apply onConn_Done in E2 as (c2 & E2 & ->). cbn in Hu.
apply returns_bind. intros [] p3 E3. apply onConn_Done in E3 as (c3 & E3 & ->).
apply returns_bind. intros [] p4 E4%checkGoto_Done. apply onConn_Done in E4 as (c4 & E4 & ->).
apply returns_bind. intros [] p5 E5. apply onConn_Done in E5 as (c5 & E5 & ->).
assert (all fresh c5) as Ha by exact (commInit_fresh _ _ _ _ _ _ (recvCommInit_inits _ _) Hu E3 E4 E5).
apply returns_bind. intros [] p6 E6. apply modStage_Done in E6 as (st & E6 & ->). cbn in E6. rewrite Est in E6. injection E6 as <-.
apply returns_bind. intros [] p7 E7%checkGoto_Done. apply onSock_Done in E7 as (k7 & E7 & ->).
apply socketInit_keeps in E7 as (_ & _ & Kf & Ko & Kn & Kl & Ks). cbn in Ko, Kn, Kl, Ks.
apply returns_bind. intros p7 q [= <- <-]. apply returns_bind. intros [] p8 E8%checkGoto_Done.
apply onSock_Done in E8 as (k8 & E8 & ->). cbn in E8. destruct Hl as (Hmg & Hdev & Hmagic & Htype).
assert (accepting magic k8) as Hk.
{ refine (triple_Done _ _ _ _ _ _ (socketAccept_accepts _ _ _ magic (lcSock p)) _ E8). rewrite Kl, Ks, Ko, Kn. by split_and!. }
apply returns_bind. intros [] p9 E9. apply modStage_Done in E9 as (st & E9 & ->). cbn in E9. injection E9 as <-.
apply returns_bind. intros [] p10 E10. eapply verb_keeps in E10 as [Ha10 Eo]; [|done|exact Ha].
apply returns_bind. intros [] p11 E11. apply modStage_Done in E11 as (st & E11 & ->). rewrite Eo in E11. cbn in E11. injection E11 as <-.
apply returns_of with (P := inStage ncclIbCommStateAccept rAccept); [apply acceptCheck_ok|].
eexists _, _. split; [done|]. rewrite Eo. split; [done|]. split; [by eexists|]. by split.
Qed.

Lemma accept_keeps : triple (fun p => rInv p /\ served p) (ncclIbAcceptImpl nQpsPerDev) rPost.
Proof using Hroute Hv.
apply returns_triple. intros p [Hp Hs]. unfold ncclIbAcceptImpl. apply returns_bind. intros p0 p1 [= <- <-].
destruct Hp as [(E0 & Hl & Hn & Hout & Hm)|Hp].
- rewrite E0. apply returns_bind. intros [] p1 E1. apply bind_Done in E1 as ([] & p2 & E2 & [= <-]).
apply returns_bind. intros st p3 E3. apply getStage_Done in E3 as [E3 ->]. injection E3 as <-. cbn [st_state freshStage].
assert (noMods (comm_ p2)) as Hu.
{ intros i. rewrite (verb_mods MallocStage eq_refl i _ _ E2). apply Hm. }
apply onConn_Done in E2 as (c2 & _ & ->). by apply acceptStart_ok with (b0 := None).
- assert (exists st, stage_ p = Some st) as [st Est].
{ destruct Hp as [Hp|[Hp|[Hp|[Hp|[Hp|Hp]]]]]; destruct Hp as (off & b & Est & _); eauto. }
rewrite Est. apply returns_bind. intros [] p1 [= <-]. apply returns_bind. intros st1 p1 E. apply getStage_Done in E as [E ->].
rewrite Est in E. injection E as <-.
destruct Hp as [Hp|[Hp|[Hp|[Hp|[Hp|Hp]]]]]; pose proof Hp as (off & b & E & _); rewrite Est in E; injection E as ->; cbn.
all: eapply returns_of; [|exact Hp].
+ apply acceptCheck_ok.
+ apply acceptRecvDevs_ok.
+ apply acceptSendDevs_ok.
+ apply recv_ok.
+ apply acceptSend_ok.
+ apply recvReady_ok.
Qed.
End Receiver.
