(* ===== verification/HandshakeFlow.v ===== *)
(** * Handshake: between two calls

    A call never takes back a byte it has sent nor touches what the peer has sent;
    and what a peer knows between two calls stays true when more bytes arrive. *)

From S2P Require Import Prelude NetTypes NetBase NetLemmas NetInv NetInit Resiliency Recovery ConnGid ConnTypes ConnQp ConnSetup Socket Connect ConnClose ConnLogic ConnSetupSpec ConnDataSpec ConnAllSpec SocketSpec HandshakeBase HandshakeSend HandshakeRecv.

Open Scope Z_scope.
Open Scope nccl_scope.

#[local] Opaque encode.

(** ** Every step within a relation *)

Definition within {S A} (R : S -> S -> Prop) (m : comp S A) : Prop := forall s, R s (snd (m s)).

Section Within.
Context {S : Type} (R : S -> S -> Prop) `{!PreOrder R}.

Lemma within_same {A} (m : comp S A) : (forall s, snd (m s) = s) -> within R m.
Proof. intros Hm s. by rewrite Hm. Qed.

Lemma within_ret {A} (a : A) : within R (ret a).
Proof. by intros s. Qed.
Lemma within_fail {A} r : within R (fail (A := A) r).
Proof. by intros s. Qed.
Lemma within_fault {A} : within R (fault (A := A)).
Proof. intros s. cbn. reflexivity. Qed.
Lemma within_getS : within R getS.
Proof. intros s. cbn. reflexivity. Qed.
Lemma within_gets {A} (f : S -> A) : within R (gets f).
Proof. by intros s. Qed.
Lemma within_of_option {A} (o : option A) : within R (of_option o).
Proof. destruct o; by intros s. Qed.
Lemma within_modify g : (forall s, R s (g s)) -> within R (modify g).
Proof. intros Hg s. apply Hg. Qed.

Lemma within_bind {A B} (m : comp S A) (k : A -> comp S B) : within R m -> (forall a, within R (k a)) -> within R (bind m k).
Proof.
intros Hm Hk s. unfold bind. specialize (Hm s). destruct (m s) as [[a|r|] s1]; [|done..].
etrans; [exact Hm|apply Hk].
Qed.

Lemma within_when b (m : comp S unit) : within R m -> within R (when b m).
Proof. intros Hm. destruct b; [exact Hm|apply within_ret]. Qed.
End Within.

Create HintDb within discriminated.
#[export] Hint Constants Opaque : within.
#[export] Hint Extern 0 (PreOrder _) => exact _ : within.
#[export] Hint Resolve within_ret within_fail within_fault within_getS within_gets within_of_option within_when : within.

Ltac wstep :=
  lazymatch goal with
  | |- within _ (bind _ _) => apply within_bind; [exact _| |intros ?]
  | |- within _ (when _ _) => apply within_when; [exact _|]
  | |- within _ (match ?x with _ => _ end) => destruct x
  | |- within _ (modify _) => apply within_modify; intros ?
  | |- within _ _ => first [solve [eauto with within]|fail 1]
  end.
Ltac ww := repeat wstep.

(** ** Bytes *)

Definition sends (s s' : ncclSocket) : Prop := inLog s' = inLog s /\ out s `prefix_of` out s'.

#[export] Instance sends_preorder : PreOrder sends.
Proof. split; [by intros s|]. intros s1 s2 s3 [E1 P1] [E2 P2]. split; [congruence|by etrans]. Qed.

Section Socks.
Context (retryCnt rcvBuf sndBuf : Z).

Lemma sends_pop : within sends pop.
Proof. unfold pop. by ww. Qed.
#[local] Hint Resolve sends_pop : within.

Lemma sends_syscall c : within sends (syscall c).
Proof. unfold syscall. ww. Qed.
Lemma sends_recv n : within sends (recv n).
Proof. unfold recv. by ww. Qed.
Lemma sends_send l : within sends (send l).
Proof. unfold send. ww. split; [done|]. by eexists. Qed.
#[local] Hint Resolve sends_syscall sends_recv sends_send : within.

Lemma sends_progressRecv n : within sends (progressRecv n).
Proof. unfold progressRecv. ww. Qed.
Lemma sends_progressSend l : within sends (progressSend l).
Proof. unfold progressSend. ww. Qed.
#[local] Hint Resolve sends_progressRecv sends_progressSend : within.

Lemma sends_ProgressRecv b n o : within sends (ncclSocketProgressRecv b n o).
Proof. unfold ncclSocketProgressRecv, socketProgressRecv. ww. Qed.
Lemma sends_ProgressSend b n o : within sends (ncclSocketProgressSend b n o).
Proof. unfold ncclSocketProgressSend, socketProgressSend. ww. Qed.
#[local] Hint Resolve sends_ProgressRecv sends_ProgressSend : within.

Lemma sends_setFlags : within sends (ncclOsSocketSetFlags rcvBuf sndBuf).
Proof. unfold ncclOsSocketSetFlags. ww. Qed.
Lemma sends_resetAccept : within sends ncclOsSocketResetAccept.
Proof. unfold ncclOsSocketResetAccept. by ww. Qed.
#[local] Hint Resolve sends_setFlags sends_resetAccept : within.
Lemma sends_resetFd : within sends (ncclOsSocketResetFd rcvBuf sndBuf).
Proof. unfold ncclOsSocketResetFd. by ww. Qed.
#[local] Hint Resolve sends_resetFd : within.
Lemma sends_connectCheck e : within sends (socketConnectCheck retryCnt rcvBuf sndBuf e).
Proof. unfold socketConnectCheck. by ww. Qed.
#[local] Hint Resolve sends_connectCheck : within.

Lemma sends_tryAccept : within sends (ncclOsSocketTryAccept retryCnt).
Proof. unfold ncclOsSocketTryAccept. by ww. Qed.
Lemma sends_startConnect : within sends (ncclOsSocketStartConnect retryCnt rcvBuf sndBuf).
Proof. unfold ncclOsSocketStartConnect. by ww. Qed.
Lemma sends_pollConnect : within sends (ncclOsSocketPollConnect retryCnt rcvBuf sndBuf).
Proof. unfold ncclOsSocketPollConnect. by ww. Qed.
#[local] Hint Resolve sends_tryAccept sends_startConnect sends_pollConnect : within.

Lemma sends_acceptType : within sends finalizeAcceptType.
Proof. unfold finalizeAcceptType, setCounter. by ww. Qed.
Lemma sends_connectType : within sends finalizeConnectType.
Proof. unfold finalizeConnectType, setCounter. by ww. Qed.
#[local] Hint Resolve sends_acceptType sends_connectType : within.
Lemma sends_finalizeAccept : within sends (socketFinalizeAccept rcvBuf sndBuf).
Proof. unfold socketFinalizeAccept, setCounter. by ww. Qed.
Lemma sends_finalizeConnect : within sends socketFinalizeConnect.
Proof. unfold socketFinalizeConnect, setCounter. by ww. Qed.
Lemma sends_inSockState st m : within sends m -> within sends (inSockState st m).
Proof. intros Hm. unfold inSockState. ww. Qed.
#[local] Hint Resolve sends_finalizeAccept sends_finalizeConnect sends_inSockState : within.

Lemma sends_progressState : within sends (socketProgressState retryCnt rcvBuf sndBuf).
Proof. unfold socketProgressState. ww. Qed.
#[local] Hint Resolve sends_progressState : within.

Lemma sends_toAccepting : within sends (modify (fun s => s <| sk_state := ncclSocketStateAccepting |>)).
Proof. by ww. Qed.
#[local] Hint Resolve sends_toAccepting : within.

Lemma sends_Ready : within sends (ncclSocketReady retryCnt rcvBuf sndBuf).
Proof. unfold ncclSocketReady. ww. Qed.
Lemma sends_Connect : within sends (ncclSocketConnect retryCnt rcvBuf sndBuf).
Proof. unfold ncclSocketConnect. by ww. Qed.
Lemma sends_Accept l : within sends (ncclSocketAccept retryCnt rcvBuf sndBuf l).
Proof. unfold ncclSocketAccept. by ww. Qed.
Lemma sends_Init a b c d : within sends (ncclSocketInit rcvBuf sndBuf a b c d).
Proof.
unfold ncclSocketInit. ww; [done|]. intros s. pose proof (sends_resetFd s) as Hs.
by destruct (ncclOsSocketResetFd rcvBuf sndBuf s) as [[]].
Qed.
End Socks.

#[export] Hint Resolve sends_ProgressRecv sends_ProgressSend sends_Ready sends_Connect sends_Accept sends_Init : within.

(** ** The operations of a peer *)

Definition flows (p p' : Peer) : Prop := sends (sock_ p) (sock_ p').

#[export] Instance flows_preorder : PreOrder flows.
Proof. split; [by intros p|]. intros p1 p2 p3 H1 H2. unfold flows in *. by etrans. Qed.

Lemma flows_onConn {A} (m : conn A) : within flows (onConn m).
Proof. intros p. unfold onConn. by destruct (m (comm_ p)). Qed.

Lemma flows_onSock {A} (m : sockM A) : within sends m -> within flows (onSock m).
Proof. intros Hm p. unfold onSock. specialize (Hm (sock_ p)). by destruct (m (sock_ p)). Qed.

Lemma flows_same {A} (m : peer A) : (forall p, sock_ (snd (m p)) = sock_ p) -> within flows m.
Proof. intros Hm p. unfold flows. by rewrite Hm. Qed.

Lemma flows_getStage : within flows getStage.
Proof. unfold getStage. ww. Qed.
Lemma flows_modStage g : within flows (modStage g).
Proof. unfold modStage. ww; [apply flows_getStage|done]. Qed.
#[export] Hint Resolve flows_onConn flows_onSock flows_getStage flows_modStage : within.

Lemma flows_goto st : within flows (goto_ st).
Proof. unfold goto_. ww. Qed.
Lemma flows_setOffset o : within flows (setOffset o).
Proof. unfold setOffset. ww. Qed.
Lemma flows_setBuffer b : within flows (setBuffer b).
Proof. unfold setBuffer. ww. Qed.
#[export] Hint Resolve flows_goto flows_setOffset flows_setBuffer : within.

Lemma flows_writeBuffer o m : within flows (writeBuffer o m).
Proof. unfold writeBuffer. ww. Qed.
Lemma flows_readDevList : within flows readDevList.
Proof. unfold readDevList. ww. Qed.
Lemma flows_readMeta : within flows readMeta.
Proof. unfold readMeta. ww. Qed.
#[export] Hint Resolve flows_writeBuffer flows_readDevList flows_readMeta : within.

Lemma flows_checkGoto {A} f (m : peer A) : within flows f -> within flows m -> within flows (checkGoto f m).
Proof.
  intros Hf Hm p. unfold checkGoto. specialize (Hm p). destruct (m p) as [[a|r|] p1]; cbn in *; [done| |done].
  specialize (Hf p1). destruct (f p1) as [[a|r'|] p2]; cbn in *; by etrans.
Qed.
#[export] Hint Resolve flows_checkGoto : within.

Section Peers.
Context `{H : Host}.

Lemma flows_sendBuffer n : within flows (sendBuffer n).
Proof. unfold sendBuffer. ww. Qed.
Lemma flows_recvBuffer n : within flows (recvBuffer n).
Proof. unfold recvBuffer. ww. Qed.
Lemma flows_connectExit : within flows connectExit.
Proof. unfold connectExit. ww. Qed.
Lemma flows_acceptExit : within flows acceptExit.
Proof. unfold acceptExit. by ww. Qed.
#[local] Hint Resolve flows_sendBuffer flows_recvBuffer flows_connectExit flows_acceptExit : within.

Lemma flows_connectFail : within flows connectFail.
Proof. unfold connectFail. ww. Qed.
Lemma flows_acceptFail : within flows acceptFail.
Proof. unfold acceptFail. ww. Qed.
#[local] Hint Resolve flows_connectFail flows_acceptFail : within.
Lemma flows_orFail {A} (m : peer A) : within flows m -> within flows (orFail m).
Proof. unfold orFail. auto with within. Qed.
Lemma flows_orFailA {A} (m : peer A) : within flows m -> within flows (orFailA m).
Proof. unfold orFailA. auto with within. Qed.
Lemma flows_verb c : within flows (verb c).
Proof. unfold verb. ww. Qed.
#[local] Hint Resolve flows_orFail flows_orFailA flows_verb : within.

Lemma flows_subnetRouting d g : within flows (subnetRouting d g).
Proof. unfold subnetRouting, ncclIbFindDevBySubnet. ww. Qed.
#[local] Hint Resolve flows_subnetRouting : within.

Section ConnectCall.
Context (handle : ncclIbHandle) (tc : option Z) (dev n env : Z).

Lemma flows_sendReady : within flows ib_send_ready.
Proof. unfold ib_send_ready. ww. Qed.
#[local] Hint Resolve flows_sendReady : within.
Lemma flows_connect : within flows ib_connect.
Proof. unfold ib_connect. ww. Qed.
#[local] Hint Resolve flows_connect : within.
Lemma flows_send : within flows ib_send.
Proof. unfold ib_send. ww. Qed.
#[local] Hint Resolve flows_send : within.
Lemma flows_connectDevInfos k i l : within flows (connectDevInfos k i l).
Proof. revert i l. induction k as [|k IH]; intros i l; cbn [connectDevInfos]; ww. Qed.
#[local] Hint Resolve flows_connectDevInfos : within.
Lemma flows_exchange v o : within flows (connectExchange dev n v o).
Proof. unfold connectExchange. ww. Qed.
#[local] Hint Resolve flows_exchange : within.
Lemma flows_recvDevs : within flows (ib_recv_dev_list tc dev n env).
Proof. unfold ib_recv_dev_list. ww. Qed.
#[local] Hint Resolve flows_recvDevs : within.
Lemma flows_sendDevs : within flows (ib_send_dev_list tc dev n env).
Proof. unfold ib_send_dev_list. ww. Qed.
#[local] Hint Resolve flows_sendDevs : within.
Lemma flows_connectCheck : within flows (ib_connect_check tc dev n env).
Proof. unfold ib_connect_check. ww. Qed.
#[local] Hint Resolve flows_connectCheck : within.
Lemma flows_connectStart : within flows (connectStart handle tc dev n env).
Proof. unfold connectStart. ww. Qed.
#[local] Hint Resolve flows_connectStart : within.
Lemma flows_connectResume : within flows (connectResume handle tc dev n env).
Proof. unfold connectResume. ww. Qed.
End ConnectCall.
#[local] Hint Resolve flows_connectResume : within.

Lemma flows_connectImpl h tc dev n env : within flows (ncclIbConnectImpl h tc dev n env).
Proof. unfold ncclIbConnectImpl. ww. Qed.

Section AcceptCall.
Context (n : Z).

Lemma flows_recvReady : within flows ib_recv_ready.
Proof. unfold ib_recv_ready. by ww. Qed.
#[local] Hint Resolve flows_recvReady : within.
Lemma flows_acceptSend : within flows accept_send.
Proof. unfold accept_send. by ww. Qed.
#[local] Hint Resolve flows_acceptSend : within.
Lemma flows_acceptDevs k i l : within flows (acceptDevs n k i l).
Proof. revert i l. induction k as [|k IH]; intros i l; cbn [acceptDevs]; ww. Qed.
Lemma flows_acceptRoute m : within flows (acceptRoute m).
Proof. unfold acceptRoute. by ww. Qed.
#[local] Hint Resolve flows_acceptDevs flows_acceptRoute : within.
Lemma flows_acceptRecv : within flows (ib_recv n).
Proof. unfold ib_recv. ww. Qed.
#[local] Hint Resolve flows_acceptRecv : within.
Lemma flows_acceptSendDevs : within flows (accept_send_dev_list n).
Proof. unfold accept_send_dev_list. ww. Qed.
#[local] Hint Resolve flows_acceptSendDevs : within.
Lemma flows_acceptRecvDevs : within flows (accept_recv_dev_list n).
Proof. unfold accept_recv_dev_list. ww. Qed.
#[local] Hint Resolve flows_acceptRecvDevs : within.
Lemma flows_acceptCheck : within flows (ib_accept_check n).
Proof. unfold ib_accept_check. ww. Qed.
#[local] Hint Resolve flows_acceptCheck : within.
Lemma flows_acceptStart : within flows (acceptStart n).
Proof. unfold acceptStart. ww. Qed.
#[local] Hint Resolve flows_acceptStart : within.
Lemma flows_acceptImpl : within flows (ncclIbAcceptImpl n).
Proof. unfold ncclIbAcceptImpl. by ww. Qed.
End AcceptCall.
End Peers.

(** ** More bytes arrive *)

(** The peer before a call: [l] is what its peer has sent by now, [k] what the kernel
    will answer. *)
Definition deliver (l : list Cell) (k : list KAns) (p : Peer) : Peer :=
  p <| sock_ := (sock_ p) <| inLog := l |> <| script := k |> |>.

Lemma inStage_impl st (P Q : Z -> option (list Cell) -> Peer -> Prop) l k p :
  (forall off b, P off b p -> Q off b (deliver l k p)) -> inStage st P p -> inStage st Q (deliver l k p).
Proof. intros Hpq (off & b & E & Hp). exists off, b. split; [exact E|]. by apply Hpq. Qed.

Lemma filled_deliver base off buf s l k : inLog s `prefix_of` l -> filled base off buf s ->
  filled base off buf (s <| inLog := l |> <| script := k |>).
Proof. intros Hp F. by eapply filled_grow. Qed.

#[local] Hint Resolve filled_deliver : core.

Lemma readReady_grow base r l l' : 0 <= base -> l `prefix_of` l' -> readReady base r l -> readReady base r l'.
Proof. intros Hb Hp [Hl Hw]. pose proof (prefix_length _ _ Hp). split; [lia|]. rewrite <- Hw. apply window_prefix; auto; lia. Qed.

Section More.
Context (l : list Cell) (k : list KAns).

Lemma sReady_more n v h off p : inLog (sock_ p) `prefix_of` l -> sReady h n v off p -> sReady h n v off (deliver l k p).
Proof.
intros Hp (o & rv & ro & rm & Hd & Hm & Hr). exists o, rv, ro, rm. split; [by eapply readDevs_grow|].
split; [by eapply readMetadata_grow|done].
Qed.

Lemma connecting_more mgc s : connecting mgc s -> connecting mgc (s <| inLog := l |> <| script := k |>).
Proof. intros []. by split. Qed.

Lemma sInv_more h n mg v p : inLog (sock_ p) `prefix_of` l -> sInv h n mg v p -> sInv h n mg v (deliver l k p).
Proof.
intros Hl Hs. unfold sInv.
destruct Hs as [Hs|[Hs|[Hs|[Hs|[Hs|[Hs|Hs]]]]]]; [left|do 1 right; left|do 2 right; left|do 3 right; left|do 4 right; left|do 5 right; left|do 6 right].
all: revert Hs; apply inStage_impl; intros off b.
- done.
- intros (Hmg & Hc & Ha). split; [done|]. split; [by apply connecting_more|done].
- done.
- intros (buf & o & -> & F & Hr). exists buf, o. split; [done|]. split; [by apply filled_deliver|done].
- intros (buf & o & rv & ro & -> & Hb & Ho & Hn & Hd & Hr). exists buf, o, rv, ro. do 4 (split; [done|]).
split; [by eapply readDevs_grow|done].
- intros (buf & o & rv & ro & -> & F & Ho & Hd & Hr). exists buf, o, rv, ro. split; [done|]. split; [by apply filled_deliver|].
split; [done|]. split; [by eapply readDevs_grow|done].
- intros [Ho Hr]. split; [done|]. by apply sReady_more.
Qed.

Lemma rDone_more n v off p : inLog (sock_ p) `prefix_of` l -> rDone n v off p -> rDone n v off (deliver l k p).
Proof.
intros Hp (o & rv & ro & rm & Hd & Hm & Hr). exists o, rv, ro, rm. split; [by eapply readDevs_grow|].
split; [by eapply readMetadata_grow|done].
Qed.

Lemma rReady_more n v p : inLog (sock_ p) `prefix_of` l -> rReady n v p -> rReady n v (deliver l k p).
Proof. intros Hp [Hd Hr]. split; [by apply rDone_more|]. by eapply readReady_grow. Qed.

Lemma accepting_more mgc s : inLog s `prefix_of` l -> live k -> logOk mgc l -> accepting mgc s ->
accepting mgc (s <| inLog := l |> <| script := k |>).
Proof.
intros Hp Hk Hl []. split; try done. cbn. pose proof (prefix_length _ _ Hp).
destruct (sk_state s); try done.
- destruct ac_state as [[? F]|[? F]]; [left|right]; (split; [done|]; by apply filled_deliver).
- destruct ac_state as [Hn Hlen]. split; [done|]. lia.
Qed.

Lemma rInv_more n mgc d mg v p : inLog (sock_ p) `prefix_of` l -> live k -> logOk mgc l -> rInv n mgc d mg v p ->
rInv n mgc d mg v (deliver l k p) /\ served mgc (deliver l k p).
Proof.
intros Hl Hk Hg Hs. split; [|by split]. unfold rInv.
destruct Hs as [Hs|[Hs|[Hs|[Hs|[Hs|[Hs|Hs]]]]]]; [left; exact Hs|do 1 right; left|do 2 right; left|do 3 right; left|do 4 right; left|do 5 right; left|do 6 right].
all: revert Hs; apply inStage_impl; intros off b.
- intros (Hli & Hb & Hc & Ha). do 2 (split; [done|]). split; [by apply accepting_more|done].
- intros (buf & -> & F & Hr). exists buf. split; [done|]. split; [by apply filled_deliver|done].
- intros (buf & o & rv & ro & -> & Hb & Ho & Hn & Hd & Hr). exists buf, o, rv, ro. do 4 (split; [done|]).
split; [by eapply readDevs_grow|done].
- intros (buf & o & rv & ro & -> & F & Ho & Hd & Hr). exists buf, o, rv, ro. split; [done|]. split; [by apply filled_deliver|].
split; [done|]. split; [by eapply readDevs_grow|done].
- intros (buf & -> & Hb & Ho & Hn & Hd). exists buf. do 4 (split; [done|]). by apply rDone_more.
- intros (F & Ho & Hd). split; [by apply filled_deliver|]. split; [done|]. by apply rDone_more.
Qed.
End More.
