(* ===== verification/HandshakeSpec.v ===== *)
(** * Handshake: two ends, verified

    A connecting and an accepting end whose calls interleave in any order, over a
    connection that delivers, at each call, any part of what the other has sent.  When
    both have handed out their communicator, queue pair [i] of each is connected to
    queue pair [i] of the other, and each knows the other's addresses and keys. *)

From S2P Require Import Prelude NetTypes NetBase NetLemmas NetInv NetInit NetSpec Resiliency Recovery ConnGid ConnTypes ConnQp ConnSetup Socket Connect ConnClose ConnLogic ConnSetupSpec ConnDataSpec ConnAllSpec SocketSpec HandshakeBase HandshakeSend HandshakeRecv HandshakeFlow.

Open Scope Z_scope.
Open Scope nccl_scope.

#[local] Opaque encode.

(** What the last call of an end returned: no communicator yet, the communicator, an error. *)
Inductive Status : Type := Running | Finished | Failed.

#[export] Instance Status_eq_dec : EqDecision Status.
Proof. solve_decision. Defined.

Definition statusOf (r : outcome bool) : Status :=
  match r with Done true => Finished | Done false => Running | _ => Failed end.

Record World := mkWorld { wa : Peer; wb : Peer; sa : Status; sb : Status }.

(** The arguments of the two ends; both use as many queue pairs per device. *)
Record Setting := mkSetting {
  hostA : Host;
  hostB : Host;
  theHandle : ncclIbHandle;
  tcA : option Z;
  devA : Z;
  envTcA : Z;
  devB : Z;
  qpsPerDev : Z;
}.

(** *** Messages in a log *)

Lemma window_mid a x b : window (a ++ x ++ b) (Z.of_nat (length a)) (Z.of_nat (length x)) = x.
Proof. unfold window. rewrite !Nat2Z.id, drop_app_length. apply take_app_length. Qed.

Lemma window_at l a x b base k : l = a ++ x ++ b -> base = Z.of_nat (length a) -> k = Z.of_nat (length x) -> window l base k = x.
Proof. intros -> -> ->. apply window_mid. Qed.

Lemma devList_inj v o v' o' : devList v o = devList v' o' -> v = v' /\ o = o'.
Proof.
  unfold devList. intros E. apply app_inj_1 in E as [E1 E2]; [|by rewrite !length_encode].
  apply encode_inj in E1, E2. split; congruence.
Qed.

Lemma readDevs_at l l' base a b v o v' o' : l `prefix_of` l' -> l' = a ++ devList v' o' ++ b -> base = Z.of_nat (length a) ->
  readDevs base v o l -> v = v'.
Proof.
  intros Hp El Hb Hd. apply (readDevs_grow _ _ _ _ l') in Hd as [_ Hw]; [|lia|done].
  rewrite (window_at _ _ (devList v' o') _ base 37 El Hb) in Hw by (by rewrite length_devList).
  by destruct (devList_inj _ _ _ _ Hw).
Qed.

Lemma readMetadata_at l l' base a b m m' : l `prefix_of` l' -> l' = a ++ encode (MsgMeta m') ++ b -> base = Z.of_nat (length a) ->
  readMetadata base m l -> m = m'.
Proof.
  intros Hp El Hb Hd. apply (readMetadata_grow _ _ _ l') in Hd as [_ Hw]; [|lia|done].
  rewrite (window_at _ _ (encode (MsgMeta m')) _ base sizeofMeta El Hb) in Hw by (by rewrite length_encode).
  apply encode_inj in Hw. congruence.
Qed.

Lemma readReady_at l l' base a b r r' : l `prefix_of` l' -> l' = a ++ encode (MsgReady r') ++ b -> base = Z.of_nat (length a) ->
  readReady base r l -> r = r'.
Proof.
  intros Hp El Hb Hd. apply (readReady_grow _ _ _ l') in Hd as [_ Hw]; [|lia|done].
  rewrite (window_at _ _ (encode (MsgReady r')) _ base 4 El Hb) in Hw by (by rewrite length_encode).
  apply encode_inj in Hw. congruence.
Qed.

(** *** Connected to each other *)

(** Queue pair [i] of [c] has been moved to RTS, towards queue pair [i] of [d]. *)
Definition qpJoined (c d : Conn) (i : Z) : Prop :=
  exists qc qd a0 a1 a2 rem ra,
    qpAt i c = Some qc /\ qpAt i d = Some qd
    /\ modsOf (Data, i) c = [a0; a1; a2] /\ map qp_state [a0; a1; a2] = [IBV_QPS_INIT; IBV_QPS_RTR; IBV_QPS_RTS]
    /\ qa_dest_qp_num a1 = qpn qd /\ devIndex qc = stripeOf (ndevsOf c) i /\ remDevIdx qc = devIndex qd
    /\ zget (md_devs (meta_ d)) (devIndex qd) = Some rem /\ qa_ah a1 = rtrAddress ra
    /\ ra_remoteGid ra = di_gid rem /\ ra_remoteLid ra = di_lid rem.

(** [c] sends and [d] receives. *)
Record linked (c d : Conn) : Prop := {
  lk_nqps : nqps (base (net_ c)) = nqps (base (net_ d));
  lk_data : nDataQps (base (net_ c)) = nDataQps (base (net_ d));
  lk_qps : forall i, 0 <= i < nqps (base (net_ c)) -> qpJoined c d i /\ qpJoined d c i;
  lk_cmpls : exists ks, tailKey (NetTypes.tail (net_ c)) = (true, selfAddr d, ks)
    /\ forall j, 0 <= j < md_ndevs (meta_ d) -> exists x, zget (md_devs (meta_ d)) j = Some x /\ zget ks j = Some (di_rkey x);
  lk_cts : tailKey (NetTypes.tail (net_ d)) = (false, selfAddr c, []);
  lk_keysC : remKeys (meta_ d) (md_ndevs (meta_ d)) (remDevs (base (net_ c)));
  lk_keysD : remKeys (meta_ c) (md_ndevs (meta_ c)) (remDevs (base (net_ d)));
  lk_ready : ready (base (net_ c)) = 1 /\ ready (base (net_ d)) = 1;
}.

Lemma joined_slot m nd i c d : joined (meta_ d) (stripeOf (ndevsOf c) i) i (slotView i c) ->
  joined m nd i (slotView i d) -> qpJoined c d i.
Proof.
  intros (info & rem & Ei & Er & qc & a0 & a1 & a2 & Ev & Hdev & Hrem & H0 & H1 & H2 & Hq & ra & Hah & Hl & Hg & Hlid).
  intros (info' & rem' & _ & _ & qd & b0 & b1 & b2 & Ed & Hdd & _).
  unfold slotView in Ev, Ed. injection Ev as Eq Ea Em. injection Ed as Eq' Ea' _.
  unfold announcedAt, infoAt in Ea'. rewrite Ei in Ea'. injection Ea' as Hqpn Hdi.
  assert (qi_devIndex info = devIndex qd) as Hx by congruence.
  exists qc, qd, a0, a1, a2, rem, ra. rewrite <- Hx. split_and!; try done; try congruence. cbn. congruence.
Qed.

Section Two.
Context (e : Setting).

Definition theConnect : peer bool :=
@ncclIbConnectImpl (hostA e) (theHandle e) (tcA e) (devA e) (qpsPerDev e) (envTcA e).
Definition theAccept : peer bool := @ncclIbAcceptImpl (hostB e) (qpsPerDev e).

Definition connectCall (l : list Cell) (k : list KAns) (w : World) : World :=
let '(r, p) := theConnect (deliver l k (wa w)) in
mkWorld p (wb w) (statusOf r) (sb w).

Definition acceptCall (l : list Cell) (k : list KAns) (w : World) : World :=
let '(r, p) := theAccept (deliver l k (wb w)) in
mkWorld (wa w) p (sa w) (statusOf r).

(** A call of an end that runs, after more of what the other has sent has arrived. *)
Inductive step : World -> World -> Prop :=
| step_connect l k w : sa w = Running -> inLog (sock_ (wa w)) `prefix_of` l -> l `prefix_of` out (sock_ (wb w)) -> live k ->
step w (connectCall l k w)
| step_accept l k w : sb w = Running -> inLog (sock_ (wb w)) `prefix_of` l -> l `prefix_of` out (sock_ (wa w)) -> live k ->
step w (acceptCall l k w).

(** No queue pair of this communicator touched, nothing read nor sent. *)
Definition unused (p : Peer) : Prop := nread (sock_ p) = 0 /\ out (sock_ p) = [] /\ inLog (sock_ p) = [] /\ noMods (comm_ p).

(** The connecting end has the handle that [ncclIbListen] returned. *)
Definition start (w : World) : Prop :=
sa w = Running /\ sb w = Running /\ unused (wa w) /\ stage_ (wa w) = Some freshStage
/\ exists p0, unused p0 /\ @ncclIbListen (hostB e) (devB e) (h_magic (theHandle e)) p0 = (Done (theHandle e), wb w).

(** *** Listening *)

Lemma onListenSock_Done {A} (m : sockM A) p a p' : onListenSock m p = (Done a, p') ->
exists k, m (lcSock p) = (Done a, k) /\ p' = p <| lcSock := k |>.
Proof. unfold onListenSock. destruct (m (lcSock p)) as [o c]. intros [= -> <-]. by exists c. Qed.

Lemma socketListen_keeps s s' : ncclSocketListen s = (Done tt, s') -> sk_magic s' = sk_magic s /\ sk_type s' = sk_type s.
Proof.
unfold ncclSocketListen, bind at 1, getS. destruct (negb (sk_fd s)); [done|].
intros E%bind_syscall%bind_syscall%bind_syscall. by injection E as <-.
Qed.

Lemma listen_listens `{H : Host} dev magic p0 h p :
ncclParamIbSubnetAwareRouting cprm = false -> ncclIbListen dev magic p0 = (Done h, p) -> unused p0 ->
unused p /\ rNone magic dev (merged p0) p /\ merged p = merged p0.
Proof.
intros Hr E (Hn & Ho & Hi & Hm). unfold ncclIbListen in E.
apply bind_Done in E as ([] & p1 & E1 & E). assert (noMods (comm_ p1)) as Hm1.
{ intros i. rewrite (verb_mods MallocComm eq_refl i _ _ E1). apply Hm. }
apply onConn_Done in E1 as (c1 & _ & ->). cbn in Hm1. apply bind_Done in E as ([] & p2 & [= <-] & E).
apply checkGoto_Done in E. apply bind_Done in E as ([] & p3 & E3 & E). apply onListenSock_Done in E3 as (k3 & E3 & ->).
apply socketInit_keeps in E3 as (Kc & Kt & _). cbn in E.
apply bind_Done in E as ([] & p4 & E4 & E). apply onListenSock_Done in E4 as (k4 & E4 & ->).
apply socketListen_keeps in E4 as [Kc4 Kt4]. cbn in Kc4, Kt4.
apply bind_Done in E as (rdy & p5 & [= <- <-] & E). cbn in E. destruct (isReady k4); [|done].
apply bind_Done in E as ([] & p6 & [= <-] & E). unfold bind, getS in E. rewrite Hr in E. injection E as _ <-.
split; [by split_and!|]. split; [|done]. split; [done|]. split; [|done]. split; [done|]. split; [done|].
cbn. rewrite Kc4, Kt4. done.
Qed.

(** *** What the connecting end has sent so far *)

Lemma logOk_prefix mgc l l' : l `prefix_of` l' -> logOk mgc l' -> logOk mgc l.
Proof. intros [k ->] H. unfold logOk in *. etrans; [|exact H]. rewrite take_app. by eexists. Qed.

Lemma logOk_hello mgc l : logOk mgc (hello mgc ++ l).
Proof. unfold logOk. rewrite <- (length_hello mgc). by rewrite take_app_length. Qed.

Lemma logOk_part mgc l : l `prefix_of` hello mgc -> logOk mgc l.
Proof. intros Hp. unfold logOk. etrans; [apply prefix_take|exact Hp]. Qed.

Lemma connecting_log mgc s : connecting mgc s -> logOk mgc (out s).
Proof.
intros [_ _ _ Hst]. destruct (sk_state s); try done; try (destruct Hst as [_ ->]; apply logOk_part, prefix_nil).
- destruct Hst as [[_ ->]|[_ ->]]; apply logOk_part; unfold hello.
+ etrans; [apply prefix_take|]. by eexists.
+ apply prefix_app, prefix_take.
- rewrite Hst. by apply logOk_part.
Qed.

Lemma sInv_log h n mg v p : sInv h n mg v p -> logOk (h_magic h) (out (sock_ p)).
Proof.
intros [Hs|[Hs|[Hs|[Hs|[Hs|[Hs|Hs]]]]]]; destruct Hs as (off & b & _ & Hp).
- destruct Hp as (_ & _ & -> & _). apply logOk_part, prefix_nil.
- destruct Hp as (_ & Hc & _). by apply connecting_log.
- destruct Hp as (buf & o & _ & _ & _ & _ & _ & -> & _). apply logOk_hello.
- destruct Hp as (buf & o & _ & _ & _ & _ & -> & _). apply logOk_hello.
- destruct Hp as (buf & o & rv & ro & _ & _ & _ & _ & _ & -> & _). apply logOk_hello.
- destruct Hp as (buf & o & rv & ro & _ & _ & _ & _ & -> & _). apply logOk_hello.
- destruct Hp as (_ & o & rv & ro & rm & _ & _ & -> & _). apply logOk_hello.
Qed.

Lemma sReady_log h n v off p : sReady h n v off p -> logOk (h_magic h) (out (sock_ p)).
Proof. intros (o & rv & ro & rm & _ & _ & -> & _). apply logOk_hello. Qed.

(** Whoever has sent the last message is ready. *)
Lemma connecting_len mgc s : connecting mgc s -> (length (out s) <= 12)%nat.
Proof.
intros [_ _ _ Hst]. destruct (sk_state s); try done; try (destruct Hst as [_ ->]; cbn; lia).
- destruct Hst as [[Hc ->]|[Hc ->]]; rewrite ?length_app, length_take, ?length_encode; cbn; lia.
- rewrite Hst, length_hello. lia.
Qed.

Lemma said_ready h n mg v p : sInv h n mg v p -> atReady + 4 <= Z.of_nat (length (out (sock_ p))) -> sReady h n v 4 p.
Proof.
intros Hs. unfold atReady. change (49 + sizeofMeta + 4) with (12 + 37 + sizeofMeta + 4).
assert (0 < sizeofMeta) as Hpos by done.
destruct Hs as [Hs|[Hs|[Hs|[Hs|[Hs|[Hs|Hs]]]]]]; destruct Hs as (off & b & _ & Hp).
- destruct Hp as (_ & _ & -> & _). cbn. lia.
- destruct Hp as (_ & Hc & _). pose proof (connecting_len _ _ Hc). lia.
- destruct Hp as (buf & o & _ & _ & _ & _ & _ & -> & _). rewrite length_app, length_hello, length_take, length_devList. lia.
- destruct Hp as (buf & o & _ & _ & _ & _ & -> & _). rewrite length_app, length_hello, length_devList. lia.
- destruct Hp as (buf & o & rv & ro & _ & _ & _ & _ & _ & -> & _).
rewrite !length_app, length_hello, length_devList, length_take, length_encode. cbn [msgSize]. lia.
- destruct Hp as (buf & o & rv & ro & _ & _ & _ & _ & -> & _).
rewrite !length_app, length_hello, length_devList, length_encode. cbn [msgSize]. lia.
- destruct Hp as (Ho & o & rv & ro & rm & Hd & Hm & Hout & Hr). rewrite Hout.
rewrite !length_app, length_hello, length_devList, length_take, !length_encode. cbn [msgSize]. intros Hlen.
assert (off = 4) as -> by lia. by exists o, rv, ro, rm.
Qed.

(** *** The invariant of the two *)

Section Invariant.
Context (mgA mgB : list ncclNetVDeviceProps_t) (vA vB : ncclNetVDeviceProps_t).
Context (HvA : zget mgA (devA e) = Some vA) (HvB : zget mgB (devB e) = Some vB).
Context (HrA : ncclParamIbSubnetAwareRouting (@cprm (hostA e)) = false).
Context (HrB : ncclParamIbSubnetAwareRouting (@cprm (hostB e)) = false).

Notation n := (qpsPerDev e).
Notation magic := (h_magic (theHandle e)).

Definition aHolds (st : Status) (p : Peer) : Prop :=
match st with
| Running => sInv (theHandle e) n mgA vA p
| Finished => sReady (theHandle e) n vA 4 p
| Failed => False
end.

Definition bHolds (st : Status) (p : Peer) : Prop :=
match st with
| Running => rInv n magic (devB e) mgB vB p
| Finished => rReady n vB p
| Failed => False
end.

(** Once an end has failed nothing more is said. *)
Definition winv (w : World) : Prop :=
sa w = Failed \/ sb w = Failed \/
(aHolds (sa w) (wa w) /\ bHolds (sb w) (wb w)
 /\ inLog (sock_ (wa w)) `prefix_of` out (sock_ (wb w)) /\ inLog (sock_ (wb w)) `prefix_of` out (sock_ (wa w))).

Lemma aHolds_log st p : aHolds st p -> logOk magic (out (sock_ p)).
Proof. destruct st; [apply sInv_log|apply sReady_log|done]. Qed.

Lemma connectImpl_keeps p : sInv (theHandle e) n mgA vA p ->
match theConnect p with
| (r, p') => statusOf r = Failed \/ aHolds (statusOf r) p'
end.
Proof.
intros Hs. unfold theConnect, ncclIbConnectImpl. rewrite HrA. unfold bind, ret.
pose proof (connect_keeps (H := hostA e) (theHandle e) (tcA e) (devA e) n (envTcA e) mgA vA HvA p Hs) as Hk.
destruct (connectResume (theHandle e) (tcA e) (devA e) n (envTcA e) p) as [[[]|r|] p']; auto.
Qed.

Lemma acceptImpl_keeps p : rInv n magic (devB e) mgB vB p -> served magic p ->
match theAccept p with (r, p') => statusOf r = Failed \/ bHolds (statusOf r) p' end.
Proof.
intros Hi Hs. pose proof (accept_keeps (H := hostB e) n magic (devB e) mgB vB HvB HrB p (conj Hi Hs)) as Hk.
unfold theAccept. destruct (ncclIbAcceptImpl n p) as [[[]|r|] p']; auto.
Qed.

Lemma flows_theConnect : within flows theConnect.
Proof. apply flows_connectImpl. Qed.
Lemma flows_theAccept : within flows theAccept.
Proof. apply flows_acceptImpl. Qed.

Lemma step_winv w w' : step w w' -> winv w -> winv w'.
Proof.
intros Hstep [Hf|[Hf|(Ha & Hb & Hab & Hba)]]; destruct Hstep as [l k w Hr Hl Hl' Hk|l k w Hr Hl Hl' Hk]; try congruence.
- left. unfold acceptCall. by destruct (theAccept _).
- right. left. unfold connectCall. by destruct (theConnect _).
- rewrite Hr in Ha. pose proof (sInv_more l k _ _ _ _ _ Hl Ha) as Hm. apply connectImpl_keeps in Hm.
pose proof (flows_theConnect (deliver l k (wa w))) as Hfl.
unfold connectCall. destruct (theConnect _) as [r p']. destruct Hfl as [El Ho]. cbn in El, Ho.
destruct Hm as [Hm|Hm]; [by left|]. right. right. cbn. split; [done|]. split; [done|]. rewrite El. split; [done|]. by etrans.
- rewrite Hr in Hb. pose proof (logOk_prefix _ _ _ Hl' (aHolds_log _ _ Ha)) as Hg.
destruct (rInv_more l k _ _ _ _ _ _ Hl Hk Hg Hb) as [Hm Hs]. apply acceptImpl_keeps in Hm; [|exact Hs].
pose proof (flows_theAccept (deliver l k (wb w))) as Hfl.
unfold acceptCall. destruct (theAccept _) as [r p']. destruct Hfl as [El Ho]. cbn in El, Ho.
destruct Hm as [Hm|Hm]; [by right; left|]. right. right. cbn. split; [done|]. split; [done|]. rewrite El. split; [by etrans|done].
Qed.

Lemma start_winv w : start w -> merged (wa w) = mgA -> merged (wb w) = mgB -> winv w.
Proof.
intros (Ea & Eb & (Hn & Ho & Hi & Hm) & Est & p0 & Hu & El) HmA HmB. right. right. rewrite Ea, Eb.
destruct (listen_listens (H := hostB e) _ _ _ _ _ HrB El Hu) as ((Hn' & Ho' & Hi' & Hm') & Hl & Em).
split; [|split; [|rewrite Hi, Hi'; split; apply prefix_nil]].
- left. exists 0, None. split; [exact Est|]. by split_and!.
- left. by rewrite <- HmB, Em.
Qed.

Lemma reach_winv w w' : rtc step w w' -> winv w -> winv w'.
Proof. induction 1 as [w|w1 w2 w3 Hs _ IH]; [done|]. intros Hw. by apply IH, (step_winv w1). Qed.


(** What the two have read when the accepting end has handed out its communicator. *)
Lemma finished_reads w : winv w -> sa w <> Failed -> sb w = Finished ->
all (senderReady n (meta_ (comm_ (wb w))) vA vB) (comm_ (wa w))
/\ all (receiverReady n (meta_ (comm_ (wa w))) vB vA) (comm_ (wb w))
/\ addressed (comm_ (wa w)) /\ addressed (comm_ (wb w)) /\ ready (base (net_ (comm_ (wb w)))) = 1.
Proof using.
intros [E|[E|(Ha & Hb & Hab & Hba)]] Ea Eb; try congruence. rewrite Eb in Hb.
destruct Hb as [(o' & rv' & ro' & rm' & Hd' & Hm' & Hout' & Hr & Had') Hrdy].
assert (sReady (theHandle e) n vA 4 (wa w)) as (o & rv & ro & rm & Hd & Hm & Hout & Hs & Had).
{ destruct (sa w); [|exact Ha|done]. eapply said_ready; [exact Ha|]. pose proof (prefix_length _ _ Hba).
destruct Hrdy as [Hlen _]. lia. }
rewrite (take_ge (encode (MsgReady 1))) in Hout by (by rewrite length_encode).
rewrite take_ge in Hout' by (by rewrite length_encode).
assert (rv = vB) as -> by (refine (readDevs_at _ _ _ [] _ _ _ _ _ Hab Hout' _ Hd); done).
assert (rm = meta_ (comm_ (wb w))) as ->.
{ eapply (readMetadata_at _ _ _ (devList vB o') []); [exact Hab|by rewrite app_nil_r| |exact Hm]. by rewrite length_devList. }
assert (rv' = vA) as ->.
{ eapply (readDevs_at _ _ _ (hello magic)); [exact Hba|exact Hout| |exact Hd']. by rewrite length_hello. }
assert (rm' = meta_ (comm_ (wa w))) as ->.
{ eapply (readMetadata_at _ _ _ (hello magic ++ devList vA o)); [exact Hba|by rewrite <- app_assoc; exact Hout| |exact Hm'].
by rewrite length_app, length_hello, length_devList. }
split; [exact Hs|]. split; [exact Hr|]. split; [done|]. split; [done|].
eapply (readReady_at _ _ _ (hello magic ++ devList vA o ++ encode (MsgMeta (meta_ (comm_ (wa w))))) []); [exact Hba| | |exact Hrdy].
- rewrite app_nil_r, <- !app_assoc. exact Hout.
- by rewrite !length_app, length_hello, length_devList, length_encode.
Qed.

Lemma nqpsFor_comm v v' : nqpsFor n v v' = nqpsFor n v' v.
Proof. unfold nqpsFor. lia. Qed.

(** The two facts together. *)
Lemma ready_links c d : 0 <= nqpsFor n vA vB < 2 ^ 32 ->
all (senderReady n (meta_ d) vA vB) c -> all (receiverReady n (meta_ c) vB vA) d ->
addressed c -> addressed d -> ready (base (net_ d)) = 1 -> linked c d.
Proof using.
intros Hq Hc Hd Hac Had Hrdy. unfold addressed in *.
destruct (Hc 0) as [[[((Kn & Kq & Kd & _) & _ & _) [Krn Krk]] Kt] Kr].
destruct (Hd 0) as [[((Ln & Lq & Ld & _) & _ & _) [Lrn Lrk]] Lt]. cbn [factsOf fc_core fc_tail] in *.
split.
- etrans; [exact Kq|]. etrans; [|symmetry; exact Lq]. apply nqpsFor_comm.
- etrans; [exact Kd|]. etrans; [|symmetry; exact Ld]. lia.
- intros i Hi. assert (nqps (base (net_ c)) = nqpsFor n vA vB) as Eq by exact Kq. rewrite Eq in Hi.
assert (u32 (nqpsFor n vA vB) = nqpsFor n vA vB) as Eu by (apply Z.mod_small; lia).
destruct (Hc i) as [[[(_ & _ & Sc) _] _] _], (Hd i) as [[(_ & _ & Sd) _] _].
rewrite Eu in Sc. rewrite nqpsFor_comm, Eu in Sd. specialize (Sc Hi). specialize (Sd Hi). cbn [factsOf fc_slot] in *.
assert (ndevsOf c = vp_ndevs vA /\ ndevsOf d = vp_ndevs vB) as [En En'] by (split; [exact Kn|exact Ln]).
split; eapply joined_slot; rewrite ?En, ?En'; eassumption.
- rewrite <- Had. destruct Kt as (ks & Et & Hks). exists ks. by split.
- rewrite <- Hac. exact Lt.
- exact Krk.
- exact Lrk.
- split; [exact Kr|exact Hrdy].
Qed.

(** The tables the data path starts from. *)
Lemma slot_table S v v' c : 1 <= n -> 1 <= vp_ndevs v <= NCCL_IB_MAX_DEVS_PER_NIC -> 1 <= vp_ndevs v' <= NCCL_IB_MAX_DEVS_PER_NIC ->
nqpsFor n v v' < 2 ^ 32 -> all (slotsAre n S v v') c ->
(forall i x, 0 <= i < nqpsFor n v v' -> S i x -> exists qp, fst (fst x) = Some qp /\ 0 <= devIndex qp < vp_ndevs v
 /\ 0 <= remDevIdx qp < NCCL_IB_MAX_DEVS_PER_NIC) ->
qps_ready (base (net_ c)).
Proof using.
intros Hn Hv Hv' Hq Ha HS. destruct (Ha 0) as ((Kn & Kq & Kd & Ka) & Hlen & _). cbn [factsOf fc_core fc_len] in *.
assert (ndevs (base (net_ c)) = vp_ndevs v) as En by exact Kn. assert (nqps (base (net_ c)) = nqpsFor n v v') as Eq by exact Kq.
assert (nDataQps (base (net_ c)) = Z.max (vp_ndevs v) (vp_ndevs v')) as Ed by exact Kd.
assert (activeQps (base (net_ c)) = map Some (zrange NCCL_IB_MAX_QPS)) as Ea by exact Ka.
assert (1 <= vp_ndevs v /\ vp_ndevs v <= nqpsFor n v v' /\ vp_ndevs v' <= nqpsFor n v v') as (H1 & H2 & H3) by (unfold nqpsFor; nia).
assert (forall i, 0 <= i < nqpsFor n v v' -> S i (slotView i c)) as Hs.
{ intros i Hi. destruct (Ha i) as (_ & _ & Hs). apply Hs. unfold u32, wrapU. rewrite Z.mod_small; [done|]. change (2 ^ 32) with 4294967296 in *. lia. }
assert (nqpsFor n v v' <= NCCL_IB_MAX_QPS) as Hmax.
{ assert (0 <= nqpsFor n v v' - 1 < nqpsFor n v v') as Hi by lia.
destruct (HS _ _ Hi (Hs _ Hi)) as (qp & E & _). apply zget_Some in E. unfold qpsLen in Hlen. lia. }
split; rewrite ?En, ?Eq, ?Ed, ?Ea; try lia.
- intros k Hk. exists k. split; [|done]. change (map Some (zrange NCCL_IB_MAX_QPS)) with (Some <$> zrange NCCL_IB_MAX_QPS).
rewrite zget_fmap. rewrite <- (Z2Nat.id k), zget_lookup, zrange_lookup by lia. cbn. do 2 f_equal; lia.
- intros q Hq'. destruct (HS q _ Hq' (Hs q Hq')) as (qp & E & Hqp). exists qp. split; [exact E|]. rewrite ?En. exact Hqp.
Qed.

Lemma stripe_range v i : 1 <= vp_ndevs v <= NCCL_IB_MAX_DEVS_PER_NIC -> 0 <= stripeOf (vp_ndevs v) i < vp_ndevs v.
Proof using.
intros Hv. unfold stripeOf. assert (u32 (vp_ndevs v) = vp_ndevs v) as ->.
{ apply Z.mod_small. unfold NCCL_IB_MAX_DEVS_PER_NIC in Hv. lia. }
apply Z.mod_pos_bound. lia.
Qed.

(** A joined slot names devices of the two ends. *)
Lemma joined_range v v' m i d x : 1 <= vp_ndevs v <= NCCL_IB_MAX_DEVS_PER_NIC -> 1 <= vp_ndevs v' <= NCCL_IB_MAX_DEVS_PER_NIC ->
joined m (stripeOf (vp_ndevs v') i) i (slotView i d) -> joined (meta_ d) (stripeOf (vp_ndevs v) i) i x ->
exists qp, fst (fst x) = Some qp /\ 0 <= devIndex qp < vp_ndevs v /\ 0 <= remDevIdx qp < NCCL_IB_MAX_DEVS_PER_NIC.
Proof using.
intros Hv Hv' (info' & rem' & _ & _ & qd & b0 & b1 & b2 & Ed & _).
intros (info & rem & Ei & _ & qc & a0 & a1 & a2 & -> & Hdev & Hrem & _). exists qc. split; [done|].
unfold slotView in Ed. injection Ed as _ Ea _. unfold announcedAt, infoAt in Ea. rewrite Ei in Ea. injection Ea as _ Hdi.
pose proof (stripe_range v i Hv). pose proof (stripe_range v' i Hv'). rewrite Hdev, Hrem, Hdi. lia.
Qed.

Lemma ready_tables c d : 1 <= n -> 1 <= vp_ndevs vA <= NCCL_IB_MAX_DEVS_PER_NIC -> 1 <= vp_ndevs vB <= NCCL_IB_MAX_DEVS_PER_NIC ->
nqpsFor n vA vB < 2 ^ 32 ->
all (senderReady n (meta_ d) vA vB) c -> all (receiverReady n (meta_ c) vB vA) d ->
qps_ready (base (net_ c)) /\ qps_ready (base (net_ d)).
Proof using.
intros Hn HA HB Hq Hc Hd.
assert (all (joining n (meta_ d) vA vB) c) as Jc by (intros i; apply Hc).
assert (all (joining n (meta_ c) vB vA) d) as Jd by (intros i; apply Hd).
assert (forall i, 0 <= i < nqpsFor n vA vB -> u32 (nqpsFor n vA vB) = nqpsFor n vA vB) as Eu.
{ intros i Hi. apply Z.mod_small. lia. }
split.
- eapply slot_table; [exact Hn|exact HA|exact HB|exact Hq|exact Jc|]. intros i x Hi Hx.
destruct (Jd i) as (_ & _ & Sd). rewrite nqpsFor_comm, (Eu i Hi) in Sd. eapply joined_range; [exact HA|exact HB|exact (Sd Hi)|exact Hx].
- rewrite nqpsFor_comm in Hq. rewrite nqpsFor_comm in Eu. eapply slot_table; [exact Hn|exact HB|exact HA|exact Hq|exact Jd|]. intros i x Hi Hx.
destruct (Jc i) as (_ & _ & Sc). rewrite nqpsFor_comm, (Eu i Hi) in Sc. eapply joined_range; [exact HB|exact HA|exact (Sc Hi)|exact Hx].
Qed.
End Invariant.
End Two.

(** What the two ends have in common before the first call. *)
Record setUp (e : Setting) (w : World) (vA vB : ncclNetVDeviceProps_t) : Prop := {
  su_start : start e w;
  su_A : zget (merged (wa w)) (devA e) = Some vA;
  su_B : zget (merged (wb w)) (devB e) = Some vB;
  su_routeA : ncclParamIbSubnetAwareRouting (@cprm (hostA e)) = false;
  su_routeB : ncclParamIbSubnetAwareRouting (@cprm (hostB e)) = false;
  su_qps : 1 <= qpsPerDev e;
  su_devsA : 1 <= vp_ndevs vA <= NCCL_IB_MAX_DEVS_PER_NIC;
  su_devsB : 1 <= vp_ndevs vB <= NCCL_IB_MAX_DEVS_PER_NIC;
  su_int : nqpsFor (qpsPerDev e) vA vB < 2 ^ 31;
}.

Lemma setUp_reads e w w' vA vB : setUp e w vA vB -> rtc (step e) w w' -> sa w' <> Failed -> sb w' = Finished ->
  all (senderReady (qpsPerDev e) (meta_ (comm_ (wb w'))) vA vB) (comm_ (wa w'))
  /\ all (receiverReady (qpsPerDev e) (meta_ (comm_ (wa w'))) vB vA) (comm_ (wb w'))
  /\ addressed (comm_ (wa w')) /\ addressed (comm_ (wb w')) /\ ready (base (net_ (comm_ (wb w')))) = 1.
Proof.
  intros [] Hs Ha Hb. eapply finished_reads; [|done..].
  eapply reach_winv; [done..|]. eapply start_winv; done.
Qed.

Lemma nqps_range n vA vB : 1 <= n -> 1 <= vp_ndevs vA -> 0 <= nqpsFor n vA vB.
Proof. unfold nqpsFor. nia. Qed.

(** C3. However the calls of [ncclIbConnectImpl] and [ncclIbAcceptImpl] interleave and
    however the connection cuts what they send, once the accepting end has handed out
    its communicator and the connecting end has returned no error, the two
    communicators are linked: they agree on the number of queue pairs; each queue pair
    [i] of either end has been moved INIT, RTR, RTS with the number, the device, the
    GID and the LID of queue pair [i] of the other; each end has the address and the
    keys of the other; and both are ready. *)
Theorem handshake_links e w w' vA vB :
  setUp e w vA vB -> rtc (step e) w w' -> sa w' <> Failed -> sb w' = Finished -> linked (comm_ (wa w')) (comm_ (wb w')).
Proof.
  intros Hu Hs Ha Hb. destruct (setUp_reads _ _ _ _ _ Hu Hs Ha Hb) as (Hc & Hd & Hac & Had & Hr).
  destruct Hu. pose proof (nqps_range _ vA vB su_qps0 (proj1 su_devsA0)). apply (ready_links e vA vB); try done. lia.
Qed.

(** C5. At that moment the queue-pair tables of both ends are what the data path
    relies on ([qps_ready]): at most [NCCL_IB_MAX_QPS] queue pairs, every active entry
    one of them, and the devices of every queue pair devices of the two ends. *)
Theorem handshake_tables e w w' vA vB :
  setUp e w vA vB -> rtc (step e) w w' -> sa w' <> Failed -> sb w' = Finished ->
  qps_ready (base (net_ (comm_ (wa w')))) /\ qps_ready (base (net_ (comm_ (wb w')))).
Proof.
  intros Hu Hs Ha Hb. destruct (setUp_reads _ _ _ _ _ Hu Hs Ha Hb) as (Hc & Hd & _).
  destruct Hu. apply (ready_tables e vA vB); try done. lia.
Qed.
