(* ===== verification/HandshakeDemo.v ===== *)
(** * Handshake: a concrete connection

    A sender with one device and a receiver with two, two queue pairs per device: the
    calls of the two ends, the connection delivering everything at once. *)

From S2P Require Import Prelude NetTypes NetBase NetDemo NetInv NetInit NetSpec ConnGid ConnTypes ConnQp ConnSetup Socket Connect ConnClose ConnLogic ConnSetupSpec ConnDataSpec ConnAllSpec SocketSpec HandshakeBase HandshakeSend HandshakeRecv HandshakeFlow HandshakeSpec.

Open Scope Z_scope.
Open Scope nccl_scope.

Module HandDemo.

Definition gids : GidParams := mkGidParams (-1) 0 2 0 0xffff 64 None None.
Definition connParams : ConnParams := mkConnParams 20 7 true (-1) (-1) false 20 false 0 0 0 false false gids.
Definition initParams : InitParams := mkInitParams 0 0 (-2) 0 0.

(** Numbers and keys count the calls. *)
Definition answers (l : list Call) (c : Call) : option Answer :=
let k := Z.of_nat (length l) in Some (mkAnswer (100 + k) (200 + k) zeroEce false).

Definition noTables : PortTables := mkPortTables (fun _ => None) (fun _ => None) (fun _ => Some 0xffff).

Definition theProvider : Provider := mkProvider answers (fun _ _ => noTables) (fun _ => 0) (fun _ => false).

Definition host : Host :=
mkHost connParams initParams theProvider (mkMachine Demo.params Demo.acceptAll) (fun _ _ => None) None 35 0 0.

Definition port (lid : Z) : IbPort :=
mkIbPort 1 false 0 false true 0 (mkPortAttr 5 lid 2 0 4 1) false (mkGidInfo 2 (mkGid 0 0 0xffff lid) 3).

Definition conn0 (addr : Z) (lids : list Z) : Conn :=
mkConn (mkNet zeroBase [] (SendTail (zeroSend 0)) (map (fun _ => mkIbDev 200000 0) lids) 0 [])
[] [] [] [] [] [] [] [] None 0 0 addr (addr + 64) (addr + 128) zeroMetadata (map port lids) [].

Definition sock0 : ncclSocket :=
mkSocket false false 0 ncclSocketStateNone 0 0 false 0 (many 8 Zero) [] [] 0 [].

Definition peer0 (addr : Z) (lids : list Z) (stage : option ncclIbCommStage) : Peer :=
mkPeer (conn0 addr lids) sock0 stage (-1) sock0 [] [mkVProps (Z.of_nat (length lids)) (zrange (Z.of_nat (length lids)))].

Definition magic : Z := 0xbeef.

(** The listener, and the handle it gives. *)
Definition listener : outcome ncclIbHandle * Peer := @ncclIbListen host 0 magic (peer0 0x8000 [21; 22] None).

Definition handle : ncclIbHandle := mkHandle magic [zeroGid; zeroGid].

Definition setting : Setting := mkSetting host host handle None 0 (-1) 0 2.

Definition world0 : World := mkWorld (peer0 0x4000 [11] (Some freshStage)) (snd listener) Running Running.

(** The connection is there at once, and moves as much as is asked. *)
Definition moves : list KAns := many 20 (KMoved 10000).

Definition callA (k : list KAns) (w : World) : World := connectCall setting (out (sock_ (wb w))) k w.
Definition callB (k : list KAns) (w : World) : World := acceptCall setting (out (sock_ (wa w))) k w.

(** One call of each end, then the next. *)
Definition run (w : World) (l : list (bool * list KAns)) : World :=
fold_left (fun (w : World) (c : bool * list KAns) => if fst c then callA (snd c) w else callB (snd c) w) l w.

Definition turns : list (bool * list KAns) :=
[(true, KConnect None :: moves); (false, KAccept None :: moves); (true, moves); (false, moves); (true, moves); (false, moves)].

Definition world6 : World := run world0 turns.

End HandDemo.

Lemma listener_listens :
  @ncclIbListen (hostB HandDemo.setting) (devB HandDemo.setting) (h_magic (theHandle HandDemo.setting)) (HandDemo.peer0 0x8000 [21; 22] None)
  = (Done (theHandle HandDemo.setting), wb HandDemo.world0).
Proof. vm_compute. reflexivity. Qed.

Lemma demo_start : start HandDemo.setting HandDemo.world0.
Proof.
  split; [exact eq_refl|]. split; [exact eq_refl|]. split; [split_and!; try exact eq_refl; intros i; exact eq_refl|].
  split; [exact eq_refl|]. exists (HandDemo.peer0 0x8000 [21; 22] None).
  split; [split_and!; try exact eq_refl; intros i; exact eq_refl|]. exact listener_listens.
Qed.

Lemma demo_setUp : setUp HandDemo.setting HandDemo.world0 (mkVProps 1 [0]) (mkVProps 2 [0; 1]).
Proof.
  split; [exact demo_start|exact eq_refl|exact eq_refl|exact eq_refl|exact eq_refl| | | |].
  all: cbn; unfold NCCL_IB_MAX_DEVS_PER_NIC, nqpsFor; cbn; lia.
Qed.

(** Every call is of an end that runs, the other has not failed, and the kernel closes nothing. *)
Fixpoint mayTurn (w : World) (l : list (bool * list KAns)) : bool :=
  match l with
  | [] => bool_decide (sa w = Finished) && bool_decide (sb w = Finished)
  | (true, k) :: l => bool_decide (sa w = Running) && bool_decide (sb w <> Failed)
      && forallb (fun a => match a with KClosed | KIoError _ => false | _ => true end) k && mayTurn (HandDemo.callA k w) l
  | (false, k) :: l => bool_decide (sb w = Running) && bool_decide (sa w <> Failed)
      && forallb (fun a => match a with KClosed | KIoError _ => false | _ => true end) k && mayTurn (HandDemo.callB k w) l
  end.

Lemma demo_turns : mayTurn HandDemo.world0 HandDemo.turns = true.
Proof. vm_compute. reflexivity. Qed.

Lemma demo_live k : forallb (fun a => match a with KClosed | KIoError _ => false | _ => true end) k = true -> live k.
Proof. intros Hk. apply Forall_forall. intros x Hx. rewrite forallb_forall in Hk. apply list_elem_of_In in Hx. specialize (Hk _ Hx). by destruct x. Qed.

Section Steps.
Notation e := HandDemo.setting.
Notation vA := (mkVProps 1 [0]).
Notation vB := (mkVProps 2 [0; 1]).

(** Both ends going on: a call that gets all the other has sent is a step. *)
Definition going (w : World) : Prop := winv e [vA] [vB] vA vB w /\ rtc (step e) HandDemo.world0 w.

Lemma going_logs w : going w -> sa w <> Failed -> sb w <> Failed ->
inLog (sock_ (wa w)) `prefix_of` out (sock_ (wb w)) /\ inLog (sock_ (wb w)) `prefix_of` out (sock_ (wa w)).
Proof. intros [[E|[E|(_ & _ & Hp)]] _] Ha Hb; done. Qed.

Lemma going_step w w' : going w -> step e w w' -> going w'.
Proof.
intros [Hw Hr] Hs. split; [|by eapply rtc_r]. by eapply (step_winv e [vA] [vB] vA vB); [..|exact Hs|exact Hw].
Qed.

Lemma run_reaches l w : mayTurn w l = true -> going w ->
rtc (step e) HandDemo.world0 (HandDemo.run w l) /\ sa (HandDemo.run w l) <> Failed /\ sb (HandDemo.run w l) = Finished.
Proof.
revert w. induction l as [|[[] k] l IH]; intros w Hm Hg; cbn [mayTurn] in Hm; rewrite !andb_true_iff, ?bool_decide_eq_true in Hm.
- destruct Hm as [Ea Eb]. split; [apply Hg|]. cbn. by rewrite Ea.
- destruct Hm as [[[Ea Eb] Hk%demo_live] Hm]. apply (IH _ Hm). destruct (going_logs w Hg) as [H1 H2]; [by rewrite Ea|done|].
eapply going_step; [exact Hg|]. by apply step_connect.
- destruct Hm as [[[Eb Ea] Hk%demo_live] Hm]. apply (IH _ Hm). destruct (going_logs w Hg) as [H1 H2]; [done|by rewrite Eb|].
eapply going_step; [exact Hg|]. by apply step_accept.
Qed.

Lemma going_world0 : going HandDemo.world0.
Proof.
split; [|apply rtc_refl]. apply start_winv; first [exact demo_start|exact eq_refl].
Qed.

Lemma demo_reaches : rtc (step e) HandDemo.world0 HandDemo.world6 /\ sa HandDemo.world6 <> Failed /\ sb HandDemo.world6 = Finished.
Proof. exact (run_reaches HandDemo.turns HandDemo.world0 demo_turns going_world0). Qed.

Lemma handshake_links_witness : linked (comm_ (wa HandDemo.world6)) (comm_ (wb HandDemo.world6)).
Proof.
apply (handshake_links e HandDemo.world0 HandDemo.world6 vA vB);
[exact demo_setUp|apply demo_reaches|apply demo_reaches|apply demo_reaches].
Defined.

Lemma handshake_tables_witness : qps_ready (base (net_ (comm_ (wa HandDemo.world6)))) /\ qps_ready (base (net_ (comm_ (wb HandDemo.world6)))).
Proof.
apply (handshake_tables e HandDemo.world0 HandDemo.world6 vA vB);
[exact demo_setUp|apply demo_reaches|apply demo_reaches|apply demo_reaches].
Defined.
End Steps.
