(* ===== verification/LatMon.v ===== *)
(** * Transport: the latency monitor ([wqe_lat_mon.cc])

    Each queue pair has a monitor ([ncclIbWqeLatMon]) that follows one work request at
    a time from its post to its completion, keeps mean, variance and four quantiles of
    what it measured (the P-square estimator: five markers, no samples), and says when
    a request was slow or has not completed for long.  Times are nanoseconds of one
    clock, the argument of the operations that read it.  The text of the reports and the
    peer's name in it are left out: a report is the fact that it is made. *)

From S2P Require Import Prelude CFloat NetTypes NetBase.

Open Scope Z_scope.
Open Scope nccl_scope.

Definition NCCL_IB_WQE_LAT_NUM_PCTL : Z := 4.
Definition kReportIntervalNs : Z := 1000000000.
Definition kPctlTargets : list double := [0.50%dbl; 0.90%dbl; 0.99%dbl; 0.999%dbl].

(** [p2_p] is the quantile, [p2_q] the heights of the markers, [p2_n] their positions. *)
Record ncclIbP2Quantile := mkP2 { p2_p : double; p2_q : list double; p2_n : list Z }.

Record ncclIbWqeLatMon := mkLatMon {
  trackedPostNs : Z;
  pendingBefore : Z;
  inflight : Z;
  tracking : bool;
  lm_count : Z;
  meanNs : double;
  m2Ns : double;
  maxNs : Z;
  slowCount : Z;
  lm_p2 : list ncclIbP2Quantile;
  lastWarnNs : Z;
  lastStallWarnNs : Z;
}.

Record ncclIbWqeLatStats := mkLatStats {
  ls_count : Z;
  ls_slowCount : Z;
  ls_meanNs : double;
  ls_stddevNs : double;
  ls_maxNs : Z;
  ls_p50Ns : Z;
  ls_p90Ns : Z;
  ls_p99Ns : Z;
  ls_p999Ns : Z;
}.

#[export] Instance eta_P2 : Eta ncclIbP2Quantile := fun r => mkP2 (p2_p r) (p2_q r) (p2_n r).
#[export] Instance eta_LatMon : Eta ncclIbWqeLatMon := fun r =>
  mkLatMon (trackedPostNs r) (pendingBefore r) (inflight r) (tracking r) (lm_count r) (meanNs r) (m2Ns r) (maxNs r)
    (slowCount r) (lm_p2 r) (lastWarnNs r) (lastStallWarnNs r).

(** ** Configuration *)

(** [ncclIbWqeLatEnabled], [ncclIbWqeLatThresholdNs], [ncclIbWqeLatReportEnabled]. *)
Record LatConfig := mkLatConfig { latEnabled : bool; thresholdNs : Z; reportEnabled : bool }.

Definition ensureInitialized (ncclParamIbWqeLatencyThresholdNs ncclParamIbWqeLatencyReport : Z) : LatConfig :=
  if ncclParamIbWqeLatencyThresholdNs <=? 0 then mkLatConfig false 0 false
  else mkLatConfig true (u64 ncclParamIbWqeLatencyThresholdNs) (negb (ncclParamIbWqeLatencyReport =? 0)).

(** ** The P-square estimator *)

Definition dzero : double := S754_zero false.

Definition p2Init (p : double) : ncclIbP2Quantile := mkP2 p (replicate 5 dzero) (replicate 5 0).

(** The inner loop of [p2SortAsc]: [a[j] > key] moves up, from [j] down; the result is
    the array and the place of the key. *)
Fixpoint shiftUp (key : double) (a : list double) (j : nat) : option (list double * Z) :=
  match j with
  | O => Some (a, 0)
  | Datatypes.S j' =>
      x ← a !! j';
      if dgt x key then a ← zset a (Z.of_nat j' + 1) x; shiftUp key a j'
      else Some (a, Z.of_nat j)
  end.

(** [key = a[i]], and its place among [a[0..i-1]]. *)
Definition insertAt (a : list double) (i : nat) : option (list double) :=
  key ← a !! i;
  '(a, j) ← shiftUp key a i;
  zset a j key.

Fixpoint sortFrom (n i : nat) (a : list double) : option (list double) :=
  match n with O => Some a | Datatypes.S n' => a ← insertAt a i; sortFrom n' (Datatypes.S i) a end.

Definition p2SortAsc (a : list double) (n : Z) : option (list double) := sortFrom (Z.to_nat (n - 1)) 1 a.

(** [for (i = 1; i < 5; i++) if (x < q[i]) { k = i - 1; break; }] *)
Fixpoint findCell (q : list double) (x : double) (n : nat) (i : Z) : option Z :=
  match n with
  | O => Some 0
  | Datatypes.S n' => y ← zget q i; if dlt x y then Some (i - 1) else findCell q x n' (i + 1)
  end.

(** The cell of [x]; the extreme markers move out to it. *)
Definition p2Cell (q : list double) (x : double) : option (list double * Z) :=
  q0 ← zget q 0;
  q4 ← zget q 4;
  if dlt x q0 then q ← zset q 0 x; Some (q, 0)
  else if dge x q4 then q ← zset q 4 x; Some (q, 3)
  else k ← findCell q x 4 1; Some (q, k).

(** [for (i = k + 1; i < 5; i++) n[i] += 1] *)
Definition bump (k : Z) (n : list Z) : list Z := imap (fun i x => if k <? Z.of_nat i then u64 (x + 1) else x) n.

(** The parabolic estimate, or the linear one. *)
Definition p2Height (s : Z) (ni nim1 nip1 qi qim1 qip1 : double) : double :=
  (let sd := dbl_of_Z s in
   let qNew := qi + (sd / (nip1 - nim1)) * ((ni - nim1 + sd) * (qip1 - qi) / (nip1 - ni)
                                            + (nip1 - ni - sd) * (qi - qim1) / (ni - nim1)) in
   if (qim1 <? qNew) && (qNew <? qip1) then qNew
   else if (s =? 1)%Z then qi + (qip1 - qi) / (nip1 - ni)
   else qi - (qi - qim1) / (ni - nim1))%dbl.

(** Marker [i], moved by at most one position. *)
Definition p2Adjust (count : Z) (f : double) (i : Z) (e : ncclIbP2Quantile) : option ncclIbP2Quantile :=
  n ← zget (p2_n e) i; nm ← zget (p2_n e) (i - 1); np ← zget (p2_n e) (i + 1);
  q ← zget (p2_q e) i; qm ← zget (p2_q e) (i - 1); qp ← zget (p2_q e) (i + 1);
  let ni := dbl_of_Z n in let nim1 := dbl_of_Z nm in let nip1 := dbl_of_Z np in
  let npi := (1.0%dbl + dbl_of_Z (u64 (count - 1)) * f)%dbl in
  let d := (npi - ni)%dbl in
  if (dge d 1.0%dbl && dgt (nip1 - ni)%dbl 1.0%dbl) || (dle d (-1.0)%dbl && dlt (nim1 - ni)%dbl (-1.0)%dbl) then
    let s := if dge d dzero then 1 else -1 in
    qs ← zset (p2_q e) i (p2Height s ni nim1 nip1 q qm qp);
    ns ← zset (p2_n e) i (u64 (n + s));
    Some (e <| p2_q := qs |> <| p2_n := ns |>)
  else Some e.

Definition p2Update (e : ncclIbP2Quantile) (x : double) (count : Z) : option ncclIbP2Quantile :=
  if count <=? 5 then
    q ← zset (p2_q e) (count - 1) x;
    if count =? 5 then q ← p2SortAsc q 5; Some (e <| p2_q := q |> <| p2_n := [1; 2; 3; 4; 5] |>)
    else Some (e <| p2_q := q |>)
  else
    let p := p2_p e in
    '(q, k) ← p2Cell (p2_q e) x;
    let e := e <| p2_q := q |> <| p2_n := bump k (p2_n e) |> in
    e ← p2Adjust count (p / 2.0)%dbl 1 e;
    e ← p2Adjust count p 2 e;
    p2Adjust count ((1.0 + p) / 2.0)%dbl 3 e.

(** [(int)ceil(p * n) - 1], kept within the samples. *)
Definition sampleIndex (p : double) (n : Z) : Z :=
  let idx := trunc (dceil (p * dbl_of_Z n)%dbl) - 1 in
  let idx := if idx <? 0 then 0 else idx in
  if n <=? idx then n - 1 else idx.

Definition p2Estimate (e : ncclIbP2Quantile) (count : Z) : option Z :=
  if count =? 0 then Some 0
  else
    v ← (if 5 <=? count then zget (p2_q e) 2
         else tmp ← p2SortAsc (take (Z.to_nat count) (p2_q e)) count; zget tmp (sampleIndex (p2_p e) count));
    Some (if dlt v dzero then 0 else trunc (v + 0.5)%dbl).

(** ** The monitor *)

Definition ncclIbWqeLatMonInit : ncclIbWqeLatMon :=
  mkLatMon 0 0 0 false 0 dzero dzero 0 0 (map p2Init kPctlTargets) 0 0.

(** One signalled work request of the chain, posted at [now]. *)
Definition stampOne (now : Z) (m : ncclIbWqeLatMon) : ncclIbWqeLatMon :=
  (if tracking m then m else m <| tracking := true |> <| trackedPostNs := now |> <| pendingBefore := inflight m |>)
    <| inflight := u32 (inflight m + 1) |>.

Definition ncclIbWqeLatMonStampSend (now : Z) (wrs : list SendWr) (m : ncclIbWqeLatMon) : ncclIbWqeLatMon :=
  fold_left (fun m w => if wr_signaled w then stampOne now m else m) wrs m.

Definition welfordUpdate (m : ncclIbWqeLatMon) (deltaNs : Z) : ncclIbWqeLatMon :=
  let count := u64 (lm_count m + 1) in
  let x := dbl_of_Z deltaNs in
  let delta := (x - meanNs m)%dbl in
  let mean := (meanNs m + delta / dbl_of_Z count)%dbl in
  m <| lm_count := count |> <| meanNs := mean |> <| m2Ns := (m2Ns m + delta * (x - mean))%dbl |>
    <| maxNs := if maxNs m <? deltaNs then deltaNs else maxNs m |>.

Definition stddev (m : ncclIbWqeLatMon) : double :=
  if 1 <? lm_count m then
    let var := (m2Ns m / dbl_of_Z (lm_count m - 1))%dbl in dsqrt (if dgt var dzero then var else dzero)
  else dzero.

(** [snapshotStats] *)
Definition ncclIbWqeLatMonSnapshot (m : ncclIbWqeLatMon) : option ncclIbWqeLatStats :=
  ps ← mapM_opt (fun i => e ← zget (lm_p2 m) i; p2Estimate e (lm_count m)) (zrange NCCL_IB_WQE_LAT_NUM_PCTL);
  match ps with
  | [p50; p90; p99; p999] =>
      Some (mkLatStats (lm_count m) (slowCount m) (meanNs m) (stddev m) (maxNs m) p50 p90 p99 p999)
  | _ => None
  end.

(** What a completion says: the result, the latency, the time of the post and the
    statistics with it (zeros when nothing is measured). *)
Record Measured := mkMeasured { ms_report : bool; ms_deltaNs : Z; ms_postNs : Z; ms_stats : ncclIbWqeLatStats }.
Definition notMeasured : Measured := mkMeasured false 0 0 (mkLatStats 0 0 dzero dzero 0 0 0 0 0).

(** At most one report per interval; [lastWarnNs] 0 means none yet. *)
Definition mayReport (last now : Z) : bool := (last =? 0) || (kReportIntervalNs <=? u64 (now - last)).

Definition recordSample (delta : Z) (m : ncclIbWqeLatMon) : option ncclIbWqeLatMon :=
  let m := welfordUpdate m delta in
  ps ← mapM_opt (fun e => p2Update e (dbl_of_Z delta) (lm_count m)) (lm_p2 m);
  Some (m <| lm_p2 := ps |>).

Definition ncclIbWqeLatMonOnComplete (cfg : LatConfig) (tPollNs : Z) (m : ncclIbWqeLatMon)
    : option (ncclIbWqeLatMon * Measured) :=
  let m := if 0 <? inflight m then m <| inflight := inflight m - 1 |> else m in
  if negb (tracking m) then Some (m, notMeasured)
  else if 0 <? pendingBefore m then Some (m <| pendingBefore := pendingBefore m - 1 |>, notMeasured)
  else
    let tPostNs := trackedPostNs m in
    let delta := if tPostNs <? tPollNs then tPollNs - tPostNs else 0 in
    m ← recordSample delta (m <| tracking := false |> <| trackedPostNs := 0 |>);
    st ← ncclIbWqeLatMonSnapshot m;
    if delta <=? thresholdNs cfg then Some (m, mkMeasured false delta tPostNs st)
    else
      let m := m <| slowCount := u64 (slowCount m + 1) |> in
      if negb (mayReport (lastWarnNs m) tPollNs) then Some (m, mkMeasured false delta tPostNs st)
      else Some (m <| lastWarnNs := tPollNs |>, mkMeasured true delta tPostNs st).

(** The result, the age and the requests under way; both are 0 while nothing is late. *)
Definition ncclIbWqeLatMonCheckStall (cfg : LatConfig) (nowNs : Z) (m : ncclIbWqeLatMon) : ncclIbWqeLatMon * (bool * Z * Z) :=
  if negb (tracking m) then (m, (false, 0, 0))
  else if nowNs <=? trackedPostNs m then (m, (false, 0, 0))
  else
    let age := nowNs - trackedPostNs m in
    if age <=? thresholdNs cfg then (m, (false, age, inflight m))
    else if negb (mayReport (lastStallWarnNs m) nowNs) then (m, (false, age, inflight m))
    else (m <| lastStallWarnNs := nowNs |>, (true, age, inflight m)).

(** ** The monitors of a communicator, one per queue pair *)

Definition isSendOpcode (o : wcOpcode) : bool :=
  match o with IBV_WC_SEND | IBV_WC_RDMA_WRITE | IBV_WC_RDMA_READ => true | _ => false end.

(** [tPollNs] is read once per test; an unknown queue pair is ignored. *)
Definition ncclIbWqeLatHandleCompletion (cfg : LatConfig) (b : Net) (devIndex tPollNs : Z) (wc : Wc) (ms : list ncclIbWqeLatMon)
    : option (list ncclIbWqeLatMon * Measured) :=
  if negb (isSendOpcode (wc_opcode wc)) then Some (ms, notMeasured)
  else
    match fst (ncclIbCommBaseGetQpByQpNum devIndex (wc_qp_num wc) b) with
    | Done k =>
        m ← zget ms k;
        '(m, r) ← ncclIbWqeLatMonOnComplete cfg tPollNs m;
        ms ← zset ms k m;
        Some (ms, r)
    | Fail _ => Some (ms, notMeasured)
    | Fault => None
    end.

(** A report names the queue pair, the age and the requests under way. *)
Fixpoint scanLoop (cfg : LatConfig) (nd devIndex now : Z) (n : nat) (k : Z) (ms : list ncclIbWqeLatMon)
    : option (list ncclIbWqeLatMon * list (Z * Z * Z)) :=
  match n with
  | O => Some (ms, [])
  | Datatypes.S n' =>
      let i := nd * k + devIndex in
      m ← zget ms i;
      let '(m, (report, age, waiting)) := ncclIbWqeLatMonCheckStall cfg now m in
      ms ← zset ms i m;
      '(ms, rs) ← scanLoop cfg nd devIndex now n' (k + 1) ms;
      Some (ms, if report then (i, age, waiting) :: rs else rs)
  end.

Definition ncclIbWqeLatScanStalls (cfg : LatConfig) (b : ncclIbNetCommBase) (devIndex now : Z) (ms : list ncclIbWqeLatMon)
    : option (list ncclIbWqeLatMon * list (Z * Z * Z)) :=
  if (nqps b <=? 0) || (ndevs b <=? 0) then Some (ms, [])
  else scanLoop cfg (ndevs b) devIndex now (Z.to_nat (nqps b / ndevs b)) 0 ms.

(** [None] when nothing is to be reported. *)
Definition ncclIbWqeLatReportQpSummary (cfg : LatConfig) (qp : ncclIbQp) (m : ncclIbWqeLatMon) : option (option ncclIbWqeLatStats) :=
  if negb (latEnabled cfg) || negb (reportEnabled cfg) then Some None
  else if (qpn qp =? 0) || (lm_count m =? 0) then Some None
  else s ← ncclIbWqeLatMonSnapshot m; Some (Some s).
