(* ===== verification/LatSpec.v ===== *)
(** * Transport: the latency monitor, verified

    While a queue pair completes its requests in the order of their posts, a latency
    the monitor measures is that of the request that completes, and the monitor never
    leaves its arrays; the samples are sorted; reports keep their distance; and the scan
    for stalls, as the search for a queue pair by its number, goes over the queue pairs
    of complete rounds of the devices only. *)

From S2P Require Import Prelude CFloat NetTypes NetBase NetLemmas NetSpec NetDemo LatMon.
From Stdlib Require Import Sorted.

Open Scope Z_scope.
Open Scope nccl_scope.

(** ** Sorting the samples *)

Definition notGreater (x y : double) : Prop := dgt x y = false.

Lemma zset_app {A} (p s : list A) y x : zset (p ++ y :: s) (Z.of_nat (length p)) x = Some (p ++ x :: s).
Proof.
  rewrite zset_is_Some by (rewrite length_app; cbn; lia). unfold zupd. rewrite decide_True, Nat2Z.id by lia.
  by rewrite insert_app_r_alt, Nat.sub_diag by lia.
Qed.

(** The greater ones move up by one place. *)
Lemma shiftUp_splits key p : forall y s, exists p1 p2 h, p = p1 ++ p2
  /\ Forall (fun x => dgt x key = true) p2 /\ (forall x, last p1 = Some x -> notGreater x key)
  /\ shiftUp key (p ++ y :: s) (length p) = Some (p1 ++ h :: p2 ++ s, Z.of_nat (length p1)).
Proof.
  induction p as [|x p IH] using rev_ind; intros y s.
  { exists [], [], y. by split_and!. }
  rewrite length_app, Nat.add_1_r. cbn [shiftUp]. rewrite <- app_assoc. cbn [app].
  rewrite list_lookup_middle by done. cbn [mbind option_bind]. destruct (dgt x key) eqn:Ex.
  - replace (Z.of_nat (length p) + 1) with (Z.of_nat (length (p ++ [x]))) by (rewrite length_app; cbn; lia).
    pose proof (zset_app (p ++ [x]) s y x) as Hz. rewrite <- !app_assoc in Hz. cbn [app] in Hz. rewrite Hz. cbn [mbind option_bind].
    destruct (IH x (x :: s)) as (p1 & p2 & h & -> & H2 & H1 & E). exists p1, (p2 ++ [x]), h. rewrite E.
    split; [by rewrite app_assoc|]. split; [apply Forall_app; auto|]. split; [done|]. by rewrite <- app_assoc.
  - exists (p ++ [x]), [], y. rewrite app_nil_r, length_app, <- app_assoc. split; [done|]. split; [done|]. split.
    { intros z. rewrite last_snoc. intros [= <-]. exact Ex. }
    cbn. do 2 f_equal. lia.
Qed.

Lemma Sorted_insert key p1 p2 : Sorted notGreater (p1 ++ p2) -> (forall x, last p1 = Some x -> notGreater x key) ->
  Forall (fun x => dgt x key = true) p2 -> Sorted notGreater (p1 ++ key :: p2).
Proof.
  induction p1 as [|x p1 IH]; intros Hs H1 H2.
  - cbn in *. constructor; [done|]. destruct H2 as [|z l Hz]; constructor. apply dlt_asym. exact Hz.
  - apply Sorted_inv in Hs as [Hs Hh]. cbn [app]. constructor.
    + apply IH; [done| |done]. intros z Hz. apply H1. by destruct p1.
    + destruct p1 as [|z p1]; cbn in *; constructor; [by apply H1|]. by inversion Hh.
Qed.

(** Sorting the first [n] places of an array. *)
Lemma sortFrom_sorts n p s : Sorted notGreater p -> length s = n ->
  exists a, sortFrom n (length p) (p ++ s) = Some a /\ Permutation a (p ++ s) /\ Sorted notGreater a.
Proof.
  revert p s. induction n as [|n IH]; intros p s Hp Hs.
  { destruct s; [|done]. exists (p ++ []). split; [done|]. split; [done|]. by rewrite app_nil_r. }
  destruct s as [|key s]; [done|]. injection Hs as Hs. cbn [sortFrom]. unfold insertAt.
  rewrite list_lookup_middle by done. cbn [mbind option_bind].
  destruct (shiftUp_splits key p key s) as (p1 & p2 & h & -> & H2 & H1 & E). rewrite E. cbn [mbind option_bind].
  rewrite zset_app. cbn [mbind option_bind].
  destruct (IH (p1 ++ key :: p2) s (Sorted_insert _ _ _ Hp H1 H2) Hs) as (a & Ea & Pa & Sa).
  exists a. rewrite <- app_assoc in Ea, Pa. cbn [app] in Ea, Pa.
  replace (length (p1 ++ key :: p2)) with (Datatypes.S (length (p1 ++ p2))) in Ea by (rewrite !length_app; cbn; lia).
  split; [exact Ea|]. split; [|exact Sa]. rewrite Pa, <- app_assoc. apply Permutation_app_head. cbn. apply Permutation_middle.
Qed.

Lemma p2SortAsc_total a n : 0 < n -> length a = Z.to_nat n ->
  exists b, p2SortAsc a n = Some b /\ Permutation b a /\ Sorted notGreater b.
Proof.
  intros Hn Hl. destruct a as [|x a]; [cbn in Hl; lia|].
  apply (sortFrom_sorts (Z.to_nat (n - 1)) [x] a); [repeat constructor|cbn in Hl; lia].
Qed.

(** ** The estimator stays within its arrays *)

(** Five heights and five positions; once there are five samples the outer markers stand
    at the first and at the last of them. *)
Record p2_ok (count : Z) (e : ncclIbP2Quantile) : Prop := {
  po_q : length (p2_q e) = 5%nat;
  po_n : length (p2_n e) = 5%nat;
  po_ends : 5 <= count -> zget (p2_n e) 0 = Some 1 /\ zget (p2_n e) 4 = Some count;
}.

Lemma p2Adjust_ok count c f i e : 1 <= i <= 3 -> p2_ok c e -> exists e', p2Adjust count f i e = Some e' /\ p2_ok c e'.
Proof.
  intros Hi [Hq Hn He]. unfold p2Adjust.
  destruct (zget_is_Some (p2_n e) i) as [n ->]; [lia|]. destruct (zget_is_Some (p2_n e) (i - 1)) as [nm ->]; [lia|].
  destruct (zget_is_Some (p2_n e) (i + 1)) as [np ->]; [lia|]. destruct (zget_is_Some (p2_q e) i) as [q ->]; [lia|].
  destruct (zget_is_Some (p2_q e) (i - 1)) as [qm ->]; [lia|]. destruct (zget_is_Some (p2_q e) (i + 1)) as [qp ->]; [lia|].
  cbn [mbind option_bind]. destruct (_ || _); [|eexists; split; [done|by split]].
  rewrite !zset_is_Some by lia. cbn [mbind option_bind]. eexists. split; [done|].
  split; cbn; rewrite ?length_zupd; try done. intros H5. rewrite !zget_zupd_ne by lia. auto.
Qed.

Lemma findCell_total q x n i : 0 <= i -> i + Z.of_nat n <= Z.of_nat (length q) -> 1 <= i ->
  exists k, findCell q x n i = Some k /\ 0 <= k < Z.max 1 (i + Z.of_nat n - 1).
Proof.
  revert i. induction n as [|n IH]; intros i H0 Hl H1; cbn [findCell].
  { eexists. split; [done|lia]. }
  destruct (zget_is_Some q i) as [y ->]; [lia|]. cbn [mbind option_bind].
  destruct (dlt x y); [eexists; split; [done|lia]|].
  destruct (IH (i + 1)) as (k & -> & Hk); [lia..|]. eexists. split; [done|lia].
Qed.

Lemma p2Cell_total q x : length q = 5%nat -> exists q' k, p2Cell q x = Some (q', k) /\ length q' = 5%nat /\ 0 <= k <= 3.
Proof.
  intros Hq. unfold p2Cell.
  destruct (zget_is_Some q 0) as [q0 ->]; [lia|]. destruct (zget_is_Some q 4) as [q4 ->]; [lia|]. cbn [mbind option_bind].
  repeat case_match; rewrite ?zset_is_Some by lia; cbn [mbind option_bind].
  1,2: do 2 eexists; split; [done|]; rewrite length_zupd; lia.
  destruct (findCell_total q x 4 1) as (k & -> & Hk); [lia..|]. cbn [mbind option_bind]. do 2 eexists. split; [done|lia].
Qed.

Lemma zget_bump k n i : zget (bump k n) i = (fun x => if k <? i then u64 (x + 1) else x) <$> zget n i.
Proof.
  unfold bump, zget. case_decide; [|done]. rewrite list_lookup_imap. destruct (n !! Z.to_nat i); [|done]. cbn. by rewrite Z2Nat.id by lia.
Qed.

(** Taking the [count]-th sample. *)
Lemma p2Update_ok e x count : 1 <= count < 2 ^ 64 -> p2_ok (count - 1) e ->
  exists e', p2Update e x count = Some e' /\ p2_ok count e'.
Proof.
  intros Hc [Hq Hn He]. unfold p2Update. destruct (count <=? 5) eqn:E5.
  - apply Z.leb_le in E5. rewrite zset_is_Some by lia. cbn [mbind option_bind]. destruct (count =? 5) eqn:E.
    + destruct (p2SortAsc_total (zupd (p2_q e) (count - 1) x) 5) as (b & -> & Pb & _); [lia|by rewrite length_zupd|].
      cbn [mbind option_bind]. eexists. split; [done|]. apply Z.eqb_eq in E. subst count.
      split; [by cbn; rewrite Pb, length_zupd|done|done].
    + eexists. split; [done|]. split; cbn; rewrite ?length_zupd; [done..|]. apply Z.eqb_neq in E. lia.
  - apply Z.leb_gt in E5. destruct (p2Cell_total (p2_q e) x Hq) as (q & k & -> & Hl & Hk). cbn [mbind option_bind].
    edestruct (p2Adjust_ok count count (p2_p e / 2.0)%dbl 1) as (e1 & -> & H1); [lia| |].
    { split; cbn; [exact Hl|by unfold bump; rewrite length_imap|]. intros _. rewrite !zget_bump.
      destruct He as [E0 E4]; [lia|]. rewrite E0, E4. cbn. split.
      - destruct (k <? 0) eqn:Ek; [lia|done].
      - destruct (k <? 4) eqn:Ek; [|lia]. f_equal. unfold wrapU. rewrite Z.mod_small by lia. lia. }
    cbn [mbind option_bind]. destruct (p2Adjust_ok count count (p2_p e) 2 e1) as (e2 & -> & H2); [lia|exact H1|].
    cbn [mbind option_bind]. apply p2Adjust_ok; [lia|exact H2].
Qed.

Lemma sampleIndex_range p n : 1 <= n -> 0 <= sampleIndex p n < n.
Proof. intros Hn. unfold sampleIndex. repeat case_match; lia. Qed.

Lemma p2Estimate_total e count : 0 <= count -> p2_ok count e -> exists v, p2Estimate e count = Some v.
Proof.
  intros Hc [Hq _ _]. unfold p2Estimate. destruct (count =? 0) eqn:E0; [eauto|]. apply Z.eqb_neq in E0.
  destruct (5 <=? count) eqn:E5.
  - destruct (zget_is_Some (p2_q e) 2) as [v ->]; [lia|]. cbn. eauto.
  - apply Z.leb_gt in E5. destruct (p2SortAsc_total (take (Z.to_nat count) (p2_q e)) count) as (b & -> & Pb & _); [lia|rewrite length_take; lia|].
    cbn [mbind option_bind]. pose proof (sampleIndex_range (p2_p e) count ltac:(lia)) as Hi.
    destruct (zget_is_Some b (sampleIndex (p2_p e) count)) as [v ->]; [rewrite Pb, length_take; lia|]. cbn. eauto.
Qed.

(** ** The monitor as an observer of a queue *)

(** The monitor of a queue pair whose outstanding signalled requests were posted at the
    times [q], the oldest first. *)
Record monitors (q : list Z) (m : ncclIbWqeLatMon) : Prop := {
  mo_inflight : inflight m = Z.of_nat (length q);
  mo_tracked : tracking m = true -> zget q (pendingBefore m) = Some (trackedPostNs m);
  mo_four : length (lm_p2 m) = 4%nat;
  mo_p2 : Forall (p2_ok (lm_count m)) (lm_p2 m);
  mo_count : 0 <= lm_count m;
}.

Lemma mapM_total {A B} (f : A -> option B) (P : A -> Prop) (Q : B -> Prop) l :
  (forall x, P x -> exists y, f x = Some y /\ Q y) -> Forall P l ->
  exists l', mapM_opt f l = Some l' /\ Forall Q l' /\ length l' = length l.
Proof.
  intros Hf. induction 1 as [|x l Hx _ IH]; [by exists []|]. destruct (Hf x Hx) as (y & Ey & Hy). destruct IH as (l' & El & Hl & Hn).
  exists (y :: l'). cbn. rewrite Ey. cbn [mbind option_bind]. rewrite El. cbn. split_and!; [done|by constructor|by f_equal].
Qed.

Lemma zget_Forall {A} (P : A -> Prop) l i x : Forall P l -> zget l i = Some x -> P x.
Proof. intros HF. unfold zget. case_decide; [|done]. intros H1. exact (proj1 (Forall_lookup P l) HF _ _ H1). Qed.

Lemma Snapshot_total m : length (lm_p2 m) = 4%nat -> Forall (p2_ok (lm_count m)) (lm_p2 m) -> 0 <= lm_count m ->
  exists st, ncclIbWqeLatMonSnapshot m = Some st /\ ls_count st = lm_count m.
Proof.
  intros H4 HF Hc. unfold ncclIbWqeLatMonSnapshot.
  destruct (mapM_total (fun i => e ← zget (lm_p2 m) i; p2Estimate e (lm_count m)) (fun i => 0 <= i < 4) (fun _ => True)
              (zrange NCCL_IB_WQE_LAT_NUM_PCTL)) as (ps & -> & _ & Hl).
  - intros i Hi. destruct (zget_is_Some (lm_p2 m) i) as [e Ee]; [lia|]. rewrite Ee. cbn [mbind option_bind].
    destruct (p2Estimate_total e (lm_count m) Hc) as [v ->]; [exact (zget_Forall _ _ _ _ HF Ee)|]. eauto.
  - apply List.Forall_forall. intros i Hi. by apply In_zrange.
  - destruct ps as [|? [|? [|? [|? [|? ?]]]]]; try done. cbn [mbind option_bind]. eexists. split; done.
Qed.

Lemma monitors_init : monitors [] ncclIbWqeLatMonInit.
Proof. split; [done|done|done| |done]. apply Forall_fmap, Forall_true. intros p. by split. Qed.

Lemma stampOne_monitors now q m : Z.of_nat (length q) + 1 < 2 ^ 32 -> monitors q m -> monitors (q ++ [now]) (stampOne now m).
Proof.
  intros Hb [H1 H2 H3 H4 H5]. unfold stampOne.
  assert (Hi : u32 (inflight m + 1) = Z.of_nat (length (q ++ [now]))).
  { rewrite length_app. cbn. unfold wrapU. rewrite Z.mod_small; lia. }
  destruct (tracking m) eqn:Et; (split; cbn; [rewrite <- Hi; done| |done|done|done]); intros _.
  - unfold zget in *. specialize (H2 eq_refl). case_decide; [|done]. apply lookup_app_l_Some. exact H2.
  - rewrite H1, zget_lookup. by rewrite list_lookup_middle.
Qed.

(** The times of the signalled requests of a chain posted at [now]. *)
Definition stamps (now : Z) (wrs : list SendWr) : list Z := replicate (length (filter (fun w => wr_signaled w = true) wrs)) now.

Lemma StampSend_monitors now wrs : forall q m, Z.of_nat (length (q ++ stamps now wrs)) < 2 ^ 32 -> monitors q m ->
  monitors (q ++ stamps now wrs) (ncclIbWqeLatMonStampSend now wrs m).
Proof.
  unfold ncclIbWqeLatMonStampSend, stamps. induction wrs as [|w wrs IH]; intros q m; cbn [fold_left]; [by rewrite app_nil_r|].
  rewrite filter_cons. destruct (wr_signaled w) eqn:Ew.
  - rewrite decide_True by done. cbn [length replicate]. intros Hb Hm. rewrite cons_middle, app_assoc in Hb |- *.
    apply IH; [exact Hb|]. apply stampOne_monitors; [|exact Hm]. rewrite !length_app in Hb. cbn in Hb. lia.
  - rewrite decide_False by congruence. apply IH.
Qed.

Lemma CheckStall_monitors cfg now q m : monitors q m -> monitors q (fst (ncclIbWqeLatMonCheckStall cfg now m)).
Proof. intros [H1 H2 H3 H4 H5]. unfold ncclIbWqeLatMonCheckStall. by repeat case_match. Qed.

Lemma recordSample_total d m : length (lm_p2 m) = 4%nat -> Forall (p2_ok (lm_count m)) (lm_p2 m) -> 0 <= lm_count m ->
  lm_count m + 1 < 2 ^ 64 -> exists ps, length ps = 4%nat /\ Forall (p2_ok (lm_count m + 1)) ps
    /\ recordSample d m = Some ((welfordUpdate m d) <| lm_p2 := ps |>) /\ lm_count (welfordUpdate m d) = lm_count m + 1.
Proof.
  intros H4 HF Hc Hb. unfold recordSample. assert (Hn : lm_count (welfordUpdate m d) = lm_count m + 1).
  { cbn. unfold wrapU. apply Z.mod_small. lia. }
  rewrite Hn.
  destruct (mapM_total (fun e => p2Update e (dbl_of_Z d) (lm_count m + 1)) (p2_ok (lm_count m)) (p2_ok (lm_count m + 1)) (lm_p2 m))
    as (ps & E & Hp & Hl).
  - intros e He. apply p2Update_ok; [lia|]. by replace (lm_count m + 1 - 1) with (lm_count m) by lia.
  - exact HF.
  - exists ps. split; [congruence|]. split; [exact Hp|]. split; [|done]. cbn. cbn in E. rewrite E. done.
Qed.

(** What a completion polled at [t] measures when the outstanding requests are [q]. *)
Inductive completes (cfg : LatConfig) (t : Z) : list Z -> ncclIbWqeLatMon -> ncclIbWqeLatMon * Measured -> Prop :=
  | completes_quiet q m m' :
      (tracking m = true -> 0 < pendingBefore m /\ pendingBefore m' = pendingBefore m - 1) -> lm_count m' = lm_count m -> slowCount m' = slowCount m ->
      maxNs m' = maxNs m -> tracking m' = tracking m ->
      completes cfg t q m (m', notMeasured)
  | completes_sample t0 q m m' r :
      tracking m = true -> pendingBefore m = 0 -> tracking m' = false ->
      ms_postNs r = t0 -> ms_deltaNs r = Z.max 0 (t - t0) ->
      lm_count m' = lm_count m + 1 -> maxNs m' = Z.max (maxNs m) (Z.max 0 (t - t0)) -> ls_count (ms_stats r) = lm_count m + 1 ->
      (ms_report r = true <-> thresholdNs cfg < Z.max 0 (t - t0) /\ mayReport (lastWarnNs m) t = true) ->
      lastWarnNs m' = (if ms_report r then t else lastWarnNs m) ->
      slowCount m' = (if thresholdNs cfg <? Z.max 0 (t - t0) then u64 (slowCount m + 1) else slowCount m) ->
      completes cfg t (t0 :: q) m (m', r).

#[local] Arguments recordSample : simpl never.
#[local] Arguments ncclIbWqeLatMonSnapshot : simpl never.
#[local] Arguments mayReport : simpl never.

Lemma popped (q : list Z) m : inflight m = Z.of_nat (length q) ->
  (if 0 <? inflight m then m <| inflight := inflight m - 1 |> else m) = m <| inflight := Z.of_nat (length (List.tl q)) |>.
Proof.
  destruct m. cbn. intros ->. destruct q as [|x q]; [done|]. cbn [length List.tl]. rewrite (proj2 (Z.ltb_lt _ _)) by lia.
  cbn. f_equal. lia.
Qed.

Lemma OnComplete_completes cfg t q m : monitors q m -> lm_count m + 1 < 2 ^ 64 ->
  exists m' r, ncclIbWqeLatMonOnComplete cfg t m = Some (m', r) /\ completes cfg t q m (m', r) /\ monitors (List.tl q) m'.
Proof.
  intros [H1 H2 H3 H4 H5] Hb. unfold ncclIbWqeLatMonOnComplete.
  rewrite (popped q m H1). cbn. destruct (tracking m) eqn:Et; cbn.
  2: { do 2 eexists. split; [done|]. split; [apply completes_quiet; [by rewrite Et|try done..]; cbn; congruence|]. split; cbn; try done. by rewrite Et. }
  specialize (H2 eq_refl). pose proof (zget_Some _ _ _ H2) as Hr. destruct (0 <? pendingBefore m) eqn:Ep.
  - do 2 eexists. split; [done|]. split; [apply completes_quiet; [intros _; cbn; lia|done..]|]. split; cbn; try done. intros _.
    destruct q as [|t1 q]; [cbn in Hr; lia|]. unfold zget in *.
    rewrite decide_True in H2 by lia. rewrite decide_True by lia.
    replace (Z.to_nat (pendingBefore m)) with (Datatypes.S (Z.to_nat (pendingBefore m - 1))) in H2 by lia. exact H2.
  - assert (E0 : pendingBefore m = 0) by lia. rewrite E0 in H2. destruct q as [|t0 q]; [done|]. injection H2 as ->. clear Ep Hr.
    replace (if trackedPostNs m <? t then _ else _) with (Z.max 0 (t - trackedPostNs m)) by (destruct (trackedPostNs m <? t) eqn:?; lia).
    set (d := Z.max 0 (t - trackedPostNs m)).
    edestruct (recordSample_total d) as (ps & Hl & Hp & -> & Hn); [| | | |cbn [mbind option_bind]]; [cbn; done..|].
    cbn in Hn, Hp. edestruct Snapshot_total as (st & -> & Hst); [| | |cbn [mbind option_bind]]; [cbn; rewrite ?Hn; first [done|lia]..|].
    cbn in Hst |- *. rewrite Hn in Hst; rewrite ?Hn.
    assert (Hm : (if maxNs m <? d then d else maxNs m) = Z.max (maxNs m) d) by (destruct (maxNs m <? d) eqn:?; lia).
    destruct (d <=? thresholdNs cfg) eqn:Ed; [|destruct (mayReport (lastWarnNs m) t) eqn:Ew]; cbn; do 2 eexists; (split; [reflexivity|]).
    all: (split; [apply completes_sample; cbn; try done; fold d|split; cbn; rewrite ?Hn; first [done|lia]]).
    all: try (destruct (thresholdNs cfg <? d) eqn:?; first [done|lia]).
    all: split; [intros ?; first [done|split; [lia|done]]|intros [? ?]; first [done|lia|congruence]].
Qed.

(** ** The reference: a queue of posts, one of them followed *)

(** The outstanding signalled requests, the oldest first, with the time of the post; the
    flag marks the one that is followed. *)
Definition refQueue : Type := list (Z * bool).

Definition followed (f : refQueue) : bool := existsb snd f.
Definition refPost (now : Z) (f : refQueue) : refQueue := f ++ [(now, negb (followed f))].
Definition refPosts (now : Z) (wrs : list SendWr) (f : refQueue) : refQueue :=
  fold_left (fun f w => if wr_signaled w then refPost now f else f) wrs f.

(** A completion is that of the oldest request; it is a sample when it was followed. *)
Definition refDone (t : Z) (f : refQueue) : refQueue * option (Z * Z) :=
  match f with
  | (t0, true) :: f => (f, Some (t0, Z.max 0 (t - t0)))
  | _ :: f => (f, None)
  | [] => ([], None)
  end.

Inductive LatEvent :=
  | LatPost (now : Z) (wrs : list SendWr)
  | LatDone (tPollNs : Z)
  | LatScan (now : Z).

Fixpoint refRun (evs : list LatEvent) (f : refQueue) : list (option (Z * Z)) :=
  match evs with
  | [] => []
  | LatPost now wrs :: evs => refRun evs (refPosts now wrs f)
  | LatDone t :: evs => let '(f, o) := refDone t f in o :: refRun evs f
  | LatScan _ :: evs => refRun evs f
  end.

(** The same events on the monitor of a queue pair: its posts, its completions and the
    scans of a test. *)
Fixpoint latRun (cfg : LatConfig) (evs : list LatEvent) (m : ncclIbWqeLatMon) : option (ncclIbWqeLatMon * list Measured) :=
  match evs with
  | [] => Some (m, [])
  | LatPost now wrs :: evs => latRun cfg evs (ncclIbWqeLatMonStampSend now wrs m)
  | LatDone t :: evs =>
      '(m, r) ← ncclIbWqeLatMonOnComplete cfg t m;
      '(m, rs) ← latRun cfg evs m;
      Some (m, r :: rs)
  | LatScan now :: evs => latRun cfg evs (fst (ncclIbWqeLatMonCheckStall cfg now m))
  end.

(** The monitor stands for the queue: its place counts the requests before the one it
    follows. *)
Record stands (f : refQueue) (m : ncclIbWqeLatMon) : Prop := {
  st_mon : monitors (map fst f) m;
  st_flag : forall i b, zget (map snd f) i = Some b -> b = tracking m && (i =? pendingBefore m);
}.

Lemma followed_tracking f m : stands f m -> followed f = tracking m.
Proof.
  intros [[_ Ht _ _ _] Hf]. unfold followed. destruct (tracking m) eqn:E.
  - specialize (Ht eq_refl). pose proof (zget_Some _ _ _ Ht) as Hr. rewrite length_map in Hr.
    destruct (zget_is_Some f (pendingBefore m) Hr) as [[t b] Eb]. apply existsb_exists. exists (t, b). split.
    + unfold zget in Eb. case_decide; [|done]. apply list_elem_of_In. by eapply list_elem_of_lookup_2.
    + pose proof (zget_fmap snd f (pendingBefore m)) as Hz. rewrite Eb in Hz. apply Hf in Hz. rewrite Z.eqb_refl in Hz. exact Hz.
  - apply not_true_is_false. rewrite existsb_exists. intros ([t b] & Hin & Hb). cbn in Hb. subst b.
    apply list_elem_of_In, list_elem_of_lookup in Hin as [n Hn].
    specialize (Hf (Z.of_nat n) true). rewrite zget_lookup in Hf. 
    assert (Hm : map snd f !! n = Some true) by (by rewrite list_lookup_fmap, Hn). specialize (Hf Hm). done.
Qed.

Lemma stampOne_stands now f m : Z.of_nat (length f) + 1 < 2 ^ 32 -> stands f m -> stands (refPost now f) (stampOne now m).
Proof.
  intros Hb Hs. pose proof (followed_tracking _ _ Hs) as Hw. destruct Hs as [Hm Hf]. unfold refPost. split.
  { rewrite map_app. apply stampOne_monitors; [by rewrite length_map|exact Hm]. }
  rewrite Hw. intros i b. rewrite map_app. unfold zget. case_decide as Hi; [|done]. cbn. rewrite lookup_app.
  destruct (map snd f !! Z.to_nat i) as [b'|] eqn:E.
  - intros [= <-]. pose proof (lookup_lt_Some _ _ _ E) as Hl. rewrite length_map in Hl.
    specialize (Hf i b'). unfold zget in Hf. rewrite decide_True in Hf by done. specialize (Hf E). subst b'.
    unfold stampOne. destruct (tracking m) eqn:Et; [by cbn; rewrite Et|]. cbn. symmetry. apply Z.eqb_neq.
    rewrite (mo_inflight _ _ Hm), length_map. lia.
  - intros Hl%list_lookup_singleton_Some. destruct Hl as [Hl <-]. apply lookup_ge_None in E. rewrite length_map in E, Hl.
    unfold stampOne. destruct (tracking m) eqn:Et; cbn.
    + rewrite Et. cbn. symmetry. apply Z.eqb_neq. 
      pose proof (zget_Some _ _ _ (mo_tracked _ _ Hm Et)) as Hr. rewrite length_map in Hr. lia.
    + symmetry. apply Z.eqb_eq. rewrite (mo_inflight _ _ Hm), length_map. lia.
Qed.

Lemma length_refPosts_mono now wrs f : (length f <= length (refPosts now wrs f))%nat.
Proof.
  revert f. unfold refPosts. induction wrs as [|w wrs IH]; intros f; cbn [fold_left]; [done|]. destruct (wr_signaled w); [|apply IH].
  etrans; [|apply IH]. unfold refPost. rewrite length_app. lia.
Qed.

Lemma StampSend_stands now wrs f m : Z.of_nat (length (refPosts now wrs f)) < 2 ^ 32 -> stands f m ->
  stands (refPosts now wrs f) (ncclIbWqeLatMonStampSend now wrs m).
Proof.
  revert f m. unfold refPosts, ncclIbWqeLatMonStampSend. induction wrs as [|w wrs IH]; intros f m Hb Hs; cbn [fold_left] in *; [done|].
  destruct (wr_signaled w); [|by apply IH]. apply IH; [exact Hb|]. apply stampOne_stands; [|exact Hs].
  pose proof (length_refPosts_mono now wrs (refPost now f)) as Hl. unfold refPosts in Hl. unfold refPost in Hl at 1.
  rewrite length_app in Hl. cbn in Hl. lia.
Qed.

Lemma CheckStall_stands cfg now f m : stands f m -> stands f (fst (ncclIbWqeLatMonCheckStall cfg now m)).
Proof. intros [Hm Hf]. split; [by apply CheckStall_monitors|]. unfold ncclIbWqeLatMonCheckStall. by repeat case_match. Qed.

(** What a sample changes in the totals, and what a completion gives. *)
Definition sampled (cfg : LatConfig) (o : option (Z * Z)) (m m' : ncclIbWqeLatMon) (r : Measured) : Prop :=
  match o with
  | Some (t0, d) =>
      ms_postNs r = t0 /\ ms_deltaNs r = d /\ lm_count m' = lm_count m + 1 /\ maxNs m' = Z.max (maxNs m) d
      /\ slowCount m' = (if thresholdNs cfg <? d then u64 (slowCount m + 1) else slowCount m)
  | None => r = notMeasured /\ lm_count m' = lm_count m /\ maxNs m' = maxNs m /\ slowCount m' = slowCount m
  end.

Lemma zget_tl {A} (l : list A) i x : 0 <= i -> zget (List.tl l) i = Some x -> zget l (i + 1) = Some x.
Proof.
  intros Hi. unfold zget. rewrite !decide_True by lia. destruct l as [|y l]; [by rewrite lookup_nil|]. cbn [List.tl].
  intros E. by rewrite Z2Nat.inj_add, Nat.add_1_r by lia.
Qed.

Lemma OnComplete_stands cfg t f m : stands f m -> lm_count m + 1 < 2 ^ 64 ->
  exists m' r, ncclIbWqeLatMonOnComplete cfg t m = Some (m', r) /\ stands (fst (refDone t f)) m' /\ sampled cfg (snd (refDone t f)) m m' r.
Proof.
  intros [Hm Hf] Hb. destruct (OnComplete_completes cfg t _ m Hm Hb) as (m' & r & E & Hc & Hm'). exists m', r. split; [exact E|].
  assert (Hq : map fst (fst (refDone t f)) = List.tl (map fst f)) by (by destruct f as [|[? []] ?]).
  assert (Ht : fst (refDone t f) = List.tl f) by (by destruct f as [|[? []] ?]).
  assert (Hfl : forall i b, zget (map snd (List.tl f)) i = Some b -> b = tracking m && (i + 1 =? pendingBefore m)).
  { intros i b Hi. apply Hf. pose proof (zget_Some _ _ _ Hi). apply zget_tl; [lia|]. by destruct f. }
  inversion Hc as [q m1 m2 Hq0 Hn Hsl Hmx Htr | t0 q m1 m2 r' Htr Hp0 Htr' Hpo Hd Hn Hmx Hst Hr Hlw Hsl]; subst.
  - assert (Ho : snd (refDone t f) = None).
    { destruct f as [|[x []] f']; try done. specialize (Hf 0 true eq_refl). symmetry in Hf. apply andb_prop in Hf as [Hf1 Hf2].
      specialize (Hq0 Hf1). lia. }
    rewrite Ho. split; [|done]. split; [by rewrite Hq|]. rewrite Ht, Htr. intros i b Hi. rewrite (Hfl _ _ Hi).
    destruct (tracking m) eqn:Etr; [|done]. destruct (Hq0 eq_refl) as [_ ->]. cbn. destruct (i + 1 =? _) eqn:E1, (i =? _) eqn:E2; lia.
  - destruct f as [|[x fl] f']; [done|]. cbn in *. 
    match goal with H : _ :: _ = _ :: _ |- _ => injection H as Hx _; rewrite Hx in * end.
    specialize (Hf 0 fl eq_refl). rewrite Htr, Hp0 in Hf. cbn in Hf. subst fl. cbn. split; [|done].
    split; [exact Hm'|]. rewrite Htr'. cbn. intros i b Hi. rewrite (Hfl _ _ Hi), Htr, Hp0. cbn.
    pose proof (zget_Some _ _ _ Hi). lia.
Qed.

(** The outstanding requests fit the 32-bit counters. *)
Fixpoint fits (evs : list LatEvent) (f : refQueue) : Prop :=
  match evs with
  | [] => True
  | LatPost now wrs :: evs => Z.of_nat (length (refPosts now wrs f)) < 2 ^ 32 /\ fits evs (refPosts now wrs f)
  | LatDone t :: evs => fits evs (fst (refDone t f))
  | LatScan _ :: evs => fits evs f
  end.

Definition latencies (os : list (option (Z * Z))) : list Z := map snd (omap id os).

(** The totals of a monitor, from what it has already and the latencies after. *)
Record totals (cfg : LatConfig) (ds : list Z) (m m' : ncclIbWqeLatMon) : Prop := {
  to_count : lm_count m' = lm_count m + Z.of_nat (length ds);
  to_max : maxNs m' = fold_left Z.max ds (maxNs m);
  to_slow : slowCount m' = slowCount m + Z.of_nat (length (filter (fun d => thresholdNs cfg < d) ds));
}.

#[local] Arguments filter : simpl never.

Lemma latRun_refines cfg evs : forall f m, stands f m -> fits evs f -> 0 <= slowCount m <= lm_count m ->
  lm_count m + Z.of_nat (length evs) < 2 ^ 64 ->
  exists m' rs, latRun cfg evs m = Some (m', rs)
    /\ map (fun r => (ms_postNs r, ms_deltaNs r)) rs = map (default (0, 0)) (refRun evs f)
    /\ totals cfg (latencies (refRun evs f)) m m'.
Proof.
  induction evs as [|[now wrs|t|now] evs IH]; intros f m Hs Hf Hsl Hb; cbn [latRun refRun fits length] in *.
  - exists m, []. split_and!; [done..|]. by split; cbn; rewrite ?Z.add_0_r.
  - destruct Hf as [Hl Hf]. pose proof (StampSend_stands now wrs f m Hl Hs) as Hs'.
    assert (Hsame : forall ws m0, let m1 := ncclIbWqeLatMonStampSend now ws m0 in
      lm_count m1 = lm_count m0 /\ maxNs m1 = maxNs m0 /\ slowCount m1 = slowCount m0).
    { unfold ncclIbWqeLatMonStampSend. induction ws as [|w ws IHw]; intros m0; [done|]. cbn [fold_left]. cbn in IHw |- *.
      destruct (wr_signaled w); [|apply IHw]. edestruct (IHw (stampOne now m0)) as (-> & -> & ->). unfold stampOne. by destruct (tracking m0). }
    destruct (Hsame wrs m) as (E1 & E2 & E3). destruct (IH _ _ Hs' Hf) as (m' & rs & E & Er & Ht); [lia..|].
    exists m', rs. split_and!; [done..|]. destruct Ht. split; congruence.
  - destruct (OnComplete_stands cfg t f m Hs) as (m1 & r & E1 & Hs' & Hr); [lia|]. rewrite E1. cbn [mbind option_bind].
    destruct (refDone t f) as [f' o]. cbn [fst snd] in *.
    assert (Hc : 0 <= slowCount m1 <= lm_count m1 /\ lm_count m1 <= lm_count m + 1).
    { destruct o as [[t0 d]|]; cbn in Hr; [destruct Hr as (_ & _ & -> & _ & ->)|destruct Hr as (_ & -> & _ & ->)]; [|lia].
      destruct (thresholdNs cfg <? d); [|lia]. unfold wrapU. rewrite Z.mod_small; lia. }
    destruct (IH _ _ Hs' Hf) as (m' & rs & E & Er & [T1 T2 T3]); [lia..|]. rewrite E. cbn [mbind option_bind].
    exists m', (r :: rs). cbn [map]. rewrite Er. unfold latencies in *. destruct o as [[t0 d]|]; cbn in Hr |- *.
    + destruct Hr as (E2 & E3 & E4 & E5 & E6). split_and!; [done|by rewrite E2, E3|]. split; cbn; [lia|by rewrite T2, E5|].
      rewrite T3, E6. rewrite filter_cons. destruct (thresholdNs cfg <? d) eqn:Ed.
      * rewrite decide_True by lia. cbn [length]. unfold wrapU. rewrite Z.mod_small; lia.
      * rewrite decide_False by lia. done.
    + destruct Hr as (-> & E4 & E5 & E6). split_and!; [done..|]. split; [lia|congruence|lia].
  - pose proof (CheckStall_stands cfg now f m Hs) as Hs'.
    assert (Hsame : let m1 := fst (ncclIbWqeLatMonCheckStall cfg now m) in
      lm_count m1 = lm_count m /\ maxNs m1 = maxNs m /\ slowCount m1 = slowCount m).
    { unfold ncclIbWqeLatMonCheckStall. by repeat case_match. }
    destruct Hsame as (E1 & E2 & E3). destruct (IH _ _ Hs' Hf) as (m' & rs & E & Er & Ht); [lia..|].
    exists m', rs. split_and!; [done..|]. destruct Ht. split; congruence.
Qed.

(** C23. The latency monitor measures what it should: over any sequence of posts,
    completions and scans for stalls, each completion being that of the oldest
    outstanding request, the two counters of the monitor do the work of a queue of the
    outstanding requests with one marked (the first signalled one posted while none was
    marked).  The monitor never leaves its arrays; the post times and latencies it gives
    are those of the marked requests, and of no others; and its count, maximum and number
    of slow requests are those of these latencies.  The outstanding requests are to fit
    32 bits and the events 64. *)
Theorem latency_refines cfg evs : fits evs [] -> Z.of_nat (length evs) < 2 ^ 64 ->
  exists m rs, latRun cfg evs ncclIbWqeLatMonInit = Some (m, rs)
    /\ map (fun r => (ms_postNs r, ms_deltaNs r)) rs = map (default (0, 0)) (refRun evs [])
    /\ totals cfg (latencies (refRun evs [])) ncclIbWqeLatMonInit m.
Proof.
  intros Hf Hb. apply latRun_refines; [|exact Hf|by cbn|exact Hb]. split; [exact monitors_init|]. intros i b Hi%zget_Some. cbn in Hi. lia.
Qed.

Definition latWr (signaled : bool) : SendWr := mkSendWr 0 IBV_WR_RDMA_WRITE signaled false None 1 0 0 0.
Definition latEvents : list LatEvent :=
  [LatPost 100 [latWr false; latWr true]; LatPost 150 [latWr true]; LatScan 5000; LatDone 1300; LatPost 1400 [latWr true];
   LatDone 1500; LatDone 1700; LatDone 1800].

(** Two of the three requests are followed; the one of 1300 ns is slow. *)
Example latency_refines_witness : fits latEvents [] /\ refRun latEvents [] = [Some (100, 1200); None; Some (1400, 300); None]
  /\ exists m rs, latRun (mkLatConfig true 1000 true) latEvents ncclIbWqeLatMonInit = Some (m, rs)
    /\ map (fun r => (ms_postNs r, ms_deltaNs r)) rs = map (default (0, 0)) (refRun latEvents [])
    /\ totals (mkLatConfig true 1000 true) (latencies (refRun latEvents [])) ncclIbWqeLatMonInit m.
Proof.
  assert (Hf : fits latEvents []) by (vm_compute; tauto).
  split; [exact Hf|]. split; [vm_compute; reflexivity|]. apply (latency_refines (mkLatConfig true 1000 true) latEvents); [exact Hf|done].
Defined.

(** A completion with an error is not given to the monitor: the first request failed, and
    the completion of the second is measured from the post of the first. *)
Lemma failed_completion_shifts : exists m r,
  latRun (mkLatConfig true 1000 true) [LatPost 100 [latWr true]; LatPost 200 [latWr true]; LatDone 250] ncclIbWqeLatMonInit = Some (m, [r])
  /\ ms_postNs r = 100 /\ ms_deltaNs r = 150 /\ inflight m = 1.
Proof. eexists _, _. split; [vm_compute; reflexivity|]. split_and!; reflexivity. Qed.

(** ** The queue pairs of a device

    The search for a queue pair by its number and the scan for stalls go over the
    complete rounds of the devices only. *)

Definition scanned (nd n dev k : Z) : Prop := exists i, 0 <= i < n / nd /\ k = nd * i + dev.

Lemma scanned_complete nd n dev k : 0 < nd -> (nd | n) -> 0 <= dev < nd -> scanned nd n dev k <-> 0 <= k < n /\ k mod nd = dev.
Proof.
  intros Hn [c ->] Hd. unfold scanned. rewrite Z.div_mul by lia. split.
  - intros (i & Hi & ->). split; [nia|]. rewrite Z.mul_comm, Z.add_comm, Z.mod_add by lia. apply Z.mod_small. lia.
  - intros [Hk <-]. exists (k / nd). split; [|apply Z.div_mod; lia].
    split; [apply Z.div_pos; lia|]. apply Z.div_lt_upper_bound; lia.
Qed.

Lemma scanned_or_not nd n dev k : 0 < nd -> 0 <= dev < nd -> scanned nd n dev k \/ ~ scanned nd n dev k.
Proof.
  intros Hn Hd. destruct (decide (k mod nd = dev /\ 0 <= k / nd < n / nd)) as [[Hm Hq]|Hno]; [left|right].
  - exists (k / nd). split; [lia|]. rewrite <- Hm. apply Z.div_mod. lia.
  - intros (i & Hi & ->). apply Hno. rewrite Z.mul_comm, Z.div_add_l, Z.add_comm, Z.mod_add, Z.mod_small, Z.div_small by lia. lia.
Qed.

Lemma qpByNum_loop_spec b dev num n : forall a, 0 <= a -> 0 <= dev < ndevs b ->
  (forall i, a <= i < a + Z.of_nat n -> ndevs b * i + dev < Z.of_nat (length (qps b))) ->
  exists r, qpByNum_loop b dev num (upto n a) = Some r /\
  match r with
  | Some k => exists i, a <= i < a + Z.of_nat n /\ k = ndevs b * i + dev /\ (exists q, zget (qps b) k = Some q /\ qpn q = num)
      /\ forall j q, a <= j < i -> zget (qps b) (ndevs b * j + dev) = Some q -> qpn q <> num
  | None => forall j q, a <= j < a + Z.of_nat n -> zget (qps b) (ndevs b * j + dev) = Some q -> qpn q <> num
  end.
Proof.
  induction n as [|n IH]; intros a Ha Hd Hin; cbn [upto qpByNum_loop].
  { exists None. split; [done|]. intros. lia. }
  destruct (zget_is_Some (qps b) (ndevs b * a + dev)) as [q Eq]; [specialize (Hin a ltac:(lia)); nia|].
  rewrite Eq. cbn [mbind option_bind]. destruct (qpn q =? num) eqn:En.
  - apply Z.eqb_eq in En. eexists. split; [done|]. cbn. exists a. split_and!; [lia|lia|done|by eauto|intros; lia].
  - apply Z.eqb_neq in En. destruct (IH (a + 1)) as (r & -> & Hr); [lia|lia|intros i Hi; apply Hin; lia|].
    exists r. split; [done|]. destruct r as [k|].
    + destruct Hr as (i & Hi & -> & Hq & Hbefore). exists i. split_and!; [lia|lia|done|done|]. intros j q' Hj Ej.
      destruct (decide (j = a)) as [->|]; [congruence|]. apply (Hbefore j q'); [lia|done].
    + intros j q' Hj Ej. destruct (decide (j = a)) as [->|]; [congruence|]. apply (Hr j q'); [lia|done].
Qed.

(** C36. The search for a queue pair by its number returns the first queue pair with that
    number among those of the device in the complete rounds of the devices, and fails with
    an internal error exactly when there is none; it never leaves the array. *)
Theorem GetQpByQpNum_complete s dev num : let b := base s in
  0 <= dev < ndevs b -> 0 <= nqps b <= Z.of_nat (length (qps b)) ->
  match fst (ncclIbCommBaseGetQpByQpNum dev num s) with
  | Done k => scanned (ndevs b) (nqps b) dev k /\ (exists q, zget (qps b) k = Some q /\ qpn q = num)
      /\ forall j q, scanned (ndevs b) (nqps b) dev j -> j < k -> zget (qps b) j = Some q -> qpn q <> num
  | Fail r => r = ncclInternalError /\ forall j q, scanned (ndevs b) (nqps b) dev j -> zget (qps b) j = Some q -> qpn q <> num
  | Fault => False
  end.
Proof.
  intros b Hd Hn. unfold ncclIbCommBaseGetQpByQpNum. nred. fold b.
  replace ((dev <? 0) || (ndevs b <=? dev)) with false by (symmetry; apply orb_false_iff; lia).
  pose proof (Z.quot_div_nonneg (nqps b) (ndevs b) ltac:(lia) ltac:(lia)) as Hqd.
  pose proof (Z.mul_div_le (nqps b) (ndevs b) ltac:(lia)) as Hle. pose proof (Z.div_pos (nqps b) (ndevs b) ltac:(lia) ltac:(lia)) as Hp.
  destruct (qpByNum_loop_spec b dev num (Z.to_nat (nqps b / ndevs b)) 0) as (r & E & Hr); [lia|lia|intros; nia|].
  unfold zrange. nred. rewrite Hqd, E. nred. destruct r as [k|]; cbn.
  - destruct Hr as (i & Hi & -> & Hq & Hbefore). split_and!; [exists i; split; [lia|done]|done|].
    intros j q (i' & Hi' & ->) Hlt. apply Hbefore. nia.
  - split; [done|]. intros j q (i & Hi & ->). apply Hr. lia.
Qed.

Example GetQpByQpNum_complete_witness : let s := Demo.sender None in
  0 <= 1 < ndevs (base s) /\ match fst (ncclIbCommBaseGetQpByQpNum 1 101 s) with Done k => k = 1 | _ => False end
  /\ match fst (ncclIbCommBaseGetQpByQpNum 1 101 s) with
     | Done k => scanned 2 4 1 k /\ (exists q, zget (qps (base s)) k = Some q /\ qpn q = 101)
         /\ forall j q, scanned 2 4 1 j -> j < k -> zget (qps (base s)) j = Some q -> qpn q <> 101
     | Fail r => r = ncclInternalError /\ forall j q, scanned 2 4 1 j -> zget (qps (base s)) j = Some q -> qpn q <> 101
     | Fault => False
     end.
Proof.
  intros s. split; [vm_compute; split; [discriminate|reflexivity]|]. split; [vm_compute; reflexivity|].
  apply (GetQpByQpNum_complete s 1 101); vm_compute; split; first [discriminate|reflexivity].
Defined.

(** Two devices here and three at the peer give three queue pairs: the third belongs to no
    complete round, and the search does not find it. *)
Definition unbalanced : Net :=
  let s := Demo.sender None in
  s <| base := (base s) <| nqps := 3 |> <| qps := Demo.fill 128 [Demo.qp 0; Demo.qp 1; Demo.qp 2] (Demo.qp (-1)) |> |>.

Lemma last_round_unfound : zget (qps (base unbalanced)) 2 = Some (Demo.qp 2) /\ 2 < nqps (base unbalanced)
  /\ fst (ncclIbCommBaseGetQpByQpNum 0 102 unbalanced) = Fail ncclInternalError
  /\ fst (ncclIbCommBaseGetQpByQpNum 1 102 unbalanced) = Fail ncclInternalError.
Proof. split_and!; vm_compute; reflexivity. Qed.

(** The followed request of this monitor is late at [now], by [age] since its post. *)
Definition stalled (cfg : LatConfig) (now : Z) (m : ncclIbWqeLatMon) (age waiting : Z) : Prop :=
  tracking m = true /\ age = now - trackedPostNs m /\ 0 < age /\ thresholdNs cfg < age /\ waiting = inflight m
  /\ mayReport (lastStallWarnNs m) now = true.

Lemma CheckStall_stalled cfg now m age waiting :
  snd (ncclIbWqeLatMonCheckStall cfg now m) = (true, age, waiting) <-> stalled cfg now m age waiting.
Proof.
  unfold ncclIbWqeLatMonCheckStall, stalled. destruct (tracking m); [|by split; [|intros [? _]]]. cbn [negb].
  destruct (now <=? trackedPostNs m) eqn:E1; [split; [done|lia]|]. destruct (_ <=? thresholdNs cfg) eqn:E2; [split; [done|lia]|].
  destruct (mayReport _ now) eqn:E3; cbn [negb snd]; [|split; [done|by intros (_ & _ & _ & _ & _ & ?)]].
  split; [intros [= <- <-]; split_and!; lia || done|intros (_ & -> & _ & _ & -> & _); done].
Qed.

Lemma scanLoop_spec cfg nd dev now n : forall k ms, 0 < nd -> 0 <= k -> 0 <= dev < nd ->
  (forall i, k <= i < k + Z.of_nat n -> nd * i + dev < Z.of_nat (length ms)) ->
  exists ms' rs, scanLoop cfg nd dev now n k ms = Some (ms', rs) /\ length ms' = length ms
  /\ (forall i, k <= i < k + Z.of_nat n -> zget ms' (nd * i + dev) = (fun m => fst (ncclIbWqeLatMonCheckStall cfg now m)) <$> zget ms (nd * i + dev))
  /\ (forall j, (forall i, k <= i < k + Z.of_nat n -> j <> nd * i + dev) -> zget ms' j = zget ms j)
  /\ (forall j a w, In (j, a, w) rs <-> exists i m, k <= i < k + Z.of_nat n /\ j = nd * i + dev /\ zget ms j = Some m /\ stalled cfg now m a w).
Proof.
  induction n as [|n IH]; intros k ms Hn Hk Hd Hin; cbn [scanLoop].
  { exists ms, []. split_and!; [done|done|intros; lia|done|]. intros j a w. split; [done|]. intros (i & m & Hi & _). lia. }
  destruct (zget_is_Some ms (nd * k + dev)) as [m Em]; [specialize (Hin k ltac:(lia)); nia|]. rewrite Em. cbn [mbind option_bind].
  pose proof (CheckStall_stalled cfg now m) as Hst. destruct (ncclIbWqeLatMonCheckStall cfg now m) as [m1 [[rep age] wait]] eqn:Ec.
  pose proof (zget_Some _ _ _ Em) as Hr. rewrite zset_is_Some by exact Hr. cbn [mbind option_bind].
  destruct (IH (k + 1) (zupd ms (nd * k + dev) m1)) as (ms' & rs & E & Hl & Hs & Ho & Hrs); [lia..|intros i Hi; rewrite length_zupd; apply Hin; lia|].
  rewrite E. cbn [mbind option_bind]. do 2 eexists. split; [done|]. rewrite length_zupd in Hl. split; [done|]. split_and!.
  - intros i Hi. destruct (decide (i = k)) as [->|].
    + rewrite Ho by (intros; nia). rewrite zget_zupd_eq by exact Hr. rewrite Em. cbn. by rewrite Ec.
    + rewrite Hs by lia. by rewrite zget_zupd_ne by nia.
  - intros j Hj. rewrite Ho by (intros; apply Hj; lia). apply zget_zupd_ne. intros <-. by apply (Hj k); [lia|].
  - intros j a w. assert (Hrest : In (j, a, w) rs <-> exists i m, k < i < k + Z.of_nat (Datatypes.S n) /\ j = nd * i + dev /\ zget ms j = Some m /\ stalled cfg now m a w).
    { rewrite Hrs. split; intros (i & m0 & Hi & -> & Ej & Hsm); exists i, m0; (split_and!; [lia..|done| |done]).
      - by rewrite zget_zupd_ne in Ej by nia.
      - by rewrite zget_zupd_ne by nia. }
    assert (Hhere : stalled cfg now m a w <-> (rep, age, wait) = (true, a, w)) by (by rewrite <- Hst).
    transitivity ((j = nd * k + dev /\ stalled cfg now m a w) \/ In (j, a, w) rs).
    + rewrite Hhere. destruct rep; cbn; [|naive_solver]. split; [intros [[= <- <- <-]|?]; auto|intros [[-> [= -> ->]]|?]; auto].
    + rewrite Hrest. split.
      * intros [[-> Hs1]|(i & m0 & Hi & ?)]; [exists k, m; split_and!; [lia..|done|done|done]|exists i, m0; split; [lia|done]].
      * intros (i & m0 & Hi & -> & Ej & Hs1). destruct (decide (i = k)) as [->|]; [left; split; [done|congruence]|].
        right. exists i, m0. split_and!; [lia..|done|done|done].
Qed.

Lemma ScanStalls_spec cfg b dev now ms : 0 < ndevs b -> 0 <= dev < ndevs b -> 0 <= nqps b <= Z.of_nat (length ms) ->
  exists ms' rs, ncclIbWqeLatScanStalls cfg b dev now ms = Some (ms', rs)
  /\ (forall k, scanned (ndevs b) (nqps b) dev k -> zget ms' k = (fun m => fst (ncclIbWqeLatMonCheckStall cfg now m)) <$> zget ms k)
  /\ (forall k, ~ scanned (ndevs b) (nqps b) dev k -> zget ms' k = zget ms k)
  /\ (forall k a w, In (k, a, w) rs <-> scanned (ndevs b) (nqps b) dev k /\ exists m, zget ms k = Some m /\ stalled cfg now m a w).
Proof.
  intros Hnd Hd Hn. unfold ncclIbWqeLatScanStalls. pose proof (Z.mul_div_le (nqps b) (ndevs b) Hnd) as Hle.
  pose proof (Z.div_pos (nqps b) (ndevs b) ltac:(lia) Hnd) as Hp.
  destruct (_ || _) eqn:E0.
  - assert (Hno : forall k, ~ scanned (ndevs b) (nqps b) dev k).
    { intros k (i & Hi & _). replace (nqps b) with 0 in Hi by lia. rewrite Z.div_0_l in Hi; lia. }
    exists ms, []. split_and!; [done|intros k Hk; by destruct (Hno k)|done|]. intros k a w. split; [done|]. intros [Hk _]. by destruct (Hno k).
  - destruct (scanLoop_spec cfg (ndevs b) dev now (Z.to_nat (nqps b / ndevs b)) 0 ms) as (ms' & rs & E & _ & Hs & Ho & Hr); [lia..|intros; nia|].
    exists ms', rs. split_and!; [done| | |].
    + intros k (i & Hi & ->). apply Hs. lia.
    + intros k Hk. apply Ho. intros i Hi ->. apply Hk. exists i. split; [lia|done].
    + intros k a w. rewrite Hr. split.
      * intros (i & m & Hi & -> & ?). split; [exists i; split; [lia|done]|by exists m].
      * intros [(i & Hi & ->) (m & ?)]. exists i, m. split; [lia|by split].
Qed.

(** The scan for stalls reports a queue pair exactly when it is one of the device in a
    complete round of the devices and the request its monitor follows was posted more than
    the threshold ago, with its age and the number of requests under way, at most once in
    the interval between reports; it notes the time of the report there and leaves every
    other monitor as it was. *)
Theorem ScanStalls_reports cfg b dev now ms : 0 < ndevs b -> 0 <= dev < ndevs b -> 0 <= nqps b <= Z.of_nat (length ms) ->
  exists ms' rs, ncclIbWqeLatScanStalls cfg b dev now ms = Some (ms', rs)
  /\ (forall k a w, In (k, a, w) rs <-> scanned (ndevs b) (nqps b) dev k /\ exists m, zget ms k = Some m /\ stalled cfg now m a w)
  /\ (forall k m, zget ms k = Some m -> zget ms' k = Some (if existsb (fun r => fst (fst r) =? k) rs then m <| lastStallWarnNs := now |> else m)).
Proof.
  intros Hnd Hd Hn. destruct (ScanStalls_spec cfg b dev now ms Hnd Hd Hn) as (ms' & rs & -> & Hs & Ho & Hr). exists ms', rs. split; [done|]. split; [exact Hr|].
  intros k m Em. destruct (existsb _ rs) eqn:Ex.
  - apply existsb_exists in Ex as ([[k' a] w] & Hin & Hk). cbn in Hk. apply Z.eqb_eq in Hk. subst k'.
    apply Hr in Hin as [Hsc (m' & Em' & Hst)]. rewrite (Hs k Hsc), Em. cbn. f_equal. rewrite Em in Em'. injection Em' as <-.
    apply CheckStall_stalled in Hst. revert Hst. unfold ncclIbWqeLatMonCheckStall. by repeat case_match.
  - assert (Hno : forall a w, ~ In (k, a, w) rs).
    { intros a w Hin. apply not_true_iff_false in Ex. apply Ex, existsb_exists. exists (k, a, w). split; [done|apply Z.eqb_refl]. }
    destruct (scanned_or_not (ndevs b) (nqps b) dev k Hnd Hd) as [Hsc|Hsc]; [|by rewrite Ho].
    rewrite (Hs k Hsc), Em. cbn. f_equal. destruct (ncclIbWqeLatMonCheckStall cfg now m) as [m1 [[[] a] w]] eqn:Ec.
    + exfalso. apply (Hno a w), Hr. split; [exact Hsc|]. exists m. split; [done|]. apply CheckStall_stalled. by rewrite Ec.
    + revert Ec. unfold ncclIbWqeLatMonCheckStall. repeat case_match; by intros [= <- _ _].
Qed.

(** The monitor of queue pair 1 follows a request of 100 ns, long late; that of 3 nothing. *)
Example ScanStalls_reports_witness : let m := ncclIbWqeLatMonStampSend 100 [latWr true] ncclIbWqeLatMonInit in
  let ms := <[1%nat := m]> (replicate 128 ncclIbWqeLatMonInit) in let cfg := mkLatConfig true 1000 true in
  let b := base (Demo.sender None) in
  option_map snd (ncclIbWqeLatScanStalls cfg b 1 5000 ms) = Some [(1, 4900, 1)]
  /\ exists ms' rs, ncclIbWqeLatScanStalls cfg b 1 5000 ms = Some (ms', rs)
  /\ (forall k a w, In (k, a, w) rs <-> scanned (ndevs b) (nqps b) 1 k /\ exists m, zget ms k = Some m /\ stalled cfg 5000 m a w)
  /\ (forall k m, zget ms k = Some m -> zget ms' k = Some (if existsb (fun r => fst (fst r) =? k) rs then m <| lastStallWarnNs := 5000 |> else m)).
Proof.
  intros m ms cfg b. split; [vm_compute; reflexivity|].
  apply (ScanStalls_reports cfg b 1 5000 ms); vm_compute; first [reflexivity|split; [discriminate|first [reflexivity|discriminate]]].
Defined.
