(* ===== verification/HostUtils.v ===== *)
(** * Names of devices and bus identifiers ([misc/utils.cc])

    The list of adapters the user selects ([NCCL_IB_HCA]) and the match of a device
    against it, and the number a PCI bus identifier stands for.  Strings are those of
    [CStr]; [strdup] does not fail. *)

From S2P Require Import Prelude CStr.

Open Scope Z_scope.
Open Scope nccl_scope.

Definition COLON : ascii := chr 58.
Definition DOT : ascii := chr 46.
Definition SLASH : ascii := chr 47.
Arguments COLON : simpl never.
Arguments DOT : simpl never.
Arguments SLASH : simpl never.

(** ** Library functions on strings *)

(** [strncmp(a, b, n) == 0] *)
Definition strnceq (a b : cstring) (n : Z) : bool :=
  if (Z.of_nat (length a) <=? n) && (Z.of_nat (length b) <=? n) then list_eqb a b
  else list_eqb (take (Z.to_nat n) a) (take (Z.to_nat n) b).

(** [strsep(&s, delim)]: the field and what is left, none when the last field is taken. *)
Definition strsep (delim : ascii) (s : option cstring) : option cstring * option cstring :=
  match s with
  | None => (None, None)
  | Some s =>
      (Some (take_while (fun c => negb (ceqb c delim)) s),
       match drop_while (fun c => negb (ceqb c delim)) s with [] => None | _ :: r => Some r end)
  end.

(** [snprintf(buf, size, "%s", s)] *)
Definition snprintf_s (size : nat) (s : cstring) : cstring := take (size - 1) s.

(** [%0wlx] of a value of 64 bits: at least [w] digits. *)
Definition hexDigit (v : Z) : ascii := if v <? 10 then chr (48 + v) else chr (87 + v).
Fixpoint hexFixed (w : nat) (v : Z) : cstring :=
  match w with O => [] | Datatypes.S w' => hexFixed w' (v / 16) ++ [hexDigit (v mod 16)] end.
(** The digits of [v] (as many as it needs, none for 0). *)
Fixpoint hexWidth (fuel : nat) (v : Z) : nat :=
  match fuel with O => O | Datatypes.S f => if v =? 0 then O else Datatypes.S (hexWidth f (v / 16)) end.
Definition printHex (w : nat) (v : Z) : cstring := hexFixed (Nat.max w (hexWidth 16 v)) v.

(** ** Bus identifiers *)

Definition int64ToBusId (id : Z) : cstring :=
  printHex 4 (u64 (Z.shiftr id 20)) ++ [COLON] ++ printHex 2 (Z.shiftr (Z.land id 0xff000) 12) ++ [COLON]
    ++ printHex 2 (Z.shiftr (Z.land id 0xff0) 4) ++ [DOT] ++ printHex 1 (Z.land id 0xf).

(** The hexadecimal digits, at most [n] of them, up to a character that is neither a digit
    nor a separator. *)
Fixpoint busDigits (s : cstring) (n : nat) : cstring :=
  match n, s with
  | O, _ | _, [] => []
  | Datatypes.S n', c :: s' =>
      if ceqb c DOT || ceqb c COLON then busDigits s' n
      else match hex_value c with Some _ => c :: busDigits s' n' | None => [] end
  end.

(** [strtol(hexStr, NULL, 16)] of digits only. *)
Definition busIdToInt64 (busId : cstring) : Z := Z.min LONG_MAX (fst (fst (hex_digits (busDigits busId 16) 0 0))).

(** The last component; without a [/] the scan leaves the string. *)
Fixpoint lastComponent (rev : cstring) (acc : cstring) : option cstring :=
  match rev with
  | [] => None
  | c :: r => if ceqb c SLASH then Some acc else lastComponent r (c :: acc)
  end.

Definition pciPathToInt64 (path : cstring) : option Z :=
  s ← (match rev path with [] => None | c :: r => lastComponent (if ceqb c SLASH then r else c :: r) [] end);
  Some (busIdToInt64 s).

(** ** The user's list of adapters *)

Record netIf := mkNetIf { prefix : cstring; port : Z; rail : Z; plane : Z }.
Definition prefixSize : nat := 64.

(** A field that is absent or empty is -1. *)
Definition fieldOr (tok : option cstring) : Z := match tok with Some (c :: s) => atoi (c :: s) | _ => -1 end.

(** [prefix:port:rail:plane]; none when the prefix is empty. *)
Definition parseEntry (entry : cstring) : option netIf :=
  let '(tok, c) := strsep COLON (Some entry) in
  match tok with
  | Some (x :: p) =>
      let '(t1, c) := strsep COLON c in
      let '(t2, c) := strsep COLON c in
      let '(t3, _) := strsep COLON c in
      Some (mkNetIf (snprintf_s prefixSize (x :: p)) (fieldOr t1) (i16 (fieldOr t2)) (i16 (fieldOr t3)))
  | _ => None
  end.

(** [maxList - ifNum] entries may still come; an entry without a prefix takes no place. *)
Fixpoint parseLoop (fuel maxList : nat) (str : cstring) : list netIf :=
  match fuel, maxList with
  | Datatypes.S f, Datatypes.S m =>
      match strtok COMMA str with
      | None => []
      | Some (entry, rest) =>
          match parseEntry entry with
          | Some e => e :: parseLoop f m rest
          | None => parseLoop f maxList rest
          end
      end
  | _, _ => []
  end.

(** [ifList] up to the number returned. *)
Definition parseStringList (string : option cstring) (maxList : nat) : list netIf :=
  match string with None => [] | Some s => parseLoop (Datatypes.S (length s)) maxList s end.

Definition matchIf (string ref : cstring) (matchExact : bool) : bool :=
  strnceq string ref (if matchExact then Z.of_nat (length string) + 1 else Z.of_nat (length ref)).

Definition matchPort (port1 port2 : Z) : bool := (port1 =? -1) || (port2 =? -1) || (port1 =? port2).

Fixpoint matchLoop (string : cstring) (p : Z) (ifList : list netIf) (matchExact : bool) (i : Z) : bool * Z :=
  match ifList with
  | [] => (false, -1)
  | e :: l => if matchIf string (prefix e) matchExact && matchPort p (port e) then (true, i) else matchLoop string p l matchExact (i + 1)
  end.

(** The result and [*ifId]. *)
Definition matchIfList (string : cstring) (p : Z) (ifList : list netIf) (matchExact : bool) : bool * Z :=
  match ifList with [] => (true, -1) | _ => matchLoop string p ifList matchExact 0 end.

Example parse_two : parseStringList (Some (lit "mlx5_0:1:2:3,,mlx5_1::4")) 8
  = [mkNetIf (lit "mlx5_0") 1 2 3; mkNetIf (lit "mlx5_1") (-1) 4 (-1)].
Proof. vm_compute. reflexivity. Qed.
Example bus_id : busIdToInt64 (lit "0000:02:00.1") = 0x2001 /\ int64ToBusId 0x2001 = lit "0000:02:00.1"
  /\ pciPathToInt64 (lit "/sys/devices/pci0000:00/0000:00:02.0/0000:02:00.0/") = Some 0x2000.
Proof. vm_compute. done. Qed.
