(* ===== verification/HostSpec.v ===== *)
(** * Names of devices and bus identifiers, verified

    A bus identifier reads back; the list of adapters the user selects reads back; and a
    device matches the entry it should. *)

From S2P Require Import Prelude CStr TunerConfig HostUtils.

Open Scope Z_scope.
Open Scope nccl_scope.

(** ** Comparison *)

Lemma ceqb_eq a b : ceqb a b = true <-> a = b.
Proof. apply Ascii.eqb_eq. Qed.

Lemma cstr_eqb_eq a b : CStr.list_eqb a b = true <-> a = b.
Proof.
  revert b. induction a as [|x a IH]; intros [|y b]; cbn; [done|done|done|]. rewrite andb_true_iff, ceqb_eq, IH. split; [intros [-> ->]|intros [= -> ->]]; done.
Qed.

Lemma strnceq_eq a b n : 0 <= n -> strnceq a b n = true <-> take (Z.to_nat n) a = take (Z.to_nat n) b.
Proof.
  intros Hn. unfold strnceq. destruct (_ && _) eqn:E; rewrite cstr_eqb_eq; [|done].
  apply andb_prop in E as [E1 E2]. by rewrite !take_ge by lia.
Qed.

(** A device matches an entry of the user's list as the user means it: without [=] when
    the prefix of the entry begins its name, with [=] when it is its name, and on the port
    of the entry, if it names one; the first entry that matches is the one found, and
    without a list every device matches. *)
Theorem matchIfList_first (string : cstring) (p : Z) (l : list netIf) (exact : bool) : let matches (e : netIf) : Prop :=
    (if exact then string = prefix e else prefix e `prefix_of` string) /\ (p = -1 \/ port e = -1 \/ p = port e) in
  match matchIfList string p l exact with
  | (true, i) => (l = [] /\ i = -1) \/ (exists e, zget l i = Some e /\ matches e /\ forall j e', j < i -> zget l j = Some e' -> ~ matches e')
  | (false, i) => i = -1 /\ l <> [] /\ forall e, In e l -> ~ matches e
  end.
Proof.
  intros matches. assert (Hm : forall e, matchIf string (prefix e) exact && matchPort p (port e) = true <-> matches e).
  { intros e. unfold matches, matchIf, matchPort. rewrite andb_true_iff, !orb_true_iff, !Z.eqb_eq. assert (Hc : forall A B C D : Prop, (A <-> C) -> (B <-> D) -> (A /\ B <-> C /\ D)) by tauto. apply Hc; [|tauto]. clear Hc.
    destruct exact; rewrite strnceq_eq by lia.
    - split; [|by intros <-]. intros H. rewrite take_ge in H by lia. rewrite H at 1.
      destruct (decide (length (prefix e) <= Z.to_nat (Z.of_nat (length string) + 1))%nat); [by apply take_ge|].
      exfalso. apply (f_equal length) in H. rewrite length_take in H. lia.
    - rewrite Nat2Z.id, (take_ge (prefix e)) by lia. split.
      + intros <-. by apply prefix_take.
      + intros [k ->]. by rewrite take_app_length. }
  assert (Hl : forall l i, match matchLoop string p l exact i with
    | (true, k) => i <= k /\ exists e, zget l (k - i) = Some e /\ matches e /\ forall j e', j < k - i -> zget l j = Some e' -> ~ matches e'
    | (false, k) => k = -1 /\ forall e, In e l -> ~ matches e end).
  { clear l. induction l as [|e l IH]; intros i; cbn [matchLoop]; [split; [done|by intros e []]|].
    destruct (matchIf _ _ _ && _) eqn:E.
    - split; [lia|]. exists e. rewrite Z.sub_diag. split_and!; [done|by apply Hm|]. intros j e' Hj Ej. apply zget_Some in Ej. lia.
    - specialize (IH (i + 1)). assert (Hno : ~ matches e) by (rewrite <- Hm, E; done).
      destruct (matchLoop string p l exact (i + 1)) as [[] k].
      + destruct IH as (Hk & e0 & E0 & H0 & Hbefore). split; [lia|]. exists e0.
        split_and!; [|done|].
        * replace (k - i) with (k - (i + 1) + 1) by lia. pose proof (zget_Some _ _ _ E0). rewrite zget_cons by lia. exact E0.
        * intros j e' Hj Ej. pose proof (zget_Some _ _ _ Ej). destruct (decide (j = 0)) as [->|]; [injection Ej as <-; exact Hno|].
          apply (Hbefore (j - 1) e'); [lia|]. rewrite <- (zget_cons e) by lia. by replace (j - 1 + 1) with j by lia.
      + destruct IH as [-> IH]. split; [done|]. intros e' [<-|Hin]; [exact Hno|by apply IH]. }
  destruct l as [|e l]; cbn [matchIfList]; [by left|]. specialize (Hl (e :: l) 0).
  change (match e :: l with [] => (true, -1) | _ => matchLoop string p (e :: l) exact 0 end) with (matchLoop string p (e :: l) exact 0).
  destruct (matchLoop string p (e :: l) exact 0) as [[] k].
  - right. destruct Hl as (_ & e0 & H). rewrite Z.sub_0_r in H. by exists e0.
  - by destruct Hl as [-> Hl].
Qed.

Example matchIfList_first_values : let l := parseStringList (Some (lit "mlx5_1,mlx5_0:2")) 32 in
  matchIfList (lit "mlx5_0") 2 l false = (true, 1) /\ matchIfList (lit "mlx5_0") 1 l false = (false, -1)
  /\ matchIfList (lit "mlx5_10") 1 l false = (true, 0) /\ matchIfList (lit "mlx5_10") 1 l true = (false, -1).
Proof. vm_compute. done. Qed.

(** ** Hexadecimal *)

Lemma hexDigit_value d : 0 <= d < 16 -> hex_value (hexDigit d) = Some d /\ ceqb (hexDigit d) DOT || ceqb (hexDigit d) COLON = false.
Proof.
  intros Hd. assert (H : d = 0 \/ d = 1 \/ d = 2 \/ d = 3 \/ d = 4 \/ d = 5 \/ d = 6 \/ d = 7 \/ d = 8 \/ d = 9 \/ d = 10 \/ d = 11
    \/ d = 12 \/ d = 13 \/ d = 14 \/ d = 15) by lia.
  repeat destruct H as [->|H]; [vm_compute; done..|subst d; vm_compute; done].
Qed.

(** The digits of a number, and the text of a bus identifier without its separators. *)
Definition hexText (s : cstring) : Prop := Forall (fun c => (exists d, hex_value c = Some d) /\ ceqb c DOT || ceqb c COLON = false) s.

Lemma hexFixed_text w v : hexText (hexFixed w v).
Proof.
  revert v. induction w as [|w IH]; intros v; cbn [hexFixed]; [constructor|]. apply Forall_app. split; [apply IH|].
  destruct (hexDigit_value (v mod 16)) as [H1 H2]; [apply Z.mod_pos_bound; lia|]. repeat constructor; eauto.
Qed.

Lemma length_hexFixed w v : length (hexFixed w v) = w.
Proof. revert v. induction w as [|w IH]; intros v; cbn [hexFixed]; [done|]. rewrite length_app, IH. cbn. lia. Qed.

Lemma busDigits_app s r n : hexText s -> (length s <= n)%nat -> busDigits (s ++ r) n = s ++ busDigits r (n - length s).
Proof.
  intros H. revert n. induction H as [|c s [[d Hd] Hc] _ IH]; intros n Hn; [by rewrite Nat.sub_0_r|].
  destruct n as [|n]; [cbn in Hn; lia|]. cbn [app busDigits length Nat.sub]. rewrite Hc, Hd. f_equal. apply IH. cbn in Hn. lia.
Qed.

Lemma busDigits_sep c r n : (c = DOT \/ c = COLON) -> busDigits (c :: r) n = busDigits r n.
Proof. destruct n as [|n]; cbn; [by destruct r|]. by intros [-> | ->]. Qed.

Lemma hex_digits_snoc s d c acc n : hexText s -> hex_value c = Some d ->
  fst (fst (hex_digits (s ++ [c]) acc n)) = fst (fst (hex_digits s acc n)) * 16 + d.
Proof.
  intros Hs Hc. revert acc n. induction Hs as [|x s [[y Hy] _] _ IH]; intros acc n; cbn [app hex_digits]; [by rewrite Hc|]. rewrite Hy. apply IH.
Qed.

Lemma hex_digits_app s t acc n : hexText s -> fst (fst (hex_digits (s ++ t) acc n)) = fst (fst (hex_digits t (fst (fst (hex_digits s acc n))) 0)).
Proof.
  assert (Hn : forall t acc n m, fst (fst (hex_digits t acc n)) = fst (fst (hex_digits t acc m))).
  { clear. induction t as [|c t IH]; intros acc n m; cbn [hex_digits]; [done|]. destruct (hex_value c); [apply IH|done]. }
  intros Hs. revert acc n. induction Hs as [|x s [[y Hy] _] _ IH]; intros acc n; cbn [app hex_digits]; [apply Hn|]. rewrite Hy. apply IH.
Qed.

Lemma hexFixed_value w v acc n : 0 <= v -> fst (fst (hex_digits (hexFixed w v) acc n)) = acc * 16 ^ Z.of_nat w + v mod 16 ^ Z.of_nat w.
Proof.
  revert v. induction w as [|w IH]; intros v Hv; cbn [hexFixed].
  { cbn. rewrite Z.mod_1_r. lia. }
  rewrite (hex_digits_snoc _ (v mod 16)) by (try apply hexFixed_text; apply hexDigit_value, Z.mod_pos_bound; lia).
  rewrite IH by (apply Z.div_pos; lia). rewrite Nat2Z.inj_succ, Z.pow_succ_r, Z.rem_mul_r by lia. lia.
Qed.

Lemma hexWidth_spec f v : 0 <= v < 16 ^ Z.of_nat f -> v < 16 ^ Z.of_nat (hexWidth f v) /\ forall k, (k <= f)%nat -> v < 16 ^ Z.of_nat k -> (hexWidth f v <= k)%nat.
Proof.
  revert v. induction f as [|f IH]; intros v Hv; cbn [hexWidth]; [cbn in *; split; [lia|intros; lia]|].
  destruct (v =? 0) eqn:E; [split; [cbn; lia|intros; lia]|]. rewrite Nat2Z.inj_succ, Z.pow_succ_r in Hv by lia.
  destruct (IH (v / 16)) as [H1 H2]; [split; [apply Z.div_pos; lia|apply Z.div_lt_upper_bound; lia]|]. split.
  - rewrite Nat2Z.inj_succ, Z.pow_succ_r by lia. pose proof (Z.div_mod v 16 ltac:(lia)). pose proof (Z.mod_pos_bound v 16 ltac:(lia)). lia.
  - intros [|k] Hk Hvk; [cbn in Hvk; lia|]. rewrite Nat2Z.inj_succ, Z.pow_succ_r in Hvk by lia.
    assert (hexWidth f (v / 16) <= k)%nat; [|lia]. apply H2; [lia|]. apply Z.div_lt_upper_bound; lia.
Qed.

Lemma printHex_value w v k acc n : (w <= k)%nat -> (k <= 16)%nat -> 0 <= v < 16 ^ Z.of_nat k ->
  hexText (printHex w v) /\ (length (printHex w v) <= k)%nat /\ fst (fst (hex_digits (printHex w v) acc n)) = acc * 16 ^ Z.of_nat (length (printHex w v)) + v.
Proof.
  intros Hw Hk Hv. unfold printHex. assert (H16 : v < 16 ^ Z.of_nat 16) by (eapply Z.lt_le_trans; [apply Hv|apply Z.pow_le_mono_r; lia]).
  destruct (hexWidth_spec 16 v ltac:(lia)) as [H1 H2]. specialize (H2 k Hk ltac:(lia)).
  split; [apply hexFixed_text|]. rewrite length_hexFixed. split; [lia|]. rewrite hexFixed_value by lia. f_equal. apply Z.mod_small. split; [lia|].
  eapply Z.lt_le_trans; [exact H1|]. apply Z.pow_le_mono_r; lia.
Qed.

(** A field of fixed width. *)
Lemma printHex_fixed w v acc : (w <= 16)%nat -> 0 <= v < 16 ^ Z.of_nat w ->
  hexText (printHex w v) /\ length (printHex w v) = w /\ fst (fst (hex_digits (printHex w v) acc 0)) = acc * 16 ^ Z.of_nat w + v.
Proof.
  intros Hw Hv. destruct (printHex_value w v w acc 0) as (T & L & V); [lia..|].
  assert (length (printHex w v) = w) as El by (unfold printHex in *; rewrite length_hexFixed in *; lia). rewrite El in V. done.
Qed.

Lemma mask_shift id lo n : 0 <= lo -> 0 <= n -> Z.shiftr (Z.land id (Z.shiftl (Z.ones n) lo)) lo = (id / 2 ^ lo) mod 2 ^ n.
Proof.
  intros Hl Hn. rewrite Z.shiftr_land, Z.shiftr_shiftl_l, Z.sub_diag by lia. rewrite Z.shiftl_0_r, Z.land_ones, Z.shiftr_div_pow2 by lia. done.
Qed.

(** A bus identifier reads back: the number the text of an identifier stands for is the
    identifier, for every one of 63 bits. *)
Theorem busId_roundtrip id : 0 <= id < 2 ^ 63 -> busIdToInt64 (int64ToBusId id) = id.
Proof.
  intros Hid. unfold int64ToBusId, busIdToInt64.
  set (a := u64 (Z.shiftr id 20)). set (b := Z.shiftr (Z.land id 0xff000) 12). set (c := Z.shiftr (Z.land id 0xff0) 4). set (d := Z.land id 0xf).
  assert (Ea : a = id / 2 ^ 20).
  { unfold a. rewrite Z.shiftr_div_pow2 by lia. apply wrapU_small. split; [apply Z.div_pos; lia|]. apply Z.div_lt_upper_bound; lia. }
  assert (Eb : b = (id / 2 ^ 12) mod 2 ^ 8) by exact (mask_shift id 12 8 ltac:(lia) ltac:(lia)).
  assert (Ec : c = (id / 2 ^ 4) mod 2 ^ 8) by exact (mask_shift id 4 8 ltac:(lia) ltac:(lia)).
  assert (Ed : d = id mod 2 ^ 4) by exact (Z.land_ones id 4 ltac:(lia)).
  assert (Ha : 0 <= a < 2 ^ 43) by (rewrite Ea; split; [apply Z.div_pos; lia|apply Z.div_lt_upper_bound; lia]).
  pose proof (Z.mod_pos_bound (id / 2 ^ 12) (2 ^ 8) ltac:(lia)). pose proof (Z.mod_pos_bound (id / 2 ^ 4) (2 ^ 8) ltac:(lia)).
  pose proof (Z.mod_pos_bound id (2 ^ 4) ltac:(lia)). clearbody a b c d.
  destruct (printHex_value 4 a 11 0 0) as (Ta & La & Va); [lia|lia|lia|].
  pose proof (fun acc => printHex_fixed 2 b acc ltac:(lia) ltac:(lia)) as Tb. pose proof (fun acc => printHex_fixed 2 c acc ltac:(lia) ltac:(lia)) as Tc.
  pose proof (fun acc => printHex_fixed 1 d acc ltac:(lia) ltac:(lia)) as Td.
  destruct (Tb 0) as (Tb1 & Tb2 & _), (Tc 0) as (Tc1 & Tc2 & _), (Td 0) as (Td1 & Td2 & _).
  rewrite busDigits_app by (done || lia). cbn [app]. rewrite busDigits_sep by (by right). rewrite busDigits_app by (done || lia).
  cbn [app]. rewrite busDigits_sep by (by right). rewrite busDigits_app by (done || lia). cbn [app]. rewrite busDigits_sep by (by left).
  rewrite <- (app_nil_r (printHex 1 d)). rewrite busDigits_app by (done || lia).
  rewrite !hex_digits_app by done. rewrite Va, (proj2 (proj2 (Tb _))), (proj2 (proj2 (Tc _))), (proj2 (proj2 (Td _))). destruct (16 - _ - _ - _ - _)%nat; cbn [busDigits hex_digits fst];
    unfold LONG_MAX; subst; rewrite ?Z.mul_0_l, ?Z.add_0_l; Z.div_mod_to_equations; lia.
Qed.

Example busId_roundtrip_witness : 0 <= 0x1ab2c3d4 < 2 ^ 63 /\ int64ToBusId 0x1ab2c3d4 = lit "01ab:2c:3d.4" /\ busIdToInt64 (int64ToBusId 0x1ab2c3d4) = 0x1ab2c3d4.
Proof. split; [lia|]. split; [vm_compute; reflexivity|]. apply busId_roundtrip. lia. Defined.

(** A path that begins with a slash, and is not only that, has a last component. *)
Lemma pciPathToInt64_absolute r : r <> [] -> exists id, pciPathToInt64 (SLASH :: r) = Some id.
Proof.
  intros Hr. assert (H : forall t acc, exists s, lastComponent (t ++ [SLASH]) acc = Some s).
  { induction t as [|c t IH]; intros acc; cbn; [eauto|]. destruct (ceqb c SLASH); [eauto|apply IH]. }
  unfold pciPathToInt64. cbn [rev]. destruct (rev r) as [|c t] eqn:E.
  { exfalso. apply Hr. by rewrite <- (rev_involutive r), E. }
  cbn [app]. destruct (ceqb c SLASH).
  - destruct (H t []) as [s ->]. cbn. eauto.
  - destruct (H (c :: t) []) as [s Es]. cbn [app] in Es. rewrite Es. cbn. eauto.
Qed.

(** ** The user's list reads back *)

Definition noColon (s : cstring) : bool := forallb (fun c => negb (ceqb c COLON)) s.

Record entryOk (e : netIf) : Prop := {
  eo_prefix : field (prefix e) = true /\ noColon (prefix e) = true /\ (length (prefix e) <= 63)%nat;
  eo_port : in_s 32 (port e);
  eo_rail : in_s 16 (rail e);
  eo_plane : in_s 16 (plane e);
}.

Definition renderEntry (e : netIf) : cstring :=
  prefix e ++ COLON :: showZ (port e) ++ COLON :: showZ (rail e) ++ COLON :: showZ (plane e).

Lemma showZ_noColon n : noColon (showZ n) = true.
Proof.
  assert (Hd : forall m, 0 <= m -> noColon (show_nat 20 m) = true).
  { intros m Hm. unfold noColon. eapply forallb_impl; [|exact (show_nat_digits 20 m Hm)]. intros c Hc.
    apply negb_true_iff, not_true_iff_false. intros ->%ceqb_eq. done. }
  unfold showZ. destruct (n <? 0) eqn:E; [|apply Hd; lia]. cbn [noColon forallb]. apply andb_true_intro. split; [done|apply Hd; lia].
Qed.

Lemma strsep_field f r : noColon f = true -> strsep COLON (Some (f ++ COLON :: r)) = (Some f, Some r).
Proof. intros Hf. unfold strsep. by destruct (take_while_app _ f (COLON :: r) Hf eq_refl) as [-> ->]. Qed.

Lemma strsep_last f : noColon f = true -> strsep COLON (Some f) = (Some f, None).
Proof.
  intros Hf. unfold strsep. destruct (take_while_app _ f [] Hf eq_refl) as [H1 H2]. rewrite app_nil_r in H1, H2. by rewrite H1, H2.
Qed.

Lemma fieldOr_showZ n : in_s 32 n -> fieldOr (Some (showZ n)) = n.
Proof.
  intros Hn. unfold fieldOr. pose proof (atoi_showZ n Hn) as Ha. pose proof (showZ_field n) as Hf. by destruct (showZ n).
Qed.

Lemma parseEntry_render e : entryOk e -> parseEntry (renderEntry e) = Some e.
Proof.
  intros [(Hf & Hc & Hl) H1 H2 H3]. unfold parseEntry, renderEntry. rewrite strsep_field by done.
  rewrite strsep_field by apply showZ_noColon. rewrite strsep_field by apply showZ_noColon. rewrite strsep_last by apply showZ_noColon.
  rewrite !fieldOr_showZ by (unfold in_s in *; lia). rewrite !wrapS_small by (done || lia).
  destruct e as [[|c s] a b d]; [done|]. cbn [prefix] in *. unfold snprintf_s, prefixSize. by rewrite take_ge by lia.
Qed.

Lemma renderEntry_field e : entryOk e -> field (renderEntry e) = true.
Proof.
  intros [(Hf & Hc & Hl) _ _ _]. unfold renderEntry. pose proof (showZ_field (port e)) as F1. pose proof (showZ_field (rail e)) as F2.
  pose proof (showZ_field (plane e)) as F3. assert (Hfc : forall s, field s = true -> forallb field_char s = true) by by intros [].
  assert (Ha : forallb field_char (prefix e ++ COLON :: showZ (port e) ++ COLON :: showZ (rail e) ++ COLON :: showZ (plane e)) = true).
  { rewrite forallb_app, Hfc by done. cbn [forallb]. rewrite forallb_app, Hfc by done. cbn [forallb]. rewrite forallb_app, Hfc by done.
    cbn [forallb]. rewrite Hfc by done. done. }
  destruct (prefix e); done.
Qed.

(** The whole list, separated by commas. *)
Definition renderList (es : list netIf) : cstring := joinc (map renderEntry es).

Lemma parseLoop_render es : Forall entryOk es -> forall fuel m, (length es < fuel)%nat -> parseLoop fuel m (renderList es) = take m es.
Proof.
  unfold renderList. induction 1 as [|e es He _ IH]; intros [|fuel] m Hf; cbn [length] in *; try lia.
  { destruct m; [done|]. by destruct fuel. }
  destruct m as [|m]; [done|]. cbn [parseLoop map joinc]. rewrite strtok_field; [|by apply renderEntry_field|by destruct es].
  rewrite parseEntry_render by done. cbn [take]. f_equal. destruct es as [|e2 es]; [|apply (IH fuel m); cbn in *; lia].
  cbn. destruct fuel as [|fuel]; [cbn in Hf; lia|]. by destruct m.
Qed.

Lemma joinc_length es : Forall entryOk es -> (length es <= length (joinc (map renderEntry es)))%nat.
Proof.
  assert (Hc : forall l, Forall entryOk l -> (length l <= length (concat (map (fun f => COMMA :: f) (map renderEntry l))))%nat).
  { induction 1 as [|e l _ _ IH]; cbn; [lia|]. rewrite length_app. cbn in *. lia. }
  intros [|e l He Hl]; [cbn; lia|]. cbn [map joinc]. rewrite length_app. specialize (Hc l Hl).
  assert (1 <= length (renderEntry e))%nat by (unfold renderEntry; rewrite length_app; cbn; lia). cbn [length]. lia.
Qed.

(** The list of adapters of [NCCL_IB_HCA] reads back: a list of well-formed entries
    written as [prefix:port:rail:plane], separated by commas, is read as those entries, up
    to the number there is room for. *)
Theorem parseStringList_roundtrip es maxList : Forall entryOk es -> parseStringList (Some (renderList es)) maxList = take maxList es.
Proof.
  intros Hes. unfold parseStringList. apply parseLoop_render; [done|]. pose proof (joinc_length es Hes). unfold renderList. lia.
Qed.

Example parseStringList_roundtrip_witness : let es := [mkNetIf (lit "mlx5_0") 1 2 3; mkNetIf (lit "mlx5_1") (-1) 0 7] in
  Forall entryOk es /\ renderList es = lit "mlx5_0:1:2:3,mlx5_1:-1:0:7" /\ parseStringList (Some (renderList es)) 32 = take 32 es.
Proof.
  intros es. assert (H : Forall entryOk es) by (repeat constructor; vm_compute; first [reflexivity|discriminate|lia]).
  split; [exact H|]. split; [vm_compute; reflexivity|]. apply parseStringList_roundtrip. exact H.
Defined.
