(* ===== verification/Devices.v ===== *)
(** * Transport: the adapters of the host ([init.cc], [gdr.cc])

    [ncclIbInitDevices] finds the ports of the adapters, sorts them by PCI path, numbers
    the ports of a card and the planes, and makes one virtual device for each;
    [ncclIbMakeVDevice] merges devices.  What the kernel and the verbs library say is a
    [World]; the tables of the process are a [Devs].  A static array keeps its slots
    beyond the count. *)

From S2P Require Import Prelude CStr HostUtils.

Open Scope Z_scope.
Open Scope nccl_scope.

Definition MAX_IB_DEVS : Z := 32.
Definition MAX_IB_VDEVS : Z := 256.
Definition NCCL_IB_MAX_DEVS_PER_NIC : Z := 8.
Definition MAXNAMESIZE : nat := 80.
Definition MAX_MERGED_DEV_NAME : nat := 648.
Definition NCCL_NET_ID_UNDEF : Z := -1.
Definition NCCL_IB_PLANE_MAX_INDEX : Z := 14.
Definition NCCL_IB_PLANE_VIRT_BIT : Z := Z.shiftl 1 NCCL_IB_PLANE_MAX_INDEX.

(** ** State *)

(** [context] is the number of the adapter whose context it is; [dmaBufSupported] is 0
    while unknown. *)
Record IbDev := mkIbDev {
  device : Z; guid : Z; portNum : Z; link : Z; speed : Z; dev_currSpeed : Z; context : Z;
  devName : cstring; fullPciPath : cstring; pciPath : option cstring; realPort : Z; maxQp : Z; dev_ar : Z;
  oooRqSize : Z; dmaBufSupported : Z; railId : Z; planeId : Z; planeIdx : Z; mlx5 : bool; dataDirect : Z;
}.

Record VProps := mkVProps { vndevs : Z; vdevices : list Z }.

Record IbMergedDev := mkMerged { vProps : VProps; m_speed : Z; m_railId : Z; m_planeId : Z; m_devName : cstring }.

(** An event thread watches the context it was started on; the slot says which device it
    takes the events for. *)
Record AsyncThread := mkAsync { at_context : Z; at_slot : Z }.

Record Devs := mkDevs {
  netRefCount : Z; ncclNIbDevs : Z; ncclNMergedIbDevs : Z; ncclIbDevs : list IbDev; ncclIbMergedDevs : list IbMergedDev;
  asyncThreads : list AsyncThread; dmaBufOnces : list bool;
}.

#[export] Instance eta_IbDev : Eta IbDev := fun r => mkIbDev (device r) (guid r) (portNum r) (link r) (speed r) (dev_currSpeed r)
  (context r) (devName r) (fullPciPath r) (pciPath r) (realPort r) (maxQp r) (dev_ar r) (oooRqSize r) (dmaBufSupported r)
  (railId r) (planeId r) (planeIdx r) (mlx5 r) (dataDirect r).
#[export] Instance eta_VProps : Eta VProps := fun r => mkVProps (vndevs r) (vdevices r).
#[export] Instance eta_Merged : Eta IbMergedDev := fun r =>
  mkMerged (vProps r) (m_speed r) (m_railId r) (m_planeId r) (m_devName r).
#[export] Instance eta_Devs : Eta Devs := fun r => mkDevs (netRefCount r) (ncclNIbDevs r) (ncclNMergedIbDevs r) (ncclIbDevs r)
  (ncclIbMergedDevs r) (asyncThreads r) (dmaBufOnces r).

Definition zeroDev : IbDev := mkIbDev 0 0 0 0 0 0 0 [] [] None 0 0 0 0 0 0 0 0 false 0.
Definition zeroMerged : IbMergedDev := mkMerged (mkVProps 0 (replicate 8 0)) 0 0 0 [].

(** The tables before the first use. *)
Definition initial : Devs :=
  mkDevs 0 (-1) (-1) (replicate (Z.to_nat MAX_IB_DEVS) zeroDev) (replicate (Z.to_nat MAX_IB_VDEVS) zeroMerged) []
    (replicate (Z.to_nat MAX_IB_DEVS) false).

Abbreviation devm := (comp Devs).

Definition devAt (i : Z) : devm IbDev := let* s := getS in of_option (zget (ncclIbDevs s) i).
Definition modDev (i : Z) (f : IbDev -> IbDev) : devm unit :=
  let* s := getS in
  let* d := of_option (zget (ncclIbDevs s) i) in
  let* ds := of_option (zset (ncclIbDevs s) i (f d)) in
  modify (fun s => s <| ncclIbDevs := ds |>).
Definition mergedAt (i : Z) : devm IbMergedDev := let* s := getS in of_option (zget (ncclIbMergedDevs s) i).
Definition modMerged (i : Z) (f : IbMergedDev -> IbMergedDev) : devm unit :=
  let* s := getS in
  let* d := of_option (zget (ncclIbMergedDevs s) i) in
  let* ds := of_option (zset (ncclIbMergedDevs s) i (f d)) in
  modify (fun s => s <| ncclIbMergedDevs := ds |>).

(** [NCCLCHECK] and [NCCLCHECKGOTO] of a result: what is at [fail] only returns it. *)
Definition check_ (r : ncclResult_t) : devm unit := if bool_decide (r = ncclSuccess) then ret tt else fail r.

(** ** Parameters *)

Record DevParams := mkDevParams {
  IbDisable : Z; IbMergeVfs : Z; IbMergeNics : Z; IbDevicePciOrder : Z; IbDataDirect : Z; IbOooRq : Z; MrcNumPlanes : Z;
  IbAdaptiveRouting : Z; MrcMultiRecvEnable : Z;
}.

(** ** Paths *)

Section WithParams.
Context (p : DevParams).

(** [strlen] is unsigned: a short path is compared as a whole. *)
Definition ncclIbMatchVfPath (path1 path2 : cstring) : bool :=
strnceq path1 path2 (u64 (Z.of_nat (length path1) - (if IbMergeVfs p =? 0 then 1 else 4))).

Definition ncclIbCompareDevs (dev1 dev2 : IbDev) : option Z :=
let path1 := fullPciPath dev1 in let path2 := fullPciPath dev2 in
if (Z.of_nat (length path1) =? 0) || (Z.of_nat (length path2) =? 0) then Some (Z.of_nat (length path2) - Z.of_nat (length path1))
else id1 ← pciPathToInt64 path1; id2 ← pciPathToInt64 path2; Some (if id1 <? id2 then -1 else if id1 =? id2 then 0 else 1).

(** The path with the function, and with [NCCL_IB_MERGE_VFS] the device, set to 0; and the
real path as it is.  [realpath] gives none when there is no such device. *)
Definition ncclIbGetPciPath (realpath : option cstring) : devm (option cstring * cstring) :=
match realpath with
| None => ret (None, [])
| Some s =>
let n := Z.of_nat (length s) in
let* p1 := of_option (zset s (n - 1) (chr 48)) in
let* p2 := (if IbMergeVfs p =? 0 then ret p1
        else let* a := of_option (zset p1 (n - 4) (chr 48)) in of_option (zset a (n - 3) (chr 48))) in
ret (Some p2, s)
end.

(** [strncmp] of a null path. *)
Fixpoint realPort_loop (path : cstring) (ds : list IbDev) (acc : Z) : option Z :=
match ds with
| [] => Some acc
| d :: ds => q ← pciPath d; realPort_loop path ds (if ncclIbMatchVfPath path q then acc + 1 else acc)
end.

Definition ncclIbGetRealPort (path : option cstring) (devs : list IbDev) (devIdx : Z) : option Z :=
match path with None => Some 0 | Some path => realPort_loop path (take (Z.to_nat devIdx) devs) 0 end.

(** ** Planes and speeds *)

(** The planes seen and the index of this one among them. *)
Fixpoint planeFind (devPlane : Z) (planes : list Z) (i : Z) : Z :=
match planes with [] => i | x :: l => if x =? devPlane then i else planeFind devPlane l (i + 1) end.

Definition ncclIbGetPlaneIndex (devPlane : Z) (planes : list Z) : devm (list Z * Z) :=
let i := planeFind devPlane planes 0 in
if i =? Z.of_nat (length planes) then
if i =? NCCL_IB_PLANE_MAX_INDEX - 1 then fail ncclInvalidUsage
else if negb (devPlane =? NCCL_NET_ID_UNDEF) && negb (Z.land devPlane NCCL_IB_PLANE_VIRT_BIT =? 0) then fail ncclInvalidUsage
else ret (planes ++ [devPlane], i)
else ret (planes, i).

Definition ibvWidths : list Z := [1; 4; 8; 12; 2].
Definition ibvSpeeds : list Z := [2500; 5000; 10000; 10000; 14000; 25000; 50000; 100000; 200000].

Fixpoint firstBit_loop (fuel : nat) (val max i : Z) : Z :=
match fuel with
| O => i
| Datatypes.S f => if (i <? max) && (Z.land val (Z.shiftl 1 i) =? 0) then firstBit_loop f val max (i + 1) else i
end.
Definition firstBitSet (val max : Z) : Z := firstBit_loop (Z.to_nat max) val max 0.

Definition ncclIbWidth (width : Z) : option Z := zget ibvWidths (firstBitSet width (Z.of_nat (length ibvWidths) - 1)).
Definition ncclIbSpeed (sp : Z) : option Z := zget ibvSpeeds (firstBitSet sp (Z.of_nat (length ibvSpeeds) - 1)).

(** ** Virtual devices *)

(** One device of the list joins the virtual device in slot [n]. *)
Definition joinDev (n : Z) (props : VProps) (i : Z) : devm unit :=
let* k := of_option (zget (vdevices props) i) in
let* m := mergedAt n in
if vndevs (vProps m) =? NCCL_IB_MAX_DEVS_PER_NIC then fail ncclInvalidUsage
else
let* ds := of_option (zset (vdevices (vProps m)) (vndevs (vProps m)) k) in
let* dev := devAt k in
modMerged n (fun m =>
let m := m <| vProps := mkVProps (vndevs (vProps m) + 1) ds |> <| m_speed := m_speed m + speed dev |> in
let m := if (railId dev =? NCCL_NET_ID_UNDEF) || negb (m_railId m =? railId dev) then m <| m_railId := NCCL_NET_ID_UNDEF |> else m in
let m := if 1 <? vndevs props then m <| m_planeId := i16 (Z.lor (m_planeId m) (Z.shiftl 1 (planeIdx dev))) |> else m in
m <| m_devName := if 1 <? vndevs (vProps m)
              then m_devName m ++ snprintf_s (MAX_MERGED_DEV_NAME - length (m_devName m)) (chr 43 :: devName dev)
              else take MAXNAMESIZE (devName dev) |>).

(** The device [i] of the list has the link layer of the first. *)
Definition checkLink (props : VProps) (i : Z) : devm unit :=
let* k0 := of_option (zget (vdevices props) 0) in
let* dev0 := devAt k0 in
let* k := of_option (zget (vdevices props) i) in
let* s := getS in
if ncclNIbDevs s <=? k then fail ncclInvalidUsage
else let* dev := devAt k in if negb (link dev =? link dev0) then fail ncclInvalidUsage else ret tt.

Definition ncclIbMakeVDeviceInternal (props : VProps) : devm Z :=
if (IbMergeNics p =? 0) && (1 <? vndevs props) then fail ncclInvalidUsage
else if vndevs props =? 0 then fail ncclInvalidUsage
else
let* s := getS in
let n := ncclNMergedIbDevs s in
if n =? MAX_IB_VDEVS then fail ncclInvalidUsage
else
let* k0 := of_option (zget (vdevices props) 0) in
let* dev0 := devAt k0 in
modMerged n (fun m => m <| vProps := (vProps m) <| vndevs := 0 |> |> <| m_speed := 0 |> <| m_railId := railId dev0 |>
<| m_planeId := if 1 <? vndevs props then NCCL_IB_PLANE_VIRT_BIT else planeId dev0 |>) ;;;
forN (vndevs props) (joinDev n props) ;;;
for_ (Z.to_nat (vndevs props - 1)) 1 (checkLink props) ;;;
modify (fun s => s <| ncclNMergedIbDevs := n + 1 |>) ;;;
ret n.

Definition ncclIbMakeVDevice (props : VProps) : devm Z := ncclIbMakeVDeviceInternal props.

(** ** Discovery *)

Definition IBV_LINK_LAYER_INFINIBAND : Z := 1.
Definition IBV_LINK_LAYER_ETHERNET : Z := 2.

(** What [query_port] says of a port, and the results of [mrc_create_context] and
[ncclIbGidInfoQuery] on it. *)
Record PortInfo := mkPortInfo {
pt_active : bool; pt_link_layer : Z; pt_active_speed : Z; pt_active_speed_ex : Z; pt_active_width : Z;
pt_mrc : ncclResult_t; pt_gid : ncclResult_t;
}.

Record DeviceAttr := mkDeviceAttr { phys_port_cnt : Z; max_qp : Z; sys_image_guid : Z }.

(** An adapter of the verbs library: its name, whether it opens, is an mlx5 one, what its
queries say (none: the query fails), whether closing works, the DMA-BUF probe, the data
direct path and the real path of its entry in sysfs. *)
Record Hca := mkHca {
hc_name : cstring; hc_opens : bool; hc_mlx5 : bool; hc_ooo : option (bool * Z); hc_attr : option DeviceAttr; hc_closes : bool;
hc_alloc_pd : bool; hc_dmabuf_errno : bool; hc_dealloc_pd : bool; hc_data_direct : ncclResult_t * cstring;
hc_realpath : option cstring; hc_ports : list (option PortInfo);
}.

(** [w_interfaces] is the number of IP interfaces found, [w_devices] the list of adapters. *)
Record World := mkWorld {
w_symbols : bool; w_interfaces : outcome Z; w_hca : option cstring; w_devices : option (list Hca); w_freed : bool;
}.

(** Some verbs call said the kernel has no DMA-BUF registration. *)
Definition ncclMlx5dvDmaBufCapable (h : Hca) : bool := hc_alloc_pd h && hc_dealloc_pd h && negb (hc_dmabuf_errno h).

(** The query gives the capability bit and the size. *)
Definition ncclIbQueryOooRqSize (h : Hca) : devm Z :=
if IbOooRq p =? 0 then ret 0
else match hc_ooo h with
 | None => fail ncclInternalError
 | Some (capable, max_rc) => ret (if capable && (0 <? max_rc) then max_rc else 0)
 end.

(** [searchNot], [searchExact] and the user's list. *)
Record UserIfs := mkUserIfs { searchNot : bool; searchExact : bool; userIfs : list netIf }.

Definition skipIf (c : ascii) (env : option cstring) : bool * option cstring :=
match env with Some (x :: s) => if ceqb x c then (true, Some s) else (false, env) | _ => (false, env) end.

Definition readUserIfs (env : option cstring) : UserIfs :=
let '(not, env) := skipIf (chr 94) env in
let '(exact, env) := skipIf (chr 61) env in
mkUserIfs not exact (parseStringList env (Z.to_nat MAX_IB_DEVS)).

(** A zero or negative number of planes is 1. *)
Definition portSpeed (pt : PortInfo) : option Z :=
let sp := if pt_active_speed_ex pt =? 0 then pt_active_speed pt else pt_active_speed_ex pt in
a ← ncclIbSpeed sp; b ← ncclIbWidth (pt_active_width pt);
Some (i32 (a * b * (if MrcNumPlanes p <=? 0 then 1 else MrcNumPlanes p))).

Definition adaptiveRouting (pt : PortInfo) : Z :=
let ar := if pt_link_layer pt =? IBV_LINK_LAYER_INFINIBAND then 1 else 0 in
let ar := if negb (IbAdaptiveRouting p =? -2) then IbAdaptiveRouting p else ar in
if negb (ar =? 0) then 0 else ar.

(** The body of [for (dev = devOffset; dev < devCount; ++dev)]: the port becomes the next
device.  [u] is the entry of the user's list that matched. *)
Definition addDevice (d : Z) (h : Hca) (attr : DeviceAttr) (port_num : Z) (pt : PortInfo) (ooo : Z) (ddPath : cstring)
(u : option netIf) (dev : Z) : devm unit :=
let* s := getS in
let n := ncclNIbDevs s in
let* sp := of_option (portSpeed pt) in
modDev n (fun x => x <| device := d |> <| mlx5 := hc_mlx5 h |> <| guid := sys_image_guid attr |> <| portNum := u8 port_num |>
<| link := u8 (pt_link_layer pt) |> <| speed := sp |> <| dev_currSpeed := u64 sp |> <| context := d |>) ;;;
check_ (pt_mrc pt) ;;;
let* '(path, full) := ncclIbGetPciPath (hc_realpath h) in
modDev n (fun x =>
let x := x <| devName := take MAXNAMESIZE (hc_name h) |> <| fullPciPath := full |> in
let x := if dev =? 1 then x <| devName := snprintf_s MAXNAMESIZE (hc_name h ++ lit "_dma") |> <| pciPath := Some ddPath |>
                      <| dataDirect := 1 |>
   else x <| pciPath := path |> in
x <| maxQp := max_qp attr |> <| oooRqSize := ooo |>
<| railId := match u with Some e => rail e | None => -1 end |> <| planeId := match u with Some e => plane e | None => -1 end |>
<| dev_ar := adaptiveRouting pt |>) ;;;
check_ (pt_gid pt) ;;;
modify (fun s => s <| asyncThreads := asyncThreads s ++ [mkAsync d n] |> <| ncclNIbDevs := n + 1 |>).

(** What the loop over the ports of an adapter keeps: [devCount], -1 while the data direct
support is not known, [devOffset], the data direct path and the devices added. *)
Record PortLoop := mkPortLoop { devCount : Z; devOffset : Z; ddPath : cstring; nPorts : Z }.

Definition sysPrefix : cstring := lit "/sys".

Definition dataDirectSupport (h : Hca) (l : PortLoop) : devm PortLoop :=
if negb (devCount l =? -1) then ret l
else if (0 <? IbDataDirect p) && hc_mlx5 h && ncclMlx5dvDmaBufCapable h then
match hc_data_direct h with
| (ncclSuccess, path) => ret (mkPortLoop 2 (if IbDataDirect p =? 2 then 0 else 1) (sysPrefix ++ path) (nPorts l))
| (ncclInvalidArgument, _) => ret (mkPortLoop 1 0 (ddPath l) (nPorts l))
| (r, _) => fail r
end
else ret (mkPortLoop 1 0 (ddPath l) (nPorts l)).

(** The entry of the user's list, when the port is one the user wants. *)
Definition selectPort (us : UserIfs) (h : Hca) (port_num : Z) : option (option netIf) :=
let '(found, id) := matchIfList (hc_name h) port_num (userIfs us) (searchExact us) in
if xorb found (searchNot us) then Some (zget (userIfs us) id) else None.

Fixpoint ports_loop (us : UserIfs) (d : Z) (h : Hca) (attr : DeviceAttr) (ooo : Z) (n : nat) (port_num : Z) (l : PortLoop)
: devm PortLoop :=
match n with
| O => ret l
| Datatypes.S n' =>
let next := ports_loop us d h attr ooo n' (port_num + 1) in
match (pt ← zget (hc_ports h) (port_num - 1); pt) with
| None => next l
| Some pt =>
if negb (pt_active pt) then next l
else if negb (pt_link_layer pt =? IBV_LINK_LAYER_INFINIBAND) && negb (pt_link_layer pt =? IBV_LINK_LAYER_ETHERNET) then next l
else match selectPort us h port_num with
     | None => next l
     | Some u =>
         let* l := dataDirectSupport h l in
         for_ (Z.to_nat (devCount l - devOffset l)) (devOffset l) (addDevice d h attr port_num pt ooo (ddPath l) u) ;;;
         next (mkPortLoop (devCount l) (devOffset l) (ddPath l) (nPorts l + (devCount l - devOffset l)))
     end
end
end.

(** One adapter: an adapter that does not open or cannot be queried is passed over. *)
Definition probe (us : UserIfs) (d : Z) (h : Hca) : devm unit :=
if negb (hc_opens h) then ret tt
else
let* ooo := (if hc_mlx5 h && negb (IbOooRq p =? 0) then ncclIbQueryOooRqSize h else ret 0) in
match hc_attr h with
| None => if hc_closes h then ret tt else fail ncclInternalError
| Some attr =>
let* l := ports_loop us d h attr ooo (Z.to_nat (phys_port_cnt attr)) 1 (mkPortLoop (-1) 0 sysPrefix 0) in
if (nPorts l =? 0) && negb (hc_closes h) then fail ncclInternalError else ret tt
end.

(** The number of devices is looked at between adapters only. *)
Fixpoint probeAll (us : UserIfs) (d : Z) (hs : list Hca) : devm unit :=
match hs with
| [] => ret tt
| h :: hs =>
let* s := getS in
if ncclNIbDevs s <? MAX_IB_DEVS then probe us d h ;;; probeAll us (d + 1) hs else ret tt
end.

Definition detect (w : World) : devm unit :=
modify (fun s => s <| ncclNIbDevs := 0 |> <| ncclNMergedIbDevs := 0 |>) ;;;
let* nIpIfs := (fun s => (w_interfaces w, s)) in
if negb (nIpIfs =? 1) then fail ncclInternalError
else match w_devices w with
 | None => fail ncclInternalError
 | Some hs => probeAll (readUserIfs (w_hca w)) 0 hs ;;; if w_freed w then ret tt else fail ncclInternalError
 end.

(** ** Order, ports and planes *)

(** [qsort] of the C library, as an insertion sort: any sort is the same up to the order of
devices that compare equal. *)
Fixpoint insertDev (x : IbDev) (l : list IbDev) : option (list IbDev) :=
match l with
| [] => Some [x]
| y :: l' => c ← ncclIbCompareDevs y x; if c <=? 0 then l'' ← insertDev x l'; Some (y :: l'') else Some (x :: y :: l')
end.
Definition qsort (l : list IbDev) : option (list IbDev) := fold_left (fun acc x => a ← acc; insertDev x a) l (Some []).

(** The plane index, the real port and the virtual device of device [d]. *)
Definition arrangeOne (d : Z) (planes : list Z) : devm (list Z) :=
let* x := devAt d in
let* '(planes, i) := ncclIbGetPlaneIndex (planeId x) planes in
modDev d (fun x => x <| planeIdx := i |>) ;;;
let* s := getS in
let* rp := of_option (ncclIbGetRealPort (pciPath x) (ncclIbDevs s) d) in
modDev d (fun x => x <| realPort := rp |>) ;;;
let* _ := ncclIbMakeVDeviceInternal (mkVProps 1 (d :: replicate 7 0)) in
ret planes.

Fixpoint arrange_loop (n : nat) (d : Z) (planes : list Z) : devm unit :=
match n with O => ret tt | Datatypes.S n' => let* planes := arrangeOne d planes in arrange_loop n' (d + 1) planes end.

Definition arrange : devm unit :=
(if IbDevicePciOrder p =? 0 then ret tt
 else let* s := getS in
let n := Z.to_nat (ncclNIbDevs s) in
let* l := of_option (qsort (take n (ncclIbDevs s))) in
modify (fun s => s <| ncclIbDevs := l ++ drop n (ncclIbDevs s) |>)) ;;;
let* s := getS in
arrange_loop (Z.to_nat (ncclNIbDevs s)) 0 [NCCL_NET_ID_UNDEF].

Definition ncclIbInitDevices (w : World) : devm unit :=
let* s := getS in
modify (fun s => s <| netRefCount := netRefCount s + 1 |>) ;;;
if negb (netRefCount s =? 0) then ret tt
else if negb (IbDisable p =? 0) then fail ncclInternalError
else if negb (w_symbols w) then fail ncclInternalError
else if ncclNIbDevs s =? -1 then detect w ;;; arrange
else ret tt.

Definition ncclIbFinalizeDevices : devm unit := modify (fun s => s <| netRefCount := netRefCount s - 1 |>).

(** [threadStart] and [threadStop] are the results of the recovery thread's. *)
Definition ncclIbInit (w : World) (trafficClass : Z) (threadStart : ncclResult_t) : devm Z :=
ncclIbInitDevices w ;;; check_ threadStart ;;; ret trafficClass.

Definition ncclIbFinalize (threadStop : ncclResult_t) : devm unit := check_ threadStop ;;; ncclIbFinalizeDevices.

Definition ncclIbDevices : devm Z := gets ncclNMergedIbDevs.

(** ** Properties *)

(** What the kernel says of a DMA-BUF registration on a device: as for [Hca]. *)
Record DmaProbe := mkDmaProbe { dp_alloc_pd : bool; dp_errno : bool; dp_dealloc_pd : bool }.

Definition ibDmaBufSupportInitOnce (probe : Z -> DmaProbe) (dev : Z) : devm unit :=
let* m := mergedAt dev in
let* k := of_option (zget (vdevices (vProps m)) 0) in
let* x := devAt k in
let r := probe (context x) in
modDev k (fun x => x <| dmaBufSupported := if dp_alloc_pd r && dp_dealloc_pd r && negb (dp_errno r) then 1 else -1 |>).

(** [dev] is the number of a virtual device; each is asked for once. *)
Definition ncclIbDmaBufSupport (probe : Z -> DmaProbe) (dev : Z) : devm ncclResult_t :=
let* s := getS in
let* asked := of_option (zget (dmaBufOnces s) dev) in
(if asked then ret tt
 else ibDmaBufSupportInitOnce probe dev ;;;
let* s := getS in
let* os := of_option (zset (dmaBufOnces s) dev true) in
modify (fun s => s <| dmaBufOnces := os |>)) ;;;
let* m := mergedAt dev in
let* k := of_option (zget (vdevices (vProps m)) 0) in
let* x := devAt k in
ret (if dmaBufSupported x =? 1 then ncclSuccess else ncclSystemError).

Definition NCCL_PTR_HOST : Z := 1.
Definition NCCL_PTR_CUDA : Z := 2.
Definition NCCL_PTR_DMABUF : Z := 4.
Definition NCCL_NET_IB_MAX_RECVS : Z := 8.

(** The fields that differ between devices. *)
Record NetProperties := mkProperties {
np_name : cstring; np_speed : Z; np_pciPath : option cstring; np_guid : Z; np_ptrSupport : Z; np_port : Z; np_maxComms : Z;
np_maxRecvs : Z; np_railId : Z; np_planeId : Z; np_vProps : option VProps;
}.
#[export] Instance eta_NetProperties : Eta NetProperties := fun r => mkProperties (np_name r) (np_speed r) (np_pciPath r)
(np_guid r) (np_ptrSupport r) (np_port r) (np_maxComms r) (np_maxRecvs r) (np_railId r) (np_planeId r) (np_vProps r).

Definition ncclIbGetPhysProperties (gdr : ncclResult_t) (probe : Z -> DmaProbe) (dev : Z) : devm NetProperties :=
let* x := devAt dev in
let* dma := ncclIbDmaBufSupport probe dev in
let ptr := Z.lor NCCL_PTR_HOST (if bool_decide (gdr = ncclSuccess) then NCCL_PTR_CUDA else 0) in
ret (mkProperties (devName x) (speed x) (pciPath x) (guid x)
(Z.lor ptr (if bool_decide (dma = ncclSuccess) then NCCL_PTR_DMABUF else 0)) (portNum x + realPort x) (maxQp x)
(if MrcMultiRecvEnable p =? 0 then 1 else NCCL_NET_IB_MAX_RECVS) (railId x) (planeId x) None).

Definition ncclIbGetProperties (gdr : ncclResult_t) (probe : Z -> DmaProbe) (dev : Z) : devm NetProperties :=
let* s := getS in
if ncclNMergedIbDevs s <=? dev then fail ncclInvalidUsage
else
let* m := mergedAt dev in
let* k := of_option (zget (vdevices (vProps m)) 0) in
let* r := ncclIbGetPhysProperties gdr probe k in
ret (r <| np_name := m_devName m |> <| np_speed := m_speed m |> <| np_railId := m_railId m |> <| np_planeId := m_planeId m |>
 <| np_vProps := Some (vProps m) |>).
End WithParams.
