(* ===== verification/DevicesSpec.v ===== *)
(** * Transport: the adapters of the host, verified

    Discovery against a reference list of the ports the user wants, the order of the
    devices, the numbers of ports and planes, and what a merged device says of its parts. *)

From S2P Require Import Prelude CStr HostUtils Devices.
From Stdlib Require Import Sorted.

Open Scope Z_scope.
Open Scope nccl_scope.

(** ** Outcomes *)

(** [m] does not fault from [s], and ends with [Q] when it ends normally. *)
Definition noFault {A} (m : devm A) (Q : A -> Devs -> Prop) (s : Devs) : Prop :=
  match m s with (Done a, s') => Q a s' | (Fail _, _) => True | (Fault, _) => False end.

Lemma noFault_bind {A B} (m : devm A) (k : A -> devm B) Q s : noFault m (fun a => noFault (k a) Q) s -> noFault (bind m k) Q s.
Proof. unfold noFault, bind. by destruct (m s) as [[]]. Qed.

Lemma noFault_mono {A} (m : devm A) (P Q : A -> Devs -> Prop) s : noFault m P s -> (forall a s', P a s' -> Q a s') -> noFault m Q s.
Proof. unfold noFault. intros H HPQ. destruct (m s) as [[a| |] s']; auto. Qed.

Lemma noFault_done {A} (m : devm A) a s s' (Q : A -> Devs -> Prop) : m s = (Done a, s') -> Q a s' -> noFault m Q s.
Proof. unfold noFault. by intros ->. Qed.

Lemma noFault_check r (Q : unit -> Devs -> Prop) s : (r = ncclSuccess -> Q tt s) -> noFault (check_ r) Q s.
Proof. unfold noFault, check_. case_bool_decide; cbn; auto. Qed.

Lemma modDev_zget i f s x : zget (ncclIbDevs s) i = Some x ->
  modDev i f s = (Done tt, s <| ncclIbDevs := zupd (ncclIbDevs s) i (f x) |>).
Proof.
  intros E. unfold modDev. nred. rewrite (bind_some _ _ _ _ E), (bind_some _ _ _ _ (zset_is_Some _ _ (f x) (zget_Some _ _ _ E))). done.
Qed.

Lemma modMerged_zget i f s x : zget (ncclIbMergedDevs s) i = Some x ->
  modMerged i f s = (Done tt, s <| ncclIbMergedDevs := zupd (ncclIbMergedDevs s) i (f x) |>).
Proof.
  intros E. unfold modMerged. nred. rewrite (bind_some _ _ _ _ E), (bind_some _ _ _ _ (zset_is_Some _ _ (f x) (zget_Some _ _ _ E))). done.
Qed.

Lemma devAt_zget i s x : zget (ncclIbDevs s) i = Some x -> devAt i s = (Done x, s).
Proof. intros E. unfold devAt. nred. by rewrite E. Qed.

Lemma mergedAt_zget i s x : zget (ncclIbMergedDevs s) i = Some x -> mergedAt i s = (Done x, s).
Proof. intros E. unfold mergedAt. nred. by rewrite E. Qed.

(** ** Virtual devices *)

Definition common (r0 : Z) (rs : list Z) : Z := if forallb (Z.eqb r0) rs then r0 else NCCL_NET_ID_UNDEF.
Fixpoint plusJoin (names : list cstring) : cstring :=
  match names with [] => [] | [x] => x | x :: l => x ++ chr 43 :: plusJoin l end.

(** What the virtual device says of its devices [xs], numbers [ks]. *)
Record merges (multi : bool) (ks : list Z) (xs : list IbDev) (m : IbMergedDev) : Prop := {
  mg_ndevs : vndevs (vProps m) = Z.of_nat (length ks);
  mg_room : length (vdevices (vProps m)) = 8%nat;
  mg_devs : take (length ks) (vdevices (vProps m)) = ks;
  mg_speed : m_speed m = fold_right Z.add 0 (map speed xs);
  mg_rail : forall x, head xs = Some x -> m_railId m = common (railId x) (map railId xs);
  mg_plane : if multi then 0 <= m_planeId m < 2 ^ 15
               /\ forall k, 0 <= k -> Z.testbit (m_planeId m) k = (k =? NCCL_IB_PLANE_MAX_INDEX) || existsb (fun x => planeIdx x =? k) xs
             else forall x, head xs = Some x -> m_planeId m = planeId x;
  mg_name : m_devName m = plusJoin (map devName xs) \/ xs = [];
}.

Lemma plusJoin_snoc names x : names <> [] -> plusJoin (names ++ [x]) = plusJoin names ++ chr 43 :: x.
Proof.
  induction names as [|y [|z l] IH]; [done|done|]. intros _. cbn [app plusJoin] in *. rewrite IH by done. by rewrite <- app_assoc.
Qed.

Lemma plusJoin_length names : Forall (fun n : cstring => (length n <= 79)%nat) names -> (length (plusJoin names) <= 80 * length names)%nat.
Proof.
  induction 1 as [|x l Hx _ IH]; cbn [plusJoin length]; [lia|]. destruct l; cbn [length] in *; [lia|]. rewrite length_app. cbn [length]. lia.
Qed.

Lemma common_snoc r0 rs r : common r0 (rs ++ [r])
  = if (r =? NCCL_NET_ID_UNDEF) || negb (common r0 rs =? r) then NCCL_NET_ID_UNDEF else common r0 rs.
Proof.
  unfold common. rewrite forallb_app. cbn [forallb]. rewrite andb_true_r.
  destruct (forallb (Z.eqb r0) rs) eqn:E; cbn [andb].
  - destruct (r0 =? r) eqn:E1; [apply Z.eqb_eq in E1 as ->|]; cbn; [|by rewrite orb_true_r]. rewrite orb_false_r.
    destruct (r =? NCCL_NET_ID_UNDEF) eqn:E2; [|done]. lia.
  - by destruct (_ || _).
Qed.

(** The devices of a list. *)
Definition devsAt (s : Devs) (ks : list Z) (xs : list IbDev) : Prop := Forall2 (fun k x => zget (ncclIbDevs s) k = Some x) ks xs.

Definition nameOk (x : IbDev) : Prop := (length (devName x) <= 79)%nat.
Definition planeOk (x : IbDev) : Prop := 0 <= planeIdx x < NCCL_IB_PLANE_MAX_INDEX.

Lemma testbit_bound a n : 0 <= n -> 0 <= a -> (forall k, n <= k -> Z.testbit a k = false) -> a < 2 ^ n.
Proof.
  intros Hn Ha H. destruct (Z.eq_dec a 0) as [->|]; [apply Z.pow_pos_nonneg; lia|]. apply Z.log2_lt_pow2; [lia|].
  destruct (Z.lt_ge_cases (Z.log2 a) n) as [|Hge]; [done|]. pose proof (Z.bit_log2 a ltac:(lia)) as Hb. rewrite H in Hb by done. done.
Qed.

Lemma plane_snoc a xs x : 0 <= a < 2 ^ 15 -> planeOk x ->
  (forall k, 0 <= k -> Z.testbit a k = (k =? NCCL_IB_PLANE_MAX_INDEX) || existsb (fun x => planeIdx x =? k) xs) ->
  let b := i16 (Z.lor a (Z.shiftl 1 (planeIdx x))) in
  0 <= b < 2 ^ 15 /\ forall k, 0 <= k -> Z.testbit b k = (k =? NCCL_IB_PLANE_MAX_INDEX) || existsb (fun x => planeIdx x =? k) (xs ++ [x]).
Proof.
  intros Ha Hx Hb b. unfold planeOk, NCCL_IB_PLANE_MAX_INDEX in *.
  assert (Hbit : forall k, 0 <= k -> Z.testbit (Z.lor a (Z.shiftl 1 (planeIdx x))) k = Z.testbit a k || (planeIdx x =? k)).
  { intros k Hk. rewrite Z.lor_spec, Z.shiftl_1_l, Z.pow2_bits_eqb by lia. done. }
  assert (Hr : 0 <= Z.lor a (Z.shiftl 1 (planeIdx x)) < 2 ^ 15).
  { split; [apply Z.lor_nonneg; split; [lia|]; apply Z.shiftl_nonneg; lia|]. apply testbit_bound; [lia|apply Z.lor_nonneg; split; [lia|]; apply Z.shiftl_nonneg; lia|].
    intros k Hk. rewrite Hbit by lia. rewrite (proj2 (Z.eqb_neq _ _)) by lia. rewrite orb_false_r.
    destruct (Z.eq_dec a 0) as [->|]; [apply Z.bits_0|]. apply Z.bits_above_log2; [lia|]. apply Z.log2_lt_pow2; [lia|].
    apply Z.lt_le_trans with (2 ^ 15); [lia|]. apply Z.pow_le_mono_r; lia. }
  assert (Hi : b = Z.lor a (Z.shiftl 1 (planeIdx x))) by (unfold b; apply wrapS_small; [lia|]; unfold in_s; lia).
  rewrite Hi. split; [exact Hr|]. intros k Hk. rewrite Hbit, Hb, existsb_app by lia. cbn. by rewrite orb_false_r, orb_assoc.
Qed.

Definition joined (multi : bool) (k : Z) (x : IbDev) (m : IbMergedDev) : IbMergedDev :=
  mkMerged (mkVProps (vndevs (vProps m) + 1) (zupd (vdevices (vProps m)) (vndevs (vProps m)) k)) (m_speed m + speed x)
    (if (railId x =? NCCL_NET_ID_UNDEF) || negb (m_railId m =? railId x) then NCCL_NET_ID_UNDEF else m_railId m)
    (if multi then i16 (Z.lor (m_planeId m) (Z.shiftl 1 (planeIdx x))) else m_planeId m)
    (if 1 <? vndevs (vProps m) + 1 then m_devName m ++ snprintf_s (MAX_MERGED_DEV_NAME - length (m_devName m)) (chr 43 :: devName x)
     else take MAXNAMESIZE (devName x)).

Lemma head_snoc_ne {A} (xs : list A) y x : head (xs ++ [x]) = Some y -> xs <> [] -> head xs = Some y.
Proof. by destruct xs. Qed.

Lemma take_zupd {A} (l : list A) ks k : take (length ks) l = ks -> (length ks < length l)%nat ->
  take (length (ks ++ [k])) (zupd l (Z.of_nat (length ks)) k) = ks ++ [k].
Proof.
  intros Ht Hl. rewrite length_app, Nat.add_1_r. unfold zupd. rewrite decide_True, Nat2Z.id by lia.
  rewrite (take_S_r _ _ k) by (apply list_lookup_insert_eq; lia). by rewrite take_insert_ge, Ht by lia.
Qed.

(** One more device joins. *)
Lemma joined_merges multi ks xs k x m : (multi = false -> xs = []) -> length ks = length xs -> (length ks < 8)%nat -> Forall nameOk xs -> nameOk x ->
  planeOk x -> merges multi ks xs m ->
  (xs = [] -> m_railId m = railId x /\ (multi = false -> m_planeId m = planeId x)) ->
  merges multi (ks ++ [k]) (xs ++ [x]) (joined multi k x m).
Proof.
  intros Hmulti Hlen H8 Hnames Hname Hplane [M1 M2 M3 M4 M5 M6 M7] Hfirst. split; cbn.
  - rewrite length_app. cbn. lia.
  - by rewrite length_zupd.
  - rewrite M1. apply take_zupd; [exact M3|lia].
  - rewrite M4, map_app, fold_right_app. cbn. clear. induction (map speed xs) as [|v l IH]; cbn; lia.
  - intros y Hy. rewrite map_app. cbn [map]. rewrite common_snoc. destruct xs as [|x1 xs].
    + injection Hy as <-. destruct (Hfirst eq_refl) as [-> _]. cbn. by rewrite Z.eqb_refl.
    + apply head_snoc_ne in Hy; [|done]. by rewrite (M5 y Hy).
  - destruct multi.
    + destruct M6 as [Hr Hb]. by apply plane_snoc.
    + rewrite (Hmulti eq_refl) in *. intros y [= <-]. by apply Hfirst.
  - left. destruct M7 as [M7| ->].
    + destruct xs as [|x1 xs].
      { rewrite M1, Hlen. replace (1 <? _) with false by done. apply take_ge. unfold nameOk in *. cbn. lia. }
      rewrite (proj2 (Z.ltb_lt _ _)) by (rewrite M1, Hlen; cbn; lia). rewrite map_app. cbn [map]. rewrite plusJoin_snoc by done.
      rewrite M7. f_equal. unfold snprintf_s. apply take_ge.
      pose proof (plusJoin_length (map devName (x1 :: xs))) as Hj. rewrite length_map in Hj.
      specialize (Hj ltac:(by apply Forall_map)). unfold nameOk, MAX_MERGED_DEV_NAME in *. cbn [length] in *. lia.
    + rewrite M1, Hlen. replace (1 <? _) with false by done. apply take_ge. unfold nameOk in *. cbn. lia.
Qed.

Definition withMerged (n : Z) (m : IbMergedDev) (s : Devs) : Devs := s <| ncclIbMergedDevs := zupd (ncclIbMergedDevs s) n m |>.

Lemma withMerged_again n m s v : (withMerged n m s) <| ncclIbMergedDevs := v |> = s <| ncclIbMergedDevs := v |>.
Proof. reflexivity. Qed.

(** A request to merge the devices [ks], which are [xs]. *)
Record request (s : Devs) (props : VProps) (ks : list Z) (xs : list IbDev) : Prop := {
  rq_ndevs : vndevs props = Z.of_nat (length ks);
  rq_devs : take (length ks) (vdevices props) = ks;
  rq_at : devsAt s ks xs;
  rq_names : Forall nameOk xs;
  rq_planes : Forall planeOk xs;
}.

Section Make.
Context (s : Devs) (props : VProps) (ks : list Z) (xs : list IbDev).
Hypothesis Hrq : request s props ks xs.
Hypothesis Hn : 0 <= ncclNMergedIbDevs s < Z.of_nat (length (ncclIbMergedDevs s)).
Hypothesis H1 : 1 <= vndevs props.
Let n := ncclNMergedIbDevs s.
Let multi := 1 <? vndevs props.

Lemma rq_lookup i k : ks !! i = Some k -> zget (vdevices props) (Z.of_nat i) = Some k.
Proof.
intros E. rewrite zget_lookup. rewrite <- (rq_devs _ _ _ _ Hrq) in E. apply lookup_take_Some in E. apply E.
Qed.

Lemma rq_length : length ks = length xs.
Proof. exact (Forall2_length _ _ _ (rq_at _ _ _ _ Hrq)). Qed.

(** After [i] devices. *)
Definition joining (i : nat) (s1 : Devs) : Prop := exists m, s1 = withMerged n m s /\ merges multi (take i ks) (take i xs) m
/\ (i = O -> forall x, head xs = Some x -> m_railId m = railId x /\ (multi = false -> m_planeId m = planeId x)).

Lemma joinDev_step i s1 k x : (i < 8)%nat -> ks !! i = Some k -> xs !! i = Some x -> joining i s1 ->
exists s2, joinDev n props (Z.of_nat i) s1 = (Done tt, s2) /\ joining (Datatypes.S i) s2.
Proof.
intros Hi Ek Ex (m & -> & Hm & H0). pose proof (lookup_lt_Some _ _ _ Ek) as Hki. pose proof (lookup_lt_Some _ _ _ Ex) as Hxi.
assert (Hz : zget (ncclIbMergedDevs (withMerged n m s)) n = Some m) by (apply zget_zupd_eq; exact Hn).
assert (Hd : zget (ncclIbDevs (withMerged n m s)) k = Some x).
{ pose proof (rq_at _ _ _ _ Hrq) as Hat. exact (Forall2_lookup_lr _ _ _ _ _ _ Hat Ek Ex). }
exists (withMerged n (joined multi k x m) s). split.
- unfold joinDev. rewrite (bind_some _ _ _ _ (rq_lookup _ _ Ek)). nstep (mergedAt_zget _ _ _ Hz).
rewrite (mg_ndevs _ _ _ _ Hm), length_take, Nat.min_l by lia. rewrite (proj2 (Z.eqb_neq _ _)) by (unfold NCCL_IB_MAX_DEVS_PER_NIC; lia).
assert (Hr : 0 <= Z.of_nat i < Z.of_nat (length (vdevices (vProps m)))) by (rewrite (mg_room _ _ _ _ Hm); lia).
rewrite (bind_some _ _ _ _ (zset_is_Some _ _ k Hr)). nstep (devAt_zget _ _ _ Hd).
rewrite (modMerged_zget _ _ _ _ Hz). rewrite withMerged_again. unfold withMerged at 1. cbn [ncclIbMergedDevs update]. unfold withMerged.
rewrite zupd_zupd. do 4 f_equal.
pose proof (mg_ndevs _ _ _ _ Hm) as Hv. rewrite length_take, Nat.min_l in Hv by lia. rewrite <- Hv. unfold joined, multi.
destruct m as [[nd vd] sp ra pl na]. cbn. by destruct (_ || _), (1 <? vndevs props).
- exists (joined multi k x m). split; [done|]. split; [|done].
rewrite (take_S_r _ _ _ Ek), (take_S_r _ _ _ Ex). apply joined_merges; try done.
+ intros Hmu. unfold multi in Hmu. rewrite (rq_ndevs _ _ _ _ Hrq), rq_length in Hmu. assert (i = O) as -> by lia. done.
+ rewrite !length_take. pose proof rq_length. lia.
+ rewrite length_take. lia.
+ apply Forall_take, (rq_names _ _ _ _ Hrq).
+ exact (proj1 (Forall_lookup _ _) (rq_names _ _ _ _ Hrq) _ _ Ex).
+ exact (proj1 (Forall_lookup _ _) (rq_planes _ _ _ _ Hrq) _ _ Ex).
+ intros Hx. assert (i = O) as -> by (destruct i; [done|]; destruct xs; [cbn in Hxi; lia|done]). apply H0; [done|].
destruct xs; [done|]. cbn in Ex |- *. exact Ex.
Qed.

Lemma join_all s1 : (length ks <= 8)%nat -> joining 0 s1 ->
exists m, forN (vndevs props) (joinDev n props) s1 = (Done tt, withMerged n m s) /\ merges multi ks xs m.
Proof.
intros H8 H0. unfold forN.
destruct (for_total (fun i s1 => joining (Z.to_nat i) s1) (Z.to_nat (vndevs props)) 0 (joinDev n props) s1) as (s2 & E & Hj).
- intros i si Hi Hji. pose proof (rq_ndevs _ _ _ _ Hrq) as Hnd. pose proof rq_length as Hl.
destruct (lookup_lt_is_Some_2 ks (Z.to_nat i)) as [k Ek]; [lia|]. destruct (lookup_lt_is_Some_2 xs (Z.to_nat i)) as [x Ex]; [lia|].
destruct (joinDev_step (Z.to_nat i) si k x) as (s2 & E2 & H2); [lia|done..|]. rewrite Z2Nat.id in E2 by lia.
exists s2. split; [exact E2|]. replace (Z.to_nat (i + 1)) with (Datatypes.S (Z.to_nat i)) by lia. exact H2.
- exact H0.
- destruct Hj as (m & -> & Hm & _). exists m. split; [exact E|]. pose proof (rq_ndevs _ _ _ _ Hrq) as Hnd. pose proof rq_length as Hl.
rewrite !take_ge in Hm by lia. exact Hm.
Qed.

(** The second loop: every other device is one of the host, with the link layer of the first. *)
Definition sameLink (k : Z) (x : IbDev) : bool := (k <? ncclNIbDevs s) && match head xs with Some x0 => link x =? link x0 | None => false end.

Lemma checkLink_step m i k x : ks !! i = Some k -> xs !! i = Some x ->
checkLink props (Z.of_nat i) (withMerged n m s) = ((if sameLink k x then Done tt else Fail ncclInvalidUsage), withMerged n m s).
Proof.
intros Ek Ex. pose proof (lookup_lt_Some _ _ _ Ek) as Hki. pose proof rq_length as Hl.
destruct (lookup_lt_is_Some_2 ks 0) as [k0 Ek0]; [lia|]. destruct (lookup_lt_is_Some_2 xs 0) as [x0 Ex0]; [lia|].
pose proof (rq_at _ _ _ _ Hrq) as Hat.
assert (Hd0 : zget (ncclIbDevs (withMerged n m s)) k0 = Some x0) by exact (Forall2_lookup_lr _ _ _ _ _ _ Hat Ek0 Ex0).
assert (Hd : zget (ncclIbDevs (withMerged n m s)) k = Some x) by exact (Forall2_lookup_lr _ _ _ _ _ _ Hat Ek Ex).
unfold checkLink, sameLink. pose proof (rq_lookup 0 k0 Ek0) as Hq0. cbn [Z.of_nat] in Hq0. rewrite (bind_some _ _ _ _ Hq0).
nstep (devAt_zget _ _ _ Hd0). rewrite (bind_some _ _ _ _ (rq_lookup _ _ Ek)). nred. cbn [withMerged ncclNIbDevs update].
rewrite Z.leb_antisym. destruct (k <? ncclNIbDevs s); cbn [negb andb]; [|done]. nstep (devAt_zget _ _ _ Hd).
destruct xs as [|y ys]; [done|]. injection Ex0 as ->. cbn [head]. by destruct (link x =? link x0).
Qed.

Lemma checkLinks m c : forall i, (i + c = length ks)%nat ->
for_ c (Z.of_nat i) (checkLink props) (withMerged n m s)
= ((if forallb (fun p => sameLink p.1 p.2) (zip (drop i ks) (drop i xs)) then Done tt else Fail ncclInvalidUsage), withMerged n m s).
Proof.
pose proof rq_length as Hl. induction c as [|c IH]; intros i Hi.
{ rewrite !drop_ge by lia. done. }
destruct (lookup_lt_is_Some_2 ks i) as [k Ek]; [lia|]. destruct (lookup_lt_is_Some_2 xs i) as [x Ex]; [lia|].
rewrite (drop_S _ _ _ Ek), (drop_S _ _ _ Ex). cbn [for_ zip zip_with forallb fst snd]. unfold bind. rewrite (checkLink_step _ _ _ _ Ek Ex).
destruct (sameLink k x); [|done]. cbn [andb]. replace (Z.of_nat i + 1) with (Z.of_nat (Datatypes.S i)) by lia. apply IH. lia.
Qed.

Definition compatible : bool := forallb (fun p => sameLink p.1 p.2) (zip (drop 1 ks) (drop 1 xs)).

Lemma MakeVDevice_outcome p : vndevs props <= 8 -> ncclNMergedIbDevs s <> MAX_IB_VDEVS -> (vndevs props = 1 \/ IbMergeNics p <> 0) ->
Forall (fun m => length (vdevices (vProps m)) = 8%nat) (ncclIbMergedDevs s) ->
exists m, merges multi ks xs m /\ ncclIbMakeVDeviceInternal p props s
= if compatible then (Done n, (withMerged n m s) <| ncclNMergedIbDevs := n + 1 |>) else (Fail ncclInvalidUsage, withMerged n m s).
Proof.
intros H8 Hfree Hnics Hroom. pose proof (rq_ndevs _ _ _ _ Hrq) as Hnd. pose proof rq_length as Hl.
destruct (lookup_lt_is_Some_2 ks 0) as [k0 Ek0]; [lia|]. destruct (lookup_lt_is_Some_2 xs 0) as [x0 Ex0]; [lia|].
pose proof (rq_at _ _ _ _ Hrq) as Hat. assert (Hd0 : zget (ncclIbDevs s) k0 = Some x0) by exact (Forall2_lookup_lr _ _ _ _ _ _ Hat Ek0 Ex0).
pose proof (rq_lookup 0 k0 Ek0) as Hq0. cbn [Z.of_nat] in Hq0. destruct (zget_is_Some (ncclIbMergedDevs s) n Hn) as [m0 Em0].
unfold ncclIbMakeVDeviceInternal. replace ((IbMergeNics p =? 0) && (1 <? vndevs props)) with false by (destruct (1 <? vndevs props) eqn:?, (IbMergeNics p =? 0) eqn:?; cbn; lia).
rewrite (proj2 (Z.eqb_neq _ _)) by lia. nred. rewrite (proj2 (Z.eqb_neq _ _)) by exact Hfree. rewrite (bind_some _ _ _ _ Hq0). nstep (devAt_zget _ _ _ Hd0).
fold n. nstep (modMerged_zget _ (fun m => m <| vProps := (vProps m) <| vndevs := 0 |> |> <| m_speed := 0 |> <| m_railId := railId x0 |>
<| m_planeId := if 1 <? vndevs props then NCCL_IB_PLANE_VIRT_BIT else planeId x0 |>) _ _ Em0).
match goal with |- context [bind _ _ ?st] => set (s1 := st) end.
destruct (join_all s1) as (m & E & Hm); [lia| |].
{ eexists. split; [reflexivity|]. split; cbn [take].
- split; cbn; try done.
+ exact (proj1 (Forall_lookup _ _) Hroom _ _ ltac:(unfold zget in Em0; case_decide; [exact Em0|done])).
+ fold multi. destruct multi; [|done]. split; [done|]. intros k Hk. rewrite orb_false_r. unfold NCCL_IB_PLANE_VIRT_BIT, NCCL_IB_PLANE_MAX_INDEX.
rewrite Z.shiftl_1_l, Z.pow2_bits_eqb by done. apply Z.eqb_sym.
+ by right.
- intros _ x Hx. cbn. destruct xs; [done|]. injection Ex0 as ->. injection Hx as ->. split; [done|]. fold multi. by intros ->. }
exists m. split; [exact Hm|]. nstep E. pose proof (checkLinks m (Z.to_nat (vndevs props - 1)) 1 ltac:(lia)) as Hc. change (Z.of_nat 1) with 1 in Hc.
fold compatible in Hc. destruct compatible; [by nstep Hc|]. unfold bind at 1. by rewrite Hc.
Qed.
End Make.

(** The tables of virtual devices as the program keeps them. *)
Record tables (s : Devs) : Prop := {
  tb_devs : length (ncclIbDevs s) = Z.to_nat MAX_IB_DEVS;
  tb_merged : length (ncclIbMergedDevs s) = Z.to_nat MAX_IB_VDEVS;
  tb_room : Forall (fun m => length (vdevices (vProps m)) = 8%nat) (ncclIbMergedDevs s);
}.

(** C32. Merging devices makes the next virtual device: it lists the devices in the order
    given, its speed is the sum of theirs, its rail is theirs when they all have the same
    and undefined otherwise, its plane is that of a single device, and for several the set
    of the bits of their plane indices with the bit that no plane of the user has, its name
    is theirs joined with a plus.  The numbers given are slots of the table of devices; the
    call succeeds exactly when every one but the first is below the number of devices, with
    the link layer of the first (the first is not compared with the number of devices,
    [first_device_unchecked]); otherwise it fails and only the free slot has changed. *)
Theorem MakeVDevice_merges p s props ks xs : request s props ks xs -> tables s -> 1 <= vndevs props <= NCCL_IB_MAX_DEVS_PER_NIC ->
  0 <= ncclNMergedIbDevs s < MAX_IB_VDEVS -> (vndevs props = 1 \/ IbMergeNics p <> 0) ->
  exists m, merges (1 <? vndevs props) ks xs m /\
  let n := ncclNMergedIbDevs s in
  ncclIbMakeVDevice p props s
  = if compatible s ks xs then (Done n, (withMerged n m s) <| ncclNMergedIbDevs := n + 1 |>) else (Fail ncclInvalidUsage, withMerged n m s).
Proof.
  intros Hrq Ht H18 Hn Hnics. destruct Ht as [_ Hm Hr]. unfold NCCL_IB_MAX_DEVS_PER_NIC, MAX_IB_VDEVS in *.
  apply MakeVDevice_outcome; unfold MAX_IB_VDEVS; try done; rewrite ?Hm; lia.
Qed.

(** ** Planes *)

Lemma planeFind_spec v planes a : let i := planeFind v planes a in
  a <= i <= a + Z.of_nat (length planes) /\ (i < a + Z.of_nat (length planes) -> zget planes (i - a) = Some v) /\ (i = a + Z.of_nat (length planes) -> ~ In v planes).
Proof.
  revert a. induction planes as [|x l IH]; intros a; cbn [planeFind length In].
  { split_and!; [lia|lia|lia|tauto]. }
  destruct (x =? v) eqn:E.
  - apply Z.eqb_eq in E as ->. split_and!; [lia|lia| |lia]. intros _. by replace (a - a) with 0 by lia.
  - apply Z.eqb_neq in E. specialize (IH (a + 1)). cbn zeta in IH. destruct IH as ([H1 H2] & H3 & H4). split_and!; [lia|lia| |].
    + intros Hlt. replace (planeFind v l (a + 1) - a) with (planeFind v l (a + 1) - (a + 1) + 1) by lia.
      rewrite zget_cons by lia. apply H3. lia.
    + intros He [Hx|Hin]; [congruence|]. apply H4; [lia|done].
Qed.

(** The planes seen so far: the undefined one first, each once, at most thirteen. *)
Definition planesOk (planes : list Z) : Prop := List.NoDup planes /\ head planes = Some NCCL_NET_ID_UNDEF /\ Z.of_nat (length planes) <= NCCL_IB_PLANE_MAX_INDEX - 1.

Lemma GetPlaneIndex_wp v planes s : planesOk planes ->
  noFault (ncclIbGetPlaneIndex v planes) (fun r s' => s' = s /\ planesOk r.1 /\ planes `prefix_of` r.1 /\ zget r.1 r.2 = Some v /\ 0 <= r.2 < NCCL_IB_PLANE_MAX_INDEX - 1) s.
Proof.
  intros (Hnd & Hh & Hl). unfold ncclIbGetPlaneIndex. pose proof (planeFind_spec v planes 0) as (Hr & Hin & Hout). rewrite !Z.add_0_l in *.
  set (i := planeFind v planes 0) in *. destruct (i =? Z.of_nat (length planes)) eqn:E.
  - apply Z.eqb_eq in E. destruct (i =? NCCL_IB_PLANE_MAX_INDEX - 1) eqn:E1; [done|]. destruct (_ && _); [done|].
    unfold noFault, ret. split_and!; cbn; [done| | |by rewrite E, zget_lookup, list_lookup_middle|lia|unfold NCCL_IB_PLANE_MAX_INDEX in *; lia].
    + split_and!; [|by destruct planes|rewrite length_app; cbn; unfold NCCL_IB_PLANE_MAX_INDEX in *; lia].
      apply NoDup_ListNoDup. apply NoDup_app. split_and!; [by apply NoDup_ListNoDup| |apply NoDup_singleton].
      intros x Hx ->%list_elem_of_singleton. apply Hout; [done|]. by apply list_elem_of_In.
    + by exists [v].
  - apply Z.eqb_neq in E. unfold noFault, ret. split_and!; cbn; [done|done|done| |lia|unfold NCCL_IB_PLANE_MAX_INDEX in *; lia].
    rewrite <- (Z.sub_0_r i). apply Hin. lia.
Qed.

(** ** The order of the devices *)

(** Every path has a bus identifier, or is empty. *)
Definition pathOk (x : IbDev) : Prop := fullPciPath x = [] \/ exists id, pciPathToInt64 (fullPciPath x) = Some id.

(** The number of the last component of the path; without a path a device is last. *)
Definition sortKey (x : IbDev) : Z :=
  match fullPciPath x with [] => LONG_MAX + 1 | _ => default 0 (pciPathToInt64 (fullPciPath x)) end.

Lemma pciPathToInt64_max s id : pciPathToInt64 s = Some id -> id <= LONG_MAX.
Proof. unfold pciPathToInt64. intros (t & _ & H)%bind_Some. injection H as <-. unfold busIdToInt64. lia. Qed.

Lemma CompareDevs_key y x : pathOk y -> pathOk x -> exists c, ncclIbCompareDevs y x = Some c /\ (c <= 0 <-> sortKey y <= sortKey x).
Proof.
  unfold ncclIbCompareDevs, sortKey, pathOk. intros Hy Hx.
  destruct (fullPciPath y) as [|a s1] eqn:E1, (fullPciPath x) as [|b s2] eqn:E2; cbn [length orb].
  - eexists. split; [done|]. cbn. lia.
  - eexists. split; [reflexivity|]. destruct Hx as [?|[id Hid]]; [done|]. rewrite Hid. apply pciPathToInt64_max in Hid. cbn. lia.
  - eexists. split; [by rewrite orb_true_r|]. destruct Hy as [?|[id Hid]]; [done|]. rewrite Hid. apply pciPathToInt64_max in Hid. cbn. lia.
  - destruct Hy as [?|[i1 H1]]; [done|]. destruct Hx as [?|[i2 H2]]; [done|]. rewrite H1, H2.
    rewrite !(proj2 (Z.eqb_neq _ _)) by lia. cbn [orb mbind option_bind]. eexists. split; [done|]. cbn [default].
    unfold id. destruct (i1 <? i2) eqn:E3, (i1 =? i2) eqn:E4; lia.
Qed.

Definition keyLe (x y : IbDev) : Prop := sortKey x <= sortKey y.

Lemma insertDev_sorts x l : pathOk x -> Forall pathOk l -> StronglySorted keyLe l ->
  exists l', insertDev x l = Some l' /\ Permutation l' (x :: l) /\ StronglySorted keyLe l'.
Proof.
  intros Hx. induction l as [|y l IH]; intros Hl Hs; cbn [insertDev].
  { exists [x]. split_and!; [done|done|repeat constructor]. }
  apply Forall_cons in Hl as [Hy Hl]. apply StronglySorted_inv in Hs as [Hs Hyl].
  destruct (CompareDevs_key y x Hy Hx) as (c & -> & Hc). cbn [mbind option_bind]. destruct (c <=? 0) eqn:E.
  - destruct (IH Hl Hs) as (l' & -> & Hp & Hs'). cbn [mbind option_bind]. exists (y :: l'). split_and!; [done| |].
    + rewrite Hp. apply Permutation_swap.
    + constructor; [done|]. rewrite Hp. constructor; [unfold keyLe; lia|done].
  - exists (x :: y :: l). split_and!; [done|done|]. constructor; [by constructor|]. constructor; [unfold keyLe; lia|].
    eapply Forall_impl; [exact Hyl|]. unfold keyLe. intros z Hz. lia.
Qed.

Lemma qsort_sorts l : Forall pathOk l -> exists l', qsort l = Some l' /\ Permutation l' l /\ StronglySorted keyLe l'.
Proof.
  intros Hl. unfold qsort.
  assert (H : forall acc, Forall pathOk acc -> StronglySorted keyLe acc ->
    exists l', fold_left (fun acc x => a ← acc; insertDev x a) l (Some acc) = Some l' /\ Permutation l' (l ++ acc) /\ StronglySorted keyLe l').
  { induction Hl as [|x l Hx _ IH]; intros acc Ha Hs; cbn [fold_left mbind option_bind]; [by exists acc|].
    destruct (insertDev_sorts x acc Hx Ha Hs) as (l1 & -> & Hp & Hs1). destruct (IH l1) as (l' & E & Hp' & Hs'); [by rewrite Hp; constructor|done|].
    exists l'. split_and!; [exact E| |done]. rewrite Hp', Hp. cbn. by rewrite Permutation_middle. }
  destruct (H []) as (l' & E & Hp & Hs); [done|constructor|]. exists l'. rewrite app_nil_r in Hp. done.
Qed.

(** ** Ports *)

Lemma realPort_loop_paths p path ds ds' : map pciPath ds = map pciPath ds' -> forall acc, realPort_loop p path ds acc = realPort_loop p path ds' acc.
Proof.
  revert ds'. induction ds as [|d ds IH]; intros [|d' ds'] E acc; try done. injection E as E1 E2. cbn [realPort_loop]. rewrite E1.
  destruct (pciPath d'); cbn [mbind option_bind]; [|done]. by apply IH.
Qed.

(** The devices of the same card as [path]. *)
Definition mateOf (p : DevParams) (path : cstring) (x : IbDev) : bool :=
  match pciPath x with Some q => ncclIbMatchVfPath p path q | None => false end.

Lemma realPort_loop_count p path ds acc : Forall (fun x => is_Some (pciPath x)) ds ->
  realPort_loop p path ds acc = Some (acc + Z.of_nat (length (List.filter (mateOf p path) ds))).
Proof.
  intros H. revert acc. induction H as [|x ds [q Hq] _ IH]; intros acc; cbn [realPort_loop List.filter]; [f_equal; cbn; lia|].
  unfold mateOf at 1. rewrite Hq. cbn [mbind option_bind]. rewrite IH. destruct (ncclIbMatchVfPath p path q); cbn [length]; f_equal; lia.
Qed.

(** ** One device after the other *)

(** What the arrangement adds to a device. *)
Definition arranged (x : IbDev) (i r : Z) : IbDev := x <| planeIdx := i |> <| realPort := r |>.

(** Device [k] of the list [L] has its place: its plane, the number of devices of its card
    before it, and a virtual device of its own. *)
Record placed (p : DevParams) (L : list IbDev) (planes : list Z) (s : Devs) (k : nat) (x : IbDev) : Prop := {
  pl_plane : zget planes (planeIdx x) = Some (planeId x) /\ 0 <= planeIdx x < NCCL_IB_PLANE_MAX_INDEX - 1;
  pl_port : forall path, pciPath x = Some path -> realPort x = Z.of_nat (length (List.filter (mateOf p path) (take k L)));
  pl_virtual : exists m, zget (ncclIbMergedDevs s) (Z.of_nat k) = Some m /\ merges false [Z.of_nat k] [x] m;
}.

Record Arranged (p : DevParams) (L : list IbDev) (d : nat) (planes : list Z) (s : Devs) : Prop := {
  ar_planes : planesOk planes;
  ar_n : ncclNIbDevs s = Z.of_nat (length L);
  ar_v : ncclNMergedIbDevs s = Z.of_nat d;
  ar_tables : tables s;
  ar_same : forall k x, L !! k = Some x -> exists i r, ncclIbDevs s !! k = Some (arranged x i r);
  ar_done : forall k x, (k < d)%nat -> ncclIbDevs s !! k = Some x -> placed p L planes s k x;
}.

Lemma Arranged_paths p L d planes s k : Arranged p L d planes s -> (k <= length L)%nat -> map pciPath (take k (ncclIbDevs s)) = map pciPath (take k L).
Proof.
  intros H Hk. apply list_eq. intros i. rewrite !list_lookup_fmap. destruct (decide (i < k)%nat) as [Hi|Hi].
  - rewrite !lookup_take_lt by done. destruct (lookup_lt_is_Some_2 L i) as [x Ex]; [lia|].
    destruct (ar_same _ _ _ _ _ H _ _ Ex) as (a & b & ->). by rewrite Ex.
  - by rewrite !lookup_take_ge by lia.
Qed.

Lemma placed_mono p L planes planes' s s' k x : planes `prefix_of` planes' -> (forall m, zget (ncclIbMergedDevs s) (Z.of_nat k) = Some m -> zget (ncclIbMergedDevs s') (Z.of_nat k) = Some m) ->
  placed p L planes s k x -> placed p L planes' s' k x.
Proof.
  intros [t ->] Hm [[Hp Hr] Ho (m & Em & Hv)]. split; [|done|by exists m; eauto]. split; [|done].
  unfold zget in Hp |- *. rewrite decide_True in Hp by lia. rewrite decide_True by lia. by apply lookup_app_l_Some.
Qed.

Lemma tables_devs s ds : length ds = length (ncclIbDevs s) -> tables s -> tables (s <| ncclIbDevs := ds |>).
Proof. intros Hl [H1 H2 H3]. split; cbn; [congruence|done|done]. Qed.

Lemma tables_withMerged multi ks xs n m s c : merges multi ks xs m -> tables s -> tables ((withMerged n m s) <| ncclNMergedIbDevs := c |>).
Proof.
  intros Hm [H1 H2 H3]. split; cbn; [done|by rewrite length_zupd|]. unfold zupd. case_decide; [|done]. apply Forall_insert; [done|]. apply (mg_room _ _ _ _ Hm).
Qed.

Lemma makeSingle p s d y : tables s -> zget (ncclIbDevs s) (Z.of_nat d) = Some y -> nameOk y -> planeOk y ->
  ncclNMergedIbDevs s = Z.of_nat d -> Z.of_nat d < MAX_IB_VDEVS ->
  exists m, merges false [Z.of_nat d] [y] m /\
  ncclIbMakeVDeviceInternal p (mkVProps 1 (Z.of_nat d :: replicate 7 0)) s
  = (Done (Z.of_nat d), (withMerged (Z.of_nat d) m s) <| ncclNMergedIbDevs := Z.of_nat d + 1 |>).
Proof.
  intros Ht Ey Hname Hplane Hv Hd. pose proof (tb_merged _ Ht) as Hlm. unfold MAX_IB_VDEVS in *.
  assert (Hrq : request s (mkVProps 1 (Z.of_nat d :: replicate 7 0)) [Z.of_nat d] [y]) by (split; first [done|constructor; done|constructor; [done|by constructor]]).
  destruct (MakeVDevice_outcome s _ _ _ Hrq ltac:(rewrite Hlm, Hv; lia) ltac:(done) p) as (m & Hm & E);
    [done|rewrite Hv; unfold MAX_IB_VDEVS; lia|by left|exact (tb_room _ Ht)|].
  rewrite Hv in E. exists m. split; [exact Hm|exact E].
Qed.

Lemma arrangeOne_wp p L d planes s x : L !! d = Some x -> Forall nameOk L -> Forall (fun x => is_Some (pciPath x)) L -> Z.of_nat (length L) <= MAX_IB_DEVS ->
  Arranged p L d planes s -> noFault (arrangeOne p (Z.of_nat d) planes) (fun planes' s' => Arranged p L (Datatypes.S d) planes' s') s.
Proof.
  intros Ex Hnames Hpaths HL H. pose proof (lookup_lt_Some _ _ _ Ex) as Hd. destruct (ar_same _ _ _ _ _ H _ _ Ex) as (i0 & r0 & E0).
  pose proof (ar_tables _ _ _ _ _ H) as Ht. unfold arrangeOne. 
  assert (Ez : zget (ncclIbDevs s) (Z.of_nat d) = Some (arranged x i0 r0)) by by rewrite zget_lookup.
  apply noFault_bind. apply (noFault_done _ _ _ _ _ (devAt_zget _ _ _ Ez)). apply noFault_bind.
  eapply noFault_mono; [apply GetPlaneIndex_wp, (ar_planes _ _ _ _ _ H)|]. intros [planes' i] s1 (-> & Hpl & Hpre & Hi & Hir). cbn [fst snd] in *.
  apply noFault_bind. apply (noFault_done _ _ _ _ _ (modDev_zget _ _ _ _ Ez)). apply noFault_bind.
  set (s1 := s <| ncclIbDevs := _ |>). apply (noFault_done getS s1 s1 s1); [done|]. apply noFault_bind.
  assert (Hd1 : (d < length (ncclIbDevs s))%nat) by exact (lookup_lt_Some _ _ _ E0).
  assert (Hports : ncclIbGetRealPort p (pciPath x) (ncclIbDevs s1) (Z.of_nat d)
    = Some (match pciPath x with Some path => Z.of_nat (length (List.filter (mateOf p path) (take d L))) | None => 0 end)).
  { destruct (pciPath x) as [path|] eqn:Ep; [|done]. unfold ncclIbGetRealPort. rewrite Nat2Z.id. subst s1. cbn [ncclIbDevs update].
    unfold zupd. rewrite decide_True, Nat2Z.id by lia. rewrite take_insert_ge by lia.
    rewrite (realPort_loop_paths _ _ _ (take d L)) by (apply (Arranged_paths _ _ _ _ _ _ H); lia).
    rewrite realPort_loop_count by (by apply Forall_take). f_equal. }
  change (pciPath (arranged x i0 r0)) with (pciPath x). rewrite Hports. cbn [of_option].
  set (r := match pciPath x with Some path => _ | None => 0 end). apply (noFault_done _ r s1 s1); [done|]. apply noFault_bind.
  assert (Ez1 : zget (ncclIbDevs s1) (Z.of_nat d) = Some (arranged x i r0)) by (apply zget_zupd_eq; lia).
  apply (noFault_done _ _ _ _ _ (modDev_zget _ _ _ _ Ez1)). set (s2 := s1 <| ncclIbDevs := _ |>). apply noFault_bind.
  assert (Ez2 : zget (ncclIbDevs s2) (Z.of_nat d) = Some (arranged x i r)) by (apply zget_zupd_eq; cbn; rewrite length_zupd; lia).
  assert (Hoth : forall k, k <> d -> ncclIbDevs s2 !! k = ncclIbDevs s !! k).
  { intros k Hk. rewrite <- !zget_lookup. cbn. by rewrite !zget_zupd_ne by lia. }
  assert (Ht2 : tables s2) by (apply tables_devs; [by rewrite length_zupd|]; apply tables_devs; [by rewrite length_zupd|done]).
  destruct (makeSingle p s2 d (arranged x i r)) as (m & Hm & E); [done|exact Ez2|exact (proj1 (Forall_lookup _ _) Hnames _ _ Ex)| | | |].
  { unfold planeOk, NCCL_IB_PLANE_MAX_INDEX in *. cbn. lia. }
  { exact (ar_v _ _ _ _ _ H). }
  { unfold MAX_IB_VDEVS, MAX_IB_DEVS in *. lia. }
  apply (noFault_done _ _ _ _ _ E). clear E. unfold noFault, ret.
  pose proof (ar_n _ _ _ _ _ H) as Hn. pose proof (tb_merged _ Ht) as Hlm. split; [done|exact Hn|cbn; lia|by apply (tables_withMerged _ _ _ _ _ _ _ Hm)| |].
  - intros k y Ey. destruct (decide (k = d)) as [->|Hk].
    + rewrite Ex in Ey. injection Ey as <-. exists i, r. by rewrite <- zget_lookup.
    + destruct (ar_same _ _ _ _ _ H _ _ Ey) as (a & b & Eab). exists a, b. rewrite <- Eab. exact (Hoth k Hk).
  - intros k y Hk Ey. destruct (decide (k = d)) as [->|Hkd].
    + assert (y = arranged x i r) as -> by (rewrite zget_lookup in Ez2; change (ncclIbDevs s2 !! d = Some y) in Ey; congruence).
      split; [by split|intros path Hp; cbn in Hp |- *; subst r; by rewrite Hp|].
      exists m. split; [|exact Hm]. cbn. apply zget_zupd_eq. unfold MAX_IB_VDEVS, MAX_IB_DEVS in *. lia.
    + change (ncclIbDevs s2 !! k = Some y) in Ey. rewrite (Hoth k Hkd) in Ey.
      apply (placed_mono p L planes planes' s); [done| |apply (ar_done _ _ _ _ _ H); [lia|exact Ey]].
      intros m' Em'. cbn. rewrite zget_zupd_ne by lia. exact Em'.
Qed.

Section Arrange.
Context (p : DevParams) (L : list IbDev).
Hypothesis Hnames : Forall nameOk L.
Hypothesis Hpaths : Forall (fun x => is_Some (pciPath x)) L.
Hypothesis HL : Z.of_nat (length L) <= MAX_IB_DEVS.

Lemma arrange_loop_wp n : forall d planes s, (d + n = length L)%nat -> Arranged p L d planes s ->
noFault (arrange_loop p n (Z.of_nat d) planes) (fun _ s' => exists planes, Arranged p L (length L) planes s') s.
Proof.
induction n as [|n IH]; intros d planes s Hd H; cbn [arrange_loop].
{ exists planes. by replace (length L) with d by lia. }
destruct (lookup_lt_is_Some_2 L d) as [x Ex]; [lia|]. apply noFault_bind.
eapply noFault_mono; [by apply (arrangeOne_wp p L d planes s x)|]. intros planes' s' H'.
replace (Z.of_nat d + 1) with (Z.of_nat (Datatypes.S d)) by lia. apply (IH _ planes'); [lia|exact H'].
Qed.
End Arrange.

(** What [arrange] starts from: the devices found, and no virtual device. *)
Record Found (L : list IbDev) (s : Devs) : Prop := {
  fo_n : ncclNIbDevs s = Z.of_nat (length L);
  fo_devs : take (length L) (ncclIbDevs s) = L;
  fo_v : ncclNMergedIbDevs s = 0;
  fo_tables : tables s;
}.

Record devOk (x : IbDev) : Prop := { do_name : nameOk x; do_path : pathOk x; do_pci : is_Some (pciPath x) }.

Lemma devOk_all L : Forall devOk L -> Forall nameOk L /\ Forall pathOk L /\ Forall (fun x => is_Some (pciPath x)) L.
Proof. intros H. split_and!; (eapply Forall_impl; [exact H|]; by intros x []). Qed.

Lemma Found_arranged p L s : Found L s -> (length L <= length (ncclIbDevs s))%nat -> Arranged p L 0 [NCCL_NET_ID_UNDEF] s.
Proof.
  intros [Hn Hd Hv Ht] Hl. split; [|done|done|done| |lia].
  { split_and!; [repeat constructor; by intros []|done|done]. }
  intros k x Ex. exists (planeIdx x), (realPort x). rewrite <- Hd in Ex. apply lookup_take_Some in Ex as [-> _]. by destruct x.
Qed.

Lemma arrange_wp p L0 s : Found L0 s -> Forall devOk L0 -> Z.of_nat (length L0) <= MAX_IB_DEVS ->
  noFault (arrange p) (fun _ s' => exists L planes, Permutation L L0 /\ (if IbDevicePciOrder p =? 0 then L = L0 else StronglySorted keyLe L)
    /\ Arranged p L (length L) planes s') s.
Proof.
  intros HF Hok HL. destruct (devOk_all _ Hok) as (Hn & Hp & Hpci). pose proof (tb_devs _ (fo_tables _ _ HF)) as Hlen.
  unfold MAX_IB_DEVS in *. unfold arrange. apply noFault_bind. destruct (IbDevicePciOrder p =? 0) eqn:E.
  - unfold noFault at 1. cbn [ret]. apply noFault_bind, (noFault_done getS s s s); [done|].
    rewrite (fo_n _ _ HF), Nat2Z.id. eapply noFault_mono.
    + apply (arrange_loop_wp p L0 Hn Hpci HL (length L0) 0 [NCCL_NET_ID_UNDEF] s eq_refl). apply Found_arranged; [done|lia].
    + intros _ s' [planes H]. by exists L0, planes.
  - apply noFault_bind, (noFault_done getS s s s); [done|]. rewrite (fo_n _ _ HF), Nat2Z.id, (fo_devs _ _ HF).
    destruct (qsort_sorts L0 Hp) as (L & -> & HP & HS). apply noFault_bind, (noFault_done _ L s s); [done|].
    set (s1 := s <| ncclIbDevs := L ++ drop (length L0) (ncclIbDevs s) |>). apply (noFault_done _ tt s s1); [done|].
    apply noFault_bind, (noFault_done getS s1 s1 s1); [done|].
    assert (HF1 : Found L s1).
    { destruct HF as [F1 F2 F3 F4]. split; cbn; [by rewrite HP|by rewrite take_app_length|done|].
      apply tables_devs; [|done]. rewrite length_app, length_drop, HP. lia. }
    assert (Hok1 : Forall devOk L) by (by rewrite HP). destruct (devOk_all _ Hok1) as (Hn1 & _ & Hpci1).
    rewrite (fo_n _ _ HF1), Nat2Z.id. eapply noFault_mono.
    + apply (arrange_loop_wp p L Hn1 Hpci1 ltac:(unfold MAX_IB_DEVS; rewrite HP; lia) (length L) 0 [NCCL_NET_ID_UNDEF] s1 eq_refl).
      apply Found_arranged; [done|]. subst s1. cbn. rewrite length_app, length_drop. lia.
    + intros _ s' [planes H]. by exists L, planes.
Qed.
