(* ===== verification/DevicesFind.v ===== *)
(** * Transport: discovery of the adapters, verified

    The devices the first initialisation finds, against a reference list, and their places
    in the tables; and concrete hosts on which the code goes wrong. *)

From S2P Require Import Prelude CStr HostUtils HostSpec Devices DevicesSpec.
From Stdlib Require Import Sorted.

Open Scope Z_scope.
Open Scope nccl_scope.

(** ** The ports the user wants

    Written from the meaning of [NCCL_IB_HCA] and not from the code: a list of entries
    [name:port:rail:plane], with [^] before it when the entries are to be left out and
    [=] when they give whole names. *)

(** [^], [=] and the text of the list. *)
Definition wish (env : option cstring) : bool * bool * option cstring :=
  match env with
  | Some (x :: y :: r) =>
      if decide (x = chr 94) then if decide (y = chr 61) then (true, true, Some r) else (true, false, Some (y :: r))
      else if decide (x = chr 61) then (false, true, Some (y :: r)) else (false, false, env)
  | Some [x] => if decide (x = chr 94) then (true, false, Some []) else if decide (x = chr 61) then (false, true, Some []) else (false, false, env)
  | _ => (false, false, env)
  end.

(** The entry is about this port of the adapter of this name. *)
Definition isAbout (exact : bool) (name : cstring) (port_num : Z) (e : netIf) : Prop :=
  (if exact then name = prefix e else prefix e `prefix_of` name) /\ (port e = -1 \/ port e = port_num).

#[export] Instance isAbout_dec exact name port_num e : Decision (isAbout exact name port_num e).
Proof. unfold isAbout. destruct exact; apply _. Defined.

(** Whether the user wants the port ([None]: no), and the entry that gives its rail and its
    plane: the first that is about it.  An empty list is about every port.  The entries are
    those [HostSpec.parseStringList_roundtrip] reads back. *)
Definition wanted (env : option cstring) (name : cstring) (port_num : Z) : option (option netIf) :=
  let '(leaveOut, exact, text) := wish env in
  let entries := parseStringList text 32 in
  let about := List.find (fun e => bool_decide (isAbout exact name port_num e)) entries in
  match entries, about with
  | [], _ => if leaveOut then None else Some None
  | _, Some e => if leaveOut then None else Some (Some e)
  | _, None => if leaveOut then Some None else None
  end.

Lemma readUserIfs_wish env :
  let '(leaveOut, exact, text) := wish env in readUserIfs env = mkUserIfs leaveOut exact (parseStringList text 32).
Proof.
  assert (H : forall x c, ceqb x c = if decide (x = c) then true else false).
  { intros x c. destruct (decide (x = c)) as [->|Hx]; [by apply ceqb_eq|].
    apply not_true_is_false. by rewrite ceqb_eq. }
  unfold readUserIfs, skipIf, wish. destruct env as [[|x [|y r]]|]; try done; rewrite !H; repeat (case_decide; subst; rewrite ?H); done.
Qed.

Lemma find_first {A} (f : A -> bool) l i e :
  zget l i = Some e -> f e = true -> (forall j e', j < i -> zget l j = Some e' -> f e' = false) -> List.find f l = Some e.
Proof.
  revert i. induction l as [|x l IH]; intros i E He Hb; [apply zget_Some in E; cbn in E; lia|]. cbn [List.find].
  pose proof (zget_Some _ _ _ E) as Hi. destruct (decide (i = 0)) as [->|Hi0].
  - injection E as ->. by rewrite He.
  - rewrite (Hb 0 x) by (done || lia). apply (IH (i - 1)); [|done|].
    + rewrite <- E. symmetry. replace i with (i - 1 + 1) at 1 by lia. apply zget_cons. lia.
    + intros j e' Hj Ej. pose proof (zget_Some _ _ _ Ej). apply (Hb (j + 1)); [lia|]. rewrite zget_cons by lia. done.
Qed.

(** The code selects the ports the user wants. *)
Lemma selectPort_wanted env h port_num : 1 <= port_num -> selectPort (readUserIfs env) h port_num = wanted env (hc_name h) port_num.
Proof.
  intros Hp. pose proof (readUserIfs_wish env) as Hw. unfold selectPort, wanted. destruct (wish env) as [[leaveOut exact] text].
  rewrite Hw. cbn [userIfs searchExact searchNot]. generalize (parseStringList text 32). intros l.
  pose proof (matchIfList_first (hc_name h) port_num l exact) as Hm. cbn zeta in Hm.
  set (f e := bool_decide (isAbout exact (hc_name h) port_num e)).
  assert (Hf : forall e, f e = true <-> (if exact then hc_name h = prefix e else prefix e `prefix_of` hc_name h)
    /\ (port_num = -1 \/ port e = -1 \/ port_num = port e)).
  { intros e. unfold f. rewrite bool_decide_eq_true. unfold isAbout. split; intros [H1 H2]; (split; [exact H1|lia]). }
  destruct (matchIfList _ _ _ _) as [[] i].
  - destruct Hm as [[-> ->]|(e & E & He & Hb)]; [by destruct leaveOut|].
    rewrite (find_first f l i e E); [|by apply Hf|].
    + rewrite E. destruct l; [apply zget_Some in E; cbn in E; lia|]. by destruct leaveOut.
    + intros j e' Hj Ej. apply not_true_is_false. rewrite Hf. by eapply Hb.
  - destruct Hm as (-> & Hl & Hno). destruct (List.find f l) as [e|] eqn:E.
    + apply find_some in E as [Hin He]. apply Hf in He. by destruct (Hno e Hin).
    + destruct l, leaveOut; done.
Qed.

Section Reference.
Context (p : DevParams) (env : option cstring).

Definition foldPath (s : cstring) : cstring :=
let n := length s in
let a := <[(n - 1)%nat := chr 48]> s in
if IbMergeVfs p =? 0 then a else <[(n - 3)%nat := chr 48]> (<[(n - 4)%nat := chr 48]> a).

Definition dataDirectOn (h : Hca) : bool :=
(0 <? IbDataDirect p) && hc_mlx5 h && ncclMlx5dvDmaBufCapable h && bool_decide (fst (hc_data_direct h) = ncclSuccess).

(** The plain device, its data direct twin, or both. *)
Definition devNumbers (h : Hca) : list Z := if dataDirectOn h then if IbDataDirect p =? 2 then [0; 1] else [1] else [0].

Definition oooOf (h : Hca) : Z :=
if hc_mlx5 h && negb (IbOooRq p =? 0) then match hc_ooo h with Some (true, m) => Z.max 0 m | _ => 0 end else 0.

(** The device a port becomes. *)
Definition newDev (d : Z) (h : Hca) (attr : DeviceAttr) (port_num : Z) (pt : PortInfo) (u : option netIf) (dev : Z) : IbDev :=
let sp := default 0 (portSpeed p pt) in
let real := default [] (hc_realpath h) in
mkIbDev d (sys_image_guid attr) (u8 port_num) (u8 (pt_link_layer pt)) sp (u64 sp) d
(if dev =? 1 then snprintf_s MAXNAMESIZE (hc_name h ++ lit "_dma") else take MAXNAMESIZE (hc_name h)) real
(Some (if dev =? 1 then sysPrefix ++ snd (hc_data_direct h) else foldPath real)) 0 (max_qp attr) (adaptiveRouting p pt) (oooOf h) 0
(match u with Some e => rail e | None => -1 end) (match u with Some e => plane e | None => -1 end) 0 (hc_mlx5 h)
(if dev =? 1 then 1 else 0).

Definition portDevs (d : Z) (h : Hca) (attr : DeviceAttr) (port_num : Z) : list IbDev :=
match (pt ← zget (hc_ports h) (port_num - 1); pt) with
| Some pt =>
if pt_active pt && ((pt_link_layer pt =? IBV_LINK_LAYER_INFINIBAND) || (pt_link_layer pt =? IBV_LINK_LAYER_ETHERNET)) then
match wanted env (hc_name h) port_num with Some u => map (newDev d h attr port_num pt u) (devNumbers h) | None => [] end
else []
| None => []
end.

Fixpoint portsDevs (d : Z) (h : Hca) (attr : DeviceAttr) (n : nat) (port_num : Z) : list IbDev :=
match n with O => [] | Datatypes.S n' => portDevs d h attr port_num ++ portsDevs d h attr n' (port_num + 1) end.

Definition hcaDevs (d : Z) (h : Hca) : list IbDev :=
if hc_opens h then match hc_attr h with Some attr => portsDevs d h attr (Z.to_nat (phys_port_cnt attr)) 1 | None => [] end else [].

(** Adapters are looked at until there are 32 devices. *)
Fixpoint allDevs (d : Z) (hs : list Hca) (n : nat) : list IbDev :=
match hs with
| [] => []
| h :: hs => if Z.of_nat n <? MAX_IB_DEVS then hcaDevs d h ++ allDevs (d + 1) hs (n + length (hcaDevs d h)) else []
end.

(** ** An adapter as the kernel shows it: an absolute path and a short name *)

Record hcaOk (h : Hca) : Prop := {
ho_name : (length (hc_name h) <= 63)%nat;
ho_path : exists r, hc_realpath h = Some (SLASH :: r) /\ (4 <= length r)%nat;
}.

(** The tables after the devices [L], from [b]. *)
Definition found (b : Devs) (L : list IbDev) (s : Devs) : Prop :=
ncclNIbDevs s = Z.of_nat (length L) /\ ncclIbDevs s = L ++ replicate (32 - length L) zeroDev /\ ncclNMergedIbDevs s = 0
/\ ncclIbMergedDevs s = ncclIbMergedDevs b /\ netRefCount s = netRefCount b.

Lemma firstBitSet_range v m : 0 <= m -> 0 <= firstBitSet v m <= m.
Proof.
intros Hm. unfold firstBitSet. assert (H : forall f i, 0 <= i -> i + Z.of_nat f <= m -> 0 <= firstBit_loop f v m i <= m).
{ induction f as [|f IH]; intros i H0 Hi; cbn [firstBit_loop]; [lia|]. destruct (_ && _); [apply IH; lia|lia]. }
apply H; lia.
Qed.

Lemma portSpeed_total pt : exists v, portSpeed p pt = Some v.
Proof.
unfold portSpeed, ncclIbSpeed, ncclIbWidth. set (a := if _ =? 0 then _ else _).
pose proof (firstBitSet_range a 8 ltac:(lia)) as H8. pose proof (firstBitSet_range (pt_active_width pt) 4 ltac:(lia)) as H4.
change (Z.of_nat (length ibvSpeeds) - 1) with 8. change (Z.of_nat (length ibvWidths) - 1) with 4.
destruct (zget_is_Some ibvSpeeds (firstBitSet a 8)) as [x ->]; [cbn; lia|].
destruct (zget_is_Some ibvWidths (firstBitSet (pt_active_width pt) 4)) as [y ->]; [cbn; lia|]. cbn. eauto.
Qed.

Lemma GetPciPath_fold h s : hcaOk h -> ncclIbGetPciPath p (hc_realpath h) s = (Done (Some (foldPath (default [] (hc_realpath h))), default [] (hc_realpath h)), s).
Proof.
intros [_ (r & E & Hr)]. rewrite E. cbn [default]. set (t := SLASH :: r). assert (Hl : (5 <= length t)%nat) by (cbn; lia).
unfold ncclIbGetPciPath, foldPath. fold t. unfold id.
assert (Hz : forall (l : cstring) k c, length l = length t -> (k <= 4)%nat -> (1 <= k)%nat -> zset l (Z.of_nat (length t) - Z.of_nat k) c = Some (<[(length t - k)%nat := c]> l)).
{ intros l k c Hll Hk4 Hk1. unfold zset. rewrite decide_True by lia. do 2 f_equal. lia. }
rewrite (bind_some _ _ _ _ (Hz t 1%nat (chr 48) eq_refl ltac:(lia) ltac:(lia))). destruct (IbMergeVfs p =? 0); [done|].
unfold bind at 1 2. rewrite (Hz _ 4%nat) by (rewrite ?length_insert; lia). cbn [of_option ret].
rewrite (Hz _ 3%nat) by (rewrite ?length_insert; lia). done.
Qed.
End Reference.

Section Find.
Context (p : DevParams) (env : option cstring) (b : Devs).

Lemma found_next L s : (length L < 32)%nat -> found b L s -> zget (ncclIbDevs s) (Z.of_nat (length L)) = Some zeroDev.
Proof.
intros Hl (_ & Hd & _). rewrite Hd, zget_lookup, lookup_app_r, Nat.sub_diag by lia. apply lookup_replicate_2. lia.
Qed.

Lemma found_add L x s t n : (length L < 32)%nat -> found b L s -> n = Z.of_nat (length L) ->
found b (L ++ [x]) (s <| ncclIbDevs := zupd (ncclIbDevs s) n x |> <| asyncThreads := t |> <| ncclNIbDevs := n + 1 |>).
Proof.
intros Hl (Hn & Hd & Hv & Hm & Hr) ->. unfold found. cbn. split; [rewrite length_app; cbn; lia|]. split; [|done].
rewrite Hd. unfold zupd. rewrite decide_True, Nat2Z.id by lia. rewrite insert_app_r_alt, Nat.sub_diag by lia.
replace (32 - length L)%nat with (Datatypes.S (32 - length (L ++ [x])))%nat by (rewrite length_app; cbn; lia).
cbn [replicate]. by rewrite <- app_assoc.
Qed.

Lemma addDevice_wp d h attr i pt u dev dd L s : hcaOk h -> (length L < 32)%nat -> found b L s ->
(dev = 1 -> dd = sysPrefix ++ snd (hc_data_direct h)) ->
noFault (addDevice p d h attr i pt (oooOf p h) dd u dev) (fun _ s' => found b (L ++ [newDev p d h attr i pt u dev]) s') s.
Proof.
intros Hh Hl HF Hdd. pose proof (found_next L s Hl HF) as E0. pose proof (proj1 HF) as Hn. unfold addDevice.
apply noFault_bind, (noFault_done getS s s s); [done|]. rewrite Hn. destruct (portSpeed_total p pt) as [sp Esp].
apply noFault_bind. rewrite Esp. apply (noFault_done _ sp s s); [done|]. apply noFault_bind, (noFault_done _ _ _ _ _ (modDev_zget _ _ _ _ E0)).
apply noFault_bind, noFault_check. intros _. apply noFault_bind, (noFault_done _ _ _ _ _ (GetPciPath_fold p h _ Hh)).
match goal with |- noFault _ _ ?st => set (s1 := st) end.
assert (Hr : 0 <= Z.of_nat (length L) < Z.of_nat (length (ncclIbDevs s))) by exact (zget_Some _ _ _ E0).
pose proof (zget_zupd_eq (ncclIbDevs s) (Z.of_nat (length L)) (zeroDev <| device := d |> <| mlx5 := hc_mlx5 h |> <| guid := sys_image_guid attr |>
<| portNum := u8 i |> <| link := u8 (pt_link_layer pt) |> <| speed := sp |> <| dev_currSpeed := u64 sp |> <| context := d |>) Hr) as Ez1.
apply noFault_bind, (noFault_done _ _ _ _ _ (modDev_zget _ _ s1 _ Ez1)). apply noFault_bind, noFault_check. intros _.
destruct (found_add L (newDev p d h attr i pt u dev) s (asyncThreads s) _ Hl HF eq_refl) as (F1 & F2 & F3 & F4 & F5).
unfold noFault, modify, found. split_and!; [exact F1| |exact F3|exact F4|exact F5]. rewrite <- F2. subst s1. cbn. rewrite zupd_zupd. f_equal.
unfold newDev. rewrite Esp. destruct (dev =? 1) eqn:Ed; [|done]. rewrite Hdd by lia. done.
Qed.

Lemma devLoop_wp d h attr i pt u dd : hcaOk h -> forall n start L s, (length L + n <= 32)%nat -> found b L s ->
(start <= 1 < start + Z.of_nat n -> dd = sysPrefix ++ snd (hc_data_direct h)) ->
noFault (for_ n start (addDevice p d h attr i pt (oooOf p h) dd u))
(fun _ s' => found b (L ++ map (newDev p d h attr i pt u) (seqZ start (Z.of_nat n))) s') s.
Proof.
intros Hh. induction n as [|n IH]; intros start L s Hl HF Hdd; cbn [for_].
{ change (seqZ start (Z.of_nat 0)) with (@nil Z). cbn. by rewrite app_nil_r. }
apply noFault_bind. eapply noFault_mono; [apply (addDevice_wp d h attr i pt u start dd L s Hh ltac:(lia) HF); intros ->; apply Hdd; lia|].
intros [] s' HF'. rewrite seqZ_cons by lia. cbn [map]. rewrite cons_middle, app_assoc.
replace (Z.pred (Z.of_nat (Datatypes.S n))) with (Z.of_nat n) by lia. apply IH; [rewrite length_app; cbn; lia|exact HF'|intros; apply Hdd; lia].
Qed.

(** What the loop over the ports knows of the data direct interface. *)
Definition known (h : Hca) (l : PortLoop) : Prop :=
devCount l - devOffset l = Z.of_nat (length (devNumbers p h)) /\ seqZ (devOffset l) (devCount l - devOffset l) = devNumbers p h
/\ (devOffset l <= 1 < devCount l -> ddPath l = sysPrefix ++ snd (hc_data_direct h)).

Lemma dataDirectSupport_wp h l s : (devCount l <> -1 -> known h l) -> noFault (dataDirectSupport p h l)
(fun l' s' => s' = s /\ known h l' /\ devCount l' <> -1 /\ nPorts l' = nPorts l) s.
Proof.
intros Hk. unfold dataDirectSupport. destruct (devCount l =? -1) eqn:E; cbn [negb].
2: { apply Z.eqb_neq in E. unfold noFault, ret. split; [done|]. split; [by apply Hk|done]. }
assert (Hoff : dataDirectOn p h = false -> known h (mkPortLoop 1 0 (ddPath l) (nPorts l))).
{ intros Hd. unfold known, devNumbers. rewrite Hd. cbn. split_and!; [done|done|lia]. }
unfold dataDirectOn in Hoff. destruct ((0 <? IbDataDirect p) && hc_mlx5 h && ncclMlx5dvDmaBufCapable h) eqn:E1; cbn [andb] in Hoff.
2: { unfold noFault, ret. cbn. split; [done|]. split; [by apply Hoff|done]. }
destruct (hc_data_direct h) as [r path] eqn:Er. destruct r; try done; unfold noFault, ret; cbn; (split; [done|]); (split; [|done]).
- unfold known, devNumbers, dataDirectOn. rewrite E1, Er. cbn. destruct (IbDataDirect p =? 2); cbn; by split_and!.
- by apply Hoff.
Qed.

(** The ports of an adapter. *)
Lemma ports_loop_wp d h attr : hcaOk h -> forall n i l L s, 1 <= i -> (length L + length (portsDevs p env d h attr n i) <= 32)%nat -> found b L s ->
(devCount l <> -1 -> known h l) ->
noFault (ports_loop p (readUserIfs env) d h attr (oooOf p h) n i l) (fun _ s' => found b (L ++ portsDevs p env d h attr n i) s') s.
Proof.
intros Hh. induction n as [|n IH]; intros i l L s Hi Hl HF Hk; cbn [ports_loop portsDevs] in *; [by rewrite app_nil_r|].
rewrite length_app in Hl. unfold portDevs in *. destruct (zget (hc_ports h) (i - 1) ≫= (fun pt => pt)) as [pt|]; [|by apply IH; [lia|..]].
destruct (pt_active pt); cbn [negb andb] in *; [|by apply IH; [lia|..]].
rewrite <- negb_orb. destruct (_ || _); cbn [negb] in *; [|by apply IH; [lia|..]].
rewrite (selectPort_wanted env h i Hi).
destruct (wanted env (hc_name h) i) as [u|]; [|by apply IH; [lia|..]]. apply noFault_bind.
eapply noFault_mono; [by apply dataDirectSupport_wp|]. intros l1 s1 (-> & Hk1 & Hne & _). pose proof Hk1 as (H1 & H2 & H3). apply noFault_bind.
rewrite length_map in Hl. eapply noFault_mono; [apply (devLoop_wp d h attr i pt u (ddPath l1) Hh (Z.to_nat (devCount l1 - devOffset l1)) (devOffset l1) L s)|].
- lia.
- exact HF.
- intros Hd. apply H3. lia.
- intros [] s2 HF2. rewrite Z2Nat.id, H2 in HF2 by lia. rewrite app_assoc. apply IH; [lia|rewrite length_app, length_map; lia|exact HF2|by intros _].
Qed.

Lemma probe_wp d h L s : hcaOk h -> (length L + length (hcaDevs p env d h) <= 32)%nat -> found b L s ->
noFault (probe p (readUserIfs env) d h) (fun _ s' => found b (L ++ hcaDevs p env d h) s') s.
Proof.
intros Hh Hl HF. unfold probe, hcaDevs in *. destruct (hc_opens h); cbn [negb]; [|by rewrite app_nil_r].
apply noFault_bind. eapply (noFault_mono _ (fun ooo s' => ooo = oooOf p h /\ s' = s)).
{ unfold oooOf, ncclIbQueryOooRqSize. destruct (hc_mlx5 h), (IbOooRq p =? 0); cbn; try done.
destruct (hc_ooo h) as [[[] m]|]; cbn; [|done|done]. split; [|done]. destruct (0 <? m) eqn:?; lia. }
intros ooo s' [-> ->]. destruct (hc_attr h) as [attr|].
- apply noFault_bind. eapply noFault_mono; [by apply (ports_loop_wp d h attr Hh); [lia|..]|]. intros l s' HF'. unfold noFault. by destruct (_ && _).
- rewrite app_nil_r. unfold noFault. by destruct (hc_closes h).
Qed.

Lemma probeAll_wp hs : Forall hcaOk hs -> forall d L s, (length L + length (allDevs p env d hs (length L)) <= 32)%nat -> found b L s ->
noFault (probeAll p (readUserIfs env) d hs) (fun _ s' => found b (L ++ allDevs p env d hs (length L)) s') s.
Proof.
induction 1 as [|h hs Hh _ IH]; intros d L s Hl HF; cbn [probeAll allDevs] in *; [by rewrite app_nil_r|].
apply noFault_bind, (noFault_done getS s s s); [done|]. rewrite (proj1 HF). destruct (Z.of_nat (length L) <? MAX_IB_DEVS); [|by rewrite app_nil_r].
rewrite length_app in Hl. apply noFault_bind. eapply noFault_mono; [apply (probe_wp d h L s Hh ltac:(lia) HF)|]. intros [] s' HF'.
rewrite app_assoc. rewrite <- length_app. apply IH; [rewrite !length_app in *; lia|exact HF'].
Qed.
End Find.

Lemma newDev_ok p d h attr i pt u dev : hcaOk h -> devOk (newDev p d h attr i pt u dev).
Proof.
  intros [Hn (r & E & Hr)]. split.
  - unfold nameOk, newDev, snprintf_s, MAXNAMESIZE. cbn [devName]. destruct (dev =? 1); rewrite length_take; lia.
  - right. unfold newDev. cbn [fullPciPath]. rewrite E. apply pciPathToInt64_absolute. intros ->. cbn in Hr. lia.
  - unfold newDev. cbn. eauto.
Qed.

Lemma allDevs_ok p env hs : Forall hcaOk hs -> forall d n, Forall devOk (allDevs p env d hs n).
Proof.
  induction 1 as [|h hs Hh _ IH]; intros d n; cbn [allDevs]; [constructor|]. destruct (_ <? _); [|constructor].
  apply Forall_app. split; [|apply IH]. unfold hcaDevs. destruct (hc_opens h); [|constructor]. destruct (hc_attr h) as [attr|]; [|constructor].
  generalize 1. induction (Z.to_nat (phys_port_cnt attr)) as [|c IHc]; intros i; cbn [portsDevs]; [constructor|]. apply Forall_app. split; [|apply IHc].
  unfold portDevs. repeat case_match; try constructor. apply Forall_map, Forall_true. intros dev. by apply newDev_ok.
Qed.

(** ** The tables after the first initialisation *)

(** Two paths of the same length. *)
Definition sameLength (x y : IbDev) : Prop := exists a c, pciPath x = Some a /\ pciPath y = Some c /\ length a = length c /\ (5 <= length a)%nat /\ Z.of_nat (length a) < 2 ^ 64.

Record Ready (p : DevParams) (L : list IbDev) (s : Devs) : Prop := {
  rd_n : ncclNIbDevs s = Z.of_nat (length L) /\ ncclNMergedIbDevs s = Z.of_nat (length L);
  rd_devs : forall k x, L !! k = Some x -> exists y m, ncclIbDevs s !! k = Some y /\ y = arranged x (planeIdx y) (realPort y)
    /\ zget (ncclIbMergedDevs s) (Z.of_nat k) = Some m /\ merges false [Z.of_nat k] [y] m;
  rd_planes : forall i j x y, (i < length L)%nat -> (j < length L)%nat -> ncclIbDevs s !! i = Some x -> ncclIbDevs s !! j = Some y ->
    0 <= planeIdx x < NCCL_IB_PLANE_MAX_INDEX - 1 /\ (planeIdx x = planeIdx y <-> planeId x = planeId y);
  rd_ports : (forall x y, In x L -> In y L -> sameLength x y) ->
    forall i j x y path, (i < j)%nat -> (j < length L)%nat -> ncclIbDevs s !! i = Some x -> ncclIbDevs s !! j = Some y ->
    pciPath y = Some path -> mateOf p path x = true -> realPort x < realPort y;
}.

(** The characters at the end of a path that a card's functions differ in. *)
Definition kept (p : DevParams) : nat := if IbMergeVfs p =? 0 then 1%nat else 4%nat.

(** On paths of one length the relation is an equivalence. *)
Lemma MatchVfPath_take p a c : length a = length c -> (5 <= length a)%nat -> Z.of_nat (length a) < 2 ^ 64 ->
  ncclIbMatchVfPath p a c = true <-> take (length a - kept p) a = take (length a - kept p) c.
Proof.
  intros Hl H5 H64. unfold ncclIbMatchVfPath. rewrite wrapU_small by (unfold in_u; destruct (_ =? _); lia).
  rewrite strnceq_eq by (destruct (_ =? _); lia).
  replace (Z.to_nat _) with (length a - kept p)%nat by (unfold kept; destruct (_ =? _); lia). done.
Qed.

Lemma filter_mono {A} (f g : A -> bool) l : (forall x, In x l -> f x = true -> g x = true) -> (length (List.filter f l) <= length (List.filter g l))%nat.
Proof.
  induction l as [|x l IH]; intros H; cbn [List.filter]; [done|]. specialize (IH (fun y Hy => H y (or_intror Hy))).
  pose proof (H x (or_introl eq_refl)) as Hx. destruct (f x), (g x); cbn [length]; lia.
Qed.

Lemma take_In {A} n (l : list A) x : In x (take n l) -> In x l.
Proof. intros H. rewrite <- (take_drop n l). apply in_or_app. by left. Qed.

Lemma Arranged_Ready p L planes s : Arranged p L (length L) planes s -> Ready p L s.
Proof.
  intros H. assert (Hdev : forall k y, (k < length L)%nat -> ncclIbDevs s !! k = Some y -> exists x, L !! k = Some x /\ y = arranged x (planeIdx y) (realPort y)).
  { intros k y Hk Ey. destruct (lookup_lt_is_Some_2 L k Hk) as [x Ex]. exists x. split; [done|].
    destruct (ar_same _ _ _ _ _ H _ _ Ex) as (a & b & E). rewrite Ey in E. by injection E as ->. }
  split.
  - split; [exact (ar_n _ _ _ _ _ H)|exact (ar_v _ _ _ _ _ H)].
  - intros k x Ex. pose proof (lookup_lt_Some _ _ _ Ex) as Hk. destruct (ar_same _ _ _ _ _ H _ _ Ex) as (a & b & E).
    destruct (ar_done _ _ _ _ _ H _ _ Hk E) as [_ _ (m & Em & Hm)]. exists (arranged x a b), m. split_and!; done.
  - intros i j x y Hi Hj Ex Ey. destruct (ar_done _ _ _ _ _ H _ _ Hi Ex) as [[P1 R1] _ _], (ar_done _ _ _ _ _ H _ _ Hj Ey) as [[P2 R2] _ _].
    split; [exact R1|]. split; [intros E; rewrite E in P1; congruence|]. intros E. rewrite <- E in P2.
    pose proof (proj1 (ar_planes _ _ _ _ _ H)) as Hnd. unfold zget in P1, P2. rewrite decide_True in P1 by lia. rewrite decide_True in P2 by lia.
    apply NoDup_ListNoDup in Hnd. pose proof (NoDup_lookup _ _ _ _ Hnd P1 P2). lia.
  - intros Hlen i j x y path Hij Hj Ex Ey Ep Hmate.
    destruct (Hdev i x ltac:(lia) Ex) as (x0 & Ex0 & Hx0), (Hdev j y Hj Ey) as (y0 & Ey0 & Hy0).
    assert (Epx : pciPath x = pciPath x0) by (by rewrite Hx0). assert (Epy : pciPath y0 = Some path) by (by rewrite <- Ep, Hy0).
    unfold mateOf in Hmate. destruct (pciPath x) as [px|] eqn:Epx'; [|done].
    rewrite (pl_port _ _ _ _ _ _ (ar_done _ _ _ _ _ H _ _ (Nat.lt_trans _ _ _ Hij Hj) Ex) _ Epx').
    rewrite (pl_port _ _ _ _ _ _ (ar_done _ _ _ _ _ H _ _ Hj Ey) _ Ep).
    assert (Hinx : In x0 L) by (apply list_elem_of_In; by eapply list_elem_of_lookup_2). assert (Hiny : In y0 L) by (apply list_elem_of_In; by eapply list_elem_of_lookup_2).
    assert (Hsub : (length (List.filter (mateOf p px) (take i L)) <= length (List.filter (mateOf p path) (take i L)))%nat).
    { apply filter_mono. intros z Hz%take_In. unfold mateOf. destruct (pciPath z) as [q|] eqn:Eq; [|done].
      destruct (Hlen _ _ Hinx Hz) as (a1 & c1 & A1 & A2 & A3 & A4 & A5), (Hlen _ _ Hinx Hiny) as (a2 & c2 & B1 & B2 & B3 & _).
      assert (a1 = px /\ c1 = q /\ a2 = px /\ c2 = path) as (-> & -> & -> & ->) by (split_and!; congruence).
      revert Hmate. rewrite !MatchVfPath_take by (done || lia). rewrite <- B3. congruence. }
    assert (Hmore : (length (List.filter (mateOf p path) (take i L)) < length (List.filter (mateOf p path) (take j L)))%nat); [|lia].
    replace (take j L) with (take i L ++ x0 :: drop (Datatypes.S i) (take j L)).
    + assert (Hx1 : mateOf p path x0 = true) by (unfold mateOf; by rewrite <- Epx).
      rewrite List.filter_app, length_app. cbn [List.filter]. rewrite Hx1. cbn [length]. lia.
    + pose proof (take_drop_middle (take j L) i x0) as Hm. rewrite take_take, Nat.min_l in Hm by lia. apply Hm. by rewrite lookup_take_lt by lia.
Qed.

Lemma detect_wp p w hs : w_interfaces w <> Fault -> w_devices w = Some hs -> Forall hcaOk hs ->
  let L := allDevs p (w_hca w) 0 hs 0 in (length L <= 32)%nat ->
  noFault (detect p w) (fun _ s' => found (initial <| netRefCount := 1 |>) L s') (initial <| netRefCount := 1 |>).
Proof.
  intros Hi Hw Hh L Hl. unfold detect. set (s0 := initial <| netRefCount := 1 |>).
  apply noFault_bind. set (s1 := s0 <| ncclNIbDevs := 0 |> <| ncclNMergedIbDevs := 0 |>). apply (noFault_done _ tt s0 s1); [done|].
  apply noFault_bind. unfold noFault. destruct (w_interfaces w) as [n| |]; [|done|done]. destruct (negb (n =? 1)); [done|]. rewrite Hw.
  apply (noFault_bind (probeAll p (readUserIfs (w_hca w)) 0 hs)).
  eapply noFault_mono; [apply (probeAll_wp p (w_hca w) s0 hs Hh 0 [] s1 Hl); by split_and!|].
  intros [] s' HF. unfold noFault. by destruct (w_freed w).
Qed.

(** C13. The first initialisation finds the devices of the host, when every adapter has an
    absolute path in sysfs, of five characters or more, and a name of at most 63 (without a
    path the code follows a null pointer, [null_path_compared]): whatever else the verbs
    library and the kernel answer, it does not run outside the tables while the ports the
    user wants are at most 32, and when it succeeds the devices are exactly the active ports
    that [NCCL_IB_HCA] asks for, read independently of the code ([wanted]: [^] leaves the
    entries out, [=] takes whole names, the first entry about a port gives its rail and
    plane), one for each (or a data direct twin, or both), in the order they were found or
    of their bus identifiers; device [k] has virtual device [k] to itself, with its speed,
    rail, plane and name; two devices have the same plane index exactly when they have the
    same plane, and the index fits the bits of a plane; and when the paths of all the
    devices have the same length, the devices of a card have different ports. *)
Theorem InitDevices_finds p w hs : w_interfaces w <> Fault -> w_devices w = Some hs -> Forall hcaOk hs ->
  let L0 := allDevs p (w_hca w) 0 hs 0 in (length L0 <= 32)%nat ->
  match ncclIbInitDevices p w initial with
  | (Done _, s) => exists L, Permutation L L0 /\ (if IbDevicePciOrder p =? 0 then L = L0 else StronglySorted keyLe L) /\ Ready p L s
  | (Fail _, _) => True
  | (Fault, _) => False
  end.
Proof.
  intros Hi Hw Hh L0 Hl. change (noFault (ncclIbInitDevices p w)
    (fun _ s => exists L, Permutation L L0 /\ (if IbDevicePciOrder p =? 0 then L = L0 else StronglySorted keyLe L) /\ Ready p L s) initial).
  unfold ncclIbInitDevices. apply noFault_bind, (noFault_done getS initial initial initial); [done|].
  apply noFault_bind, (noFault_done _ tt initial (initial <| netRefCount := 1 |>)); [done|]. cbn [netRefCount initial Z.eqb negb].
  destruct (negb (IbDisable p =? 0)); [done|]. destruct (negb (w_symbols w)); [done|]. cbn [ncclNIbDevs initial Z.eqb].
  apply noFault_bind. eapply noFault_mono; [by apply (detect_wp p w hs)|]. intros [] s (F1 & F2 & F3 & F4 & F5). fold L0 in F1, F2.
  assert (HF : Found L0 s).
  { split; [exact F1|by rewrite F2, take_app_length|exact F3|]. split.
    - rewrite F2, length_app, length_replicate. unfold MAX_IB_DEVS. lia.
    - by rewrite F4.
    - rewrite F4. apply Forall_replicate. done. }
  eapply noFault_mono; [apply (arrange_wp p L0 s HF); [by apply allDevs_ok|unfold MAX_IB_DEVS; lia]|].
  intros _ s' (L & planes & HP & HS & HA). exists L. split_and!; [done|done|by apply (Arranged_Ready p L planes)].
Qed.

(** ** Concrete hosts *)

Module Host.

Definition params : DevParams := mkDevParams 0 1 1 1 1 0 8 (-2) 1.

(** An active 400 Gb/s Ethernet port. *)
Definition ethPort : PortInfo := mkPortInfo true 2 128 0 2 ncclSuccess ncclSuccess.

Definition hca (name path : cstring) (ports : list (option PortInfo)) : Hca :=
mkHca name true true (Some (true, 128)) (Some (mkDeviceAttr (Z.of_nat (length ports)) 1024 77)) true true false true
(ncclInvalidArgument, []) (Some path) ports.

Definition world (env : option cstring) (hs : list Hca) : World := mkWorld true (Done 1) env (Some hs) true.

(** Two functions of one card, found in the wrong order, and an adapter the user does not want. *)
Definition card : list Hca :=
[hca (lit "mlx5_1") (lit "/sys/devices/pci0000:80/0000:81:00.1") [Some ethPort];
 hca (lit "mlx5_2") (lit "/sys/devices/pci0000:c0/0000:c1:00.0") [Some ethPort];
 hca (lit "mlx5_0") (lit "/sys/devices/pci0000:80/0000:81:00.0") [Some ethPort]].
Definition env : cstring := lit "=mlx5_0::0:1,mlx5_1::0:2".
End Host.

Lemma card_ok : Forall hcaOk Host.card.
Proof. repeat constructor; cbn; try lia; (eexists; split; [reflexivity|cbn; lia]). Qed.

Definition names (s : Devs) : list cstring := map devName (take (Z.to_nat (ncclNIbDevs s)) (ncclIbDevs s)).

(** An adapter left out, and everything left out by an empty list. *)
Example excluded_adapters :
  names (snd (ncclIbInitDevices Host.params (Host.world (Some (lit "^mlx5_2")) Host.card) initial)) = [lit "mlx5_0"; lit "mlx5_1"]
  /\ names (snd (ncclIbInitDevices Host.params (Host.world (Some (lit "^=mlx5_")) Host.card) initial)) = [lit "mlx5_0"; lit "mlx5_1"; lit "mlx5_2"]
  /\ names (snd (ncclIbInitDevices Host.params (Host.world (Some (lit "^")) Host.card) initial)) = [].
Proof. vm_compute. done. Qed.

Example InitDevices_finds_witness : let p := Host.params in let w := Host.world (Some Host.env) Host.card in
  let L0 := allDevs p (w_hca w) 0 Host.card 0 in
  (let r := ncclIbInitDevices p w initial in fst r = Done tt /\ names (snd r) = [lit "mlx5_0"; lit "mlx5_1"]
    /\ map realPort (take 2 (ncclIbDevs (snd r))) = [0; 1] /\ map planeIdx (take 2 (ncclIbDevs (snd r))) = [1; 2])
  /\ match ncclIbInitDevices p w initial with
     | (Done _, s) => exists L, Permutation L L0 /\ (if IbDevicePciOrder p =? 0 then L = L0 else StronglySorted keyLe L) /\ Ready p L s
     | (Fail _, _) => True
     | (Fault, _) => False
     end.
Proof.
  split; [vm_compute; done|]. apply (InitDevices_finds Host.params (Host.world (Some Host.env) Host.card) Host.card); [discriminate|reflexivity|exact card_ok|vm_compute; lia].
Defined.

(** ** Where it goes wrong *)

(** The count of users stays when the initialisation fails, and so does the mark that the
    devices were looked for: the next call succeeds, and without a device. *)
Lemma failed_init_then_success : let p := Host.params in let good := Host.world None Host.card in
  let bad := mkWorld true (Done 0) None (Some Host.card) true in
  let r1 := ncclIbInitDevices p bad initial in let r2 := ncclIbInitDevices p good (snd r1) in
  fst r1 = Fail ncclInternalError /\ fst r2 = Done tt /\ ncclNIbDevs (snd r2) = 0
  /\ let s3 := snd (ncclIbFinalizeDevices (snd (ncclIbFinalizeDevices (snd r2)))) in
     netRefCount s3 = 0 /\ fst (ncclIbInitDevices p good s3) = Done tt /\ ncclNIbDevs (snd (ncclIbInitDevices p good s3)) = 0.
Proof. vm_compute. done. Qed.

Definition manyHcas (n : nat) : list Hca := replicate n (Host.hca (lit "mlx5_0") (lit "/sys/devices/pci0000:80/0000:81:00.0") [Some Host.ethPort]).

(** The number of devices is not looked at between the ports of an adapter. *)
Lemma ports_overflow : let two := Host.hca (lit "mlx5_1") (lit "/sys/devices/pci0000:80/0000:82:00.0") [Some Host.ethPort; Some Host.ethPort] in
  fst (ncclIbInitDevices Host.params (Host.world None (manyHcas 31 ++ [two])) initial) = Fault.
Proof. vm_compute. reflexivity. Qed.

(** The threads for the events are started before the devices are sorted: they watch the
    context of one device and take its events for those of another. *)
Lemma threads_of_other_devices : let s := snd (ncclIbInitDevices Host.params (Host.world (Some Host.env) Host.card) initial) in
  map (fun t => (at_context t, context <$> zget (ncclIbDevs s) (at_slot t))) (asyncThreads s) = [(0, Some 2); (2, Some 0)].
Proof. vm_compute. reflexivity. Qed.

(** A device without a path before one with a path, in the order they were found. *)
Lemma null_path_compared : let p := mkDevParams 0 1 1 0 1 0 8 (-2) 1 in
  let lost := mkHca (lit "mlx5_3") true true None (Some (mkDeviceAttr 1 1024 77)) true true false true (ncclInvalidArgument, []) None [Some Host.ethPort] in
  fst (ncclIbInitDevices p (Host.world None (lost :: Host.card)) initial) = Fault.
Proof. vm_compute. reflexivity. Qed.

Definition mergeBoth : VProps := mkVProps 2 (0 :: 1 :: replicate 6 0).

(** Merged devices have numbers up to 256, the marks of the DMA-BUF probe are 32. *)
Lemma dmabuf_marks_overflow : let p := Host.params in
  let s := snd (ncclIbInitDevices p (Host.world (Some Host.env) Host.card) initial) in
  let s := snd (forN 31 (fun _ => let* _ := ncclIbMakeVDevice p mergeBoth in ret tt) s) in
  ncclNMergedIbDevs s = 33 /\ fst (ncclIbDmaBufSupport (fun _ => mkDmaProbe true false true) 32 s) = Fault
  /\ fst (ncclIbDmaBufSupport (fun _ => mkDmaProbe true false true) 31 s) = Done ncclSuccess.
Proof. vm_compute. done. Qed.

(** The first device of a merge is not compared with the number of devices. *)
Lemma first_device_unchecked : let p := Host.params in
  let s := snd (ncclIbInitDevices p (Host.world (Some Host.env) Host.card) initial) in
  ncclNIbDevs s = 2 /\ fst (ncclIbMakeVDevice p (mkVProps 1 (7 :: replicate 7 0)) s) = Done 2
  /\ fst (ncclIbMakeVDevice p (mkVProps 2 (0 :: 7 :: replicate 6 0)) s) = Fail ncclInvalidUsage.
Proof. vm_compute. done. Qed.

(** The two ports of the card merged: the sum of the speeds, the planes 1 and 2. *)
Example MakeVDevice_merges_witness : let p := Host.params in
  let s := snd (ncclIbInitDevices p (Host.world (Some Host.env) Host.card) initial) in
  let xs := take 2 (ncclIbDevs s) in
  (exists m, zget (ncclIbMergedDevs (snd (ncclIbMakeVDevice p mergeBoth s))) 2 = Some m /\ m_devName m = lit "mlx5_0+mlx5_1" /\ m_speed m = 6400000
     /\ m_railId m = 0 /\ m_planeId m = 2 ^ 14 + 2 ^ 1 + 2 ^ 2)
  /\ exists m, merges (1 <? vndevs mergeBoth) [0; 1] xs m /\
  let n := ncclNMergedIbDevs s in
  ncclIbMakeVDevice p mergeBoth s
  = if compatible s [0; 1] xs then (Done n, (withMerged n m s) <| ncclNMergedIbDevs := n + 1 |>) else (Fail ncclInvalidUsage, withMerged n m s).
Proof.
  intros p s xs. split; [eexists; vm_compute; done|].
  apply (MakeVDevice_merges p s mergeBoth [0; 1] xs).
  - split; [vm_compute; reflexivity|vm_compute; reflexivity| | |].
    + vm_compute. repeat constructor.
    + vm_compute. repeat constructor.
    + vm_compute. repeat constructor; discriminate.
  - split; [vm_compute; reflexivity|vm_compute; reflexivity|vm_compute; repeat constructor].
  - vm_compute. split; discriminate.
  - vm_compute. split; [discriminate|reflexivity].
  - right. discriminate.
Defined.
