(* ===== verification/Interfaces.v ===== *)
(** * Network interfaces ([misc/socket.cc], [os/linux.cc])

    The choice of the interface the sockets of the process use: the user's list, or the
    first kind that there is one of.  The interfaces the kernel lists, the resolver and the
    environment are inputs. *)

From S2P Require Import Prelude CStr HostUtils.

Open Scope Z_scope.
Open Scope nccl_scope.

Definition MAX_IFS : nat := 16.
Definition MAX_IF_NAME_SIZE : nat := 16.
Definition AF_INET : Z := 2.
Definition AF_INET6 : Z := 10.

(** An address: its bytes (4 or 16), the port and, with IPv6, the scope. *)
Record SockAddr := mkSockAddr { sa_family : Z; sa_bytes : list Z; sa_port : Z; sa_scope : Z }.

(** An entry of [getifaddrs]. *)
Record IfAddrs := mkIfAddrs { ifa_name : cstring; ifa_addr : option SockAddr; ifa_running : bool; ifa_netmask : option (list Z) }.

(** [interfaces] is none when [getifaddrs] fails. *)
Record NetEnv := mkNetEnv {
  ne_SOCKET_FAMILY : option cstring; ne_SOCKET_IFNAME : option cstring; ne_COMM_ID : option cstring; ne_interfaces : option (list IfAddrs);
}.

Definition isLoopback6 (a : SockAddr) : bool :=
  bool_decide (sa_bytes a = replicate 15 0 ++ [1]).

(** The interface is one the search looks for. *)
Definition eligible (sockFamily : Z) (userIfs : list netIf) (searchNot searchExact : bool) (i : IfAddrs) : option SockAddr :=
  a ← ifa_addr i;
  if negb (sa_family a =? AF_INET) && negb (sa_family a =? AF_INET6) then None
  else if negb (ifa_running i) then None
  else if negb (sockFamily =? -1) && negb (sa_family a =? sockFamily) then None
  else if (sa_family a =? AF_INET6) && isLoopback6 a then None
  else if negb (xorb (fst (matchIfList (ifa_name i) (-1) userIfs searchExact)) searchNot) then None
  else Some a.

(** The interfaces found so far are [acc]. *)
Fixpoint find_loop (sockFamily : Z) (userIfs : list netIf) (searchNot searchExact : bool) (ifNameMaxSize maxIfs : nat)
    (l : list IfAddrs) (acc : list (cstring * SockAddr)) : list (cstring * SockAddr) :=
  match l with
  | [] => acc
  | i :: l =>
      if (maxIfs <=? length acc)%nat then acc
      else match eligible sockFamily userIfs searchNot searchExact i with
           | None => find_loop sockFamily userIfs searchNot searchExact ifNameMaxSize maxIfs l acc
           | Some a =>
               if existsb (fun f => CStr.list_eqb (ifa_name i) (fst f)) acc
               then find_loop sockFamily userIfs searchNot searchExact ifNameMaxSize maxIfs l acc
               else find_loop sockFamily userIfs searchNot searchExact ifNameMaxSize maxIfs l
                      (acc ++ [(snprintf_s ifNameMaxSize (ifa_name i), a)])
           end
  end.

Definition skipChar (c : ascii) (s : cstring) : bool * cstring :=
  match s with x :: r => if ceqb x c then (true, r) else (false, s) | [] => (false, s) end.

(** The names and addresses found, or the error. *)
Definition ncclOsFindInterfaces (e : NetEnv) (prefixList : cstring) (sockFamily : Z) (ifNameMaxSize maxIfs : nat)
    : outcome (list (cstring * SockAddr)) :=
  let '(searchNot, p) := skipChar (chr 94) prefixList in
  let '(searchExact, p) := skipChar (chr 61) p in
  let userIfs := parseStringList (Some p) MAX_IFS in
  match ne_interfaces e with
  | None => Fail ncclSystemError
  | Some l => Done (find_loop sockFamily userIfs searchNot searchExact ifNameMaxSize maxIfs l [])
  end.

Fixpoint maskedEq (a b mask : list Z) : bool :=
  match a, b, mask with
  | x :: a, y :: b, m :: mask => (Z.land x m =? Z.land y m) && maskedEq a b mask
  | _, _, _ => true
  end.

Definition matchSubnet (local : IfAddrs) (remote : SockAddr) : bool :=
  match ifa_addr local with
  | None => false
  | Some a =>
      match ifa_netmask local with
      | None => false
      | Some mask =>
          if negb (sa_family a =? sa_family remote) then false
          else if sa_family a =? AF_INET then maskedEq (sa_bytes a) (sa_bytes remote) mask
          else if sa_family a =? AF_INET6 then maskedEq (sa_bytes a) (sa_bytes remote) mask && (sa_scope a =? sa_scope remote)
          else false
      end
  end.

Fixpoint subnet_loop (l : list IfAddrs) (remote : SockAddr) (ifNameMaxSize : nat) : list (cstring * SockAddr) :=
  match l with
  | [] => []
  | i :: l =>
      match ifa_addr i with
      | Some a => if matchSubnet i remote then [(snprintf_s ifNameMaxSize (ifa_name i), a)] else subnet_loop l remote ifNameMaxSize
      | None => subnet_loop l remote ifNameMaxSize
      end
  end.

Definition ncclFindInterfaceMatchSubnet (e : NetEnv) (remoteAddr : SockAddr) (ifNameMaxSize : nat) : outcome (list (cstring * SockAddr)) :=
  match ne_interfaces e with None => Fail ncclSystemError | Some l => Done (subnet_loop l remoteAddr ifNameMaxSize) end.

Definition ncclEnvSocketFamily (e : NetEnv) : Z :=
  match ne_SOCKET_FAMILY e with
  | None => -1
  | Some s => if CStr.list_eqb s (lit "AF_INET") then AF_INET else if CStr.list_eqb s (lit "AF_INET6") then AF_INET6 else -1
  end.

(** ** Addresses as text *)

(** The resolver, the numeric form of an IPv6 address and the number of an interface. *)
Record Resolver := mkResolver {
  getaddrinfo : cstring -> option SockAddr; inet_pton6 : cstring -> option (list Z); if_nametoindex : cstring -> Z;
}.

(** The scan of [[address%name]:port]: the last [%] before the first []]. *)
Fixpoint bracket (s : cstring) (i j : Z) : option (Z * Z) :=
  match s with
  | [] => None
  | c :: s =>
      let j := if ceqb c (chr 37) then i else j in
      if ceqb c (chr 93) then Some (i, j) else bracket s (i + 1) j
  end.

Definition NI_MAXHOST : Z := 1025.
Definition NI_MAXSERV : Z := 32.
Definition IF_NAME_BUF : Z := 16.

(** [strncpy(dst, s + from, n)] into [size] bytes that were 0: beyond them it writes
    outside, and a string that fills them has no end. *)
Definition copyOut (size : Z) (s : cstring) (from n : Z) : option cstring :=
  let t := take (Z.to_nat n) (drop (Z.to_nat from) s) in
  if (size <? n) || (size <=? Z.of_nat (length t)) then None else Some t.

Definition htons (v : Z) : Z := let v := u16 v in Z.lor (Z.shiftl (Z.land v 255) 8) (Z.shiftr v 8).

(** An address the resolver does not write is what it was ([old]). *)
Definition ncclSocketGetAddrFromString (r : Resolver) (old : SockAddr) (ip_port_pair : option cstring) : outcome SockAddr :=
  match ip_port_pair with
  | None => Fail ncclInvalidArgument
  | Some s =>
      if (length s <=? 1)%nat then Fail ncclInvalidArgument
      else if negb (fst (skipChar (chr 91) s)) then
        match parseStringList (Some s) 1 with
        | [ni] =>
            match getaddrinfo r (prefix ni) with
            | None => Fail ncclInvalidArgument
            | Some a =>
                if sa_family a =? AF_INET then Done (mkSockAddr AF_INET (sa_bytes a) (htons (port ni)) (sa_scope a))
                else if sa_family a =? AF_INET6 then Done (mkSockAddr AF_INET6 (sa_bytes a) (htons (port ni)) 0)
                else Fail ncclInvalidArgument
            end
        | _ => Fail ncclInvalidArgument
        end
      else match bracket (drop 1 s) 1 (-1) with
           | None => Fail ncclInvalidArgument
           | Some (i, j) =>
               let len := Z.of_nat (length s) in
               match copyOut NI_MAXHOST s 1 (if j =? -1 then i - 1 else j - 1), copyOut NI_MAXSERV s (i + 2) (len - i - 1),
                     (if j =? -1 then Some [] else copyOut IF_NAME_BUF s (j + 1) (i - j - 1)) with
               | Some ip, Some portStr, Some name =>
                   Done (mkSockAddr AF_INET6 (default (sa_bytes old) (inet_pton6 r ip)) (htons (atoi portStr))
                           (if j =? -1 then 0 else if_nametoindex r name))
               | _, _, _ => Fault
               end
           end
  end.

(** ** The choice *)

(** An error is returned; otherwise the next search is done only when nothing was found. *)
Definition orElse (a : outcome (list (cstring * SockAddr))) (b : outcome (list (cstring * SockAddr))) : outcome (list (cstring * SockAddr)) :=
  match a with Done [] => b | _ => a end.

Definition zeroAddr : SockAddr := mkSockAddr 0 [] 0 0.

Definition bySubnet (e : NetEnv) (r : Resolver) (ifNameMaxSize : nat) : outcome (list (cstring * SockAddr)) :=
  match ne_COMM_ID e with
  | Some commId =>
      if (1 <? length commId)%nat then
        match ncclSocketGetAddrFromString r zeroAddr (Some commId) with
        | Done a => ncclFindInterfaceMatchSubnet e a ifNameMaxSize
        | Fail err => Fail err
        | Fault => Fault
        end
      else Done []
  | None => Done []
  end.

Definition ncclFindInterfaces (e : NetEnv) (r : Resolver) (ifNameMaxSize maxIfs : nat) : outcome (list (cstring * SockAddr)) :=
  let fam := ncclEnvSocketFamily e in
  let find s := ncclOsFindInterfaces e s fam ifNameMaxSize maxIfs in
  match (match ne_SOCKET_IFNAME e with Some env => if (1 <? length env)%nat then Some env else None | None => None end) with
  | Some env => find env
  | None => orElse (find (lit "ib")) (orElse (bySubnet e r ifNameMaxSize) (orElse (find (lit "^docker,lo,virbr"))
              (orElse (find (lit "docker")) (orElse (find (lit "lo")) (find (lit "virbr"))))))
  end.
