(* ===== verification/InterfacesSpec.v ===== *)
(** * Network interfaces, verified

    The search for interfaces against a filter of the list, and the automatic choice: it
    finds an interface whenever there is one that can be used. *)

From S2P Require Import Prelude CStr HostUtils HostSpec Interfaces.

Open Scope Z_scope.
Open Scope nccl_scope.

(** ** A search is a filter *)

(** The first interface of each name. *)
Fixpoint firstOfName (seen : list cstring) (l : list (cstring * SockAddr)) : list (cstring * SockAddr) :=
  match l with
  | [] => []
  | (n, a) :: l => if existsb (CStr.list_eqb n) seen then firstOfName seen l else (n, a) :: firstOfName (seen ++ [n]) l
  end.

Definition wanted (sockFamily : Z) (userIfs : list netIf) (searchNot searchExact : bool) (l : list IfAddrs) : list (cstring * SockAddr) :=
  omap (fun i => a ← eligible sockFamily userIfs searchNot searchExact i; Some (ifa_name i, a)) l.

Lemma existsb_fst n (acc : list (cstring * SockAddr)) : existsb (fun f => CStr.list_eqb n (fst f)) acc = existsb (CStr.list_eqb n) (map fst acc).
Proof. induction acc as [|x acc IH]; cbn; [done|by rewrite IH]. Qed.

Lemma find_loop_filter fam us not exact size maxIfs l : Forall (fun i => (length (ifa_name i) < size)%nat) l -> forall acc,
  find_loop fam us not exact size maxIfs l acc
  = acc ++ take (maxIfs - length acc) (firstOfName (map fst acc) (wanted fam us not exact l)).
Proof.
  induction 1 as [|i l Hi _ IH]; intros acc; cbn [find_loop wanted omap list_omap firstOfName]; [by rewrite take_nil, app_nil_r|].
  destruct (maxIfs <=? length acc)%nat eqn:E.
  { apply Nat.leb_le in E. replace (maxIfs - length acc)%nat with O by lia. by rewrite take_0, app_nil_r. }
  apply Nat.leb_gt in E. destruct (eligible fam us not exact i) as [a|]; cbn [mbind option_bind]; [|apply IH].
  cbn [firstOfName]. rewrite existsb_fst. fold (wanted fam us not exact l). destruct (existsb _ _); [apply IH|].
  rewrite IH. unfold snprintf_s. rewrite take_ge by lia. rewrite <- app_assoc, map_app, length_app. cbn [map app fst length].
  replace (maxIfs - length acc)%nat with (Datatypes.S (maxIfs - (length acc + 1)))%nat by lia. done.
Qed.

(** ** Names *)

Lemma matchIfList_any name l : fst (matchIfList name (-1) l false) = bool_decide (l = []) || existsb (fun e => matchIf name (prefix e) false) l.
Proof.
  destruct l as [|e l]; [done|]. rewrite bool_decide_false by done. cbn [orb matchIfList].
  assert (H : forall l i, fst (matchLoop name (-1) l false i) = existsb (fun e => matchIf name (prefix e) false) l).
  { clear. induction l as [|e l IH]; intros i; cbn [matchLoop existsb]; [done|]. unfold matchPort. cbn [Z.eqb orb Pos.eqb]. rewrite andb_true_r.
    destruct (matchIf name (prefix e) false); [done|apply IH]. }
  apply (H (e :: l) 0).
Qed.

(** The name begins with [s]. *)
Definition begins (s : cstring) (i : IfAddrs) : bool := matchIf (ifa_name i) s false.

(** An interface the sockets can use: it runs, and has an address of the family the user
    wants that is no IPv6 loopback. *)
Definition usable (fam : Z) (i : IfAddrs) : Prop := exists a, ifa_addr i = Some a /\ (sa_family a = AF_INET \/ sa_family a = AF_INET6)
  /\ ifa_running i = true /\ (fam = -1 \/ sa_family a = fam) /\ ~ (sa_family a = AF_INET6 /\ isLoopback6 a = true).

Lemma eligible_usable fam us not exact i : usable fam i -> xorb (fst (matchIfList (ifa_name i) (-1) us exact)) not = true ->
  exists a, eligible fam us not exact i = Some a.
Proof.
  intros (a & Ea & Hf & Hr & Hfam & Hl) Hx. unfold eligible. rewrite Ea. cbn [mbind option_bind]. rewrite Hr, Hx. cbn [negb].
  replace (negb (sa_family a =? AF_INET) && negb (sa_family a =? AF_INET6)) with false
    by (destruct Hf as [-> | ->]; done).
  replace (negb (fam =? -1) && negb (sa_family a =? fam)) with false
    by (symmetry; apply andb_false_iff; destruct Hfam as [->|<-]; [by left|right; by rewrite Z.eqb_refl]).
  destruct ((sa_family a =? AF_INET6) && isLoopback6 a) eqn:E; [|eauto]. exfalso. apply Hl. apply andb_prop in E as [E1 E2].
  split; [by apply Z.eqb_eq|done].
Qed.

Lemma find_nonempty fam us not exact size maxIfs l i : Forall (fun i => (length (ifa_name i) < size)%nat) l -> (0 < maxIfs)%nat -> In i l ->
  usable fam i -> xorb (fst (matchIfList (ifa_name i) (-1) us exact)) not = true -> find_loop fam us not exact size maxIfs l [] <> [].
Proof.
  intros Hl Hm Hin Hu Hx. rewrite find_loop_filter by done. cbn [app map length]. rewrite Nat.sub_0_r.
  destruct (eligible_usable _ _ _ _ _ Hu Hx) as [a Ea].
  assert (Hw : wanted fam us not exact l <> []).
  { intros E. assert (Hin2 : (ifa_name i, a) ∈ wanted fam us not exact l).
    { unfold wanted. apply list_elem_of_omap. exists i. split; [by apply list_elem_of_In|]. by rewrite Ea. }
    rewrite E in Hin2. by apply not_elem_of_nil in Hin2. }
  destruct (wanted fam us not exact l) as [|[n b] w]; [done|]. cbn. by destruct maxIfs; [lia|].
Qed.

(** A search of the automatic choice: the list of the names, and whether it excludes them. *)
Definition parsed (s : cstring) : bool * bool * list netIf :=
  let '(not, p) := skipChar (chr 94) s in let '(exact, p) := skipChar (chr 61) p in (not, exact, parseStringList (Some p) MAX_IFS).

Lemma parsed_others : let '(n, x, us) := parsed (lit "^docker,lo,virbr") in n = true /\ x = false /\ map prefix us = [lit "docker"; lit "lo"; lit "virbr"].
Proof. vm_compute. done. Qed.

Lemma existsb_map {A B} (f : A -> B) (g : B -> bool) l : existsb (fun x => g (f x)) l = existsb g (map f l).
Proof. induction l as [|x l IH]; cbn; [done|by rewrite IH]. Qed.

Section Choice.
Context (e : NetEnv) (r : Resolver) (size maxIfs : nat) (l : list IfAddrs).
Hypothesis Hl : ne_interfaces e = Some l.
Hypothesis Hshort : Forall (fun i => (length (ifa_name i) < size)%nat) l.
Hypothesis Hmax : (0 < maxIfs)%nat.
Let fam := ncclEnvSocketFamily e.
Let find s := ncclOsFindInterfaces e s fam size maxIfs.

Lemma find_parsed s : find s = Done (find_loop fam (snd (parsed s)) (fst (fst (parsed s))) (snd (fst (parsed s))) size maxIfs l []).
Proof.
unfold find, ncclOsFindInterfaces, parsed. rewrite Hl. destruct (skipChar (chr 94) s) as [n p]. by destruct (skipChar (chr 61) p).
Qed.

Lemma find_begins s us i : parsed s = (false, false, us) -> map prefix us = [s] -> In i l -> usable fam i -> begins s i = true -> exists f, find s = Done f /\ f <> [].
Proof.
intros Hp Hus Hi Hu Hb. rewrite find_parsed, Hp. eexists. split; [done|]. apply (find_nonempty _ _ _ _ _ _ _ i); try done.
cbn [fst snd]. rewrite matchIfList_any. destruct us as [|u [|? ?]]; try done. injection Hus as Hu1. cbn. rewrite Hu1. unfold begins in Hb. by rewrite Hb.
Qed.

Lemma find_others i : In i l -> usable fam i -> begins (lit "docker") i = false -> begins (lit "lo") i = false -> begins (lit "virbr") i = false ->
exists f, find (lit "^docker,lo,virbr") = Done f /\ f <> [].
Proof.
intros Hi Hu H1 H2 H3. rewrite find_parsed. eexists. split; [done|]. apply (find_nonempty _ _ _ _ _ _ _ i); try done.
pose proof parsed_others as Hp. destruct (parsed _) as [[n x] us]. destruct Hp as (-> & -> & Hus). cbn [fst snd].
rewrite matchIfList_any, (existsb_map prefix (fun s => matchIf (ifa_name i) s false)), Hus. unfold begins in *. cbn [existsb]. rewrite H1, H2, H3.
by destruct us.
Qed.
End Choice.

(** The kinds taken last. *)
Definition lastKind (name : cstring) : bool := matchIf name (lit "docker") false || matchIf name (lit "lo") false || matchIf name (lit "virbr") false.

Lemma matchIf_begins name ref : matchIf name ref false = true <-> ref `prefix_of` name.
Proof.
  unfold matchIf. rewrite strnceq_eq by lia. rewrite Nat2Z.id, (take_ge ref) by lia. split; [intros <-; apply prefix_take|].
  intros [k ->]. by rewrite take_app_length.
Qed.

Lemma ib_not_last name : matchIf name (lit "ib") false = true -> lastKind name = false.
Proof.
  intros [k ->]%matchIf_begins. unfold lastKind. rewrite !orb_false_iff. split_and!; apply not_true_iff_false; intros [k' E]%matchIf_begins; discriminate E.
Qed.

Lemma firstOfName_In seen l x : In x (firstOfName seen l) -> In x l.
Proof.
  revert seen. induction l as [|[n a] l IH]; intros seen; cbn [firstOfName]; [done|]. destruct (existsb _ _); [intros H; right; by apply IH in H|].
  intros [<-|H]; [by left|right; by apply IH in H].
Qed.

Lemma find_loop_found fam us not exact size maxIfs l n a : Forall (fun i => (length (ifa_name i) < size)%nat) l ->
  In (n, a) (find_loop fam us not exact size maxIfs l []) -> xorb (fst (matchIfList n (-1) us exact)) not = true.
Proof.
  intros Hl. rewrite find_loop_filter by done. cbn [app]. intros H. 
  assert (Hw : In (n, a) (wanted fam us not exact l)).
  { apply (firstOfName_In []). rewrite <- (take_drop (maxIfs - 0) (firstOfName [] _)). apply in_or_app. by left. }
  apply list_elem_of_In, list_elem_of_omap in Hw as (i & _ & Hi). destruct (eligible fam us not exact i) eqn:E; [|done]. injection Hi as <- <-.
  unfold eligible in E. destruct (ifa_addr i) as [b|]; [|done]. cbn [mbind option_bind] in E. repeat case_match; try done.
  by apply negb_false_iff in H4.
Qed.

Section Automatic.
Context (e : NetEnv) (r : Resolver) (size maxIfs : nat) (l : list IfAddrs).
Hypothesis Hl : ne_interfaces e = Some l.
Hypothesis Hshort : Forall (fun i => (length (ifa_name i) < size)%nat) l.
Hypothesis Hmax : (0 < maxIfs)%nat.
Let find s := ncclOsFindInterfaces e s (ncclEnvSocketFamily e) size maxIfs.

Lemma find_found s f n a : find s = Done f -> In (n, a) f ->
xorb (fst (matchIfList n (-1) (snd (parsed s)) (snd (fst (parsed s))))) (fst (fst (parsed s))) = true.
Proof.
unfold find. rewrite (find_parsed e size maxIfs l Hl). generalize (parsed s). intros p [= <-] Hin. by apply find_loop_found in Hin.
Qed.

(** Only bridges and loopbacks are of the last kinds, and the two searches before find none. *)
Lemma early_search s f n a : s = lit "ib" \/ s = lit "^docker,lo,virbr" -> find s = Done f -> In (n, a) f -> lastKind n = false.
Proof.
intros Hs Ef Hin. pose proof (find_found s f n a Ef Hin) as Hx. destruct Hs as [-> | ->].
- assert (Hp : parsed (lit "ib") = (false, false, [mkNetIf (lit "ib") (-1) (-1) (-1)])) by (vm_compute; reflexivity).
rewrite Hp in Hx. cbn [fst snd] in Hx. rewrite xorb_false_r, matchIfList_any in Hx. cbn [existsb prefix] in Hx. rewrite orb_false_r in Hx.
by apply ib_not_last.
- pose proof parsed_others as Hp. destruct (parsed _) as [[nn xx] us]. destruct Hp as (-> & -> & Hus). cbn [fst snd] in Hx.
rewrite xorb_true_r, negb_true_iff, matchIfList_any, (existsb_map prefix (fun s => matchIf n s false)), Hus in Hx. cbn [existsb] in Hx.
rewrite !orb_false_r in Hx. apply orb_false_iff in Hx as [_ Hx]. unfold lastKind. by rewrite <- orb_assoc.
Qed.

Lemma late_search i : In i l -> usable (ncclEnvSocketFamily e) i -> lastKind (ifa_name i) = true ->
exists s f, In s [lit "docker"; lit "lo"; lit "virbr"] /\ find s = Done f /\ f <> [].
Proof.
intros Hi Hu Hk. unfold lastKind in Hk. rewrite !orb_true_iff in Hk.
assert (H : forall s us, parsed s = (false, false, us) -> map prefix us = [s] -> matchIf (ifa_name i) s false = true -> exists f, find s = Done f /\ f <> []).
{ intros s us Hp Hus Hm. exact (find_begins e size maxIfs l Hl Hshort Hmax s us i Hp Hus Hi Hu Hm). }
assert (P1 : parsed (lit "docker") = (false, false, [mkNetIf (lit "docker") (-1) (-1) (-1)])) by (vm_compute; reflexivity).
assert (P2 : parsed (lit "lo") = (false, false, [mkNetIf (lit "lo") (-1) (-1) (-1)])) by (vm_compute; reflexivity).
assert (P3 : parsed (lit "virbr") = (false, false, [mkNetIf (lit "virbr") (-1) (-1) (-1)])) by (vm_compute; reflexivity).
destruct Hk as [[Hk|Hk]|Hk].
- destruct (H _ _ P1 eq_refl Hk) as (f & Hf). exists (lit "docker"), f. split; [by left|exact Hf].
- destruct (H _ _ P2 eq_refl Hk) as (f & Hf). exists (lit "lo"), f. split; [by right; left|exact Hf].
- destruct (H _ _ P3 eq_refl Hk) as (f & Hf). exists (lit "virbr"), f. split; [by right; right; left|exact Hf].
Qed.

(** The searches one after the other. *)
Fixpoint tryAll (ss : list cstring) : outcome (list (cstring * SockAddr)) :=
match ss with [] => Done [] | s :: ss => orElse (find s) (tryAll ss) end.

Lemma find_done s : exists f, find s = Done f.
Proof. unfold find. rewrite (find_parsed e size maxIfs l Hl). eauto. Qed.

Lemma tryAll_first ss : (exists s f, In s ss /\ find s = Done f /\ f <> []) ->
exists pre s post f, ss = pre ++ s :: post /\ tryAll ss = Done f /\ find s = Done f /\ f <> [] /\ forall s', In s' pre -> find s' = Done [].
Proof.
induction ss as [|s ss IH]; intros (s1 & f1 & Hin & E1 & H1); [done|]. destruct (find_done s) as [f Ef]. cbn [tryAll].
destruct f as [|x f].
- destruct IH as (pre & s2 & post & f2 & -> & E & E2 & H2 & Hpre).
{ destruct Hin as [<-|Hin]; [congruence|]. by exists s1, f1. }
exists (s :: pre), s2, post, f2. split_and!; [done|by rewrite Ef|done|done|]. intros s' [<-|Hs']; [done|by apply Hpre].
- exists [], s, ss, (x :: f). split_and!; [done|by rewrite Ef|done|done|done].
Qed.

Definition searches : list cstring := [lit "ib"; lit "^docker,lo,virbr"; lit "docker"; lit "lo"; lit "virbr"].

Lemma automatic_searches : ne_SOCKET_IFNAME e = None -> ne_COMM_ID e = None -> ncclFindInterfaces e r size maxIfs = tryAll searches.
Proof.
intros Hif Hid. unfold ncclFindInterfaces, bySubnet, searches. rewrite Hif, Hid. cbn [tryAll orElse]. fold find. unfold find.
destruct (find_done (lit "virbr")) as [f Ef]. unfold find in Ef. rewrite Ef. by destruct f.
Qed.
End Automatic.

(** The automatic choice of an interface finds one whenever there is one the sockets can
    use, and it is no bridge of docker, loopback or virtual bridge while there is another
    (no interface is set by the user, and no address to share a subnet with). *)
Theorem FindInterfaces_automatic e r size maxIfs l i :
  ne_interfaces e = Some l -> Forall (fun i => (length (ifa_name i) < size)%nat) l -> (0 < maxIfs)%nat ->
  ne_SOCKET_IFNAME e = None -> ne_COMM_ID e = None -> In i l -> usable (ncclEnvSocketFamily e) i ->
  exists f, ncclFindInterfaces e r size maxIfs = Done f /\ f <> []
  /\ (lastKind (ifa_name i) = false -> forall n a, In (n, a) f -> lastKind n = false).
Proof.
  intros Hl Hs Hm Hif Hid Hi Hu. rewrite (automatic_searches e r size maxIfs l Hl Hif Hid).
  destruct (tryAll_first e size maxIfs l Hl searches) as (pre & s & post & f & Ess & E & Ef & Hf & Hpre).
  { destruct (lastKind (ifa_name i)) eqn:Hk.
    - destruct (late_search e size maxIfs l Hl Hs Hm i Hi Hu Hk) as (s & f & Hin & H). exists s, f. split; [by right; right|done].
    - unfold lastKind in Hk. rewrite !orb_false_iff in Hk. destruct Hk as ((H1 & H2) & H3).
      destruct (find_others e size maxIfs l Hl Hs Hm i Hi Hu H1 H2 H3) as (f & H). exists (lit "^docker,lo,virbr"), f. split; [by right; left|done]. }
  exists f. split_and!; [exact E|exact Hf|]. intros Hk n a Hin.
  assert (Hs12 : s = lit "ib" \/ s = lit "^docker,lo,virbr" \/ In (lit "^docker,lo,virbr") pre).
  { unfold searches in Ess. destruct pre as [|x1 [|x2 pre]]; cbn [app] in Ess; [injection Ess as <-; by left|injection Ess as _ <-; by right; left|].
    right; right; right; left. by injection Ess. }
  destruct Hs12 as [Hs1|[Hs1|Hlate]]; [by apply (early_search e size maxIfs l Hl Hs s f n a); [left| |]|by apply (early_search e size maxIfs l Hl Hs s f n a); [right| |]|].
  exfalso. apply Hpre in Hlate. unfold lastKind in Hk. rewrite !orb_false_iff in Hk. destruct Hk as ((H1 & H2) & H3).
  destruct (find_others e size maxIfs l Hl Hs Hm i Hi Hu H1 H2 H3) as (g & Eg & Hg). congruence.
Qed.

Definition v4 (d : Z) : SockAddr := mkSockAddr AF_INET [10; 0; 0; d] 0 0.
Definition ifOf (name : cstring) (d : Z) : IfAddrs := mkIfAddrs name (Some (v4 d)) true (Some [255; 255; 255; 0]).
Definition noResolver : Resolver := mkResolver (fun _ => None) (fun _ => None) (fun _ => 0).
Definition someIfs : list IfAddrs := [ifOf (lit "lo") 1; ifOf (lit "docker0") 2; mkIfAddrs (lit "eth1") (Some (v4 3)) false None; ifOf (lit "eth0") 4].
Definition someEnv : NetEnv := mkNetEnv None None None (Some someIfs).

Example FindInterfaces_automatic_witness :
  ncclFindInterfaces someEnv noResolver 16 1 = Done [(lit "eth0", v4 4)]
  /\ exists f, ncclFindInterfaces someEnv noResolver 16 1 = Done f /\ f <> []
  /\ (lastKind (ifa_name (ifOf (lit "eth0") 4)) = false -> forall n a, In (n, a) f -> lastKind n = false).
Proof.
  split; [vm_compute; reflexivity|].
  apply (FindInterfaces_automatic someEnv noResolver 16 1 someIfs (ifOf (lit "eth0") 4)); [reflexivity|repeat constructor; vm_compute; lia|lia|reflexivity|reflexivity|right; right; right; left; reflexivity|].
  exists (v4 4). split_and!; [reflexivity|by left|reflexivity|by left|by intros [? _]].
Defined.

(** A search for interfaces finds the running ones of the family that match the list,
    the first of each name, in the order of the kernel, up to the number asked for. *)
Theorem OsFindInterfaces_filter e prefixList fam size maxIfs l : ne_interfaces e = Some l -> Forall (fun i => (length (ifa_name i) < size)%nat) l ->
  let '(searchNot, searchExact, us) := parsed prefixList in
  ncclOsFindInterfaces e prefixList fam size maxIfs = Done (take maxIfs (firstOfName [] (wanted fam us searchNot searchExact l))).
Proof.
  intros Hl Hs. pose proof (find_parsed e size maxIfs l Hl prefixList) as Hf. revert Hf. unfold ncclOsFindInterfaces, parsed. rewrite Hl.
  destruct (skipChar (chr 94) prefixList) as [n p]. destruct (skipChar (chr 61) p) as [x q]. intros _.
  rewrite find_loop_filter by done. cbn. by rewrite Nat.sub_0_r.
Qed.

Example OsFindInterfaces_filter_witness : ne_interfaces someEnv = Some someIfs /\
  let '(searchNot, searchExact, us) := parsed (lit "^lo") in
  ncclOsFindInterfaces someEnv (lit "^lo") (-1) 16 8 = Done (take 8 (firstOfName [] (wanted (-1) us searchNot searchExact someIfs))).
Proof.
  split; [reflexivity|]. apply (OsFindInterfaces_filter someEnv (lit "^lo") (-1) 16 8 someIfs); [reflexivity|repeat constructor; vm_compute; lia].
Defined.

(** The name of an interface in an address with a scope is copied without a bound. *)
Lemma scope_name_overflow : ncclSocketGetAddrFromString noResolver zeroAddr (Some (lit "[fe80::1%enp129s0f0np0_long]:4000")) = Fault
  /\ ncclSocketGetAddrFromString noResolver zeroAddr (Some (lit "[fe80::1%eth0]:4000")) = Done (mkSockAddr AF_INET6 [] (htons 4000) 0).
Proof. vm_compute. done. Qed.
