(* ===== verification/SocketBlock.v ===== *)
(** * Blocking transfers ([misc/socket.cc])

    The transfers that wait until all bytes have moved, and the one that makes several
    transfers progress in turns.  A wait has as many turns as there is fuel; [None] says
    that they were not enough.  The [poll] between two turns only waits. *)

From S2P Require Import Prelude NetBase Socket SocketSpec.

Open Scope Z_scope.
Open Scope nccl_scope.

Fixpoint socketWaitSend (fuel : nat) (buf : list Cell) (size offset : Z) : sockM (option Z) :=
  if size <=? offset then ret (Some offset)
  else match fuel with
       | O => ret None
       | Datatypes.S f => let* offset := ncclSocketProgressSend buf size offset in socketWaitSend f buf size offset
       end.

Fixpoint socketWaitRecv (fuel : nat) (buf : list Cell) (size offset : Z) : sockM (option (list Cell)) :=
  if size <=? offset then ret (Some buf)
  else match fuel with
       | O => ret None
       | Datatypes.S f => let* '(buf, offset) := ncclSocketProgressRecv buf size offset in socketWaitRecv f buf size offset
       end.

Definition isTerminating (s : ncclSocket) : bool := bool_decide (sk_state s = ncclSocketStateTerminating).

Definition ncclSocketSend (fuel : nat) (buf : list Cell) (size : Z) : sockM (option Z) :=
  let* s := getS in if negb (isReady s) then fail ncclInternalError else socketWaitSend fuel buf size 0.

Definition ncclSocketRecv (fuel : nat) (buf : list Cell) (size : Z) : sockM (option (list Cell)) :=
  let* s := getS in if negb (isReady s) && negb (isTerminating s) then fail ncclInternalError else socketWaitRecv fuel buf size 0.

(** [ncclSocketOp], with the socket it is on (each has its own). *)
Record ncclSocketOp := mkOp { op_recv : bool; op_sock : ncclSocket; op_ptr : list Cell; op_size : Z; op_offset : Z }.
#[export] Instance eta_Op : Eta ncclSocketOp := fun r => mkOp (op_recv r) (op_sock r) (op_ptr r) (op_size r) (op_offset r).

(** [socketProgress] of an operation. *)
Definition opProgress (o : ncclSocketOp) : outcome ncclSocketOp :=
  if op_recv o then
    match ncclSocketProgressRecv (op_ptr o) (op_size o) (op_offset o) (op_sock o) with
    | (Done (buf, off), s) => Done (o <| op_sock := s |> <| op_ptr := buf |> <| op_offset := off |>)
    | (Fail r, _) => Fail r
    | (Fault, _) => Fault
    end
  else
    match ncclSocketProgressSend (op_ptr o) (op_size o) (op_offset o) (op_sock o) with
    | (Done off, s) => Done (o <| op_sock := s |> <| op_offset := off |>)
    | (Fail r, _) => Fail r
    | (Fault, _) => Fault
    end.

Fixpoint multiLoop (fuel : nat) (ops : list ncclSocketOp) (completedOps i : Z) : outcome (option (list ncclSocketOp)) :=
  if Z.of_nat (length ops) <=? completedOps then Done (Some ops)
  else match fuel with
       | O => Done None
       | Datatypes.S f =>
           let next := (i + 1) mod Z.of_nat (length ops) in
           match zget ops i with
           | None => Fault
           | Some o =>
               if op_offset o <? op_size o then
                 match opProgress o with
                 | Done o' => multiLoop f (zupd ops i o') (if op_size o' <=? op_offset o' then completedOps + 1 else completedOps) next
                 | Fail r => Fail r
                 | Fault => Fault
                 end
               else multiLoop f ops completedOps next
           end
       end.

Definition ncclSocketMultiOp (fuel : nat) (ops : list ncclSocketOp) : outcome (option (list ncclSocketOp)) :=
  match ops with
  | [] => Fail ncclInvalidArgument
  | _ => multiLoop fuel (map (fun o => o <| op_offset := 0 |>) ops) 0 0
  end.

(** [ncclSocketSendRecv]: the two sockets progress in turns. *)
Fixpoint sendRecvLoop (fuel : nat) (snd rcv : ncclSocketOp) : outcome (option (ncclSocketOp * ncclSocketOp)) :=
  if (op_size snd <=? op_offset snd) && (op_size rcv <=? op_offset rcv) then Done (Some (snd, rcv))
  else match fuel with
       | O => Done None
       | Datatypes.S f =>
           match (if op_offset snd <? op_size snd then opProgress snd else Done snd) with
           | Done snd =>
               match (if op_offset rcv <? op_size rcv then opProgress rcv else Done rcv) with
               | Done rcv => sendRecvLoop f snd rcv
               | Fail r => Fail r
               | Fault => Fault
               end
           | Fail r => Fail r
           | Fault => Fault
           end
       end.

Definition ncclSocketSendRecv (fuel : nat) (sendSock : ncclSocket) (sendPtr : list Cell) (sendSize : Z)
    (recvSock : ncclSocket) (recvPtr : list Cell) (recvSize : Z) : outcome (option (ncclSocketOp * ncclSocketOp)) :=
  if negb (isReady sendSock) || negb (isReady recvSock) && negb (isTerminating recvSock) then Fail ncclInternalError
  else sendRecvLoop fuel (mkOp false sendSock sendPtr sendSize 0) (mkOp true recvSock recvPtr recvSize 0).

(** * The theorems

    A blocking transfer moves all the bytes once the kernel moves some in every turn; the
    transfer of several operations ends only when all are done, and never when one of them
    has nothing to do. *)

(** ** One transfer *)

(** A kernel that moves at least a byte in each of the next [n] turns. *)
Definition steady (n : nat) (s : ncclSocket) : Prop := exists ks rest, script s = map KMoved ks ++ rest /\ Forall (fun k => 0 < k) ks /\ (n <= length ks)%nat.

Lemma steady_next n s : steady (Datatypes.S n) s -> exists k rest, script s = KMoved k :: rest /\ 0 < k /\ forall s', script s' = rest -> steady n s'.
Proof.
  intros (ks & rest & E & Hk & Hn). destruct ks as [|k ks]; [cbn in Hn; lia|]. apply Forall_cons in Hk as [Hk0 Hk].
  exists k, (map KMoved ks ++ rest). split_and!; [exact E|exact Hk0|]. intros s' Es'. exists ks, rest. cbn in Hn. split_and!; [exact Es'|exact Hk|lia].
Qed.

Lemma progressSend_step n buf off s : steady (Datatypes.S n) s -> 0 <= off < Z.of_nat (length buf) ->
  exists off' s', ncclSocketProgressSend buf (Z.of_nat (length buf)) off s = (Done off', s') /\ off < off' <= Z.of_nat (length buf) /\ steady n s'
    /\ out s' = out s ++ take (Z.to_nat (off' - off)) (drop (Z.to_nat off) buf) /\ sk_state s' = sk_state s.
Proof.
  intros Hs Ho. destruct (steady_next n s Hs) as (k & rest & E & Hk & Hrest).
  unfold ncclSocketProgressSend, socketProgressSend, progressSend, send, slice. rewrite Nat2Z.id, take_ge by done.
  set (cells := drop (Z.to_nat off) buf). assert (Hc : length cells = (length buf - Z.to_nat off)%nat) by apply length_drop.
  unfold bind, getS, pop, modify. rewrite E. cbn.
  assert (Ht : Z.of_nat (length (take (Z.to_nat k) cells)) = Z.min k (Z.of_nat (length cells))) by (rewrite length_take; lia).
  rewrite Ht. rewrite (proj2 (Z.eqb_neq _ _)) by lia. cbn. do 2 eexists. split; [reflexivity|]. split; [lia|]. split; [by apply Hrest; cbn; rewrite E|].
  cbn. split; [|done]. f_equal. replace (Z.to_nat (off + Z.min k (Z.of_nat (length cells)) - off)) with (Nat.min (Z.to_nat k) (length cells)) by lia.
  destruct (decide (Z.to_nat k <= length cells)%nat); [by rewrite Nat.min_l|]. rewrite Nat.min_r by lia. by rewrite !take_ge by lia.
Qed.

Lemma waitSend_total buf : forall fuel off s, 0 <= off <= Z.of_nat (length buf) -> Z.of_nat (length buf) - off <= Z.of_nat fuel ->
  steady fuel s -> exists s', socketWaitSend fuel buf (Z.of_nat (length buf)) off s = (Done (Some (Z.of_nat (length buf))), s')
    /\ out s' = out s ++ drop (Z.to_nat off) buf.
Proof.
  induction fuel as [|fuel IH]; intros off s Ho Hf Hs; cbn [socketWaitSend]; (destruct (_ <=? off) eqn:E;
    [exists s; assert (off = Z.of_nat (length buf)) as -> by lia; rewrite Nat2Z.id, drop_all, app_nil_r; done|]); [lia|].
  destruct (progressSend_step fuel buf off s Hs ltac:(lia)) as (off' & s1 & E1 & Ho' & Hs1 & Eo & _). nstep E1.
  destruct (IH off' s1) as (s' & E' & Eo'); [lia|lia|exact Hs1|]. exists s'. split; [exact E'|]. rewrite Eo', Eo, <- app_assoc. f_equal.
  replace (Z.to_nat off') with (Z.to_nat off + Z.to_nat (off' - off))%nat by lia. rewrite <- drop_drop. apply take_drop.
Qed.

(** A blocking send sends the whole buffer, and ends, when the kernel takes at least a
    byte in every turn; with no byte to send it does nothing. *)
Theorem SocketSend_sends_all fuel buf s : isReady s = true -> steady fuel s -> (length buf <= fuel)%nat ->
  exists s', ncclSocketSend fuel buf (Z.of_nat (length buf)) s = (Done (Some (Z.of_nat (length buf))), s') /\ out s' = out s ++ buf.
Proof.
  intros Hr Hs Hf. unfold ncclSocketSend. nred. rewrite Hr. cbn [negb].
  destruct (waitSend_total buf fuel 0 s ltac:(lia) ltac:(lia) Hs) as (s' & E & Eo). exists s'. by rewrite drop_0 in Eo.
Qed.

(** ** Several transfers *)

Definition isDone (o : ncclSocketOp) : bool := (0 <? op_size o) && (op_size o <=? op_offset o).

Lemma opProgress_size o o' : opProgress o = Done o' -> op_size o' = op_size o.
Proof. unfold opProgress. repeat case_match; intros [= <-]; done. Qed.

Lemma opProgress_offset o o' : opProgress o = Done o' -> op_offset o <= op_offset o'.
Proof.
  unfold opProgress, ncclSocketProgressRecv, ncclSocketProgressSend, socketProgressRecv, socketProgressSend, bind. destruct (op_recv o).
  - destruct (progressRecv _ _) as [[[cells []]| |] s]; cbn; intros [= <-]; cbn. lia.
  - destruct (progressSend _ _) as [[[n []]| |] s] eqn:E; cbn; intros [= <-]; cbn. apply progressSend_Done in E as [_ Hn]. lia.
Qed.

Definition doneCount (ops : list ncclSocketOp) : Z := Z.of_nat (length (List.filter isDone ops)).

Lemma doneCount_zupd ops i o o' : zget ops i = Some o -> isDone o = false -> doneCount (zupd ops i o') = doneCount ops + (if isDone o' then 1 else 0).
Proof.
  intros E Hd. unfold doneCount, zget, zupd in *. case_decide as Hi; [|done]. pose proof (take_drop_middle _ _ _ E) as Em. pose proof (lookup_lt_Some _ _ _ E).
  rewrite insert_take_drop by done. rewrite <- Em at 3. rewrite !List.filter_app, !length_app. cbn [List.filter]. rewrite Hd.
  destruct (isDone o'); cbn [length]; lia.
Qed.

(** What the count of completed operations is. *)
Lemma multiLoop_inv fuel : forall ops completed i r, (0 < length ops)%nat -> Forall (fun o => 0 <= op_offset o) ops -> completed = doneCount ops ->
  multiLoop fuel ops completed i = Done (Some r) -> doneCount r = Z.of_nat (length r) /\ map op_size r = map op_size ops.
Proof.
  induction fuel as [|fuel IH]; intros ops completed i r Hl Hpos -> E; cbn [multiLoop] in E;
    (destruct (Z.of_nat (length ops) <=? doneCount ops) eqn:Ec;
      [injection E as <-; split; [|done]; pose proof (filter_length_le isDone ops); unfold doneCount in *; lia|]); [done|].
  destruct (zget ops i) as [o|] eqn:Eo; [|done]. destruct (op_offset o <? op_size o) eqn:Elt.
  - pose proof (proj1 (Forall_lookup _ _) Hpos) as Hp0. assert (Ho0 : 0 <= op_offset o) by (unfold zget in Eo; case_decide; [exact (Hp0 _ _ Eo)|done]).
    assert (Hd : isDone o = false) by (unfold isDone; destruct (0 <? op_size o); cbn; lia).
    destruct (opProgress o) as [o'| |] eqn:Ep; [|done..]. pose proof (opProgress_size _ _ Ep) as Hsz.
    assert (Hmap : map op_size (zupd ops i o') = map op_size ops).
    { change (op_size <$> zupd ops i o' = op_size <$> ops). apply list_eq_zget. intros j. rewrite !zget_fmap, zget_zupd. case_decide as Hj; [|done]. destruct Hj as [<- _].
      rewrite Eo. cbn. by rewrite Hsz. }
    pose proof (opProgress_offset _ _ Ep) as Hoff.
    assert (Hpos' : Forall (fun o => 0 <= op_offset o) (zupd ops i o')) by (unfold zupd; case_decide; [apply Forall_insert; [done|lia]|done]).
    rewrite <- Hmap. apply (IH _ _ _ _ ltac:(by rewrite length_zupd) Hpos') in E; [exact E|]. rewrite (doneCount_zupd _ _ _ o' Eo Hd).
    assert (Hq : isDone o' = (op_size o' <=? op_offset o')) by (unfold isDone; rewrite Hsz, (proj2 (Z.ltb_lt 0 (op_size o))) by lia; done).
    rewrite Hq. clear. destruct (op_size o' <=? op_offset o'); lia.
  - apply (IH _ _ _ _ Hl Hpos eq_refl) in E. exact E.
Qed.

(** A transfer of several operations ends with success only when every one of them has
    moved all its bytes; and when one of them has no byte to move, it does not end with
    success at all: that operation is never counted, however long the loop runs. *)
Theorem MultiOp_ends_only_when_done fuel ops r : ncclSocketMultiOp fuel ops = Done (Some r) ->
  map op_size r = map op_size ops /\ Forall (fun o => 0 < op_size o /\ op_size o <= op_offset o) r.
Proof.
  unfold ncclSocketMultiOp. destruct ops as [|o ops]; [done|]. set (ops0 := map _ (o :: ops)). intros E.
  assert (H0 : doneCount ops0 = 0).
  { unfold doneCount. replace (List.filter isDone ops0) with (@nil ncclSocketOp); [done|]. subst ops0. clear E. induction (o :: ops) as [|x l IH]; [done|].
    cbn [map List.filter]. replace (isDone _) with false; [exact IH|]. unfold isDone. cbn. destruct (0 <? op_size x) eqn:?; cbn; lia. }
  destruct (multiLoop_inv fuel ops0 0 0 r) as [Hr Hs]; [cbn; lia| |done|exact E|].
  { subst ops0. apply Forall_map, Forall_true. intros x. cbn. lia. }
  split; [rewrite Hs; subst ops0; by rewrite map_map|]. unfold doneCount in Hr. apply Forall_forall. intros x Hx. 
  assert (Hall : forall l, length (List.filter isDone l) = length l -> forall x, x ∈ l -> isDone x = true).
  { clear. induction l as [|y l IH]; intros Hl x Hx; [by apply not_elem_of_nil in Hx|]. cbn [List.filter] in Hl. pose proof (filter_length_le isDone l).
    destruct (isDone y) eqn:Ey; cbn [length] in Hl; [|lia]. apply elem_of_cons in Hx as [->|Hx]; [done|]. apply IH; [lia|done]. }
  apply Hall in Hx; [|lia]. unfold isDone in Hx. lia.
Qed.

(** ** Instances *)

(** A ready socket whose kernel takes, or delivers [log], [k] bytes a turn. *)
Definition readySock (k : Z) (log : list Cell) : ncclSocket :=
  mkSocket true true 0 ncclSocketStateReady 0 0 false 0 [] [] log 0 [KMoved k; KMoved k; KMoved k; KMoved k].

Lemma SocketSend_sends_all_witness : exists s', ncclSocketSend 4 (encode (MsgType 7)) 4 (readySock 1 []) = (Done (Some 4), s') /\ out s' = encode (MsgType 7).
Proof.
  destruct (SocketSend_sends_all 4 (encode (MsgType 7)) (readySock 1 [])) as (s' & E & Eo); [vm_compute; reflexivity| |vm_compute; lia|].
  - exists [1; 1; 1; 1], []. split_and!; [reflexivity| |vm_compute; lia]. repeat (apply Forall_cons; split; [lia|]). by apply Forall_nil.
  - exists s'. split; [exact E|exact Eo].
Defined.

Definition twoOps : list ncclSocketOp :=
  [mkOp false (readySock 3 []) (encode (MsgType 7)) 4 9; mkOp true (readySock 2 (encode (MsgReady 1))) (encode (MsgType 0)) 4 0].

Lemma MultiOp_ends_only_when_done_witness : exists r, ncclSocketMultiOp 8 twoOps = Done (Some r) /\ Forall (fun o => 0 < op_size o /\ op_size o <= op_offset o) r.
Proof.
  destruct (ncclSocketMultiOp 8 twoOps) as [[r|]| |] eqn:E; [|vm_compute in E; discriminate E..].
  exists r. split; [reflexivity|]. exact (proj2 (MultiOp_ends_only_when_done 8 twoOps r E)).
Defined.

(** What the two operations moved. *)
Example twoOps_moved : match ncclSocketMultiOp 8 twoOps with Done (Some [a; b]) => out (op_sock a) = encode (MsgType 7) /\ op_ptr b = encode (MsgReady 1) | _ => False end.
Proof. vm_compute. split; reflexivity. Qed.

(** One operation with no byte to move is never done. *)
Lemma empty_operation_never_ends o fuel : op_size o <= 0 -> ncclSocketMultiOp fuel [o] = Done None.
Proof.
  intros Ho. unfold ncclSocketMultiOp. cbn [map]. set (o0 := _ <| _ := _ |>). assert (Hs : op_offset o0 = 0 /\ op_size o0 <= 0) by done. clearbody o0.
  induction fuel as [|fuel IH]; [done|]. cbn [multiLoop length]. change (Z.of_nat 1 <=? 0) with false. change (zget [o0] 0) with (Some o0). cbn iota. rewrite (proj2 (Z.ltb_ge _ _)) by lia. exact IH.
Qed.
