(* ===== verification/Chains.v ===== *)
(** * Chained objects

    The heap of the intrusive containers of [include/utils.h]: objects at their addresses,
    linked through a field of their own.  Address 0 is null. *)

From S2P Require Import Prelude.

Open Scope Z_scope.
Open Scope nccl_scope.

(** [o_key] are the eight bytes at the key field. *)
Record Obj := mkObj { o_key : Z; o_next : Z }.
#[export] Instance eta_Obj : Eta Obj := fun r => mkObj (o_key r) (o_next r).

(** ** Chains *)

(** From [p] the objects [l] are linked, up to [r]. *)
Fixpoint lseg (h : gmap Z Obj) (p : Z) (l : list Z) (r : Z) : Prop :=
  match l with
  | [] => p = r
  | q :: l => p = q /\ p <> 0 /\ exists o, h !! p = Some o /\ lseg h (o_next o) l r
  end.

Lemma lseg_app h l1 : forall p l2 r, lseg h p (l1 ++ l2) r <-> exists m, lseg h p l1 m /\ lseg h m l2 r.
Proof.
  induction l1 as [|q l1 IH]; intros p l2 r; cbn; [naive_solver|]. setoid_rewrite IH. naive_solver.
Qed.

Lemma lseg_frame h x o l : forall p r, x ∉ l -> lseg h p l r -> lseg (<[x := o]> h) p l r.
Proof.
  induction l as [|q l IH]; intros p r Hx; [done|]. apply not_elem_of_cons in Hx as [Hq Hx]. intros (-> & H0 & o' & E & Hl).
  split_and!; [done..|]. exists o'. rewrite lookup_insert_ne by done. split; [done|]. by apply IH.
Qed.

Lemma lseg_agree h h' l : forall p r, (forall x, x ∈ l -> h' !! x = h !! x) -> lseg h p l r -> lseg h' p l r.
Proof.
  induction l as [|q l IH]; intros p r Hx; [done|]. intros (-> & H0 & o' & E & Hl).
  split_and!; [done..|]. exists o'. rewrite Hx by set_solver. split; [done|]. apply IH; [|done]. intros. apply Hx. set_solver.
Qed.

Lemma lseg_dom h l : forall p r x, lseg h p l r -> x ∈ l -> x <> 0 /\ is_Some (h !! x).
Proof.
  induction l as [|q l IH]; intros p r x; [set_solver|]. intros (-> & H0 & o' & E & Hl) [->|Hx]%elem_of_cons; [eauto|]. eapply IH; eauto.
Qed.

Lemma lseg_length h l p r : NoDup l -> lseg h p l r -> (length l <= size h)%nat.
Proof.
  intros Hn Hl. rewrite <- size_dom. rewrite <- (size_list_to_set (C:=gset Z) l) by done. apply subseteq_size.
  intros x Hx. apply elem_of_list_to_set in Hx. apply elem_of_dom. by destruct (lseg_dom _ _ _ _ _ Hl Hx).
Qed.

(** Only next fields of the objects [l] differ. *)
Definition relinked (l : list Z) (h h' : gmap Z Obj) : Prop :=
  (forall p, o_key <$> h' !! p = o_key <$> h !! p) /\ forall p, p ∉ l -> h' !! p = h !! p.

Lemma relinked_refl l h : relinked l h h.
Proof. done. Qed.

Lemma relinked_one h p o v : h !! p = Some o -> relinked [p] h (<[p := o <| o_next := v |>]> h).
Proof.
  intros E. split; intros q.
  - destruct (decide (q = p)) as [->|]; [by rewrite lookup_insert_eq, E|by rewrite lookup_insert_ne].
  - intros Hq. rewrite lookup_insert_ne; [done|set_solver].
Qed.

Lemma relinked_trans l1 l2 l h h1 h2 : relinked l1 h h1 -> relinked l2 h1 h2 -> l1 ⊆ l -> l2 ⊆ l -> relinked l h h2.
Proof.
  intros [K1 F1] [K2 F2] H1 H2. split; intros p; [by rewrite K2, K1|]. intros Hp. rewrite F2, F1; set_solver.
Qed.

(** Linking around an object. *)
Lemma lseg_skip h p l1 pr q l2 o oq : NoDup (l1 ++ pr :: q :: l2) -> lseg h p (l1 ++ pr :: q :: l2) 0 -> h !! pr = Some o -> h !! q = Some oq ->
  lseg (<[pr := o <| o_next := o_next oq |>]> h) p (l1 ++ pr :: l2) 0.
Proof.
  intros Hnd Hl Eo Eq. apply NoDup_app in Hnd as (_ & Hd & Hnd). apply NoDup_cons in Hnd as [Hpr Hnd]. apply NoDup_cons in Hnd as [Hq Hnd].
  apply lseg_app in Hl as (m & H1 & H2). cbn in H2. destruct H2 as (-> & Hm0 & o' & Eo' & H2). destruct H2 as (E2 & H20 & oq' & Eq' & H2).
  rewrite E2, Eq in Eq'. injection Eq' as <-. apply lseg_app. exists pr. split; [apply lseg_frame; [|done]; intros Hin; apply (Hd pr Hin); set_solver|].
  cbn. split_and!; [done..|]. eexists. split; [apply lookup_insert_eq|]. apply lseg_frame; [set_solver|done].
Qed.
