(* ===== verification/AddressMap.v ===== *)
(** * The intrusive address map ([misc/utils.cc], [include/utils.h])

    A hash table whose chains go through a field of the objects themselves.  [allocs] are
    the answers of the allocations to come (none left: they succeed). *)

From S2P Require Import Prelude Chains.

Open Scope Z_scope.
Open Scope nccl_scope.

Record ncclIntruAddressMap_untyped := mkAddressMap { hbits : Z; count : Z; table : option (list Z) }.
#[export] Instance eta_AddressMap : Eta ncclIntruAddressMap_untyped := fun r => mkAddressMap (hbits r) (count r) (table r).

Record MapState := mkMapState { objs : gmap Z Obj; imap : ncclIntruAddressMap_untyped; allocs : list bool }.
#[export] Instance eta_MapState : Eta MapState := fun r => mkMapState (objs r) (imap r) (allocs r).

Abbreviation mapM := (comp MapState).

Definition alloc : mapM bool :=
  let* s := getS in
  modify (fun s => s <| allocs := drop 1 (allocs s) |>) ;;; ret (match allocs s with b :: _ => b | [] => true end).

Definition ncclHashPointer (hbits key : Z) : Z :=
  let h := Z.lxor key (Z.shiftr key 32) in
  let h := u64 (h * 0x9e3779b97f4a7c13) in
  Z.shiftr h (64 - hbits).

(** The first [keySize] bytes, the others 0. *)
Definition keyBytes (keySize : Z) (o : Obj) : Z := o_key o mod 2 ^ (8 * keySize).

Definition readKey (keySize p : Z) : mapM Z := let* s := getS in let* o := of_option (objs s !! p) in ret (keyBytes keySize o).

Definition readNextPtr (p : Z) : mapM Z := let* s := getS in let* o := of_option (objs s !! p) in ret (o_next o).

Definition writeNextPtr (p v : Z) : mapM unit :=
  let* s := getS in
  let* o := of_option (objs s !! p) in
  modify (fun s => s <| objs := <[p := o <| o_next := v |>]> (objs s) |>).

Definition setTable (t : list Z) : mapM unit := modify (fun s => s <| imap := (imap s) <| table := Some t |> |>).

(** [map->table]. *)
Definition getTable : mapM (list Z) := let* s := getS in of_option (table (imap s)).

Definition invalidKeySize (keySize : Z) : bool := (keySize <=? 0) || (8 <? keySize).

(** The walks along a chain have as many steps as there are objects: a longer chain would
    be a cycle. *)
Definition chainFuel (s : MapState) : nat := Datatypes.S (size (objs s)).

Section Keys.
Context (keySize : Z).

(** The inner loop of the rehash: the objects from [p] on move to [newTable]. *)
Fixpoint rehashChain (fuel : nat) (newHbits p : Z) (newTable : list Z) : mapM (list Z) :=
if p =? 0 then ret newTable
else match fuel with
 | O => fault
 | Datatypes.S f =>
 let* next := readNextPtr p in
 let* objKey := readKey keySize p in
 let b := ncclHashPointer newHbits objKey in
 let* head := of_option (zget newTable b) in
 writeNextPtr p head ;;;
 rehashChain f newHbits next (zupd newTable b p)
 end.

Fixpoint rehash (newHbits : Z) (oldTable newTable : list Z) : mapM (list Z) :=
match oldTable with
| [] => ret newTable
| p :: oldTable =>
let* s := getS in
let* newTable := rehashChain (chainFuel s) newHbits p newTable in
rehash newHbits oldTable newTable
end.

(** The table of the first insertion. *)
Definition initTable : mapM unit :=
let* s := getS in
when (hbits (imap s) =? 0)
(let* ok := alloc in
 if ok : bool then modify (fun s => s <| imap := mkAddressMap 4 (count (imap s)) (Some (replicate 16 0)) |>)
 else fail ncclSystemError).

(** [2 << hbits] is an [int]. *)
Definition resize : mapM unit :=
let* s := getS in
let m := imap s in
if 30 <=? hbits m then fault
else
when (Z.shiftl 2 (hbits m) <? count m + 1)
(let* ok := alloc in
 if ok : bool then
 let* t := getTable in
 let* t := rehash (hbits m + 1) t (replicate (Z.to_nat (Z.shiftl 1 (hbits m + 1))) 0) in
 modify (fun s => s <| imap := mkAddressMap (hbits m + 1) (count m) (Some t) |>)
 else fail ncclSystemError).

Definition ncclIntruAddressMapInsert_untyped (key object : Z) : mapM unit :=
if object =? 0 then fail ncclInvalidUsage
else if invalidKeySize keySize then fail ncclInvalidUsage
else
initTable ;;;
resize ;;;
let* s := getS in
let b := ncclHashPointer (hbits (imap s)) key in
let* t := getTable in
let* head := of_option (zget t b) in
writeNextPtr object head ;;;
setTable (zupd t b object) ;;;
modify (fun s => s <| imap := (imap s) <| count := count (imap s) + 1 |> |>).

Fixpoint findLoop (fuel : nat) (key p : Z) : mapM Z :=
if p =? 0 then ret 0
else match fuel with
 | O => fault
 | Datatypes.S f =>
 let* objKey := readKey keySize p in
 if objKey =? key then ret p
 else let* next := readNextPtr p in findLoop f key next
 end.

(** The object found, 0 when there is none. *)
Definition ncclIntruAddressMapFind_untyped (key : Z) : mapM Z :=
if invalidKeySize keySize then fail ncclInvalidUsage
else
let* s := getS in
if hbits (imap s) =? 0 then ret 0
else
let b := ncclHashPointer (hbits (imap s)) key in
let* t := getTable in
let* p := of_option (zget t b) in
findLoop (chainFuel s) key p.

Fixpoint removeLoop (fuel : nat) (key b prev p : Z) : mapM unit :=
if p =? 0 then ret tt
else match fuel with
 | O => fault
 | Datatypes.S f =>
 let* objKey := readKey keySize p in
 if objKey =? key then
   let* next := readNextPtr p in
   (if prev =? 0 then let* t := getTable in let* t := of_option (zset t b next) in setTable t
    else writeNextPtr prev next) ;;;
   modify (fun s => s <| imap := (imap s) <| count := count (imap s) - 1 |> |>) ;;;
   let* s := getS in
   when (count (imap s) =? 0) (modify (fun s => s <| imap := mkAddressMap 0 0 None |>))
 else
   let* next := readNextPtr p in removeLoop f key b p next
 end.

Definition ncclIntruAddressMapRemove_untyped (key : Z) : mapM unit :=
if invalidKeySize keySize then fail ncclInvalidUsage
else
let* s := getS in
if hbits (imap s) =? 0 then ret tt
else
let b := ncclHashPointer (hbits (imap s)) key in
let* t := getTable in
let* p := of_option (zget t b) in
removeLoop (chainFuel s) key b 0 p.
End Keys.

Definition ncclIntruAddressMapDestruct : mapM unit := modify (fun s => s <| imap := mkAddressMap 0 0 None |>).

(** ** Calls in a row *)

Inductive MapOp := Insert (key object : Z) | Find (key : Z) | Remove (key : Z).

Definition exec (keySize : Z) (op : MapOp) : mapM Z :=
  match op with
  | Insert k p => ncclIntruAddressMapInsert_untyped keySize k p ;;; ret 0
  | Find k => ncclIntruAddressMapFind_untyped keySize k
  | Remove k => ncclIntruAddressMapRemove_untyped keySize k ;;; ret 0
  end.

Fixpoint execAll (keySize : Z) (ops : list MapOp) (s : MapState) : list (outcome Z) * MapState :=
  match ops with
  | [] => ([], s)
  | op :: ops => let '(r, s) := exec keySize op s in let '(rs, s) := execAll keySize ops s in (r :: rs, s)
  end.
