(* ===== verification/MapSpec.v ===== *)
(** * The intrusive address map, verified

    The table implements a finite map from keys to objects: a simulation between the calls
    and the operations of the map, through the chains of the buckets. *)

From S2P Require Import Prelude Chains AddressMap.

Open Scope Z_scope.
Open Scope nccl_scope.

Section Size.
Context (keySize : Z).

(** ** The layout of a table *)

Definition keyAt (h : gmap Z Obj) (p : Z) : option Z := keyBytes keySize <$> h !! p.

(** [segs] are the chains of the buckets of [t]; every object is in the bucket of its key. *)
Record layout (h : gmap Z Obj) (hb : Z) (t : list Z) (segs : list (list Z)) : Prop := {
lo_len : Z.of_nat (length t) = 2 ^ hb;
lo_segs : length segs = length t;
lo_chains : forall i p l, t !! i = Some p -> segs !! i = Some l -> lseg h p l 0;
lo_slot : forall i l p k, segs !! i = Some l -> p ∈ l -> keyAt h p = Some k -> Z.of_nat i = ncclHashPointer hb k;
lo_nodup : NoDup (concat segs);
}.

Lemma hash_range hb k : 0 <= hb <= 64 -> 0 <= ncclHashPointer hb k < 2 ^ hb.
Proof.
intros Hb. unfold ncclHashPointer. set (v := u64 _). assert (Hv : 0 <= v < 2 ^ 64) by (apply (wrapU_range 64); lia).
rewrite Z.shiftr_div_pow2 by lia. split; [apply Z.div_pos; lia|]. apply Z.div_lt_upper_bound; [lia|]. rewrite <- Z.pow_add_r by lia.
replace (64 - hb + hb) with 64 by lia. apply Hv.
Qed.

Lemma concat_lookup_perm (segs : list (list Z)) i l : segs !! i = Some l -> forall l', concat (<[i := l']> segs) ++ l ≡ₚ concat segs ++ l'.
Proof.
revert i. induction segs as [|x segs IH]; intros [|i] E l'; cbn in *; [done..| |].
- injection E as ->. by rewrite <- app_assoc, (Permutation_app_comm l' (concat segs ++ l)), (Permutation_app_comm (concat segs) l), <- app_assoc.
- rewrite <- !app_assoc. by rewrite (IH _ E).
Qed.

Lemma concat_push segs i l (p : Z) : segs !! i = Some l -> concat (<[i := p :: l]> segs) ≡ₚ p :: concat segs.
Proof. intros E. apply (Permutation_app_inv_r l). rewrite (concat_lookup_perm _ _ _ E). cbn. symmetry. apply Permutation_middle. Qed.

Lemma concat_in (segs : list (list Z)) i l p : segs !! i = Some l -> p ∈ l -> p ∈ concat segs.
Proof. intros E Hp. apply list_elem_of_In, in_concat. exists l. split; apply list_elem_of_In; [by eapply list_elem_of_lookup_2|done]. Qed.

Lemma keyAt_next h p o v x : h !! p = Some o -> keyAt (<[p := o <| o_next := v |>]> h) x = keyAt h x.
Proof. intros E. unfold keyAt. destruct (decide (x = p)) as [->|Hx]; [by rewrite lookup_insert_eq, E|by rewrite lookup_insert_ne]. Qed.

(** Pushing an object on the chain of its bucket. *)
Lemma layout_push h hb t segs p o b head l : 0 <= hb <= 64 -> layout h hb t segs -> h !! p = Some o -> p <> 0 -> p ∉ concat segs ->
b = ncclHashPointer hb (keyBytes keySize o) -> zget t b = Some head -> segs !! Z.to_nat b = Some l ->
layout (<[p := o <| o_next := head |>]> h) hb (zupd t b p) (<[Z.to_nat b := p :: l]> segs).
Proof.
intros Hb [Hlen Hsg Hch Hslot Hnd] Ep Hp0 Hfresh -> Et El. set (b := ncclHashPointer _ _) in *. pose proof (hash_range hb (keyBytes keySize o) Hb) as Hbr. fold b in Hbr.
assert (Ht : t !! Z.to_nat b = Some head) by (unfold zget in Et; by rewrite decide_True in Et by lia).
assert (Hz : zupd t b p = <[Z.to_nat b := p]> t) by (unfold zupd; by rewrite decide_True by lia).
assert (Hf : forall i q l, t !! i = Some q -> segs !! i = Some l -> lseg (<[p := o <| o_next := head |>]> h) q l 0).
{ intros i q l' Eq El'. apply lseg_frame; [|by apply (Hch i)]. intros Hin. apply Hfresh. by apply (concat_in _ i l'). }
constructor.
- by rewrite length_zupd.
- by rewrite length_zupd, length_insert.
- rewrite Hz. intros i q l' Eq El'. destruct (decide (i = Z.to_nat b)) as [->|Hi].
+ rewrite list_lookup_insert_eq in Eq by (by apply lookup_lt_Some in Ht). rewrite list_lookup_insert_eq in El' by (by apply lookup_lt_Some in El). injection Eq as <-. injection El' as <-.
cbn. split_and!; [done..|]. eexists. split; [apply lookup_insert_eq|]. by apply (Hf (Z.to_nat b)).
+ rewrite list_lookup_insert_ne in Eq by done. rewrite list_lookup_insert_ne in El' by done. by apply (Hf i).
- intros i l' q k El' Hq Ek. rewrite (keyAt_next h p o) in Ek by done. destruct (decide (i = Z.to_nat b)) as [->|Hi].
+ rewrite list_lookup_insert_eq in El' by (by apply lookup_lt_Some in El). injection El' as <-. apply elem_of_cons in Hq as [->|Hq]; [|by apply (Hslot _ l q)].
unfold keyAt in Ek. rewrite Ep in Ek. injection Ek as <-. unfold b. lia.
+ rewrite list_lookup_insert_ne in El' by done. by apply (Hslot _ l' q).
- rewrite (concat_push _ _ _ p El). by apply NoDup_cons.
Qed.

(** ** The rehash *)

Lemma readNext_Done (s : MapState) p o : objs s !! p = Some o -> readNextPtr p s = (Done (o_next o), s).
Proof. intros E. unfold readNextPtr. nred. by rewrite E. Qed.

Lemma readKey_Done (s : MapState) p o : objs s !! p = Some o -> readKey keySize p s = (Done (keyBytes keySize o), s).
Proof. intros E. unfold readKey. nred. by rewrite E. Qed.

Lemma zget_Done {A} (s : MapState) (t : list A) b x : zget t b = Some x -> of_option (zget t b) s = (Done x, s).
Proof. by intros ->. Qed.

Lemma writeNext_Done (s : MapState) p o v : objs s !! p = Some o -> writeNextPtr p v s = (Done tt, s <| objs := <[p := o <| o_next := v |>]> (objs s) |>).
Proof. intros E. unfold writeNextPtr. nred. by rewrite E. Qed.

Lemma relinked_keyAt l h h' p : relinked l h h' -> keyAt h' p = keyAt h p.
Proof. intros [K _]. unfold keyAt. pose proof (K p) as Kp. destruct (h' !! p), (h !! p); try done. cbn in *. injection Kp as Kp. unfold keyBytes. by rewrite Kp. Qed.

Lemma rehashChain_ok nb : 0 <= nb <= 64 -> forall fuel l p nt nsegs (s : MapState), (length l < fuel)%nat -> lseg (objs s) p l 0 -> layout (objs s) nb nt nsegs ->
NoDup (l ++ concat nsegs) -> exists nt' nsegs' h', rehashChain keySize fuel nb p nt s = (Done nt', s <| objs := h' |>) /\ layout h' nb nt' nsegs'
/\ concat nsegs' ≡ₚ l ++ concat nsegs /\ relinked l (objs s) h'.
Proof.
intros Hnb. induction fuel as [|fuel IH]; intros l p nt nsegs s Hf Hl Hlay Hnd; [lia|]. destruct l as [|q l]; cbn [lseg] in Hl.
{ subst p. exists nt, nsegs, (objs s). cbn. split_and!; [by destruct s|done..|apply relinked_refl]. }
destruct Hl as (-> & Hq0 & o & Eo & Hl). cbn [rehashChain]. rewrite (proj2 (Z.eqb_neq _ _)) by done.
nstep (readNext_Done s _ _ Eo). nstep (readKey_Done s _ _ Eo). cbn zeta.
set (b := ncclHashPointer nb (keyBytes keySize o)). pose proof (hash_range nb (keyBytes keySize o) Hnb) as Hb. fold b in Hb.
pose proof (lo_len _ _ _ _ Hlay) as Hlen. pose proof (lo_segs _ _ _ _ Hlay) as Hsg.
destruct (zget_is_Some nt b) as [head Eh]; [lia|]. nstep (zget_Done s nt b head Eh).
destruct (lookup_lt_is_Some_2 nsegs (Z.to_nat b)) as [lb Elb]; [lia|].
apply NoDup_cons in Hnd as [Hfresh Hnd]. rewrite elem_of_app in Hfresh.
nstep (writeNext_Done s q o head Eo). set (h1 := <[q := _]> (objs s)).
assert (Hrel : relinked [q] (objs s) h1) by by apply relinked_one.
assert (Hlay1 : layout h1 nb (zupd nt b q) (<[Z.to_nat b := q :: lb]> nsegs)) by (apply layout_push; [done..|naive_solver|done|done|done]).
assert (Hp1 : l ++ concat (<[Z.to_nat b := q :: lb]> nsegs) ≡ₚ q :: l ++ concat nsegs) by (rewrite (concat_push _ _ _ q Elb); symmetry; apply Permutation_middle).
destruct (IH l (o_next o) (zupd nt b q) (<[Z.to_nat b := q :: lb]> nsegs) (s <| objs := h1 |>)) as (nt' & ns' & h' & E & Hl' & Hp' & Hr');
[cbn in Hf; lia|apply lseg_frame; naive_solver|done|rewrite Hp1; apply NoDup_cons; by rewrite elem_of_app|].
exists nt', ns', h'. split_and!; [by rewrite E|done|by rewrite Hp', Hp1|]. apply (relinked_trans [q] l _ _ h1); [done|done|set_solver..].
Qed.

(** The old table from [ts] on. *)
Lemma rehash_ok nb ts : 0 <= nb <= 64 -> forall ls nt nsegs (s : MapState), length ls = length ts ->
(forall i p l, ts !! i = Some p -> ls !! i = Some l -> lseg (objs s) p l 0) -> layout (objs s) nb nt nsegs -> NoDup (concat ls ++ concat nsegs) ->
exists nt' nsegs' h', rehash keySize nb ts nt s = (Done nt', s <| objs := h' |>) /\ layout h' nb nt' nsegs'
/\ concat nsegs' ≡ₚ concat ls ++ concat nsegs /\ relinked (concat ls) (objs s) h'.
Proof.
intros Hnb. induction ts as [|p ts IH]; intros [|l ls] nt nsegs s Hlen Hch Hlay Hnd; try discriminate.
{ exists nt, nsegs, (objs s). cbn. split_and!; [by destruct s|done..|apply relinked_refl]. }
cbn [rehash concat] in *. nred. pose proof (Hch 0%nat p l eq_refl eq_refl) as Hl. rewrite <- app_assoc in Hnd. apply NoDup_app in Hnd as Hnd'.
destruct Hnd' as (Hndl & Hdis & Hnd2).
destruct (rehashChain_ok nb Hnb (chainFuel s) l p nt nsegs s) as (nt1 & ns1 & h1 & E1 & Hlay1 & Hp1 & Hr1); [|done|done| |].
{ pose proof (lseg_length _ _ _ _ Hndl Hl). unfold chainFuel. lia. }
{ apply NoDup_app. split_and!; [done|set_solver|]. by apply NoDup_app in Hnd2 as (_ & _ & ?). }
nstep E1. destruct (IH ls nt1 ns1 (s <| objs := h1 |>)) as (nt' & ns' & h' & E & Hl' & Hp' & Hr').
- by injection Hlen.
- intros i q l' Eq El'. apply (lseg_agree (objs s)); [|by apply (Hch (Datatypes.S i))]. intros x Hx. apply Hr1. intros Hxl. apply (Hdis x Hxl), elem_of_app. left. by apply (concat_in _ i l').
- done.
- rewrite Hp1. rewrite (Permutation_app_comm l), app_assoc, (Permutation_app_comm _ l). by apply NoDup_app.
- exists nt', ns', h'. split_and!; [by rewrite E|done| |].
+ rewrite Hp', Hp1, !app_assoc. by rewrite (Permutation_app_comm l).
+ apply (relinked_trans l (concat ls) _ _ h1); [done|done|set_solver..].
Qed.

(** ** The map the table is *)

Record full (s : MapState) (t : list Z) (segs : list (list Z)) (m : gmap Z Z) : Prop := {
fu_hbits : 4 <= hbits (imap s) < 30;
fu_table : table (imap s) = Some t;
fu_layout : layout (objs s) (hbits (imap s)) t segs;
fu_count : count (imap s) = Z.of_nat (length (concat segs));
fu_map : forall k p, m !! k = Some p <-> p ∈ concat segs /\ keyAt (objs s) p = Some k;
}.

(** An empty map has no table. *)
Definition repr (s : MapState) (m : gmap Z Z) : Prop :=
(imap s = mkAddressMap 0 0 None /\ m = ∅) \/ exists t segs, full s t segs m /\ 0 < count (imap s).

(** An object of the table has a key. *)
Lemma full_keyed s t segs m p : full s t segs m -> p ∈ concat segs -> exists k, keyAt (objs s) p = Some k.
Proof.
intros F Hp. destruct (fu_layout _ _ _ _ F) as [_ Hsg Hch _ _]. apply list_elem_of_In, in_concat in Hp as (l & Hl & Hp). apply list_elem_of_In, list_elem_of_lookup_1 in Hl as [i El].
destruct (lookup_lt_is_Some_2 t i) as [q Eq]; [apply lookup_lt_Some in El; by rewrite <- Hsg|].
destruct (lseg_dom _ _ _ _ p (Hch i q l Eq El)) as [_ [o Eo]]; [by apply list_elem_of_In|]. unfold keyAt. rewrite Eo. by eexists.
Qed.

Lemma full_size s t segs m : full s t segs m -> Z.of_nat (size m) = count (imap s).
Proof.
intros F. rewrite (fu_count _ _ _ _ F). f_equal. rewrite <- length_map_to_list, <- (length_map snd).
apply Permutation_length, NoDup_Permutation; [|apply (fu_layout _ _ _ _ F)|].
- apply NoDup_fmap_2_strong; [|apply NoDup_map_to_list]. intros [k1 p1] [k2 p2] H1%elem_of_map_to_list H2%elem_of_map_to_list. cbn. intros <-.
apply (fu_map _ _ _ _ F) in H1 as [_ E1]. apply (fu_map _ _ _ _ F) in H2 as [_ E2]. congruence.
- intros p. rewrite list_elem_of_fmap. split.
+ intros ([k q] & -> & Hin%elem_of_map_to_list). by apply (fu_map _ _ _ _ F) in Hin as [? _].
+ intros Hp. destruct (full_keyed _ _ _ _ p F Hp) as [k Ek]. exists (k, p). split; [done|]. apply elem_of_map_to_list. by apply (fu_map _ _ _ _ F).
Qed.

(** The bucket of a key. *)
Lemma full_bucket s t segs m k : full s t segs m -> let b := ncclHashPointer (hbits (imap s)) k in
exists p l, zget t b = Some p /\ segs !! Z.to_nat b = Some l /\ lseg (objs s) p l 0 /\ NoDup l /\ 0 <= b < Z.of_nat (length t)
/\ forall q, q ∈ l /\ keyAt (objs s) q = Some k <-> m !! k = Some q.
Proof.
intros F b. destruct (fu_layout _ _ _ _ F) as [Hlen Hsg Hch Hslot Hnd]. pose proof (fu_hbits _ _ _ _ F).
pose proof (hash_range (hbits (imap s)) k ltac:(lia)) as Hb. fold b in Hb. rewrite <- Hlen in Hb.
destruct (zget_is_Some t b Hb) as [p Ep]. destruct (lookup_lt_is_Some_2 segs (Z.to_nat b)) as [l El]; [lia|].
assert (Et : t !! Z.to_nat b = Some p) by (unfold zget in Ep; by rewrite decide_True in Ep by lia).
exists p, l. split_and!; [done..|by apply (Hch _ _ _ Et El)| |lia|lia|].
- assert (Hs : l `sublist_of` concat segs); [|by apply (sublist_NoDup _ _ Hnd)]. rewrite <- (take_drop_middle _ _ _ El), concat_app. cbn. by apply sublist_inserts_l, sublist_inserts_r.
- intros q. rewrite (fu_map _ _ _ _ F). split; intros [Hq Ek]; (split; [|done]); [by apply (concat_in _ _ _ _ El)|].
apply list_elem_of_In, in_concat in Hq as (l' & Hl' & Hq). apply list_elem_of_In, list_elem_of_lookup_1 in Hl' as [i Ei].
pose proof (Hslot _ _ _ _ Ei ltac:(by apply list_elem_of_In) Ek) as Hi. fold b in Hi. replace (Z.to_nat b) with i in El by lia. rewrite El in Ei. injection Ei as ->. by apply list_elem_of_In.
Qed.

(** ** Find *)

Lemma findLoop_ok k (s : MapState) : forall fuel p l, (length l < fuel)%nat -> lseg (objs s) p l 0 ->
exists r, findLoop keySize fuel k p s = (Done r, s) /\ (r = 0 /\ (forall q, q ∈ l -> keyAt (objs s) q <> Some k) \/ r ∈ l /\ keyAt (objs s) r = Some k).
Proof.
induction fuel as [|fuel IH]; intros p l Hf Hl; [lia|]. destruct l as [|q l]; cbn [lseg] in Hl.
{ subst p. exists 0. split; [done|]. left. split; [done|]. set_solver. }
destruct Hl as (-> & Hq0 & o & Eo & Hl). cbn [findLoop]. rewrite (proj2 (Z.eqb_neq _ _)) by done.
assert (Ek : keyAt (objs s) q = Some (keyBytes keySize o)) by (unfold keyAt; by rewrite Eo).
nstep (readKey_Done s _ _ Eo). destruct (_ =? k) eqn:E.
- apply Z.eqb_eq in E as <-. exists q. split; [done|]. right. set_solver.
- nstep (readNext_Done s _ _ Eo). destruct (IH (o_next o) l) as (r & Er & Hr); [cbn in Hf; lia|done|]. exists r. split; [done|].
destruct Hr as [[-> Hr]|[Hr1 Hr2]]; [left|right; set_solver]. split; [done|]. intros x Hx. apply elem_of_cons in Hx as [->|Hx]; [|by apply Hr]. rewrite Ek. intros [= Ex]. lia.
Qed.

Context (Hsize : 0 < keySize <= 8).

Lemma valid_size : invalidKeySize keySize = false.
Proof. unfold invalidKeySize. lia. Qed.

Lemma getTable_Done (s : MapState) t : table (imap s) = Some t -> getTable s = (Done t, s).
Proof. intros E. unfold getTable. nred. by rewrite E. Qed.

Lemma Find_ok s m k : repr s m -> exec keySize (Find k) s = (Done (default 0 (m !! k)), s).
Proof.
cbn [exec]. unfold ncclIntruAddressMapFind_untyped. rewrite valid_size. nred. intros [[-> ->]|(t & segs & F & _)]; [done|].
pose proof (fu_hbits _ _ _ _ F) as Hb. rewrite (proj2 (Z.eqb_neq _ _)) by lia. cbn zeta. nstep (getTable_Done _ _ (fu_table _ _ _ _ F)).
destruct (full_bucket _ _ _ _ k F) as (p & l & Ep & El & Hl & Hnd & _ & Hm). nstep (zget_Done s _ _ _ Ep).
destruct (findLoop_ok k s (chainFuel s) p l) as (r & Er & Hr); [pose proof (lseg_length _ _ _ _ Hnd Hl); unfold chainFuel; lia|done|].
rewrite Er. do 2 f_equal. destruct Hr as [[-> Hno]|Hr]; [|by rewrite (proj1 (Hm r) Hr)].
destruct (m !! k) as [q|] eqn:Eq; [|done]. destruct (proj2 (Hm q) eq_refl). by destruct (Hno q).
Qed.

(** ** Insert *)

Lemma alloc_Done (s : MapState) : exists b s', alloc s = (Done b, s') /\ objs s' = objs s /\ imap s' = imap s.
Proof. do 2 eexists. split; [reflexivity|done]. Qed.

Lemma layout_empty h hb : 0 <= hb -> layout h hb (replicate (Z.to_nat (2 ^ hb)) 0) (replicate (Z.to_nat (2 ^ hb)) []).
Proof.
intros Hb. pose proof (Z.pow_nonneg 2 hb). constructor.
- rewrite length_replicate. lia.
- by rewrite !length_replicate.
- intros i p l Ep%lookup_replicate El%lookup_replicate. by destruct Ep as [-> _], El as [-> _].
- intros i l p k El%lookup_replicate. destruct El as [-> _]. set_solver.
- replace (concat _) with (@nil Z); [constructor|]. symmetry. induction (Z.to_nat _) as [|n IH]; [done|exact IH].
Qed.

Lemma concat_empty n : concat (replicate n (@nil Z)) = [].
Proof. induction n as [|n IH]; [done|exact IH]. Qed.

(** Same objects and same table. *)
Definition sameMap (s s' : MapState) : Prop := objs s' = objs s /\ imap s' = imap s.

Lemma repr_same s s' m : sameMap s s' -> repr s m -> repr s' m.
Proof.
intros [Ho Hi] [[E ->]|(t & segs & F & Hc)]; [left; by rewrite Hi|right]. exists t, segs. rewrite Hi. split; [|done].
destruct F. constructor; rewrite ?Ho, ?Hi; done.
Qed.

Lemma initTable_ok s m : repr s m -> exists s', objs s' = objs s /\
(initTable s = (Fail ncclSystemError, s') /\ imap s' = imap s \/ initTable s = (Done tt, s') /\ exists t segs, full s' t segs m).
Proof.
intros Hr. unfold initTable. nred. destruct Hr as [[E ->]|(t & segs & F & _)].
- rewrite E. cbn [hbits Z.eqb when]. destruct (alloc_Done s) as ([] & s1 & E1 & Ho & Hi); nstep E1; [|exists s1; split; [done|]; left; split; [done|congruence]].
eexists. split; [|right; split; [reflexivity|]]; [done|]. exists (replicate 16 0), (replicate 16 []). rewrite Hi, E. constructor; cbn; [lia|done|by apply (layout_empty _ 4)|done|].
intros k p. rewrite lookup_empty. set_solver.
- pose proof (fu_hbits _ _ _ _ F). rewrite (proj2 (Z.eqb_neq _ _)) by lia. exists s. split; [done|]. right. split; [done|]. by exists t, segs.
Qed.

Lemma full_relinked s s' t t' segs segs' m : full s t segs m -> relinked (concat segs) (objs s) (objs s') -> concat segs' ≡ₚ concat segs ->
4 <= hbits (imap s') < 30 -> table (imap s') = Some t' -> layout (objs s') (hbits (imap s')) t' segs' -> count (imap s') = count (imap s) -> full s' t' segs' m.
Proof.
intros F Hr Hp Hb Ht Hl Hc. constructor; [done..| |].
- by rewrite Hc, Hp, (fu_count _ _ _ _ F).
- intros k p. by rewrite Hp, (relinked_keyAt _ _ _ _ Hr), (fu_map _ _ _ _ F).
Qed.

Lemma resize_ok s t segs m : full s t segs m -> Z.of_nat (size m) < 2 ^ 30 -> exists s',
resize keySize s = (Fail ncclSystemError, s') /\ sameMap s s' /\ 0 < count (imap s)
\/ resize keySize s = (Done tt, s') /\ relinked (concat segs) (objs s) (objs s') /\ exists t' segs', full s' t' segs' m /\ concat segs' ≡ₚ concat segs.
Proof.
intros F Hs. rewrite (full_size _ _ _ _ F) in Hs. pose proof (fu_hbits _ _ _ _ F) as Hb. unfold resize. nred. rewrite (proj2 (Z.leb_gt _ _)) by lia.
destruct (Z.shiftl 2 _ <? _) eqn:E; cbn [when]; [|exists s; right; split_and!; [done|apply relinked_refl|by exists t, segs]].
apply Z.ltb_lt in E. rewrite Z.shiftl_mul_pow2 in E by lia.
assert (Hb' : hbits (imap s) < 29).
{ destruct (decide (hbits (imap s) = 29)) as [E29|]; [|lia]. rewrite E29 in E. lia. }
assert (Hc : 0 < count (imap s)) by (pose proof (Z.pow_pos_nonneg 2 (hbits (imap s))); lia).
destruct (alloc_Done s) as ([] & s1 & E1 & Ho & Hi); nstep E1; [|exists s1; by left].
assert (Et : table (imap s1) = Some t) by (rewrite Hi; apply F). nstep (getTable_Done s1 t Et).
rewrite Z.shiftl_mul_pow2 by lia. rewrite Z.mul_1_l.
pose proof (fu_layout _ _ _ _ F) as [Hlen Hsg Hch _ Hnd]. set (nb := hbits (imap s) + 1) in *. set (n := Z.to_nat (2 ^ nb)).
destruct (rehash_ok nb t ltac:(lia) segs (replicate n 0) (replicate n []) s1) as (t' & segs' & h' & E' & Hl' & Hp' & Hr');
[done|by rewrite Ho|apply layout_empty; lia|by rewrite concat_empty, app_nil_r|]. rewrite concat_empty, app_nil_r in Hp'. rewrite Ho in Hr'.
nstep E'. eexists. right. split_and!; [reflexivity|done|]. exists t', segs'. split; [|done].
apply (full_relinked s _ t t' segs); [done|done|done|cbn; lia|done|done|done].
Qed.

(** What a call changes: next fields of objects of the map, and of [l]. *)
Definition keeps (s : MapState) (m : gmap Z Z) (l : list Z) (s' : MapState) : Prop :=
(forall q, o_key <$> objs s' !! q = o_key <$> objs s !! q) /\ forall q, (forall k, m !! k <> Some q) -> q ∉ l -> objs s' !! q = objs s !! q.

Lemma full_not_in s t segs m q k : full s t segs m -> keyAt (objs s) q = Some k -> m !! k <> Some q -> q ∉ concat segs.
Proof. intros F Ek Hm Hin. apply Hm. by apply (fu_map _ _ _ _ F). Qed.

(** Linking the object in front of its bucket. *)
Lemma link_ok s t segs m k p o : full s t segs m -> objs s !! p = Some o -> keyBytes keySize o = k -> p <> 0 -> m !! k = None ->
exists head t', zget t (ncclHashPointer (hbits (imap s)) k) = Some head
/\ t' = zupd t (ncclHashPointer (hbits (imap s)) k) p
/\ let s' := s <| objs := <[p := o <| o_next := head |>]> (objs s) |> <| imap := mkAddressMap (hbits (imap s)) (count (imap s) + 1) (Some t') |> in
 (exists segs', full s' t' segs' (<[k := p]> m)) /\ relinked [p] (objs s) (objs s').
Proof.
intros F Eo Ek Hp0 Hm. destruct (full_bucket _ _ _ _ k F) as (head & l & Eh & El & _). pose proof (fu_hbits _ _ _ _ F) as Hb.
assert (Hka : keyAt (objs s) p = Some k) by (unfold keyAt; by rewrite Eo; cbn; rewrite Ek).
assert (Hni : p ∉ concat segs) by (apply (full_not_in _ _ _ _ _ _ F Hka); by rewrite Hm).
exists head. eexists. split_and!; [done|reflexivity|]. cbn zeta. split; [|by apply relinked_one]. eexists. constructor; cbn.
- lia.
- reflexivity.
- apply layout_push; [lia|apply F|done|done|done|by rewrite Ek|done|done].
- rewrite (concat_push _ _ _ p El), (fu_count _ _ _ _ F). cbn. lia.
- intros k' q. rewrite (concat_push _ _ _ p El), (keyAt_next _ _ _ _ _ Eo), elem_of_cons. destruct (decide (k' = k)) as [->|Hk].
+ rewrite lookup_insert_eq. split; [intros [= <-]; auto|]. intros [[->|Hq] Eq]; [done|]. by rewrite (proj2 (fu_map _ _ _ _ F k q)) in Hm.
+ rewrite lookup_insert_ne by done. rewrite (fu_map _ _ _ _ F). split; [naive_solver|]. intros [[->|Hq] Eq]; [congruence|done].
Qed.

Definition roomFor (m : gmap Z Z) : Prop := Z.of_nat (size m) < 2 ^ 30.

Lemma Insert_ok s m k p : repr s m -> keyAt (objs s) p = Some k -> p <> 0 -> m !! k = None -> roomFor m -> exists s',
exec keySize (Insert k p) s = (Fail ncclSystemError, s') /\ repr s' m /\ objs s' = objs s
\/ exec keySize (Insert k p) s = (Done 0, s') /\ repr s' (<[k := p]> m) /\ keeps s m [p] s'.
Proof.
intros Hr Hk Hp Hm Hs. cbn [exec]. unfold ncclIntruAddressMapInsert_untyped. rewrite (proj2 (Z.eqb_neq _ _)) by done. rewrite valid_size. rewrite !bind_assoc.
destruct (initTable_ok s m Hr) as (s1 & Ho1 & [[E1 Hi1]|(E1 & t1 & segs1 & F1)]).
{ exists s1. left. rewrite (bind_Fail _ _ _ _ _ E1). split; [done|]. split; [by apply (repr_same s)|done]. }
nstep E1. destruct (resize_ok s1 t1 segs1 m F1 Hs) as (s2 & [(E2 & Hsm & Hc)|(E2 & Hr2 & t2 & segs2 & F2 & Hp2)]); rewrite bind_assoc.
{ exists s2. left. rewrite (bind_Fail _ _ _ _ _ E2). split; [done|]. split; [|destruct Hsm; congruence].
apply (repr_same s1); [done|]. right. by exists t1, segs1. }
nstep E2. rewrite bind_assoc. nred. rewrite Ho1 in Hr2.
assert (Hk2 : keyAt (objs s2) p = Some k) by by rewrite (relinked_keyAt _ _ _ _ Hr2).
assert (Eo : exists o, objs s2 !! p = Some o /\ keyBytes keySize o = k) by (unfold keyAt in Hk2; destruct (objs s2 !! p) as [o|]; [|done]; injection Hk2; eauto).
destruct Eo as (o & Eo & Hko). destruct (link_ok s2 t2 segs2 m k p o F2 Eo Hko Hp Hm) as (head & t' & Eh & Et' & [segs' F'] & Hr').
rewrite bind_assoc. nstep (getTable_Done _ _ (fu_table _ _ _ _ F2)). rewrite bind_assoc. nstep (zget_Done s2 _ _ _ Eh).
rewrite bind_assoc. nstep (writeNext_Done s2 p o head Eo). eexists. right. split; [unfold setTable, modify, bind; cbn; reflexivity|].
split; [right; eexists; eexists; split; [rewrite Et' in F'; exact F'|cbn; rewrite (fu_count _ _ _ _ F2); lia]|].
split; intros q; cbn.
- rewrite <- (proj1 Hr2 q). apply Hr'.
- intros Hq Hqp. rewrite lookup_insert_ne by set_solver. apply Hr2. intros Hin. destruct (keyAt (objs s) q) as [k'|] eqn:Ek'.
+ apply (full_not_in s1 t1 segs1 m q k'); [done|by rewrite Ho1|apply Hq|done].
+ pose proof (full_keyed s1 t1 segs1 m q F1 Hin) as [k' Ek'']. rewrite Ho1 in Ek''. congruence.
Qed.

(** ** Remove *)

Lemma concat_pull (segs : list (list Z)) i l1 q l2 : segs !! i = Some (l1 ++ q :: l2) -> q :: concat (<[i := l1 ++ l2]> segs) ≡ₚ concat segs.
Proof.
intros E. apply (Permutation_app_inv_r (l1 ++ l2)). rewrite <- (concat_lookup_perm _ _ _ E (l1 ++ l2)), <- Permutation_middle. cbn. apply Permutation_middle.
Qed.

(** Two buckets share no object. *)
Lemma layout_disjoint h hb t segs i j l l' x : layout h hb t segs -> segs !! i = Some l -> segs !! j = Some l' -> x ∈ l -> x ∈ l' -> i = j.
Proof.
intros [_ Hsg Hch Hslot _] Ei Ej Hx Hx'. destruct (lookup_lt_is_Some_2 t i) as [p Ep]; [apply lookup_lt_Some in Ei; by rewrite <- Hsg|].
destruct (lseg_dom _ _ _ _ x (Hch i p l Ep Ei) Hx) as [_ [o Eo]]. assert (Ek : keyAt h x = Some (keyBytes keySize o)) by (unfold keyAt; by rewrite Eo).
pose proof (Hslot _ _ _ _ Ei Hx Ek). pose proof (Hslot _ _ _ _ Ej Hx' Ek). lia.
Qed.

(** The chain of one bucket loses an object. *)
Lemma layout_pull h h' hb t t' segs i l1 q l2 p' : layout h hb t segs -> segs !! i = Some (l1 ++ q :: l2) -> relinked l1 h h' ->
length t' = length t -> (forall j, j <> i -> t' !! j = t !! j) -> t' !! i = Some p' -> lseg h' p' (l1 ++ l2) 0 ->
layout h' hb t' (<[i := l1 ++ l2]> segs).
Proof.
intros L Ei Hr Hlen' Hother Ep' Hl. pose proof L as [Hlen Hsg Hch Hslot Hnd]. constructor.
- by rewrite Hlen'.
- by rewrite length_insert, Hlen'.
- intros j p l Ep El. destruct (decide (j = i)) as [->|Hj].
+ rewrite list_lookup_insert_eq in El by (by apply lookup_lt_Some in Ei). injection El as <-. by rewrite Ep' in Ep; injection Ep as <-.
+ rewrite list_lookup_insert_ne in El by done. rewrite Hother in Ep by done. apply (lseg_agree h); [|by apply (Hch j)].
intros x Hx. apply Hr. intros Hx1. apply Hj. apply (layout_disjoint _ _ _ _ j i l _ x L El Ei Hx). set_solver.
- intros j l p k El Hp Ek. rewrite (relinked_keyAt _ _ _ _ Hr) in Ek. destruct (decide (j = i)) as [->|Hj].
+ rewrite list_lookup_insert_eq in El by (by apply lookup_lt_Some in Ei). injection El as <-. apply (Hslot _ _ p _ Ei); [set_solver|done].
+ rewrite list_lookup_insert_ne in El by done. by apply (Hslot _ _ p _ El).
- rewrite <- (concat_pull _ _ _ _ _ Ei) in Hnd. by apply NoDup_cons in Hnd as [_ Hnd].
Qed.

(** What is left when an object goes, and the table freed with the last one. *)
Definition freed (s : MapState) : MapState :=
if count (imap s) =? 0 then s <| imap := mkAddressMap 0 0 None |> else s.

Lemma full_pull s t segs m k q i l1 l2 h' t' p' : full s t segs m -> segs !! i = Some (l1 ++ q :: l2) -> keyAt (objs s) q = Some k -> relinked l1 (objs s) h' ->
length t' = length t -> (forall j, j <> i -> t' !! j = t !! j) -> t' !! i = Some p' -> lseg h' p' (l1 ++ l2) 0 ->
repr (freed (mkMapState h' (mkAddressMap (hbits (imap s)) (count (imap s) - 1) (Some t')) (allocs s))) (delete k m).
Proof.
intros F Ei Ek Hr H1 H2 H3 H4. pose proof (fu_layout _ _ _ _ F) as L. pose proof (layout_pull _ _ _ _ _ _ _ _ _ _ _ L Ei Hr H1 H2 H3 H4) as L'.
pose proof (concat_pull _ _ _ _ _ Ei) as Hp. set (segs' := <[i := _]> segs) in *. assert (Hq : m !! k = Some q) by (apply (fu_map _ _ _ _ F); split; [rewrite <- Hp; set_solver|done]).
assert (F' : full (mkMapState h' (mkAddressMap (hbits (imap s)) (count (imap s) - 1) (Some t')) (allocs s)) t' segs' (delete k m)).
{ constructor; cbn; [apply F|done|done| |].
- rewrite (fu_count _ _ _ _ F), <- Hp. cbn. lia.
- intros k' p. rewrite (relinked_keyAt _ _ _ _ Hr). destruct (decide (k' = k)) as [->|Hk].
+ rewrite lookup_delete_eq. split; [done|]. intros [Hin Ek']. assert (Hm : m !! k = Some p) by (apply (fu_map _ _ _ _ F); split; [rewrite <- Hp; set_solver|done]).
rewrite Hq in Hm. injection Hm as <-. pose proof (lo_nodup _ _ _ _ L) as Hnd. rewrite <- Hp in Hnd. by apply NoDup_cons in Hnd as [? _].
+ rewrite lookup_delete_ne by done. rewrite (fu_map _ _ _ _ F), <- Hp, elem_of_cons. split; [|naive_solver]. intros [[->|?] ?]; [congruence|done]. }
unfold freed. destruct (_ =? 0) eqn:E; [left|right; exists t', segs'; split; [done|]; cbn in *; pose proof (fu_count _ _ _ _ F'); cbn in *; lia].
split; [done|]. pose proof (full_size _ _ _ _ F') as Hsz. apply map_size_empty_iff. lia.
Qed.

(** The end of a removal: the count, and the table of an empty map. *)
Lemma remove_end (s : MapState) t : table (imap s) = Some t ->
(modify (fun s => s <| imap := (imap s) <| count := count (imap s) - 1 |> |>) ;;; let* s := getS in when (count (imap s) =? 0) (modify (fun s => s <| imap := mkAddressMap 0 0 None |>))) s
= (Done tt, freed (mkMapState (objs s) (mkAddressMap (hbits (imap s)) (count (imap s) - 1) (Some t)) (allocs s))).
Proof. destruct s as [h [hb c tb] al]. cbn. intros ->. unfold freed, bind, modify, getS, when. cbn. by case_match. Qed.

Lemma freed_objs s : objs (freed s) = objs s.
Proof. unfold freed. by case_match. Qed.

Section Removing.
Context (s : MapState) (t : list Z) (segs : list (list Z)) (m : gmap Z Z) (k p0 : Z) (l : list Z) (F : full s t segs m).
Context (Ep0 : zget t (ncclHashPointer (hbits (imap s)) k) = Some p0) (El : segs !! Z.to_nat (ncclHashPointer (hbits (imap s)) k) = Some l).
Context (Hl : lseg (objs s) p0 l 0) (Hnd : NoDup l).

Lemma removeLoop_ok : forall fuel l1 l2 p, (length l2 < fuel)%nat -> l = l1 ++ l2 -> lseg (objs s) p l2 0 -> exists s',
removeLoop keySize fuel k (ncclHashPointer (hbits (imap s)) k) (default 0 (last l1)) p s = (Done tt, s')
/\ ((forall q, q ∈ l2 -> keyAt (objs s) q <> Some k) /\ s' = s \/ (exists q, q ∈ l2 /\ keyAt (objs s) q = Some k) /\ repr s' (delete k m) /\ relinked l (objs s) (objs s')).
Proof.
pose proof (lo_segs _ _ _ _ (fu_layout _ _ _ _ F)) as Hsg. set (b := ncclHashPointer _ k) in *. assert (Hb : 0 <= b < Z.of_nat (length t)) by by apply zget_Some in Ep0.
assert (Et0 : t !! Z.to_nat b = Some p0) by (unfold zget in Ep0; by rewrite decide_True in Ep0 by lia).
induction fuel as [|fuel IH]; intros l1 l2 p Hf -> Hp; [lia|]. destruct l2 as [|q l2]; cbn [lseg] in Hp.
{ subst p. exists s. split; [done|]. left. split; [set_solver|done]. }
destruct Hp as (-> & Hq0 & o & Eo & Hp). assert (Ek : keyAt (objs s) q = Some (keyBytes keySize o)) by (unfold keyAt; by rewrite Eo).
cbn [removeLoop]. rewrite (proj2 (Z.eqb_neq _ _)) by done. nstep (readKey_Done s _ _ Eo). destruct (_ =? k) eqn:E.
- apply Z.eqb_eq in E. rewrite E in Ek. nstep (readNext_Done s _ _ Eo). destruct l1 as [|pr l1 _] using rev_ind.
+ cbn [last default]. cbn [Z.eqb]. rewrite bind_assoc. nstep (getTable_Done s t (fu_table _ _ _ _ F)).
rewrite bind_assoc, (zset_is_Some t b) by done. cbn [of_option]. nred. unfold setTable. rewrite (bind_step _ _ _ _ _ (eq_refl : modify _ s = (Done tt, _))), (remove_end _ (zupd t b (o_next o))) by done.
eexists. split; [reflexivity|]. right. split; [exists q; set_solver|]. rewrite freed_objs. split; [|apply relinked_refl].
apply (full_pull s t segs m k q (Z.to_nat b) [] l2 _ _ (o_next o)); [done|done|done|apply relinked_refl|by rewrite length_zupd| | |done].
* intros j Hj. unfold zupd. rewrite decide_True by lia. by apply list_lookup_insert_ne.
* unfold zupd. rewrite decide_True by lia. apply list_lookup_insert_eq. lia.
+ rewrite last_snoc. cbn [default]. rewrite <- app_assoc in Hl, Hnd, El. cbn [app] in Hl, Hnd, El.
destruct (lseg_dom _ _ _ _ pr Hl) as [Hpr0 [opr Epr]]; [set_solver|]. rewrite (proj2 (Z.eqb_neq _ _)) by done.
nstep (writeNext_Done s pr opr (o_next o) Epr). rewrite (remove_end _ t) by apply F. cbn.
eexists. split; [reflexivity|]. right. split; [exists q; set_solver|]. rewrite freed_objs. pose proof (relinked_one _ _ _ (o_next o) Epr) as Hr.
split; [|apply (relinked_trans [pr] [] _ _ _ _ Hr); [apply relinked_refl|set_solver..]].
apply (full_pull s t segs m k q (Z.to_nat b) (l1 ++ [pr]) l2 _ _ p0); [done|by rewrite <- app_assoc|done| |done|done|done|].
* apply (relinked_trans [pr] [] _ _ _ _ Hr); [apply relinked_refl|set_solver..].
* rewrite <- app_assoc. cbn. by apply (lseg_skip _ _ _ _ q _ _ o).
- nstep (readNext_Done s _ _ Eo). specialize (IH (l1 ++ [q]) l2 (o_next o)). rewrite last_snoc in IH. cbn [default] in IH.
destruct IH as (s' & E' & Hs'); [cbn in Hf; lia|by rewrite <- app_assoc|done|]. exists s'. split; [exact E'|].
destruct Hs' as [[Hno ->]|[[x [Hx Ex]] Hs']]; [left|right; split; [exists x; set_solver|exact Hs']]. split; [|done].
intros x Hx. apply elem_of_cons in Hx as [->|Hx]; [|by apply Hno]. rewrite Ek. intros [= Ex]. lia.
Qed.
End Removing.

Lemma Remove_ok s m k : repr s m -> exists s', exec keySize (Remove k) s = (Done 0, s') /\ repr s' (delete k m) /\ keeps s m [] s'.
Proof.
intros Hr. cbn [exec]. unfold ncclIntruAddressMapRemove_untyped. rewrite valid_size, bind_assoc. nred. destruct Hr as [[E ->]|(t & segs & F & Hc)].
{ rewrite E. cbn. exists s. rewrite delete_empty. split_and!; [done|by left|done]. }
pose proof (fu_hbits _ _ _ _ F) as Hb. rewrite (proj2 (Z.eqb_neq _ _)) by lia. cbn zeta.
destruct (full_bucket _ _ _ _ k F) as (p & l & Ep & El & Hl & Hnd & _ & Hm).
rewrite bind_assoc. nstep (getTable_Done _ _ (fu_table _ _ _ _ F)). rewrite bind_assoc. nstep (zget_Done s _ _ _ Ep).
destruct (removeLoop_ok s t segs m k p l F Ep El Hl Hnd (chainFuel s) [] l p) as (s' & E' & Hs'); [pose proof (lseg_length _ _ _ _ Hnd Hl); unfold chainFuel; lia|done|done|].
cbn [last default] in E'. nstep E'. exists s'. split; [done|]. destruct Hs' as [[Hno ->]|(_ & Hrep & Hrel)].
- rewrite delete_id; [split; [right; by exists t, segs|done]|]. destruct (m !! k) as [q|] eqn:Eq; [|done]. destruct (proj2 (Hm q) eq_refl) as [Hq Ek]. by destruct (Hno q Hq Ek).
- split; [done|]. split; [apply Hrel|]. intros q Hq _. apply Hrel. intros Hin. destruct (full_keyed _ _ _ _ q F (concat_in _ _ _ _ El Hin)) as [k' Ek'].
apply (Hq k'). by apply (fu_map _ _ _ _ F); split; [apply (concat_in _ _ _ _ El Hin)|].
Qed.

(** ** The calls implement a finite map *)

(** What the operations do to a map from keys to objects; an allocation may fail. *)
Inductive mapSpec (m : gmap Z Z) : MapOp -> outcome Z -> gmap Z Z -> Prop :=
| spec_insert k p : mapSpec m (Insert k p) (Done 0) (<[k := p]> m)
| spec_nomem k p : mapSpec m (Insert k p) (Fail ncclSystemError) m
| spec_find k : mapSpec m (Find k) (Done (default 0 (m !! k))) m
| spec_remove k : mapSpec m (Remove k) (Done 0) (delete k m).

(** The use of the map: an inserted object has its key in its key field, and the key is new. *)
Definition contract (h : gmap Z Obj) (m : gmap Z Z) (op : MapOp) : Prop :=
match op with
| Insert k p => p <> 0 /\ keyAt h p = Some k /\ m !! k = None /\ roomFor m
| _ => True
end.

(** As long as the calls are used as they should, their results are those of the map. *)
Fixpoint follows (h : gmap Z Obj) (m : gmap Z Z) (ops : list MapOp) (rs : list (outcome Z)) (Q : gmap Z Z -> Prop) : Prop :=
match ops, rs with
| [], [] => Q m
| op :: ops, r :: rs => contract h m op -> exists m', mapSpec m op r m' /\ follows h m' ops rs Q
| _, _ => False
end.

Lemma repr_empty s : repr s ∅ -> imap s = mkAddressMap 0 0 None.
Proof. intros [[E _]|(t & segs & F & Hc)]; [done|]. pose proof (full_size _ _ _ _ F) as Hs. rewrite map_size_empty in Hs. lia. Qed.

(** One call. *)
Lemma exec_ok s m op : repr s m -> contract (objs s) m op -> exists r s' m', exec keySize op s = (r, s') /\ mapSpec m op r m' /\ repr s' m'
/\ keeps s m (match op with Insert _ p => [p] | _ => [] end) s'.
Proof.
intros Hr Hc. destruct op as [k p|k|k]; cbn in Hc.
- destruct Hc as (Hp & Hk & Hm & Hroom). destruct (Insert_ok s m k p Hr Hk Hp Hm Hroom) as (s' & [(E & Hr' & Ho)|(E & Hr' & Hkeep)]); do 3 eexists;
(split; [exact E|]; split; [constructor|]; split; [done|]); [|done]. split; intros; by rewrite Ho.
- do 3 eexists. split; [by apply Find_ok|]. split; [constructor|]. done.
- destruct (Remove_ok s m k Hr) as (s' & E & Hr' & Hkeep). do 3 eexists. split; [exact E|]. split; [constructor|]. done.
Qed.

Lemma keyAt_same h h' p : o_key <$> h' !! p = o_key <$> h !! p -> keyAt h' p = keyAt h p.
Proof. unfold keyAt, keyBytes. destruct (h' !! p), (h !! p); cbn; congruence. Qed.

(** The objects of the map are among [X]. *)
Lemma run_ok (X : Z -> Prop) h : forall ops m s, repr s m -> (forall p, o_key <$> objs s !! p = o_key <$> h !! p) -> (forall p, ~ X p -> objs s !! p = h !! p) ->
(forall k p, m !! k = Some p -> X p) -> (forall k p, Insert k p ∈ ops -> X p) ->
let '(rs, s') := execAll keySize ops s in follows h m ops rs (fun m' => (m' = ∅ -> imap s' = mkAddressMap 0 0 None) /\ (forall p, o_key <$> objs s' !! p = o_key <$> h !! p) /\ forall p, ~ X p -> objs s' !! p = h !! p).
Proof.
induction ops as [|op ops IH]; intros m s Hr Hkeys Hout HX HXo; cbn [execAll]; [split_and!; [|done|done]; intros ->; by apply repr_empty|].
destruct (exec keySize op s) as [r s1] eqn:E. destruct (execAll keySize ops s1) as [rs s'] eqn:Er. cbn [follows]. intros Hc.
assert (Hc' : contract (objs s) m op) by (destruct op; cbn in *; [|done..]; by rewrite (keyAt_same h)).
destruct (exec_ok s m op Hr Hc') as (r' & s1' & m' & E' & Hs & Hr' & Hkeep). rewrite E in E'. injection E' as <- <-. exists m'. split; [done|].
specialize (IH m' s1 Hr'). rewrite Er in IH. apply IH.
- intros p. by rewrite <- Hkeys, <- (proj1 Hkeep p).
- intros p Hp. rewrite <- (Hout p Hp). apply Hkeep; [intros k Hk; by apply Hp, (HX k)|]. destruct op as [k p'|k|k]; [|set_solver..].
intros Hin. apply list_elem_of_singleton in Hin as ->. apply Hp, (HXo k). set_solver.
- intros k p Hm. inversion Hs; subst; try (by apply (HX k)).
+ apply lookup_insert_Some in Hm as [[-> ->]|[_ Hm]]; [|by apply (HX k)]. apply (HXo k). set_solver.
+ apply lookup_delete_Some in Hm as [_ Hm]. by apply (HX k).
- intros k p Hin. apply (HXo k). set_solver.
Qed.

(** C34. The calls on an address map that starts with zeroes implement a finite map from keys
to objects, whatever they are and however the table grows, as long as each inserted
object has its key in its key field and no other object of the map has that key: a find
gives the object of the key or none, a remove takes it out, and an insertion either puts
the object in or fails for lack of memory and leaves the map as it was.  When the map is
empty again its table has been freed, and no object changes but for the next fields of
the objects inserted. *)
Theorem AddressMap_implements_map ops s : imap s = mkAddressMap 0 0 None ->
let '(rs, s') := execAll keySize ops s in
follows (objs s) ∅ ops rs (fun m => (m = ∅ -> imap s' = mkAddressMap 0 0 None)
/\ (forall p, o_key <$> objs s' !! p = o_key <$> objs s !! p)
/\ forall p, (forall k, Insert k p ∉ ops) -> objs s' !! p = objs s !! p).
Proof.
intros Hz. pose proof (run_ok (fun p => exists k, Insert k p ∈ ops) (objs s) ops ∅ s) as H. destruct (execAll keySize ops s) as [rs s'].
assert (Hw : forall (Q R : gmap Z Z -> Prop), (forall m, Q m -> R m) -> forall ops m rs, follows (objs s) m ops rs Q -> follows (objs s) m ops rs R).
{ intros Q R HQ. induction ops0 as [|op l IH]; intros m [|r l']; cbn; [apply HQ|done..|]. intros Hf Hc. destruct (Hf Hc) as (m' & Hm & Hl). exists m'. split; [done|by apply IH]. }
eapply Hw, H; [|by left|done|done|intros k p E; by rewrite lookup_empty in E|eauto].
intros m (H1 & H2 & H3). split_and!; [done..|]. intros p Hp. apply H3. intros [k Hk]. by apply (Hp k).
Qed.
End Size.

(** ** Instances *)

Definition someObjs (n : nat) : gmap Z Obj := list_to_map (map (fun i => (16 * i, mkObj i 0)) (seqZ 1 (Z.of_nat n))).

Definition someOps (n : nat) : list MapOp := map (fun i => Insert i (16 * i)) (seqZ 1 (Z.of_nat n)).

Lemma AddressMap_implements_map_witness : 0 < 8 <= 8 /\
  let s := mkMapState (someObjs 40) (mkAddressMap 0 0 None) [] in
  let '(rs, s') := execAll 8 (someOps 40 ++ [Find 7; Remove 7; Find 7]) s in
  List.last rs Fault = Done 0 /\ zget rs 40 = Some (Done 112) /\ hbits (imap s') = 5 /\
  follows 8 (objs s) ∅ (someOps 40 ++ [Find 7; Remove 7; Find 7]) rs (fun m => (m = ∅ -> imap s' = mkAddressMap 0 0 None)
    /\ (forall p, o_key <$> objs s' !! p = o_key <$> objs s !! p)
    /\ forall p, (forall k, Insert k p ∉ someOps 40 ++ [Find 7; Remove 7; Find 7]) -> objs s' !! p = objs s !! p).
Proof.
  split; [lia|]. cbv zeta.
  pose proof (AddressMap_implements_map 8 ltac:(lia) (someOps 40 ++ [Find 7; Remove 7; Find 7]) (mkMapState (someObjs 40) (mkAddressMap 0 0 None) []) eq_refl) as H.
  assert (E : let '(rs, s') := execAll 8 (someOps 40 ++ [Find 7; Remove 7; Find 7]) (mkMapState (someObjs 40) (mkAddressMap 0 0 None) []) in
    List.last rs Fault = Done 0 /\ zget rs 40 = Some (Done 112) /\ hbits (imap s') = 5) by (vm_compute; repeat split; reflexivity).
  destruct (execAll 8 _ _) as [rs s']. destruct E as (E1 & E2 & E3). exact (conj E1 (conj E2 (conj E3 H))).
Defined.

(** The key field is not written: an object whose key field is not the key is not found. *)
Lemma key_not_written : fst (execAll 8 [Insert 5 16; Find 5] (mkMapState {[ 16 := mkObj 0 0 ]} (mkAddressMap 0 0 None) [])) = [Done 0; Done 0].
Proof. vm_compute. reflexivity. Qed.

(** Of two objects with the same key the second is found, until the table grows: then the
    first is. *)
Lemma growth_reverses_duplicates :
  let h := <[1000 := mkObj 7 0]> (<[1016 := mkObj 7 0]> (someObjs 32)) in
  let others := List.filter (fun op => match op with Insert k _ => negb (k =? 7) | _ => true end) (someOps 31) in
  let rs := fst (execAll 8 ([Insert 7 1000; Insert 7 1016; Find 7] ++ others ++ [Insert 32 512; Find 7]) (mkMapState h (mkAddressMap 0 0 None) [])) in
  zget rs 2 = Some (Done 1016) /\ List.last rs Fault = Done 1000.
Proof. vm_compute. split; reflexivity. Qed.
