(* ===== verification/IntruQueue.v ===== *)
(** * The intrusive queue ([include/utils.h])

    A singly linked queue through a field of its elements.  The state is the heap of the
    objects; the queue itself is a value that the calls take and give back. *)

From S2P Require Import Prelude Chains.

Open Scope Z_scope.
Open Scope nccl_scope.

Record ncclIntruQueue := mkQueue { q_head : Z; q_tail : Z; nElems : Z }.
#[export] Instance eta_Queue : Eta ncclIntruQueue := fun r => mkQueue (q_head r) (q_tail r) (nElems r).

Abbreviation heapM := (comp (gmap Z Obj)).

(** [x->*next], read and written. *)
Definition loadNext (x : Z) : heapM Z := let* h := getS in let* o := of_option (h !! x) in ret (o_next o).

Definition storeNext (x v : Z) : heapM unit :=
  let* h := getS in let* o := of_option (h !! x) in modify (fun h => <[x := o <| o_next := v |>]> h).

Definition ncclIntruQueueConstruct : ncclIntruQueue := mkQueue 0 0 0.

Definition ncclIntruQueueEmpty (me : ncclIntruQueue) : bool := q_head me =? 0.

Definition ncclIntruQueueEnqueue (me : ncclIntruQueue) (x : Z) : heapM ncclIntruQueue :=
  storeNext x 0 ;;;
  (if negb (q_head me =? 0) then storeNext (q_tail me) x else ret tt) ;;;
  ret (mkQueue (if negb (q_head me =? 0) then q_head me else x) x (i32 (nElems me + 1))).

Definition ncclIntruQueueEnqueueFront (me : ncclIntruQueue) (x : Z) : heapM ncclIntruQueue :=
  storeNext x (q_head me) ;;;
  ret (mkQueue x (if q_head me =? 0 then x else q_tail me) (i32 (nElems me + 1))).

Definition ncclIntruQueueDequeue (me : ncclIntruQueue) : heapM (Z * ncclIntruQueue) :=
  let ans := q_head me in
  let* head := loadNext ans in
  ret (ans, mkQueue head (if head =? 0 then 0 else q_tail me) (i32 (nElems me - 1))).

Definition ncclIntruQueueTryDequeue (me : ncclIntruQueue) : heapM (Z * ncclIntruQueue) :=
  let ans := q_head me in
  if negb (ans =? 0) then
    let* head := loadNext ans in
    ret (ans, mkQueue head (if head =? 0 then 0 else q_tail me) (i32 (nElems me - 1)))
  else ret (ans, me).

(** The search of [ncclIntruQueueDelete]: [prev] and [cur] where it ends. *)
Fixpoint searchFrom (cmp : Z -> Z -> bool) (x : Z) (fuel : nat) (prev cur : Z) : heapM (Z * Z) :=
  if cur =? 0 then ret (prev, cur)
  else match fuel with
       | O => fault
       | Datatypes.S f => if cmp cur x then ret (prev, cur) else let* next := loadNext cur in searchFrom cmp x f cur next
       end.

(** The walk has as many steps as there are objects: a longer chain would be a cycle. *)
Definition ncclIntruQueueDelete (me : ncclIntruQueue) (x : Z) (cmp : Z -> Z -> bool) : heapM (Z * ncclIntruQueue) :=
  let* h := getS in
  let* '(prev, cur) := searchFrom cmp x (Datatypes.S (size h)) 0 (q_head me) in
  if negb (cur =? 0) then
    let* next := loadNext cur in
    (if prev =? 0 then ret tt else storeNext prev next) ;;;
    ret (cur, mkQueue (if prev =? 0 then next else q_head me) (if cur =? q_tail me then prev else q_tail me) (i32 (nElems me - 1)))
  else ret (cur, me).

(** [dst], [src] after the transfer. *)
Definition ncclIntruQueueTransfer (dst src : ncclIntruQueue) : heapM (ncclIntruQueue * ncclIntruQueue) :=
  (if negb (q_tail dst =? 0) then storeNext (q_tail dst) (q_head src) else ret tt) ;;;
  ret (mkQueue (if negb (q_tail dst =? 0) then q_head dst else q_head src) (if negb (q_tail src =? 0) then q_tail src else q_tail dst)
         (i32 (nElems dst + nElems src)),
       mkQueue 0 0 0).

(** ** Calls in a row, on two queues *)

Record QState := mkQState { qheap : gmap Z Obj; qa : ncclIntruQueue; qb : ncclIntruQueue }.

Inductive QOp := Enqueue (x : Z) | EnqueueFront (x : Z) | Dequeue | TryDequeue | Delete (x : Z) (cmp : Z -> Z -> bool).

(** A call on one queue, or the transfer of the second to the first. *)
Inductive QCall := OnA (op : QOp) | OnB (op : QOp) | Transfer.

Definition qexec (op : QOp) (q : ncclIntruQueue) : heapM (Z * ncclIntruQueue) :=
  match op with
  | Enqueue x => let* q := ncclIntruQueueEnqueue q x in ret (0, q)
  | EnqueueFront x => let* q := ncclIntruQueueEnqueueFront q x in ret (0, q)
  | Dequeue => ncclIntruQueueDequeue q
  | TryDequeue => ncclIntruQueueTryDequeue q
  | Delete x cmp => ncclIntruQueueDelete q x cmp
  end.

Definition qcall (c : QCall) (s : QState) : outcome Z * QState :=
  match c with
  | OnA op => match qexec op (qa s) (qheap s) with (Done (r, q), h) => (Done r, mkQState h q (qb s)) | (Fail e, h) => (Fail e, s) | (Fault, h) => (Fault, s) end
  | OnB op => match qexec op (qb s) (qheap s) with (Done (r, q), h) => (Done r, mkQState h (qa s) q) | (Fail e, h) => (Fail e, s) | (Fault, h) => (Fault, s) end
  | Transfer => match ncclIntruQueueTransfer (qa s) (qb s) (qheap s) with (Done (a, b), h) => (Done 0, mkQState h a b) | (Fail e, h) => (Fail e, s) | (Fault, h) => (Fault, s) end
  end.

Fixpoint qrun (cs : list QCall) (s : QState) : list (outcome Z) * QState :=
  match cs with
  | [] => ([], s)
  | c :: cs => let '(r, s) := qcall c s in let '(rs, s) := qrun cs s in (r :: rs, s)
  end.

(** * The theorems

    Two queues over one heap implement two lists: what the calls return, and that each
    queue leaves the other alone. *)

(** The queue holds [l]. *)
Record qrep (h : gmap Z Obj) (q : ncclIntruQueue) (l : list Z) : Prop := {
  qr_chain : lseg h (q_head q) l 0;
  qr_nodup : NoDup l;
  qr_tail : q_tail q = default 0 (last l);
  qr_count : nElems q = i32 (Z.of_nat (length l));
}.

Lemma load_Done h x o : h !! x = Some o -> loadNext x h = (Done (o_next o), h).
Proof. intros E. unfold loadNext. nred. by rewrite E. Qed.

Lemma store_Done h x o v : h !! x = Some o -> storeNext x v h = (Done tt, <[x := o <| o_next := v |>]> h).
Proof. intros E. unfold storeNext. nred. by rewrite E. Qed.

Lemma i32_add a b : i32 (i32 a + b) = i32 (a + b).
Proof. by apply wrapS_add_l. Qed.

Lemma qrep_head h q l : qrep h q l -> (q_head q =? 0) = bool_decide (l = []).
Proof.
  intros [Hl _ _ _]. destruct l as [|x l]; [by cbn in Hl; rewrite Hl|]. destruct Hl as (-> & H0 & _). rewrite bool_decide_false by done. by apply Z.eqb_neq.
Qed.

Lemma last_in (l : list Z) x : last l = Some x -> x ∈ l.
Proof. intros E. rewrite last_lookup in E. by eapply list_elem_of_lookup_2. Qed.

Lemma qrep_tail h q l : qrep h q l -> (q_tail q =? 0) = bool_decide (l = []).
Proof.
  intros [Hl _ Ht _]. rewrite Ht. destruct (last l) as [x|] eqn:E; cbn.
  - pose proof (last_in _ _ E) as Hx. rewrite bool_decide_false by (intros ->; done). apply Z.eqb_neq. by destruct (lseg_dom _ _ _ _ x Hl Hx).
  - apply last_None in E as ->. done.
Qed.

(** Linking what follows the last object. *)
Lemma lseg_relink h l z p v o : NoDup (l ++ [z]) -> lseg h p (l ++ [z]) 0 -> h !! z = Some o -> lseg (<[z := o <| o_next := v |>]> h) p (l ++ [z]) v.
Proof.
  intros Hnd Hl Eo. apply NoDup_app in Hnd as (_ & Hd & _). apply lseg_app in Hl as (m & H1 & H2). cbn in H2. destruct H2 as (-> & Hz & _).
  apply lseg_app. exists z. split; [apply lseg_frame; [|done]; intros Hin; apply (Hd z Hin); set_solver|]. cbn. split_and!; [done..|]. eexists. by split; [apply lookup_insert_eq|].
Qed.

Lemma snoc_cases (l : list Z) : l = [] \/ exists l' z, l = l' ++ [z].
Proof. induction l as [|z l _] using rev_ind; [by left|right; eauto]. Qed.

(** Appending a chain to the chain of a queue. *)
Lemma append_ok h q l p l2 : qrep h q l -> lseg h p l2 0 -> (forall x, x ∈ l -> x ∉ l2) ->
  exists h', (if negb (bool_decide (l = [])) then storeNext (q_tail q) p else ret tt) h = (Done tt, h') /\ relinked l h h'
    /\ lseg h' (if negb (bool_decide (l = [])) then q_head q else p) (l ++ l2) 0.
Proof.
  intros [Hl Hnd Ht _] H2 Hd. destruct (snoc_cases l) as [->|(l' & z & ->)]; [exists h; split_and!; [done|apply relinked_refl|exact H2]|].
  rewrite last_snoc in Ht. cbn in Ht. rewrite bool_decide_false by (destruct l'; done). cbn [negb]. rewrite Ht.
  destruct (lseg_dom _ _ _ _ z Hl) as [Hz [o Eo]]; [set_solver|]. eexists. split; [by apply store_Done|]. split.
  - apply (relinked_trans [z] [] _ _ _ _ (relinked_one _ _ _ p Eo)); [apply relinked_refl|set_solver..].
  - apply lseg_app. exists p. split; [by apply lseg_relink|]. apply lseg_frame; [apply Hd; set_solver|done].
Qed.

Lemma Enqueue_ok h q l x : qrep h q l -> x <> 0 -> is_Some (h !! x) -> x ∉ l ->
  exists q' h', ncclIntruQueueEnqueue q x h = (Done q', h') /\ qrep h' q' (l ++ [x]) /\ relinked (x :: l) h h'.
Proof.
  intros Hq Hx [o Eo] Hin. unfold ncclIntruQueueEnqueue. rewrite (qrep_head _ _ _ Hq). nstep (store_Done h x o 0 Eo). set (h1 := <[x := _]> h).
  assert (Hq1 : qrep h1 q l) by (destruct Hq; constructor; [by apply lseg_frame|done..]).
  assert (Hx1 : lseg h1 x [x] 0) by (cbn; split_and!; [done..|]; eexists; by split; [apply lookup_insert_eq|]).
  destruct (append_ok h1 q l x [x] Hq1 Hx1) as (h' & E & Hr & Hl'); [set_solver|]. nstep E. do 2 eexists. split; [reflexivity|]. split; [constructor; cbn|].
  - exact Hl'.
  - apply NoDup_app. split_and!; [apply Hq|set_solver|apply NoDup_singleton].
  - by rewrite last_snoc.
  - rewrite (qr_count _ _ _ Hq), i32_add, length_app. cbn. f_equal. lia.
  - apply (relinked_trans [x] l _ _ h1); [by apply relinked_one|done|set_solver..].
Qed.

Lemma EnqueueFront_ok h q l x : qrep h q l -> x <> 0 -> is_Some (h !! x) -> x ∉ l ->
  exists q' h', ncclIntruQueueEnqueueFront q x h = (Done q', h') /\ qrep h' q' (x :: l) /\ relinked (x :: l) h h'.
Proof.
  intros Hq Hx [o Eo] Hin. unfold ncclIntruQueueEnqueueFront. nstep (store_Done h x o (q_head q) Eo). do 2 eexists. split; [reflexivity|]. split; [constructor; cbn|].
  - split_and!; [done..|]. eexists. split; [apply lookup_insert_eq|]. apply lseg_frame; [done|apply Hq].
  - apply NoDup_cons. split; [done|apply Hq].
  - rewrite (qrep_head _ _ _ Hq), (qr_tail _ _ _ Hq). destruct l as [|y l]; [done|]. rewrite bool_decide_false by done. rewrite !last_cons. by destruct (last l).
  - rewrite (qr_count _ _ _ Hq), i32_add. f_equal. lia.
  - apply (relinked_trans [x] [] _ _ _ _ (relinked_one _ _ _ (q_head q) Eo)); [apply relinked_refl|set_solver..].
Qed.

Lemma dequeue_tail h q x l : qrep h q (x :: l) -> forall o, h !! x = Some o -> qrep h (mkQueue (o_next o) (if o_next o =? 0 then 0 else q_tail q) (i32 (nElems q - 1))) l.
Proof.
  intros [Hl Hnd Ht Hc] o Eo. destruct Hl as (-> & Hx & o' & Eo' & Hl). rewrite Eo in Eo'. injection Eo' as <-. apply NoDup_cons in Hnd as [_ Hnd].
  constructor; cbn; [done..| |].
  - assert (Hq : qrep h (mkQueue (o_next o) (default 0 (last l)) (i32 (Z.of_nat (length l)))) l) by by constructor.
    rewrite (qrep_head _ _ _ Hq : (o_next o =? 0) = _). destruct l as [|y l]; [done|]. rewrite bool_decide_false by done. rewrite Ht, !last_cons. by destruct (last l).
  - rewrite Hc. change (i32 (Z.of_nat (length (x :: l))) - 1) with (i32 (Z.of_nat (length (x :: l))) + -1). rewrite i32_add. f_equal. cbn. lia.
Qed.

Lemma Dequeue_ok h q x l : qrep h q (x :: l) -> exists q', ncclIntruQueueDequeue q h = (Done (x, q'), h) /\ qrep h q' l.
Proof.
  intros Hq. pose proof (qr_chain _ _ _ Hq) as Hl. cbn in Hl. destruct Hl as (Eh & Hx & o & Eo & _). unfold ncclIntruQueueDequeue.
  nstep (load_Done h _ o Eo). rewrite Eh in *. eexists. split; [reflexivity|]. by apply (dequeue_tail _ _ x).
Qed.

Lemma TryDequeue_ok h q l : qrep h q l -> exists q', ncclIntruQueueTryDequeue q h = (Done (default 0 (head l), q'), h) /\ qrep h q' (List.tl l).
Proof.
  intros Hq. unfold ncclIntruQueueTryDequeue. rewrite (qrep_head _ _ _ Hq). destruct l as [|x l].
  - cbn. exists q. split; [|done]. f_equal. pose proof (qr_chain _ _ _ Hq) as Hl. cbn in Hl. by rewrite Hl.
  - rewrite bool_decide_false by done. cbn [negb]. exact (Dequeue_ok h q x l Hq).
Qed.

(** ** Delete *)

(** The list without its first match, and that match. *)
Fixpoint deleteFirst (f : Z -> bool) (l : list Z) : option (list Z * Z * list Z) :=
  match l with
  | [] => None
  | y :: l => if f y then Some ([], y, l) else match deleteFirst f l with Some (l1, z, l2) => Some (y :: l1, z, l2) | None => None end
  end.

Lemma deleteFirst_split f l : match deleteFirst f l with Some (l1, z, l2) => l = l1 ++ z :: l2 /\ f z = true /\ Forall (fun y => f y = false) l1 | None => Forall (fun y => f y = false) l end.
Proof.
  induction l as [|y l IH]; cbn; [done|]. destruct (f y) eqn:E; [done|]. destruct (deleteFirst f l) as [[[l1 z] l2]|].
  - destruct IH as (-> & Hz & Hl). split_and!; [done..|]. by apply Forall_cons.
  - by apply Forall_cons.
Qed.

Lemma searchFrom_ok cmp x h : forall fuel l1 l p, (length l < fuel)%nat -> lseg h p l 0 ->
  searchFrom cmp x fuel (default 0 (last l1)) p h
  = (Done (match deleteFirst (fun y => cmp y x) l with Some (la, z, _) => (default 0 (last (l1 ++ la)), z) | None => (default 0 (last (l1 ++ l)), 0) end), h).
Proof.
  induction fuel as [|fuel IH]; intros l1 l p Hf Hl; [lia|]. destruct l as [|y l]; cbn [lseg] in Hl.
  { subst p. cbn. by rewrite app_nil_r. }
  destruct Hl as (-> & Hy & o & Eo & Hl). cbn [searchFrom deleteFirst]. rewrite (proj2 (Z.eqb_neq _ _)) by done.
  destruct (cmp y x); [by rewrite app_nil_r|]. nstep (load_Done h _ o Eo). specialize (IH (l1 ++ [y]) l (o_next o)). rewrite last_snoc in IH. change (default 0 (Some y)) with y in IH.
  rewrite IH; [|cbn in Hf; lia|done]. destruct (deleteFirst _ l) as [[[la z] lb]|]; by rewrite <- app_assoc.
Qed.

(** Taking an object out of the chain. *)
Lemma unlink_ok h q l1 z l2 oz : qrep h q (l1 ++ z :: l2) -> h !! z = Some oz ->
  exists h', (if default 0 (last l1) =? 0 then ret tt else storeNext (default 0 (last l1)) (o_next oz)) h = (Done tt, h') /\ relinked (l1 ++ z :: l2) h h'
    /\ lseg h' (if default 0 (last l1) =? 0 then o_next oz else q_head q) (l1 ++ l2) 0.
Proof.
  intros Hq Ez. pose proof (qr_chain _ _ _ Hq) as Hl. pose proof (qr_nodup _ _ _ Hq) as Hnd. destruct (snoc_cases l1) as [->|(l' & pr & ->)].
  - exists h. split_and!; [done|apply relinked_refl|]. cbn in *. destruct Hl as (Eh & _ & o & Eo & Hl). rewrite Eh, Ez in Eo. by injection Eo as <-.
  - rewrite last_snoc. change (default 0 (Some pr)) with pr. destruct (lseg_dom _ _ _ _ pr Hl) as [Hp [o Eo]]; [set_solver|]. rewrite (proj2 (Z.eqb_neq _ _)) by done.
    eexists. split; [by apply store_Done|]. split.
    + apply (relinked_trans [pr] [] _ _ _ _ (relinked_one _ _ _ (o_next oz) Eo)); [apply relinked_refl|set_solver..].
    + rewrite <- !app_assoc in *. cbn in *. by apply (lseg_skip _ _ _ _ z _ _ oz).
Qed.

Lemma unlinked_tail l1 z l2 : NoDup (l1 ++ z :: l2) -> (if z =? default 0 (last (l1 ++ z :: l2)) then default 0 (last l1) else default 0 (last (l1 ++ z :: l2))) = default 0 (last (l1 ++ l2)).
Proof.
  intros Hnd. destruct (snoc_cases l2) as [->|(l' & y & ->)]; [by rewrite last_snoc, app_nil_r; cbn; rewrite Z.eqb_refl|].
  rewrite app_comm_cons, !app_assoc, !last_snoc. cbn. rewrite (proj2 (Z.eqb_neq _ _)); [done|]. intros ->. apply NoDup_app in Hnd as (_ & _ & Hnd). apply NoDup_cons in Hnd as [Hnd _]. set_solver.
Qed.

Lemma Delete_ok h q l x cmp : qrep h q l -> exists q' h', ncclIntruQueueDelete q x cmp h = (Done (match deleteFirst (fun y => cmp y x) l with Some (_, z, _) => z | None => 0 end, q'), h')
  /\ qrep h' q' (match deleteFirst (fun y => cmp y x) l with Some (l1, _, l2) => l1 ++ l2 | None => l end) /\ relinked l h h'.
Proof.
  intros Hq. unfold ncclIntruQueueDelete. nred. pose proof (lseg_length _ _ _ _ (qr_nodup _ _ _ Hq) (qr_chain _ _ _ Hq)) as Hlen.
  pose proof (searchFrom_ok cmp x h (Datatypes.S (size h)) [] l (q_head q) ltac:(lia) (qr_chain _ _ _ Hq)) as Es. cbn [last default] in Es.
  pose proof (deleteFirst_split (fun y => cmp y x) l) as Hs. destruct (deleteFirst _ l) as [[[l1 z] l2]|]; nstep Es; cbn [app].
  - destruct Hs as (-> & _). destruct (lseg_dom _ _ _ _ z (qr_chain _ _ _ Hq)) as [Hz [oz Ez]]; [set_solver|]. rewrite (proj2 (Z.eqb_neq _ _)) by done. cbn [negb].
    nstep (load_Done h _ oz Ez). destruct (unlink_ok h q l1 z l2 oz Hq Ez) as (h' & E & Hr & Hl). nstep E. do 2 eexists. split; [reflexivity|]. split; [|done].
    constructor; cbn; [done| | |].
    + pose proof (qr_nodup _ _ _ Hq) as Hnd. rewrite <- Permutation_middle in Hnd. by apply NoDup_cons in Hnd as [_ ?].
    + rewrite (qr_tail _ _ _ Hq). apply unlinked_tail, Hq.
    + rewrite (qr_count _ _ _ Hq). change (?a - 1) with (a + -1). rewrite i32_add, !length_app. cbn. f_equal. lia.
  - cbn. exists q, h. split_and!; [done|done|apply relinked_refl].
Qed.

(** ** Transfer *)

Lemma Transfer_ok h a b l1 l2 : qrep h a l1 -> qrep h b l2 -> (forall x, x ∈ l1 -> x ∉ l2) ->
  exists a' b' h', ncclIntruQueueTransfer a b h = (Done (a', b'), h') /\ qrep h' a' (l1 ++ l2) /\ qrep h' b' [] /\ relinked l1 h h'.
Proof.
  intros Ha Hb Hd. unfold ncclIntruQueueTransfer. rewrite (qrep_tail _ _ _ Ha), (qrep_tail _ _ _ Hb).
  destruct (append_ok h a l1 (q_head b) l2 Ha (qr_chain _ _ _ Hb) Hd) as (h' & E & Hr & Hl). nstep E. do 3 eexists. split; [reflexivity|].
  split; [constructor; cbn|split; [by constructor; [|apply NoDup_nil|..]|done]].
  - exact Hl.
  - apply NoDup_app. split_and!; [apply Ha|set_solver|apply Hb].
  - rewrite (qr_tail _ _ _ Ha), (qr_tail _ _ _ Hb). destruct (snoc_cases l2) as [->|(l' & z & ->)]; [by rewrite app_nil_r|].
    rewrite bool_decide_false by (destruct l'; done). by rewrite app_assoc, !last_snoc.
  - rewrite (qr_count _ _ _ Ha), (qr_count _ _ _ Hb), i32_add, Z.add_comm, i32_add, length_app. f_equal. lia.
Qed.

(** ** The calls implement lists *)

(** What an operation does to a list. *)
Definition qmodel (op : QOp) (l : list Z) : Z * list Z :=
  match op with
  | Enqueue x => (0, l ++ [x])
  | EnqueueFront x => (0, x :: l)
  | Dequeue | TryDequeue => (default 0 (head l), List.tl l)
  | Delete x cmp => match deleteFirst (fun y => cmp y x) l with Some (l1, z, l2) => (z, l1 ++ l2) | None => (0, l) end
  end.

Definition qcallModel (c : QCall) (ls : list Z * list Z) : Z * (list Z * list Z) :=
  match c with
  | OnA op => let '(r, l) := qmodel op (fst ls) in (r, (l, snd ls))
  | OnB op => let '(r, l) := qmodel op (snd ls) in (r, (fst ls, l))
  | Transfer => (0, (fst ls ++ snd ls, []))
  end.

(** An object is put in a queue when it is in none; [Dequeue] needs an object. *)
Definition qcontract (h : gmap Z Obj) (op : QOp) (l other : list Z) : Prop :=
  match op with
  | Enqueue x | EnqueueFront x => x <> 0 /\ is_Some (h !! x) /\ x ∉ l /\ x ∉ other
  | Dequeue => l <> []
  | _ => True
  end.

Definition callContract (h : gmap Z Obj) (c : QCall) (ls : list Z * list Z) : Prop :=
  match c with OnA op => qcontract h op (fst ls) (snd ls) | OnB op => qcontract h op (snd ls) (fst ls) | Transfer => True end.

Fixpoint qfollows (h : gmap Z Obj) (ls : list Z * list Z) (cs : list QCall) (rs : list (outcome Z)) (Q : list Z * list Z -> Prop) : Prop :=
  match cs, rs with
  | [], [] => Q ls
  | c :: cs, r :: rs => callContract h c ls -> r = Done (fst (qcallModel c ls)) /\ qfollows h (snd (qcallModel c ls)) cs rs Q
  | _, _ => False
  end.

Lemma relinked_is_Some l h h' x : relinked l h h' -> is_Some (h !! x) -> is_Some (h' !! x).
Proof. intros [K _] [o Eo]. pose proof (K x) as Kx. rewrite Eo in Kx. destruct (h' !! x); [eauto|done]. Qed.

(** One operation: the queue, what it may relink, and what it takes. *)
Lemma qexec_ok h q l op other : qrep h q l -> qcontract h op l other -> exists q' h',
  qexec op q h = (Done (fst (qmodel op l), q'), h') /\ qrep h' q' (snd (qmodel op l))
  /\ relinked (match op with Enqueue x | EnqueueFront x => x :: l | _ => l end) h h'
  /\ forall x, x ∈ snd (qmodel op l) -> x ∈ match op with Enqueue x | EnqueueFront x => x :: l | _ => l end.
Proof.
  intros Hq Hc. destruct op as [x|x| | |x cmp]; cbn in Hc |- *.
  - destruct Hc as (H1 & H2 & H3 & _). destruct (Enqueue_ok h q l x Hq H1 H2 H3) as (q' & h' & E & Hq' & Hr). nstep E. do 2 eexists. split_and!; [reflexivity|done|done|set_solver].
  - destruct Hc as (H1 & H2 & H3 & _). destruct (EnqueueFront_ok h q l x Hq H1 H2 H3) as (q' & h' & E & Hq' & Hr). nstep E. do 2 eexists. split_and!; [reflexivity|done|done|set_solver].
  - destruct l as [|y l]; [done|]. destruct (Dequeue_ok h q y l Hq) as (q' & E & Hq'). do 2 eexists. split_and!; [exact E|done|apply relinked_refl|set_solver].
  - destruct (TryDequeue_ok h q l Hq) as (q' & E & Hq'). do 2 eexists. split_and!; [exact E|done|apply relinked_refl|]. destruct l; set_solver.
  - destruct (Delete_ok h q l x cmp Hq) as (q' & h' & E & Hq' & Hr). pose proof (deleteFirst_split (fun y => cmp y x) l) as Hs.
    destruct (deleteFirst _ l) as [[[l1 z] l2]|]; do 2 eexists; (split_and!; [exact E|done|done|]); [destruct Hs as [-> _]|]; set_solver.
Qed.

(** The other queue is left alone. *)
Lemma qrep_other h h' q l lx : qrep h q l -> relinked lx h h' -> (forall x, x ∈ l -> x ∉ lx) -> qrep h' q l.
Proof. intros [Hl H1 H2 H3] [_ Hr] Hd. constructor; [|done..]. apply (lseg_agree h); [|done]. intros x Hx. apply Hr. by apply Hd. Qed.

Definition twoQueues (h : gmap Z Obj) (s : QState) (ls : list Z * list Z) : Prop :=
  qrep (qheap s) (qa s) (fst ls) /\ qrep (qheap s) (qb s) (snd ls) /\ (forall x, x ∈ fst ls -> x ∉ snd ls) /\ (forall x, is_Some (h !! x) -> is_Some (qheap s !! x)).

Lemma qcall_ok h s ls c : twoQueues h s ls -> callContract h c ls -> exists s', qcall c s = (Done (fst (qcallModel c ls)), s') /\ twoQueues h s' (snd (qcallModel c ls)).
Proof.
  intros (Ha & Hb & Hd & Hh) Hc. destruct ls as [la lb], s as [hp a b], c as [op|op|]; cbn in *.
  - assert (Hc' : qcontract hp op la lb) by (destruct op; cbn in *; naive_solver). destruct (qexec_ok hp a la op lb Ha Hc') as (a' & h' & E & Ha' & Hr & Hin). rewrite E.
    destruct (qmodel op la) as [r la']. eexists. split; [reflexivity|]. split_and!; cbn in *; [done| | |intros x Hx; by apply (relinked_is_Some _ _ _ _ Hr), Hh].
    + apply (qrep_other hp h' b lb _ Hb Hr). intros x Hx. destruct op; set_solver.
    + intros x Hx Hxb. apply Hin in Hx. destruct op; set_solver.
  - assert (Hc' : qcontract hp op lb la) by (destruct op; cbn in *; naive_solver). destruct (qexec_ok hp b lb op la Hb Hc') as (b' & h' & E & Hb' & Hr & Hin). rewrite E.
    destruct (qmodel op lb) as [r lb']. eexists. split; [reflexivity|]. split_and!; cbn in *; [|done| |intros x Hx; by apply (relinked_is_Some _ _ _ _ Hr), Hh].
    + apply (qrep_other hp h' a la _ Ha Hr). intros x Hx. destruct op; set_solver.
    + intros x Hxa Hx. apply Hin in Hx. destruct op; set_solver.
  - destruct (Transfer_ok hp a b la lb Ha Hb Hd) as (a' & b' & h' & E & Ha' & Hb' & Hr). rewrite E. eexists. split; [reflexivity|].
    split_and!; cbn; [done|done|set_solver|intros x Hx; by apply (relinked_is_Some _ _ _ _ Hr), Hh].
Qed.

(** C39. Two queues over the same objects implement two lists: whatever the calls on them, in
    whatever order, as long as an object is put in a queue only when it is in none, every
    call returns what the operation on the list does, the elements are in the order of the
    list, and neither queue changes what is in the other. *)
Theorem Queue_implements_list cs : forall ls h s, twoQueues h s ls ->
  let '(rs, s') := qrun cs s in qfollows h ls cs rs (twoQueues h s').
Proof.
  induction cs as [|c cs IH]; intros ls h s Hs; cbn [qrun]; [exact Hs|]. destruct (qcall c s) as [r s1] eqn:E. destruct (qrun cs s1) as [rs s'] eqn:Er.
  cbn [qfollows]. intros Hc. destruct (qcall_ok h s ls c Hs Hc) as (s1' & E' & Hs'). rewrite E in E'. injection E' as <- <-. split; [done|].
  specialize (IH _ h s1 Hs'). by rewrite Er in IH.
Qed.

(** ** Instances *)

Definition queueObjs : gmap Z Obj := list_to_map (map (fun i => (i, mkObj 0 99)) (seqZ 1 6)).

Definition queueCalls : list QCall :=
  [OnA (Enqueue 1); OnB (Enqueue 2); OnB (Enqueue 3); OnA (EnqueueFront 4); Transfer; OnA (Delete 2 Z.eqb); OnB (Enqueue 2); OnA Dequeue; OnA TryDequeue; OnA Dequeue; OnB TryDequeue; OnB TryDequeue].

Lemma Queue_implements_list_witness :
  let s := mkQState queueObjs ncclIntruQueueConstruct ncclIntruQueueConstruct in
  twoQueues queueObjs s ([], []) /\
  fst (qrun queueCalls s) = map Done [0; 0; 0; 0; 0; 2; 0; 4; 1; 3; 2; 0] /\
  let '(rs, s') := qrun queueCalls s in qfollows queueObjs ([], []) queueCalls rs (twoQueues queueObjs s').
Proof.
  cbv zeta. assert (H0 : twoQueues queueObjs (mkQState queueObjs ncclIntruQueueConstruct ncclIntruQueueConstruct) ([], [])).
  { split_and!; cbn; [split; [reflexivity|apply NoDup_nil; exact I|reflexivity|reflexivity]|split; [reflexivity|apply NoDup_nil; exact I|reflexivity|reflexivity]| |done].
    intros x Hx. by apply not_elem_of_nil in Hx. }
  split; [exact H0|]. split; [vm_compute; reflexivity|]. exact (Queue_implements_list queueCalls ([], []) queueObjs _ H0).
Defined.
