(* ===== verification/MpscQueue.v ===== *)
(** * The queue of many producers and one consumer ([include/utils.h])

    A lock-free queue through a field of its elements, with a sleeping consumer.  A step of
    the relation is one atomic access (or one call on the mutex or the condition variable) of
    one thread, interleaved in any order; the accesses are taken to be sequentially
    consistent.  Elements are addresses above 2. *)

From S2P Require Import Prelude.

Open Scope Z_scope.
Open Scope nccl_scope.

(** Where an enqueuing thread is: before the store to [x->*next], the exchange, the link to
    what the exchange gave, and, when the consumer waited, the lock and the signal. *)
Inductive Producer :=
  | PStore (x : Z)
  | PExchange (x : Z)
  | PLink (x utail : Z)
  | PLock
  | PNotify.

(** Where the consumer is, in [ncclIntruQueueMpscDequeueAll] ([D...]), in
    [ncclIntruQueueMpscAbandon] ([A...]) or in what they share ([K...]; [mark] is what the
    tail becomes).  [sleeping] is the local variable. *)
Inductive Consumer :=
  | CIdle
  | DLoad (waitSome : bool)
  | DTurn (sleeping : bool)
  | DLocked (sleeping : bool)
  | DCas (sleeping : bool)
  | DWait
  | DAsleep
  | DReload (sleeping : bool)
  | ACas
  | ASpin
  | KStore (mark head : Z)
  | KExchange (mark head : Z)
  | KWalk (head x tail : Z).

#[export] Instance Consumer_eq_dec : EqDecision Consumer.
Proof. solve_decision. Defined.

Record ncclIntruQueueMpsc := mkMpsc {
  m_head : Z; m_tail : Z; m_waiting : bool; m_next : Z -> Z; producers : gmap nat Producer; consumer : Consumer;
}.
#[export] Instance eta_Mpsc : Eta ncclIntruQueueMpsc := fun r =>
  mkMpsc (m_head r) (m_tail r) (m_waiting r) (m_next r) (producers r) (consumer r).

Definition ncclIntruQueueMpscConstruct : ncclIntruQueueMpsc := mkMpsc 0 0 false (fun _ => 0) ∅ CIdle.

(** A store to [a->*next]. *)
Definition setNext (next : Z -> Z) (a v : Z) : Z -> Z := fun y => if y =? a then v else next y.

(** [ncclIntruQueueMpscEmpty]. *)
Definition ncclIntruQueueMpscEmpty (s : ncclIntruQueueMpsc) : bool := m_tail s <=? 2.

(** The consumer holds the mutex of its signal from the lock to the wait. *)
Definition mutexHeld (c : Consumer) : bool :=
  match c with DLocked _ | DCas _ | DWait => true | _ => false end.

(** What can be seen: the exchange of an enqueue, and a list handed to the consumer. *)
Inductive Label := Tau | Enqueued (x : Z) | Dequeued (head : Z).

(** [ncclIntruQueueMpscEnqueue], thread [i]. *)
Inductive enqueueStep (i : nat) (s : ncclIntruQueueMpsc) : Label -> ncclIntruQueueMpsc -> Prop :=
  | enq_store x : producers s !! i = Some (PStore x) ->
      enqueueStep i s Tau (s <| m_next := setNext (m_next s) x 0 |> <| producers := <[i := PExchange x]> (producers s) |>)
  | enq_exchange x : producers s !! i = Some (PExchange x) ->
      enqueueStep i s (Enqueued x) (s <| m_tail := x |> <| producers := <[i := PLink x (m_tail s)]> (producers s) |>)
  | enq_head x utail : producers s !! i = Some (PLink x utail) -> utail <= 2 ->
      enqueueStep i s Tau (s <| m_head := x |> <| producers := if utail =? 1 then <[i := PLock]> (producers s) else delete i (producers s) |>)
  | enq_link x utail : producers s !! i = Some (PLink x utail) -> 2 < utail ->
      enqueueStep i s Tau (s <| m_next := setNext (m_next s) utail x |> <| producers := delete i (producers s) |>)
  | enq_lock : producers s !! i = Some PLock -> mutexHeld (consumer s) = false ->
      enqueueStep i s Tau (s <| producers := <[i := PNotify]> (producers s) |>)
  | enq_notify : producers s !! i = Some PNotify ->
      enqueueStep i s Tau (s <| producers := delete i (producers s) |>
        <| consumer := match consumer s with DAsleep => DReload true | c => c end |>).

(** [ncclIntruQueueMpscDequeueAll].  A turn of the loop tries to sleep or not, as the clock
    says. *)
Inductive dequeueStep (s : ncclIntruQueueMpsc) : Label -> ncclIntruQueueMpsc -> Prop :=
  | deq_some w : consumer s = DLoad w -> m_head s <> 0 -> dequeueStep s Tau (s <| consumer := KStore 0 (m_head s) |>)
  | deq_none : consumer s = DLoad false -> m_head s = 0 -> dequeueStep s (Dequeued 0) (s <| consumer := CIdle |>)
  | deq_loop : consumer s = DLoad true -> m_head s = 0 -> dequeueStep s Tau (s <| consumer := DTurn false |>)
  | deq_spin b : consumer s = DTurn b -> dequeueStep s Tau (s <| consumer := DReload b |>)
  | deq_lock b : consumer s = DTurn b -> dequeueStep s Tau (s <| consumer := DLocked b |>)
  | deq_waiting b : consumer s = DLocked b -> dequeueStep s Tau (s <| m_waiting := true |> <| consumer := DCas b |>)
  | deq_cas (b : bool) : consumer s = DCas b -> m_tail s = (if b then 1 else 0) -> dequeueStep s Tau (s <| m_tail := 1 |> <| consumer := DWait |>)
  | deq_cas_fails (b : bool) : consumer s = DCas b -> m_tail s <> (if b then 1 else 0) -> dequeueStep s Tau (s <| consumer := DReload b |>)
  | deq_wait : consumer s = DWait -> dequeueStep s Tau (s <| consumer := DAsleep |>)
  | deq_spurious : consumer s = DAsleep -> dequeueStep s Tau (s <| consumer := DReload true |>)
  | deq_reload_none b : consumer s = DReload b -> m_head s = 0 -> dequeueStep s Tau (s <| consumer := DTurn b |>)
  | deq_reload_some b : consumer s = DReload b -> m_head s <> 0 -> dequeueStep s Tau (s <| consumer := KStore 0 (m_head s) |>).

(** [ncclIntruQueueMpscAbandon]. *)
Inductive abandonStep (s : ncclIntruQueueMpsc) : Label -> ncclIntruQueueMpsc -> Prop :=
  | abn_empty : consumer s = ACas -> m_tail s = 0 -> abandonStep s (Dequeued 0) (s <| m_tail := 2 |> <| consumer := CIdle |>)
  | abn_some : consumer s = ACas -> m_tail s <> 0 -> abandonStep s Tau (s <| consumer := ASpin |>)
  | abn_spin : consumer s = ASpin -> m_head s = 0 -> abandonStep s Tau s
  | abn_head : consumer s = ASpin -> m_head s <> 0 -> abandonStep s Tau (s <| consumer := KStore 2 (m_head s) |>).

(** The end of both: the queue is taken, and walked until every link is there. *)
Inductive takeStep (s : ncclIntruQueueMpsc) : Label -> ncclIntruQueueMpsc -> Prop :=
  | take_store mark h : consumer s = KStore mark h -> takeStep s Tau (s <| m_head := 0 |> <| consumer := KExchange mark h |>)
  | take_exchange mark h : consumer s = KExchange mark h ->
      takeStep s Tau (s <| m_tail := mark |> <| consumer := KWalk h h (if m_tail s <=? 2 then 0 else m_tail s) |>)
  | take_wait h x t : consumer s = KWalk h x t -> x <> t -> m_next s x = 0 -> takeStep s Tau s
  | take_next h x t : consumer s = KWalk h x t -> x <> t -> m_next s x <> 0 -> takeStep s Tau (s <| consumer := KWalk h (m_next s x) t |>)
  | take_done h t : consumer s = KWalk h t t -> takeStep s (Dequeued h) (s <| consumer := CIdle |>).

(** The element a producer is enqueuing. *)
Definition owns (p : Producer) (x : Z) : bool :=
  match p with PStore y | PExchange y | PLink y _ => y =? x | _ => false end.

(** The null-terminated list at [p]. *)
Fixpoint nullChain (next : Z -> Z) (p : Z) (l : list Z) : Prop :=
  match l with
  | [] => p = 0
  | x :: l => p = x /\ x <> 0 /\ nullChain next (next x) l
  end.

(** The executions: what was enqueued, in the order of the exchanges, and what was handed to
    the consumer.  A call enqueues an element that no other call is enqueuing and that is
    not in the queue; there is one consumer. *)
Inductive mpscReach : list Z -> list Z -> ncclIntruQueueMpsc -> Prop :=
  | mr_start : mpscReach [] [] ncclIntruQueueMpscConstruct
  | mr_enqueue enq deq s i x : mpscReach enq deq s -> producers s !! i = None -> 2 < x -> x ∉ drop (length deq) enq ->
      (forall j p, producers s !! j = Some p -> owns p x = false) ->
      mpscReach enq deq (s <| producers := <[i := PStore x]> (producers s) |>)
  | mr_dequeue enq deq s w : mpscReach enq deq s -> consumer s = CIdle -> mpscReach enq deq (s <| consumer := DLoad w |>)
  | mr_abandon enq deq s : mpscReach enq deq s -> consumer s = CIdle -> mpscReach enq deq (s <| consumer := ACas |>)
  | mr_tau enq deq s s' : mpscReach enq deq s -> (exists i, enqueueStep i s Tau s') \/ dequeueStep s Tau s' \/ abandonStep s Tau s' \/ takeStep s Tau s' -> mpscReach enq deq s'
  | mr_enqueued enq deq s i x s' : mpscReach enq deq s -> enqueueStep i s (Enqueued x) s' -> mpscReach (enq ++ [x]) deq s'
  | mr_dequeued enq deq s h l s' : mpscReach enq deq s -> dequeueStep s (Dequeued h) s' \/ abandonStep s (Dequeued h) s' \/ takeStep s (Dequeued h) s' ->
      nullChain (m_next s) h l -> mpscReach enq (deq ++ l) s'.

(** * The theorems

    Whatever the interleaving, the consumer gets every element once, in the order of the
    exchanges, as null-terminated lists; and a consumer that sleeps is woken. *)

(** [b] comes right after [a] in [l]. *)
Definition adj (a b : Z) (l : list Z) : Prop := exists i, l !! i = Some a /\ l !! Datatypes.S i = Some b.

Lemma adj_snoc a b l x : adj a b (l ++ [x]) <-> adj a b l \/ last l = Some a /\ b = x.
Proof.
  unfold adj. rewrite last_lookup. split.
  - intros (i & Ha & Hb). destruct (decide (Datatypes.S i < length l)%nat) as [Hi|Hi].
    + left. exists i. rewrite lookup_app_l in Ha by lia. by rewrite lookup_app_l in Hb by lia.
    + pose proof (lookup_lt_Some _ _ _ Hb) as Hl. rewrite length_app in Hl. cbn in Hl. right. assert (Datatypes.S i = length l) as E by lia.
      rewrite lookup_app_l in Ha by lia. rewrite E, lookup_app_r, Nat.sub_diag in Hb by lia. injection Hb as <-. by rewrite <- E.
  - intros [(i & Ha & Hb)|[Ha ->]].
    + exists i. by rewrite !lookup_app_l by (by eapply lookup_lt_Some).
    + exists (pred (length l)). pose proof (lookup_lt_Some _ _ _ Ha) as Hl. rewrite lookup_app_l by lia. split; [done|].
      rewrite lookup_app_r by lia. by replace (Datatypes.S (pred (length l)) - length l)%nat with 0%nat by lia.
Qed.

Lemma adj_in a b l : adj a b l -> a ∈ l /\ b ∈ l.
Proof. intros (i & Ha & Hb). split; by eapply list_elem_of_lookup_2. Qed.

Lemma adj_fun a b b' l : NoDup l -> adj a b l -> adj a b' l -> b = b'.
Proof. intros Hn (i & Ha & Hb) (j & Ha' & Hb'). rewrite (NoDup_lookup _ _ _ _ Hn Ha Ha') in Hb. congruence. Qed.

Lemma adj_inj a a' b l : NoDup l -> adj a b l -> adj a' b l -> a = a'.
Proof. intros Hn (i & Ha & Hb) (j & Ha' & Hb'). assert (Datatypes.S i = Datatypes.S j) as [= ->] by (by eapply NoDup_lookup). congruence. Qed.

Lemma adj_not_last a b l : NoDup l -> adj a b l -> last l <> Some a.
Proof.
  intros Hn (i & Ha & Hb) Hl. rewrite last_lookup in Hl. pose proof (NoDup_lookup _ _ _ _ Hn Ha Hl) as ->. apply lookup_lt_Some in Hb. lia.
Qed.

(** The links of a list are there, or are about to be made. *)
Definition linked (s : ncclIntruQueueMpsc) (l : list Z) : Prop :=
  (forall a b, adj a b l -> m_next s a = b \/ m_next s a = 0 /\ exists i, producers s !! i = Some (PLink b a))
  /\ forall z, last l = Some z -> m_next s z = 0.

(** Where the first element of the queue is. *)
Definition headAt (s : ncclIntruQueueMpsc) (q : list Z) : Prop :=
  match q with
  | [] => m_head s = 0
  | x :: _ => match consumer s with
              | KExchange _ h => h = x /\ m_head s = 0
              | _ => m_head s = x \/ m_head s = 0 /\ exists i u, producers s !! i = Some (PLink x u) /\ u <= 2
              end
  end.

(** What the consumer has in its hands. *)
Definition inHand (s : ncclIntruQueueMpsc) (w q : list Z) : Prop :=
  match consumer s with
  | KStore mark h => w = [] /\ m_head s = h /\ h <> 0 /\ (mark = 0 \/ mark = 2)
  | KExchange mark h => w = [] /\ q <> [] /\ (mark = 0 \/ mark = 2)
  | KWalk h x t => head w = Some h /\ last w = Some t /\ exists k, w !! k = Some x /\ forall j a b, (j < k)%nat -> w !! j = Some a -> w !! Datatypes.S j = Some b -> m_next s a = b
  | _ => w = []
  end.

(** The states in which the tail may say that the consumer waits. *)
Definition maySleep (c : Consumer) : bool :=
  match c with DWait | DAsleep | DReload true | DTurn true | DLocked true | DCas true => true | _ => false end.

Definition waker (asleep : bool) (p : Producer) : bool :=
  match p with PLink _ u => u =? 1 | PLock => true | PNotify => asleep | _ => false end.

(** [w] is what the consumer took and walks, [q] what is in the queue. *)
Record mpscInv (enq deq : list Z) (s : ncclIntruQueueMpsc) (w q : list Z) : Prop := {
  mi_order : enq = deq ++ w ++ q;
  mi_nodup : NoDup (w ++ q);
  mi_above : forall x, x ∈ w ++ q -> 2 < x;
  mi_walk : linked s w;
  mi_queue : linked s q;
  mi_head : headAt s q;
  mi_tail : match last q with Some z => m_tail s = z | None => 0 <= m_tail s <= 2 end;
  mi_hand : inHand s w q;
  mi_link : forall i x u, producers s !! i = Some (PLink x u) -> 0 <= u /\
    if u <=? 2 then head q = Some x /\ m_head s = 0 /\ (forall m h, consumer s <> KExchange m h)
    else m_next s u = 0 /\ (adj u x w \/ adj u x q);
  mi_new : forall i x, producers s !! i = Some (PStore x) \/ producers s !! i = Some (PExchange x) -> 2 < x /\ x ∉ w ++ q;
  mi_null : forall i x, producers s !! i = Some (PExchange x) -> m_next s x = 0;
  mi_own : forall i j p p' x, producers s !! i = Some p -> producers s !! j = Some p' -> owns p x = true -> owns p' x = true -> i = j;
  mi_sleep : m_tail s = 1 -> maySleep (consumer s) = true /\ m_waiting s = true;
  mi_wake : match consumer s with DWait => m_tail s = 1 \/ exists i p, producers s !! i = Some p /\ waker false p = true
            | DAsleep => m_tail s = 1 \/ exists i p, producers s !! i = Some p /\ waker true p = true | _ => True end;
  mi_armed : forall b, consumer s = DCas b -> m_waiting s = true;
  mi_lock : forall i p, producers s !! i = Some p -> waker true p = true -> m_waiting s = true;
}.

Lemma mpsc_start : mpscInv [] [] ncclIntruQueueMpscConstruct [] [].
Proof.
  assert (Hl : linked ncclIntruQueueMpscConstruct []) by (split; [intros a b (i & E & _); done|done]).
  constructor; cbn; try done; try (intros; by rewrite lookup_empty in *); try set_solver.
  apply NoDup_nil. exact I.
Qed.

Section Step.
Context {enq deq : list Z} {s : ncclIntruQueueMpsc} {w q : list Z} (H : mpscInv enq deq s w q).

Lemma tail_empty : m_tail s <= 2 -> q = [].
Proof.
intros Ht. pose proof (mi_tail _ _ _ _ _ H) as Hq. destruct (last q) as [z|] eqn:E; [|by apply last_None].
assert (2 < z); [|lia]. apply (mi_above _ _ _ _ _ H). apply elem_of_app. right. rewrite last_lookup in E. by eapply list_elem_of_lookup_2.
Qed.

Lemma head_nonempty : m_head s <> 0 -> q <> [].
Proof. intros Hh ->. pose proof (mi_head _ _ _ _ _ H) as Hq. done. Qed.

(** A step of the consumer that takes nothing: where it is, the pointer to its signal and
the mark of an empty queue. *)
Definition plain (c : Consumer) : bool := match c with KStore _ _ | KExchange _ _ | KWalk _ _ _ => false | _ => true end.

Lemma inv_plain c b t : plain (consumer s) = true -> plain c = true -> b = true \/ b = m_waiting s -> t = m_tail s \/ q = [] /\ 0 <= t <= 2 ->
(t = 1 -> maySleep c = true /\ b = true) ->
match c with DWait => t = 1 \/ exists i p, producers s !! i = Some p /\ waker false p = true
| DAsleep => t = 1 \/ exists i p, producers s !! i = Some p /\ waker true p = true | DCas _ => b = true | _ => True end ->
mpscInv enq deq (s <| m_waiting := b |> <| m_tail := t |> <| consumer := c |>) w q.
Proof.
intros Ec Hc Hb Ht Hs Hw. destruct H. constructor; try done.
- unfold headAt in *. cbn. destruct q; [done|]. by destruct (consumer s), c.
- destruct Ht as [->|[-> Ht]]; done.
- unfold inHand in *. by destruct (consumer s), c.
- intros i x u E. specialize (mi_link0 i x u E). split; [apply mi_link0|]. destruct (u <=? 2); [|apply mi_link0]. cbn. split_and!; [apply mi_link0..|]. by destruct c.
- cbn. by destruct c.
- cbn. intros b' ->. exact Hw.
- intros i p E Hp. cbn. destruct Hb as [->|Hb]; [done|]. rewrite Hb. by apply (mi_lock0 i p).
Qed.

(** The consumer sees the head. *)
Lemma inv_take m : plain (consumer s) = true -> m_head s <> 0 -> m = 0 \/ m = 2 -> mpscInv enq deq (s <| consumer := KStore m (m_head s) |>) w q.
Proof.
intros Ec Hh Hm. pose proof (head_nonempty Hh) as Hq. destruct H. assert (Hw : w = []) by (unfold inHand in *; by destruct (consumer s)). constructor; try done.
- unfold headAt in *. cbn. destruct q; [done|]. by destruct (consumer s).
- intros i x u E. specialize (mi_link0 i x u E). split; [apply mi_link0|]. destruct (u <=? 2); [|apply mi_link0]. cbn. by split_and!; [apply mi_link0..|].
- cbn. intros Et. destruct Hq. apply tail_empty. lia.
Qed.

Lemma inv_take_store m h : consumer s = KStore m h -> mpscInv enq deq (s <| m_head := 0 |> <| consumer := KExchange m h |>) w q.
Proof.
intros Ec. pose proof tail_empty as Hte. destruct H. unfold inHand in mi_hand0. rewrite Ec in mi_hand0. destruct mi_hand0 as (-> & Hh & Hh0 & Hm).
assert (Hq : q <> []) by (intros ->; unfold headAt in mi_head0; lia). constructor; try done.
- unfold headAt in *. rewrite Ec in mi_head0. cbn. destruct q as [|x q']; [done|]. destruct mi_head0 as [E|[E _]]; [split; [congruence|done]|lia].
- intros i x u E. destruct (mi_link0 i x u E) as [Hu Hl]. split; [done|]. destruct (u <=? 2); [|done]. destruct Hl as (_ & Hl & _). lia.
- intros Et. destruct Hq. apply Hte. cbn in Et. lia.
Qed.

Lemma inv_take_exchange m h : consumer s = KExchange m h ->
mpscInv enq deq (s <| m_tail := m |> <| consumer := KWalk h h (if m_tail s <=? 2 then 0 else m_tail s) |>) q [].
Proof.
intros Ec. pose proof tail_empty as Hte. destruct H. unfold inHand in mi_hand0. rewrite Ec in mi_hand0. destruct mi_hand0 as (-> & Hq & Hm).
unfold headAt in mi_head0. rewrite Ec in mi_head0. destruct q as [|x q']; [done|]. destruct mi_head0 as [-> Hh].
assert (Ht : 2 < m_tail s) by (destruct (decide (m_tail s <= 2)); [by destruct (Hte l)|lia]). rewrite (proj2 (Z.leb_gt _ _)) by done.
destruct (last (x :: q')) as [z|] eqn:El; [|by apply last_None in El]. cbn [app] in *. constructor; try done.
- by rewrite app_nil_r.
- by rewrite app_nil_r.
- by rewrite app_nil_r.
- cbn. lia.
- unfold inHand. cbn. rewrite El. split_and!; [done|by rewrite mi_tail0|]. exists 0%nat. split; [done|]. intros j a b Hj. lia.
- intros i y u E. destruct (mi_link0 i y u E) as [Hu Hl]. split; [done|]. destruct (u <=? 2); [|cbn; tauto]. destruct Hl as (_ & _ & Hno). by destruct (Hno m x).
- rewrite app_nil_r. done.
- cbn. lia.
Qed.

Lemma inv_take_next h x t : consumer s = KWalk h x t -> x <> t -> m_next s x <> 0 -> mpscInv enq deq (s <| consumer := KWalk h (m_next s x) t |>) w q.
Proof.
intros Ec Hx Hn. destruct H. unfold inHand in mi_hand0. rewrite Ec in mi_hand0. destruct mi_hand0 as (Eh & El & k & Ek & Hk). constructor; try done.
- unfold headAt in *. rewrite Ec in mi_head0. by destruct q.
- unfold inHand. cbn. split_and!; [done..|]. destruct (lookup_lt_is_Some_2 w (Datatypes.S k)) as [y Ey].
{ pose proof (lookup_lt_Some _ _ _ Ek). rewrite last_lookup in El. destruct (decide (Datatypes.S k = length w)) as [E|]; [|lia]. rewrite <- E in El. cbn in El. congruence. }
destruct (proj1 mi_walk0 x y) as [E|[E _]]; [by exists k| |done]. exists (Datatypes.S k). rewrite E. split; [done|]. intros j a b Hj Ea Eb.
destruct (decide (j = k)) as [->|]; [congruence|]. apply (Hk j); [lia|done..].
- intros i y u E. specialize (mi_link0 i y u E). split; [apply mi_link0|]. destruct (u <=? 2); [|apply mi_link0]. cbn. by split_and!; [apply mi_link0..|].
- intros E. apply mi_sleep0 in E. by rewrite Ec in E.
Qed.

Lemma walked_chain next l : forall p, head l = Some p -> (forall x, x ∈ l -> x <> 0) -> (forall a b, adj a b l -> next a = b) -> (forall z, last l = Some z -> next z = 0) -> nullChain next p l.
Proof.
induction l as [|x l IH]; intros p; [done|]. intros [= <-] H0 Hadj Hlast. cbn. split_and!; [done|apply H0; set_solver|]. destruct l as [|y l]; [by apply Hlast|].
rewrite (Hadj x y) by by exists 0%nat. apply IH; [done|intros; apply H0; set_solver|intros a b (i & Ea & Eb); apply Hadj; by exists (Datatypes.S i)|intros z Ez; by apply Hlast].
Qed.

Lemma inv_take_done h t : consumer s = KWalk h t t -> nullChain (m_next s) h w /\ mpscInv enq (deq ++ w) (s <| consumer := CIdle |>) [] q.
Proof.
intros Ec. destruct H. unfold inHand in mi_hand0. rewrite Ec in mi_hand0. destruct mi_hand0 as (Eh & El & k & Ek & Hk).
assert (Ekl : k = pred (length w)) by (rewrite last_lookup in El; apply NoDup_app in mi_nodup0 as (Hn & _); by eapply NoDup_lookup).
assert (Hall : forall a b, adj a b w -> m_next s a = b) by (intros a b (j & Ea & Eb); apply (Hk j); [apply lookup_lt_Some in Eb; lia|done..]).
split; [apply walked_chain; [done|intros x Hx; pose proof (mi_above0 x ltac:(set_solver)); lia|done|apply mi_walk0]|]. constructor; try done.
- by rewrite <- app_assoc.
- by apply NoDup_app in mi_nodup0 as (_ & _ & ?).
- intros x Hx. apply mi_above0. set_solver.
- split; [intros a b (j & Ea & _); done|done].
- unfold headAt in *. rewrite Ec in mi_head0. by destruct q.
- intros i x u E. destruct (mi_link0 i x u E) as [Hu Hl]. split; [done|]. destruct (u <=? 2) eqn:E2; [cbn; by split_and!; [apply Hl..|]|]. cbn. destruct Hl as [Hn [Ha|Ha]]; [|tauto].
rewrite (Hall _ _ Ha) in Hn. apply adj_in in Ha as [_ Hx]. pose proof (mi_above0 x ltac:(set_solver)). lia.
- intros i x E. destruct (mi_new0 i x E). set_solver.
- intros E. apply mi_sleep0 in E. by rewrite Ec in E.
Qed.

(** ** The producers *)

(** Changes that keep the links to be made. *)
Lemma linked_mono s' l : (forall a, a ∈ l -> m_next s' a = m_next s a) ->
(forall j x u, x ∈ l -> u ∈ l -> producers s !! j = Some (PLink x u) -> exists j', producers s' !! j' = Some (PLink x u)) -> linked s l -> linked s' l.
Proof.
intros Hn Hp [Ha Hl]. split.
- intros a b Hab. pose proof (adj_in _ _ _ Hab) as [Hina Hinb]. rewrite Hn by done. destruct (Ha a b Hab) as [?|[? [j Ej]]]; [by left|right]. split; [done|]. by apply (Hp j).
- intros z Ez. rewrite Hn; [by apply Hl|]. rewrite last_lookup in Ez. by eapply list_elem_of_lookup_2.
Qed.

Lemma own_insert (P : gmap nat Producer) i p : (forall j k p p' x, P !! j = Some p -> P !! k = Some p' -> owns p x = true -> owns p' x = true -> j = k) ->
(forall j p' x, j <> i -> P !! j = Some p' -> owns p x = true -> owns p' x = false) ->
forall j k p1 p2 x, <[i := p]> P !! j = Some p1 -> <[i := p]> P !! k = Some p2 -> owns p1 x = true -> owns p2 x = true -> j = k.
Proof.
intros Ho Hn j k p1 p2 x E1 E2 H1 H2. apply lookup_insert_Some in E1 as [[<- <-]|[Hj E1]]; apply lookup_insert_Some in E2 as [[<- <-]|[Hk E2]]; [done|..].
- by rewrite (Hn k p2 x) in H2.
- by rewrite (Hn j p1 x) in H1.
- by apply (Ho j k p1 p2 x).
Qed.

(** A producer starts. *)
Lemma inv_begin i x : producers s !! i = None -> 2 < x -> x ∉ w ++ q -> (forall j p, producers s !! j = Some p -> owns p x = false) ->
mpscInv enq deq (s <| producers := <[i := PStore x]> (producers s) |>) w q.
Proof.
intros Ei Hx Hin Hown. assert (Hkeep : forall j p, producers s !! j = Some p -> <[i := PStore x]> (producers s) !! j = Some p) by (intros j p E; rewrite lookup_insert_ne; congruence).
destruct H. constructor; try done.
- apply linked_mono; [done| |done]. intros j y u _ _ E. exists j. by apply Hkeep.
- apply linked_mono; [done| |done]. intros j y u _ _ E. exists j. by apply Hkeep.
- unfold headAt in *. cbn. destruct q; [done|]. destruct (consumer s); try done; (destruct mi_head0 as [?|[? (j & u & E & ?)]]; [by left|right; split; [done|exists j, u; split; [by apply Hkeep|done]]]).
- cbn. intros j y u E. apply lookup_insert_Some in E as [[_ E]|[_ E]]; [done|]. by apply (mi_link0 j).
- cbn. intros j y [E|E]; apply lookup_insert_Some in E as [[_ E]|[_ E]]; [injection E as <-; done|by apply (mi_new0 j); left|done|by apply (mi_new0 j); right].
- cbn. intros j y E. apply lookup_insert_Some in E as [[_ E]|[_ E]]; [done|]. by apply (mi_null0 j).
- apply own_insert; [done|]. intros j p y _ E Hy. cbn in Hy. apply Z.eqb_eq in Hy as <-. by apply (Hown j).
- cbn. destruct (consumer s); try done; (destruct mi_wake0 as [?|(j & p & E & Hp)]; [by left|right; exists j, p; split; [by apply Hkeep|done]]).
- cbn. intros j p E Hp. apply lookup_insert_Some in E as [[_ <-]|[_ E]]; [done|]. by apply (mi_lock0 j p).
Qed.

(** The store to its next field. *)
Lemma inv_store i x : producers s !! i = Some (PStore x) ->
mpscInv enq deq (s <| m_next := setNext (m_next s) x 0 |> <| producers := <[i := PExchange x]> (producers s) |>) w q.
Proof.
intros Ei. destruct H. destruct (mi_new0 i x (or_introl Ei)) as [Hx Hin]. rewrite elem_of_app in Hin.
assert (Hkeep : forall j y u, producers s !! j = Some (PLink y u) -> <[i := PExchange x]> (producers s) !! j = Some (PLink y u)) by (intros j y u E; rewrite lookup_insert_ne; congruence).
assert (Hnext : forall a, a <> x -> setNext (m_next s) x 0 a = m_next s a) by (intros a Ha; unfold setNext; by rewrite (proj2 (Z.eqb_neq _ _))).
constructor; try done.
- apply linked_mono; [intros a Ha; apply Hnext; naive_solver| |done]. intros j y u _ _ E. exists j. by apply Hkeep.
- apply linked_mono; [intros a Ha; apply Hnext; naive_solver| |done]. intros j y u _ _ E. exists j. by apply Hkeep.
- unfold headAt in *. cbn. destruct q; [done|]. destruct (consumer s); try done; (destruct mi_head0 as [?|[? (j & u & E & ?)]]; [by left|right; split; [done|exists j, u; split; [by apply Hkeep|done]]]).
- unfold inHand in *. cbn. destruct (consumer s); try done. destruct mi_hand0 as (? & ? & k & Ek & Hk). split_and!; [done..|]. exists k. split; [done|].
intros j a b Hj Ea Eb. rewrite Hnext; [by apply (Hk j)|]. intros ->. apply Hin. left. by eapply list_elem_of_lookup_2.
- cbn. intros j y u E. apply lookup_insert_Some in E as [[_ E]|[_ E]]; [done|]. destruct (mi_link0 j y u E) as [Hu Hl]. split; [done|]. destruct (u <=? 2); [done|]. split; [|apply Hl].
rewrite Hnext; [apply Hl|]. intros ->. apply Hin. destruct Hl as [_ [Ha|Ha]]; apply adj_in in Ha; tauto.
- cbn. intros j y [E|E]; apply lookup_insert_Some in E as [[_ E]|[_ E]]; [done|by apply (mi_new0 j); left|injection E as <-; split; [done|by rewrite elem_of_app]|by apply (mi_new0 j); right].
- cbn. intros j y E. apply lookup_insert_Some in E as [[_ E]|[_ E]]; [injection E as <-; unfold setNext; by rewrite Z.eqb_refl|].
unfold setNext. destruct (y =? x); [done|]. by apply (mi_null0 j).
- apply own_insert; [done|]. intros j p y Hj E Hy. cbn in Hy. apply Z.eqb_eq in Hy as <-. destruct (owns p x) eqn:Ep; [|done]. destruct Hj. apply (mi_own0 j i p (PStore x) x); [done..|]. cbn. apply Z.eqb_refl.
- cbn. destruct (consumer s); try done; (destruct mi_wake0 as [?|(j & p & E & Hp)]; [by left|right; exists j, p; split; [rewrite lookup_insert_ne; [done|intros ->; rewrite Ei in E; by injection E as <-]|done]]).
- cbn. intros j p E Hp. apply lookup_insert_Some in E as [[_ <-]|[_ E]]; [done|]. by apply (mi_lock0 j p).
Qed.

(** The exchange. *)
Lemma inv_exchange i x : producers s !! i = Some (PExchange x) ->
mpscInv (enq ++ [x]) deq (s <| m_tail := x |> <| producers := <[i := PLink x (m_tail s)]> (producers s) |>) w (q ++ [x]).
Proof.
intros Ei. pose proof tail_empty as Hte. destruct H. destruct (mi_new0 i x (or_intror Ei)) as [Hx Hin]. rewrite elem_of_app in Hin.
set (P' := <[i := PLink x (m_tail s)]> (producers s)). assert (Hnew : P' !! i = Some (PLink x (m_tail s))) by apply lookup_insert_eq.
assert (Hkeep : forall j y u, producers s !! j = Some (PLink y u) -> P' !! j = Some (PLink y u)) by (intros j y u E; subst P'; rewrite lookup_insert_ne; congruence).
assert (Htail : 0 <= m_tail s) by (destruct (last q) as [z|] eqn:El; [|lia]; rewrite mi_tail0; pose proof (mi_above0 z); rewrite last_lookup in El;
apply list_elem_of_lookup_2 in El; set_solver by lia).
constructor; try done.
- by rewrite mi_order0, <- !app_assoc.
- rewrite app_assoc. apply NoDup_app. split_and!; [done|set_solver|apply NoDup_singleton].
- intros y. rewrite !elem_of_app. intros [Hy|[Hy|Hy]]; [apply mi_above0; set_solver..|]. by apply list_elem_of_singleton in Hy as ->.
- apply linked_mono; [done| |done]. intros j y u _ _ E. exists j. by apply Hkeep.
- split.
+ intros a b Hab. apply adj_snoc in Hab as [Hab|[Hl ->]]; cbn.
* destruct (proj1 mi_queue0 a b Hab) as [?|[? [j Ej]]]; [by left|right]. split; [done|]. exists j. by apply Hkeep.
* right. split; [by apply mi_queue0|]. exists i. rewrite Hl in mi_tail0. by rewrite <- mi_tail0.
+ intros z. rewrite last_snoc. intros [= <-]. by apply (mi_null0 i).
- unfold headAt in *. destruct q as [|y q']; cbn [app].
+ assert (Hc : m_head s = x \/ m_head s = 0 /\ exists j u, P' !! j = Some (PLink x u) /\ u <= 2) by (right; split; [done|]; exists i, (m_tail s); cbn in mi_tail0; split; [done|lia]).
unfold inHand in mi_hand0. cbn. destruct (consumer s); try done. by destruct mi_hand0 as (_ & ? & _).
+ cbn. destruct (consumer s); try done; (destruct mi_head0 as [?|[? (j & u & E & ?)]]; [by left|right; split; [done|exists j, u; split; [by apply Hkeep|done]]]).
- cbn. by rewrite last_snoc.
- unfold inHand in *. cbn. destruct (consumer s); try done. destruct mi_hand0 as (? & ? & ?). split_and!; [done| |done]. by destruct q.
- cbn. intros j y u E. apply lookup_insert_Some in E as [[_ E]|[_ E]].
+ injection E as <- <-. split; [done|]. destruct (m_tail s <=? 2) eqn:E2.
* pose proof (Hte ltac:(lia)) as ->. split_and!; [done|exact mi_head0|]. intros m h Ec. unfold inHand in mi_hand0. rewrite Ec in mi_hand0. by destruct mi_hand0 as (_ & ? & _).
* destruct (last q) as [z|] eqn:El; [|lia]. subst z. split; [by apply mi_queue0|]. right. apply adj_snoc. by right.
+ destruct (mi_link0 j y u E) as [Hu Hl]. split; [done|]. destruct (u <=? 2).
* destruct Hl as (Hh & ? & ?). split_and!; [|done..]. by destruct q.
* split; [apply Hl|]. rewrite adj_snoc. tauto.
- cbn. intros j y E. assert (j <> i /\ (producers s !! j = Some (PStore y) \/ producers s !! j = Some (PExchange y))) as [Hj E'].
{ destruct E as [E|E]; apply lookup_insert_Some in E as [[_ E]|[? E]]; done || (split; [done|tauto]). }
destruct (mi_new0 j y E') as [Hy Hyi]. split; [done|]. rewrite app_assoc, elem_of_app. intros [?|Hyx]; [done|]. apply list_elem_of_singleton in Hyx as ->. destruct Hj.
destruct E' as [E'|E']; eapply (mi_own0 j i _ _ x E' Ei); cbn; apply Z.eqb_refl.
- cbn. intros j y E. apply lookup_insert_Some in E as [[_ E]|[_ E]]; [done|]. by apply (mi_null0 j).
- apply own_insert; [done|]. intros j p y Hj E Hy. cbn in Hy. apply Z.eqb_eq in Hy as <-. destruct (owns p x) eqn:Ep; [|done]. destruct Hj. apply (mi_own0 j i p (PExchange x) x); [done..|]. cbn. apply Z.eqb_refl.
- cbn. lia.
- cbn. destruct (decide (m_tail s = 1)) as [E1|E1].
+ assert (Hwk : forall b, exists j p, P' !! j = Some p /\ waker b p = true) by (intros b; exists i; eexists; split; [exact Hnew|]; cbn; by rewrite E1).
destruct (consumer s); try done; by right.
+ destruct (consumer s); try done; (destruct mi_wake0 as [?|(j & p & E & Hp)]; [done|right; exists j, p; split; [subst P'; rewrite lookup_insert_ne; [done|intros ->; rewrite Ei in E; by injection E as <-]|done]]).
- cbn. intros j p E Hp. apply lookup_insert_Some in E as [[_ <-]|[_ E]]; [|by apply (mi_lock0 j p)]. cbn in Hp. apply mi_sleep0. lia.
Qed.

(** The links.  [P'] is what the producers are after the producer [i] made its link. *)
Section Linked.
Context (i : nat) (x u : Z) (P' : gmap nat Producer) (Ei : producers s !! i = Some (PLink x u)).
Context (Hsub : forall j p, P' !! j = Some p -> j <> i /\ producers s !! j = Some p \/ p = PLock /\ u = 1).
Context (Hkeep : forall j p, j <> i -> producers s !! j = Some p -> P' !! j = Some p).
Context (Hlock : u = 1 -> P' !! i = Some PLock).

Lemma linked_own j k p p' y : P' !! j = Some p -> P' !! k = Some p' -> owns p y = true -> owns p' y = true -> j = k.
Proof.
intros E1 E2 H1 H2. destruct (Hsub j p E1) as [[_ E1']|[-> _]]; [|done]. destruct (Hsub k p' E2) as [[_ E2']|[-> _]]; [|done].
by apply (mi_own _ _ _ _ _ H j k p p' y).
Qed.

Lemma linked_wake b : (exists j p, producers s !! j = Some p /\ waker b p = true) -> exists j p, P' !! j = Some p /\ waker b p = true.
Proof.
intros (j & p & E & Hp). destruct (decide (j = i)) as [->|Hj]; [|exists j, p; split; [by apply Hkeep|done]].
rewrite Ei in E. injection E as <-. cbn in Hp. exists i, PLock. split; [apply Hlock; lia|done].
Qed.

Lemma linked_waiting j p : P' !! j = Some p -> waker true p = true -> m_waiting s = true.
Proof.
intros E Hp. destruct (Hsub j p E) as [[_ E']|[-> Hu]]; [by apply (mi_lock _ _ _ _ _ H j p)|]. apply (mi_lock _ _ _ _ _ H i _ Ei). cbn. lia.
Qed.

Lemma linked_other j y v : P' !! j = Some (PLink y v) -> j <> i /\ y <> x /\ producers s !! j = Some (PLink y v).
Proof.
intros E. destruct (Hsub j _ E) as [[Hj E']|[? _]]; [|done]. split_and!; [done| |done]. intros ->. apply Hj.
apply (mi_own _ _ _ _ _ H j i _ _ x E' Ei); cbn; apply Z.eqb_refl.
Qed.

Lemma linked_new j y : P' !! j = Some (PStore y) \/ P' !! j = Some (PExchange y) -> producers s !! j = Some (PStore y) \/ producers s !! j = Some (PExchange y).
Proof. intros [E|E]; (destruct (Hsub j _ E) as [[_ E']|[? _]]; [tauto|done]). Qed.

Lemma inv_link_head : u <= 2 -> mpscInv enq deq (s <| m_head := x |> <| producers := P' |>) w q.
Proof.
intros Hu. pose proof linked_own as Lown. pose proof linked_wake as Lwake. pose proof linked_waiting as Lwait. pose proof linked_other as Lother. pose proof linked_new as Lnew.
destruct H. destruct (mi_link0 i x u Ei) as [Hu0 Hl]. rewrite (proj2 (Z.leb_le _ _)) in Hl by done. destruct Hl as (Hq & Hh & Hc).
assert (Hlk : forall l, (forall a, a ∈ l -> 2 < a) -> linked s l -> linked (s <| m_head := x |> <| producers := P' |>) l).
{ intros l Hab. apply linked_mono; [done|]. intros j y v _ Hv E. exists j. apply Hkeep; [|done]. intros ->. rewrite Ei in E. injection E as <- <-. apply Hab in Hv. lia. }
constructor; try done.
- apply Hlk; [|done]. intros a Ha. apply mi_above0. set_solver.
- apply Hlk; [|done]. intros a Ha. apply mi_above0. set_solver.
- unfold headAt. cbn. destruct q as [|y q']; [done|]. injection Hq as ->. destruct (consumer s) eqn:Ec; try (by left). by destruct (Hc mark head).
- unfold inHand in *. cbn. destruct (consumer s); try done. destruct mi_hand0 as (_ & ? & ? & _). lia.
- cbn. intros j y v E. destruct (Lother j y v E) as (Hj & Hy & E'). destruct (mi_link0 j y v E') as [Hv Hl]. split; [done|]. destruct (v <=? 2); [|done].
destruct Hl as (Hq' & _). congruence.
- cbn. intros j y E. by apply (mi_new0 j), Lnew.
- cbn. intros j y E. apply (mi_null0 j). destruct (Hsub j _ E) as [[_ ?]|[? _]]; done.
- cbn. destruct (consumer s); try done; (destruct mi_wake0 as [?|Hw]; [by left|right; by apply Lwake]).
Qed.

Lemma inv_link_next : 2 < u -> mpscInv enq deq (s <| m_next := setNext (m_next s) u x |> <| producers := P' |>) w q.
Proof.
intros Hu. pose proof linked_own as Lown. pose proof linked_wake as Lwake. pose proof linked_waiting as Lwait. pose proof linked_other as Lother. pose proof linked_new as Lnew.
destruct H. destruct (mi_link0 i x u Ei) as [Hu0 Hl]. rewrite (proj2 (Z.leb_gt _ _)) in Hl by done. destruct Hl as [Hn Hadj].
assert (Hset : setNext (m_next s) u x u = x) by (unfold setNext; by rewrite Z.eqb_refl).
assert (Hother : forall a, a <> u -> setNext (m_next s) u x a = m_next s a) by (intros a Ha; unfold setNext; by rewrite (proj2 (Z.eqb_neq _ _))).
apply NoDup_app in mi_nodup0 as Hnd. destruct Hnd as (Hndw & Hdis & Hndq).
(* the successor of [u] is [x] *)
assert (Hsucc : forall l b, (l = w \/ l = q) -> adj u b l -> b = x).
{ intros l b Hlw Hb. destruct Hlw as [->| ->], Hadj as [Ha|Ha]; [by apply (adj_fun u _ _ w)| | |by apply (adj_fun u _ _ q)];
apply adj_in in Hb as [Hb _], Ha as [Ha _]; [by destruct (Hdis u)|by destruct (Hdis u)]. }
assert (Hlast : forall l z, (l = w \/ l = q) -> last l = Some z -> z <> u).
{ intros l z Hlw Hz ->. assert (u ∈ l) by (rewrite last_lookup in Hz; by eapply list_elem_of_lookup_2). destruct Hlw as [->| ->], Hadj as [Ha|Ha];
[by apply (adj_not_last u x w)|apply adj_in in Ha as [Ha _]; by destruct (Hdis u)|apply adj_in in Ha as [Ha _]; by destruct (Hdis u)|by apply (adj_not_last u x q)]. }
assert (Hlk : forall l, (l = w \/ l = q) -> linked s l -> linked (s <| m_next := setNext (m_next s) u x |> <| producers := P' |>) l).
{ intros l Hlw [Ha Hl]. split; cbn.
- intros a b Hab. destruct (decide (a = u)) as [->|Hau]; [left; rewrite Hset; symmetry; by apply (Hsucc l)|]. rewrite Hother by done.
destruct (Ha a b Hab) as [?|[? [j Ej]]]; [by left|right; split; [done|exists j; apply Hkeep; [intros ->; rewrite Ei in Ej; congruence|done]]].
- intros z Hz. rewrite Hother by by apply (Hlast l). by apply Hl. }
constructor; try done.
- apply Hlk; [by left|done].
- apply Hlk; [by right|done].
- unfold headAt in *. cbn. destruct q; [done|]. destruct (consumer s); try done; (destruct mi_head0 as [?|[? (j & v & E & ?)]]; [by left|right; split; [done|exists j, v; split; [apply Hkeep; [intros ->; rewrite Ei in E; injection E as <- <-; lia|done]|done]]]).
- unfold inHand in *. cbn. destruct (consumer s); try done. destruct mi_hand0 as (? & ? & k & Ek & Hk). split_and!; [done..|]. exists k. split; [done|].
intros j a b Hj Ea Eb. destruct (decide (a = u)) as [->|]; [rewrite Hset; symmetry; apply (Hsucc w); [by left|by exists j]|]. rewrite Hother by done. by apply (Hk j).
- cbn. intros j y v E. destruct (Lother j y v E) as (Hj & Hy & E'). destruct (mi_link0 j y v E') as [Hv Hl]. split; [done|]. destruct (v <=? 2); [done|].
destruct Hl as [Hnv Hav]. split; [|done]. rewrite Hother; [done|]. intros ->. apply Hy. destruct Hav as [Ha|Ha]; [by apply (Hsucc w); [left|]|by apply (Hsucc q); [right|]].
- cbn. intros j y E. by apply (mi_new0 j), Lnew.
- cbn. intros j y E. destruct (Hsub j _ E) as [[_ E']|[? _]]; [|done]. rewrite Hother; [by apply (mi_null0 j)|]. intros ->. destruct (mi_new0 j u (or_intror E')) as [_ Hnin]. apply Hnin.
apply elem_of_app. destruct Hadj as [Ha|Ha]; apply adj_in in Ha; tauto.
- cbn. destruct (consumer s); try done; (destruct mi_wake0 as [?|Hw]; [by left|right; by apply Lwake]).
Qed.
End Linked.

(** A producer that only has to signal, or has done so. *)
Lemma inv_signal i P' : producers s !! i = Some PLock \/ producers s !! i = Some PNotify ->
(forall j p, P' !! j = Some p -> j <> i /\ producers s !! j = Some p \/ p = PNotify) -> (forall j p, j <> i -> producers s !! j = Some p -> P' !! j = Some p) ->
match consumer s with DWait => producers s !! i = Some PNotify | DAsleep => P' !! i = Some PNotify | _ => True end ->
mpscInv enq deq (s <| producers := P' |>) w q.
Proof.
intros Ei Hsub Hkeep Hc. destruct H.
assert (Hold : forall j p y, P' !! j = Some p -> owns p y = true -> producers s !! j = Some p) by (intros j p y E Hp; destruct (Hsub j p E) as [[_ ?]| ->]; done).
assert (Hlink : forall j y u, producers s !! j = Some (PLink y u) -> P' !! j = Some (PLink y u)) by (intros j y u E; apply Hkeep; [|done]; intros ->; destruct Ei; congruence).
constructor; try done.
- apply linked_mono; [done| |done]. intros j y u _ _ E. exists j. by apply Hlink.
- apply linked_mono; [done| |done]. intros j y u _ _ E. exists j. by apply Hlink.
- unfold headAt in *. cbn. destruct q; [done|]. destruct (consumer s); try done; (destruct mi_head0 as [?|[? (j & u & E & ?)]]; [by left|right; split; [done|exists j, u; split; [by apply Hlink|done]]]).
- cbn. intros j y u E. apply (mi_link0 j). apply (Hold _ _ y E). cbn. apply Z.eqb_refl.
- cbn. intros j y E. apply (mi_new0 j). destruct E as [E|E]; [left|right]; apply (Hold _ _ y E); cbn; apply Z.eqb_refl.
- cbn. intros j y E. apply (mi_null0 j). apply (Hold _ _ y E). cbn. apply Z.eqb_refl.
- cbn. intros j k p p' y E1 E2 H1 H2. by apply (mi_own0 j k p p' y (Hold _ _ _ E1 H1) (Hold _ _ _ E2 H2)).
- cbn. destruct (consumer s); try done; (destruct mi_wake0 as [?|(j & p & E & Hp)]; [by left|right]).
+ exists j, p. split; [|done]. apply Hkeep; [|done]. intros ->. rewrite Hc in E. by injection E as <-.
+ by exists i, PNotify.
- cbn. intros j p E Hp. destruct (Hsub j p E) as [[_ E']| ->]; [by apply (mi_lock0 j p)|]. destruct Ei as [Ei|Ei]; by apply (mi_lock0 i _ Ei).
Qed.

Lemma plain_wake : consumer s = DAsleep -> mpscInv enq deq (s <| consumer := DReload true |>) w q.
Proof.
intros Ec. pose proof (inv_plain (DReload true) (m_waiting s) (m_tail s)) as Hp. rewrite Ec in Hp. destruct s as [h t b n p c]; cbn in *. apply Hp; try done; [by right|by left|].
intros Et. split; [done|]. by apply (mi_sleep _ _ _ _ _ H).
Qed.
End Step.

(** ** The executions *)

Lemma plain_same s c b t : m_waiting s = b -> m_tail s = t -> s <| m_waiting := b |> <| m_tail := t |> <| consumer := c |> = s <| consumer := c |>.
Proof. destruct s. cbn. by intros -> ->. Qed.

Lemma inv_enqueue enq deq s w q i l s' : mpscInv enq deq s w q -> enqueueStep i s l s' ->
  match l with Tau => mpscInv enq deq s' w q | Enqueued x => mpscInv (enq ++ [x]) deq s' w (q ++ [x]) | Dequeued _ => False end.
Proof.
  intros H Hs. destruct Hs as [x E|x E|x u E Hu|x u E Hu|E Hm|E].
  - by apply (inv_store H).
  - by apply (inv_exchange H).
  - destruct (u =? 1) eqn:E1; apply (inv_link_head H i x u); try done; try lia.
    + intros j p Ej. apply lookup_insert_Some in Ej as [[_ <-]|[? ?]]; [right; split; [done|lia]|by left].
    + intros j p Hj Ej. by rewrite lookup_insert_ne.
    + intros _. apply lookup_insert_eq.
    + intros j p Ej. apply lookup_delete_Some in Ej as [? ?]. by left.
    + intros j p Hj Ej. by rewrite lookup_delete_ne.
  - apply (inv_link_next H i x u); try done; try lia.
    + intros j p Ej. apply lookup_delete_Some in Ej as [? ?]. by left.
    + intros j p Hj Ej. by rewrite lookup_delete_ne.
  - apply (inv_signal H i); [by left| | |].
    + intros j p Ej. apply lookup_insert_Some in Ej as [[_ <-]|[? ?]]; [by right|by left].
    + intros j p Hj Ej. by rewrite lookup_insert_ne.
    + revert Hm. destruct (consumer s); try done. intros _. apply lookup_insert_eq.
  - assert (Hd : forall s0 : ncclIntruQueueMpsc, producers s0 = producers s -> consumer s0 <> DAsleep -> mpscInv enq deq s0 w q -> mpscInv enq deq (s0 <| producers := delete i (producers s) |>) w q).
    { intros s0 Ep Hc H0. apply (inv_signal H0 i); [right; congruence| | |].
      - intros j p Ej. apply lookup_delete_Some in Ej as [? ?]. left. by rewrite Ep.
      - intros j p Hj Ej. rewrite lookup_delete_ne by done. by rewrite <- Ep.
      - destruct (consumer s0); try done. congruence. }
    destruct (decide (consumer s = DAsleep)) as [Ec|Ec].
    + pose proof (plain_wake H Ec) as Hw. specialize (Hd (s <| consumer := DReload true |>)). clear H. destruct s as [h t b n p c]. cbn in *. subst c. by apply Hd.
    + specialize (Hd s eq_refl Ec H). replace (s <| producers := _ |> <| consumer := _ |>) with (s <| producers := delete i (producers s) |>); [done|].
      destruct s as [h t b n p c]; cbn in *. by destruct c.
Qed.

Lemma inv_dequeue enq deq s w q l s' : mpscInv enq deq s w q -> dequeueStep s l s' \/ abandonStep s l s' ->
  match l with Tau => mpscInv enq deq s' w q | Enqueued _ => False | Dequeued h => h = 0 /\ mpscInv enq deq s' w q end.
Proof.
  intros H Hs. pose proof (mi_sleep _ _ _ _ _ H) as Hsl. pose proof (mi_wake _ _ _ _ _ H) as Hw. pose proof (tail_empty H) as Hte.
  assert (Hp : forall c, plain (consumer s) = true -> plain c = true -> (m_tail s = 1 -> maySleep c = true) ->
    match c with DWait | DCas _ => False | DAsleep => m_tail s = 1 \/ exists i p, producers s !! i = Some p /\ waker true p = true | _ => True end -> mpscInv enq deq (s <| consumer := c |>) w q).
  { intros c E1 E2 Hc1 Hc2. rewrite <- (plain_same s c (m_waiting s) (m_tail s) eq_refl eq_refl). apply (inv_plain H); [done|done|by right|by left| |by destruct c].
    intros Et. split; [by apply Hc1|by apply Hsl]. }
  assert (Hstart : forall c, maySleep (consumer s) = false -> m_tail s = 1 -> maySleep c = true) by (intros c Hc Et; apply Hsl in Et as [Et _]; congruence).
  assert (Hq : m_tail s <= 2 -> 0 <= m_tail s <= 2) by (intros Ht; pose proof (mi_tail _ _ _ _ _ H) as Hm; rewrite (Hte Ht) in Hm; exact Hm).
  destruct Hs as [Hs|Hs]; destruct Hs as [b Ec Eh|Ec Eh|Ec Eh|b Ec|b Ec|b Ec|b Ec Et|b Ec Et|Ec|Ec|b Ec Eh|b Ec Eh] || destruct Hs as [Ec Et|Ec Et|Ec Eh|Ec Eh]; rewrite Ec in *.
  - apply (inv_take H); [by rewrite Ec|done|by left].
  - split; [done|]. by apply Hp; [..|apply Hstart|].
  - by apply Hp; [..|apply Hstart|].
  - apply Hp; [done..|intros Et; apply Hsl in Et as [Et _]; by destruct b|done].
  - apply Hp; [done..|intros Et; apply Hsl in Et as [Et _]; by destruct b|done].
  - assert (Hb : m_tail s = 1 -> b = true) by (intros Et; apply Hsl in Et as [Et _]; by destruct b).
    pose proof (inv_plain H (DCas b) true (m_tail s)) as Hi. rewrite Ec in Hi. replace (s <| m_waiting := true |> <| consumer := DCas b |>) with (s <| m_waiting := true |> <| m_tail := m_tail s |> <| consumer := DCas b |>) by by destruct s.
    apply Hi; [done|done|by left|by left| |done]. intros Et. by rewrite (Hb Et).
  - pose proof (inv_plain H DWait (m_waiting s) 1) as Hi. rewrite Ec in Hi. replace (s <| m_tail := 1 |> <| consumer := DWait |>) with (s <| m_waiting := m_waiting s |> <| m_tail := 1 |> <| consumer := DWait |>) by by destruct s.
    apply Hi; [done|done|by right|right; split; [apply Hte; destruct b; lia|lia]| |by left]. intros _. split; [done|]. by apply (mi_armed _ _ _ _ _ H b).
  - apply Hp; [done..|intros Et'; apply Hsl in Et' as [Et' _]; by destruct b|done].
  - apply Hp; [done..|]. destruct Hw as [?|(i & p & E & Hp')]; [by left|right]. exists i, p. split; [done|]. by destruct p.
  - by apply Hp.
  - apply Hp; [done..|intros Et; apply Hsl in Et as [Et _]; by destruct b|done].
  - apply (inv_take H); [by rewrite Ec|done|by left].
  - split; [done|]. pose proof (inv_plain H CIdle (m_waiting s) 2) as Hi. rewrite Ec in Hi. replace (s <| m_tail := 2 |> <| consumer := CIdle |>) with (s <| m_waiting := m_waiting s |> <| m_tail := 2 |> <| consumer := CIdle |>) by by destruct s.
    apply Hi; [done|done|by right|right; split; [apply Hte; lia|lia]|lia|done].
  - by apply Hp; [..|apply Hstart|].
  - exact H.
  - apply (inv_take H); [by rewrite Ec|done|by right].
Qed.

Lemma inv_taking enq deq s w q l s' : mpscInv enq deq s w q -> takeStep s l s' ->
  match l with Tau => exists w' q', mpscInv enq deq s' w' q' | Enqueued _ => False | Dequeued h => nullChain (m_next s) h w /\ mpscInv enq (deq ++ w) s' [] q end.
Proof.
  intros H Hs. destruct Hs as [m h Ec|m h Ec|h x t Ec Hx Hn|h x t Ec Hx Hn|h t Ec].
  - exists w, q. by apply (inv_take_store H).
  - exists q, []. by apply (inv_take_exchange H).
  - by exists w, q.
  - exists w, q. by apply (inv_take_next H).
  - by apply (inv_take_done H h t).
Qed.

Lemma nullChain_unique next l : forall p l', nullChain next p l -> nullChain next p l' -> l = l'.
Proof.
  induction l as [|x l IH]; intros p [|y l']; cbn; [done|..].
  - by intros -> (-> & H & _).
  - by intros (-> & H & _) ->.
  - intros (-> & _ & H) (-> & _ & H'). f_equal. by apply (IH _ _ H H').
Qed.

Lemma reach_inv enq deq s : mpscReach enq deq s -> exists w q, mpscInv enq deq s w q.
Proof.
  induction 1 as [|enq deq s i x _ (w & q & H) Ei Hx Hin Hown|enq deq s b _ (w & q & H) Ec|enq deq s _ (w & q & H) Ec|enq deq s s' _ (w & q & H) Hs|enq deq s i x s' _ (w & q & H) Hs|enq deq s h l s' _ (w & q & H) Hs Hl].
  - exists [], []. apply mpsc_start.
  - exists w, q. apply inv_begin; [done..| |done]. rewrite (mi_order _ _ _ _ _ H), drop_app_length in Hin. done.
  - exists w, q. rewrite <- (plain_same s _ (m_waiting s) (m_tail s) eq_refl eq_refl). apply (inv_plain H); [by rewrite Ec|done|by right|by left| |done].
    intros Et. apply (mi_sleep _ _ _ _ _ H) in Et as [Et _]. by rewrite Ec in Et.
  - exists w, q. rewrite <- (plain_same s _ (m_waiting s) (m_tail s) eq_refl eq_refl). apply (inv_plain H); [by rewrite Ec|done|by right|by left| |done].
    intros Et. apply (mi_sleep _ _ _ _ _ H) in Et as [Et _]. by rewrite Ec in Et.
  - destruct Hs as [[i Hs]|[Hs|[Hs|Hs]]].
    + exists w, q. exact (inv_enqueue _ _ _ _ _ _ _ _ H Hs).
    + exists w, q. exact (inv_dequeue _ _ _ _ _ _ _ H (or_introl Hs)).
    + exists w, q. exact (inv_dequeue _ _ _ _ _ _ _ H (or_intror Hs)).
    + exact (inv_taking _ _ _ _ _ _ _ H Hs).
  - exists w, (q ++ [x]). exact (inv_enqueue _ _ _ _ _ _ _ _ H Hs).
  - assert (Hnull : h = 0 -> l = []) by (intros ->; destruct l as [|y l]; [done|]; cbn in Hl; by destruct Hl as (<- & ? & _)).
    destruct Hs as [Hs|[Hs|Hs]].
    + destruct (inv_dequeue _ _ _ _ _ _ _ H (or_introl Hs)) as [Hh H']. exists w, q. by rewrite (Hnull Hh), app_nil_r.
    + destruct (inv_dequeue _ _ _ _ _ _ _ H (or_intror Hs)) as [Hh H']. exists w, q. by rewrite (Hnull Hh), app_nil_r.
    + destruct (inv_taking _ _ _ _ _ _ _ H Hs) as [Hc H']. exists [], q. by rewrite (nullChain_unique _ _ _ _ Hl Hc).
Qed.

(** ** What the queue promises *)

(** The next access of a producer, whatever the others do, except that it waits for the mutex. *)
Lemma linked_done s l : (forall i p, producers s !! i <> Some p) -> linked s l -> forall a b, adj a b l -> m_next s a = b.
Proof. intros Hno [Ha _] a b Hab. destruct (Ha a b Hab) as [?|[_ [i E]]]; [done|]. by destruct (Hno i _ E). Qed.

(** C25. Whatever the interleaving of the enqueuing threads and of the consumer, the consumer
    has been given the elements in the order of the exchanges, each once and none before its
    exchange, and a list it is about to get is null-terminated and holds the next of them;
    when no call is under way the elements that are left are the null-terminated list at the
    head of the queue, and the queue is empty exactly when none is left. *)
Theorem Mpsc_fifo enq deq s : mpscReach enq deq s ->
  exists rest, enq = deq ++ rest /\ NoDup rest
  /\ (forall h t, consumer s = KWalk h t t -> exists l rest', l <> [] /\ nullChain (m_next s) h l /\ rest = l ++ rest')
  /\ (consumer s = CIdle -> producers s = ∅ -> nullChain (m_next s) (m_head s) rest /\ (ncclIntruQueueMpscEmpty s = true <-> rest = [])).
Proof.
  intros Hr. destruct (reach_inv _ _ _ Hr) as (w & q & H). exists (w ++ q). split_and!; [apply H|apply H| |].
  - intros h t Ec. destruct (inv_take_done H h t Ec) as [Hch _]. exists w, q. split_and!; [|done|done]. intros ->. pose proof (mi_hand _ _ _ _ _ H) as Hh. unfold inHand in Hh. rewrite Ec in Hh. by destruct Hh.
  - intros Ec Ep. pose proof (mi_hand _ _ _ _ _ H) as Hw. unfold inHand in Hw. rewrite Ec in Hw. subst w. cbn [app].
    assert (Hno : forall i p, producers s !! i <> Some p) by (intros i p E; by rewrite Ep, lookup_empty in E).
    pose proof (mi_head _ _ _ _ _ H) as Hh. unfold headAt in Hh. rewrite Ec in Hh. pose proof (mi_tail _ _ _ _ _ H) as Ht. unfold ncclIntruQueueMpscEmpty. split.
    + destruct q as [|x q]; [done|]. destruct Hh as [Hh|[_ (i & u & E & _)]]; [|by destruct (Hno i _ E)]. apply (walked_chain H); [by rewrite Hh| | |apply (mi_queue _ _ _ _ _ H)].
      * intros y Hy. pose proof (mi_above _ _ _ _ _ H y Hy). lia.
      * apply (linked_done s); [done|]. apply (mi_queue _ _ _ _ _ H).
    + split; [intros E; apply Z.leb_le in E; by apply (tail_empty H)|]. intros ->. cbn in Ht. lia.
Qed.

(** The steps of one producer. *)
Definition producerSteps (i : nat) : ncclIntruQueueMpsc -> ncclIntruQueueMpsc -> Prop := rtc (fun s s' => exists l, enqueueStep i s l s').

Lemma signal_wakes s i : producers s !! i = Some PLock \/ producers s !! i = Some PNotify -> consumer s = DAsleep ->
  exists s', producerSteps i s s' /\ consumer s' = DReload true.
Proof.
  intros Hp Ec. assert (Hn : forall s0, producers s0 !! i = Some PNotify -> consumer s0 = DAsleep -> exists s', producerSteps i s0 s' /\ consumer s' = DReload true).
  { intros s0 E0 Ec0. eexists. split; [apply rtc_once; exists Tau; by apply enq_notify|]. cbn. by rewrite Ec0. }
  destruct Hp as [E|E]; [|by apply Hn]. destruct (Hn (s <| producers := <[i := PNotify]> (producers s) |>)) as (s' & Hs & Hc); [apply lookup_insert_eq|done|].
  exists s'. split; [|done]. apply (rtc_l _ _ (s <| producers := <[i := PNotify]> (producers s) |>)); [exists Tau; apply enq_lock; [done|by rewrite Ec]|done].
Qed.

(** C28. No wake-up is lost, and no wait is for nothing.  When the consumer sleeps, either
    every element enqueued has been given to it, or one of the enqueuing threads, by its own
    next steps alone, wakes it; and when the consumer spins for a link, the thread that makes
    it has only that store to do.  A thread that signals always finds the consumer's signal. *)
Theorem Mpsc_no_lost_wakeup enq deq s : mpscReach enq deq s ->
  (consumer s = DAsleep -> enq = deq \/ exists i s', producerSteps i s s' /\ consumer s' = DReload true)
  /\ (forall h x t, consumer s = KWalk h x t -> x <> t -> m_next s x = 0 -> exists i y, producers s !! i = Some (PLink y x))
  /\ (forall i, producers s !! i = Some PLock \/ producers s !! i = Some PNotify -> m_waiting s = true).
Proof.
  intros Hr. destruct (reach_inv _ _ _ Hr) as (w & q & H). split_and!.
  - intros Ec. pose proof (mi_wake _ _ _ _ _ H) as Hw. rewrite Ec in Hw. destruct Hw as [Et|(i & p & E & Hp)].
    + left. rewrite (mi_order _ _ _ _ _ H), (tail_empty H) by lia. pose proof (mi_hand _ _ _ _ _ H) as Hh. unfold inHand in Hh. rewrite Ec in Hh. subst w. by rewrite !app_nil_r.
    + right. exists i. destruct p as [x|x|x u| |]; try discriminate.
      * cbn in Hp. apply Z.eqb_eq in Hp as ->. set (s1 := s <| m_head := x |> <| producers := <[i := PLock]> (producers s) |>).
        destruct (signal_wakes s1 i) as (s' & Hs & Hc); [left; apply lookup_insert_eq|done|]. exists s'. split; [|done]. apply (rtc_l _ _ s1); [exists Tau; exact (enq_head i s x 1 E ltac:(lia))|done].
      * apply signal_wakes; [by left|done].
      * apply signal_wakes; [by right|done].
  - intros h x t Ec Hx Hn. pose proof (mi_hand _ _ _ _ _ H) as Hh. unfold inHand in Hh. rewrite Ec in Hh. destruct Hh as (_ & El & k & Ek & _).
    destruct (lookup_lt_is_Some_2 w (Datatypes.S k)) as [y Ey].
    { pose proof (lookup_lt_Some _ _ _ Ek). rewrite last_lookup in El. destruct (decide (Datatypes.S k = length w)) as [E|]; [|lia]. rewrite <- E in El. cbn in El. congruence. }
    assert (Ha : adj x y w) by by exists k. destruct (proj1 (mi_walk _ _ _ _ _ H) x y Ha) as [E|[_ [i E]]]; [|by exists i, y].
    apply adj_in in Ha as [_ Hy]. pose proof (mi_above _ _ _ _ _ H y ltac:(set_solver)). lia.
  - intros i [E|E]; by apply (mi_lock _ _ _ _ _ H i _ E).
Qed.

(** ** Instances *)

Lemma owns_only (P : gmap nat Producer) i q x : P = {[ i := q ]} -> owns q x = false -> forall j p, P !! j = Some p -> owns p x = false.
Proof. intros -> Hq j p E. by apply lookup_singleton_Some in E as [_ <-]. Qed.

Ltac premise := first [reflexivity | cbn; lia].
Ltac producer_tau R c := eapply mr_tau in R; [|left; eexists; eapply c; premise].
Ltac producer_enq R c := eapply mr_enqueued in R; [|eapply c; premise].
Ltac dequeue_tau R c := eapply mr_tau in R; [|right; left; eapply c; premise].
Ltac abandon_tau R c := eapply mr_tau in R; [|right; right; left; eapply c; premise].
Ltac take_tau R c := eapply mr_tau in R; [|right; right; right; eapply c; premise].

(** Two threads enqueue; the consumer takes the queue before the second link is made. *)
Lemma Mpsc_fifo_witness : exists s, mpscReach [10; 20] [] s /\ consumer s = KWalk 10 20 20 /\
  exists rest, [10; 20] = [] ++ rest /\ NoDup rest
  /\ (forall h t, consumer s = KWalk h t t -> exists l rest', l <> [] /\ nullChain (m_next s) h l /\ rest = l ++ rest')
  /\ (consumer s = CIdle -> producers s = ∅ -> nullChain (m_next s) (m_head s) rest /\ (ncclIntruQueueMpscEmpty s = true <-> rest = [])).
Proof.
  pose proof mr_start as R.
  apply (mr_enqueue _ _ _ 0 10) in R; [|reflexivity|lia|apply not_elem_of_nil|intros j p E; discriminate E].
  apply (mr_enqueue _ _ _ 1 20) in R; [|reflexivity|lia|apply not_elem_of_nil|apply (owns_only _ 0 (PStore 10)); reflexivity].
  producer_tau R (enq_store 0). producer_tau R (enq_store 1).
  producer_enq R (enq_exchange 0). producer_enq R (enq_exchange 1).
  producer_tau R (enq_head 0).
  apply (mr_dequeue _ _ _ true) in R; [|reflexivity].
  dequeue_tau R deq_some. take_tau R take_store. take_tau R take_exchange.
  producer_tau R (enq_link 1).
  take_tau R take_next.
  eexists. split; [exact R|]. split; [reflexivity|]. exact (Mpsc_fifo _ _ _ R).
Defined.

(** The consumer sleeps while an element is enqueued. *)
Lemma Mpsc_no_lost_wakeup_witness : exists s, mpscReach [10] [] s /\ consumer s = DAsleep /\ m_head s = 0 /\
  (consumer s = DAsleep -> [10] = [] \/ exists i s', producerSteps i s s' /\ consumer s' = DReload true)
  /\ (forall h x t, consumer s = KWalk h x t -> x <> t -> m_next s x = 0 -> exists i y, producers s !! i = Some (PLink y x))
  /\ (forall i, producers s !! i = Some PLock \/ producers s !! i = Some PNotify -> m_waiting s = true).
Proof.
  pose proof mr_start as R. apply (mr_dequeue _ _ _ true) in R; [|reflexivity].
  dequeue_tau R deq_loop. dequeue_tau R deq_lock. dequeue_tau R deq_waiting.
  dequeue_tau R deq_cas. dequeue_tau R deq_wait.
  apply (mr_enqueue _ _ _ 0 10) in R; [|reflexivity|lia|apply not_elem_of_nil|intros j p E; discriminate E].
  producer_tau R (enq_store 0). producer_enq R (enq_exchange 0).
  eexists. split; [exact R|]. split; [reflexivity|]. split; [reflexivity|]. exact (Mpsc_no_lost_wakeup _ _ _ R).
Defined.

(** Abandoning a queue that is abandoned and empty does not end: with no thread enqueuing,
    the only step of the consumer is the same turn again. *)
Lemma abandon_twice_spins : exists s, mpscReach [] [] s /\ consumer s = ASpin /\ producers s = ∅ /\
  forall l s', dequeueStep s l s' \/ abandonStep s l s' \/ takeStep s l s' -> s' = s.
Proof.
  pose proof mr_start as R. apply mr_abandon in R; [|reflexivity].
  eapply (mr_dequeued _ _ _ 0 []) in R; [|right; left; eapply abn_empty; premise|reflexivity]. apply mr_abandon in R; [|reflexivity].
  abandon_tau R abn_some.
  eexists. split; [exact R|]. split_and!; [reflexivity..|]. intros l s' [Hs|[Hs|Hs]]; inversion Hs; subst; try discriminate; try done.
Qed.
