(* ===== verification/Events.v ===== *)
(** * Asynchronous events ([net_ib/common.cc])

    The thread of a device that waits for the events of the verbs library, counts the fatal
    ones and refreshes the GID of the port.  An event comes with what the port answers while
    it is handled; [None] in the list of events is a failed call. *)

From S2P Require Import Prelude CStr ConnGid ConnTypes.

Open Scope Z_scope.
Open Scope nccl_scope.

Inductive ibv_event_type :=
  | IBV_EVENT_CQ_ERR | IBV_EVENT_QP_FATAL | IBV_EVENT_QP_REQ_ERR | IBV_EVENT_QP_ACCESS_ERR | IBV_EVENT_COMM_EST | IBV_EVENT_SQ_DRAINED
  | IBV_EVENT_PATH_MIG | IBV_EVENT_PATH_MIG_ERR | IBV_EVENT_DEVICE_FATAL | IBV_EVENT_PORT_ACTIVE | IBV_EVENT_PORT_ERR | IBV_EVENT_LID_CHANGE
  | IBV_EVENT_PKEY_CHANGE | IBV_EVENT_SM_CHANGE | IBV_EVENT_SRQ_ERR | IBV_EVENT_SRQ_LIMIT_REACHED | IBV_EVENT_QP_LAST_WQE_REACHED
  | IBV_EVENT_CLIENT_REREGISTER | IBV_EVENT_GID_CHANGE | IBV_EVENT_OTHER.

#[export] Instance event_type_eq_dec : EqDecision ibv_event_type.
Proof. solve_decision. Defined.

(** [ctx] is the context of the queue of the event, the address of an [ncclIbStats]. *)
Record ibv_async_event := mkAsyncEvent { event_type : ibv_event_type; ctx : Z; port : option ibv_port_attr; tables : PortTables }.

#[export] Instance eta_GidInfo : Eta ncclIbGidInfo := fun r => mkGidInfo (gi_link_layer r) (localGid r) (localGidIndex r).

(** [stats] are the [fatalErrorCount]s at their addresses, [dev_stats] that of the device. *)
Record EventState := mkEventState { stats : gmap Z Z; dev_portAttr : ibv_port_attr; dev_gidInfo : ncclIbGidInfo; handled : Z }.
#[export] Instance eta_EventState : Eta EventState := fun r => mkEventState (stats r) (dev_portAttr r) (dev_gidInfo r) (handled r).

Abbreviation evM := (comp EventState).

Section Events.
Context (gp : GidParams) (inet_pton : sa_family_t -> cstring -> option (list Z)) (uninit : Z).
Context (dev_stats : Z) (canAck : bool).

Definition ncclIbStatsFatalError (stat : Z) : evM unit :=
let* s := getS in
let* c := of_option (stats s !! stat) in
modify (fun s => s <| stats := <[stat := i32 (c + 1)]> (stats s) |>).

Definition ncclIbDevFatalError : evM unit := ncclIbStatsFatalError dev_stats.

(** The index the loop of [ncclIbGetGidIndex] has written when a query fails. *)
Fixpoint gidWritten (t : PortTables) (af : sa_family_t) (prefix : option (list Z)) (prefixlen roceVer : Z) (n : nat) (next gidIndex : Z) : Z :=
match n with
| O => gidIndex
| Datatypes.S n' =>
match fst (ncclUpdateGidIndex t uninit af prefix prefixlen roceVer next gidIndex tt) with
| Done i => gidWritten t af prefix prefixlen roceVer n' (next + 1) i
| _ => gidIndex
end
end.

(** [*gidIndex] after [ncclIbGetGidIndex], whatever it returns. *)
Definition indexAfter (t : PortTables) (link_layer len old : Z) : Z :=
match fst (ncclIbGetGidIndex gp inet_pton t uninit link_layer len tt) with
| Done i => i
| _ => if link_layer =? IBV_LINK_LAYER_INFINIBAND then old
 else let '(prefix, prefixlen) := envIbAddrRange gp inet_pton (envIbAddrFamily gp) in
gidWritten t (envIbAddrFamily gp) prefix prefixlen (i32 (ncclParamIbRoceVersionNum gp)) (Z.to_nat (len - 1)) 1 0
end.

(** [ncclIbGidInfoQuery] on [&dev->gidInfo]: each member is written as soon as it is known. *)
Definition ncclIbGidInfoQuery (attr : ibv_port_attr) (t : PortTables) : evM unit :=
modify (fun s => s <| dev_gidInfo := (dev_gidInfo s) <| gi_link_layer := pa_link_layer attr |> |>) ;;;
modify (fun s => s <| dev_gidInfo := (dev_gidInfo s) <| localGidIndex := indexAfter t (pa_link_layer attr) (gid_tbl_len attr) (localGidIndex (dev_gidInfo s)) |> |>) ;;;
let* i := ncclIbGetGidIndex gp inet_pton t uninit (pa_link_layer attr) (gid_tbl_len attr) in
if i <? 0 then fail ncclInternalError
else let* g := wrap_ibv_query_gid t i in modify (fun s => s <| dev_gidInfo := (dev_gidInfo s) <| localGid := g |> |>).

Definition ncclIbEventGidChange (ev : ibv_async_event) : evM unit :=
let* s := getS in
if negb (gi_link_layer (dev_gidInfo s) =? IBV_LINK_LAYER_ETHERNET) then ret tt
else
match port ev with
| None => fail ncclSystemError
| Some attr => ncclIbGidInfoQuery attr (tables ev) ;;; modify (fun s => s <| dev_portAttr := attr |>)
end.

(** The [switch]. *)
Definition handleEvent (ev : ibv_async_event) : evM unit :=
match event_type ev with
| IBV_EVENT_DEVICE_FATAL => ncclIbDevFatalError
| IBV_EVENT_CQ_ERR => ncclIbStatsFatalError (ctx ev)
| IBV_EVENT_QP_FATAL | IBV_EVENT_QP_REQ_ERR | IBV_EVENT_QP_ACCESS_ERR => ncclIbStatsFatalError (ctx ev)
| IBV_EVENT_SRQ_ERR => ret tt
| IBV_EVENT_GID_CHANGE => fun s =>
match ncclIbEventGidChange ev s with
| (Fail _, s) => ncclIbDevFatalError s
| r => r
end
| _ => ret tt
end.

(** [ncclIbAsyncThreadMain], until the events given are handled (then it waits) or a call
fails (then it ends): the result says whether it still runs. *)
Fixpoint ncclIbAsyncThreadMain (events : list (option ibv_async_event)) : evM bool :=
match events with
| [] => ret true
| None :: _ => ret false
| Some ev :: events =>
handleEvent ev ;;;
if canAck then modify (fun s => s <| handled := handled s + 1 |>) ;;; ncclIbAsyncThreadMain events else ret false
end.
End Events.

(** * The theorems

    Every event is acknowledged, the fatal ones are counted where they belong, and a change
    of the GID table is published whole or counted as fatal. *)

(** ** Queries do not touch the state *)

(** [m] does what [m'] does without a state. *)
Definition stateless {St A} (m : comp St A) (m' : comp unit A) : Prop := forall s, m s = (fst (m' tt), s).

Lemma stateless_ret {St A} (a : A) : stateless (St := St) (ret a) (ret a).
Proof. done. Qed.

Lemma stateless_fail {St A} r : stateless (St := St) (A := A) (fail r) (fail r).
Proof. done. Qed.

Lemma stateless_option {St A} (o : option A) : stateless (St := St) (of_option o) (of_option o).
Proof. by destruct o. Qed.

Lemma stateless_bind {St A B} (m : comp St A) m' (k : A -> comp St B) k' : stateless m m' -> (forall a, stateless (k a) (k' a)) -> stateless (bind m k) (bind m' k').
Proof. intros Hm Hk s. unfold bind. rewrite (Hm s). destruct (m' tt) as [[a|r|] []]; cbn; [apply Hk|done..]. Qed.

Ltac stateless :=
  repeat first
    [ apply stateless_ret | apply stateless_fail | apply stateless_option | apply stateless_bind; [|intros ?]
    | match goal with |- stateless (if ?b then _ else _) (if ?b then _ else _) => destruct b end
    | match goal with |- stateless (match ?o with _ => _ end) (match ?o with _ => _ end) => destruct o end ].

Lemma query_stateless {St} t i : stateless (St := St) (wrap_ibv_query_gid t i) (wrap_ibv_query_gid t i).
Proof. unfold wrap_ibv_query_gid. stateless. Qed.

Lemma version_stateless {St} t i : stateless (St := St) (ncclIbRoceGetVersionNum t i) (ncclIbRoceGetVersionNum t i).
Proof. unfold ncclIbRoceGetVersionNum. stateless. Qed.

Lemma update_stateless {St} t u af p l v c i : stateless (St := St) (ncclUpdateGidIndex t u af p l v c i) (ncclUpdateGidIndex t u af p l v c i).
Proof. unfold ncclUpdateGidIndex. cbv zeta. stateless; apply query_stateless || apply version_stateless. Qed.

Lemma loop_stateless {St} t u af p l v n : forall c i, stateless (St := St) (gidLoop t u af p l v n c i) (gidLoop t u af p l v n c i).
Proof. induction n as [|n IH]; intros c i; cbn [gidLoop]; [stateless|]. apply stateless_bind; [apply update_stateless|intros; apply IH]. Qed.

Lemma index_stateless {St} gp pton t u ll len : stateless (St := St) (ncclIbGetGidIndex gp pton t u ll len) (ncclIbGetGidIndex gp pton t u ll len).
Proof. unfold ncclIbGetGidIndex. cbv zeta. stateless; apply query_stateless || apply loop_stateless. Qed.

Section Spec.
Context (gp : GidParams) (inet_pton : sa_family_t -> cstring -> option (list Z)) (uninit dev_stats : Z).

(** What [ncclIbGetGidIndex] gives for a port. *)
Definition chosen (attr : ibv_port_attr) (t : PortTables) : outcome Z :=
fst (ncclIbGetGidIndex gp inet_pton t uninit (pa_link_layer attr) (gid_tbl_len attr) tt).

(** ** What an event means *)

(** What the device says of its port. *)
Definition Port : Type := ibv_port_attr * ncclIbGidInfo.

(** A change of the GID table: a new port and GID, or a failure that leaves the attributes
and the GID but not the index. *)
Definition refresh (ev : ibv_async_event) (p : Port) : bool * Port :=
let '(attr, g) := p in
if negb (gi_link_layer g =? IBV_LINK_LAYER_ETHERNET) then (true, p)
else match port ev with
| None => (false, p)
| Some new =>
let i := indexAfter gp inet_pton uninit (tables ev) (pa_link_layer new) (gid_tbl_len new) (localGidIndex g) in
match chosen new (tables ev), query_gid (tables ev) i with
| Done _, Some gid => if i <? 0 then (false, (attr, mkGidInfo (pa_link_layer new) (localGid g) i)) else (true, (new, mkGidInfo (pa_link_layer new) gid i))
| _, _ => (false, (attr, mkGidInfo (pa_link_layer new) (localGid g) i))
end
end.

(** The counter an event is fatal to, and the port after it. *)
Definition meaning (ev : ibv_async_event) (p : Port) : option Z * Port :=
match event_type ev with
| IBV_EVENT_DEVICE_FATAL => (Some dev_stats, p)
| IBV_EVENT_CQ_ERR | IBV_EVENT_QP_FATAL | IBV_EVENT_QP_REQ_ERR | IBV_EVENT_QP_ACCESS_ERR => (Some (ctx ev), p)
| IBV_EVENT_GID_CHANGE => let '(ok, p) := refresh ev p in (if ok : bool then None else Some dev_stats, p)
| _ => (None, p)
end.

(** The counters hit by events in a row, and the port after them. *)
Fixpoint meanings (evs : list ibv_async_event) (p : Port) : list Z * Port :=
match evs with
| [] => ([], p)
| ev :: evs => let '(h, p) := meaning ev p in let '(hs, p) := meanings evs p in (match h with Some a => a :: hs | None => hs end, p)
end.

(** The counters exist, and choosing a GID index stays within what C defines. *)
Definition expected (dom : gset Z) (ev : ibv_async_event) : Prop :=
ctx ev ∈ dom /\ match port ev with Some attr => chosen attr (tables ev) <> Fault | None => True end.

Lemma fatal_Done (s : EventState) a c : stats s !! a = Some c -> ncclIbStatsFatalError a s = (Done tt, s <| stats := <[a := i32 (c + 1)]> (stats s) |>).
Proof. intros E. unfold ncclIbStatsFatalError. nred. by rewrite E. Qed.

Lemma indexAfter_chosen attr t old i : chosen attr t = Done i -> indexAfter gp inet_pton uninit t (pa_link_layer attr) (gid_tbl_len attr) old = i.
Proof. unfold chosen, indexAfter. by intros ->. Qed.

Lemma GidChange_ok ev s : match port ev with Some attr => chosen attr (tables ev) <> Fault | None => True end ->
exists r, ncclIbEventGidChange gp inet_pton uninit ev s = (r, s <| dev_portAttr := fst (snd (refresh ev (dev_portAttr s, dev_gidInfo s))) |> <| dev_gidInfo := snd (snd (refresh ev (dev_portAttr s, dev_gidInfo s))) |>)
 /\ if fst (refresh ev (dev_portAttr s, dev_gidInfo s)) then r = Done tt else exists e, r = Fail e.
Proof.
destruct s as [st attr g hd]. intros Hnf. unfold ncclIbEventGidChange, refresh. nred. cbn. destruct (negb _); [by exists (Done tt)|].
destruct (port ev) as [new|]; [|exists (Fail ncclSystemError); split; [done|by eexists]]. 
assert (Hi : forall s' : EventState, ncclIbGetGidIndex gp inet_pton (tables ev) uninit (pa_link_layer new) (gid_tbl_len new) s' = (chosen new (tables ev), s')) by apply index_stateless.
unfold ncclIbGidInfoQuery, bind, modify. cbn. rewrite Hi.
destruct (chosen new (tables ev)) as [i|e|] eqn:Ei; [|exists (Fail e); split; [done|by eexists]|done].
rewrite (indexAfter_chosen _ _ _ i Ei). destruct (i <? 0).
- exists (Fail ncclInternalError). destruct (query_gid (tables ev) i); (split; [done|by eexists]).
- unfold wrap_ibv_query_gid. destruct (query_gid (tables ev) i) as [gid|]; [by exists (Done tt)|exists (Fail ncclSystemError); split; [done|by eexists]].
Qed.

(** One event. *)
Definition after (s : EventState) (h : option Z) (p : Port) : EventState :=
mkEventState (match h with Some a => match stats s !! a with Some c => <[a := i32 (c + 1)]> (stats s) | None => stats s end | None => stats s end) (fst p) (snd p) (handled s).

Lemma handleEvent_ok ev s : dev_stats ∈ dom (stats s) -> expected (dom (stats s)) ev ->
handleEvent gp inet_pton uninit dev_stats ev s = (Done tt, after s (fst (meaning ev (dev_portAttr s, dev_gidInfo s))) (snd (meaning ev (dev_portAttr s, dev_gidInfo s)))).
Proof.
intros Hd [Hc Hp]. assert (Hf : forall (s' : EventState) a, dom (stats s') = dom (stats s) -> a ∈ dom (stats s) -> ncclIbStatsFatalError a s' = (Done tt, after s' (Some a) (dev_portAttr s', dev_gidInfo s'))).
{ intros s' a Ed Ha. rewrite <- Ed in Ha. apply elem_of_dom in Ha as [c E]. rewrite (fatal_Done s' a c E). unfold after. rewrite E. by destruct s'. }
assert (Hn : (Done tt, s) = (Done tt, after s None (dev_portAttr s, dev_gidInfo s)) :> outcome unit * EventState) by by destruct s.
unfold handleEvent, meaning. destruct (event_type ev); try exact Hn; try (by apply Hf).
destruct (GidChange_ok ev s Hp) as (r & E & Hr). rewrite E. destruct (refresh ev _) as [[] [attr g]]; cbn [fst snd] in *; [by rewrite Hr|].
destruct Hr as [e ->]. unfold ncclIbDevFatalError. rewrite Hf by done. by destruct s.
Qed.

(** [n] more on a counter. *)
Lemma bump a h (s : EventState) p c : in_s 32 c -> stats s !! a = Some c ->
stats (after s h p) !! a = Some (i32 (c + Z.of_nat (count_occ Z.eq_dec (match h with Some b => [b] | None => [] end) a))).
Proof.
intros Hc E. cbn. destruct h as [b|]; cbn; [|by rewrite E, Z.add_0_r, wrapS_small by done || lia].
destruct (Z.eq_dec b a) as [->|Hb]; [by rewrite E, lookup_insert_eq|]. rewrite Z.add_0_r, wrapS_small by done || lia. destruct (stats s !! b); [by rewrite lookup_insert_ne|done].
Qed.

Lemma after_dom s h p : dom (stats (after s h p)) = dom (stats s).
Proof.
cbn. destruct h as [a|]; [|done]. destruct (stats s !! a) as [c|] eqn:E; [|done]. rewrite dom_insert_L. apply (elem_of_dom_2 (D := gset Z)) in E. set_solver.
Qed.

Lemma thread_ok evs : forall s, dev_stats ∈ dom (stats s) -> Forall (expected (dom (stats s))) evs -> exists s',
ncclIbAsyncThreadMain gp inet_pton uninit dev_stats true (map Some evs) s = (Done true, s')
/\ handled s' = handled s + Z.of_nat (length evs)
/\ (dev_portAttr s', dev_gidInfo s') = snd (meanings evs (dev_portAttr s, dev_gidInfo s))
/\ forall a c, in_s 32 c -> stats s !! a = Some c -> stats s' !! a = Some (i32 (c + Z.of_nat (count_occ Z.eq_dec (fst (meanings evs (dev_portAttr s, dev_gidInfo s))) a))).
Proof.
induction evs as [|ev evs IH]; intros s Hd Hevs; cbn [map ncclIbAsyncThreadMain meanings].
{ exists s. split_and!; [done|cbn; lia|done|]. intros a c Hc E. cbn. by rewrite Z.add_0_r, wrapS_small by done || lia. }
apply Forall_cons in Hevs as [Hev Hevs]. nstep (handleEvent_ok ev s Hd Hev). destruct (meaning ev _) as [h p] eqn:Em. cbn [fst snd].
set (s1 := after s h p). assert (Hd1 : dom (stats s1) = dom (stats s)) by apply after_dom. rewrite (bind_step _ _ s1 tt (s1 <| handled := handled s1 + 1 |>)) by done.
destruct (IH (s1 <| handled := handled s1 + 1 |>)) as (s' & E & Hh & Hp & Hs); [change (dev_stats ∈ dom (stats s1)); by rewrite Hd1|change (Forall (expected (dom (stats s1))) evs); by rewrite Hd1|].
assert (Hp1 : (dev_portAttr s1, dev_gidInfo s1) = p) by by destruct p. change (dev_portAttr (s1 <| handled := handled s1 + 1 |>), dev_gidInfo (s1 <| handled := handled s1 + 1 |>)) with (dev_portAttr s1, dev_gidInfo s1) in Hp, Hs.
rewrite Hp1 in Hp, Hs. destruct (meanings evs p) as [hs p'] eqn:Ems. cbn [fst snd] in *. exists s'. split_and!; [done|rewrite Hh; cbn; lia|done|].
intros a c Hc E1. pose proof (bump a h s p c Hc E1) as E2. rewrite (Hs a _ (wrapS_range 32 _ eq_refl) E2), wrapS_add_l by done. do 2 f_equal.
destruct h as [b|]; cbn [count_occ]; [destruct (Z.eq_dec b a)|]; lia.
Qed.

(** C29. The thread of a device that is given events of counters that exist handles and
acknowledges them all.  A counter grows by the number of events fatal to it: those of the
queues of its communicator, and for the device its own and the failed changes of its GID
table.  The attributes and the GID of the port are those of the last change that succeeded:
a change is published whole, or counted as fatal. *)
Theorem AsyncThread_counts evs s : dev_stats ∈ dom (stats s) -> Forall (expected (dom (stats s))) evs -> exists s',
ncclIbAsyncThreadMain gp inet_pton uninit dev_stats true (map Some evs) s = (Done true, s')
/\ handled s' = handled s + Z.of_nat (length evs)
/\ (dev_portAttr s', dev_gidInfo s') = snd (meanings evs (dev_portAttr s, dev_gidInfo s))
/\ forall a c, in_s 32 c -> stats s !! a = Some c -> stats s' !! a = Some (i32 (c + Z.of_nat (count_occ Z.eq_dec (fst (meanings evs (dev_portAttr s, dev_gidInfo s))) a))).
Proof. apply thread_ok. Qed.
End Spec.

(** ** Instances *)

Definition evGp : GidParams := mkGidParams (-1) 1 2 0 (-1) 24 None None.
Definition evAttr (len : Z) : ibv_port_attr := mkPortAttr 5 0 IBV_LINK_LAYER_ETHERNET 0 len 1.

(** A RoCE v1 entry, and a RoCE v2 one of another family when [both]. *)
Definition evTable (both : bool) : PortTables := {|
  query_gid i := if i =? 0 then Some (mkGid 0xfe800000 0 0x1234 0x5678) else if (i =? 1) || both then Some (mkGid 0 0 0xffff 0x0a000001) else None;
  gid_type_file i := Some (ReadText (lit "RoCE v2")); query_pkey _ := None |}.

Definition evState : EventState := mkEventState {[ 100 := 0; 200 := 0 ]} (evAttr 1) (mkGidInfo IBV_LINK_LAYER_ETHERNET (mkGid 0 0 0xffff 0x0a000002) 2) 0.

Definition evEvents : list ibv_async_event :=
  [mkAsyncEvent IBV_EVENT_QP_FATAL 200 None (evTable true); mkAsyncEvent IBV_EVENT_GID_CHANGE 200 (Some (evAttr 2)) (evTable true);
   mkAsyncEvent IBV_EVENT_PORT_ERR 200 None (evTable true); mkAsyncEvent IBV_EVENT_GID_CHANGE 200 None (evTable true)].

Lemma AsyncThread_counts_witness :
  meanings evGp (fun _ _ => None) 7 100 evEvents (dev_portAttr evState, dev_gidInfo evState) = ([200; 100], (evAttr 2, mkGidInfo IBV_LINK_LAYER_ETHERNET (mkGid 0 0 0xffff 0x0a000001) 1)) /\
  exists s', ncclIbAsyncThreadMain evGp (fun _ _ => None) 7 100 true (map Some evEvents) evState = (Done true, s') /\ handled s' = 4 /\ stats s' !! 100 = Some 1 /\ stats s' !! 200 = Some 1.
Proof.
  assert (Em : meanings evGp (fun _ _ => None) 7 100 evEvents (dev_portAttr evState, dev_gidInfo evState) = ([200; 100], (evAttr 2, mkGidInfo IBV_LINK_LAYER_ETHERNET (mkGid 0 0 0xffff 0x0a000001) 1))) by (vm_compute; reflexivity).
  split; [exact Em|]. destruct (AsyncThread_counts evGp (fun _ _ => None) 7 100 evEvents evState) as (s' & E & Hh & _ & Hs).
  - apply elem_of_dom. exists 0. vm_compute. reflexivity.
  - assert (Hd : 200 ∈ dom (stats evState)) by (apply elem_of_dom; exists 0; vm_compute; reflexivity).
    repeat (apply Forall_cons; split; [split; [exact Hd|vm_compute; (discriminate || exact I)]|]). apply Forall_nil. exact I.
  - exists s'. rewrite Em in Hs. split; [exact E|]. split; [rewrite Hh; reflexivity|].
    split; [exact (Hs 100 0 ltac:(unfold in_s; lia) eq_refl)|exact (Hs 200 0 ltac:(unfold in_s; lia) eq_refl)].
Defined.

(** A refresh whose query fails half-way has already changed the index, which then does not
    go with the GID. *)
Lemma gid_partially_published :
  refresh evGp (fun _ _ => None) 7 (mkAsyncEvent IBV_EVENT_GID_CHANGE 200 (Some (evAttr 3)) (evTable false)) (dev_portAttr evState, dev_gidInfo evState)
  = (false, (evAttr 1, mkGidInfo IBV_LINK_LAYER_ETHERNET (mkGid 0 0 0xffff 0x0a000002) 1)).
Proof. vm_compute. reflexivity. Qed.
