(* ===== verification/MemStack.v ===== *)
(** * The memory stack ([include/utils.h], [misc/utils.cc])

    A stack of frames of objects: memory comes in hunks that are kept, and an object too big
    for them from the heap, with a proxy in the frame.  The headers, the proxies and the saved
    frames that the code writes into the hunks are kept by address; [blocks] are the blocks
    of the heap that are not freed.  [abort()] is [Fail ncclSystemError]. *)

From S2P Require Import Prelude.

Open Scope Z_scope.
Open Scope nccl_scope.

Record Hunk := mkHunk { above : Z; hunkSize : Z }.
#[export] Instance eta_Hunk : Eta Hunk := fun r => mkHunk (above r) (hunkSize r).

Record Unhunk := mkUnhunk { un_next : Z; un_obj : Z }.

Record Frame := mkFrame { hunk : Z; bumper : Z; fend : Z; unhunks : Z; below : Z }.
#[export] Instance eta_Frame : Eta Frame := fun r => mkFrame (hunk r) (bumper r) (fend r) (unhunks r) (below r).

Record ncclMemoryStack := mkStack { topFrame : Frame; hunks : gmap Z Hunk; proxies : gmap Z Unhunk; frames : gmap Z Frame; blocks : gmap Z Z }.
#[export] Instance eta_Stack : Eta ncclMemoryStack := fun r => mkStack (topFrame r) (hunks r) (proxies r) (frames r) (blocks r).

Definition sizeofHunk : Z := 16.
Definition sizeofUnhunk : Z := 16.
Definition sizeofFrame : Z := 40.
Definition alignofPtr : Z := 8.

Abbreviation stackM := (comp ncclMemoryStack).

(** [(x + align - 1) & -align]. *)
Definition alignTo (x align : Z) : Z := Z.land (u64 (x + align - 1)) (u64 (- align)).

Section Stack.
(** The heap: the address given for a size, 0 when there is none; and the address of [stub]. *)
Context (malloc : gmap Z Z -> Z -> Z) (STUB : Z).

Definition doMalloc (n : Z) : stackM Z :=
let* s := getS in
let p := malloc (blocks s) n in
if p =? 0 then fail ncclSystemError
else modify (fun s => s <| blocks := <[p := n]> (blocks s) |>) ;;; ret p.

(** Freeing null does nothing; freeing what is not a block has no meaning. *)
Definition free (p : Z) : stackM unit :=
if p =? 0 then ret tt
else let* s := getS in
match blocks s !! p with Some _ => modify (fun s => s <| blocks := delete p (blocks s) |>) | None => fault end.

Definition modTop (f : Frame -> Frame) : stackM unit := modify (fun s => s <| topFrame := f (topFrame s) |>).

Definition ncclMemoryStackConstruct : ncclMemoryStack := mkStack (mkFrame STUB 0 0 0 0) {[ STUB := mkHunk 0 0 ]} ∅ ∅ ∅.

(** The label [unhunked]. *)
Definition unhunked (size : Z) : stackM Z :=
let* s := getS in
let uproxy := alignTo (bumper (topFrame s)) alignofPtr in
let next := unhunks (topFrame s) in
modTop (fun f => f <| bumper := uproxy + sizeofUnhunk |> <| unhunks := uproxy |>) ;;;
let* obj := doMalloc size in
modify (fun s => s <| proxies := <[uproxy := mkUnhunk next obj]> (proxies s) |>) ;;;
ret obj.

(** The object in the top hunk when it fits. *)
Definition fit (size align : Z) (otherwise : stackM Z) : stackM Z :=
let* s := getS in
let uobj := alignTo (bumper (topFrame s)) align in
if u64 (uobj + size) <=? fend (topFrame s) then modTop (fun f => f <| bumper := u64 (uobj + size) |>) ;;; ret uobj
else otherwise.

Definition newHunk (size align : Z) : stackM Z :=
let* s := getS in
let top := hunk (topFrame s) in
let* h := of_option (hunks s !! top) in
let nextSize := hunkSize h + 65536 in
let* top1 := doMalloc nextSize in
modify (fun s => s <| hunks := <[top := h <| above := top1 |>]> (<[top1 := mkHunk 0 nextSize]> (hunks s)) |>) ;;;
modTop (fun f => f <| hunk := top1 |> <| fend := top1 + nextSize |> <| bumper := top1 + sizeofHunk |>) ;;;
fit size align (unhunked size).

(** [top] is never null. *)
Definition allocateSpilled (size align : Z) : stackM Z :=
let* s := getS in
let f := topFrame s in
if 8192 <=? u64 (fend f - bumper f) then unhunked size
else
let* h := of_option (hunks s !! hunk f) in
let noReuse :=
if hunkSize h + 65536 <? sizeofHunk + 64 + size then
 if alignTo (bumper f) alignofPtr + sizeofUnhunk <=? fend f then unhunked size else newHunk size align
else newHunk size align in
if above h =? 0 then noReuse
else
let* h1 := of_option (hunks s !! above h) in
let uobj := alignTo (above h + sizeofHunk) align in
if u64 (uobj + size) <=? above h + hunkSize h1 then
modTop (fun f => f <| hunk := above h |> <| bumper := u64 (uobj + size) |> <| fend := above h + hunkSize h1 |>) ;;; ret uobj
else noReuse.

Definition allocate (size align : Z) : stackM Z := fit size align (allocateSpilled size align).

Definition ncclMemoryStackPush : stackM unit :=
let* s := getS in
let tmp := topFrame s in
let* snapshot := allocate sizeofFrame alignofPtr in
modify (fun s => s <| frames := <[snapshot := tmp]> (frames s) |>) ;;;
modTop (fun f => f <| unhunks := 0 |> <| below := snapshot |>).

(** The loop that frees the objects of the proxies from [un] on. *)
Fixpoint freeUnhunks (fuel : nat) (un : Z) : stackM unit :=
if un =? 0 then ret tt
else match fuel with
| O => fault
| Datatypes.S n =>
let* s := getS in
let* u := of_option (proxies s !! un) in
free (un_obj u) ;;; freeUnhunks n (un_next u)
end.

Definition ncclMemoryStackPop : stackM unit :=
let* s := getS in
freeUnhunks (Datatypes.S (size (proxies s))) (unhunks (topFrame s)) ;;;
let* f := of_option (frames s !! below (topFrame s)) in
modTop (fun _ => f).

Fixpoint freeFrames (fuel : nat) (f : Frame) : stackM unit :=
let* s := getS in
freeUnhunks (Datatypes.S (size (proxies s))) (unhunks f) ;;;
if below f =? 0 then ret tt
else match fuel with
| O => fault
| Datatypes.S n => let* f := of_option (frames s !! below f) in freeFrames n f
end.

Fixpoint freeHunks (fuel : nat) (h : Z) : stackM unit :=
if h =? 0 then ret tt
else match fuel with
| O => fault
| Datatypes.S n =>
let* s := getS in
let* k := of_option (hunks s !! h) in
free h ;;; freeHunks n (above k)
end.

Definition ncclMemoryStackDestruct : stackM unit :=
let* s := getS in
freeFrames (Datatypes.S (size (frames s))) (topFrame s) ;;;
let* stub := of_option (hunks s !! STUB) in
freeHunks (Datatypes.S (size (hunks s))) (above stub).

(** ** Calls in a row *)

Inductive StackOp := Alloc (size align : Z) | Push | Pop.

Definition stackExec (op : StackOp) : stackM Z :=
match op with
| Alloc n a => allocate n a
| Push => ncclMemoryStackPush ;;; ret 0
| Pop => ncclMemoryStackPop ;;; ret 0
end.

(** The results of the calls. *)
Fixpoint stackRun (ops : list StackOp) : stackM (list Z) :=
match ops with
| [] => ret []
| op :: ops => let* r := stackExec op in let* rs := stackRun ops in ret (r :: rs)
end.
End Stack.
