(* ===== verification/StackSpec.v ===== *)
(** * The memory stack, verified

    Whatever the calls, the objects that are live have disjoint memory that is theirs. *)

From S2P Require Import Prelude MemStack.

Open Scope Z_scope.
Open Scope nccl_scope.

(** ** Alignment *)

Lemma land_high v k : 0 <= k <= 64 -> 0 <= v < 2 ^ 64 -> Z.land v (u64 (- 2 ^ k)) = v / 2 ^ k * 2 ^ k.
Proof.
  intros Hk Hv. assert (E : u64 (- 2 ^ k) = Z.shiftl (Z.ones (64 - k)) k).
  { unfold wrapU. rewrite Z.shiftl_mul_pow2, Z.ones_equiv by lia. assert (2 ^ 64 = 2 ^ (64 - k) * 2 ^ k) as E2 by (rewrite <- Z.pow_add_r by lia; by replace (64 - k + k) with 64 by lia).
    pose proof (Z.pow_pos_nonneg 2 k ltac:(lia) ltac:(lia)). assert (2 ^ k <= 2 ^ 64) by (apply Z.pow_le_mono_r; lia).
    rewrite <- Z.sub_1_r, Z.mul_sub_distr_r, <- E2. symmetry. apply (Z.mod_unique _ _ (-1)); [left; lia|lia]. }
  rewrite E, <- Z.shiftl_mul_pow2, <- Z.shiftr_div_pow2 by lia. apply Z.bits_inj'. intros i Hi. rewrite Z.land_spec.
  destruct (decide (i < k)) as [Hik|Hik]; [rewrite !Z.shiftl_spec_low by lia; apply andb_false_r|].
  rewrite !Z.shiftl_spec, Z.shiftr_spec by lia. replace (i - k + k) with i by lia. destruct (decide (i < 64)) as [H64|H64].
  - rewrite Z.ones_spec_low by lia. apply andb_true_r.
  - rewrite Z.ones_spec_high by lia. rewrite (Z.bits_above_log2 v i); [done|lia|]. destruct (decide (v = 0)) as [->|]; [cbn; lia|]. apply Z.log2_lt_pow2; [lia|].
    apply (Z.lt_le_trans _ (2 ^ 64)); [lia|apply Z.pow_le_mono_r; lia].
Qed.

Lemma alignTo_ok x k : 0 <= k <= 12 -> 0 <= x <= 2 ^ 63 -> (2 ^ k | alignTo x (2 ^ k)) /\ x <= alignTo x (2 ^ k) < x + 2 ^ k.
Proof.
  intros Hk Hx. pose proof (Z.pow_pos_nonneg 2 k ltac:(lia) ltac:(lia)) as Hp. assert (2 ^ k <= 2 ^ 12) by (apply Z.pow_le_mono_r; lia).
  unfold alignTo. rewrite (wrapU_small 64 (x + 2 ^ k - 1)) by (unfold in_u; lia). rewrite land_high by lia.
  pose proof (Z.div_mod (x + 2 ^ k - 1) (2 ^ k) ltac:(lia)). pose proof (Z.mod_pos_bound (x + 2 ^ k - 1) (2 ^ k) ltac:(lia)). split; [by apply Z.divide_factor_r|lia].
Qed.

(** ** What is live *)

(** A piece of memory: in a hunk, or a block of its own. *)
Inductive place := InHunk (h : Z) | Own.
#[export] Instance place_eq_dec : EqDecision place.
Proof. solve_decision. Defined.

Record piece := mkPiece { pl : place; at_ : Z; len : Z }.

Definition apart (p q : piece) : Prop := at_ p + len p <= at_ q \/ at_ q + len q <= at_ p.

(** An object that an allocation gave, as the caller sees it. *)
Record obj := mkObj { oAt : Z; oLen : Z; oAlign : Z }.

Definition objPiece (o : obj) : Z * Z := (oAt o, oLen o).
Definition piecePiece (p : piece) : Z * Z := (at_ p, len p).

Definition apartZ (x y : Z * Z) : Prop := x.1 + x.2 <= y.1 \/ y.1 + y.2 <= x.1.

(** What is live after a call that returned [r], level by level. *)
Definition liveStep (op : StackOp) (r : Z) (lv : list (list obj)) : list (list obj) :=
match op, lv with
| Alloc n a, os :: lv => (mkObj r n a :: os) :: lv
| Push, _ => [] :: lv
| Pop, _ :: lv => lv
| _, _ => lv
end.

Fixpoint liveAfter (ops : list StackOp) (rs : list Z) (lv : list (list obj)) : list (list obj) :=
match ops, rs with op :: ops, r :: rs => liveAfter ops rs (liveStep op r lv) | _, _ => lv end.

Definition okSize (n k : Z) : Prop := 0 < n <= 2 ^ 62 /\ 0 <= k <= 12.

(** The calls have sizes that exist and alignments up to a page, and pop what they pushed. *)
Fixpoint wfOps (depth : nat) (ops : list StackOp) : Prop :=
match ops with
| [] => True
| Alloc n a :: ops => (exists k, a = 2 ^ k /\ okSize n k) /\ wfOps depth ops
| Push :: ops => wfOps (Datatypes.S depth) ops
| Pop :: ops => match depth with Datatypes.S d => wfOps d ops | O => False end
end.

(** An object is within a block that is not freed, with the alignment that [malloc] has. *)
Definition objOk (s : ncclMemoryStack) (o : obj) : Prop :=
(oAlign o <= 16 -> (oAlign o | oAt o)) /\ exists b m, blocks s !! b = Some m /\ b <= oAt o /\ oAt o + oLen o <= b + m.

Section Stack.
Context (malloc : gmap Z Z -> Z -> Z) (STUB : Z).

(** Blocks are apart from each other, from null and from the header of the stack, and leave
room above; a heap block is aligned to 16 bytes. *)
Record mallocSpec : Prop := {
ma_apart : forall bs n p b m, malloc bs n = p -> p <> 0 -> 0 <= n -> bs !! b = Some m -> p <> b /\ (p + n <= b \/ b + m <= p);
ma_range : forall bs n p, malloc bs n = p -> p <> 0 -> 0 <= n -> 0 < p /\ p + n <= 2 ^ 62 /\ (16 | p) /\ p <> STUB;
}.
Context (Hm : mallocSpec).

(** The pieces that a frame and those under it made are under its mark. *)
Definition under (pos : Z -> nat) (f : Frame) (p : piece) : Prop :=
match pl p with
| Own => True
| InHunk h => (pos h < pos (hunk f))%nat \/ h = hunk f /\ at_ p + len p <= bumper f
end.

(** A piece lies in a hunk, after its header, or is a block that is no hunk. *)
Definition placed (s : ncclMemoryStack) (p : piece) : Prop :=
0 <= len p /\
match pl p with
| Own => blocks s !! at_ p = Some (len p) /\ hunks s !! at_ p = None
| InHunk h => h <> STUB /\ exists k, hunks s !! h = Some k /\ h + sizeofHunk <= at_ p /\ at_ p + len p <= h + hunkSize k
end.

(** The proxies from [u] on, and their objects. *)
Fixpoint proxyList (s : ncclMemoryStack) (u : Z) (l : list (Z * Z)) : Prop :=
match l with
| [] => u = 0
| (v, obj) :: l => u = v /\ u <> 0 /\ exists x, proxies s !! u = Some x /\ un_obj x = obj /\ proxyList s (un_next x) l
end.

Definition owned (l : list piece) : list Z := omap (fun p => match pl p with Own => Some (at_ p) | _ => None end) l.

(** A frame with the pieces [rs] made since it was pushed and [old] under it. *)
Record frameOk (s : ncclMemoryStack) (pos : Z -> nat) (f : Frame) (rs old : list piece) : Prop := {
fo_under : Forall (under pos f) (rs ++ old);
fo_hunk : exists k, hunks s !! hunk f = Some k /\ (if decide (hunk f = STUB) then bumper f = 0 /\ fend f = 0
 else hunk f + sizeofHunk <= bumper f /\ bumper f <= fend f /\ fend f = hunk f + hunkSize k);
fo_proxies : exists l, proxyList s (unhunks f) l /\ Forall (fun v => exists h, mkPiece (InHunk h) v sizeofUnhunk ∈ rs) (map fst l) /\ map snd l ≡ₚ owned rs;
}.

(** The frames from [f] on, over the levels of pieces. *)
Fixpoint levelsOk (s : ncclMemoryStack) (pos : Z -> nat) (f : Frame) (lv : list (list piece)) : Prop :=
match lv with
| [] => False
| rs :: lv => frameOk s pos f rs (concat lv) /\
 match lv with
 | [] => below f = 0
 | _ => below f <> 0 /\ (exists h, mkPiece (InHunk h) (below f) sizeofFrame ∈ rs) /\ exists f', frames s !! below f = Some f' /\ levelsOk s pos f' lv
 end
end.

Record stackInv (s : ncclMemoryStack) (pos : Z -> nat) (lv : list (list piece)) : Prop := {
si_levels : levelsOk s pos (topFrame s) lv;
si_placed : Forall (placed s) (concat lv);
si_apart : ForallOrdPairs apart (concat lv);
si_owned : NoDup (owned (concat lv));
si_blocks : forall b n, blocks s !! b = Some n -> 0 < b /\ 0 <= n /\ b + n <= 2 ^ 62 /\ b <> STUB;
si_blocks_apart : forall b n b' n', blocks s !! b = Some n -> blocks s !! b' = Some n' -> b <> b' -> b + n <= b' \/ b' + n' <= b;
si_hunks : forall h k, hunks s !! h = Some k -> h <> STUB -> blocks s !! h = Some (hunkSize k) /\ 65536 <= hunkSize k;
si_stub : (exists k, hunks s !! STUB = Some k /\ hunkSize k = 0);
si_above : forall h k, hunks s !! h = Some k -> above k <> 0 -> above k <> STUB /\ (exists k', hunks s !! above k = Some k') /\ pos (above k) = Datatypes.S (pos h);
}.

(** ** Stability *)

(** What an allocation keeps: the hunks and their order, the proxies and saved frames that
are pieces of [l]. *)
Record extends (l : list piece) (s : ncclMemoryStack) (pos : Z -> nat) (s' : ncclMemoryStack) (pos' : Z -> nat) : Prop := {
ex_hunks : forall h k, hunks s !! h = Some k -> exists k', hunks s' !! h = Some k' /\ hunkSize k' = hunkSize k;
ex_pos : forall h, is_Some (hunks s !! h) -> pos' h = pos h;
ex_proxies : forall v x h, mkPiece (InHunk h) v sizeofUnhunk ∈ l -> proxies s !! v = Some x -> proxies s' !! v = Some x;
ex_frames : forall v x h, mkPiece (InHunk h) v sizeofFrame ∈ l -> frames s !! v = Some x -> frames s' !! v = Some x;
}.

Lemma extends_refl l s pos : extends l s pos s pos.
Proof. constructor; eauto. Qed.

Lemma stackExtends_trans l l' s pos s1 pos1 s2 pos2 : extends l s pos s1 pos1 -> extends l' s1 pos1 s2 pos2 -> l ⊆ l' -> extends l s pos s2 pos2.
Proof.
intros [H1 P1 X1 F1] [H2 P2 X2 F2] Hl. constructor.
- intros h k E. destruct (H1 h k E) as (k1 & E1 & S1). destruct (H2 h k1 E1) as (k2 & E2 & S2). exists k2. split; [done|congruence].
- intros h [k E]. destruct (H1 h k E) as (k1 & E1 & _). rewrite P2 by eauto. apply P1. eauto.
- intros v x h Hv E. eapply X2; [by apply Hl|]. by eapply X1.
- intros v x h Hv E. eapply F2; [by apply Hl|]. by eapply F1.
Qed.

Lemma proxyList_ext s s' u l : (forall v x, v ∈ map fst l -> proxies s !! v = Some x -> proxies s' !! v = Some x) -> proxyList s u l -> proxyList s' u l.
Proof.
revert u. induction l as [|[v obj] l IH]; intros u Hx; [done|]. cbn. intros (-> & H0 & x & E & Eo & Hl). split_and!; [done..|]. exists x. split_and!; [apply Hx; [set_solver|done]|done|].
apply IH; [|done]. intros w y Hw. apply Hx. set_solver.
Qed.

Lemma under_ext l s pos s' pos' f p : extends l s pos s' pos' -> is_Some (hunks s !! hunk f) -> placed s p -> under pos f p -> under pos' f p.
Proof.
intros He Hf [_ Hp]. unfold under. destruct (pl p) as [h|]; [|done]. destruct Hp as (_ & k & E & _). rewrite !(ex_pos _ _ _ _ _ He) by eauto. done.
Qed.

Lemma frameOk_ext l s pos s' pos' f rs old : extends l s pos s' pos' -> rs ⊆ l -> Forall (placed s) (rs ++ old) -> frameOk s pos f rs old -> frameOk s' pos' f rs old.
Proof.
intros He Hl Hp [Hu (k & Ek & Hk) (pr & Hpr & Hv & Ho)]. destruct (ex_hunks _ _ _ _ _ He _ _ Ek) as (k' & Ek' & Es). constructor.
- apply Forall_forall. intros p Hin. eapply under_ext; [done|by exists k|by eapply Forall_forall in Hp|by eapply Forall_forall in Hu].
- exists k'. split; [done|]. rewrite Es. done.
- exists pr. split_and!; [|done|done]. apply (proxyList_ext s); [|done]. intros v x Hin E. eapply Forall_forall in Hv as [h Hh]; [|done]. eapply (ex_proxies _ _ _ _ _ He); [by apply Hl|done].
Qed.

Lemma levels_ext l s pos s' pos' : extends l s pos s' pos' -> forall lv f, concat lv ⊆ l -> Forall (placed s) (concat lv) -> levelsOk s pos f lv -> levelsOk s' pos' f lv.
Proof.
intros He. induction lv as [|rs lv IH]; intros f Hl Hp; [done|]. cbn [levelsOk concat] in *. intros [Hf Ht]. split; [apply (frameOk_ext l s pos); [done|set_solver|done|done]|].
destruct lv as [|rs' lv]; [done|]. destruct Ht as (H0 & [h Hh] & f' & Ef & Hlv). split_and!; [done|by exists h|]. exists f'. split; [apply (ex_frames _ _ _ _ _ He _ _ h); [apply Hl, elem_of_app; by left|done]|].
apply IH; [set_solver|by apply Forall_app in Hp as [_ ?]|done].
Qed.

(** ** The steps of an allocation *)

(** The rest of the levels, when the top frame changes but not what is under it. *)
Definition tailOk (s : ncclMemoryStack) (pos : Z -> nat) (f : Frame) (rs : list piece) (lv : list (list piece)) : Prop :=
match lv with
| [] => below f = 0
| _ => below f <> 0 /\ (exists h, mkPiece (InHunk h) (below f) sizeofFrame ∈ rs) /\ exists f', frames s !! below f = Some f' /\ levelsOk s pos f' lv
end.

Lemma tailOk_ext l s pos s' pos' f f' rs rs' lv : extends l s pos s' pos' -> rs ++ concat lv ⊆ l -> rs ⊆ rs' -> Forall (placed s) (rs ++ concat lv) -> below f' = below f ->
tailOk s pos f rs lv -> tailOk s' pos' f' rs' lv.
Proof.
intros He Hl Hr Hp Hb. unfold tailOk. rewrite Hb. destruct lv as [|r lv]; [done|]. intros (H0 & [h Hh] & g & Eg & Hlv). split_and!; [done|exists h; by apply Hr|].
exists g. split; [apply (ex_frames _ _ _ _ _ He _ _ h); [apply Hl, elem_of_app; by left|done]|]. apply (levels_ext l s pos); [done|set_solver|by apply Forall_app in Hp as [_ ?]|done].
Qed.

Lemma placed_ext s s' p : (forall h k, hunks s !! h = Some k -> exists k', hunks s' !! h = Some k' /\ hunkSize k' = hunkSize k) ->
(forall b n, blocks s !! b = Some n -> blocks s' !! b = Some n) -> (forall b n, blocks s !! b = Some n -> hunks s !! b = None -> hunks s' !! b = None) -> placed s p -> placed s' p.
Proof.
intros Hh Hb Hn [H0 Hp]. split; [done|]. destruct (pl p) as [h|].
- destruct Hp as (? & k & E & ?). split; [done|]. destruct (Hh h k E) as (k' & E' & Es). exists k'. by rewrite Es.
- destruct Hp as [E E']. split; [by apply Hb|by apply (Hn _ (len p))].
Qed.

(** A piece of a live hunk is apart from what is in another block. *)
Lemma piece_apart s pos lv h p q : stackInv s pos lv -> placed s p -> placed s q -> pl p = InHunk h -> pl q <> InHunk h -> apart p q.
Proof.
intros Hi [Hp0 Hp] [Hq0 Hq] Ep Eq. rewrite Ep in Hp. destruct Hp as (Hs & k & Ek & H1 & H2). destruct (si_hunks _ _ _ Hi h k Ek Hs) as [Hb Hk]. unfold apart.
destruct (pl q) as [h'|].
- destruct Hq as (Hs' & k' & Ek' & H1' & H2'). destruct (si_hunks _ _ _ Hi h' k' Ek' Hs') as [Hb' Hk']. assert (h <> h') by congruence.
destruct (si_blocks_apart _ _ _ Hi _ _ _ _ Hb Hb' ltac:(done)); unfold sizeofHunk in *; lia.
- destruct Hq as [Hb' Hn]. assert (h <> at_ q) by congruence. destruct (si_blocks_apart _ _ _ Hi _ _ _ _ Hb Hb' ltac:(done)); unfold sizeofHunk in *; lia.
Qed.

(** The bumper moves over a piece of the top hunk. *)
Lemma step_bump s pos rs lv a n : stackInv s pos (rs :: lv) -> hunk (topFrame s) <> STUB -> bumper (topFrame s) <= a -> 0 <= n -> a + n <= fend (topFrame s) ->
let s' := s <| topFrame := (topFrame s) <| bumper := a + n |> |> in
stackInv s' pos ((mkPiece (InHunk (hunk (topFrame s))) a n :: rs) :: lv) /\ extends (rs ++ concat lv) s pos s' pos.
Proof.
intros Hi Hs Ha Hn Hf s'. set (p := mkPiece _ a n). pose proof (si_levels _ _ _ Hi) as [Hfr Ht]. destruct (fo_hunk _ _ _ _ _ Hfr) as (k & Ek & Hk). rewrite decide_False in Hk by done.
assert (He : extends (rs ++ concat lv) s pos s' pos) by (constructor; eauto). split; [|done].
assert (Hpl : placed s' p) by (split; [done|]; split; [done|]; exists k; cbn; split_and!; [done|lia|lia]).
constructor; try apply Hi.
- split.
+ destruct Hfr as [Hu _ (pr & Hpr & Hv & Ho)]. constructor.
* constructor; [right; cbn; lia|]. apply (Forall_impl _ _ _ Hu). intros q. unfold under. destruct (pl q); [|done]. cbn. intros [?|[? ?]]; [by left|right; lia].
* exists k. cbn. rewrite decide_False by done. split; [done|lia].
* exists pr. split_and!; [by apply (proxyList_ext s)| |done]. apply (Forall_impl _ _ _ Hv). intros v [h Hh]. exists h. set_solver.
+ apply (tailOk_ext (rs ++ concat lv) s pos s' pos (topFrame s) _ rs); [done|set_solver|set_solver|apply Hi|done|exact Ht].
- constructor; [done|]. apply (Forall_impl _ _ _ (si_placed _ _ _ Hi)). intros q. by apply placed_ext; eauto.
- constructor; [|apply Hi]. apply Forall_forall. intros q Hq. destruct (decide (pl q = InHunk (hunk (topFrame s)))) as [Eq|Eq].
+ pose proof (fo_under _ _ _ _ _ Hfr) as Hu. eapply Forall_forall in Hu; [|exact Hq]. unfold under in Hu. rewrite Eq in Hu. right. cbn. lia.
+ apply (piece_apart s pos (rs :: lv) (hunk (topFrame s))); [done| | |done|done].
* split; [done|]. split; [done|]. exists k. cbn. split_and!; [done|lia|lia].
* eapply Forall_forall; [apply (si_placed _ _ _ Hi)|exact Hq].
Qed.

(** A fresh block. *)
Lemma fresh_block s pos lv n p : stackInv s pos lv -> 0 <= n -> malloc (blocks s) n = p -> p <> 0 ->
blocks s !! p = None /\ hunks s !! p = None /\ 0 < p /\ p + n <= 2 ^ 62 /\ (16 | p) /\ p <> STUB /\ forall b m, blocks s !! b = Some m -> p + n <= b \/ b + m <= p.
Proof.
intros Hi Hn E Hp. destruct (ma_range Hm _ _ _ E Hp Hn) as (H1 & H2 & H3 & H4).
assert (Hb : blocks s !! p = None) by (destruct (blocks s !! p) as [m|] eqn:Eb; [|done]; by destruct (ma_apart Hm _ _ _ _ _ E Hp Hn Eb)).
split_and!; [done| |done..|].
- destruct (hunks s !! p) as [k|] eqn:Ek; [|done]. destruct (si_hunks _ _ _ Hi p k Ek H4). congruence.
- intros b m Eb. by destruct (ma_apart Hm _ _ _ _ _ E Hp Hn Eb).
Qed.

Lemma blocks_insert s pos lv n p : stackInv s pos lv -> 0 <= n -> malloc (blocks s) n = p -> p <> 0 ->
(forall b m, <[p := n]> (blocks s) !! b = Some m -> 0 < b /\ 0 <= m /\ b + m <= 2 ^ 62 /\ b <> STUB)
/\ (forall b m b' m', <[p := n]> (blocks s) !! b = Some m -> <[p := n]> (blocks s) !! b' = Some m' -> b <> b' -> b + m <= b' \/ b' + m' <= b).
Proof.
intros Hi Hn E Hp. destruct (fresh_block _ _ _ _ _ Hi Hn E Hp) as (_ & _ & H0 & H2 & _ & Hs & Ha). split.
- intros b m Eb. apply lookup_insert_Some in Eb as [[<- <-]|[_ Eb]]; [split_and!; [lia..|done]|by apply (si_blocks _ _ _ Hi)].
- intros b m b' m' Eb Eb' Hne. apply lookup_insert_Some in Eb as [[<- <-]|[? Eb]]; apply lookup_insert_Some in Eb' as [[<- <-]|[? Eb']]; [done|..].
+ by apply Ha.
+ destruct (Ha _ _ Eb); [by right|by left].
+ by apply (si_blocks_apart _ _ _ Hi).
Qed.

(** The top frame moves to the hunk above. *)
Lemma step_up s pos rs lv top1 k1 : stackInv s pos (rs :: lv) -> hunks s !! top1 = Some k1 -> top1 <> STUB -> pos top1 = Datatypes.S (pos (hunk (topFrame s))) ->
stackInv (s <| topFrame := (topFrame s) <| hunk := top1 |> <| bumper := top1 + sizeofHunk |> <| fend := top1 + hunkSize k1 |> |>) pos (rs :: lv).
Proof.
intros Hi E1 Hs Hpos. pose proof (si_levels _ _ _ Hi) as [Hfr Ht]. destruct (si_hunks _ _ _ Hi _ _ E1 Hs) as [_ Hk].
constructor; try apply Hi. split.
- destruct Hfr as [Hu _ Hpr]. constructor; [|exists k1; cbn; rewrite decide_False by done; unfold sizeofHunk; split; [done|lia]|destruct Hpr as (pr & Hpr & Hv); exists pr; split; [by apply (proxyList_ext s)|done]].
apply (Forall_impl _ _ _ Hu). intros q. unfold under. destruct (pl q); [|done]. cbn. rewrite Hpos. intros [?|[-> ?]]; left; lia.
- apply (tailOk_ext (rs ++ concat lv) s pos _ pos (topFrame s) _ rs); [constructor; eauto|set_solver|set_solver|apply Hi|done|exact Ht].
Qed.

(** A new hunk above the top one. *)
Lemma step_new s pos rs lv h top1 nextSize : stackInv s pos (rs :: lv) -> hunks s !! hunk (topFrame s) = Some h -> malloc (blocks s) nextSize = top1 -> top1 <> 0 -> 65536 <= nextSize ->
let s' := s <| blocks := <[top1 := nextSize]> (blocks s) |> <| hunks := <[hunk (topFrame s) := h <| above := top1 |>]> (<[top1 := mkHunk 0 nextSize]> (hunks s)) |> in
exists pos', stackInv s' pos' (rs :: lv) /\ extends (rs ++ concat lv) s pos s' pos' /\ hunks s' !! top1 = Some (mkHunk 0 nextSize) /\ pos' top1 = Datatypes.S (pos' (hunk (topFrame s))) /\ top1 <> STUB.
Proof.
intros Hi Eh E Hp Hn s'. set (pos' := fun x => if x =? top1 then Datatypes.S (pos (hunk (topFrame s))) else pos x). exists pos'. assert (Hn0 : 0 <= nextSize) by lia. destruct (fresh_block _ _ _ _ _ Hi Hn0 E Hp) as (Hb & Hh & H0 & H2 & _ & Hs & Ha).
assert (Hne : top1 <> hunk (topFrame s)) by congruence.
assert (Hpos : forall x, is_Some (hunks s !! x) -> pos' x = pos x) by (intros x [k Ex]; unfold pos'; rewrite (proj2 (Z.eqb_neq _ _)); [done|congruence]).
assert (Hlook : forall x k, hunks s' !! x = Some k -> x = hunk (topFrame s) /\ k = h <| above := top1 |> \/ x = top1 /\ k = mkHunk 0 nextSize \/ x <> top1 /\ x <> hunk (topFrame s) /\ hunks s !! x = Some k).
{ intros x k Ex. cbn in Ex. apply lookup_insert_Some in Ex as [[<- <-]|[? Ex]]; [by left|]. apply lookup_insert_Some in Ex as [[<- <-]|[? Ex]]; right; [by left|by right]. }
assert (Hkeep : forall x k, hunks s !! x = Some k -> exists k', hunks s' !! x = Some k' /\ hunkSize k' = hunkSize k).
{ intros x k Ex. destruct (decide (x = hunk (topFrame s))) as [->|Hx]; cbn; [rewrite lookup_insert_eq; eexists; split; [done|]; cbn; congruence|].
rewrite lookup_insert_ne by done. rewrite lookup_insert_ne by congruence. eauto. }
assert (Hpe : pos' top1 = Datatypes.S (pos' (hunk (topFrame s)))) by (rewrite (Hpos (hunk _)) by eauto; unfold pos'; by rewrite Z.eqb_refl).
assert (He : extends (rs ++ concat lv) s pos s' pos') by (constructor; eauto). pose proof (blocks_insert _ _ _ _ _ Hi Hn0 E Hp) as [Hb1 Hb2].
split_and!; [|done|cbn; rewrite lookup_insert_ne by done; apply lookup_insert_eq|done|done].
constructor; [| |apply Hi|apply Hi|exact Hb1|exact Hb2| | |].
- apply (levels_ext (rs ++ concat lv) s pos); [done|done|apply Hi|apply Hi].
- apply (Forall_impl _ _ _ (si_placed _ _ _ Hi)). intros q. apply placed_ext; [done| |].
+ intros b n Eb. cbn. rewrite lookup_insert_ne; [done|congruence].
+ intros b n Eb Enb. cbn. rewrite lookup_insert_ne by congruence. by rewrite lookup_insert_ne by congruence.
- intros x k Ex Hxs. cbn. destruct (Hlook x k Ex) as [[-> ->]|[[-> ->]|(Hx & _ & Ex')]]; cbn.
+ rewrite lookup_insert_ne by done. by apply (si_hunks _ _ _ Hi).
+ rewrite lookup_insert_eq. done.
+ rewrite lookup_insert_ne by done. by apply (si_hunks _ _ _ Hi).
- destruct (si_stub _ _ _ Hi) as (k & Ek & Es). destruct (Hkeep _ _ Ek) as (k' & Ek' & Es'). exists k'. split; [done|congruence].
- intros x k Ex Hk. destruct (Hlook x k Ex) as [[-> ->]|[[-> ->]|(Hx & Hx2 & Ex')]]; cbn in *; [|done|].
+ split_and!; [done|rewrite lookup_insert_ne by done; rewrite lookup_insert_eq; eauto|done].
+ destruct (si_above _ _ _ Hi x k Ex' Hk) as (H3 & (k' & Ek') & H4). split_and!; [done|destruct (Hkeep _ _ Ek') as (k'' & ? & _); eauto|].
rewrite !Hpos by eauto. done.
Qed.

Lemma owned_in l a : a ∈ owned l <-> exists p, p ∈ l /\ pl p = Own /\ at_ p = a.
Proof.
unfold owned. rewrite list_elem_of_omap. split; intros (p & Hin & E); exists p; (split; [done|]); [destruct (pl p); [done|]; by injection E|]. destruct E as [-> ->]. done.
Qed.

Lemma owned_app l l' : owned (l ++ l') = owned l ++ owned l'.
Proof. apply omap_app. Qed.

(** A fresh block is apart from every piece. *)
Lemma fresh_apart s pos lv n p q : stackInv s pos lv -> 0 <= n -> malloc (blocks s) n = p -> p <> 0 -> placed s q -> apart (mkPiece Own p n) q.
Proof.
intros Hi Hn E Hp [Hq0 Hq]. destruct (fresh_block _ _ _ _ _ Hi Hn E Hp) as (_ & _ & _ & _ & _ & _ & Ha). unfold apart. cbn. destruct (pl q) as [h|].
- destruct Hq as (Hs & k & Ek & H1 & H2). destruct (si_hunks _ _ _ Hi h k Ek Hs) as [Hb Hk]. unfold sizeofHunk in *. destruct (Ha _ _ Hb); lia.
- destruct Hq as [Hb _]. by destruct (Ha _ _ Hb); [left|right].
Qed.

(** An object of its own, with its proxy at [u] in the top hunk. *)
Lemma step_own s pos rs lv obj n u : stackInv s pos (rs :: lv) -> hunk (topFrame s) <> STUB -> bumper (topFrame s) <= u -> u + sizeofUnhunk <= fend (topFrame s) ->
malloc (blocks s) n = obj -> obj <> 0 -> 0 <= n ->
let s' := mkStack ((topFrame s) <| bumper := u + sizeofUnhunk |> <| unhunks := u |>) (hunks s) (<[u := mkUnhunk (unhunks (topFrame s)) obj]> (proxies s)) (frames s) (<[obj := n]> (blocks s)) in
stackInv s' pos ((mkPiece Own obj n :: mkPiece (InHunk (hunk (topFrame s))) u sizeofUnhunk :: rs) :: lv) /\ extends (rs ++ concat lv) s pos s' pos.
Proof.
intros Hi Hs Hu Huf E Hp Hn s'. destruct (step_bump s pos rs lv u sizeofUnhunk Hi Hs Hu ltac:(done) Huf) as [Hi1 _]. set (P := mkPiece (InHunk _) u sizeofUnhunk) in *.
pose proof (si_levels _ _ _ Hi) as [Hfr Ht]. pose proof (si_levels _ _ _ Hi1) as [Hfr1 _]. destruct (fresh_block _ _ _ _ _ Hi Hn E Hp) as (Hb & Hh & H0 & H2 & _ & Hst & Ha).
assert (Hap : Forall (apart P) (rs ++ concat lv)) by (pose proof (si_apart _ _ _ Hi1) as Hx; by inversion Hx).
assert (Hne : forall v h, mkPiece (InHunk h) v sizeofUnhunk ∈ rs ++ concat lv -> v <> u).
{ intros v h Hin ->. eapply Forall_forall in Hap; [|exact Hin]. unfold apart, P, sizeofUnhunk in Hap. cbn in Hap. lia. }
assert (Hu0 : u <> 0).
{ destruct (fo_hunk _ _ _ _ _ Hfr) as (k & Ek & Hk). rewrite decide_False in Hk by done. destruct (si_hunks _ _ _ Hi _ _ Ek Hs) as [Hbh _]. pose proof (si_blocks _ _ _ Hi _ _ Hbh). unfold sizeofHunk in *. lia. }
assert (Hpx : forall v x h, mkPiece (InHunk h) v sizeofUnhunk ∈ rs ++ concat lv -> proxies s !! v = Some x -> proxies s' !! v = Some x).
{ intros v x h Hin Ex. cbn. rewrite lookup_insert_ne; [done|]. intros <-. by apply (Hne u h). }
assert (He : extends (rs ++ concat lv) s pos s' pos) by (constructor; eauto). split; [|done]. pose proof (blocks_insert _ _ _ _ _ Hi Hn E Hp) as [Hb1 Hb2].
assert (Hpl : forall q, placed s q -> placed s' q) by (intros q; apply placed_ext; [eauto|intros b m Eb; cbn; rewrite lookup_insert_ne; [done|congruence]|done]).
constructor; [| | | |exact Hb1|exact Hb2| |apply Hi|apply Hi].
- split.
+ destruct Hfr as [_ _ (pr & Hpr & Hv & Ho)]. constructor; [constructor; [done|exact (fo_under _ _ _ _ _ Hfr1)]|exact (fo_hunk _ _ _ _ _ Hfr1)|].
exists ((u, obj) :: pr). split_and!.
* cbn. split_and!; [done|done|]. eexists. split; [apply lookup_insert_eq|]. split; [done|]. apply (proxyList_ext s); [|done]. intros v x Hin. eapply Forall_forall in Hv as [h Hin']; [|exact Hin]. apply (Hpx v x h). set_solver.
* cbn. constructor; [exists (hunk (topFrame s)); set_solver|]. apply (Forall_impl _ _ _ Hv). intros v [h Hin]. exists h. set_solver.
* cbn. by rewrite Ho.
+ apply (tailOk_ext (rs ++ concat lv) s pos s' pos (topFrame s) _ rs); [done|set_solver|set_solver|apply Hi|done|exact Ht].
- constructor; [split; [done|]; cbn; by rewrite lookup_insert_eq|]. apply (Forall_impl _ _ _ (si_placed _ _ _ Hi1)). intros q Hq. apply Hpl. exact Hq.
- constructor; [|apply Hi1]. apply (Forall_impl _ _ _ (si_placed _ _ _ Hi1)). intros q Hq. by apply (fresh_apart s pos (rs :: lv)).
- cbn. apply NoDup_cons. split; [|apply Hi]. intros Hin. apply owned_in in Hin as (q & Hin & Eq & Ea). pose proof (si_placed _ _ _ Hi) as Hpq. eapply Forall_forall in Hpq as [_ Hpq]; [|exact Hin].
rewrite Eq, Ea in Hpq. destruct Hpq as [Hbq _]. congruence.
- intros h k Ek Hks. cbn. rewrite lookup_insert_ne; [by apply (si_hunks _ _ _ Hi)|]. intros Eq. cbn in Ek. congruence.
Qed.

(** ** Allocation *)

(** What an allocation gives: a piece of the size asked, with its proxy when it is a block of
its own, and nothing else changed; or the end of the process. *)
Definition allocated (s : ncclMemoryStack) (pos : Z -> nat) (rs : list piece) (lv : list (list piece)) (n al : Z) (r : outcome Z * ncclMemoryStack) : Prop :=
match r with
| (Done p, s') => exists pos' added q, stackInv s' pos' ((added ++ rs) :: lv) /\ extends (rs ++ concat lv) s pos s' pos' /\ q ∈ added /\ at_ q = p /\ len q = n
 /\ frames s' = frames s /\ below (topFrame s') = below (topFrame s) /\ if decide (pl q = Own) then 4096 <= n /\ (16 | p) else added = [q] /\ (al | p)
| (Fail e, _) => e = ncclSystemError
| (Fault, _) => False
end.

Lemma allocated_trans s pos s1 pos1 rs lv n al r : extends (rs ++ concat lv) s pos s1 pos1 -> frames s1 = frames s -> below (topFrame s1) = below (topFrame s) ->
allocated s1 pos1 rs lv n al r -> allocated s pos rs lv n al r.
Proof.
intros He Hf Hb. destruct r as [[p|e|] s']; cbn; [|done..]. intros (pos' & added & q & Hi & He' & H1 & H2 & H3 & H4 & H5 & H6). exists pos', added, q.
split_and!; [done|by apply (stackExtends_trans _ _ _ _ _ _ _ _ He He')|done..|congruence|congruence|done].
Qed.

Lemma top_bounds s pos rs lv : stackInv s pos (rs :: lv) -> 0 <= bumper (topFrame s) <= fend (topFrame s) /\ fend (topFrame s) <= 2 ^ 62 /\ (hunk (topFrame s) = STUB -> fend (topFrame s) = 0).
Proof.
intros Hi. pose proof (si_levels _ _ _ Hi) as [Hfr _]. destruct (fo_hunk _ _ _ _ _ Hfr) as (k & Ek & Hk). destruct (decide _) as [->|Hs]; [lia|].
destruct (si_hunks _ _ _ Hi _ _ Ek Hs) as [Hb _]. pose proof (si_blocks _ _ _ Hi _ _ Hb). unfold sizeofHunk in *. split_and!; [lia..|done].
Qed.

Lemma pow_small k : 0 <= k <= 12 -> 1 <= 2 ^ k <= 4096.
Proof. intros Hk. split; [pose proof (Z.pow_pos_nonneg 2 k); lia|]. change 4096 with (2 ^ 12). apply Z.pow_le_mono_r; lia. Qed.

Lemma fit_ok s pos rs lv n k otherwise : stackInv s pos (rs :: lv) -> okSize n k ->
(fend (topFrame s) < alignTo (bumper (topFrame s)) (2 ^ k) + n -> allocated s pos rs lv n (2 ^ k) (otherwise s)) -> allocated s pos rs lv n (2 ^ k) (fit n (2 ^ k) otherwise s).
Proof.
intros Hi [Hn Hk] Hot. destruct (top_bounds _ _ _ _ Hi) as (Hb & Hf & Hst). pose proof (pow_small k Hk) as Hp. destruct (alignTo_ok (bumper (topFrame s)) k Hk ltac:(lia)) as [Hd Ha].
unfold fit. nred. cbv zeta. set (a := alignTo _ _) in *. rewrite (wrapU_small 64 (a + n)) by (unfold in_u; lia). destruct (a + n <=? fend (topFrame s)) eqn:E; [|apply Hot; lia].
unfold modTop, modify, bind. destruct (step_bump s pos rs lv a n Hi ltac:(intros Hs; specialize (Hst Hs); lia) ltac:(lia) ltac:(lia) ltac:(lia)) as [Hi' He].
exists pos, [mkPiece (InHunk (hunk (topFrame s))) a n], (mkPiece (InHunk (hunk (topFrame s))) a n). split_and!; [exact Hi'|exact He|set_solver|done..|]. by rewrite decide_False.
Qed.

Lemma unhunked_ok s pos rs lv n al : stackInv s pos (rs :: lv) -> alignTo (bumper (topFrame s)) alignofPtr + sizeofUnhunk <= fend (topFrame s) -> 4096 <= n ->
allocated s pos rs lv n al (unhunked malloc n s).
Proof.
intros Hi Hfit Hn. destruct (top_bounds _ _ _ _ Hi) as (Hb & Hf & Hst). destruct (alignTo_ok (bumper (topFrame s)) 3 ltac:(lia) ltac:(lia)) as [_ Ha]. change (2 ^ 3) with alignofPtr in Ha.
unfold unhunked, doMalloc, modTop, modify, bind, getS. cbn. set (u := alignTo _ _) in *. destruct (malloc (blocks s) n =? 0) eqn:E; [done|]. apply Z.eqb_neq in E. cbn.
unfold sizeofUnhunk in Hfit. destruct (step_own s pos rs lv _ n u Hi ltac:(intros Hs; specialize (Hst Hs); lia) ltac:(lia) Hfit eq_refl E ltac:(lia)) as [Hi' He].
exists pos, [mkPiece Own (malloc (blocks s) n) n; mkPiece (InHunk (hunk (topFrame s))) u sizeofUnhunk], (mkPiece Own (malloc (blocks s) n) n).
destruct s as [f hs ps fs bs]. split_and!; [exact Hi'|exact He|set_solver|done..|]. rewrite decide_True by done. split; [done|].
assert (Hn0 : 0 <= n) by lia. by destruct (fresh_block _ _ _ _ _ Hi Hn0 eq_refl E) as (_ & _ & _ & _ & ? & _).
Qed.

Lemma newHunk_ok s pos rs lv n k : stackInv s pos (rs :: lv) -> okSize n k -> allocated s pos rs lv n (2 ^ k) (newHunk malloc n (2 ^ k) s).
Proof.
intros Hi Hok. pose proof (si_levels _ _ _ Hi) as [Hfr _]. destruct (fo_hunk _ _ _ _ _ Hfr) as (h & Eh & Hh). unfold newHunk. nred. rewrite Eh. cbn [of_option]. nred.
assert (Hsz : 0 <= hunkSize h) by (destruct (decide (hunk (topFrame s) = STUB)) as [Es|Hs]; [rewrite Es in Eh; destruct (si_stub _ _ _ Hi) as (h' & Eh' & ?); rewrite Eh in Eh'; injection Eh' as <-; lia|destruct (si_hunks _ _ _ Hi _ _ Eh Hs); lia]).
unfold doMalloc. rewrite bind_assoc. nred. cbv zeta. destruct (malloc (blocks s) (hunkSize h + 65536) =? 0) eqn:E; [done|]. apply Z.eqb_neq in E. set (top1 := malloc _ _) in *.
destruct (step_new s pos rs lv h top1 (hunkSize h + 65536) Hi Eh eq_refl E ltac:(lia)) as (pos1 & Hi1 & He1 & Ek1 & Hp1 & Hs1). set (s1 := s <| blocks := _ |> <| hunks := _ |>) in *.
pose proof (step_up s1 pos1 rs lv top1 (mkHunk 0 (hunkSize h + 65536)) Hi1 Ek1 Hs1 Hp1) as Hi2. cbn [hunkSize] in Hi2. set (s2 := s1 <| topFrame := _ |>) in *.
assert (He2 : extends (rs ++ concat lv) s pos s2 pos1) by (destruct He1; constructor; done).
change (allocated s pos rs lv n (2 ^ k) (fit n (2 ^ k) (unhunked malloc n) s2)). apply (allocated_trans s pos s2 pos1); [done|done|done|]. apply fit_ok; [done|done|]. intros Hno.
destruct Hok as [Hn Hk]. destruct (fresh_block _ _ _ (hunkSize h + 65536) top1 Hi ltac:(lia) eq_refl E) as (_ & _ & H0 & H2 & _).
pose proof (pow_small k Hk). destruct (alignTo_ok (bumper (topFrame s2)) k Hk) as [_ Ha]; [cbn; unfold sizeofHunk; lia|]. destruct (alignTo_ok (bumper (topFrame s2)) 3) as [_ Ha3]; [lia|cbn; unfold sizeofHunk; lia|].
change (2 ^ 3) with alignofPtr in Ha3. cbn in Hno, Ha, Ha3. unfold sizeofHunk, alignofPtr in *. apply unhunked_ok; [done|cbn; unfold sizeofUnhunk, sizeofHunk, alignofPtr; lia|lia].
Qed.

Lemma allocate_ok s pos rs lv n k : stackInv s pos (rs :: lv) -> okSize n k -> allocated s pos rs lv n (2 ^ k) (allocate malloc n (2 ^ k) s).
Proof.
intros Hi Hok. apply fit_ok; [done|done|]. intros Hno. destruct Hok as [Hn Hk]. pose proof (pow_small k Hk) as Hp. destruct (top_bounds _ _ _ _ Hi) as (Hb & Hf & Hst).
destruct (alignTo_ok (bumper (topFrame s)) k Hk ltac:(lia)) as [_ Ha]. destruct (alignTo_ok (bumper (topFrame s)) 3 ltac:(lia) ltac:(lia)) as [_ Ha3]. change (2 ^ 3) with alignofPtr in Ha3.
unfold allocateSpilled. nred. cbv zeta. rewrite (wrapU_small 64) by (unfold in_u; lia). destruct (8192 <=? _) eqn:E.
{ apply unhunked_ok; [done|unfold sizeofUnhunk, alignofPtr in *; lia|lia]. }
pose proof (si_levels _ _ _ Hi) as [Hfr _]. destruct (fo_hunk _ _ _ _ _ Hfr) as (h & Eh & Hh). rewrite Eh. cbn [of_option]. nred.
set (noReuse := if hunkSize h + 65536 <? _ then _ else _). assert (Hnr : allocated s pos rs lv n (2 ^ k) (noReuse s)).
{ unfold noReuse. destruct (hunkSize h + 65536 <? _) eqn:E1; [|by apply newHunk_ok]. destruct (_ <=? fend (topFrame s)) eqn:E2; [|by apply newHunk_ok].
apply unhunked_ok; [done|lia|]. assert (0 <= hunkSize h); [|unfold sizeofHunk in *; lia].
destruct (decide (hunk (topFrame s) = STUB)) as [Es|Hs]; [specialize (Hst Es); unfold sizeofUnhunk, alignofPtr in *; lia|destruct (si_hunks _ _ _ Hi _ _ Eh Hs); lia]. }
destruct (above h =? 0) eqn:E0; [exact Hnr|]. apply Z.eqb_neq in E0. destruct (si_above _ _ _ Hi _ _ Eh E0) as (Hs1 & (h1 & Eh1) & Hpos). rewrite Eh1. cbn [of_option]. nred.
destruct (si_hunks _ _ _ Hi _ _ Eh1 Hs1) as [Hb1 Hk1]. pose proof (si_blocks _ _ _ Hi _ _ Hb1). destruct (alignTo_ok (above h + sizeofHunk) k Hk ltac:(unfold sizeofHunk; lia)) as [Hd Ha1].
set (a := alignTo (above h + sizeofHunk) (2 ^ k)) in *. unfold sizeofHunk in Ha1. rewrite (wrapU_small 64) by (unfold in_u; lia). destruct (a + n <=? above h + hunkSize h1) eqn:E2; [|exact Hnr].
pose proof (step_up s pos rs lv (above h) h1 Hi Eh1 Hs1 Hpos) as Hi1. set (s1 := s <| topFrame := _ |>) in *.
destruct (step_bump s1 pos rs lv a n Hi1) as [Hi2 He2]; [done|cbn; unfold sizeofHunk; lia|lia|cbn; lia|].
exists pos, [mkPiece (InHunk (above h)) a n], (mkPiece (InHunk (above h)) a n). split_and!; [exact Hi2|destruct He2; constructor; done|set_solver|done..|]. by rewrite decide_False.
Qed.

(** ** Push *)

(** A saved frame on a new piece [q] of 40 bytes, and a frame with nothing of its own on it. *)
Lemma step_push s pos rs lv s1 pos' q : stackInv s pos (rs :: lv) -> stackInv s1 pos' ((q :: rs) :: lv) -> extends (rs ++ concat lv) s pos s1 pos' -> pl q <> Own -> len q = sizeofFrame ->
frames s1 = frames s ->
stackInv (s1 <| frames := <[at_ q := topFrame s]> (frames s1) |> <| topFrame := (topFrame s1) <| unhunks := 0 |> <| below := at_ q |> |>) pos' ([q] :: rs :: lv).
Proof.
intros Hi Hi1 He Hq Hlen Hfs. set (s2 := _ <| topFrame := _ |>). destruct q as [[h|] a n]; [|done]. cbn in Hlen. subst n. pose proof (si_placed _ _ _ Hi1) as Hpl. cbn in Hpl.
assert (Ha : Forall (apart (mkPiece (InHunk h) a sizeofFrame)) (rs ++ concat lv)) by (pose proof (si_apart _ _ _ Hi1) as Hx; by inversion Hx).
assert (Ha0 : a <> 0).
{ apply Forall_cons in Hpl as [[_ (Hs & k & Ek & H1 & _)] _]. cbn in H1. destruct (si_hunks _ _ _ Hi1 _ _ Ek Hs) as [Hb _]. pose proof (si_blocks _ _ _ Hi1 _ _ Hb). unfold sizeofHunk in H1. lia. }
assert (He2 : extends (rs ++ concat lv) s pos s2 pos').
{ destruct He as [H1 H2 H3 H4]. constructor; [exact H1|exact H2|exact H3|]. intros v x h' Hin Ex. cbn. rewrite Hfs. rewrite lookup_insert_ne; [done|]. intros <-.
eapply Forall_forall in Ha; [|exact Hin]. unfold apart, sizeofFrame in Ha. cbn in Ha. lia. }
pose proof (si_levels _ _ _ Hi1) as [[Hu Hk _] _]. constructor; try apply Hi1. split; [constructor|].
- exact Hu.
- exact Hk.
- exists []. split_and!; [done|constructor|done].
- split; [done|]. split; [exists h; set_solver|]. exists (topFrame s). split; [apply lookup_insert_eq|].
apply (levels_ext (rs ++ concat lv) s pos); [done|done|apply Hi|apply Hi].
Qed.

Lemma Push_ok s pos rs lv : stackInv s pos (rs :: lv) -> match ncclMemoryStackPush malloc s with
| (Done _, s') => exists pos' q, stackInv s' pos' ([q] :: rs :: lv)
| (Fail e, _) => e = ncclSystemError
| (Fault, _) => False
end.
Proof.
intros Hi. unfold ncclMemoryStackPush. nred. cbv zeta. pose proof (allocate_ok s pos rs lv sizeofFrame 3 Hi ltac:(unfold okSize, sizeofFrame; lia)) as Ha. change (2 ^ 3) with alignofPtr in Ha.
destruct (allocate malloc sizeofFrame alignofPtr s) as [[p|e|] s1] eqn:E; [|rewrite (bind_Fail _ _ _ _ _ E); done|done]. rewrite (bind_step _ _ _ _ _ E).
destruct Ha as (pos' & added & q & Hi1 & He & Hin & Hat & Hlen & Hf & _ & Hq). destruct (decide (pl q = Own)); [unfold sizeofFrame in Hq; lia|]. destruct Hq as [-> _]. subst p.
exists pos', q. by apply (step_push s pos rs lv s1 pos' q).
Qed.

(** ** Pop *)

(** The blocks that are left when the objects [os] are freed. *)
Definition freed (os : list Z) (b : gmap Z Z) : gmap Z Z := fold_left (fun b o => delete o b) os b.

Lemma freed_lookup os b x : freed os b !! x = if decide (x ∈ os) then None else b !! x.
Proof.
revert b. induction os as [|o os IH]; intros b; [done|]. cbn. rewrite IH. destruct (decide (x ∈ os)) as [H|H]; [by rewrite decide_True by set_solver|].
destruct (decide (x = o)) as [->|Hne]; [rewrite decide_True by set_solver; apply lookup_delete_eq|]. rewrite decide_False by set_solver. by rewrite lookup_delete_ne.
Qed.

Lemma freed_app os os' b : freed (os ++ os') b = freed os' (freed os b).
Proof. apply fold_left_app. Qed.

Lemma proxyList_length s u l : proxyList s u l -> NoDup (map snd l) -> (length l <= size (proxies s))%nat.
Proof.
intros Hl Hnd. assert (Hf : map Some (map snd l) = map (fun v => un_obj <$> proxies s !! v) (map fst l) /\ Forall (fun v => is_Some (proxies s !! v)) (map fst l)).
{ clear Hnd. revert u Hl. induction l as [|[v o] l IH]; intros u; [by split|]. cbn. intros (-> & _ & x & E & <- & Hl). destruct (IH _ Hl) as [-> Hs]. rewrite E. split; [done|]. constructor; [by exists x|done]. }
destruct Hf as [Hf Hs]. assert (Hk : NoDup (map fst l)).
{ apply (NoDup_fmap_1 (fun v => un_obj <$> proxies s !! v)). change (NoDup (map (fun v => un_obj <$> proxies s !! v) (map fst l))). rewrite <- Hf. apply (NoDup_fmap_2 Some). exact Hnd. }
rewrite <- (length_map fst l), <- (size_list_to_set (C := gset Z)) by done. rewrite <- size_dom. apply subseteq_size. intros v Hv. apply elem_of_list_to_set in Hv. eapply Forall_forall in Hs; [|exact Hv]. by apply elem_of_dom.
Qed.

Lemma freeUnhunks_ok : forall l s u fuel, proxyList s u l -> NoDup (map snd l) -> Forall (fun o => o <> 0 /\ is_Some (blocks s !! o)) (map snd l) -> (length l <= fuel)%nat ->
freeUnhunks fuel u s = (Done tt, s <| blocks := freed (map snd l) (blocks s) |>).
Proof.
induction l as [|[v o] l IH]; intros s u fuel.
- cbn. intros -> _ _ _. destruct s, fuel; done.
- cbn. intros (-> & Hv & x & E & <- & Hl) [Hni Hnd]%NoDup_cons [[Ho [m Eb]] Hb]%Forall_cons Hf. destruct fuel as [|fuel]; [lia|]. cbn. rewrite (proj2 (Z.eqb_neq v 0)) by done. nred. rewrite E. cbn [of_option]. nred.
unfold free. rewrite (proj2 (Z.eqb_neq _ 0)) by done. rewrite bind_assoc. nred. rewrite Eb. unfold modify, bind at 1. rewrite (IH _ (un_next x) fuel); [done| |done| |lia].
+ by apply (proxyList_ext s).
+ apply Forall_forall. intros o Hin. eapply Forall_forall in Hb as [H0 [m' Em]]; [|exact Hin]. split; [done|]. cbn. rewrite lookup_delete_ne; [by exists m'|]. intros <-. done.
Qed.

(** The objects of a frame are blocks, each once. *)
Lemma frame_freed s pos f rs old : frameOk s pos f rs old -> Forall (placed s) rs -> NoDup (owned rs) -> (forall b n, blocks s !! b = Some n -> b <> 0) ->
freeUnhunks (Datatypes.S (size (proxies s))) (unhunks f) s = (Done tt, s <| blocks := freed (owned rs) (blocks s) |>).
Proof.
intros [_ _ (l & Hl & _ & Ho)] Hp Hnd Hb. assert (Hnd' : NoDup (map snd l)) by by rewrite Ho. rewrite (freeUnhunks_ok l).
- f_equal. destruct s as [? ? ? ? b]. unfold update. f_equal. apply map_eq. intros x. rewrite !freed_lookup. cbn. destruct (decide (x ∈ map snd l)) as [H|H]; rewrite Ho in H; [by rewrite decide_True|by rewrite decide_False].
- done.
- done.
- apply Forall_forall. intros o Hin. rewrite Ho in Hin. apply owned_in in Hin as (p & Hin & E & <-). eapply Forall_forall in Hp as [_ Hp]; [|exact Hin]. rewrite E in Hp. destruct Hp as [Hp _]. split; [by apply (Hb _ _ Hp)|by exists (len p)].
- pose proof (proxyList_length _ _ _ Hl Hnd'). lia.
Qed.

(** Freeing the objects of [rs] leaves the older pieces and the hunks. *)
Lemma placed_freed s rs old : Forall (placed s) (rs ++ old) -> NoDup (owned (rs ++ old)) -> Forall (placed (s <| blocks := freed (owned rs) (blocks s) |>)) old.
Proof.
rewrite owned_app. intros [_ Hp]%Forall_app [_ [Hd _]]%NoDup_app. apply Forall_forall. intros p Hin. eapply Forall_forall in Hp as [H0 Hp]; [|exact Hin]. split; [done|].
destruct (pl p) as [h|] eqn:E; [exact Hp|]. destruct Hp as [Hb Hh]. split; [|exact Hh]. cbn. rewrite freed_lookup, decide_False; [done|]. intros Ho. apply (Hd _ Ho). apply owned_in. eauto.
Qed.

Lemma hunk_not_owned s rs h k : Forall (placed s) rs -> hunks s !! h = Some k -> h ∉ owned rs.
Proof.
intros Hp Ek Ho. apply owned_in in Ho as (p & Hin & E & <-). eapply Forall_forall in Hp as [_ Hp]; [|exact Hin]. rewrite E in Hp. destruct Hp as [_ ?]. congruence.
Qed.

Lemma pairs_app {A} (R : A -> A -> Prop) l k : ForallOrdPairs R (l ++ k) -> ForallOrdPairs R k /\ forall a b, a ∈ l -> b ∈ k -> R a b.
Proof.
induction l as [|x l IH]; cbn; intros H; [split; [done|set_solver]|]. inversion H as [|y ys Hx Hl]. subst. destruct (IH Hl) as [H1 H2]. split; [done|].
intros a b [->|Ha]%elem_of_cons Hb; [|by apply H2]. eapply Forall_forall; [exact Hx|]. apply elem_of_app. by right.
Qed.

Lemma Pop_ok s pos rs rs' lv : stackInv s pos (rs :: rs' :: lv) -> exists s', ncclMemoryStackPop s = (Done tt, s') /\ stackInv s' pos (rs' :: lv).
Proof.
intros Hi. pose proof (si_levels _ _ _ Hi) as [Hfr (H0 & Hin & f' & Ef & Hlv)]. pose proof (si_placed _ _ _ Hi) as Hp. pose proof (si_owned _ _ _ Hi) as Ho. pose proof (placed_freed s rs (concat (rs' :: lv)) Hp Ho) as Hp'.
cbn [concat] in *. unfold ncclMemoryStackPop. nred. rewrite owned_app in Ho. apply NoDup_app in Ho as (Ho & Hd & Ho'). pose proof (proj1 (proj1 (Forall_app _ _ _) Hp)) as Hpr.
rewrite (bind_step _ _ _ _ _ (frame_freed s pos (topFrame s) rs _ Hfr Hpr Ho ltac:(intros b n Eb; pose proof (si_blocks _ _ _ Hi _ _ Eb); lia))).
rewrite Ef. cbn [of_option]. nred. eexists. split; [reflexivity|]. set (s1 := s <| blocks := _ |>) in *. constructor; try apply Hi.
- apply (levels_ext (concat (rs' :: lv)) s pos); [constructor; eauto|done| |exact Hlv]. by apply Forall_app in Hp as [_ ?].
- exact Hp'.
- pose proof (si_apart _ _ _ Hi) as Ha. cbn [concat] in Ha. by apply pairs_app in Ha as [? _].
- exact Ho'.
- intros b n Eb. cbn in Eb. rewrite freed_lookup in Eb. case_decide; [done|]. by apply (si_blocks _ _ _ Hi).
- intros b n b' n' Eb Eb'. cbn in Eb, Eb'. rewrite freed_lookup in Eb, Eb'. repeat case_decide; [done..|]. by apply (si_blocks_apart _ _ _ Hi).
- intros h k Ek Hs. destruct (si_hunks _ _ _ Hi h k Ek Hs) as [Hb Hk]. split; [|done]. cbn. rewrite freed_lookup, decide_False; [done|]. by apply (hunk_not_owned s rs h k).
Qed.

(** ** Destruct *)

(** Every level but the last has its saved frame. *)
Lemma levels_count s pos : forall lv f, levelsOk s pos f lv -> ForallOrdPairs apart (concat lv) ->
exists ks, length lv = Datatypes.S (length ks) /\ NoDup ks /\ forall k, k ∈ ks -> is_Some (frames s !! k) /\ exists h, mkPiece (InHunk h) k sizeofFrame ∈ concat lv.
Proof.
induction lv as [|rs lv IH]; intros f; [done|]. intros [_ Ht] Ha. destruct lv as [|rs' lv]; [exists []; split_and!; [done|constructor|set_solver]|].
destruct Ht as (H0 & [h Hh] & f' & Ef & Hlv). change (concat (rs :: rs' :: lv)) with (rs ++ concat (rs' :: lv)) in *. apply pairs_app in Ha as [Ha Hc].
destruct (IH f' Hlv Ha) as (ks & Hlen & Hnd & Hks). exists (below f :: ks). split_and!; [cbn [length] in *; lia| |].
- constructor; [|done]. intros Hin. destruct (Hks _ Hin) as (_ & h' & Hh'). specialize (Hc _ _ Hh Hh'). unfold apart, sizeofFrame in Hc. cbn in Hc. lia.
- intros k [->|Hk]%elem_of_cons; [split; [by exists f'|exists h; set_solver]|]. destruct (Hks _ Hk) as (? & h' & Hh'). split; [done|]. exists h'. set_solver.
Qed.

Lemma levels_length s pos lv f : levelsOk s pos f lv -> ForallOrdPairs apart (concat lv) -> (length lv <= Datatypes.S (size (frames s)))%nat.
Proof.
intros Hl Ha. destruct (levels_count s pos lv f Hl Ha) as (ks & -> & Hnd & Hk). apply le_n_S. rewrite <- (size_list_to_set (C := gset Z)) by done. rewrite <- size_dom. apply subseteq_size.
intros v Hv. apply elem_of_list_to_set in Hv. apply elem_of_dom. by apply Hk.
Qed.

Lemma freeFrames_ok pos : forall lv s f fuel, levelsOk s pos f lv -> Forall (placed s) (concat lv) -> NoDup (owned (concat lv)) -> (forall b n, blocks s !! b = Some n -> b <> 0) ->
(length lv <= Datatypes.S fuel)%nat -> freeFrames fuel f s = (Done tt, s <| blocks := freed (owned (concat lv)) (blocks s) |>).
Proof.
induction lv as [|rs lv IH]; intros s f fuel; [done|]. intros [Hf Ht] Hp Ho Hb Hlen. pose proof (placed_freed s rs (concat lv) Hp Ho) as Hp'. cbn [concat] in *. rewrite owned_app in *. rewrite freed_app.
pose proof (proj1 (proj1 (NoDup_app _ _) Ho)) as Hnd. pose proof (proj2 (proj2 (proj1 (NoDup_app _ _) Ho))) as Hnd'. pose proof (proj1 (proj1 (Forall_app _ _ _) Hp)) as Hpr.
pose proof (frame_freed s pos f rs _ Hf Hpr Hnd Hb) as Hff. set (s1 := s <| blocks := freed (owned rs) (blocks s) |>) in *.
destruct lv as [|rs' lv].
- destruct fuel; cbn [freeFrames]; nred; rewrite (bind_step _ _ _ _ _ Hff), Ht; done.
- destruct Ht as (H0 & _ & f' & Ef & Hlv). destruct fuel as [|fuel]; [cbn in Hlen; lia|]. cbn [freeFrames]. nred. rewrite (bind_step _ _ _ _ _ Hff). rewrite (proj2 (Z.eqb_neq _ 0)) by done. rewrite Ef. cbn [of_option]. nred.
rewrite (IH s1 f' fuel); [done| |done|done| |cbn [length] in *; lia].
+ apply (levels_ext (concat (rs' :: lv)) s pos); [constructor; eauto|done| |exact Hlv]. by apply Forall_app in Hp as [_ ?].
+ intros b n Eb. cbn in Eb. rewrite freed_lookup in Eb. case_decide; [done|]. by apply (Hb b n).
Qed.

(** The hunks in [V] are freed; those of the chain from [h] on are not. *)
Lemma freeHunks_ok (pos : Z -> nat) : forall fuel h s (V : gset Z),
(forall h k, hunks s !! h = Some k -> above k <> 0 -> is_Some (hunks s !! above k) /\ pos (above k) = Datatypes.S (pos h)) ->
(forall h, is_Some (hunks s !! h) -> h ∉ V -> is_Some (blocks s !! h)) -> V ⊆ dom (hunks s) -> (h <> 0 -> is_Some (hunks s !! h) /\ forall v, v ∈ V -> (pos v < pos h)%nat) -> (size (hunks s) < size V + fuel)%nat ->
exists b', freeHunks fuel h s = (Done tt, s <| blocks := b' |>) /\ forall x, blocks s !! x = None -> b' !! x = None.
Proof.
induction fuel as [|fuel IH]; intros h s V Ha Hb HV Hh Hsz.
- pose proof (subseteq_size _ _ HV) as Hs. rewrite size_dom in Hs. lia.
- cbn. destruct (h =? 0) eqn:E0; [exists (blocks s); by destruct s|]. apply Z.eqb_neq in E0. destruct (Hh E0) as [[k Ek] Hlt]. nred. rewrite Ek. cbn [of_option]. nred.
assert (Hn : h ∉ V) by (intros Hin; specialize (Hlt _ Hin); lia). destruct (Hb h ltac:(by exists k) Hn) as [m Em].
unfold free. rewrite (proj2 (Z.eqb_neq _ 0)) by done. rewrite bind_assoc. nred. rewrite Em. unfold modify, bind at 1. destruct (IH (above k) (s <| blocks := delete h (blocks s) |>) (V ∪ {[h]})) as (b' & -> & Hb'); [done| | | | |].
+ intros h' [k' Ek'] Hh'. cbn. rewrite lookup_delete_ne by set_solver. apply Hb; [by exists k'|set_solver].
+ cbn. apply union_subseteq. split; [done|]. apply singleton_subseteq_l, elem_of_dom. by exists k.
+ intros Hk0. destruct (Ha h k Ek Hk0) as [Hs1 Hp1]. split; [done|]. intros v [Hv| ->%elem_of_singleton]%elem_of_union; [specialize (Hlt _ Hv)|]; lia.
+ cbn. rewrite size_union by set_solver. rewrite size_singleton. lia.
+ exists b'. split; [done|]. intros x Hx. apply Hb'. cbn. destruct (decide (x = h)) as [->|]; [apply lookup_delete_eq|]. by rewrite lookup_delete_ne.
Qed.

Lemma Destruct_ok s pos lv : stackInv s pos lv -> exists s', ncclMemoryStackDestruct STUB s = (Done tt, s') /\ forall p, p ∈ concat lv -> pl p = Own -> blocks s' !! at_ p = None.
Proof.
intros Hi. unfold ncclMemoryStackDestruct. nred. set (s1 := s <| blocks := freed (owned (concat lv)) (blocks s) |>).
assert (Hf : freeFrames (Datatypes.S (size (frames s))) (topFrame s) s = (Done tt, s1)).
{ pose proof (levels_length _ _ _ _ (si_levels _ _ _ Hi) (si_apart _ _ _ Hi)). apply (freeFrames_ok pos); [apply Hi..| |lia]. intros b n Eb. pose proof (si_blocks _ _ _ Hi _ _ Eb). lia. }
rewrite (bind_step _ _ _ _ _ Hf). destruct (si_stub _ _ _ Hi) as (k & Ek & _). rewrite Ek. cbn [of_option]. nred.
destruct (freeHunks_ok pos (Datatypes.S (size (hunks s))) (above k) s1 {[STUB]}) as (b' & -> & Hb').
- intros h k' Ek' Hk'. by destruct (si_above _ _ _ Hi h k' Ek' Hk') as (_ & [k2 ?] & ?); split; [exists k2|].
- intros h [k' Ek'] Hh. destruct (si_hunks _ _ _ Hi h k' Ek') as [Hb _]; [set_solver|]. exists (hunkSize k'). cbn. rewrite freed_lookup, decide_False; [done|]. apply (hunk_not_owned s _ h k'); [apply Hi|done].
- apply singleton_subseteq_l, elem_of_dom. by exists k.
- intros Hk0. destruct (si_above _ _ _ Hi _ _ Ek Hk0) as (_ & [k2 ?] & Hp). split; [by exists k2|]. intros v ->%elem_of_singleton. lia.
- cbn. rewrite size_singleton. lia.
- eexists. split; [reflexivity|]. intros p Hin Ep. apply Hb'. cbn. rewrite freed_lookup, decide_True; [done|]. apply owned_in. eauto.
Qed.

(** ** Calls in a row *)

Record runInv (s : ncclMemoryStack) (lvo : list (list obj)) : Prop := {
ri_align : Forall (fun o => oAlign o <= 16 -> (oAlign o | oAt o)) (concat lvo);
ri_inv : exists pos lv, stackInv s pos lv /\ Forall2 (fun os rs => map objPiece os `sublist_of` map piecePiece rs) lvo lv;
}.

Lemma construct_inv : runInv (ncclMemoryStackConstruct STUB) [[]].
Proof.
constructor; [constructor|]. exists (fun _ => O), [[]]. split; [|by repeat constructor]. constructor; cbn; try by constructor.
- split; [|done]. constructor; [constructor| |exists []; split_and!; [done|constructor|done]]. exists (mkHunk 0 0). cbn. rewrite decide_True by done. split; [apply lookup_singleton_eq|done].
- intros h k [<- <-]%lookup_singleton_Some. done.
- exists (mkHunk 0 0). split; [apply lookup_singleton_eq|done].
- intros h k [<- <-]%lookup_singleton_Some. done.
Qed.

Lemma levels_nonempty s pos lv : stackInv s pos lv -> exists rs lv', lv = rs :: lv'.
Proof. intros Hi. pose proof (si_levels _ _ _ Hi) as Hl. destruct lv as [|rs lv]; [done|eauto]. Qed.

Lemma stackExec_ok s lvo op ops : runInv s lvo -> wfOps (pred (length lvo)) (op :: ops) -> match stackExec malloc op s with
| (Done r, s') => runInv s' (liveStep op r lvo) /\ wfOps (pred (length (liveStep op r lvo))) ops
| (Fail e, _) => e = ncclSystemError
| (Fault, _) => False
end.
Proof.
intros [Hal (pos & lv & Hi & Hs)] Hw. destruct (levels_nonempty _ _ _ Hi) as (rs & lv' & ->). inversion Hs as [|os ? lvo' ? Hos Hlvo]. subst. destruct op as [n a| |]; cbn [stackExec].
- destruct Hw as [(k & -> & Hok) Hw]. pose proof (allocate_ok s pos rs lv' n k Hi Hok) as Ha. destruct (allocate malloc n (2 ^ k) s) as [[p|e|] s']; [|done..].
destruct Ha as (pos' & added & q & Hi' & _ & Hin & Hat & Hlen & _ & _ & Hq). split; [|done]. constructor.
+ constructor; [|done]. cbn. intros Hk. destruct (decide (pl q = Own)); [|by destruct Hq]. destruct Hq as [_ Hd]. apply (Z.divide_trans _ 16); [|done].
destruct Hok as [_ Hk0]. change 16 with (2 ^ 4) in *. apply Z.pow_le_mono_r_iff in Hk; [|lia..]. exists (2 ^ (4 - k)). rewrite <- Z.pow_add_r by lia. f_equal. lia.
+ exists pos', ((added ++ rs) :: lv'). split; [done|]. constructor; [|done]. rewrite map_app. cbn [map]. change (?x :: ?l) with ([x] ++ l). apply sublist_app; [|done].
apply singleton_sublist_l. unfold objPiece. cbn. rewrite <- Hat, <- Hlen. by apply (list_elem_of_fmap_2 piecePiece added q).
- pose proof (Push_ok s pos rs lv' Hi) as Hp. unfold bind. destruct (ncclMemoryStackPush malloc s) as [[u|e|] s']; [|done..]. destruct Hp as (pos' & q & Hi'). split; [|done]. constructor; [done|].
exists pos', ([q] :: rs :: lv'). split; [done|]. constructor; [apply sublist_nil_l|by constructor].
- destruct lvo' as [|os' lvo']; [done|]. inversion Hlvo as [|? rs' ? lv'' Hos' Hlvo']. subst. destruct (Pop_ok s pos rs rs' lv'' Hi) as (s' & E & Hi'). rewrite (bind_step _ _ _ _ _ E). split; [|exact Hw]. constructor.
+ cbn in Hal. by apply Forall_app in Hal as [_ ?].
+ exists pos, (rs' :: lv''). split; [done|by constructor].
Qed.

Lemma stackRun_ok : forall ops s lvo, runInv s lvo -> wfOps (pred (length lvo)) ops -> match stackRun malloc ops s with
| (Done rs, s') => runInv s' (liveAfter ops rs lvo)
| (Fail e, _) => e = ncclSystemError
| (Fault, _) => False
end.
Proof.
induction ops as [|op ops IH]; intros s lvo Hi Hw; [done|]. pose proof (stackExec_ok s lvo op ops Hi Hw) as He. cbn [stackRun]. unfold bind at 1.
destruct (stackExec malloc op s) as [[r|e|] s1]; [|done..]. destruct He as [Hi1 Hw1]. specialize (IH s1 _ Hi1 Hw1). unfold bind. destruct (stackRun malloc ops s1) as [[rs|e|] s2]; [|done..]. exact IH.
Qed.

Lemma pairs_sublist {A} (R : A -> A -> Prop) l k : l `sublist_of` k -> ForallOrdPairs R k -> ForallOrdPairs R l.
Proof.
induction 1 as [|x l k Hs IH|x l k Hs IH]; intros H; [constructor|inversion H as [|? ? Hx Hl]; subst..]; [|by apply IH]. constructor; [|by apply IH].
apply Forall_forall. intros y Hy. eapply Forall_forall; [exact Hx|]. by apply (sublist_subseteq _ _ Hs).
Qed.

Lemma concat_sublist lvo lv : Forall2 (fun os rs => map objPiece os `sublist_of` map piecePiece rs) lvo lv -> map objPiece (concat lvo) `sublist_of` map piecePiece (concat lv).
Proof. induction 1 as [|os rs lvo lv Hs _ IH]; [done|]. cbn. rewrite !map_app. by apply sublist_app. Qed.

Lemma pairs_map {A B} (R : B -> B -> Prop) (f : A -> B) l : ForallOrdPairs R (map f l) <-> ForallOrdPairs (fun x y => R (f x) (f y)) l.
Proof.
induction l as [|x l IH]; [split; constructor|]. split; intros H; inversion H as [|? ? Hx Hl]; subst; constructor; [|by apply IH| |by apply IH].
- apply Forall_forall. intros y Hy. eapply Forall_forall in Hx; [exact Hx|]. by apply (list_elem_of_fmap_2 f l y).
- apply Forall_forall. intros z (y & -> & Hy)%(list_elem_of_fmap f). eapply Forall_forall in Hx; [exact Hx|done].
Qed.

Lemma runInv_apart s lvo : runInv s lvo -> ForallOrdPairs (fun x y => apartZ (objPiece x) (objPiece y)) (concat lvo).
Proof.
intros [_ (pos & lv & Hi & Hs)]. apply pairs_map. apply (pairs_sublist _ _ _ (concat_sublist _ _ Hs)). apply pairs_map. exact (si_apart _ _ _ Hi).
Qed.

Lemma runInv_objOk s lvo : runInv s lvo -> Forall (objOk s) (concat lvo).
Proof.
intros [Hal (pos & lv & Hi & Hs)]. apply Forall_forall. intros o Ho. split; [by eapply Forall_forall in Hal|]. pose proof (sublist_subseteq _ _ (concat_sublist _ _ Hs)) as Hsub.
assert (Hin : objPiece o ∈ map piecePiece (concat lv)) by (apply Hsub; by apply (list_elem_of_fmap_2 objPiece)). apply (list_elem_of_fmap piecePiece) in Hin as (p & Ep & Hp). injection Ep as Ea El. rewrite Ea, El.
pose proof (si_placed _ _ _ Hi) as Hpl. eapply Forall_forall in Hpl as [Hl Hpl]; [|exact Hp]. destruct (pl p) as [h|]; [|exists (at_ p), (len p); split_and!; [apply Hpl|lia..]].
destruct Hpl as (Hst & k & Ek & H1 & H2). destruct (si_hunks _ _ _ Hi _ _ Ek Hst) as [Hb _]. exists h, (hunkSize k). unfold sizeofHunk in H1. split_and!; [done|lia..].
Qed.

Lemma runInv_destruct s lvo : runInv s lvo -> exists s', ncclMemoryStackDestruct STUB s = (Done tt, s').
Proof. intros [_ (pos & lv & Hi & _)]. destruct (Destruct_ok s pos lv Hi) as (s' & E & _). by exists s'. Qed.

(** C31. The memory stack keeps its objects apart, whatever the calls: any allocations, pushes and
pops of what was pushed, from a new stack, all return (or the process ends because the heap is
exhausted), none reads memory it has not written, and afterwards the objects allocated at the
levels that are not popped are disjoint from each other, lie in blocks that are not freed, and are
aligned as asked, up to the 16 bytes of the heap; and the destructor then returns, having freed
no block twice and nothing that is not a block. *)
Theorem MemStack_objects_apart ops : wfOps 0 ops -> match stackRun malloc ops (ncclMemoryStackConstruct STUB) with
| (Done rs, s) => let live := concat (liveAfter ops rs [[]]) in
 ForallOrdPairs (fun x y => apartZ (objPiece x) (objPiece y)) live /\ Forall (objOk s) live /\ exists s', ncclMemoryStackDestruct STUB s = (Done tt, s')
| (Fail e, _) => e = ncclSystemError
| (Fault, _) => False
end.
Proof.
intros Hw. pose proof (stackRun_ok ops _ _ construct_inv Hw) as Hr. destruct (stackRun malloc ops _) as [[rs|e|] s]; [|done..].
split_and!; [by apply (runInv_apart s)|by apply runInv_objOk|by apply (runInv_destruct s (liveAfter ops rs [[]]))].
Qed.
End Stack.

(** ** A heap *)

(** Blocks one after the other, aligned to 16 bytes. *)
Definition heapTop (bs : gmap Z Z) : Z := map_fold (fun b m top => Z.max top (Z.max (b + 1) (b + m))) 4096 bs.

Definition demoMalloc (bs : gmap Z Z) (n : Z) : Z :=
let p := (heapTop bs + 15) / 16 * 16 in if p + n <=? 2 ^ 62 then p else 0.

Lemma heapTop_above bs : 4096 <= heapTop bs /\ forall b m, bs !! b = Some m -> b + 1 <= heapTop bs /\ b + m <= heapTop bs.
Proof.
unfold heapTop. apply (map_fold_weak_ind (fun top bs => 4096 <= top /\ forall b m, bs !! b = Some m -> b + 1 <= top /\ b + m <= top)); [split; [done|]; intros b m E; by rewrite lookup_empty in E|].
intros i x m r Hi [H0 H]. split; [lia|]. intros b y [[<- <-]|[_ E]]%lookup_insert_Some; [lia|]. destruct (H _ _ E). lia.
Qed.

Lemma demoMalloc_spec : mallocSpec demoMalloc 1.
Proof.
constructor.
- intros bs n p b m <- Hp Hn E. destruct (heapTop_above bs) as [H0 H]. destruct (H _ _ E). revert Hp. unfold demoMalloc. destruct (_ <=? _) eqn:?; [|done]. intros _.
  pose proof (Z.div_mod (heapTop bs + 15) 16 ltac:(lia)). pose proof (Z.mod_pos_bound (heapTop bs + 15) 16 ltac:(lia)). split; [lia|right; lia].
- intros bs n p <- Hp Hn. destruct (heapTop_above bs) as [H0 _]. revert Hp. unfold demoMalloc. destruct (_ <=? _) eqn:E; [|done]. intros _. apply Z.leb_le in E.
  pose proof (Z.div_mod (heapTop bs + 15) 16 ltac:(lia)). pose proof (Z.mod_pos_bound (heapTop bs + 15) 16 ltac:(lia)). split_and!; [lia|done|by apply Z.divide_factor_r|lia].
Qed.

(** Small and large objects, at two levels. *)
Definition demoOps : list StackOp := [Alloc 24 8; Push; Alloc 100000 8; Alloc 16 16; Pop; Alloc 60000 8; Alloc 65000 8].

Lemma MemStack_objects_apart_witness : wfOps 0 demoOps /\ exists rs s, stackRun demoMalloc demoOps (ncclMemoryStackConstruct 1) = (Done rs, s) /\ length (concat (liveAfter demoOps rs [[]])) = 3%nat
/\ ForallOrdPairs (fun x y => apartZ (objPiece x) (objPiece y)) (concat (liveAfter demoOps rs [[]])).
Proof.
assert (Hw : wfOps 0 demoOps).
{ repeat split; try lia; [exists 3|exists 3|exists 4|exists 3|exists 3]; unfold okSize; lia. }
split; [exact Hw|]. pose proof (MemStack_objects_apart demoMalloc 1 demoMalloc_spec demoOps Hw) as H.
destruct (stackRun demoMalloc demoOps (ncclMemoryStackConstruct 1)) as [[rs|e|] s] eqn:E; [|by vm_compute in E..]. destruct H as (H & _). exists rs, s. split; [done|]. split; [|exact H].
vm_compute in E. by injection E as <- _.
Defined.

(** A hunk that waits above the top and is too small for an object is overwritten by a new one, and
is then lost: after the stack is destroyed its block is still there. *)
Lemma hunk_above_leaks : exists s', (stackRun demoMalloc [Push; Pop; Alloc 65536 8] ;;; ncclMemoryStackDestruct 1)%nccl (ncclMemoryStackConstruct 1) = (Done tt, s') /\ blocks s' !! 4096 = Some 65536.
Proof. eexists. split; vm_compute; reflexivity. Qed.

(** An object of its own is only aligned as [malloc] aligns. *)
Lemma own_object_misaligned : exists p s', stackRun demoMalloc [Alloc 8 8; Alloc 100016 64; Alloc 100000 64] (ncclMemoryStackConstruct 1) = (Done [4112; 69632; p], s') /\ p mod 64 <> 0.
Proof. eexists _, _. split; vm_compute; [reflexivity|done]. Qed.
