(* ===== verification/Params.v ===== *)
(** * Configuration of the transport ([misc/param.cc], [include/param.h])

    The variables of the environment, completed from the configuration files the first time
    one is read, and the parameters read from them, which are cached unless the user lists
    them in [NCCL_NO_CACHE].  A call is atomic: the code holds a mutex, or is called once. *)

From S2P Require Import Prelude CStr HostUtils.

Open Scope Z_scope.
Open Scope nccl_scope.

Definition EQUALS : ascii := chr 61.
Definition CR : ascii := chr 13.
Arguments EQUALS : simpl never.
Arguments CR : simpl never.

Definition INT64_MIN : Z := - 2 ^ 63.

(** ** Library functions *)

(** [setenv(name, value, overwrite)]: a name that is empty or has a [=] changes nothing. *)
Definition setenv (name value : cstring) (overwrite : bool) (env : gmap cstring cstring) : gmap cstring cstring :=
match name with
| [] => env
| _ =>
 if existsb (fun c => ceqb c EQUALS) name then env
 else if overwrite then <[name := value]> env
 else match env !! name with Some _ => env | None => <[name := value]> env end
end.

Definition digitIn (base : Z) (c : ascii) : option Z :=
match hex_value c with Some v => if v <? base then Some v else None | None => None end.

Fixpoint digitsIn (base : Z) (s : cstring) (acc : Z) : Z :=
match s with
| c :: s' => match digitIn base c with Some v => digitsIn base s' (acc * base + v) | None => acc end
| [] => acc
end.

(** The base that [strtoll(s, NULL, 0)] finds, and the digits. *)
Definition baseOf (s : cstring) : Z * cstring :=
match s with
| z :: x :: d :: r => if (code z =? 48) && (code (tolower x) =? 120) && bool_decide (is_Some (hex_value d)) then (16, d :: r) else if code z =? 48 then (8, s) else (10, s)
| z :: _ => if code z =? 48 then (8, s) else (10, s)
| [] => (10, s)
end.

(** The value, and whether [errno] is set; a text that is no number is 0, and sets nothing. *)
Definition strtoll (s : cstring) : Z * bool :=
let '(neg, s1) := sign (drop_while is_space s) in
let '(base, s2) := baseOf s1 in
let v := digitsIn base s2 0 in
if neg then if 2 ^ 63 <? v then (INT64_MIN, true) else (- v, false)
else if LONG_MAX <? v then (LONG_MAX, true) else (v, false).

(** ** The state of the process *)

(** The two statics of a parameter. *)
Record Param := mkParam { cache : Z; noCache : Z }.
#[export] Instance eta_Param : Eta Param := fun r => mkParam (cache r) (noCache r).

Record Process := mkProcess { environ : gmap cstring cstring; envRead : bool; uncached : option (gset cstring); params : gmap Z Param }.
#[export] Instance eta_Process : Eta Process := fun r => mkProcess (environ r) (envRead r) (uncached r) (params r).

Definition param (w : Process) (id : Z) : Param := default (mkParam INT64_MIN (-1)) (params w !! id).
Definition setParam (id : Z) (f : Param -> Param) (w : Process) : Process := w <| params := <[id := f (param w id)]> (params w) |>.

Definition getenv (name : cstring) (w : Process) : option cstring := environ w !! name.
Definition userHomeDir (w : Process) : option cstring := getenv (lit "HOME") w.

(** ** The configuration files *)

Definition chop (c : ascii) (s : cstring) : cstring :=
match rev s with x :: r => if ceqb x c then rev r else s | [] => [] end.

(** The assignment of a line: none in a comment or a line without a [=]. *)
Definition envLine (raw : cstring) : option (cstring * cstring) :=
let line := chop CR (chop NL (cstr raw)) in
if match line with c :: _ => ceqb c HASH | [] => false end then None
else match drop_while (fun c => negb (ceqb c EQUALS)) line with
| [] => None
| _ :: value => Some (take 1023 (take_while (fun c => negb (ceqb c EQUALS)) line), take 1023 value)
end.

Section Files.
(** What [fopen] gives for a name. *)
Context (file : cstring -> option cstring).

Definition setEnvFile (fileName : cstring) : comp Process unit :=
match file fileName with
| None => ret tt
| Some content =>
 modify (fun w => w <| environ := fold_left (fun env line => match envLine line with Some (name, value) => setenv name value false env | None => env end)
 (file_lines 4095 content) (environ w) |>)
end.

Definition initEnvFunc : comp Process unit :=
let* w := getS in
match getenv (lit "NCCL_CONF_FILE") w with
| Some (c :: userFile) => setEnvFile (snprintf_s 1024 (c :: userFile))
| _ => match userHomeDir w with Some userDir => setEnvFile (snprintf_s 1024 (userDir ++ lit "/.nccl.conf")) | None => ret tt end
end ;;;
setEnvFile (lit "/etc/nccl.conf").

Definition initEnv : comp Process unit :=
let* w := getS in
if envRead w then ret tt else initEnvFunc ;;; modify (fun w => w <| envRead := true |>).

Definition ncclGetEnv (name : cstring) : comp Process (option cstring) := initEnv ;;; gets (getenv name).

(** ** Parameters *)

Definition isWs (c : ascii) : bool := ceqb c SP || ceqb c TAB || ceqb c CR || ceqb c NL.
Definition trimWs (s : cstring) : cstring := rev (drop_while isWs (rev (drop_while isWs s))).

(** The names between the commas, without the blanks around them. *)
Fixpoint cacheNames (fuel : nat) (s : cstring) : list cstring :=
match fuel, s with
| Datatypes.S n, _ :: _ =>
 let key := trimWs (take_while (fun c => negb (ceqb c COMMA)) s) in
 (match key with [] => [] | _ => [key] end) ++ match drop_while (fun c => negb (ceqb c COMMA)) s with [] => [] | _ :: r => cacheNames n r end
| _, _ => []
end.

Definition readUncached : comp Process (gset cstring) :=
let* w := getS in
match uncached w with
| Some names => ret names
| None =>
 let* value := ncclGetEnv (lit "NCCL_NO_CACHE") in
 let names := list_to_set (match value with Some s => cacheNames (length s) s | None => [] end) in
 modify (fun w => w <| uncached := Some names |>) ;;; ret names
end.

Definition ncclGetCachePolicy (env : cstring) : comp Process Z :=
let* names := readUncached in
ret (if negb (list_eqb env (lit "NCCL_NO_CACHE")) && (bool_decide (lit "ALL" ∈ names) || bool_decide (env ∈ names)) then 1 else 0).

Definition ncclLoadParam (id : Z) (env : cstring) (deftVal uninitialized : Z) : comp Process Z :=
let* w := getS in
when (noCache (param w id) =? -1) (let* b := ncclGetCachePolicy env in modify (setParam id (fun p => p <| noCache := b |>))) ;;;
let* w := getS in
if negb (cache (param w id) =? uninitialized) then ret (cache (param w id))
else
let* str := ncclGetEnv env in
let value := match str with Some (c :: s) => let '(v, errno) := strtoll (c :: s) in if errno then deftVal else v | _ => deftVal end in
let* w := getS in
when (noCache (param w id) =? 0) (modify (setParam id (fun p => p <| cache := value |>))) ;;;
ret value.

(** The function that [NCCL_PARAM(name, env, deftVal)] defines. *)
Definition NCCL_PARAM (id : Z) (env : cstring) (deftVal : Z) : comp Process Z :=
let* w := getS in
if cache (param w id) =? INT64_MIN then ncclLoadParam id (lit "NCCL_" ++ env) deftVal INT64_MIN else ret (cache (param w id)).

(** ** Calls in a row *)

(** The application may change its environment in between. *)
Inductive ParamOp := ReadParam (id : Z) | ReadEnv (name : cstring) | AppSetenv (name value : cstring).

(** The name and the default of a parameter. *)
Context (decl : Z -> cstring * Z).

Definition paramExec (op : ParamOp) : comp Process (option cstring + Z) :=
match op with
| ReadParam id => let* v := NCCL_PARAM id (decl id).1 (decl id).2 in ret (inr v)
| ReadEnv name => let* v := ncclGetEnv name in ret (inl v)
| AppSetenv name value => modify (fun w => w <| environ := setenv name value true (environ w) |>) ;;; ret (inl None)
end.

Fixpoint paramRun (ops : list ParamOp) : comp Process (list (option cstring + Z)) :=
match ops with
| [] => ret []
| op :: ops => let* r := paramExec op in let* rs := paramRun ops in ret (r :: rs)
end.
End Files.

Definition startProcess (env : gmap cstring cstring) : Process := mkProcess env false None ∅.

(** ** Examples *)

Example reads_numbers : strtoll (lit " 0x1F") = (31, false) /\ strtoll (lit "-017k") = (-15, false) /\ strtoll (lit "9223372036854775808") = (LONG_MAX, true)
/\ strtoll (lit "yes") = (0, false).
Proof. vm_compute. done. Qed.

Example reads_lines : envLine (lit "NCCL_DEBUG=INFO" ++ [CR; NL]) = Some (lit "NCCL_DEBUG", lit "INFO") /\ envLine (lit "# A=B") = None /\ envLine (lit "A") = None.
Proof. vm_compute. done. Qed.

Example reads_names : cacheNames 30 (lit " A, B ,,C") = [lit "A"; lit "B"; lit "C"].
Proof. vm_compute. done. Qed.
