(* ===== verification/ParamsSpec.v ===== *)
(** * Configuration of the transport, verified

    Which value a variable has when several files set it, and what a parameter reads,
    whenever it is read; files of assignments are read as they were written. *)

From S2P Require Import Prelude CStr TunerConfig HostUtils HostSpec Params.

Open Scope Z_scope.
Open Scope nccl_scope.

(** ** The specification *)

(** The assignments of a file. *)
Definition assignments (content : option cstring) : list (cstring * cstring) :=
match content with Some c => filter (fun p => p.1 <> []) (omap envLine (file_lines 4095 c)) | None => [] end.

Definition numberOr (deftVal : Z) (str : option cstring) : Z :=
match str with Some (c :: s) => let '(v, errno) := strtoll (c :: s) in if errno then deftVal else v | _ => deftVal end.

(** [NCCL_NO_CACHE] itself is always cached. *)
Definition cacheable (names : gset cstring) (env : cstring) : bool :=
bool_decide (env = lit "NCCL_NO_CACHE") || bool_decide (lit "ALL" ∉ names /\ env ∉ names).

Record Spec := mkSpec { s_env : gmap cstring cstring; s_read : bool; s_names : option (gset cstring); s_memo : gmap Z Z }.
#[export] Instance eta_Spec : Eta Spec := fun r => mkSpec (s_env r) (s_read r) (s_names r) (s_memo r).

Section Files.
Context (file : cstring -> option cstring) (decl : Z -> cstring * Z).

Definition userFile (env : gmap cstring cstring) : list (cstring * cstring) :=
match env !! lit "NCCL_CONF_FILE" with
| Some (c :: s) => assignments (file (take 1023 (c :: s)))
| _ => match env !! lit "HOME" with Some d => assignments (file (take 1023 (d ++ lit "/.nccl.conf"))) | None => [] end
end.

(** The environment first, then the user's file, then the file of the machine; in a file the
first assignment. *)
Definition configured (env : gmap cstring cstring) : gmap cstring cstring :=
env ∪ list_to_map (userFile env) ∪ list_to_map (assignments (file (lit "/etc/nccl.conf"))).

Definition specBoot (s : Spec) : Spec := if s_read s then s else s <| s_env := configured (s_env s) |> <| s_read := true |>.

Definition listed (env : gmap cstring cstring) : gset cstring :=
list_to_set (match env !! lit "NCCL_NO_CACHE" with Some v => cacheNames (length v) v | None => [] end).

(** The names are those that are listed when the first parameter is read. *)
Definition specNames (s : Spec) : gset cstring * Spec :=
match s_names s with
| Some n => (n, s)
| None => let s := specBoot s in (listed (s_env s), s <| s_names := Some (listed (s_env s)) |>)
end.

Definition specParam (id : Z) (s : Spec) : Z * Spec :=
match s_memo s !! id with
| Some v => (v, s)
| None =>
 let name := lit "NCCL_" ++ (decl id).1 in
 let '(n, s) := specNames s in
 let v := numberOr (decl id).2 (s_env s !! name) in
 (v, if cacheable n name && negb (v =? INT64_MIN) then s <| s_memo := <[id := v]> (s_memo s) |> else s)
end.

Definition specExec (op : ParamOp) (s : Spec) : (option cstring + Z) * Spec :=
match op with
| ReadParam id => let '(v, s) := specParam id s in (inr v, s)
| ReadEnv name => let s := specBoot s in (inl (s_env s !! name), s)
| AppSetenv name value => (inl None, s <| s_env := setenv name value true (s_env s) |>)
end.

Fixpoint specRun (ops : list ParamOp) (s : Spec) : list (option cstring + Z) :=
match ops with [] => [] | op :: ops => let '(r, s) := specExec op s in r :: specRun ops s end.

(** ** Reading the files *)

Lemma existsb_take_while (p : ascii -> bool) n s : existsb p (take n (take_while (fun c => negb (p c)) s)) = false.
Proof. revert n. induction s as [|c s IH]; intros n; cbn; [by destruct n|]. destruct (p c) eqn:E; cbn; [by destruct n|]. destruct n; cbn; [done|]. by rewrite E, IH. Qed.

Lemma envLine_name line name value : envLine line = Some (name, value) -> existsb (fun c => ceqb c EQUALS) name = false.
Proof.
unfold envLine. set (l := chop CR _). destruct (match l with [] => _ | _ => _ end); [done|]. destruct (drop_while _ l); [done|]. intros [= <- _]. apply (existsb_take_while (fun c => ceqb c EQUALS)).
Qed.

Lemma union_nil (env : gmap cstring cstring) : env ∪ list_to_map [] = env.
Proof. apply (right_id_L ∅ (∪)). Qed.

(** An assignment that does not overwrite. *)
Lemma setenv_union name value env : existsb (fun c => ceqb c EQUALS) name = false -> setenv name value false env = env ∪ list_to_map (if decide (name <> []) then [(name, value)] else []).
Proof.
intros Hn. unfold setenv. destruct name as [|c name]; [rewrite decide_False by naive_solver; by rewrite union_nil|]. rewrite Hn, decide_True by done. cbn [list_to_map foldr fst snd uncurry].
destruct (env !! (c :: name)) as [v|] eqn:E; apply map_eq; intros x; rewrite lookup_union.
- destruct (decide (x = c :: name)) as [->|Hx]; [rewrite E, lookup_insert_eq; done|]. rewrite lookup_insert_ne, lookup_empty by done. by destruct (env !! x).
- destruct (decide (x = c :: name)) as [->|Hx]; [by rewrite E, !lookup_insert_eq|]. rewrite !lookup_insert_ne, lookup_empty by done. by destruct (env !! x).
Qed.

Lemma setEnvFile_ok fileName w : setEnvFile file fileName w = (Done tt, w <| environ := environ w ∪ list_to_map (assignments (file fileName)) |>).
Proof.
unfold setEnvFile, assignments. destruct (file fileName) as [content|]; [|unfold ret; do 2 f_equal; destruct w as [e ? ? ?]; unfold update; cbn; by rewrite union_nil].
unfold modify. do 2 f_equal. generalize (file_lines 4095 content) (environ w). induction l as [|line lines IH]; intros env; [cbn; by rewrite union_nil|].
cbn [fold_left]. rewrite IH. destruct (envLine line) as [[name value]|] eqn:E; [|cbn; by rewrite E]. rewrite setenv_union by (by eapply envLine_name). cbn [omap list_omap]. rewrite E. rewrite filter_cons. cbn [fst].
destruct (decide (name <> [])) as [Hn|Hn].
- rewrite <- (assoc_L (∪)). f_equal. by rewrite !list_to_map_cons, list_to_map_nil, insert_empty, <- insert_union_singleton_l.
- by rewrite union_nil.
Qed.

Lemma initEnv_ok w : initEnv file w = (Done tt, if envRead w then w else w <| environ := configured (environ w) |> <| envRead := true |>).
Proof.
unfold initEnv. nred. destruct (envRead w); [done|]. unfold initEnvFunc. rewrite bind_assoc. nred. unfold configured, userFile, userHomeDir, getenv, snprintf_s.
assert (Hdone : forall m1 s1, m1 w = (Done tt, w <| environ := s1 |>) -> (bind (bind m1 (fun _ => setEnvFile file (lit "/etc/nccl.conf"))) (fun _ => modify (fun w => w <| envRead := true |>))) w
 = (Done tt, w <| environ := s1 ∪ list_to_map (assignments (file (lit "/etc/nccl.conf"))) |> <| envRead := true |>)).
{ intros m1 s1 E. rewrite bind_assoc, (bind_step _ _ _ _ _ E). by rewrite (bind_step _ _ _ _ _ (setEnvFile_ok _ _)). }
destruct (environ w !! lit "NCCL_CONF_FILE") as [[|c s]|]; [|apply Hdone, setEnvFile_ok|]; destruct (environ w !! lit "HOME") as [d|]; apply Hdone; try apply setEnvFile_ok;
 destruct w as [e ? ? ?]; unfold update; cbn; by rewrite union_nil.
Qed.

(** ** The refinement *)

Record sim (w : Process) (s : Spec) : Prop := {
sim_env : environ w = s_env s;
sim_read : envRead w = s_read s;
sim_names : uncached w = s_names s;
sim_booted : s_names s <> None -> s_read s = true;
sim_cache : forall id, cache (param w id) = default INT64_MIN (s_memo s !! id) /\ s_memo s !! id <> Some INT64_MIN;
sim_policy : forall id, noCache (param w id) = -1 \/ exists n, s_names s = Some n /\ noCache (param w id) = if cacheable n (lit "NCCL_" ++ (decl id).1) then 0 else 1;
}.

Lemma boot_ok w s : sim w s -> exists w', initEnv file w = (Done tt, w') /\ sim w' (specBoot s) /\ forall id, param w' id = param w id.
Proof.
intros Hs. rewrite initEnv_ok. eexists. split; [reflexivity|]. unfold specBoot. rewrite (sim_read _ _ Hs). destruct (s_read s) eqn:E; [by split|]. split; [|done].
destruct Hs as [H1 H2 H3 H4 H5 H6]. constructor; cbn; [by rewrite H1|done..].
Qed.

Lemma getEnv_ok name w s : sim w s -> exists w', ncclGetEnv file name w = (Done (s_env (specBoot s) !! name), w') /\ sim w' (specBoot s) /\ forall id, param w' id = param w id.
Proof.
intros Hs. destruct (boot_ok w s Hs) as (w' & E & Hs' & Hp). exists w'. unfold ncclGetEnv. rewrite (bind_step _ _ _ _ _ E). split; [|done]. unfold gets, getenv. by rewrite (sim_env _ _ Hs').
Qed.

Lemma names_ok w s : sim w s -> exists w', readUncached file w = (Done (specNames s).1, w') /\ sim w' (specNames s).2 /\ forall id, param w' id = param w id.
Proof.
intros Hs. unfold readUncached, specNames. nred. rewrite (sim_names _ _ Hs). destruct (s_names s) as [n|] eqn:En; [by exists w|].
destruct (getEnv_ok (lit "NCCL_NO_CACHE") w s Hs) as (w' & E & Hs' & Hp). rewrite (bind_step _ _ _ _ _ E). eexists. split; [reflexivity|]. split; [|done].
destruct Hs' as [H1 H2 H3 H4 H5 H6]. assert (Hr : s_read (specBoot s) = true) by (unfold specBoot; by destruct (s_read s) eqn:?).
assert (Hb : s_names (specBoot s) = None) by (unfold specBoot; by destruct (s_read s)). constructor; cbn; [done|done|done|done|done|].
intros id. destruct (H6 id) as [H|(n & Hn & _)]; [by left|congruence].
Qed.

Lemma policy_ok (env : cstring) (n : gset cstring) : (if negb (list_eqb env (lit "NCCL_NO_CACHE")) && (bool_decide (lit "ALL" ∈ n) || bool_decide (env ∈ n)) then 1 else 0) = if cacheable n env then 0 else 1.
Proof.
unfold cacheable. assert (list_eqb env (lit "NCCL_NO_CACHE") = bool_decide (env = lit "NCCL_NO_CACHE")) as ->.
{ destruct (list_eqb env _) eqn:E; [apply cstr_eqb_eq in E; by rewrite bool_decide_true|]. rewrite bool_decide_false; [done|]. intros Hx. apply cstr_eqb_eq in Hx. congruence. }
repeat case_bool_decide; cbn; naive_solver.
Qed.

Lemma specNames_read s : (s_names s <> None -> s_read s = true) -> s_read (specNames s).2 = true /\ s_names (specNames s).2 = Some (specNames s).1 /\ s_memo (specNames s).2 = s_memo s.
Proof.
intros H. unfold specNames. destruct (s_names s) as [n|] eqn:E; cbn; [split_and!; [by apply H|done..]|]. unfold specBoot. by destruct (s_read s) eqn:?.
Qed.

Lemma param_set id id' f w : param (setParam id f w) id' = if decide (id = id') then f (param w id) else param w id'.
Proof. unfold param at 1, setParam. cbn. destruct (decide (id = id')) as [->|H]; [by rewrite lookup_insert_eq|by rewrite lookup_insert_ne]. Qed.

(** The policy of a parameter is settled when it is first read. *)
Lemma settle_ok id w s : sim w s -> s_memo s !! id = None -> exists w', when (noCache (param w id) =? -1) (let* b := ncclGetCachePolicy file (lit "NCCL_" ++ (decl id).1) in modify (setParam id (fun p => p <| noCache := b |>))) w = (Done tt, w')
 /\ sim w' (specNames s).2 /\ noCache (param w' id) = if cacheable (specNames s).1 (lit "NCCL_" ++ (decl id).1) then 0 else 1.
Proof.
intros Hs Hm. destruct (sim_policy _ _ Hs id) as [Hp|(n & Hn & Hp)].
- rewrite Hp. cbn [when Z.eqb Pos.eqb]. destruct (names_ok w s Hs) as (w1 & E & Hs1 & Hp1). unfold ncclGetCachePolicy. rewrite bind_assoc, (bind_step _ _ _ _ _ E). nred. rewrite policy_ok. eexists. split; [reflexivity|].
destruct (specNames_read s (sim_booted _ _ Hs)) as (Hr & Hn & _). split; [|rewrite param_set, decide_True by done; done]. destruct Hs1 as [H1 H2 H3 H4 H5 H6]. constructor; try done.
+ intros id'. rewrite param_set. destruct (decide (id = id')) as [<-|]; [exact (H5 id)|exact (H5 id')].
+ intros id'. rewrite param_set. destruct (decide (id = id')) as [<-|]; [right; eexists; by split|exact (H6 id')].
- exists w. unfold specNames. rewrite Hn. cbn [fst snd]. rewrite Hp. split; [by destruct (cacheable _ _)|done].
Qed.

Lemma param_ok id w s : sim w s -> exists w', NCCL_PARAM file id (decl id).1 (decl id).2 w = (Done (specParam id s).1, w') /\ sim w' (specParam id s).2.
Proof.
intros Hs. unfold NCCL_PARAM, specParam. nred. destruct (sim_cache _ _ Hs id) as [Hc Hne]. rewrite Hc. destruct (s_memo s !! id) as [v|] eqn:Em.
{ change (default INT64_MIN (Some v)) with v. rewrite (proj2 (Z.eqb_neq v INT64_MIN)) by congruence. by exists w. }
change (default INT64_MIN None) with INT64_MIN. rewrite Z.eqb_refl. unfold ncclLoadParam. nred. destruct (settle_ok id w s Hs Em) as (w1 & E1 & Hs1 & Hp1). rewrite (bind_step _ _ _ _ _ E1). nred.
destruct (specNames_read s (sim_booted _ _ Hs)) as (Hr & Hn & Hm). destruct (specNames s) as [n s1]. cbn [fst snd] in *. destruct (sim_cache _ _ Hs1 id) as [Hc1 _]. rewrite Hm, Em in Hc1. change (default INT64_MIN None) with INT64_MIN in Hc1. rewrite Hc1, Z.eqb_refl. cbn [negb].
destruct (getEnv_ok (lit "NCCL_" ++ (decl id).1) w1 s1 Hs1) as (w2 & E2 & Hs2 & Hp2). rewrite (bind_step _ _ _ _ _ E2). assert (Hb : specBoot s1 = s1) by (unfold specBoot; by rewrite Hr). rewrite Hb in *.
cbv zeta. change (match s_env s1 !! _ with Some _ => _ | None => _ end) with (numberOr (decl id).2 (s_env s1 !! (lit "NCCL_" ++ (decl id).1))). set (v := numberOr _ _). nred. rewrite Hp2, Hp1.
destruct (cacheable n _) eqn:Ec; cbn [Z.eqb when andb]; [|nred; by exists w2]. unfold modify, bind. eexists. split; [reflexivity|]. cbn [fst snd]. destruct Hs2 as [H1 H2 H3 H4 H5 H6].
assert (Hsame : forall id', noCache (param (setParam id (fun p => p <| cache := v |>) w2) id') = noCache (param w2 id')) by (intros id'; rewrite param_set; by destruct (decide (id = id')) as [<-|]).
destruct (v =? INT64_MIN) eqn:Ev; cbn [negb]; constructor; try done.
- intros id'. rewrite param_set. destruct (decide (id = id')) as [<-|]; [|exact (H5 id')]. rewrite Hm, Em. apply Z.eqb_eq in Ev. cbn. by rewrite Ev.
- intros id'. rewrite Hsame. exact (H6 id').
- intros id'. rewrite param_set. cbn. destruct (decide (id = id')) as [<-|]; [rewrite lookup_insert_eq; cbn; apply Z.eqb_neq in Ev; split; [done|congruence]|rewrite lookup_insert_ne by done; exact (H5 id')].
- intros id'. rewrite Hsame. exact (H6 id').
Qed.

Lemma paramExec_ok op w s : sim w s -> exists w', paramExec file decl op w = (Done (specExec op s).1, w') /\ sim w' (specExec op s).2.
Proof.
intros Hs. destruct op as [id|name|name value]; cbn [paramExec specExec].
- destruct (param_ok id w s Hs) as (w' & E & Hs'). rewrite (bind_step _ _ _ _ _ E). destruct (specParam id s). by exists w'.
- destruct (getEnv_ok name w s Hs) as (w' & E & Hs' & _). rewrite (bind_step _ _ _ _ _ E). by exists w'.
- eexists. split; [reflexivity|]. destruct Hs as [H1 H2 H3 H4 H5 H6]. constructor; try done. cbn. by rewrite H1.
Qed.

Lemma paramRun_ok ops : forall w s, sim w s -> exists w', paramRun file decl ops w = (Done (specRun ops s), w').
Proof.
induction ops as [|op ops IH]; intros w s Hs; [by exists w|]. cbn [paramRun specRun]. destruct (paramExec_ok op w s Hs) as (w1 & E & Hs1). rewrite (bind_step _ _ _ _ _ E).
destruct (specExec op s) as [r s1]. destruct (IH w1 s1 Hs1) as (w2 & E2). rewrite (bind_step _ _ _ _ _ E2). by exists w2.
Qed.

(** C37. Parameters refine their specification, for any files and any reads of parameters and
variables in any order, with the application setting variables in between: the first read
completes the environment with the user's file ([NCCL_CONF_FILE], or [.nccl.conf] at home) and
then with [/etc/nccl.conf], neither of which overrides what is set, and the first assignment of a
file is the one that counts; a parameter has the value of its first read for ever, unless
[NCCL_NO_CACHE] listed it, or [ALL], when the first parameter was read: then it follows the
environment; a text out of range gives the default. *)
Theorem params_refine_spec env ops : fst (paramRun file decl ops (startProcess env)) = Done (specRun ops (mkSpec env false None ∅)).
Proof.
destruct (paramRun_ok ops (startProcess env) (mkSpec env false None ∅)) as (w & ->); [|done]. constructor; try done. intros id. left. done.
Qed.
End Files.

(** ** Files as they are written *)

Definition nameChar (c : ascii) : bool := line_char c && negb (ceqb c EQUALS).

(** A name and a value that a line can hold. *)
Definition assignOk (p : cstring * cstring) : bool :=
match p.1 with c :: _ => negb (ceqb c HASH) | [] => false end && forallb nameChar p.1 && forallb line_char p.2
&& negb (bool_decide (last p.2 = Some CR)) && bool_decide (length p.1 <= 1023)%nat && bool_decide (length p.2 <= 1023)%nat.

Definition renderConf (kvs : list (cstring * cstring)) : cstring := concat (map (fun p => p.1 ++ EQUALS :: p.2 ++ [NL]) kvs).

Lemma take_while_id (p : ascii -> bool) s : forallb p s = true -> take_while p s = s.
Proof. induction s as [|c s IH]; [done|]. cbn. intros [-> H]%andb_prop. by rewrite IH. Qed.

Lemma chop_snoc c s : chop c (s ++ [c]) = s.
Proof. unfold chop. rewrite rev_unit. by rewrite (proj2 (ceqb_eq c c) eq_refl), rev_involutive. Qed.

Lemma chop_other c s : last s <> Some c -> chop c s = s.
Proof.
unfold chop. destruct s as [|x s _] using rev_ind; [done|]. rewrite rev_unit, last_snoc, rev_involutive. intros H. destruct (ceqb x c) eqn:E; [apply ceqb_eq in E; congruence|done].
Qed.

Lemma last_assign (name value : cstring) : last value <> Some CR -> last (name ++ EQUALS :: value) <> Some CR.
Proof. destruct value as [|x v _] using rev_ind; [rewrite last_snoc; done|]. rewrite (app_comm_cons v), app_assoc, !last_snoc. done. Qed.

Lemma name_conf s : forallb nameChar s = true -> forallb line_char s = true /\ forallb (fun c => negb (ceqb c EQUALS)) s = true.
Proof. intros H. split; [apply (forallb_impl nameChar line_char)|apply (forallb_impl nameChar (fun c => negb (ceqb c EQUALS)))]; try done; by intros c [? ?]%andb_prop. Qed.

(** The characters of a line. *)
Lemma assign_chars p : assignOk p = true -> forallb line_char (p.1 ++ EQUALS :: p.2) = true /\ (length (p.1 ++ EQUALS :: p.2) <= 2047)%nat.
Proof.
unfold assignOk. intros [[[[[_ Hn]%andb_prop Hv]%andb_prop _]%andb_prop Hl1]%andb_prop Hl2]%andb_prop. apply bool_decide_eq_true in Hl1, Hl2. destruct (name_conf _ Hn) as [Hc _].
rewrite forallb_app, Hc. cbn [forallb]. rewrite Hv, length_app. cbn [length]. split; [done|lia].
Qed.

Lemma envLine_render p : assignOk p = true -> envLine ((p.1 ++ EQUALS :: p.2) ++ [NL]) = Some p.
Proof.
intros Hp. destruct (assign_chars p Hp) as [Hc _]. unfold assignOk in Hp. destruct p as [[|c name] value]; [done|]. cbn [fst snd] in *.
apply andb_prop in Hp as [[[[[Hh Hn]%andb_prop Hv]%andb_prop Hlast]%andb_prop Hl1]%andb_prop Hl2]. apply bool_decide_eq_true in Hl1, Hl2. apply negb_true_iff, bool_decide_eq_false in Hlast.
unfold envLine, cstr. rewrite take_while_id.
2: { rewrite forallb_app. cbn [forallb]. rewrite !andb_true_r. apply (forallb_impl line_char (fun c => negb (ceqb c NUL))) in Hc; [|by intros x [? ?]%andb_prop]. by rewrite Hc. }
rewrite chop_snoc, chop_other by (by apply last_assign). cbn [app]. apply negb_true_iff in Hh. rewrite Hh. destruct (name_conf _ Hn) as [_ He].
change (c :: name ++ EQUALS :: value) with ((c :: name) ++ EQUALS :: value). destruct (take_while_app (fun x => negb (ceqb x EQUALS)) (c :: name) (EQUALS :: value) He) as [-> ->]; [by vm_compute|].
by rewrite !take_ge by done.
Qed.

Lemma lines_renderConf kvs : forallb assignOk kvs = true -> forall fuel, (length (renderConf kvs) <= fuel)%nat -> fgets_lines fuel 4095 (renderConf kvs) = map (fun p => (p.1 ++ EQUALS :: p.2) ++ [NL]) kvs.
Proof.
induction kvs as [|p kvs IH]; intros Hk fuel Hf; [by destruct fuel|]. cbn in Hk. apply andb_prop in Hk as [Hp Hk]. destruct (assign_chars p Hp) as [Hc Hl].
change (renderConf (p :: kvs)) with ((p.1 ++ EQUALS :: p.2 ++ [NL]) ++ renderConf kvs) in *. assert (E : (p.1 ++ EQUALS :: p.2 ++ [NL]) ++ renderConf kvs = (p.1 ++ EQUALS :: p.2) ++ NL :: renderConf kvs) by (rewrite <- !app_assoc; cbn; by rewrite <- app_assoc).
rewrite E in *. rewrite length_app in Hf. cbn [length] in Hf. destruct fuel as [|fuel]; [lia|]. destruct (p.1 ++ EQUALS :: p.2) as [|x l] eqn:El; [by destruct p.1|].
cbn [app fgets_lines]. change (x :: l ++ NL :: renderConf kvs) with ((x :: l) ++ NL :: renderConf kvs). rewrite fgets_line by (done || lia). rewrite IH by (done || (cbn in Hf; lia)). cbn [map]. by rewrite El.
Qed.

(** Round trip of the configuration files: a file written as one [name=value] per line sets
exactly these variables, except those that are set already, and the first line of a name wins. *)
Theorem conf_file_roundtrip (file : cstring -> option cstring) fileName kvs w : forallb assignOk kvs = true -> file fileName = Some (renderConf kvs) ->
setEnvFile file fileName w = (Done tt, w <| environ := environ w ∪ list_to_map kvs |>).
Proof.
intros Hk Hf. rewrite setEnvFile_ok. do 4 f_equal. rewrite Hf. cbn [assignments]. unfold file_lines. rewrite lines_renderConf by done. clear Hf. induction kvs as [|p kvs IH]; [done|].
cbn in Hk. apply andb_prop in Hk as [Hp Hk]. cbn [map omap list_omap]. rewrite envLine_render by done. rewrite filter_cons. rewrite decide_True; [by rewrite IH|]. intros Hn. unfold assignOk in Hp. by rewrite Hn in Hp.
Qed.

Lemma conf_file_roundtrip_witness : let kvs := [(lit "NCCL_DEBUG", lit "INFO"); (lit "NCCL_DEBUG", lit "WARN"); (lit "NCCL_IB_HCA", lit "mlx5_0=1")] in
let w := startProcess {[ lit "HOME" := lit "/root" ]} in
fst (setEnvFile (fun _ => Some (renderConf kvs)) (lit "f") w) = Done tt /\ environ (snd (setEnvFile (fun _ => Some (renderConf kvs)) (lit "f") w)) !! lit "NCCL_DEBUG" = Some (lit "INFO").
Proof.
intros kvs w. rewrite (conf_file_roundtrip (fun _ => Some (renderConf kvs)) (lit "f") kvs w); [split; [done|by vm_compute]|by vm_compute|done].
Defined.

(** ** A parameter that is no number *)

Definition noFiles : cstring -> option cstring := fun _ => None.
Definition oneParam : Z -> cstring * Z := fun _ => (lit "IB_TIMEOUT", 20).

(** It is 0, and not the default. *)
Lemma not_a_number_is_zero : fst (paramRun noFiles oneParam [ReadParam 0] (startProcess {[ lit "NCCL_IB_TIMEOUT" := lit "yes" ]})) = Done [inr 0].
Proof. vm_compute. reflexivity. Qed.

(** A cached parameter, and one that is listed. *)
Lemma cached_or_not : fst (paramRun noFiles oneParam [ReadParam 0; AppSetenv (lit "NCCL_IB_TIMEOUT") (lit "22"); ReadParam 0] (startProcess ∅)) = Done [inr 20; inl None; inr 20]
/\ fst (paramRun noFiles oneParam [ReadParam 0; AppSetenv (lit "NCCL_IB_TIMEOUT") (lit "22"); ReadParam 0] (startProcess {[ lit "NCCL_NO_CACHE" := lit "ALL" ]})) = Done [inr 20; inl None; inr 22].
Proof. split; vm_compute; reflexivity. Qed.
