(* ===== verification/HostHash.v ===== *)
(** * Texts and hashes of the host ([misc/utils.cc])

    The text of a set of flags, and the hashes that tell hosts and processes apart.  A buffer
    is the list of its bytes; a write outside it has no meaning. *)

From S2P Require Import Prelude CStr Bitops HostUtils Params.

Open Scope Z_scope.
Open Scope nccl_scope.

Definition BAR : ascii := chr 124.
Arguments BAR : simpl never.

(** ** The text of a set of flags *)

Fixpoint storeAt (buf : cstring) (pos : Z) (cs : cstring) : option cstring :=
match cs with
| [] => Some buf
| c :: cs => buf ← zset buf pos c; storeAt buf (pos + 1) cs
end.

(** [snprintf(buf + pos, size, "%s", text)]: the buffer, and the length that the text has. *)
Definition snprintfAt (buf : cstring) (pos size : Z) (text : cstring) : option (cstring * Z) :=
let kept := if size =? 0 then [] else (if Z.of_nat (length text) <? size then text else take (Z.to_nat (size - 1)) text) ++ [NUL] in
buf ← storeAt buf pos kept; Some (buf, Z.of_nat (length text)).

(** A name, after a bar when it is not the first one; [pos] is an [int]. *)
Definition appendName (buf : cstring) (pos : Z) (name : cstring) : option (cstring * Z) :=
let bufLen := Z.of_nat (length buf) in
'(buf, pos) ← (if 0 <? pos then '(buf, k) ← snprintfAt buf pos (u64 (bufLen - pos)) [BAR]; Some (buf, i32 (pos + k)) else Some (buf, pos));
'(buf, k) ← snprintfAt buf pos (u64 (bufLen - pos)) name;
Some (buf, i32 (pos + k)).

(** The loop over the bits, of which there are 32. *)
Fixpoint bitLoop (fuel : nat) (toStr : Z -> cstring) (i bits pos : Z) (buf : cstring) : option cstring :=
if bits =? 0 then Some buf
else match fuel with
| O => None
| Datatypes.S n =>
 if Z.land bits 1 =? 0 then bitLoop n toStr (i + 1) (Z.shiftr bits 1) pos buf
 else '(buf, pos) ← appendName buf pos (toStr i); bitLoop n toStr (i + 1) (Z.shiftr bits 1) pos buf
end.

(** The result and the buffer; none when a write leaves the buffer. *)
Definition ncclBitsToString (bits mask : Z) (toStr : Z -> cstring) (buf : option cstring) (wildcard : option cstring) : option (ncclResult_t * cstring) :=
match buf with
| None | Some [] => Some (ncclInvalidArgument, default [] buf)
| Some b =>
 let bits := Z.land bits mask in
 match wildcard with
 | Some w => if bits =? mask then '(b, _) ← snprintfAt b 0 (Z.of_nat (length b)) w; Some (ncclSuccess, b) else b ← bitLoop 32 toStr 0 bits 0 b; Some (ncclSuccess, b)
 | None => b ← bitLoop 32 toStr 0 bits 0 b; Some (ncclSuccess, b)
 end
end.

(** ** Hashes *)

Section Host.
(** What [gethostname] gives when it succeeds, the content of [/proc/sys/kernel/random/boot_id],
and of the link [/proc/self/ns/pid], when they can be read; the decimal digits of the pid. *)
Context (gethostname : option cstring) (bootId pidNs : option cstring) (pid : cstring) (file : cstring -> option cstring).

(** The result and the string left in the buffer of [maxlen] bytes. *)
Definition getHostName (maxlen : nat) (delim : ascii) : ncclResult_t * cstring :=
match gethostname with
| None => (ncclSystemError, take maxlen (lit "unknown"))
| Some hostname => (ncclSuccess, take (maxlen - 1) (take_while (fun c => negb (ceqb c delim)) hostname))
end.

(** [fscanf(file, "%ms", &p)]. *)
Definition firstWord (s : cstring) : option cstring :=
match take_while (fun c => negb (is_space c)) (drop_while is_space s) with [] => None | w => Some w end.

(** The string that [getHostHashOnce] hashes, with the value of [NCCL_HOSTID]. *)
Definition hostString (hostId : option cstring) : cstring :=
let name := (getHostName 1024 NUL).2 in
match hostId with
| Some id => take 1023 id
| None => match bootId ≫= firstWord with Some p => name ++ take (1023 - length name) p | None => name end
end.

Definition getHostHashOnce : comp Process Z :=
let* hostId := ncclGetEnv file (lit "NCCL_HOSTID") in
ret (getHash (map code (hostString hostId))).

(** [hostHashValue] is set once. *)
Definition getHostHash (value : option Z) : comp Process Z :=
match value with Some v => ret v | None => getHostHashOnce end.

(** The pid and the name of its namespace. *)
Definition pidString : cstring := pid ++ take (1023 - length pid) (default [] pidNs).

Definition getPidHash : Z := getHash (map code pidString).
End Host.

(** ** The text, verified *)

(** The bits that are set, from [i] on. *)
Fixpoint setBits (n : nat) (i bits : Z) : list Z :=
match n with
| O => []
| Datatypes.S n => (if Z.land bits 1 =? 0 then [] else [i]) ++ setBits n (i + 1) (Z.shiftr bits 1)
end.

Fixpoint joinBar (names : list cstring) : cstring :=
match names with
| [] => []
| [n] => n
| n :: names => n ++ BAR :: joinBar names
end.

Lemma storeAt_app : forall cs w r, (length cs <= length r)%nat -> storeAt (w ++ r) (Z.of_nat (length w)) cs = Some (w ++ cs ++ drop (length cs) r).
Proof.
induction cs as [|c cs IH]; intros w [|x r] Hl; cbn in Hl; try lia; [done..|]. cbn [storeAt]. unfold zset. rewrite decide_True by (rewrite length_app; cbn; lia). cbn [mbind option_bind].
rewrite Nat2Z.id. replace (length w) with (length w + 0)%nat at 1 by lia. rewrite insert_app_r. cbn [list_insert insert]. specialize (IH (w ++ [c]) r ltac:(lia)). rewrite length_app in IH. cbn [length] in IH.
replace (Z.of_nat (length w) + 1) with (Z.of_nat (length w + 1)) by lia. rewrite <- !app_assoc in IH. exact IH.
Qed.

(** A text that fits. *)
Lemma snprintfAt_fits w r text : (length text < length r)%nat -> Z.of_nat (length (w ++ r)) < 2 ^ 31 ->
exists r', snprintfAt (w ++ r) (Z.of_nat (length w)) (u64 (Z.of_nat (length (w ++ r)) - Z.of_nat (length w))) text = Some ((w ++ text) ++ NUL :: r', Z.of_nat (length text)) /\ length r = (length text + Datatypes.S (length r'))%nat.
Proof.
intros Ht Hl. rewrite length_app in *. unfold snprintfAt. rewrite wrapU_small by (unfold in_u; lia). replace (Z.of_nat (length w + length r) - Z.of_nat (length w)) with (Z.of_nat (length r)) by lia.
rewrite (proj2 (Z.eqb_neq _ 0)) by lia. rewrite (proj2 (Z.ltb_lt _ _)) by lia. rewrite storeAt_app by (rewrite length_app; cbn; lia). cbn [mbind option_bind]. exists (drop (length (text ++ [NUL])) r).
split; [by rewrite <- !app_assoc|]. rewrite length_drop, length_app. cbn. lia.
Qed.

(** What the names add to a text. *)
Definition addName (w n : cstring) : cstring := match w with [] => n | _ => w ++ BAR :: n end.

Lemma fold_join : forall names w, Forall (fun n => n <> []) names -> w <> [] -> fold_left addName names w = w ++ concat (map (cons BAR) names).
Proof.
induction names as [|n names IH]; intros w Hn Hw; [cbn; by rewrite app_nil_r|]. apply Forall_cons in Hn as [Hn Hns]. cbn [fold_left map concat].
rewrite IH; [|done|by destruct w]. destruct w; [done|]. unfold addName. by rewrite <- app_assoc.
Qed.

Lemma joinBar_fold names : Forall (fun n => n <> []) names -> fold_left addName names [] = joinBar names.
Proof.
destruct names as [|n names]; [done|]. intros [Hn Hns]%Forall_cons. cbn [fold_left addName]. rewrite fold_join by done. clear Hn. revert n. induction names as [|m names IH]; intros n; [cbn; by rewrite app_nil_r|].
apply Forall_cons in Hns as [Hm Hns]. change (joinBar (n :: m :: names)) with (n ++ BAR :: joinBar (m :: names)). rewrite <- (IH Hns m). done.
Qed.

Lemma setBits_shift n bits : 0 <= bits < 2 ^ Z.of_nat (Datatypes.S n) -> 0 <= Z.shiftr bits 1 < 2 ^ Z.of_nat n.
Proof.
intros Hb. rewrite Z.shiftr_div_pow2 by lia. change (2 ^ 1) with 2. rewrite Nat2Z.inj_succ, Z.pow_succ_r in Hb by lia. split; [apply Z.div_pos; lia|apply Z.div_lt_upper_bound; lia].
Qed.

Lemma appendName_ok w r name : (length (addName w name) < length (w ++ r))%nat -> Z.of_nat (length (w ++ r)) < 2 ^ 31 ->
exists r', appendName (w ++ r) (Z.of_nat (length w)) name = Some (addName w name ++ NUL :: r', Z.of_nat (length (addName w name))) /\ length (addName w name ++ NUL :: r') = length (w ++ r).
Proof.
intros Hl Hmax. unfold appendName. cbv zeta. destruct w as [|c w].
- destruct (snprintfAt_fits [] r name Hl Hmax) as (r' & E & Hr). change (Z.of_nat (length [])) with 0 in *. change (0 <? 0) with false. cbn [mbind option_bind]. rewrite E. cbn [mbind option_bind]. exists r'.
  cbn [app length addName] in *. rewrite Z.add_0_l, wrapS_small by (unfold in_s; lia). split; [done|]. rewrite length_app. cbn. lia.
- set (v := c :: w) in *. assert (addName v name = v ++ BAR :: name) as Ea by done. rewrite Ea in *. rewrite !length_app in Hl. cbn [length] in Hl. rewrite (proj2 (Z.ltb_lt 0 _)) by (unfold v; cbn; lia).
  destruct (snprintfAt_fits v r [BAR] ltac:(cbn; lia) Hmax) as (r1 & E1 & Hr1). rewrite E1. cbn [mbind option_bind]. cbn [length] in Hr1. rewrite length_app in Hmax. rewrite wrapS_small by (unfold in_s; cbn [length]; lia).
  replace (Z.of_nat (length v) + Z.of_nat (length [BAR])) with (Z.of_nat (length (v ++ [BAR]))) by (rewrite length_app; cbn; lia).
  assert (Hlen : length (v ++ r) = length ((v ++ [BAR]) ++ NUL :: r1)) by (rewrite !length_app; cbn; lia). rewrite Hlen.
  destruct (snprintfAt_fits (v ++ [BAR]) (NUL :: r1) name) as (r2 & E2 & Hr2); [cbn; lia|rewrite <- Hlen, length_app; lia|]. rewrite E2. cbn [mbind option_bind]. exists r2. cbn [length] in Hr2.
  assert (Hn : Z.of_nat (length (v ++ [BAR])) + Z.of_nat (length name) = Z.of_nat (length (v ++ BAR :: name))) by (rewrite !length_app; cbn; lia). rewrite Hn, wrapS_small by (unfold in_s; rewrite ?length_app; cbn [length]; lia).
  rewrite <- (app_assoc v [BAR]). split; [done|]. rewrite !length_app. cbn. rewrite length_app in Hlen. cbn in *. lia.
Qed.

Lemma setBits_zero n i : setBits n i 0 = [].
Proof. revert i. induction n as [|n IH]; intros i; [done|]. cbn. apply IH. Qed.

Lemma addName_grows : forall names w, (length w <= length (fold_left addName names w))%nat.
Proof. induction names as [|n names IH]; intros w; [done|]. cbn. etransitivity; [|apply IH]. unfold addName. destruct w; cbn; rewrite ?length_app; lia. Qed.

(** The loop extends a text [w] that is ended in the buffer. *)
Lemma bitLoop_ok toStr : forall n i bits w r, 0 <= bits < 2 ^ Z.of_nat n -> (length (fold_left addName (map toStr (setBits n i bits)) w) < length (w ++ r))%nat -> Z.of_nat (length (w ++ r)) < 2 ^ 31 ->
exists r', bitLoop n toStr i bits (Z.of_nat (length w)) (w ++ r) = Some (fold_left addName (map toStr (setBits n i bits)) w ++ r') /\ if bits =? 0 then r' = r else exists r2, r' = NUL :: r2.
Proof.
induction n as [|n IH]; intros i bits w r Hb Hlen Hmax.
{ cbn in Hb. assert (bits = 0) as -> by lia. by exists r. }
cbn [bitLoop]. destruct (bits =? 0) eqn:E0; [apply Z.eqb_eq in E0 as ->; rewrite setBits_zero; by exists r|]. apply Z.eqb_neq in E0. pose proof (setBits_shift n bits Hb) as Hs. cbn [setBits] in *.
destruct (Z.land bits 1 =? 0) eqn:El; cbn [app] in *.
- destruct (IH (i + 1) (Z.shiftr bits 1) w r Hs Hlen Hmax) as (r' & E & H1). exists r'. split; [done|]. destruct (Z.shiftr bits 1 =? 0) eqn:Ez; [|done]. apply Z.eqb_eq in El, Ez.
  pose proof (Z.land_ones bits 1 ltac:(lia)) as Ho. change (Z.ones 1) with 1 in Ho. rewrite Z.shiftr_div_pow2 in Ez by lia. change (2 ^ 1) with 2 in *. pose proof (Z.div_mod bits 2). lia.
- cbn [map fold_left] in *. pose proof (addName_grows (map toStr (setBits n (i + 1) (Z.shiftr bits 1))) (addName w (toStr i))) as Hg.
  destruct (appendName_ok w r (toStr i) ltac:(lia) Hmax) as (r1 & E1 & Hl1). rewrite E1. cbn [mbind option_bind]. destruct (IH (i + 1) (Z.shiftr bits 1) (addName w (toStr i)) (NUL :: r1) Hs ltac:(lia) ltac:(lia)) as (r' & -> & H1).
  exists r'. split; [done|]. destruct (Z.shiftr bits 1 =? 0); [by exists r1|done].
Qed.

(** The text of a set of flags: when the names of the bits that are set, in order and with bars
between them, fit the buffer with the NUL, that text is what the buffer holds, and nothing else is
written outside it. *)
Theorem ncclBitsToString_joins bits mask toStr buf : 0 <= bits < 2 ^ 32 -> 0 <= mask < 2 ^ 32 -> Z.land bits mask <> 0 -> Z.of_nat (length buf) < 2 ^ 31 ->
(forall i, toStr i <> []) -> (length (joinBar (map toStr (setBits 32 0 (Z.land bits mask)))) < length buf)%nat ->
exists r, ncclBitsToString bits mask toStr (Some buf) None = Some (ncclSuccess, joinBar (map toStr (setBits 32 0 (Z.land bits mask))) ++ NUL :: r).
Proof.
intros Hb Hm H0 Hmax Hne Hlen. rewrite <- joinBar_fold in * by (apply Forall_forall; intros x (i & -> & _)%(list_elem_of_fmap toStr); apply Hne).
destruct buf as [|c buf]; [cbn in Hlen; lia|]. unfold ncclBitsToString.
assert (Hr : 0 <= Z.land bits mask < 2 ^ Z.of_nat 32).
{ split; [apply Z.land_nonneg; lia|]. change (Z.of_nat 32) with 32. destruct (decide (Z.land bits mask = 0)); [done|]. apply Z.log2_lt_pow2; [pose proof (Z.land_nonneg bits mask); lia|].
  pose proof (Z.log2_land bits mask ltac:(lia) ltac:(lia)) as Hl. assert (Z.log2 bits < 32); [|lia]. destruct (decide (bits = 0)) as [->|]; [cbn; lia|apply Z.log2_lt_pow2; lia]. }
destruct (bitLoop_ok toStr 32 0 (Z.land bits mask) [] (c :: buf) Hr Hlen Hmax) as (r' & E & H1). rewrite (proj2 (Z.eqb_neq _ 0)) in H1 by done. destruct H1 as [r ->]. exists r. change (Z.of_nat (length [])) with 0 in E. cbn [app] in E. by rewrite E.
Qed.

Definition flagName (i : Z) : cstring := chr (65 + i) :: lit "FLAG".

Lemma ncclBitsToString_joins_witness : exists r, ncclBitsToString 5 7 flagName (Some (repeat SP 16)) None = Some (ncclSuccess, lit "AFLAG|CFLAG" ++ NUL :: r).
Proof.
destruct (ncclBitsToString_joins 5 7 flagName (repeat SP 16)) as [r E]; [lia|lia|done|vm_compute; done|done|vm_compute; lia|]. exists r. rewrite E. by vm_compute.
Defined.

(** When the text is longer than the buffer, the name after the one that did not fit is written
outside it. *)
Lemma long_text_leaves_buffer : ncclBitsToString 7 15 flagName (Some (repeat SP 8)) None = None /\ ncclBitsToString 3 15 flagName (Some (repeat SP 8)) None = Some (ncclSuccess, lit "AFLAG|B" ++ [NUL]).
Proof. split; vm_compute; reflexivity. Qed.

(** No bit, no text: the buffer is not written. *)
Lemma no_bits_no_text mask toStr c buf : ncclBitsToString 0 mask toStr (Some (c :: buf)) None = Some (ncclSuccess, c :: buf).
Proof. reflexivity. Qed.

(** ** The identity of the host *)

(** It fits its buffer of 1024 bytes. *)
Lemma hostString_fits gethostname bootId hostId : (length (hostString gethostname bootId hostId) <= 1023)%nat.
Proof.
unfold hostString, getHostName. destruct hostId as [id|]; [rewrite length_take; lia|]. set (name := snd _). assert (length name <= 1023)%nat.
{ unfold name. destruct gethostname; cbn [snd]; rewrite length_take; [lia|cbn; lia]. }
destruct (bootId ≫= firstWord) as [p|]; [|done]. rewrite length_app, length_take. lia.
Qed.

(** The user's identity replaces the name and the boot identifier. *)
Lemma hostString_override gethostname bootId id : (length id <= 1023)%nat -> hostString gethostname bootId (Some id) = id.
Proof. intros Hl. cbn. by apply take_ge. Qed.
